(* ===== verification/_CoqProject ===== *)
-Q . S2P
Prelude.v
RustStr.v
Model.v
Execution.v
MysqlLex.v
Scanner.v
Statements.v
Targets.v
Policy.v
Retention.v
Secrets.v
Profile.v
Config.v
ConfigWriter.v
ConfigSafety.v
WriterLogic.v
WriterSafety.v
WriterTheorems.v
Drivers.v
Service.v
ServiceLogic.v
ServiceSafety.v
ServiceSystem.v
ServiceWriter.v
ServiceRuns.v
ServiceTheorems.v
ServiceEffects.v
PublicError.v
RedisBrowser.v
RedisBrowserSafety.v
RedisDecode.v
Export.v
RedisDecodeSafety.v
RedisRows.v
RedisSessions.v
UiModel.v
UiModelSafety.v
RedisExplorer.v
RuntimeEvents.v
DraftTests.v
Tokio.v
CommandPorts.v
ProfileForm.v
ProfileFormSafety.v
ProfileFormSaves.v
Editor.v
MysqlDriver.v
MysqlRows.v
MysqlCatalog.v
TokenKeyFile.v
TokenKeySafety.v
CatalogRetained.v
CatalogTokens.v
MysqlExplorer.v
CatalogPaging.v
CatalogTemplate.v
ExportSpec.v
ExportText.v
ExportFiles.v
ExportFileTheorems.v
RuntimeTasks.v
Headless.v
DriverSessions.v
Cli.v
RuntimeTruth.v
Runtime.v
RuntimeSystem.v
RuntimeMoves.v
RuntimeReplies.v
RuntimeSafety.v
RuntimeTheorems.v
RuntimeKeys.v
App.v
AppCommands.v
ResultView.v
AppEvents.v
AppPorts.v
Program.v
AppSafety.v
