(* ===== verification/Prelude.v ===== *)
(** * dbotter: verification library

    dbotter is a desktop client for MySQL and Redis: an egui interface (src/src/ui) sends
    commands over bounded queues to a tokio runtime (src/src/ui/runtime.rs), whose tasks
    call an application service (src/src/service.rs); the service owns the configuration
    file (src/src/config.rs), the credentials (src/src/secrets.rs) and the sessions of the
    drivers (src/src/drivers); events travel back and are folded into the interface's
    model (src/src/ui/model.rs).  This library models that program, part by part, and
    proves what each part promises.

    ** Files and the code they model

    Foundations.
    - [Prelude]: [result] as Rust's [Result], machine integers, lists, automation.
    - [RustStr]: [&str] as a list of scalar values, UTF-8, byte and character indices,
      the functions of [core::str] and [core::char] that the program calls.

    Data and execution (src/src/model.rs, src/src/execution.rs).
    - [Model]: identifiers, profiles, drafts, typed requests and their validators.
    - [Execution]: statement scanner, extraction of the target, Redis policy, read and
      mutation classifier.  [MysqlLex] is a reference lexer; [Scanner] proves that the
      byte-level scanner equals it on every text; [Statements] and [Targets] draw the
      consequences; [Policy] compares deny list and classifier.
    - [Retention]: [ResultSnapshot::retain] within its byte, row, column and cell limits.
    - [Export]: CSV, TSV and JSON over an arbitrary writer (src/src/export.rs);
      [ExportSpec] proves that a prefix of the format's text is written, all of it on
      success; [ExportText] reads the texts back.
    - [ExportFiles]: the file of an export (src/src/export_file.rs) over a file system with
      inodes, failing calls, short writes and other processes; [ExportFileTheorems]: the
      file is whole or absent.

    Configuration and credentials (src/src/config.rs, src/src/secrets.rs).
    - [Secrets], [Profile] (validation, slugs), [Config] (data, checked mutations,
      decoding), [ConfigWriter] ([mutate_path] over an explicit file system in which
      every call may fail).  [ConfigSafety], [WriterLogic] (a calculus of weakest
      preconditions), [WriterSafety] and [WriterTheorems] hold the theorems: atomic
      replacement, external changes survive, migrations back up, success on a healthy
      platform.

    The service (src/src/service.rs, src/src/drivers/mod.rs).
    - [Drivers]: driver errors and what they mean for a session; [DriverSessions]: sessions
      of both drivers behind the service's traits, connecting by driver.
    - [Service]: one function per critical section and per operation.  [ServiceLogic] has
      the rules of its monad; [ServiceSystem] is the transition system of its critical
      sections under any interleaving, with the invariant of reachable states;
      [ServiceRuns] proves that every operation is a run of it; [ServiceSafety],
      [ServiceTheorems] and [ServiceEffects] hold the theorems on generations, leases,
      sessions and mutations; [ServiceWriter] discharges the interface [EnvLaws] with
      the configuration writer.
    - [PublicError]: the recovery matrix (src/src/public_error.rs).
    - [DraftTests]: connection tests of unsaved profiles.
    - [Headless]: check, execute, browse and inspect from beginning to end, and that a task
      of the runtime nobody disturbs does the same; [Cli] (src/src/cli.rs, main.rs,
      error.rs): from the parsed command to the exit code.

    Browsing (src/src/drivers).
    - [RedisBrowser], [RedisBrowserSafety]: SCAN pages and the preview of a key; a
      computation is a tree of commands and continuations, the server is a parameter.
    - [MysqlCatalog], [CatalogRetained], [CatalogTokens], [CatalogTemplate]: catalog pages,
      the budget of retained nodes, continuation tokens, the SELECT of a relation.
    - [TokenKeyFile], [TokenKeySafety]: the file of the catalog's token key, which processes
      read or create at the same time, as trees of system calls over one disk; by rely and
      guarantee they agree on the key.
    - [MysqlExplorer] (src/src/ui/mysql_explorer.rs), [CatalogPaging]: the explorer's
      state, and driver and explorer composed over a whole listing.
    - [MysqlDriver] (src/src/drivers/mysql.rs): the options and the deadline of a connection,
      decoding by column type, the memory budget of a result and the loop over a
      statement's stream; [MysqlRows]: the rows are bounded and unaltered.
    - [RedisDecode] (src/src/drivers/redis.rs): the TLS policy of a connection, the bounded
      measure of a reply and its decoding into rows; [RedisDecodeSafety]: the measure is
      the size of the JSON; [RedisRows]: the rows are bounded and unaltered;
      [RedisSessions]: required TLS is never given up.

    Interface and runtime (src/src/ui).
    - [UiModel], [UiModelSafety]: the fold of events into the model.
    - [Editor]: from the text and the caret to the command, and on to the typed request.
    - [Tokio]: channels and semaphores as an interface with documented laws, and an
      instance; [CommandPorts]: the lanes between interface and runtime (adapter.rs).
    - [RuntimeEvents]: outcomes and failures as events; [RuntimeTasks]: what each task
      does and reports; [RuntimeTruth]: tasks, service and model composed.
    - [Runtime]: the controller's state, registry, permits and handlers;
      [RuntimeSystem]: interface, tasks and controller as a transition system
      ([run_controller], [finish_controller_shutdown], [run_unavailable]);
      [RuntimeMoves]: every handler as a sequence of moves over what it still owes;
      [RuntimeReplies]: every task answers for its own operation; [RuntimeSafety]: the
      invariants, move by move; [RuntimeTheorems], [RuntimeKeys]: what holds of every
      reachable state.
    - [RedisExplorer] (src/src/ui/redis_explorer.rs): the key list and the preview, what the
      widgets ask for, and that the list is one SCAN cycle.
    - [ResultView] (src/src/ui/result_view.rs): selection, copying and the buttons of the
      result table; what is copied reads back.
    - [ProfileForm] (src/src/ui/profile_form.rs): the draft's text fields, their validation,
      Save, Test draft and events; [ProfileFormSafety]: what the form accepts, and that
      editing keeps a profile; [ProfileFormSaves]: the invariant of reachable forms and
      what Save sends.
    - [App], [AppCommands], [AppEvents] (src/src/ui/app.rs): the application's state and what
      each event does to it; what buttons, retries and recoveries submit; the polling
      loop, the actions of the windows and the buttons of a profile's card.  [AppPorts]:
      what all of it does to the queues; [Program]: application and runtime on the ports
      they share, and every task traced back to the user's action; [AppSafety]: the registry of retries, what is
      forgotten with a profile, and deletions that fail.

    ** What the theorems show

    - Files: all processes agree on one catalog key per configuration; [mutate_path]
      leaves the old content or the new one, never a mixture, and overwrites neither a
      backup nor an external change that is there when the file is rechecked; an export leaves its destination alone or puts the complete text there,
      replacing nothing under DenyOverwrite and, under ReplaceConfirmed, after a check of
      the file's identity.  What another process does between the last check and the
      rename of a configuration or of a confirmed destination is not excluded, as the
      source says.
    - Text: the scanner agrees with a lexer on every input, and what the editor extracts
      is what the driver receives ([Editor.editor_runs_target]).
    - Limits: snapshots, scans, previews, catalog budgets and permits stay within their
      bounds, and what is dropped is reported; a part that is shortened inside the JSON of
      an entry of a Redis hash, sorted set or stream reports it in that part only.
    - Sessions: under every interleaving a result is reported only for the unchanged
      profile its lease was taken for, every handle is cached or closed exactly once,
      generations are not reused, a deleted profile stays deleted in the interface, and
      the connection the interface shows is the connection the service holds.
    - Runtime: for every command exactly one answer is offered to the queue of events,
      whatever panics or is aborted;
      two tasks never use the session of one profile; at most four operations use the
      network; one mutation runs at a time; tasks never wait in a circle; a control key
      is held only while its control is under way.
    - Application: all of this holds while the real application drives the runtime
      ([Program.runs_reached]); every task that runs is the one command of one action of the
      user, or loads, connects or browses ([Program.whatever_runs_was_asked]); nothing
      outlives the generation of its profile; the form only submits what the service's own checks accept (the content of a CA file
      apart), and Save sends one command or changes nothing; the Redis explorer shows exactly the pages of one cycle.
    - Drivers: a profile that requires TLS is never served without it, and what a Redis or
      MySQL server sends becomes rows that are bounded, unaltered and complete unless
      reported as truncated.
    - Command line: it does what an undisturbed task does ([Headless.execute_at_is_task]),
      changes no file, ends with an exit code and a fixed message, and never contacts a
      server for a profile whose credential is kept for a session.
    - Defects that modelling showed are theorems too: [AppSafety.failed_deletion_stays_closing],
      [AppSafety.redis_end_lost_during_delete], [AppSafety.reopened_prompt_loses_retry],
      [ProfileFormSaves.uncertain_save_locks_form], [RedisBrowserSafety.long_pair_unflagged],
      [RuntimeEvents.denied_execution_shown_as_internal],
      [RuntimeEvents.syntax_error_is_network].

    ** Modelling decisions

    - Integers are [N] with the width of the source where it matters: saturating and
      checked additions of 64 bits, generations of 64 bits.
    - A slice that could panic, an index out of range and a spent fuel are [None] or an
      error of their own; theorems state that they do not occur.
    - Fuel: the scanner's and the quoted-text loops run on the length of the text, the
      lexer, UTF-8 decoding and number printing on the length or the value of their
      input, [allocate_loop] on one more than the number of profiles, browsing a listing
      on one more than its nodes, draining a queue on its length, [write_all_loop] on the
      bytes left and a bound on the interruptions of the writer.
    - [MAX_PROFILES] (2^30) bounds the profiles of a configuration, and runs are bounded
      by 2^32 critical sections, so that 64-bit generations do not run out.
    - The content of the token key's file, once read, is an input of the tasks.
    - Service: an operation is atomic per critical section; what other operations do in
      between is a parameter ([tr_others] of a task, the steps of [ServiceSystem]).
    - Runtime: a task acts on the service in one step at its end, and, between its waits,
      in steps that are arbitrary ([task_uses_service]); cancellation tokens and
      semaphores are known by their address; semaphores have no queue, so any waiter may
      be served; the order of a hash map is any permutation; [rn_started] and
      [rn_offered] are the history of commands taken and events offered, and an event is
      offered even when the queue of events is full and drops it.
    - Application: a press is one [AppAction]; the order in which presses, polls and the
      runtime's steps follow each other is arbitrary ([Program]).  An intent that a widget
      returns is any intent, which includes the ones the widget can return.  What the
      environment, the file picker, the desktop and file metadata say are arguments.
    - Parameters: [shell_words], the [clap], [toml], [redis], [sqlx], [base64] and
      [serde_json] crates, the sizes of Rust's values,
      hashes, certificate parsing, printing of floats and dates, the servers' replies, the
      file system's failures, clocks, and tokio's channels and semaphores.  The laws that
      are relied on are named classes or hypotheses, each with an instance.

    ** Not modelled

    - Drawing: layout, labels, colours and accessibility names of egui widgets (app.rs,
      theme.rs, layout.rs, accessibility.rs), the text cursor inside egui's editor, native
      file dialogs.  They hold no state that a command depends on beyond the intents
      modelled here.
    - Network calls: the calls of client crates in src/src/drivers, which are parameters
      where other code depends on them; drivers/mongodb.rs only reports itself unavailable.
    - Parsing of command-line arguments, build constants, [Debug] texts, zeroization of
      memory, scripts. *)

From stdpp Require Export base decidable list list_numbers numbers strings gmap sets.
From Stdlib Require Export Lia ZifyBool ZifyN ZifyNat.

#[global] Set Default Goal Selector "!".

#[global] Arguments N.eqb : simpl never.
#[global] Arguments N.leb : simpl never.
#[global] Arguments N.ltb : simpl never.

Declare Scope dbotter_scope.
Delimit Scope dbotter_scope with dbotter.
#[global] Open Scope dbotter_scope.

(** ** Fallible computations: Rust's [Result<A, E>] *)

Inductive result (E A : Type) : Type :=
| Ok (a : A)
| Err (e : E).
Arguments Ok {E A} a.
Arguments Err {E A} e.

#[export] Instance result_eq_dec `{EqDecision E, EqDecision A} : EqDecision (result E A).
Proof. solve_decision. Defined.

#[export] Instance result_ret E : MRet (result E) := fun _ a => Ok a.
#[export] Instance result_bind E : MBind (result E) :=
  fun _ _ f m => match m with Ok a => f a | Err e => Err e end.
#[export] Instance result_fmap E : FMap (result E) :=
  fun _ _ f m => match m with Ok a => Ok (f a) | Err e => Err e end.

(** [Result::map_err]. *)
Definition map_err {E F A} (f : E -> F) (m : result E A) : result F A :=
  match m with Ok a => Ok a | Err e => Err (f e) end.

(** [Option::ok_or]. *)
Definition ok_or {E A} (o : option A) (e : E) : result E A :=
  match o with Some a => Ok a | None => Err e end.

Definition is_ok {E A} (m : result E A) : bool :=
  match m with Ok _ => true | Err _ => false end.
Definition is_err {E A} (m : result E A) : bool := negb (is_ok m).

Definition ok {E A} (m : result E A) : option A :=
  match m with Ok a => Some a | Err _ => None end.

Lemma result_bind_Ok {E A B} (m : result E A) (f : A -> result E B) b :
  m ≫= f = Ok b <-> exists a, m = Ok a /\ f a = Ok b.
Proof. destruct m; cbn; split; naive_solver. Qed.

Lemma result_bind_Err {E A B} (m : result E A) (f : A -> result E B) e :
  m ≫= f = Err e <-> m = Err e \/ exists a, m = Ok a /\ f a = Err e.
Proof. destruct m; cbn; split; naive_solver. Qed.

Lemma map_err_Ok {E F A} (f : E -> F) (m : result E A) a :
  map_err f m = Ok a <-> m = Ok a.
Proof. destruct m; cbn; naive_solver. Qed.

Lemma ok_or_Ok {E A} (o : option A) (e : E) a : ok_or o e = Ok a <-> o = Some a.
Proof. destruct o; cbn; naive_solver. Qed.

(** [if c { return Err(e) }]: the guard that opens most validators. *)
Definition reject_if {E} (c : bool) (e : E) : result E unit :=
  if c then Err e else Ok tt.

Lemma reject_if_Ok {E} (c : bool) (e : E) u : reject_if c e = Ok u <-> c = false.
Proof. destruct c, u; cbn; naive_solver. Qed.

(** ** Machine integers

    [usize], [u64], [u32] and [u16] are the corresponding initial segments of
    [N]; [i64] is a segment of [Z].  The platforms the program supports are
    64-bit (the source asserts [usize::BITS <= u64::BITS]). *)

Definition USIZE_MAX : N := 18446744073709551615.
Definition U64_MAX : N := 18446744073709551615.
Definition U32_MAX : N := 4294967295.
Definition U16_MAX : N := 65535.
Definition I64_MAX : Z := 9223372036854775807.

Definition saturating_add (a b : N) : N := N.min (a + b) USIZE_MAX.
Definition saturating_sub (a b : N) : N := a - b.
Definition checked_add (a b : N) : option N :=
  if (a + b <=? USIZE_MAX)%N then Some (a + b)%N else None.
Definition checked_sub (a b : N) : option N :=
  if (b <=? a)%N then Some (a - b)%N else None.

Lemma saturating_add_exact a b : (a + b <= USIZE_MAX)%N -> saturating_add a b = (a + b)%N.
Proof. unfold saturating_add. lia. Qed.

Lemma saturating_add_le a b : (saturating_add a b <= a + b)%N.
Proof. unfold saturating_add. lia. Qed.

Lemma saturating_add_ge_l a b : (a <= USIZE_MAX)%N -> (a <= saturating_add a b)%N.
Proof. unfold saturating_add. lia. Qed.

Lemma saturating_add_bounded a b m :
  (m < USIZE_MAX)%N -> (saturating_add a b <= m)%N -> saturating_add a b = (a + b)%N.
Proof. unfold saturating_add. lia. Qed.

(** ** Lists *)

(** [Iterator::position]. *)
Fixpoint position {A} (p : A -> bool) (l : list A) : option nat :=
  match l with
  | [] => None
  | x :: l => if p x then Some 0 else S <$> position p l
  end.

(** [Iterator::take_while]. *)
Fixpoint take_while {A} (p : A -> bool) (l : list A) : list A :=
  match l with
  | [] => []
  | x :: l => if p x then x :: take_while p l else []
  end.

Fixpoint drop_while {A} (p : A -> bool) (l : list A) : list A :=
  match l with
  | [] => []
  | x :: l' => if p x then drop_while p l' else l
  end.

Lemma take_drop_while {A} (p : A -> bool) l : take_while p l ++ drop_while p l = l.
Proof. induction l as [|x l IH]; cbn; [done|]. destruct (p x); cbn; congruence. Qed.

Lemma position_None {A} (p : A -> bool) l :
  position p l = None <-> Forall (fun x => p x = false) l.
Proof.
  induction l as [|x l IH]; cbn; [by split; constructor|].
  rewrite Forall_cons. destruct (p x) eqn:Hx.
  - split; [done|naive_solver].
  - rewrite fmap_None, IH. naive_solver.
Qed.

Lemma position_Some {A} (p : A -> bool) l n :
  position p l = Some n ->
  exists x, l !! n = Some x /\ p x = true /\ Forall (fun y => p y = false) (take n l).
Proof.
  revert n; induction l as [|x l IH]; intros n; cbn; [done|].
  destruct (p x) eqn:Hx; [intros [= <-]; exists x; by repeat split; try constructor|].
  intros Hm. apply fmap_Some in Hm as (m & Hm & ->).
  destruct (IH m Hm) as (y & Hy & Hp & Hall). exists y.
  repeat split; [done|done|]. by constructor.
Qed.

Lemma drop_while_head {A} (p : A -> bool) l x r : drop_while p l = x :: r -> p x = false.
Proof.
  induction l as [|y l IH]; cbn; [done|]. destruct (p y) eqn:?; [done|].
  by intros [= -> ->].
Qed.

Lemma take_while_Forall {A} (p : A -> bool) l : Forall (fun x => p x = true) (take_while p l).
Proof.
  induction l as [|x l IH]; cbn; [constructor|].
  destruct (p x) eqn:?; by constructor.
Qed.

Lemma existsb_elem_of {A} (p : A -> bool) (l : list A) :
  existsb p l = true <-> exists x, x ∈ l /\ p x = true.
Proof. rewrite existsb_exists. by setoid_rewrite list_elem_of_In. Qed.

Lemma existsb_false_elem_of {A} (p : A -> bool) (l : list A) :
  existsb p l = false <-> forall x, x ∈ l -> p x = false.
Proof.
  rewrite <- not_true_iff_false, existsb_elem_of. split.
  - intros Hn x Hx. apply not_true_is_false. naive_solver.
  - intros Hall (x & Hx & Hp). by rewrite Hall in Hp.
Qed.

Definition sum_N (l : list N) : N := foldr N.add 0%N l.

Lemma sum_N_app a b : sum_N (a ++ b) = (sum_N a + sum_N b)%N.
Proof. induction a as [|x a IH]; cbn in *; [done|]. unfold sum_N in *. cbn. rewrite IH. lia. Qed.

(** ** Automation *)

Create HintDb dbotter.
Create Rewrite HintDb dbotter.
#[export] Hint Rewrite @result_bind_Ok @map_err_Ok @ok_or_Ok @reject_if_Ok : dbotter.

(** Splits every [Ok]-chain hypothesis of a validator into its guards. *)
Ltac invert_ok :=
  repeat match goal with
  | H : _ ≫= _ = Ok _ |- _ =>
      let a := fresh "a" in
      apply result_bind_Ok in H; destruct H as (a & ? & H)
  | H : map_err _ _ = Ok _ |- _ => apply map_err_Ok in H
  | H : ok_or _ _ = Ok _ |- _ => apply ok_or_Ok in H
  | H : reject_if _ _ = Ok _ |- _ => apply reject_if_Ok in H
  | H : Ok _ = Ok _ |- _ => injection H as H
  | H : Err _ = Ok _ |- _ => discriminate H
  end.

(** Destructs the scrutinee of every remaining [match] or [if]. *)
Ltac case_all :=
  repeat (case_match; simplify_eq/=; try done).
