(* ===== verification/RustStr.v ===== *)
(** * Rust strings and bytes

    A [&str]/[String] is the list of its Unicode scalar values ([str]); its
    bytes are the UTF-8 encoding [bytes], so byte lengths, byte indices and
    char boundaries are those of the real representation.  The functions of
    [core::str] and [core::char] the program calls are defined here once. *)

From S2P Require Import Prelude.

Abbreviation char := N (only parsing).
Abbreviation str := (list N) (only parsing).
Abbreviation bytes := (list N) (only parsing).

(** ASCII literals of the source. *)
Fixpoint lit (s : string) : str :=
  match s with
  | EmptyString => []
  | String.String a s => Ascii.N_of_ascii a :: lit s
  end.

(** ** UTF-8 *)

(** [char::encode_utf8]. *)
Definition encode_char (c : char) : bytes :=
  (if c <? 0x80 then [c]
   else if c <? 0x800 then [N.lor 0xC0 (N.shiftr c 6); N.lor 0x80 (N.land c 0x3F)]
   else if c <? 0x10000 then
     [N.lor 0xE0 (N.shiftr c 12); N.lor 0x80 (N.land (N.shiftr c 6) 0x3F);
      N.lor 0x80 (N.land c 0x3F)]
   else
     [N.lor 0xF0 (N.shiftr c 18); N.lor 0x80 (N.land (N.shiftr c 12) 0x3F);
      N.lor 0x80 (N.land (N.shiftr c 6) 0x3F); N.lor 0x80 (N.land c 0x3F)])%N.

(** [str::as_bytes]. *)
Fixpoint encode (s : str) : bytes :=
  match s with
  | [] => []
  | c :: s => encode_char c ++ encode s
  end.

(** [char::len_utf8] and [str::len]. *)
Definition len_utf8 (c : char) : nat := length (encode_char c).
Definition byte_len (s : str) : nat := length (encode s).
Definition str_len (s : str) : N := N.of_nat (byte_len s).

(** The prefix of [s] that takes [n] bytes, when [n] is a char boundary. *)
Fixpoint split_at_byte (s : str) (n : nat) : option (str * str) :=
  match s with
  | [] => if decide (n = 0) then Some ([], []) else None
  | c :: s' =>
      if decide (n = 0) then Some ([], s)
      else if decide (len_utf8 c <= n) then
        '(a, b) ← split_at_byte s' (n - len_utf8 c); Some (c :: a, b)
      else None
  end.

(** [str::is_char_boundary]. *)
Definition is_char_boundary (s : str) (n : nat) : bool :=
  bool_decide (is_Some (split_at_byte s n)).

(** [str::get(start..end)]: [None] where [&s[start..end]] panics. *)
Definition str_get (s : str) (i j : nat) : option str :=
  if decide (i <= j) then
    '(pre, _) ← split_at_byte s j;
    '(_, mid) ← split_at_byte pre i;
    Some mid
  else None.

(** [str::get(start..)]. *)
Definition str_from (s : str) (i : nat) : option str := snd <$> split_at_byte s i.

(** [str::char_indices]. *)
Fixpoint char_indices_from (i : nat) (s : str) : list (nat * char) :=
  match s with
  | [] => []
  | c :: s => (i, c) :: char_indices_from (i + len_utf8 c) s
  end.
Definition char_indices (s : str) : list (nat * char) := char_indices_from 0 s.

(** ** Characters *)

(** [char::is_whitespace]: the Unicode [White_Space] property. *)
Definition is_whitespace (c : char) : bool :=
  ((9 <=? c) && (c <=? 13) || (c =? 0x20) || (c =? 0x85) || (c =? 0xA0)
   || (c =? 0x1680) || (0x2000 <=? c) && (c <=? 0x200A) || (c =? 0x2028)
   || (c =? 0x2029) || (c =? 0x202F) || (c =? 0x205F) || (c =? 0x3000))%N.

Definition is_ascii_lowercase (c : N) : bool := ((97 <=? c) && (c <=? 122))%N.
Definition is_ascii_uppercase (c : N) : bool := ((65 <=? c) && (c <=? 90))%N.
Definition is_ascii_digit (c : N) : bool := ((48 <=? c) && (c <=? 57))%N.
Definition is_ascii_alphabetic (c : N) : bool := is_ascii_lowercase c || is_ascii_uppercase c.
Definition is_ascii_alphanumeric (c : N) : bool := is_ascii_alphabetic c || is_ascii_digit c.
(** [u8::is_ascii_whitespace]: no vertical tab. *)
Definition is_ascii_whitespace (c : N) : bool :=
  ((c =? 9) || (c =? 10) || (c =? 12) || (c =? 13) || (c =? 32))%N.
Definition is_ascii_control (c : N) : bool := ((c <? 32) || (c =? 127))%N.

Definition to_ascii_uppercase_char (c : N) : N := if is_ascii_lowercase c then (c - 32)%N else c.
Definition to_ascii_lowercase_char (c : N) : N := if is_ascii_uppercase c then (c + 32)%N else c.
Definition to_ascii_uppercase (s : list N) : list N := to_ascii_uppercase_char <$> s.
Definition to_ascii_lowercase (s : list N) : list N := to_ascii_lowercase_char <$> s.

(** [eq_ignore_ascii_case], on bytes or on the chars of a string. *)
Definition eq_ignore_ascii_case (a b : list N) : bool :=
  bool_decide (to_ascii_lowercase a = to_ascii_lowercase b).

(** ** Strings *)

Definition trim_start (s : str) : str := drop_while is_whitespace s.
Definition trim_end_matches (p : char -> bool) (s : str) : str := reverse (drop_while p (reverse s)).
Definition trim_end (s : str) : str := trim_end_matches is_whitespace s.
Definition trim (s : str) : str := trim_end (trim_start s).

Fixpoint starts_with (p s : list N) : bool :=
  match p, s with
  | [], _ => true
  | a :: p, b :: s => (a =? b)%N && starts_with p s
  | _, [] => false
  end.

(** [str::contains] of a string pattern. *)
Fixpoint contains (p s : str) : bool :=
  starts_with p s || match s with [] => false | _ :: s => contains p s end.

(** [str::split] on one char: always at least one piece. *)
Fixpoint split_char (d : char) (s : str) : list str :=
  match s with
  | [] => [[]]
  | c :: s =>
      if (c =? d)%N then [] :: split_char d s
      else match split_char d s with
           | [] => [[c]]
           | piece :: pieces => (c :: piece) :: pieces
           end
  end.

(** Decimal [Display] of an unsigned and of a signed integer. *)
Fixpoint display_aux (fuel : nat) (n : N) (acc : str) : str :=
  match fuel with
  | 0 => acc
  | S fuel =>
      let acc := (48 + n mod 10)%N :: acc in
      if (n / 10 =? 0)%N then acc else display_aux fuel (n / 10)%N acc
  end.
Definition display_N (n : N) : str := display_aux (S (N.to_nat (N.log2 n))) n [].
Definition display_Z (z : Z) : str :=
  if (z <? 0)%Z then 45%N :: display_N (Z.to_N (- z)) else display_N (Z.to_N z).
Definition display_bool (b : bool) : str := if b then lit "true" else lit "false".

(** [str::parse::<uN>] with bound [max]: an optional [+], then digits. *)
Fixpoint parse_digits (max : N) (acc : N) (s : str) : option N :=
  match s with
  | [] => Some acc
  | c :: s =>
      if is_ascii_digit c then
        let acc := (acc * 10 + (c - 48))%N in
        if (acc <=? max)%N then parse_digits max acc s else None
      else None
  end.
Definition parse_unsigned (max : N) (s : str) : option N :=
  let digits := match s with c :: r => if (c =? 43)%N then r else s | [] => s end in
  match digits with [] => None | _ => parse_digits max 0 digits end.
Definition parse_u32 : str -> option N := parse_unsigned U32_MAX.

#[global] Arguments byte_len : simpl never.
#[global] Arguments len_utf8 : simpl never.
#[global] Arguments encode_char : simpl never.

(** ** UTF-8 lemmas *)

Lemma N_lor_ge_l a b : (a <= N.lor a b)%N.
Proof.
  destruct (N.le_gt_cases a (N.lor a b)) as [|Hlt]; [done|].
  assert (N.ldiff a (N.lor a b) = 0)%N as Hd.
  { apply N.bits_inj_0. intros n. rewrite N.ldiff_spec, N.lor_spec.
    by destruct (N.testbit a n), (N.testbit b n). }
  apply N.ldiff_le in Hd. lia.
Qed.

Lemma encode_char_ascii c : (c < 128)%N -> encode_char c = [c].
Proof. intros ?. unfold encode_char. by rewrite (proj2 (N.ltb_lt _ _)). Qed.

Lemma encode_char_multi c : (128 <= c)%N -> Forall (fun b => 128 <= b)%N (encode_char c).
Proof.
  intros Hc. unfold encode_char. rewrite (proj2 (N.ltb_ge _ _) Hc).
  case_match; [|case_match]; repeat constructor;
    (etrans; [|apply N_lor_ge_l]; lia).
Qed.

Lemma encode_char_cons c : exists b r, encode_char c = b :: r.
Proof. unfold encode_char. case_all; eauto. Qed.

Lemma len_utf8_pos c : 0 < len_utf8 c.
Proof. unfold len_utf8. destruct (encode_char_cons c) as (b & r & ->). cbn. lia. Qed.

Lemma len_utf8_ascii c : (c < 128)%N -> len_utf8 c = 1.
Proof. intros ?. unfold len_utf8. by rewrite encode_char_ascii. Qed.

Lemma encode_cons c s : encode (c :: s) = encode_char c ++ encode s.
Proof. done. Qed.

Lemma encode_app a b : encode (a ++ b) = encode a ++ encode b.
Proof. induction a as [|c a IH]; cbn; [done|]. by rewrite IH, (assoc (++)). Qed.

Lemma byte_len_app a b : byte_len (a ++ b) = byte_len a + byte_len b.
Proof. unfold byte_len. by rewrite encode_app, length_app. Qed.

Lemma byte_len_cons c s : byte_len (c :: s) = len_utf8 c + byte_len s.
Proof. unfold byte_len. cbn. by rewrite length_app. Qed.

Lemma byte_len_nil : byte_len [] = 0.
Proof. done. Qed.

Lemma byte_len_0 s : byte_len s = 0 -> s = [].
Proof. destruct s as [|c s]; [done|]. rewrite byte_len_cons. pose proof (len_utf8_pos c). lia. Qed.

#[export] Hint Rewrite byte_len_app byte_len_cons byte_len_nil : dbotter.

Lemma drop_encode a b : drop (byte_len a) (encode (a ++ b)) = encode b.
Proof. rewrite encode_app. apply drop_app_length. Qed.

Lemma take_encode a b : take (byte_len a) (encode (a ++ b)) = encode a.
Proof. rewrite encode_app. apply take_app_length. Qed.

Lemma split_at_byte_0 s : split_at_byte s 0 = Some ([], s).
Proof. by destruct s. Qed.

Lemma split_at_byte_app a b : split_at_byte (a ++ b) (byte_len a) = Some (a, b).
Proof.
  induction a as [|c a IH]; cbn [app]; [apply split_at_byte_0|].
  rewrite byte_len_cons. pose proof (len_utf8_pos c). cbn.
  rewrite decide_False, decide_True by lia.
  replace (len_utf8 c + byte_len a - len_utf8 c) with (byte_len a) by lia.
  by rewrite IH.
Qed.

Lemma split_at_byte_Some s n a b :
  split_at_byte s n = Some (a, b) <-> s = a ++ b /\ n = byte_len a.
Proof.
  split; [|intros [-> ->]; apply split_at_byte_app].
  revert n a b; induction s as [|c s IH]; intros n a b; cbn.
  { case_decide; [intros [= <- <-]; by subst|done]. }
  case_decide; [intros [= <- <-]; by subst|].
  case_decide; [|done].
  destruct (split_at_byte s (n - len_utf8 c)) as [[a' b']|] eqn:E; cbn; [|done].
  intros [= <- <-]. apply IH in E as [-> Hn]. split; [done|].
  rewrite byte_len_cons. lia.
Qed.

Lemma str_get_app a b c :
  str_get (a ++ b ++ c) (byte_len a) (byte_len a + byte_len b) = Some b.
Proof.
  unfold str_get. rewrite decide_True by lia.
  rewrite (assoc (++)), <- byte_len_app, split_at_byte_app. cbn.
  by rewrite split_at_byte_app.
Qed.

Lemma str_get_Some s i j t :
  str_get s i j = Some t <->
  exists a c, s = a ++ t ++ c /\ i = byte_len a /\ j = byte_len a + byte_len t.
Proof.
  split; [|intros (a & c & -> & -> & ->); apply str_get_app].
  unfold str_get. case_decide; [|done].
  destruct (split_at_byte s j) as [[pre c]|] eqn:E1; cbn; [|done].
  destruct (split_at_byte pre i) as [[a m]|] eqn:E2; cbn; [|done].
  intros [= ->]. apply split_at_byte_Some in E1 as [-> ->].
  apply split_at_byte_Some in E2 as [-> ->].
  exists a, c. rewrite <- (assoc (++)), byte_len_app. auto.
Qed.

Lemma str_from_app a b : str_from (a ++ b) (byte_len a) = Some b.
Proof. unfold str_from. by rewrite split_at_byte_app. Qed.

(** The byte at a boundary reveals the char there when that char is ASCII. *)
Lemma lookup_encode_head a c s :
  exists b, encode (a ++ c :: s) !! byte_len a = Some b /\
            (c < 128 -> b = c)%N /\ (128 <= c -> 128 <= b)%N.
Proof.
  rewrite encode_app, lookup_app_r, Nat.sub_diag by done.
  destruct (encode_char_cons c) as (b & r & E). exists b.
  cbn. rewrite E. split; [done|]. split.
  - intros Hc. rewrite encode_char_ascii in E by done. congruence.
  - intros Hc. pose proof (encode_char_multi c Hc) as HF. rewrite E in HF.
    by apply Forall_cons in HF as [? _].
Qed.

Lemma lookup_encode_ascii a c s :
  (c < 128)%N -> encode (a ++ c :: s) !! byte_len a = Some c.
Proof.
  intros Hc. destruct (lookup_encode_head a c s) as (b & -> & Hb & _).
  by rewrite Hb.
Qed.

Lemma lookup_encode_end a : encode a !! byte_len a = None.
Proof. apply lookup_ge_None. done. Qed.

Lemma char_count_le s : length s <= byte_len s.
Proof.
  induction s as [|c s IH]; cbn; [done|]. rewrite byte_len_cons.
  pose proof (len_utf8_pos c). lia.
Qed.

(** ** Trimming *)

Lemma drop_while_keeps {A} (p : A -> bool) c l : p c = false -> drop_while p (c :: l) = c :: l.
Proof. cbn. by intros ->. Qed.

(** A string whose first and last characters are not blank. *)
Definition trimmed (s : str) : Prop :=
  forall c, head s = Some c \/ last s = Some c -> is_whitespace c = false.

Lemma trimmed_trim s : trimmed s -> trim s = s.
Proof.
  intros Hs. destruct s as [|c s]; [done|].
  unfold trim, trim_start. rewrite drop_while_keeps by (apply Hs; by left).
  unfold trim_end, trim_end_matches.
  destruct (reverse (c :: s)) as [|d r] eqn:E.
  { apply (f_equal reverse) in E. by rewrite reverse_involutive in E. }
  assert (last (c :: s) = Some d) as Hd.
  { rewrite <- (reverse_involutive (c :: s)), E, reverse_cons. apply last_snoc. }
  rewrite drop_while_keeps by (apply Hs; by right).
  by rewrite <- E, reverse_involutive.
Qed.

Lemma trim_end_prefix s : exists u, s = trim_end s ++ u.
Proof.
  unfold trim_end, trim_end_matches. exists (reverse (take_while is_whitespace (reverse s))).
  by rewrite <- reverse_app, take_drop_while, reverse_involutive.
Qed.

Lemma trim_trimmed s : trimmed (trim s).
Proof.
  intros c [Hc|Hc].
  - destruct (trim_end_prefix (trim_start s)) as (u & Hu). unfold trim in Hc.
    destruct (trim_end (trim_start s)) as [|a r]; [done|]. cbn in Hc. injection Hc as ->.
    unfold trim_start in Hu. by apply drop_while_head in Hu.
  - unfold trim, trim_end, trim_end_matches in Hc.
    destruct (drop_while is_whitespace (reverse (trim_start s))) as [|a r] eqn:E; [done|].
    rewrite reverse_cons, last_snoc in Hc. injection Hc as ->.
    by apply drop_while_head in E.
Qed.

Lemma trim_idemp s : trim (trim s) = trim s.
Proof. apply trimmed_trim, trim_trimmed. Qed.

Lemma drop_while_incl {A} (p : A -> bool) l x : x ∈ drop_while p l -> x ∈ l.
Proof. rewrite <- (take_drop_while p l) at 2. intros H. apply elem_of_app. by right. Qed.

Lemma trim_incl s x : x ∈ trim s -> x ∈ s.
Proof.
  unfold trim, trim_end, trim_end_matches.
  rewrite elem_of_reverse. intros H%drop_while_incl. rewrite elem_of_reverse in H.
  by apply drop_while_incl in H.
Qed.

Lemma split_char_absent d s : d ∉ s -> split_char d s = [s].
Proof.
  induction s as [|c s IH]; cbn; [done|]. intros Hd. rewrite not_elem_of_cons in Hd.
  destruct Hd as [Hd Hs]. rewrite (proj2 (N.eqb_neq c d)) by congruence. by rewrite IH.
Qed.

Lemma split_char_app_sep d a b : d ∉ a -> split_char d (a ++ d :: b) = a :: split_char d b.
Proof.
  induction a as [|c a IH]; cbn; intros Ha; [by rewrite N.eqb_refl|].
  rewrite not_elem_of_cons in Ha. destruct Ha as [Hc Ha].
  rewrite (proj2 (N.eqb_neq c d)) by congruence. by rewrite IH.
Qed.

(** ** Decoding *)

(** A continuation byte's six bits. *)
Definition continuation (b : N) : option N :=
  (if (0x80 <=? b) && (b <? 0xC0) then Some (b - 0x80) else None)%N.

(** One character: shortest form, no surrogates, at most U+10FFFF. *)
Definition decode_char (bs : bytes) : option (char * bytes) :=
  match bs with
  | [] => None
  | a :: bs =>
      (if a <? 0x80 then Some (a, bs)
       else if (0xC2 <=? a) && (a <? 0xE0) then
         match bs with
         | b :: bs => b ← continuation b; Some ((a - 0xC0) * 64 + b, bs)
         | [] => None
         end
       else if (0xE0 <=? a) && (a <? 0xF0) then
         match bs with
         | b :: c :: bs =>
             b ← continuation b; c ← continuation c;
             let r := (a - 0xE0) * 4096 + b * 64 + c in
             if (r <? 0x800) || ((0xD800 <=? r) && (r <? 0xE000)) then None else Some (r, bs)
         | _ => None
         end
       else if (0xF0 <=? a) && (a <? 0xF5) then
         match bs with
         | b :: c :: d :: bs =>
             b ← continuation b; c ← continuation c; d ← continuation d;
             let r := (a - 0xF0) * 262144 + b * 4096 + c * 64 + d in
             if (r <? 0x10000) || (0x110000 <=? r) then None else Some (r, bs)
         | _ => None
         end
       else None)%N
  end.

(** [str::from_utf8]: every character takes at least one byte. *)
Fixpoint from_utf8_fuel (fuel : nat) (bs : bytes) : option str :=
  match bs, fuel with
  | [], _ => Some []
  | _, 0 => None
  | _, S fuel => '(c, bs) ← decode_char bs; s ← from_utf8_fuel fuel bs; Some (c :: s)
  end.
Definition from_utf8 (bs : bytes) : option str := from_utf8_fuel (length bs) bs.

(** A Unicode scalar value: what a Rust [char] holds. *)
Definition is_scalar (c : char) : bool :=
  ((c <? 0xD800) || (0xE000 <=? c) && (c <? 0x110000))%N.

Lemma lor_high k a b : (b < 2 ^ k)%N -> N.lor (a * 2 ^ k) b = (a * 2 ^ k + b)%N.
Proof.
  intros Hb. assert (N.land (a * 2 ^ k) b = 0)%N as Hl.
  { apply N.bits_inj_0. intros n. rewrite N.land_spec.
    destruct (N.lt_ge_cases n k) as [Hn|Hn].
    - by rewrite N.mul_pow2_bits_low.
    - rewrite <- (N.mod_small b (2 ^ k)), N.mod_pow2_bits_high, andb_false_r by done. done. }
  rewrite N.add_nocarry_lxor by done. symmetry. by apply N.lxor_lor.
Qed.

Lemma land_63 c : N.land c 0x3F = (c mod 64)%N.
Proof. change 0x3F%N with (N.ones 6). by rewrite N.land_ones. Qed.

Lemma lor_continuation c : N.lor 0x80 (N.land c 0x3F) = (0x80 + c mod 64)%N.
Proof. rewrite land_63. apply (lor_high 6 2). apply N.mod_lt. done. Qed.

(** The encoding in arithmetic. *)
Lemma encode_char_arith c :
  (c < 0x200000)%N ->
  encode_char c =
  (if c <? 0x80 then [c]
   else if c <? 0x800 then [0xC0 + c / 64; 0x80 + c mod 64]
   else if c <? 0x10000 then [0xE0 + c / 4096; 0x80 + (c / 64) mod 64; 0x80 + c mod 64]
   else [0xF0 + c / 262144; 0x80 + (c / 4096) mod 64; 0x80 + (c / 64) mod 64; 0x80 + c mod 64])%N.
Proof.
  intros Hc. unfold encode_char. rewrite !lor_continuation, !N.shiftr_div_pow2.
  change (2 ^ 6)%N with 64%N. change (2 ^ 12)%N with 4096%N. change (2 ^ 18)%N with 262144%N.
  destruct (c <? 0x80)%N; [done|].
  destruct (c <? 0x800)%N eqn:H1.
  { do 2 f_equal. apply (lor_high 5 6). change (2 ^ 5)%N with 32%N.
    apply N.Div0.div_lt_upper_bound. lia. }
  destruct (c <? 0x10000)%N eqn:H2.
  { f_equal. apply (lor_high 4 14). change (2 ^ 4)%N with 16%N.
    apply N.Div0.div_lt_upper_bound. lia. }
  f_equal. apply (lor_high 3 30). change (2 ^ 3)%N with 8%N.
  apply N.Div0.div_lt_upper_bound. lia.
Qed.

Lemma continuation_mod n : continuation (0x80 + n mod 64) = Some (n mod 64)%N.
Proof.
  unfold continuation. pose proof (N.mod_lt n 64 ltac:(lia)).
  replace ((0x80 <=? 0x80 + n mod 64) && (0x80 + n mod 64 <? 0xC0))%N with true by lia.
  f_equal. lia.
Qed.

Lemma decode_encode_char c bs : is_scalar c = true -> decode_char (encode_char c ++ bs) = Some (c, bs).
Proof.
  intros Hs. assert (c < 0x110000)%N as Hc by (unfold is_scalar in Hs; lia).
  rewrite encode_char_arith by lia.
  pose proof (N.Div0.div_mod c 64) as D1. pose proof (N.Div0.div_mod (c / 64) 64) as D2.
  pose proof (N.Div0.div_mod (c / 4096) 64) as D3.
  rewrite N.Div0.div_div in D2, D3. change (64 * 64)%N with 4096%N in D2.
  change (4096 * 64)%N with 262144%N in D3.
  destruct (c <? 0x80)%N eqn:H0; [cbn [app decode_char]; by rewrite H0|].
  destruct (c <? 0x800)%N eqn:H1; [|destruct (c <? 0x10000)%N eqn:H2].
  - cbn [app decode_char]. rewrite continuation_mod. cbn [mbind option_bind].
    replace (0xC0 + c / 64 <? 0x80)%N with false by lia.
    replace ((0xC2 <=? 0xC0 + c / 64) && (0xC0 + c / 64 <? 0xE0))%N with true by lia.
    do 2 f_equal. lia.
  - cbn [app decode_char]. rewrite !continuation_mod. cbn [mbind option_bind].
    replace (0xE0 + c / 4096 <? 0x80)%N with false by lia.
    replace ((0xC2 <=? 0xE0 + c / 4096) && (0xE0 + c / 4096 <? 0xE0))%N with false by lia.
    replace ((0xE0 <=? 0xE0 + c / 4096) && (0xE0 + c / 4096 <? 0xF0))%N with true by lia.
    replace ((0xE0 + c / 4096 - 0xE0) * 4096 + (c / 64) mod 64 * 64 + c mod 64)%N with c by lia.
    unfold is_scalar in Hs. by replace ((c <? 0x800) || (0xD800 <=? c) && (c <? 0xE000))%N with false by lia.
  - cbn [app decode_char]. rewrite !continuation_mod. cbn [mbind option_bind].
    replace (0xF0 + c / 262144 <? 0x80)%N with false by lia.
    replace ((0xC2 <=? 0xF0 + c / 262144) && (0xF0 + c / 262144 <? 0xE0))%N with false by lia.
    replace ((0xE0 <=? 0xF0 + c / 262144) && (0xF0 + c / 262144 <? 0xF0))%N with false by lia.
    replace ((0xF0 <=? 0xF0 + c / 262144) && (0xF0 + c / 262144 <? 0xF5))%N with true by lia.
    replace ((0xF0 + c / 262144 - 0xF0) * 262144 + (c / 4096) mod 64 * 4096 + (c / 64) mod 64 * 64
             + c mod 64)%N with c by lia.
    by replace ((c <? 0x10000) || (0x110000 <=? c))%N with false by lia.
Qed.

Lemma from_utf8_fuel_encode s fuel :
  Forall (fun c => is_scalar c = true) s -> length (encode s) <= fuel ->
  from_utf8_fuel fuel (encode s) = Some s.
Proof.
  intros Hs. revert fuel. induction Hs as [|c s Hc _ IH]; intros fuel Hf; [by destruct fuel|].
  pose proof (len_utf8_pos c). cbn [encode] in *. rewrite length_app in Hf.
  unfold len_utf8 in *. destruct fuel as [|fuel]; [lia|].
  destruct (encode_char c ++ encode s) as [|b r] eqn:E.
  { apply (f_equal length) in E. rewrite length_app in E. cbn in E. lia. }
  cbn [from_utf8_fuel]. rewrite <- E, decode_encode_char by done. cbn.
  rewrite IH by lia. done.
Qed.

(** Decoding what a Rust string holds gives the string back. *)
Lemma from_utf8_encode s : Forall (fun c => is_scalar c = true) s -> from_utf8 (encode s) = Some s.
Proof. intros Hs. by apply from_utf8_fuel_encode. Qed.

(** [str::find] of a string pattern, as a character index. *)
Fixpoint str_find (p s : str) : option nat :=
  if starts_with p s then Some 0
  else match s with [] => None | _ :: s => S <$> str_find p s end.

Lemma str_find_bound p s i : str_find p s = Some i -> i + length p <= length s.
Proof.
  revert i. induction s as [|c s IH]; intros i; cbn [str_find].
  - destruct p; [by intros [= <-]|done].
  - destruct (starts_with p (c :: s)) eqn:E.
    + intros [= <-]. clear IH. revert E. generalize (c :: s). clear.
      induction p as [|x p IH]; intros [|y l]; cbn; try lia; try done.
      intros [_ E]%andb_prop. apply IH in E. lia.
    + intros (j & Hj & ->)%fmap_Some. apply IH in Hj. cbn. lia.
Qed.

(** ** Decimal display *)

Definition decimal_value (acc : N) (s : str) : N := foldl (fun a c => a * 10 + (c - 48))%N acc s.

Lemma display_aux_value fuel n acc :
  (n < 10 ^ N.of_nat fuel)%N -> 0 < fuel ->
  decimal_value 0 (display_aux fuel n acc) = decimal_value n acc.
Proof.
  revert n acc. induction fuel as [|fuel IH]; intros n acc Hn Hf; [lia|]. cbn [display_aux].
  pose proof (N.Div0.div_mod n 10) as Hd. pose proof (N.mod_lt n 10 ltac:(lia)).
  assert (forall m, decimal_value m ((48 + n mod 10)%N :: acc) = decimal_value (m * 10 + n mod 10) acc)
    as Hcons by (intros m; unfold decimal_value; cbn [foldl]; do 2 f_equal; lia).
  destruct (n / 10 =? 0)%N eqn:E.
  - rewrite Hcons. f_equal. lia.
  - rewrite Nat2N.inj_succ, N.pow_succ_r' in Hn.
    assert (n / 10 < 10 ^ N.of_nat fuel)%N by (apply N.Div0.div_lt_upper_bound; lia).
    rewrite IH; [rewrite Hcons; f_equal; lia|done|].
    destruct fuel; [|lia]. cbn in *. lia.
Qed.

Lemma display_N_value n : decimal_value 0 (display_N n) = n.
Proof.
  unfold display_N. rewrite display_aux_value; [done| |lia].
  rewrite Nat2N.inj_succ, N2Nat.id.
  destruct (decide (n = 0)%N) as [->|Hn]; [by vm_compute|].
  pose proof (N.log2_spec n ltac:(lia)) as [_ Hlt].
  eapply N.lt_le_trans; [exact Hlt|]. apply N.pow_le_mono_l. lia.
Qed.

#[export] Instance display_N_inj : Inj (=) (=) display_N.
Proof. intros a b E. by rewrite <- (display_N_value a), E, display_N_value. Qed.

Lemma display_aux_digits fuel n acc :
  Forall (fun c => is_ascii_digit c = true) acc ->
  Forall (fun c => is_ascii_digit c = true) (display_aux fuel n acc).
Proof.
  revert n acc. induction fuel as [|fuel IH]; intros n acc Hacc; cbn; [done|].
  pose proof (N.mod_lt n 10 ltac:(lia)).
  assert (is_ascii_digit (48 + n mod 10) = true) by (unfold is_ascii_digit; lia).
  case_match; [by constructor|]. apply IH. by constructor.
Qed.

Lemma display_N_digits n : Forall (fun c => is_ascii_digit c = true) (display_N n).
Proof. apply display_aux_digits. constructor. Qed.

Lemma display_N_nonempty n : display_N n <> [].
Proof.
  intros H. pose proof (display_N_value n) as Hv. rewrite H in Hv. cbn in Hv. by subst n.
Qed.

(** ** The order of strings: lexicographic on bytes *)

Fixpoint bytes_leb (a b : bytes) : bool :=
  match a, b with
  | [], _ => true
  | _, [] => false
  | x :: a, y :: b => if (x =? y)%N then bytes_leb a b else (x <? y)%N
  end.

Lemma bytes_leb_refl a : bytes_leb a a = true.
Proof. induction a as [|x a IH]; cbn; [done|]. by rewrite N.eqb_refl. Qed.

Lemma bytes_leb_trans a b c : bytes_leb a b = true -> bytes_leb b c = true -> bytes_leb a c = true.
Proof.
  revert b c. induction a as [|x a IH]; intros [|y b] [|z c]; cbn; try done.
  destruct (x =? y)%N eqn:Exy; [apply N.eqb_eq in Exy as ->|].
  - destruct (y =? z)%N; [apply IH|done].
  - destruct (y =? z)%N eqn:Eyz; [apply N.eqb_eq in Eyz as ->; by rewrite Exy|].
    intros. replace (x =? z)%N with false by lia. lia.
Qed.

Lemma bytes_leb_antisym a b : bytes_leb a b = true -> bytes_leb b a = true -> a = b.
Proof.
  revert b. induction a as [|x a IH]; intros [|y b]; cbn; try done.
  rewrite (N.eqb_sym y x). destruct (x =? y)%N eqn:E; [apply N.eqb_eq in E as ->|lia].
  intros H1 H2. f_equal. auto.
Qed.

Lemma bytes_leb_total a b : bytes_leb a b = true \/ bytes_leb b a = true.
Proof.
  revert b. induction a as [|x a IH]; intros [|y b]; cbn; auto.
  rewrite (N.eqb_sym y x). destruct (x =? y)%N eqn:E; [apply IH|]. lia.
Qed.
