(* ===== verification/Model.v ===== *)
(** * Data model (src/src/model.rs)

    Identifiers, enumerations, connection profiles and drafts, the typed
    requests with their validators and the constants that bound them. *)

From S2P Require Import Prelude RustStr.

(** ** Identifiers and durations *)

Abbreviation ProfileId := (list N) (only parsing).
Abbreviation OperationId := N (only parsing).
Abbreviation DraftId := N (only parsing).
Abbreviation ProfileGeneration := N (only parsing).
Abbreviation SessionGeneration := N (only parsing).
Abbreviation ResultId := N (only parsing).

(** [std::time::Duration], in nanoseconds. *)
Abbreviation Duration := N (only parsing).
Definition from_secs (s : N) : Duration := (s * 1000000000)%N.
Definition as_secs (d : Duration) : N := (d / 1000000000)%N.

(** ** Drivers and capabilities *)

Definition CONNECT : N := N.shiftl 1 0.
Definition PING : N := N.shiftl 1 1.
Definition SQL : N := N.shiftl 1 2.
Definition COMMAND : N := N.shiftl 1 3.
Definition DOCUMENT : N := N.shiftl 1 4.
Definition CATALOG : N := N.shiftl 1 5.
Definition KEYSPACE_BROWSE : N := N.shiftl 1 6.
(** [bitflags]' [contains]: every bit of [b] is set in [a]. *)
Definition caps_contains (a b : N) : bool := (N.land a b =? b)%N.

Inductive DriverKind := MySql | Redis | MongoDb.
#[export] Instance DriverKind_eq : EqDecision DriverKind. Proof. solve_decision. Defined.

Inductive QueryLanguage := Sql | RedisCommand | MongoDocument.
#[export] Instance QueryLanguage_eq : EqDecision QueryLanguage. Proof. solve_decision. Defined.

Definition DriverKind_display (d : DriverKind) : str :=
  match d with MySql => lit "mysql" | Redis => lit "redis" | MongoDb => lit "mongodb" end.

Definition language (d : DriverKind) : QueryLanguage :=
  match d with MySql => Sql | Redis => RedisCommand | MongoDb => MongoDocument end.

Inductive DriverAvailability := Ready | Planned.
#[export] Instance DriverAvailability_eq : EqDecision DriverAvailability.
Proof. solve_decision. Defined.

Record DriverDescriptor := {
  dd_kind : DriverKind;
  dd_display_name : str;
  dd_default_port : N;
  dd_availability : DriverAvailability;
  dd_languages : list QueryLanguage;
  dd_capabilities : N;
  dd_planned_capabilities : N;
  dd_reason : option str;
}.

Inductive TlsMode := Disabled | Preferred | Required.
#[export] Instance TlsMode_eq : EqDecision TlsMode. Proof. solve_decision. Defined.

Inductive CredentialMode := CredNone | CredSession | CredEnvironment.
#[export] Instance CredentialMode_eq : EqDecision CredentialMode. Proof. solve_decision. Defined.

Inductive SessionCredentialIntent := KeepCurrent | IntentReplace | Forget.
#[export] Instance SessionCredentialIntent_eq : EqDecision SessionCredentialIntent.
Proof. solve_decision. Defined.

(** ** Profiles and drafts *)

(** [RedisTlsConfig] has the one field [ca_file: Option<PathBuf>]. *)
Record RedisTlsConfig := { ca_file : option str }.
#[export] Instance RedisTlsConfig_eq : EqDecision RedisTlsConfig. Proof. solve_decision. Defined.
Definition redis_tls_default : RedisTlsConfig := {| ca_file := None |}.
Definition redis_tls_is_empty (t : RedisTlsConfig) : bool := bool_decide (ca_file t = None).

Definition default_host : str := lit "127.0.0.1".

Record ConnectionDraft := {
  d_name : str;
  d_driver : DriverKind;
  d_host : str;
  d_port : N;
  d_database : option str;
  d_username : option str;
  d_tls : TlsMode;
  d_credential_mode : CredentialMode;
  d_secret_env : option str;
  d_redis_tls : RedisTlsConfig;
}.
#[export] Instance ConnectionDraft_eq : EqDecision ConnectionDraft. Proof. solve_decision. Defined.

Record ConnectionProfile := {
  p_id : str;
  p_name : str;
  p_driver : DriverKind;
  p_host : str;
  p_port : N;
  p_database : option str;
  p_username : option str;
  p_tls : TlsMode;
  p_credential_mode : CredentialMode;
  p_secret_env : option str;
  p_redis_tls : RedisTlsConfig;
}.
#[export] Instance ConnectionProfile_eq : EqDecision ConnectionProfile.
Proof. solve_decision. Defined.

Definition redacted_endpoint (p : ConnectionProfile) : str :=
  DriverKind_display (p_driver p) ++ lit "://" ++ p_host p ++ lit ":" ++ display_N (p_port p).

Definition from_draft (id : str) (d : ConnectionDraft) : ConnectionProfile :=
  {| p_id := id; p_name := d_name d; p_driver := d_driver d; p_host := d_host d;
     p_port := d_port d; p_database := d_database d; p_username := d_username d;
     p_tls := d_tls d; p_credential_mode := d_credential_mode d;
     p_secret_env := d_secret_env d; p_redis_tls := d_redis_tls d |}.

Definition as_draft (p : ConnectionProfile) : ConnectionDraft :=
  {| d_name := p_name p; d_driver := p_driver p; d_host := p_host p; d_port := p_port p;
     d_database := p_database p; d_username := p_username p; d_tls := p_tls p;
     d_credential_mode := p_credential_mode p; d_secret_env := p_secret_env p;
     d_redis_tls := p_redis_tls p |}.

(** [profile.id = id] on an owned profile. *)
Definition with_id (p : ConnectionProfile) (id : str) : ConnectionProfile :=
  from_draft id (as_draft p).

Definition for_driver (d : DriverKind) : ConnectionDraft :=
  let '(port, tls) :=
    match d with
    | MySql => (3306%N, Preferred)
    | Redis => (6379%N, Disabled)
    | MongoDb => (27017%N, Preferred)
    end in
  {| d_name := []; d_driver := d; d_host := default_host; d_port := port; d_database := None;
     d_username := None; d_tls := tls; d_credential_mode := CredNone; d_secret_env := None;
     d_redis_tls := redis_tls_default |}.

Inductive ProfileFieldId :=
| FConnectionId | FDisplayName | FHost | FPort | FDatabase | FUsername | FCredentialMode
| FCredentialEnvironmentName | FSessionCredential | FRedisTlsMode | FRedisCaFile.
#[export] Instance ProfileFieldId_eq : EqDecision ProfileFieldId. Proof. solve_decision. Defined.

Definition focus_id (f : ProfileFieldId) : str :=
  match f with
  | FConnectionId => lit "profile.connection_id"
  | FDisplayName => lit "profile.display_name"
  | FHost => lit "profile.host"
  | FPort => lit "profile.port"
  | FDatabase => lit "profile.database"
  | FUsername => lit "profile.username"
  | FCredentialMode => lit "profile.credential.mode"
  | FCredentialEnvironmentName => lit "profile.credential.environment_name"
  | FSessionCredential => lit "profile.credential.session.value"
  | FRedisTlsMode => lit "profile.redis_tls.mode"
  | FRedisCaFile => lit "profile.redis_tls.ca_file"
  end.

(** ** Operations and public errors *)

Inductive OperationKind :=
| LoadConfiguration | ReloadConfiguration | MigrateConfiguration | CreateProfile | UpdateProfile
| DeleteProfile | TestDraftConnection | ConnectProfile | DisconnectProfile | ReconnectProfile
| ExecuteRead | ExecuteMutation | BrowseMySql | BrowseRedis | InspectRedis | OpExportResult
| ShutdownRuntime.
#[export] Instance OperationKind_eq : EqDecision OperationKind. Proof. solve_decision. Defined.

Definition OperationKind_ALL : list OperationKind :=
  [LoadConfiguration; ReloadConfiguration; MigrateConfiguration; CreateProfile; UpdateProfile;
   DeleteProfile; TestDraftConnection; ConnectProfile; DisconnectProfile; ReconnectProfile;
   ExecuteRead; ExecuteMutation; BrowseMySql; BrowseRedis; InspectRedis; OpExportResult;
   ShutdownRuntime].

Definition exhaustive_index (k : OperationKind) : nat :=
  match k with
  | LoadConfiguration => 0 | ReloadConfiguration => 1 | MigrateConfiguration => 2
  | CreateProfile => 3 | UpdateProfile => 4 | DeleteProfile => 5 | TestDraftConnection => 6
  | ConnectProfile => 7 | DisconnectProfile => 8 | ReconnectProfile => 9 | ExecuteRead => 10
  | ExecuteMutation => 11 | BrowseMySql => 12 | BrowseRedis => 13 | InspectRedis => 14
  | OpExportResult => 15 | ShutdownRuntime => 16
  end.

Inductive PublicSummary :=
| InvalidInput | CredentialRequired | AuthenticationFailed | PermissionDenied
| NetworkUnavailable | TlsVerificationFailed | OperationTimedOut | SyntaxRejected
| ConstraintRejected | UnsupportedFeature | OperationCancelled | ResourceBusy | ResourceStale
| ConfigWriteNotCommitted | SumCommittedDurabilityUnknown | ExportFailed | InternalFailure.
#[export] Instance PublicSummary_eq : EqDecision PublicSummary. Proof. solve_decision. Defined.

Definition PublicSummary_ALL : list PublicSummary :=
  [InvalidInput; CredentialRequired; AuthenticationFailed; PermissionDenied; NetworkUnavailable;
   TlsVerificationFailed; OperationTimedOut; SyntaxRejected; ConstraintRejected;
   UnsupportedFeature; OperationCancelled; ResourceBusy; ResourceStale; ConfigWriteNotCommitted;
   SumCommittedDurabilityUnknown; ExportFailed; InternalFailure].

Definition summary_message (s : PublicSummary) : str :=
  match s with
  | InvalidInput => lit "Some input needs attention."
  | CredentialRequired => lit "A credential is required."
  | AuthenticationFailed => lit "Authentication failed."
  | PermissionDenied => lit "The server denied this operation."
  | NetworkUnavailable => lit "The server is unavailable."
  | TlsVerificationFailed => lit "TLS verification failed."
  | OperationTimedOut => lit "The operation timed out."
  | SyntaxRejected => lit "The server rejected the syntax."
  | ConstraintRejected => lit "The server rejected the change."
  | UnsupportedFeature => lit "This operation is not supported."
  | OperationCancelled => lit "The operation was cancelled."
  | ResourceBusy => lit "Another operation is already active."
  | ResourceStale => lit "The selected state is stale."
  | ConfigWriteNotCommitted => lit "The configuration was not changed."
  | SumCommittedDurabilityUnknown =>
      lit "The change is visible, but durable storage confirmation failed."
  | ExportFailed => lit "The result could not be exported."
  | InternalFailure => lit "Dbotter could not complete the operation."
  end.

Inductive PublicCodeValidationError := InvalidMySqlErrno | InvalidSqlState.

Record MySqlPublicErrorCode := { mc_errno : N; mc_sql_state : bytes }.
#[export] Instance MySqlPublicErrorCode_eq : EqDecision MySqlPublicErrorCode.
Proof. solve_decision. Defined.

Definition MySqlPublicErrorCode_new (errno : N) (sql_state : str) :
    result PublicCodeValidationError MySqlPublicErrorCode :=
  if (errno =? 0)%N then Err InvalidMySqlErrno
  else
    let bs := encode sql_state in
    if negb (length bs =? 5)
       || negb (forallb (fun b => is_ascii_uppercase b || is_ascii_digit b) bs)
    then Err InvalidSqlState
    else Ok {| mc_errno := errno; mc_sql_state := bs |}.

Inductive RedisPublicErrorKind :=
| RkParse | RkAuthenticationFailed | RkUnexpectedReturnType | RkInvalidClientConfig | RkIo
| RkClient | RkExtension | RkMasterNameNotFoundBySentinel | RkNoValidReplicasFoundBySentinel
| RkEmptySentinelList | RkClusterConnectionNotFound | RkResp3NotSupported | RkResponseError
| RkExecAbort | RkBusyLoading | RkNoScript | RkMoved | RkAsk | RkTryAgain | RkClusterDown
| RkCrossSlot | RkMasterDown | RkReadOnly | RkNotBusy | RkNoSub | RkNoPerm.
#[export] Instance RedisPublicErrorKind_eq : EqDecision RedisPublicErrorKind.
Proof. solve_decision. Defined.

Inductive PublicCode :=
| PcNone | PcField (f : ProfileFieldId) | PcProfileIdConflict | PcProfileStale
| PcConfigExternalChange | PcMigrationBackupAvailable | PcSessionCredential
| PcCredentialEnvironmentName | PcUsername | PcDatabase | PcStatementTarget | PcAmbiguousSqlMode
| PcUnterminatedSqlToken | PcRowLimit | PcTimeoutInput | PcCatalog | PcRedisScan
| PcExportDestination | PcExportDestinationCommitted | PcRedisTlsCaInvalidPem
| PcRedisTlsCaUntrustedIssuer | PcTlsHostnameMismatch | PcRedisTlsPreferredLegacy
| PcPreparedStatementUnsupported | PcMySql (c : MySqlPublicErrorCode)
| PcRedis (k : RedisPublicErrorKind).
#[export] Instance PublicCode_eq : EqDecision PublicCode. Proof. solve_decision. Defined.

(** ** Limits *)

Definition DEFAULT_EXECUTE_ROWS : N := 500.
Definition MAX_RESULT_ROWS : N := 10000.
Definition DEFAULT_EXECUTE_TIMEOUT : Duration := from_secs 30.
Definition MAX_EXECUTE_TIMEOUT : Duration := from_secs 300.
Definition MAX_RESULT_COLUMNS : N := 1024.
Definition MAX_RESULT_BYTES : N := 8 * 1024 * 1024.
Definition MAX_RESULT_CELL_BYTES : N := 1024 * 1024.
Definition MAX_RESULT_NOTICES : N := 32.
Definition MAX_RESULT_NOTICE_BYTES : N := 512.
Definition DEFAULT_CATALOG_PAGE_SIZE : N := 50.
Definition MAX_CATALOG_PAGE_SIZE : N := 200.
Definition DEFAULT_CATALOG_TIMEOUT : Duration := from_secs 5.
Definition MAX_CATALOG_TIMEOUT : Duration := from_secs 30.
Definition MAX_CATALOG_SCHEMAS : N := 200.
Definition MAX_CATALOG_RELATIONS : N := 2000.
Definition MAX_CATALOG_COLUMNS : N := 10000.
Definition MAX_CATALOG_COLUMNS_PER_RELATION : N := 512.
Definition MAX_CATALOG_UTF8_BYTES : N := 4 * 1024 * 1024.
Definition DEFAULT_REDIS_SCAN_COUNT : N := 100.
Definition MAX_REDIS_SCAN_COUNT : N := 1000.
Definition MAX_REDIS_FILTER_BYTES : N := 512.
Definition MAX_REDIS_COMMAND_BYTES : N := 65536.
Definition MAX_REDIS_COMMAND_TOKENS : N := 1024.
Definition MAX_REDIS_COMMAND_TOKEN_BYTES : N := 16 * 1024.
Definition MAX_REDIS_KEYS : N := 10000.
Definition MAX_REDIS_KEY_BYTES : N := 4 * 1024.
Definition MAX_REDIS_RETAINED_KEY_BYTES : N := 8 * 1024 * 1024.
Definition MAX_REDIS_PREVIEW_ITEMS : N := 100.
Definition MAX_REDIS_PREVIEW_BYTES : N := 1024 * 1024.
Definition MAX_REDIS_CELLS : N := 10000.
Definition MAX_REDIS_CELL_BYTES : N := 64 * 1024.
Definition MAX_REDIS_DEPTH : N := 8.

(** ** Typed requests *)

Inductive RequestValidationError :=
| EmptyStatement | ReqInvalidRowLimit | InvalidExecuteTimeout | EmptyRedisCommand
| RedisCommandTooLarge | TooManyRedisTokens | ReqRedisTokenTooLarge | ReqRedisCommandDenied
| InvalidCatalogPageSize | InvalidCatalogTimeout | EmptyCatalogParent | EmptyCatalogPageToken
| RedisFilterTooLarge | InvalidRedisScanCount | RedisKeyTooLarge.
#[export] Instance RequestValidationError_eq : EqDecision RequestValidationError.
Proof. solve_decision. Defined.

Record RequestIdentity := {
  ri_profile_id : ProfileId;
  ri_profile_generation : ProfileGeneration;
  ri_operation_id : OperationId;
}.
#[export] Instance RequestIdentity_eq : EqDecision RequestIdentity. Proof. solve_decision. Defined.

Definition validate_execute_limits (row_limit : N) (timeout : Duration) :
    result RequestValidationError unit :=
  if (row_limit =? 0)%N || (MAX_RESULT_ROWS <? row_limit)%N then Err ReqInvalidRowLimit
  else if (timeout <? from_secs 1)%N || (MAX_EXECUTE_TIMEOUT <? timeout)%N
  then Err InvalidExecuteTimeout
  else Ok tt.

Record PreparedMySqlRequest := {
  pm_identity : RequestIdentity;
  pm_statement : str;
  pm_row_limit : N;
  pm_timeout : Duration;
}.

Definition PreparedMySqlRequest_validate (r : PreparedMySqlRequest) :
    result RequestValidationError unit :=
  if bool_decide (trim (pm_statement r) = []) then Err EmptyStatement
  else validate_execute_limits (pm_row_limit r) (pm_timeout r).

Record RedisExecuteRequest := {
  rx_identity : RequestIdentity;
  rx_argv : list bytes;
  rx_row_limit : N;
  rx_timeout : Duration;
}.

(** [execution::redis_argv_is_denied] is passed in: it is defined in
    [Execution] over the same byte lists. *)
Section redis_execute_request.
Context (redis_argv_is_denied : list bytes -> bool).

Definition checked_add_arg (total : option N) (argument : bytes) : option N :=
  t ← total;
  t ← checked_add t (N.of_nat (length argument));
  checked_add t 1.

(** [argv.iter().try_fold(0, |total, a| total.checked_add(a.len())?.checked_add(1))] *)
Definition command_bytes (argv : list bytes) : option N :=
  foldl checked_add_arg (Some 0%N) argv.

Definition RedisExecuteRequest_validate (r : RedisExecuteRequest) :
    result RequestValidationError unit :=
  _ ← validate_execute_limits (rx_row_limit r) (rx_timeout r);
  match rx_argv r with
  | [] | [] :: _ => Err EmptyRedisCommand
  | _ =>
      if (MAX_REDIS_COMMAND_TOKENS <? N.of_nat (length (rx_argv r)))%N
      then Err TooManyRedisTokens
      else if existsb (fun a => MAX_REDIS_COMMAND_TOKEN_BYTES <? N.of_nat (length a))%N (rx_argv r)
      then Err ReqRedisTokenTooLarge
      else if match command_bytes (rx_argv r) with
              | None => true
              | Some n => (MAX_REDIS_COMMAND_BYTES <? saturating_sub n 1)%N
              end
      then Err RedisCommandTooLarge
      else if redis_argv_is_denied (rx_argv r) then Err ReqRedisCommandDenied
      else Ok tt
  end.

Definition RedisExecuteRequest_new (identity : RequestIdentity) (argv : list bytes)
    (row_limit : N) (timeout : Duration) : result RequestValidationError RedisExecuteRequest :=
  let request := {| rx_identity := identity; rx_argv := argv;
                    rx_row_limit := row_limit; rx_timeout := timeout |} in
  _ ← RedisExecuteRequest_validate request;
  Ok request.
End redis_execute_request.

(** ** Catalog requests *)

Abbreviation CatalogPageToken := (list N) (only parsing).

Inductive CatalogLevel := Schemas | Relations | Columns.
#[export] Instance CatalogLevel_eq : EqDecision CatalogLevel. Proof. solve_decision. Defined.

Inductive CatalogRequest :=
| CrSchemas (identity : RequestIdentity) (prefix : option str)
    (page_token : option CatalogPageToken) (page_size : N) (timeout : Duration)
| CrRelations (identity : RequestIdentity) (schema : str) (prefix : option str)
    (page_token : option CatalogPageToken) (page_size : N) (timeout : Duration)
| CrColumns (identity : RequestIdentity) (schema relation : str) (prefix : option str)
    (page_token : option CatalogPageToken) (page_size : N) (timeout : Duration).

Definition cr_level (r : CatalogRequest) : CatalogLevel :=
  match r with
  | CrSchemas _ _ _ _ _ => Schemas
  | CrRelations _ _ _ _ _ _ => Relations
  | CrColumns _ _ _ _ _ _ _ => Columns
  end.
Definition cr_identity (r : CatalogRequest) : RequestIdentity :=
  match r with CrSchemas i _ _ _ _ | CrRelations i _ _ _ _ _ | CrColumns i _ _ _ _ _ _ => i end.
Definition cr_prefix (r : CatalogRequest) : option str :=
  match r with CrSchemas _ p _ _ _ | CrRelations _ _ p _ _ _ | CrColumns _ _ _ p _ _ _ => p end.
Definition cr_page_token (r : CatalogRequest) : option CatalogPageToken :=
  match r with CrSchemas _ _ t _ _ | CrRelations _ _ _ t _ _ | CrColumns _ _ _ _ t _ _ => t end.
Definition cr_page_size (r : CatalogRequest) : N :=
  match r with CrSchemas _ _ _ n _ | CrRelations _ _ _ _ n _ | CrColumns _ _ _ _ _ n _ => n end.
Definition cr_timeout (r : CatalogRequest) : Duration :=
  match r with CrSchemas _ _ _ _ t | CrRelations _ _ _ _ _ t | CrColumns _ _ _ _ _ _ t => t end.

Definition CatalogRequest_validate (r : CatalogRequest) : result RequestValidationError unit :=
  if (cr_page_size r =? 0)%N || (MAX_CATALOG_PAGE_SIZE <? cr_page_size r)%N
  then Err InvalidCatalogPageSize
  else if (cr_timeout r <? from_secs 1)%N || (MAX_CATALOG_TIMEOUT <? cr_timeout r)%N
  then Err InvalidCatalogTimeout
  else
    let parents_valid :=
      match r with
      | CrSchemas _ _ _ _ _ => true
      | CrRelations _ schema _ _ _ _ => negb (bool_decide (schema = []))
      | CrColumns _ schema relation _ _ _ _ =>
          negb (bool_decide (schema = [])) && negb (bool_decide (relation = []))
      end in
    if negb parents_valid then Err EmptyCatalogParent
    else if match cr_page_token r with Some token => bool_decide (token = []) | None => false end
    then Err EmptyCatalogPageToken
    else Ok tt.

Inductive CatalogNodeIdentity :=
| NiSchema (schema : str)
| NiRelation (schema relation : str)
| NiColumn (schema relation : str) (ordinal : N).
#[export] Instance CatalogNodeIdentity_eq : EqDecision CatalogNodeIdentity.
Proof. solve_decision. Defined.
#[export] Instance CatalogNodeIdentity_countable : Countable CatalogNodeIdentity.
Proof.
  refine (inj_countable'
    (fun i => match i with
              | NiSchema s => inl s
              | NiRelation s r => inr (inl (s, r))
              | NiColumn s r o => inr (inr (s, r, o))
              end)
    (fun e => match e with
              | inl s => NiSchema s
              | inr (inl (s, r)) => NiRelation s r
              | inr (inr (s, r, o)) => NiColumn s r o
              end) _).
  by intros [].
Defined.

Inductive CatalogNodeKind := NkSchema | NkTable | NkView | NkColumn.
#[export] Instance CatalogNodeKind_eq : EqDecision CatalogNodeKind. Proof. solve_decision. Defined.

Record CatalogNode := {
  cn_identity : CatalogNodeIdentity;
  cn_kind : CatalogNodeKind;
  cn_name : str;
  cn_type_name : option str;
  cn_nullable : option bool;
  cn_ordinal : option N;
}.
#[export] Instance CatalogNode_eq : EqDecision CatalogNode. Proof. solve_decision. Defined.

Record CatalogRetainedCounts := {
  rc_schemas : N;
  rc_relations : N;
  rc_columns : N;
  rc_columns_in_relation : N;
}.
#[export] Instance CatalogRetainedCounts_eq : EqDecision CatalogRetainedCounts.
Proof. solve_decision. Defined.

Record CatalogPage := {
  cp_identity : RequestIdentity;
  cp_level : CatalogLevel;
  cp_parent : option CatalogNodeIdentity;
  cp_nodes : list CatalogNode;
  cp_next_token : option CatalogPageToken;
  cp_retained_counts : CatalogRetainedCounts;
  cp_retained_utf8_bytes : N;
  cp_truncated : bool;
  cp_stale : bool;
  cp_loaded_at : str;
}.

(** ** Redis browsing requests *)

Inductive RedisKeyFilter := LiteralPrefix (value : str) | Glob (value : str).

Definition RedisKeyFilter_validate (f : RedisKeyFilter) : result RequestValidationError unit :=
  let value := match f with LiteralPrefix v | Glob v => v end in
  if (MAX_REDIS_FILTER_BYTES <? str_len value)%N then Err RedisFilterTooLarge else Ok tt.

(** [matches!(character, '*' | '?' | '[' | ']' | '\\')] *)
Definition is_glob_special (c : char) : bool :=
  ((c =? 42) || (c =? 63) || (c =? 91) || (c =? 93) || (c =? 92))%N.

Fixpoint escape_glob (prefix : str) : str :=
  match prefix with
  | [] => []
  | c :: rest => (if is_glob_special c then [92%N; c] else [c]) ++ escape_glob rest
  end.

Definition match_pattern (f : RedisKeyFilter) : result RequestValidationError str :=
  _ ← RedisKeyFilter_validate f;
  match f with
  | Glob pattern => Ok pattern
  | LiteralPrefix prefix => Ok (escape_glob prefix ++ [42%N])
  end.

Abbreviation RedisKeyId := (list N) (only parsing).

Record RedisScanRequest := {
  rs_identity : RequestIdentity;
  rs_filter : RedisKeyFilter;
  rs_cursor : N;
  rs_count_hint : N;
  rs_timeout : Duration;
}.

Definition RedisScanRequest_validate (r : RedisScanRequest) : result RequestValidationError unit :=
  _ ← RedisKeyFilter_validate (rs_filter r);
  if (rs_count_hint r =? 0)%N || (MAX_REDIS_SCAN_COUNT <? rs_count_hint r)%N
  then Err InvalidRedisScanCount
  else if (rs_timeout r <? from_secs 1)%N || (MAX_CATALOG_TIMEOUT <? rs_timeout r)%N
  then Err InvalidCatalogTimeout
  else Ok tt.

Record RedisKeyInspectRequest := {
  rk_identity : RequestIdentity;
  rk_key : RedisKeyId;
  rk_timeout : Duration;
}.

Definition RedisKeyInspectRequest_validate (r : RedisKeyInspectRequest) :
    result RequestValidationError unit :=
  if (MAX_REDIS_KEY_BYTES <? N.of_nat (length (rk_key r)))%N then Err RedisKeyTooLarge
  else if (rk_timeout r <? from_secs 1)%N || (MAX_CATALOG_TIMEOUT <? rk_timeout r)%N
  then Err InvalidCatalogTimeout
  else Ok tt.

(** ** Execution requests and results *)

Record ExecuteRequest := {
  ex_operation_id : OperationId;
  ex_profile_id : ProfileId;
  ex_profile_generation : ProfileGeneration;
  ex_language : QueryLanguage;
  ex_text : str;
  ex_row_limit : N;
  ex_timeout : Duration;
}.

(** [serde_json::Value]; numbers keep their canonical text, an object the
    entries in map order (insertion order with the crate's feature set is not
    assumed: nothing below depends on it). *)
Inductive json :=
| JNull
| JBool (b : bool)
| JNumber (text : str)
| JString (s : str)
| JArray (values : list json)
| JObject (entries : list (str * json)).

(** Induction through the nested lists. *)
Section json_induction.
Context (P : json -> Prop).
Hypothesis Hnull : P JNull.
Hypothesis Hbool : forall b, P (JBool b).
Hypothesis Hnumber : forall t, P (JNumber t).
Hypothesis Hstring : forall s, P (JString s).
Hypothesis Harray : forall values, Forall P values -> P (JArray values).
Hypothesis Hobject : forall entries, Forall (fun e => P e.2) entries -> P (JObject entries).

Fixpoint json_nested_ind (value : json) : P value :=
  match value with
  | JNull => Hnull
  | JBool b => Hbool b
  | JNumber t => Hnumber t
  | JString s => Hstring s
  | JArray values =>
      Harray values
        ((fix go l := match l return Forall P l with
                      | [] => Forall_nil_2 _
                      | v :: l => Forall_cons_2 _ _ _ (json_nested_ind v) (go l)
                      end) values)
  | JObject entries =>
      Hobject entries
        ((fix go l := match l return Forall (fun e => P e.2) l with
                      | [] => Forall_nil_2 _
                      | (k, v) :: l => Forall_cons_2 _ (k, v) _ (json_nested_ind v) (go l)
                      end) entries)
  end.
End json_induction.

(** [f64] is its IEEE bit pattern. *)
Abbreviation f64 := N (only parsing).

Inductive Cell :=
| CNull
| CBool (b : bool)
| CInt (i : Z)
| CUInt (n : N)
| CFloat (f : f64)
| CDecimal (s : str)
| CText (s : str)
| CTextPreview (preview : str) (original_len : N)
| CBytes (retained : bytes) (original_len : N)
| CJson (j : json)
| CJsonPreview (preview : str) (original_len : N)
| CDateTime (s : str).

Record Column := { col_name : str; col_type_name : str }.
#[export] Instance Column_eq : EqDecision Column. Proof. solve_decision. Defined.

Record QueryResult := {
  qr_columns : list Column;
  qr_rows : list (list Cell);
  qr_affected_rows : N;
  qr_last_insert_id : option N;
  qr_elapsed_ms : N;
  qr_truncated : bool;
  qr_backend_notices_present : bool;
}.

Record ResultProvenance := {
  rp_result_id : ResultId;
  rp_profile_id : ProfileId;
  rp_profile_generation : ProfileGeneration;
  rp_operation_id : OperationId;
  rp_driver : DriverKind;
  rp_completed_at_unix_ms : Z;
  rp_duration_ms : N;
}.

Inductive ResultNotice :=
| DriverReportedTruncation | ColumnLimitReached | RowLimitReached | SnapshotByteLimitReached
| CellPreviewTruncated | RedisCellLimitReached | RedisDepthLimitReached | BackendNoticesDiscarded
| MySqlTransientRowAllocation | RedisTransientFrameAllocation.
#[export] Instance ResultNotice_eq : EqDecision ResultNotice. Proof. solve_decision. Defined.

Inductive TransientAllocationQualification := MySqlCurrentRowOrCell | RedisWholeRespFrame.

Definition transient_notice (t : TransientAllocationQualification) : ResultNotice :=
  match t with
  | MySqlCurrentRowOrCell => MySqlTransientRowAllocation
  | RedisWholeRespFrame => RedisTransientFrameAllocation
  end.

Inductive CellTruncationKind := TkText | TkBytes | TkJson | TkDecimal | TkDateTime.

Record CellTruncation := {
  ct_row_index : nat;
  ct_column_index : nat;
  ct_kind : CellTruncationKind;
  ct_retained_bytes : N;
  ct_original_len : option N;
  ct_truncated : bool;
}.

Record ResultSnapshot := {
  sn_provenance : ResultProvenance;
  sn_columns : list Column;
  sn_rows : list (list Cell);
  sn_affected_rows : N;
  sn_last_insert_id : option N;
  sn_truncated : bool;
  sn_notices : list ResultNotice;
  sn_retained_bytes : N;
  sn_transient_allocation : TransientAllocationQualification;
  sn_cell_truncations : list CellTruncation;
}.

Inductive ExportFormat := Csv | Tsv | Json.
Inductive OverwritePolicy := DenyOverwrite | ReplaceConfirmed.
