(* ===== verification/Execution.v ===== *)
(** * Execution targets (src/src/execution.rs)

    Extraction of the one statement or command the editor executes, the MySQL
    statement scanner, the local Redis policy and the read/mutation
    classifier.  Indices into a text are byte indices, as in the source; a
    definition that slices at an index returns [None] where the Rust slice
    would panic, so that "never [None]" is the absence of panics. *)

From S2P Require Import Prelude RustStr Model.

Definition MAX_EXECUTE_ROW_LIMIT : N := 10000.
Definition MAX_EXECUTE_TIMEOUT_SECONDS : N := 300.
Definition MAX_REDIS_TARGET_BYTES : N := 65536.
Definition MAX_REDIS_TOKENS : N := 1024.
Definition MAX_REDIS_TOKEN_BYTES : N := 16 * 1024.

Inductive ExecutionLanguage := LMySql | LRedis.
#[export] Instance ExecutionLanguage_eq : EqDecision ExecutionLanguage.
Proof. solve_decision. Defined.

Inductive ExecutionTarget :=
| MySqlText (text : str)
| RedisArgv (arguments : list str).
#[export] Instance ExecutionTarget_eq : EqDecision ExecutionTarget.
Proof. solve_decision. Defined.

Inductive ExecutionTargetError :=
| InvalidCaretPosition | InvalidSelectionRange | InvalidRowLimit | InvalidTimeout
| NoCurrentStatement | MultipleStatements | AmbiguousSqlMode | UnterminatedSqlToken
| RedisShellParseFailed | RedisCommandDenied | RedisTargetTooLarge | RedisTooManyTokens
| RedisTokenTooLarge.
#[export] Instance ExecutionTargetError_eq : EqDecision ExecutionTargetError.
Proof. solve_decision. Defined.

(** ** Read/mutation classification *)

Definition READ_KEYWORDS : list str :=
  [lit "SELECT"; lit "SHOW"; lit "DESCRIBE"; lit "DESC"; lit "EXPLAIN"].

Definition SIDE_EFFECTS : list str :=
  [lit " INTO OUTFILE"; lit " INTO DUMPFILE"; lit " FOR UPDATE"; lit " LOCK IN SHARE MODE";
   lit "GET_LOCK("; lit "RELEASE_LOCK("; lit "SLEEP("].

Definition mysql_is_clearly_read_only (text : str) : bool :=
  let uppercase := to_ascii_uppercase text in
  let keyword := take_while is_ascii_alphabetic (trim_start uppercase) in
  if negb (bool_decide (keyword ∈ READ_KEYWORDS)) then false
  else negb (existsb (fun side_effect => contains side_effect uppercase) SIDE_EFFECTS).

Definition READ_COMMANDS : list str :=
  [lit "PING"; lit "ECHO"; lit "GET"; lit "MGET"; lit "EXISTS"; lit "TYPE"; lit "TTL";
   lit "PTTL"; lit "STRLEN"; lit "GETRANGE"; lit "BITCOUNT"; lit "HGET"; lit "HMGET";
   lit "HGETALL"; lit "HEXISTS"; lit "HLEN"; lit "HKEYS"; lit "HVALS"; lit "LLEN";
   lit "LINDEX"; lit "LRANGE"; lit "SCARD"; lit "SISMEMBER"; lit "SMISMEMBER";
   lit "SMEMBERS"; lit "ZCARD"; lit "ZCOUNT"; lit "ZSCORE"; lit "ZMSCORE"; lit "ZRANGE";
   lit "ZRANGEBYSCORE"; lit "ZREVRANGE"; lit "ZRANK"; lit "ZREVRANK"; lit "XLEN";
   lit "XRANGE"; lit "XREVRANGE"; lit "SCAN"; lit "SSCAN"; lit "HSCAN"; lit "ZSCAN";
   lit "DBSIZE"; lit "INFO"; lit "TIME"].

Definition redis_is_clearly_read_only (arguments : list str) : bool :=
  match arguments with
  | [] => false
  | command :: _ => bool_decide (to_ascii_uppercase command ∈ READ_COMMANDS)
  end.

Definition classify_execution_kind (language : ExecutionLanguage) (target : ExecutionTarget) :
    OperationKind :=
  let is_read :=
    match language, target with
    | LMySql, MySqlText text => mysql_is_clearly_read_only text
    | LRedis, RedisArgv arguments => redis_is_clearly_read_only arguments
    | _, _ => false
    end in
  if is_read then ExecuteRead else ExecuteMutation.

(** ** Char and byte positions *)

Definition char_to_byte (text : str) (character_index : nat) : option nat :=
  if character_index =? length text then Some (byte_len text)
  else fst <$> char_indices text !! character_index.

Definition checked_character_slice (text : str) (range : nat * nat) :
    result ExecutionTargetError str :=
  if range.2 <? range.1 then Err InvalidSelectionRange
  else
    start ← ok_or (char_to_byte text range.1) InvalidSelectionRange;
    stop ← ok_or (char_to_byte text range.2) InvalidSelectionRange;
    ok_or (str_get text start stop) InvalidSelectionRange.

(** ** The MySQL scanner *)

Record PendingMysqlStatement := {
  first_executable : option nat;
  last_executable_end : nat;
  pending_ambiguous : bool;
}.

Record MysqlStatement := {
  st_start : nat;
  st_end : nat;
  st_ambiguous : bool;
}.

Record MysqlLexIssue := {
  statement_start : nat;
  issue_ambiguous : bool;
}.

Record MysqlScan := {
  sc_statements : list MysqlStatement;
  sc_issue : option MysqlLexIssue;
  sc_stray_terminator : bool;
}.

Record QuotedSpan := { q_end : nat; q_ambiguous : bool }.

Definition pending_default : PendingMysqlStatement :=
  {| first_executable := None; last_executable_end := 0; pending_ambiguous := false |}.

Definition mark_executable (p : PendingMysqlStatement) (start stop : nat) : PendingMysqlStatement :=
  {| first_executable := match first_executable p with None => Some start | s => s end;
     last_executable_end := stop;
     pending_ambiguous := pending_ambiguous p |}.

(** [pending.ambiguous_sql_mode |= flag] *)
Definition or_ambiguous (p : PendingMysqlStatement) (flag : bool) : PendingMysqlStatement :=
  {| first_executable := first_executable p;
     last_executable_end := last_executable_end p;
     pending_ambiguous := pending_ambiguous p || flag |}.

(** [PendingMysqlStatement::finish]: the statement, if one is pending, and the
    state left behind. *)
Definition finish (p : PendingMysqlStatement) (stop : nat) :
    option MysqlStatement * PendingMysqlStatement :=
  match first_executable p with
  | None => (None, p)
  | Some start =>
      (Some {| st_start := start; st_end := stop; st_ambiguous := pending_ambiguous p |},
       pending_default)
  end.

(** [text[byte_index..].char_indices().nth(1)]; [None] is the slice panic. *)
Definition next_char_boundary (text : str) (byte_index : nat) : option nat :=
  rest ← str_from text byte_index;
  match char_indices rest !! 1 with
  | Some (offset, _) => Some (byte_index + offset)
  | None => Some (byte_len text)
  end.

Definition byte_is (b : option N) (c : N) : bool := bool_decide (b = Some c).

(** [bytes.get(index..index + 2) == Some(b"--")] and the byte after it. *)
Definition mysql_dash_comment_starts (bs : bytes) (index : nat) : bool :=
  byte_is (bs !! index) 45 && byte_is (bs !! (index + 1)) 45
  && match bs !! (index + 2) with
     | Some b => is_ascii_whitespace b || is_ascii_control b
     | None => false
     end.

Definition line_comment_end (bs : bytes) (start : nat) : nat :=
  match position (N.eqb 10) (drop start bs) with
  | None => length bs
  | Some offset => start + offset
  end.

(** [windows(2).position(|window| window == b"*/")] *)
Fixpoint star_slash (l : bytes) : option nat :=
  match l with
  | a :: (b :: _) as r => if ((a =? 42) && (b =? 47))%N then Some 0 else S <$> star_slash r
  | _ => None
  end.

Definition block_comment_end (bs : bytes) (search_start : nat) : option nat :=
  if search_start <=? length bs then
    offset ← star_slash (drop search_start bs);
    Some (search_start + offset + 2)
  else None.

(** [while bytes.get(index) == Some(&b'\\') { index += 1 }] *)
Definition backslash_run_end (bs : bytes) (index : nat) : nat :=
  index + length (take_while (N.eqb 92) (drop index bs)).

(** The loop of [quoted_span]: [None] is a panic or exhausted fuel,
    [Some None] an unterminated token. *)
Fixpoint quoted_span_loop (fuel : nat) (text : str) (bs : bytes) (delimiter : N)
    (index : nat) (ambiguous : bool) : option (option QuotedSpan) :=
  match fuel with
  | 0 => None
  | S fuel =>
      match bs !! index with
      | None => Some None
      | Some byte =>
          if (byte =? 92)%N then
            let run_start := index in
            let index := backslash_run_end bs index in
            let odd_run := (index - run_start) mod 2 =? 1 in
            match bs !! index with
            | None => Some None
            | Some escaped =>
                let ambiguous :=
                  if ((escaped =? delimiter) && negb (delimiter =? 96))%N && odd_run
                  then true else ambiguous in
                if odd_run then
                  index ← next_char_boundary text index;
                  quoted_span_loop fuel text bs delimiter index ambiguous
                else quoted_span_loop fuel text bs delimiter index ambiguous
            end
          else if (byte =? delimiter)%N then
            if byte_is (bs !! (index + 1)) delimiter
            then quoted_span_loop fuel text bs delimiter (index + 2) ambiguous
            else Some (Some {| q_end := index + 1; q_ambiguous := ambiguous |})
          else
            index ← next_char_boundary text index;
            quoted_span_loop fuel text bs delimiter index ambiguous
      end
  end.

Definition quoted_span (text : str) (start : nat) (delimiter : N) : option (option QuotedSpan) :=
  let bs := encode text in
  quoted_span_loop (S (length bs)) text bs delimiter (start + 1) false.

Definition odd_backslash_run_before (bs : bytes) (index : nat) : bool :=
  length (take_while (N.eqb 92) (reverse (take index bs))) mod 2 =? 1.

Record ScanState := {
  ss_statements : list MysqlStatement;
  ss_pending : PendingMysqlStatement;
  ss_stray : bool;
  ss_index : nat;
}.

Definition scan_issue (s : ScanState) (p : PendingMysqlStatement) (index : nat) : MysqlScan :=
  {| sc_statements := ss_statements s;
     sc_issue := Some {| statement_start := default index (first_executable p);
                         issue_ambiguous := pending_ambiguous p |};
     sc_stray_terminator := ss_stray s |}.

(** One iteration of the [while index < bytes.len()] loop of [scan_mysql]:
    the next state, or the early return. *)
Definition scan_step (text : str) (bs : bytes) (s : ScanState) (byte : N) :
    option (ScanState + MysqlScan) :=
  let index := ss_index s in
  let pending := ss_pending s in
  let move p i := Some (inl {| ss_statements := ss_statements s; ss_pending := p;
                               ss_stray := ss_stray s; ss_index := i |}) in
  if (byte =? 35)%N || mysql_dash_comment_starts bs index then
    move pending (line_comment_end bs index)
  else if byte_is (bs !! index) 47 && byte_is (bs !! (index + 1)) 42 then
    let executable_version_comment := byte_is (bs !! (index + 2)) 33 in
    match block_comment_end bs (index + 2) with
    | None => Some (inr (scan_issue s pending index))
    | Some stop =>
        move (if executable_version_comment then mark_executable pending index stop else pending)
             stop
    end
  else if ((byte =? 39) || (byte =? 34) || (byte =? 96))%N then
    let pending := mark_executable pending index (index + 1) in
    let preceding_odd_backslash := negb (byte =? 96)%N && odd_backslash_run_before bs index in
    quoted ← quoted_span text index byte;
    match quoted with
    | Some quoted =>
        let pending := mark_executable pending index (q_end quoted) in
        move (or_ambiguous pending (preceding_odd_backslash || q_ambiguous quoted)) (q_end quoted)
    | None => Some (inr (scan_issue s (or_ambiguous pending preceding_odd_backslash) index))
    end
  else if (byte =? 59)%N then
    let '(statement, pending) := finish pending (index + 1) in
    match statement with
    | Some statement =>
        Some (inl {| ss_statements := ss_statements s ++ [statement]; ss_pending := pending;
                     ss_stray := ss_stray s; ss_index := index + 1 |})
    | None =>
        Some (inl {| ss_statements := ss_statements s; ss_pending := pending;
                     ss_stray := true; ss_index := index + 1 |})
    end
  else
    stop ← next_char_boundary text index;
    piece ← str_get text index stop;
    move (if negb (forallb is_whitespace piece) then mark_executable pending index stop
          else pending) stop.

Fixpoint scan_loop (fuel : nat) (text : str) (bs : bytes) (s : ScanState) : option MysqlScan :=
  match fuel with
  | 0 => None
  | S fuel =>
      match bs !! ss_index s with
      | None =>
          let '(statement, _) := finish (ss_pending s) (last_executable_end (ss_pending s)) in
          Some {| sc_statements := ss_statements s ++ option_list statement;
                  sc_issue := None; sc_stray_terminator := ss_stray s |}
      | Some byte =>
          next ← scan_step text bs s byte;
          match next with
          | inl s => scan_loop fuel text bs s
          | inr scan => Some scan
          end
      end
  end.

Definition scan_init : ScanState :=
  {| ss_statements := []; ss_pending := pending_default; ss_stray := false; ss_index := 0 |}.

(** Every iteration consumes at least one byte: [S (length bytes)] iterations
    reach the end of the text. *)
Definition scan_mysql (text : str) : option MysqlScan :=
  let bs := encode text in
  scan_loop (S (length bs)) text bs scan_init.

(** ** Target validation *)

(** A panic of the scanner, were it possible, is the outer [None]. *)
Definition validate_mysql_selection (selection : str) :
    option (result ExecutionTargetError unit) :=
  if bool_decide (selection = []) then Some (Err NoCurrentStatement)
  else
    scan ← scan_mysql selection;
    Some (match sc_issue scan with
          | Some _ => Err UnterminatedSqlToken
          | None =>
              match length (sc_statements scan) with
              | 0 => Err NoCurrentStatement
              | 1 => if sc_stray_terminator scan then Err MultipleStatements else Ok tt
              | _ => Err MultipleStatements
              end
          end).

Definition mysql_statement_contains (s : MysqlStatement) (caret text_len : nat) : bool :=
  ((st_start s <=? caret) && (caret <? st_end s))
  || ((caret =? text_len) && (st_end s =? text_len) && (st_start s <=? caret)).

Definition infer_mysql_target (text : str) (caret_byte : nat) :
    option (result ExecutionTargetError str) :=
  scan ← scan_mysql text;
  Some (match List.find (fun s => mysql_statement_contains s caret_byte (byte_len text))
                        (sc_statements scan) with
        | Some statement =>
            if st_ambiguous statement then Err AmbiguousSqlMode
            else ok_or (str_get text (st_start statement) (st_end statement)) InvalidCaretPosition
        | None =>
            match sc_issue scan with
            | Some issue =>
                if statement_start issue <=? caret_byte
                then if issue_ambiguous issue then Err AmbiguousSqlMode
                     else Err UnterminatedSqlToken
                else Err NoCurrentStatement
            | None => Err NoCurrentStatement
            end
        end).

(** [text[..caret].rfind('\n')], [text[caret..].find('\n')]; [None] is the
    panic of a slice off a char boundary. *)
Definition physical_line_at (text : str) (caret_byte : nat) : option str :=
  '(before, after) ← split_at_byte text caret_byte;
  let start :=
    match position (N.eqb 10) (reverse (encode before)) with
    | None => 0
    | Some p => caret_byte - (p + 1) + 1
    end in
  let stop :=
    match position (N.eqb 10) (encode after) with
    | None => byte_len text
    | Some offset => caret_byte + offset
    end in
  str_get text start stop.

(** ** Redis policy *)

Definition EXACT_DENY : list bytes :=
  [lit "SUBSCRIBE"; lit "PSUBSCRIBE"; lit "SSUBSCRIBE"; lit "UNSUBSCRIBE"; lit "PUNSUBSCRIBE";
   lit "SUNSUBSCRIBE"; lit "MONITOR"; lit "SYNC"; lit "PSYNC"; lit "REPLCONF"; lit "WAIT";
   lit "WAITAOF"; lit "BRPOP"; lit "BRPOPLPUSH"; lit "BZPOPMIN"; lit "BZPOPMAX"; lit "BZMPOP"].

Fixpoint block_precedes_streams (arguments : list bytes) : bool :=
  match arguments with
  | [] => false
  | argument :: arguments =>
      if eq_ignore_ascii_case argument (lit "STREAMS") then false
      else if eq_ignore_ascii_case argument (lit "BLOCK") then true
      else block_precedes_streams arguments
  end.

Definition redis_bytes_are_denied (argv : list bytes) : bool :=
  match argv with
  | [] => false
  | command :: arguments =>
      if (2 <=? length command) && eq_ignore_ascii_case (take 2 command) (lit "BL") then true
      else if eq_ignore_ascii_case command (lit "XREAD")
              || eq_ignore_ascii_case command (lit "XREADGROUP")
      then block_precedes_streams arguments
      else existsb (eq_ignore_ascii_case command) EXACT_DENY
  end.

Definition redis_argv_is_denied (argv : list bytes) : bool := redis_bytes_are_denied argv.
Definition redis_command_is_denied (argv : list str) : bool :=
  redis_bytes_are_denied (encode <$> argv).

Record ValidatedExecutionTarget := {
  v_target : ExecutionTarget;
  v_source_text : str;
  v_row_limit : N;
  v_timeout_seconds : N;
}.

Definition into_source_text (v : ValidatedExecutionTarget) : str :=
  match v_target v with MySqlText text => text | RedisArgv _ => v_source_text v end.

(** [shell_words::split] is the crate's: a parameter. *)
Section shell_words.
Context (shell_split : str -> option (list str)).

Fixpoint count_command_lines (lines : list str) (command_lines : nat) :
    result ExecutionTargetError unit :=
  match lines with
  | [] => Ok tt
  | line :: lines =>
      argv ← ok_or (shell_split (trim_end_matches (N.eqb 13) line)) RedisShellParseFailed;
      if bool_decide (argv = []) then count_command_lines lines command_lines
      else if 1 <? command_lines + 1 then Err MultipleStatements
      else count_command_lines lines (command_lines + 1)
  end.

Definition validate_single_redis_physical_command (selection : str) :
    result ExecutionTargetError unit :=
  if bool_decide (selection = []) then Err NoCurrentStatement
  else if (MAX_REDIS_TARGET_BYTES <? str_len selection)%N then Err RedisTargetTooLarge
  else count_command_lines (split_char 10 selection) 0.

Definition validate_redis_target (target : str) : result ExecutionTargetError (list str) :=
  if (MAX_REDIS_TARGET_BYTES <? str_len target)%N then Err RedisTargetTooLarge
  else
    argv ← ok_or (shell_split target) RedisShellParseFailed;
    match argv with
    | [] => Err NoCurrentStatement
    | command :: _ =>
        if bool_decide (command = []) then Err RedisShellParseFailed
        else if (MAX_REDIS_TOKENS <? N.of_nat (length argv))%N then Err RedisTooManyTokens
        else if existsb (fun token => MAX_REDIS_TOKEN_BYTES <? str_len token)%N argv
        then Err RedisTokenTooLarge
        else if redis_command_is_denied argv then Err RedisCommandDenied
        else Ok argv
    end.

Definition extract_and_validate_target (editor_text : str) (caret_character_index : nat)
    (selection_character_range : option (nat * nat)) (language : ExecutionLanguage)
    (row_limit timeout_seconds : N) :
    option (result ExecutionTargetError ValidatedExecutionTarget) :=
  let finish_ (r : result ExecutionTargetError (ExecutionTarget * str)) :=
    '(target, source_text) ← r;
    Ok {| v_target := target; v_source_text := source_text;
          v_row_limit := row_limit; v_timeout_seconds := timeout_seconds |} in
  if negb ((1 <=? row_limit) && (row_limit <=? MAX_EXECUTE_ROW_LIMIT))%N
  then Some (Err InvalidRowLimit)
  else if negb ((1 <=? timeout_seconds) && (timeout_seconds <=? MAX_EXECUTE_TIMEOUT_SECONDS))%N
  then Some (Err InvalidTimeout)
  else
    match char_to_byte editor_text caret_character_index with
    | None => Some (Err InvalidCaretPosition)
    | Some caret_byte =>
        let selected :=
          match selection_character_range with
          | None => Ok None
          | Some range => Some ∘ trim <$> checked_character_slice editor_text range
          end in
        match selected with
        | Err e => Some (Err e)
        | Ok selected =>
            match language, selected with
            | LMySql, Some selection =>
                valid ← validate_mysql_selection selection;
                Some (finish_ (_ ← valid; Ok (MySqlText selection, [])))
            | LMySql, None =>
                target ← infer_mysql_target editor_text caret_byte;
                Some (finish_ (target ← target; Ok (MySqlText target, [])))
            | LRedis, Some selection =>
                Some (finish_ (
                  _ ← validate_single_redis_physical_command selection;
                  argv ← validate_redis_target selection;
                  Ok (RedisArgv argv, selection)))
            | LRedis, None =>
                line ← physical_line_at editor_text caret_byte;
                let line := trim line in
                Some (finish_ (
                  argv ← validate_redis_target line;
                  Ok (RedisArgv argv, line)))
            end
        end
    end.
End shell_words.
