(* ===== verification/MysqlLex.v ===== *)
(** * A reference lexer for the MySQL scanner

    [Execution.scan_mysql] walks byte indices, counts backslash runs and keeps
    a mutable pending statement.  This file gives the specification it is
    proved against in [Scanner]: a lexer over Unicode characters that cuts the
    text into tokens, and a grouping of the tokens into statements. *)

From S2P Require Import Prelude RustStr Model Execution.

Inductive TokenKind :=
| KLineComment | KBlockComment | KVersionComment | KQuoted (ambiguous quote : bool)
| KTerminator | KBlank | KChar.
#[export] Instance TokenKind_eq : EqDecision TokenKind. Proof. solve_decision. Defined.

Record Token := { tk_kind : TokenKind; tk_text : str }.

(** Tokens that make a statement executable. *)
Definition executable (t : Token) : bool :=
  match tk_kind t with
  | KVersionComment | KQuoted _ _ | KChar => true
  | _ => false
  end.
Definition is_terminator (t : Token) : bool := bool_decide (tk_kind t = KTerminator).

(** The text after an opening quote [d], up to and including the closing one:
    a backslash takes the next character with it, a doubled delimiter stays
    inside.  The flag reports an escaped single or double quote. *)
Fixpoint quoted_body (d : char) (s : str) : option (str * bool) :=
  match s with
  | [] => None
  | c :: s1 =>
      if (c =? 92)%N then
        match s1 with
        | [] => None
        | e :: s2 =>
            '(body, amb) ← quoted_body d s2;
            Some (c :: e :: body, ((e =? d) && negb (d =? 96))%N || amb)
        end
      else if (c =? d)%N then
        match s1 with
        | e :: s2 =>
            if (e =? d)%N then
              '(body, amb) ← quoted_body d s2;
              Some (c :: e :: body, amb)
            else Some ([c], false)
        | [] => Some ([c], false)
        end
      else
        '(body, amb) ← quoted_body d s1;
        Some (c :: body, amb)
  end.

(** [--] opens a comment only before a blank or control character. *)
Definition dash_comment (s : str) : bool :=
  match s with
  | a :: b :: c :: _ =>
      ((a =? 45) && (b =? 45))%N && (is_ascii_whitespace c || is_ascii_control c)
  | _ => false
  end.

Definition is_quote (c : char) : bool := ((c =? 39) || (c =? 34) || (c =? 96))%N.

(** The token at the head of [s]; [None] when it never ends. *)
Definition next_token (s : str) : option Token :=
  match s with
  | [] => None
  | c :: s1 =>
      if (c =? 35)%N || dash_comment s then
        Some {| tk_kind := KLineComment; tk_text := take_while (fun x => negb (x =? 10)%N) s |}
      else if (c =? 47)%N && match s1 with b :: _ => (b =? 42)%N | [] => false end then
        k ← star_slash (drop 2 s);
        Some {| tk_kind := if match drop 2 s with b :: _ => (b =? 33)%N | [] => false end
                           then KVersionComment else KBlockComment;
                tk_text := take (k + 4) s |}
      else if is_quote c then
        '(body, amb) ← quoted_body c s1;
        Some {| tk_kind := KQuoted amb (negb (c =? 96)%N); tk_text := c :: body |}
      else if (c =? 59)%N then Some {| tk_kind := KTerminator; tk_text := [c] |}
      else if is_whitespace c then Some {| tk_kind := KBlank; tk_text := [c] |}
      else Some {| tk_kind := KChar; tk_text := [c] |}
  end.

(** All tokens of [s], and the remainder where an unterminated one starts. *)
Fixpoint lex_fuel (fuel : nat) (s : str) : list Token * option str :=
  match fuel, s with
  | 0, _ | _, [] => ([], None)
  | S fuel, _ =>
      match next_token s with
      | None => ([], Some s)
      | Some t =>
          let '(ts, rest) := lex_fuel fuel (drop (length (tk_text t)) s) in
          (t :: ts, rest)
      end
  end.
Definition lex (s : str) : list Token * option str := lex_fuel (length s) s.

Definition tokens_text (ts : list Token) : str := ts ≫= tk_text.

(** Whether an odd run of backslashes ends [s]. *)
Definition odd_backslash_tail (s : str) : bool :=
  length (take_while (N.eqb 92) (reverse s)) mod 2 =? 1.

Record GroupState := {
  gs_statements : list MysqlStatement;
  gs_pending : PendingMysqlStatement;
  gs_stray : bool;
  gs_read : str;
}.

(** Grouping one token into the pending statement. *)
Definition group (g : GroupState) (t : Token) : GroupState :=
  let start := byte_len (gs_read g) in
  let stop := start + byte_len (tk_text t) in
  let read := gs_read g ++ tk_text t in
  let move p := {| gs_statements := gs_statements g; gs_pending := p;
                   gs_stray := gs_stray g; gs_read := read |} in
  match tk_kind t with
  | KLineComment | KBlockComment | KBlank => move (gs_pending g)
  | KVersionComment | KChar => move (mark_executable (gs_pending g) start stop)
  | KQuoted amb quote =>
      move (or_ambiguous (mark_executable (gs_pending g) start stop)
                         (quote && odd_backslash_tail (gs_read g) || amb))
  | KTerminator =>
      {| gs_statements := gs_statements g ++ option_list (finish (gs_pending g) stop).1;
         gs_pending := (finish (gs_pending g) stop).2;
         gs_stray := gs_stray g || bool_decide (first_executable (gs_pending g) = None);
         gs_read := read |}
  end.

Definition group_init : GroupState :=
  {| gs_statements := []; gs_pending := pending_default; gs_stray := false; gs_read := [] |}.

(** What an unterminated token at the end of the text reports. *)
Definition group_issue (g : GroupState) (rest : str) : MysqlLexIssue :=
  let index := byte_len (gs_read g) in
  match rest with
  | c :: _ =>
      if is_quote c then
        {| statement_start := default index (first_executable (gs_pending g));
           issue_ambiguous := pending_ambiguous (gs_pending g)
                              || negb (c =? 96)%N && odd_backslash_tail (gs_read g) |}
      else {| statement_start := default index (first_executable (gs_pending g));
              issue_ambiguous := pending_ambiguous (gs_pending g) |}
  | [] => {| statement_start := index; issue_ambiguous := false |}
  end.

Definition group_finish (g : GroupState) (rest : option str) : MysqlScan :=
  match rest with
  | Some rest => {| sc_statements := gs_statements g; sc_issue := Some (group_issue g rest);
                    sc_stray_terminator := gs_stray g |}
  | None =>
      {| sc_statements := gs_statements g ++
           option_list (finish (gs_pending g) (last_executable_end (gs_pending g))).1;
         sc_issue := None; sc_stray_terminator := gs_stray g |}
  end.

(** The specification of [scan_mysql]. *)
Definition reference_scan (text : str) : MysqlScan :=
  let '(ts, rest) := lex text in
  group_finish (foldl group group_init ts) rest.
