(* ===== verification/Scanner.v ===== *)
(** * The MySQL scanner refines the reference lexer

    [scan_mysql] is total (its loops terminate and no slice panics) and equals
    [reference_scan]: the byte-level scanner of [Execution] and the
    character-level specification of [MysqlLex] agree on every text. *)

From S2P Require Import Prelude RustStr Model Execution MysqlLex.

(** ** Bytes of ASCII characters *)

Lemma enc_at pre s k : encode (pre ++ s) !! (byte_len pre + k) = encode s !! k.
Proof. rewrite encode_app, lookup_app_r by (unfold byte_len; lia). f_equal. unfold byte_len. lia. Qed.

Lemma enc_at0 pre s : encode (pre ++ s) !! byte_len pre = encode s !! 0.
Proof. rewrite <- (enc_at pre s 0). f_equal. lia. Qed.

Lemma ascii_blank_multi c :
  (128 <= c)%N -> is_ascii_whitespace c || is_ascii_control c = false.
Proof.
  intros Hc. unfold is_ascii_whitespace, is_ascii_control.
  by rewrite !(proj2 (N.eqb_neq _ _)), (proj2 (N.ltb_ge _ _)) by lia.
Qed.

(** The first byte of a character decides every ASCII test of it. *)
Lemma head_byte c s :
  exists b, encode (c :: s) !! 0 = Some b /\
    (forall a, (a < 128)%N -> (b =? a)%N = (c =? a)%N) /\
    is_ascii_whitespace b || is_ascii_control b = is_ascii_whitespace c || is_ascii_control c.
Proof.
  destruct (lookup_encode_head [] c s) as (b & Hb & Hlo & Hhi). exists b.
  split; [done|]. destruct (N.lt_ge_cases c 128) as [Hc|Hc].
  - specialize (Hlo Hc). by subst.
  - specialize (Hhi Hc). split.
    + intros a Ha. by rewrite !(proj2 (N.eqb_neq _ _)) by lia.
    + by rewrite !ascii_blank_multi.
Qed.

Lemma byte_is_head c s a : (a < 128)%N -> byte_is (encode (c :: s) !! 0) a = (c =? a)%N.
Proof.
  intros Ha. destruct (head_byte c s) as (b & -> & Hb & _). rewrite <- Hb by done.
  unfold byte_is. apply eq_bool_prop_intro. rewrite bool_decide_spec, Is_true_true, N.eqb_eq.
  naive_solver.
Qed.

Lemma byte_is_None a : byte_is None a = false.
Proof. done. Qed.

Lemma enc_tail c s k : (c < 128)%N -> encode (c :: s) !! S k = encode s !! k.
Proof. intros Hc. cbn. by rewrite encode_char_ascii. Qed.

(** ** Searches *)

Lemma star_slash_skip l r :
  Forall (fun b => 128 <= b)%N l -> star_slash (l ++ r) = Nat.add (length l) <$> star_slash r.
Proof.
  induction 1 as [|b l Hb _ IH]; cbn [app length].
  - by destruct (star_slash r).
  - cbn [star_slash]. destruct (l ++ r) as [|b' r'] eqn:E.
    { apply app_nil in E as [-> ->]. done. }
    replace (b =? 42)%N with false by lia. cbn [andb]. rewrite IH.
    by destruct (star_slash r).
Qed.

Lemma star_slash_cons2 a b r :
  star_slash (a :: b :: r)
  = (if ((a =? 42) && (b =? 47))%N then Some 0 else S <$> star_slash (b :: r)).
Proof. done. Qed.

Lemma star_slash_encode s : star_slash (encode s) = (fun k => byte_len (take k s)) <$> star_slash s.
Proof.
  induction s as [|c s IH]; [done|].
  destruct (N.lt_ge_cases c 128) as [Hc|Hc].
  - rewrite encode_cons, encode_char_ascii by done. cbn [app].
    destruct s as [|c' s]; [done|].
    assert (forall X : option nat, (fun k => byte_len (take k (c :: c' :: s))) <$> (S <$> X)
              = S <$> ((fun k => byte_len (take k (c' :: s))) <$> X)) as Hshift.
    { intros [k|]; cbn; [|done]. by rewrite byte_len_cons, len_utf8_ascii. }
    destruct (head_byte c' s) as (b & Hb & Hbit & _).
    destruct (encode (c' :: s)) as [|b' r] eqn:E; [done|].
    cbn in Hb. injection Hb as ->.
    rewrite !star_slash_cons2, (Hbit 47%N) by lia.
    destruct ((c =? 42) && (c' =? 47))%N; [done|].
    by rewrite Hshift, <- IH.
  - rewrite encode_cons, star_slash_skip by (by apply encode_char_multi). rewrite IH.
    destruct s as [|c' s]; [done|].
    rewrite star_slash_cons2. replace (c =? 42)%N with false by lia. cbn [andb].
    destruct (star_slash (c' :: s)); cbn; [|done]. by rewrite byte_len_cons.
Qed.

Lemma position_skip (a : N) l r :
  (a < 128)%N -> Forall (fun b => 128 <= b)%N l ->
  position (N.eqb a) (l ++ r) = Nat.add (length l) <$> position (N.eqb a) r.
Proof.
  intros Ha. induction 1 as [|b l Hb _ IH]; cbn.
  - by destruct (position _ r).
  - replace (a =? b)%N with false by lia. rewrite IH. by destruct (position _ r).
Qed.

Lemma position_encode (a : N) s :
  (a < 128)%N ->
  match position (N.eqb a) (encode s) with None => byte_len s | Some o => o end
  = byte_len (take_while (fun x => negb (x =? a)%N) s).
Proof.
  intros Ha. induction s as [|c s IH]; [done|]. rewrite encode_cons.
  cbn [take_while]. destruct (c =? a)%N eqn:Hca; cbn [negb].
  - apply N.eqb_eq in Hca as ->. rewrite encode_char_ascii by done. cbn.
    by rewrite N.eqb_refl.
  - rewrite !byte_len_cons, <- IH.
    destruct (N.lt_ge_cases c 128) as [Hc|Hc].
    + rewrite encode_char_ascii, len_utf8_ascii by done. cbn.
      rewrite N.eqb_sym, Hca. by destruct (position _ (encode s)).
    + rewrite position_skip by (done || by apply encode_char_multi).
      unfold len_utf8. by destruct (position _ (encode s)).
Qed.

Lemma line_comment_end_encode pre s :
  line_comment_end (encode (pre ++ s)) (byte_len pre)
  = byte_len pre + byte_len (take_while (fun x => negb (x =? 10)%N) s).
Proof.
  unfold line_comment_end. rewrite drop_encode, <- position_encode by lia.
  destruct (position _ _); [done|]. change (length (encode ?x)) with (byte_len x).
  by rewrite byte_len_app.
Qed.

Lemma block_comment_end_encode pre s :
  block_comment_end (encode (pre ++ s)) (byte_len pre)
  = (fun k => byte_len pre + byte_len (take (k + 2) s)) <$> star_slash s.
Proof.
  unfold block_comment_end. change (length (encode ?x)) with (byte_len x).
  rewrite byte_len_app, drop_encode, star_slash_encode.
  rewrite (proj2 (Nat.leb_le _ _)) by lia.
  destruct (star_slash s) as [k|] eqn:E; cbn; [|done]. f_equal.
  assert (byte_len (take (k + 2) s) = byte_len (take k s) + 2); [|lia].
  clear pre. revert s E; induction k as [|k IH]; intros s E.
  - destruct s as [|a [|b s]]; try done. cbn in E |- *.
    destruct ((a =? 42) && (b =? 47))%N eqn:Hab; [|by destruct (match s with [] => _ | _ => _ end)].
    apply andb_prop in Hab as [->%N.eqb_eq ->%N.eqb_eq].
    by rewrite !byte_len_cons, !len_utf8_ascii, take_0 by lia.
  - destruct s as [|a [|b s]]; try done.
    rewrite star_slash_cons2 in E. case_match; [done|]. apply fmap_Some in E as (k' & E & [= ->]).
    apply IH in E. cbn [take Nat.add]. rewrite !byte_len_cons. lia.
Qed.

(** ** Stepping over one character *)

Lemma next_char_boundary_encode pre c s :
  next_char_boundary (pre ++ c :: s) (byte_len pre) = Some (byte_len (pre ++ [c])).
Proof.
  unfold next_char_boundary. rewrite str_from_app. cbn.
  destruct s as [|e s]; cbn; autorewrite with dbotter; f_equal; lia.
Qed.

Lemma encode_lookup_0_nil : encode [] !! 0 = None.
Proof. done. Qed.

Lemma lookup_head_Some c s : is_Some (encode (c :: s) !! 0).
Proof. destruct (head_byte c s) as (b & -> & _). eauto. Qed.

(** ** Backslash runs *)

Lemma split_backslashes s :
  exists n s', s = replicate n 92%N ++ s' /\ (forall r, s' <> 92%N :: r).
Proof.
  induction s as [|c s (n & s' & -> & Hs')].
  - by exists 0, [].
  - destruct (decide (c = 92%N)) as [->|Hc].
    + by exists (S n), s'.
    + exists 0, (c :: replicate n 92%N ++ s'). split; [done|]. congruence.
Qed.

Lemma encode_backslashes n : encode (replicate n 92%N) = replicate n 92%N.
Proof. induction n as [|n IH]; cbn; [done|]. by rewrite encode_char_ascii, IH. Qed.

Lemma byte_len_backslashes n : byte_len (replicate n 92%N) = n.
Proof. unfold byte_len. by rewrite encode_backslashes, length_replicate. Qed.

Lemma take_while_backslashes n l :
  (forall r, l <> 92%N :: r) ->
  length (take_while (N.eqb 92) (replicate n 92%N ++ l)) = n.
Proof.
  intros Hl. induction n as [|n IH]; cbn [replicate app take_while].
  - destruct l as [|b l]; [done|]. cbn.
    destruct (92 =? b)%N eqn:E; [|done]. apply N.eqb_eq in E as <-. by destruct (Hl l).
  - rewrite N.eqb_refl. cbn [length]. by rewrite IH.
Qed.

Lemma encode_not_backslash s :
  (forall r, s <> 92%N :: r) -> forall r, encode s <> 92%N :: r.
Proof.
  intros Hs r Hr. destruct s as [|c s]; [done|].
  destruct (head_byte c s) as (b & Hb & Hbit & _).
  rewrite Hr in Hb. cbn in Hb. injection Hb as <-.
  specialize (Hbit 92%N ltac:(lia)). rewrite N.eqb_refl in Hbit.
  symmetry in Hbit. apply N.eqb_eq in Hbit as ->. by destruct (Hs s).
Qed.

Lemma backslash_run_end_encode pre n s :
  (forall r, s <> 92%N :: r) ->
  backslash_run_end (encode (pre ++ replicate n 92%N ++ s)) (byte_len pre) = byte_len pre + n.
Proof.
  intros Hs. unfold backslash_run_end.
  rewrite drop_encode, encode_app, encode_backslashes.
  rewrite take_while_backslashes; [done|]. by apply encode_not_backslash.
Qed.

Lemma odd_backslash_run_before_encode pre s :
  odd_backslash_run_before (encode (pre ++ s)) (byte_len pre) = odd_backslash_tail pre.
Proof.
  unfold odd_backslash_run_before, odd_backslash_tail. rewrite take_encode. clear s.
  do 2 f_equal. induction pre as [|c pre IH] using rev_ind; [done|].
  rewrite encode_app, !reverse_app. cbn [encode]. rewrite (right_id_L [] (++)).
  destruct (N.lt_ge_cases c 128) as [Hc|Hc].
  - rewrite encode_char_ascii by done. change (reverse [c]) with [c]. cbn.
    destruct (92 =? c)%N; cbn; [by rewrite IH|done].
  - change (reverse [c]) with [c]. cbn. replace (92 =? c)%N with false by lia.
    pose proof (encode_char_multi c Hc) as HF.
    destruct (encode_char_cons c) as (b & r & E). rewrite E in HF |- *.
    rewrite reverse_cons. apply Forall_cons in HF as [Hb HF].
    destruct (reverse r) as [|x r'] eqn:Er; cbn.
    + by replace (92 =? b)%N with false by lia.
    + apply Forall_reverse in HF. rewrite Er in HF. apply Forall_cons in HF as [Hx _].
      by replace (92 =? x)%N with false by lia.
Qed.

Lemma quoted_body_even d k s :
  d <> 92%N ->
  quoted_body d (replicate (k + k) 92%N ++ s)
  = (fun '(b, a) => (replicate (k + k) 92%N ++ b, a)) <$> quoted_body d s.
Proof.
  intros Hd. induction k as [|k IH]; cbn [replicate app Nat.add].
  - by destruct (quoted_body d s) as [[??]|].
  - replace (k + S k) with (S (k + k)) by lia. cbn [replicate app].
    cbn [quoted_body]. rewrite N.eqb_refl, IH.
    replace (92 =? d)%N with false by lia.
    by destruct (quoted_body d s) as [[??]|].
Qed.

(** [prepend p a q]: the body [q] after the text [p], whose flag is [a]. *)
Definition prepend (p : str) (a : bool) (q : option (str * bool)) : option (str * bool) :=
  (fun '(b, a') => (p ++ b, a || a')) <$> q.

Lemma even_or_odd n : n mod 2 = 0 /\ (exists k, n = k + k) \/ n mod 2 = 1 /\ exists k, n = S (k + k).
Proof.
  pose proof (Nat.mod_upper_bound n 2). pose proof (Nat.div_mod_eq n 2).
  destruct (n mod 2) as [|[|?]]; [left|right|lia]; split; try done; exists (n / 2); lia.
Qed.

Lemma quoted_body_run_end d n : d <> 92%N -> quoted_body d (replicate n 92%N) = None.
Proof.
  intros Hd. destruct (even_or_odd n) as [(_ & k & ->)|(_ & k & ->)].
  - pose proof (quoted_body_even d k [] Hd) as E. by rewrite (right_id_L [] (++)) in E.
  - replace (replicate (S (k + k)) 92%N) with (replicate (k + k) 92%N ++ [92%N])
      by (by rewrite <- (replicate_S_end (k + k))).
    by rewrite quoted_body_even.
Qed.

Lemma quoted_body_run d n e r :
  d <> 92%N ->
  quoted_body d (replicate n 92%N ++ e :: r)
  = if n mod 2 =? 1
    then prepend (replicate n 92%N ++ [e]) ((e =? d)%N && negb (d =? 96)%N) (quoted_body d r)
    else prepend (replicate n 92%N) false (quoted_body d (e :: r)).
Proof.
  intros Hd. destruct (even_or_odd n) as [(-> & k & ->)|(-> & k & ->)]; cbn [Nat.eqb].
  - rewrite quoted_body_even by done. by destruct (quoted_body d (e :: r)) as [[??]|].
  - rewrite replicate_S_end, <- !(assoc (++)), quoted_body_even by done. cbn.
    replace (92 =? 92)%N with true by done.
    destruct (quoted_body d r) as [[??]|]; cbn; [|done]. by rewrite <- (assoc (++)).
Qed.

(** ** Quoted spans *)

(** The span found from position [at_] for the quoted body [q]. *)
Definition span_of (at_ : nat) (amb : bool) (q : option (str * bool)) : option QuotedSpan :=
  (fun '(body, a) => {| q_end := at_ + byte_len body; q_ambiguous := amb || a |}) <$> q.

Lemma span_of_prepend at_ p amb a q :
  span_of at_ amb (prepend p a q) = span_of (at_ + byte_len p) (amb || a) q.
Proof.
  destruct q as [[b a']|]; cbn; [|done].
  by rewrite byte_len_app, Nat.add_assoc, orb_assoc.
Qed.

Lemma quoted_body_plain d c s :
  (c =? 92)%N = false -> (c =? d)%N = false ->
  quoted_body d (c :: s) = prepend [c] false (quoted_body d s).
Proof. intros H1 H2. cbn. rewrite H1, H2. by destruct (quoted_body d s) as [[??]|]. Qed.

Lemma enc_after_backslashes pre n s :
  encode (pre ++ replicate n 92%N ++ s) !! (byte_len pre + n) = encode s !! 0.
Proof. rewrite enc_at, <- (byte_len_backslashes n) at 1. apply enc_at0. Qed.

Lemma next_char_boundary_after pre p c s :
  next_char_boundary (pre ++ p ++ c :: s) (byte_len pre + byte_len p)
  = Some (byte_len pre + byte_len (p ++ [c])).
Proof.
  rewrite <- byte_len_app, (assoc (++)), next_char_boundary_encode, <- byte_len_app.
  by rewrite <- (assoc (++)).
Qed.

Lemma quoted_span_loop_encode fuel pre s d amb :
  (d < 128)%N -> d <> 92%N -> byte_len s < fuel ->
  quoted_span_loop fuel (pre ++ s) (encode (pre ++ s)) d (byte_len pre) amb
  = Some (span_of (byte_len pre) amb (quoted_body d s)).
Proof.
  intros Hd Hd'. revert pre s amb. induction fuel as [|fuel IH]; intros pre s amb Hf; [lia|].
  assert (forall p r amb', s = p ++ r -> p <> [] ->
    quoted_span_loop fuel (pre ++ s) (encode (pre ++ s)) d (byte_len pre + byte_len p) amb'
    = Some (span_of (byte_len pre + byte_len p) amb' (quoted_body d r))) as Hstep.
  { intros p r amb' -> Hp. rewrite (assoc (++)), <- byte_len_app. apply IH.
    rewrite byte_len_app in Hf. pose proof (byte_len_0 p).
    destruct (decide (byte_len p = 0)); [naive_solver|lia]. }
  cbn [quoted_span_loop]. rewrite enc_at0.
  destruct s as [|c s]; [done|].
  destruct (head_byte c s) as (b & Hb & Hbit & _). rewrite Hb, !Hbit by done.
  destruct (c =? 92)%N eqn:Hc; [|destruct (c =? d)%N eqn:Hcd].
  - apply N.eqb_eq in Hc as ->. clear Hb Hbit.
    destruct (split_backslashes (92%N :: s)) as (n & s' & Hs & Hs').
    rewrite Hs in Hstep |- *.
    assert (n <> 0) as Hn by (intros ->; by destruct (Hs' s)).
    rewrite backslash_run_end_encode by done.
    replace (byte_len pre + n - byte_len pre) with n by lia.
    rewrite enc_after_backslashes.
    destruct s' as [|e r]; [by rewrite (right_id_L [] (++)), quoted_body_run_end|].
    destruct (head_byte e r) as (b' & Hb & Hbit & _). rewrite Hb, Hbit by done.
    rewrite quoted_body_run by done.
    pose proof (next_char_boundary_after pre (replicate n 92%N) e r) as Hnext.
    rewrite byte_len_backslashes in Hnext.
    destruct (n mod 2 =? 1); rewrite span_of_prepend, ?andb_true_r, ?andb_false_r.
    + rewrite Hnext. cbn. rewrite (Hstep (replicate n 92%N ++ [e]) r);
        [|by rewrite <- (assoc (++))|by destruct n].
      by destruct ((e =? d)%N && negb (d =? 96)%N), amb.
    + rewrite <- (Hstep (replicate n 92%N) (e :: r));
        [by rewrite byte_len_backslashes, orb_false_r|done|by destruct n].
  - apply N.eqb_eq in Hcd as ->. cbn [quoted_body]. rewrite Hc, N.eqb_refl.
    replace (byte_len pre + 1) with (byte_len pre + byte_len [d])
      by (by rewrite byte_len_cons, len_utf8_ascii).
    pose proof (enc_at pre (d :: s) 1) as Hat.
    rewrite enc_tail in Hat by done.
    replace (byte_len pre + 1) with (byte_len pre + byte_len [d]) in Hat
      by (by rewrite byte_len_cons, len_utf8_ascii).
    rewrite Hat. destruct s as [|e s].
    { by cbn; rewrite orb_false_r. }
    rewrite byte_is_head by done. destruct (e =? d)%N eqn:Hed.
    + apply N.eqb_eq in Hed as ->.
      replace (byte_len pre + 2) with (byte_len pre + byte_len [d; d])
        by (by rewrite !byte_len_cons, len_utf8_ascii).
      rewrite (Hstep [d; d] s) by done.
      destruct (quoted_body d s) as [[body a]|]; [|done].
      cbn. rewrite !byte_len_cons, len_utf8_ascii, byte_len_nil by done.
      do 3 f_equal. lia.
    + by cbn; rewrite orb_false_r.
  - rewrite quoted_body_plain, span_of_prepend, orb_false_r by done.
    rewrite next_char_boundary_encode, byte_len_app. cbn. by apply Hstep.
Qed.

Lemma quoted_span_encode pre d s :
  (d < 128)%N -> d <> 92%N ->
  quoted_span (pre ++ d :: s) (byte_len pre) d
  = Some (span_of (byte_len pre + 1) false (quoted_body d s)).
Proof.
  intros Hd Hd'. unfold quoted_span.
  replace (byte_len pre + 1) with (byte_len (pre ++ [d]))
    by (by rewrite byte_len_app, byte_len_cons, len_utf8_ascii).
  replace (pre ++ d :: s) with ((pre ++ [d]) ++ s) by (by rewrite <- (assoc (++))).
  apply quoted_span_loop_encode; [done|done|].
  change (length (encode ?x)) with (byte_len x). rewrite byte_len_app. lia.
Qed.

(** ** Tokens are non-empty prefixes of the text *)

Lemma quoted_body_prefix_len d n s b a :
  length s < n -> quoted_body d s = Some (b, a) -> exists r, s = b ++ r.
Proof.
  revert s b a. induction n as [|n IH]; intros s b a Hn; [lia|].
  destruct s as [|c s]; [done|]. cbn [quoted_body length] in *.
  destruct (c =? 92)%N; [|destruct (c =? d)%N].
  - destruct s as [|e s]; [done|]. destruct (quoted_body d s) as [[b' a']|] eqn:E; [|done].
    intros [= <- <-]. apply IH in E as (r & ->); [by exists r|cbn in Hn; lia].
  - destruct s as [|e s]; [intros [= <- <-]; by exists []|].
    destruct (e =? d)%N; [|intros [= <- <-]; by eexists].
    destruct (quoted_body d s) as [[b' a']|] eqn:E; [|done].
    intros [= <- <-]. apply IH in E as (r & ->); [by exists r|cbn in Hn; lia].
  - destruct (quoted_body d s) as [[b' a']|] eqn:E; [|done].
    intros [= <- <-]. apply IH in E as (r & ->); [by exists r|lia].
Qed.

Lemma quoted_body_prefix d s b a : quoted_body d s = Some (b, a) -> exists r, s = b ++ r.
Proof. apply (quoted_body_prefix_len d (S (length s))). lia. Qed.

Lemma next_token_cons c s :
  next_token (c :: s) =
  if (c =? 35)%N || dash_comment (c :: s) then
    Some {| tk_kind := KLineComment;
            tk_text := take_while (fun x => negb (x =? 10)%N) (c :: s) |}
  else if (c =? 47)%N && match s with b :: _ => (b =? 42)%N | [] => false end then
    k ← star_slash (drop 2 (c :: s));
    Some {| tk_kind := if match drop 2 (c :: s) with b :: _ => (b =? 33)%N | [] => false end
                       then KVersionComment else KBlockComment;
            tk_text := take (k + 4) (c :: s) |}
  else if is_quote c then
    '(body, amb) ← quoted_body c s;
    Some {| tk_kind := KQuoted amb (negb (c =? 96)%N); tk_text := c :: body |}
  else if (c =? 59)%N then Some {| tk_kind := KTerminator; tk_text := [c] |}
  else if is_whitespace c then Some {| tk_kind := KBlank; tk_text := [c] |}
  else Some {| tk_kind := KChar; tk_text := [c] |}.
Proof. done. Qed.

Lemma next_token_prefix s t :
  next_token s = Some t -> exists r, s = tk_text t ++ r /\ tk_text t <> [].
Proof.
  destruct s as [|c s]; [done|]. rewrite next_token_cons.
  destruct ((c =? 35)%N || dash_comment (c :: s)) eqn:Hcom.
  { intros <-%(inj Some). exists (drop_while (fun x => negb (x =? 10)%N) (c :: s)).
    split; [symmetry; apply take_drop_while|]. cbn.
    destruct (c =? 10)%N eqn:E; [|done]. apply N.eqb_eq in E as ->.
    by destruct s as [|? [|??]]. }
  destruct ((c =? 47)%N && _).
  { destruct (star_slash (drop 2 (c :: s))) as [k|]; [|done]. intros <-%(inj Some).
    exists (drop (k + 4) (c :: s)). split; [symmetry; apply take_drop|].
    by rewrite Nat.add_comm. }
  destruct (is_quote c).
  { destruct (quoted_body c s) as [[b a]|] eqn:E; [|done]. intros [= <-].
    apply quoted_body_prefix in E as (r & ->). by exists r. }
  repeat case_match; intros [= <-]; by exists s.
Qed.

(** ** One iteration *)

(** The scanner state that corresponds to the tokens grouped so far. *)
Definition state_of (g : GroupState) : ScanState :=
  {| ss_statements := gs_statements g; ss_pending := gs_pending g;
     ss_stray := gs_stray g; ss_index := byte_len (gs_read g) |}.

Lemma dash_comment_encode pre s :
  mysql_dash_comment_starts (encode (pre ++ s)) (byte_len pre) = dash_comment s.
Proof.
  unfold mysql_dash_comment_starts, dash_comment. rewrite enc_at0, !enc_at.
  destruct s as [|c0 s]; [done|]. rewrite byte_is_head by done.
  destruct (c0 =? 45)%N eqn:E0; [|by destruct s as [|? [|??]]].
  apply N.eqb_eq in E0 as ->. rewrite !enc_tail by done.
  destruct s as [|c1 s]; [done|]. rewrite byte_is_head by done.
  destruct (c1 =? 45)%N eqn:E1; [|by destruct s].
  apply N.eqb_eq in E1 as ->. rewrite enc_tail by done.
  destruct s as [|c2 s]; [done|].
  destruct (head_byte c2 s) as (b & -> & _ & ->). done.
Qed.

Lemma block_opens_encode pre c s :
  byte_is (encode (pre ++ c :: s) !! byte_len pre) 47
    && byte_is (encode (pre ++ c :: s) !! (byte_len pre + 1)) 42
  = (c =? 47)%N && match s with b :: _ => (b =? 42)%N | [] => false end.
Proof.
  rewrite enc_at0, enc_at, byte_is_head by done.
  destruct (c =? 47)%N eqn:E; [|done]. apply N.eqb_eq in E as ->.
  rewrite enc_tail by done. destruct s as [|b s]; [done|]. by rewrite byte_is_head.
Qed.

Lemma version_encode pre s :
  byte_is (encode (pre ++ 47%N :: 42%N :: s) !! (byte_len pre + 2)) 33
  = match s with b :: _ => (b =? 33)%N | [] => false end.
Proof.
  rewrite enc_at, !enc_tail by done. destruct s as [|b s]; [done|]. by rewrite byte_is_head.
Qed.

Lemma block_end_encode pre s :
  block_comment_end (encode (pre ++ 47%N :: 42%N :: s)) (byte_len pre + 2)
  = (fun k => byte_len pre + byte_len (take (k + 4) (47%N :: 42%N :: s))) <$> star_slash s.
Proof.
  replace (byte_len pre + 2) with (byte_len (pre ++ [47%N; 42%N]))
    by (by rewrite byte_len_app, !byte_len_cons, !len_utf8_ascii).
  replace (pre ++ 47%N :: 42%N :: s) with ((pre ++ [47%N; 42%N]) ++ s)
    by (by rewrite <- (assoc (++))).
  rewrite block_comment_end_encode. destruct (star_slash s) as [k|]; cbn; [|done].
  f_equal. replace (k + 4) with (S (S (k + 2))) by lia. cbn [take].
  rewrite byte_len_app, !byte_len_cons, byte_len_nil. lia.
Qed.

Lemma or_ambiguous_false p : or_ambiguous p false = p.
Proof. destruct p as [f l a]. unfold or_ambiguous. cbn. by rewrite orb_false_r. Qed.

Lemma is_quote_props c : is_quote c = true -> (c < 128)%N /\ c <> 92%N.
Proof. unfold is_quote. lia. Qed.

Lemma mark_executable_twice p i j k :
  mark_executable (mark_executable p i j) i k = mark_executable p i k.
Proof. by destruct p as [[?|] l a]. Qed.

Lemma span_of_Some n a q :
  span_of n a q = (fun '(body, x) => {| q_end := n + byte_len body; q_ambiguous := a || x |}) <$> q.
Proof. done. Qed.

(** Each iteration of the byte scanner groups exactly one reference token. *)
Lemma scan_step_encode g c s b :
  let text := gs_read g ++ c :: s in
  encode text !! byte_len (gs_read g) = Some b ->
  scan_step text (encode text) (state_of g) b
  = Some match next_token (c :: s) with
         | Some t => inl (state_of (group g t))
         | None => inr (group_finish g (Some (c :: s)))
         end.
Proof.
  cbn zeta. destruct g as [sts p stray pre]. cbn [gs_read]. intros Hb.
  rewrite next_token_cons. unfold scan_step. cbn [ss_index state_of gs_read].
  rewrite enc_at0 in Hb. destruct (head_byte c s) as (b' & Hb' & Hbit & _).
  rewrite Hb in Hb'. injection Hb' as <-.
  rewrite !Hbit, dash_comment_encode, line_comment_end_encode by done. clear Hb.
  destruct ((c =? 35)%N || dash_comment (c :: s)).
  { unfold group, state_of. cbn [tk_kind tk_text gs_read]. by rewrite byte_len_app. }
  rewrite block_opens_encode.
  destruct ((c =? 47)%N && _) eqn:Hblock.
  { apply andb_prop in Hblock as [->%N.eqb_eq Hs]. destruct s as [|c' s]; [done|].
    apply N.eqb_eq in Hs as ->. rewrite version_encode, block_end_encode.
    change (drop 2 (47%N :: 42%N :: s)) with s. destruct (star_slash s) as [k|]; [|done].
    unfold group, state_of. cbn.
    destruct s as [|x s]; [|destruct (x =? 33)%N]; cbn; by rewrite byte_len_app. }
  change ((c =? 39) || (c =? 34) || (c =? 96))%N with (is_quote c).
  destruct (is_quote c) eqn:Hq.
  { pose proof (is_quote_props c Hq) as [Hlo Hne].
    specialize (Hbit c Hlo). rewrite N.eqb_refl in Hbit. apply N.eqb_eq in Hbit as ->.
    rewrite odd_backslash_run_before_encode, quoted_span_encode by done. cbn [mbind option_bind].
    rewrite span_of_Some. destruct (quoted_body c s) as [[body a]|]; cbn [fmap option_fmap option_map].
    - unfold group, state_of. cbn [tk_kind tk_text gs_read gs_statements gs_pending gs_stray q_end q_ambiguous orb mbind option_bind].
      rewrite mark_executable_twice, byte_len_app, byte_len_cons, len_utf8_ascii by done.
      by rewrite Nat.add_assoc.
    - unfold group_finish, group_issue. rewrite Hq. unfold scan_issue. cbn. by destruct (first_executable p). }
  destruct (c =? 59)%N eqn:Hsemi.
  { apply N.eqb_eq in Hsemi as ->. unfold group, state_of. cbn.
    rewrite !byte_len_app, byte_len_cons, len_utf8_ascii, byte_len_nil by done.
    unfold finish. destruct (first_executable p) as [i|]; cbn; [by rewrite orb_false_r|].
    by rewrite orb_true_r, (right_id_L [] (++)). }
  rewrite next_char_boundary_encode. cbn [mbind option_bind].
  change (c :: s) with ([c] ++ s). rewrite byte_len_app, str_get_app. cbn [mbind option_bind forallb].
  rewrite andb_true_r. unfold group, state_of.
  by destruct (is_whitespace c); cbn; rewrite byte_len_app.
Qed.

(** ** The whole scan *)

Lemma lex_fuel_nil n : lex_fuel n [] = ([], None).
Proof. by destruct n. Qed.

Lemma scan_loop_encode fuel n g s :
  byte_len s < fuel -> length s <= n ->
  scan_loop fuel (gs_read g ++ s) (encode (gs_read g ++ s)) (state_of g)
  = Some (let '(ts, rest) := lex_fuel n s in group_finish (foldl group g ts) rest).
Proof.
  revert n g s. induction fuel as [|fuel IH]; intros n g s Hf Hn; [lia|].
  cbn [scan_loop]. destruct s as [|c s].
  { rewrite lex_fuel_nil. cbn [state_of ss_index]. rewrite enc_at0. cbn.
    by destruct (finish _ _). }
  destruct n as [|n]; [cbn in Hn; lia|].
  cbn [state_of ss_index lex_fuel]. rewrite enc_at0.
  destruct (head_byte c s) as (b & Hb & _). rewrite Hb. rewrite <- enc_at0 with (pre := gs_read g) in Hb.
  fold (state_of g). rewrite (scan_step_encode g c s b Hb). cbn [mbind option_bind].
  destruct (next_token (c :: s)) as [t|] eqn:Ht; [|done].
  apply next_token_prefix in Ht as (r & Hr & Hne).
  rewrite Hr, drop_app_length.
  assert (gs_read (group g t) = gs_read g ++ tk_text t) as Hread by (by destruct t as [[] ?]).
  rewrite (assoc (++)), <- Hread, IH with (n := n).
  - by destruct (lex_fuel n r).
  - rewrite Hr, byte_len_app in Hf. destruct (decide (byte_len (tk_text t) = 0)) as [E|]; [|lia].
    by apply byte_len_0 in E.
  - rewrite Hr, length_app in Hn. destruct (tk_text t); [done|cbn in Hn; lia].
Qed.

(** C2: the MySQL scanner always terminates, never slices off a character
    boundary, and computes exactly the statements, the unterminated token and
    the stray terminator of the reference lexer. *)
Theorem scan_mysql_refines_reference text : scan_mysql text = Some (reference_scan text).
Proof.
  unfold scan_mysql, reference_scan, lex.
  change (scan_loop _ text (encode text) scan_init) with
    (scan_loop (S (byte_len text)) (gs_read group_init ++ text)
       (encode (gs_read group_init ++ text)) (state_of group_init)).
  rewrite scan_loop_encode with (n := length text) by lia. done.
Qed.
