(* ===== verification/Statements.v ===== *)
(** * Statements of a MySQL text

    Consequences of the scanner's refinement: the statements it reports are
    disjoint runs of whole tokens, and lexing the text of one statement alone
    gives back exactly its tokens. *)

From S2P Require Import Prelude RustStr Model Execution MysqlLex Scanner.

(** ** Locality of the lexer *)

Lemma star_slash_app_l l k r : star_slash l = Some k -> star_slash (l ++ r) = Some k.
Proof.
  revert k. induction l as [|a l IH]; intros k; [done|].
  destruct l as [|b l]; [done|]. cbn [app] in *. rewrite !star_slash_cons2.
  destruct (_ && _); [done|]. intros (k' & Hk & ->)%fmap_Some. by rewrite (IH _ Hk).
Qed.

Lemma star_slash_take l k n :
  star_slash l = Some k -> k + 2 <= n -> star_slash (take n l) = Some k.
Proof.
  revert k n. induction l as [|a l IH]; intros k n; [done|].
  destruct l as [|b l]; [done|]. rewrite star_slash_cons2.
  destruct ((a =? 42) && (b =? 47))%N eqn:E.
  - intros [= <-] Hn. destruct n as [|[|n]]; [lia|lia|]. cbn [take].
    by rewrite star_slash_cons2, E.
  - intros (k' & Hk & ->)%fmap_Some Hn. destruct n as [|[|n]]; [lia|lia|].
    specialize (IH k' (S n) Hk ltac:(lia)). cbn [take] in *.
    by rewrite star_slash_cons2, E, IH.
Qed.

Lemma star_slash_length l k : star_slash l = Some k -> k + 2 <= length l.
Proof.
  revert k. induction l as [|a l IH]; intros k; [done|].
  destruct l as [|b l]; [done|]. rewrite star_slash_cons2.
  destruct (_ && _); [intros [= <-]; cbn; lia|].
  intros (k' & Hk & ->)%fmap_Some. apply IH in Hk. cbn in *. lia.
Qed.

(** A quoted body depends on what follows it only through the doubled
    delimiter, which a truncation can only remove. *)
Lemma quoted_body_local_len n d s b a r :
  length s < n -> quoted_body d s = Some (b, a) -> (exists u, s = b ++ r ++ u) ->
  quoted_body d (b ++ r) = Some (b, a).
Proof.
  revert s b a. induction n as [|n IH]; intros s b a Hn; [lia|].
  destruct s as [|c s]; [done|]. cbn [quoted_body length] in *.
  destruct (c =? 92)%N eqn:Hc; [|destruct (c =? d)%N eqn:Hd].
  - destruct s as [|e s]; [done|]. destruct (quoted_body d s) as [[b' a']|] eqn:E; [|done].
    intros [= <- <-] [u Hu]. cbn in Hu. injection Hu as Hu. cbn [app quoted_body].
    rewrite Hc, (IH s b' a'); [done|cbn in Hn; lia|done|by exists u].
  - destruct s as [|e s].
    { intros [= <- <-] [u Hu]. destruct r; [|done]. cbn. by rewrite Hc, Hd. }
    destruct (e =? d)%N eqn:Hed.
    + destruct (quoted_body d s) as [[b' a']|] eqn:E; [|done].
      intros [= <- <-] [u Hu]. cbn in Hu. injection Hu as Hu. cbn [app quoted_body].
      rewrite Hc, Hd, Hed, (IH s b' a'); [done|cbn in Hn; lia|done|by exists u].
    + intros [= <- <-] [u Hu]. cbn [app quoted_body]. rewrite Hc, Hd.
      destruct r as [|e' r]; [done|]. cbn in Hu. injection Hu as <- _. by rewrite Hed.
  - destruct (quoted_body d s) as [[b' a']|] eqn:E; [|done].
    intros [= <- <-] [u Hu]. cbn in Hu. injection Hu as Hu. cbn [app quoted_body].
    rewrite Hc, Hd, (IH s b' a'); [done|lia|done|by exists u].
Qed.

Lemma quoted_body_local d b a r u :
  quoted_body d (b ++ r ++ u) = Some (b, a) -> quoted_body d (b ++ r) = Some (b, a).
Proof. intros H. apply (quoted_body_local_len (S (length (b ++ r ++ u))) d (b ++ r ++ u)); eauto. Qed.

Lemma dash_comment_prefix s u : dash_comment s = true -> dash_comment (s ++ u) = true.
Proof. by destruct s as [|a [|b [|c s]]]. Qed.

Lemma dash_comment_extend s u :
  3 <= length s -> dash_comment (s ++ u) = dash_comment s.
Proof. destruct s as [|a [|b [|c s]]]; cbn; (done || lia). Qed.

Lemma take_while_app_head {A} (p : A -> bool) x y r :
  Forall (fun a => p a = true) x -> p y = false -> take_while p (x ++ y :: r) = x.
Proof. intros Hx Hy. induction Hx as [|a x Ha _ IH]; cbn; [by rewrite Hy|]. by rewrite Ha, IH. Qed.

Lemma take_while_cut {A} (p : A -> bool) x r u :
  take_while p (x ++ r ++ u) = x -> r <> [] -> take_while p (x ++ r) = x.
Proof.
  intros Hx Hr. destruct r as [|y r]; [done|]. apply take_while_app_head.
  - rewrite <- Hx. apply take_while_Forall.
  - pose proof (take_drop_while p (x ++ (y :: r) ++ u)) as E. rewrite Hx in E.
    apply app_inv_head in E. by apply drop_while_head in E.
Qed.

Lemma block_token_local X R n r :
  star_slash (drop 2 (X ++ R)) = Some n -> take (n + 4) (X ++ R) = X ->
  star_slash (drop 2 (X ++ r)) = Some n /\ take (n + 4) (X ++ r) = X
  /\ exists y z, drop 2 (X ++ r) = y :: z ++ r /\ drop 2 (X ++ R) = y :: z ++ R.
Proof.
  intros Hs Hx. pose proof (star_slash_length _ _ Hs) as Hlen.
  rewrite length_drop in Hlen.
  assert (length X = n + 4) as HX by (rewrite <- Hx, length_take; lia).
  assert (star_slash (drop 2 X) = Some n) as Hin.
  { rewrite <- Hx. replace (n + 4) with (2 + (n + 2)) by lia.
    rewrite <- take_drop_commute. by apply star_slash_take. }
  assert (forall r', drop 2 (X ++ r') = drop 2 X ++ r') as Hdrop
    by (intros; apply drop_app_le; lia).
  rewrite !Hdrop. repeat split.
  - by apply star_slash_app_l.
  - rewrite take_app_le by lia. apply take_ge. lia.
  - destruct (drop 2 X) as [|y z] eqn:E; [done|]. by exists y, z.
Qed.

(** Truncating what follows a token does not change it, provided a line
    comment keeps its newline. *)
Lemma next_token_local t r u :
  next_token (tk_text t ++ r ++ u) = Some t ->
  (tk_kind t = KLineComment -> r <> []) ->
  next_token (tk_text t ++ r) = Some t.
Proof.
  intros Ht Hline. pose proof (next_token_prefix _ _ Ht) as (_ & _ & Hne).
  destruct t as [k [|c x]]; [done|]. clear Hne. cbn [tk_text tk_kind app] in *.
  rewrite next_token_cons in Ht |- *.
  destruct ((c =? 35)%N || dash_comment (c :: x ++ r ++ u)) eqn:Hcom.
  { apply (inj Some) in Ht. injection Ht as <- Hx. specialize (Hline eq_refl).
    change (take_while (fun y => negb (y =? 10)%N) ((c :: x) ++ r ++ u) = c :: x) in Hx.
    pose proof (take_while_cut _ _ _ _ Hx Hline) as Hcut.
    enough ((c =? 35)%N || dash_comment (c :: x ++ r) = true) as ->.
    { change (c :: x ++ r) with ((c :: x) ++ r). by rewrite Hcut. }
    destruct (c =? 35)%N; [done|]. cbn [orb] in *.
    rewrite <- Hcom, !app_comm_cons, (assoc (++)). symmetry. apply dash_comment_extend.
    destruct x as [|b x]; [|destruct x, r; cbn; (done || lia)].
    destruct r as [|y r]; [done|]. cbn in Hcom. cbn in Hx.
    destruct (c =? 10)%N; [done|]. injection Hx as Hx.
    destruct (y =? 10)%N eqn:Hy; [|done]. apply N.eqb_eq in Hy as ->.
    cbn in Hcom. destruct r, u; cbn in Hcom; rewrite ?andb_false_r in Hcom; done. }
  assert ((c =? 35)%N || dash_comment (c :: x ++ r) = false) as ->.
  { apply orb_false_iff in Hcom as [-> Hcom]. cbn [orb].
    apply not_true_is_false. intros H. apply (dash_comment_prefix _ u) in H.
    cbn [app] in H. rewrite <- (assoc (++)) in H. congruence. }
  destruct ((c =? 47)%N && match x ++ r ++ u with b :: _ => (b =? 42)%N | [] => false end)
    eqn:Hblock.
  - destruct (star_slash (drop 2 (c :: x ++ r ++ u))) as [n|] eqn:Hs; [|done].
    apply (inj Some) in Ht. pose proof (f_equal tk_kind Ht) as Hk.
    pose proof (f_equal tk_text Ht) as Hx. unfold tk_kind, tk_text in Hk, Hx. clear Ht.
    destruct (block_token_local (c :: x) (r ++ u) n r Hs Hx) as (Hs' & Hx' & y & z & E1 & E2).
    change (c :: x ++ r ++ u) with ((c :: x) ++ r ++ u) in *.
    change (c :: x ++ r) with ((c :: x) ++ r) in *.
    rewrite Hs'. cbn [mbind option_bind]. rewrite Hx', E1. rewrite E2 in Hk.
    destruct x as [|b x]; [by destruct r, u; rewrite Nat.add_comm in Hx|].
    cbn [app] in Hblock |- *. rewrite Hblock. by rewrite Hk.
  - assert ((c =? 47)%N && match x ++ r with b :: _ => (b =? 42)%N | [] => false end = false) as ->.
    { destruct (c =? 47)%N; [|done]. destruct x as [|b x]; [|done]. by destruct r. }
    destruct (is_quote c) eqn:Hq.
    + destruct (quoted_body c (x ++ r ++ u)) as [[body a]|] eqn:E; [|done].
      cbn in Ht. injection Ht as <- <-. by rewrite (quoted_body_local _ _ _ _ _ E).
    + repeat case_match; congruence.
Qed.

(** ** Lexing as a relation *)

Inductive Lexed : str -> list Token -> option str -> Prop :=
| Lexed_nil : Lexed [] [] None
| Lexed_stuck s : s <> [] -> next_token s = None -> Lexed s [] (Some s)
| Lexed_cons t s ts rest :
    next_token (tk_text t ++ s) = Some t -> Lexed s ts rest ->
    Lexed (tk_text t ++ s) (t :: ts) rest.

Lemma Lexed_lex_fuel n s ts rest : Lexed s ts rest -> length s <= n -> lex_fuel n s = (ts, rest).
Proof.
  intros HL. revert n. induction HL as [|s Hs Hn|t s ts rest Ht HL IH]; intros n Hlen.
  - by destruct n.
  - destruct s as [|c s]; [done|]. destruct n as [|n]; [cbn in Hlen; lia|].
    cbn [lex_fuel]. by rewrite Hn.
  - pose proof (next_token_prefix _ _ Ht) as (_ & _ & Hne).
    rewrite length_app in Hlen. assert (0 < length (tk_text t)) by (destruct (tk_text t); [done|cbn; lia]).
    destruct n as [|n]; [lia|].
    destruct (tk_text t ++ s) as [|c s'] eqn:E; [by destruct (tk_text t)|].
    cbn [lex_fuel]. rewrite Ht, <- E, drop_app_length, IH by lia. done.
Qed.

Lemma Lexed_lex s ts rest : Lexed s ts rest -> lex s = (ts, rest).
Proof. intros HL. by apply Lexed_lex_fuel. Qed.

Lemma lex_fuel_Lexed n s :
  length s <= n -> Lexed s (lex_fuel n s).1 (lex_fuel n s).2.
Proof.
  revert s. induction n as [|n IH]; intros s Hn.
  - destruct s; [constructor|cbn in Hn; lia].
  - destruct s as [|c s]; [constructor|]. cbn [lex_fuel].
    destruct (next_token (c :: s)) as [t|] eqn:Ht; [|by constructor].
    pose proof (next_token_prefix _ _ Ht) as (r & E & Hne). rewrite E, drop_app_length.
    assert (length r <= n) as Hr.
    { pose proof (f_equal length E) as El. rewrite length_app in El.
      destruct (tk_text t); [done|cbn in *; lia]. }
    specialize (IH r Hr). destruct (lex_fuel n r) as [ts rest]. cbn in *.
    constructor; [by rewrite <- E|done].
Qed.

Lemma lex_Lexed s : Lexed s (lex s).1 (lex s).2.
Proof. by apply lex_fuel_Lexed. Qed.

Lemma tokens_text_cons t ts : tokens_text (t :: ts) = tk_text t ++ tokens_text ts.
Proof. done. Qed.

Lemma tokens_text_app a b : tokens_text (a ++ b) = tokens_text a ++ tokens_text b.
Proof. unfold tokens_text. by rewrite bind_app. Qed.

Lemma tokens_text_nil : tokens_text [] = [].
Proof. done. Qed.

#[local] Hint Rewrite tokens_text_app tokens_text_cons tokens_text_nil : dbotter.

Ltac text_lia := autorewrite with dbotter in *; cbn [tk_text] in *; lia.

(** The tokens cover the text; only an unterminated tail is left over. *)
Lemma Lexed_text s ts rest : Lexed s ts rest -> s = tokens_text ts ++ default [] rest.
Proof.
  induction 1 as [|s _ _|t s ts rest _ _ IH]; [done|done|].
  rewrite tokens_text_cons, <- (assoc (++)). by f_equal.
Qed.

Lemma Lexed_app s ts1 ts2 rest :
  Lexed s (ts1 ++ ts2) rest -> exists s2, s = tokens_text ts1 ++ s2 /\ Lexed s2 ts2 rest.
Proof.
  revert s. induction ts1 as [|t ts1 IH]; intros s HL; [by exists s|].
  inversion HL as [| |t' s' ts' rest' Ht HL' Es]; subst.
  apply IH in HL' as (s2 & -> & HL2). exists s2.
  by rewrite tokens_text_cons, <- (assoc (++)).
Qed.

(** Whole tokens lexed alone give themselves back. *)
Lemma Lexed_cut s ts1 ts2 rest :
  Lexed s (ts1 ++ ts2) rest ->
  (forall t, last ts1 = Some t -> tk_kind t <> KLineComment) ->
  Lexed (tokens_text ts1) ts1 None.
Proof.
  revert s. induction ts1 as [|t ts1 IH]; intros s HL Hlast; [constructor|].
  inversion HL as [| |t' s' ts' rest' Ht HL' Es]; subst.
  rewrite tokens_text_cons. constructor.
  - pose proof (Lexed_app _ _ _ _ HL') as (s2 & -> & _).
    apply (next_token_local _ _ s2 Ht). intros Hk Hnil.
    destruct ts1 as [|t1 ts1]; [by apply (Hlast t)|].
    inversion HL' as [| |t' s' ts' rest' Ht1 HL1 Es]; subst.
    pose proof (next_token_prefix _ _ Ht1) as (_ & _ & Hne).
    rewrite tokens_text_cons in Hnil. by apply app_nil in Hnil as [? _].
  - apply (IH _ HL'). intros t1 Ht1. apply Hlast. destruct ts1; [done|]. by rewrite last_cons, Ht1.
Qed.

(** ** Statements are runs of tokens *)

(** Neither executable nor a terminator: comments and blanks. *)
Definition filler (t : Token) : bool := negb (executable t) && negb (is_terminator t).

(** The token run of one statement: it starts with an executable token, only
    its last token may be a terminator, and it does not end in filler. *)
Definition statement_run (run : list Token) : Prop :=
  exists first_ init last_,
    head run = Some first_ /\ executable first_ = true /\
    run = init ++ [last_] /\ Forall (fun t => is_terminator t = false) init /\
    filler last_ = false.

(** [s] delimits a statement run of [ts]. *)
Definition located (ts : list Token) (s : MysqlStatement) : Prop :=
  exists before run after,
    ts = before ++ run ++ after /\ statement_run run /\
    st_start s = byte_len (tokens_text before) /\
    st_end s = st_start s + byte_len (tokens_text run).

(** The statements lie between [lo] and [hi], disjoint and in order. *)
Fixpoint ordered (lo : nat) (sts : list MysqlStatement) (hi : nat) : Prop :=
  match sts with
  | [] => lo <= hi
  | s :: sts => lo <= st_start s /\ st_start s < st_end s /\ ordered (st_end s) sts hi
  end.

Lemma ordered_weaken lo sts hi hi' : ordered lo sts hi -> hi <= hi' -> ordered lo sts hi'.
Proof. revert lo; induction sts as [|s sts IH]; cbn; intros lo; [lia|naive_solver]. Qed.

Lemma ordered_snoc lo sts hi s :
  ordered lo sts (st_start s) -> st_start s < st_end s -> st_end s <= hi ->
  ordered lo (sts ++ [s]) hi.
Proof. revert lo; induction sts as [|s' sts IH]; cbn; intros lo; [lia|naive_solver]. Qed.

Lemma located_app ts ts' s : located ts s -> located (ts ++ ts') s.
Proof.
  intros (a & run & b & -> & ?). exists a, run, (b ++ ts'). by rewrite <- !(assoc (++)).
Qed.

Definition pending_ok (ts : list Token) (g : GroupState) : Prop :=
  match first_executable (gs_pending g) with
  | None => ordered 0 (gs_statements g) (byte_len (tokens_text ts))
  | Some start =>
      exists before init last_ tail_,
        ts = before ++ (init ++ [last_]) ++ tail_ /\
        (exists t, head (init ++ [last_]) = Some t /\ executable t = true) /\
        executable last_ = true /\
        Forall (fun t => is_terminator t = false) (init ++ [last_] ++ tail_) /\
        start = byte_len (tokens_text before) /\
        last_executable_end (gs_pending g) = start + byte_len (tokens_text (init ++ [last_])) /\
        ordered 0 (gs_statements g) start
  end.

Record group_ok (ts : list Token) (g : GroupState) : Prop := {
  ok_read : gs_read g = tokens_text ts;
  ok_located : Forall (located ts) (gs_statements g);
  ok_pending : pending_ok ts g;
}.

Lemma executable_not_terminator t : executable t = true -> is_terminator t = false.
Proof. by destruct t as [[] ?]. Qed.

Lemma executable_not_filler t : executable t = true -> filler t = false.
Proof. unfold filler. by intros ->. Qed.

Lemma tokens_text_snoc ts t : tokens_text (ts ++ [t]) = tokens_text ts ++ tk_text t.
Proof. rewrite tokens_text_app. f_equal. unfold tokens_text. cbn. by rewrite (right_id_L [] (++)). Qed.

Lemma group_read g t : gs_read (group g t) = gs_read g ++ tk_text t.
Proof. by destruct t as [[] ?]. Qed.

(** The pending run, closed by its terminator or by the end of the text. *)
Lemma pending_run_closed before init last_ tail_ stop (amb : bool) :
  (exists t, head (init ++ [last_]) = Some t /\ executable t = true) ->
  Forall (fun t => is_terminator t = false) (init ++ [last_] ++ tail_) ->
  is_terminator stop = true ->
  located (before ++ (init ++ [last_]) ++ tail_ ++ [stop])
    {| st_start := byte_len (tokens_text before);
       st_end := byte_len (tokens_text (before ++ (init ++ [last_]) ++ tail_))
                 + byte_len (tk_text stop);
       st_ambiguous := amb |}.
Proof.
  intros (t & Ht & Hx) Hall Hstop.
  exists before, ((init ++ [last_]) ++ tail_ ++ [stop]), []. cbn [st_start st_end].
  rewrite (right_id_L [] (++)). split_and!; [done| |done|].
  - exists t, (init ++ [last_] ++ tail_), stop. split_and!; [|done| |done|].
    + by destruct init.
    + by rewrite <- !(assoc (++)).
    + unfold filler. by rewrite Hstop, andb_false_r.
  - text_lia.
Qed.

Lemma pending_run_end before init last_ tail_ (amb : bool) :
  (exists t, head (init ++ [last_]) = Some t /\ executable t = true) ->
  executable last_ = true ->
  Forall (fun t => is_terminator t = false) (init ++ [last_] ++ tail_) ->
  located (before ++ (init ++ [last_]) ++ tail_)
    {| st_start := byte_len (tokens_text before);
       st_end := byte_len (tokens_text before) + byte_len (tokens_text (init ++ [last_]));
       st_ambiguous := amb |}.
Proof.
  intros (t & Ht & Hx) Hl Hall. exists before, (init ++ [last_]), tail_.
  split_and!; [done| |done|done].
  exists t, init, last_. split_and!; try done.
  - by apply Forall_app in Hall as [? _].
  - by apply executable_not_filler.
Qed.

(** A filler token leaves everything in place. *)
Lemma group_filler g t :
  filler t = true ->
  gs_statements (group g t) = gs_statements g /\ gs_pending (group g t) = gs_pending g /\
  gs_stray (group g t) = gs_stray g.
Proof. by destruct t as [[] ?]. Qed.

(** An executable token opens or extends the pending run. *)
Lemma group_executable g t :
  executable t = true ->
  gs_statements (group g t) = gs_statements g /\ gs_stray (group g t) = gs_stray g /\
  first_executable (gs_pending (group g t))
    = Some (default (byte_len (gs_read g)) (first_executable (gs_pending g))) /\
  last_executable_end (gs_pending (group g t)) = byte_len (gs_read g) + byte_len (tk_text t).
Proof. destruct t as [[] ?], g as [? [[?|] ? ?] ? ?]; try done. Qed.

Lemma group_ok_filler ts g t :
  filler t = true -> group_ok ts g -> group_ok (ts ++ [t]) (group g t).
Proof.
  intros Hf [Hr Hl Hp]. pose proof (group_filler g t Hf) as (Es & Ep & _).
  split; [by rewrite group_read, tokens_text_snoc, Hr| |].
  - rewrite Es. eapply Forall_impl; [done|]. intros s. apply located_app.
  - unfold pending_ok in *. rewrite Es, Ep.
    destruct (first_executable (gs_pending g)) as [start|].
    + destruct Hp as (a & i & l & u & -> & Hh & Hx & Hall & Hs & He & Ho).
      exists a, i, l, (u ++ [t]). split_and!; try done; [by rewrite <- !(assoc (++))|].
      rewrite !(assoc (++)). apply Forall_app. split; [by rewrite <- (assoc (++))|].
      constructor; [|done]. unfold filler in Hf. by destruct (is_terminator t), (executable t).
    + eapply ordered_weaken; [done|]. rewrite tokens_text_snoc, byte_len_app. lia.
Qed.

Lemma group_ok_executable ts g t :
  executable t = true -> group_ok ts g -> group_ok (ts ++ [t]) (group g t).
Proof.
  intros Hx [Hr Hl Hp]. pose proof (group_executable g t Hx) as (Es & _ & Ef & El).
  pose proof (executable_not_terminator t Hx) as Hnt.
  split; [by rewrite group_read, tokens_text_snoc, Hr| |].
  { rewrite Es. eapply Forall_impl; [done|]. intros s. apply located_app. }
  unfold pending_ok in *. rewrite Es, Ef. rewrite Hr in El |- *.
  destruct (first_executable (gs_pending g)) as [start|]; cbn [default from_option id].
  - destruct Hp as (a & i & l & u & -> & (t0 & Hh & Hx0) & Hxl & Hall & Hs & He & Ho).
    exists a, ((i ++ [l]) ++ u), t, []. rewrite (right_id_L [] (++)).
    split_and!; try done.
    + by rewrite <- !(assoc (++)).
    + exists t0. split; [|done]. by destruct i.
    + apply Forall_app. split; [by rewrite <- (assoc (++))|by repeat constructor].
    + rewrite El, Hs. text_lia.
  - exists ts, [], t, []. split_and!; try done.
    + by exists t.
    + by repeat constructor.
    + rewrite El. text_lia.
Qed.

Lemma statement_run_pos s ts rest before run after :
  Lexed s ts rest -> ts = before ++ run ++ after -> statement_run run ->
  0 < byte_len (tokens_text run).
Proof.
  intros HL -> (t & _ & _ & Ht & _ & _).
  apply Lexed_app in HL as (s2 & _ & HL). destruct run as [|t0 run]; [done|].
  inversion HL as [| |t' s' ts' rest' Hn _ Es]; subst.
  apply next_token_prefix in Hn as (_ & _ & Hne). rewrite tokens_text_cons, byte_len_app.
  destruct (decide (byte_len (tk_text t0) = 0)) as [E|]; [|lia]. by apply byte_len_0 in E.
Qed.

Lemma byte_len_pos s : s <> [] -> 0 < byte_len s.
Proof. intros Hs. destruct (decide (byte_len s = 0)) as [E|]; [by apply byte_len_0 in E|lia]. Qed.

Lemma group_ok_terminator ts g t :
  tk_text t <> [] -> is_terminator t = true -> group_ok ts g -> group_ok (ts ++ [t]) (group g t).
Proof.
  intros Hne%byte_len_pos Ht [Hr Hl Hp].
  assert (Forall (located (ts ++ [t])) (gs_statements g)) as Hl'
    by (eapply Forall_impl; [done|]; intros; by apply located_app).
  split; [by rewrite group_read, tokens_text_snoc, Hr| |];
    unfold pending_ok in *; destruct t as [[] tx]; try done; cbn; rewrite ?Hr;
    destruct g as [sts [[start|] le am] stray read]; cbn in *; subst read.
  - destruct Hp as (a & i & l & u & -> & Hh & Hx & Hall & -> & He & Ho).
    apply Forall_app. split; [done|]. repeat constructor.
    rewrite <- (assoc (++)), <- (assoc (++) (i ++ [l])). by apply pending_run_closed.
  - by rewrite (right_id_L [] (++)).
  - destruct Hp as (a & i & l & u & -> & Hh & Hx & Hall & -> & He & Ho).
    apply ordered_snoc; cbn [st_start st_end]; [done|text_lia|text_lia].
  - rewrite (right_id_L [] (++)). eapply ordered_weaken; [done|]. text_lia.
Qed.

Lemma group_ok_foldl ts ts' g :
  Forall (fun t => tk_text t <> []) ts' -> group_ok ts g ->
  group_ok (ts ++ ts') (foldl group g ts').
Proof.
  intros Hne. revert ts g. induction Hne as [|t ts' Ht Hne IH]; intros ts g Hg; cbn.
  - by rewrite (right_id_L [] (++)).
  - rewrite cons_middle, (assoc (++)). apply IH.
    destruct (is_terminator t) eqn:Hterm; [by apply group_ok_terminator|].
    destruct (executable t) eqn:Hx; [by apply group_ok_executable|].
    apply group_ok_filler; [|done]. unfold filler. by rewrite Hx, Hterm.
Qed.

Lemma group_ok_init : group_ok [] group_init.
Proof. split; [done|constructor|]. cbn. done. Qed.

Lemma Lexed_nonempty s ts rest : Lexed s ts rest -> Forall (fun t => tk_text t <> []) ts.
Proof.
  induction 1 as [|s _ _|t s ts rest Ht _ IH]; constructor; [|done].
  by apply next_token_prefix in Ht as (_ & _ & ?).
Qed.

(** Every reported statement is a run of whole tokens, and the reported
    statements are disjoint, in order and inside the text. *)
Lemma reference_scan_statements text :
  Forall (located (lex text).1) (sc_statements (reference_scan text)) /\
  ordered 0 (sc_statements (reference_scan text)) (byte_len text).
Proof.
  unfold reference_scan. pose proof (lex_Lexed text) as HL.
  destruct (lex text) as [ts rest]. cbn [fst snd] in *.
  pose proof (Lexed_nonempty _ _ _ HL) as Hne.
  pose proof (Lexed_text _ _ _ HL) as Htext.
  assert (byte_len (tokens_text ts) <= byte_len text) as Hlen by (rewrite Htext; text_lia).
  pose proof (group_ok_foldl [] ts group_init Hne group_ok_init) as [Hr Hl Hp].
  cbn [app] in *. unfold pending_ok in Hp.
  assert (ordered 0 (gs_statements (foldl group group_init ts)) (byte_len text)) as Ho.
  { destruct (first_executable _).
    - destruct Hp as (a & i & l & u & E & _ & _ & _ & -> & _ & Ho).
      eapply ordered_weaken; [done|]. etrans; [|done]. rewrite E. text_lia.
    - by eapply ordered_weaken. }
  destruct rest as [rest|]; [done|]. cbn [group_finish sc_statements].
  unfold finish. destruct (first_executable _) as [start|]; cbn;
    [|by rewrite (right_id_L [] (++))].
  destruct Hp as (a & i & l & u & E & Hh & Hx & Hall & -> & He & Ho').
  rewrite He. split.
  - apply Forall_app. split; [done|]. repeat constructor. rewrite E. by apply pending_run_end.
  - apply ordered_snoc; cbn [st_start st_end]; [done| |rewrite E in Hlen; text_lia].
    rewrite E in Hne. rewrite !Forall_app in Hne. destruct Hne as (_ & (_ & Hne%Forall_inv) & _).
    apply byte_len_pos in Hne. text_lia.
Qed.

(** The text of a statement lexes to its own tokens. *)
Lemma located_text text s :
  located (lex text).1 s ->
  exists run, statement_run run /\ Lexed (tokens_text run) run None /\
    str_get text (st_start s) (st_end s) = Some (tokens_text run).
Proof.
  intros (a & run & b & E & Hrun & -> & ->). pose proof (lex_Lexed text) as HL.
  rewrite E in HL. exists run. split; [done|].
  apply Lexed_app in HL as (s2 & -> & HL). split.
  - apply (Lexed_cut _ _ _ _ HL). intros t Ht Hk.
    destruct Hrun as (_ & i & l & _ & _ & -> & _ & Hf). rewrite last_snoc in Ht.
    injection Ht as ->. by destruct t as [[] ?].
  - apply Lexed_app in HL as (s3 & -> & _). apply str_get_app.
Qed.

(** ** A statement on its own *)

Lemma group_stray g t : is_terminator t = false -> gs_stray (group g t) = gs_stray g.
Proof. by destruct t as [[] ?]. Qed.

Lemma group_keeps_statements g t :
  is_terminator t = false -> gs_statements (group g t) = gs_statements g.
Proof. by destruct t as [[] ?]. Qed.

Lemma group_keeps_pending g t :
  is_terminator t = false ->
  is_Some (first_executable (gs_pending g)) \/ executable t = true ->
  is_Some (first_executable (gs_pending (group g t))).
Proof. destruct t as [[] ?], g as [? [[?|] ? ?] ? ?]; cbn; naive_solver. Qed.

Lemma foldl_no_terminator ts g :
  Forall (fun t => is_terminator t = false) ts ->
  gs_statements (foldl group g ts) = gs_statements g /\
  gs_stray (foldl group g ts) = gs_stray g /\
  (is_Some (first_executable (gs_pending g)) ->
   is_Some (first_executable (gs_pending (foldl group g ts)))).
Proof.
  intros Hall. revert g. induction Hall as [|t ts Ht _ IH]; intros g; cbn; [done|].
  destruct (IH (group g t)) as (-> & -> & Hp).
  rewrite group_stray, group_keeps_statements by done.
  split_and!; [done|done|]. intros Hs. apply Hp, group_keeps_pending; auto.
Qed.

(** The scan of the tokens [ts] read from state [g]. *)
Definition scan_from (g : GroupState) (ts : list Token) : MysqlScan :=
  group_finish (foldl group g ts) None.

Lemma foldl_filler ts g :
  Forall (fun t => filler t = true) ts ->
  gs_statements (foldl group g ts) = gs_statements g /\
  gs_pending (foldl group g ts) = gs_pending g /\
  gs_stray (foldl group g ts) = gs_stray g.
Proof.
  intros Hf. revert g. induction Hf as [|t ts Ht _ IH]; intros g; [done|].
  destruct (group_filler g t Ht) as (<- & <- & <-). apply IH.
Qed.

(** One statement, surrounded by filler only. *)
Definition single_statement (ts : list Token) : Prop :=
  exists before run after, ts = before ++ run ++ after /\
    Forall (fun t => filler t = true) before /\ statement_run run /\
    Forall (fun t => filler t = true) after.

Lemma scan_from_run g run :
  statement_run run -> gs_statements g = [] -> first_executable (gs_pending g) = None ->
  gs_stray g = false ->
  length (sc_statements (scan_from g run)) = 1 /\ sc_stray_terminator (scan_from g run) = false.
Proof.
  intros (first_ & init & last_ & Hh & Hx & -> & Hall & Hf) Hs Hp Hy.
  unfold scan_from. rewrite foldl_snoc.
  destruct init as [|first_' init]; cbn in Hh; injection Hh as ->.
  { destruct first_ as [[] ?], g as [sts [f le am] st rd]; cbn in *; by subst. }
  apply Forall_cons in Hall as [Ht Hall]. cbn [foldl].
  destruct (foldl_no_terminator init (group g first_) Hall) as (Es & Ey & Hp').
  rewrite group_keeps_statements in Es by done. rewrite group_stray in Ey by done.
  specialize (Hp' (group_keeps_pending g first_ Ht (or_intror Hx))).
  set (g' := foldl group (group g first_) init) in *.
  destruct g' as [sts [[start|] le am] stray read]; cbn in Es, Ey, Hp'; [|by destruct Hp'].
  rewrite Es, Ey, Hs, Hy. by destruct last_ as [[] ?].
Qed.

Lemma single_statement_scan ts :
  single_statement ts ->
  length (sc_statements (scan_from group_init ts)) = 1 /\
  sc_stray_terminator (scan_from group_init ts) = false.
Proof.
  intros (before & run & after & -> & Hb & Hrun & Ha).
  unfold scan_from. rewrite !foldl_app.
  destruct (foldl_filler before group_init Hb) as (E1 & E2 & E3).
  set (g := foldl group group_init before) in *.
  destruct (foldl_filler after (foldl group g run) Ha) as (F1 & F2 & F3).
  pose proof (scan_from_run g run Hrun E1) as H. rewrite E2, E3 in H.
  specialize (H eq_refl eq_refl). unfold scan_from, group_finish in *.
  cbn [sc_statements sc_stray_terminator] in *. by rewrite F1, F2, F3.
Qed.

Lemma statement_alone run : statement_run run -> single_statement run.
Proof. intros Hr. exists [], run, []. by rewrite (right_id_L [] (++)). Qed.

Lemma single_statement_validates s ts :
  Lexed s ts None -> single_statement ts -> validate_mysql_selection s = Some (Ok tt).
Proof.
  intros HL Hsingle. unfold validate_mysql_selection. rewrite bool_decide_false.
  - rewrite scan_mysql_refines_reference. unfold reference_scan.
    rewrite (Lexed_lex _ _ _ HL). cbn [mbind option_bind].
    destruct (single_statement_scan ts Hsingle) as [Hl Hs]. unfold scan_from in *.
    by rewrite Hl, Hs.
  - intros ->. apply Lexed_lex in HL. cbn in HL. injection HL as <-.
    destruct Hsingle as (b & run & a & E & _ & (f & i & l & _ & _ & -> & _) & _).
    by destruct b, i.
Qed.

Lemma statement_validates text s :
  s ∈ sc_statements (reference_scan text) ->
  exists t, str_get text (st_start s) (st_end s) = Some t /\
            validate_mysql_selection t = Some (Ok tt).
Proof.
  intros Hs. pose proof (reference_scan_statements text) as [Hl _].
  rewrite Forall_forall in Hl. destruct (located_text _ _ (Hl s Hs)) as (run & Hrun & HL & Hget).
  exists (tokens_text run). split; [done|].
  by apply (single_statement_validates _ _ HL), statement_alone.
Qed.

(** ** Texts of exactly one statement *)

Lemma scan_from_cons g t ts : scan_from g (t :: ts) = scan_from (group g t) ts.
Proof. done. Qed.

Lemma scan_from_stray g ts : gs_stray g = true -> sc_stray_terminator (scan_from g ts) = true.
Proof.
  revert g. induction ts as [|t ts IH]; intros g Hg; [done|].
  rewrite scan_from_cons. apply IH. destruct t as [[] ?]; cbn; try done. by rewrite Hg.
Qed.

Lemma group_statements_grow g t : length (gs_statements g) <= length (gs_statements (group g t)).
Proof. destruct t as [[] ?]; cbn; rewrite ?length_app; lia. Qed.

Lemma scan_from_grow g ts : length (gs_statements g) <= length (sc_statements (scan_from g ts)).
Proof.
  revert g. induction ts as [|t ts IH]; intros g.
  - cbn. rewrite length_app. lia.
  - rewrite scan_from_cons. etrans; [apply (group_statements_grow g t)|apply IH].
Qed.

Lemma group_terminator_pending g t :
  is_terminator t = true -> is_Some (first_executable (gs_pending g)) ->
  length (gs_statements (group g t)) = S (length (gs_statements g)) /\
  gs_stray (group g t) = gs_stray g /\ first_executable (gs_pending (group g t)) = None.
Proof.
  intros Ht [x Hx]. destruct t as [[] ?], g as [sts [f le am] st rd]; try done.
  cbn in *. subst f. cbn. rewrite length_app, orb_false_r. cbn. split; [lia|done].
Qed.

Lemma group_terminator_stray g t :
  is_terminator t = true -> first_executable (gs_pending g) = None -> gs_stray (group g t) = true.
Proof.
  intros Ht Hx. destruct t as [[] ?]; try done. cbn. rewrite Hx. by rewrite orb_true_r.
Qed.

Lemma scan_from_pending g ts :
  is_Some (first_executable (gs_pending g)) ->
  S (length (gs_statements g)) <= length (sc_statements (scan_from g ts)).
Proof.
  revert g. induction ts as [|t ts IH]; intros g Hg.
  - destruct g as [sts [[f|] le am] st rd]; cbn in *; [|by destruct Hg].
    rewrite length_app. cbn. lia.
  - rewrite scan_from_cons. destruct (is_terminator t) eqn:Ht.
    + destruct (group_terminator_pending g t Ht Hg) as (<- & _). apply scan_from_grow.
    + rewrite <- (group_keeps_statements g t Ht). apply IH, group_keeps_pending; auto.
Qed.

Lemma token_cases t :
  filler t = true \/ is_terminator t = true \/ executable t = true /\ is_terminator t = false.
Proof. destruct t as [[] ?]; auto. Qed.

Lemma filler_not_terminator t : filler t = true -> is_terminator t = false.
Proof. by destruct t as [[] ?]. Qed.

Lemma group_executable_pending g t :
  executable t = true -> is_Some (first_executable (gs_pending (group g t))).
Proof. intros Hx. apply group_keeps_pending; [by apply executable_not_terminator|auto]. Qed.

(** After the statement only filler may follow. *)
Lemma scan_from_only_filler g ts :
  first_executable (gs_pending g) = None ->
  sc_stray_terminator (scan_from g ts) = false ->
  length (sc_statements (scan_from g ts)) = length (gs_statements g) ->
  Forall (fun t => filler t = true) ts.
Proof.
  revert g. induction ts as [|t ts IH]; intros g Hp Hs Hl; [constructor|].
  rewrite scan_from_cons in Hs, Hl. destruct (token_cases t) as [Ht|[Ht|[Ht Hnt]]].
  - destruct (group_filler g t Ht) as (Es & Ep & _).
    constructor; [done|]. apply (IH (group g t)); congruence.
  - rewrite scan_from_stray in Hs; [done|by apply group_terminator_stray].
  - pose proof (scan_from_pending _ ts (group_executable_pending g t Ht)) as Hge.
    rewrite group_keeps_statements in Hge by done. lia.
Qed.

(** The rest of a statement whose first token has been read. *)
Lemma scan_from_rest g ts :
  is_Some (first_executable (gs_pending g)) ->
  sc_stray_terminator (scan_from g ts) = false ->
  length (sc_statements (scan_from g ts)) = S (length (gs_statements g)) ->
  exists run after, ts = run ++ after /\ Forall (fun t => filler t = true) after /\
    (run = [] \/ exists init last_, run = init ++ [last_] /\
       Forall (fun t => is_terminator t = false) init /\ filler last_ = false).
Proof.
  revert g. induction ts as [|t ts IH]; intros g Hp Hs Hl.
  { exists [], []. auto. }
  rewrite scan_from_cons in Hs, Hl. destruct (is_terminator t) eqn:Ht.
  - destruct (group_terminator_pending g t Ht Hp) as (E1 & E2 & E3).
    exists [t], ts. split_and!; [done| |].
    + apply (scan_from_only_filler (group g t)); congruence.
    + right. exists [], t. split_and!; [done|constructor|]. by destruct t as [[] ?].
  - rewrite <- (group_keeps_statements g t Ht) in Hl.
    destruct (IH (group g t)) as (run & after & -> & Hf & Hrun);
      [by apply group_keeps_pending; auto|done|done|].
    destruct Hrun as [->|(init & last_ & -> & Hall & Hl')].
    + destruct (filler t) eqn:Hft.
      * exists [], (t :: after). split_and!; [done|by constructor|by left].
      * exists [t], after. split_and!; [done|done|]. right. by exists [], t.
    + exists (t :: init ++ [last_]), after. split_and!; [done|done|].
      right. exists (t :: init), last_. split_and!; [done|by constructor|done].
Qed.

Lemma scan_from_single g ts :
  first_executable (gs_pending g) = None ->
  sc_stray_terminator (scan_from g ts) = false ->
  length (sc_statements (scan_from g ts)) = S (length (gs_statements g)) ->
  single_statement ts.
Proof.
  revert g. induction ts as [|t ts IH]; intros g Hp Hs Hl.
  { exfalso. destruct g as [sts [f le am] st rd]. cbn in *. subst f. cbn in Hl.
    rewrite length_app in Hl. cbn in Hl. lia. }
  rewrite scan_from_cons in Hs, Hl. destruct (token_cases t) as [Ht|[Ht|[Ht Hnt]]].
  - destruct (group_filler g t Ht) as (Es & Ep & _).
    destruct (IH (group g t)) as (b & r & a & -> & Hb & Hr & Ha); [congruence..|].
    exists (t :: b), r, a. split_and!; [done|by constructor|done|done].
  - rewrite scan_from_stray in Hs; [done|by apply group_terminator_stray].
  - rewrite <- (group_keeps_statements g t Hnt) in Hl.
    destruct (scan_from_rest _ ts (group_executable_pending g t Ht) Hs Hl)
      as (run & after & -> & Hf & Hrun).
    exists [], (t :: run), after. split_and!; [done|constructor| |done].
    destruct Hrun as [->|(init & last_ & -> & Hall & Hl')].
    + exists t, [], t. split_and!; try done. by apply executable_not_filler.
    + exists t, (t :: init), last_. split_and!; try done. by constructor.
Qed.

(** A MySQL selection is accepted exactly when it lexes completely (no
    unterminated quote or comment) into one statement that only comments and
    blanks surround: nothing executable and no second terminator can hide
    before it or behind its terminator. *)
Theorem validate_mysql_selection_single s :
  validate_mysql_selection s = Some (Ok tt) <->
  exists ts, lex s = (ts, None) /\ single_statement ts.
Proof.
  split.
  - unfold validate_mysql_selection. case_bool_decide as Hnil; [done|].
    rewrite scan_mysql_refines_reference. unfold reference_scan.
    destruct (lex s) as [ts [rest|]]; cbn [mbind option_bind]; [done|].
    fold (scan_from group_init ts). intros H. exists ts. split; [done|].
    apply (scan_from_single group_init ts); [done| |];
      destruct (sc_statements (scan_from group_init ts)) as [|? [|??]], (sc_stray_terminator _);
      done.
  - intros (ts & E & Hs). apply (single_statement_validates s ts); [|done].
    pose proof (lex_Lexed s) as HL. by rewrite E in HL.
Qed.
