(* ===== verification/Targets.v ===== *)
(** * Execution targets

    Correctness of [extract_and_validate_target]: it never panics, what the
    editor extracts passes the service's own validation of the submitted
    text, and its results respect the documented bounds. *)

From S2P Require Import Prelude RustStr Model Execution MysqlLex Scanner Statements.

#[local] Arguments scan_mysql : simpl never.
#[local] Arguments infer_mysql_target : simpl never.
#[local] Arguments validate_mysql_selection : simpl never.
#[local] Arguments physical_line_at : simpl never.
#[local] Arguments reverse : simpl never.

(** ** Edges of a statement *)

Lemma quoted_body_last_len n d s b a :
  length s < n -> quoted_body d s = Some (b, a) -> last b = Some d.
Proof.
  revert s b a. induction n as [|n IH]; intros s b a Hn; [lia|].
  destruct s as [|c s]; [done|]. cbn [quoted_body length] in *.
  destruct (c =? 92)%N; [|destruct (c =? d)%N eqn:Hc].
  - destruct s as [|e s]; [done|]. destruct (quoted_body d s) as [[b' a']|] eqn:E; [|done].
    intros [= <- <-]. apply IH in E; [|cbn in Hn; lia]. by rewrite !last_cons, E.
  - apply N.eqb_eq in Hc as ->. destruct s as [|e s]; [intros [= <- <-]; done|].
    destruct (e =? d)%N; [|by intros [= <- <-]].
    destruct (quoted_body d s) as [[b' a']|] eqn:E; [|done].
    intros [= <- <-]. apply IH in E; [|cbn in Hn; lia]. by rewrite !last_cons, E.
  - destruct (quoted_body d s) as [[b' a']|] eqn:E; [|done].
    intros [= <- <-]. apply IH in E; [|lia]. by rewrite last_cons, E.
Qed.

Lemma star_slash_last l k : star_slash l = Some k -> last (take (k + 2) l) = Some 47%N.
Proof.
  revert k. induction l as [|a l IH]; intros k; [done|].
  destruct l as [|b l]; [done|]. rewrite star_slash_cons2.
  destruct ((a =? 42) && (b =? 47))%N eqn:E.
  - intros [= <-]. apply andb_prop in E as [_ ->%N.eqb_eq]. done.
  - intros (k' & Hk & ->)%fmap_Some. specialize (IH _ Hk).
    change (take (S k' + 2) (a :: b :: l)) with (a :: take (k' + 2) (b :: l)).
    by rewrite last_cons, IH.
Qed.

Lemma quote_not_blank c : is_quote c = true -> is_whitespace c = false.
Proof. unfold is_quote, is_whitespace. lia. Qed.

(** Tokens other than filler neither start nor end with a blank. *)
Lemma token_edges s t :
  next_token s = Some t -> filler t = false ->
  exists c d, head (tk_text t) = Some c /\ last (tk_text t) = Some d /\
              is_whitespace c = false /\ is_whitespace d = false.
Proof.
  destruct s as [|c s]; [done|]. rewrite next_token_cons.
  destruct ((c =? 35)%N || dash_comment (c :: s)); [by intros <-%(inj Some)|].
  destruct ((c =? 47)%N && _) eqn:Hblock.
  { apply andb_prop in Hblock as [->%N.eqb_eq Hs]. destruct s as [|c' s]; [done|].
    change (drop 2 (47%N :: c' :: s)) with s.
    destruct (star_slash s) as [k|] eqn:E; [|done]. intros <-%(inj Some) _.
    exists 47%N, 47%N. cbn [tk_text]. replace (k + 4) with (S (S (k + 2))) by lia.
    cbn [take]. rewrite !last_cons, (star_slash_last _ _ E). done. }
  destruct (is_quote c) eqn:Hq.
  { destruct (quoted_body c s) as [[b a]|] eqn:E; [|done]. intros [= <-] _.
    exists c, c. cbn. apply (quoted_body_last_len (S (length s))) in E; [|lia].
    rewrite last_cons, E. by rewrite quote_not_blank. }
  destruct (c =? 59)%N eqn:Hsemi.
  { apply N.eqb_eq in Hsemi as ->. intros [= <-] _. by exists 59%N, 59%N. }
  destruct (is_whitespace c) eqn:Hw; intros [= <-]; [done|]. intros _. by exists c, c.
Qed.

Lemma Lexed_token s ts rest t : Lexed s ts rest -> t ∈ ts -> exists s', next_token s' = Some t.
Proof.
  induction 1 as [|s _ _|t' s ts rest Ht _ IH]; [by intros ?%elem_of_nil|by intros ?%elem_of_nil|].
  intros [->|Hin]%elem_of_cons; eauto.
Qed.

Lemma head_app_Some {A} (a b : list A) x : head a = Some x -> head (a ++ b) = Some x.
Proof. by destruct a. Qed.

Lemma last_app_Some {A} (a b : list A) x : last b = Some x -> last (a ++ b) = Some x.
Proof. intros Hb. by rewrite last_app, Hb. Qed.

Lemma statement_trimmed run :
  statement_run run -> Lexed (tokens_text run) run None -> trimmed (tokens_text run).
Proof.
  intros (first_ & init & last_ & Hh & Hx & Hrun & _ & Hf) HL.
  assert (exists s, next_token s = Some first_) as [s1 H1].
  { eapply Lexed_token; [done|]. destruct run; [done|]. injection Hh as ->. left. }
  assert (exists s, next_token s = Some last_) as [s2 H2].
  { eapply Lexed_token; [done|]. rewrite Hrun. apply elem_of_app. right. left. }
  destruct (token_edges _ _ H1 (executable_not_filler _ Hx)) as (c & _ & Hc & _ & Hcw & _).
  destruct (token_edges _ _ H2 Hf) as (_ & d & _ & Hd & _ & Hdw).
  assert (head (tokens_text run) = Some c) as Ehead.
  { destruct run; [done|]. injection Hh as ->. rewrite tokens_text_cons. by apply head_app_Some. }
  assert (last (tokens_text run) = Some d) as Elast.
  { rewrite Hrun, tokens_text_snoc. by apply last_app_Some. }
  intros x. rewrite Ehead, Elast. naive_solver.
Qed.

(** ** Char positions and slices *)

Lemma char_indices_from_lookup i s k :
  fst <$> char_indices_from i s !! k
  = if decide (k < length s) then Some (i + byte_len (take k s)) else None.
Proof.
  revert i k. induction s as [|c s IH]; intros i k; [by destruct k|].
  cbn [char_indices_from]. destruct k as [|k].
  - rewrite decide_True by (cbn; lia). cbn. by rewrite byte_len_nil, Nat.add_0_r.
  - change ((_ :: ?l) !! S k) with (l !! k). rewrite IH. cbn [length take].
    repeat case_decide; [|lia|lia|done]. rewrite byte_len_cons. f_equal. lia.
Qed.

Lemma char_to_byte_Some s k b :
  char_to_byte s k = Some b <-> k <= length s /\ b = byte_len (take k s).
Proof.
  unfold char_to_byte, char_indices. rewrite char_indices_from_lookup. cbn.
  destruct (k =? length s) eqn:E.
  - apply Nat.eqb_eq in E as ->. rewrite take_ge by done. naive_solver.
  - case_match; split; intros; [simplify_eq; lia|naive_solver lia|done|lia].
Qed.

Lemma char_to_byte_split s k b :
  char_to_byte s k = Some b -> exists a c, s = a ++ c /\ b = byte_len a.
Proof.
  intros [_ ->]%char_to_byte_Some. exists (take k s), (drop k s). by rewrite take_drop.
Qed.

Lemma checked_slice_full s : checked_character_slice s (0, length s) = Ok s.
Proof.
  unfold checked_character_slice. cbn [fst snd].
  rewrite (proj2 (char_to_byte_Some s 0 0)) by (split; [lia|done]).
  rewrite (proj2 (char_to_byte_Some s (length s) (byte_len s)))
    by (split; [lia|by rewrite take_ge]).
  cbn [Nat.ltb Nat.leb mbind result_bind ok_or].
  pose proof (str_get_app [] s []) as E. rewrite (right_id_L [] (++)) in E.
  change (byte_len []) with 0 in E. change (0 + byte_len s) with (byte_len s) in E.
  change ([] ++ s) with s in E. by rewrite E.
Qed.

(** ** Physical lines *)

Definition not_newline (x : char) : bool := negb (x =? 10)%N.

Lemma encode_reverse_len s : byte_len (reverse s) = byte_len s.
Proof.
  induction s as [|c s IH]; [done|]. rewrite reverse_cons, byte_len_app, IH.
  rewrite !byte_len_cons, byte_len_nil. lia.
Qed.

Lemma position_skip_gen (p : N -> bool) l r :
  Forall (fun b => p b = false) l -> position p (l ++ r) = Nat.add (length l) <$> position p r.
Proof.
  induction 1 as [|b l Hb _ IH]; cbn.
  - by destruct (position p r).
  - rewrite Hb, IH. by destruct (position p r).
Qed.

Lemma encode_char_no_newline c : (c =? 10)%N = false -> Forall (fun b => (10 =? b)%N = false) (encode_char c).
Proof.
  intros Hc. destruct (N.lt_ge_cases c 128) as [Hlo|Hhi].
  - rewrite encode_char_ascii by done. repeat constructor. lia.
  - eapply Forall_impl; [by apply encode_char_multi|]. cbn. lia.
Qed.

Lemma position_reverse_encode s :
  match position (N.eqb 10) (reverse (encode s)) with None => byte_len s | Some p => p end
  = byte_len (take_while not_newline (reverse s)).
Proof.
  induction s as [|c s IH] using rev_ind; [done|].
  rewrite encode_app, !reverse_app. cbn [encode]. rewrite (right_id_L [] (++)).
  change (reverse [c]) with [c]. cbn [app take_while].
  unfold not_newline at 1. destruct (c =? 10)%N eqn:Hc; cbn [negb].
  - apply N.eqb_eq in Hc as ->. done.
  - rewrite position_skip_gen by (apply Forall_reverse; by apply encode_char_no_newline).
    rewrite length_reverse, byte_len_cons, byte_len_app, <- IH, byte_len_cons, byte_len_nil.
    unfold len_utf8. destruct (position _ _); cbn; lia.
Qed.

Lemma take_while_reverse_split {A} (p : A -> bool) (s : list A) :
  exists u, s = u ++ reverse (take_while p (reverse s)).
Proof.
  exists (reverse (drop_while p (reverse s))).
  by rewrite <- reverse_app, take_drop_while, reverse_involutive.
Qed.

(** [physical_line_at] never panics on a char boundary: it is the text between
    the newlines around the caret. *)
Lemma physical_line_at_eq a c :
  physical_line_at (a ++ c) (byte_len a)
  = Some (reverse (take_while not_newline (reverse a)) ++ take_while not_newline c).
Proof.
  unfold physical_line_at. rewrite split_at_byte_app. cbn [mbind option_bind].
  pose proof (position_reverse_encode a) as Ha. pose proof (position_encode 10 c ltac:(lia)) as Hc.
  destruct (take_while_reverse_split not_newline a) as (u & Hu).
  set (l := reverse (take_while not_newline (reverse a))) in *.
  assert (byte_len (take_while not_newline (reverse a)) = byte_len l) as Hl
    by (unfold l; by rewrite encode_reverse_len).
  rewrite Hl in Ha. change (take_while _ c) with (take_while not_newline c) in Hc.
  pose proof (take_drop_while not_newline c) as Hcd.
  set (r := take_while not_newline c) in *.
  assert (byte_len a = byte_len u + byte_len l) as Hlen by (rewrite Hu at 1; apply byte_len_app).
  replace (match position _ (reverse (encode a)) with None => 0 | Some p => _ end)
    with (byte_len u).
  2: { destruct (position _ (reverse (encode a))) as [p|] eqn:Hp; [|lia].
       apply position_Some in Hp as (x & Hx%lookup_lt_Some & _).
       rewrite length_reverse in Hx. unfold byte_len in *. lia. }
  replace (match position _ (encode c) with None => _ | Some o => _ end)
    with (byte_len u + byte_len (l ++ r)).
  - rewrite Hu at 1. rewrite <- Hcd at 1. rewrite <- (assoc (++) u), (assoc (++) l). apply str_get_app.
  - rewrite !byte_len_app. destruct (position _ (encode c)); lia.
Qed.

Lemma not_newline_physical a c :
  10%N ∉ reverse (take_while not_newline (reverse a)) ++ take_while not_newline c.
Proof.
  intros [H|H]%elem_of_app; [rewrite elem_of_reverse in H|];
    pose proof (take_while_Forall not_newline) as HF;
    [specialize (HF (reverse a))|specialize (HF c)];
    rewrite Forall_forall in HF; by apply HF in H.
Qed.

(** ** Inference *)

Lemma infer_eq text caret :
  infer_mysql_target text caret = Some
    match List.find (fun s => mysql_statement_contains s caret (byte_len text))
                    (sc_statements (reference_scan text)) with
    | Some statement =>
        if st_ambiguous statement then Err AmbiguousSqlMode
        else ok_or (str_get text (st_start statement) (st_end statement)) InvalidCaretPosition
    | None =>
        match sc_issue (reference_scan text) with
        | Some issue =>
            if statement_start issue <=? caret
            then if issue_ambiguous issue then Err AmbiguousSqlMode else Err UnterminatedSqlToken
            else Err NoCurrentStatement
        | None => Err NoCurrentStatement
        end
    end.
Proof. unfold infer_mysql_target. by rewrite scan_mysql_refines_reference. Qed.

Lemma find_Some_elem {A} (p : A -> bool) l x : List.find p l = Some x -> x ∈ l /\ p x = true.
Proof. intros H. apply find_some in H as [? ?]. by rewrite list_elem_of_In. Qed.

Lemma statement_validates_trimmed text s :
  s ∈ sc_statements (reference_scan text) ->
  exists t, str_get text (st_start s) (st_end s) = Some t /\ trim t = t /\
            validate_mysql_selection t = Some (Ok tt).
Proof.
  intros Hs. destruct (statement_validates text s Hs) as (t & Ht & Hv).
  exists t. split_and!; [done| |done].
  pose proof (reference_scan_statements text) as [Hl _].
  rewrite Forall_forall in Hl. destruct (located_text _ _ (Hl s Hs)) as (run & Hrun & HL & Hget).
  assert (t = tokens_text run) as -> by congruence. by apply trimmed_trim, statement_trimmed.
Qed.

Lemma infer_Ok text caret t :
  infer_mysql_target text caret = Some (Ok t) ->
  exists s, s ∈ sc_statements (reference_scan text) /\ st_ambiguous s = false /\
    mysql_statement_contains s caret (byte_len text) = true /\
    str_get text (st_start s) (st_end s) = Some t.
Proof.
  rewrite infer_eq. intros [= H]. destruct (List.find _ _) as [s|] eqn:Hf.
  - apply find_Some_elem in Hf as [Hs Hc]. exists s.
    destruct (st_ambiguous s) eqn:Ha; [done|]. by rewrite ok_or_Ok in H.
  - repeat case_match; done.
Qed.

Lemma ordered_le lo sts hi : ordered lo sts hi -> lo <= hi.
Proof.
  revert lo. induction sts as [|s sts IH]; intros lo; cbn; [done|].
  intros (H1 & H2 & H3%IH). lia.
Qed.

Lemma ordered_lower lo sts hi s :
  ordered lo sts hi -> s ∈ sts -> lo <= st_start s /\ st_start s < st_end s /\ st_end s <= hi.
Proof.
  revert lo. induction sts as [|s' sts IH]; intros lo; cbn; [by intros _ ?%elem_of_nil|].
  intros (H1 & H2 & H3) [->|Hin]%elem_of_cons.
  - apply ordered_le in H3. lia.
  - specialize (IH _ H3 Hin). lia.
Qed.

(** Ordered ranges do not share a caret. *)
Lemma ordered_unique lo sts hi s1 s2 caret :
  ordered lo sts hi -> s1 ∈ sts -> s2 ∈ sts ->
  mysql_statement_contains s1 caret hi = true -> mysql_statement_contains s2 caret hi = true ->
  s1 = s2.
Proof.
  revert lo. induction sts as [|s sts IH]; intros lo; cbn; [by intros _ ?%elem_of_nil|].
  intros (H1 & H2 & H3) [->|Hin1]%elem_of_cons [->|Hin2]%elem_of_cons Hc1 Hc2; [done| | |by eauto];
    exfalso; unfold mysql_statement_contains in *.
  - pose proof (ordered_lower _ _ _ _ H3 Hin2). lia.
  - pose proof (ordered_lower _ _ _ _ H3 Hin1). lia.
Qed.

(** The inferred target is the text of a scanned statement that contains the
    caret (or ends the text at the caret), that statement is the only one, and
    it is not ambiguous; inference never fails on a slice. *)
Theorem infer_mysql_target_at_caret text caret t :
  infer_mysql_target text caret = Some (Ok t) <->
  exists s before after,
    s ∈ sc_statements (reference_scan text) /\ st_ambiguous s = false /\
    text = before ++ t ++ after /\
    st_start s = byte_len before /\ st_end s = byte_len (before ++ t) /\
    (byte_len before <= caret < byte_len (before ++ t) \/
     after = [] /\ caret = byte_len text) /\
    forall s', s' ∈ sc_statements (reference_scan text) ->
               mysql_statement_contains s' caret (byte_len text) = true -> s' = s.
Proof.
  pose proof (reference_scan_statements text) as [_ Hord]. split.
  - intros (s & Hs & Ha & Hc & Hget)%infer_Ok. pose proof Hget as Hsplit.
    apply str_get_Some in Hsplit as (before & after & Etext & Es & Ee).
    exists s, before, after. rewrite byte_len_app. split_and!; try done.
    + unfold mysql_statement_contains in Hc. rewrite Es, Ee in Hc.
      assert (byte_len text = byte_len before + byte_len t + byte_len after) as El
        by (rewrite Etext, !byte_len_app; lia).
      destruct (decide (byte_len after = 0)) as [E0|]; [apply byte_len_0 in E0 as ->|];
        [|left; lia]. destruct (decide (caret = byte_len text)); [by right|left; lia].
    + intros s' Hs' Hc'. by eapply ordered_unique.
  - intros (s & before & after & Hs & Ha & Etext & Es & Ee & Hc & Huniq).
    rewrite infer_eq.
    assert (byte_len text = byte_len before + byte_len t + byte_len after) as El
      by (rewrite Etext, !byte_len_app; lia).
    rewrite byte_len_app in Ee, Hc.
    assert (mysql_statement_contains s caret (byte_len text) = true) as Hcs.
    { unfold mysql_statement_contains. rewrite Es, Ee.
      destruct Hc as [?|[-> ->]]; [lia|]. rewrite byte_len_nil in El. lia. }
    destruct (List.find _ _) as [s'|] eqn:Hf.
    + apply find_Some_elem in Hf as [Hs' Hc']. rewrite (Huniq s' Hs' Hc'), Ha.
      rewrite Es, Ee, Etext, str_get_app. done.
    + exfalso. eapply find_none in Hf; [|by apply list_elem_of_In]. by rewrite Hcs in Hf.
Qed.

Lemma validate_mysql_selection_total t : is_Some (validate_mysql_selection t).
Proof.
  unfold validate_mysql_selection. case_bool_decide; [by eexists|].
  rewrite scan_mysql_refines_reference. cbn. by eexists.
Qed.

Lemma validate_mysql_selection_nil : validate_mysql_selection [] = Some (Err NoCurrentStatement).
Proof. done. Qed.

Section shell_words.
Context (shell_split : str -> option (list str)).
Local Abbreviation extract := (extract_and_validate_target shell_split).

(** Extraction never panics: every slice of the editor text it takes is on
    character boundaries and every loop terminates, for all inputs. *)
Theorem extract_never_panics text caret selection language row_limit timeout :
  extract text caret selection language row_limit timeout <> None.
Proof.
  unfold extract_and_validate_target.
  destruct (negb _); [done|]. destruct (negb _); [done|].
  destruct (char_to_byte text caret) as [b|] eqn:Hb; [|done].
  destruct (match selection with None => _ | Some _ => _ end) as [[sel|]|]; [| |done];
    destruct language; try done.
  - by destruct (validate_mysql_selection_total sel) as [r ->].
  - by rewrite infer_eq.
  - apply char_to_byte_split in Hb as (a & c & -> & ->). by rewrite physical_line_at_eq.
Qed.

Lemma extract_limits text caret selection language row_limit timeout v :
  extract text caret selection language row_limit timeout = Some (Ok v) ->
  v_row_limit v = row_limit /\ v_timeout_seconds v = timeout.
Proof.
  unfold extract_and_validate_target. destruct (negb _); [done|]. destruct (negb _); [done|].
  destruct (char_to_byte text caret); [|done].
  destruct (match selection with None => _ | Some _ => _ end) as [[sel|]|]; [| |done]; destruct language; cbn;
    repeat (match goal with |- context [mbind _ ?e] => destruct e as [[]|] || destruct e end; cbn; try done);
    by intros [= <-].
Qed.

(** What an accepted target satisfies, whichever way it was selected. *)
Definition accepted (language : ExecutionLanguage) (v : ValidatedExecutionTarget) : Prop :=
  (1 <= v_row_limit v <= MAX_EXECUTE_ROW_LIMIT)%N /\
  (1 <= v_timeout_seconds v <= MAX_EXECUTE_TIMEOUT_SECONDS)%N /\
  trim (into_source_text v) = into_source_text v /\
  match language with
  | LMySql =>
      exists t, v_target v = MySqlText t /\ v_source_text v = [] /\
                validate_mysql_selection t = Some (Ok tt)
  | LRedis =>
      exists argv, v_target v = RedisArgv argv /\
        validate_single_redis_physical_command shell_split (v_source_text v) = Ok tt /\
        validate_redis_target shell_split (v_source_text v) = Ok argv
  end.

(** The outcome of re-validating an already extracted source text. *)
Definition resubmit (v : ValidatedExecutionTarget) (language : ExecutionLanguage) :=
  let source := into_source_text v in
  extract source (length source) (Some (0, length source)) language
          (v_row_limit v) (v_timeout_seconds v).

Lemma accepted_resubmit language v : accepted language v -> resubmit v language = Some (Ok v).
Proof.
  intros (Hr & Ht & Htrim & Hv). unfold resubmit, extract_and_validate_target.
  replace ((1 <=? v_row_limit v) && (v_row_limit v <=? MAX_EXECUTE_ROW_LIMIT))%N with true by lia.
  replace ((1 <=? v_timeout_seconds v) && (v_timeout_seconds v <=? MAX_EXECUTE_TIMEOUT_SECONDS))%N
    with true by lia.
  rewrite (proj2 (char_to_byte_Some _ _ _) (conj (le_n _) eq_refl)).
  rewrite checked_slice_full. cbn. rewrite Htrim.
  destruct v as [target source rl tm], language; cbn in *.
  - destruct Hv as (t & -> & -> & Hv). cbn. by rewrite Hv.
  - destruct Hv as (argv & -> & Hs & Hv). cbn in *. by rewrite Hs, Hv.
Qed.

Section empty_input.
(** [shell_words::split("")] is the empty vector. *)
Hypothesis split_empty : shell_split [] = Some [].

Lemma trim_end_matches_cr s : trimmed s -> trim_end_matches (N.eqb 13) s = s.
Proof.
  intros Hs. unfold trim_end_matches. destruct (reverse s) as [|d r] eqn:E.
  - apply (f_equal reverse) in E. by rewrite reverse_involutive in E.
  - rewrite drop_while_keeps, <- E; [apply reverse_involutive|].
    apply N.eqb_neq. intros <-. assert (is_whitespace 13 = false) as H; [|done].
    apply Hs. right. rewrite <- (reverse_involutive s), E, reverse_cons. apply last_snoc.
Qed.

(** A command on one physical line is a single command for the selection
    check. *)
Lemma single_line_command line argv :
  trimmed line -> 10%N ∉ line ->
  validate_redis_target shell_split line = Ok argv ->
  validate_single_redis_physical_command shell_split line = Ok tt.
Proof.
  intros Ht Hn. unfold validate_redis_target, validate_single_redis_physical_command.
  destruct (MAX_REDIS_TARGET_BYTES <? str_len line)%N; [done|].
  destruct (shell_split line) as [argv'|] eqn:Hs; cbn; [|done].
  case_bool_decide as Hempty.
  { subst line. rewrite split_empty in Hs. by injection Hs as <-. }
  destruct argv' as [|command rest]; [done|]. intros _.
  rewrite split_char_absent by done. cbn [count_command_lines].
  rewrite trim_end_matches_cr, Hs by done. done.
Qed.

Lemma extract_accepted text caret selection language row_limit timeout v :
  extract text caret selection language row_limit timeout = Some (Ok v) ->
  accepted language v.
Proof.
  unfold extract_and_validate_target, accepted.
  destruct (negb _) eqn:Hr; [done|]. destruct (negb (_ && (timeout <=? _)%N)) eqn:Ht; [done|].
  destruct (char_to_byte text caret) as [b|] eqn:Hb; [|done].
  destruct selection as [range|].
  - destruct (checked_character_slice text range) as [sel|]; cbn; [|done].
    destruct language.
    + destruct (validate_mysql_selection (trim sel)) as [[[]|]|] eqn:Hv; cbn; [|done|done].
      intros [= <-]. cbn. split_and!; try lia; [apply trim_idemp|by exists (trim sel)].
    + destruct (validate_single_redis_physical_command _ _) as [[]|] eqn:Hs; cbn; [|done].
      destruct (validate_redis_target _ _) as [argv|] eqn:Hv; cbn; [|done].
      intros [= <-]. cbn. split_and!; try lia; [apply trim_idemp|by exists argv].
  - cbn. destruct language.
    + destruct (infer_mysql_target text b) as [[t|]|] eqn:Hi; cbn; [|done|done].
      intros [= <-]. cbn. apply infer_Ok in Hi as (s & Hs & _ & _ & Hget).
      destruct (statement_validates_trimmed text s Hs) as (t' & Hget' & Htrim & Hv).
      simplify_eq. split_and!; try lia; [done|by exists t].
    + apply char_to_byte_split in Hb as (a & c & -> & ->). rewrite physical_line_at_eq.
      pose proof (not_newline_physical a c) as Hn.
      set (line := reverse _ ++ _) in *. cbn [mbind option_bind].
      destruct (validate_redis_target _ (trim line)) as [argv|] eqn:Hv; cbn; [|done].
      intros [= <-]. cbn. split_and!; try lia; [apply trim_idemp|].
      exists argv. split_and!; [done| |done].
      eapply single_line_command; [apply trim_trimmed| |done].
      intros H. by apply Hn, trim_incl.
Qed.

End empty_input.

(** ** Typed requests *)

Section token_lengths.
(** The words of a command line come from disjoint parts of it, separated by
    at least one blank. *)
Hypothesis split_shrinks : forall s argv,
  shell_split s = Some argv ->
  (sum_list_with byte_len argv + pred (length argv) <= byte_len s)%nat.
Hypothesis split_empty : shell_split [] = Some [].

(** The request the service builds from a validated target. *)
Definition typed_request_ok (identity : RequestIdentity) (v : ValidatedExecutionTarget) : bool :=
  match v_target v with
  | MySqlText statement =>
      is_ok (PreparedMySqlRequest_validate
               {| pm_identity := identity; pm_statement := statement;
                  pm_row_limit := v_row_limit v;
                  pm_timeout := from_secs (v_timeout_seconds v) |})
  | RedisArgv argv =>
      is_ok (RedisExecuteRequest_new redis_argv_is_denied identity (encode <$> argv)
               (v_row_limit v) (from_secs (v_timeout_seconds v)))
  end.

Lemma limits_ok rl tm :
  (1 <= rl <= MAX_EXECUTE_ROW_LIMIT)%N -> (1 <= tm <= MAX_EXECUTE_TIMEOUT_SECONDS)%N ->
  validate_execute_limits rl (from_secs tm) = Ok tt.
Proof.
  unfold validate_execute_limits, from_secs, MAX_EXECUTE_ROW_LIMIT, MAX_EXECUTE_TIMEOUT_SECONDS,
    MAX_RESULT_ROWS, MAX_EXECUTE_TIMEOUT, from_secs.
  intros. repeat (case_match; [lia|]). done.
Qed.

Lemma command_bytes_foldl argv acc :
  (acc + N.of_nat (sum_list_with length argv + length argv) <= USIZE_MAX)%N ->
  foldl checked_add_arg (Some acc) argv
  = Some (acc + N.of_nat (sum_list_with length argv + length argv))%N.
Proof.
  revert acc. induction argv as [|a argv IH]; intros acc Hb; cbn in *; [f_equal; lia|].
  unfold checked_add. rewrite (proj2 (N.leb_le _ _)) by lia. cbn.
  rewrite (proj2 (N.leb_le _ _)) by lia. rewrite IH by lia. f_equal. lia.
Qed.

Lemma sum_lengths_encode argv :
  sum_list_with length (encode <$> argv) = sum_list_with byte_len argv.
Proof. induction argv as [|a argv IH]; cbn; [done|]. by rewrite IH. Qed.

(** The checks of [validate_redis_target] imply those of the typed request. *)
Lemma redis_request_ok identity source argv rl tm :
  (1 <= rl <= MAX_EXECUTE_ROW_LIMIT)%N -> (1 <= tm <= MAX_EXECUTE_TIMEOUT_SECONDS)%N ->
  validate_redis_target shell_split source = Ok argv ->
  is_ok (RedisExecuteRequest_new redis_argv_is_denied identity (encode <$> argv) rl (from_secs tm)) = true.
Proof.
  intros Hrl Htm. unfold validate_redis_target.
  destruct (MAX_REDIS_TARGET_BYTES <? str_len source)%N eqn:Hsize; [done|].
  destruct (shell_split source) as [argv'|] eqn:Hs; cbn; [|done].
  apply split_shrinks in Hs. destruct argv' as [|command args]; [done|].
  case_bool_decide as Hcmd; [done|].
  destruct (MAX_REDIS_TOKENS <? _)%N eqn:Htok; [done|].
  destruct (existsb _ _) eqn:Hlong; [done|].
  destruct (redis_command_is_denied _) eqn:Hdeny; [done|]. intros [= <-].
  unfold RedisExecuteRequest_new, RedisExecuteRequest_validate.
  cbn [rx_row_limit rx_timeout rx_argv]. rewrite limits_ok by done. cbn [mbind result_bind].
  rewrite fmap_cons. destruct (encode command) as [|b bs] eqn:Ecmd.
  { destruct Hcmd. by apply byte_len_0; unfold byte_len; rewrite Ecmd. }
  rewrite <- Ecmd, <- fmap_cons. unfold command_bytes. rewrite length_fmap.
  unfold str_len, MAX_REDIS_TARGET_BYTES, MAX_REDIS_TOKENS, MAX_REDIS_COMMAND_TOKENS in *.
  rewrite Htok, command_bytes_foldl, sum_lengths_encode, length_fmap.
  2: { rewrite sum_lengths_encode, length_fmap. unfold USIZE_MAX. cbn in *. lia. }
  replace (existsb _ (encode <$> _)) with false.
  - change (redis_argv_is_denied (encode <$> command :: args))
      with (redis_command_is_denied (command :: args)). rewrite Hdeny.
    unfold saturating_sub, MAX_REDIS_COMMAND_BYTES. cbn [length] in *.
    by rewrite (proj2 (N.ltb_ge _ _)) by lia.
  - symmetry. apply existsb_false_elem_of. intros x (a & -> & Ha)%list_elem_of_fmap.
    apply (proj1 (existsb_false_elem_of _ _) Hlong a Ha).
Qed.

(** The extractor's checks subsume those of the typed requests: a target it accepts
    always becomes a valid [PreparedMySqlRequest] or [RedisExecuteRequest] with the
    same limits. *)
Lemma accepted_builds_request identity language v : accepted language v -> typed_request_ok identity v = true.
Proof.
  intros (Hrl & Htm & Htrim & Hv). unfold typed_request_ok, into_source_text in *. destruct language.
  - destruct Hv as (t & Ht & _ & Hv). rewrite Ht in *.
    unfold PreparedMySqlRequest_validate. cbn [pm_statement pm_row_limit pm_timeout].
    rewrite Htrim, limits_ok by done. rewrite bool_decide_false; [done|].
    intros ->. by rewrite validate_mysql_selection_nil in Hv.
  - destruct Hv as (argv & -> & _ & Hv).
    by rewrite (redis_request_ok _ _ _ _ _ Hrl Htm Hv).
Qed.
End token_lengths.
End shell_words.

(** ** Concrete runs

    A word splitter at blanks. *)

Fixpoint blank_words (word s : str) : list str :=
  match s with
  | [] => if bool_decide (word = []) then [] else [word]
  | c :: s =>
      if (c =? 32)%N then
        (if bool_decide (word = []) then [] else [word]) ++ blank_words [] s
      else blank_words (word ++ [c]) s
  end.

Definition blank_split (s : str) : option (list str) := Some (blank_words [] s).

Lemma blank_words_shrink word s :
  sum_list_with byte_len (blank_words word s) + pred (length (blank_words word s)) <= byte_len word + byte_len s.
Proof.
  revert word. induction s as [|c s IH]; intros word; cbn [blank_words].
  - case_bool_decide; cbn; lia.
  - rewrite byte_len_cons. destruct (c =? 32)%N eqn:Hc.
    + apply N.eqb_eq in Hc as ->. specialize (IH []). rewrite byte_len_nil in IH.
      change (len_utf8 32) with 1. case_bool_decide; cbn [app sum_list_with length]; lia.
    + specialize (IH (word ++ [c])). rewrite byte_len_app, byte_len_cons, byte_len_nil in IH. lia.
Qed.

Lemma blank_split_shrinks s argv : blank_split s = Some argv ->
  sum_list_with byte_len argv + pred (length argv) <= byte_len s.
Proof. intros H. injection H as <-. pose proof (blank_words_shrink [] s). by rewrite byte_len_nil in *. Qed.

Definition sample_target : ValidatedExecutionTarget :=
  {| v_target := RedisArgv [lit "GET"; lit "key"]; v_source_text := lit "GET key";
     v_row_limit := 500; v_timeout_seconds := 30 |}.

Definition sample_identity : RequestIdentity :=
  {| ri_profile_id := lit "p"; ri_profile_generation := 1; ri_operation_id := 1 |}.
