(* ===== verification/Policy.v ===== *)
(** * The local Redis policy and the read/mutation classifier

    The deny list and the classifier of [Execution] compared with each other:
    they ignore ASCII case, agree on every command, and the stream commands are
    refused exactly when they would block. *)

From S2P Require Import Prelude RustStr Model Execution.

(** ** ASCII case *)

Lemma upper_of_lower c : to_ascii_uppercase_char (to_ascii_lowercase_char c) = to_ascii_uppercase_char c.
Proof.
  unfold to_ascii_uppercase_char, to_ascii_lowercase_char.
  unfold is_ascii_lowercase, is_ascii_uppercase. repeat case_match; lia.
Qed.

Lemma lower_of_upper c : to_ascii_lowercase_char (to_ascii_uppercase_char c) = to_ascii_lowercase_char c.
Proof.
  unfold to_ascii_uppercase_char, to_ascii_lowercase_char.
  unfold is_ascii_lowercase, is_ascii_uppercase. repeat case_match; lia.
Qed.

Lemma uppercase_of_lowercase s : to_ascii_uppercase (to_ascii_lowercase s) = to_ascii_uppercase s.
Proof.
  unfold to_ascii_uppercase, to_ascii_lowercase. rewrite <- list_fmap_compose.
  apply list_fmap_ext. intros i c _. apply upper_of_lower.
Qed.

Lemma lowercase_of_uppercase s : to_ascii_lowercase (to_ascii_uppercase s) = to_ascii_lowercase s.
Proof.
  unfold to_ascii_uppercase, to_ascii_lowercase. rewrite <- list_fmap_compose.
  apply list_fmap_ext. intros i c _. apply lower_of_upper.
Qed.

(** Strings and byte strings that differ in ASCII case only. *)
Definition same_ignoring_case (a b : list N) : Prop := to_ascii_lowercase a = to_ascii_lowercase b.

#[export] Instance same_ignoring_case_equiv : Equivalence same_ignoring_case.
Proof. split; unfold same_ignoring_case; congruence. Qed.

#[export] Instance eq_ignore_ascii_case_proper :
  Proper (same_ignoring_case ==> same_ignoring_case ==> eq) eq_ignore_ascii_case.
Proof. unfold same_ignoring_case, eq_ignore_ascii_case. by intros a a' -> b b' ->. Qed.

#[export] Instance to_ascii_uppercase_proper :
  Proper (same_ignoring_case ==> eq) to_ascii_uppercase.
Proof.
  intros a b E. rewrite <- (uppercase_of_lowercase a), <- (uppercase_of_lowercase b).
  unfold same_ignoring_case in E. by rewrite E.
Qed.

#[export] Instance take_proper n : Proper (same_ignoring_case ==> same_ignoring_case) (take n).
Proof.
  intros a b E. unfold same_ignoring_case, to_ascii_lowercase in *. by rewrite !fmap_take, E.
Qed.

Lemma same_ignoring_case_length a b : same_ignoring_case a b -> length a = length b.
Proof.
  unfold same_ignoring_case, to_ascii_lowercase. intros E%(f_equal length).
  by rewrite !length_fmap in E.
Qed.

Lemma lowercase_encode_char c :
  to_ascii_lowercase (encode_char c) = encode_char (to_ascii_lowercase_char c).
Proof.
  destruct (N.lt_ge_cases c 128) as [Hc|Hc].
  - assert (to_ascii_lowercase_char c < 128)%N.
    { unfold to_ascii_lowercase_char, is_ascii_uppercase. case_match; lia. }
    by rewrite !encode_char_ascii.
  - assert (forall x, (128 <= x)%N -> to_ascii_lowercase_char x = x) as Hid.
    { intros x Hx. unfold to_ascii_lowercase_char, is_ascii_uppercase. case_match; lia. }
    rewrite Hid by done. pose proof (encode_char_multi c Hc) as HF. unfold to_ascii_lowercase.
    induction HF as [|x l Hx _ IH]; cbn; [done|]. by rewrite Hid, IH.
Qed.

Lemma lowercase_encode s : to_ascii_lowercase (encode s) = encode (to_ascii_lowercase s).
Proof.
  induction s as [|c s IH]; [done|]. cbn [encode]. unfold to_ascii_lowercase at 1.
  rewrite fmap_app. unfold to_ascii_lowercase in *. rewrite IH. cbn [fmap list_fmap encode].
  f_equal. apply lowercase_encode_char.
Qed.

Lemma same_ignoring_case_encode a b :
  same_ignoring_case a b -> same_ignoring_case (encode a) (encode b).
Proof. unfold same_ignoring_case. by rewrite !lowercase_encode; intros ->. Qed.

(** ** The deny list *)

Lemma block_precedes_streams_case a b :
  Forall2 same_ignoring_case a b -> block_precedes_streams a = block_precedes_streams b.
Proof. induction 1 as [|x y a b Hxy _ IH]; cbn [block_precedes_streams]; [done|]. by rewrite !Hxy, IH. Qed.

Lemma denied_case a b :
  Forall2 same_ignoring_case a b -> redis_bytes_are_denied a = redis_bytes_are_denied b.
Proof.
  intros [|x y a' b' Hxy Hargs]; [done|]. cbn [redis_bytes_are_denied].
  rewrite (same_ignoring_case_length _ _ Hxy), (block_precedes_streams_case _ _ Hargs), !Hxy.
  by unfold EXACT_DENY; cbn [existsb]; rewrite !Hxy.
Qed.

(** Case never matters to the policy: argument vectors that differ in ASCII
    case only are denied alike and classified alike. *)
Theorem redis_policy_ignores_case a b :
  Forall2 same_ignoring_case a b ->
  redis_command_is_denied a = redis_command_is_denied b /\
  classify_execution_kind LRedis (RedisArgv a) = classify_execution_kind LRedis (RedisArgv b).
Proof.
  intros H. split.
  - apply denied_case. induction H; cbn; constructor; [by apply same_ignoring_case_encode|done].
  - unfold classify_execution_kind, redis_is_clearly_read_only.
    destruct H as [|x y a' b' Hxy _]; [done|]. by rewrite (to_ascii_uppercase_proper _ _ Hxy).
Qed.

(** The stream commands block exactly when a [BLOCK] option comes before
    [STREAMS]. *)
Lemma block_precedes_streams_spec args :
  block_precedes_streams args = true <->
  exists i a, args !! i = Some a /\ same_ignoring_case a (lit "BLOCK") /\
    forall j b, j < i -> args !! j = Some b -> ~ same_ignoring_case b (lit "STREAMS").
Proof.
  induction args as [|a args IH]; cbn [block_precedes_streams].
  - split; [done|]. by intros (i & a & H & _).
  - unfold eq_ignore_ascii_case. fold (same_ignoring_case a (lit "STREAMS")).
    case_bool_decide as Hs; [|case_bool_decide as Hb].
    + split; [done|]. intros (i & x & Hi & Hx & Hno). destruct i as [|i].
      * cbn in Hi. injection Hi as ->. unfold same_ignoring_case in *. by rewrite Hx in Hs.
      * by destruct (Hno 0 a ltac:(lia) eq_refl).
    + split; [|done]. intros _. exists 0, a. split_and!; [done|done|lia].
    + rewrite IH. split.
      * intros (i & x & Hi & Hx & Hno). exists (S i), x. split_and!; [done|done|].
        intros [|j] y Hj Hy; [by injection Hy as <-|]. apply (Hno j y); [lia|done].
      * intros (i & x & Hi & Hx & Hno). destruct i as [|i]; [by injection Hi as ->|].
        exists i, x. split_and!; [done|done|]. intros j y Hj Hy. apply (Hno (S j) y); [lia|done].
Qed.

(** [XREAD] and [XREADGROUP] are refused exactly when a [BLOCK] option
    precedes [STREAMS]; a key or group named [BLOCK] after it is data. *)
Theorem stream_read_denied command args :
  same_ignoring_case command (lit "XREAD") \/ same_ignoring_case command (lit "XREADGROUP") ->
  redis_argv_is_denied (command :: args) = true <->
  exists i a, args !! i = Some a /\ same_ignoring_case a (lit "BLOCK") /\
    forall j b, j < i -> args !! j = Some b -> ~ same_ignoring_case b (lit "STREAMS").
Proof.
  intros Hc. rewrite <- block_precedes_streams_spec.
  unfold redis_argv_is_denied, redis_bytes_are_denied.
  destruct Hc as [Hc|Hc]; by rewrite (same_ignoring_case_length _ _ Hc), !Hc.
Qed.

(** ** Classifier against deny list *)

Lemma uppercase_ascii_inv command (k : str) :
  to_ascii_uppercase command = k -> Forall (fun c => c < 128)%N k ->
  same_ignoring_case (encode command) k.
Proof.
  intros <- Hall. unfold same_ignoring_case. rewrite lowercase_encode, lowercase_of_uppercase.
  assert (forall s, Forall (fun c => c < 128)%N s -> encode s = s) as Henc.
  { intros s. induction 1 as [|c s Hc _ IH]; cbn; [done|]. by rewrite encode_char_ascii, IH. }
  apply Henc. unfold to_ascii_uppercase, to_ascii_lowercase in *. rewrite Forall_fmap in Hall |- *.
  eapply Forall_impl; [done|]. intros c. cbn.
  unfold to_ascii_uppercase_char, to_ascii_lowercase_char, is_ascii_lowercase, is_ascii_uppercase.
  repeat case_match; lia.
Qed.

Definition read_commands_ok : bool :=
  forallb (fun k => forallb (fun c => c <? 128)%N k
                    && negb ((2 <=? length k) && eq_ignore_ascii_case (take 2 k) (lit "BL"))
                    && negb (eq_ignore_ascii_case k (lit "XREAD"))
                    && negb (eq_ignore_ascii_case k (lit "XREADGROUP"))
                    && negb (existsb (eq_ignore_ascii_case k) EXACT_DENY)) READ_COMMANDS.

Lemma read_commands_ok_true : read_commands_ok = true.
Proof. by vm_compute. Qed.

(** No command the classifier marks as a read is on the deny list, so a read
    (which needs no confirmation) never blocks or subscribes. *)
Theorem reads_are_never_denied argv :
  classify_execution_kind LRedis (RedisArgv argv) = ExecuteRead ->
  redis_command_is_denied argv = false.
Proof.
  unfold classify_execution_kind, redis_is_clearly_read_only.
  destruct argv as [|command args]; [done|]. case_bool_decide as Hin; [|done]. intros _.
  pose proof (proj1 (forallb_forall _ _) read_commands_ok_true) as Hall.
  specialize (Hall _ (proj1 (list_elem_of_In _ _) Hin)).
  rewrite !andb_true_iff, !negb_true_iff in Hall.
  destruct Hall as ((((Hascii & Hbl) & Hx) & Hxg) & Hdeny).
  assert (same_ignoring_case (encode command) (to_ascii_uppercase command)) as E.
  { apply uppercase_ascii_inv; [done|]. apply Forall_forall. intros c Hc.
    apply list_elem_of_In in Hc. apply (proj1 (forallb_forall _ _) Hascii) in Hc. lia. }
  unfold redis_command_is_denied. rewrite fmap_cons. cbn [redis_bytes_are_denied].
  rewrite (same_ignoring_case_length _ _ E), !E, Hbl, Hx, Hxg.
  cbn [orb]. unfold EXACT_DENY in *. cbn [existsb] in *. by rewrite !E.
Qed.

(** The classifier compares against literals with single spaces: a locking
    read whose clause is written on its own line counts as a read. *)
Example locking_read_on_own_line :
  classify_execution_kind LMySql (MySqlText (lit "SELECT 1 FOR UPDATE")) = ExecuteMutation /\
  classify_execution_kind LMySql (MySqlText (lit "SELECT 1" ++ [10%N] ++ lit "FOR UPDATE"))
  = ExecuteRead.
Proof. by vm_compute. Qed.

(** ** Concrete instances *)

Lemma redis_policy_ignores_case_witness :
  redis_command_is_denied [lit "blpop"; lit "q"] = redis_command_is_denied [lit "BLPOP"; lit "Q"].
Proof.
  assert (Forall2 same_ignoring_case [lit "blpop"; lit "q"] [lit "BLPOP"; lit "Q"]) as H
    by (repeat constructor).
  exact (proj1 (redis_policy_ignores_case _ _ H)).
Defined.

Definition sample_xread : list bytes :=
  [lit "COUNT"; lit "1"; lit "block"; lit "0"; lit "STREAMS"].

Lemma stream_read_denied_witness : redis_argv_is_denied (lit "xread" :: sample_xread) = true.
Proof.
  apply (proj2 (stream_read_denied (lit "xread") sample_xread (or_introl eq_refl))).
  exists 2, (lit "block"). split_and!; [reflexivity|reflexivity|].
  intros [|[|j]] b Hj Hb; [| |lia]; injection Hb as <-; vm_compute; discriminate.
Defined.

Lemma reads_are_never_denied_witness :
  redis_command_is_denied [lit "hgetall"; lit "key"] = false.
Proof. apply reads_are_never_denied. vm_compute. reflexivity. Defined.
