(* ===== verification/Retention.v ===== *)
(** * Result retention (src/src/model.rs, [ResultSnapshot::retain])

    The bounded conversion of a decoded driver result into the snapshot the
    program keeps: row, column, cell and byte limits, previews of oversized
    cells, the notices that report what was dropped. *)

From S2P Require Import Prelude RustStr Model.

Inductive ResultRetentionPolicy :=
| RetainMySql (requested_rows : N)
| RetainRedis (requested_cells : N).

Definition row_limit (policy : ResultRetentionPolicy) : N :=
  match policy with
  | RetainMySql requested_rows =>
      if (requested_rows <? MAX_RESULT_ROWS)%N then requested_rows else MAX_RESULT_ROWS
  | RetainRedis _ => MAX_RESULT_ROWS
  end.

Definition cell_limit (policy : ResultRetentionPolicy) : N :=
  match policy with
  | RetainMySql _ => USIZE_MAX
  | RetainRedis requested_cells =>
      if (requested_cells <? MAX_REDIS_CELLS)%N then requested_cells else MAX_REDIS_CELLS
  end.

Definition cell_bytes (policy : ResultRetentionPolicy) : N :=
  match policy with RetainMySql _ => MAX_RESULT_CELL_BYTES | RetainRedis _ => MAX_REDIS_CELL_BYTES end.

Definition max_depth (policy : ResultRetentionPolicy) : option N :=
  match policy with RetainMySql _ => None | RetainRedis _ => Some MAX_REDIS_DEPTH end.

Definition transient_allocation (policy : ResultRetentionPolicy) : TransientAllocationQualification :=
  match policy with RetainMySql _ => MySqlCurrentRowOrCell | RetainRedis _ => RedisWholeRespFrame end.

Definition push_result_notice (notices : list ResultNotice) (notice : ResultNotice) :
    list ResultNotice :=
  if (N.of_nat (length notices) <? MAX_RESULT_NOTICES)%N && negb (bool_decide (notice ∈ notices))
  then notices ++ [notice] else notices.

(** [while boundary > 0 && !value.is_char_boundary(boundary) { boundary -= 1 }] *)
Fixpoint floor_char_boundary (value : str) (boundary : nat) : nat :=
  match boundary with
  | 0 => 0
  | S b => if is_char_boundary value boundary then boundary else floor_char_boundary value b
  end.

(** [String::truncate] at a boundary keeps the characters before it. *)
Definition truncate_utf8 (value : str) (cap : N) : str :=
  if (str_len value <=? cap)%N then value
  else default value (fst <$> split_at_byte value (floor_char_boundary value (N.to_nat cap))).

(** The value cut at [max_depth], and whether anything was removed. *)
Fixpoint truncate_json_depth (value : json) (depth max_depth : N) : json * bool :=
  match value with
  | JArray values =>
      if (max_depth <=? depth)%N then (JArray [], negb (bool_decide (length values = 0)))
      else
        let cut := (fun v => truncate_json_depth v (depth + 1)%N max_depth) <$> values in
        (JArray (fst <$> cut), existsb snd cut)
  | JObject entries =>
      if (max_depth <=? depth)%N then (JObject [], negb (bool_decide (length entries = 0)))
      else
        let cut := (fun '(k, v) => (k, truncate_json_depth v (depth + 1)%N max_depth)) <$> entries in
        (JObject ((fun '(k, v) => (k, fst v)) <$> cut), existsb (fun e => e.2.2) cut)
  | _ => (value, false)
  end.

Record RetainedCell := {
  rc_cell : Cell;
  rc_retained_bytes : N;
  rc_truncation : option CellTruncation;
  rc_depth_truncated : bool;
}.

Definition retain_text_cell (preview : str) (declared_original_len : option N) (cap : N)
    (row_index column_index : nat) : RetainedCell :=
  let original_len := N.max (default (str_len preview) declared_original_len) (str_len preview) in
  let preview := truncate_utf8 preview cap in
  let retained_bytes := str_len preview in
  let truncated := bool_decide (is_Some declared_original_len) || (retained_bytes <? original_len)%N in
  {| rc_cell := if truncated then CTextPreview preview original_len else CText preview;
     rc_retained_bytes := retained_bytes;
     rc_truncation :=
       if truncated then
         Some {| ct_row_index := row_index; ct_column_index := column_index; ct_kind := TkText;
                 ct_retained_bytes := retained_bytes; ct_original_len := Some original_len;
                 ct_truncated := true |}
       else None;
     rc_depth_truncated := false |}.

Definition retain_complete_string_cell (value : str) (cap : N) (wrap : str -> Cell) :
    option RetainedCell :=
  if (cap <? str_len value)%N then None
  else Some {| rc_cell := wrap value; rc_retained_bytes := str_len value;
               rc_truncation := None; rc_depth_truncated := false |}.

(** Row-loop state: the mutable locals of [retain]. *)
Record RetainState := {
  rt_rows : list (list Cell);
  rt_bytes : N;
  rt_cells : N;
  rt_truncated : bool;
  rt_notices : list ResultNotice;
  rt_truncations : list CellTruncation;
}.

(** Cell-loop state: the same, the row being built and its two flags. *)
Record RowState := {
  rw_row : list Cell;
  rw_bytes : N;
  rw_cells : N;
  rw_truncated : bool;
  rw_notices : list ResultNotice;
  rw_truncations : list CellTruncation;
  rw_complete : bool;
  rw_drop : bool;
}.

Definition push_notices (notices : list ResultNotice) (l : list (bool * ResultNotice)) :
    list ResultNotice :=
  foldl (fun ns '(b, n) => if (b : bool) then push_result_notice ns n else ns) notices l.

Section serde.
(** [f64::to_string] and [serde_json::to_string] (whose UTF-8 bytes are what
    [serde_json::to_vec] returns). *)
Context (f64_to_string : f64 -> str) (json_to_string : json -> str).

Definition scalar_retained_bytes (cell : Cell) : N :=
  match cell with
  | CNull => 4
  | CBool _ => 5
  | CInt value => str_len (display_Z value)
  | CUInt value => str_len (display_N value)
  | CFloat value => str_len (f64_to_string value)
  | CDecimal value | CText value | CDateTime value => str_len value
  | CTextPreview preview _ | CJsonPreview preview _ => str_len preview
  | CBytes retained _ => N.of_nat (length retained)
  | CJson value => str_len (json_to_string value)
  end.

Definition truncation_if (truncated : bool) (row_index column_index : nat)
    (kind : CellTruncationKind) (retained_bytes original_len : N) : option CellTruncation :=
  if truncated then
    Some {| ct_row_index := row_index; ct_column_index := column_index; ct_kind := kind;
            ct_retained_bytes := retained_bytes; ct_original_len := Some original_len;
            ct_truncated := true |}
  else None.

Definition retain_cell (cell : Cell) (cap : N) (max_depth : option N)
    (row_index column_index : nat) : option RetainedCell :=
  match cell with
  | CText value => Some (retain_text_cell value None cap row_index column_index)
  | CTextPreview preview original_len =>
      Some (retain_text_cell preview (Some original_len) cap row_index column_index)
  | CDecimal value => retain_complete_string_cell value cap CDecimal
  | CDateTime value => retain_complete_string_cell value cap CDateTime
  | CBytes retained original_len =>
      let original_len := N.max original_len (N.of_nat (length retained)) in
      let retained := take (N.to_nat (N.min cap (N.of_nat (length retained)))) retained in
      let retained_bytes := N.of_nat (length retained) in
      let truncated := (retained_bytes <? original_len)%N in
      Some {| rc_cell := CBytes retained original_len; rc_retained_bytes := retained_bytes;
              rc_truncation := truncation_if truncated row_index column_index TkBytes
                                 retained_bytes original_len;
              rc_depth_truncated := false |}
  | CJson value =>
      let original_len := str_len (json_to_string value) in
      let '(value, depth_truncated) :=
        match max_depth with
        | Some depth => truncate_json_depth value 1 depth
        | None => (value, false)
        end in
      let retained := json_to_string value in
      let encoded_len := str_len retained in
      let retained := truncate_utf8 retained cap in
      let byte_truncated := (str_len retained <? encoded_len)%N in
      let truncated := depth_truncated || byte_truncated in
      let retained_bytes := str_len retained in
      Some {| rc_cell := if truncated then CJsonPreview retained original_len else CJson value;
              rc_retained_bytes := retained_bytes;
              rc_truncation := truncation_if truncated row_index column_index TkJson
                                 retained_bytes original_len;
              rc_depth_truncated := depth_truncated |}
  | CJsonPreview preview original_len =>
      let original_len := N.max original_len (str_len preview) in
      let preview := truncate_utf8 preview cap in
      let retained_bytes := str_len preview in
      Some {| rc_cell := CJsonPreview preview original_len; rc_retained_bytes := retained_bytes;
              rc_truncation := truncation_if true row_index column_index TkJson
                                 retained_bytes original_len;
              rc_depth_truncated := false |}
  | scalar =>
      Some {| rc_cell := scalar; rc_retained_bytes := scalar_retained_bytes scalar;
              rc_truncation := None; rc_depth_truncated := false |}
  end.

(** The column loop: the retained columns, their bytes, the notices. *)
Fixpoint retain_columns (source : list Column) (columns : list Column) (retained_bytes : N)
    (notices : list ResultNotice) : list Column * N * list ResultNotice :=
  match source with
  | [] => (columns, retained_bytes, notices)
  | column :: source =>
      let column_bytes := saturating_add (str_len (col_name column)) (str_len (col_type_name column)) in
      if (MAX_RESULT_CELL_BYTES <? column_bytes)%N
         || (MAX_RESULT_BYTES <? saturating_add retained_bytes column_bytes)%N
      then (columns, retained_bytes, push_result_notice notices SnapshotByteLimitReached)
      else retain_columns source (columns ++ [column]) (retained_bytes + column_bytes)%N notices
  end.

(** [for (column_index, cell) in source_row.into_iter().take(allowed_cells)] *)
Fixpoint retain_cells (policy : ResultRetentionPolicy) (row_index column_index : nat)
    (source : list Cell) (w : RowState) : RowState :=
  let stop drop :=
    {| rw_row := rw_row w; rw_bytes := rw_bytes w; rw_cells := rw_cells w;
       rw_truncated := rw_truncated w; rw_notices := rw_notices w;
       rw_truncations := rw_truncations w; rw_complete := false;
       rw_drop := drop || rw_drop w |} in
  match source with
  | [] => w
  | cell :: source =>
      let remaining := saturating_sub MAX_RESULT_BYTES (rw_bytes w) in
      if (remaining =? 0)%N then stop false
      else
        match retain_cell cell (N.min (cell_bytes policy) remaining)
                (max_depth policy) row_index column_index with
        | None => stop true
        | Some retained =>
            if (remaining <? rc_retained_bytes retained)%N then stop false
            else
              retain_cells policy row_index (S column_index) source
                {| rw_row := rw_row w ++ [rc_cell retained];
                   rw_bytes := saturating_add (rw_bytes w) (rc_retained_bytes retained);
                   rw_cells := (rw_cells w + 1)%N;
                   rw_truncated := rw_truncated w
                                   || bool_decide (is_Some (rc_truncation retained));
                   rw_notices := push_notices (rw_notices w)
                     [(rc_depth_truncated retained, RedisDepthLimitReached);
                      (bool_decide (is_Some (rc_truncation retained)), CellPreviewTruncated)];
                   rw_truncations := rw_truncations w ++ option_list (rc_truncation retained);
                   rw_complete := rw_complete w;
                   rw_drop := rw_drop w |}
        end
  end.

(** One iteration of the row loop: the next state and whether to [break]. *)
Definition retain_row (policy : ResultRetentionPolicy) (columns : list Column)
    (source_row : list Cell) (s : RetainState) : RetainState * bool :=
  let full := (MAX_RESULT_BYTES <=? rt_bytes s)%N in
  let cells_full := (cell_limit policy <=? rt_cells s)%N in
  if full || cells_full then
    ({| rt_rows := rt_rows s; rt_bytes := rt_bytes s; rt_cells := rt_cells s;
        rt_truncated := true;
        rt_notices := push_notices (rt_notices s)
          [(full, SnapshotByteLimitReached); (cells_full, RedisCellLimitReached)];
        rt_truncations := rt_truncations s |}, true)
  else
    let allowed_columns := N.min (N.of_nat (length columns)) (N.of_nat (length source_row)) in
    let allowed_cells := N.min allowed_columns (saturating_sub (cell_limit policy) (rt_cells s)) in
    let w :=
      retain_cells policy (length (rt_rows s)) 0 (take (N.to_nat allowed_cells) source_row)
        {| rw_row := []; rw_bytes := rt_bytes s; rw_cells := rt_cells s;
           rw_truncated := rt_truncated s; rw_notices := rt_notices s;
           rw_truncations := rt_truncations s; rw_complete := true; rw_drop := false |} in
    let row_complete :=
      if (allowed_cells <? N.of_nat (length source_row))%N
         || (allowed_cells <? N.of_nat (length columns))%N
      then false else rw_complete w in
    let truncated := if row_complete then rw_truncated w else true in
    if rw_drop w
       || (negb (length (rw_row w) =? length columns) && negb (length columns =? 0))
    then
      ({| rt_rows := rt_rows s; rt_bytes := rt_bytes s;
          rt_cells := saturating_sub (rw_cells w) (N.of_nat (length (rw_row w)));
          rt_truncated := truncated;
          rt_notices := push_result_notice (take (length (rt_notices s)) (rw_notices w))
                          SnapshotByteLimitReached;
          rt_truncations := take (length (rt_truncations s)) (rw_truncations w) |}, true)
    else
      ({| rt_rows := rt_rows s ++ [rw_row w]; rt_bytes := rw_bytes w; rt_cells := rw_cells w;
          rt_truncated := truncated; rt_notices := rw_notices w;
          rt_truncations := rw_truncations w |}, false).

Fixpoint retain_rows (policy : ResultRetentionPolicy) (columns : list Column)
    (source : list (list Cell)) (s : RetainState) : RetainState :=
  match source with
  | [] => s
  | source_row :: source =>
      let '(s, stop) := retain_row policy columns source_row s in
      if stop : bool then s else retain_rows policy columns source s
  end.

Definition retain (result : QueryResult) (provenance : ResultProvenance)
    (policy : ResultRetentionPolicy) : ResultSnapshot :=
  let notices := push_notices []
    [(true, transient_notice (transient_allocation policy));
     (qr_truncated result, DriverReportedTruncation);
     (qr_backend_notices_present result, BackendNoticesDiscarded)] in
  let source_columns := qr_columns result in
  let '(columns, retained_bytes, notices) :=
    retain_columns (take (N.to_nat MAX_RESULT_COLUMNS) source_columns) [] 0 notices in
  let columns_cut := length columns <? length source_columns in
  let source_rows := qr_rows result in
  let s :=
    retain_rows policy columns (take (N.to_nat (row_limit policy)) source_rows)
      {| rt_rows := []; rt_bytes := retained_bytes; rt_cells := 0;
         rt_truncated := qr_truncated result || columns_cut;
         rt_notices := push_notices notices [(columns_cut, ColumnLimitReached)];
         rt_truncations := [] |} in
  let rows_cut := length (rt_rows s) <? length source_rows in
  let notices := push_notices (rt_notices s)
    [(rows_cut, RowLimitReached);
     ((cell_limit policy <=? rt_cells s)%N && rows_cut, RedisCellLimitReached)] in
  {| sn_provenance := provenance;
     sn_columns := columns;
     sn_rows := rt_rows s;
     sn_affected_rows := qr_affected_rows result;
     sn_last_insert_id := qr_last_insert_id result;
     sn_truncated := rt_truncated s || rows_cut;
     sn_notices := take (N.to_nat MAX_RESULT_NOTICES) notices;
     sn_retained_bytes := rt_bytes s;
     sn_transient_allocation := transient_allocation policy;
     sn_cell_truncations := rt_truncations s |}.
End serde.

(** ** Truncation of text *)

Lemma floor_char_boundary_le value n : floor_char_boundary value n <= n.
Proof. induction n as [|n IH]; cbn; [done|]. case_match; lia. Qed.

Lemma floor_char_boundary_boundary value n :
  is_Some (split_at_byte value (floor_char_boundary value n)).
Proof.
  induction n as [|n IH]; cbn; [rewrite split_at_byte_0; eauto|].
  unfold is_char_boundary. case_bool_decide; [done|]. exact IH.
Qed.

Lemma floor_char_boundary_max value n m :
  m <= n -> is_Some (split_at_byte value m) -> m <= floor_char_boundary value n.
Proof.
  induction n as [|n IH]; intros Hm Hs; cbn; [lia|].
  unfold is_char_boundary. case_bool_decide as Hb; [lia|].
  destruct (decide (m = S n)) as [->|]; [done|]. apply IH; [lia|done].
Qed.

(** [truncate_utf8] keeps whole characters: the result is the longest prefix
    of the text that takes at most [cap] bytes. *)
Theorem truncate_utf8_longest_prefix value cap :
  exists rest, value = truncate_utf8 value cap ++ rest /\
    (str_len (truncate_utf8 value cap) <= cap)%N /\
    forall p q, value = p ++ q -> (str_len p <= cap)%N ->
                byte_len p <= byte_len (truncate_utf8 value cap).
Proof.
  unfold truncate_utf8. destruct (str_len value <=? cap)%N eqn:Hcap.
  - exists []. rewrite (right_id_L [] (++)). split_and!; [done|lia|].
    intros p q -> _. rewrite byte_len_app. lia.
  - destruct (floor_char_boundary_boundary value (N.to_nat cap)) as [[a b] Hs].
    rewrite Hs. cbn. pose proof Hs as [E Hlen]%split_at_byte_Some. exists b.
    pose proof (floor_char_boundary_le value (N.to_nat cap)).
    split_and!; [done|unfold str_len; lia|]. intros p q Hpq Hp. rewrite <- Hlen.
    apply floor_char_boundary_max; [unfold str_len in Hp; lia|].
    rewrite Hpq, split_at_byte_app. eauto.
Qed.

Lemma truncate_utf8_le value cap : (str_len (truncate_utf8 value cap) <= cap)%N.
Proof.
  unfold truncate_utf8. destruct (str_len value <=? cap)%N eqn:Hcap; [lia|].
  destruct (floor_char_boundary_boundary value (N.to_nat cap)) as [[a b] Hs].
  rewrite Hs. cbn. apply split_at_byte_Some in Hs as [_ Hlen].
  pose proof (floor_char_boundary_le value (N.to_nat cap)). unfold str_len. lia.
Qed.

Lemma truncate_utf8_full value cap :
  (str_len value <= str_len (truncate_utf8 value cap))%N -> truncate_utf8 value cap = value.
Proof.
  unfold truncate_utf8. destruct (str_len value <=? cap)%N eqn:Hcap; [done|].
  destruct (floor_char_boundary_boundary value (N.to_nat cap)) as [[a b] Hs].
  rewrite Hs. cbn. apply split_at_byte_Some in Hs as [E _].
  intros Hle. rewrite E in Hle. unfold str_len in Hle. rewrite byte_len_app in Hle.
  assert (b = []) as -> by (apply byte_len_0; lia). by rewrite E, (right_id_L [] (++)).
Qed.

(** ** JSON depth *)

(** Levels of arrays and objects. *)
Fixpoint json_depth (value : json) : N :=
  match value with
  | JArray values => (1 + foldr N.max 0 (json_depth <$> values))%N
  | JObject entries => (1 + foldr N.max 0 ((fun '(_, v) => json_depth v) <$> entries))%N
  | _ => 0%N
  end.

Lemma foldr_max_le (l : list N) m : Forall (fun x => x <= m)%N l -> (foldr N.max 0 l <= m)%N.
Proof. induction 1; cbn; lia. Qed.

Lemma truncate_json_depth_bound value depth max :
  (depth <= max)%N ->
  (json_depth ((truncate_json_depth value depth max).1) <= max - depth + 1)%N.
Proof.
  revert depth. induction value as [| | | |values IH|entries IH] using json_nested_ind;
    intros depth Hd; cbn; try lia; destruct (max <=? depth)%N eqn:Hm; cbn; try lia.
  - assert (foldr N.max 0 (json_depth <$> (fst <$> ((fun v => truncate_json_depth v (depth + 1) max)
              <$> values))) <= max - depth)%N; [|lia].
    apply foldr_max_le. rewrite !Forall_fmap. eapply Forall_impl; [exact IH|].
    intros v Hv. cbn. specialize (Hv (depth + 1)%N). lia.
  - match goal with |- (1 + ?x <= _)%N => assert (x <= max - depth)%N; [|lia] end.
    apply foldr_max_le. rewrite !Forall_fmap. eapply Forall_impl; [exact IH|].
    intros [k v] Hv. cbn in *. specialize (Hv (depth + 1)%N). lia.
Qed.

Lemma existsb_false_Forall {A} (p : A -> bool) l : existsb p l = false -> Forall (fun x => p x = false) l.
Proof. intros H. apply Forall_forall. by apply existsb_false_elem_of. Qed.

Lemma truncate_json_depth_same value depth max :
  (truncate_json_depth value depth max).2 = false ->
  (truncate_json_depth value depth max).1 = value.
Proof.
  revert depth. induction value as [| | | |values IH|entries IH] using json_nested_ind;
    intros depth; cbn; try done; destruct (max <=? depth)%N; cbn.
  - by destruct values.
  - intros H%existsb_false_Forall. f_equal. rewrite Forall_fmap in H.
    induction IH as [|v values Hv _ IHl]; [done|].
    apply Forall_cons in H as [Hh Ht]. cbn. rewrite Hv by done. by rewrite IHl.
  - by destruct entries.
  - intros H%existsb_false_Forall. f_equal. rewrite Forall_fmap in H.
    induction IH as [|[k v] entries Hv _ IHl]; [done|].
    apply Forall_cons in H as [Hh Ht]. cbn in *. rewrite Hv by done. by rewrite IHl.
Qed.

(** ** One cell *)

(** Byte cells record at least the length they hold. *)
Definition cell_ok (cell : Cell) : bool :=
  match cell with CBytes b n => N.of_nat (length b) <=? n | _ => true end%N.

Section cells.
Context (f64_to_string : f64 -> str) (json_to_string : json -> str).
Local Abbreviation retain_cell := (retain_cell f64_to_string json_to_string).
Local Abbreviation size := (scalar_retained_bytes f64_to_string json_to_string).

Record cell_retained (cell : Cell) (cap : N) (r c : nat) (rc : RetainedCell) : Prop := {
  cr_size : rc_retained_bytes rc = size (rc_cell rc);
  cr_lossless : rc_truncation rc = None -> cell_ok cell = true ->
                rc_cell rc = cell /\ rc_depth_truncated rc = false;
  cr_metadata : forall t, rc_truncation rc = Some t ->
    ct_row_index t = r /\ ct_column_index t = c /\
    ct_retained_bytes t = size (rc_cell rc) /\ ct_truncated t = true;
}.

Lemma truncation_if_Some b r c k n o t :
  truncation_if b r c k n o = Some t ->
  ct_row_index t = r /\ ct_column_index t = c /\ ct_retained_bytes t = n /\ ct_truncated t = true.
Proof. destruct b; [|done]. by intros [= <-]. Qed.

Lemma truncation_if_None b r c k n o : truncation_if b r c k n o = None -> b = false.
Proof. by destruct b. Qed.

Lemma retain_text_cell_retained preview declared cap r c cell :
  cell = match declared with None => CText preview | Some n => CTextPreview preview n end ->
  cell_retained cell cap r c (retain_text_cell preview declared cap r c).
Proof.
  intros ->. unfold retain_text_cell. set (n := N.max _ _).
  destruct declared as [d|]; cbn [is_Some orb].
  - rewrite bool_decide_true by eauto. cbn [orb]. split; cbn; [done|done|].
    by intros t [= <-].
  - rewrite bool_decide_false by (by intros [? ?]). cbn [orb].
    destruct (str_len (truncate_utf8 preview cap) <? n)%N eqn:Hlt; split; cbn; try done.
    + by intros t [= <-].
    + intros _ _. split; [|done]. f_equal. apply truncate_utf8_full. unfold n in Hlt. cbn in Hlt. lia.
Qed.

Lemma retain_cell_retained cell cap md r c rc :
  retain_cell cell cap md r c = Some rc -> cell_retained cell cap r c rc.
Proof.
  destruct cell; cbn [Retention.retain_cell]; try (intros [= <-]; by split).
  - unfold retain_complete_string_cell. case_match; [done|]. intros [= <-]. by split.
  - intros [= <-]. by apply retain_text_cell_retained.
  - intros [= <-]. by apply retain_text_cell_retained.
  - intros [= <-]. split; cbn; [done| |by intros t ?%truncation_if_Some].
    intros Hn%truncation_if_None Hok. split; [|done].
    rewrite length_take in Hn. f_equal; [|lia]. apply take_ge. lia.
  - destruct (match md with Some d => _ | None => _ end) as [value dt] eqn:Hcut.
    intros [= <-]. split; cbn [rc_cell rc_retained_bytes rc_truncation rc_depth_truncated].
    + destruct (dt || _) eqn:Ht; [done|]. apply orb_false_iff in Ht as [_ Ht]. cbn.
      f_equal. apply truncate_utf8_full. lia.
    + intros Hn%truncation_if_None _. rewrite Hn. apply orb_false_iff in Hn as [-> Hn].
      split; [|done]. f_equal. destruct md as [d|]; [|by injection Hcut as <-].
      pose proof (truncate_json_depth_same j 1 d) as Hs. rewrite Hcut in Hs. by apply Hs.
    + intros t Ht. pose proof (truncation_if_Some _ _ _ _ _ _ _ Ht) as (? & ? & -> & ?).
      split_and!; try done. destruct (dt || _) eqn:E; done.
  - intros [= <-]. split; cbn; [done|done|]. by intros t [= <-].
  - unfold retain_complete_string_cell. case_match; [done|]. intros [= <-]. by split.
Qed.

(** ** The row and cell loops *)

Definition row_bytes (row : list Cell) : N := sum_N (size <$> row).
Definition rows_bytes (rows : list (list Cell)) : N := sum_N (row_bytes <$> rows).
Definition rows_cells (rows : list (list Cell)) : N := sum_N (N.of_nat ∘ length <$> rows).

Lemma row_bytes_app a b : row_bytes (a ++ b) = (row_bytes a + row_bytes b)%N.
Proof. unfold row_bytes. by rewrite fmap_app, sum_N_app. Qed.

Lemma rows_bytes_snoc rows row : rows_bytes (rows ++ [row]) = (rows_bytes rows + row_bytes row)%N.
Proof. unfold rows_bytes. rewrite fmap_app, sum_N_app. cbn. lia. Qed.

Lemma rows_cells_snoc rows row :
  rows_cells (rows ++ [row]) = (rows_cells rows + N.of_nat (length row))%N.
Proof. unfold rows_cells. rewrite fmap_app, sum_N_app. cbn. lia. Qed.

Lemma push_result_notice_extends ns n :
  exists ext, push_result_notice ns n = ns ++ ext /\ (NoDup ns -> NoDup (ns ++ ext)).
Proof.
  unfold push_result_notice. destruct (_ && _) eqn:E.
  - exists [n]. split; [done|]. intros Hnd. apply NoDup_app. split_and!; [done| |apply NoDup_singleton].
    apply andb_prop in E as [_ E]. rewrite negb_true_iff, bool_decide_eq_false in E.
    intros x Hx ->%list_elem_of_singleton. done.
  - exists []. rewrite (right_id_L [] (++)). done.
Qed.

Lemma push_notices_extends l ns :
  exists ext, push_notices ns l = ns ++ ext /\ (NoDup ns -> NoDup (ns ++ ext)).
Proof.
  revert ns. induction l as [|[b n] l IH]; intros ns.
  { exists []. by rewrite (right_id_L [] (++)). }
  change (push_notices ns ((b, n) :: l))
    with (push_notices (if b then push_result_notice ns n else ns) l).
  destruct b; [|apply IH].
  destruct (push_result_notice_extends ns n) as (e1 & -> & H1).
  destruct (IH (ns ++ e1)) as (e2 & -> & H2).
  exists (e1 ++ e2). rewrite (assoc (++)). split; [done|auto].
Qed.

(** A truncation entry describes the cell it points at. *)
Definition describes (rows : list (list Cell)) (t : CellTruncation) : Prop :=
  ct_truncated t = true /\
  exists row cell, rows !! ct_row_index t = Some row /\ row !! ct_column_index t = Some cell /\
                   ct_retained_bytes t = size cell.

Lemma describes_app rows rows' t : describes rows t -> describes (rows ++ rows') t.
Proof.
  intros (Ht & row & cell & Hr & Hc & Hb). split; [done|]. exists row, cell.
  split_and!; [by apply lookup_app_l_Some|done|done].
Qed.

Record cells_loop (r c : nat) (source : list Cell) (w w' : RowState)
    (cells : list Cell) (trs : list CellTruncation) (nts : list ResultNotice) : Prop := {
  cl_row : rw_row w' = rw_row w ++ cells;
  cl_length : length cells <= length source;
  cl_bytes : rw_bytes w' = (rw_bytes w + row_bytes cells)%N;
  cl_bound : (rw_bytes w' <= MAX_RESULT_BYTES)%N;
  cl_cells : rw_cells w' = (rw_cells w + N.of_nat (length cells))%N;
  cl_notices : rw_notices w' = rw_notices w ++ nts;
  cl_nodup : NoDup (rw_notices w) -> NoDup (rw_notices w ++ nts);
  cl_truncations : rw_truncations w' = rw_truncations w ++ trs;
  cl_describes : Forall (fun t => ct_row_index t = r /\ ct_truncated t = true /\
      exists k cell, ct_column_index t = c + k /\ cells !! k = Some cell /\
                     ct_retained_bytes t = size cell) trs;
  cl_complete : rw_complete w' = true -> rw_complete w = true /\ length cells = length source;
  cl_drop : rw_drop w' = true -> rw_drop w = true \/ rw_complete w' = false;
  cl_lossless : rw_truncated w' = false -> rw_truncated w = false /\
    (rw_complete w' = true -> Forall (fun x => cell_ok x = true) source -> cells = source);
}.

Lemma cells_loop_stop r c source w w' :
  (rw_bytes w <= MAX_RESULT_BYTES)%N ->
  rw_row w' = rw_row w -> rw_bytes w' = rw_bytes w -> rw_cells w' = rw_cells w ->
  rw_truncated w' = rw_truncated w -> rw_notices w' = rw_notices w ->
  rw_truncations w' = rw_truncations w ->
  rw_complete w' = false \/ source = [] /\ rw_complete w' = rw_complete w /\ rw_drop w' = rw_drop w ->
  cells_loop r c source w w' [] [] [].
Proof.
  intros Hb Er Eb Ec Et En Es Hc. split; rewrite ?(right_id_L [] (++)); try done.
  - cbn. lia.
  - rewrite Eb. cbn. lia.
  - by rewrite Eb.
  - cbn. lia.
  - intros Hw. destruct Hc as [Hc|(-> & Hc & _)]; [congruence|]. split; [congruence|done].
  - intros Hw. destruct Hc as [Hc|(-> & _ & Hc)]; [by right|left; congruence].
  - intros Hw. split; [congruence|]. intros Hw'. destruct Hc as [Hc|(-> & _ & Hc)]; [congruence|done].
Qed.

Lemma retain_cells_loop policy r c source w :
  (rw_bytes w <= MAX_RESULT_BYTES)%N ->
  exists cells trs nts, cells_loop r c source w
    (retain_cells f64_to_string json_to_string policy r c source w) cells trs nts.
Proof.
  revert c w. induction source as [|cell source IH]; intros c w Hb; cbn [retain_cells].
  { exists [], [], []. apply cells_loop_stop; auto. }
  destruct (saturating_sub MAX_RESULT_BYTES (rw_bytes w) =? 0)%N eqn:Hrem.
  { exists [], [], []. apply cells_loop_stop; auto. }
  destruct (Retention.retain_cell _ _ _ _ _ _ _) as [rc|] eqn:Hrc.
  2: { exists [], [], []. apply cells_loop_stop; auto. }
  destruct (saturating_sub MAX_RESULT_BYTES (rw_bytes w) <? rc_retained_bytes rc)%N eqn:Hfit.
  { exists [], [], []. apply cells_loop_stop; auto. }
  apply retain_cell_retained in Hrc as [Hsize Hloss Hmeta]. unfold saturating_sub in *.
  assert (saturating_add (rw_bytes w) (rc_retained_bytes rc)
          = rw_bytes w + rc_retained_bytes rc)%N as Hadd.
  { apply saturating_add_exact. unfold MAX_RESULT_BYTES, USIZE_MAX in *. lia. }
  rewrite Hadd. match goal with |- context [retain_cells _ _ _ _ _ _ ?x] => set (w1 := x) end.
  destruct (IH (S c) w1) as (cells & trs & nts & H); [cbn; lia|]. clear IH.
  destruct (push_notices_extends [(rc_depth_truncated rc, RedisDepthLimitReached);
    (bool_decide (is_Some (rc_truncation rc)), CellPreviewTruncated)] (rw_notices w))
    as (ext & Hext & Hnd).
  destruct H as [H1 H2 H3 H4 H5 H6 H7 H8 H9 H10 H11 H12].
  exists (rc_cell rc :: cells), (option_list (rc_truncation rc) ++ trs), (ext ++ nts).
  unfold w1 in *. cbn [rw_row rw_bytes rw_cells rw_truncated rw_notices rw_truncations
    rw_complete rw_drop] in *. rewrite Hext in H7. split; rewrite ?(assoc (++)).
  - by rewrite H1, <- (assoc (++)).
  - cbn. lia.
  - rewrite H3, Hsize. change (row_bytes (?x :: ?l)) with (size x + row_bytes l)%N. lia.
  - done.
  - rewrite H5. cbn. lia.
  - by rewrite <- Hext.
  - auto.
  - by rewrite H8.
  - apply Forall_app. split.
    + destruct (rc_truncation rc) as [t|]; [|constructor]. repeat constructor;
        destruct (Hmeta t eq_refl) as (E1 & E2 & E3 & E4); [done|done|].
      exists 0, (rc_cell rc). split_and!; [lia|done|done].
    + eapply Forall_impl; [exact H9|]. intros t (E1 & E2 & k & x & E3 & E4 & E5).
      split_and!; [done|done|]. exists (S k), x. split_and!; [lia|done|done].
  - intros Hw. apply H10 in Hw as [? ?]. split; [done|]. cbn. lia.
  - done.
  - intros Hw. apply H12 in Hw as [Ht Hc]. apply orb_false_iff in Ht as [Ht Hn].
    split; [done|]. intros Hw [Hok Hall]%Forall_cons.
    assert (rc_truncation rc = None) as Hnone.
    { destruct (rc_truncation rc); [|done]. by rewrite bool_decide_true in Hn by eauto. }
    destruct (Hloss Hnone Hok) as [-> _]. f_equal. by apply Hc.
Qed.

Definition columns_bytes (columns : list Column) : N :=
  sum_N ((fun c => str_len (col_name c) + str_len (col_type_name c))%N <$> columns).

(** What holds of the row loop's state after each iteration. *)
Record state_ok (policy : ResultRetentionPolicy) (columns : list Column) (s : RetainState) : Prop := {
  so_bytes : rt_bytes s = (columns_bytes columns + rows_bytes (rt_rows s))%N;
  so_bound : (rt_bytes s <= MAX_RESULT_BYTES)%N;
  so_cells : rt_cells s = rows_cells (rt_rows s);
  so_limit : (rt_cells s <= cell_limit policy)%N;
  so_width : Forall (fun row => length row = length columns) (rt_rows s);
  so_nodup : NoDup (rt_notices s);
  so_describes : Forall (describes (rt_rows s)) (rt_truncations s);
}.

Local Abbreviation retain_row := (retain_row f64_to_string json_to_string).
Local Abbreviation retain_rows := (retain_rows f64_to_string json_to_string).

Lemma retain_row_spec policy columns source s :
  state_ok policy columns s ->
  let '(s', stop) := retain_row policy columns source s in
  state_ok policy columns s' /\
  (length (rt_rows s') <= S (length (rt_rows s)))%nat /\
  (rt_truncated s' = false -> rt_truncated s = false /\ stop = false /\
     (Forall (fun x => cell_ok x = true) source -> rt_rows s' = rt_rows s ++ [source])).
Proof.
  intros [Hb Hm Hc Hl Hw Hn Hd]. unfold Retention.retain_row.
  destruct ((MAX_RESULT_BYTES <=? rt_bytes s)%N || (cell_limit policy <=? rt_cells s)%N) eqn:Hfull.
  { destruct (push_notices_extends [((MAX_RESULT_BYTES <=? rt_bytes s)%N, SnapshotByteLimitReached);
      ((cell_limit policy <=? rt_cells s)%N, RedisCellLimitReached)] (rt_notices s)) as (e & -> & He).
    split_and!; [|cbn; lia|done]. split; cbn; auto. }
  apply orb_false_iff in Hfull as [Hfull Hcells].
  set (allowed := N.min _ _).
  match goal with |- context [retain_cells _ _ _ _ _ ?src ?x] =>
    set (w0 := x); set (taken := src) end.
  destruct (retain_cells_loop policy (length (rt_rows s)) 0 taken w0 Hm) as (cells & trs & nts & H).
  set (w := retain_cells _ _ _ _ _ _ _) in *.
  destruct H as [H1 H2 H3 H4 H5 H6 H7 H8 H9 H10 H11 H12]. unfold w0 in *.
  cbn [rw_row rw_bytes rw_cells rw_truncated rw_notices rw_truncations rw_complete rw_drop app] in *.
  assert (length taken = N.to_nat allowed) as Htaken.
  { unfold taken. rewrite length_take. unfold allowed. lia. }
  assert (allowed <= cell_limit policy - rt_cells s)%N as Hallow
    by (unfold allowed, saturating_sub; lia).
  rewrite H1.
  destruct (rw_drop w || (negb (length cells =? length columns) && negb (length columns =? 0)))
    eqn:Hdrop.
  - destruct (push_result_notice_extends (rt_notices s) SnapshotByteLimitReached) as (e & He & Hnd).
    rewrite H6, H8, !take_app_length, He, H5.
    replace (saturating_sub (rt_cells s + N.of_nat (length cells)) (N.of_nat (length cells)))
      with (rt_cells s) by (unfold saturating_sub; lia).
    split_and!; [split; cbn; auto|cbn; lia|]. cbn.
    destruct ((allowed <? N.of_nat (length source)) || (allowed <? N.of_nat (length columns)))%N eqn:Hshort; [done|]. destruct (rw_complete w) eqn:Hcomp; [|done].
    exfalso. specialize (H10 eq_refl) as [_ H10]. unfold allowed in *.
    destruct (rw_drop w); [by destruct (H11 eq_refl)|]. cbn in Hdrop. lia.
  - apply orb_false_iff in Hdrop as [_ Hwidth]. split_and!; [|cbn; rewrite length_app; cbn; lia|].
    + split; cbn [rt_bytes rt_rows rt_cells rt_notices rt_truncations].
      * rewrite H3, Hb, rows_bytes_snoc. lia.
      * done.
      * rewrite H5, Hc, rows_cells_snoc. done.
      * rewrite H5. lia.
      * apply Forall_app. split; [done|]. repeat constructor. lia.
      * rewrite H6. auto.
      * rewrite H8. apply Forall_app. split.
        { eapply Forall_impl; [exact Hd|]. intros t. apply describes_app. }
        eapply Forall_impl; [exact H9|]. intros t (E1 & E2 & k & x & E3 & E4 & E5).
        split; [done|]. exists cells, x. rewrite E1, E3. split_and!; [|done|done].
        rewrite lookup_app_r, Nat.sub_diag by lia. done.
    + cbn. destruct ((allowed <? N.of_nat (length source)) || (allowed <? N.of_nat (length columns)))%N eqn:Hshort; [done|]. destruct (rw_complete w) eqn:Hcomp; [|done].
      intros Ht. apply H12 in Ht as [Ht Hloss]. split_and!; [done|done|].
      intros Hok. do 2 f_equal. unfold taken in *. rewrite take_ge in Hloss by lia. auto.
Qed.

Lemma retain_rows_spec policy columns source s :
  state_ok policy columns s ->
  let s' := retain_rows policy columns source s in
  state_ok policy columns s' /\
  (length (rt_rows s') <= length (rt_rows s) + length source)%nat /\
  (rt_truncated s' = false -> rt_truncated s = false /\
     (Forall (Forall (fun x => cell_ok x = true)) source -> rt_rows s' = rt_rows s ++ source)).
Proof.
  revert s. induction source as [|row source IH]; intros s Hs; cbn [Retention.retain_rows].
  { rewrite (right_id_L [] (++)). split_and!; [done|lia|done]. }
  pose proof (retain_row_spec policy columns row s Hs) as Hrow.
  destruct (retain_row policy columns row s) as [s1 stop].
  destruct Hrow as (Hok & Hlen & Htr). destruct stop.
  - split_and!; [done|cbn; lia|]. intros Ht. by destruct (Htr Ht) as (_ & ? & _).
  - destruct (IH s1 Hok) as (Hok' & Hlen' & Htr'). split_and!; [done|cbn; lia|].
    intros Ht. apply Htr' in Ht as [Ht Hrows]. apply Htr in Ht as (Ht & _ & Hrow).
    split; [done|]. intros [Hc Hcs]%Forall_cons.
    rewrite Hrows, Hrow, <- (assoc (++)) by done. done.
Qed.

Lemma columns_bytes_snoc columns c :
  columns_bytes (columns ++ [c])
  = (columns_bytes columns + (str_len (col_name c) + str_len (col_type_name c)))%N.
Proof. unfold columns_bytes. rewrite fmap_app, sum_N_app. cbn. lia. Qed.

Lemma retain_columns_spec source columns b ns :
  b = columns_bytes columns -> (b <= MAX_RESULT_BYTES)%N ->
  let '(columns', b', ns') := retain_columns source columns b ns in
  b' = columns_bytes columns' /\ (b' <= MAX_RESULT_BYTES)%N /\
  (exists k, columns' = columns ++ take k source) /\ (NoDup ns -> NoDup ns').
Proof.
  revert columns b. induction source as [|c source IH]; intros columns b Hb Hm; cbn.
  { split_and!; try done. exists 0. by rewrite take_0, (right_id_L [] (++)). }
  set (n := saturating_add (str_len _) (str_len _)).
  destruct ((MAX_RESULT_CELL_BYTES <? n)%N || (MAX_RESULT_BYTES <? saturating_add b n)%N) eqn:Hstop.
  { split_and!; try done.
    - exists 0. by rewrite take_0, (right_id_L [] (++)).
    - destruct (push_result_notice_extends ns SnapshotByteLimitReached) as (e & -> & He). done. }
  apply orb_false_iff in Hstop as [Hn Hbn].
  assert (n = str_len (col_name c) + str_len (col_type_name c))%N as En.
  { apply (saturating_add_bounded _ _ MAX_RESULT_CELL_BYTES); [done|]. fold n. lia. }
  assert (saturating_add b n = b + n)%N as Eb
    by (apply (saturating_add_bounded _ _ MAX_RESULT_BYTES); [done|lia]).
  specialize (IH (columns ++ [c]) (b + n)%N).
  destruct (retain_columns source (columns ++ [c]) (b + n)%N ns) as [[columns' b'] ns'].
  destruct IH as (H1 & H2 & (k & H3) & H4); [rewrite columns_bytes_snoc; lia|lia|].
  split_and!; try done. exists (S k). rewrite H3, <- (assoc (++)). done.
Qed.

Local Abbreviation retain := (retain f64_to_string json_to_string).

Definition ResultNotice_ALL : list ResultNotice :=
  [DriverReportedTruncation; ColumnLimitReached; RowLimitReached; SnapshotByteLimitReached;
   CellPreviewTruncated; RedisCellLimitReached; RedisDepthLimitReached; BackendNoticesDiscarded;
   MySqlTransientRowAllocation; RedisTransientFrameAllocation].

Lemma notices_few (ns : list ResultNotice) : NoDup ns -> length ns <= 10.
Proof.
  intros Hnd. change 10 with (length ResultNotice_ALL). apply submseteq_length, NoDup_submseteq; [done|].
  intros n _. unfold ResultNotice_ALL. destruct n; set_solver.
Qed.

Lemma push_result_notice_in ns n : NoDup ns -> n ∈ push_result_notice ns n.
Proof.
  intros Hnd%notices_few. unfold push_result_notice, MAX_RESULT_NOTICES.
  rewrite (proj2 (N.ltb_lt _ _)) by lia. case_bool_decide; cbn; [done|set_solver].
Qed.

(** The snapshot's parts, read off the loops. *)
Lemma retain_spec result provenance policy :
  let sn := retain result provenance policy in
  exists columns notices s,
    state_ok policy columns s /\ NoDup notices /\
    (exists k, columns = take k (qr_columns result)) /\
    (length columns <= N.to_nat MAX_RESULT_COLUMNS)%nat /\
    (length (rt_rows s) <= length (take (N.to_nat (row_limit policy)) (qr_rows result)))%nat /\
    (rt_truncated s = false ->
      qr_truncated result || (length columns <? length (qr_columns result)) = false /\
      (Forall (Forall (fun x => cell_ok x = true)) (qr_rows result) ->
       rt_rows s = take (N.to_nat (row_limit policy)) (qr_rows result))) /\
    sn_columns sn = columns /\ sn_rows sn = rt_rows s /\ sn_retained_bytes sn = rt_bytes s /\
    sn_cell_truncations sn = rt_truncations s /\ sn_notices sn = notices /\
    sn_truncated sn = rt_truncated s || (length (rt_rows s) <? length (qr_rows result)) /\
    (length (rt_rows s) < length (qr_rows result) -> RowLimitReached ∈ notices).
Proof.
  unfold Retention.retain. cbn zeta.
  destruct (push_notices_extends
    [(true, transient_notice (transient_allocation policy));
     (qr_truncated result, DriverReportedTruncation);
     (qr_backend_notices_present result, BackendNoticesDiscarded)] []) as (n0 & -> & H0).
  specialize (H0 NoDup_nil_2). rewrite (left_id_L [] (++)) in *.
  pose proof (retain_columns_spec (take (N.to_nat MAX_RESULT_COLUMNS) (qr_columns result)) [] 0 n0
    eq_refl ltac:(done)) as Hcol.
  destruct (retain_columns _ _ _ _) as [[columns b] n1].
  destruct Hcol as (Hb & Hm & (k & Hk) & Hn1). specialize (Hn1 H0). cbn [app] in Hk.
  set (cut := length columns <? length (qr_columns result)).
  destruct (push_notices_extends [(cut, ColumnLimitReached)] n1) as (e2 & -> & H2).
  match goal with |- context [Retention.retain_rows _ _ _ _ ?src ?x] =>
    set (s0 := x); set (source := src) end.
  assert (state_ok policy columns s0) as Hs0.
  { split; cbn; [|done|done|lia|constructor|auto|constructor]. rewrite Hb. unfold rows_bytes. cbn. lia. }
  destruct (retain_rows_spec policy columns source s0 Hs0) as (Hok & Hlen & Htr).
  set (s := retain_rows policy columns source s0) in *.
  set (rows_cut := length (rt_rows s) <? length (qr_rows result)).
  pose proof (so_nodup _ _ _ Hok) as Hnd.
  set (all := push_notices (rt_notices s) _).
  assert (NoDup all) as Hall.
  { unfold all. by destruct (push_notices_extends
      [(rows_cut, RowLimitReached); ((cell_limit policy <=? rt_cells s)%N && rows_cut, RedisCellLimitReached)]
      (rt_notices s)) as (e & -> & He); auto. }
  assert (take (N.to_nat MAX_RESULT_NOTICES) all = all) as Etake.
  { apply take_ge. pose proof (notices_few all Hall). unfold MAX_RESULT_NOTICES. lia. }
  exists columns, all, s. cbn [sn_columns sn_rows sn_retained_bytes sn_cell_truncations sn_notices
    sn_truncated]. split_and!; try done.
  - exists (k `min` N.to_nat MAX_RESULT_COLUMNS). by rewrite Hk, take_take.
  - rewrite Hk, !length_take. lia.
  - intros Ht. apply Htr in Ht as [Ht Hrows]. split; [done|]. intros Hcells.
    rewrite Hrows; [done|]. unfold source. by apply Forall_take.
  - intros Hlt. unfold all, rows_cut, push_notices. cbn [foldl].
    rewrite (proj2 (Nat.ltb_lt _ _) Hlt).
    pose proof (push_result_notice_in (rt_notices s) RowLimitReached Hnd).
    destruct (_ && true); [|done].
    destruct (push_result_notice_extends (push_result_notice (rt_notices s) RowLimitReached)
      RedisCellLimitReached) as (e & -> & _). apply elem_of_app. by left.
Qed.

(** C5: retention is bounded and exactly accounted for: the snapshot's byte
    count is the size of the columns and cells it holds and never exceeds
    [MAX_RESULT_BYTES]; the column, row and cell limits of the policy hold;
    every row has one cell per column; no notice appears twice. *)
Theorem retain_within_limits result provenance policy :
  let sn := retain result provenance policy in
  sn_retained_bytes sn = (columns_bytes (sn_columns sn) + rows_bytes (sn_rows sn))%N /\
  (sn_retained_bytes sn <= MAX_RESULT_BYTES)%N /\
  (N.of_nat (length (sn_columns sn)) <= MAX_RESULT_COLUMNS)%N /\
  (N.of_nat (length (sn_rows sn)) <= row_limit policy)%N /\
  (rows_cells (sn_rows sn) <= cell_limit policy)%N /\
  Forall (fun row => length row = length (sn_columns sn)) (sn_rows sn) /\
  NoDup (sn_notices sn).
Proof.
  cbn zeta. destruct (retain_spec result provenance policy)
    as (columns & notices & s & Hok & Hnd & _ & Hc & Hr & _ & -> & -> & -> & _ & -> & _).
  rewrite length_take in Hr. destruct Hok as [H1 H2 H3 H4 H5 H6 H7].
  split_and!; try done; lia.
Qed.

(** Nothing is lost silently: a snapshot that is not flagged truncated holds
    exactly the driver's columns and rows. *)
Theorem retain_lossless result provenance policy :
  let sn := retain result provenance policy in
  sn_truncated sn = false ->
  Forall (Forall (fun x => cell_ok x = true)) (qr_rows result) ->
  qr_truncated result = false /\
  sn_columns sn = qr_columns result /\ sn_rows sn = qr_rows result.
Proof.
  cbn zeta. destruct (retain_spec result provenance policy)
    as (columns & notices & s & Hok & Hnd & (k & Hk) & Hc & Hr & Ht & -> & -> & _ & _ & _ & -> & _).
  intros [Hts Hcut]%orb_false_iff Hcells. apply Ht in Hts as [Hq Hrows].
  apply orb_false_iff in Hq as [Hq Hcols]. rewrite Hrows in * by done.
  split_and!; [done| |].
  - rewrite Hk in *. rewrite length_take in Hcols. apply take_ge. lia.
  - rewrite length_take in Hcut. apply take_ge. lia.
Qed.

(** The snapshot reports what it dropped: every truncation entry points at a
    retained cell with that cell's size, and dropped rows set the flag and
    leave a notice. *)
Theorem retain_reports_loss result provenance policy :
  let sn := retain result provenance policy in
  Forall (describes (sn_rows sn)) (sn_cell_truncations sn) /\
  (length (sn_rows sn) < length (qr_rows result) ->
   sn_truncated sn = true /\ RowLimitReached ∈ sn_notices sn).
Proof.
  cbn zeta. destruct (retain_spec result provenance policy)
    as (columns & notices & s & Hok & _ & _ & _ & _ & _ & _ & -> & _ & -> & -> & -> & Hn).
  split; [apply Hok|]. intros Hlt. rewrite (proj2 (Nat.ltb_lt _ _) Hlt), orb_true_r. auto.
Qed.
End cells.

(** Depth truncation leaves at most [max - depth + 1] container levels, and
    reports a value it did not change as not truncated. *)
Theorem truncate_json_depth_bounded value depth max :
  (depth <= max)%N ->
  (json_depth ((truncate_json_depth value depth max).1) <= max - depth + 1)%N /\
  ((truncate_json_depth value depth max).2 = false ->
   (truncate_json_depth value depth max).1 = value).
Proof.
  intros Hd. split; [by apply truncate_json_depth_bound|apply truncate_json_depth_same].
Qed.

(** ** Concrete results *)

Definition sample_f64 (f : f64) : str := display_N f.
Definition sample_json (j : json) : str := lit "null".

Definition sample_provenance : ResultProvenance :=
  {| rp_result_id := 1; rp_profile_id := lit "p"; rp_profile_generation := 1;
     rp_operation_id := 1; rp_driver := Redis; rp_completed_at_unix_ms := 0; rp_duration_ms := 1 |}.

Definition sample_result (rows : list (list Cell)) : QueryResult :=
  {| qr_columns := [{| col_name := lit "a"; col_type_name := lit "int" |};
                    {| col_name := lit "b"; col_type_name := lit "text" |}];
     qr_rows := rows; qr_affected_rows := 0; qr_last_insert_id := None; qr_elapsed_ms := 1;
     qr_truncated := false; qr_backend_notices_present := false |}.

Definition sample_rows : list (list Cell) :=
  [[CInt 1; CText (lit "x")]; [CNull; CBytes (lit "yz") 2]].

Lemma retain_lossless_witness :
  let sn := retain sample_f64 sample_json (sample_result sample_rows) sample_provenance (RetainMySql 10) in
  qr_truncated (sample_result sample_rows) = false /\
  sn_columns sn = qr_columns (sample_result sample_rows) /\
  sn_rows sn = qr_rows (sample_result sample_rows).
Proof.
  apply (retain_lossless sample_f64 sample_json (sample_result sample_rows) sample_provenance
           (RetainMySql 10)); [by vm_compute|by repeat constructor].
Defined.

Lemma truncate_json_depth_bounded_witness :
  (json_depth (truncate_json_depth (JArray [JArray [JNull]]) 1 2).1 <= 2)%N.
Proof. exact (proj1 (truncate_json_depth_bounded (JArray [JArray [JNull]]) 1 2 ltac:(done))). Defined.

(** A row that the Redis cell limit cuts short is reported as a byte limit: with
    two columns and a limit of three cells the second row is dropped, the notice
    names the byte limit and [RedisCellLimitReached] is absent. *)
Example cell_limit_reported_as_byte_limit :
  let sn := retain sample_f64 sample_json (sample_result sample_rows) sample_provenance (RetainRedis 3) in
  sn_rows sn = take 1 sample_rows /\
  SnapshotByteLimitReached ∈ sn_notices sn /\ RedisCellLimitReached ∉ sn_notices sn /\
  (sn_retained_bytes sn < 100)%N.
Proof. cbn zeta. split_and!; [by vm_compute|vm_compute; set_solver|vm_compute; set_solver|by vm_compute]. Qed.
