(* ===== verification/Secrets.v ===== *)
(** * Session secrets (src/src/secrets.rs)

    The process-local credential store, the one-owner replacement buffer of the
    profile form, and the policy that turns a form's credential intent into a
    store update.  A secret is its value; a store whose lock is poisoned
    refuses every operation. *)

From S2P Require Import Prelude RustStr Model.

Inductive SecretError :=
| MissingEnv (name : str) | EmptyEnv (name : str) | InvalidSessionIntent
| ReplacementRequired | SessionCredentialRequired | StoreUnavailable.
#[export] Instance SecretError_eq : EqDecision SecretError. Proof. solve_decision. Defined.

Inductive EnvironmentAvailability := EnvAvailable | EnvMissing | EnvEmpty.
#[export] Instance EnvironmentAvailability_eq : EqDecision EnvironmentAvailability. Proof. solve_decision. Defined.

Abbreviation SessionSecret := (list N) (only parsing).

(** ** The replacement buffer: the retained value of a Replace intent. *)

Abbreviation ReplacementSecretBuffer := (list N) (only parsing).

Definition copy_for_test (buffer : ReplacementSecretBuffer) : result SecretError SessionSecret :=
  if bool_decide (buffer = []) then Err ReplacementRequired else Ok buffer.

(** [std::mem::take] leaves the empty string behind. *)
Definition take_for_save (buffer : ReplacementSecretBuffer) :
    result SecretError SessionSecret * ReplacementSecretBuffer :=
  if bool_decide (buffer = []) then (Err ReplacementRequired, buffer) else (Ok buffer, []).

Definition forget (buffer : ReplacementSecretBuffer) : ReplacementSecretBuffer := [].

Inductive SessionSecretUpdate := UpdateKeep | UpdateReplace (secret : SessionSecret) | UpdateClear.
#[export] Instance SessionSecretUpdate_eq : EqDecision SessionSecretUpdate.
Proof. solve_decision. Defined.

(** ** The store *)

Record SessionSecretStore := {
  ss_poisoned : bool;
  ss_values : gmap str SessionSecret;
}.

(** [self.values.read().map_err(|_| StoreUnavailable)] *)
Definition read_values (s : SessionSecretStore) : result SecretError (gmap str SessionSecret) :=
  if ss_poisoned s then Err StoreUnavailable else Ok (ss_values s).

(** A write through the lock: unchanged when it is poisoned. *)
Definition write_values (s : SessionSecretStore)
    (f : gmap str SessionSecret -> gmap str SessionSecret) :
    result SecretError unit * SessionSecretStore :=
  if ss_poisoned s then (Err StoreUnavailable, s)
  else (Ok tt, {| ss_poisoned := false; ss_values := f (ss_values s) |}).

Definition clone_for_profile (s : SessionSecretStore) (profile_id : ProfileId) :
    result SecretError (option SessionSecret) :=
  (fun values => values !! profile_id) <$> read_values s.

Definition apply (s : SessionSecretStore) (profile_id : ProfileId) (update : SessionSecretUpdate) :
    result SecretError unit * SessionSecretStore :=
  match update with
  | UpdateKeep => (Ok tt, s)
  | UpdateReplace secret => write_values s (<[profile_id := secret]>)
  | UpdateClear => write_values s (delete profile_id)
  end.

Definition store_is_empty (s : SessionSecretStore) : result SecretError bool :=
  (fun values => bool_decide (values = ∅)) <$> read_values s.

Definition has_current (s : SessionSecretStore) (profile_id : ProfileId) : result SecretError bool :=
  (fun values => bool_decide (is_Some (values !! profile_id))) <$> read_values s.

Definition clear_all (s : SessionSecretStore) : result SecretError unit * SessionSecretStore :=
  write_values s (fun _ => ∅).

Definition retain_profiles (s : SessionSecretStore) (profile_ids : gset str) :
    result SecretError unit * SessionSecretStore :=
  write_values s (filter (fun entry => entry.1 ∈ profile_ids)).

(** ** Intents *)

Inductive CredentialEditContext := ContextCreate | ContextEdit (has_current : bool).

Record SessionIntentPolicy := {
  allowed : list SessionCredentialIntent;
  policy_default : SessionCredentialIntent;
}.

Definition session_intent_policy (mode : CredentialMode) (context : CredentialEditContext) :
    option SessionIntentPolicy :=
  if negb (bool_decide (mode = CredSession)) then None
  else
    match context with
    | ContextEdit true =>
        Some {| allowed := [KeepCurrent; IntentReplace; Forget]; policy_default := KeepCurrent |}
    | ContextCreate | ContextEdit false =>
        Some {| allowed := [IntentReplace; Forget]; policy_default := IntentReplace |}
    end.

Definition session_update_for_save (mode : CredentialMode) (context : CredentialEditContext)
    (intent : option SessionCredentialIntent) (replacement : option SessionSecret) :
    result SecretError SessionSecretUpdate :=
  match session_intent_policy mode context with
  | None =>
      if bool_decide (is_Some intent) || bool_decide (is_Some replacement)
      then Err InvalidSessionIntent else Ok UpdateClear
  | Some policy =>
      intent ← ok_or intent InvalidSessionIntent;
      if negb (bool_decide (intent ∈ allowed policy)) then Err InvalidSessionIntent
      else
        match intent, replacement with
        | KeepCurrent, None => Ok UpdateKeep
        | KeepCurrent, Some _ => Err InvalidSessionIntent
        | IntentReplace, _ => ok_or (UpdateReplace <$> replacement) ReplacementRequired
        | Forget, None => Ok UpdateClear
        | Forget, Some _ => Err InvalidSessionIntent
        end
  end.

(** ** Environment secrets: [std::env::var] fails when the variable is absent or
    not Unicode. *)

Definition resolve_environment (var : str -> option str) (name : str) :
    result SecretError SessionSecret :=
  value ← ok_or (var name) (MissingEnv name);
  if bool_decide (value = []) then Err (EmptyEnv name) else Ok value.

Definition classify_environment_value (value : option str) : EnvironmentAvailability :=
  match value with
  | Some value => if bool_decide (value = []) then EnvEmpty else EnvAvailable
  | None => EnvMissing
  end.

Definition probe_environment (var : str -> option str) (name : str) : EnvironmentAvailability :=
  classify_environment_value (var name).

(** ** Properties *)

(** The credential the store holds for a profile. *)
Definition current (s : SessionSecretStore) (profile_id : ProfileId) : option SessionSecret :=
  ss_values s !! profile_id.

(** The context the service derives for editing a stored profile. *)
Definition edit_context (s : SessionSecretStore) (profile_id : ProfileId) : CredentialEditContext :=
  ContextEdit (bool_decide (is_Some (current s profile_id))).

(** A saved credential intent does to the store what the form said: [Keep]
    is possible only where a credential exists and leaves it, [Replace] stores
    the replacement, [Forget] and every mode other than a session credential
    remove it; no other profile's credential changes. *)
Theorem session_save_effect s profile_id mode intent replacement update store :
  session_update_for_save mode (edit_context s profile_id) intent replacement = Ok update ->
  apply s profile_id update = (Ok tt, store) ->
  current store profile_id
  = match mode, intent with
    | CredSession, Some KeepCurrent => current s profile_id
    | CredSession, Some IntentReplace => replacement
    | _, _ => None
    end /\
  (mode = CredSession -> intent = Some KeepCurrent -> is_Some (current s profile_id)) /\
  forall other, other <> profile_id -> current store other = current s other.
Proof.
  unfold session_update_for_save, session_intent_policy, edit_context, current, apply, write_values.
  intros Hu Ha.
  destruct (ss_values s !! profile_id) as [secret|] eqn:Hcur; cbn in Hu;
    destruct mode, intent as [[]|], replacement as [r|]; cbn in Hu; try discriminate Hu;
    injection Hu as <-; try (destruct (ss_poisoned s); [discriminate Ha|]);
    injection Ha as <-; cbn; simplify_map_eq;
    (split_and!; [done|by eauto|]); intros other Ho; by simplify_map_eq.
Qed.

(** One replacement value can be saved at most once: the buffer gives its
    value away and is empty afterwards, so a second save is refused. *)
Theorem replacement_saved_once buffer secret buffer' :
  take_for_save buffer = (Ok secret, buffer') ->
  secret = buffer /\ secret <> [] /\ take_for_save buffer' = (Err ReplacementRequired, []) /\
  copy_for_test buffer' = Err ReplacementRequired.
Proof. unfold take_for_save. case_bool_decide; [done|]. by intros [= <- <-]. Qed.

(** A probe reports available exactly the variables that resolve. *)
Lemma probe_resolves var name :
  probe_environment var name = EnvAvailable <-> is_ok (resolve_environment var name) = true.
Proof.
  unfold probe_environment, classify_environment_value, resolve_environment.
  destruct (var name); cbn; [|done]. by case_bool_decide.
Qed.

Lemma retain_profiles_lookup s ids store profile_id :
  retain_profiles s ids = (Ok tt, store) ->
  current store profile_id = if decide (profile_id ∈ ids) then current s profile_id else None.
Proof.
  unfold retain_profiles, write_values, current. destruct (ss_poisoned s); [done|].
  intros [= <-]. cbn. case_decide as Hin.
  - destruct (ss_values s !! profile_id) eqn:E.
    + by apply map_lookup_filter_Some.
    + by apply map_lookup_filter_None; left.
  - apply map_lookup_filter_None. right. by intros.
Qed.

Definition sample_store : SessionSecretStore :=
  {| ss_poisoned := false; ss_values := <[lit "p" := lit "old"]> ∅ |}.

Lemma session_save_effect_witness :
  current (apply sample_store (lit "p") (UpdateReplace (lit "new"))).2 (lit "p") = Some (lit "new").
Proof.
  exact (proj1 (session_save_effect sample_store (lit "p") CredSession (Some IntentReplace)
    (Some (lit "new")) (UpdateReplace (lit "new"))
    (apply sample_store (lit "p") (UpdateReplace (lit "new"))).2 eq_refl eq_refl)).
Defined.

Lemma replacement_saved_once_witness :
  take_for_save (lit "pw") = (Ok (lit "pw"), []) /\ lit "pw" <> [].
Proof.
  split; [reflexivity|].
  exact (proj1 (proj2 (replacement_saved_once (lit "pw") (lit "pw") [] eq_refl))).
Defined.
