(* ===== verification/Profile.v ===== *)
(** * Profile validation (src/src/service.rs)

    The checks on connection drafts, stored profiles and configuration
    mutations, and the identifiers derived from display names. *)

From S2P Require Import Prelude RustStr Model.

#[local] Arguments trim : simpl never.
#[local] Arguments reject_if : simpl never.

Inductive ProfileValidationError :=
| ProfileField (field : ProfileFieldId) (code : PublicCode).

(** [ProfileValidationError::field] *)
Definition field_error (field : ProfileFieldId) : ProfileValidationError :=
  ProfileField field (PcField field).

Definition valid_profile_id (value : str) : bool :=
  match value with
  | [] => false
  | c :: value =>
      is_ascii_alphanumeric c
      && forallb (fun c => is_ascii_alphanumeric c || (c =? 46) || (c =? 95) || (c =? 45))%N value
  end.

Definition valid_env_name (value : str) : bool :=
  match value with
  | [] => false
  | c :: value =>
      (is_ascii_alphabetic c || (c =? 95)%N)
      && forallb (fun c => is_ascii_alphanumeric c || (c =? 95)%N) value
  end.

Definition validate_profile_id (value : str) : result ProfileValidationError unit :=
  if negb (bool_decide (trim value = value)) || negb (valid_profile_id value)
  then Err (field_error FConnectionId) else Ok tt.

(** [slugify_profile_id]: the loop's [slug] and [separator_pending]. *)
Definition slug_step (s : str * bool) (c : char) : str * bool :=
  let '(slug, separator_pending) := s in
  if is_ascii_alphanumeric c then
    (slug ++ (if separator_pending && negb (bool_decide (slug = [])) then [45%N] else [])
       ++ [to_ascii_lowercase_char c], false)
  else if negb (bool_decide (slug = [])) then (slug, true)
  else s.

Definition slugify_profile_id (display_name : str) : str :=
  let slug := (foldl slug_step ([], false) display_name).1 in
  if bool_decide (slug = []) then lit "connection" else slug.

Definition same_keep_test_connection (p : ConnectionProfile) (d : ConnectionDraft) : bool :=
  bool_decide (p_driver p = d_driver d) && bool_decide (p_host p = d_host d)
  && bool_decide (p_port p = d_port d) && bool_decide (p_database p = d_database d)
  && bool_decide (p_username p = d_username d) && bool_decide (p_tls p = d_tls d)
  && bool_decide (p_credential_mode p = d_credential_mode d)
  && bool_decide (p_secret_env p = d_secret_env d)
  && bool_decide (p_redis_tls p = d_redis_tls d).

Definition CERTIFICATE_BEGIN : str := lit "-----BEGIN CERTIFICATE-----".
Definition CERTIFICATE_END : str := lit "-----END CERTIFICATE-----".

(** What the CA check takes from outside: the file system and the certificate
    crates ([base64], [webpki]). *)
Record CaWorld := {
  ca_is_file : str -> option bool;
  ca_read : str -> option bytes;
  base64_decode : str -> option bytes;
  is_end_entity : bytes -> bool;
  is_trust_anchor : bytes -> bool;
}.

Section ca.
Context (w : CaWorld).

(** The [while let Some(start) = remaining.find(begin)] loop; each round
    consumes the markers it found. *)
Fixpoint certificate_blocks (fuel : nat) (remaining : str) (count : nat) :
    result PublicCode nat :=
  match str_find CERTIFICATE_BEGIN remaining, fuel with
  | None, _ | _, 0 => Ok count
  | Some start, S fuel =>
      let after_begin := drop (start + length CERTIFICATE_BEGIN) remaining in
      match str_find CERTIFICATE_END after_begin with
      | None => Err PcRedisTlsCaInvalidPem
      | Some body_end =>
          let encoded := List.filter (fun c => negb (is_ascii_whitespace c)) (take body_end after_begin) in
          der ← ok_or (base64_decode w encoded) PcRedisTlsCaInvalidPem;
          _ ← reject_if (negb (is_end_entity w der)) PcRedisTlsCaInvalidPem;
          _ ← reject_if (negb (is_trust_anchor w der)) PcRedisTlsCaUntrustedIssuer;
          certificate_blocks fuel (drop (body_end + length CERTIFICATE_END) after_begin) (S count)
      end
  end.

Definition validate_certificate_pem (bs : bytes) : result PublicCode unit :=
  text ← ok_or (from_utf8 bs) PcRedisTlsCaInvalidPem;
  count ← certificate_blocks (length text) text 0;
  reject_if (count =? 0) PcRedisTlsCaInvalidPem.

Definition validate_ca_file (path : str) : result ProfileValidationError unit :=
  let invalid := ProfileField FRedisCaFile PcRedisTlsCaInvalidPem in
  is_file ← ok_or (ca_is_file w path) invalid;
  _ ← reject_if (negb is_file) invalid;
  bs ← ok_or (ca_read w path) invalid;
  map_err (ProfileField FRedisCaFile) (validate_certificate_pem bs).

Definition validate_connection_draft (d : ConnectionDraft) : result ProfileValidationError unit :=
  _ ← reject_if (bool_decide (trim (d_name d) = [])) (field_error FDisplayName);
  _ ← reject_if (bool_decide (trim (d_host d) = [])) (field_error FHost);
  _ ← reject_if (d_port d =? 0)%N (field_error FPort);
  _ ← match d_credential_mode d with
      | CredNone | CredSession =>
          reject_if (bool_decide (is_Some (d_secret_env d))) (field_error FCredentialEnvironmentName)
      | CredEnvironment =>
          name ← ok_or (d_secret_env d) (field_error FCredentialEnvironmentName);
          reject_if (negb (valid_env_name name)) (field_error FCredentialEnvironmentName)
      end;
  if bool_decide (d_driver d = Redis) then
    _ ← match d_database d with
        | Some database =>
            reject_if (bool_decide (parse_u32 database = None)) (field_error FDatabase)
        | None => Ok tt
        end;
    match d_tls d, ca_file (d_redis_tls d) with
    | Preferred, _ => Err (ProfileField FRedisTlsMode PcRedisTlsPreferredLegacy)
    | Disabled, Some _ => Err (field_error FRedisCaFile)
    | Required, Some ca_file => validate_ca_file ca_file
    | Required, None | Disabled, None => Ok tt
    end
  else reject_if (negb (redis_tls_is_empty (d_redis_tls d))) (field_error FRedisCaFile).

Definition draft_with_tls (d : ConnectionDraft) (tls : TlsMode) (ca : option str) : ConnectionDraft :=
  {| d_name := d_name d; d_driver := d_driver d; d_host := d_host d; d_port := d_port d;
     d_database := d_database d; d_username := d_username d; d_tls := tls;
     d_credential_mode := d_credential_mode d; d_secret_env := d_secret_env d;
     d_redis_tls := {| ca_file := ca |} |}.

Definition validate_persisted_profile (p : ConnectionProfile) : result ProfileValidationError unit :=
  _ ← validate_profile_id (p_id p);
  let draft := as_draft p in
  validate_connection_draft
    (if bool_decide (p_driver p = Redis) then
       match p_tls p with
       | Preferred => draft_with_tls draft Disabled None
       | Required => draft_with_tls draft (d_tls draft) None
       | Disabled => draft
       end
     else draft).

Definition validate_strict_persisted_profile (p : ConnectionProfile) :
    result ProfileValidationError unit :=
  _ ← validate_profile_id (p_id p);
  validate_connection_draft (as_draft p).

Definition validate_profile_for_network (p : ConnectionProfile) : result ProfileValidationError unit :=
  _ ← validate_persisted_profile p;
  _ ← reject_if (bool_decide (p_driver p = Redis) && bool_decide (p_tls p = Preferred))
        (ProfileField FRedisTlsMode PcRedisTlsPreferredLegacy);
  match ca_file (p_redis_tls p) with
  | Some ca_file =>
      if bool_decide (p_driver p = Redis) && bool_decide (p_tls p = Required)
      then validate_ca_file ca_file else Ok tt
  | None => Ok tt
  end.
End ca.

(** ** Slugs *)

(** Lower-case alphanumerics with single inner hyphens: what [slug_step] keeps. *)
Definition slug_char (c : char) : bool := is_ascii_alphanumeric c && negb (is_ascii_uppercase c).

Lemma slug_lower c : is_ascii_alphanumeric c = true -> slug_char (to_ascii_lowercase_char c) = true.
Proof.
  unfold slug_char, is_ascii_alphanumeric, is_ascii_alphabetic, is_ascii_digit,
    to_ascii_lowercase_char, is_ascii_uppercase, is_ascii_lowercase. case_match; lia.
Qed.

Lemma slug_char_lower c : slug_char c = true ->
  is_ascii_alphanumeric c = true /\ to_ascii_lowercase_char c = c.
Proof.
  unfold slug_char. intros [Ha Hu]%andb_prop. split; [done|].
  unfold to_ascii_lowercase_char. by destruct (is_ascii_uppercase c).
Qed.

(** Words separated by single hyphens: [run] is [true] right after a hyphen. *)
Fixpoint slug_shape (after_hyphen : bool) (s : str) : bool :=
  match s with
  | [] => negb after_hyphen
  | c :: s =>
      if (c =? 45)%N then negb after_hyphen && slug_shape true s
      else slug_char c && slug_shape false s
  end.

Lemma hyphen_not_slug : slug_char 45 = false.
Proof. done. Qed.

Lemma slug_shape_snoc b s c :
  slug_shape b s = true -> slug_char c = true ->
  slug_shape b (s ++ [c]) = true.
Proof.
  intros Hs Hc. assert ((c =? 45)%N = false) as Hn.
  { destruct (c =? 45)%N eqn:E; [|done]. apply N.eqb_eq in E as ->. done. }
  revert b Hs. induction s as [|x s IH]; intros b; cbn.
  - by rewrite Hn, Hc.
  - destruct (x =? 45)%N; rewrite !andb_true_iff; intros [? ?]; auto.
Qed.

Lemma slug_shape_snoc_hyphen s c :
  slug_shape false s = true -> s <> [] -> slug_char c = true ->
  slug_shape false (s ++ [45%N; c]) = true.
Proof.
  intros Hs Hne Hc. assert ((c =? 45)%N = false) as Hn.
  { destruct (c =? 45)%N eqn:E; [|done]. apply N.eqb_eq in E as ->. done. }
  clear Hne. revert Hs. generalize false. induction s as [|x s IH]; intros b; cbn.
  - rewrite Hn, Hc. by destruct b.
  - destruct (x =? 45)%N; rewrite !andb_true_iff; intros [? ?]; auto.
Qed.

Definition slug_ok (slug : str) : Prop :=
  slug = [] \/ slug_shape false slug = true /\ exists c s, slug = c :: s /\ slug_char c = true.

Lemma slug_step_ok slug pending c :
  slug_ok slug -> slug_ok (slug_step (slug, pending) c).1.
Proof.
  intros Hs. unfold slug_step. destruct (is_ascii_alphanumeric c) eqn:Ha.
  - right. cbn [fst]. pose proof (slug_lower c Ha) as Hl.
    destruct Hs as [->|(Hshape & x & s & -> & Hx)].
    + rewrite andb_false_r. cbn [app]. split; [|by eexists _, []].
      apply (slug_shape_snoc false []); done.
    + rewrite bool_decide_false by done. rewrite andb_true_r. split; [|by eexists x, _].
      destruct pending; cbn [app negb].
      * by apply (slug_shape_snoc_hyphen (x :: s)).
      * by apply (slug_shape_snoc false (x :: s)).
  - by destruct (negb _).
Qed.

Lemma slug_foldl_ok name slug pending :
  slug_ok slug -> slug_ok (foldl slug_step (slug, pending) name).1.
Proof.
  revert slug pending. induction name as [|c name IH]; intros slug pending Hs; [done|].
  cbn [foldl]. pose proof (slug_step_ok slug pending c Hs) as H.
  destruct (slug_step (slug, pending) c) as [slug' pending']. by apply IH.
Qed.

Lemma slugify_shape name :
  slug_shape false (slugify_profile_id name) = true /\
  exists c s, slugify_profile_id name = c :: s /\ slug_char c = true.
Proof.
  unfold slugify_profile_id.
  destruct (slug_foldl_ok name [] false (or_introl eq_refl)) as [->|(Hs & c & s & E & Hc)].
  - cbn. split; [done|]. by eexists _, _.
  - rewrite bool_decide_false by (by rewrite E). eauto.
Qed.

Lemma slug_shape_chars b s :
  slug_shape b s = true ->
  forallb (fun c => is_ascii_alphanumeric c || (c =? 46) || (c =? 95) || (c =? 45))%N s = true.
Proof.
  revert b. induction s as [|c s IH]; intros b; cbn; [done|].
  destruct (c =? 45)%N eqn:Hc; rewrite !andb_true_iff.
  - intros [_ Hs]. rewrite orb_true_r. eauto.
  - intros [[Ha _]%slug_char_lower Hs]. rewrite Ha. cbn. eauto.
Qed.

Lemma alnum_not_blank c : is_ascii_alphanumeric c = true -> is_whitespace c = false.
Proof.
  unfold is_ascii_alphanumeric, is_ascii_alphabetic, is_ascii_digit, is_ascii_lowercase,
    is_ascii_uppercase, is_whitespace. lia.
Qed.

Lemma valid_profile_id_chars s c : valid_profile_id s = true -> c ∈ s ->
  is_ascii_alphanumeric c = true \/ (c = 46 \/ c = 95 \/ c = 45)%N.
Proof.
  destruct s as [|x s]; [done|]. cbn. intros [Hx Hs]%andb_prop [->|Hc]%elem_of_cons; [by left|].
  apply list_elem_of_In in Hc. apply (proj1 (forallb_forall _ _) Hs) in Hc.
  destruct (is_ascii_alphanumeric c); [by left|]. right. lia.
Qed.

Lemma valid_profile_id_trimmed s : valid_profile_id s = true -> trim s = s.
Proof.
  intros Hv. apply trimmed_trim. intros c Hc.
  assert (c ∈ s) as Hin.
  { destruct Hc as [Hc|Hc]; [destruct s; [done|]; injection Hc as ->; left|by apply last_Some_elem_of]. }
  destruct (valid_profile_id_chars s c Hv Hin) as [Ha|Hd]; [by apply alnum_not_blank|].
  unfold is_whitespace. lia.
Qed.

Lemma validate_profile_id_Ok s : validate_profile_id s = Ok tt <-> valid_profile_id s = true.
Proof.
  unfold validate_profile_id. destruct (valid_profile_id s) eqn:Hv; cbn.
  - rewrite bool_decide_true by (by apply valid_profile_id_trimmed). done.
  - by rewrite orb_true_r.
Qed.

Lemma slug_step_char slug b c :
  slug_char c = true ->
  slug_step (slug, b) c
  = (slug ++ (if b && negb (bool_decide (slug = [])) then [45%N] else []) ++ [c], false).
Proof. intros [Ha Hl]%slug_char_lower. unfold slug_step. by rewrite Ha, Hl. Qed.

Lemma slug_step_hyphen slug : slug <> [] -> slug_step (slug, false) 45 = (slug, true).
Proof. intros Hne. unfold slug_step. by rewrite bool_decide_false. Qed.

Lemma slug_foldl_shape s slug b :
  slug <> [] -> slug_shape b s = true ->
  (foldl slug_step (slug, b) s).1 = slug ++ (if b then [45%N] else []) ++ s.
Proof.
  revert slug b. induction s as [|c s IH]; intros slug b Hne Hs; cbn [foldl slug_shape] in *.
  - destruct b; [done|]. cbn [app]. by rewrite (right_id_L [] (++)).
  - destruct (c =? 45)%N eqn:Hc; apply andb_prop in Hs as [Hb Hs].
    + apply N.eqb_eq in Hc as ->. destruct b; [done|].
      rewrite slug_step_hyphen, IH by done. done.
    + rewrite slug_step_char, bool_decide_false, andb_true_r by done.
      rewrite IH; [|by destruct slug|done]. by rewrite <- !(assoc_L (++)).
Qed.

(** The identifier derived from a display name is always a valid profile id,
    and deriving it again changes nothing. *)
Theorem slugify_valid name :
  validate_profile_id (slugify_profile_id name) = Ok tt /\
  slugify_profile_id (slugify_profile_id name) = slugify_profile_id name.
Proof.
  destruct (slugify_shape name) as (Hs & c & s & E & Hc). rewrite E in *. split.
  - apply validate_profile_id_Ok. pose proof (slug_shape_chars _ _ Hs) as Hall.
    apply slug_char_lower in Hc as [Hc _]. cbn in Hall |- *. apply andb_prop in Hall as [_ Hall].
    by rewrite Hc.
  - unfold slugify_profile_id. cbn [foldl]. rewrite slug_step_char by done.
    rewrite andb_false_l. cbn [app]. rewrite slug_foldl_shape; [|done|].
    + by rewrite bool_decide_false.
    + cbn in Hs. destruct (c =? 45)%N eqn:H45; [apply N.eqb_eq in H45 as ->; done|].
      by apply andb_prop in Hs as [_ ?].
Qed.

(** ** Layers of profile validation *)

Section layers.
Context (w : CaWorld).

Lemma draft_with_tls_same d : draft_with_tls d (d_tls d) (ca_file (d_redis_tls d)) = d.
Proof. by destruct d as [? ? ? ? ? ? ? ? ? []]. Qed.

(** What may be written may be read back and used: a profile that passes the
    strict check of a mutation also passes the load-time check and the check
    before any network use. *)
Theorem strict_profile_usable p :
  validate_strict_persisted_profile w p = Ok tt ->
  validate_persisted_profile w p = Ok tt /\ validate_profile_for_network w p = Ok tt.
Proof.
  unfold validate_strict_persisted_profile, validate_profile_for_network, validate_persisted_profile.
  intros H. apply result_bind_Ok in H as ([] & -> & Hd). cbn [mbind result_bind].
  destruct p as [id name driver host port db user tls mode env [ca]].
  unfold validate_connection_draft, as_draft, draft_with_tls in *. cbn in *.
  destruct (reject_if (bool_decide (trim name = [])) _) as [[]|] eqn:E1; cbn in *; [|done].
  destruct (reject_if (bool_decide (trim host = [])) _) as [[]|] eqn:E2; cbn in *; [|done].
  destruct (reject_if (port =? 0)%N _) as [[]|] eqn:E3; cbn in *; [|done].
  destruct (match mode with CredEnvironment => _ | _ => _ end) as [[]|] eqn:Hmode; cbn in *; [|done].
  case_bool_decide as Hredis; cbn in *.
  - subst driver. destruct (match db with Some _ => _ | None => _ end) as [[]|] eqn:Hdb; cbn in *; [|done].
    destruct tls, ca; cbn in *; try discriminate Hd;
      rewrite E1, E2, E3; cbn; rewrite ?Hmode, ?Hdb; cbn;
      rewrite ?bool_decide_true, ?bool_decide_false by done; cbn; rewrite ?Hd; done.
  - rewrite E1, E2, E3. cbn. rewrite Hmode. cbn. rewrite !bool_decide_false by done.
    rewrite Hd. cbn. by destruct ca.
Qed.
End layers.

Definition sample_ca : CaWorld :=
  {| ca_is_file := fun _ => None; ca_read := fun _ => None; base64_decode := fun _ => None;
     is_end_entity := fun _ => false; is_trust_anchor := fun _ => false |}.

Definition sample_profile : ConnectionProfile :=
  from_draft (lit "p")
    {| d_name := lit "P"; d_driver := Redis; d_host := lit "h"; d_port := 6379;
       d_database := Some (lit "0"); d_username := None; d_tls := Disabled;
       d_credential_mode := CredNone; d_secret_env := None; d_redis_tls := redis_tls_default |}.

Lemma strict_profile_usable_witness :
  validate_profile_for_network sample_ca sample_profile = Ok tt.
Proof. exact (proj2 (strict_profile_usable sample_ca sample_profile eq_refl)). Defined.
