(* ===== verification/Config.v ===== *)
(** * The configuration (src/src/config.rs)

    The data of the configuration, its versions, the checked mutations with the
    allocation of identifiers, and the decoding of both versions; the toml crate is a
    parameter.  The writer of the file is in ConfigWriter. *)

From S2P Require Import Prelude RustStr Model Profile.

Definition CURRENT_CONFIG_VERSION : N := 2.
Definition MIGRATION_BACKUP_SUFFIX : str := lit ".v1.bak".

Record Config := { cfg_version : N; cfg_profiles : list ConnectionProfile }.
#[export] Instance Config_eq : EqDecision Config. Proof. solve_decision. Defined.

Definition config_default : Config := {| cfg_version := CURRENT_CONFIG_VERSION; cfg_profiles := [] |}.

Inductive ConfigSourceVersion := SourceMissing | SourceV1 | SourceV2.
#[export] Instance ConfigSourceVersion_eq : EqDecision ConfigSourceVersion.
Proof. solve_decision. Defined.

Record LoadedConfig := {
  lc_config : Config;
  lc_source_version : ConfigSourceVersion;
  lc_migration_required : bool;
  lc_original_bytes : option bytes;
  lc_fingerprint : option bytes;
}.

Inductive MigrationConsent := Confirmed | ConsentCancelled.
#[export] Instance MigrationConsent_eq : EqDecision MigrationConsent. Proof. solve_decision. Defined.

Definition from_confirmation (confirmed : bool) : MigrationConsent :=
  if confirmed then Confirmed else ConsentCancelled.

Inductive ConfigMutation :=
| MutCreate (profile : ConnectionProfile)
| MutCreateAuto (base_id : str) (profile : ConnectionProfile)
| MutUpdateChecked (profile_id : str) (expected_profile profile : ConnectionProfile)
| MutDeleteChecked (profile_id : str) (expected_profile : ConnectionProfile).

Inductive CommitState := NotCommitted | Committed | CommittedDurabilityUnknown.
#[export] Instance CommitState_eq : EqDecision CommitState. Proof. solve_decision. Defined.

Inductive MutationFailpoint :=
| BackupTempCreate | BackupWrite | BackupFileSync | BackupRename | BackupDirectorySync
| MainTempCreate | MainWrite | MainFileSync | MainPreRename | MainPostRename
| MainDirectorySync | MainObservationLoad.
#[export] Instance MutationFailpoint_eq : EqDecision MutationFailpoint. Proof. solve_decision. Defined.

Inductive ConfigError :=
| CeIo (path : str) | CeInvalidUtf8 | CeParse | CeSerialize | CeUnsupportedVersion (version : N)
| CeNoConfigPath | CeMigrationConfirmationRequired (backup : str) | CeBackupConflict (path : str)
| CeProfileAlreadyExists (id : str) | CeProfileMissing (id : str) | CeImmutableProfileId
| CeExternalChange | CeInvalidProfile | CeNotCommitted (stage : MutationFailpoint)
| CeWriterUnavailable.
#[export] Instance ConfigError_eq : EqDecision ConfigError. Proof. solve_decision. Defined.

Inductive PostCommitObservation :=
| Observed (loaded : LoadedConfig)
| ObservationFailed (commit_state : CommitState) (source : ConfigError).

Record MutationOutcome := {
  mo_state : CommitState;
  mo_observation : PostCommitObservation;
  mo_migration_backup : option str;
  mo_affected_profile_id : option str;
}.

(** ** Checked mutations *)

Definition validate_config_identity_from (seen : gset str) : list ConnectionProfile ->
    result ProfileValidationError unit :=
  (fix go seen profiles :=
    match profiles with
    | [] => Ok tt
    | profile :: profiles =>
        _ ← validate_profile_id (p_id profile);
        if bool_decide (p_id profile ∈ seen) then Err (field_error FConnectionId)
        else go ({[p_id profile]} ∪ seen) profiles
    end) seen.

Definition validate_config_identity (config : Config) : result ProfileValidationError unit :=
  validate_config_identity_from ∅ (cfg_profiles config).

Definition validate_config_mutation (w : CaWorld) (mutation : ConfigMutation) :
    result ProfileValidationError unit :=
  match mutation with
  | MutCreate profile => validate_strict_persisted_profile w profile
  | MutCreateAuto base_id profile =>
      _ ← validate_profile_id base_id;
      validate_strict_persisted_profile w profile
  | MutUpdateChecked profile_id expected_profile profile =>
      _ ← validate_profile_id (p_id expected_profile);
      if negb (bool_decide (p_id expected_profile = profile_id))
         || negb (bool_decide (p_id profile = profile_id))
      then Err (field_error FConnectionId)
      else validate_strict_persisted_profile w profile
  | MutDeleteChecked profile_id expected_profile =>
      _ ← validate_profile_id (p_id expected_profile);
      reject_if (negb (bool_decide (p_id expected_profile = profile_id))) (field_error FConnectionId)
  end.

Definition id_is_free (profiles : list ConnectionProfile) (id : str) : bool :=
  forallb (fun p => negb (bool_decide (p_id p = id))) profiles.

(** The [loop] over suffixes from 2; [None] is a loop still running. *)
Fixpoint allocate_loop (fuel : nat) (base_id : str) (profiles : list ConnectionProfile) (suffix : N) :
    option str :=
  match fuel with
  | 0 => None
  | S fuel =>
      let candidate := base_id ++ [45%N] ++ display_N suffix in
      if id_is_free profiles candidate then Some candidate
      else allocate_loop fuel base_id profiles (N.min (suffix + 1) U64_MAX)
  end.

(** One more round than there are profiles is enough ([allocate_profile_id_fresh]). *)
Definition allocate_profile_id (base_id : str) (profiles : list ConnectionProfile) : option str :=
  if id_is_free profiles base_id then Some base_id
  else allocate_loop (S (length profiles)) base_id profiles 2.

(** [config.profiles] after the mutation and the affected id; [None] when the id
    allocation does not finish. *)
Definition apply_mutation (config : Config) (mutation : ConfigMutation) :
    option (result ConfigError (Config * option str)) :=
  let with_profiles profiles := {| cfg_version := cfg_version config; cfg_profiles := profiles |} in
  let profiles := cfg_profiles config in
  match mutation with
  | MutCreate profile =>
      Some (if existsb (fun candidate => bool_decide (p_id candidate = p_id profile)) profiles
            then Err (CeProfileAlreadyExists (p_id profile))
            else Ok (with_profiles (profiles ++ [profile]), Some (p_id profile)))
  | MutCreateAuto base_id profile =>
      profile_id ← allocate_profile_id base_id profiles;
      Some (Ok (with_profiles (profiles ++ [with_id profile profile_id]), Some profile_id))
  | MutUpdateChecked profile_id expected_profile profile =>
      Some (
        if negb (bool_decide (p_id profile = profile_id))
           || negb (bool_decide (p_id expected_profile = profile_id))
        then Err CeImmutableProfileId
        else
          match position (fun candidate => bool_decide (p_id candidate = profile_id)) profiles with
          | None => Err (CeProfileMissing profile_id)
          | Some index =>
              if bool_decide (profiles !! index = Some expected_profile)
              then Ok (with_profiles (<[index := profile]> profiles), Some profile_id)
              else Err CeExternalChange
          end)
  | MutDeleteChecked profile_id expected_profile =>
      Some (
        match position (fun candidate => bool_decide (p_id candidate = profile_id)) profiles with
        | None => Err (CeProfileMissing profile_id)
        | Some index =>
            if bool_decide (profiles !! index = Some expected_profile)
            then Ok (with_profiles (delete index profiles), Some profile_id)
            else Err CeExternalChange
        end)
  end.

(** ** Paths and contract *)

Record ConfigContract := {
  read_versions : list N;
  write_version : N;
  migration_backup_suffix : str;
}.

Definition config_contract : ConfigContract :=
  {| read_versions := [1; 2]%N; write_version := CURRENT_CONFIG_VERSION;
     migration_backup_suffix := MIGRATION_BACKUP_SUFFIX |}.

(** [PathBuf::join] of a relative path. *)
Definition path_join (base child : str) : str :=
  match last base with
  | None => child
  | Some c => if (c =? 47)%N then base ++ child else base ++ [47%N] ++ child
  end.

Definition resolve_config_path (explicit environment home : option str) : result ConfigError str :=
  match explicit with
  | Some path => Ok path
  | None =>
      match environment with
      | Some (c :: path) => Ok (c :: path)
      | _ =>
          home ← ok_or home CeNoConfigPath;
          Ok (path_join home (lit ".config/dbotter/config.toml"))
      end
  end.

Definition migration_backup_path (path : str) : str := path ++ MIGRATION_BACKUP_SUFFIX.

(** ** Decoding *)

Record ConnectionProfileV1 := {
  v1_id : str; v1_name : str; v1_driver : DriverKind; v1_host : str; v1_port : N;
  v1_database : option str; v1_username : option str; v1_tls : TlsMode; v1_secret_env : option str;
}.

Definition normalize_v1_profile (profile : ConnectionProfileV1) : ConnectionProfile :=
  {| p_id := v1_id profile; p_name := v1_name profile; p_driver := v1_driver profile;
     p_host := v1_host profile; p_port := v1_port profile; p_database := v1_database profile;
     p_username := v1_username profile; p_tls := v1_tls profile;
     p_credential_mode :=
       if bool_decide (is_Some (v1_secret_env profile)) then CredEnvironment else CredNone;
     p_secret_env := v1_secret_env profile; p_redis_tls := redis_tls_default |}.

Definition normalize_v1 (profiles : list ConnectionProfileV1) : Config :=
  {| cfg_version := CURRENT_CONFIG_VERSION; cfg_profiles := normalize_v1_profile <$> profiles |}.

(** The [toml] crate at the types the program uses it. *)
Record Toml := {
  toml_version : str -> option N;
  toml_v1 : str -> option (list ConnectionProfileV1);
  toml_config : str -> option Config;
  toml_to_string_pretty : Config -> option str;
}.

Section decode.
Context (toml : Toml).

(** [load_path] on the bytes read. *)
Definition decode_config (bs : bytes) : result ConfigError LoadedConfig :=
  raw ← ok_or (from_utf8 bs) CeInvalidUtf8;
  version ← ok_or (toml_version toml raw) CeParse;
  '(config, source_version, migration_required) ←
    (if (version =? 1)%N then
       wire ← ok_or (toml_v1 toml raw) CeParse;
       Ok (normalize_v1 wire, SourceV1, true)
     else if (version =? CURRENT_CONFIG_VERSION)%N then
       config ← ok_or (toml_config toml raw) CeParse;
       Ok (config, SourceV2, false)
     else Err (CeUnsupportedVersion version));
  Ok {| lc_config := config; lc_source_version := source_version;
        lc_migration_required := migration_required; lc_original_bytes := Some bs;
        lc_fingerprint := Some bs |}.

Definition loaded_missing : LoadedConfig :=
  {| lc_config := config_default; lc_source_version := SourceMissing;
     lc_migration_required := false; lc_original_bytes := None; lc_fingerprint := None |}.

Definition encode_config (config : Config) : result ConfigError bytes :=
  encoded ← ok_or (toml_to_string_pretty toml config) CeSerialize;
  Ok (encode (encoded ++ [10%N])).
End decode.
