(* ===== verification/ConfigWriter.v ===== *)
(** * The configuration writer (src/src/config.rs, [ConfigWriter])

    [mutate_path] step by step over an explicit file system: every
    operating-system call may fail, and the program's own fault injector, which
    also stands for other processes, may change files at each of its points. *)

From S2P Require Import Prelude RustStr Model Profile Config.

(** A regular file, with whether its mode is 0600, or anything else (directory,
    symbolic link, device). *)
Inductive FileNode := RegularFile (content : bytes) (private : bool) | OtherNode.
#[export] Instance FileNode_eq : EqDecision FileNode. Proof. solve_decision. Defined.

Abbreviation FileSystem := (gmap (list N) FileNode) (only parsing).

Record World := {
  w_files : gmap (list N) FileNode;
  w_calls : nat;           (* operating-system calls made so far *)
  w_sequence : N;          (* TEMP_SEQUENCE *)
  w_armed : list str;      (* paths of armed TempCleanup guards *)
}.

(** What the writer runs against. *)
Record Platform := {
  os_fails : nat -> bool;                 (* whether the n-th call fails *)
  os_written : nat -> nat;                (* bytes a failing write leaves behind *)
  path_parent : str -> option str;        (* Path::parent *)
  process_id : N;
  lock_poisoned : bool;                   (* PROCESS_WRITER *)
  inject : MutationFailpoint -> str -> FileSystem -> bool * FileSystem;
  ca_world : CaWorld;
  toml_crate : Toml;
}.

Inductive IoKind := NotFound | AlreadyExists | OtherIo.

Section writer.
Context (pf : Platform).

(** Computations that may fail with [E] and change the world. *)
Definition W (E A : Type) : Type := World -> result E A * World.

#[export] Instance W_ret E : MRet (W E) := fun _ a w => (Ok a, w).
#[export] Instance W_bind E : MBind (W E) := fun _ _ f m w =>
  match m w with (Ok a, w) => f a w | (Err e, w) => (Err e, w) end.

Definition throw {E A} (e : E) : W E A := fun w => (Err e, w).
Definition lift {E A} (r : result E A) : W E A := fun w => (r, w).
Definition w_map_err {E F A} (f : E -> F) (m : W E A) : W F A := fun w =>
  let '(r, w) := m w in (map_err f r, w).
(** Inspecting a result: [match] on a call, [.is_err()]. *)
Definition attempt {E A} (m : W E A) : W ConfigError (result E A) := fun w =>
  let '(r, w) := m w in (Ok r, w).

(** ** System calls *)

Definition with_files (w : World) (files : FileSystem) : World :=
  {| w_files := files; w_calls := w_calls w; w_sequence := w_sequence w; w_armed := w_armed w |}.

(** One call: it fails without effect, or acts on the files. *)
Definition syscall {A} (act : FileSystem -> result IoKind (A * FileSystem)) : W IoKind A := fun w =>
  let w1 := {| w_files := w_files w; w_calls := S (w_calls w); w_sequence := w_sequence w;
               w_armed := w_armed w |} in
  if os_fails pf (w_calls w) then (Err OtherIo, w1)
  else match act (w_files w) with
       | Ok (a, files) => (Ok a, with_files w1 files)
       | Err e => (Err e, w1)
       end.

Definition fs_read (path : str) : W IoKind bytes :=
  syscall (fun files =>
    match files !! path with
    | Some (RegularFile content _) => Ok (content, files)
    | Some OtherNode => Err OtherIo
    | None => Err NotFound
    end).

Definition symlink_metadata (path : str) : W IoKind FileNode :=
  syscall (fun files => node ← ok_or (files !! path) NotFound; Ok (node, files)).

(** Calls that act on directories or handles only. *)
Definition plain_call : W IoKind unit := syscall (fun files => Ok (tt, files)).

Definition open_new (path : str) : W IoKind unit :=
  syscall (fun files =>
    match files !! path with
    | Some _ => Err AlreadyExists
    | None => Ok (tt, <[path := RegularFile [] true]> files)
    end).

(** [file.write_all(bytes)] on the temporary file: a failing write may leave
    part of the bytes. *)
Definition fs_write (path : str) (bs : bytes) : W IoKind unit := fun w =>
  let written content := alter (fun _ => RegularFile content true) path (w_files w) in
  let w1 files := {| w_files := files; w_calls := S (w_calls w); w_sequence := w_sequence w;
                     w_armed := w_armed w |} in
  if os_fails pf (w_calls w) then (Err OtherIo, w1 (written (take (os_written pf (w_calls w)) bs)))
  else (Ok tt, w1 (written bs)).

Definition fs_rename (from to : str) : W IoKind unit :=
  syscall (fun files =>
    node ← ok_or (files !! from) NotFound;
    Ok (tt, <[to := node]> (delete from files))).

Definition rename_no_replace (from to : str) : W IoKind unit :=
  syscall (fun files =>
    node ← ok_or (files !! from) NotFound;
    match files !! to with
    | Some _ => Err AlreadyExists
    | None => Ok (tt, <[to := node]> (delete from files))
    end).

Definition fs_remove (path : str) : W IoKind unit :=
  syscall (fun files => _ ← ok_or (files !! path) NotFound; Ok (tt, delete path files)).

(** [self.faults.check(point, path)] *)
Definition check_fault (point : MutationFailpoint) (path : str) : W IoKind unit := fun w =>
  let '(fails, files) := inject pf point path (w_files w) in
  ((if fails : bool then Err OtherIo else Ok tt), with_files w files).

Definition not_committed {A} (stage : MutationFailpoint) (m : W IoKind A) : W ConfigError A :=
  w_map_err (fun _ => CeNotCommitted stage) m.

Definition io_at {A} (path : str) (m : W IoKind A) : W ConfigError A :=
  w_map_err (fun _ => CeIo path) m.

(** ** Helpers *)

Definition ensure_parent (path : str) : W ConfigError str :=
  let directory := match path_parent pf path with Some (c :: p) => c :: p | _ => lit "." end in
  io_at directory plain_call ;; mret directory.

Definition temp_path (directory : str) (purpose : string) (sequence : N) : str :=
  path_join directory
    (lit ".dbotter-config." ++ lit purpose ++ lit ".tmp." ++ display_N (process_id pf)
       ++ lit "." ++ display_N sequence).

Definition create_temp (directory : str) (purpose : string) : W ConfigError str := fun w =>
  let temp := temp_path directory purpose (w_sequence w) in
  let w := {| w_files := w_files w; w_calls := w_calls w; w_sequence := (w_sequence w + 1)%N;
              w_armed := w_armed w |} in
  (io_at temp (open_new temp) ;; mret temp) w.

Definition set_armed (w : World) (armed : list str) : World :=
  {| w_files := w_files w; w_calls := w_calls w; w_sequence := w_sequence w; w_armed := armed |}.

(** [TempCleanup]: the guard lives to the end of [body]; dropped while armed it
    removes its file. *)
Definition with_cleanup {A} (temp : str) (body : W ConfigError A) : W ConfigError A := fun w =>
  let '(r, w) := body (set_armed w (temp :: w_armed w)) in
  if bool_decide (temp ∈ w_armed w) then
    let '(_, w) := fs_remove temp w in
    (r, set_armed w (List.filter (fun p => negb (bool_decide (p = temp))) (w_armed w)))
  else (r, w).

Definition disarm (temp : str) : W ConfigError unit := fun w =>
  (Ok tt, set_armed w (List.filter (fun p => negb (bool_decide (p = temp))) (w_armed w))).

Definition fingerprint (path : str) : W ConfigError (option bytes) := 
  read ← attempt (fs_read path);
  match read with
  | Ok bs => mret (Some bs)
  | Err NotFound => mret None
  | Err _ => throw (CeIo path)
  end.

Definition load_path (path : str) : W ConfigError LoadedConfig :=
  read ← attempt (fs_read path);
  match read with
  | Ok bs => lift (decode_config (toml_crate pf) bs)
  | Err NotFound => mret loaded_missing
  | Err _ => throw (CeIo path)
  end.

Definition backup_is_private_file (node : FileNode) : bool :=
  match node with RegularFile _ private => private | OtherNode => false end.

Definition read_existing_backup (path : str) : W ConfigError (option bytes) :=
  link ← attempt (symlink_metadata path);
  match link with
  | Err NotFound => mret None
  | Err _ => throw (CeIo path)
  | Ok node =>
      if negb (backup_is_private_file node) then throw (CeBackupConflict path)
      else
        io_at path plain_call ;;
        opened ← io_at path (symlink_metadata path);
        if negb (backup_is_private_file opened) then throw (CeBackupConflict path)
        else
          bs ← io_at path (fs_read path);
          mret (Some bs)
  end.

Definition sync_backup_directory (backup : str) : W ConfigError unit :=
  not_committed BackupDirectorySync (check_fault BackupDirectorySync backup) ;;
  not_committed BackupDirectorySync plain_call.

(** Checks a fault point, then makes the call, both reported at that stage. *)
Definition stage (point : MutationFailpoint) (path : str) (call : W IoKind unit) : W ConfigError unit :=
  not_committed point (check_fault point path) ;; not_committed point call.

(** [write_backup] from the first write to the directory sync. *)
Definition write_backup_body (temp backup : str) (original : bytes) : W ConfigError unit :=
  stage BackupWrite backup (fs_write temp original) ;;
  not_committed BackupWrite plain_call ;;
  stage BackupFileSync backup plain_call ;;
  not_committed BackupRename (check_fault BackupRename backup) ;;
  renamed ← attempt (rename_no_replace temp backup);
  match renamed with
  | Ok _ => disarm temp
  | Err AlreadyExists =>
      existing ← read_existing_backup backup;
      if bool_decide (existing = Some original) then mret tt
      else throw (CeBackupConflict backup)
  | Err _ => throw (CeNotCommitted BackupRename)
  end ;;
  sync_backup_directory backup.

Definition write_backup (backup : str) (original : bytes) : W ConfigError unit :=
  existing ← read_existing_backup backup;
  match existing with
  | Some existing =>
      if bool_decide (existing = original) then
        ensure_parent backup ;; sync_backup_directory backup
      else throw (CeBackupConflict backup)
  | None =>
      directory ← ensure_parent backup;
      not_committed BackupTempCreate (check_fault BackupTempCreate backup) ;;
      temp ← create_temp directory "backup";
      with_cleanup temp (write_backup_body temp backup original)
  end.

Definition prepare_migration (path : str) (loaded : LoadedConfig) (consent : MigrationConsent) :
    W ConfigError (option str) :=
  if negb (lc_migration_required loaded) then mret None
  else
    let backup := migration_backup_path path in
    if negb (bool_decide (consent = Confirmed)) then throw (CeMigrationConfirmationRequired backup)
    else write_backup backup (default [] (lc_original_bytes loaded)) ;; mret (Some backup).

(** [write_main] from the first write to the directory sync. *)
Definition write_main_body (temp path : str) (encoded : bytes) (expected : option bytes) :
    W ConfigError CommitState :=
  stage MainWrite path (fs_write temp encoded) ;;
  not_committed MainWrite plain_call ;;
  stage MainFileSync path plain_call ;;
  not_committed MainPreRename (check_fault MainPreRename path) ;;
  current ← fingerprint path;
  if negb (bool_decide (current = expected)) then throw CeExternalChange
  else
    not_committed MainPreRename (fs_rename temp path) ;;
    disarm temp ;;
    post ← attempt (check_fault MainPostRename path);
    if is_err post then mret CommittedDurabilityUnknown
    else
      sync ← attempt (check_fault MainDirectorySync path ;; plain_call);
      mret (if is_err sync then CommittedDurabilityUnknown else Committed).

Definition write_main (path : str) (encoded : bytes) (expected : option bytes) :
    W ConfigError CommitState :=
  directory ← ensure_parent path;
  not_committed MainTempCreate (check_fault MainTempCreate path) ;;
  temp ← create_temp directory "main";
  with_cleanup temp (write_main_body temp path encoded expected).

Definition observe_main (path : str) : W ConfigError LoadedConfig :=
  io_at path (check_fault MainObservationLoad path) ;;
  loaded ← load_path path;
  lift (map_err (fun _ => CeInvalidProfile) (validate_config_identity (lc_config loaded))) ;;
  if negb (bool_decide (lc_source_version loaded = SourceV2)) then throw CeExternalChange
  else mret loaded.

(** [None] is an id allocation that does not finish. *)
Definition mutate_path (path : str) (mutation : ConfigMutation) (consent : MigrationConsent) :
    W ConfigError MutationOutcome :=
  if lock_poisoned pf then throw CeWriterUnavailable
  else
    loaded ← load_path path;
    lift (map_err (fun _ => CeInvalidProfile) (validate_config_identity (lc_config loaded))) ;;
    lift (map_err (fun _ => CeInvalidProfile) (validate_config_mutation (ca_world pf) mutation)) ;;
    backup ← prepare_migration path loaded consent;
    '(config, affected) ← lift (default (Err CeInvalidProfile) (apply_mutation (lc_config loaded) mutation));
    let config := {| cfg_version := CURRENT_CONFIG_VERSION; cfg_profiles := cfg_profiles config |} in
    lift (map_err (fun _ => CeInvalidProfile) (validate_config_identity config)) ;;
    encoded ← lift (encode_config (toml_crate pf) config);
    state ← write_main path encoded (lc_fingerprint loaded);
    observed ← attempt (observe_main path);
    let '(state, observation) :=
      match observed with
      | Ok loaded => (state, Observed loaded)
      | Err source =>
          (CommittedDurabilityUnknown, ObservationFailed CommittedDurabilityUnknown source)
      end in
    mret {| mo_state := state; mo_observation := observation; mo_migration_backup := backup;
            mo_affected_profile_id := affected |}.
End writer.
