(* ===== verification/ConfigSafety.v ===== *)
(** * Safety of the configuration writer

    Atomic replacement, migration backup and cleanup of [mutate_path], and the
    invariants of the checked mutations. *)

From S2P Require Import Prelude RustStr Model Profile Config ConfigWriter.

(** ** Mutations keep identifiers unique *)

Definition ids (c : Config) : list str := p_id <$> cfg_profiles c.

Lemma id_is_free_spec profiles id : id_is_free profiles id = true <-> id ∉ (p_id <$> profiles).
Proof.
  unfold id_is_free. rewrite forallb_forall, list_elem_of_fmap. split.
  - intros Hall (p & -> & Hp%list_elem_of_In). specialize (Hall p Hp).
    by rewrite bool_decide_true in Hall.
  - intros Hno p Hp%list_elem_of_In. rewrite negb_true_iff, bool_decide_eq_false. naive_solver.
Qed.

Definition candidate (base_id : str) (suffix : N) : str := base_id ++ [45%N] ++ display_N suffix.

Lemma candidate_inj base_id a b : candidate base_id a = candidate base_id b -> a = b.
Proof. intros H%app_inv_head. injection H as H. by apply (inj display_N). Qed.

Lemma allocate_loop_fresh fuel base_id profiles suffix id :
  allocate_loop fuel base_id profiles suffix = Some id -> id ∉ (p_id <$> profiles).
Proof.
  revert suffix. induction fuel as [|fuel IH]; intros suffix; cbn [allocate_loop]; [done|].
  destruct (id_is_free profiles (base_id ++ [45%N] ++ display_N suffix)) eqn:E; [|apply IH].
  intros [= <-]. by apply id_is_free_spec in E.
Qed.

(** A loop that runs out has found its candidates taken. *)
Lemma allocate_loop_taken fuel base_id profiles suffix :
  (suffix + N.of_nat fuel <= U64_MAX)%N ->
  allocate_loop fuel base_id profiles suffix = None ->
  forall k, k < fuel -> candidate base_id (suffix + N.of_nat k) ∈ (p_id <$> profiles).
Proof.
  revert suffix. induction fuel as [|fuel IH]; intros suffix Hs; cbn [allocate_loop]; [lia|].
  destruct (id_is_free profiles (base_id ++ [45%N] ++ display_N suffix)) eqn:E; [done|].
  rewrite N.min_l by lia. intros Hn k Hk. destruct k as [|k].
  - rewrite N.add_0_r. destruct (decide (candidate base_id suffix ∈ (p_id <$> profiles))) as [|Hno]; [done|].
    apply id_is_free_spec in Hno. unfold candidate in Hno. congruence.
  - replace (suffix + N.of_nat (S k))%N with (suffix + 1 + N.of_nat k)%N by lia.
    apply IH; [lia|done|lia].
Qed.

Lemma allocate_loop_total base_id profiles :
  (N.of_nat (length profiles) + 3 <= U64_MAX)%N ->
  is_Some (allocate_loop (S (length profiles)) base_id profiles 2).
Proof.
  intros Hlen. destruct (allocate_loop _ _ _ _) as [id|] eqn:E; [eauto|exfalso].
  pose proof (allocate_loop_taken (S (length profiles)) base_id profiles 2 ltac:(lia) E) as Htaken.
  set (taken := (fun k => candidate base_id (2 + N.of_nat k)) <$> seq 0 (S (length profiles))).
  assert (NoDup taken) as Hnd.
  { apply NoDup_fmap_2; [|apply NoDup_seq]. intros a b Hab%candidate_inj. lia. }
  assert (taken ⊆ (p_id <$> profiles)) as Hsub.
  { intros x (k & -> & Hk%elem_of_seq)%list_elem_of_fmap. eapply Htaken. lia. }
  pose proof (submseteq_length _ _ (NoDup_submseteq _ _ Hnd Hsub)) as Hle.
  unfold taken in Hle. rewrite !length_fmap, length_seq in Hle. lia.
Qed.

(** Automatic ids: allocation terminates, for every base and every list of
    profiles that fits in memory, with an id no profile has; a free base is used
    as it is. *)
Theorem allocate_profile_id_fresh base_id profiles :
  (N.of_nat (length profiles) + 3 <= U64_MAX)%N ->
  exists id, allocate_profile_id base_id profiles = Some id /\
    (id ∉ (p_id <$> profiles)) /\
    ((base_id ∉ (p_id <$> profiles)) -> id = base_id).
Proof.
  intros Hlen. unfold allocate_profile_id. destruct (id_is_free profiles base_id) eqn:E.
  - apply id_is_free_spec in E. by exists base_id.
  - destruct (allocate_loop_total base_id profiles Hlen) as [id Hid]. exists id.
    split_and!; [done|by eapply allocate_loop_fresh|].
    intros Hno. apply id_is_free_spec in Hno. congruence.
Qed.

Lemma allocate_profile_id_fresh_witness :
  exists id, allocate_profile_id (lit "p") [sample_profile] = Some id /\ id ∉ ([lit "p"] : list str).
Proof.
  destruct (allocate_profile_id_fresh (lit "p") [sample_profile] ltac:(done)) as (id & H1 & H2 & _).
  by exists id.
Defined.

(** ** The configuration as a map

    [mutates] is the contract of a checked mutation over a finite map from
    identifiers to profiles. *)

Definition profile_map (c : Config) : gmap (list N) ConnectionProfile :=
  list_to_map ((fun p => (p_id p, p)) <$> cfg_profiles c).
#[local] Arguments profile_map : simpl never.

Inductive mutates (m : gmap (list N) ConnectionProfile) :
    ConfigMutation -> result ConfigError (gmap (list N) ConnectionProfile * option str) -> Prop :=
| created p : m !! p_id p = None ->
    mutates m (MutCreate p) (Ok (<[p_id p := p]> m, Some (p_id p)))
| create_taken p q : m !! p_id p = Some q ->
    mutates m (MutCreate p) (Err (CeProfileAlreadyExists (p_id p)))
| created_auto base_id p key : m !! key = None -> (m !! base_id = None -> key = base_id) ->
    mutates m (MutCreateAuto base_id p) (Ok (<[key := with_id p key]> m, Some key))
| updated key expected p : m !! key = Some expected ->
    mutates m (MutUpdateChecked key expected p) (Ok (<[key := p]> m, Some key))
| update_stale key expected p q : m !! key = Some q -> q <> expected ->
    mutates m (MutUpdateChecked key expected p) (Err CeExternalChange)
| update_missing key expected p : m !! key = None ->
    mutates m (MutUpdateChecked key expected p) (Err (CeProfileMissing key))
| deleted key expected : m !! key = Some expected ->
    mutates m (MutDeleteChecked key expected) (Ok (delete key m, Some key))
| delete_stale key expected q : m !! key = Some q -> q <> expected ->
    mutates m (MutDeleteChecked key expected) (Err CeExternalChange)
| delete_missing key expected : m !! key = None ->
    mutates m (MutDeleteChecked key expected) (Err (CeProfileMissing key)).

Definition abstract_outcome (r : result ConfigError (Config * option str)) :
    result ConfigError (gmap (list N) ConnectionProfile * option str) :=
  '(config, affected) ← r; Ok (profile_map config, affected).

Definition well_identified (profiles : list ConnectionProfile) : Prop :=
  Forall (fun p => valid_profile_id (p_id p) = true) profiles /\ NoDup (p_id <$> profiles).

Lemma validate_identity_from_spec profiles seen :
  validate_config_identity_from seen profiles = Ok tt <->
  well_identified profiles /\ (forall p, p ∈ profiles -> p_id p ∉ seen).
Proof.
  unfold well_identified. revert seen. induction profiles as [|p l IH]; intros seen; cbn.
  { split; [|done]. intros _. split_and!; [constructor..|set_solver]. }
  rewrite Forall_cons, NoDup_cons. destruct (validate_profile_id (p_id p)) as [[]|e] eqn:E; cbn.
  - apply validate_profile_id_Ok in E. case_bool_decide as Hin.
    + split; [done|]. intros [_ Hseen]. exfalso. apply (Hseen p); [left|done].
    + fold (validate_config_identity_from ({[p_id p]} ∪ seen) l). rewrite IH, list_elem_of_fmap.
      split; set_solver.
  - split; [done|]. intros [[[Hv _] _] _]. apply validate_profile_id_Ok in Hv. congruence.
Qed.

Lemma validate_identity_spec c :
  validate_config_identity c = Ok tt <-> well_identified (cfg_profiles c).
Proof.
  unfold validate_config_identity. rewrite validate_identity_from_spec. split; [by intros []|].
  intros H. split; [done|]. set_solver.
Qed.

Lemma profile_map_lookup c key p : NoDup (p_id <$> cfg_profiles c) ->
  profile_map c !! key = Some p <-> p ∈ cfg_profiles c /\ p_id p = key.
Proof.
  intros Hnd. unfold profile_map. rewrite <- elem_of_list_to_map by (by rewrite <- list_fmap_compose).
  rewrite list_elem_of_fmap. naive_solver.
Qed.

Lemma profile_map_absent c key : profile_map c !! key = None <-> key ∉ (p_id <$> cfg_profiles c).
Proof.
  unfold profile_map. rewrite <- not_elem_of_list_to_map. by rewrite <- list_fmap_compose.
Qed.

(** The profile at the position the code searches. *)
Lemma position_id_spec profiles key :
  match position (fun candidate => bool_decide (p_id candidate = key)) profiles with
  | Some index => exists l1 q l2, profiles = l1 ++ q :: l2 /\ index = length l1 /\ p_id q = key
  | None => key ∉ (p_id <$> profiles)
  end.
Proof.
  destruct (position _ _) as [index|] eqn:E.
  - apply position_Some in E as (q & Hq & Hid%bool_decide_eq_true & _).
    destruct (list_elem_of_split_length profiles index q Hq) as (l1 & l2 & -> & ->).
    by exists l1, q, l2.
  - apply position_None in E. intros (p & -> & Hp)%list_elem_of_fmap.
    rewrite Forall_forall in E. specialize (E p Hp). by rewrite bool_decide_true in E.
Qed.

Lemma list_insert_middle {A} (l1 l2 : list A) x y : <[length l1 := y]> (l1 ++ x :: l2) = l1 ++ y :: l2.
Proof. induction l1 as [|z l1 IH]; cbn; [done|]. by f_equal. Qed.

Lemma well_identified_middle l1 q l2 p :
  well_identified (l1 ++ q :: l2) -> p_id p = p_id q -> well_identified (l1 ++ p :: l2).
Proof.
  unfold well_identified. rewrite !Forall_app, !Forall_cons, !fmap_app, !fmap_cons.
  intros H ->. exact H.
Qed.

Lemma well_identified_delete l1 q l2 : well_identified (l1 ++ q :: l2) -> well_identified (l1 ++ l2).
Proof.
  unfold well_identified. rewrite !Forall_app, !Forall_cons, !fmap_app, !fmap_cons, !NoDup_app, !NoDup_cons.
  set_solver.
Qed.

Lemma well_identified_snoc l p :
  well_identified l -> valid_profile_id (p_id p) = true -> p_id p ∉ (p_id <$> l) ->
  well_identified (l ++ [p]).
Proof.
  unfold well_identified. rewrite Forall_app, Forall_singleton, fmap_app, NoDup_app.
  intros [Hv Hnd] Hp Hno. split_and!; [done..| |cbn; apply NoDup_singleton]. set_solver.
Qed.

Lemma ids_apart l1 q l2 : NoDup (p_id <$> (l1 ++ q :: l2)) ->
  (forall r, r ∈ l1 -> p_id r <> p_id q) /\ (forall r, r ∈ l2 -> p_id r <> p_id q).
Proof.
  rewrite fmap_app, fmap_cons, NoDup_app, NoDup_cons. intros (_ & Hd & Hn & _).
  setoid_rewrite elem_of_cons in Hd. split; intros r Hr He.
  - apply (Hd (p_id r)); [set_solver|by left].
  - apply Hn. rewrite <- He. set_solver.
Qed.

Lemma profile_map_middle v l1 q l2 : NoDup (p_id <$> (l1 ++ q :: l2)) ->
  profile_map {| cfg_version := v; cfg_profiles := l1 ++ q :: l2 |} !! p_id q = Some q.
Proof. intros Hnd. apply profile_map_lookup; cbn; [done|]. set_solver. Qed.

Lemma profile_map_replace v l1 q l2 p : p_id p = p_id q -> NoDup (p_id <$> (l1 ++ q :: l2)) ->
  profile_map {| cfg_version := v; cfg_profiles := l1 ++ p :: l2 |} =
  <[p_id q := p]> (profile_map {| cfg_version := v; cfg_profiles := l1 ++ q :: l2 |}).
Proof.
  intros Hid Hnd. assert (NoDup (p_id <$> (l1 ++ p :: l2))) as Hnd'.
  { rewrite fmap_app, fmap_cons in *. by rewrite Hid. }
  apply map_eq. intros key. apply option_eq. intros r.
  rewrite lookup_insert_Some, !profile_map_lookup by done. cbn.
  rewrite !elem_of_app, !elem_of_cons. destruct (ids_apart _ _ _ Hnd). naive_solver.
Qed.

Lemma profile_map_delete v l1 q l2 : NoDup (p_id <$> (l1 ++ q :: l2)) ->
  profile_map {| cfg_version := v; cfg_profiles := l1 ++ l2 |} =
  delete (p_id q) (profile_map {| cfg_version := v; cfg_profiles := l1 ++ q :: l2 |}).
Proof.
  intros Hnd. assert (NoDup (p_id <$> (l1 ++ l2))) as Hnd'.
  { rewrite fmap_app, fmap_cons, NoDup_app, NoDup_cons in *. set_solver. }
  apply map_eq. intros key. apply option_eq. intros r.
  rewrite lookup_delete_Some, !profile_map_lookup by done. cbn.
  rewrite !elem_of_app, !elem_of_cons. destruct (ids_apart _ _ _ Hnd). naive_solver.
Qed.

Lemma profile_map_snoc v l p : (p_id p ∉ (p_id <$> l)) -> NoDup (p_id <$> l) ->
  profile_map {| cfg_version := v; cfg_profiles := l ++ [p] |} =
  <[p_id p := p]> (profile_map {| cfg_version := v; cfg_profiles := l |}).
Proof.
  intros Hno Hnd. assert (NoDup (p_id <$> (l ++ [p]))) as Hnd'.
  { rewrite fmap_app, NoDup_app. split_and!; [done| |cbn; apply NoDup_singleton]. set_solver. }
  apply map_eq. intros key. apply option_eq. intros r.
  rewrite lookup_insert_Some, !profile_map_lookup by done. cbn. rewrite elem_of_app, list_elem_of_singleton.
  assert (forall r, r ∈ l -> p_id r <> p_id p) by (intros r' Hr He; apply Hno; rewrite <- He; set_solver).
  naive_solver.
Qed.

Lemma candidate_valid base_id suffix :
  valid_profile_id base_id = true -> valid_profile_id (candidate base_id suffix) = true.
Proof.
  unfold valid_profile_id, candidate. destruct base_id as [|c base_id]; [done|]. cbn [app].
  rewrite !andb_true_iff, !forallb_app, !andb_true_iff. intros [Hc Hb]. split_and!; [done..|].
  apply forallb_forall. intros d [<-|Hd%list_elem_of_In]; [done|]. pose proof (display_N_digits suffix) as Hall.
  rewrite Forall_forall in Hall. unfold is_ascii_alphanumeric. by rewrite (Hall d Hd), orb_true_r.
Qed.

Lemma allocate_loop_valid fuel base_id profiles suffix key :
  valid_profile_id base_id = true ->
  allocate_loop fuel base_id profiles suffix = Some key -> valid_profile_id key = true.
Proof.
  intros Hb. revert suffix. induction fuel as [|fuel IH]; intros suffix; cbn [allocate_loop]; [done|].
  destruct (id_is_free _ _); [|apply IH]. intros [= <-]. by apply candidate_valid.
Qed.

Lemma allocate_profile_id_spec base_id profiles :
  valid_profile_id base_id = true -> (N.of_nat (length profiles) + 3 <= U64_MAX)%N ->
  exists key, allocate_profile_id base_id profiles = Some key /\ valid_profile_id key = true /\
    (key ∉ (p_id <$> profiles)) /\ ((base_id ∉ (p_id <$> profiles)) -> key = base_id).
Proof.
  intros Hb Hlen. unfold allocate_profile_id. destruct (id_is_free profiles base_id) eqn:E.
  - apply id_is_free_spec in E. by exists base_id.
  - destruct (allocate_loop_total base_id profiles Hlen) as [key Hkey]. exists key.
    split_and!; [done|by eapply allocate_loop_valid|by eapply allocate_loop_fresh|].
    intros Hno. apply id_is_free_spec in Hno. congruence.
Qed.

Lemma validate_strict_id w p :
  validate_strict_persisted_profile w p = Ok tt -> valid_profile_id (p_id p) = true.
Proof.
  unfold validate_strict_persisted_profile. intros H. invert_ok.
  match goal with H : validate_profile_id _ = Ok ?u |- _ => destruct u; by apply validate_profile_id_Ok in H end.
Qed.

Lemma with_id_id p key : p_id (with_id p key) = key.
Proof. done. Qed.

(** What [apply_mutation_refines] says of one mutation. *)
Definition refined (c : Config) (mutation : ConfigMutation) : Prop :=
  exists r, apply_mutation c mutation = Some r /\
    mutates (profile_map c) mutation (abstract_outcome r) /\
    (forall c' affected, r = Ok (c', affected) -> well_identified (cfg_profiles c')).

Section refined.
Context (v : N) (l : list ConnectionProfile) (Hwf : well_identified l).
Let c := {| cfg_version := v; cfg_profiles := l |}.

Lemma create_refined p : valid_profile_id (p_id p) = true -> refined c (MutCreate p).
Proof using Hwf.
  intros Hv. destruct Hwf as [_ Hnd]. eexists. split; [done|]. cbn.
  destruct (existsb _ l) eqn:E.
  - split; [|done]. apply existsb_elem_of in E as (q & Hq & Hid%bool_decide_eq_true).
    apply (create_taken _ p q), profile_map_lookup; [done|]. by split.
  - assert (p_id p ∉ (p_id <$> l)) as Hno.
    { intros (q & Hq & Hin)%list_elem_of_fmap. rewrite existsb_false_elem_of in E.
      specialize (E q Hin). by rewrite bool_decide_true in E. }
    cbn. rewrite profile_map_snoc by done.
    split; [constructor; by apply profile_map_absent|]. intros ?? [= <- <-]. by apply well_identified_snoc.
Qed.

Lemma create_auto_refined base_id p :
  valid_profile_id base_id = true -> (N.of_nat (length l) + 3 <= U64_MAX)%N ->
  refined c (MutCreateAuto base_id p).
Proof using Hwf.
  intros Hb Hlen. destruct Hwf as [_ Hnd].
  destruct (allocate_profile_id_spec base_id l Hb Hlen) as (key & Hkey & Hv & Hno & Hbase).
  unfold refined. cbn. rewrite Hkey. cbn.
  eexists. split; [done|]. cbn. rewrite (profile_map_snoc v l (with_id p key)) by done. split.
  - constructor; [by apply profile_map_absent|]. intros Hn%profile_map_absent. auto.
  - intros ?? [= <- <-]. by apply well_identified_snoc.
Qed.

Lemma update_refined expected p : p_id p = p_id expected ->
  refined c (MutUpdateChecked (p_id expected) expected p).
Proof using Hwf.
  intros Hid. destruct Hwf as [_ Hnd]. eexists. split; [done|]. cbn.
  rewrite Hid, bool_decide_true by done. cbn.
  pose proof (position_id_spec l (p_id expected)) as Hpos. destruct (position _ l) as [i|].
  - destruct Hpos as (l1 & q & l2 & -> & -> & Hq). rewrite list_lookup_middle by done.
    rewrite <- Hq. case_bool_decide as Heq.
    + injection Heq as ->. cbn. rewrite list_insert_middle.
      rewrite (profile_map_replace _ l1 expected l2 p) by done. split.
      * constructor. by apply profile_map_middle.
      * intros ?? [= <- <-]. by eapply well_identified_middle.
    + split; [|done]. apply (update_stale _ _ _ _ q); [by apply profile_map_middle|congruence].
  - split; [|done]. constructor. by apply profile_map_absent.
Qed.

Lemma delete_refined expected : refined c (MutDeleteChecked (p_id expected) expected).
Proof using Hwf.
  destruct Hwf as [_ Hnd]. eexists. split; [done|]. cbn.
  pose proof (position_id_spec l (p_id expected)) as Hpos. destruct (position _ l) as [i|].
  - destruct Hpos as (l1 & q & l2 & -> & -> & Hq). rewrite list_lookup_middle by done.
    rewrite <- Hq. case_bool_decide as Heq.
    + injection Heq as ->. cbn. rewrite delete_middle.
      rewrite (profile_map_delete _ l1 expected l2) by done. split.
      * constructor. by apply profile_map_middle.
      * intros ?? [= <- <-]. by eapply well_identified_delete.
    + split; [|done]. apply (delete_stale _ _ _ q); [by apply profile_map_middle|congruence].
  - split; [|done]. constructor. by apply profile_map_absent.
Qed.
End refined.

Lemma apply_mutation_refined w c mutation :
  validate_config_identity c = Ok tt ->
  validate_config_mutation w mutation = Ok tt ->
  (N.of_nat (length (cfg_profiles c)) + 3 <= U64_MAX)%N ->
  refined c mutation.
Proof.
  intros Hwf%validate_identity_spec Hm Hlen. destruct c as [v l].
  destruct mutation as [p|base_id p|key expected p|key expected]; cbn in Hm.
  - apply create_refined; [done|]. by eapply validate_strict_id.
  - invert_ok. match goal with H : validate_profile_id _ = Ok ?u |- _ =>
      destruct u; apply validate_profile_id_Ok in H end. by apply create_auto_refined.
  - invert_ok. destruct (negb _) eqn:E1 in Hm; [done|]. destruct (negb _) eqn:E2 in Hm; [done|].
    apply negb_false_iff, bool_decide_eq_true in E1, E2. subst key. by apply update_refined.
  - invert_ok. match goal with H : negb _ = false |- _ =>
      apply negb_false_iff, bool_decide_eq_true in H; subst key end. by apply delete_refined.
Qed.

(** C38: checked mutations: on a configuration with valid, distinct identifiers, a
    mutation that passes validation acts on the profiles, seen as a map keyed by
    identifier, exactly as its contract says (with the contract's errors), always
    finishes, and leaves identifiers valid and distinct. *)
Theorem apply_mutation_refines w c mutation :
  validate_config_identity c = Ok tt ->
  validate_config_mutation w mutation = Ok tt ->
  (N.of_nat (length (cfg_profiles c)) + 3 <= U64_MAX)%N ->
  exists r, apply_mutation c mutation = Some r /\
    mutates (profile_map c) mutation (abstract_outcome r) /\
    (forall c' affected, r = Ok (c', affected) -> validate_config_identity c' = Ok tt).
Proof.
  intros Hc Hm Hlen. destruct (apply_mutation_refined w c mutation Hc Hm Hlen) as (r & Hr & Hmut & Hok).
  exists r. split_and!; [done..|]. intros c' affected Hr'. by eapply validate_identity_spec, Hok.
Qed.

Lemma apply_mutation_refines_witness :
  exists r, apply_mutation {| cfg_version := 2; cfg_profiles := [sample_profile] |}
              (MutCreateAuto (lit "p") sample_profile) = Some r /\
    exists profiles, r = Ok (profiles, Some (lit "p-2")).
Proof.
  destruct (apply_mutation_refines sample_ca {| cfg_version := 2; cfg_profiles := [sample_profile] |}
              (MutCreateAuto (lit "p") sample_profile) eq_refl eq_refl ltac:(done)) as (r & Hr & _).
  exists r. split; [exact Hr|]. injection Hr as <-. eexists. reflexivity.
Defined.
