(* ===== verification/WriterLogic.v ===== *)
(** * Reasoning about the configuration writer

    A weakest-precondition style calculus for the steps of [ConfigWriter]: the
    rules of the monad, and the steps that only look ([Keeps]). *)

From S2P Require Import Prelude RustStr Model Profile Config ConfigWriter.

(** [wp m w Q]: run from [w], [m] ends in a result and a world satisfying [Q]. *)

Definition wp {E A} (m : W E A) (w : World) (Q : result E A -> World -> Prop) : Prop :=
  Q (m w).1 (m w).2.

Lemma wp_mono {E A} (m : W E A) w (Q Q' : result E A -> World -> Prop) :
  wp m w Q -> (forall r w', Q r w' -> Q' r w') -> wp m w Q'.
Proof. unfold wp. auto. Qed.

Lemma wp_bind {E A B} (m : W E A) (f : A -> W E B) w Q :
  wp m w (fun r w' => match r with Ok a => wp (f a) w' Q | Err e => Q (Err e) w' end) ->
  wp (m ≫= f) w Q.
Proof. unfold wp, mbind, W_bind. by destruct (m w) as [[a|e] w']. Qed.

Lemma wp_ret {E A} (a : A) w (Q : result E A -> World -> Prop) : Q (Ok a) w -> wp (mret a) w Q.
Proof. done. Qed.

Lemma wp_throw {E A} (e : E) w (Q : result E A -> World -> Prop) : Q (Err e) w -> wp (throw e) w Q.
Proof. done. Qed.

Lemma wp_map_err {E F A} (f : E -> F) (m : W E A) w Q :
  wp m w (fun r w' => Q (map_err f r) w') -> wp (w_map_err f m) w Q.
Proof. unfold wp, w_map_err. by destruct (m w). Qed.

Lemma wp_attempt {E A} (m : W E A) w Q :
  wp m w (fun r w' => Q (Ok r) w') -> wp (attempt m) w Q.
Proof. unfold wp, attempt. by destruct (m w). Qed.

(** The files and the armed guards of two worlds agree. *)
Definition same (w w' : World) : Prop := w_files w' = w_files w /\ w_armed w' = w_armed w.

#[export] Instance same_refl : Reflexive same. Proof. by split. Qed.
#[export] Instance same_trans : Transitive same.
Proof. intros ??? [] []. split; etrans; eauto. Qed.

(** Steps that only look. *)
Definition Keeps {E A} (m : W E A) : Prop := forall w, same w (m w).2.

Lemma keeps_bind {E A B} (m : W E A) (f : A -> W E B) :
  Keeps m -> (forall a, Keeps (f a)) -> Keeps (m ≫= f).
Proof.
  intros Hm Hf w. unfold mbind, W_bind. specialize (Hm w). destruct (m w) as [[a|e] w']; [|done].
  etrans; [exact Hm|apply Hf].
Qed.

Lemma keeps_ret {E A} (a : A) : Keeps (mret a : W E A). Proof. by intros w. Qed.
Lemma keeps_throw {E A} (e : E) : Keeps (throw e : W E A). Proof. by intros w. Qed.
Lemma keeps_lift {E A} (r : result E A) : Keeps (lift r). Proof. by intros w. Qed.
Lemma keeps_map_err {E F A} (f : E -> F) (m : W E A) : Keeps m -> Keeps (w_map_err f m).
Proof. intros Hm w. unfold w_map_err. specialize (Hm w). by destruct (m w). Qed.
Lemma keeps_attempt {E A} (m : W E A) : Keeps m -> Keeps (attempt m).
Proof. intros Hm w. unfold attempt. specialize (Hm w). by destruct (m w). Qed.

Lemma keeps_syscall {A} (pf : Platform) (act : gmap (list N) FileNode -> result IoKind (A * gmap (list N) FileNode)) :
  (forall files a files', act files = Ok (a, files') -> files' = files) -> Keeps (syscall pf act).
Proof.
  intros Hact w. unfold syscall. destruct (os_fails _ _); [done|].
  destruct (act (w_files w)) as [[a files]|e] eqn:E; [|done]. by apply Hact in E as ->.
Qed.

Lemma keeps_plain_call (pf : Platform) : Keeps (plain_call pf).
Proof. apply keeps_syscall. naive_solver. Qed.
Lemma keeps_fs_read (pf : Platform) path : Keeps (fs_read pf path).
Proof. apply keeps_syscall. intros files a files'. repeat case_match; naive_solver. Qed.
Lemma keeps_symlink_metadata (pf : Platform) path : Keeps (symlink_metadata pf path).
Proof.
  apply keeps_syscall. intros files a files' H. destruct (files !! path); cbn in H; [by simplify_eq|done].
Qed.

Create HintDb keeps.
#[export] Hint Resolve keeps_bind keeps_ret keeps_throw keeps_lift keeps_map_err keeps_attempt
  keeps_plain_call keeps_fs_read keeps_symlink_metadata : keeps.
#[export] Hint Unfold not_committed io_at : keeps.

Ltac keeps :=
  repeat first [ progress (autounfold with keeps) | progress intros | case_match | solve [auto 2 with keeps]
               | apply keeps_bind | apply keeps_map_err | apply keeps_attempt ].

Lemma keeps_load_path (pf : Platform) path : Keeps (load_path pf path).
Proof. unfold load_path. keeps. Qed.
Lemma keeps_fingerprint (pf : Platform) path : Keeps (fingerprint pf path).
Proof. unfold fingerprint. keeps. Qed.
Lemma keeps_ensure_parent (pf : Platform) path : Keeps (ensure_parent pf path).
Proof. unfold ensure_parent. keeps. Qed.
Lemma keeps_read_existing_backup (pf : Platform) path : Keeps (read_existing_backup pf path).
Proof. unfold read_existing_backup. keeps. Qed.
#[export] Hint Resolve keeps_load_path keeps_fingerprint keeps_ensure_parent
  keeps_read_existing_backup : keeps.

(** A looking step first. *)
Lemma wp_keeps {E A B} (m : W E A) (f : A -> W E B) w Q :
  Keeps m ->
  (forall e w', same w w' -> Q (Err e) w') ->
  (forall a w', same w w' -> m w = (Ok a, w') -> wp (f a) w' Q) ->
  wp (m ≫= f) w Q.
Proof.
  intros Hk He Hok. apply wp_bind. unfold wp. specialize (Hk w).
  destruct (m w) as [[a|e] w']; cbn in *; [by apply Hok|by apply He].
Qed.
