(* ===== verification/WriterSafety.v ===== *)
(** * Safety of the configuration writer (src/src/config.rs, [mutate_path])

    What the writer leaves in the file system, whatever operating-system calls
    fail and whatever faults are injected: atomic replacement of the main file,
    lossless migration backup, refusal to overwrite an external change, removal
    of temporary files. *)

From S2P Require Import Prelude RustStr Model Profile Config ConfigWriter ConfigSafety WriterLogic.


(** ** The writer's steps against a quiet injector

    Other processes act only just before the main rename, where they may have
    replaced the file ([external]). *)

Definition overwrite (external : option FileNode) (path : str) (files : gmap (list N) FileNode) :
    gmap (list N) FileNode :=
  match external with Some node => <[path := node]> files | None => files end.

(** What [fingerprint] reads from a node, when it reads. *)
Definition node_bytes (node : option FileNode) : option bytes :=
  match node with Some (RegularFile content _) => Some content | _ => None end.

Section safety.
Context (pf : Platform) (external : option FileNode).
Context (quiet : forall point path files, point <> MainPreRename ->
  (inject pf point path files).2 = files).
Context (replaced : forall path files,
  (inject pf MainPreRename path files).2 = overwrite external path files).

Lemma keeps_check_fault point path : point <> MainPreRename -> Keeps (check_fault pf point path).
Proof using quiet.
  intros Hp w. unfold check_fault. pose proof (quiet point path (w_files w) Hp).
  destruct (inject _ _ _ _) as [b files]; cbn in *. subst. by destruct w.
Qed.
#[local] Hint Resolve keeps_check_fault : keeps.

Lemma keeps_stage point path call :
  point <> MainPreRename -> Keeps call -> Keeps (stage pf point path call).
Proof using quiet. intros Hp Hc. unfold stage. keeps. Qed.

Lemma keeps_sync_backup_directory backup : Keeps (sync_backup_directory pf backup).
Proof using quiet. unfold sync_backup_directory. keeps; by apply keeps_check_fault. Qed.

Lemma keeps_observe_main path : Keeps (observe_main pf path).
Proof using quiet. unfold observe_main. keeps; by apply keeps_check_fault. Qed.

(** A fresh temporary file is empty and private. *)
Lemma wp_create_temp directory purpose w Q :
  (forall w', w_files w' = w_files w -> w_armed w' = w_armed w -> forall e, Q (Err e) w') ->
  (forall w' temp, temp = temp_path pf directory purpose (w_sequence w) ->
     w_files w !! temp = None -> w_armed w' = w_armed w ->
     w_files w' = <[temp := RegularFile [] true]> (w_files w) -> Q (Ok temp) w') ->
  wp (create_temp pf directory purpose) w Q.
Proof.
  intros He Hok. unfold wp, create_temp, open_new, io_at, syscall, w_map_err, mbind, W_bind. cbn.
  set (temp := temp_path _ _ _ _). destruct (os_fails _ _); [by apply He|].
  destruct (w_files w !! temp) eqn:Et; [by apply He|]. by apply Hok.
Qed.

Lemma wp_write point path temp bs old w Q :
  point <> MainPreRename -> w_files w !! temp = Some old ->
  (forall w' e node, w_files w' = <[temp := node]> (w_files w) -> w_armed w' = w_armed w ->
     Q (Err e) w') ->
  (forall w', w_files w' = <[temp := RegularFile bs true]> (w_files w) -> w_armed w' = w_armed w ->
     Q (Ok tt) w') ->
  wp (stage pf point path (fs_write pf temp bs)) w Q.
Proof using quiet.
  intros Hp Hold He Hok. unfold stage, not_committed. apply wp_keeps.
  - apply keeps_map_err. by apply keeps_check_fault.
  - intros e w' [Hf Ha]. apply (He _ _ old); [by rewrite Hf, insert_id|done].
  - intros [] w' [Hf Ha] _. apply wp_map_err. unfold wp, fs_write.
    assert (forall node, alter (fun _ => node) temp (w_files w') = <[temp := node]> (w_files w)) as Halter.
    { intros node. rewrite Hf. apply map_eq. intros k. destruct (decide (k = temp)) as [->|].
      - by rewrite lookup_alter_eq, lookup_insert_eq, Hold.
      - by rewrite lookup_alter_ne, lookup_insert_ne. }
    destruct (os_fails _ _); cbn; rewrite Halter; [by eapply He|by apply Hok].
Qed.

Lemma fingerprint_Ok path w w' fp : fingerprint pf path w = (Ok fp, w') ->
  fp = node_bytes (w_files w !! path) /\ w_files w !! path <> Some OtherNode.
Proof.
  unfold fingerprint, attempt, fs_read, syscall, mbind, W_bind, throw. cbn.
  destruct (os_fails _ _); [done|]. destruct (w_files w !! path) as [[content b|]|] eqn:Hn; cbn; [|done|];
    intros H; injection H as <- <-; by rewrite ?Hn.
Qed.

Definition unarmed (temp : str) (armed : list str) : list str :=
  List.filter (fun p => negb (bool_decide (p = temp))) armed.
#[local] Arguments unarmed : simpl never.

(** The files once the temporary file has replaced the main one. *)
Definition replaced_main (temp path : str) (encoded : bytes) (files : gmap (list N) FileNode) :=
  <[path := RegularFile encoded true]> (delete temp files).

Lemma rename_over temp path encoded files : temp <> path ->
  <[path := RegularFile encoded true]>
    (delete temp (overwrite external path (<[temp := RegularFile encoded true]> files))) =
  replaced_main temp path encoded files.
Proof.
  intros Hne. unfold replaced_main. apply map_eq. intros k. destruct (decide (k = path)) as [->|].
  - by rewrite !lookup_insert_eq.
  - rewrite !lookup_insert_ne by done. destruct (decide (k = temp)) as [->|].
    + by rewrite !lookup_delete_eq.
    + rewrite !lookup_delete_ne by done. destruct external; cbn; by rewrite ?lookup_insert_ne.
Qed.

Lemma overwrite_temp temp path node files : temp <> path ->
  overwrite external path (<[temp := node]> files) !! temp = Some node.
Proof. intros. destruct external; cbn; by rewrite ?(lookup_insert_ne _ path), lookup_insert_eq. Qed.

Lemma overwrite_path temp path node files : temp <> path ->
  overwrite external path (<[temp := node]> files) !! path = overwrite external path files !! path.
Proof. intros. destruct external; cbn; by rewrite ?lookup_insert_eq, ?(lookup_insert_ne _ temp). Qed.

(** What a failed [write_main] body leaves. *)
Definition abandoned (temp path : str) (files files' : gmap (list N) FileNode) : Prop :=
  exists node, files' = <[temp := node]> files \/ files' = overwrite external path (<[temp := node]> files).

Definition main_post (temp path : str) (encoded : bytes) (expected : option bytes) (w : World)
    (r : result ConfigError CommitState) (w' : World) : Prop :=
  match r with
  | Ok _ =>
      w_files w' = replaced_main temp path encoded (w_files w) /\
      w_armed w' = unarmed temp (w_armed w) /\
      let seen := overwrite external path (w_files w) !! path in
      node_bytes seen = expected /\ seen <> Some OtherNode
  | Err _ => abandoned temp path (w_files w) (w_files w') /\ w_armed w' = w_armed w
  end.

(** After the rename nothing touches the files and nothing fails. *)
Lemma wp_after_rename temp path w Q :
  (forall st w', w_files w' = w_files w -> w_armed w' = unarmed temp (w_armed w) -> Q (Ok st) w') ->
  wp (disarm temp ;;
      post ← attempt (check_fault pf MainPostRename path);
      if is_err post then mret CommittedDurabilityUnknown
      else
        sync ← attempt (check_fault pf MainDirectorySync path ;; plain_call pf);
        mret (if is_err sync then CommittedDurabilityUnknown else Committed)) w Q.
Proof using quiet.
  intros HQ. apply wp_bind. unfold wp at 1. cbn. set (w0 := set_armed _ _).
  apply wp_bind, wp_attempt. pose proof (keeps_check_fault MainPostRename path ltac:(done) w0) as [Hf Ha].
  unfold wp at 1. destruct (check_fault pf MainPostRename path w0) as [r w1]. cbn in Hf, Ha |- *.
  destruct (is_err r); [by apply HQ|].
  apply wp_bind, wp_attempt.
  assert (Keeps (check_fault pf MainDirectorySync path ;; plain_call pf)) as Hk
    by (keeps; by apply keeps_check_fault).
  specialize (Hk w1) as [Hf1 Ha1]. unfold wp at 1.
  destruct ((check_fault pf MainDirectorySync path ;; plain_call pf) w1) as [r1 w2]. cbn in Hf1, Ha1 |- *.
  apply wp_ret, HQ; unfold unarmed; congruence.
Qed.

Lemma wp_rename_main temp path encoded expected w w1 :
  temp <> path ->
  w_files w1 = overwrite external path (<[temp := RegularFile encoded true]> (w_files w)) ->
  w_armed w1 = w_armed w ->
  node_bytes (overwrite external path (w_files w) !! path) = expected ->
  overwrite external path (w_files w) !! path <> Some OtherNode ->
  wp (not_committed MainPreRename (fs_rename pf temp path)) w1 (fun r w2 =>
    match r with
    | Ok _ => w_files w2 = replaced_main temp path encoded (w_files w) /\ w_armed w2 = w_armed w
    | Err _ => abandoned temp path (w_files w) (w_files w2) /\ w_armed w2 = w_armed w
    end).
Proof.
  intros Hne Hf Ha Hexp Hother. apply wp_map_err. unfold wp, fs_rename, syscall.
  destruct (os_fails _ _); cbn; [split; [|done]; unfold abandoned; eauto|].
  rewrite Hf, overwrite_temp by done. cbn. by rewrite rename_over.
Qed.

Lemma wp_check_pre_rename path w Q :
  (forall r w', w_files w' = overwrite external path (w_files w) -> w_armed w' = w_armed w -> Q r w') ->
  wp (not_committed MainPreRename (check_fault pf MainPreRename path)) w Q.
Proof using replaced.
  intros HQ. apply wp_map_err. unfold wp, check_fault. pose proof (replaced path (w_files w)) as Hr.
  destruct (inject _ _ _ _) as [b files]. by apply HQ.
Qed.

Lemma wp_write_main_body temp path encoded expected w :
  temp <> path -> is_Some (w_files w !! temp) ->
  wp (write_main_body pf temp path encoded expected) w (main_post temp path encoded expected w).
Proof using quiet replaced.
  intros Hne [old Hold]. unfold write_main_body. apply wp_bind.
  assert (forall w', abandoned temp path (w_files w) (w_files w') -> w_armed w' = w_armed w ->
    forall e, main_post temp path encoded expected w (Err e) w') as Hfail by (by intros; split).
  apply (wp_write _ _ _ _ old); [done..| |].
  { intros w' e node Hf Ha. apply Hfail; [|done]. exists node. by left. }
  intros w1 Hf1 Ha1. 
  assert (forall w', w_files w' = w_files w1 -> abandoned temp path (w_files w) (w_files w')) as Hleft.
  { intros w' ->. eexists. left. exact Hf1. }
  apply wp_keeps; [keeps| |].
  { intros e w' [Hf Ha]. apply Hfail; [auto|by rewrite Ha]. }
  intros _ w2 [Hf2 Ha2] _. apply wp_keeps.
  { apply keeps_stage; [done|keeps]. }
  { intros e w' [Hf Ha]. apply Hfail; [apply Hleft; congruence|congruence]. }
  intros _ w3 [Hf3 Ha3] _. apply wp_bind, wp_check_pre_rename. intros r w4 Hf4 Ha4.
  assert (w_files w4 = overwrite external path (<[temp := RegularFile encoded true]> (w_files w))) as Hf4' by congruence.
  assert (forall w', w_files w' = w_files w4 -> abandoned temp path (w_files w) (w_files w')) as Hleft4.
  { intros w' ->. eexists. right. exact Hf4'. }
  destruct r as [[]|e]; [|apply Hfail; [auto|congruence]].
  apply wp_keeps; [keeps| |].
  { intros e w' [Hf Ha]. apply Hfail; [auto|congruence]. }
  intros fp w5 [Hf5 Ha5] [Hfp Hother]%fingerprint_Ok.
  rewrite Hf4', overwrite_path in Hfp, Hother by done.
  case_bool_decide as Heq; cbn [negb].
  2: { apply wp_throw, Hfail; [auto|congruence]. }
  apply wp_bind. eapply wp_mono; [apply (wp_rename_main temp path encoded expected w); try done; congruence|].
  intros [[]|e] w6; [|intros [? ?]; by apply Hfail].
  intros [Hf6 Ha6]. apply wp_after_rename. intros st w7 Hf7 Ha7.
  unfold main_post. cbn. split_and!; congruence.
Qed.

Lemma unarmed_not_in temp armed : temp ∉ unarmed temp armed.
Proof.
  unfold unarmed. rewrite list_elem_of_In, filter_In. intros [_ H].
  by rewrite bool_decide_true in H.
Qed.

(** An armed guard removes its file, unless the operating system refuses. *)
Lemma wp_with_cleanup {A} temp (body : W ConfigError A) w Q :
  wp body (set_armed w (temp :: w_armed w)) (fun r w1 =>
    if decide (temp ∈ w_armed w1) then
      forall w2, (w_files w2 = delete temp (w_files w1)
                  \/ (w_files w2 = w_files w1 /\ exists n, os_fails pf n = true)) -> Q r w2
    else Q r w1) ->
  wp (with_cleanup pf temp body) w Q.
Proof.
  unfold wp, with_cleanup. destruct (body _) as [r w1]. cbn. intros H.
  case_decide as Hin; [rewrite bool_decide_true by done|by rewrite bool_decide_false].
  unfold fs_remove, syscall. destruct (os_fails _ _) eqn:Hfail; cbn; [apply H; right; eauto|].
  destruct (w_files w1 !! temp) eqn:Ht; cbn; apply H; left; cbn; [done|].
  by rewrite delete_id.
Qed.

(** The files are [base], or [base] with a stray temporary file that the
    operating system refused to remove. *)
Definition stray (purpose : string) (files base files' : gmap (list N) FileNode) : Prop :=
  files' = base \/
  exists directory sequence node n, os_fails pf n = true /\
    let temp := temp_path pf directory purpose sequence in
    files !! temp = None /\ files' = <[temp := node]> base.

Definition write_main_post (path : str) (encoded : bytes) (expected : option bytes) (w : World)
    (r : result ConfigError CommitState) (w' : World) : Prop :=
  match r with
  | Ok _ =>
      w_files w' = <[path := RegularFile encoded true]> (w_files w) /\
      let seen := overwrite external path (w_files w) !! path in
      node_bytes seen = expected /\ seen <> Some OtherNode
  | Err _ =>
      stray "main" (w_files w) (w_files w) (w_files w') \/
      stray "main" (w_files w) (overwrite external path (w_files w)) (w_files w')
  end.

Lemma overwrite_insert temp path node files : temp <> path ->
  overwrite external path (<[temp := node]> files) = <[temp := node]> (overwrite external path files).
Proof. intros. destruct external; cbn; [by rewrite insert_insert_ne|done]. Qed.

Lemma overwrite_lookup_ne temp path files : temp <> path ->
  overwrite external path files !! temp = files !! temp.
Proof. intros. destruct external; cbn; [by rewrite lookup_insert_ne|done]. Qed.

Lemma wp_write_main path encoded expected w :
  (forall directory sequence, temp_path pf directory "main" sequence <> path) ->
  wp (write_main pf path encoded expected) w (write_main_post path encoded expected w).
Proof using quiet replaced.
  intros Hne. unfold write_main.
  assert (forall e w', w_files w' = w_files w -> write_main_post path encoded expected w (Err e) w') as Hfail
    by (intros e w' Hf; left; by left).
  apply wp_keeps; [auto with keeps| |].
  { intros e w' [Hf _]. by apply Hfail. }
  intros directory w1 [Hf1 _] _. apply wp_keeps.
  { apply keeps_map_err. by apply keeps_check_fault. }
  { intros e w' [Hf _]. apply Hfail. congruence. }
  intros _ w2 [Hf2 _] _. apply wp_bind, wp_create_temp.
  { intros w' Hf _ e. apply Hfail. congruence. }
  intros w3 temp -> Hfresh _ Hf3. set (temp := temp_path _ _ _ _) in *.
  assert (temp <> path) as Htemp by apply Hne. rewrite Hf2, Hf1 in Hfresh, Hf3.
  apply wp_with_cleanup. eapply wp_mono.
  { apply wp_write_main_body; [done|]. cbn. rewrite Hf3, lookup_insert_eq. eauto. }
  intros [st|e] w4; unfold main_post; cbn; rewrite Hf3.
  - intros (Hf & Ha & Hseen). rewrite decide_False by (rewrite Ha; apply unarmed_not_in).
    rewrite overwrite_path in Hseen by done. split; [|done].
    rewrite Hf. unfold replaced_main. by rewrite delete_insert_id by done.
  - intros [(node & Hf) Ha]. rewrite decide_True by (rewrite Ha; by left).
    rewrite insert_insert_eq in Hf.
    intros w5 Hf5. destruct Hf as [Hf|Hf]; [left|right; rewrite overwrite_insert in Hf by done];
      rewrite Hf in Hf5; destruct Hf5 as [-> | [-> [n Hn]]].
    + left. by rewrite delete_insert_id.
    + right. by exists directory, (w_sequence w2), node, n.
    + left. rewrite delete_insert_id; [done|by rewrite overwrite_lookup_ne].
    + right. by exists directory, (w_sequence w2), node, n.
Qed.

(** Temporary names end in the sequence number. *)
Lemma temp_path_last directory purpose sequence :
  exists d, last (temp_path pf directory purpose sequence) = Some d /\ is_ascii_digit d = true.
Proof.
  assert (exists d, last (display_N sequence) = Some d /\ is_ascii_digit d = true) as (d & Hd & Hdig).
  { destruct (last (display_N sequence)) as [d|] eqn:Hl.
    - exists d. split; [done|]. apply last_Some_elem_of in Hl. pose proof (display_N_digits sequence) as Hall.
      rewrite Forall_forall in Hall. auto.
    - apply last_None in Hl. by apply display_N_nonempty in Hl. }
  exists d. split; [|done].
  assert (forall l : str, last (l ++ display_N sequence) = Some d) as Hlast by (intros; by rewrite last_app, Hd).
  unfold temp_path, path_join. rewrite !app_assoc. destruct (last directory); [case_match|];
    by rewrite ?app_assoc, Hlast.
Qed.

Lemma temp_not_backup directory purpose sequence path :
  temp_path pf directory purpose sequence <> migration_backup_path path.
Proof.
  intros H. destruct (temp_path_last directory purpose sequence) as (d & Hd & Hdig). rewrite H in Hd.
  unfold migration_backup_path in Hd. rewrite last_app in Hd. injection Hd as <-. done.
Qed.

Lemma backup_not_main path : migration_backup_path path <> path.
Proof.
  intros H. apply (f_equal length) in H. unfold migration_backup_path in H. rewrite length_app in H.
  cbn in H. lia.
Qed.

Lemma symlink_metadata_Ok path w w' node : symlink_metadata pf path w = (Ok node, w') ->
  w_files w !! path = Some node.
Proof.
  unfold symlink_metadata, syscall. destruct (os_fails _ _); [done|].
  destruct (w_files w !! path); cbn; [|done]. intros H. by injection H as <- <-.
Qed.

Lemma symlink_metadata_NotFound path w w' : symlink_metadata pf path w = (Err NotFound, w') ->
  w_files w !! path = None.
Proof.
  unfold symlink_metadata, syscall. destruct (os_fails _ _); [done|]. by destruct (w_files w !! path).
Qed.

Lemma fs_read_Ok path w w' bs : fs_read pf path w = (Ok bs, w') ->
  exists private, w_files w !! path = Some (RegularFile bs private).
Proof.
  unfold fs_read, syscall. destruct (os_fails _ _); [done|].
  destruct (w_files w !! path) as [[content b|]|]; cbn; [|done|done].
  intros H. injection H as <- <-. eauto.
Qed.

Lemma wp_read_existing_backup path w Q :
  (forall e w', same w w' -> Q (Err e) w') ->
  (forall w', same w w' -> w_files w !! path = None -> Q (Ok None) w') ->
  (forall w' bs, same w w' -> w_files w !! path = Some (RegularFile bs true) -> Q (Ok (Some bs)) w') ->
  wp (read_existing_backup pf path) w Q.
Proof.
  intros He Hnone Hsome. unfold read_existing_backup. apply wp_bind, wp_attempt. unfold wp at 1.
  pose proof (keeps_symlink_metadata pf path w) as Hk.
  destruct (symlink_metadata pf path w) as [[node|[]] w1] eqn:Hm; cbn in Hk |- *.
  2: { apply symlink_metadata_NotFound in Hm. by apply wp_ret, Hnone. }
  2,3: by apply wp_throw, He.
  apply symlink_metadata_Ok in Hm. destruct node as [content private|]; cbn; [|by apply wp_throw, He].
  destruct private; cbn; [|by apply wp_throw, He].
  apply wp_keeps; [keeps|intros e w' Hs; apply He; by etrans|]. intros _ w2 Hs2 _.
  apply wp_keeps; [keeps|intros e w' Hs; apply He; etrans; [exact Hk|by etrans]|].
  intros node w3 Hs3 _. destruct (negb _); [apply wp_throw, He; etrans; [exact Hk|by etrans]|].
  assert (same w w3) as Hw3 by (etrans; [exact Hk|by etrans]).
  apply wp_keeps; [keeps|intros e w' Hs; apply He; by etrans|]. intros bs w4 Hs4 Hread.
  apply wp_ret, Hsome; [by etrans|]. unfold io_at, w_map_err in Hread.
  destruct (fs_read pf path w3) as [[bs'|e] w5] eqn:Hf; [|done]. cbn in Hread. injection Hread as -> ->.
  apply fs_read_Ok in Hf as [b Hb]. destruct Hw3 as [Hw3 _]. rewrite Hw3, Hm in Hb. congruence.
Qed.

Definition installed (temp backup : str) (original : bytes) (w w' : World) : Prop :=
  w_files w' = <[backup := RegularFile original true]> (delete temp (w_files w)) /\
  w_armed w' = unarmed temp (w_armed w).

Definition backup_body_post (temp backup : str) (original : bytes) (w : World)
    (r : result ConfigError unit) (w' : World) : Prop :=
  match r with
  | Ok _ => installed temp backup original w w'
  | Err _ =>
      (exists node, w_files w' = <[temp := node]> (w_files w) /\ w_armed w' = w_armed w)
      \/ installed temp backup original w w'
  end.

Lemma wp_install temp backup original w w1 :
  temp <> backup -> w_files w !! backup = None ->
  w_files w1 = <[temp := RegularFile original true]> (w_files w) -> w_armed w1 = w_armed w ->
  wp (renamed ← attempt (rename_no_replace pf temp backup);
      match renamed with
      | Ok _ => disarm temp
      | Err AlreadyExists =>
          existing ← read_existing_backup pf backup;
          if bool_decide (existing = Some original) then mret tt
          else throw (CeBackupConflict backup)
      | Err _ => throw (CeNotCommitted BackupRename)
      end ;;
      sync_backup_directory pf backup) w1 (backup_body_post temp backup original w).
Proof using quiet.
  intros Hne Hnone Hf Ha. apply wp_bind, wp_attempt. unfold wp at 1, rename_no_replace, syscall.
  destruct (os_fails _ _); cbn.
  { apply wp_bind, wp_throw. left. eauto. }
  rewrite Hf, lookup_insert_eq, lookup_insert_ne, Hnone by done. cbn. apply wp_bind. unfold wp at 1. cbn.
  pose proof (keeps_sync_backup_directory backup) as Hk.
  set (w2 := set_armed _ _). specialize (Hk w2) as [Hf2 Ha2]. unfold wp.
  assert (installed temp backup original w (sync_backup_directory pf backup w2).2) as Hinst.
  { split; [rewrite Hf2|rewrite Ha2]; cbn.
    - by rewrite delete_insert_eq.
    - unfold unarmed. by rewrite Ha. }
  destruct (sync_backup_directory pf backup w2) as [[[]|e] w3]; [done|by right].
Qed.

Lemma wp_write_backup_body temp backup original w :
  temp <> backup -> is_Some (w_files w !! temp) -> w_files w !! backup = None ->
  wp (write_backup_body pf temp backup original) w (backup_body_post temp backup original w).
Proof using quiet.
  intros Hne [old Hold] Hnone. unfold write_backup_body. apply wp_bind.
  apply (wp_write _ _ _ _ old); [done..| |].
  { intros w' e node Hf Ha. left. eauto. }
  intros w1 Hf1 Ha1.
  assert (forall w', same w1 w' -> forall e, backup_body_post temp backup original w (Err e) w') as Hfail.
  { intros w' [Hf Ha] e. left. eexists. by rewrite Hf, Ha, Hf1. }
  apply wp_keeps; [keeps|intros e w' Hs; by apply Hfail|]. intros _ w2 Hs2 _.
  apply wp_keeps; [apply keeps_stage; [done|keeps]|intros e w' Hs; apply Hfail; by etrans|]. intros _ w3 Hs3 _.
  apply wp_keeps; [apply keeps_map_err; by apply keeps_check_fault|intros e w' Hs; apply Hfail|].
  { etrans; [exact Hs2|by etrans]. }
  intros _ w4 Hs4 _. assert (same w1 w4) as [Hf4 Ha4] by (etrans; [exact Hs2|by etrans]).
  apply wp_install; [done|done|congruence|congruence].
Qed.

Definition backup_post (backup : str) (original : bytes) (w : World)
    (r : result ConfigError unit) (w' : World) : Prop :=
  let files_backed := <[backup := RegularFile original true]> (w_files w) in
  match r with
  | Ok _ =>
      w_files w' = files_backed
      /\ (w_files w !! backup = None \/ w_files w !! backup = Some (RegularFile original true))
  | Err _ =>
      stray "backup" (w_files w) (w_files w) (w_files w')
      \/ (w_files w !! backup = None /\ stray "backup" (w_files w) files_backed (w_files w'))
  end.

Lemma wp_write_backup backup original w :
  (forall directory sequence, temp_path pf directory "backup" sequence <> backup) ->
  wp (write_backup pf backup original) w (backup_post backup original w).
Proof using quiet.
  intros Hne. unfold write_backup.
  assert (forall w', w_files w' = w_files w -> forall e, backup_post backup original w (Err e) w') as Hfail
    by (intros w' Hf e; left; by left).
  apply wp_bind, wp_read_existing_backup.
  { intros e w' [Hf _]. by apply Hfail. }
  - intros w1 [Hf1 _] Hnone. apply wp_keeps; [auto with keeps|intros e w' [Hf _]; apply Hfail; congruence|].
    intros directory w2 [Hf2 _] _.
    apply wp_keeps; [apply keeps_map_err; by apply keeps_check_fault| |].
    { intros e w' [Hf _]. apply Hfail; congruence. }
    intros _ w3 [Hf3 _] _. apply wp_bind, wp_create_temp.
    { intros w' Hf _ e. apply Hfail; congruence. }
    intros w4 temp -> Hfresh _ Hf4. set (temp := temp_path _ _ _ _) in *.
    assert (temp <> backup) as Htemp by apply Hne. rewrite Hf3, Hf2, Hf1 in Hfresh, Hf4.
    apply wp_with_cleanup. eapply wp_mono.
    { apply wp_write_backup_body; [done| |]; cbn; rewrite Hf4; [rewrite lookup_insert_eq; eauto|].
      by rewrite lookup_insert_ne. }
    unfold backup_body_post, installed. intros [u|e] w5; cbn; rewrite Hf4; rewrite delete_insert_id by done.
    + intros [Hf Ha]. rewrite decide_False by (rewrite Ha; apply unarmed_not_in). auto.
    + intros [(node & Hf & Ha)|[Hf Ha]].
      * rewrite decide_True by (rewrite Ha; by left). rewrite insert_insert_eq in Hf. rewrite Hf.
        intros w6 [-> | [-> [n Hn]]]; left; [left; by rewrite delete_insert_id|].
        right. by exists directory, (w_sequence w3), node, n.
      * rewrite decide_False by (rewrite Ha; apply unarmed_not_in). right. split; [done|by left].
  - intros w1 bs [Hf1 _] Hsome. case_bool_decide as Heq.
    2: { by apply wp_throw, Hfail. }
    subst bs.
    apply wp_keeps; [auto with keeps|intros e w' [Hf _]; apply Hfail; congruence|]. intros _ w2 [Hf2 _] _.
    pose proof (keeps_sync_backup_directory backup w2) as [Hf _]. unfold wp, backup_post.
    destruct (sync_backup_directory pf backup w2) as [[[]|e] w3]; cbn in Hf.
    + split; [cbn; rewrite insert_id by done; congruence|by right].
    + left. left. cbn. congruence.
Qed.

(** ** [mutate_path] *)

(** What [load_path] makes of a node. *)
Definition loaded_from (path : str) (node : option FileNode) : result ConfigError LoadedConfig :=
  match node with
  | None => Ok loaded_missing
  | Some (RegularFile content _) => decode_config (toml_crate pf) content
  | Some OtherNode => Err (CeIo path)
  end.

Lemma load_path_Ok path w w' loaded : load_path pf path w = (Ok loaded, w') ->
  loaded_from path (w_files w !! path) = Ok loaded.
Proof.
  unfold load_path, attempt, fs_read, syscall, mbind, W_bind, mret, W_ret, lift, throw. cbn.
  destruct (os_fails _ _); [done|].
  destruct (w_files w !! path) as [[content b|]|]; [|done|]; cbn; intros H; congruence.
Qed.

Lemma decode_config_bytes bs loaded : decode_config (toml_crate pf) bs = Ok loaded ->
  lc_original_bytes loaded = Some bs /\ lc_fingerprint loaded = Some bs /\
  (lc_migration_required loaded = true <-> lc_source_version loaded = SourceV1) /\
  lc_source_version loaded <> SourceMissing.
Proof.
  unfold decode_config. intros (raw & _ & H)%result_bind_Ok. invert_ok.
  match goal with H : (if _ then _ else _) = Ok _ |- _ => rename H into Hver end.
  destruct (_ =? 1)%N; [|destruct (_ =? CURRENT_CONFIG_VERSION)%N; [|done]];
    apply result_bind_Ok in Hver as (? & ? & Hver); injection Hver as <-; injection H as <-; by cbn.
Qed.

Lemma loaded_from_bytes path node loaded : loaded_from path node = Ok loaded ->
  lc_fingerprint loaded = node_bytes node /\ lc_original_bytes loaded = node_bytes node /\
  (lc_migration_required loaded = true <-> lc_source_version loaded = SourceV1) /\
  (lc_migration_required loaded = true -> is_Some (node_bytes node)).
Proof.
  destruct node as [[content b|]|]; [|done|]; cbn.
  - intros (-> & -> & Hm & _)%decode_config_bytes. eauto.
  - intros H. injection H as <-. by cbn.
Qed.

(** The files once the migration backup, if any, is in place. *)
Definition backed_up (path : str) (loaded : LoadedConfig) (files : gmap (list N) FileNode) :=
  if lc_migration_required loaded
  then <[migration_backup_path path := RegularFile (default [] (lc_original_bytes loaded)) true]> files
  else files.

(** A commit: what the new files and the outcome are. *)
Definition committed (path : str) (mutation : ConfigMutation) (consent : MigrationConsent)
    (w : World) (outcome : MutationOutcome) (w' : World) : Prop :=
  exists loaded config affected encoded,
    loaded_from path (w_files w !! path) = Ok loaded /\
    validate_config_identity (lc_config loaded) = Ok tt /\
    validate_config_mutation (ca_world pf) mutation = Ok tt /\
    apply_mutation (lc_config loaded) mutation = Some (Ok (config, affected)) /\
    encode_config (toml_crate pf)
      {| cfg_version := CURRENT_CONFIG_VERSION; cfg_profiles := cfg_profiles config |} = Ok encoded /\
    w_files w' = <[path := RegularFile encoded true]> (backed_up path loaded (w_files w)) /\
    (lc_migration_required loaded = true ->
      consent = Confirmed /\ forall node, w_files w !! migration_backup_path path = Some node ->
        node = RegularFile (default [] (lc_original_bytes loaded)) true) /\
    mo_affected_profile_id outcome = affected /\
    mo_migration_backup outcome =
      (if lc_migration_required loaded then Some (migration_backup_path path) else None) /\
    overwrite external path (w_files w) !! path <> Some OtherNode /\
    node_bytes (overwrite external path (w_files w) !! path) = node_bytes (w_files w !! path).

(** Every file but the main one is as it was: a missing backup may have been
    written, with the bytes of the main file, and a temporary file may be left
    when the operating system fails. *)
Definition others_kept (path : str) (files files' : gmap (list N) FileNode) : Prop :=
  forall q, q <> path ->
    files' !! q = files !! q \/
    (files !! q = None /\ q = migration_backup_path path /\
      exists content, node_bytes (files !! path) = Some content /\
        files' !! q = Some (RegularFile content true)) \/
    (files !! q = None /\ exists purpose directory sequence n,
      os_fails pf n = true /\ q = temp_path pf directory purpose sequence).

Definition aborted (path : str) (w w' : World) : Prop :=
  (w_files w' !! path = w_files w !! path \/
    w_files w' !! path = overwrite external path (w_files w) !! path) /\
  others_kept path (w_files w) (w_files w').

Lemma others_kept_stray purpose path files base files' :
  (forall q, q <> path ->
    base !! q = files !! q \/
    (files !! q = None /\ q = migration_backup_path path /\
      exists content, node_bytes (files !! path) = Some content /\
        base !! q = Some (RegularFile content true))) ->
  stray purpose files base files' -> others_kept path files files'.
Proof.
  intros Hbase [-> | (directory & sequence & node & n & Hn & Hfresh & ->)] q Hq.
  - destruct (Hbase q Hq) as [?|?]; auto.
  - destruct (decide (q = temp_path pf directory purpose sequence)) as [->|Hne].
    + right. right. split; [done|]. by exists purpose, directory, sequence, n.
    + rewrite lookup_insert_ne by done. destruct (Hbase q Hq) as [?|?]; auto.
Qed.

Lemma stray_path purpose path files base files' :
  (forall directory sequence, temp_path pf directory purpose sequence <> path) ->
  stray purpose files base files' -> files' !! path = base !! path.
Proof.
  intros Hne [-> | (directory & sequence & node & n & Hn & Hfresh & ->)]; [done|].
  by rewrite lookup_insert_ne.
Qed.

Definition prepare_post (path : str) (loaded : LoadedConfig) (consent : MigrationConsent) (w : World)
    (r : result ConfigError (option str)) (w' : World) : Prop :=
  let files := w_files w in
  let backup := migration_backup_path path in
  match r with
  | Ok b =>
      w_files w' = backed_up path loaded files /\
      b = (if lc_migration_required loaded then Some backup else None) /\
      (lc_migration_required loaded = true ->
        consent = Confirmed /\ forall node, files !! backup = Some node ->
          node = RegularFile (default [] (lc_original_bytes loaded)) true)
  | Err _ =>
      stray "backup" files files (w_files w') \/
      (lc_migration_required loaded = true /\ files !! backup = None /\
        stray "backup" files (backed_up path loaded files) (w_files w'))
  end.

Lemma wp_prepare_migration path loaded consent w :
  wp (prepare_migration pf path loaded consent) w (prepare_post path loaded consent w).
Proof using quiet.
  unfold prepare_migration. destruct (lc_migration_required loaded) eqn:Hm; cbn [negb].
  2: { apply wp_ret. unfold prepare_post, backed_up. by rewrite Hm. }
  case_bool_decide as Hc; cbn [negb].
  2: { apply wp_throw. left. by left. }
  apply wp_bind. eapply wp_mono.
  { apply wp_write_backup. intros. apply temp_not_backup. }
  intros [[]|e] w1; unfold backup_post, prepare_post, backed_up; rewrite Hm.
  - intros (Hf & Hnode). apply wp_ret. split_and!; [done|done|]. intros _. split; [done|].
    intros node Hn. destruct Hnode; congruence.
  - intros [Hs|[Hnone Hs]]; [by left|by right].
Qed.

Definition mutate_post path mutation consent (w : World)
    (r : result ConfigError MutationOutcome) (w' : World) : Prop :=
  match r with
  | Ok outcome => committed path mutation consent w outcome w'
  | Err _ => aborted path w w'
  end.

Context (path : str).
Context (temps_differ : forall purpose directory sequence, temp_path pf directory purpose sequence <> path).

(** A file map that differs from the start at most by the migration backup. *)
Definition maybe_backed_up (loaded : LoadedConfig) (files base : gmap (list N) FileNode) : Prop :=
  base = files \/ (lc_migration_required loaded = true /\
    files !! migration_backup_path path = None /\ base = backed_up path loaded files).

Lemma maybe_backed_up_others loaded files base :
  loaded_from path (files !! path) = Ok loaded -> maybe_backed_up loaded files base ->
  base !! path = files !! path /\
  forall q, q <> path -> base !! q = files !! q \/
    (files !! q = None /\ q = migration_backup_path path /\
      exists content, node_bytes (files !! path) = Some content /\
        base !! q = Some (RegularFile content true)).
Proof using Type.
  intros Hload%loaded_from_bytes [-> | (Hm & Hnone & ->)]; [auto|].
  destruct Hload as (_ & Ho & _ & Hsome). unfold backed_up. rewrite Hm.
  destruct (Hsome Hm) as [content Hc]. rewrite Ho, Hc. cbn. split.
  - rewrite lookup_insert_ne; [done|apply backup_not_main].
  - intros q Hq. destruct (decide (q = migration_backup_path path)) as [->|Hne].
    + right. split_and!; [done..|]. exists content. split; [done|by rewrite lookup_insert_eq].
    + left. by rewrite lookup_insert_ne.
Qed.

Lemma aborted_stray purpose loaded base w w' :
  loaded_from path (w_files w !! path) = Ok loaded ->
  maybe_backed_up loaded (w_files w) base ->
  stray purpose (w_files w) base (w_files w') -> aborted path w w'.
Proof using temps_differ.
  intros Hload Hb Hs. destruct (maybe_backed_up_others _ _ _ Hload Hb) as [Hp Ho]. split.
  - left. rewrite (stray_path _ _ _ _ _ (temps_differ purpose) Hs). done.
  - by eapply others_kept_stray.
Qed.

Lemma stray_maybe_backed loaded files base base' files' :
  maybe_backed_up loaded files base -> stray "main" base base' files' ->
  stray "main" files base' files'.
Proof using Type.
  intros Hb [-> | (directory & sequence & node & n & Hn & Hfresh & ->)]; [by left|].
  right. exists directory, sequence, node, n. split; [done|]. cbn. split; [|done].
  destruct Hb as [-> | (Hm & Hnone & ->)]; [done|]. revert Hfresh. unfold backed_up. rewrite Hm.
  intros Hfresh%lookup_insert_None. naive_solver.
Qed.

(** An external node at the main path only changes the main path. *)
Lemma aborted_overwrite loaded base w w' :
  loaded_from path (w_files w !! path) = Ok loaded ->
  maybe_backed_up loaded (w_files w) base ->
  stray "main" (w_files w) (overwrite external path base) (w_files w') -> aborted path w w'.
Proof using replaced temps_differ.
  intros Hload Hb Hs. destruct (maybe_backed_up_others _ _ _ Hload Hb) as [Hp Ho]. split.
  - right. rewrite (stray_path _ _ _ _ _ (temps_differ "main") Hs).
    destruct external; cbn; [by rewrite !lookup_insert_eq|done].
  - apply (others_kept_stray "main" path _ (overwrite external path base)); [|exact Hs].
    intros q Hq. destruct external; cbn; [|by apply Ho].
    rewrite lookup_insert_ne by done. by apply Ho.
Qed.

Lemma prepared_maybe_backed loaded consent w w1 b :
  prepare_post path loaded consent w (Ok b) w1 -> maybe_backed_up loaded (w_files w) (w_files w1).
Proof using Type.
  intros (Hf & _ & Hm). destruct (lc_migration_required loaded) eqn:E.
  - destruct (w_files w !! migration_backup_path path) as [node|] eqn:Hb; [left|by right].
    destruct (Hm eq_refl) as [_ Hnode]. rewrite Hf. unfold backed_up. rewrite E.
    apply insert_id. rewrite Hb. f_equal. by apply Hnode.
  - left. rewrite Hf. unfold backed_up. by rewrite E.
Qed.

(** The last part of [mutate_path]: from the encoded bytes to the outcome. *)
Lemma wp_commit mutation consent w w1 loaded config affected encoded backup :
  loaded_from path (w_files w !! path) = Ok loaded ->
  validate_config_identity (lc_config loaded) = Ok tt ->
  validate_config_mutation (ca_world pf) mutation = Ok tt ->
  apply_mutation (lc_config loaded) mutation = Some (Ok (config, affected)) ->
  encode_config (toml_crate pf)
    {| cfg_version := CURRENT_CONFIG_VERSION; cfg_profiles := cfg_profiles config |} = Ok encoded ->
  prepare_post path loaded consent w (Ok backup) w1 ->
  wp (state ← write_main pf path encoded (lc_fingerprint loaded);
      observed ← attempt (observe_main pf path);
      let '(state, observation) :=
        match observed with
        | Ok loaded => (state, Observed loaded)
        | Err source =>
            (CommittedDurabilityUnknown, ObservationFailed CommittedDurabilityUnknown source)
        end in
      mret {| mo_state := state; mo_observation := observation; mo_migration_backup := backup;
              mo_affected_profile_id := affected |}) w1 (mutate_post path mutation consent w).
Proof using quiet replaced temps_differ.
  intros Hload Hid Hmut Happ Henc Hprep. pose proof (prepared_maybe_backed _ _ _ _ _ Hprep) as Hmb.
  destruct (loaded_from_bytes _ _ _ Hload) as (Hfp & _).
  destruct (maybe_backed_up_others _ _ _ Hload Hmb) as [Hmain _].
  destruct Hprep as (Hf1 & Hb & Hmig).
  apply wp_bind. eapply wp_mono; [apply wp_write_main; auto|]. intros [st|e] w2; unfold write_main_post.
  - intros (Hf2 & Hseen & Hother). apply wp_bind, wp_attempt. unfold wp at 1.
    pose proof (keeps_observe_main path w2) as [Hf3 _].
    destruct (observe_main pf path w2) as [r w3]. cbn in Hf3 |- *.
    assert (overwrite external path (w_files w1) !! path = overwrite external path (w_files w) !! path) as Heq
      by (destruct external; cbn; by rewrite ?lookup_insert_eq).
    rewrite Heq in Hseen, Hother.
    assert (forall outcome, mo_affected_profile_id outcome = affected -> mo_migration_backup outcome = backup ->
      committed path mutation consent w outcome w3) as Hcommit.
    { intros outcome Ho1 Ho2. exists loaded, config, affected, encoded.
      split_and!; [done..|congruence|done|done|congruence|done|congruence]. }
    destruct r; by apply wp_ret, Hcommit.
  - intros [Hs|Hs].
    + eapply (aborted_stray "main"); [done|exact Hmb|]. by eapply stray_maybe_backed.
    + eapply aborted_overwrite; [done|exact Hmb|]. by eapply stray_maybe_backed.
Qed.

Lemma committed_others_kept mutation consent w outcome w' :
  committed path mutation consent w outcome w' -> others_kept path (w_files w) (w_files w').
Proof using Type.
  intros (loaded & config & affected & encoded & Hload & _ & _ & _ & _ & Hf & Hmig & _) q Hq.
  rewrite Hf, lookup_insert_ne by done.
  assert (maybe_backed_up loaded (w_files w) (backed_up path loaded (w_files w))) as Hmb.
  { unfold maybe_backed_up, backed_up. destruct (lc_migration_required loaded); [|by left].
    destruct (w_files w !! migration_backup_path path) as [node|] eqn:Hb; [left|by right].
    apply insert_id. rewrite Hb. f_equal. by apply Hmig. }
  destruct (maybe_backed_up_others _ _ _ Hload Hmb) as [_ Ho]. destruct (Ho q Hq); auto.
Qed.

Lemma aborted_same w w' : w_files w' = w_files w -> aborted path w w'.
Proof using Type. intros Hf. split; [left; by rewrite Hf|]. intros q _. left. by rewrite Hf. Qed.

Lemma wp_lift {E A B} (r : result E A) (f : A -> W E B) w Q :
  (forall e, r = Err e -> Q (Err e) w) -> (forall a, r = Ok a -> wp (f a) w Q) ->
  wp (lift r ≫= f) w Q.
Proof using Type. intros He Hok. apply wp_bind. destruct r; [by apply Hok|by apply He]. Qed.

Lemma wp_mutate_path mutation consent w :
  wp (mutate_path pf path mutation consent) w (mutate_post path mutation consent w).
Proof using quiet replaced temps_differ.
  unfold mutate_path. destruct (lock_poisoned pf); [by apply wp_throw, aborted_same|].
  apply wp_keeps; [auto with keeps|intros e w' [Hf _]; by apply aborted_same|].
  intros loaded w1 [Hf1 _] Hload%load_path_Ok.
  apply wp_lift; [intros; by apply aborted_same|]. intros [] Hid%map_err_Ok.
  apply wp_lift; [intros; by apply aborted_same|]. intros [] Hmut%map_err_Ok.
  apply wp_bind. eapply wp_mono; [apply wp_prepare_migration|]. intros [backup|e] w2 Hprep.
  2: { cbn in Hprep |- *. rewrite Hf1 in Hprep. destruct Hprep as [Hs|(Hm & Hnone & Hs)].
       - eapply (aborted_stray "backup"); [done|left; reflexivity|done].
       - eapply (aborted_stray "backup"); [exact Hload|right; split_and!; [exact Hm|exact Hnone|reflexivity]|done]. }
  assert (prepare_post path loaded consent w (Ok backup) w2) as Hprep'.
  { revert Hprep. unfold prepare_post. by rewrite Hf1. }
  assert (forall e : ConfigError, aborted path w w2) as Habort.
  { intros e. eapply (aborted_stray "main"); [done|by eapply prepared_maybe_backed|left; reflexivity]. }
  apply wp_lift; [intros; by apply Habort|]. intros [config affected] Happ.
  assert (apply_mutation (lc_config loaded) mutation = Some (Ok (config, affected))) as Happ'
    by (destruct (apply_mutation _ _); cbn in Happ; [by rewrite Happ|done]).
  apply wp_lift; [intros; by apply Habort|]. intros [] Hid2.
  apply wp_lift; [intros; by apply Habort|]. intros encoded Henc.
  by eapply wp_commit.
Qed.
End safety.
