(* ===== verification/WriterTheorems.v ===== *)
(** * Theorems of the configuration writer (src/src/config.rs, [mutate_path])

    Atomic replacement, external changes, migration backup, success. *)

From S2P Require Import Prelude RustStr Model Profile Config ConfigWriter ConfigSafety.
From S2P Require Import WriterLogic WriterSafety.

Lemma mutate_path_atomic_wp pf path mutation consent w :
  (forall point p files, (inject pf point p files).2 = files) ->
  (forall purpose directory sequence, temp_path pf directory purpose sequence <> path) ->
  wp (mutate_path pf path mutation consent) w (fun r w' =>
    match r with
    | Ok outcome => committed pf None path mutation consent w outcome w'
    | Err _ => w_files w' !! path = w_files w !! path
    end) /\
  wp (mutate_path pf path mutation consent) w (fun _ w' => others_kept pf path (w_files w) (w_files w')).
Proof.
  intros Hquiet Htemps.
  pose proof (wp_mutate_path pf None (fun pt p f _ => Hquiet pt p f) (fun p f => Hquiet _ p f) path Htemps
                mutation consent w) as Hwp.
  unfold wp, mutate_post in *. destruct (mutate_path pf path mutation consent w) as [[outcome|e] w']; cbn in *.
  - split; [done|]. by eapply committed_others_kept.
  - destruct Hwp as [[H|H] Ho]; by split.
Qed.

(** C1: atomicity: whatever operating-system calls fail and whatever faults are
    injected, [mutate_path] either fails and leaves the main file exactly as it
    was, or commits: the main file then is a private file holding the encoding of
    the loaded configuration with the mutation applied, for a loaded
    configuration and a mutation that passed validation.  Either way no other
    file changes, except that a missing migration backup may have appeared with
    the bytes of the main file and that a temporary file may be left when the
    operating system refused a call. *)
Theorem mutate_path_atomic pf path mutation consent w :
  (forall point p files, (inject pf point p files).2 = files) ->
  (forall purpose directory sequence, temp_path pf directory purpose sequence <> path) ->
  let '(r, w') := mutate_path pf path mutation consent w in
  match r with
  | Ok outcome => committed pf None path mutation consent w outcome w'
  | Err _ => w_files w' !! path = w_files w !! path
  end /\ others_kept pf path (w_files w) (w_files w').
Proof.
  intros Hquiet Htemps. pose proof (mutate_path_atomic_wp pf path mutation consent w Hquiet Htemps) as H.
  unfold wp in H. by destruct (mutate_path pf path mutation consent w).
Qed.

(** C6: an external change that is there when the writer rechecks the file is not
    overwritten: when another process replaces the main file by other content at the
    failpoint MainPreRename - everything is written and synced, and the fingerprint is
    compared for the last time next - the mutation fails, the main file is either
    untouched or the other process's, and no other file changes (up to the backup and
    temporary files of a failed attempt).  The recheck and the rename are two calls: a
    change in between is outside this theorem, and the writer makes no claim about it
    (the comment of [ConfigWriter] in config.rs). *)
Theorem external_change_preserved pf path mutation consent w node :
  (forall point p files, point <> MainPreRename -> (inject pf point p files).2 = files) ->
  (forall p files, (inject pf MainPreRename p files).2 = <[p := node]> files) ->
  (forall purpose directory sequence, temp_path pf directory purpose sequence <> path) ->
  (node = OtherNode \/ node_bytes (Some node) <> node_bytes (w_files w !! path)) ->
  let '(r, w') := mutate_path pf path mutation consent w in
  (exists e, r = Err e) /\
  (w_files w' !! path = w_files w !! path \/ w_files w' !! path = Some node) /\
  others_kept pf path (w_files w) (w_files w').
Proof.
  intros Hquiet Hext Htemps Hnode.
  pose proof (wp_mutate_path pf (Some node) Hquiet Hext path Htemps mutation consent w) as Hwp.
  unfold wp, mutate_post in Hwp. destruct (mutate_path pf path mutation consent w) as [[outcome|e] w']; cbn in *.
  - destruct Hwp as (? & ? & ? & ? & _ & _ & _ & _ & _ & _ & _ & _ & _ & Hother & Hbytes). cbn in Hother, Hbytes.
    rewrite lookup_insert_eq in Hother, Hbytes. naive_solver.
  - destruct Hwp as [Hmain Ho]. cbn in Hmain. rewrite lookup_insert_eq in Hmain. eauto.
Qed.

(** Without consent a migration does not start. *)
Lemma wp_mutate_cancelled pf path mutation w loaded :
  loaded_from pf path (w_files w !! path) = Ok loaded -> lc_migration_required loaded = true ->
  wp (mutate_path pf path mutation ConsentCancelled) w
    (fun r w' => is_err r = true /\ w_files w' = w_files w).
Proof.
  intros Hload Hm. unfold mutate_path. destruct (lock_poisoned pf); [by apply wp_throw|].
  apply wp_keeps; [auto with keeps|intros e w' [Hf _]; done|].
  intros loaded' w1 [Hf1 _] Hload'%load_path_Ok. rewrite Hload in Hload'. injection Hload' as <-.
  apply wp_lift; [done|]. intros [] _. apply wp_lift; [done|]. intros [] _.
  unfold prepare_migration. rewrite Hm. cbn. by apply wp_bind, wp_throw.
Qed.

(** Migrating a version-1 file needs consent and loses nothing: cancelled, the
    mutation fails and no file changes; when a mutation succeeds, the migration was
    confirmed and the backup next to the main file holds its original bytes; a
    backup that already exists is never changed. *)
Theorem migration_backs_up pf path mutation consent w loaded :
  (forall point p files, (inject pf point p files).2 = files) ->
  (forall purpose directory sequence, temp_path pf directory purpose sequence <> path) ->
  loaded_from pf path (w_files w !! path) = Ok loaded -> lc_source_version loaded = SourceV1 ->
  let '(r, w') := mutate_path pf path mutation consent w in
  let backup := migration_backup_path path in
  (consent = ConsentCancelled -> is_err r = true /\ w_files w' = w_files w) /\
  (is_ok r = true -> consent = Confirmed /\ exists original private,
    w_files w !! path = Some (RegularFile original private) /\
    w_files w' !! backup = Some (RegularFile original true)) /\
  (forall node, w_files w !! backup = Some node -> w_files w' !! backup = Some node).
Proof.
  intros Hquiet Htemps Hload Hv1. destruct (loaded_from_bytes _ _ _ _ Hload) as (_ & Ho & Hm & _).
  apply Hm in Hv1. clear Hm.
  pose proof (mutate_path_atomic_wp pf path mutation consent w Hquiet Htemps) as [Hwp Hothers].
  assert (consent = ConsentCancelled -> wp (mutate_path pf path mutation consent) w
    (fun r w' => is_err r = true /\ w_files w' = w_files w)) as Hcancel
    by (intros ->; by eapply wp_mutate_cancelled).
  unfold wp in Hcancel, Hwp, Hothers. destruct (mutate_path pf path mutation consent w) as [r w'].
  cbn in Hwp, Hothers, Hcancel |- *.
  split_and!; [done| |].
  - destruct r as [outcome|]; [intros _|done].
    destruct Hwp as (loaded' & config & affected & encoded & Hload' & _ & _ & _ & _ & Hf & Hmig & _).
    assert (loaded' = loaded) by congruence; subst loaded'. destruct (Hmig Hv1) as [Hc _]. split; [done|].
    destruct (w_files w !! path) as [[original private|]|]; [|done|injection Hload as Hl; by rewrite <- Hl in Hv1]. cbn in Ho.
    exists original, private. split; [done|]. rewrite Hf, lookup_insert_ne by (apply not_eq_sym, backup_not_main).
    unfold backed_up. rewrite Hv1, lookup_insert_eq, Ho. done.
  - intros node Hn. destruct (Hothers _ (backup_not_main path)) as [-> |[[Hnone _]|[Hnone _]]]; congruence.
Qed.

(** ** A healthy platform *)

#[local] Arguments validate_config_identity : simpl never.
#[local] Arguments validate_config_mutation : simpl never.
#[local] Arguments encode_config : simpl never.
#[local] Arguments decode_config : simpl never.
#[local] Arguments apply_mutation : simpl never.

Section healthy.
Context (pf : Platform).
Context (no_failure : forall n, os_fails pf n = false).
Context (no_fault : forall point p files, inject pf point p files = (false, files)).

Lemma check_fault_ok point path w : check_fault pf point path w = (Ok tt, w).
Proof using no_fault. unfold check_fault. rewrite no_fault. by destruct w. Qed.

(** Runs the steps of a healthy platform. *)
Ltac run := cbn; rewrite ?no_failure, ?no_fault; cbn.

Lemma write_main_body_ok temp path encoded expected w old :
  temp <> path -> w_files w !! temp = Some old ->
  node_bytes (w_files w !! path) = expected -> w_files w !! path <> Some OtherNode ->
  exists w', write_main_body pf temp path encoded expected w = (Ok Committed, w').
Proof using no_failure no_fault.
  intros Hne Hold Hexp Hother. unfold write_main_body, stage, not_committed, w_map_err, attempt,
    fingerprint, fs_read, fs_write, fs_rename, plain_call, syscall, mbind, W_bind, mret, W_ret, attempt.
  rewrite !check_fault_ok. run. rewrite !check_fault_ok. run. rewrite !check_fault_ok. run.
  rewrite lookup_alter_ne by done.
  assert (alter (fun _ => RegularFile encoded true) temp (w_files w) !! temp = Some (RegularFile encoded true))
    as Htemp by (by rewrite lookup_alter_eq, Hold).
  destruct (w_files w !! path) as [[content b|]|]; cbn in Hexp; [|done|]; cbn;
    rewrite bool_decide_true by done; cbn; rewrite no_failure, Htemp; cbn;
    rewrite !check_fault_ok; run; rewrite ?check_fault_ok; run; eauto.
Qed.

Lemma write_main_ok path encoded expected w :
  (forall directory sequence, temp_path pf directory "main" sequence <> path) ->
  (forall directory sequence, w_files w !! temp_path pf directory "main" sequence = None) ->
  node_bytes (w_files w !! path) = expected -> w_files w !! path <> Some OtherNode ->
  exists w', write_main pf path encoded expected w = (Ok Committed, w') /\
    w_files w' !! path = Some (RegularFile encoded true).
Proof using no_failure no_fault.
  intros Hne Hfresh Hexp Hother.
  pose proof (wp_write_main pf None (fun pt p f _ => f_equal snd (no_fault pt p f))
                (fun p f => f_equal snd (no_fault _ p f)) path encoded expected w Hne) as Hpost.
  assert (exists w', write_main pf path encoded expected w = (Ok Committed, w')) as [w' Hw].
  { unfold write_main, ensure_parent, create_temp, open_new, not_committed, io_at, w_map_err, plain_call,
      syscall, mbind, W_bind, mret, W_ret.
    run. rewrite check_fault_ok. run. rewrite Hfresh. cbn. set (temp := temp_path _ _ _ _).
    unfold with_cleanup. set (w1 := set_armed _ _).
    destruct (write_main_body_ok temp path encoded expected w1 (RegularFile [] true)) as [w2 ->].
    - apply Hne.
    - cbn. by rewrite lookup_insert_eq.
    - cbn. by rewrite lookup_insert_ne by apply Hne.
    - cbn. by rewrite lookup_insert_ne by apply Hne.
    - case_bool_decide; [|eauto]. destruct (fs_remove _ _ _). eauto. }
  exists w'. split; [done|]. unfold wp in Hpost. rewrite Hw in Hpost. cbn in Hpost.
  destruct Hpost as [-> _]. by rewrite lookup_insert_eq.
Qed.

Lemma load_path_ok path w loaded : loaded_from pf path (w_files w !! path) = Ok loaded ->
  exists w', load_path pf path w = (Ok loaded, w') /\ same w w'.
Proof using no_failure.
  intros Hload. assert (exists w', load_path pf path w = (Ok loaded, w')) as [w' Hw].
  { unfold load_path, attempt, fs_read, syscall, mbind, W_bind, mret, W_ret, lift, throw. run.
    destruct (w_files w !! path) as [[content b|]|]; cbn in Hload |- *; [|done|];
      eexists; f_equal; done. }
  exists w'. split; [done|]. pose proof (keeps_load_path pf path w) as Hk. by rewrite Hw in Hk.
Qed.

(** Success: on a platform where no call fails and no other process interferes,
    a valid mutation of a readable current (or missing) configuration commits
    durably, and the outcome observes the mutated configuration, provided the
    encoding of that configuration decodes to it. *)
Theorem mutate_path_succeeds path mutation consent w loaded config affected encoded :
  let new := {| cfg_version := CURRENT_CONFIG_VERSION; cfg_profiles := cfg_profiles config |} in
  (forall purpose directory sequence, temp_path pf directory purpose sequence <> path) ->
  (forall directory sequence, w_files w !! temp_path pf directory "main" sequence = None) ->
  lock_poisoned pf = false ->
  loaded_from pf path (w_files w !! path) = Ok loaded -> lc_source_version loaded <> SourceV1 ->
  (N.of_nat (length (cfg_profiles (lc_config loaded))) + 3 <= U64_MAX)%N ->
  validate_config_identity (lc_config loaded) = Ok tt ->
  validate_config_mutation (ca_world pf) mutation = Ok tt ->
  apply_mutation (lc_config loaded) mutation = Some (Ok (config, affected)) ->
  encode_config (toml_crate pf) new = Ok encoded ->
  let observed := {| lc_config := new; lc_source_version := SourceV2; lc_migration_required := false;
                     lc_original_bytes := Some encoded; lc_fingerprint := Some encoded |} in
  decode_config (toml_crate pf) encoded = Ok observed ->
  (mutate_path pf path mutation consent w).1 =
    Ok {| mo_state := Committed; mo_observation := Observed observed; mo_migration_backup := None;
          mo_affected_profile_id := affected |}.
Proof using no_failure no_fault.
  intros new Htemps Hfresh Hlock Hload Hv2 Hlen Hid Hmut Happ Henc observed Hdec.
  destruct (loaded_from_bytes _ _ _ _ Hload) as (Hfp & _ & Hm & _).
  assert (lc_migration_required loaded = false) as Hmig
    by (destruct (lc_migration_required loaded); [by destruct Hv2; apply Hm|done]).
  assert (validate_config_identity new = Ok tt) as Hnew.
  { destruct (apply_mutation_refined (ca_world pf) _ _ Hid Hmut Hlen) as (r & Hr & _ & Hok).
    rewrite Happ in Hr. injection Hr as <-. apply validate_identity_spec, (Hok config affected). done. }
  unfold mutate_path. rewrite Hlock. unfold mbind, W_bind, mret, W_ret, lift.
  destruct (load_path_ok path w loaded Hload) as (w1 & -> & Hf1 & _).
  rewrite Hid, Hmut. cbn. unfold prepare_migration. rewrite Hmig. cbn. rewrite Happ. cbn.
  fold new. rewrite Hnew, Henc. cbn.
  destruct (write_main_ok path encoded (lc_fingerprint loaded) w1) as (w2 & -> & Hf2); [auto|by rewrite Hf1|by rewrite Hf1| |].
  { rewrite Hf1. intros Ho. by rewrite Ho in Hload. }
  cbn. unfold attempt, observe_main, io_at, w_map_err, mbind, W_bind, mret, W_ret, lift.
  rewrite check_fault_ok. cbn.
  destruct (load_path_ok path w2 observed) as (w3 & -> & _); [by rewrite Hf2|].
  cbn. rewrite Hnew. done.
Qed.
End healthy.

(** ** Concrete runs *)

Definition sample_path : str := lit "/c/config.toml".
Definition sample_config : Config := {| cfg_version := 2; cfg_profiles := [sample_profile] |}.

(** A toy encoding that knows one configuration in either version. *)
Definition sample_toml (version : N) : Toml :=
  {| toml_version := fun raw => if bool_decide (raw = lit "new" ++ [10%N]) then Some 2%N else Some version;
     toml_v1 := fun _ => Some [];
     toml_config := fun raw => if bool_decide (raw = lit "new" ++ [10%N]) then Some sample_config
                               else Some config_default;
     toml_to_string_pretty := fun _ => Some (lit "new") |}.

Definition sample_platform (version : N) (inject : MutationFailpoint -> str -> gmap (list N) FileNode ->
    bool * gmap (list N) FileNode) : Platform :=
  {| os_fails := fun _ => false; os_written := fun _ => 0; path_parent := fun _ => Some (lit "/c");
     process_id := 7; lock_poisoned := false; inject := inject; ca_world := sample_ca;
     toml_crate := sample_toml version |}.

Definition quiet_inject (point : MutationFailpoint) (path : str) (files : gmap (list N) FileNode) :=
  (false, files).

Definition sample_world (content : bytes) : World :=
  {| w_files := {[ sample_path := RegularFile content false ]}; w_calls := 0; w_sequence := 0; w_armed := [] |}.

Lemma sample_temps version inj purpose directory sequence :
  temp_path (sample_platform version inj) directory purpose sequence <> sample_path.
Proof.
  intros H. destruct (temp_path_last (sample_platform version inj) directory purpose sequence) as (d & Hd & Hdig).
  rewrite H in Hd. injection Hd as <-. done.
Qed.

Definition sample_update : ConfigMutation := MutCreate sample_profile.

Lemma mutate_path_atomic_witness :
  exists outcome w', mutate_path (sample_platform 2 quiet_inject) sample_path sample_update ConsentCancelled
    (sample_world (encode (lit "old"))) = (Ok outcome, w') /\
  committed (sample_platform 2 quiet_inject) None sample_path sample_update ConsentCancelled
    (sample_world (encode (lit "old"))) outcome w'.
Proof.
  pose proof (mutate_path_atomic (sample_platform 2 quiet_inject) sample_path sample_update ConsentCancelled
    (sample_world (encode (lit "old"))) (fun _ _ _ => eq_refl) (sample_temps 2 quiet_inject)) as H.
  destruct (mutate_path _ _ _ _ _) as [r w'] eqn:E. destruct r as [outcome|e].
  - exists outcome, w'. split; [reflexivity|exact (proj1 H)].
  - exfalso. vm_compute in E. discriminate E.
Defined.

(** Another process writes while the new content waits to be renamed. *)
Definition racing_inject (point : MutationFailpoint) (path : str) (files : gmap (list N) FileNode) :=
  (false, if bool_decide (point = MainPreRename) then <[path := RegularFile (encode (lit "theirs")) false]> files
          else files).

Lemma racing_quiet point p files : point <> MainPreRename -> (racing_inject point p files).2 = files.
Proof. intros Hp. unfold racing_inject. by rewrite bool_decide_false. Qed.

Lemma external_change_preserved_witness :
  (mutate_path (sample_platform 2 racing_inject) sample_path sample_update Confirmed
    (sample_world (encode (lit "old")))).1 = Err CeExternalChange /\
  exists e, (mutate_path (sample_platform 2 racing_inject) sample_path sample_update Confirmed
    (sample_world (encode (lit "old")))).1 = Err e.
Proof.
  pose proof (external_change_preserved (sample_platform 2 racing_inject) sample_path sample_update Confirmed
    (sample_world (encode (lit "old"))) (RegularFile (encode (lit "theirs")) false) racing_quiet
    (fun _ _ => eq_refl) (sample_temps 2 racing_inject) ltac:(right; vm_compute; discriminate)) as H.
  destruct (mutate_path _ _ _ _ _) as [r w'] eqn:E. split; [|exact (proj1 H)].
  apply (f_equal fst) in E. vm_compute in E. symmetry. exact E.
Defined.

Lemma migration_backs_up_witness :
  exists w', mutate_path (sample_platform 1 quiet_inject) sample_path sample_update Confirmed
      (sample_world (encode (lit "old"))) = w' /\ is_ok w'.1 = true /\
    exists original private, w_files w'.2 !! migration_backup_path sample_path = Some (RegularFile original true)
      /\ w_files (sample_world (encode (lit "old"))) !! sample_path = Some (RegularFile original private).
Proof.
  destruct (decode_config (sample_toml 1) (encode (lit "old"))) as [loaded|] eqn:Hl; [|vm_compute in Hl; discriminate Hl].
  pose proof (migration_backs_up (sample_platform 1 quiet_inject) sample_path sample_update Confirmed
    (sample_world (encode (lit "old"))) loaded (fun _ _ _ => eq_refl) (sample_temps 1 quiet_inject) Hl
    ltac:(vm_compute in Hl; injection Hl as <-; reflexivity)) as H.
  destruct (mutate_path _ _ _ _ _) as [r w'] eqn:E. exists (r, w'). split; [reflexivity|].
  assert (is_ok r = true) as Hok by (apply (f_equal fst) in E; vm_compute in E; subst r; reflexivity).
  split; [exact Hok|]. destruct (proj2 (proj1 (proj2 H) Hok)) as (original & private & H1 & H2).
  exists original, private. split; [exact H2|exact H1].
Defined.

Lemma mutate_path_succeeds_witness :
  (mutate_path (sample_platform 2 quiet_inject) sample_path sample_update ConsentCancelled
    (sample_world (encode (lit "old")))).1 =
  Ok {| mo_state := Committed;
        mo_observation := Observed {| lc_config := sample_config; lc_source_version := SourceV2;
          lc_migration_required := false; lc_original_bytes := Some (encode (lit "new" ++ [10%N]));
          lc_fingerprint := Some (encode (lit "new" ++ [10%N])) |};
        mo_migration_backup := None; mo_affected_profile_id := Some (lit "p") |}.
Proof.
  apply (mutate_path_succeeds (sample_platform 2 quiet_inject) (fun _ => eq_refl) (fun _ _ _ => eq_refl)
    sample_path sample_update ConsentCancelled (sample_world (encode (lit "old")))
    {| lc_config := config_default; lc_source_version := SourceV2; lc_migration_required := false;
       lc_original_bytes := Some (encode (lit "old")); lc_fingerprint := Some (encode (lit "old")) |}
    sample_config).
  - apply sample_temps.
  - intros directory sequence. apply lookup_singleton_ne, not_eq_sym, sample_temps.
  - reflexivity.
  - vm_compute. reflexivity.
  - discriminate.
  - vm_compute. discriminate.
  - vm_compute. reflexivity.
  - vm_compute. reflexivity.
  - vm_compute. reflexivity.
  - vm_compute. reflexivity.
  - vm_compute. reflexivity.
Defined.
