(* ===== verification/Drivers.v ===== *)
(** * The driver contract (src/src/drivers/mod.rs)

    Driver errors and what they mean for a cached session, the descriptors of
    the three drivers and the readiness checks made before a connection.  The
    error types of the database crates appear through the distinctions the
    program makes on them. *)

From S2P Require Import Prelude RustStr Model.

(** [sqlx::Error]: a database error carries its number and SQL state. *)
Inductive SqlxError := SqlxDatabase (errno : N) (code : option str) | SqlxOther.
#[export] Instance SqlxError_eq : EqDecision SqlxError. Proof. solve_decision. Defined.

(** [redis::RedisError] by its kind. *)
Inductive RedisErrorKind := RedisAuthenticationFailed | RedisServerNoPerm | RedisServerOther | RedisIo.
#[export] Instance RedisErrorKind_eq : EqDecision RedisErrorKind. Proof. solve_decision. Defined.

Inductive RedisTlsFailure := CaUntrusted | HostnameMismatch.
#[export] Instance RedisTlsFailure_eq : EqDecision RedisTlsFailure. Proof. solve_decision. Defined.

Inductive DriverError :=
| DeInvalidConfig (driver : DriverKind) (message : str)
| DeUnavailable (driver : DriverKind) (reason : str)
| DeTimeout (driver : DriverKind) (seconds : N)
| DeMySql (error : SqlxError)
| DeMySqlServer (code : MySqlPublicErrorCode)
| DeRedis (kind : RedisErrorKind)
| DeRedisTls (failure : RedisTlsFailure)
| DeRedisKeyMissing
| DeRedisKeyTypeChanged
| DeRedisParse (message : str)
| DePreparedStatementUnsupported (session_healthy : bool)
| DeInvalidCatalogRequest
| DeUnsupported (driver : DriverKind) (operation : str).
#[export] Instance DriverError_eq : EqDecision DriverError. Proof. solve_decision. Defined.

Definition mysql_public_code (e : DriverError) : option MySqlPublicErrorCode :=
  match e with
  | DeMySqlServer code => Some code
  | DeMySql (SqlxDatabase errno code) => code ← code; ok (MySqlPublicErrorCode_new errno code)
  | _ => None
  end.

Definition is_mysql_permission_denied (e : DriverError) : bool :=
  match mysql_public_code e with
  | Some code => bool_decide (mc_errno code ∈ [1044; 1142; 1143; 1227; 1370; 1419]%N)
  | None => false
  end.

Definition is_mysql_authentication_failed (e : DriverError) : bool :=
  match mysql_public_code e with Some code => (mc_errno code =? 1045)%N | None => false end.

Definition is_redis_authentication_failed (e : DriverError) : bool :=
  bool_decide (e = DeRedis RedisAuthenticationFailed).

(** [redis::ErrorKind::Server(_)] *)
Definition is_redis_server (kind : RedisErrorKind) : bool :=
  match kind with RedisServerNoPerm | RedisServerOther => true | _ => false end.

Inductive SessionDisposition := Keep | Evict.
#[export] Instance SessionDisposition_eq : EqDecision SessionDisposition. Proof. solve_decision. Defined.

Definition for_driver_error (e : DriverError) : SessionDisposition :=
  match e with
  | DeMySql (SqlxDatabase _ _) | DeMySqlServer _ => Keep
  | DeRedis kind => if is_redis_server kind then Keep else Evict
  | DePreparedStatementUnsupported session_healthy => if session_healthy then Keep else Evict
  | DeInvalidCatalogRequest | DeRedisKeyMissing | DeRedisKeyTypeChanged => Keep
  | DeInvalidConfig _ _ | DeUnavailable _ _ | DeTimeout _ _ | DeMySql SqlxOther | DeRedisParse _
  | DeRedisTls _ | DeUnsupported _ _ => Evict
  end.

(** ** Descriptors *)

Definition MYSQL_DESCRIPTOR : DriverDescriptor :=
  {| dd_kind := MySql; dd_display_name := lit "MySQL"; dd_default_port := 3306;
     dd_availability := Ready; dd_languages := [Sql];
     dd_capabilities := N.lor (N.lor (N.lor CONNECT PING) SQL) CATALOG;
     dd_planned_capabilities := 0; dd_reason := None |}.

Definition REDIS_DESCRIPTOR : DriverDescriptor :=
  {| dd_kind := Redis; dd_display_name := lit "Redis"; dd_default_port := 6379;
     dd_availability := Ready; dd_languages := [RedisCommand];
     dd_capabilities := N.lor (N.lor (N.lor CONNECT PING) COMMAND) KEYSPACE_BROWSE;
     dd_planned_capabilities := 0; dd_reason := None |}.

Definition REASON : str := lit "MongoDB runtime is planned after the MySQL/Redis MVP".

Definition MONGODB_DESCRIPTOR : DriverDescriptor :=
  {| dd_kind := MongoDb; dd_display_name := lit "MongoDB"; dd_default_port := 27017;
     dd_availability := Planned; dd_languages := [MongoDocument];
     dd_capabilities := 0;
     dd_planned_capabilities := N.lor (N.lor (N.lor CONNECT PING) DOCUMENT) CATALOG;
     dd_reason := Some REASON |}.

Definition descriptors : list DriverDescriptor := [MYSQL_DESCRIPTOR; REDIS_DESCRIPTOR; MONGODB_DESCRIPTOR].

Definition descriptor_of (driver : DriverKind) : option DriverDescriptor :=
  List.find (fun descriptor => bool_decide (dd_kind descriptor = driver)) descriptors.

(** The [Debug] name of a language, as in the error text. *)
Definition QueryLanguage_debug (l : QueryLanguage) : str :=
  match l with Sql => lit "Sql" | RedisCommand => lit "RedisCommand" | MongoDocument => lit "MongoDocument" end.

(** [service.rs ensure_ready] *)
Definition ensure_ready (profile : ConnectionProfile) : result DriverError unit :=
  descriptor ← ok_or (descriptor_of (p_driver profile))
                 (DeInvalidConfig (p_driver profile) (lit "driver descriptor is missing"));
  if negb (bool_decide (dd_availability descriptor = Ready)) then
    Err (DeUnavailable (p_driver profile) (default (lit "driver is planned") (dd_reason descriptor)))
  else
    let required :=
      match language (p_driver profile) with
      | Sql => SQL | RedisCommand => COMMAND | MongoDocument => DOCUMENT
      end in
    reject_if (negb (caps_contains (dd_capabilities descriptor) required))
      (DeUnsupported (p_driver profile) (QueryLanguage_debug (language (p_driver profile)))).

(** [service.rs ensure_connector_tls_support] *)
Definition ensure_connector_tls_support (supports_redis_tls : bool) (profile : ConnectionProfile) :
    result DriverError unit :=
  reject_if (bool_decide (p_driver profile = Redis) && bool_decide (p_tls profile = Required)
             && negb supports_redis_tls)
    (DeUnsupported Redis (lit "required TLS transport")).

(** [drivers/mod.rs validate_profile] *)
Definition validate_profile (profile : ConnectionProfile) : result DriverError unit :=
  _ ← reject_if (bool_decide (trim (p_host profile) = [])) (DeInvalidConfig (p_driver profile) (lit "host is empty"));
  reject_if (p_port profile =? 0)%N (DeInvalidConfig (p_driver profile) (lit "port must be non-zero")).
