(* ===== verification/Service.v ===== *)
(** * The application service (src/src/service.rs)

    The observed configuration with its profile generations, the session cache,
    the stored credentials, and the operations on them.  Each operation that the
    program performs under one lock is one function on the service state; network
    connections, blocking tasks and the iteration order of hash maps are inputs. *)

From S2P Require Import Prelude RustStr Model Execution Retention Secrets Profile Config ConfigWriter Drivers.

Inductive ServiceError :=
| SeConfig (error : ConfigError)
| SeSecret (error : SecretError)
| SeDriver (error : DriverError)
| SeConnectionAuthenticationFailed (code : PublicCode)
| SeUnknownProfile (profile_id : ProfileId)
| SeLanguageMismatch (driver : DriverKind) (actual : QueryLanguage)
| SeDriverMismatch (expected actual : DriverKind)
| SeInvalidRequest (code : PublicCode)
| SeInvalidRowLimit
| SeInvalidProfile (error : ProfileValidationError)
| SeProfileIdConflict (draft_id : DraftId) (operation_id : OperationId)
| SeProfileStale (profile_id : ProfileId) (operation_id : OperationId)
| SeDraftCredentialRequired (draft_id : DraftId) (operation_id : OperationId) (code : PublicCode)
| SeConfigTaskFailed
| SeMutationLaneClosed
| SeCatalogTokenKeyUnavailable
| SePostCommitObservation (commit_state : CommitState) (source : ConfigError)
| SeConfigUncertain.

(** ** State *)

Record ConnectionFingerprint := {
  fp_driver : DriverKind; fp_host : str; fp_port : N; fp_database : option str;
  fp_username : option str; fp_tls : TlsMode; fp_credential_mode : CredentialMode;
  fp_secret_env : option str; fp_redis_ca_file : option str;
}.
#[export] Instance ConnectionFingerprint_eq : EqDecision ConnectionFingerprint.
Proof. solve_decision. Defined.

Definition fingerprint_of (profile : ConnectionProfile) : ConnectionFingerprint :=
  {| fp_driver := p_driver profile; fp_host := p_host profile; fp_port := p_port profile;
     fp_database := p_database profile; fp_username := p_username profile; fp_tls := p_tls profile;
     fp_credential_mode := p_credential_mode profile; fp_secret_env := p_secret_env profile;
     fp_redis_ca_file := ca_file (p_redis_tls profile) |}.

Record CachedSessionIdentity := {
  ci_profile_generation : ProfileGeneration;
  ci_session_generation : SessionGeneration;
  ci_fingerprint : ConnectionFingerprint;
}.
#[export] Instance CachedSessionIdentity_eq : EqDecision CachedSessionIdentity.
Proof. solve_decision. Defined.

(** A session handle is known by its address. *)
Abbreviation SessionHandle := N (only parsing).

Record CachedSession := {
  cs_profile_generation : ProfileGeneration;
  cs_session_generation : SessionGeneration;
  cs_fingerprint : ConnectionFingerprint;
  cs_handle : SessionHandle;
}.

Definition identity (c : CachedSession) : CachedSessionIdentity :=
  {| ci_profile_generation := cs_profile_generation c; ci_session_generation := cs_session_generation c;
     ci_fingerprint := cs_fingerprint c |}.

Record ObservedState := {
  ob_config : Config;
  ob_source_version : ConfigSourceVersion;
  ob_generations : gmap (list N) ProfileGeneration;
  ob_tombstones : gmap (list N) ProfileGeneration;
}.

Record Service := {
  sv_observed : ObservedState;
  sv_sessions : gmap (list N) CachedSession;
  sv_secrets : SessionSecretStore;
  sv_next_generation : N;
  sv_next_session_generation : N;
  sv_next_result_id : N;
  sv_uncertain : bool;
  sv_lane_closed : bool;
  sv_closed : list SessionHandle;   (* handles closed so far, the latest first *)
}.

Definition set_observed (s : Service) (o : ObservedState) : Service :=
  {| sv_observed := o; sv_sessions := sv_sessions s; sv_secrets := sv_secrets s;
     sv_next_generation := sv_next_generation s; sv_next_session_generation := sv_next_session_generation s;
     sv_next_result_id := sv_next_result_id s; sv_uncertain := sv_uncertain s;
     sv_lane_closed := sv_lane_closed s; sv_closed := sv_closed s |}.
Definition set_sessions (s : Service) (sessions : gmap (list N) CachedSession) : Service :=
  {| sv_observed := sv_observed s; sv_sessions := sessions; sv_secrets := sv_secrets s;
     sv_next_generation := sv_next_generation s; sv_next_session_generation := sv_next_session_generation s;
     sv_next_result_id := sv_next_result_id s; sv_uncertain := sv_uncertain s;
     sv_lane_closed := sv_lane_closed s; sv_closed := sv_closed s |}.
Definition set_secrets (s : Service) (secrets : SessionSecretStore) : Service :=
  {| sv_observed := sv_observed s; sv_sessions := sv_sessions s; sv_secrets := secrets;
     sv_next_generation := sv_next_generation s; sv_next_session_generation := sv_next_session_generation s;
     sv_next_result_id := sv_next_result_id s; sv_uncertain := sv_uncertain s;
     sv_lane_closed := sv_lane_closed s; sv_closed := sv_closed s |}.
Definition set_next_generation (s : Service) (n : N) : Service :=
  {| sv_observed := sv_observed s; sv_sessions := sv_sessions s; sv_secrets := sv_secrets s;
     sv_next_generation := n; sv_next_session_generation := sv_next_session_generation s;
     sv_next_result_id := sv_next_result_id s; sv_uncertain := sv_uncertain s;
     sv_lane_closed := sv_lane_closed s; sv_closed := sv_closed s |}.
Definition set_next_session_generation (s : Service) (n : N) : Service :=
  {| sv_observed := sv_observed s; sv_sessions := sv_sessions s; sv_secrets := sv_secrets s;
     sv_next_generation := sv_next_generation s; sv_next_session_generation := n;
     sv_next_result_id := sv_next_result_id s; sv_uncertain := sv_uncertain s;
     sv_lane_closed := sv_lane_closed s; sv_closed := sv_closed s |}.
Definition set_uncertain (s : Service) (uncertain : bool) : Service :=
  {| sv_observed := sv_observed s; sv_sessions := sv_sessions s; sv_secrets := sv_secrets s;
     sv_next_generation := sv_next_generation s; sv_next_session_generation := sv_next_session_generation s;
     sv_next_result_id := sv_next_result_id s; sv_uncertain := uncertain;
     sv_lane_closed := sv_lane_closed s; sv_closed := sv_closed s |}.
(** [handle.close().await] *)
Definition close_handle (s : Service) (handle : SessionHandle) : Service :=
  {| sv_observed := sv_observed s; sv_sessions := sv_sessions s; sv_secrets := sv_secrets s;
     sv_next_generation := sv_next_generation s; sv_next_session_generation := sv_next_session_generation s;
     sv_next_result_id := sv_next_result_id s; sv_uncertain := sv_uncertain s;
     sv_lane_closed := sv_lane_closed s; sv_closed := handle :: sv_closed s |}.

Definition profiles (s : Service) : list ConnectionProfile := cfg_profiles (ob_config (sv_observed s)).
Definition generations (s : Service) : gmap (list N) ProfileGeneration := ob_generations (sv_observed s).

(** [AtomicU64::fetch_add(1)]: the counter wraps. *)
Definition fetch_add (n : N) : N := ((n + 1) mod (U64_MAX + 1))%N.

(** [profiles.iter().map(|p| (id, p)).collect::<HashMap>()]: the last entry wins. *)
Definition profiles_by_id (l : list ConnectionProfile) : gmap (list N) ConnectionProfile :=
  foldl (fun m p => <[p_id p := p]> m) ∅ l.

Definition find_profile (l : list ConnectionProfile) (profile_id : ProfileId) : option ConnectionProfile :=
  List.find (fun p => bool_decide (p_id p = profile_id)) l.

(** ** What mutations leave for later *)

Record DeferredSessionFence := {
  df_profile_id : ProfileId;
  df_previous : CachedSessionIdentity;
  df_next_profile_generation : ProfileGeneration;
  df_next_fingerprint : ConnectionFingerprint;
  df_retag_eligible : bool;
}.

Record DeferredCleanupTarget := {
  dt_profile_id : ProfileId;
  dt_previous_generation : ProfileGeneration;
  dt_session : option CachedSessionIdentity;
  dt_clear_secret : bool;
}.

Record DeferredRuntimeCleanup := {
  dc_targets : list DeferredCleanupTarget;
  dc_secret_updates : list (ProfileId * SessionSecretUpdate);
  dc_clear_all_secrets : bool;
  dc_retain_secret_profiles : option (gset (list N));
}.

Definition cleanup_empty : DeferredRuntimeCleanup :=
  {| dc_targets := []; dc_secret_updates := []; dc_clear_all_secrets := false;
     dc_retain_secret_profiles := None |}.

Definition push_secret_update (c : DeferredRuntimeCleanup) (update : ProfileId * SessionSecretUpdate) :=
  {| dc_targets := dc_targets c; dc_secret_updates := dc_secret_updates c ++ [update];
     dc_clear_all_secrets := dc_clear_all_secrets c;
     dc_retain_secret_profiles := dc_retain_secret_profiles c |}.

Record ReloadConfigurationOutcome := {
  ro_unchanged : gset (list N);
  ro_added : gset (list N);
  ro_changed : gmap (list N) ProfileGeneration;
  ro_removed : gmap (list N) ProfileGeneration;
}.

Inductive LocalSessionPolicy := Resolve (retag : bool) | Defer (retag_eligible : bool).

Inductive MutationIdentity :=
| IdCreate (profile_id : ProfileId)
| IdUpdate (profile_id : ProfileId) (session_policy : LocalSessionPolicy)
| IdDelete (profile_id : ProfileId).

Definition mi_profile_id (i : MutationIdentity) : ProfileId :=
  match i with IdCreate p | IdUpdate p _ | IdDelete p => p end.
Definition deferred_retag_eligibility (i : MutationIdentity) : option bool :=
  match i with
  | IdUpdate _ (Resolve retag_eligible) | IdUpdate _ (Defer retag_eligible) => Some retag_eligible
  | IdCreate _ | IdDelete _ => None
  end.
Definition is_create (i : MutationIdentity) : bool := match i with IdCreate _ => true | _ => false end.
Definition is_delete (i : MutationIdentity) : bool := match i with IdDelete _ => true | _ => false end.

(** ** Fallible operations on the service *)

Definition Sv (E A : Type) : Type := Service -> result E A * Service.

#[export] Instance Sv_ret E : MRet (Sv E) := fun _ a s => (Ok a, s).
#[export] Instance Sv_bind E : MBind (Sv E) := fun _ _ f m s =>
  match m s with (Ok a, s) => f a s | (Err e, s) => (Err e, s) end.

Definition sv_throw {E A} (e : E) : Sv E A := fun s => (Err e, s).
Definition sv_lift {E A} (r : result E A) : Sv E A := fun s => (r, s).
Definition sv_get {E} : Sv E Service := fun s => (Ok s, s).
Definition sv_map_err {E F A} (f : E -> F) (m : Sv E A) : Sv F A := fun s =>
  let '(r, s) := m s in (map_err f r, s).
(** A step that cannot fail. *)
Definition sv_step {E A} (f : Service -> A * Service) : Sv E A := fun s =>
  let '(a, s) := f s in (Ok a, s).
(** An operation on the credential store. *)
Definition on_secrets {A} (f : SessionSecretStore -> result SecretError A * SessionSecretStore) :
    Sv ServiceError A := fun s =>
  let '(r, secrets) := f (sv_secrets s) in (map_err SeSecret r, set_secrets s secrets).

(** ** Reads *)

Definition ensure_config_certain : Sv ServiceError unit := fun s =>
  (reject_if (sv_uncertain s) SeConfigUncertain, s).

Definition profiles_with_generations_snapshot (s : Service) : list (ConnectionProfile * ProfileGeneration) :=
  omap (fun profile => pair profile <$> generations s !! p_id profile) (profiles s).

Definition profile_generation (profile_id : ProfileId) (s : Service) : result ServiceError ProfileGeneration :=
  ok_or (generations s !! profile_id) (SeUnknownProfile profile_id).

Definition tombstone_generation (profile_id : ProfileId) (s : Service) : option ProfileGeneration :=
  ob_tombstones (sv_observed s) !! profile_id.

Definition cached_session_identity (profile_id : ProfileId) (s : Service) : option CachedSessionIdentity :=
  identity <$> sv_sessions s !! profile_id.

Definition has_current_session_secret (profile_id : ProfileId) : Sv ServiceError bool := fun s =>
  (map_err SeSecret (has_current (sv_secrets s) profile_id), s).

Definition ensure_generation (profile_id : ProfileId) (expected : ProfileGeneration)
    (operation_id : OperationId) : Sv ServiceError unit := fun s =>
  (reject_if (negb (bool_decide (generations s !! profile_id = Some expected)))
     (SeProfileStale profile_id operation_id), s).

Definition profile (profile_id : ProfileId) : Sv ServiceError ConnectionProfile := fun s =>
  (ok_or (find_profile (profiles s) profile_id) (SeUnknownProfile profile_id), s).

Definition profile_with_generation (profile_id : ProfileId) :
    Sv ServiceError (ConnectionProfile * ProfileGeneration) := fun s =>
  (profile ← ok_or (find_profile (profiles s) profile_id) (SeUnknownProfile profile_id);
   generation ← ok_or (generations s !! profile_id) (SeUnknownProfile profile_id);
   Ok (profile, generation), s).

Definition ensure_session_observation (profile_id : ProfileId) (generation : ProfileGeneration)
    (operation_id : OperationId) : Sv ServiceError unit := fun s =>
  (if sv_uncertain s then Err SeConfigUncertain
   else reject_if (negb (bool_decide (generations s !! profile_id = Some generation)))
          (SeProfileStale profile_id operation_id), s).

(** [mutation_lane.acquire_owned()]: waits for the lane; fails when it is closed. *)
Definition acquire_lane : Sv ServiceError unit := fun s =>
  (reject_if (sv_lane_closed s) SeMutationLaneClosed, s).

(** ** Counters *)

Definition allocate_profile_generation (s : Service) : ProfileGeneration * Service :=
  (sv_next_generation s, set_next_generation s (fetch_add (sv_next_generation s))).

Definition allocate_session_generation (s : Service) : SessionGeneration * Service :=
  (sv_next_session_generation s, set_next_session_generation s (fetch_add (sv_next_session_generation s))).

(** ** The session cache *)

Definition take_cached_session_exact (profile_id : ProfileId) (profile_generation : ProfileGeneration)
    (session_generation : SessionGeneration) (s : Service) : option SessionHandle * Service :=
  match sv_sessions s !! profile_id with
  | Some cached =>
      if ((cs_profile_generation cached =? profile_generation)
          && (cs_session_generation cached =? session_generation))%N
      then (Some (cs_handle cached), set_sessions s (delete profile_id (sv_sessions s)))
      else (None, s)
  | None => (None, s)
  end.

Definition evict_cached_session_exact (profile_id : ProfileId) (profile_generation : ProfileGeneration)
    (session_generation : SessionGeneration) (s : Service) : bool * Service :=
  let '(removed, s) := take_cached_session_exact profile_id profile_generation session_generation s in
  match removed with
  | Some removed => (true, close_handle s removed)
  | None => (false, s)
  end.

Definition evict_cached_session_profile_generation (profile_id : ProfileId)
    (profile_generation : ProfileGeneration) (s : Service) : bool * Service :=
  match cached_session_identity profile_id s with
  | Some identity =>
      if (ci_profile_generation identity =? profile_generation)%N
      then evict_cached_session_exact profile_id profile_generation (ci_session_generation identity) s
      else (false, s)
  | None => (false, s)
  end.

Definition retag_cached_session_exact (profile_id : ProfileId) (expected : CachedSessionIdentity)
    (new_profile_generation : ProfileGeneration) (new_fingerprint : ConnectionFingerprint) (s : Service) :
    bool * Service :=
  match sv_sessions s !! profile_id with
  | None => (false, s)
  | Some cached =>
      if negb (bool_decide (identity cached = expected))
         || negb (bool_decide (cs_fingerprint cached = new_fingerprint))
      then (false, s)
      else (true, set_sessions s
              (<[profile_id := {| cs_profile_generation := new_profile_generation;
                                  cs_session_generation := cs_session_generation cached;
                                  cs_fingerprint := cs_fingerprint cached;
                                  cs_handle := cs_handle cached |}]> (sv_sessions s)))
  end.

Definition resolve_deferred_session (fence : DeferredSessionFence) (allow_retag : bool) (s : Service) :
    bool * Service :=
  if allow_retag && df_retag_eligible fence then
    retag_cached_session_exact (df_profile_id fence) (df_previous fence)
      (df_next_profile_generation fence) (df_next_fingerprint fence) s
  else
    let '(_, s) := evict_cached_session_exact (df_profile_id fence)
                     (ci_profile_generation (df_previous fence))
                     (ci_session_generation (df_previous fence)) s in
    (false, s).

Definition disconnect_profile_exact (operation_id : OperationId) (profile_id : ProfileId)
    (expected_generation : ProfileGeneration) (expected_session_generation : option SessionGeneration) :
    Sv ServiceError (option CachedSessionIdentity) :=
  ensure_generation profile_id expected_generation operation_id ;;
  s ← sv_get;
  match cached_session_identity profile_id s, expected_session_generation with
  | None, None => mret None
  | Some identity, Some expected =>
      if (ci_session_generation identity =? expected)%N then
        evicted ← sv_step (evict_cached_session_exact profile_id expected_generation expected);
        if evicted : bool then mret (Some identity)
        else sv_throw (SeProfileStale profile_id operation_id)
      else sv_throw (SeProfileStale profile_id operation_id)
  | _, _ => sv_throw (SeProfileStale profile_id operation_id)
  end.

Definition store_session_credential_exact (operation_id : OperationId) (profile_id : ProfileId)
    (expected_generation : ProfileGeneration) (secret : SessionSecret) : Sv ServiceError unit :=
  ensure_config_certain ;;
  acquire_lane ;;
  ensure_config_certain ;;
  ensure_generation profile_id expected_generation operation_id ;;
  current ← profile profile_id;
  if negb (bool_decide (p_credential_mode current = CredSession))
  then sv_throw (SeInvalidProfile (field_error FCredentialMode))
  else on_secrets (fun store => apply store profile_id (UpdateReplace secret)).

Definition needs_session_credential (profile_id : ProfileId) : Sv ServiceError bool :=
  current ← profile profile_id;
  if bool_decide (p_credential_mode current = CredSession) then
    has ← has_current_session_secret profile_id; mret (negb has)
  else mret false.

(** ** Deferred cleanup *)

Definition evict_target (target : DeferredCleanupTarget) (s : Service) : Service :=
  match dt_session target with
  | Some identity =>
      (evict_cached_session_exact (dt_profile_id target) (ci_profile_generation identity)
         (ci_session_generation identity) s).2
  | None => s
  end.

Fixpoint sv_for_each {A} (f : A -> Sv ServiceError unit) (l : list A) : Sv ServiceError unit :=
  match l with [] => mret tt | x :: l => f x ;; sv_for_each f l end.

Definition apply_deferred_cleanup (cleanup : DeferredRuntimeCleanup) : Sv ServiceError unit :=
  sv_step (fun s => (tt, foldl (fun s target => evict_target target s) s (dc_targets cleanup))) ;;
  sv_for_each (fun target =>
    if dt_clear_secret target
    then on_secrets (fun store => apply store (dt_profile_id target) UpdateClear)
    else mret tt) (dc_targets cleanup) ;;
  if dc_clear_all_secrets cleanup then on_secrets clear_all
  else
    match dc_retain_secret_profiles cleanup with
    | Some profile_ids => on_secrets (fun store => retain_profiles store profile_ids)
    | None => mret tt
    end ;;
    sv_for_each (fun '(profile_id, update) => on_secrets (fun store => apply store profile_id update))
      (dc_secret_updates cleanup).

Definition shutdown_runtime (s : Service) : Service :=
  let handles := (fun entry => cs_handle entry.2) <$> map_to_list (sv_sessions s) in
  let '(_, secrets) := clear_all (sv_secrets s) in
  foldl close_handle (set_secrets (set_sessions s ∅) secrets) handles.

(** ** Adopting a configuration *)

(** What the service runs against: the iteration order of a hash map, the result
    of the blocking tasks ([None] when a task cannot be joined), the connector and
    the environment. *)
Record Env := {
  hash_order : forall A, gmap (list N) A -> list (list N * A);
  run_load : option (result ConfigError LoadedConfig);
  run_mutation : ConfigMutation -> MigrationConsent -> option (result ConfigError MutationOutcome);
  supports_redis_tls : bool;
  environment : str -> option str;
  ca_files : CaWorld;
}.

(** [from_validated_loaded]: generations from 1 on, in profile order. *)
Fixpoint initial_generations (l : list ConnectionProfile) (next : N) (m : gmap (list N) ProfileGeneration) :
    gmap (list N) ProfileGeneration * N :=
  match l with
  | [] => (m, next)
  | p :: l => initial_generations l (N.min (next + 1) U64_MAX) (<[p_id p := next]> m)
  end.

Definition from_validated_loaded (loaded : LoadedConfig) (secrets : SessionSecretStore) : Service :=
  let '(generations, next) := initial_generations (cfg_profiles (lc_config loaded)) 1 ∅ in
  {| sv_observed := {| ob_config := lc_config loaded; ob_source_version := lc_source_version loaded;
                       ob_generations := generations; ob_tombstones := ∅ |};
     sv_sessions := ∅; sv_secrets := secrets; sv_next_generation := next;
     sv_next_session_generation := 1; sv_next_result_id := 1; sv_uncertain := false;
     sv_lane_closed := false; sv_closed := [] |}.

(** One generation per profile: the one [keep] names, else a fresh one. *)
Fixpoint assign_generations (keep : ConnectionProfile -> option ProfileGeneration)
    (l : list ConnectionProfile) (m : gmap (list N) ProfileGeneration) (s : Service) :
    gmap (list N) ProfileGeneration * Service :=
  match l with
  | [] => (m, s)
  | p :: l =>
      let '(generation, s) :=
        match keep p with
        | Some generation => (generation, s)
        | None => allocate_profile_generation s
        end in
      assign_generations keep l (<[p_id p := generation]> m) s
  end.

Definition session_identities (s : Service) : gmap (list N) CachedSessionIdentity := identity <$> sv_sessions s.

Section env.
Context (env : Env).

(** A fresh generation for every entry of [ids], in that order. *)
Fixpoint fresh_for (ids : list (list N)) (m : gmap (list N) ProfileGeneration) (s : Service) :
    gmap (list N) ProfileGeneration * Service :=
  match ids with
  | [] => (m, s)
  | id :: ids =>
      let '(generation, s) := allocate_profile_generation s in
      fresh_for ids (<[id := generation]> m) s
  end.

Definition enter_config_uncertain_deferred (s : Service) : DeferredRuntimeCleanup * Service :=
  let s := set_uncertain s true in
  let entries := hash_order env _ (generations s) in
  let targets :=
    (fun '(profile_id, generation) =>
       {| dt_profile_id := profile_id; dt_previous_generation := generation;
          dt_session := identity <$> sv_sessions s !! profile_id; dt_clear_secret := true |}) <$> entries in
  let '(generations, s) := fresh_for entries.*1 (generations s) s in
  let o := sv_observed s in
  ({| dc_targets := targets; dc_secret_updates := []; dc_clear_all_secrets := true;
      dc_retain_secret_profiles := None |},
   set_observed s {| ob_config := ob_config o; ob_source_version := ob_source_version o;
                     ob_generations := generations; ob_tombstones := ob_tombstones o |}).

Definition replace_loaded_config (loaded : LoadedConfig) (s : Service) : DeferredRuntimeCleanup * Service :=
  let o := sv_observed s in
  let previous_profiles := profiles_by_id (cfg_profiles (ob_config o)) in
  let previous_generations := ob_generations o in
  let previous_sessions := session_identities s in
  let next_profiles := profiles_by_id (cfg_profiles (lc_config loaded)) in
  let unchanged id := bool_decide (is_Some (next_profiles !! id) /\ previous_profiles !! id = next_profiles !! id) in
  let keep p := if unchanged (p_id p) then previous_generations !! p_id p else None in
  let '(generations, s) := assign_generations keep (cfg_profiles (lc_config loaded)) ∅ s in
  let removed := List.filter (fun entry => bool_decide (next_profiles !! entry.1 = None))
                   (hash_order env _ previous_profiles) in
  let '(tombstones, s) := fresh_for removed.*1 (ob_tombstones o) s in
  let s := set_observed s {| ob_config := lc_config loaded; ob_source_version := lc_source_version loaded;
                             ob_generations := generations; ob_tombstones := tombstones |} in
  let targets :=
    omap (fun '(profile_id, previous) =>
      if bool_decide (next_profiles !! profile_id = Some previous) then None
      else (fun previous_generation =>
              {| dt_profile_id := profile_id; dt_previous_generation := previous_generation;
                 dt_session := previous_sessions !! profile_id; dt_clear_secret := true |})
           <$> previous_generations !! profile_id) (hash_order env _ previous_profiles) in
  ({| dc_targets := targets; dc_secret_updates := []; dc_clear_all_secrets := false;
      dc_retain_secret_profiles := Some (dom next_profiles) |}, s).

(** The target of one previous profile in [reconcile_after_mutation], with the
    fence when it is the local one. *)
Definition reconcile_target (identity : MutationIdentity) (next_profiles : gmap (list N) ConnectionProfile)
    (generations previous_generations : gmap (list N) ProfileGeneration)
    (previous_sessions : gmap (list N) CachedSessionIdentity)
    (acc : list DeferredCleanupTarget * option DeferredSessionFence)
    (entry : list N * ConnectionProfile) :
    result ServiceError (list DeferredCleanupTarget * option DeferredSessionFence) :=
  let '(targets, deferred_session) := acc in
  let '(profile_id, previous_profile) := entry in
  let is_local_target := bool_decide (profile_id = mi_profile_id identity) in
  let profile_changed := negb (bool_decide (next_profiles !! profile_id = Some previous_profile)) in
  let local_generation_changed := is_local_target && negb (is_create identity) in
  if negb profile_changed && negb local_generation_changed then Ok acc
  else
    previous_generation ← ok_or (previous_generations !! profile_id) SeConfigUncertain;
    let session := previous_sessions !! profile_id in
    let '(session, deferred_session) :=
      match (if is_local_target then deferred_retag_eligibility identity else None) with
      | Some retag_eligible =>
          (* [session.take()] leaves the target without the session. *)
          (None,
           match session, generations !! profile_id, next_profiles !! profile_id with
           | Some previous, Some next_profile_generation, Some next_profile =>
               Some {| df_profile_id := profile_id; df_previous := previous;
                       df_next_profile_generation := next_profile_generation;
                       df_next_fingerprint := fingerprint_of next_profile;
                       df_retag_eligible := retag_eligible |}
           | _, _, _ => deferred_session
           end)
      | None => (session, deferred_session)
      end in
    Ok (targets ++ [{| dt_profile_id := profile_id; dt_previous_generation := previous_generation;
                       dt_session := session;
                       dt_clear_secret := negb is_local_target || is_delete identity |}],
        deferred_session).

Fixpoint reconcile_targets (step : list DeferredCleanupTarget * option DeferredSessionFence ->
      list N * ConnectionProfile -> result ServiceError (list DeferredCleanupTarget * option DeferredSessionFence))
    (acc : list DeferredCleanupTarget * option DeferredSessionFence) (entries : list (list N * ConnectionProfile)) :
    result ServiceError (list DeferredCleanupTarget * option DeferredSessionFence) :=
  match entries with
  | [] => Ok acc
  | entry :: entries => acc ← step acc entry; reconcile_targets step acc entries
  end.

Record ReconcileMutationOutcome := {
  rm_profile_generation : ProfileGeneration;
  rm_deferred_session : option DeferredSessionFence;
  rm_cleanup : DeferredRuntimeCleanup;
}.

Definition reconcile_after_mutation (config : Config) (identity : MutationIdentity) :
    Sv ServiceError ReconcileMutationOutcome := fun s =>
  let o := sv_observed s in
  let previous_profiles := profiles_by_id (cfg_profiles (ob_config o)) in
  let previous_generations := ob_generations o in
  let previous_sessions := session_identities s in
  let next_profiles := profiles_by_id (cfg_profiles config) in
  let local_profile_id := mi_profile_id identity in
  let keep p :=
    if bool_decide (p_id p = local_profile_id) && negb (is_delete identity) then None
    else if bool_decide (previous_profiles !! p_id p = Some p) then previous_generations !! p_id p
    else None in
  let '(generations, s) := assign_generations keep (cfg_profiles config) ∅ s in
  let '(deletion, s) :=
    if is_delete identity then
      let '(generation, s) := allocate_profile_generation s in (Some generation, s)
    else (None, s) in
  let affected_generation :=
    match deletion with Some _ => deletion | None => generations !! local_profile_id end in
  let tombstones :=
    match deletion with
    | Some generation => <[local_profile_id := generation]> (ob_tombstones o)
    | None => ob_tombstones o
    end in
  match reconcile_targets
          (reconcile_target identity next_profiles generations previous_generations previous_sessions)
          ([], None) (hash_order env _ previous_profiles) with
  | Err e => (Err e, s)
  | Ok (targets, deferred_session) =>
      match affected_generation with
      | None => (Err SeConfigUncertain, s)
      | Some profile_generation =>
          (Ok {| rm_profile_generation := profile_generation;
                 rm_deferred_session := deferred_session;
                 rm_cleanup :=
                   {| dc_targets := targets; dc_secret_updates := []; dc_clear_all_secrets := false;
                      dc_retain_secret_profiles := Some (dom next_profiles) |} |},
           set_observed s {| ob_config := config; ob_source_version := SourceV2;
                             ob_generations := generations; ob_tombstones := tombstones |})
      end
  end.

Record RuntimeReloadOutcome := {
  rr_diff : option ReloadConfigurationOutcome;
  rr_cleanup : DeferredRuntimeCleanup;
  rr_config_uncertain : bool;
}.

(** The comparison of the observed profiles with the loaded ones; the lists the
    code sorts are sets and maps here. *)
Definition reload_diff (loaded : LoadedConfig) (s : Service) : ReloadConfigurationOutcome :=
  let previous := profiles_by_id (profiles s) in
  let next := profiles_by_id (cfg_profiles (lc_config loaded)) in
  {| ro_unchanged := dom (filter (fun entry => previous !! entry.1 = Some entry.2) next);
     ro_added := dom (filter (fun entry => previous !! entry.1 = None) next);
     ro_changed :=
       filter (fun entry => is_Some (next !! entry.1) /\ is_Some (previous !! entry.1)
                            /\ previous !! entry.1 <> next !! entry.1) (generations s);
     ro_removed :=
       filter (fun entry => is_Some (previous !! entry.1) /\ next !! entry.1 = None) (generations s) |}.

Definition reload_configuration_for_runtime : Sv ServiceError RuntimeReloadOutcome :=
  acquire_lane ;;
  let uncertain :=
    cleanup ← sv_step enter_config_uncertain_deferred;
    mret {| rr_diff := None; rr_cleanup := cleanup; rr_config_uncertain := true |} in
  match run_load env with
  | Some (Ok loaded) =>
      if is_ok (validate_config_identity (lc_config loaded)) then
        s ← sv_get;
        cleanup ← sv_step (replace_loaded_config loaded);
        sv_step (fun s => (tt, set_uncertain s false)) ;;
        mret {| rr_diff := Some (reload_diff loaded s); rr_cleanup := cleanup; rr_config_uncertain := false |}
      else uncertain
  | _ => uncertain
  end.

Definition reload_configuration_with_outcome : Sv ServiceError ReloadConfigurationOutcome :=
  outcome ← reload_configuration_for_runtime;
  apply_deferred_cleanup (rr_cleanup outcome) ;;
  if rr_config_uncertain outcome then sv_throw SeConfigUncertain
  else sv_lift (ok_or (rr_diff outcome) SeConfigUncertain).

(** ** Profile mutations *)

Record RuntimeMutationFailure := { rf_error : ServiceError; rf_cleanup : DeferredRuntimeCleanup }.

(** [RuntimeMutationFailure::from], which [?] applies. *)
Definition plain_failure (error : ServiceError) : RuntimeMutationFailure :=
  {| rf_error := error; rf_cleanup := cleanup_empty |}.
Definition lifted {A} (m : Sv ServiceError A) : Sv RuntimeMutationFailure A := sv_map_err plain_failure m.

Definition runtime_mutation_failure {A} (error : ServiceError) : Sv RuntimeMutationFailure A :=
  cleanup ← sv_step enter_config_uncertain_deferred;
  sv_throw {| rf_error := error; rf_cleanup := cleanup |}.

Record ObservedMutationOutcome := {
  om_state : CommitState;
  om_loaded : LoadedConfig;
  om_migration_backup : option str;
  om_affected_profile_id : option str;
}.

Definition write_config (mutation : ConfigMutation) (consent : MigrationConsent) :
    Sv RuntimeMutationFailure ObservedMutationOutcome :=
  outcome ← lifted (sv_lift (ok_or (run_mutation env mutation consent) SeConfigTaskFailed));
  outcome ← lifted (sv_lift (map_err SeConfig outcome));
  match mo_observation outcome with
  | Observed loaded =>
      mret {| om_state := mo_state outcome; om_loaded := loaded;
              om_migration_backup := mo_migration_backup outcome;
              om_affected_profile_id := mo_affected_profile_id outcome |}
  | ObservationFailed commit_state source =>
      runtime_mutation_failure (SePostCommitObservation commit_state source)
  end.

(** [write_config] with the errors the handler renames. *)
Definition write_config_or (rename : ConfigError -> option ServiceError) (mutation : ConfigMutation)
    (consent : MigrationConsent) : Sv RuntimeMutationFailure ObservedMutationOutcome :=
  sv_map_err (fun failure =>
    match rf_error failure with
    | SeConfig error => match rename error with Some error => plain_failure error | None => failure end
    | _ => failure
    end) (write_config mutation consent).

Definition validate_create_secret_update (mode : CredentialMode) (update : SessionSecretUpdate) :
    result SecretError unit :=
  match mode, update with
  | CredNone, UpdateClear | CredEnvironment, UpdateClear | CredSession, UpdateReplace _
  | CredSession, UpdateClear => Ok tt
  | _, _ => Err InvalidSessionIntent
  end.

Definition invalid_session_intent_error : ServiceError :=
  SeInvalidProfile (ProfileField FSessionCredential PcSessionCredential).

Definition validate_update_secret (persisted : ConnectionProfile) (destination_mode : CredentialMode)
    (update : SessionSecretUpdate) (has_current : bool) : result SecretError unit :=
  match destination_mode, update with
  | CredNone, UpdateClear | CredEnvironment, UpdateClear | CredSession, UpdateReplace _
  | CredSession, UpdateClear => Ok tt
  | CredSession, UpdateKeep =>
      if bool_decide (p_credential_mode persisted = CredSession) && has_current then Ok tt
      else Err InvalidSessionIntent
  | _, _ => Err InvalidSessionIntent
  end.

Record ProfileMutationOutcome := {
  pm_operation_id : OperationId;
  pm_profile_id : ProfileId;
  pm_profile_generation : ProfileGeneration;
  pm_commit_state : CommitState;
  pm_migration_backup : option str;
}.

Record CreateProfileRequest := {
  cp_draft_id : DraftId;
  cp_operation_id : OperationId;
  cp_explicit_id : option ProfileId;
  cp_draft : ConnectionDraft;
  cp_secret_update : SessionSecretUpdate;
  cp_migration_consent : MigrationConsent;
}.

Record UpdateProfileRequest := {
  up_profile_id : ProfileId;
  up_expected_generation : ProfileGeneration;
  up_operation_id : OperationId;
  up_draft : ConnectionDraft;
  up_secret_update : SessionSecretUpdate;
  up_migration_consent : MigrationConsent;
}.

Record DeleteProfileRequest := {
  dp_profile_id : ProfileId;
  dp_expected_generation : ProfileGeneration;
  dp_operation_id : OperationId;
  dp_migration_consent : MigrationConsent;
}.

(** [reconcile_after_mutation] with its [ConfigUncertain] arm. *)
Definition reconcile_or_uncertain (config : Config) (identity : MutationIdentity) :
    Sv RuntimeMutationFailure ReconcileMutationOutcome := fun s =>
  match reconcile_after_mutation config identity s with
  | (Ok reconciled, s) => (Ok reconciled, s)
  | (Err SeConfigUncertain, s) => runtime_mutation_failure SeConfigUncertain s
  | (Err error, s) => (Err (plain_failure error), s)
  end.

Definition create_profile_inner (request : CreateProfileRequest) (defer_cleanup : bool) :
    Sv RuntimeMutationFailure (ProfileMutationOutcome * DeferredRuntimeCleanup) :=
  let draft := cp_draft request in
  lifted ensure_config_certain ;;
  lifted (sv_lift (map_err SeInvalidProfile (validate_connection_draft (ca_files env) draft))) ;;
  lifted (sv_lift (map_err (fun _ => invalid_session_intent_error)
    (validate_create_secret_update (d_credential_mode draft) (cp_secret_update request)))) ;;
  lifted acquire_lane ;;
  lifted ensure_config_certain ;;
  '(mutation, expected_profile) ←
    match cp_explicit_id request with
    | Some profile_id =>
        lifted (sv_lift (map_err SeInvalidProfile (validate_profile_id profile_id))) ;;
        let profile := from_draft profile_id draft in
        mret (MutCreate profile, profile)
    | None =>
        let base_id := slugify_profile_id (d_name draft) in
        let profile := from_draft base_id draft in
        mret (MutCreateAuto base_id profile, profile)
    end;
  outcome ← write_config_or (fun error =>
      match cp_explicit_id request, error with
      | Some _, CeProfileAlreadyExists _ =>
          Some (SeProfileIdConflict (cp_draft_id request) (cp_operation_id request))
      | _, _ => None
      end) mutation (cp_migration_consent request);
  profile_id ← lifted (sv_lift (ok_or (om_affected_profile_id outcome) SeConfigTaskFailed));
  if bool_decide (is_Some (cp_explicit_id request)) && negb (bool_decide (cp_explicit_id request = Some profile_id))
  then runtime_mutation_failure SeConfigUncertain
  else if negb (bool_decide (find_profile (cfg_profiles (lc_config (om_loaded outcome))) profile_id
                             = Some (with_id expected_profile profile_id)))
  then runtime_mutation_failure SeConfigUncertain
  else
    reconciled ← reconcile_or_uncertain (lc_config (om_loaded outcome)) (IdCreate profile_id);
    let cleanup := push_secret_update (rm_cleanup reconciled) (profile_id, cp_secret_update request) in
    cleanup ← (if defer_cleanup then mret cleanup
               else lifted (apply_deferred_cleanup cleanup) ;; mret cleanup_empty);
    mret ({| pm_operation_id := cp_operation_id request; pm_profile_id := profile_id;
             pm_profile_generation := rm_profile_generation reconciled;
             pm_commit_state := om_state outcome; pm_migration_backup := om_migration_backup outcome |},
          cleanup).

Inductive UpdateSessionPolicy := Legacy | DeferSession.

(** Errors that mean the stored profile is not the expected one. *)
Definition stale_rename (profile_id : ProfileId) (operation_id : OperationId) (error : ConfigError) :
    option ServiceError :=
  match error with
  | CeProfileMissing _ | CeExternalChange => Some (SeProfileStale profile_id operation_id)
  | _ => None
  end.

Definition update_profile_inner (request : UpdateProfileRequest) (session_policy : UpdateSessionPolicy) :
    Sv RuntimeMutationFailure
      (ProfileMutationOutcome * option DeferredSessionFence * DeferredRuntimeCleanup) :=
  let profile_id := up_profile_id request in
  let operation_id := up_operation_id request in
  lifted ensure_config_certain ;;
  lifted (sv_lift (map_err SeInvalidProfile (validate_connection_draft (ca_files env) (up_draft request)))) ;;
  lifted acquire_lane ;;
  lifted ensure_config_certain ;;
  lifted (ensure_generation profile_id (up_expected_generation request) operation_id) ;;
  expected_profile ← lifted (profile profile_id);
  has_current ← lifted (has_current_session_secret profile_id);
  lifted (sv_lift (map_err (fun _ => invalid_session_intent_error)
    (validate_update_secret expected_profile (d_credential_mode (up_draft request))
       (up_secret_update request) has_current))) ;;
  let updated := from_draft profile_id (up_draft request) in
  let keep_secret := bool_decide (up_secret_update request = UpdateKeep) in
  let secret_preserves_connection :=
    match p_credential_mode updated with CredSession => keep_secret | CredNone | CredEnvironment => true end in
  let connection_fingerprint_unchanged :=
    bool_decide (fingerprint_of expected_profile = fingerprint_of updated) in
  let retain_idle_session :=
    secret_preserves_connection && connection_fingerprint_unchanged
    && bool_decide (expected_profile = updated) in
  let retag_eligible := secret_preserves_connection && connection_fingerprint_unchanged in
  outcome ← write_config_or (stale_rename profile_id operation_id)
    (MutUpdateChecked profile_id expected_profile updated) (up_migration_consent request);
  if negb (bool_decide (om_affected_profile_id outcome = Some profile_id))
     || negb (bool_decide (find_profile (cfg_profiles (lc_config (om_loaded outcome))) profile_id = Some updated))
  then runtime_mutation_failure SeConfigUncertain
  else
    reconciled ← reconcile_or_uncertain (lc_config (om_loaded outcome))
      (IdUpdate profile_id
         match session_policy with
         | Legacy => Resolve retain_idle_session
         | DeferSession => Defer retag_eligible
         end);
    let cleanup := push_secret_update (rm_cleanup reconciled) (profile_id, up_secret_update request) in
    '(deferred_session, cleanup) ←
      match session_policy with
      | Legacy =>
          match rm_deferred_session reconciled with
          | Some fence => sv_step (fun s => (tt, (resolve_deferred_session fence true s).2))
          | None => mret tt
          end ;;
          lifted (apply_deferred_cleanup cleanup) ;; mret (None, cleanup_empty)
      | DeferSession => mret (rm_deferred_session reconciled, cleanup)
      end;
    mret ({| pm_operation_id := operation_id; pm_profile_id := profile_id;
             pm_profile_generation := rm_profile_generation reconciled;
             pm_commit_state := om_state outcome; pm_migration_backup := om_migration_backup outcome |},
          deferred_session, cleanup).

Definition delete_profile_inner (request : DeleteProfileRequest) (defer_cleanup : bool) :
    Sv RuntimeMutationFailure (ProfileMutationOutcome * DeferredRuntimeCleanup) :=
  let profile_id := dp_profile_id request in
  let operation_id := dp_operation_id request in
  lifted ensure_config_certain ;;
  lifted acquire_lane ;;
  lifted ensure_config_certain ;;
  lifted (ensure_generation profile_id (dp_expected_generation request) operation_id) ;;
  expected_profile ← lifted (profile profile_id);
  outcome ← write_config_or (stale_rename profile_id operation_id)
    (MutDeleteChecked profile_id expected_profile) (dp_migration_consent request);
  if negb (bool_decide (om_affected_profile_id outcome = Some profile_id))
     || bool_decide (is_Some (find_profile (cfg_profiles (lc_config (om_loaded outcome))) profile_id))
  then runtime_mutation_failure SeConfigUncertain
  else
    reconciled ← reconcile_or_uncertain (lc_config (om_loaded outcome)) (IdDelete profile_id);
    cleanup ← (if defer_cleanup then mret (rm_cleanup reconciled)
               else lifted (apply_deferred_cleanup (rm_cleanup reconciled)) ;; mret cleanup_empty);
    mret ({| pm_operation_id := operation_id; pm_profile_id := profile_id;
             pm_profile_generation := rm_profile_generation reconciled;
             pm_commit_state := om_state outcome; pm_migration_backup := om_migration_backup outcome |},
          cleanup).

(** [create_profile], [update_profile] and [delete_profile]: a failure first
    applies the cleanup it carries. *)
Definition finish_mutation {A B} (outcome_of : A -> B) (m : Sv RuntimeMutationFailure A) : Sv ServiceError B := fun s =>
  match m s with
  | (Ok outcome, s) => (Ok (outcome_of outcome), s)
  | (Err failure, s) => (apply_deferred_cleanup (rf_cleanup failure) ;; sv_throw (rf_error failure)) s
  end.

Definition create_profile (request : CreateProfileRequest) : Sv ServiceError ProfileMutationOutcome :=
  finish_mutation fst (create_profile_inner request false).
Definition update_profile (request : UpdateProfileRequest) : Sv ServiceError ProfileMutationOutcome :=
  finish_mutation (fun outcome => outcome.1.1) (update_profile_inner request Legacy).
Definition delete_profile (request : DeleteProfileRequest) : Sv ServiceError ProfileMutationOutcome :=
  finish_mutation fst (delete_profile_inner request false).

(** ** Acquiring sessions *)

Definition resolve_profile_secret (profile : ConnectionProfile) : Sv ServiceError (option SessionSecret) := fun s =>
  (match p_credential_mode profile with
   | CredNone => Ok None
   | CredEnvironment =>
       name ← ok_or (p_secret_env profile) (SeInvalidProfile (field_error FCredentialEnvironmentName));
       map_err SeSecret (Some <$> resolve_environment (environment env) name)
   | CredSession =>
       secret ← map_err SeSecret (clone_for_profile (sv_secrets s) (p_id profile));
       secret ← ok_or secret (SeSecret SessionCredentialRequired);
       Ok (Some secret)
   end, s).

Definition connection_error (profile : ConnectionProfile) (error : DriverError) : ServiceError :=
  if is_mysql_authentication_failed error || is_redis_authentication_failed error then
    SeConnectionAuthenticationFailed
      match p_credential_mode profile with
      | CredSession => PcSessionCredential
      | CredEnvironment => PcCredentialEnvironmentName
      | CredNone => PcUsername
      end
  else SeDriver error.

Record SessionLease := {
  sl_profile_id : ProfileId;
  sl_profile : ConnectionProfile;
  sl_identity : CachedSessionIdentity;
  sl_handle : SessionHandle;
}.

(** A connection in progress: the locals of [session_for] across [connect]. *)
Record ConnectAttempt := {
  at_profile : ConnectionProfile;
  at_generation : ProfileGeneration;
  at_operation_id : OperationId;
  at_session_generation : SessionGeneration;
  at_secret : option SessionSecret;
}.

Definition is_current (profile : ConnectionProfile) (generation : ProfileGeneration) (s : Service) : bool :=
  bool_decide (generations s !! p_id profile = Some generation)
  && existsb (fun current => bool_decide (current = profile)) (profiles s).

(** The cached session that serves the profile at the generation. *)
Definition cached_match (profile : ConnectionProfile) (generation : ProfileGeneration) (s : Service) :
    option CachedSession :=
  cached ← sv_sessions s !! p_id profile;
  if bool_decide (cs_fingerprint cached = fingerprint_of profile)
     && (cs_profile_generation cached =? generation)%N
  then Some cached else None.

Definition lease_of (profile : ConnectionProfile) (identity : CachedSessionIdentity) (handle : SessionHandle) :
    SessionLease :=
  {| sl_profile_id := p_id profile; sl_profile := profile; sl_identity := identity; sl_handle := handle |}.

(** [session_for] up to [connect]: a cached session, or an attempt to make. *)
Definition session_begin (profile : ConnectionProfile) (generation : ProfileGeneration)
    (operation_id : OperationId) : Sv ServiceError (SessionLease + ConnectAttempt) :=
  ensure_config_certain ;;
  s ← sv_get;
  if sv_uncertain s then sv_throw SeConfigUncertain
  else if negb (is_current profile generation s) then
    sv_throw (SeProfileStale (p_id profile) operation_id)
  else
    match cached_match profile generation s with
    | Some cached => mret (inl (lease_of profile (identity cached) (cs_handle cached)))
    | None =>
        sv_lift (map_err SeDriver (ensure_ready profile)) ;;
        sv_lift (map_err SeDriver (ensure_connector_tls_support (supports_redis_tls env) profile)) ;;
        secret ← resolve_profile_secret profile;
        session_generation ← sv_step allocate_session_generation;
        mret (inr {| at_profile := profile; at_generation := generation; at_operation_id := operation_id;
                     at_session_generation := session_generation; at_secret := secret |})
    end.

(** [session_for] from the result of [connect] on. *)
Definition session_install (attempt : ConnectAttempt) (connected : result DriverError SessionHandle) :
    Sv ServiceError SessionLease := fun s =>
  let profile := at_profile attempt in
  let profile_id := p_id profile in
  let generation := at_generation attempt in
  match connected with
  | Err error =>
      (ensure_session_observation profile_id generation (at_operation_id attempt) ;;
       sv_throw (connection_error profile error)) s
  | Ok connected =>
      if sv_uncertain s then (Err SeConfigUncertain, close_handle s connected)
      else if negb (is_current profile generation s) then
        (Err (SeProfileStale profile_id (at_operation_id attempt)), close_handle s connected)
      else
        match cached_match profile generation s with
        | Some cached =>
            (Ok (lease_of profile (identity cached) (cs_handle cached)), close_handle s connected)
        | None =>
            let cached := {| cs_profile_generation := generation;
                             cs_session_generation := at_session_generation attempt;
                             cs_fingerprint := fingerprint_of profile; cs_handle := connected |} in
            let displaced := cs_handle <$> sv_sessions s !! profile_id in
            let s := set_sessions s (<[profile_id := cached]> (sv_sessions s)) in
            (Ok (lease_of profile (identity cached) connected),
             match displaced with Some handle => close_handle s handle | None => s end)
        end
  end.

(** [session_for] without interference between its two critical sections. *)
Definition session_for (connect : ConnectionProfile -> option SessionSecret -> result DriverError SessionHandle)
    (profile : ConnectionProfile) (generation : ProfileGeneration) (operation_id : OperationId) :
    Sv ServiceError SessionLease :=
  begun ← session_begin profile generation operation_id;
  match begun with
  | inl lease => mret lease
  | inr attempt => session_install attempt (connect (at_profile attempt) (at_secret attempt))
  end.

(** The checks of [acquire_session_at] before [session_for]. *)
Definition acquire_checked (operation_id : OperationId) (profile_id : ProfileId)
    (expected_generation : ProfileGeneration) : Sv ServiceError (ConnectionProfile * ProfileGeneration) :=
  ensure_config_certain ;;
  '(profile, generation) ← profile_with_generation profile_id;
  if negb (generation =? expected_generation)%N then sv_throw (SeProfileStale profile_id operation_id)
  else
    sv_lift (map_err SeInvalidProfile (validate_profile_for_network (ca_files env) profile)) ;;
    mret (profile, generation).

Definition acquire_session_at (connect : ConnectionProfile -> option SessionSecret -> result DriverError SessionHandle)
    (operation_id : OperationId) (profile_id : ProfileId) (expected_generation : ProfileGeneration) :
    Sv ServiceError SessionLease :=
  '(profile, generation) ← acquire_checked operation_id profile_id expected_generation;
  session_for connect profile generation operation_id.

Definition observe_session (lease : SessionLease) (operation_id : OperationId) : Sv ServiceError unit :=
  ensure_session_observation (sl_profile_id lease) (ci_profile_generation (sl_identity lease)) operation_id.

Definition evict_session_lease (lease : SessionLease) (s : Service) : bool * Service :=
  evict_cached_session_exact (sl_profile_id lease) (ci_profile_generation (sl_identity lease))
    (ci_session_generation (sl_identity lease)) s.

(** What an operation does with its lease once its result is known. *)
Definition finish_resource_operation {T} (lease : SessionLease) (operation_id : OperationId)
    (outcome : result DriverError T) : Sv ServiceError T := fun s =>
  let '(observation, s) := observe_session lease operation_id s in
  let disposition := match outcome with Ok _ => Keep | Err error => for_driver_error error end in
  let s :=
    if bool_decide (disposition = Evict) || is_err observation then (evict_session_lease lease s).2 else s in
  (_ ← observation; map_err SeDriver outcome, s).

(** [check_at] after the lease is acquired. *)
Definition finish_check (lease : SessionLease) (operation_id : OperationId) (ping : result DriverError unit) :
    Sv ServiceError SessionLease := fun s =>
  let '(observation, s) := observe_session lease operation_id s in
  let s := if is_err ping || is_err observation then (evict_session_lease lease s).2 else s in
  (_ ← observation; _ ← map_err SeDriver ping; Ok lease, s).
End env.

(** ** Execution requests *)

Definition execution_target_error (error : ExecutionTargetError) : ServiceError :=
  SeInvalidRequest
    match error with
    | InvalidRowLimit => PcRowLimit
    | InvalidTimeout => PcTimeoutInput
    | AmbiguousSqlMode => PcAmbiguousSqlMode
    | UnterminatedSqlToken => PcUnterminatedSqlToken
    | InvalidCaretPosition | InvalidSelectionRange | NoCurrentStatement | MultipleStatements
    | RedisShellParseFailed | RedisCommandDenied | RedisTargetTooLarge | RedisTooManyTokens
    | RedisTokenTooLarge => PcStatementTarget
    end.

Definition service_request_error (error : RequestValidationError) : ServiceError :=
  SeInvalidRequest
    match error with
    | ReqInvalidRowLimit => PcRowLimit
    | InvalidExecuteTimeout => PcTimeoutInput
    | InvalidCatalogPageSize | InvalidCatalogTimeout | EmptyCatalogParent | EmptyCatalogPageToken => PcCatalog
    | RedisFilterTooLarge | InvalidRedisScanCount | RedisKeyTooLarge => PcRedisScan
    | EmptyStatement | EmptyRedisCommand | RedisCommandTooLarge | TooManyRedisTokens
    | ReqRedisTokenTooLarge | ReqRedisCommandDenied => PcStatementTarget
    end.

Inductive TypedExecuteRequest :=
| TypedMySql (request : PreparedMySqlRequest)
| TypedRedis (request : RedisExecuteRequest).

Definition te_identity (r : TypedExecuteRequest) : RequestIdentity :=
  match r with TypedMySql r => pm_identity r | TypedRedis r => rx_identity r end.
Definition te_driver (r : TypedExecuteRequest) : DriverKind :=
  match r with TypedMySql _ => MySql | TypedRedis _ => Redis end.
Definition te_retention_policy (r : TypedExecuteRequest) : ResultRetentionPolicy :=
  match r with TypedMySql r => RetainMySql (pm_row_limit r) | TypedRedis r => RetainRedis (rx_row_limit r) end.

Section execute.
Context (shell_split : str -> option (list str)).

(** [None] is the panic of a slice off a character boundary. *)
Definition validate_execute_target (request : ExecuteRequest) : option (result ServiceError ExecutionTarget) :=
  match ex_language request with
  | MongoDocument => Some (Err (SeDriver (DeUnsupported MongoDb (lit "document execution"))))
  | Sql | RedisCommand =>
      let language := match ex_language request with Sql => LMySql | _ => LRedis end in
      if (U32_MAX <? as_secs (ex_timeout request))%N then Some (Err (SeInvalidRequest PcTimeoutInput))
      else
        let character_count := length (ex_text request) in
        extracted ← extract_and_validate_target shell_split (ex_text request) character_count
          (Some (0, character_count)) language (ex_row_limit request) (as_secs (ex_timeout request));
        Some (map_err execution_target_error (v_target <$> extracted))
  end.

Definition typed_request (driver : DriverKind) (target : ExecutionTarget) (request : ExecuteRequest) :
    result ServiceError TypedExecuteRequest :=
  let identity := {| ri_profile_id := ex_profile_id request;
                     ri_profile_generation := ex_profile_generation request;
                     ri_operation_id := ex_operation_id request |} in
  match driver, target with
  | MySql, MySqlText statement =>
      let typed := {| pm_identity := identity; pm_statement := statement;
                      pm_row_limit := ex_row_limit request; pm_timeout := ex_timeout request |} in
      _ ← map_err service_request_error (PreparedMySqlRequest_validate typed);
      Ok (TypedMySql typed)
  | Redis, RedisArgv argv =>
      typed ← map_err service_request_error
        (RedisExecuteRequest_new redis_argv_is_denied identity (encode <$> argv)
           (ex_row_limit request) (ex_timeout request));
      Ok (TypedRedis typed)
  | actual, _ => Err (SeDriver (DeUnsupported actual (lit "typed execution")))
  end.

Definition prepare_execute_request (request : ExecuteRequest) (s : Service) :
    option (result ServiceError TypedExecuteRequest) :=
  if sv_uncertain s then Some (Err SeConfigUncertain)
  else
    target ← validate_execute_target request;
    Some (
      target ← target;
      '(profile, generation) ← (profile_with_generation (ex_profile_id request) s).1;
      if negb (generation =? ex_profile_generation request)%N then
        Err (SeProfileStale (ex_profile_id request) (ex_operation_id request))
      else if negb (bool_decide (language (p_driver profile) = ex_language request)) then
        Err (SeLanguageMismatch (p_driver profile) (ex_language request))
      else typed_request (p_driver profile) target request).
End execute.

Definition ensure_typed_resource_request (identity : RequestIdentity) (expected_driver : DriverKind)
    (capability : N) (operation : str) : Sv ServiceError ConnectionFingerprint :=
  ensure_config_certain ;;
  '(profile, generation) ← profile_with_generation (ri_profile_id identity);
  if negb (generation =? ri_profile_generation identity)%N then
    sv_throw (SeProfileStale (ri_profile_id identity) (ri_operation_id identity))
  else if negb (bool_decide (p_driver profile = expected_driver)) then
    sv_throw (SeDriverMismatch expected_driver (p_driver profile))
  else
    let ready :=
      match descriptor_of (p_driver profile) with
      | Some descriptor => caps_contains (dd_capabilities descriptor) capability
      | None => false
      end in
    if negb ready then sv_throw (SeDriver (DeUnsupported (p_driver profile) operation))
    else mret (fingerprint_of profile).
