(* ===== verification/ServiceLogic.v ===== *)
(** * Reasoning about service operations

    A preorder on states that every step of an operation respects is respected by
    the operation: the rules of the monad, once for every preorder. *)

From S2P Require Import Prelude RustStr Model Secrets Service.

(** [m] moves the state along [R]. *)
Definition Respects (R : relation Service) {E A} (m : Sv E A) : Prop := forall s, R s (m s).2.

Section respects.
Context (R : relation Service) `{!PreOrder R}.

Lemma respects_bind {E A B} (m : Sv E A) (f : A -> Sv E B) :
  Respects R m -> (forall a, Respects R (f a)) -> Respects R (m ≫= f).
Proof.
  intros Hm Hf s. unfold mbind, Sv_bind. specialize (Hm s). destruct (m s) as [[a|e] s']; [|done].
  etrans; [exact Hm|apply Hf].
Qed.

Lemma respects_ret {E A} (a : A) : Respects R (mret a : Sv E A).
Proof. intros s. cbn. reflexivity. Qed.

Lemma respects_throw {E A} (e : E) : Respects R (sv_throw e : Sv E A).
Proof. intros s. cbn. reflexivity. Qed.

Lemma respects_lift {E A} (r : result E A) : Respects R (sv_lift r).
Proof. intros s. cbn. reflexivity. Qed.

Lemma respects_get {E} : Respects R (sv_get : Sv E Service).
Proof. intros s. cbn. reflexivity. Qed.

(** A read: the state comes back as it was. *)
Lemma respects_read {E A} (f : Service -> result E A) : Respects R (fun s => (f s, s)).
Proof. intros s. cbn. reflexivity. Qed.

Lemma respects_step {E A} (f : Service -> A * Service) :
  (forall s, R s (f s).2) -> Respects R (sv_step f : Sv E A).
Proof using Type. intros Hf s. unfold sv_step. specialize (Hf s). by destruct (f s). Qed.

Lemma respects_map_err {E F A} (f : E -> F) (m : Sv E A) : Respects R m -> Respects R (sv_map_err f m).
Proof using Type. intros Hm s. unfold sv_map_err. specialize (Hm s). by destruct (m s). Qed.

Lemma respects_for_each {A} (f : A -> Sv ServiceError unit) l :
  (forall a, Respects R (f a)) -> Respects R (sv_for_each f l).
Proof. intros Hf. induction l; cbn; [apply respects_ret|]. by apply respects_bind. Qed.

Lemma respects_foldl {A} (f : Service -> A -> Service) l s :
  (forall s a, R s (f s a)) -> R s (foldl f s l).
Proof. intros Hf. revert s. induction l as [|a l IH]; intros s; cbn; [reflexivity|]. etrans; [apply Hf|apply IH]. Qed.

Lemma respects_finish {A B} (outcome_of : A -> B) (m : Sv RuntimeMutationFailure A) :
  Respects R m -> (forall cleanup, Respects R (apply_deferred_cleanup cleanup)) ->
  Respects R (finish_mutation outcome_of m).
Proof.
  intros Hm Hc s. unfold finish_mutation. specialize (Hm s). destruct (m s) as [[a|failure] s']; [done|].
  etrans; [exact Hm|]. apply (respects_bind (apply_deferred_cleanup _)); [done|]. intros _. apply respects_throw.
Qed.
End respects.

(** Closes [Respects] goals over operations built from the above and from the
    reads of the service; [step] closes the goals of the steps with an effect. *)
Ltac respects_by step :=
  repeat first
    [ progress intros
    | solve [step]
    | match goal with |- PreOrder _ => typeclasses eauto end
    | apply respects_ret | apply respects_throw | apply respects_lift | apply respects_get
    | apply respects_read
    | apply respects_bind | apply respects_map_err | apply respects_for_each | apply respects_step
    | assumption
    | case_match ].
