(* ===== verification/ServiceSafety.v ===== *)
(** * Generations of the application service (src/src/service.rs)

    Lemmas on the observed configuration: when it is coherent with its profile
    generations, and how the steps that adopt a configuration advance it. *)

From S2P Require Import Prelude RustStr Model Execution Retention Secrets Profile Config ConfigWriter.
From S2P Require Import ConfigSafety Drivers Service ServiceLogic.

#[local] Arguments fetch_add : simpl never.
#[local] Arguments profiles_by_id : simpl never.
#[local] Arguments find_profile : simpl never.

(** ** Profiles by identifier *)

Lemma find_profile_Some l id p : find_profile l id = Some p -> p ∈ l /\ p_id p = id.
Proof. unfold find_profile. intros [Hin Hb%bool_decide_eq_true]%find_some. by rewrite list_elem_of_In. Qed.

Lemma find_profile_None l id : find_profile l id = None <-> (id ∉ (p_id <$> l)).
Proof.
  unfold find_profile. rewrite list_elem_of_fmap. split.
  - intros Hn (p & -> & Hp%list_elem_of_In). pose proof (find_none _ _ Hn p Hp) as Hno.
    cbn in Hno. by rewrite bool_decide_true in Hno.
  - intros Hno. destruct (List.find _ l) as [p|] eqn:E; [|done]. exfalso. apply Hno.
    apply find_some in E as [Hin%list_elem_of_In Hid%bool_decide_eq_true]. eauto.
Qed.

Lemma find_profile_elem l p : NoDup (p_id <$> l) -> p ∈ l -> find_profile l (p_id p) = Some p.
Proof.
  unfold find_profile. induction l as [|q l IH]; [set_solver|]. rewrite fmap_cons, NoDup_cons.
  intros [Hno Hnd] [->|Hp]%elem_of_cons; cbn; [by rewrite bool_decide_true|].
  rewrite bool_decide_false; [auto|]. intros Heq. apply Hno. rewrite Heq. by apply list_elem_of_fmap_2.
Qed.

Lemma find_profile_snoc l p id :
  find_profile (l ++ [p]) id =
  match find_profile l id with Some q => Some q | None => if bool_decide (p_id p = id) then Some p else None end.
Proof. unfold find_profile. induction l as [|q l IH]; cbn; [done|].
  by destruct (bool_decide (p_id q = id)).
Qed.

Lemma profiles_by_id_lookup l id : NoDup (p_id <$> l) -> profiles_by_id l !! id = find_profile l id.
Proof.
  unfold profiles_by_id. induction l as [|p l IH] using rev_ind; [done|].
  rewrite fmap_app, NoDup_app. intros (Hnd & Hdis & _). rewrite foldl_app, find_profile_snoc. cbn.
  destruct (decide (p_id p = id)) as [<-|Hne].
  - rewrite lookup_insert_eq, bool_decide_true by done. destruct (find_profile l (p_id p)) as [q|] eqn:E; [|done].
    exfalso. apply find_profile_Some in E as [Hin Hid].
    apply (Hdis (p_id q)); [by apply list_elem_of_fmap_2|rewrite Hid; cbn; set_solver].
  - rewrite lookup_insert_ne, IH by done. rewrite bool_decide_false by done. by destruct (find_profile l id).
Qed.

Lemma profiles_by_id_size l : size (profiles_by_id l) <= length l.
Proof.
  unfold profiles_by_id. induction l as [|p l IH] using rev_ind; [done|]. rewrite foldl_app, length_app. cbn.
  set (m := foldl _ _ l) in *. destruct (m !! p_id p) eqn:E; [rewrite map_size_insert_Some by eauto|rewrite map_size_insert_None by done]; lia.
Qed.

(** ** Counters *)

(** Room for [n] allocations before the 64-bit counter wraps. *)
Definition room (s : Service) (n : nat) : Prop := (sv_next_generation s + N.of_nat n <= U64_MAX)%N.

Lemma fetch_add_small n : (n < U64_MAX)%N -> fetch_add n = (n + 1)%N.
Proof. intros H. unfold fetch_add. apply N.mod_small. lia. Qed.

Lemma set_next_generation_id s : set_next_generation s (sv_next_generation s) = s.
Proof. by destruct s. Qed.

Lemma assign_generations_spec keep l m s m' s' :
  room s (length l) -> assign_generations keep l m s = (m', s') ->
  s' = set_next_generation s (sv_next_generation s') /\
  (sv_next_generation s <= sv_next_generation s')%N /\
  (sv_next_generation s' <= sv_next_generation s + N.of_nat (length l))%N /\
  (forall id g, m' !! id = Some g ->
    m !! id = Some g \/ exists p, p ∈ l /\ p_id p = id /\
      (keep p = Some g \/ (keep p = None /\ (sv_next_generation s <= g < sv_next_generation s')%N))) /\
  (forall p, p ∈ l -> is_Some (m' !! p_id p)) /\ (forall id, is_Some (m !! id) -> is_Some (m' !! id)).
Proof.
  revert m s. induction l as [|p l IH]; intros m s Hroom; cbn [assign_generations].
  { intros [= <- <-]. rewrite set_next_generation_id. split_and!; [done|lia|cbn; lia|auto|set_solver|auto]. }
  unfold room in Hroom. cbn [length] in Hroom |- *.
  destruct (keep p) as [g0|] eqn:Hkeep; cbn [allocate_profile_generation].
  - intros H. apply IH in H as (Hs & Hlo & Hhi & Hin & Hall & Hold); [|unfold room; lia].
    split_and!; [done|done|lia| | |].
    + intros id g Hg. destruct (Hin id g Hg) as [Hm|(q & Hq & Hid & Hc)].
      * apply lookup_insert_Some in Hm as [[<- <-]|[_ Hm]]; [|by left]. right. exists p. set_solver.
      * right. exists q. set_solver.
    + intros q [->|Hq]%elem_of_cons; [|auto]. apply Hold. rewrite lookup_insert_eq. eauto.
    + intros id Hid. apply Hold. destruct (decide (id = p_id p)) as [->|]; [rewrite lookup_insert_eq; eauto|].
      by rewrite lookup_insert_ne.
  - intros H. apply IH in H as (Hs & Hlo & Hhi & Hin & Hall & Hold);
      [|unfold room; cbn; rewrite fetch_add_small; lia].
    cbn [sv_next_generation set_next_generation] in *. rewrite fetch_add_small in * by lia.
    split_and!; [by rewrite Hs at 1|lia|lia| | |].
    + intros id g Hg. destruct (Hin id g Hg) as [Hm|(q & Hq & Hid & Hc)].
      * apply lookup_insert_Some in Hm as [[<- <-]|[_ Hm]]; [|by left]. right. exists p.
        split_and!; [set_solver|done|right; split; [done|lia]].
      * right. exists q. split_and!; [set_solver|done|]. destruct Hc as [?|[? ?]]; [by left|right; split; [done|lia]].
    + intros q [->|Hq]%elem_of_cons; [|auto]. apply Hold. rewrite lookup_insert_eq. eauto.
    + intros id Hid. apply Hold. destruct (decide (id = p_id p)) as [->|]; [rewrite lookup_insert_eq; eauto|].
      by rewrite lookup_insert_ne.
Qed.

Lemma fresh_for_spec ids m s m' s' :
  room s (length ids) -> fresh_for ids m s = (m', s') ->
  s' = set_next_generation s (sv_next_generation s') /\
  (sv_next_generation s <= sv_next_generation s')%N /\
  (sv_next_generation s' <= sv_next_generation s + N.of_nat (length ids))%N /\
  (forall id g, m' !! id = Some g ->
    (m !! id = Some g /\ (id ∉ ids)) \/
    (id ∈ ids /\ (sv_next_generation s <= g < sv_next_generation s')%N)) /\
  (forall id, is_Some (m !! id) -> is_Some (m' !! id)).
Proof.
  revert m s. induction ids as [|i ids IH]; intros m s Hroom; cbn [fresh_for].
  { intros [= <- <-]. rewrite set_next_generation_id. split_and!; [done|lia|cbn; lia| |auto].
    intros id g Hg. left. split; [done|set_solver]. }
  unfold room in Hroom. cbn [length allocate_profile_generation] in Hroom |- *.
  intros H. apply IH in H as (Hs & Hlo & Hhi & Hin & Hold); [|unfold room; cbn; rewrite fetch_add_small; lia].
  cbn [sv_next_generation set_next_generation] in *. rewrite fetch_add_small in * by lia.
  split_and!; [by rewrite Hs at 1|lia|lia| |].
  - intros id g Hg. destruct (Hin id g Hg) as [[Hm Hno]|[Hi Hc]]; [|right; split; [set_solver|lia]].
    apply lookup_insert_Some in Hm as [[<- <-]|[Hne Hm]]; [right; split; [set_solver|lia]|left; set_solver].
  - intros id Hid. apply Hold. destruct (decide (id = i)) as [->|]; [rewrite lookup_insert_eq; eauto|].
    by rewrite lookup_insert_ne.
Qed.

(** ** Coherent states and how they advance *)

(** The largest number of profiles of a configuration: far above what a file
    can hold, and far below the range of the generation counter. *)
Definition MAX_PROFILES : N := 1073741824.

Record coherent (s : Service) : Prop := {
  coh_profiles : well_identified (profiles s);
  coh_size : (N.of_nat (length (profiles s)) <= MAX_PROFILES)%N;
  coh_generations : forall id, is_Some (generations s !! id) <-> id ∈ (p_id <$> profiles s);
  coh_fresh : forall id g, generations s !! id = Some g -> (g < sv_next_generation s)%N;
}.

(** Every current generation is new, or was current for the same profile. *)
Record advance (s s' : Service) : Prop := {
  adv_coherent : coherent s';
  adv_next : (sv_next_generation s <= sv_next_generation s')%N;
  adv_kept : forall id g, generations s' !! id = Some g ->
    (sv_next_generation s <= g)%N \/
    (generations s !! id = Some g /\ find_profile (profiles s') id = find_profile (profiles s) id);
}.

Lemma advance_trans s1 s2 s3 : advance s1 s2 -> advance s2 s3 -> advance s1 s3.
Proof.
  intros [Hc1 Hn1 Hk1] [Hc2 Hn2 Hk2]. split; [done|lia|].
  intros id g Hg. destruct (Hk2 id g Hg) as [Hge|[Hg2 Hp]]; [left; lia|].
  destruct (Hk1 id g Hg2) as [?|[? ?]]; [by left|right]. split; [done|congruence].
Qed.

(** The observed configuration and the counter agree. *)
Definition same_observed (s s' : Service) : Prop :=
  sv_observed s' = sv_observed s /\ sv_next_generation s' = sv_next_generation s.

#[export] Instance same_observed_preorder : PreOrder same_observed.
Proof. split; [by split|]. intros ??? [] []. split; etrans; eauto. Qed.

Lemma coherent_same s s' : same_observed s s' -> coherent s -> coherent s'.
Proof.
  intros [Ho Hn] [H1 H2 H3 H4]. split; unfold profiles, generations in *; by rewrite ?Ho, ?Hn.
Qed.

Lemma advance_same s s' : coherent s -> same_observed s s' -> advance s s'.
Proof.
  intros Hc Hs. split; [by eapply coherent_same|destruct Hs as [_ ->]; lia|].
  destruct Hs as [Ho _]. unfold generations, profiles. rewrite Ho. auto.
Qed.

Lemma generations_size s : coherent s -> (N.of_nat (size (generations s)) <= MAX_PROFILES)%N.
Proof.
  intros [[_ Hnd] Hsize Hdom _]. unfold MAX_PROFILES in *.
  assert (size (generations s) <= length (profiles s)) as H; [|lia].
  rewrite <- size_dom. transitivity (size (list_to_set (p_id <$> profiles s) : gset (list N))).
  - apply subseteq_size. intros id Hid. rewrite elem_of_dom, Hdom in Hid. by apply elem_of_list_to_set.
  - by rewrite size_list_to_set, length_fmap.
Qed.

(** What the environment promises: hash maps are iterated in some order, loaded
    and written configurations have a bounded size, and a configuration observed
    after a write has valid, distinct identifiers. *)
Class EnvLaws (env : Env) : Prop := {
  el_order : forall A (m : gmap (list N) A), hash_order env A m ≡ₚ map_to_list m;
  el_load : forall loaded, run_load env = Some (Ok loaded) ->
    (N.of_nat (length (cfg_profiles (lc_config loaded))) <= MAX_PROFILES)%N;
  el_mutation : forall mutation consent outcome loaded,
    run_mutation env mutation consent = Some (Ok outcome) -> mo_observation outcome = Observed loaded ->
    validate_config_identity (lc_config loaded) = Ok tt /\
    (N.of_nat (length (cfg_profiles (lc_config loaded))) <= MAX_PROFILES)%N;
}.

Section advances.
Context (env : Env) {laws : EnvLaws env}.

Lemma hash_order_keys {A} (m : gmap (list N) A) id : id ∈ (hash_order env A m).*1 <-> is_Some (m !! id).
Proof using laws.
  rewrite (Permutation_map fst (el_order A m)). rewrite list_elem_of_fmap. split.
  - intros ([i a] & -> & Hin). apply elem_of_map_to_list in Hin. eauto.
  - intros [a Ha]. exists (id, a). split; [done|]. by apply elem_of_map_to_list.
Qed.

Lemma hash_order_length {A} (m : gmap (list N) A) : length (hash_order env A m) = size m.
Proof using laws. by rewrite (Permutation_length (el_order A m)), length_map_to_list. Qed.

Lemma enter_uncertain_advances s :
  coherent s -> (sv_next_generation s + MAX_PROFILES <= U64_MAX)%N ->
  let s' := (enter_config_uncertain_deferred env s).2 in
  advance s s' /\ (sv_next_generation s' <= sv_next_generation s + MAX_PROFILES)%N /\
  profiles s' = profiles s /\ sv_uncertain s' = true /\
  (forall id g, generations s' !! id = Some g -> (sv_next_generation s <= g)%N).
Proof using laws.
  intros Hc Hroom. unfold enter_config_uncertain_deferred.
  set (s0 := set_uncertain s true). set (entries := hash_order env _ (generations s0)).
  assert (length entries = size (generations s)) as Hlen by apply hash_order_length.
  pose proof (generations_size s Hc) as Hsize.
  destruct (fresh_for entries.*1 (generations s0) s0) as [m s1] eqn:E. cbn.
  apply fresh_for_spec in E as (Hs1 & Hlo & Hhi & Hin & Hold); [|unfold room; rewrite length_fmap; cbn; lia].
  rewrite length_fmap in Hhi. change (sv_next_generation s0) with (sv_next_generation s) in *.
  assert (forall id g, m !! id = Some g -> (sv_next_generation s <= g < sv_next_generation s1)%N) as Hfresh.
  { intros id g Hg. destruct (Hin id g Hg) as [[Hm Hno]|[_ ?]]; [|done]. exfalso. apply Hno, hash_order_keys. eauto. }
  assert (sv_observed s1 = sv_observed s) as Ho by (by rewrite Hs1).
  assert (profiles (set_observed s1 {| ob_config := ob_config (sv_observed s1);
    ob_source_version := ob_source_version (sv_observed s1); ob_generations := m;
    ob_tombstones := ob_tombstones (sv_observed s1) |}) = profiles s) as Hp by (unfold profiles; cbn; by rewrite Ho).
  split_and!; [|cbn; lia|done|by rewrite Hs1|intros id g Hg; apply (Hfresh id g Hg)].
  destruct Hc as [H1 H2 H3 H4]. split; [split| |]; rewrite ?Hp; cbn.
  - done.
  - done.
  - intros id. rewrite <- H3. split.
    + intros [g Hg]. destruct (Hin id g Hg) as [[Hm _]|[Hk _]]; [eauto|]. by apply hash_order_keys in Hk.
    + intros Hid. by apply Hold.
  - intros id g Hg. apply (Hfresh id g Hg).
  - lia.
  - intros id g Hg. left. apply (Hfresh id g Hg).
Qed.

(** Adopting a configuration whose unchanged profiles keep their generation. *)
Lemma adopt_advance keep l s m s1 s2 :
  coherent s -> well_identified l -> (N.of_nat (length l) <= MAX_PROFILES)%N -> room s (length l) ->
  (forall p g, p ∈ l -> keep p = Some g ->
    generations s !! p_id p = Some g /\ find_profile (profiles s) (p_id p) = Some p) ->
  assign_generations keep l ∅ s = (m, s1) ->
  profiles s2 = l -> generations s2 = m -> (sv_next_generation s1 <= sv_next_generation s2)%N ->
  advance s s2.
Proof using Type.
  intros Hc [Hv Hnd] Hlen Hroom Hkeep Hassign Hp Hg Hn.
  apply assign_generations_spec in Hassign as (_ & Hlo & _ & Hin & Hall & _); [|done].
  split; [split| |]; rewrite ?Hp, ?Hg.
  - by split.
  - done.
  - intros id. rewrite list_elem_of_fmap. split.
    + intros [g Hid]. destruct (Hin id g Hid) as [Hm|(p & Hpl & <- & _)]; [by rewrite lookup_empty in Hm|eauto].
    + intros (p & -> & Hpl). auto.
  - intros id g Hid. destruct (Hin id g Hid) as [Hm|(p & Hpl & <- & Hk)]; [by rewrite lookup_empty in Hm|].
    destruct Hk as [Hk|[_ ?]]; [|lia]. destruct (Hkeep p g Hpl Hk) as [Hold _].
    apply (coh_fresh s Hc) in Hold. lia.
  - lia.
  - intros id g Hid. destruct (Hin id g Hid) as [Hm|(p & Hpl & <- & Hk)]; [by rewrite lookup_empty in Hm|].
    destruct Hk as [Hk|[_ ?]]; [|left; lia]. right. destruct (Hkeep p g Hpl Hk) as [Hold Hfind].
    split; [done|]. rewrite Hfind. by apply find_profile_elem.
Qed.

Lemma replace_loaded_advances loaded s :
  coherent s -> validate_config_identity (lc_config loaded) = Ok tt ->
  (N.of_nat (length (cfg_profiles (lc_config loaded))) <= MAX_PROFILES)%N ->
  (sv_next_generation s + 2 * MAX_PROFILES <= U64_MAX)%N ->
  let s' := (replace_loaded_config env loaded s).2 in
  advance s s' /\ (sv_next_generation s' <= sv_next_generation s + 2 * MAX_PROFILES)%N /\
  profiles s' = cfg_profiles (lc_config loaded).
Proof using laws.
  intros Hc Hid%validate_identity_spec Hlen Hroom. unfold replace_loaded_config.
  destruct (assign_generations _ _ _ _) as [m s1] eqn:E.
  set (removed := List.filter _ _).
  pose proof E as E'. apply assign_generations_spec in E' as (Hs1 & Hlo & Hhi & _);
    [|unfold room; lia].
  assert (N.of_nat (length removed.*1) <= MAX_PROFILES)%N as Hrem.
  { assert (length removed <= length (profiles s)) as Hle; [|pose proof (coh_size s Hc); rewrite length_fmap; lia].
    etrans; [apply List.filter_length_le|]. rewrite hash_order_length. apply profiles_by_id_size. }
  destruct (fresh_for removed.*1 _ s1) as [tombs s2] eqn:E2.
  apply fresh_for_spec in E2 as (Hs2 & Hlo2 & Hhi2 & _); [|unfold room; lia].
  cbn. split_and!; [|lia|done].
  eapply adopt_advance; [done|exact Hid|done|unfold room; lia| |exact E|done|done|cbn; lia].
  intros p g Hp Hk. cbn beta in Hk. case_bool_decide as Hun; [|done]. split; [done|]. destruct Hun as [_ Heq].
  rewrite !profiles_by_id_lookup in Heq; [|apply Hid|apply Hc].
  unfold profiles at 1. rewrite Heq. apply find_profile_elem; [apply Hid|done].
Qed.

Lemma reconcile_advances config identity s :
  coherent s -> validate_config_identity config = Ok tt ->
  (N.of_nat (length (cfg_profiles config)) <= MAX_PROFILES)%N ->
  (sv_next_generation s + 2 * MAX_PROFILES <= U64_MAX)%N ->
  let '(r, s') := reconcile_after_mutation env config identity s in
  advance s s' /\ (sv_next_generation s' <= sv_next_generation s + 2 * MAX_PROFILES)%N /\
  match r with
  | Ok outcome =>
      profiles s' = cfg_profiles config /\ (sv_next_generation s <= rm_profile_generation outcome)%N /\
      (if is_delete identity then True
       else generations s' !! mi_profile_id identity = Some (rm_profile_generation outcome)) /\
      sv_sessions s' = sv_sessions s /\ sv_secrets s' = sv_secrets s /\ sv_uncertain s' = sv_uncertain s
  | Err _ => sv_observed s' = sv_observed s
  end.
Proof using laws.
  intros Hc Hid%validate_identity_spec Hlen Hroom. unfold reconcile_after_mutation.
  set (keep := fun p => _). destruct (assign_generations keep _ _ _) as [m s1] eqn:E.
  pose proof E as E'. apply assign_generations_spec in E' as (Hs1 & Hlo & Hhi & Hin & _); [|unfold room; lia].
  unfold MAX_PROFILES in *.
  assert (exists d s2, (if is_delete identity then
      let '(generation, s) := allocate_profile_generation s1 in (Some generation, s) else (None, s1)) = (d, s2) /\
      s2 = set_next_generation s1 (sv_next_generation s2) /\
      (sv_next_generation s1 <= sv_next_generation s2 <= sv_next_generation s1 + 1)%N /\
      d = (if is_delete identity then Some (sv_next_generation s1) else None)) as (d & s2 & -> & Hs2 & Hn2 & Hd).
  { destruct (is_delete identity); cbn.
    - eexists _, _. split; [done|]. cbn. rewrite fetch_add_small by lia. split_and!; [done|lia|lia|done].
    - eexists _, _. split; [done|]. rewrite set_next_generation_id. split_and!; [done|lia|lia|done]. }
  assert (same_observed s2 s2 /\ sv_observed s2 = sv_observed s) as [_ Ho] by (split; [done|by rewrite Hs2, Hs1]).
  assert (forall s', sv_observed s' = sv_observed s -> (sv_next_generation s <= sv_next_generation s')%N ->
    advance s s') as Hfail.
  { intros s' Ho' Hn'. destruct Hc as [H1 H2 H3 H4].
    split; [split| |]; unfold profiles, generations in *; rewrite ?Ho'; try done.
    - intros id g Hg. specialize (H4 id g Hg). lia.
    - auto. }
  destruct (reconcile_targets _ _ _) as [[targets deferred]|e].
  2: { split_and!; [apply Hfail; [done|lia]|lia|done]. }
  destruct (match d with Some _ => d | None => m !! mi_profile_id identity end) as [pg|] eqn:Hpg.
  2: { split_and!; [apply Hfail; [done|lia]|lia|done]. }
  cbn. split_and!; [|lia|done| | |by rewrite Hs2, Hs1..].
  - eapply adopt_advance; [done|exact Hid|done|unfold room; lia| |exact E|done|done|cbn; lia].
    unfold keep. intros p g Hp Hk. cbn beta in Hk. destruct (_ && _); [done|]. case_bool_decide as Heq; [|done]. split; [done|].
    rewrite profiles_by_id_lookup in Heq by apply Hc. done.
  - destruct (is_delete identity) eqn:Hdel; subst d; [by injection Hpg as <-|].
    destruct (Hin _ _ Hpg) as [Hm|(p & Hpl & Hpid & Hk)]; [by rewrite lookup_empty in Hm|].
    unfold keep in Hk. rewrite Hpid, bool_decide_true in Hk by done. rewrite ?Hdel in Hk. cbn in Hk.
    destruct Hk as [Hk|[_ Hk]]; [done|lia].
  - destruct (is_delete identity) eqn:Hdel; [done|]. by subst d.
Qed.

End advances.

Lemma evict_exact_quiet profile_id pg sg s :
  same_observed s (evict_cached_session_exact profile_id pg sg s).2.
Proof.
  unfold evict_cached_session_exact, take_cached_session_exact.
  destruct (sv_sessions s !! profile_id); [|done]. by destruct (_ && _).
Qed.
