(* ===== verification/ServiceSystem.v ===== *)
(** * The service as a transition system (src/src/service.rs)

    The atomic actions of concurrent operations, one per critical section of the
    code, in any order: connection attempts that begin and end, evictions and
    retags of cached sessions, writes to the credential store, configurations
    adopted after a reload or a mutation, entry into and exit from the uncertain
    state, and the shutdown.  A ghost part records the attempts under way and the
    attempt every handle was connected for.  An invariant of the reachable states
    accounts for every handle. *)

From S2P Require Import Prelude RustStr Model Execution Retention Secrets Profile Config ConfigWriter.
From S2P Require Import ConfigSafety Drivers Service ServiceLogic ServiceSafety.

#[local] Arguments fetch_add : simpl never.

Record System := {
  sy_service : Service;
  sy_attempts : list ConnectAttempt;
  sy_connected : gmap N ConnectAttempt;
}.

Definition with_service (sys : System) (s : Service) : System :=
  {| sy_service := s; sy_attempts := sy_attempts sys; sy_connected := sy_connected sys |}.

(** What a connection attempt that began adds to the ghost part. *)
Definition begun (sys : System) (outcome : result ServiceError (SessionLease + ConnectAttempt) * Service) : System :=
  let '(r, s) := outcome in
  {| sy_service := s;
     sy_attempts := match r with Ok (inr attempt) => attempt :: sy_attempts sys | _ => sy_attempts sys end;
     sy_connected := sy_connected sys |}.

(** What the end of [attempt] does: a fresh handle is recorded. *)
Definition ended (sys : System) (attempt : ConnectAttempt) (rest : list ConnectAttempt)
    (connected : result DriverError SessionHandle) : System :=
  {| sy_service := (session_install attempt connected (sy_service sys)).2;
     sy_attempts := rest;
     sy_connected := match connected with
                     | Ok handle => <[handle := attempt]> (sy_connected sys)
                     | Err _ => sy_connected sys
                     end |}.

Definition bounded_config (config : Config) : Prop :=
  validate_config_identity config = Ok tt /\ (N.of_nat (length (cfg_profiles config)) <= MAX_PROFILES)%N.

Inductive Step (sys : System) : System -> Prop :=
| step_begin env profile generation operation_id :
    Step sys (begun sys (session_begin env profile generation operation_id (sy_service sys)))
| step_end attempt rest connected :
    sy_attempts sys ≡ₚ attempt :: rest ->
    match connected with Ok handle => sy_connected sys !! handle = None | Err _ => True end ->
    Step sys (ended sys attempt rest connected)
| step_evict profile_id pg sg :
    Step sys (with_service sys (evict_cached_session_exact profile_id pg sg (sy_service sys)).2)
| step_retag profile_id expected generation fingerprint :
    Step sys (with_service sys
      (retag_cached_session_exact profile_id expected generation fingerprint (sy_service sys)).2)
| step_secrets secrets : Step sys (with_service sys (set_secrets (sy_service sys) secrets))
| step_uncertain env : EnvLaws env ->
    Step sys (with_service sys (enter_config_uncertain_deferred env (sy_service sys)).2)
| step_reload env loaded : EnvLaws env -> bounded_config (lc_config loaded) ->
    Step sys (with_service sys (replace_loaded_config env loaded (sy_service sys)).2)
| step_certain : Step sys (with_service sys (set_uncertain (sy_service sys) false))
| step_reconcile env config identity : EnvLaws env -> bounded_config config ->
    Step sys (with_service sys (reconcile_after_mutation env config identity (sy_service sys)).2)
| step_shutdown : Step sys (with_service sys (shutdown_runtime (sy_service sys))).

Definition initial (loaded : LoadedConfig) (secrets : SessionSecretStore) : System :=
  {| sy_service := from_validated_loaded loaded secrets; sy_attempts := []; sy_connected := ∅ |}.

(** ** Invariant *)

Definition cached_handles (s : Service) : list SessionHandle := (cs_handle ∘ snd) <$> map_to_list (sv_sessions s).

(** The session was connected for its profile with its fingerprint. *)
Definition session_of (connected : gmap N ConnectAttempt) (profile_id : ProfileId) (cached : CachedSession) : Prop :=
  exists attempt, connected !! cs_handle cached = Some attempt /\
    p_id (at_profile attempt) = profile_id /\ fingerprint_of (at_profile attempt) = cs_fingerprint cached /\
    at_session_generation attempt = cs_session_generation cached.

(** Every connected handle is in the cache or closed, and only once. *)
Record sessions_ok (connected : gmap N ConnectAttempt) (s : Service) : Prop := {
  so_cached : map_Forall (session_of connected) (sv_sessions s);
  so_accounted : cached_handles s ++ sv_closed s ≡ₚ (map_to_list connected).*1;
}.

Definition issued (attempts : list ConnectAttempt) (connected : gmap N ConnectAttempt) : list N :=
  at_session_generation <$> attempts ++ (map_to_list connected).*2.

Record attempts_ok (attempts : list ConnectAttempt) (connected : gmap N ConnectAttempt) (next : N) : Prop := {
  ao_distinct : NoDup (issued attempts connected);
  ao_below : Forall (fun g => g < next)%N (issued attempts connected);
}.

Record System_ok (sys : System) : Prop := {
  sk_coherent : coherent (sy_service sys);
  sk_sessions : sessions_ok (sy_connected sys) (sy_service sys);
  sk_attempts : attempts_ok (sy_attempts sys) (sy_connected sys) (sv_next_session_generation (sy_service sys));
}.

(** ** Sessions *)

Lemma cached_handles_delete s id cached :
  sv_sessions s !! id = Some cached ->
  cached_handles s ≡ₚ cs_handle cached :: cached_handles (set_sessions s (delete id (sv_sessions s))).
Proof.
  intros Hid. unfold cached_handles. cbn.
  rewrite <- (insert_delete_id (sv_sessions s) id cached) at 1 by done.
  by rewrite map_to_list_insert by apply lookup_delete_eq.
Qed.

Lemma cached_handles_insert s id cached :
  cached_handles (set_sessions s (<[id := cached]> (sv_sessions s)))
  ≡ₚ cs_handle cached :: cached_handles (set_sessions s (delete id (sv_sessions s))).
Proof.
  unfold cached_handles. cbn. rewrite <- insert_delete_eq.
  by rewrite map_to_list_insert by apply lookup_delete_eq.
Qed.

(** Removing a session from the cache and closing it. *)
Lemma sessions_ok_drop connected s id cached :
  sv_sessions s !! id = Some cached -> sessions_ok connected s ->
  sessions_ok connected (close_handle (set_sessions s (delete id (sv_sessions s))) (cs_handle cached)).
Proof.
  intros Hid [Hc Ha]. split.
  - cbn. by apply map_Forall_delete.
  - cbn. rewrite <- Ha, (cached_handles_delete s id cached Hid). cbn.
    by rewrite <- Permutation_middle.
Qed.

Lemma sessions_ok_same connected s s' :
  sv_sessions s' = sv_sessions s -> sv_closed s' = sv_closed s ->
  sessions_ok connected s -> sessions_ok connected s'.
Proof. intros Hs Hc [H1 H2]. split; unfold cached_handles in *; by rewrite ?Hs, ?Hc. Qed.

Lemma evict_exact_ok connected id pg sg s :
  sessions_ok connected s -> sessions_ok connected (evict_cached_session_exact id pg sg s).2.
Proof.
  intros Hok. unfold evict_cached_session_exact, take_cached_session_exact.
  destruct (sv_sessions s !! id) as [cached|] eqn:Hid; [|done]. destruct (_ && _); [|done].
  by apply sessions_ok_drop.
Qed.

Lemma retag_ok connected id expected generation fingerprint s :
  sessions_ok connected s ->
  sessions_ok connected (retag_cached_session_exact id expected generation fingerprint s).2.
Proof.
  intros [Hc Ha]. unfold retag_cached_session_exact.
  destruct (sv_sessions s !! id) as [cached|] eqn:Hid; [|done]. destruct (_ || _); [done|].
  split; cbn.
  - apply map_Forall_insert_2; [apply (Hc _ _ Hid)|done].
  - rewrite cached_handles_insert. cbn. by rewrite <- Ha, (cached_handles_delete s id cached Hid).
Qed.

Lemma session_of_grow connected handle attempt id cached :
  connected !! handle = None -> session_of connected id cached ->
  session_of (<[handle := attempt]> connected) id cached.
Proof.
  intros Hnone (a & Ha & H). exists a. split; [|done]. rewrite lookup_insert_ne; [done|]. intros ->. congruence.
Qed.

(** A new handle is recorded and closed at once. *)
Lemma sessions_ok_close_new connected s handle attempt :
  connected !! handle = None -> sessions_ok connected s ->
  sessions_ok (<[handle := attempt]> connected) (close_handle s handle).
Proof.
  intros Hnone [Hc Ha]. split; cbn.
  - intros id cached Hid. by apply session_of_grow; [|apply Hc].
  - rewrite map_to_list_insert by done. cbn. rewrite <- Ha. by rewrite <- Permutation_middle.
Qed.

(** A new session enters the cache and the one it displaces is closed. *)
Lemma sessions_ok_install connected s id handle attempt cached :
  connected !! handle = None -> sessions_ok connected s ->
  cs_handle cached = handle -> session_of (<[handle := attempt]> connected) id cached ->
  let s' := set_sessions s (<[id := cached]> (sv_sessions s)) in
  sessions_ok (<[handle := attempt]> connected)
    match cs_handle <$> sv_sessions s !! id with Some displaced => close_handle s' displaced | None => s' end.
Proof.
  intros Hnone [Hc Ha] Hh Hof s'.
  assert (map_Forall (session_of (<[handle := attempt]> connected)) (<[id := cached]> (sv_sessions s))) as Hall.
  { apply map_Forall_insert_2; [done|]. intros i c Hi. by apply session_of_grow; [|apply Hc]. }
  assert (cached_handles s' ≡ₚ handle :: cached_handles (set_sessions s (delete id (sv_sessions s)))) as Hins
    by (unfold s'; by rewrite cached_handles_insert, Hh).
  destruct (sv_sessions s !! id) as [displaced|] eqn:Hid; cbn; split; try exact Hall; cbn.
  - rewrite map_to_list_insert by done. cbn. rewrite <- Ha, (cached_handles_delete s id displaced Hid).
    change (cached_handles (close_handle s' (cs_handle displaced))) with (cached_handles s').
    rewrite Hins. cbn. constructor. symmetry. apply Permutation_middle.
  - rewrite map_to_list_insert by done. cbn. rewrite <- Ha, Hins. cbn.
    rewrite delete_id by done. by destruct s.
Qed.

Lemma close_all_ok connected s handles :
  cached_handles s = [] -> sv_sessions s = ∅ ->
  handles ++ sv_closed s ≡ₚ (map_to_list connected).*1 ->
  sessions_ok connected (foldl close_handle s handles).
Proof.
  revert s. induction handles as [|h handles IH]; intros s Hnil Hempty Hperm; cbn.
  - split; [rewrite Hempty; apply map_Forall_empty|by rewrite Hnil].
  - apply IH; [done|done|]. cbn. rewrite <- Hperm. cbn. symmetry. apply Permutation_middle.
Qed.

Lemma shutdown_ok connected s : sessions_ok connected s -> sessions_ok connected (shutdown_runtime s).
Proof.
  intros [_ Ha]. unfold shutdown_runtime. destruct (clear_all (sv_secrets s)) as [r secrets].
  apply close_all_ok; [|done|exact Ha]. unfold cached_handles. cbn. by rewrite map_to_list_empty.
Qed.

Lemma shutdown_observed s : same_observed s (shutdown_runtime s).
Proof.
  unfold shutdown_runtime. destruct (clear_all (sv_secrets s)) as [r secrets].
  etrans; [|apply (respects_foldl same_observed); done]. done.
Qed.

(** ** The counter of session generations *)

Definition same_sessions (s s' : Service) : Prop :=
  sv_sessions s' = sv_sessions s /\ sv_closed s' = sv_closed s /\
  sv_next_session_generation s' = sv_next_session_generation s.

#[export] Instance same_sessions_preorder : PreOrder same_sessions.
Proof. split; [by split|]. intros ??? (?&?&?) (?&?&?). split_and!; etrans; eauto. Qed.

Lemma fresh_for_sessions ids m s : same_sessions s (fresh_for ids m s).2.
Proof. revert m s. induction ids as [|id ids IH]; intros m s; cbn; [done|]. etrans; [|apply IH]. done. Qed.

Lemma assign_generations_sessions keep l m s : same_sessions s (assign_generations keep l m s).2.
Proof.
  revert m s. induction l as [|p l IH]; intros m s; cbn; [done|].
  destruct (keep p); cbn; (etrans; [|apply IH]); done.
Qed.

Lemma enter_uncertain_sessions env s : same_sessions s (enter_config_uncertain_deferred env s).2.
Proof.
  unfold enter_config_uncertain_deferred. set (s0 := set_uncertain s true).
  pose proof (fresh_for_sessions (hash_order env _ (generations s0)).*1 (generations s0) s0) as H.
  by destruct (fresh_for _ _ _) as [m s1].
Qed.

Lemma replace_loaded_sessions env loaded s : same_sessions s (replace_loaded_config env loaded s).2.
Proof.
  unfold replace_loaded_config. set (keep := fun p => _).
  pose proof (assign_generations_sessions keep (cfg_profiles (lc_config loaded)) ∅ s) as H1.
  destruct (assign_generations keep _ _ _) as [m s1]. cbn in H1.
  set (removed := List.filter _ _).
  pose proof (fresh_for_sessions removed.*1 (ob_tombstones (sv_observed s)) s1) as H2.
  destruct (fresh_for _ _ _) as [tombs s2]. etrans; [exact H1|]. etrans; [exact H2|]. done.
Qed.

Lemma reconcile_sessions env config identity s :
  same_sessions s (reconcile_after_mutation env config identity s).2.
Proof.
  unfold reconcile_after_mutation. set (keep := fun p => _).
  pose proof (assign_generations_sessions keep (cfg_profiles config) ∅ s) as H1.
  destruct (assign_generations keep _ _ _) as [m s1]. cbn in H1.
  destruct (is_delete identity); cbn; (destruct (reconcile_targets _ _ _) as [[targets deferred]|e]; [|exact H1]).
  - exact H1.
  - by destruct (m !! mi_profile_id identity).
Qed.

Lemma same_sessions_ok connected s s' : same_sessions s s' -> sessions_ok connected s -> sessions_ok connected s'.
Proof. intros (Hs & Hc & _). by apply sessions_ok_same. Qed.

Lemma attempts_ok_same attempts connected s s' :
  sv_next_session_generation s' = sv_next_session_generation s ->
  attempts_ok attempts connected (sv_next_session_generation s) ->
  attempts_ok attempts connected (sv_next_session_generation s').
Proof. by intros ->. Qed.

(** ** One step *)

(** What [session_begin] returns and leaves behind. *)
Lemma session_begin_spec env profile generation operation_id s :
  let '(r, s') := session_begin env profile generation operation_id s in
  match r with
  | Ok (inl lease) =>
      s' = s /\ sv_uncertain s = false /\ is_current profile generation s = true /\
      exists cached, sv_sessions s !! p_id profile = Some cached /\
        cs_fingerprint cached = fingerprint_of profile /\ cs_profile_generation cached = generation /\
        lease = lease_of profile (identity cached) (cs_handle cached)
  | Ok (inr attempt) =>
      s' = set_next_session_generation s (fetch_add (sv_next_session_generation s)) /\
      sv_uncertain s = false /\ is_current profile generation s = true /\
      at_profile attempt = profile /\ at_generation attempt = generation /\
      at_session_generation attempt = sv_next_session_generation s
  | Err _ => s' = s
  end.
Proof.
  unfold session_begin, ensure_config_certain, sv_get, sv_throw, sv_lift, sv_step, resolve_profile_secret,
    allocate_session_generation, mbind, Sv_bind, mret, Sv_ret.
  destruct (sv_uncertain s) eqn:Hu; cbn; [done|].
  destruct (is_current profile generation s) eqn:Hcur; cbn; [|done].
  unfold cached_match. destruct (sv_sessions s !! p_id profile) as [cached|] eqn:Hid; cbn.
  - case_bool_decide as Hfp; cbn.
    + destruct (cs_profile_generation cached =? generation)%N eqn:Hg; cbn.
      * apply N.eqb_eq in Hg. split_and!; [done..|]. by exists cached.
      * repeat (case_match; cbn; simplify_eq; try done).
    + repeat (case_match; cbn; simplify_eq; try done).
  - repeat (case_match; cbn; simplify_eq; try done).
Qed.

(** The session of a lease was connected for the profile of the lease: at the
    same address and with the same user. *)
Definition lease_ok (connected : gmap N ConnectAttempt) (lease : SessionLease) : Prop :=
  sl_profile_id lease = p_id (sl_profile lease) /\
  exists attempt, connected !! sl_handle lease = Some attempt /\
    p_id (at_profile attempt) = sl_profile_id lease /\
    fingerprint_of (at_profile attempt) = fingerprint_of (sl_profile lease) /\
    at_session_generation attempt = ci_session_generation (sl_identity lease).

(** The lease names the profile and the generation observed now. *)
Definition lease_current (s : Service) (lease : SessionLease) : Prop :=
  sv_uncertain s = false /\
  generations s !! sl_profile_id lease = Some (ci_profile_generation (sl_identity lease)) /\
  sl_profile lease ∈ profiles s.

Lemma is_current_spec profile generation s :
  is_current profile generation s = true <->
  generations s !! p_id profile = Some generation /\ profile ∈ profiles s.
Proof.
  unfold is_current. rewrite andb_true_iff, bool_decide_eq_true, existsb_exists.
  split; intros [Hg Hp]; (split; [done|]).
  - destruct Hp as (q & Hq & Heq%bool_decide_eq_true). subst q. by apply list_elem_of_In.
  - exists profile. split; [by apply list_elem_of_In|by apply bool_decide_eq_true].
Qed.

Lemma cached_lease_ok connected s id cached profile :
  sessions_ok connected s -> sv_sessions s !! id = Some cached -> id = p_id profile ->
  cs_fingerprint cached = fingerprint_of profile ->
  lease_ok connected (lease_of profile (identity cached) (cs_handle cached)).
Proof.
  intros [Hc _] Hid -> Hfp. split; [done|]. destruct (Hc _ _ Hid) as (a & Ha & Hp & Hf & Hs).
  exists a. cbn. by rewrite <- Hfp.
Qed.

(** The session of the lease is in the cache. *)
Definition lease_cached (s : Service) (lease : SessionLease) : Prop :=
  exists cached, sv_sessions s !! sl_profile_id lease = Some cached /\
    cs_handle cached = sl_handle lease /\ identity cached = sl_identity lease.

(** A failed connection leaves the service as it was. *)
Lemma session_install_error attempt error s : (session_install attempt (Err error) s).2 = s.
Proof.
  unfold session_install, ensure_session_observation, sv_throw, mbind, Sv_bind.
  by destruct (if sv_uncertain s then _ else _) as [[]|].
Qed.

Lemma session_install_spec connected s attempt handle :
  connected !! handle = None -> sessions_ok connected s ->
  let '(r, s') := session_install attempt (Ok handle) s in
  let connected' := <[handle := attempt]> connected in
  sessions_ok connected' s' /\ same_observed s s' /\
  sv_next_session_generation s' = sv_next_session_generation s /\ sv_uncertain s' = sv_uncertain s /\
  (forall lease, r = Ok lease ->
    lease_ok connected' lease /\ lease_current s' lease /\ lease_cached s' lease).
Proof.
  intros Hnone Hok. unfold session_install.
  destruct (sv_uncertain s) eqn:Hu.
  { split_and!; [by apply sessions_ok_close_new|done..]. }
  destruct (is_current (at_profile attempt) (at_generation attempt) s) eqn:Hcur; cbn [negb].
  2: { split_and!; [by apply sessions_ok_close_new|done..]. }
  apply is_current_spec in Hcur as [Hgen Hin].
  set (profile := at_profile attempt) in *. set (id := p_id profile) in *.
  set (new := {| cs_handle := handle |}).
  assert (session_of (<[handle := attempt]> connected) id new) as Hnew
    by (exists attempt; by rewrite lookup_insert_eq).
  pose proof (sessions_ok_install connected s id handle attempt new Hnone Hok eq_refl Hnew) as Hins.
  assert (forall s', sv_sessions s' = <[id := new]> (sv_sessions s) -> same_observed s s' ->
    sv_uncertain s' = false -> forall lease, (Ok (lease_of profile (identity new) handle) : result ServiceError _) = Ok lease ->
    lease_ok (<[handle := attempt]> connected) lease /\ lease_current s' lease /\ lease_cached s' lease) as Hlease.
  { intros s' Hs' [Ho _] Hu' lease [= <-]. split_and!.
    - split; [done|]. exists attempt. cbn. by rewrite lookup_insert_eq.
    - unfold lease_current, generations, profiles. rewrite Ho. done.
    - exists new. cbn. by rewrite Hs', lookup_insert_eq. }
  unfold cached_match. destruct (sv_sessions s !! id) as [cached|] eqn:Hid;
    cbn in Hins |- *; change (p_id profile) with id; rewrite Hid; cbn.
  2: { split_and!; [exact Hins|done..|]. by apply Hlease. }
  destruct (bool_decide _ && _)%N eqn:Hmatch.
  2: { split_and!; [exact Hins|done..|]. by apply Hlease. }
  apply andb_true_iff in Hmatch as [Hfp%bool_decide_eq_true Hg%N.eqb_eq].
  split_and!; [by apply sessions_ok_close_new|done..|]. intros lease [= <-]. split_and!.
  - apply (cached_lease_ok _ (close_handle s handle) id); [by apply sessions_ok_close_new|done..].
  - cbn. unfold lease_current. cbn. by rewrite Hg.
  - by exists cached.
Qed.

(** ** Every step keeps the invariant *)

(** Room for the allocations of one step before a 64-bit counter wraps. *)
Definition roomy (s : Service) : Prop :=
  (sv_next_generation s + 2 * MAX_PROFILES <= U64_MAX)%N /\ (sv_next_session_generation s < U64_MAX)%N.

(** What one step does to a system that satisfies the invariant. *)
Record evolves (sys sys' : System) : Prop := {
  ev_ok : System_ok sys';
  ev_advance : advance (sy_service sys) (sy_service sys');
  ev_next : (sv_next_generation (sy_service sys') <= sv_next_generation (sy_service sys) + 2 * MAX_PROFILES)%N;
  ev_sessions : (sv_next_session_generation (sy_service sys')
                 <= sv_next_session_generation (sy_service sys) + 1)%N;
  ev_connected : sy_connected sys ⊆ sy_connected sys';
}.

(** A step that only moves the service, and allocates no session generation. *)
Lemma evolves_service sys s' :
  System_ok sys -> sessions_ok (sy_connected sys) s' ->
  sv_next_session_generation s' = sv_next_session_generation (sy_service sys) ->
  advance (sy_service sys) s' ->
  (sv_next_generation s' <= sv_next_generation (sy_service sys) + 2 * MAX_PROFILES)%N ->
  evolves sys (with_service sys s').
Proof.
  intros [Hc _ Ha] Hs Hn Hadv Hb. split; cbn; [|done..|lia|done].
  split; cbn; [apply Hadv|done|by rewrite Hn].
Qed.

(** A step that leaves the observed configuration alone. *)
Lemma evolves_same sys s' :
  System_ok sys -> sessions_ok (sy_connected sys) s' ->
  sv_next_session_generation s' = sv_next_session_generation (sy_service sys) ->
  same_observed (sy_service sys) s' -> evolves sys (with_service sys s').
Proof.
  intros Hok Hs Hn Ho. apply evolves_service; [done|done|done| |destruct Ho as [_ ->]; lia].
  apply advance_same; [apply Hok|done].
Qed.

(** A step that touches the observed configuration only. *)
Lemma evolves_observed sys s' :
  System_ok sys -> same_sessions (sy_service sys) s' -> advance (sy_service sys) s' ->
  (sv_next_generation s' <= sv_next_generation (sy_service sys) + 2 * MAX_PROFILES)%N ->
  evolves sys (with_service sys s').
Proof.
  intros Hok Hs. apply evolves_service; [done| |by apply Hs].
  eapply same_sessions_ok; [exact Hs|apply Hok].
Qed.

Lemma evict_exact_next id pg sg s :
  sv_next_session_generation (evict_cached_session_exact id pg sg s).2 = sv_next_session_generation s.
Proof.
  unfold evict_cached_session_exact, take_cached_session_exact.
  destruct (sv_sessions s !! id); [|done]. by destruct (_ && _).
Qed.

Lemma retag_same id expected generation fingerprint s :
  let s' := (retag_cached_session_exact id expected generation fingerprint s).2 in
  same_observed s s' /\ sv_next_session_generation s' = sv_next_session_generation s.
Proof. unfold retag_cached_session_exact. destruct (sv_sessions s !! id); [|done]. by destruct (_ || _). Qed.

Lemma shutdown_next s : sv_next_session_generation (shutdown_runtime s) = sv_next_session_generation s.
Proof.
  unfold shutdown_runtime. destruct (clear_all (sv_secrets s)) as [r secrets].
  set (handles := _ <$> _). set (s0 := set_secrets _ _).
  change (sv_next_session_generation s) with (sv_next_session_generation s0). clearbody s0.
  revert s0. induction handles as [|h handles IH]; intros s0; cbn; [done|by rewrite IH].
Qed.

Lemma issued_end attempts rest connected handle attempt :
  attempts ≡ₚ attempt :: rest -> connected !! handle = None ->
  issued rest (<[handle := attempt]> connected) ≡ₚ issued attempts connected.
Proof.
  intros Hperm Hnone. unfold issued. apply fmap_Permutation. rewrite map_to_list_insert by done. cbn.
  rewrite Hperm. cbn. symmetry. apply Permutation_middle.
Qed.

(** A session generation belongs to one handle. *)
Lemma issued_handle attempts connected h1 h2 a1 a2 :
  NoDup (issued attempts connected) -> connected !! h1 = Some a1 -> connected !! h2 = Some a2 ->
  at_session_generation a1 = at_session_generation a2 -> h1 = h2.
Proof.
  intros Hd H1 H2 Heq. destruct (decide (h1 = h2)) as [|Hne]; [done|]. exfalso.
  rewrite <- (insert_delete_id connected h1 a1 H1) in Hd. unfold issued in Hd.
  rewrite fmap_app in Hd. apply NoDup_app in Hd as (_ & _ & Hd).
  rewrite map_to_list_insert in Hd by apply lookup_delete_eq. cbn in Hd. apply NoDup_cons in Hd as [Hno _].
  apply Hno. rewrite Heq. apply list_elem_of_fmap_2. apply list_elem_of_fmap. exists (h2, a2).
  split; [done|]. apply elem_of_map_to_list. by rewrite lookup_delete_ne.
Qed.

Lemma attempts_ok_perm attempts connected attempts' connected' next :
  issued attempts' connected' ≡ₚ issued attempts connected ->
  attempts_ok attempts connected next -> attempts_ok attempts' connected' next.
Proof. intros Hperm [Hd Hb]. split; by rewrite Hperm. Qed.

Lemma attempts_ok_drop attempts connected attempt rest next :
  attempts ≡ₚ attempt :: rest -> attempts_ok attempts connected next -> attempts_ok rest connected next.
Proof.
  intros Hperm [Hd Hb]. unfold issued in *. rewrite Hperm in Hd, Hb. cbn in Hd, Hb.
  split; [by apply NoDup_cons in Hd as [_ Hd]|by apply Forall_cons in Hb as [_ Hb]].
Qed.

Lemma attempts_ok_begin attempts connected attempt s :
  (sv_next_session_generation s < U64_MAX)%N ->
  at_session_generation attempt = sv_next_session_generation s ->
  attempts_ok attempts connected (sv_next_session_generation s) ->
  attempts_ok (attempt :: attempts) connected (fetch_add (sv_next_session_generation s)).
Proof.
  intros Hroom Hgen [Hd Hb]. rewrite fetch_add_small by done.
  split; unfold issued in *; cbn.
  - apply NoDup_cons. split; [|done]. rewrite Hgen. intros Hin.
    rewrite Forall_forall in Hb. specialize (Hb _ Hin). lia.
  - apply Forall_cons. split; [lia|]. eapply Forall_impl; [exact Hb|]. cbn. lia.
Qed.

Lemma evolves_begin sys env profile generation operation_id :
  System_ok sys -> roomy (sy_service sys) ->
  evolves sys (begun sys (session_begin env profile generation operation_id (sy_service sys))).
Proof.
  intros Hok [_ Hroom].
  pose proof (session_begin_spec env profile generation operation_id (sy_service sys)) as Hspec.
  assert (evolves sys (with_service sys (sy_service sys))) as Hsame
    by (apply evolves_same; [done|apply Hok|done|done]).
  destruct (session_begin _ _ _ _ _) as [[[lease|attempt]|e] s']; cbn.
  - destruct Hspec as [-> _]. exact Hsame.
  - destruct Hspec as (-> & _ & _ & _ & _ & Hgen). destruct Hok as [Hc Hs Ha].
    split; cbn; [split; cbn| | |rewrite fetch_add_small by done; lia|done].
    + by apply (coherent_same (sy_service sys)).
    + by apply (sessions_ok_same _ (sy_service sys)).
    + by apply attempts_ok_begin.
    + by apply advance_same.
    + lia.
  - rewrite Hspec. exact Hsame.
Qed.

Lemma evolves_end sys attempt rest connected :
  System_ok sys -> sy_attempts sys ≡ₚ attempt :: rest ->
  match connected with Ok handle => sy_connected sys !! handle = None | Err _ => True end ->
  evolves sys (ended sys attempt rest connected).
Proof.
  intros [Hc Hs Ha] Hperm Hnone. unfold ended. destruct connected as [handle|e].
  - pose proof (session_install_spec (sy_connected sys) (sy_service sys) attempt handle Hnone Hs) as Hspec.
    destruct (session_install _ _ _) as [r s']. destruct Hspec as (Hs' & Ho & Hn & _).
    split; cbn; [split; cbn| | |lia|by apply insert_subseteq].
    + by apply (coherent_same (sy_service sys)).
    + done.
    + rewrite Hn. eapply attempts_ok_perm; [by apply issued_end|done].
    + by apply advance_same.
    + destruct Ho as [_ ->]. lia.
  - rewrite session_install_error. split; cbn; [split; cbn| | |lia|done].
    + done.
    + done.
    + by eapply attempts_ok_drop.
    + by apply advance_same.
    + lia.
Qed.

Lemma Step_evolves sys sys' : System_ok sys -> roomy (sy_service sys) -> Step sys sys' -> evolves sys sys'.
Proof.
  intros Hok Hroom. pose proof Hok as [Hc Hs _]. destruct 1 as
    [env profile generation operation_id|attempt rest connected Hperm Hnone|id pg sg|id expected g fp|secrets
    |env laws|env loaded laws [Hid Hlen]| |env config identity laws [Hid Hlen]|].
  - by apply evolves_begin.
  - by apply evolves_end.
  - apply evolves_same; [done|by apply evict_exact_ok|apply evict_exact_next|apply evict_exact_quiet].
  - destruct (retag_same id expected g fp (sy_service sys)) as [Ho Hn].
    apply evolves_same; [done|by apply retag_ok|done|done].
  - apply evolves_same; [done|by apply (sessions_ok_same _ (sy_service sys))|done|done].
  - destruct Hroom as [Hroom _].
    destruct (enter_uncertain_advances env (sy_service sys) Hc ltac:(unfold MAX_PROFILES in *; lia)) as (Ha & Hn & _).
    apply evolves_observed; [done|apply enter_uncertain_sessions|done|lia].
  - destruct Hroom as [Hroom _].
    destruct (replace_loaded_advances env loaded (sy_service sys) Hc Hid Hlen Hroom) as (Ha & Hn & _).
    apply evolves_observed; [done|apply replace_loaded_sessions|done|done].
  - apply evolves_same; [done|by apply (sessions_ok_same _ (sy_service sys))|done|done].
  - destruct Hroom as [Hroom _].
    pose proof (reconcile_advances env config identity (sy_service sys) Hc Hid Hlen Hroom) as H.
    pose proof (reconcile_sessions env config identity (sy_service sys)) as Hse.
    destruct (reconcile_after_mutation _ _ _ _) as [r s']. destruct H as (Ha & Hn & _).
    by apply evolves_observed.
  - apply evolves_same; [done|by apply shutdown_ok|apply shutdown_next|apply shutdown_observed].
Qed.
