(* ===== verification/ServiceWriter.v ===== *)
(** * The service over the configuration writer

    [EnvLaws], the interface the service's theorems are proved against, is
    discharged by the configuration writer of [ConfigWriter] and the loader: what
    [mutate_path] observes after a commit has passed [validate_config_identity]. *)

From S2P Require Import Prelude RustStr Model Secrets Profile Config ConfigWriter ConfigSafety.
From S2P Require Import Drivers WriterLogic WriterSafety WriterTheorems Service ServiceSafety.

(** What a step's value satisfies, wherever it starts. *)
Definition Yields {E A} (m : W E A) (Q : A -> Prop) : Prop :=
  forall w, match (m w).1 with Ok a => Q a | Err _ => True end.

Lemma yields_bind {E A B} (m : W E A) (f : A -> W E B) (P : A -> Prop) Q :
  Yields m P -> (forall a, P a -> Yields (f a) Q) -> Yields (m ≫= f) Q.
Proof.
  intros Hm Hf w. unfold mbind, W_bind. specialize (Hm w). destruct (m w) as [[a|e] w']; cbn in *; [|done].
  by apply Hf.
Qed.

Lemma yields_then {E A B} (m : W E A) (f : A -> W E B) Q : (forall a, Yields (f a) Q) -> Yields (m ≫= f) Q.
Proof. intros Hf. apply (yields_bind _ _ (fun _ => True)); [|auto]. intros w. by destruct ((m w).1). Qed.

Lemma yields_ret {E A} (a : A) (Q : A -> Prop) : Q a -> Yields (mret a : W E A) Q.
Proof. by intros H w. Qed.

Lemma yields_throw {E A} (e : E) (Q : A -> Prop) : Yields (throw e : W E A) Q.
Proof. by intros w. Qed.

Lemma yields_lift {E A} (r : result E A) : Yields (lift r) (fun a => r = Ok a).
Proof. intros w. by destruct r. Qed.

Lemma yields_attempt {E A} (m : W E A) (Q : A -> Prop) :
  Yields m Q -> Yields (attempt m) (fun r => match r with Ok a => Q a | Err _ => True end).
Proof. intros Hm w. unfold attempt. specialize (Hm w). by destruct (m w). Qed.

(** The configuration files of this platform decode to a bounded number of profiles. *)
Definition bounded_files (pf : Platform) : Prop := forall content loaded,
  decode_config (toml_crate pf) content = Ok loaded ->
  (N.of_nat (length (cfg_profiles (lc_config loaded))) <= MAX_PROFILES)%N.

Definition identified (loaded : LoadedConfig) : Prop :=
  validate_config_identity (lc_config loaded) = Ok tt /\
  (N.of_nat (length (cfg_profiles (lc_config loaded))) <= MAX_PROFILES)%N.

Section writer.
Context (pf : Platform) (bounded : bounded_files pf).

Lemma load_path_yields path :
  Yields (load_path pf path) (fun loaded => (N.of_nat (length (cfg_profiles (lc_config loaded))) <= MAX_PROFILES)%N).
Proof using bounded.
  apply yields_then. intros [bs|[]]; try apply yields_throw.
  - intros w. cbn. destruct (decode_config (toml_crate pf) bs) eqn:Hd; [|done]. by eapply bounded.
  - apply yields_ret. cbn. unfold MAX_PROFILES. lia.
Qed.

Lemma observe_main_yields path : Yields (observe_main pf path) identified.
Proof using bounded.
  apply yields_then. intros _. eapply yields_bind; [apply load_path_yields|]. intros loaded Hlen.
  eapply yields_bind; [apply yields_lift|]. intros [] Hid. cbn in Hid.
  case_match; [apply yields_throw|]. apply yields_ret. split; [|done].
  by destruct (validate_config_identity (lc_config loaded)) as [[]|].
Qed.

Lemma mutate_path_yields path mutation consent :
  Yields (mutate_path pf path mutation consent)
    (fun outcome => forall loaded, mo_observation outcome = Observed loaded -> identified loaded).
Proof using bounded.
  unfold mutate_path. case_match; [apply yields_throw|].
  do 4 (apply yields_then; intros ?). apply yields_then. intros [config affected].
  do 3 (apply yields_then; intros ?).
  eapply yields_bind; [apply yields_attempt, observe_main_yields|].
  intros [loaded|e] Hobs; apply yields_ret; cbn; [|done]. by intros ? [= <-].
Qed.

(** The service's environment on this platform, from the files of [w]. *)
Definition writer_env (path : str) (w : World) (environment : str -> option str) (redis_tls : bool) : Env :=
  {| hash_order := fun A m => map_to_list m;
     run_load := Some (load_path pf path w).1;
     run_mutation := fun mutation consent => Some (mutate_path pf path mutation consent w).1;
     supports_redis_tls := redis_tls; environment := environment; ca_files := ca_world pf |}.

#[export] Instance writer_env_laws path w environment redis_tls :
  EnvLaws (writer_env path w environment redis_tls).
Proof using bounded.
  split; cbn.
  - done.
  - intros loaded [= H]. pose proof (load_path_yields path w) as Hy. by rewrite H in Hy.
  - intros mutation consent outcome loaded [= H] Hobs.
    pose proof (mutate_path_yields path mutation consent w) as Hy. rewrite H in Hy. by apply Hy.
Qed.
End writer.

(** ** A concrete environment *)

(** The profile [p] under another name, and a toy encoding that knows the
    configurations without a profile, with [sample_profile] and with the new name. *)
Definition renamed_draft : ConnectionDraft :=
  {| d_name := lit "Q"; d_driver := Redis; d_host := lit "h"; d_port := 6379;
     d_database := Some (lit "0"); d_username := None; d_tls := Disabled;
     d_credential_mode := CredNone; d_secret_env := None; d_redis_tls := redis_tls_default |}.

Definition renamed_profile : ConnectionProfile := from_draft (lit "p") renamed_draft.

Definition renaming_toml : Toml :=
  {| toml_version := fun _ => Some 2%N;
     toml_v1 := fun _ => Some [];
     toml_config := fun raw =>
       Some (if bool_decide (raw = lit "one" ++ [10%N]) then sample_config
             else if bool_decide (raw = lit "two" ++ [10%N])
                  then {| cfg_version := 2; cfg_profiles := [renamed_profile] |}
                  else config_default);
     toml_to_string_pretty := fun config =>
       Some (if bool_decide (cfg_profiles config = [sample_profile]) then lit "one"
             else if bool_decide (cfg_profiles config = [renamed_profile]) then lit "two" else lit "none") |}.

Definition renaming_platform : Platform :=
  {| os_fails := fun _ => false; os_written := fun _ => 0; path_parent := fun _ => Some (lit "/c");
     process_id := 7; lock_poisoned := false; inject := quiet_inject; ca_world := sample_ca;
     toml_crate := renaming_toml |}.

Lemma renaming_bounded : bounded_files renaming_platform.
Proof.
  intros content loaded. unfold decode_config. intros (raw & _ & H)%result_bind_Ok. cbn in H.
  injection H as <-. cbn. by repeat case_bool_decide.
Qed.

Definition sample_env : Env :=
  writer_env renaming_platform sample_path (sample_world (encode (lit "one" ++ [10%N]))) (fun _ => None) true.

#[export] Instance sample_env_laws : EnvLaws sample_env.
Proof. apply writer_env_laws, renaming_bounded. Qed.

Definition sample_loaded : LoadedConfig :=
  {| lc_config := sample_config; lc_source_version := SourceV2; lc_migration_required := false;
     lc_original_bytes := Some (encode (lit "one" ++ [10%N]));
     lc_fingerprint := Some (encode (lit "one" ++ [10%N])) |}.

(** The service after it loaded that file, with a stored credential. *)
Definition sample_service : Service := from_validated_loaded sample_loaded sample_store.

Lemma sample_coherent : coherent sample_service.
Proof.
  split.
  - apply validate_identity_spec. vm_compute. reflexivity.
  - vm_compute. discriminate.
  - intros id. change (is_Some (({[ lit "p" := 1%N ]} : gmap (list N) N) !! id) <-> id ∈ [lit "p"]).
    rewrite list_elem_of_singleton. destruct (decide (id = lit "p")) as [->|Hne].
    + rewrite lookup_singleton_eq. split; [done|eauto].
    + rewrite lookup_singleton_ne by done. split; [by intros []|done].
  - intros id g. change (({[ lit "p" := 1%N ]} : gmap (list N) N) !! id = Some g -> (g < 2)%N).
    intros [_ <-]%lookup_singleton_Some. lia.
Qed.
