(* ===== verification/ServiceRuns.v ===== *)
(** * The operations of the service as runs of its critical sections

    Every operation of [Service] leaves the service where some run of
    [ServiceSystem.Step] leaves it, so that what holds of every run, whatever the
    interleaving, holds of the operations. *)

From S2P Require Import Prelude RustStr Model Execution Retention Secrets Profile Config ConfigWriter.
From S2P Require Import ConfigSafety Drivers Service ServiceLogic ServiceSafety ServiceSystem ServiceWriter.

(** A run that begins and ends no connection attempt. *)
Definition runs (s s' : Service) : Prop := forall sys, sy_service sys = s -> rtc Step sys (with_service sys s').

#[export] Instance runs_preorder : PreOrder runs.
Proof.
  split.
  - intros s [] <-. constructor.
  - intros s1 s2 s3 H1 H2 sys Hsys. etrans; [by apply H1|]. by apply (H2 (with_service sys s2)).
Qed.

Lemma step_runs s s' : (forall sys, sy_service sys = s -> Step sys (with_service sys s')) -> runs s s'.
Proof. intros H sys Hsys. by apply rtc_once, H. Qed.

Lemma runs_evict id pg sg s : runs s (evict_cached_session_exact id pg sg s).2.
Proof. apply step_runs. intros sys <-. constructor. Qed.

Lemma runs_retag id expected generation fingerprint s :
  runs s (retag_cached_session_exact id expected generation fingerprint s).2.
Proof. apply step_runs. intros sys <-. constructor. Qed.

Lemma runs_set_secrets secrets s : runs s (set_secrets s secrets).
Proof. apply step_runs. intros sys <-. constructor. Qed.

Lemma runs_secrets {A} (f : SessionSecretStore -> result SecretError A * SessionSecretStore) :
  Respects runs (on_secrets f).
Proof. intros s. unfold on_secrets. destruct (f (sv_secrets s)). apply runs_set_secrets. Qed.

Lemma runs_evict_target target s : runs s (evict_target target s).
Proof. unfold evict_target. destruct (dt_session target); [apply runs_evict|done]. Qed.

Lemma runs_resolve fence allow s : runs s (resolve_deferred_session fence allow s).2.
Proof.
  unfold resolve_deferred_session. destruct (allow && _); [apply runs_retag|].
  pose proof (runs_evict (df_profile_id fence) (ci_profile_generation (df_previous fence))
      (ci_session_generation (df_previous fence)) s) as H. by destruct (evict_cached_session_exact _ _ _ _).
Qed.

Lemma runs_cleanup cleanup : Respects runs (apply_deferred_cleanup cleanup).
Proof.
  unfold apply_deferred_cleanup.
  respects_by ltac:(first [apply runs_secrets | cbn; apply respects_foldl; [apply _|intros; apply runs_evict_target]]).
Qed.

Lemma runs_shutdown s : runs s (shutdown_runtime s).
Proof. apply step_runs. intros sys <-. constructor. Qed.

Lemma runs_certain s : runs s (set_uncertain s false).
Proof. apply step_runs. intros sys <-. constructor. Qed.

Ltac runs :=
  unfold lifted;
  respects_by ltac:(first [apply runs_cleanup | apply runs_secrets | apply runs_resolve | apply runs_evict
                          | apply runs_certain | reflexivity]).

Section env.
Context (env : Env) {laws : EnvLaws env}.

Lemma runs_uncertain s : runs s (enter_config_uncertain_deferred env s).2.
Proof using laws. apply step_runs. intros sys <-. by constructor. Qed.

Lemma runs_failure {A} error : Respects runs (runtime_mutation_failure env error : Sv _ A).
Proof using laws.
  unfold runtime_mutation_failure. respects_by ltac:(apply runs_uncertain).
Qed.

(** After a successful write the observed configuration is valid. *)
Lemma runs_write {A} rename mutation consent (f : ObservedMutationOutcome -> Sv RuntimeMutationFailure A) :
  (forall outcome, bounded_config (lc_config (om_loaded outcome)) -> Respects runs (f outcome)) ->
  Respects runs (write_config_or env rename mutation consent ≫= f).
Proof using laws.
  intros Hf s. unfold write_config_or, sv_map_err, write_config, lifted, sv_lift, mbind, Sv_bind.
  destruct (run_mutation env mutation consent) as [[outcome|e]|] eqn:Hrun; cbn; [|done|done].
  destruct (mo_observation outcome) as [loaded|st e] eqn:Hob; cbn.
  - apply Hf. cbn. by eapply el_mutation.
  - pose proof (runs_uncertain s) as H. unfold runtime_mutation_failure, sv_step, sv_throw, mbind, Sv_bind.
    by destruct (enter_config_uncertain_deferred env s).
Qed.

Lemma runs_reconcile config identity :
  bounded_config config -> Respects runs (reconcile_or_uncertain env config identity).
Proof using laws.
  intros Hb s. unfold reconcile_or_uncertain.
  assert (runs s (reconcile_after_mutation env config identity s).2) as H
    by (apply step_runs; intros sys <-; by constructor).
  destruct (reconcile_after_mutation env config identity s) as [[outcome|e] s1]; [done|].
  destruct e; try exact H. etrans; [exact H|apply runs_failure].
Qed.

Ltac operation :=
  respects_by ltac:(first [apply runs_cleanup | apply runs_secrets | apply runs_resolve | apply runs_evict
                          | apply runs_failure | by apply runs_reconcile | reflexivity]).

Lemma runs_create request defer : Respects runs (create_profile_inner env request defer).
Proof using laws.
  unfold create_profile_inner, lifted. cbv zeta.
  do 5 (apply respects_bind; [apply _|operation|intros _]).
  apply respects_bind; [apply _|operation|]. intros [mutation expected]. apply runs_write. intros outcome Hb. operation.
Qed.

Lemma runs_update request policy : Respects runs (update_profile_inner env request policy).
Proof using laws.
  unfold update_profile_inner, lifted. cbv zeta.
  do 8 (apply respects_bind; [apply _|operation|intros ?]). apply runs_write. intros outcome Hb. operation.
Qed.

Lemma runs_delete request defer : Respects runs (delete_profile_inner env request defer).
Proof using laws.
  unfold delete_profile_inner, lifted. cbv zeta.
  do 5 (apply respects_bind; [apply _|operation|intros ?]). apply runs_write. intros outcome Hb. operation.
Qed.

Lemma runs_replace loaded s : bounded_config (lc_config loaded) -> runs s (replace_loaded_config env loaded s).2.
Proof using laws. intros Hb. apply step_runs. intros sys <-. by constructor. Qed.

Lemma runs_reload : Respects runs (reload_configuration_for_runtime env).
Proof using laws.
  unfold reload_configuration_for_runtime. apply respects_bind; [apply _|runs|intros _].
  destruct (run_load env) as [[loaded|e]|] eqn:Hload;
    [|respects_by ltac:(apply runs_uncertain)..].
  destruct (validate_config_identity (lc_config loaded)) as [[]|] eqn:Hid; cbn [is_ok];
    [|respects_by ltac:(apply runs_uncertain)].
  assert (bounded_config (lc_config loaded)) as Hb by (split; [done|by eapply el_load]).
  respects_by ltac:(first [by apply runs_replace | apply runs_certain]).
Qed.
End env.

(** ** Complete operations *)

Inductive Operation :=
| OpReload
| OpCreate (request : CreateProfileRequest)
| OpUpdate (request : UpdateProfileRequest)
| OpDelete (request : DeleteProfileRequest)
| OpStoreCredential (operation_id : OperationId) (profile_id : ProfileId) (expected : ProfileGeneration)
    (secret : SessionSecret)
| OpDisconnect (operation_id : OperationId) (profile_id : ProfileId) (expected : ProfileGeneration)
    (session : option SessionGeneration)
| OpAcquire (operation_id : OperationId) (profile_id : ProfileId) (expected : ProfileGeneration)
| OpFinish (lease : SessionLease) (operation_id : OperationId) (outcome : result DriverError unit)
| OpCheck (lease : SessionLease) (operation_id : OperationId) (ping : result DriverError unit)
| OpShutdown.

(** Where the operation leaves the service; [connect] answers a connection attempt. *)
Definition perform (env : Env)
    (connect : ConnectionProfile -> option SessionSecret -> result DriverError SessionHandle)
    (operation : Operation) (s : Service) : Service :=
  match operation with
  | OpReload => (reload_configuration_with_outcome env s).2
  | OpCreate request => (create_profile env request s).2
  | OpUpdate request => (update_profile env request s).2
  | OpDelete request => (delete_profile env request s).2
  | OpStoreCredential operation_id profile_id expected secret =>
      (store_session_credential_exact operation_id profile_id expected secret s).2
  | OpDisconnect operation_id profile_id expected session =>
      (disconnect_profile_exact operation_id profile_id expected session s).2
  | OpAcquire operation_id profile_id expected =>
      (acquire_session_at env connect operation_id profile_id expected s).2
  | OpFinish lease operation_id outcome => (finish_resource_operation lease operation_id outcome s).2
  | OpCheck lease operation_id ping => (finish_check lease operation_id ping s).2
  | OpShutdown => shutdown_runtime s
  end.

Section operations.
Context (env : Env) {laws : EnvLaws env}.
Context (connect : ConnectionProfile -> option SessionSecret -> result DriverError SessionHandle).

Lemma runs_evict_lease lease s : runs s (evict_session_lease lease s).2.
Proof using Type. apply runs_evict. Qed.

Lemma runs_finish_operation {T} lease operation_id (outcome : result DriverError T) :
  Respects runs (finish_resource_operation lease operation_id outcome).
Proof using Type.
  intros s. unfold finish_resource_operation, observe_session, ensure_session_observation.
  cbn. destruct (_ || _); [apply runs_evict_lease|reflexivity].
Qed.

Lemma runs_finish_check lease operation_id ping : Respects runs (finish_check lease operation_id ping).
Proof using Type.
  intros s. unfold finish_check, observe_session, ensure_session_observation.
  cbn. destruct (_ || _); [apply runs_evict_lease|reflexivity].
Qed.

(** The checks before [session_for] read only. *)
Lemma acquire_checked_reads operation_id profile_id expected s :
  (acquire_checked env operation_id profile_id expected s).2 = s.
Proof using Type.
  unfold acquire_checked, ensure_config_certain, profile_with_generation, sv_throw, sv_lift, mbind, Sv_bind.
  destruct (sv_uncertain s); cbn; [done|].
  repeat (case_match; cbn; simplify_eq; try done).
Qed.

Lemma session_for_runs profile generation operation_id sys :
  (forall p secret handle, connect p secret = Ok handle -> sy_connected sys !! handle = None) ->
  exists sys', rtc Step sys sys' /\
    sy_service sys' = (session_for env connect profile generation operation_id (sy_service sys)).2.
Proof using Type.
  intros Hfresh. unfold session_for, mbind, Sv_bind.
  pose proof (step_begin sys env profile generation operation_id) as Hbegin.
  destruct (session_begin env profile generation operation_id (sy_service sys)) as [[[lease|attempt]|e] s'] eqn:Hb.
  - eexists. split; [by apply rtc_once|done].
  - set (connected := connect (at_profile attempt) (at_secret attempt)).
    set (sys1 := begun sys _) in Hbegin.
    exists (ended sys1 attempt (sy_attempts sys) connected). split; [|done].
    eapply rtc_l; [exact Hbegin|]. apply rtc_once. apply step_end; [done|].
    destruct connected as [handle|] eqn:Hconn; [|done]. by eapply Hfresh.
  - eexists. split; [by apply rtc_once|done].
Qed.

Lemma acquire_runs operation_id profile_id expected sys :
  (forall p secret handle, connect p secret = Ok handle -> sy_connected sys !! handle = None) ->
  exists sys', rtc Step sys sys' /\
    sy_service sys' = (acquire_session_at env connect operation_id profile_id expected (sy_service sys)).2.
Proof using Type.
  intros Hfresh. unfold acquire_session_at, mbind, Sv_bind.
  pose proof (acquire_checked_reads operation_id profile_id expected (sy_service sys)) as Hreads.
  destruct (acquire_checked _ _ _ _ _) as [[[profile generation]|e] s']; cbn in Hreads; subst s'.
  - by apply session_for_runs.
  - by exists sys.
Qed.

Lemma runs_perform operation :
  match operation with OpAcquire _ _ _ => False | _ => True end ->
  forall s, runs s (perform env connect operation s).
Proof using laws.
  intros Hop s. destruct operation; cbn [perform]; try done.
  - assert (Respects runs (reload_configuration_with_outcome env)) as H; [|apply H].
    unfold reload_configuration_with_outcome.
    respects_by ltac:(first [apply runs_reload; assumption | apply runs_cleanup]).
  - apply (respects_finish runs); [by apply runs_create|apply runs_cleanup].
  - apply (respects_finish runs); [by apply runs_update|apply runs_cleanup].
  - apply (respects_finish runs); [by apply runs_delete|apply runs_cleanup].
  - assert (Respects runs (store_session_credential_exact operation_id profile_id expected secret)) as H; [|apply H].
    unfold store_session_credential_exact. runs.
  - assert (Respects runs (disconnect_profile_exact operation_id profile_id expected session)) as H; [|apply H].
    unfold disconnect_profile_exact. runs.
  - apply runs_finish_operation.
  - apply runs_finish_check.
  - apply runs_shutdown.
Qed.

(** Every operation of the service, errors included, is a run of the atomic
    steps: what is proved of all runs, and of any interleaving of them, holds of
    the operations as they are written.  Connecting returns handles not seen before. *)
Theorem operations_are_runs operation sys :
  (forall profile secret handle, connect profile secret = Ok handle -> sy_connected sys !! handle = None) ->
  exists sys', rtc Step sys sys' /\ sy_service sys' = perform env connect operation (sy_service sys).
Proof using laws.
  intros Hfresh. destruct operation eqn:Hop; try (by apply acquire_runs); rewrite <- Hop;
    (eexists; split; [apply (runs_perform operation); [by rewrite Hop|done]|done]).
Qed.
End operations.

Lemma operations_are_runs_witness :
  exists sys', rtc Step (initial sample_loaded sample_store) sys' /\
    sy_service sys' = perform sample_env (fun _ _ => Ok 42%N) (OpAcquire 7 (lit "p") 1) sample_service /\
    is_Some (sv_sessions (sy_service sys') !! lit "p").
Proof.
  destruct (operations_are_runs sample_env (fun _ _ => Ok 42%N) (OpAcquire 7 (lit "p") 1)
    (initial sample_loaded sample_store)) as (sys' & H1 & H2); [intros; reflexivity|].
  exists sys'. split; [exact H1|]. split; [exact H2|]. rewrite H2. eexists. vm_compute. reflexivity.
Defined.
