(* ===== verification/ServiceTheorems.v ===== *)
(** * Theorems of the application service (src/src/service.rs)

    Properties of the runs of [ServiceSystem.Step] from the start of the program:
    what a generation, a lease and an eviction mean however the operations
    interleave, and the proof that the operations of the service are such runs. *)

From S2P Require Import Prelude RustStr Model Execution Retention Secrets Profile Config ConfigWriter.
From S2P Require Import ConfigSafety Drivers WriterTheorems Service ServiceLogic ServiceSafety ServiceSystem.
From S2P Require Import ServiceWriter.

(** The longest run considered: more than four thousand million critical
    sections, fewer than exhaust the 64-bit counters. *)
Definition MAX_STEPS : N := 4294967296.

(** ** The start of the program *)

Lemma initial_generations_spec l next m m' next' :
  (next + N.of_nat (length l) <= U64_MAX)%N -> initial_generations l next m = (m', next') ->
  next' = (next + N.of_nat (length l))%N /\
  (forall id g, m' !! id = Some g -> m !! id = Some g \/ (id ∈ (p_id <$> l) /\ (g < next')%N)) /\
  (forall id, is_Some (m !! id) \/ id ∈ (p_id <$> l) -> is_Some (m' !! id)).
Proof.
  revert next m. induction l as [|p l IH]; intros next m Hroom; cbn [initial_generations length].
  - intros [= -> ->]. split_and!; [cbn; lia|auto|]. intros id [?|Hid]; [done|]. set_solver.
  - cbn [length] in Hroom. intros H. apply IH in H as (-> & Hin & Hall); [|lia].
    split_and!; [lia| |].
    + intros id g Hg. destruct (Hin id g Hg) as [Hm|[Hid Hlt]]; [|right; split; [set_solver|lia]].
      apply lookup_insert_Some in Hm as [[<- <-]|[_ Hm]]; [right; split; [set_solver|lia]|by left].
    + intros id Hid. apply Hall. destruct (decide (id = p_id p)) as [->|Hne].
      * left. rewrite lookup_insert_eq. eauto.
      * rewrite lookup_insert_ne by done. set_solver.
Qed.

Lemma initial_ok loaded secrets :
  bounded_config (lc_config loaded) ->
  System_ok (initial loaded secrets) /\
  (sv_next_generation (sy_service (initial loaded secrets)) <= MAX_PROFILES + 1)%N /\
  sv_next_session_generation (sy_service (initial loaded secrets)) = 1%N.
Proof.
  intros [Hid%validate_identity_spec Hlen]. unfold initial, from_validated_loaded.
  destruct (initial_generations _ _ _) as [m next] eqn:E.
  apply initial_generations_spec in E as (-> & Hin & Hall); [|unfold MAX_PROFILES, U64_MAX in *; lia].
  split_and!; [split; cbn|cbn; lia|done].
  - split; unfold profiles, generations; cbn; [done|done| |].
    + intros id. split; [|auto]. intros [g Hg]. destruct (Hin id g Hg) as [Hm|[? _]]; [|done].
      by rewrite lookup_empty in Hm.
    + intros id g Hg. destruct (Hin id g Hg) as [Hm|[_ ?]]; [by rewrite lookup_empty in Hm|done].
  - split; [apply map_Forall_empty|reflexivity].
  - split; constructor.
Qed.

(** ** Runs *)

Lemma advance_refl s : coherent s -> advance s s.
Proof. intros Hc. by apply advance_same. Qed.

Lemma run_evolves n sys sys' :
  nsteps Step n sys sys' -> System_ok sys ->
  (sv_next_generation (sy_service sys) + N.of_nat n * (2 * MAX_PROFILES) <= U64_MAX)%N ->
  (sv_next_session_generation (sy_service sys) + N.of_nat n <= U64_MAX)%N ->
  System_ok sys' /\ advance (sy_service sys) (sy_service sys') /\ sy_connected sys ⊆ sy_connected sys' /\
  (sv_next_generation (sy_service sys')
   <= sv_next_generation (sy_service sys) + N.of_nat n * (2 * MAX_PROFILES))%N /\
  (sv_next_session_generation (sy_service sys')
   <= sv_next_session_generation (sy_service sys) + N.of_nat n)%N.
Proof.
  induction 1 as [sys|n sys sys1 sys2 Hstep _ IH]; intros Hok H1 H2.
  - split_and!; [done|apply advance_refl, Hok|done|lia|lia].
  - rewrite Nat2N.inj_succ in H1, H2.
    destruct (Step_evolves _ _ Hok ltac:(split; unfold MAX_PROFILES in *; lia) Hstep) as [Hok1 Ha1 Hn1 Hs1 Hc1].
    destruct IH as (Hok2 & Ha2 & Hc2 & Hn2 & Hs2); [done|lia|lia|].
    rewrite Nat2N.inj_succ.
    split_and!; [done|by eapply advance_trans|by etrans|lia|lia].
Qed.

(** A run from the start of the program on an identified configuration. *)
Definition Reached (loaded : LoadedConfig) (secrets : SessionSecretStore) (n : nat) (sys : System) : Prop :=
  bounded_config (lc_config loaded) /\ nsteps Step n (initial loaded secrets) sys.

Lemma reached_ok loaded secrets n sys :
  Reached loaded secrets n sys -> (N.of_nat n <= MAX_STEPS)%N ->
  System_ok sys /\
  (sv_next_generation (sy_service sys) <= MAX_PROFILES + 1 + N.of_nat n * (2 * MAX_PROFILES))%N /\
  (sv_next_session_generation (sy_service sys) <= 1 + N.of_nat n)%N.
Proof.
  intros [Hb Hrun] Hn. destruct (initial_ok loaded secrets Hb) as (Hok & Hg & Hs).
  unfold MAX_STEPS, MAX_PROFILES, U64_MAX in *.
  destruct (run_evolves _ _ _ Hrun Hok) as (Hok' & _ & _ & Hg' & Hs'); unfold MAX_PROFILES, U64_MAX in *; [lia|lia|].
  split_and!; [done|lia|lia].
Qed.

(** From a reached state on: the same, and everything evolves. *)
Lemma reached_evolves loaded secrets n1 n2 sys1 sys2 :
  Reached loaded secrets n1 sys1 -> nsteps Step n2 sys1 sys2 -> (N.of_nat (n1 + n2) <= MAX_STEPS)%N ->
  System_ok sys1 /\ System_ok sys2 /\ advance (sy_service sys1) (sy_service sys2) /\
  sy_connected sys1 ⊆ sy_connected sys2.
Proof.
  intros Hr Hrun Hn. destruct (reached_ok _ _ _ _ Hr ltac:(lia)) as (Hok & Hg & Hs).
  unfold MAX_STEPS, MAX_PROFILES, U64_MAX in *.
  destruct (run_evolves _ _ _ Hrun Hok) as (Hok' & Ha & Hc & _); unfold MAX_PROFILES, U64_MAX in *; [lia|lia|done].
Qed.

(** ** Invariants *)

(** C8: after any interleaving of the service's critical sections, every handle
    that was ever connected is in exactly one place: cached for the one profile
    it was connected for, or closed, once. *)
Theorem handles_accounted loaded secrets n sys :
  Reached loaded secrets n sys -> (N.of_nat n <= MAX_STEPS)%N ->
  let s := sy_service sys in
  NoDup (cached_handles s ++ sv_closed s) /\
  (forall handle, is_Some (sy_connected sys !! handle) <-> handle ∈ cached_handles s ++ sv_closed s) /\
  (forall profile_id cached, sv_sessions s !! profile_id = Some cached ->
     exists attempt, sy_connected sys !! cs_handle cached = Some attempt /\
       p_id (at_profile attempt) = profile_id /\ fingerprint_of (at_profile attempt) = cs_fingerprint cached).
Proof.
  intros Hr Hn s. destruct (reached_ok _ _ _ _ Hr Hn) as ([_ [Hc Ha] _] & _). split_and!.
  - unfold s. rewrite Ha. apply NoDup_fst_map_to_list.
  - intros handle. unfold s. rewrite Ha, list_elem_of_fmap. split.
    + intros [a Hh]. exists (handle, a). split; [done|]. by apply elem_of_map_to_list.
    + intros ([h a] & -> & Hin). apply elem_of_map_to_list in Hin. eauto.
  - intros id cached Hid. destruct (Hc _ _ Hid) as (a & ? & ? & ? & ?). by exists a.
Qed.

(** C9: a generation is never reused: a profile that has the same generation at
    two points of a run is the same at both, whatever happened in between. *)
Theorem generations_not_reused loaded secrets n1 n2 sys1 sys2 profile_id generation :
  Reached loaded secrets n1 sys1 -> nsteps Step n2 sys1 sys2 -> (N.of_nat (n1 + n2) <= MAX_STEPS)%N ->
  generations (sy_service sys1) !! profile_id = Some generation ->
  generations (sy_service sys2) !! profile_id = Some generation ->
  exists profile, find_profile (profiles (sy_service sys1)) profile_id = Some profile /\
    find_profile (profiles (sy_service sys2)) profile_id = Some profile.
Proof.
  intros Hr Hrun Hn H1 H2. destruct (reached_evolves _ _ _ _ _ _ Hr Hrun Hn) as ([Hc _ _] & _ & Ha & _).
  destruct (adv_kept _ _ Ha _ _ H2) as [Hge|[_ ->]].
  - pose proof (coh_fresh _ Hc _ _ H1). lia.
  - destruct (find_profile (profiles (sy_service sys1)) profile_id) as [p|] eqn:Hf; [by exists p|].
    apply find_profile_None in Hf. exfalso. apply Hf, (coh_generations _ Hc). eauto.
Qed.

(** ** Leases *)

(** A step that hands [lease] out: [session_for] finds a cached session, or
    installs the one it connected. *)
Inductive Leases (sys : System) (lease : SessionLease) : System -> Prop :=
| lease_found env profile generation operation_id :
    (session_begin env profile generation operation_id (sy_service sys)).1 = Ok (inl lease) ->
    Leases sys lease (begun sys (session_begin env profile generation operation_id (sy_service sys)))
| lease_installed attempt rest handle :
    sy_attempts sys ≡ₚ attempt :: rest -> sy_connected sys !! handle = None ->
    (session_install attempt (Ok handle) (sy_service sys)).1 = Ok lease ->
    Leases sys lease (ended sys attempt rest (Ok handle)).

Lemma leases_step sys lease sys' : Leases sys lease sys' -> Step sys sys'.
Proof. destruct 1; by constructor. Qed.

Lemma leases_spec sys lease sys' :
  System_ok sys -> Leases sys lease sys' ->
  lease_ok (sy_connected sys') lease /\ lease_current (sy_service sys') lease /\
  lease_cached (sy_service sys') lease.
Proof.
  intros [_ Hs _]. destruct 1 as [env profile generation op Hr|attempt rest handle _ Hnone Hr].
  - pose proof (session_begin_spec env profile generation op (sy_service sys)) as Hspec.
    destruct (session_begin _ _ _ _ _) as [r s']. cbn in Hr. subst r.
    destruct Hspec as (-> & Hu & Hcur & cached & Hid & Hfp & Hg & ->). cbn.
    apply is_current_spec in Hcur as [Hgen Hin]. split_and!.
    + by apply (cached_lease_ok _ (sy_service sys) (p_id profile)).
    + unfold lease_current. cbn. by rewrite Hg.
    + by exists cached.
  - pose proof (session_install_spec _ _ attempt handle Hnone Hs) as Hspec. unfold ended.
    destruct (session_install _ _ _) as [r s']. cbn in Hr |- *. subst r. by apply Hspec.
Qed.

Lemma lease_ok_grow connected connected' lease :
  connected ⊆ connected' -> lease_ok connected lease -> lease_ok connected' lease.
Proof. intros Hsub [Hid (a & Ha & H)]. split; [done|]. exists a. split; [|done]. by eapply lookup_weaken. Qed.

Lemma observe_session_spec lease operation_id s :
  let '(r, s') := observe_session lease operation_id s in
  s' = s /\
  (r = Ok tt <-> sv_uncertain s = false /\
     generations s !! sl_profile_id lease = Some (ci_profile_generation (sl_identity lease))).
Proof.
  unfold observe_session, ensure_session_observation. split; [done|].
  destruct (sv_uncertain s); [split; [done|by intros []]|]. unfold reject_if.
  case_bool_decide; cbn; split; [done|done|done|by intros []].
Qed.

(** The profile of a lease that is observed as current, later in the run. *)
Lemma lease_profile sys1 sys2 lease :
  System_ok sys1 -> advance (sy_service sys1) (sy_service sys2) ->
  sl_profile_id lease = p_id (sl_profile lease) -> lease_current (sy_service sys1) lease ->
  generations (sy_service sys2) !! sl_profile_id lease = Some (ci_profile_generation (sl_identity lease)) ->
  find_profile (profiles (sy_service sys2)) (sl_profile_id lease) = Some (sl_profile lease).
Proof.
  intros [Hc _ _] Ha Hid (_ & Hg1 & Hin) Hg2.
  destruct (adv_kept _ _ Ha _ _ Hg2) as [Hge|[_ ->]].
  - pose proof (coh_fresh _ Hc _ _ Hg1). lia.
  - rewrite Hid. apply find_profile_elem; [apply Hc|done].
Qed.

(** C7: the result of an operation is only reported when nothing has changed since
    its lease was taken: the configuration is certain, the profile is the one the
    lease was taken for, and the session is one that was connected for it, at the
    same address and as the same user. *)
Theorem lease_reaches_profile {T} loaded secrets n1 n2 sys0 sys1 sys2 lease operation_id
    (outcome : result DriverError T) value :
  Reached loaded secrets n1 sys0 -> Leases sys0 lease sys1 -> nsteps Step n2 sys1 sys2 ->
  (N.of_nat (n1 + S n2) <= MAX_STEPS)%N ->
  (finish_resource_operation lease operation_id outcome (sy_service sys2)).1 = Ok value ->
  outcome = Ok value /\ sv_uncertain (sy_service sys2) = false /\
  find_profile (profiles (sy_service sys2)) (sl_profile_id lease) = Some (sl_profile lease) /\
  exists attempt, sy_connected sys2 !! sl_handle lease = Some attempt /\
    p_id (at_profile attempt) = sl_profile_id lease /\
    fingerprint_of (at_profile attempt) = fingerprint_of (sl_profile lease).
Proof.
  intros Hr Hl Hrun Hn Hfin. pose proof (leases_step _ _ _ Hl) as Hstep.
  assert (Reached loaded secrets (n1 + 1) sys1) as Hr1.
  { destruct Hr as [Hb Hr]. split; [done|]. eapply nsteps_trans; [done|]. by apply nsteps_once. }
  destruct (reached_ok _ _ _ _ Hr ltac:(lia)) as (Hok0 & _).
  destruct (reached_evolves _ _ _ _ _ _ Hr1 Hrun ltac:(lia)) as (Hok1 & _ & Ha & Hsub).
  destruct (leases_spec _ _ _ Hok0 Hl) as (Hlok & Hcur & _).
  revert Hfin. unfold finish_resource_operation.
  pose proof (observe_session_spec lease operation_id (sy_service sys2)) as Hobs.
  destruct (observe_session lease operation_id (sy_service sys2)) as [[[]|e] s']; [|done].
  destruct Hobs as [_ Hobs]. apply proj1 in Hobs. destruct (Hobs eq_refl) as [Hu Hg]. cbn.
  destruct outcome as [v|e]; [|done]. intros [= ->].
  destruct (lease_ok_grow _ _ _ Hsub Hlok) as [Hid (a & Ha1 & Hp & Hf & _)].
  split_and!; [done|done|by eapply lease_profile|by exists a].
Qed.

(** Releasing a lease, however stale, closes the session of that lease or
    nothing: a session opened later for the same profile is never touched. *)
Theorem lease_eviction_exact loaded secrets n1 n2 sys0 sys1 sys2 lease :
  Reached loaded secrets n1 sys0 -> Leases sys0 lease sys1 -> nsteps Step n2 sys1 sys2 ->
  (N.of_nat (n1 + S n2) <= MAX_STEPS)%N ->
  let '(evicted, s) := evict_session_lease lease (sy_service sys2) in
  if evicted : bool then
    sv_closed s = sl_handle lease :: sv_closed (sy_service sys2) /\
    sv_sessions s = delete (sl_profile_id lease) (sv_sessions (sy_service sys2))
  else s = sy_service sys2.
Proof.
  intros Hr Hl Hrun Hn. pose proof (leases_step _ _ _ Hl) as Hstep.
  assert (Reached loaded secrets (n1 + 1) sys1) as Hr1.
  { destruct Hr as [Hb Hr]. split; [done|]. eapply nsteps_trans; [done|]. by apply nsteps_once. }
  destruct (reached_ok _ _ _ _ Hr ltac:(lia)) as (Hok0 & _).
  destruct (reached_evolves _ _ _ _ _ _ Hr1 Hrun ltac:(lia)) as (_ & [_ [Hc _] [Hd _]] & _ & Hsub).
  destruct (leases_spec _ _ _ Hok0 Hl) as (Hlok & _ & _).
  destruct (lease_ok_grow _ _ _ Hsub Hlok) as [_ (a & Ha1 & _ & _ & Hs)].
  unfold evict_session_lease, evict_cached_session_exact, take_cached_session_exact.
  destruct (sv_sessions (sy_service sys2) !! sl_profile_id lease) as [cached|] eqn:Hid; [|done].
  destruct (_ && _) eqn:Hmatch; [|done]. apply andb_true_iff in Hmatch as [_ Hsg%N.eqb_eq]. cbn.
  split; [|done]. f_equal. destruct (Hc _ _ Hid) as (b & Hb & _ & _ & Hsb).
  eapply issued_handle; [exact Hd|exact Hb|exact Ha1|congruence].
Qed.

(** ** The uncertain configuration *)

Lemma fresh_for_uncertain ids m s : sv_uncertain (fresh_for ids m s).2 = sv_uncertain s.
Proof. revert m s. induction ids as [|id ids IH]; intros m s; cbn; [done|by rewrite IH]. Qed.

Lemma enter_uncertain_flag env s : sv_uncertain (enter_config_uncertain_deferred env s).2 = true.
Proof.
  unfold enter_config_uncertain_deferred. set (s0 := set_uncertain s true).
  pose proof (fresh_for_uncertain (hash_order env _ (generations s0)).*1 (generations s0) s0) as Hf.
  by destruct (fresh_for _ _ _) as [m s1].
Qed.

Lemma reload_uncertain env outcome s s' :
  reload_configuration_for_runtime env s = (Ok outcome, s') ->
  sv_uncertain s' = rr_config_uncertain outcome /\
  (rr_config_uncertain outcome = false <->
     exists loaded, run_load env = Some (Ok loaded) /\ validate_config_identity (lc_config loaded) = Ok tt).
Proof.
  unfold reload_configuration_for_runtime, acquire_lane, sv_step, sv_get, mbind, Sv_bind, mret, Sv_ret.
  destruct (sv_lane_closed s); cbn; [done|].
  pose proof (enter_uncertain_flag env s) as Hf.
  destruct (run_load env) as [[loaded|e]|] eqn:Hload.
  - destruct (validate_config_identity (lc_config loaded)) as [[]|] eqn:Hid; cbn [is_ok].
    + destruct (replace_loaded_config env loaded s) as [c s1]. cbn. intros [= <- <-]. cbn.
      split; [done|]. split; [eauto|done].
    + destruct (enter_config_uncertain_deferred env s) as [c s1]. intros [= <- <-].
      split; [done|]. split; [done|]. intros (l & [= <-] & H). congruence.
  - destruct (enter_config_uncertain_deferred env s) as [c s1]. intros [= <- <-].
    split; [done|]. split; [done|]. by intros (l & H & _).
  - destruct (enter_config_uncertain_deferred env s) as [c s1]. intros [= <- <-].
    split; [done|]. split; [done|]. by intros (l & H & _).
Qed.

(** While the configuration is uncertain, no profile is created, changed or
    deleted, no credential is stored, no session is handed out and no result is
    reported: each fails at once with that error and leaves the service as it was;
    a reload ends the uncertainty exactly when the file loads and its profiles
    have valid, distinct identifiers. *)
Theorem uncertain_blocks env connect s :
  sv_uncertain s = true ->
  (forall request, create_profile env request s = (Err SeConfigUncertain, s)) /\
  (forall request, update_profile env request s = (Err SeConfigUncertain, s)) /\
  (forall request, delete_profile env request s = (Err SeConfigUncertain, s)) /\
  (forall operation_id profile_id generation secret,
     store_session_credential_exact operation_id profile_id generation secret s = (Err SeConfigUncertain, s)) /\
  (forall operation_id profile_id generation,
     acquire_session_at env connect operation_id profile_id generation s = (Err SeConfigUncertain, s)) /\
  (forall profile generation operation_id,
     session_for env connect profile generation operation_id s = (Err SeConfigUncertain, s)) /\
  (forall T lease operation_id (outcome : result DriverError T),
     (finish_resource_operation lease operation_id outcome s).1 = Err SeConfigUncertain) /\
  (forall outcome s', reload_configuration_for_runtime env s = (Ok outcome, s') ->
     (sv_uncertain s' = false <->
        exists loaded, run_load env = Some (Ok loaded) /\ validate_config_identity (lc_config loaded) = Ok tt)).
Proof.
  intros Hu.
  assert (ensure_config_certain s = (Err SeConfigUncertain, s)) as He
    by (unfold ensure_config_certain; by rewrite Hu).
  split_and!; intros.
  - unfold create_profile, finish_mutation, create_profile_inner, lifted, sv_map_err, mbind, Sv_bind. by rewrite He.
  - unfold update_profile, finish_mutation, update_profile_inner, lifted, sv_map_err, mbind, Sv_bind. by rewrite He.
  - unfold delete_profile, finish_mutation, delete_profile_inner, lifted, sv_map_err, mbind, Sv_bind. by rewrite He.
  - unfold store_session_credential_exact, mbind, Sv_bind. by rewrite He.
  - unfold acquire_session_at, acquire_checked, mbind, Sv_bind. by rewrite He.
  - unfold session_for, session_begin, mbind, Sv_bind. by rewrite He.
  - unfold finish_resource_operation, observe_session, ensure_session_observation. rewrite Hu. done.
  - destruct (reload_uncertain _ _ _ _ H) as [-> Hr]. exact Hr.
Qed.

(** ** A concrete run: a session is connected, then the profile is adopted again *)

Definition run_start : System := initial sample_loaded sample_store.
Definition run_begun : System := begun run_start (session_begin sample_env sample_profile 1 7 (sy_service run_start)).
Definition run_attempt : ConnectAttempt :=
  {| at_profile := sample_profile; at_generation := 1; at_operation_id := 7; at_session_generation := 1;
     at_secret := None |}.
Definition run_ended : System := ended run_begun run_attempt [] (Ok 42%N).
Definition run_lease : SessionLease :=
  lease_of sample_profile {| ci_profile_generation := 1; ci_session_generation := 1;
                             ci_fingerprint := fingerprint_of sample_profile |} 42.
Definition run_reloaded : System :=
  with_service run_ended (replace_loaded_config sample_env sample_loaded (sy_service run_ended)).2.

Lemma sample_bounded : bounded_config (lc_config sample_loaded).
Proof. split; [vm_compute; reflexivity|vm_compute; discriminate]. Qed.

Lemma run_start_reached : Reached sample_loaded sample_store 0 run_start.
Proof. split; [apply sample_bounded|constructor]. Qed.

Lemma run_begun_reached : Reached sample_loaded sample_store 1 run_begun.
Proof. split; [apply sample_bounded|]. apply nsteps_once, step_begin. Qed.

Lemma run_ended_leases : Leases run_begun run_lease run_ended.
Proof.
  apply lease_installed; [|vm_compute; reflexivity|vm_compute; reflexivity].
  replace (sy_attempts run_begun) with [run_attempt]; [reflexivity|]. vm_compute. reflexivity.
Qed.

Lemma run_ended_reached : Reached sample_loaded sample_store 2 run_ended.
Proof.
  split; [apply sample_bounded|]. apply (nsteps_l _ _ _ run_begun); [apply step_begin|].
  apply nsteps_once. apply (leases_step _ run_lease), run_ended_leases.
Qed.

Lemma run_reloads : nsteps Step 1 run_ended run_reloaded.
Proof. apply nsteps_once, step_reload; [apply _|apply sample_bounded]. Qed.

Lemma handles_accounted_witness :
  is_Some (sy_connected run_ended !! 42%N) /\
  NoDup (cached_handles (sy_service run_ended) ++ sv_closed (sy_service run_ended)).
Proof.
  split; [eexists; vm_compute; reflexivity|].
  exact (proj1 (handles_accounted sample_loaded sample_store 2 run_ended run_ended_reached
    ltac:(vm_compute; discriminate))).
Defined.

Lemma generations_not_reused_witness :
  find_profile (profiles (sy_service run_reloaded)) (lit "p") = Some sample_profile.
Proof.
  destruct (generations_not_reused sample_loaded sample_store 2 1 run_ended run_reloaded (lit "p") 1%N
    run_ended_reached run_reloads ltac:(vm_compute; discriminate) ltac:(vm_compute; reflexivity)
    ltac:(vm_compute; reflexivity)) as (p & H1 & H2).
  rewrite H2. f_equal. vm_compute in H1. injection H1 as <-. reflexivity.
Defined.

Lemma lease_reaches_profile_witness :
  exists attempt, sy_connected run_reloaded !! 42%N = Some attempt /\
    fingerprint_of (at_profile attempt) = fingerprint_of sample_profile.
Proof.
  destruct (lease_reaches_profile sample_loaded sample_store 1 1 run_begun run_ended run_reloaded run_lease 7%N
    (Ok 5) 5 run_begun_reached run_ended_leases run_reloads ltac:(vm_compute; discriminate)
    ltac:(vm_compute; reflexivity)) as (_ & _ & _ & attempt & H1 & _ & H2).
  exists attempt. split; [exact H1|exact H2].
Defined.

Lemma lease_eviction_exact_witness :
  sv_closed (evict_session_lease run_lease (sy_service run_reloaded)).2 = [42%N].
Proof.
  pose proof (lease_eviction_exact sample_loaded sample_store 1 1 run_begun run_ended run_reloaded run_lease
    run_begun_reached run_ended_leases run_reloads ltac:(vm_compute; discriminate)) as H.
  assert ((evict_session_lease run_lease (sy_service run_reloaded)).1 = true) as Hev by (vm_compute; reflexivity).
  destruct (evict_session_lease run_lease (sy_service run_reloaded)) as [evicted s].
  cbn in Hev. rewrite Hev in H. destruct H as [H _]. cbn [snd]. rewrite H. vm_compute. reflexivity.
Defined.

Lemma uncertain_blocks_witness :
  acquire_session_at sample_env (fun _ _ => Ok 1%N) 7 (lit "p") 1
    (enter_config_uncertain_deferred sample_env sample_service).2
  = (Err SeConfigUncertain, (enter_config_uncertain_deferred sample_env sample_service).2).
Proof.
  exact (proj1 (proj2 (proj2 (proj2 (proj2 (uncertain_blocks sample_env (fun _ _ => Ok 1%N)
    (enter_config_uncertain_deferred sample_env sample_service).2 ltac:(vm_compute; reflexivity)))))) 7%N (lit "p") 1%N).
Defined.
