(* ===== verification/ServiceEffects.v ===== *)
(** * What a successful mutation does (src/src/service.rs)

    The effect of [update_profile], [delete_profile] and [create_profile] when they
    return: the observed profile and its generation, the stored credential and the
    session that may still be used. *)

From S2P Require Import Prelude RustStr Model Execution Retention Secrets Profile Config ConfigWriter.
From S2P Require Import ConfigSafety Drivers Service ServiceLogic ServiceSafety ServiceWriter.

(** ** Inversion of the monad *)

Lemma sv_bind_Ok {E A B} (m : Sv E A) (f : A -> Sv E B) s b s' :
  (m ≫= f) s = (Ok b, s') -> exists a s1, m s = (Ok a, s1) /\ f a s1 = (Ok b, s').
Proof. unfold mbind, Sv_bind. destruct (m s) as [[a|e] s1]; [by eauto|done]. Qed.

Lemma sv_map_err_Ok {E F A} (g : E -> F) (m : Sv E A) s a s' :
  sv_map_err g m s = (Ok a, s') -> m s = (Ok a, s').
Proof. unfold sv_map_err. destruct (m s) as [[b|e] s1]; cbn; congruence. Qed.

Lemma sv_lift_Ok {E A} (r : result E A) s a s' : sv_lift r s = (Ok a, s') -> r = Ok a /\ s' = s.
Proof. unfold sv_lift. by intros [= -> ->]. Qed.

Lemma sv_step_Ok {E A} (f : Service -> A * Service) s a s' :
  (sv_step f : Sv E A) s = (Ok a, s') -> f s = (a, s').
Proof. unfold sv_step. destruct (f s). by intros [= -> ->]. Qed.

Lemma sv_ret_Ok {E A} (a b : A) s s' : (mret a : Sv E A) s = (Ok b, s') -> a = b /\ s = s'.
Proof. by intros [= -> ->]. Qed.

Lemma finish_mutation_Ok {A B} (outcome_of : A -> B) (m : Sv RuntimeMutationFailure A) s b s' :
  finish_mutation outcome_of m s = (Ok b, s') -> exists a, m s = (Ok a, s') /\ b = outcome_of a.
Proof.
  unfold finish_mutation. destruct (m s) as [[a|failure] s1]; [by intros [= <- <-]; eauto|].
  intros (u & s2 & _ & H)%sv_bind_Ok. done.
Qed.

(** Splits a successful composition into its successful parts. *)
Ltac sv_inv :=
  repeat match goal with
  | H : lifted _ _ = (Ok _, _) |- _ => unfold lifted in H; apply sv_map_err_Ok in H
  | H : (_ ≫= _) _ = (Ok _, _) |- _ =>
      let a := fresh "a" in let s := fresh "s" in let H1 := fresh "H" in
      apply sv_bind_Ok in H as (a & s & H1 & H)
  | H : sv_map_err _ _ _ = (Ok _, _) |- _ => apply sv_map_err_Ok in H
  | H : sv_lift _ _ = (Ok _, _) |- _ => apply sv_lift_Ok in H as [H ->]
  | H : sv_step _ _ = (Ok _, _) |- _ => apply sv_step_Ok in H
  | H : mret _ _ = (Ok _, _) |- _ => apply sv_ret_Ok in H as [? ?]; subst
  end.

Lemma ensure_config_certain_Ok s u s' :
  ensure_config_certain s = (Ok u, s') -> s' = s /\ sv_uncertain s = false.
Proof. unfold ensure_config_certain, reject_if. by destruct (sv_uncertain s); intros [= <- <-]. Qed.

Lemma acquire_lane_Ok s u s' : acquire_lane s = (Ok u, s') -> s' = s.
Proof. unfold acquire_lane, reject_if. by destruct (sv_lane_closed s); intros [= <- <-]. Qed.

Lemma ensure_generation_Ok id generation operation_id s u s' :
  ensure_generation id generation operation_id s = (Ok u, s') ->
  s' = s /\ generations s !! id = Some generation.
Proof.
  unfold ensure_generation, reject_if. case_bool_decide; cbn; [|done]. by intros [= <- <-].
Qed.

Lemma profile_Ok id s p s' : profile id s = (Ok p, s') -> s' = s /\ find_profile (profiles s) id = Some p.
Proof. unfold profile, ok_or. destruct (find_profile _ _); by intros [= <- <-]. Qed.

Lemma has_current_session_secret_Ok id s b s' : has_current_session_secret id s = (Ok b, s') -> s' = s.
Proof. unfold has_current_session_secret. by intros [= _ <-]. Qed.

(** ** Deferred cleanup *)

Lemma on_secrets_Ok {A} (f : SessionSecretStore -> result SecretError A * SessionSecretStore) s a s' :
  on_secrets f s = (Ok a, s') -> exists secrets, f (sv_secrets s) = (Ok a, secrets) /\ s' = set_secrets s secrets.
Proof.
  unfold on_secrets. destruct (f (sv_secrets s)) as [[b|e] secrets]; cbn; [|done]. intros [= <- <-]. eauto.
Qed.

(** An update that succeeds changes the credential it names only. *)
Lemma apply_current store id update store' other :
  apply store id update = (Ok tt, store') ->
  current store' other =
    if decide (other = id) then
      match update with UpdateKeep => current store id | UpdateReplace secret => Some secret | UpdateClear => None end
    else current store other.
Proof.
  unfold apply, write_values, current. destruct update; [|destruct (ss_poisoned store); [done|]..];
    intros [= <-]; case_decide; subst; cbn; by simplify_map_eq.
Qed.

(** Everything but the sessions, or everything but the credentials, is as before. *)
Definition same_but_sessions (s s' : Service) : Prop :=
  sv_observed s' = sv_observed s /\ sv_secrets s' = sv_secrets s /\ sv_uncertain s' = sv_uncertain s.
Definition same_but_secrets (s s' : Service) : Prop :=
  sv_observed s' = sv_observed s /\ sv_sessions s' = sv_sessions s /\ sv_uncertain s' = sv_uncertain s /\
  sv_closed s' = sv_closed s.

#[export] Instance same_but_sessions_preorder : PreOrder same_but_sessions.
Proof. split; [by split|]. intros ??? (?&?&?) (?&?&?). split_and!; etrans; eauto. Qed.
#[export] Instance same_but_secrets_preorder : PreOrder same_but_secrets.
Proof. split; [by split|]. intros ??? (?&?&?&?) (?&?&?&?). split_and!; etrans; eauto. Qed.

Lemma evict_exact_effect id pg sg s :
  let s' := (evict_cached_session_exact id pg sg s).2 in
  same_but_sessions s s' /\
  (forall other, sv_sessions s' !! other = sv_sessions s !! other \/
     (other = id /\ sv_sessions s' !! id = None)).
Proof.
  unfold evict_cached_session_exact, take_cached_session_exact.
  destruct (sv_sessions s !! id) as [cached|] eqn:Hid; [|split; [done|auto]].
  destruct (_ && _); [|split; [done|auto]]. cbn. split; [done|]. intros other.
  destruct (decide (other = id)) as [->|]; [right|left]; by simplify_map_eq.
Qed.

Lemma evict_target_effect target s :
  same_but_sessions s (evict_target target s) /\
  (forall id, (dt_profile_id target = id -> dt_session target = None) ->
     sv_sessions (evict_target target s) !! id = sv_sessions s !! id) /\
  (forall id, sv_sessions s !! id = None -> sv_sessions (evict_target target s) !! id = None).
Proof.
  unfold evict_target. destruct (dt_session target) as [identity|]; [|done].
  destruct (evict_exact_effect (dt_profile_id target) (ci_profile_generation identity)
    (ci_session_generation identity) s) as [Hs He].
  split_and!; [done|..]; intros id Hid; destruct (He id) as [Heq|[-> Hnone]]; try done.
  - by specialize (Hid eq_refl).
  - congruence.
Qed.

Lemma evict_targets_effect targets s :
  let s' := foldl (fun s target => evict_target target s) s targets in
  same_but_sessions s s' /\
  (forall id, (forall target, target ∈ targets -> dt_profile_id target = id -> dt_session target = None) ->
     sv_sessions s' !! id = sv_sessions s !! id) /\
  (forall id, sv_sessions s !! id = None -> sv_sessions s' !! id = None).
Proof.
  revert s. induction targets as [|target targets IH]; intros s; cbn; [done|].
  destruct (evict_target_effect target s) as (H1 & H2 & H3).
  destruct (IH (evict_target target s)) as (I1 & I2 & I3).
  split_and!; [by etrans| |auto].
  intros id Hall. rewrite I2, H2; [done|..]; intros; apply Hall; set_solver.
Qed.

(** A target that carries the session of its profile leaves none. *)
Lemma evict_targets_gone targets s target id :
  target ∈ targets -> dt_profile_id target = id -> dt_session target = identity <$> sv_sessions s !! id ->
  sv_sessions (foldl (fun s target => evict_target target s) s targets) !! id = None.
Proof.
  intros Hin Hid. revert s. induction targets as [|t targets IH]; intros s Hsession; [by apply elem_of_nil in Hin|].
  cbn. destruct (decide (sv_sessions (evict_target t s) !! id = None)) as [Hnone|Hsome].
  { by apply (evict_targets_effect targets (evict_target t s)). }
  apply elem_of_cons in Hin as [->|Hin].
  - exfalso. apply Hsome. unfold evict_target. rewrite Hsession, Hid.
    destruct (sv_sessions s !! id) as [cached|] eqn:Hc; cbn [fmap option_fmap option_map]; [|done].
    unfold evict_cached_session_exact, take_cached_session_exact. rewrite Hc. cbn. rewrite !N.eqb_refl. cbn.
    by rewrite lookup_delete_eq.
  - apply IH; [done|]. rewrite Hsession. f_equal. unfold evict_target in Hsome |- *.
    destruct (dt_session t) as [i|]; [|done].
    destruct (evict_exact_effect (dt_profile_id t) (ci_profile_generation i) (ci_session_generation i) s) as [_ He].
    destruct (He id) as [->|[Heq Hn]]; [done|]. exfalso. apply Hsome. by rewrite Heq.
Qed.

Definition stored (s : Service) (id : ProfileId) : option SessionSecret := current (sv_secrets s) id.

Lemma on_apply_Ok id update s u s' :
  on_secrets (fun store => apply store id update) s = (Ok u, s') ->
  same_but_secrets s s' /\
  forall other, stored s' other =
    if decide (other = id) then
      match update with UpdateKeep => stored s id | UpdateReplace secret => Some secret | UpdateClear => None end
    else stored s other.
Proof.
  intros (secrets & Ha & ->)%on_secrets_Ok. destruct u. split; [done|]. intros other.
  by apply (apply_current _ _ _ _ other) in Ha.
Qed.

Definition clear_target (target : DeferredCleanupTarget) : Sv ServiceError unit :=
  if dt_clear_secret target
  then on_secrets (fun store => apply store (dt_profile_id target) UpdateClear) else mret tt.

Lemma clear_targets_effect targets s u s' :
  sv_for_each clear_target targets s = (Ok u, s') ->
  same_but_secrets s s' /\
  (forall id, (forall target, target ∈ targets -> dt_profile_id target = id -> dt_clear_secret target = false) ->
     stored s' id = stored s id) /\
  (forall id, stored s id = None -> stored s' id = None).
Proof.
  revert s. induction targets as [|target targets IH]; intros s; cbn; [by intros [= _ <-]|].
  intros (v & s1 & H1 & H2)%sv_bind_Ok. apply IH in H2 as (Hs & Hkeep & Hnone).
  unfold clear_target in H1. destruct (dt_clear_secret target) eqn:Hc.
  - apply on_apply_Ok in H1 as [Hs1 H1]. split_and!; [by etrans|..]; intros id Hid.
    + rewrite Hkeep by (intros; apply Hid; set_solver). rewrite H1. case_decide as Heq; [|done].
      assert (dt_clear_secret target = false) by (apply Hid; [set_solver|done]). congruence.
    + apply Hnone. rewrite H1. by case_decide.
  - apply sv_ret_Ok in H1 as [_ <-]. split_and!; [done| |done].
    intros id Hid. apply Hkeep. intros; apply Hid; set_solver.
Qed.

Lemma retain_effect ids s u s' :
  on_secrets (fun store => retain_profiles store ids) s = (Ok u, s') ->
  same_but_secrets s s' /\ forall id, stored s' id = if decide (id ∈ ids) then stored s id else None.
Proof.
  intros (secrets & Ha & ->)%on_secrets_Ok. destruct u. split; [done|]. intros id.
  by apply (retain_profiles_lookup _ _ _ id) in Ha.
Qed.

(** What the cleanup of a mutation does: sessions of the targets go, credentials
    of the cleared targets and of removed profiles go, and the update is made. *)
Lemma cleanup_effect cleanup ids updates s u s' :
  apply_deferred_cleanup cleanup s = (Ok u, s') ->
  dc_clear_all_secrets cleanup = false -> dc_retain_secret_profiles cleanup = Some ids ->
  dc_secret_updates cleanup = updates -> length updates <= 1 ->
  sv_observed s' = sv_observed s /\ sv_uncertain s' = sv_uncertain s /\
  (forall id, (forall t, t ∈ dc_targets cleanup -> dt_profile_id t = id -> dt_session t = None) ->
     sv_sessions s' !! id = sv_sessions s !! id) /\
  (forall id t, t ∈ dc_targets cleanup -> dt_profile_id t = id ->
     dt_session t = identity <$> sv_sessions s !! id -> sv_sessions s' !! id = None) /\
  (forall id, id ∈ ids ->
     (forall t, t ∈ dc_targets cleanup -> dt_profile_id t = id -> dt_clear_secret t = false) ->
     forall update, updates = [(id, update)] ->
     stored s' id = match update with
                    | UpdateKeep => stored s id | UpdateReplace secret => Some secret | UpdateClear => None end) /\
  (forall id, id ∉ ids -> updates = [] -> stored s' id = None).
Proof.
  intros H Hall Hids Hups Hlen. unfold apply_deferred_cleanup in H.
  apply sv_bind_Ok in H as (u1 & s1 & H1 & H). apply sv_step_Ok in H1. injection H1 as _ <-.
  apply sv_bind_Ok in H as (u2 & s2 & H2 & H). rewrite Hall, Hids, Hups in H.
  apply sv_bind_Ok in H as (u3 & s3 & H3 & H).
  destruct (evict_targets_effect (dc_targets cleanup) s) as ((Ho & Hsec & Hu) & He1 & He2).
  set (s1 := foldl _ _ _) in *.
  apply clear_targets_effect in H2 as ((Ho2 & Hse2 & Hu2 & _) & Hk & _).
  apply retain_effect in H3 as ((Ho3 & Hse3 & Hu3 & _) & Hr).
  assert (same_but_secrets s3 s' /\ forall id, id ∈ ids -> forall update, updates = [(id, update)] ->
    stored s' id = match update with
                   | UpdateKeep => stored s3 id | UpdateReplace secret => Some secret | UpdateClear => None end)
    as ((Ho4 & Hse4 & Hu4 & _) & Hup).
  { destruct updates as [|[i update] [|]]; cbn in Hlen, H; [|clear Hlen|lia].
    - injection H as _ <-. by split.
    - apply sv_bind_Ok in H as (u4 & s4 & H4 & H). injection H as _ <-.
      apply on_apply_Ok in H4 as [Hs4 H4]. split; [done|]. intros id _ update' [= <- <-]. rewrite H4.
      by rewrite decide_True. }
  split_and!.
  - congruence.
  - congruence.
  - intros id Hid. rewrite Hse4, Hse3, Hse2. by apply He1.
  - intros id t Ht Hti Hts. rewrite Hse4, Hse3, Hse2. by eapply evict_targets_gone.
  - intros id Hid Hclear update Heq. rewrite (Hup id Hid update Heq). destruct update; [|done..].
    rewrite Hr, decide_True by done. rewrite Hk by done. unfold stored. by rewrite Hsec.
  - intros id Hid Heq. rewrite Heq in H. cbn in H. injection H as _ <-. rewrite Hr. by rewrite decide_False.
Qed.

(** ** Reconciliation *)

(** Another profile's entry leaves the fence alone and adds at most a target of its own. *)
Lemma reconcile_target_other identity next_profiles m previous_generations previous_sessions targets deferred
    id previous targets' deferred' :
  id <> mi_profile_id identity ->
  reconcile_target identity next_profiles m previous_generations previous_sessions
    (targets, deferred) (id, previous) = Ok (targets', deferred') ->
  deferred' = deferred /\
  (targets' = targets \/ exists t, targets' = targets ++ [t] /\ dt_profile_id t = id).
Proof.
  intros Hne. unfold reconcile_target. rewrite (bool_decide_false (id = mi_profile_id identity)) by done.
  destruct (_ && _); [intros [= <- <-]; auto|].
  intros (pg & _ & H)%result_bind_Ok. injection H as <- <-. split; [done|]. right. eexists. by split.
Qed.

(** The entry of the updated profile: the session is left out of the target and fenced. *)
Lemma reconcile_target_update id policy next_profiles m previous_generations previous_sessions targets deferred
    previous next targets' deferred' :
  next_profiles !! id = Some next ->
  reconcile_target (IdUpdate id policy) next_profiles m previous_generations previous_sessions
    (targets, deferred) (id, previous) = Ok (targets', deferred') ->
  (exists t, targets' = targets ++ [t] /\ dt_session t = None /\ dt_clear_secret t = false) /\
  deferred' = match previous_sessions !! id, m !! id with
              | Some previous, Some generation =>
                  Some {| df_profile_id := id; df_previous := previous; df_next_profile_generation := generation;
                          df_next_fingerprint := fingerprint_of next;
                          df_retag_eligible := match policy with Resolve b | Defer b => b end |}
              | _, _ => deferred
              end.
Proof.
  intros Hnext. unfold reconcile_target. cbn [mi_profile_id is_create is_delete deferred_retag_eligibility].
  rewrite (bool_decide_true (id = id)) by done. cbn [andb negb]. rewrite andb_false_r.
  intros (pg & _ & H)%result_bind_Ok. destruct policy; injection H as <- <-; rewrite Hnext;
    (split; [eexists; by split_and!|]); by destruct (previous_sessions !! id), (m !! id).
Qed.

Lemma reconcile_targets_update id policy next_profiles m previous_generations previous_sessions entries
    targets0 deferred0 targets deferred next :
  NoDup entries.*1 -> next_profiles !! id = Some next ->
  reconcile_targets (reconcile_target (IdUpdate id policy) next_profiles m previous_generations previous_sessions)
    (targets0, deferred0) entries = Ok (targets, deferred) ->
  (forall t, t ∈ targets -> t ∈ targets0 \/
     (dt_profile_id t = id -> dt_session t = None /\ dt_clear_secret t = false)) /\
  deferred =
    if decide (id ∈ entries.*1) then
      match previous_sessions !! id, m !! id with
      | Some previous, Some generation =>
          Some {| df_profile_id := id; df_previous := previous; df_next_profile_generation := generation;
                  df_next_fingerprint := fingerprint_of next;
                  df_retag_eligible := match policy with Resolve b | Defer b => b end |}
      | _, _ => deferred0
      end
    else deferred0.
Proof.
  intros Hnd Hnext. revert targets0 deferred0.
  induction entries as [|[i previous] entries IH]; intros targets0 deferred0; cbn [reconcile_targets].
  { intros [= <- <-]. split; [auto|]. by rewrite decide_False by set_solver. }
  apply NoDup_cons in Hnd as [Hno Hnd].
  intros ([targets1 deferred1] & Hstep & Hrest)%result_bind_Ok. specialize (IH Hnd _ _ Hrest) as [IH1 IH2].
  destruct (decide (i = id)) as [->|Hne].
  - eapply reconcile_target_update in Hstep as [(t0 & -> & Ht0) Hd]; [|exact Hnext].
    rewrite decide_False in IH2 by exact Hno. rewrite decide_True by set_solver. split; [|congruence].
    intros t Ht. destruct (IH1 t Ht) as [Hin|?]; [|auto]. apply elem_of_app in Hin as [?|?]; [auto|right].
    assert (t = t0) as -> by set_solver. done.
  - apply reconcile_target_other in Hstep as [-> Ht0]; [|done].
    assert (id ∈ ((i, previous) :: entries).*1 <-> id ∈ entries.*1) as Hiff by set_solver.
    rewrite (decide_ext _ _ _ _ Hiff). split; [|done].
    intros t Ht. destruct (IH1 t Ht) as [Hin|?]; [|auto]. destruct Ht0 as [->|(t0 & -> & Hid)]; [auto|].
    apply elem_of_app in Hin as [?|?]; [auto|right]. assert (t = t0) as -> by set_solver. congruence.
Qed.

(** The fence that an update leaves for the cached session of its profile. *)
Definition update_fence (id : ProfileId) (generation : ProfileGeneration) (next : ConnectionProfile) (retag : bool)
    (cached : CachedSession) : DeferredSessionFence :=
  {| df_profile_id := id; df_previous := identity cached; df_next_profile_generation := generation;
     df_next_fingerprint := fingerprint_of next; df_retag_eligible := retag |}.

Lemma resolve_effect id generation next retag cached s :
  sv_sessions s !! id = Some cached ->
  let s' := (resolve_deferred_session (update_fence id generation next retag cached) true s).2 in
  same_but_sessions s s' /\
  sv_sessions s' !! id =
    (if retag then
       if bool_decide (cs_fingerprint cached = fingerprint_of next)
       then Some {| cs_profile_generation := generation; cs_session_generation := cs_session_generation cached;
                    cs_fingerprint := cs_fingerprint cached; cs_handle := cs_handle cached |}
       else Some cached
     else None).
Proof.
  intros Hid. unfold resolve_deferred_session. cbn. destruct retag; cbn.
  - unfold retag_cached_session_exact. rewrite Hid, (bool_decide_true (identity cached = identity cached)) by done.
    cbn. case_bool_decide; cbn; [|done]. split; [done|]. by rewrite lookup_insert_eq.
  - unfold evict_cached_session_exact, take_cached_session_exact. rewrite Hid, !N.eqb_refl. cbn.
    split; [done|]. by rewrite lookup_delete_eq.
Qed.

(** The entry of a deleted profile carries its session and clears its credential. *)
Lemma reconcile_targets_delete id next_profiles m previous_generations previous_sessions entries previous
    targets0 deferred0 targets deferred :
  next_profiles !! id = None ->
  reconcile_targets (reconcile_target (IdDelete id) next_profiles m previous_generations previous_sessions)
    (targets0, deferred0) entries = Ok (targets, deferred) ->
  (forall t, t ∈ targets0 -> t ∈ targets) /\
  ((id, previous) ∈ entries ->
   exists t, t ∈ targets /\ dt_profile_id t = id /\ dt_session t = previous_sessions !! id).
Proof.
  intros Hnone. revert targets0 deferred0.
  induction entries as [|[i p] entries IH]; intros targets0 deferred0; cbn [reconcile_targets].
  { intros [= <- <-]. split; [done|]. by intros ?%elem_of_nil. }
  intros ([targets1 deferred1] & Hstep & Hrest)%result_bind_Ok. specialize (IH _ _ Hrest) as [IH1 IH2].
  destruct (decide (i = id)) as [->|Hne].
  - unfold reconcile_target in Hstep. cbn [mi_profile_id is_create is_delete deferred_retag_eligibility] in Hstep.
    rewrite (bool_decide_true (id = id)) in Hstep by done. cbn [andb negb] in Hstep. rewrite andb_false_r in Hstep.
    apply result_bind_Ok in Hstep as (pg & _ & H). injection H as <- _. split; [set_solver|].
    intros _. eexists. split; [apply IH1, elem_of_app; right; by apply list_elem_of_singleton|done].
  - apply reconcile_target_other in Hstep as [_ Ht]; [|done]. split.
    + destruct Ht as [->|(t & -> & _)]; set_solver.
    + intros [[= <- _]|Hin]%elem_of_cons; [done|by apply IH2].
Qed.

Section effects.
Context (env : Env) {laws : EnvLaws env}.

Lemma reconcile_update_effect config id policy s r s' next previous :
  coherent s -> validate_config_identity config = Ok tt ->
  (N.of_nat (length (cfg_profiles config)) <= MAX_PROFILES)%N ->
  (sv_next_generation s + 2 * MAX_PROFILES <= U64_MAX)%N ->
  find_profile (profiles s) id = Some previous -> find_profile (cfg_profiles config) id = Some next ->
  reconcile_after_mutation env config (IdUpdate id policy) s = (Ok r, s') ->
  dc_clear_all_secrets (rm_cleanup r) = false /\ dc_secret_updates (rm_cleanup r) = [] /\
  (exists ids, dc_retain_secret_profiles (rm_cleanup r) = Some ids /\ id ∈ ids) /\
  (forall t, t ∈ dc_targets (rm_cleanup r) -> dt_profile_id t = id ->
     dt_session t = None /\ dt_clear_secret t = false) /\
  rm_deferred_session r =
    update_fence id (rm_profile_generation r) next (match policy with Resolve b | Defer b => b end)
      <$> sv_sessions s !! id.
Proof using laws.
  intros Hc Hid Hlen Hroom Hprev Hnext.
  pose proof (reconcile_advances env config (IdUpdate id policy) s Hc Hid Hlen Hroom) as Hadv.
  intros H. rewrite H in Hadv. destruct Hadv as (_ & _ & _ & _ & Hg & _). cbn [is_delete mi_profile_id] in Hg.
  apply validate_identity_spec in Hid as [_ Hnd].
  revert H. unfold reconcile_after_mutation. set (keep := fun p => _).
  destruct (assign_generations keep _ _ _) as [m s1]. cbn [is_delete].
  destruct (reconcile_targets _ _ _) as [[targets deferred]|e] eqn:Ht; [|done].
  destruct (m !! mi_profile_id (IdUpdate id policy)) as [g|] eqn:Hm; [|done].
  intros [= <- <-]. cbn in Hg |- *. unfold generations in Hg. cbn in Hg, Hm.
  eapply reconcile_targets_update in Ht as [Htargets ->].
  - split_and!; [done|done| | |].
    + eexists. split; [done|]. apply elem_of_dom. exists next. by rewrite profiles_by_id_lookup.
    + intros t Ht Hti. destruct (Htargets t Ht) as [Hn|Hok]; [by apply elem_of_nil in Hn|by apply Hok].
    + rewrite decide_True.
      2: { apply hash_order_keys; [done|]. exists previous. rewrite profiles_by_id_lookup; [done|apply Hc]. }
      unfold session_identities. rewrite lookup_fmap, Hm. by destruct (sv_sessions s !! id).
  - rewrite (Permutation_map fst (el_order _ _)). apply NoDup_fst_map_to_list.
  - by rewrite profiles_by_id_lookup.
Qed.

Lemma write_config_or_Ok rename mutation consent s outcome s' :
  write_config_or env rename mutation consent s = (Ok outcome, s') ->
  s' = s /\ validate_config_identity (lc_config (om_loaded outcome)) = Ok tt /\
  (N.of_nat (length (cfg_profiles (lc_config (om_loaded outcome)))) <= MAX_PROFILES)%N.
Proof using laws.
  unfold write_config_or. intros H. apply sv_map_err_Ok in H. unfold write_config in H.
  apply sv_bind_Ok in H as (u1 & s1 & H1 & H). unfold lifted in H1.
  apply sv_map_err_Ok, sv_lift_Ok in H1 as [Hrun ->].
  apply sv_bind_Ok in H as (u2 & s2 & H2 & H). unfold lifted in H2. apply sv_map_err_Ok, sv_lift_Ok in H2 as [Hok ->].
  destruct (run_mutation env mutation consent) as [[mo|e]|] eqn:Hm; cbn in Hrun; simplify_eq.
  cbn in Hok. injection Hok as ->. destruct (mo_observation u2) as [loaded|] eqn:Hob.
  - apply sv_ret_Ok in H as [<- <-]. split; [done|]. by eapply el_mutation.
  - unfold runtime_mutation_failure in H. by apply sv_bind_Ok in H as (? & ? & _ & H).
Qed.

Lemma runtime_mutation_failure_Ok {A} error s (a : A) s' : runtime_mutation_failure env error s <> (Ok a, s').
Proof using Type. unfold runtime_mutation_failure. by intros (? & ? & _ & H)%sv_bind_Ok. Qed.

Lemma reconcile_or_uncertain_Ok config identity s r s' :
  reconcile_or_uncertain env config identity s = (Ok r, s') ->
  reconcile_after_mutation env config identity s = (Ok r, s').
Proof using Type.
  unfold reconcile_or_uncertain. destruct (reconcile_after_mutation _ _ _ _) as [[o|e] s1]; [by intros [= <- <-]|].
  destruct e; try done. by intros ?%runtime_mutation_failure_Ok.
Qed.

(** The session of an unchanged profile whose credential is kept may stay. *)
Definition retains_session (request : UpdateProfileRequest) (s : Service) : bool :=
  let updated := from_draft (up_profile_id request) (up_draft request) in
  match p_credential_mode updated with
  | CredSession => bool_decide (up_secret_update request = UpdateKeep)
  | CredNone | CredEnvironment => true
  end && bool_decide (find_profile (profiles s) (up_profile_id request) = Some updated).

(** A successful update up to its reconciliation. *)
Lemma update_reconciles request s outcome s' :
  update_profile env request s = (Ok outcome, s') ->
  let id := up_profile_id request in
  let updated := from_draft id (up_draft request) in
  sv_uncertain s = false /\ generations s !! id = Some (up_expected_generation request) /\
  exists config r s1 deferred, validate_config_identity config = Ok tt /\
    (N.of_nat (length (cfg_profiles config)) <= MAX_PROFILES)%N /\
    is_Some (find_profile (profiles s) id) /\ find_profile (cfg_profiles config) id = Some updated /\
    reconcile_after_mutation env config (IdUpdate id (Resolve (retains_session request s))) s = (Ok r, s1) /\
    pm_profile_generation outcome = rm_profile_generation r /\
    apply_deferred_cleanup (push_secret_update (rm_cleanup r) (id, up_secret_update request))
      match rm_deferred_session r with
      | Some fence => (resolve_deferred_session fence true s1).2
      | None => s1
      end = (Ok deferred, s').
Proof using laws.
  intros H. unfold update_profile in H. apply finish_mutation_Ok in H as ([[o fence] c] & H & ->).
  unfold update_profile_inner, lifted in H. cbv zeta in H. cbn.
  apply sv_bind_Ok in H as (? & ? & [-> Hu]%sv_map_err_Ok%ensure_config_certain_Ok & H).
  apply sv_bind_Ok in H as (? & ? & [_ ->]%sv_map_err_Ok%sv_lift_Ok & H).
  apply sv_bind_Ok in H as (? & ? & ->%sv_map_err_Ok%acquire_lane_Ok & H).
  apply sv_bind_Ok in H as (? & ? & [-> _]%sv_map_err_Ok%ensure_config_certain_Ok & H).
  apply sv_bind_Ok in H as (? & ? & [-> Hg]%sv_map_err_Ok%ensure_generation_Ok & H).
  apply sv_bind_Ok in H as (expected & ? & [-> Hp]%sv_map_err_Ok%profile_Ok & H).
  apply sv_bind_Ok in H as (has & ? & ->%sv_map_err_Ok%has_current_session_secret_Ok & H).
  apply sv_bind_Ok in H as (? & ? & [_ ->]%sv_map_err_Ok%sv_lift_Ok & H).
  apply sv_bind_Ok in H as (written & ? & (-> & Hid & Hlen)%write_config_or_Ok & H).
  destruct (_ || _) eqn:Hcheck in H; [by apply runtime_mutation_failure_Ok in H|].
  apply orb_false_iff in Hcheck as [_ Hfind%negb_false_iff%bool_decide_eq_true].
  apply sv_bind_Ok in H as (r & s1 & Hrec%reconcile_or_uncertain_Ok & H).
  apply sv_bind_Ok in H as ([deferred cleanup] & s2 & Htail & H). apply sv_ret_Ok in H as [H <-].
  injection H as <- _ _.
  apply sv_bind_Ok in Htail as (u1 & s3 & Hfence & Htail).
  apply sv_bind_Ok in Htail as (u2 & s4 & Hclean%sv_map_err_Ok & Htail). apply sv_ret_Ok in Htail as [_ <-].
  split_and!; [done|done|]. eexists _, r, s1, u2. split_and!; [exact Hid|exact Hlen|by eexists|exact Hfind| |done|].
  - rewrite <- Hrec. do 3 f_equal. unfold retains_session. rewrite Hp. cbn [p_credential_mode from_draft].
    rewrite <- andb_assoc. f_equal.
    destruct (decide (expected = from_draft (up_profile_id request) (up_draft request))) as [->|Hne].
    + by rewrite !bool_decide_true.
    + rewrite (bool_decide_false (expected = _)), andb_false_r by done. by rewrite bool_decide_false by congruence.
  - destruct (rm_deferred_session r); [apply sv_step_Ok in Hfence; injection Hfence as _ <-
                                      |apply sv_ret_Ok in Hfence as [_ <-]]; exact Hclean.
Qed.

(** C29: an update that returns has published the new profile under a generation that
    was never used, so that every earlier lease is stale; it was made against the
    expected generation in a certain configuration; the stored credential is the
    one the request asks for; and no session survives it, except that of a profile
    stored again unchanged with its credential kept. *)
Theorem update_profile_effect request s outcome s' :
  coherent s -> (sv_next_generation s + 2 * MAX_PROFILES <= U64_MAX)%N ->
  update_profile env request s = (Ok outcome, s') ->
  let id := up_profile_id request in
  sv_uncertain s = false /\ generations s !! id = Some (up_expected_generation request) /\
  find_profile (profiles s') id = Some (from_draft id (up_draft request)) /\
  generations s' !! id = Some (pm_profile_generation outcome) /\
  (sv_next_generation s <= pm_profile_generation outcome)%N /\ sv_uncertain s' = false /\
  stored s' id = match up_secret_update request with
                 | UpdateKeep => stored s id | UpdateReplace secret => Some secret | UpdateClear => None
                 end /\
  match sv_sessions s' !! id with
  | None => True
  | Some cached => retains_session request s = true /\
      exists old, sv_sessions s !! id = Some old /\ cs_handle cached = cs_handle old /\
        (cached = old \/ cs_profile_generation cached = pm_profile_generation outcome)
  end.
Proof using laws.
  intros Hc Hroom Hupdate id.
  destruct (update_reconciles _ _ _ _ Hupdate) as
    (Hu & Hg & config & r & s1 & u & Hid & Hlen & [previous Hprev] & Hnext & Hrec & -> & Hclean).
  pose proof (reconcile_advances env config (IdUpdate id (Resolve (retains_session request s))) s Hc Hid Hlen Hroom) as Hadv.
  fold id in Hrec. rewrite Hrec in Hadv.
  destruct Hadv as (_ & _ & Hprofiles & Hfresh & Hgen & Hsess & Hsec & Hun). cbn [is_delete mi_profile_id] in Hgen.
  destruct (reconcile_update_effect _ _ _ _ _ _ _ _ Hc Hid Hlen Hroom Hprev Hnext Hrec)
    as (Hall & Hnil & (ids & Hids & Hin) & Htargets & Hdef).
  set (s2 := match rm_deferred_session r with Some _ => _ | None => s1 end) in Hclean.
  assert (same_but_sessions s1 s2 /\ match sv_sessions s2 !! id with
    | None => True
    | Some cached => retains_session request s = true /\
        exists old, sv_sessions s !! id = Some old /\ cs_handle cached = cs_handle old /\
          (cached = old \/ cs_profile_generation cached = rm_profile_generation r)
    end) as [(Ho2 & Hsec2 & Hu2) Hsess2].
  { unfold s2. rewrite Hdef, <- Hsess. fold id. destruct (sv_sessions s1 !! id) as [old|] eqn:Hold; cbn [fmap option_fmap option_map].
    - destruct (resolve_effect id (rm_profile_generation r) (from_draft id (up_draft request))
        (retains_session request s) old s1 Hold) as [Hsame Hnow]. split; [exact Hsame|]. rewrite Hnow.
      destruct (retains_session request s); [|done]. case_bool_decide; (split; [done|]); exists old; eauto.
    - by rewrite Hold. }
  eapply (cleanup_effect _ ids [(id, up_secret_update request)]) in Hclean as (Ho3 & Hu3 & Hse3 & _ & Hst3 & _);
    [|done|done|cbn; by rewrite Hnil|cbn; lia].
  unfold profiles, generations. rewrite Ho3, Ho2.
  split_and!; [done|done| |exact Hgen|done|congruence| |].
  - unfold profiles in Hprofiles. by rewrite Hprofiles.
  - rewrite (Hst3 id Hin) with (update := up_secret_update request); [|intros t Ht Hti; by apply (Htargets t Ht)|done].
    unfold stored. by rewrite Hsec2, Hsec.
  - rewrite Hse3; [exact Hsess2|]. intros t Ht Hti. by apply (Htargets t Ht).
Qed.
Lemma reconcile_delete_effect config id s r s' previous :
  coherent s -> validate_config_identity config = Ok tt ->
  find_profile (profiles s) id = Some previous -> find_profile (cfg_profiles config) id = None ->
  reconcile_after_mutation env config (IdDelete id) s = (Ok r, s') ->
  dc_clear_all_secrets (rm_cleanup r) = false /\ dc_secret_updates (rm_cleanup r) = [] /\
  (exists ids, dc_retain_secret_profiles (rm_cleanup r) = Some ids /\ id ∉ ids) /\
  (exists t, t ∈ dc_targets (rm_cleanup r) /\ dt_profile_id t = id /\
     dt_session t = identity <$> sv_sessions s !! id) /\
  tombstone_generation id s' = Some (rm_profile_generation r).
Proof using laws.
  intros Hc Hid Hprev Hnext. apply validate_identity_spec in Hid as [_ Hnd].
  unfold reconcile_after_mutation. set (keep := fun p => _).
  destruct (assign_generations keep _ _ _) as [m s1]. cbn [is_delete allocate_profile_generation].
  destruct (reconcile_targets _ _ _) as [[targets deferred]|e] eqn:Ht; [|done].
  intros [= <- <-]. cbn.
  apply (reconcile_targets_delete _ _ _ _ _ _ previous) in Ht as [_ Ht]; [|by rewrite profiles_by_id_lookup].
  split_and!; [done|done| | |].
  - eexists. split; [done|]. apply not_elem_of_dom. by rewrite profiles_by_id_lookup.
  - unfold session_identities in Ht. rewrite lookup_fmap in Ht. apply Ht.
    rewrite (el_order _ _). apply elem_of_map_to_list. rewrite profiles_by_id_lookup; [done|apply Hc].
  - unfold tombstone_generation. cbn. by rewrite lookup_insert_eq.
Qed.

(** A deletion that returns was made against the expected generation in a
    certain configuration; the profile is gone with its credential and its
    session, and a fresh generation marks the deletion. *)
Theorem delete_profile_effect request s outcome s' :
  coherent s -> (sv_next_generation s + 2 * MAX_PROFILES <= U64_MAX)%N ->
  delete_profile env request s = (Ok outcome, s') ->
  let id := dp_profile_id request in
  sv_uncertain s = false /\ generations s !! id = Some (dp_expected_generation request) /\
  find_profile (profiles s') id = None /\ generations s' !! id = None /\
  tombstone_generation id s' = Some (pm_profile_generation outcome) /\
  (sv_next_generation s <= pm_profile_generation outcome)%N /\
  stored s' id = None /\ sv_sessions s' !! id = None.
Proof using laws.
  intros Hc Hroom H id. unfold delete_profile in H. apply finish_mutation_Ok in H as ([o c] & H & ->).
  unfold delete_profile_inner, lifted in H. cbv zeta in H. cbn [fst].
  apply sv_bind_Ok in H as (? & ? & [-> Hu]%sv_map_err_Ok%ensure_config_certain_Ok & H).
  apply sv_bind_Ok in H as (? & ? & ->%sv_map_err_Ok%acquire_lane_Ok & H).
  apply sv_bind_Ok in H as (? & ? & [-> _]%sv_map_err_Ok%ensure_config_certain_Ok & H).
  apply sv_bind_Ok in H as (? & ? & [-> Hg]%sv_map_err_Ok%ensure_generation_Ok & H).
  apply sv_bind_Ok in H as (previous & ? & [-> Hp]%sv_map_err_Ok%profile_Ok & H).
  apply sv_bind_Ok in H as (written & ? & (-> & Hid & Hlen)%write_config_or_Ok & H).
  destruct (_ || _) eqn:Hcheck in H; [by apply runtime_mutation_failure_Ok in H|].
  apply orb_false_iff in Hcheck as [_ Hnone%bool_decide_eq_false].
  assert (find_profile (cfg_profiles (lc_config (om_loaded written))) id = None) as Hfind
    by (apply eq_None_not_Some; exact Hnone).
  apply sv_bind_Ok in H as (r & s1 & Hrec%reconcile_or_uncertain_Ok & H).
  apply sv_bind_Ok in H as (cleanup & s2 & Htail & H). apply sv_ret_Ok in H as [H <-]. injection H as <- _. cbn.
  apply sv_bind_Ok in Htail as (u & s3 & Hclean%sv_map_err_Ok & Htail). apply sv_ret_Ok in Htail as [_ <-].
  fold id in Hrec, Hp.
  pose proof (reconcile_advances env _ (IdDelete id) s Hc Hid Hlen Hroom) as Hadv. rewrite Hrec in Hadv.
  destruct Hadv as (Ha & _ & Hprofiles & Hfresh & _ & Hsess & Hsec & _).
  destruct (reconcile_delete_effect _ _ _ _ _ _ Hc Hid Hp Hfind Hrec)
    as (Hall & Hnil & (ids & Hids & Hin) & (t & Ht & Hti & Hts) & Htomb).
  eapply (cleanup_effect _ ids []) in Hclean as (Ho3 & _ & _ & Hgone & _ & Hst3); [|done|done|done|cbn; lia].
  assert (find_profile (profiles s3) id = None) as Hnone3.
  { unfold profiles in *. by rewrite Ho3, Hprofiles. }
  split_and!; [done|done|done| |by unfold tombstone_generation; rewrite Ho3|done| |].
  - apply eq_None_not_Some. unfold generations. rewrite Ho3. change (~ is_Some (generations s1 !! id)).
    rewrite (coh_generations _ (adv_coherent _ _ Ha)). rewrite Hprofiles. by apply find_profile_None.
  - by apply Hst3.
  - eapply Hgone; [exact Ht|done|]. by rewrite Hts, Hsess.
Qed.

End effects.

(** ** Concrete mutations *)

Definition sample_update_request : UpdateProfileRequest :=
  {| up_profile_id := lit "p"; up_expected_generation := 1; up_operation_id := 7; up_draft := renamed_draft;
     up_secret_update := UpdateClear; up_migration_consent := ConsentCancelled |}.

Definition sample_delete_request : DeleteProfileRequest :=
  {| dp_profile_id := lit "p"; dp_expected_generation := 1; dp_operation_id := 7;
     dp_migration_consent := ConsentCancelled |}.

Lemma update_profile_effect_witness :
  exists outcome s', update_profile sample_env sample_update_request sample_service = (Ok outcome, s') /\
    find_profile (profiles s') (lit "p") = Some renamed_profile /\ stored s' (lit "p") = None.
Proof.
  destruct (update_profile sample_env sample_update_request sample_service) as [r s'] eqn:E.
  destruct r as [outcome|e]; [|exfalso; apply (f_equal fst) in E; vm_compute in E; discriminate E].
  pose proof (update_profile_effect sample_env sample_update_request sample_service outcome s'
    sample_coherent ltac:(vm_compute; discriminate) E) as (_ & _ & Hp & _ & _ & _ & Hs & _).
  exists outcome, s'. split; [reflexivity|]. split; [exact Hp|exact Hs].
Defined.

Lemma delete_profile_effect_witness :
  exists outcome s', delete_profile sample_env sample_delete_request sample_service = (Ok outcome, s') /\
    find_profile (profiles s') (lit "p") = None /\ tombstone_generation (lit "p") s' = Some 2%N.
Proof.
  destruct (delete_profile sample_env sample_delete_request sample_service) as [r s'] eqn:E.
  destruct r as [outcome|e]; [|exfalso; apply (f_equal fst) in E; vm_compute in E; discriminate E].
  pose proof (delete_profile_effect sample_env sample_delete_request sample_service outcome s'
    sample_coherent ltac:(vm_compute; discriminate) E) as (_ & _ & Hp & _ & Ht & _).
  exists outcome, s'. split; [reflexivity|]. split; [exact Hp|]. etrans; [exact Ht|].
  apply (f_equal fst) in E. vm_compute in E. injection E as <-. reflexivity.
Defined.
