(* ===== verification/PublicError.v ===== *)
(** * Public errors and their recoveries (src/src/public_error.rs)

    What the user is told about a failed operation and which recovery actions are
    offered: the recovery matrix, one function per summary, and the fallback for
    the pairs it does not list. *)

From S2P Require Import Prelude RustStr Model Secrets Profile Config Drivers Service.

#[local] Abbreviation OperationRecipeId := N (only parsing).

Inductive ErrorCategory :=
| CatValidation | CatAuthentication | CatPermission | CatNetwork | CatTls | CatTimeout | CatSyntax
| CatConstraint | CatUnsupported | CatCancelled | CatBusy | CatStale | CatIo | CatInternal.
#[export] Instance ErrorCategory_eq : EqDecision ErrorCategory. Proof. solve_decision. Defined.

Definition category_of (summary : PublicSummary) : ErrorCategory :=
  match summary with
  | InvalidInput | CredentialRequired => CatValidation
  | AuthenticationFailed => CatAuthentication
  | PermissionDenied => CatPermission
  | NetworkUnavailable => CatNetwork
  | TlsVerificationFailed => CatTls
  | OperationTimedOut => CatTimeout
  | SyntaxRejected => CatSyntax
  | ConstraintRejected => CatConstraint
  | UnsupportedFeature => CatUnsupported
  | OperationCancelled => CatCancelled
  | ResourceBusy => CatBusy
  | ResourceStale => CatStale
  | ConfigWriteNotCommitted | SumCommittedDurabilityUnknown | ExportFailed => CatIo
  | InternalFailure => CatInternal
  end.

Inductive RecoveryAction :=
| OpenCredentialPrompt (profile_id : ProfileId)
| EditDraft (draft_id : DraftId) (field : ProfileFieldId)
| EditProfile (profile_id : ProfileId) (field : ProfileFieldId)
| Retry (recipe_id : OperationRecipeId)
| FocusEditor (profile_id : ProfileId)
| FocusExecuteLimits (profile_id : ProfileId)
| RaReloadConfiguration
| Reconnect (profile_id : ProfileId)
| CancelOperation (operation_id : OperationId)
| ClearCatalog (profile_id : ProfileId)
| RestartRedisScan (profile_id : ProfileId)
| ChooseExportDestination (result_id : ResultId)
| RevealExportDestination (result_id : ResultId)
| RevealMigrationBackup
| RestartApplication
| DismissError (operation_id : OperationId).
#[export] Instance RecoveryAction_eq : EqDecision RecoveryAction. Proof. solve_decision. Defined.

Inductive RecoveryCommand :=
| OpenCredentialEditor (profile_id : ProfileId)
| FocusDraftField (draft_id : DraftId) (field : ProfileFieldId)
| FocusProfileField (profile_id : ProfileId) (field : ProfileFieldId)
| RetryRecipe (recipe_id : OperationRecipeId)
| FocusStatementEditor (profile_id : ProfileId)
| FocusExecutionLimits (profile_id : ProfileId)
| ReloadConfiguredPath
| RcReconnectProfile (profile_id : ProfileId)
| CancelRunningOperation (operation_id : OperationId)
| ClearProfileCatalog (profile_id : ProfileId)
| RestartProfileRedisScan (profile_id : ProfileId)
| ChooseResultExportDestination (result_id : ResultId)
| RevealResultExportDestination (result_id : ResultId)
| RevealConfiguredMigrationBackup
| RcRestartApplication
| DismissOperationError (operation_id : OperationId).

(** [dispatch_recovery], up to the dispatcher's own effect. *)
Definition dispatch_recovery (action : RecoveryAction) : RecoveryCommand :=
  match action with
  | OpenCredentialPrompt profile_id => OpenCredentialEditor profile_id
  | EditDraft draft_id field => FocusDraftField draft_id field
  | EditProfile profile_id field => FocusProfileField profile_id field
  | Retry recipe_id => RetryRecipe recipe_id
  | FocusEditor profile_id => FocusStatementEditor profile_id
  | FocusExecuteLimits profile_id => FocusExecutionLimits profile_id
  | RaReloadConfiguration => ReloadConfiguredPath
  | Reconnect profile_id => RcReconnectProfile profile_id
  | CancelOperation operation_id => CancelRunningOperation operation_id
  | ClearCatalog profile_id => ClearProfileCatalog profile_id
  | RestartRedisScan profile_id => RestartProfileRedisScan profile_id
  | ChooseExportDestination result_id => ChooseResultExportDestination result_id
  | RevealExportDestination result_id => RevealResultExportDestination result_id
  | RevealMigrationBackup => RevealConfiguredMigrationBackup
  | RestartApplication => RcRestartApplication
  | DismissError operation_id => DismissOperationError operation_id
  end.

(** A vector with at least one element. *)
Record NonEmpty (T : Type) := { ne_head : T; ne_tail : list T }.
Arguments ne_head {_}.
Arguments ne_tail {_}.
Arguments Build_NonEmpty {_}.
#[export] Instance NonEmpty_eq {T} `{EqDecision T} : EqDecision (NonEmpty T). Proof. solve_decision. Defined.

Definition ne_new {T} (head : T) : NonEmpty T := Build_NonEmpty head [].
Definition ne_push {T} (l : NonEmpty T) (value : T) : NonEmpty T :=
  Build_NonEmpty (ne_head l) (ne_tail l ++ [value]).
Definition as_slice {T} (l : NonEmpty T) : list T := ne_head l :: ne_tail l.

Inductive SafeContext :=
| CtxGlobal (operation_id : OperationId)
| CtxDraft (draft_id : DraftId) (operation_id : OperationId)
| CtxProfile (profile_id : ProfileId) (operation_id : OperationId)
    (active_operation : option OperationId) (recipe_id : option OperationRecipeId)
| CtxExport (result_id : ResultId) (operation_id : OperationId) (destination_committed : bool).

Inductive RecoveryFact := FactNone | FactBusyKnownActive (operation_id : OperationId) | FactBusyUnknownActive.

Definition context_operation_id (context : SafeContext) : OperationId :=
  match context with
  | CtxGlobal operation_id | CtxDraft _ operation_id | CtxProfile _ operation_id _ _
  | CtxExport _ operation_id _ => operation_id
  end.

Record UnreachableRecovery := {
  ur_operation : OperationKind; ur_summary : PublicSummary; ur_code : PublicCode;
}.

Record PublicOperationError := {
  pe_operation : OperationKind;
  pe_category : ErrorCategory;
  pe_code : PublicCode;
  pe_summary : PublicSummary;
  pe_recovery : NonEmpty RecoveryAction;
}.

(** ** Field tables *)

Definition profile_field (code : PublicCode) : option ProfileFieldId :=
  match code with
  | PcField field => Some field
  | PcSessionCredential => Some FSessionCredential
  | PcCredentialEnvironmentName => Some FCredentialEnvironmentName
  | PcUsername => Some FUsername
  | PcDatabase => Some FDatabase
  | PcRedisTlsPreferredLegacy => Some FRedisTlsMode
  | PcRedisTlsCaInvalidPem | PcRedisTlsCaUntrustedIssuer => Some FRedisCaFile
  | PcTlsHostnameMismatch => Some FHost
  | _ => None
  end.

Definition draft_field (code : PublicCode) : option ProfileFieldId :=
  match code with
  | PcProfileIdConflict => Some FConnectionId
  | PcField field => Some field
  | PcSessionCredential => Some FSessionCredential
  | PcCredentialEnvironmentName => Some FCredentialEnvironmentName
  | PcUsername => Some FUsername
  | PcDatabase => Some FDatabase
  | PcRedisTlsPreferredLegacy => Some FRedisTlsMode
  | PcRedisTlsCaInvalidPem | PcRedisTlsCaUntrustedIssuer => Some FRedisCaFile
  | PcTlsHostnameMismatch => Some FHost
  | _ => None
  end.

Definition credential_field (code : PublicCode) : option ProfileFieldId :=
  match code with
  | PcSessionCredential => Some FSessionCredential
  | PcCredentialEnvironmentName => Some FCredentialEnvironmentName
  | PcUsername => Some FUsername
  | _ => None
  end.

Definition permission_field (code : PublicCode) : option ProfileFieldId :=
  match code with PcUsername => Some FUsername | PcDatabase => Some FDatabase | _ => None end.

Definition is_credential_operation (operation : OperationKind) : bool :=
  match operation with
  | ConnectProfile | ReconnectProfile | ExecuteRead | ExecuteMutation | BrowseMySql | BrowseRedis
  | InspectRedis => true
  | _ => false
  end.

Definition is_saved_network (operation : OperationKind) : bool :=
  match operation with
  | ConnectProfile | DisconnectProfile | ReconnectProfile | ExecuteRead | ExecuteMutation | BrowseMySql
  | BrowseRedis | InspectRedis => true
  | _ => false
  end.

Definition is_idempotent (operation : OperationKind) : bool :=
  match operation with
  | ConnectProfile | ReconnectProfile | BrowseMySql | BrowseRedis | InspectRedis => true
  | _ => false
  end.

Definition context_matches (operation : OperationKind) (context : SafeContext) : bool :=
  match operation, context with
  | (LoadConfiguration | ReloadConfiguration | MigrateConfiguration | ShutdownRuntime), CtxGlobal _ => true
  | (CreateProfile | TestDraftConnection), CtxDraft _ _ => true
  | OpExportResult, CtxExport _ _ _ => true
  | (UpdateProfile | DeleteProfile | ConnectProfile | DisconnectProfile | ReconnectProfile | ExecuteRead
    | ExecuteMutation | BrowseMySql | BrowseRedis | InspectRedis), CtxProfile _ _ _ _ => true
  | _, _ => false
  end.

(** ** The recovery matrix *)

Definition one (action : RecoveryAction) : option (NonEmpty RecoveryAction) := Some (ne_new action).
Definition two (first second : RecoveryAction) : option (NonEmpty RecoveryAction) :=
  Some (ne_push (ne_new first) second).

(** [recipe_id.filter(|_| is_idempotent(kind))], pushed when present. *)
Definition push_retry (kind : OperationKind) (recipe_id : option OperationRecipeId)
    (actions : NonEmpty RecoveryAction) : NonEmpty RecoveryAction :=
  match recipe_id with
  | Some recipe_id => if is_idempotent kind then ne_push actions (Retry recipe_id) else actions
  | None => actions
  end.

Definition invalid_input (operation : OperationKind) (code : PublicCode) (context : SafeContext) :
    option (NonEmpty RecoveryAction) :=
  match operation, context with
  | (LoadConfiguration | ReloadConfiguration | MigrateConfiguration), CtxGlobal _ => one RaReloadConfiguration
  | (CreateProfile | TestDraftConnection), CtxDraft draft_id _ =>
      (fun field => ne_new (EditDraft draft_id field)) <$> draft_field code
  | UpdateProfile, CtxProfile profile_id _ _ _ =>
      match code with
      | PcProfileStale | PcConfigExternalChange => one RaReloadConfiguration
      | _ => (fun field => ne_new (EditProfile profile_id field)) <$> profile_field code
      end
  | DeleteProfile, CtxProfile _ operation_id _ _ =>
      match code with
      | PcProfileStale | PcConfigExternalChange => one RaReloadConfiguration
      | PcNone => one (DismissError operation_id)
      | _ => None
      end
  | (ConnectProfile | ReconnectProfile), CtxProfile profile_id _ _ _ =>
      (fun field => ne_new (EditProfile profile_id field)) <$> profile_field code
  | (ExecuteRead | ExecuteMutation), CtxProfile profile_id _ _ _ =>
      match code with
      | PcRowLimit | PcTimeoutInput => one (FocusExecuteLimits profile_id)
      | PcStatementTarget | PcAmbiguousSqlMode | PcUnterminatedSqlToken | PcNone => one (FocusEditor profile_id)
      | _ => None
      end
  | BrowseMySql, CtxProfile profile_id operation_id _ _ =>
      match code with
      | PcCatalog => one (ClearCatalog profile_id)
      | PcNone => one (DismissError operation_id)
      | _ => None
      end
  | BrowseRedis, CtxProfile profile_id operation_id _ _ =>
      match code with
      | PcRedisScan => one (RestartRedisScan profile_id)
      | PcNone => one (DismissError operation_id)
      | _ => None
      end
  | InspectRedis, CtxProfile _ operation_id _ _ => one (DismissError operation_id)
  | OpExportResult, CtxExport result_id _ _ => one (ChooseExportDestination result_id)
  | _, _ => None
  end.

Definition credential_required (operation : OperationKind) (code : PublicCode) (context : SafeContext) :
    option (NonEmpty RecoveryAction) :=
  match operation, context with
  | TestDraftConnection, CtxDraft draft_id _ =>
      (fun field => ne_new (EditDraft draft_id field)) <$> credential_field code
  | kind, CtxProfile profile_id _ _ _ =>
      if is_credential_operation kind
      then two (OpenCredentialPrompt profile_id) (EditProfile profile_id FSessionCredential)
      else None
  | _, _ => None
  end.

Definition authentication_failed (operation : OperationKind) (code : PublicCode) (context : SafeContext) :
    option (NonEmpty RecoveryAction) :=
  match operation, context with
  | TestDraftConnection, CtxDraft draft_id _ =>
      (fun field => ne_new (EditDraft draft_id field)) <$> credential_field code
  | kind, CtxProfile profile_id _ _ recipe_id =>
      if is_credential_operation kind then
        first ← match code with
                | PcSessionCredential => Some (OpenCredentialPrompt profile_id)
                | PcCredentialEnvironmentName => Some (EditProfile profile_id FCredentialEnvironmentName)
                | PcUsername => Some (EditProfile profile_id FUsername)
                | _ => None
                end;
        Some (push_retry kind recipe_id (ne_new first))
      else None
  | _, _ => None
  end.

Definition permission_denied (operation : OperationKind) (code : PublicCode) (context : SafeContext) :
    option (NonEmpty RecoveryAction) :=
  field ← permission_field code;
  match operation, context with
  | TestDraftConnection, CtxDraft draft_id operation_id =>
      two (EditDraft draft_id field) (DismissError operation_id)
  | (ConnectProfile | ReconnectProfile | BrowseMySql | BrowseRedis | InspectRedis),
    CtxProfile profile_id operation_id _ _ =>
      two (EditProfile profile_id field) (DismissError operation_id)
  | (ExecuteRead | ExecuteMutation), CtxProfile profile_id operation_id _ _ =>
      two (FocusEditor profile_id) (DismissError operation_id)
  | _, _ => None
  end.

Definition network_unavailable (operation : OperationKind) (context : SafeContext) :
    option (NonEmpty RecoveryAction) :=
  match operation, context with
  | TestDraftConnection, CtxDraft draft_id operation_id =>
      two (EditDraft draft_id FHost) (DismissError operation_id)
  | kind, CtxProfile profile_id _ _ recipe_id =>
      if is_saved_network kind && negb (bool_decide (kind = DisconnectProfile)) then
        let actions := ne_push (ne_new (EditProfile profile_id FHost)) (Reconnect profile_id) in
        Some (if negb (bool_decide (kind = ExecuteMutation)) then push_retry kind recipe_id actions else actions)
      else None
  | _, _ => None
  end.

Definition tls_failed (operation : OperationKind) (code : PublicCode) (context : SafeContext) :
    option (NonEmpty RecoveryAction) :=
  field ← match code with
          | PcRedisTlsCaInvalidPem | PcRedisTlsCaUntrustedIssuer => Some FRedisCaFile
          | PcTlsHostnameMismatch => Some FHost
          | _ => None
          end;
  match operation, context with
  | TestDraftConnection, CtxDraft draft_id _ => one (EditDraft draft_id field)
  | kind, CtxProfile profile_id _ _ _ =>
      if is_credential_operation kind then one (EditProfile profile_id field) else None
  | _, _ => None
  end.

Definition timed_out (operation : OperationKind) (context : SafeContext) : option (NonEmpty RecoveryAction) :=
  match operation, context with
  | TestDraftConnection, CtxDraft draft_id operation_id =>
      two (EditDraft draft_id FHost) (DismissError operation_id)
  | (ConnectProfile | ReconnectProfile), CtxProfile profile_id operation_id _ _ =>
      Some (ne_push (ne_push (ne_new (EditProfile profile_id FHost)) (Reconnect profile_id))
              (DismissError operation_id))
  | (ExecuteRead | ExecuteMutation), CtxProfile profile_id _ _ _ =>
      two (FocusExecuteLimits profile_id) (Reconnect profile_id)
  | (BrowseMySql | BrowseRedis | InspectRedis), CtxProfile profile_id operation_id _ recipe_id =>
      let first := match recipe_id with Some recipe_id => Retry recipe_id | None => Reconnect profile_id end in
      two first (DismissError operation_id)
  | _, _ => None
  end.

Definition execute_only (operation : OperationKind) (context : SafeContext) (dismiss : bool) :
    option (NonEmpty RecoveryAction) :=
  match operation, context with
  | (ExecuteRead | ExecuteMutation), CtxProfile profile_id operation_id _ _ =>
      if dismiss then two (FocusEditor profile_id) (DismissError operation_id) else one (FocusEditor profile_id)
  | _, _ => None
  end.

Definition unsupported (operation : OperationKind) (code : PublicCode) (context : SafeContext) :
    option (NonEmpty RecoveryAction) :=
  match operation, context, code with
  | TestDraftConnection, CtxDraft draft_id _, PcRedisTlsPreferredLegacy => one (EditDraft draft_id FRedisTlsMode)
  | ConnectProfile, CtxProfile profile_id _ _ _, PcRedisTlsPreferredLegacy =>
      one (EditProfile profile_id FRedisTlsMode)
  | (ExecuteRead | ExecuteMutation), CtxProfile profile_id operation_id _ _, PcPreparedStatementUnsupported =>
      two (FocusEditor profile_id) (DismissError operation_id)
  | (ExecuteRead | ExecuteMutation | BrowseMySql | BrowseRedis | InspectRedis),
    CtxProfile _ operation_id _ _, _ => one (DismissError operation_id)
  | _, _, _ => None
  end.

Definition cancelled (operation : OperationKind) (context : SafeContext) : option (NonEmpty RecoveryAction) :=
  match operation, context with
  | TestDraftConnection, CtxDraft _ operation_id => one (DismissError operation_id)
  | kind, CtxProfile profile_id operation_id _ _ =>
      if is_saved_network kind && negb (bool_decide (kind = DisconnectProfile))
      then two (Reconnect profile_id) (DismissError operation_id) else None
  | OpExportResult, CtxExport result_id operation_id destination_committed =>
      two (if destination_committed : bool then RevealExportDestination result_id
           else ChooseExportDestination result_id) (DismissError operation_id)
  | _, _ => None
  end.

Definition busy (operation : OperationKind) (context : SafeContext) (fact : RecoveryFact) :
    option (NonEmpty RecoveryAction) :=
  if bool_decide (operation ∈ [LoadConfiguration; ShutdownRuntime]) then None
  else
    let '(context_active, rejected) :=
      match context with
      | CtxProfile _ operation_id active_operation _ => (active_operation, operation_id)
      | CtxGlobal operation_id | CtxDraft _ operation_id | CtxExport _ operation_id _ => (None, operation_id)
      end in
    let active :=
      match fact with
      | FactNone => context_active
      | FactBusyKnownActive operation_id => Some operation_id
      | FactBusyUnknownActive => None
      end in
    match active with
    | Some active => two (CancelOperation active) (DismissError rejected)
    | None => one (DismissError rejected)
    end.

Definition stale (operation : OperationKind) (context : SafeContext) : option (NonEmpty RecoveryAction) :=
  match operation, context with
  | (ReloadConfiguration | CreateProfile | UpdateProfile | DeleteProfile), _ => one RaReloadConfiguration
  | (ConnectProfile | ReconnectProfile | BrowseMySql | BrowseRedis | InspectRedis),
    CtxProfile _ _ _ (Some recipe_id) => one (Retry recipe_id)
  | (ExecuteRead | ExecuteMutation), CtxProfile profile_id _ _ _ =>
      two RaReloadConfiguration (FocusEditor profile_id)
  | _, _ => None
  end.

(** The actions of a configuration change, with the backup of a migration. *)
Definition configuration_actions (operation : OperationKind) (code : PublicCode) :
    option (NonEmpty RecoveryAction) :=
  if negb (bool_decide (operation ∈ [MigrateConfiguration; CreateProfile; UpdateProfile; DeleteProfile]))
  then None
  else if bool_decide (operation = MigrateConfiguration) && bool_decide (code = PcMigrationBackupAvailable)
  then two RaReloadConfiguration RevealMigrationBackup
  else one RaReloadConfiguration.

Definition config_not_committed (operation : OperationKind) (code : PublicCode) :
    option (NonEmpty RecoveryAction) := configuration_actions operation code.

Definition durability_unknown (operation : OperationKind) (code : PublicCode) (context : SafeContext) :
    option (NonEmpty RecoveryAction) :=
  match configuration_actions operation code with
  | Some actions => Some actions
  | None =>
      match operation, context with
      | OpExportResult, CtxExport result_id _ _ => one (RevealExportDestination result_id)
      | _, _ => None
      end
  end.

Definition export_failed (operation : OperationKind) (context : SafeContext) : option (NonEmpty RecoveryAction) :=
  match operation, context with
  | OpExportResult, CtxExport result_id _ destination_committed =>
      if destination_committed : bool
      then two (ChooseExportDestination result_id) (RevealExportDestination result_id)
      else one (ChooseExportDestination result_id)
  | _, _ => None
  end.

Definition internal (operation : OperationKind) (context : SafeContext) : option (NonEmpty RecoveryAction) :=
  let operation_id := context_operation_id context in
  let actions := ne_push (ne_new RestartApplication) (DismissError operation_id) in
  Some (if bool_decide (operation ∈ [LoadConfiguration; ReloadConfiguration; MigrateConfiguration; CreateProfile;
                                     UpdateProfile; DeleteProfile])
        then ne_push actions RaReloadConfiguration else actions).

Definition recovery_for_with_fact (operation : OperationKind) (summary : PublicSummary) (code : PublicCode)
    (context : SafeContext) (fact : RecoveryFact) : result UnreachableRecovery (NonEmpty RecoveryAction) :=
  let unreachable := {| ur_operation := operation; ur_summary := summary; ur_code := code |} in
  if negb (context_matches operation context) then Err unreachable
  else if match fact with FactNone => false | _ => negb (bool_decide (summary = ResourceBusy)) end
  then Err unreachable
  else
    ok_or
      match summary with
      | InvalidInput => invalid_input operation code context
      | CredentialRequired => credential_required operation code context
      | AuthenticationFailed => authentication_failed operation code context
      | PermissionDenied => permission_denied operation code context
      | NetworkUnavailable => network_unavailable operation context
      | TlsVerificationFailed => tls_failed operation code context
      | OperationTimedOut => timed_out operation context
      | SyntaxRejected => execute_only operation context false
      | ConstraintRejected => execute_only operation context true
      | UnsupportedFeature => unsupported operation code context
      | OperationCancelled => cancelled operation context
      | ResourceBusy => busy operation context fact
      | ResourceStale => stale operation context
      | ConfigWriteNotCommitted => config_not_committed operation code
      | SumCommittedDurabilityUnknown => durability_unknown operation code context
      | ExportFailed => export_failed operation context
      | InternalFailure => internal operation context
      end unreachable.

Definition recovery_for (operation : OperationKind) (summary : PublicSummary) (code : PublicCode)
    (context : SafeContext) : result UnreachableRecovery (NonEmpty RecoveryAction) :=
  recovery_for_with_fact operation summary code context FactNone.

Definition PublicOperationError_new (operation : OperationKind) (summary : PublicSummary) (code : PublicCode)
    (context : SafeContext) : result UnreachableRecovery PublicOperationError :=
  recovery ← recovery_for operation summary code context;
  Ok {| pe_operation := operation; pe_category := category_of summary; pe_code := code;
        pe_summary := summary; pe_recovery := recovery |}.

Definition new_or_internal (operation : OperationKind) (summary : PublicSummary) (code : PublicCode)
    (context : SafeContext) : PublicOperationError :=
  match PublicOperationError_new operation summary code context with
  | Ok error => error
  | Err _ =>
      {| pe_operation := operation; pe_category := CatInternal; pe_code := PcNone;
         pe_summary := InternalFailure;
         pe_recovery := ne_push (ne_new RestartApplication) (DismissError (context_operation_id context)) |}
  end.

(** ** What the service reports (src/src/service.rs, [public_error_parts]) *)

Definition public_code (error : ServiceError) : PublicCode :=
  match error with
  | SeInvalidProfile (ProfileField _ code) | SeInvalidRequest code | SeDraftCredentialRequired _ _ code => code
  | SeProfileIdConflict _ _ => PcProfileIdConflict
  | SeProfileStale _ _ => PcProfileStale
  | SeSecret (MissingEnv _ | EmptyEnv _) => PcCredentialEnvironmentName
  | SeSecret (ReplacementRequired | SessionCredentialRequired) => PcSessionCredential
  | SeSecret InvalidSessionIntent => PcField FCredentialMode
  | SeSecret StoreUnavailable => PcNone
  | SeConfig (CeExternalChange | CeInvalidProfile) | SeConfigUncertain => PcConfigExternalChange
  | SeDriver (DePreparedStatementUnsupported _) => PcPreparedStatementUnsupported
  | SeDriver DeInvalidCatalogRequest => PcCatalog
  | SeDriver (DeRedisTls CaUntrusted) => PcRedisTlsCaUntrustedIssuer
  | SeDriver (DeRedisTls HostnameMismatch) => PcTlsHostnameMismatch
  | SeDriver (DeRedis RedisServerNoPerm) => PcUsername
  | SeConnectionAuthenticationFailed code => code
  | SeDriver error => match mysql_public_code error with Some code => PcMySql code | None => PcNone end
  | _ => PcNone
  end.

Definition driver_summary (error : DriverError) : PublicSummary :=
  match error with
  | DeInvalidCatalogRequest => InvalidInput
  | _ =>
      if is_mysql_permission_denied error then PermissionDenied
      else if is_mysql_authentication_failed error then AuthenticationFailed
      else
        match error with
        | DeTimeout _ _ => OperationTimedOut
        | DeRedisTls _ => TlsVerificationFailed
        | DeRedisKeyMissing | DeRedisKeyTypeChanged => ResourceStale
        | DeRedis RedisAuthenticationFailed => AuthenticationFailed
        | DeRedis RedisServerNoPerm => PermissionDenied
        | DeUnavailable _ _ | DeUnsupported _ _ | DePreparedStatementUnsupported _ => UnsupportedFeature
        | _ => NetworkUnavailable
        end
  end.

Definition public_summary (error : ServiceError) : PublicSummary :=
  match error with
  | SeInvalidProfile (ProfileField _ PcRedisTlsPreferredLegacy) => UnsupportedFeature
  | SeInvalidProfile (ProfileField _ (PcRedisTlsCaInvalidPem | PcRedisTlsCaUntrustedIssuer
                                     | PcTlsHostnameMismatch)) => TlsVerificationFailed
  | SeProfileStale _ _ | SeConfig (CeExternalChange | CeInvalidProfile) | SeConfigUncertain => ResourceStale
  | SeInvalidProfile _ | SeInvalidRowLimit | SeLanguageMismatch _ _ | SeDriverMismatch _ _
  | SeInvalidRequest _ | SeProfileIdConflict _ _ | SeUnknownProfile _ => InvalidInput
  | SeDriver error => driver_summary error
  | SeSecret (MissingEnv _ | EmptyEnv _) => AuthenticationFailed
  | SeDraftCredentialRequired _ _ _ | SeSecret (ReplacementRequired | SessionCredentialRequired) =>
      CredentialRequired
  | SeSecret InvalidSessionIntent => InvalidInput
  | SeSecret StoreUnavailable => InternalFailure
  | SeConnectionAuthenticationFailed _ => AuthenticationFailed
  | SeConfig _ => ConfigWriteNotCommitted
  | SePostCommitObservation _ _ => SumCommittedDurabilityUnknown
  | SeConfigTaskFailed | SeMutationLaneClosed | SeCatalogTokenKeyUnavailable => InternalFailure
  end.

Definition public_error_parts (error : ServiceError) : PublicSummary * PublicCode :=
  (public_summary error, public_code error).

(** ** Recoveries are safe *)

(** The action concerns the context of the failed operation and nothing else;
    only idempotent operations are offered again. *)
Definition action_safe (operation : OperationKind) (context : SafeContext) (fact : RecoveryFact)
    (action : RecoveryAction) : Prop :=
  match action with
  | OpenCredentialPrompt p | EditProfile p _ | FocusEditor p | FocusExecuteLimits p | Reconnect p
  | ClearCatalog p | RestartRedisScan p =>
      match context with CtxProfile profile_id _ _ _ => p = profile_id | _ => False end
  | EditDraft d _ => match context with CtxDraft draft_id _ => d = draft_id | _ => False end
  | Retry r =>
      is_idempotent operation = true /\
      match context with CtxProfile _ _ _ recipe_id => recipe_id = Some r | _ => False end
  | CancelOperation o =>
      match fact, context with
      | FactBusyKnownActive active, _ => o = active
      | FactNone, CtxProfile _ _ active _ => active = Some o
      | _, _ => False
      end
  | ChooseExportDestination r | RevealExportDestination r =>
      match context with CtxExport result_id _ _ => r = result_id | _ => False end
  | DismissError o => o = context_operation_id context
  | RevealMigrationBackup => operation = MigrateConfiguration
  | RaReloadConfiguration | RestartApplication => True
  end.

Definition actions_safe (operation : OperationKind) (context : SafeContext) (fact : RecoveryFact)
    (actions : option (NonEmpty RecoveryAction)) : Prop :=
  forall list, actions = Some list -> Forall (action_safe operation context fact) (as_slice list).

(** One row of the matrix: at most three actions, each about the context. *)
Ltac row :=
  intros list Hlist; unfold one, two, mbind, option_bind in Hlist;
  repeat match type of Hlist with
  | _ <$> _ = Some _ => apply fmap_Some in Hlist as (? & _ & ->)
  | None = Some _ => discriminate Hlist
  | Some _ = Some _ => injection Hlist as <-
  | context [match ?x with _ => _ end] => destruct x eqn:?
  end;
  unfold as_slice; cbn; rewrite ?Forall_cons, ?Forall_nil; cbn; try tauto; auto.

Lemma push_retry_safe operation profile_id operation_id active recipe_id fact actions :
  Forall (action_safe operation (CtxProfile profile_id operation_id active recipe_id) fact) (as_slice actions) ->
  Forall (action_safe operation (CtxProfile profile_id operation_id active recipe_id) fact)
    (as_slice (push_retry operation recipe_id actions)).
Proof.
  unfold push_retry. destruct recipe_id as [r|]; [|done]. destruct (is_idempotent operation) eqn:Hi; [|done].
  intros H. unfold as_slice, ne_push. cbn [ne_head ne_tail]. rewrite app_comm_cons. apply Forall_app. split; [exact H|].
  repeat constructor. exact Hi.
Qed.

Lemma invalid_input_safe operation code context fact :
  actions_safe operation context fact (invalid_input operation code context).
Proof. unfold invalid_input. destruct operation, context; row. Qed.

Lemma credential_required_safe operation code context fact :
  actions_safe operation context fact (credential_required operation code context).
Proof. unfold credential_required. destruct operation, context; row. Qed.

Lemma permission_denied_safe operation code context fact :
  actions_safe operation context fact (permission_denied operation code context).
Proof. unfold permission_denied. destruct (permission_field code); [|done]. destruct operation, context; row. Qed.

Lemma tls_failed_safe operation code context fact :
  actions_safe operation context fact (tls_failed operation code context).
Proof. unfold tls_failed. destruct code; try done; destruct operation, context; row. Qed.

Lemma timed_out_safe operation context fact :
  actions_safe operation context fact (timed_out operation context).
Proof. unfold timed_out. destruct operation, context as [| | ? ? ? []|]; row. Qed.

Lemma execute_only_safe operation context dismiss fact :
  actions_safe operation context fact (execute_only operation context dismiss).
Proof. unfold execute_only. destruct operation, context; row. Qed.

Lemma unsupported_safe operation code context fact :
  actions_safe operation context fact (unsupported operation code context).
Proof. unfold unsupported. destruct operation, context; row. Qed.

Lemma cancelled_safe operation context fact :
  actions_safe operation context fact (cancelled operation context).
Proof. unfold cancelled. destruct operation, context as [| | |? ? []]; row. Qed.

Lemma busy_safe operation context fact :
  actions_safe operation context fact (busy operation context fact).
Proof. unfold busy. case_bool_decide; [done|]. destruct fact, context as [| | ? ? []|]; row. Qed.

Lemma stale_safe operation context fact :
  actions_safe operation context fact (stale operation context).
Proof. unfold stale. destruct operation, context as [| | ? ? ? []|]; row. Qed.

Lemma configuration_actions_safe operation code context fact :
  actions_safe operation context fact (configuration_actions operation code).
Proof. unfold configuration_actions. repeat (case_bool_decide; simplify_eq/=); row. Qed.

Lemma durability_unknown_safe operation code context fact :
  actions_safe operation context fact (durability_unknown operation code context).
Proof.
  unfold durability_unknown. destruct (configuration_actions operation code) eqn:E.
  - intros list [= <-]. by eapply configuration_actions_safe.
  - destruct operation, context; row.
Qed.

Lemma export_failed_safe operation context fact :
  actions_safe operation context fact (export_failed operation context).
Proof. unfold export_failed. destruct operation, context; row. Qed.

Lemma internal_safe operation context fact :
  actions_safe operation context fact (internal operation context).
Proof. unfold internal. destruct operation; row. Qed.

Lemma authentication_failed_safe operation code context fact :
  actions_safe operation context fact (authentication_failed operation code context).
Proof.
  unfold authentication_failed. destruct context as [o|d o|p o a r|e o b]; [destruct operation; row..| |destruct operation; row].
  destruct (is_credential_operation operation) eqn:Hk; [|by destruct operation].
  assert (forall first, action_safe operation (CtxProfile p o a r) fact first ->
    actions_safe operation (CtxProfile p o a r) fact (Some (push_retry operation r (ne_new first)))) as Hpush.
  { intros first Hf list [= <-]. apply push_retry_safe. repeat constructor. exact Hf. }
  destruct operation; try discriminate Hk; destruct code; try done; by apply Hpush.
Qed.

Lemma network_unavailable_safe operation context fact :
  actions_safe operation context fact (network_unavailable operation context).
Proof.
  unfold network_unavailable. destruct context as [o|d o|p o a r|e o b]; [destruct operation; row..| |destruct operation; row].
  assert (forall b : bool, actions_safe operation (CtxProfile p o a r) fact
    (Some (if b then push_retry operation r (ne_push (ne_new (EditProfile p FHost)) (Reconnect p))
           else ne_push (ne_new (EditProfile p FHost)) (Reconnect p)))) as Hpush.
  { intros b list [= <-]. destruct b; [apply push_retry_safe|]; repeat constructor. }
  destruct operation; try done; apply Hpush.
Qed.

Create HintDb recovery.
#[local] Hint Resolve invalid_input_safe credential_required_safe authentication_failed_safe permission_denied_safe
  network_unavailable_safe tls_failed_safe timed_out_safe execute_only_safe unsupported_safe cancelled_safe
  busy_safe stale_safe configuration_actions_safe durability_unknown_safe export_failed_safe internal_safe
  : recovery.

Lemma recovery_is_safe operation summary code context fact actions :
  recovery_for_with_fact operation summary code context fact = Ok actions ->
  Forall (action_safe operation context fact) (as_slice actions) /\ context_matches operation context = true /\
  ((operation = ExecuteRead \/ operation = ExecuteMutation) -> forall recipe, Retry recipe ∉ as_slice actions).
Proof.
  unfold recovery_for_with_fact. destruct (context_matches operation context) eqn:Hc; cbn [negb]; [|done].
  destruct (match fact with FactNone => _ | _ => _ end); [done|]. intros H.
  assert (Forall (action_safe operation context fact) (as_slice actions)) as Hsafe.
  { unfold ok_or in H. case_match eqn:Hactions; [|done]. injection H as ->. revert actions Hactions.
    change (actions_safe operation context fact
      match summary with
      | InvalidInput => invalid_input operation code context
      | CredentialRequired => credential_required operation code context
      | AuthenticationFailed => authentication_failed operation code context
      | PermissionDenied => permission_denied operation code context
      | NetworkUnavailable => network_unavailable operation context
      | TlsVerificationFailed => tls_failed operation code context
      | OperationTimedOut => timed_out operation context
      | SyntaxRejected => execute_only operation context false
      | ConstraintRejected => execute_only operation context true
      | UnsupportedFeature => unsupported operation code context
      | OperationCancelled => cancelled operation context
      | ResourceBusy => busy operation context fact
      | ResourceStale => stale operation context
      | ConfigWriteNotCommitted => config_not_committed operation code
      | SumCommittedDurabilityUnknown => durability_unknown operation code context
      | ExportFailed => export_failed operation context
      | InternalFailure => internal operation context
      end). destruct summary; auto with recovery. }
  split_and!; [exact Hsafe|done|]. intros Hexec recipe Hin.
  rewrite Forall_forall in Hsafe. destruct (Hsafe _ Hin) as [Hidem _]. by destruct Hexec as [-> | ->].
Qed.

(** C37: the recoveries offered for a failed operation concern that operation only:
    they name the profile, draft, result and operation of its context, cancel only
    the operation known to be active, and offer a retry only for an idempotent
    operation with a recipe, never for an executed statement. *)
Theorem recovery_safe operation summary code context fact actions :
  recovery_for_with_fact operation summary code context fact = Ok actions ->
  Forall (action_safe operation context fact) (as_slice actions) /\ context_matches operation context = true /\
  ((operation = ExecuteRead \/ operation = ExecuteMutation) -> forall recipe, Retry recipe ∉ as_slice actions).
Proof. apply recovery_is_safe. Qed.

Lemma recovery_safe_witness :
  recovery_for_with_fact BrowseMySql ResourceBusy PcNone (CtxProfile (lit "pf1") 7 None (Some 7%N)) (FactBusyKnownActive 3)
    = Ok (ne_push (ne_new (CancelOperation 3)) (DismissError 7)) /\
  Forall (action_safe BrowseMySql (CtxProfile (lit "pf1") 7 None (Some 7%N)) (FactBusyKnownActive 3))
    [CancelOperation 3; DismissError 7].
Proof.
  split; [reflexivity|].
  apply (recovery_safe BrowseMySql ResourceBusy PcNone (CtxProfile (lit "pf1") 7 None (Some 7%N)) (FactBusyKnownActive 3)
    (ne_push (ne_new (CancelOperation 3)) (DismissError 7))). reflexivity.
Defined.

(** ** What an execution error becomes *)

(** The driver errors for which the matrix has no row on execution. *)
Definition unlisted_on_execute (error : DriverError) : bool :=
  is_mysql_permission_denied error || is_mysql_authentication_failed error ||
  match error with DeRedis RedisAuthenticationFailed | DeInvalidCatalogRequest => true | _ => false end.

(** The rows of the matrix for execution that depend on the summary only. *)
Lemma execute_row operation summary code profile_id operation_id active recipe_id :
  operation = ExecuteRead \/ operation = ExecuteMutation ->
  summary ∈ [OperationTimedOut; ResourceStale; UnsupportedFeature; NetworkUnavailable] ->
  pe_summary (new_or_internal operation summary code (CtxProfile profile_id operation_id active recipe_id)) = summary.
Proof.
  rewrite !elem_of_cons, elem_of_nil. intros [-> | ->] [-> | [-> | [-> | [-> | []]]]];
    destruct code; reflexivity.
Qed.

Lemma not_mysql_summary error :
  mysql_public_code error = None -> error <> DeInvalidCatalogRequest ->
  driver_summary error = match error with
    | DeTimeout _ _ => OperationTimedOut
    | DeRedisTls _ => TlsVerificationFailed
    | DeRedisKeyMissing | DeRedisKeyTypeChanged => ResourceStale
    | DeRedis RedisAuthenticationFailed => AuthenticationFailed
    | DeRedis RedisServerNoPerm => PermissionDenied
    | DeUnavailable _ _ | DeUnsupported _ _ | DePreparedStatementUnsupported _ => UnsupportedFeature
    | _ => NetworkUnavailable
    end.
Proof.
  intros Hcode Hne. unfold driver_summary, is_mysql_permission_denied, is_mysql_authentication_failed.
  rewrite Hcode. by destruct error.
Qed.

Lemma mysql_error_code error code : mysql_public_code error = Some code -> public_code (SeDriver error) = PcMySql code.
Proof. intros H. destruct error; try discriminate H; unfold public_code; by rewrite H. Qed.

Lemma mysql_error_summary error code :
  mysql_public_code error = Some code ->
  driver_summary error =
    if is_mysql_permission_denied error then PermissionDenied
    else if is_mysql_authentication_failed error then AuthenticationFailed else NetworkUnavailable.
Proof. intros H. by destruct error; try discriminate H. Qed.

(** A driver error of an execution is shown under its own summary, with two
    exceptions the matrix has no row for: a MySQL permission or authentication
    error (its code is [MySql], which the fields of the matrix do not know) and the
    two driver errors without a field code; these are shown as an internal failure
    with an offer to restart the application. *)
Lemma execute_error_shown operation error profile_id operation_id active recipe_id :
  operation = ExecuteRead \/ operation = ExecuteMutation ->
  pe_summary (new_or_internal operation (public_summary (SeDriver error)) (public_code (SeDriver error))
    (CtxProfile profile_id operation_id active recipe_id)) =
  if unlisted_on_execute error then InternalFailure else public_summary (SeDriver error).
Proof.
  intros Hop. unfold unlisted_on_execute. change (public_summary (SeDriver error)) with (driver_summary error).
  destruct (mysql_public_code error) as [code|] eqn:Hcode.
  - rewrite (mysql_error_code error code Hcode), (mysql_error_summary error code Hcode).
    destruct (is_mysql_permission_denied error); [by destruct Hop as [-> | ->]|].
    destruct (is_mysql_authentication_failed error); [by destruct Hop as [-> | ->]|].
    rewrite execute_row by (done || set_solver). by destruct error.
  - unfold is_mysql_permission_denied, is_mysql_authentication_failed. rewrite Hcode.
    destruct (decide (error = DeInvalidCatalogRequest)) as [->|Hne]; [by destruct Hop as [-> | ->]|].
    rewrite (not_mysql_summary error Hcode Hne).
    destruct Hop as [-> | ->], error as [| | | | |kind|failure| | | | | |]; try done; cbn [public_code];
      rewrite ?Hcode; try destruct kind; try destruct failure; done.
Qed.
