(* ===== verification/RedisBrowser.v ===== *)
(** * The Redis key browser (src/src/drivers/redis_browser.rs, data of src/src/model.rs)

    One page of keys from SCAN, the accumulation of pages across a scan cycle, and
    the bounded preview of one key. What the server answers is a parameter: a
    computation of this file is a tree of the commands it sends, each with the
    continuation that consumes the reply. The theorems are in RedisBrowserSafety. *)

From S2P Require Import Prelude RustStr Model Retention Drivers.

(** ** Data *)

Record RedisKeyEntry := { ke_id : RedisKeyId; ke_key_base64 : str; ke_display : str; ke_hex : str }.
#[export] Instance RedisKeyEntry_eq : EqDecision RedisKeyEntry. Proof. solve_decision. Defined.

Inductive RedisScanConsistency := Weak.

Record RedisKeyPage := {
  kp_identity : RequestIdentity;
  kp_next_cursor : N;
  kp_keys : list RedisKeyEntry;
  kp_retained_count : nat;
  kp_skipped_oversize : N;
  kp_retained_bytes : N;
  kp_consistency : RedisScanConsistency;
  kp_truncated : bool;
  kp_stale : bool;
}.

Inductive RedisValueType := VtString | VtHash | VtList | VtSet | VtSortedSet | VtStream | VtModuleOrUnknown.
#[export] Instance RedisValueType_eq : EqDecision RedisValueType. Proof. solve_decision. Defined.

Inductive RedisTtl := TtlMissing | TtlPersistent | TtlExpiresIn (milliseconds : Z).

Record RedisValuePreview := {
  vp_identity : RequestIdentity;
  vp_key : RedisKeyEntry;
  vp_value_type : RedisValueType;
  vp_ttl : RedisTtl;
  vp_size : option N;
  vp_items : list Cell;
  vp_retained_items : nat;
  vp_retained_bytes : N;
  vp_truncated : bool;
  vp_stale : bool;
  vp_transient_allocation : TransientAllocationQualification;
  vp_notices : list ResultNotice;
}.

(** [String::from_utf8_lossy]: a byte sequence that starts no character is replaced,
    up to the length of the longest prefix of a character it starts with. *)
Definition second_byte_ok (a b : N) : bool :=
  (if a =? 0xE0 then (0xA0 <=? b) && (b <? 0xC0)
   else if a =? 0xED then (0x80 <=? b) && (b <? 0xA0)
   else if (0xE1 <=? a) && (a <? 0xF0) then (0x80 <=? b) && (b <? 0xC0)
   else if a =? 0xF0 then (0x90 <=? b) && (b <? 0xC0)
   else if (0xF1 <=? a) && (a <? 0xF4) then (0x80 <=? b) && (b <? 0xC0)
   else if a =? 0xF4 then (0x80 <=? b) && (b <? 0x90)
   else false)%N.

Definition invalid_prefix_len (bs : bytes) : nat :=
  match bs with
  | a :: b :: rest =>
      if second_byte_ok a b then
        match rest with
        | c :: _ => if (0xF0 <=? a)%N && bool_decide (is_Some (continuation c)) then 3 else 2
        | [] => 2
        end
      else 1
  | _ => 1
  end.

Fixpoint from_utf8_lossy_fuel (fuel : nat) (bs : bytes) : str :=
  match bs, fuel with
  | [], _ | _, 0 => []
  | _, S fuel =>
      match decode_char bs with
      | Some (c, bs) => c :: from_utf8_lossy_fuel fuel bs
      | None => 0xFFFD%N :: from_utf8_lossy_fuel fuel (drop (invalid_prefix_len bs) bs)
      end
  end.
Definition from_utf8_lossy (bs : bytes) : str := from_utf8_lossy_fuel (length bs) bs.

(** [{byte:02x}] *)
Definition hex_digit (n : N) : char := if (n <? 10)%N then (48 + n)%N else (87 + n)%N.
Definition hex_byte (b : N) : str := [hex_digit (b / 16); hex_digit (b mod 16)].

(** ** Accumulation of pages *)

Record RedisScanAccumulator := {
  ra_filter : RedisKeyFilter;
  ra_keys : list RedisKeyEntry;
  ra_seen : gset (list N);
  ra_next_cursor : N;
  ra_requested : bool;
  ra_skipped_oversize : N;
  ra_retained_bytes : N;
  ra_truncated : bool;
  ra_stale : bool;
}.

Definition RedisScanAccumulator_new (filter : RedisKeyFilter) : RedisScanAccumulator :=
  {| ra_filter := filter; ra_keys := []; ra_seen := ∅; ra_next_cursor := 0; ra_requested := false;
     ra_skipped_oversize := 0; ra_retained_bytes := 0; ra_truncated := false; ra_stale := false |}.

Definition restart (acc : RedisScanAccumulator) (filter : RedisKeyFilter) : RedisScanAccumulator :=
  RedisScanAccumulator_new filter.

Definition len_bytes (bs : bytes) : N := N.of_nat (length bs).

(** The body of the loop over the page's keys. *)
Definition apply_key (acc : RedisScanAccumulator) (key : RedisKeyEntry) : RedisScanAccumulator :=
  let raw := ke_id key in
  let dropped skipped :=
    {| ra_filter := ra_filter acc; ra_keys := ra_keys acc; ra_seen := ra_seen acc;
       ra_next_cursor := ra_next_cursor acc; ra_requested := ra_requested acc;
       ra_skipped_oversize := skipped; ra_retained_bytes := ra_retained_bytes acc;
       ra_truncated := true; ra_stale := ra_stale acc |} in
  if (MAX_REDIS_KEY_BYTES <? len_bytes raw)%N then dropped (saturating_add (ra_skipped_oversize acc) 1)
  else if bool_decide (raw ∈ ra_seen acc) then acc
  else
    let next_bytes := saturating_add (ra_retained_bytes acc) (len_bytes raw) in
    if (MAX_REDIS_KEYS <=? N.of_nat (length (ra_keys acc)))%N || (MAX_REDIS_RETAINED_KEY_BYTES <? next_bytes)%N
    then dropped (ra_skipped_oversize acc)
    else
      {| ra_filter := ra_filter acc; ra_keys := ra_keys acc ++ [key]; ra_seen := {[ raw ]} ∪ ra_seen acc;
         ra_next_cursor := ra_next_cursor acc; ra_requested := ra_requested acc;
         ra_skipped_oversize := ra_skipped_oversize acc; ra_retained_bytes := next_bytes;
         ra_truncated := ra_truncated acc; ra_stale := ra_stale acc |}.

Definition apply_page (acc : RedisScanAccumulator) (page : RedisKeyPage) : RedisScanAccumulator :=
  foldl apply_key
    {| ra_filter := ra_filter acc; ra_keys := ra_keys acc; ra_seen := ra_seen acc;
       ra_next_cursor := kp_next_cursor page; ra_requested := true;
       ra_skipped_oversize := saturating_add (ra_skipped_oversize acc) (kp_skipped_oversize page);
       ra_retained_bytes := ra_retained_bytes acc;
       ra_truncated := ra_truncated acc || kp_truncated page || (0 <? kp_skipped_oversize page)%N;
       ra_stale := ra_stale acc || kp_stale page |} (kp_keys page).

Definition is_complete (acc : RedisScanAccumulator) : bool :=
  ra_requested acc && (ra_next_cursor acc =? 0)%N.

Definition mark_stale (acc : RedisScanAccumulator) : RedisScanAccumulator :=
  {| ra_filter := ra_filter acc; ra_keys := ra_keys acc; ra_seen := ra_seen acc;
     ra_next_cursor := ra_next_cursor acc; ra_requested := ra_requested acc;
     ra_skipped_oversize := ra_skipped_oversize acc; ra_retained_bytes := ra_retained_bytes acc;
     ra_truncated := ra_truncated acc; ra_stale := true |}.

(** ** Talking to the server *)

(** [redis::Value], the variants the program distinguishes; [RvOther] stands for the
    remaining ones.  A big number is its value (its [to_string] is the decimal text),
    a float its bit pattern; what the program does not read is left out. *)
Inductive RedisValue :=
| RvNil
| RvInt (value : Z)
| RvBulkString (value : bytes)
| RvArray (values : list RedisValue)
| RvSimpleString (value : str)
| RvOkay
| RvMap (entries : list (RedisValue * RedisValue))
| RvSet (values : list RedisValue)
| RvDouble (value : f64)
| RvBoolean (value : bool)
| RvVerbatimString (text : str)
| RvBigNumber (value : Z)
| RvAttribute (data : RedisValue) (attributes : list (RedisValue * RedisValue))
| RvPush (data : list RedisValue)
| RvServerError
| RvOther.

(** What [timeout(..., command.query_async(connection))] can come back with: the
    error code is what [redis::RedisError::code] returns. *)
Inductive Reply := Replied (value : RedisValue) | ReplyTimeout | ReplyFailed (kind : RedisErrorKind) (code : option str).

Abbreviation command := (list bytes) (only parsing).

(** A computation: a result, or a command sent and what is done with the reply. *)
Inductive Rd (A : Type) :=
| RdDone (r : result DriverError A)
| RdSend (cmd : command) (timeout : Duration) (k : Reply -> Rd A).
Arguments RdDone {A}.
Arguments RdSend {A}.

#[export] Instance Rd_ret : MRet Rd := fun A a => RdDone (Ok a).
#[export] Instance Rd_bind : MBind Rd :=
  fun A B f => fix go m :=
    match m with
    | RdDone (Ok a) => f a
    | RdDone (Err e) => RdDone (Err e)
    | RdSend cmd timeout k => RdSend cmd timeout (fun reply => go (k reply))
    end.

Definition rd_lift {A} (r : result DriverError A) : Rd A := RdDone r.

(** The computation against a server with a state of its own; the log holds each
    command with its reply. *)
Fixpoint run {σ A} (server : command -> σ -> Reply * σ) (m : Rd A) (s : σ) :
    list (command * Reply) * result DriverError A * σ :=
  match m with
  | RdDone r => ([], r, s)
  | RdSend cmd _ k =>
      let '(reply, s) := server cmd s in
      let '(log, r, s) := run server (k reply) s in
      ((cmd, reply) :: log, r, s)
  end.

(** [redis::cmd(name).arg(a)...] *)
Definition cmd (name : str) (args : list bytes) : command := encode name :: args.
Definition arg (text : str) : bytes := encode text.
Definition arg_N (n : N) : bytes := encode (display_N n).

(** ** The crates *)

(** [redis::FromRedisValue] at the types the browser asks for; a value of another
    shape is a conversion error, which the crate reports with a kind and no code. *)
Record FromRedis := {
  from_u64 : RedisValue -> result RedisErrorKind N;
  from_i64 : RedisValue -> result RedisErrorKind Z;
  from_string : RedisValue -> result RedisErrorKind str;
  from_bytes_list : RedisValue -> result RedisErrorKind (list bytes);
  from_cursor_keys : RedisValue -> result RedisErrorKind (N * list bytes);
  from_cursor_pairs : RedisValue -> result RedisErrorKind (N * list (bytes * bytes));
  from_scored : RedisValue -> result RedisErrorKind (list (bytes * f64));
}.

(** The crates the browser calls: [redis] conversions, [base64] of bytes,
    [serde_json::to_string], [f64::to_string], [serde_json::Number::from_f64], the
    size of a [Cell] in memory, and the texts of the validation errors. *)
Record Crates := {
  redis_crate : FromRedis;
  base64 : bytes -> str;
  json_to_string : json -> str;
  f64_to_string : f64 -> str;
  f64_to_json : f64 -> json;
  cell_size : N;
  validation_message : RequestValidationError -> str;
}.

Section browser.
Context (crates : Crates).

Definition RedisKeyEntry_new (id : RedisKeyId) : RedisKeyEntry :=
  {| ke_id := id; ke_key_base64 := base64 crates id; ke_display := from_utf8_lossy id;
     ke_hex := concat (hex_byte <$> id) |}.

(** ** Queries *)

Definition redis_timeout (timeout : Duration) : DriverError := DeTimeout Redis (as_secs timeout).

Definition query {A} (convert : RedisValue -> result RedisErrorKind A) (timeout : Duration) (cmd : command) : Rd A :=
  RdSend cmd timeout (fun reply =>
    RdDone match reply with
           | ReplyTimeout => Err (redis_timeout timeout)
           | ReplyFailed kind _ => Err (DeRedis kind)
           | Replied value => map_err DeRedis (convert value)
           end).

Definition key_query {A} (convert : RedisValue -> result RedisErrorKind A) (timeout : Duration) (cmd : command) :
    Rd A :=
  RdSend cmd timeout (fun reply =>
    RdDone match reply with
           | ReplyTimeout => Err (redis_timeout timeout)
           | ReplyFailed kind code =>
               Err (if bool_decide (code = Some (lit "WRONGTYPE")) then DeRedisKeyTypeChanged else DeRedis kind)
           | Replied value => map_err DeRedis (convert value)
           end).

(** [FromRedisValue for redis::Value] *)
Definition from_value (value : RedisValue) : result RedisErrorKind RedisValue := Ok value.

Definition invalid_config (error : RequestValidationError) : DriverError :=
  DeInvalidConfig Redis (validation_message crates error).

(** ** One page of keys *)

Record PageState := {
  pg_seen : gset (list N);
  pg_keys : list RedisKeyEntry;
  pg_retained_bytes : N;
  pg_skipped_oversize : N;
  pg_truncated : bool;
}.

Definition scan_key (s : PageState) (raw : bytes) : PageState :=
  if (MAX_REDIS_KEY_BYTES <? len_bytes raw)%N then
    {| pg_seen := pg_seen s; pg_keys := pg_keys s; pg_retained_bytes := pg_retained_bytes s;
       pg_skipped_oversize := saturating_add (pg_skipped_oversize s) 1; pg_truncated := true |}
  else if bool_decide (raw ∈ pg_seen s) then s
  else
    let seen := {[ raw ]} ∪ pg_seen s in
    let next_bytes := saturating_add (pg_retained_bytes s) (len_bytes raw) in
    if (MAX_REDIS_KEYS <=? N.of_nat (length (pg_keys s)))%N || (MAX_REDIS_RETAINED_KEY_BYTES <? next_bytes)%N
    then {| pg_seen := seen; pg_keys := pg_keys s; pg_retained_bytes := pg_retained_bytes s;
            pg_skipped_oversize := pg_skipped_oversize s; pg_truncated := true |}
    else {| pg_seen := seen; pg_keys := pg_keys s ++ [RedisKeyEntry_new raw]; pg_retained_bytes := next_bytes;
            pg_skipped_oversize := pg_skipped_oversize s; pg_truncated := pg_truncated s |}.

Definition scan_page (request : RedisScanRequest) (next_cursor : N) (raw_keys : list bytes) : RedisKeyPage :=
  let s := foldl scan_key {| pg_seen := ∅; pg_keys := []; pg_retained_bytes := 0; pg_skipped_oversize := 0;
                             pg_truncated := false |} raw_keys in
  {| kp_identity := rs_identity request; kp_next_cursor := next_cursor; kp_retained_count := length (pg_keys s);
     kp_keys := pg_keys s; kp_skipped_oversize := pg_skipped_oversize s; kp_retained_bytes := pg_retained_bytes s;
     kp_consistency := Weak; kp_truncated := pg_truncated s; kp_stale := false |}.

Definition scan_keys (request : RedisScanRequest) : Rd RedisKeyPage :=
  _ ← rd_lift (map_err invalid_config (RedisScanRequest_validate request));
  pattern ← rd_lift (map_err invalid_config (match_pattern (rs_filter request)));
  '(next_cursor, raw_keys) ←
    query (from_cursor_keys (redis_crate crates)) (rs_timeout request)
      (cmd (lit "SCAN") [arg_N (rs_cursor request); arg (lit "MATCH"); encode pattern; arg (lit "COUNT");
                         arg_N (rs_count_hint request)]);
  mret (scan_page request next_cursor raw_keys).

(** ** Bounded previews *)

Definition utf8_prefix_len (value : str) (maximum : N) : nat :=
  floor_char_boundary value (N.to_nat (N.min (str_len value) maximum)).

(** [value[..end]], for an end on a character boundary. *)
Definition str_prefix (value : str) (stop : nat) : str := default value (fst <$> split_at_byte value stop).

Definition cell_materialized_bytes (cell : Cell) : N :=
  match cell with
  | CText value | CDecimal value => str_len value
  | CTextPreview preview _ | CJsonPreview preview _ => str_len preview
  | CBytes retained _ => len_bytes retained
  | CJson value => str_len (json_to_string crates value)
  | CNull | CBool _ | CInt _ | CUInt _ | CFloat _ | CDateTime _ => cell_size crates
  end.

Definition bounded_preview_cell (cell : Cell) (source_original_len : N) (already_truncated : bool) : Cell :=
  match cell with
  | CText value =>
      let original_len := N.max source_original_len (str_len value) in
      let stop := utf8_prefix_len value MAX_REDIS_CELL_BYTES in
      let value := str_prefix value stop in
      if already_truncated || (N.of_nat stop <? original_len)%N then CTextPreview value original_len else CText value
  | CTextPreview preview original_len =>
      let original_len := N.max (N.max source_original_len original_len) (str_len preview) in
      CTextPreview (str_prefix preview (utf8_prefix_len preview MAX_REDIS_CELL_BYTES)) original_len
  | CBytes retained original_len =>
      let original_len := N.max (N.max source_original_len original_len) (len_bytes retained) in
      CBytes (take (N.to_nat MAX_REDIS_CELL_BYTES) retained) original_len
  | CJson value =>
      let preview := json_to_string crates value in
      let original_len := N.max source_original_len (str_len preview) in
      let stop := utf8_prefix_len preview MAX_REDIS_CELL_BYTES in
      if already_truncated || (N.of_nat stop <? str_len preview)%N
      then CJsonPreview (str_prefix preview stop) original_len else CJson value
  | CJsonPreview preview original_len =>
      let original_len := N.max (N.max source_original_len original_len) (str_len preview) in
      CJsonPreview (str_prefix preview (utf8_prefix_len preview MAX_REDIS_CELL_BYTES)) original_len
  | scalar => scalar
  end.

Record PreviewRetention := {
  pv_items : list Cell;
  pv_retained_bytes : N;
  pv_truncated : bool;
  pv_depth_truncated : bool;
}.

Definition PreviewRetention_new : PreviewRetention :=
  {| pv_items := []; pv_retained_bytes := 0; pv_truncated := false; pv_depth_truncated := false |}.

Definition mark_more (p : PreviewRetention) (more : bool) : PreviewRetention :=
  {| pv_items := pv_items p; pv_retained_bytes := pv_retained_bytes p; pv_truncated := pv_truncated p || more;
     pv_depth_truncated := pv_depth_truncated p |}.

Definition retained_cell_is_truncated (cell : Cell) : bool :=
  match cell with
  | CTextPreview _ _ | CJsonPreview _ _ => true
  | CBytes retained original_len => (len_bytes retained <? original_len)%N
  | _ => false
  end.

Definition push (p : PreviewRetention) (cell : Cell) (source_original_len : N) (cell_truncated : bool) :
    PreviewRetention :=
  let cell := bounded_preview_cell cell source_original_len cell_truncated in
  let materialized_bytes := cell_materialized_bytes cell in
  if (MAX_REDIS_PREVIEW_ITEMS <=? N.of_nat (length (pv_items p)))%N
     || (MAX_REDIS_PREVIEW_BYTES <? saturating_add (pv_retained_bytes p) materialized_bytes)%N
  then {| pv_items := pv_items p; pv_retained_bytes := pv_retained_bytes p; pv_truncated := true;
          pv_depth_truncated := pv_depth_truncated p |}
  else {| pv_items := pv_items p ++ [cell];
          pv_retained_bytes := saturating_add (pv_retained_bytes p) materialized_bytes;
          pv_truncated := pv_truncated p || (cell_truncated || retained_cell_is_truncated cell);
          pv_depth_truncated := pv_depth_truncated p |}.

(** The cell of a byte string: its text when it is UTF-8. *)
Definition binary_cell (bs : bytes) : Cell :=
  let original_len := len_bytes bs in
  match from_utf8 bs with
  | Some value =>
      let stop := utf8_prefix_len value MAX_REDIS_CELL_BYTES in
      if (N.of_nat stop <? original_len)%N then CTextPreview (str_prefix value stop) original_len else CText value
  | None => CBytes (take (N.to_nat (N.min original_len MAX_REDIS_CELL_BYTES)) bs) original_len
  end.

Definition push_binary (p : PreviewRetention) (bs : bytes) : PreviewRetention :=
  let original_len := len_bytes bs in
  let cell := binary_cell bs in
  let cell_truncated :=
    match cell with
    | CText _ => false
    | CTextPreview _ _ => true
    | CBytes retained original_len => (len_bytes retained <? original_len)%N
    | _ => false
    end in
  push p cell original_len cell_truncated.

Definition json_N (n : N) : json := JNumber (display_N n).

Definition binary_json (bs : bytes) (allowance : N) : json :=
  match from_utf8 bs with
  | Some value =>
      let retained := str_prefix value (utf8_prefix_len value allowance) in
      JObject [(lit "text", JString retained); (lit "original_len", json_N (len_bytes bs));
               (lit "truncated", JBool (str_len retained <? len_bytes bs)%N)]
  | None =>
      let raw_allowance := (allowance / 4 * 3)%N in
      let retained := take (N.to_nat (N.min (len_bytes bs) raw_allowance)) bs in
      JObject [(lit "base64", JString (base64 crates retained)); (lit "original_len", json_N (len_bytes bs));
               (lit "truncated", JBool (len_bytes retained <? len_bytes bs)%N)]
  end.

Definition push_pair (p : PreviewRetention) (left_name : str) (left : bytes) (right_name : str) (right : bytes) :
    PreviewRetention :=
  let raw_len := saturating_add (len_bytes left) (len_bytes right) in
  let cell_truncated := (MAX_REDIS_CELL_BYTES <? raw_len)%N in
  let allowance := (saturating_sub MAX_REDIS_CELL_BYTES 512 / 2)%N in
  let cell := CJson (JObject [(left_name, binary_json left allowance); (right_name, binary_json right allowance)]) in
  push p cell raw_len cell_truncated.

Definition push_scored (p : PreviewRetention) (member : bytes) (score : f64) : PreviewRetention :=
  let raw_len := saturating_add (len_bytes member) 8 in
  let cell_truncated := (MAX_REDIS_CELL_BYTES <? raw_len)%N in
  let cell := CJson (JObject [(lit "member", binary_json member (saturating_sub MAX_REDIS_CELL_BYTES 512));
                              (lit "score", JString (f64_to_string crates score))]) in
  push p cell raw_len cell_truncated.

Definition push_static_unsupported (p : PreviewRetention) : PreviewRetention :=
  push p (CText (lit "[unsupported-redis-type]")) 24 false.

Definition notices (p : PreviewRetention) : list ResultNotice :=
  [RedisTransientFrameAllocation]
  ++ (if pv_truncated p then [CellPreviewTruncated] else [])
  ++ (if pv_depth_truncated p then [RedisDepthLimitReached] else []).

(** *** RESP values as bounded JSON *)

(** The [&mut] arguments of [bounded_resp_json]. *)
Record RespState := { rj_retained : N; rj_truncated : bool; rj_depth_truncated : bool }.

Definition bounded_string_json (value : str) (s : RespState) : json * RespState :=
  let allowance := saturating_sub MAX_REDIS_CELL_BYTES (rj_retained s) in
  let stop := utf8_prefix_len value allowance in
  (JString (str_prefix value stop),
   {| rj_retained := saturating_add (rj_retained s) (N.of_nat stop);
      rj_truncated := rj_truncated s || (N.of_nat stop <? str_len value)%N;
      rj_depth_truncated := rj_depth_truncated s |}).

Definition over_items {A} (values : list A) (s : RespState) : RespState :=
  {| rj_retained := rj_retained s;
     rj_truncated := rj_truncated s || (MAX_REDIS_PREVIEW_ITEMS <? N.of_nat (length values))%N;
     rj_depth_truncated := rj_depth_truncated s |}.

Fixpoint bounded_resp_json (value : RedisValue) (depth : N) (s : RespState) : json * RespState :=
  if (MAX_REDIS_DEPTH <=? depth)%N || (MAX_REDIS_CELL_BYTES <=? rj_retained s)%N then
    (JString (lit "[dbotter-truncated]"),
     {| rj_retained := rj_retained s; rj_truncated := true;
        rj_depth_truncated := rj_depth_truncated s || (MAX_REDIS_DEPTH <=? depth)%N |})
  else
    match value with
    | RvNil => (JNull, s)
    | RvInt value => (JNumber (display_Z value), s)
    | RvBulkString value =>
        let allowance := saturating_sub MAX_REDIS_CELL_BYTES (rj_retained s) in
        (binary_json value allowance,
         {| rj_retained := saturating_add (rj_retained s) (N.min (len_bytes value) allowance);
            rj_truncated := rj_truncated s || (allowance <? len_bytes value)%N;
            rj_depth_truncated := rj_depth_truncated s |})
    | RvSimpleString value => bounded_string_json value s
    | RvOkay => (JString (lit "OK"), s)
    | RvDouble value => (f64_to_json crates value, s)
    | RvBoolean value => (JBool value, s)
    | RvArray values | RvSet values =>
        let '(items, s) :=
          (fix go values (n : nat) s :=
            match values, n with
            | value :: values, S n =>
                let '(item, s) := bounded_resp_json value (depth + 1) s in
                let '(items, s) := go values n s in
                (item :: items, s)
            | _, _ => ([], s)
            end) values (N.to_nat MAX_REDIS_PREVIEW_ITEMS) (over_items values s) in
        (JArray items, s)
    | RvMap entries =>
        let '(items, s) :=
          (fix go entries (n : nat) s :=
            match entries, n with
            | (key, value) :: entries, S n =>
                let '(key, s) := bounded_resp_json key (depth + 1) s in
                let '(value, s) := bounded_resp_json value (depth + 1) s in
                let '(items, s) := go entries n s in
                (JObject [(lit "key", key); (lit "value", value)] :: items, s)
            | _, _ => ([], s)
            end) entries (N.to_nat MAX_REDIS_PREVIEW_ITEMS) (over_items entries s) in
        (JArray items, s)
    | RvVerbatimString text => bounded_string_json text s
    | RvBigNumber value => bounded_string_json (display_Z value) s
    | RvAttribute _ _ | RvPush _ | RvServerError | RvOther => (JString (lit "[unsupported-resp-value]"), s)
    end.

Definition push_resp (p : PreviewRetention) (value : RedisValue) : PreviewRetention :=
  let '(j, s) := bounded_resp_json value 0
    {| rj_retained := 0; rj_truncated := false; rj_depth_truncated := pv_depth_truncated p |} in
  push {| pv_items := pv_items p; pv_retained_bytes := pv_retained_bytes p; pv_truncated := pv_truncated p;
          pv_depth_truncated := rj_depth_truncated s |} (CJson j) (rj_retained s) (rj_truncated s).

Definition push_resp_sequence (p : PreviewRetention) (value : RedisValue) : PreviewRetention :=
  match value with
  | RvArray values | RvSet values => foldl push_resp p values
  | RvNil => p
  | value => push_resp p value
  end.

(** ** One key *)

Definition bulk_bytes (value : RedisValue) : result DriverError bytes :=
  match value with
  | RvBulkString bs => Ok bs
  | RvSimpleString value => Ok (encode value)
  | RvNil => Err DeRedisKeyMissing
  | _ => Err DeRedisKeyTypeChanged
  end.

Definition key_type (raw_key : bytes) (timeout : Duration) : Rd str :=
  value ← key_query (from_string (redis_crate crates)) timeout (cmd (lit "TYPE") [raw_key]);
  mret (to_ascii_lowercase value).

Definition read_ttl (raw_key : bytes) (timeout : Duration) : Rd RedisTtl :=
  pttl ← key_query (from_i64 (redis_crate crates)) timeout (cmd (lit "PTTL") [raw_key]);
  rd_lift (if (pttl =? -2)%Z then Err DeRedisKeyMissing
           else if (pttl =? -1)%Z then Ok TtlPersistent
           else if (0 <=? pttl)%Z then Ok (TtlExpiresIn pttl)
           else Err (DeRedisParse (lit "unexpected static PTTL state"))).

Definition value_type (redis_type : str) : RedisValueType :=
  if bool_decide (redis_type = lit "string") then VtString
  else if bool_decide (redis_type = lit "hash") then VtHash
  else if bool_decide (redis_type = lit "list") then VtList
  else if bool_decide (redis_type = lit "set") then VtSet
  else if bool_decide (redis_type = lit "zset") then VtSortedSet
  else if bool_decide (redis_type = lit "stream") then VtStream
  else VtModuleOrUnknown.

(** The match on the value's type: its size and the preview of its first items. *)
Definition read_value (value_type : RedisValueType) (raw_key : bytes) (timeout : Duration) (p : PreviewRetention) :
    Rd (option N * PreviewRetention) :=
  let count size (length : nat) := (N.of_nat length <? size)%N in
  let size_of name := key_query (from_u64 (redis_crate crates)) timeout (cmd (lit name) [raw_key]) in
  match value_type with
  | VtString =>
      size ← size_of "STRLEN"%string;
      value ← key_query from_value timeout (cmd (lit "GETRANGE") [raw_key; arg_N 0; arg_N 65535]);
      bs ← rd_lift (bulk_bytes value);
      mret (Some size, push_binary (mark_more p (count size (length bs))) bs)
  | VtHash =>
      size ← size_of "HLEN"%string;
      '(next_cursor, entries) ← key_query (from_cursor_pairs (redis_crate crates)) timeout
        (cmd (lit "HSCAN") [raw_key; arg_N 0; arg (lit "COUNT"); arg_N 100]);
      let p := mark_more p (negb (next_cursor =? 0)%N || count size (length entries)) in
      mret (Some size, foldl (fun p '(field, value) => push_pair p (lit "field") field (lit "value") value) p entries)
  | VtList =>
      size ← size_of "LLEN"%string;
      values ← key_query (from_bytes_list (redis_crate crates)) timeout
        (cmd (lit "LRANGE") [raw_key; arg_N 0; arg_N 99]);
      mret (Some size, foldl push_binary (mark_more p (count size (length values))) values)
  | VtSet =>
      size ← size_of "SCARD"%string;
      '(next_cursor, values) ← key_query (from_cursor_keys (redis_crate crates)) timeout
        (cmd (lit "SSCAN") [raw_key; arg_N 0; arg (lit "COUNT"); arg_N 100]);
      let p := mark_more p (negb (next_cursor =? 0)%N || count size (length values)) in
      mret (Some size, foldl push_binary p values)
  | VtSortedSet =>
      size ← size_of "ZCARD"%string;
      values ← key_query (from_scored (redis_crate crates)) timeout
        (cmd (lit "ZRANGE") [raw_key; arg_N 0; arg_N 99; arg (lit "WITHSCORES")]);
      let p := mark_more p (count size (length values)) in
      mret (Some size, foldl (fun p '(member, score) => push_scored p member score) p values)
  | VtStream =>
      size ← size_of "XLEN"%string;
      value ← key_query from_value timeout
        (cmd (lit "XRANGE") [raw_key; arg (lit "-"); arg (lit "+"); arg (lit "COUNT"); arg_N 100]);
      let p := match value with RvArray values => mark_more p (count size (length values)) | _ => p end in
      mret (Some size, push_resp_sequence p value)
  | VtModuleOrUnknown => mret (None, push_static_unsupported p)
  end.

Definition inspect_key (request : RedisKeyInspectRequest) : Rd RedisValuePreview :=
  _ ← rd_lift (map_err invalid_config (RedisKeyInspectRequest_validate request));
  let raw_key := rk_key request in
  initial_type ← key_type raw_key (rk_timeout request);
  _ ← rd_lift (reject_if (bool_decide (initial_type = lit "none")) DeRedisKeyMissing);
  ttl ← read_ttl raw_key (rk_timeout request);
  '(size, preview) ← read_value (value_type initial_type) raw_key (rk_timeout request) PreviewRetention_new;
  final_type ← key_type raw_key (rk_timeout request);
  _ ← rd_lift (reject_if (bool_decide (final_type = lit "none")) DeRedisKeyMissing);
  _ ← rd_lift (reject_if (bool_decide (final_type <> initial_type)) DeRedisKeyTypeChanged);
  mret {| vp_identity := rk_identity request; vp_key := RedisKeyEntry_new raw_key;
          vp_value_type := value_type initial_type; vp_ttl := ttl; vp_size := size;
          vp_retained_items := length (pv_items preview); vp_items := pv_items preview;
          vp_retained_bytes := pv_retained_bytes preview; vp_truncated := pv_truncated preview; vp_stale := false;
          vp_transient_allocation := RedisWholeRespFrame; vp_notices := notices preview |}.
End browser.

Definition inspect_command_names (value_type : RedisValueType) : list str :=
  match value_type with
  | VtString => [lit "TYPE"; lit "PTTL"; lit "STRLEN"; lit "GETRANGE"; lit "TYPE"]
  | VtHash => [lit "TYPE"; lit "PTTL"; lit "HLEN"; lit "HSCAN"; lit "TYPE"]
  | VtList => [lit "TYPE"; lit "PTTL"; lit "LLEN"; lit "LRANGE"; lit "TYPE"]
  | VtSet => [lit "TYPE"; lit "PTTL"; lit "SCARD"; lit "SSCAN"; lit "TYPE"]
  | VtSortedSet => [lit "TYPE"; lit "PTTL"; lit "ZCARD"; lit "ZRANGE"; lit "TYPE"]
  | VtStream => [lit "TYPE"; lit "PTTL"; lit "XLEN"; lit "XRANGE"; lit "TYPE"]
  | VtModuleOrUnknown => [lit "TYPE"; lit "PTTL"; lit "TYPE"]
  end.
