(* ===== verification/RedisBrowserSafety.v ===== *)
(** * What the Redis key browser keeps

    The pages of a scan cycle and the preview of a key are compared with reference
    definitions: the keys kept are the first occurrences of the keys the server
    returned, within the limits, and anything left out is reported; a preview stays
    within its limits and is taken with the type's static read commands, between two
    agreeing type checks. *)

From S2P Require Import Prelude RustStr Model Execution Retention Drivers RedisBrowser.

(** ** Collecting distinct keys within limits *)

(** The elements of a list at their first occurrence. *)
Fixpoint first_occurrences (l : list bytes) : list bytes :=
  match l with
  | [] => []
  | x :: l => x :: filter (fun y => y <> x) (first_occurrences l)
  end.

Definition total_bytes (l : list bytes) : N := sum_N (len_bytes <$> l).

Lemma total_bytes_app a b : total_bytes (a ++ b) = (total_bytes a + total_bytes b)%N.
Proof. unfold total_bytes. by rewrite (fmap_app len_bytes), sum_N_app. Qed.

Lemma elem_of_first_occurrences l x : x ∈ first_occurrences l <-> x ∈ l.
Proof.
  induction l as [|y l IH]; cbn [first_occurrences]; [done|].
  rewrite !elem_of_cons, list_elem_of_filter, IH. destruct (decide (x = y)); naive_solver.
Qed.

Lemma first_occurrences_NoDup l : NoDup (first_occurrences l).
Proof.
  induction l as [|y l IH]; cbn; [constructor|]. constructor; [|by apply NoDup_filter].
  rewrite list_elem_of_filter. naive_solver.
Qed.

Lemma first_occurrences_snoc l x :
  first_occurrences (l ++ [x]) = first_occurrences l ++ (if decide (x ∈ l) then [] else [x]).
Proof.
  induction l as [|y l IH]; cbn [first_occurrences app].
  - by rewrite decide_False by set_solver.
  - rewrite IH, filter_app. f_equal. f_equal. destruct (decide (x ∈ l)) as [Hx|Hx].
    + rewrite decide_True by set_solver. done.
    + destruct (decide (x = y)) as [->|Hne].
      * rewrite decide_True by set_solver. rewrite filter_cons_False, filter_nil by naive_solver. done.
      * rewrite decide_False by set_solver. rewrite filter_cons_True, filter_nil by done. done.
Qed.

Lemma first_occurrences_app a b :
  first_occurrences (a ++ b) = first_occurrences a ++ filter (fun y => y ∉ a) (first_occurrences b).
Proof.
  induction a as [|x a IH]; cbn [app first_occurrences].
  { f_equal. induction (first_occurrences b) as [|y l IH]; [done|].
    rewrite filter_cons_True by set_solver. by f_equal. }
  rewrite IH, filter_app, list_filter_filter. f_equal. f_equal. apply list_filter_iff. set_solver.
Qed.

Lemma NoDup_first_occurrences l : NoDup l -> first_occurrences l = l.
Proof.
  induction 1 as [|x l Hx _ IH]; cbn; [done|]. rewrite IH. f_equal.
  clear IH. induction l as [|y l IH]; [done|]. rewrite filter_cons_True by set_solver. f_equal. set_solver.
Qed.

Lemma first_occurrences_concat ls :
  first_occurrences (concat (first_occurrences <$> ls)) = first_occurrences (concat ls).
Proof.
  induction ls as [|l ls IH]; [done|]. cbn [fmap list_fmap concat].
  rewrite !first_occurrences_app, IH, (NoDup_first_occurrences _ (first_occurrences_NoDup l)).
  f_equal. apply list_filter_iff. intros x. by rewrite elem_of_first_occurrences.
Qed.

Lemma total_bytes_submseteq a b : a ⊆+ b -> (total_bytes a <= total_bytes b)%N.
Proof.
  intros (k & Hp)%submseteq_Permutation.
  assert (forall x y, x ≡ₚ y -> total_bytes x = total_bytes y) as Hperm.
  { induction 1; unfold total_bytes, sum_N in *; cbn in *; lia. }
  rewrite (Hperm _ _ Hp), total_bytes_app. lia.
Qed.

(** The keys fit when none is oversize and the distinct ones respect the caps. *)
Definition fits (raws : list bytes) : Prop :=
  Forall (fun raw => (len_bytes raw <= MAX_REDIS_KEY_BYTES)%N) raws /\
  (N.of_nat (length (first_occurrences raws)) <= MAX_REDIS_KEYS)%N /\
  (total_bytes (first_occurrences raws) <= MAX_REDIS_RETAINED_KEY_BYTES)%N.

Definition is_capped (ids : list bytes) (raw : bytes) : bool :=
  (MAX_REDIS_KEYS <=? N.of_nat (length ids))%N
  || (MAX_REDIS_RETAINED_KEY_BYTES <? saturating_add (total_bytes ids) (len_bytes raw))%N.

(** What both loops do with one key, on the identifiers kept and the flag. *)
Definition collect (s : list bytes * bool) (raw : bytes) : list bytes * bool :=
  let '(ids, truncated) := s in
  if (MAX_REDIS_KEY_BYTES <? len_bytes raw)%N then (ids, true)
  else if bool_decide (raw ∈ ids) then s
  else if is_capped ids raw then (ids, true)
  else (ids ++ [raw], truncated).

Record collected (raws ids : list bytes) (truncated : bool) : Prop := {
  co_nodup : NoDup ids;
  co_sublist : ids `sublist_of` first_occurrences raws;
  co_sizes : Forall (fun raw => (len_bytes raw <= MAX_REDIS_KEY_BYTES)%N) ids;
  co_count : (N.of_nat (length ids) <= MAX_REDIS_KEYS)%N;
  co_bytes : (total_bytes ids <= MAX_REDIS_RETAINED_KEY_BYTES)%N;
  co_lossless : truncated = false -> ids = first_occurrences raws;
  co_reported : truncated = false <-> fits raws;
  co_dropped raw :
    raw ∈ raws -> raw ∉ ids -> (MAX_REDIS_KEY_BYTES < len_bytes raw)%N \/ is_capped ids raw = true;
}.

Lemma fits_snoc raws x : fits (raws ++ [x]) -> fits raws.
Proof.
  unfold fits. rewrite Forall_app, first_occurrences_snoc, length_app, total_bytes_app. intros (? & ? & ?).
  split_and!; [naive_solver|lia|lia].
Qed.

Lemma fits_subseteq raws raws' : raws' ⊆ raws -> fits raws -> fits raws'.
Proof.
  intros Hsub (Hall & Hcount & Hbytes).
  assert (Hs : first_occurrences raws' ⊆+ first_occurrences raws).
  { apply NoDup_submseteq; [apply first_occurrences_NoDup|]. intros x. rewrite !elem_of_first_occurrences. apply Hsub. }
  pose proof (submseteq_length _ _ Hs). pose proof (total_bytes_submseteq _ _ Hs).
  split_and!; [|lia|lia]. apply Forall_forall. intros x Hx. rewrite Forall_forall in Hall. auto.
Qed.

Lemma is_capped_spec ids raw :
  (total_bytes ids <= MAX_REDIS_RETAINED_KEY_BYTES)%N -> (len_bytes raw <= MAX_REDIS_KEY_BYTES)%N ->
  is_capped ids raw = false <->
  (N.of_nat (length (ids ++ [raw])) <= MAX_REDIS_KEYS)%N /\
  (total_bytes (ids ++ [raw]) <= MAX_REDIS_RETAINED_KEY_BYTES)%N.
Proof.
  intros Hb Hr. unfold is_capped. rewrite orb_false_iff, N.leb_gt, N.ltb_ge, length_app, total_bytes_app.
  unfold saturating_add, total_bytes, USIZE_MAX, MAX_REDIS_RETAINED_KEY_BYTES, MAX_REDIS_KEY_BYTES in *. cbn. lia.
Qed.

Lemma is_capped_app ids ids' raw : is_capped ids raw = true -> is_capped (ids ++ ids') raw = true.
Proof.
  unfold is_capped. rewrite !orb_true_iff, !N.leb_le, !N.ltb_lt, length_app, total_bytes_app.
  unfold saturating_add. lia.
Qed.

(** A key left out changes nothing but the flag. *)
Lemma collected_drop raws ids truncated x :
  collected raws ids truncated -> x ∉ ids ->
  (MAX_REDIS_KEY_BYTES < len_bytes x)%N \/ is_capped ids x = true ->
  collected (raws ++ [x]) ids true.
Proof.
  intros [Hnd Hsub Hsz Hc Hb Hl Hr Hd] Hx Hwhy. split; try done.
  - rewrite first_occurrences_snoc. by apply sublist_inserts_r.
  - split; [done|]. intros Hfits. pose proof (Hl (proj2 Hr (fits_snoc _ _ Hfits))) as Hids.
    destruct Hfits as (Hall & H1 & H2). apply Forall_app in Hall as [_ Hall]. rewrite Forall_singleton in Hall.
    destruct Hwhy as [?|Hcap]; [lia|]. apply not_false_iff_true in Hcap. destruct Hcap.
    apply is_capped_spec; [done..|].
    rewrite first_occurrences_snoc, <- Hids, decide_False in H1, H2
      by (rewrite <- elem_of_first_occurrences; by rewrite <- Hids). done.
  - intros raw. rewrite elem_of_app, list_elem_of_singleton. naive_solver.
Qed.

Lemma collect_step raws ids truncated x :
  collected raws ids truncated ->
  collected (raws ++ [x]) (collect (ids, truncated) x).1 (collect (ids, truncated) x).2.
Proof.
  intros Hcol. pose proof Hcol as [Hnd Hsub Hsz Hc Hb Hl Hr Hd]. unfold collect.
  assert (Hin : forall y, y ∈ ids -> (len_bytes y <= MAX_REDIS_KEY_BYTES)%N /\ y ∈ raws).
  { intros y Hy. split; [by apply (proj1 (Forall_forall _ _) Hsz)|].
    apply elem_of_first_occurrences. by eapply sublist_subseteq. }
  destruct (N.ltb_spec MAX_REDIS_KEY_BYTES (len_bytes x)) as [Hbig|Hsmall]; cbn [fst snd].
  { eapply collected_drop; [done| |by left]. intros []%Hin. lia. }
  case_bool_decide as Hx; cbn [fst snd].
  { assert (Hfo : first_occurrences (raws ++ [x]) = first_occurrences raws).
    { rewrite first_occurrences_snoc, decide_True by (by apply Hin). apply app_nil_r. }
    split; rewrite ?Hfo; try done.
    - rewrite Hr. unfold fits. rewrite Hfo, Forall_app, Forall_singleton. naive_solver.
    - intros raw. rewrite elem_of_app, list_elem_of_singleton. naive_solver. }
  destruct (is_capped ids x) eqn:Hcap; cbn [fst snd]; [by eapply collected_drop; eauto|].
  assert (Hraws : x ∉ raws) by (intros Hxr; destruct (Hd x Hxr Hx); [lia|congruence]).
  apply is_capped_spec in Hcap as [H1 H2]; [|done..].
  assert (Hfo : first_occurrences (raws ++ [x]) = first_occurrences raws ++ [x]).
  { by rewrite first_occurrences_snoc, decide_False by done. }
  split; rewrite ?Hfo; try done.
  - apply NoDup_app. split_and!; [done|set_solver|apply NoDup_singleton].
  - by apply sublist_app.
  - by rewrite Forall_app, Forall_singleton.
  - intros Ht. by rewrite (Hl Ht).
  - split; [|intros ?%fits_snoc; by apply Hr]. intros Ht. pose proof (proj1 Hr Ht) as (Hall & _).
    unfold fits. rewrite Hfo, <- (Hl Ht), Forall_app, Forall_singleton. done.
  - intros raw. rewrite elem_of_app, list_elem_of_singleton, not_elem_of_app. intros [Hraw | ->] [Hn Hn']; [|set_solver].
    destruct (Hd raw Hraw Hn); [by left|]. right. by apply is_capped_app.
Qed.

Lemma collected_nil : collected [] [] false.
Proof.
  assert (fits []) by (split_and!; [constructor|done|done]).
  split; try done; constructor.
Qed.

Lemma collect_collected raws :
  collected raws (foldl collect ([], false) raws).1 (foldl collect ([], false) raws).2.
Proof.
  induction raws as [|x raws IH] using rev_ind; [apply collected_nil|].
  rewrite foldl_app. cbn [foldl]. destruct (foldl collect _ raws) as [ids truncated]. by apply collect_step.
Qed.

(** ** The two loops collect *)

(** The accumulator, seen as identifiers and flag. *)
Record acc_view (acc : RedisScanAccumulator) (ids : list bytes) (truncated : bool) : Prop := {
  av_ids : ke_id <$> ra_keys acc = ids;
  av_truncated : ra_truncated acc = truncated;
  av_seen : ra_seen acc = list_to_set ids;
  av_bytes : ra_retained_bytes acc = total_bytes ids;
}.

Lemma apply_key_collects acc ids truncated key :
  acc_view acc ids truncated -> (total_bytes ids <= MAX_REDIS_RETAINED_KEY_BYTES)%N ->
  acc_view (apply_key acc key) (collect (ids, truncated) (ke_id key)).1 (collect (ids, truncated) (ke_id key)).2.
Proof.
  intros [Hids Ht Hseen Hbytes] Hb. unfold apply_key, collect, is_capped.
  rewrite Hseen, Hbytes, <- (length_fmap ke_id (ra_keys acc)), Hids.
  destruct (N.ltb_spec MAX_REDIS_KEY_BYTES (len_bytes (ke_id key))) as [?|Hsmall]; [by split|].
  assert (bool_decide (ke_id key ∈ (list_to_set ids : gset (list N))) = bool_decide (ke_id key ∈ ids)) as ->.
  { apply bool_decide_ext. by rewrite elem_of_list_to_set. }
  case_bool_decide; [by split|]. destruct (_ || _) eqn:Hcap; [by split|].
  split; cbn -[total_bytes]; [by rewrite fmap_app, Hids|done| |].
  - rewrite list_to_set_app_L. cbn. set_solver.
  - rewrite total_bytes_app. apply orb_false_iff in Hcap as [_ Hcap%N.ltb_ge].
    rewrite (saturating_add_bounded _ _ MAX_REDIS_RETAINED_KEY_BYTES) by done. cbn. lia.
Qed.

Lemma collect_bytes ids truncated raw :
  (total_bytes ids <= MAX_REDIS_RETAINED_KEY_BYTES)%N ->
  (total_bytes (collect (ids, truncated) raw).1 <= MAX_REDIS_RETAINED_KEY_BYTES)%N.
Proof.
  intros Hb. unfold collect. destruct (N.ltb_spec MAX_REDIS_KEY_BYTES (len_bytes raw)); [done|].
  case_bool_decide; [done|]. destruct (is_capped ids raw) eqn:Hcap; [done|]. by apply is_capped_spec in Hcap as [].
Qed.

Lemma apply_keys_collect acc ids truncated keys :
  acc_view acc ids truncated -> (total_bytes ids <= MAX_REDIS_RETAINED_KEY_BYTES)%N ->
  let s := foldl collect (ids, truncated) (ke_id <$> keys) in acc_view (foldl apply_key acc keys) s.1 s.2.
Proof.
  revert acc ids truncated. induction keys as [|key keys IH]; intros acc ids truncated Hv Hb; [done|].
  cbn [foldl fmap list_fmap].
  pose proof (apply_key_collects _ _ _ key Hv Hb) as Hv'.
  pose proof (collect_bytes _ truncated (ke_id key) Hb) as Hb'.
  destruct (collect (ids, truncated) (ke_id key)) as [ids1 truncated1]. by apply IH.
Qed.

(** Pages: the flag of each page is carried over. *)
Definition page_flag (page : RedisKeyPage) : bool :=
  kp_truncated page || (0 <? kp_skipped_oversize page)%N.

Definition page_ids (page : RedisKeyPage) : list bytes := ke_id <$> kp_keys page.

Lemma collect_flag ids truncated keys :
  foldl collect (ids, truncated) keys =
    ((foldl collect (ids, false) keys).1, truncated || (foldl collect (ids, false) keys).2).
Proof.
  revert ids truncated. induction keys as [|k keys IH]; intros ids truncated; cbn; [by rewrite orb_false_r|].
  case_match; [rewrite (IH ids true)|case_bool_decide; [by rewrite IH|case_match; [rewrite (IH ids true)|by rewrite IH]]];
    by rewrite orb_true_r.
Qed.

Lemma apply_page_view acc ids truncated page :
  acc_view acc ids truncated -> (total_bytes ids <= MAX_REDIS_RETAINED_KEY_BYTES)%N ->
  let s := foldl collect (ids, truncated || page_flag page) (page_ids page) in
  acc_view (apply_page acc page) s.1 s.2.
Proof.
  intros [Hids Ht Hseen Hbytes] Hb. apply apply_keys_collect; [|done]. split; cbn; try done.
  rewrite Ht. unfold page_flag. by rewrite orb_assoc.
Qed.

Lemma apply_pages_view filter pages :
  let s := foldl collect ([], false) (concat (page_ids <$> pages)) in
  acc_view (foldl apply_page (RedisScanAccumulator_new filter) pages) s.1 (existsb page_flag pages || s.2).
Proof.
  induction pages as [|page pages IH] using rev_ind; [by split|]. cbn zeta in *.
  rewrite foldl_app, fmap_app, concat_app, foldl_app, existsb_app. cbn [foldl fmap list_fmap concat existsb].
  rewrite app_nil_r, orb_false_r.
  pose proof (apply_page_view _ _ _ page IH (co_bytes _ _ _ (collect_collected _))) as Hv. cbn zeta in Hv.
  destruct (foldl collect ([], false) (concat _)) as [ids t]. cbn [fst snd] in *.
  rewrite collect_flag in Hv. rewrite (collect_flag ids t). cbn [fst snd] in *.
  replace (existsb page_flag pages || page_flag page || (t || _))
    with (existsb page_flag pages || t || page_flag page || (foldl collect (ids, false) (page_ids page)).2); [done|].
  destruct (existsb _ _), t, (page_flag page); done.
Qed.

Lemma apply_page_cursor acc page :
  ra_next_cursor (apply_page acc page) = kp_next_cursor page /\ ra_requested (apply_page acc page) = true.
Proof.
  unfold apply_page. set (acc' := Build_RedisScanAccumulator _ _ _ _ _ _ _ _ _).
  assert (ra_next_cursor acc' = kp_next_cursor page /\ ra_requested acc' = true) as H by done. clearbody acc'.
  revert acc' H. induction (kp_keys page) as [|k keys IH]; intros acc' H; [done|]. cbn [foldl]. apply IH.
  unfold apply_key. by repeat case_match.
Qed.

Section browser.
Context (crates : Crates).

(** The page loop, seen the same way; a key it saw and left out stays left out. *)
Record page_view (s : PageState) (ids : list bytes) (truncated : bool) : Prop := {
  gv_ids : pg_keys s = RedisKeyEntry_new crates <$> ids;
  gv_truncated : pg_truncated s = truncated;
  gv_bytes : pg_retained_bytes s = total_bytes ids;
  gv_kept raw : raw ∈ ids -> raw ∈ pg_seen s;
  gv_seen raw : raw ∈ pg_seen s -> raw ∈ ids \/ truncated = true /\ is_capped ids raw = true;
  gv_skipped : (0 < pg_skipped_oversize s)%N -> truncated = true;
}.

Lemma scan_key_collects s ids truncated raw :
  page_view s ids truncated ->
  page_view (scan_key crates s raw) (collect (ids, truncated) raw).1 (collect (ids, truncated) raw).2.
Proof using Type.
  intros [Hids Ht Hbytes Hkept Hseen Hskip]. unfold scan_key, collect.
  destruct (N.ltb_spec MAX_REDIS_KEY_BYTES (len_bytes raw)) as [?|Hsmall].
  { split; cbn -[total_bytes]; naive_solver. }
  case_bool_decide as Hs.
  { destruct (Hseen raw Hs) as [Hin|[-> Hcap]]; [by rewrite bool_decide_true|].
    case_bool_decide; [by split|]. rewrite Hcap. by split. }
  rewrite bool_decide_false by naive_solver. unfold is_capped.
  rewrite Hbytes, Hids, length_fmap. destruct (_ || _) eqn:Hcap; cbn [fst snd].
  - split; cbn -[total_bytes]; try done; [set_solver|]. intros raw' [->%elem_of_singleton|Hr]%elem_of_union; [by right|].
    destruct (Hseen raw' Hr) as [?|[? ?]]; auto.
  - split; cbn -[total_bytes]; try done; [by rewrite fmap_app| |set_solver|].
    + rewrite total_bytes_app. apply orb_false_iff in Hcap as [_ Hcap%N.ltb_ge].
      rewrite (saturating_add_bounded _ _ MAX_REDIS_RETAINED_KEY_BYTES) by done. cbn. lia.
    + intros raw' [->%elem_of_singleton|Hr]%elem_of_union; [set_solver|].
      destruct (Hseen raw' Hr) as [?|[? ?]]; [set_solver|]. right. split; [done|]. by apply is_capped_app.
Qed.

Lemma scan_page_collects request next_cursor raws :
  let page := scan_page crates request next_cursor raws in
  page_ids page = (foldl collect ([], false) raws).1 /\ page_flag page = (foldl collect ([], false) raws).2.
Proof using Type.
  assert (forall s ids t, page_view s ids t ->
    page_view (foldl (scan_key crates) s raws) (foldl collect (ids, t) raws).1 (foldl collect (ids, t) raws).2) as Hfold.
  { induction raws as [|raw raws IH]; intros s ids t Hv; [done|]. cbn [foldl].
    pose proof (scan_key_collects _ _ _ raw Hv) as Hv'. destruct (collect (ids, t) raw). by apply IH. }
  destruct (Hfold {| pg_seen := ∅; pg_keys := []; pg_retained_bytes := 0; pg_skipped_oversize := 0;
                     pg_truncated := false |} [] false) as [Hids Ht _ _ _ Hskip _].
  { split; cbn; try done; set_solver. }
  unfold page_ids, page_flag, scan_page. cbn [kp_keys kp_truncated kp_skipped_oversize]. split.
  - rewrite Hids, <- list_fmap_compose. apply list_fmap_id.
  - rewrite Ht. destruct (foldl collect ([], false) raws) as [ids []]; [done|]. cbn [snd] in *.
    destruct (N.ltb_spec 0 (pg_skipped_oversize (foldl (scan_key crates)
      {| pg_seen := ∅; pg_keys := []; pg_retained_bytes := 0; pg_skipped_oversize := 0; pg_truncated := false |} raws))) as [H|H];
      [by discriminate (Hskip H)|done].
Qed.

(** An answer of the server to one SCAN: the request, the cursor to go on from, the keys. *)
Definition answer_page (answer : RedisScanRequest * N * list bytes) : RedisKeyPage :=
  scan_page crates answer.1.1 answer.1.2 answer.2.

Definition returned (answers : list (RedisScanRequest * N * list bytes)) : list bytes :=
  concat (snd <$> answers).

Lemma pages_first_occurrences answers :
  existsb page_flag (answer_page <$> answers) = false ->
  concat (page_ids <$> (answer_page <$> answers)) = concat (first_occurrences <$> (snd <$> answers)).
Proof using Type.
  induction answers as [|a answers IH]; cbn [fmap list_fmap existsb concat]; [done|].
  intros [Hflag Hrest]%orb_false_iff. rewrite IH by done. f_equal. unfold answer_page in *.
  destruct (scan_page_collects a.1.1 a.1.2 a.2) as [-> Ht]. apply co_lossless with (1 := collect_collected a.2).
  by rewrite <- Ht.
Qed.

Lemma page_flags answers :
  existsb page_flag (answer_page <$> answers) = false <-> Forall fits (snd <$> answers).
Proof using Type.
  induction answers as [|a answers IH]; cbn [fmap list_fmap existsb]; [by split|].
  rewrite orb_false_iff, Forall_cons, IH. unfold answer_page at 1.
  destruct (scan_page_collects a.1.1 a.1.2 a.2) as [_ ->].
  by rewrite (co_reported _ _ _ (collect_collected a.2)).
Qed.

Lemma pages_subseteq answers : concat (page_ids <$> (answer_page <$> answers)) ⊆ returned answers.
Proof using Type.
  unfold returned. induction answers as [|a answers IH]; cbn [fmap list_fmap concat]; [done|].
  intros raw [Hraw|Hraw]%elem_of_app; apply elem_of_app; [left|right; by apply IH].
  unfold answer_page in Hraw. destruct (scan_page_collects a.1.1 a.1.2 a.2) as [Hids _]. rewrite Hids in Hraw.
  apply elem_of_first_occurrences. by eapply sublist_subseteq; [apply collect_collected|].
Qed.

Lemma returned_member answers raws : raws ∈ snd <$> answers -> raws ⊆ returned answers.
Proof using Type. intros Hin raw Hraw. apply list_elem_of_In, in_concat. exists raws. by rewrite <- !list_elem_of_In. Qed.

(** The flags together say whether everything the server returned fits. *)
Lemma cycle_flag answers ids t :
  collected (concat (page_ids <$> (answer_page <$> answers))) ids t ->
  existsb page_flag (answer_page <$> answers) || t = false ->
  fits (returned answers) /\ ids = first_occurrences (returned answers).
Proof using Type.
  intros Hcol [Hflags ->]%orb_false_iff. pose proof (proj1 (co_reported _ _ _ Hcol) eq_refl) as (_ & Hcount & Hbytes).
  pose proof (co_lossless _ _ _ Hcol eq_refl) as Hids.
  rewrite (pages_first_occurrences _ Hflags), first_occurrences_concat in Hcount, Hbytes, Hids.
  split; [|done]. split_and!; [|done|done]. apply Forall_concat, Forall_forall. intros raws Hraws.
  apply page_flags in Hflags. rewrite Forall_forall in Hflags. by destruct (Hflags raws Hraws).
Qed.

(** Across a scan cycle the browser keeps distinct keys, each at most 4 KiB and
    all within the count and byte limits; it reports truncation exactly when the
    keys the server returned do not fit these limits, and otherwise holds each of
    them once, in the order of first occurrence. The cycle is complete exactly when
    the last page's cursor is 0. *)
Theorem scan_cycle filter answers :
  let acc := foldl apply_page (RedisScanAccumulator_new filter) (answer_page <$> answers) in
  let ids := ke_id <$> ra_keys acc in
  NoDup ids /\ ids ⊆ returned answers /\
  Forall (fun raw => (len_bytes raw <= MAX_REDIS_KEY_BYTES)%N) ids /\
  (N.of_nat (length ids) <= MAX_REDIS_KEYS)%N /\
  ra_retained_bytes acc = total_bytes ids /\ (total_bytes ids <= MAX_REDIS_RETAINED_KEY_BYTES)%N /\
  (ra_truncated acc = false <-> fits (returned answers)) /\
  (ra_truncated acc = false -> ids = first_occurrences (returned answers)) /\
  (is_complete acc = true <-> exists request raws, last answers = Some (request, 0%N, raws)).
Proof using Type.
  cbn zeta. destruct (apply_pages_view filter (answer_page <$> answers)) as [Hids Ht _ Hbytes].
  pose proof (collect_collected (concat (page_ids <$> (answer_page <$> answers)))) as Hcol.
  rewrite Hbytes, Ht, Hids. clear Hbytes Ht Hids.
  destruct (foldl collect ([], false) _) as [ids t]. cbn [fst snd] in *. split_and!; try apply Hcol; try done.
  - intros raw Hraw. apply pages_subseteq, elem_of_first_occurrences. by eapply sublist_subseteq; [apply Hcol|].
  - split; [apply (cycle_flag answers ids t Hcol)|]. intros Hfits. apply orb_false_iff. split.
    + apply page_flags, Forall_forall. intros raws Hraws. by eapply fits_subseteq; [apply returned_member|].
    + apply (co_reported _ _ _ Hcol). by eapply fits_subseteq; [apply pages_subseteq|].
  - apply (cycle_flag answers ids t Hcol).
  - destruct answers as [|[[request cursor] raws] answers _] using rev_ind; [split; [done|intros (? & ? & ?); done]|].
    rewrite fmap_app, foldl_app, last_snoc. cbn [fmap list_fmap foldl].
    match goal with |- context [apply_page ?acc ?page] => destruct (apply_page_cursor acc page) as [H1 H2] end.
    unfold is_complete. rewrite H1, H2. cbn. rewrite N.eqb_eq. naive_solver.
Qed.
End browser.

(** ** Traces of a computation *)

(** The commands a computation sends, with the replies that lead to its result. *)
Inductive trace {A} : Rd A -> list (command * Reply) -> result DriverError A -> Prop :=
| trace_done r : trace (RdDone r) [] r
| trace_send cmd timeout k reply log r :
    trace (k reply) log r -> trace (RdSend cmd timeout k) ((cmd, reply) :: log) r.

Lemma run_trace {σ A} (server : command -> σ -> Reply * σ) (m : Rd A) s log r s' :
  run server m s = (log, r, s') -> trace m log r.
Proof.
  revert s log r s'. induction m as [r0|cmd timeout k IH]; intros s log r s'; cbn.
  - intros [= <- <- <-]. constructor.
  - destruct (server cmd s) as [reply s1]. destruct (run server (k reply) s1) as [[log1 r1] s2] eqn:Hrun.
    intros [= <- <- <-]. constructor. by eapply IH.
Qed.

Lemma trace_bind {A B} (m : Rd A) (f : A -> Rd B) log r :
  trace (m ≫= f) log r ->
  exists log1 r1 log2, trace m log1 r1 /\ log = log1 ++ log2 /\
    match r1 with Ok a => trace (f a) log2 r | Err e => log2 = [] /\ r = Err e end.
Proof.
  revert log r. induction m as [[a|e]|cmd timeout k IH]; intros log r; cbn.
  - intros H. exists [], (Ok a), log. by split; [constructor|].
  - intros H. inversion H; subst. exists [], (Err e), []. by split; [constructor|].
  - intros H. inversion H as [|? ? ? reply ? ? Hk]; subst. destruct (IH _ _ _ Hk) as (log1 & r1 & log2 & H2 & -> & H3).
    exists ((cmd, reply) :: log1), r1, log2. split; [by constructor|done].
Qed.

Lemma trace_bind_Ok {A B} (m : Rd A) (f : A -> Rd B) log b :
  trace (m ≫= f) log (Ok b) ->
  exists log1 a log2, trace m log1 (Ok a) /\ trace (f a) log2 (Ok b) /\ log = log1 ++ log2.
Proof. intros (log1 & [a|e] & log2 & H1 & -> & H2)%trace_bind; [by exists log1, a, log2|by destruct H2]. Qed.

Lemma trace_RdDone {A} (x : result DriverError A) log r : trace (RdDone x) log r -> log = [] /\ r = x.
Proof. intros H. by inversion H. Qed.

Lemma trace_key_query {A} (convert : RedisValue -> result RedisErrorKind A) timeout cmd log a :
  trace (key_query convert timeout cmd) log (Ok a) ->
  exists value, log = [(cmd, Replied value)] /\ convert value = Ok a.
Proof.
  intros H. inversion H as [|? ? ? reply ? ? Hk]; subst. apply trace_RdDone in Hk as [-> Hr].
  destruct reply as [value| |]; [|done..]. symmetry in Hr. apply map_err_Ok in Hr. by exists value.
Qed.

(** Every command of every trace satisfies a predicate. *)
Definition sends_only {A} (P : command -> Prop) (m : Rd A) : Prop :=
  forall log r, trace m log r -> Forall P (fst <$> log).

Lemma sends_only_done {A} P (r : result DriverError A) : sends_only P (RdDone r).
Proof. intros log r' [-> _]%trace_RdDone. constructor. Qed.

Lemma sends_only_bind {A B} P (m : Rd A) (f : A -> Rd B) :
  sends_only P m -> (forall a, sends_only P (f a)) -> sends_only P (m ≫= f).
Proof.
  intros Hm Hf log r (log1 & r1 & log2 & H1 & -> & H2)%trace_bind. rewrite fmap_app. apply Forall_app.
  split; [by eapply Hm|]. destruct r1; [by eapply Hf|]. destruct H2 as [-> _]. constructor.
Qed.

Lemma sends_only_key_query {A} (P : command -> Prop) (convert : RedisValue -> result RedisErrorKind A) timeout cmd :
  P cmd -> sends_only P (key_query convert timeout cmd).
Proof.
  intros HP log r H. inversion H as [|? ? ? reply ? ? Hk]; subst. apply trace_RdDone in Hk as [-> _]. by repeat constructor.
Qed.

(** ** Previews stay within their limits *)

Section preview.
Context (crates : Crates).

Lemma utf8_prefix_len_le value maximum : (N.of_nat (utf8_prefix_len value maximum) <= maximum)%N.
Proof using Type.
  unfold utf8_prefix_len. pose proof (floor_char_boundary_le value (N.to_nat (N.min (str_len value) maximum))). lia.
Qed.

Lemma str_prefix_len value maximum :
  str_len (str_prefix value (utf8_prefix_len value maximum)) = N.of_nat (utf8_prefix_len value maximum).
Proof using Type.
  unfold str_prefix, utf8_prefix_len. generalize (N.to_nat (N.min (str_len value) maximum)) as n. intros n.
  pose proof (floor_char_boundary_boundary value n) as [[a b] Hs]. rewrite Hs. cbn.
  unfold str_len. by apply split_at_byte_Some in Hs as (_ & ->).
Qed.

(** The cells the browser builds. *)
Definition previewable (cell : Cell) : bool :=
  match cell with CText _ | CTextPreview _ _ | CBytes _ _ | CJson _ | CJsonPreview _ _ => true | _ => false end.

Lemma bounded_preview_cell_small cell original already :
  previewable cell = true ->
  (cell_materialized_bytes crates (bounded_preview_cell crates cell original already) <= MAX_REDIS_CELL_BYTES)%N.
Proof using Type.
  assert (Hp : forall value, (str_len (str_prefix value (utf8_prefix_len value MAX_REDIS_CELL_BYTES))
    <= MAX_REDIS_CELL_BYTES)%N) by (intros; rewrite str_prefix_len; apply utf8_prefix_len_le).
  intros Hc. destruct cell; try discriminate Hc; cbn -[MAX_REDIS_CELL_BYTES]; try apply Hp.
  - case_match; apply Hp.
  - unfold len_bytes. rewrite length_take. lia.
  - case_match eqn:E; [apply Hp|]. apply orb_false_iff in E as [_ E%N.ltb_ge]. cbn.
    pose proof (utf8_prefix_len_le (json_to_string crates j) MAX_REDIS_CELL_BYTES). lia.
Qed.

(** A preview in the making. *)
Record preview_ok (p : PreviewRetention) : Prop := {
  po_count : (N.of_nat (length (pv_items p)) <= MAX_REDIS_PREVIEW_ITEMS)%N;
  po_cells : Forall (fun c => (cell_materialized_bytes crates c <= MAX_REDIS_CELL_BYTES)%N) (pv_items p);
  po_bytes : pv_retained_bytes p = sum_N (cell_materialized_bytes crates <$> pv_items p);
  po_total : (pv_retained_bytes p <= MAX_REDIS_PREVIEW_BYTES)%N;
  po_flag : pv_truncated p = false -> Forall (fun c => retained_cell_is_truncated c = false) (pv_items p);
}.

Lemma preview_ok_new : preview_ok PreviewRetention_new.
Proof using Type. by split; cbn; try constructor. Qed.

Lemma preview_ok_mark_more p more : preview_ok p -> preview_ok (mark_more p more).
Proof using Type. intros [? ? ? ? Hf]. split; cbn; try done. by intros [? _]%orb_false_iff; apply Hf. Qed.

Lemma preview_ok_depth p depth :
  preview_ok p ->
  preview_ok {| pv_items := pv_items p; pv_retained_bytes := pv_retained_bytes p; pv_truncated := pv_truncated p;
                pv_depth_truncated := depth |}.
Proof using Type. by intros []; split. Qed.

Lemma preview_ok_push p cell original truncated :
  previewable cell = true -> preview_ok p -> preview_ok (push crates p cell original truncated).
Proof using Type.
  intros Hc [Hn Hcells Hb Ht Hf]. unfold push.
  pose proof (bounded_preview_cell_small cell original truncated Hc) as Hsmall.
  set (cell' := bounded_preview_cell crates cell original truncated) in *. clearbody cell'.
  destruct (_ || _) eqn:Hcap; [by split|]. apply orb_false_iff in Hcap as [H1%N.leb_gt H2%N.ltb_ge].
  split; cbn [pv_items pv_retained_bytes pv_truncated].
  - rewrite length_app. cbn. lia.
  - by apply Forall_app_2; [|constructor].
  - rewrite (saturating_add_bounded _ _ MAX_REDIS_PREVIEW_BYTES) by done.
    rewrite (fmap_app (cell_materialized_bytes crates)), sum_N_app, Hb. cbn. lia.
  - done.
  - intros [? [_ ?]%orb_false_iff]%orb_false_iff. apply Forall_app_2; [by apply Hf|by constructor].
Qed.

Lemma preview_ok_push_binary p bs : preview_ok p -> preview_ok (push_binary crates p bs).
Proof using Type.
  intros Hp. apply preview_ok_push; [|done]. unfold binary_cell. case_match; [|done]. by case_match.
Qed.

Lemma preview_ok_fold {A} (f : PreviewRetention -> A -> PreviewRetention) (l : list A) p :
  (forall p a, preview_ok p -> preview_ok (f p a)) -> preview_ok p -> preview_ok (foldl f p l).
Proof using Type. intros Hf. revert p. induction l as [|a l IH]; intros p Hp; cbn; auto. Qed.

Lemma preview_ok_push_resp p value : preview_ok p -> preview_ok (push_resp crates p value).
Proof using Type.
  intros Hp. unfold push_resp. destruct (bounded_resp_json _ _ _ _) as [j s]. apply preview_ok_push; [done|].
  by apply preview_ok_depth.
Qed.

Lemma preview_ok_push_resp_sequence p value : preview_ok p -> preview_ok (push_resp_sequence crates p value).
Proof using Type.
  intros Hp. destruct value; cbn [push_resp_sequence]; try by apply preview_ok_push_resp; [].
  all: try (apply preview_ok_fold; [apply preview_ok_push_resp|done]). all: done.
Qed.

(** *** What a preview that is not truncated shows *)

(** The cell of a byte string that is not shortened. *)
Definition whole_cell (bs : bytes) : Cell :=
  match from_utf8 bs with Some value => CText value | None => CBytes bs (len_bytes bs) end.

(** The cells of a field with its value, and of a member with its score: what each part
    has lost is written into the part ([binary_json]). *)
Definition pair_cell (entry : bytes * bytes) : Cell :=
  let allowance := (saturating_sub MAX_REDIS_CELL_BYTES 512 / 2)%N in
  CJson (JObject [(lit "field", binary_json crates entry.1 allowance); (lit "value", binary_json crates entry.2 allowance)]).

Definition scored_cell (entry : bytes * f64) : Cell :=
  CJson (JObject [(lit "member", binary_json crates entry.1 (saturating_sub MAX_REDIS_CELL_BYTES 512));
                  (lit "score", JString (f64_to_string crates entry.2))]).

(** The cell of a value of a stream, which nothing was cut from but inside a binary part. *)
Definition resp_cell (value : RedisValue) (cell : Cell) : Prop :=
  exists depth j s,
    bounded_resp_json crates value 0 {| rj_retained := 0; rj_truncated := false; rj_depth_truncated := depth |} = (j, s) /\
    rj_truncated s = false /\ cell = CJson j.

Lemma str_prefix_whole value maximum :
  (str_len value <= N.of_nat (utf8_prefix_len value maximum))%N -> str_prefix value (utf8_prefix_len value maximum) = value.
Proof using Type.
  intros H. assert (utf8_prefix_len value maximum = byte_len value) as Hlen.
  { pose proof (utf8_prefix_len_le value maximum). unfold utf8_prefix_len, str_len in *.
    pose proof (floor_char_boundary_le value (N.to_nat (N.min (N.of_nat (byte_len value)) maximum))). lia. }
  unfold str_prefix. rewrite Hlen. pose proof (split_at_byte_app value []) as Hs. rewrite app_nil_r in Hs. by rewrite Hs.
Qed.

(** Nothing is dropped from a preview that ends without the flag. *)
Lemma push_kept p cell original truncated :
  pv_truncated (push crates p cell original truncated) = false ->
  let cell' := bounded_preview_cell crates cell original truncated in
  pv_truncated p = false /\ truncated = false /\ retained_cell_is_truncated cell' = false /\
  pv_items (push crates p cell original truncated) = pv_items p ++ [cell'].
Proof using Type.
  unfold push. destruct (_ || _); [done|]. cbn. by intros [? [? ?]%orb_false_iff]%orb_false_iff.
Qed.

Lemma push_json_kept p j original truncated :
  pv_truncated (push crates p (CJson j) original truncated) = false ->
  pv_truncated p = false /\ truncated = false /\ pv_items (push crates p (CJson j) original truncated) = pv_items p ++ [CJson j].
Proof using Type.
  intros (Hp & Ht & Hc & ->)%push_kept. split_and!; [done|done|]. revert Hc. cbn. by destruct (_ || _).
Qed.

Lemma push_binary_kept p bs :
  pv_truncated (push_binary crates p bs) = false ->
  pv_truncated p = false /\ pv_items (push_binary crates p bs) = pv_items p ++ [whole_cell bs].
Proof using Type.
  unfold push_binary. intros (Hp & Ht & Hc & ->)%push_kept. split; [done|]. do 2 f_equal.
  unfold whole_cell. revert Ht Hc. unfold binary_cell. destruct (from_utf8 bs) as [value|].
  - destruct (_ <? _)%N; [done|]. intros _. cbn. destruct (_ <? _)%N eqn:Hlen; [done|]. intros _.
    apply N.ltb_ge in Hlen. rewrite str_prefix_whole; [done|]. lia.
  - cbn -[MAX_REDIS_CELL_BYTES]. unfold len_bytes. rewrite !length_take. intros Ht%N.ltb_ge _.
    assert (take (N.to_nat (N.min (N.of_nat (length bs)) MAX_REDIS_CELL_BYTES)) bs = bs) as -> by (apply take_ge; lia).
    f_equal; [apply take_ge; lia|lia].
Qed.

Lemma fold_kept {A} (f : PreviewRetention -> A -> PreviewRetention) (R : A -> Cell -> Prop) (l : list A) p :
  (forall p a, pv_truncated (f p a) = false ->
     pv_truncated p = false /\ exists cell, R a cell /\ pv_items (f p a) = pv_items p ++ [cell]) ->
  pv_truncated (foldl f p l) = false ->
  pv_truncated p = false /\ exists cells, Forall2 R l cells /\ pv_items (foldl f p l) = pv_items p ++ cells.
Proof using Type.
  intros Hf. revert p. induction l as [|a l IH]; intros p; cbn [foldl].
  { intros Hp. split; [done|]. exists []. by rewrite app_nil_r. }
  intros (Hp & cells & HR & Hi)%IH. apply Hf in Hp as (Hp & cell & Hcell & Hi'). split; [done|].
  exists (cell :: cells). split; [by constructor|]. by rewrite Hi, Hi', <- app_assoc.
Qed.

Lemma fold_kept_map {A} (f : PreviewRetention -> A -> PreviewRetention) (g : A -> Cell) (l : list A) p :
  (forall p a, pv_truncated (f p a) = false -> pv_truncated p = false /\ pv_items (f p a) = pv_items p ++ [g a]) ->
  pv_truncated (foldl f p l) = false -> pv_truncated p = false /\ pv_items (foldl f p l) = pv_items p ++ (g <$> l).
Proof using Type.
  intros Hf H. destruct (fold_kept f (fun a cell => cell = g a) l p) as (Hp & cells & HR & ->); [|done|].
  - intros q a [Hq Hi]%Hf. eauto.
  - split; [done|]. f_equal. clear H. induction HR as [|a cell l cells -> _ IH]; [done|]. cbn. by rewrite IH.
Qed.

Lemma push_resp_kept p value :
  pv_truncated (push_resp crates p value) = false ->
  pv_truncated p = false /\ exists cell, resp_cell value cell /\ pv_items (push_resp crates p value) = pv_items p ++ [cell].
Proof using Type.
  unfold push_resp. destruct (bounded_resp_json _ _ _ _) as [j s] eqn:Hj. intros (Hp & Ht & ->)%push_json_kept.
  split; [exact Hp|]. exists (CJson j). split; [|done]. by eexists _, j, s.
Qed.
End preview.

(** ** Inspecting a key *)

(** Takes a trace of a chain of queries apart. *)
Ltac invert_trace :=
  repeat match goal with
  | H : trace (_ ≫= _) _ (Ok _) |- _ =>
      let log := fresh "log" in let a := fresh "a" in let log' := fresh "log" in
      apply trace_bind_Ok in H as (log & a & log' & ? & H & ->); cbn beta in H
  | H : trace (key_query _ _ _) _ (Ok _) |- _ =>
      let value := fresh "value" in apply trace_key_query in H as (value & -> & ?)
  | H : trace (rd_lift _) _ _ |- _ => apply trace_RdDone in H as [-> H]
  | H : trace (RdDone _) _ _ |- _ => apply trace_RdDone in H as [-> H]
  | H : trace (mret _) _ _ |- _ => apply trace_RdDone in H as [-> H]
  | H : Ok _ = Ok _ |- _ => injection H as H; subst
  | H : Ok _ = reject_if _ _ |- _ => symmetry in H; apply reject_if_Ok in H
  end.

(** The names of the commands that read a value, and the key they name. *)
Definition names (log : list (command * Reply)) : list (option bytes) := head ∘ fst <$> log.
Definition about_key (raw_key : bytes) (log : list (command * Reply)) : Prop :=
  Forall (fun entry => entry.1 !! 1 = Some raw_key) log.

Definition value_command_names (t : RedisValueType) : list str :=
  drop 2 (take (length (inspect_command_names t) - 1) (inspect_command_names t)).

Lemma read_value_trace crates t raw_key timeout p log size p' :
  preview_ok crates p -> trace (read_value crates t raw_key timeout p) log (Ok (size, p')) ->
  preview_ok crates p' /\ names log = Some ∘ encode <$> value_command_names t /\ about_key raw_key log.
Proof.
  intros Hp H. destruct t; cbn [read_value] in H; invert_trace;
    repeat match goal with x : _ * _ |- _ => destruct x end; invert_trace;
    (split; [|split; [reflexivity|by repeat constructor]]).
  - by apply preview_ok_push_binary, preview_ok_mark_more.
  - apply preview_ok_fold; [|by apply preview_ok_mark_more]. intros q [field value'] Hq. by apply preview_ok_push.
  - apply preview_ok_fold; [apply preview_ok_push_binary|by apply preview_ok_mark_more].
  - apply preview_ok_fold; [apply preview_ok_push_binary|by apply preview_ok_mark_more].
  - apply preview_ok_fold; [|by apply preview_ok_mark_more]. intros q [member score] Hq. by apply preview_ok_push.
  - apply preview_ok_push_resp_sequence. by case_match; try apply preview_ok_mark_more.
  - by apply preview_ok_push.
Qed.

(** What a preview that is not marked truncated shows of the reply to the command that
    read the value: everything the server sent, in its order, and no less than the size
    the server reported.  Byte strings are whole; what a part of a hash's, a sorted set's
    or a stream's entry has lost is written into that part. *)
Definition shows (crates : Crates) (t : RedisValueType) (size : option N) (reply : RedisValue) (items : list Cell) : Prop :=
  let all (length : nat) := exists n, size = Some n /\ (n <= N.of_nat length)%N in
  match t with
  | VtString => exists bs, bulk_bytes reply = Ok bs /\ items = [whole_cell bs] /\ all (length bs)
  | VtHash =>
      exists entries, from_cursor_pairs (redis_crate crates) reply = Ok (0%N, entries) /\
        items = pair_cell crates <$> entries /\ all (length entries)
  | VtList =>
      exists values, from_bytes_list (redis_crate crates) reply = Ok values /\ items = whole_cell <$> values /\
        all (length values)
  | VtSet =>
      exists values, from_cursor_keys (redis_crate crates) reply = Ok (0%N, values) /\ items = whole_cell <$> values /\
        all (length values)
  | VtSortedSet =>
      exists values, from_scored (redis_crate crates) reply = Ok values /\ items = scored_cell crates <$> values /\
        all (length values)
  | VtStream =>
      match reply with
      | RvArray values => Forall2 (resp_cell crates) values items /\ all (length values)
      | RvSet values => Forall2 (resp_cell crates) values items
      | RvNil => items = []
      | value => exists cell, resp_cell crates value cell /\ items = [cell]
      end
  | VtModuleOrUnknown => items = [CText (lit "[unsupported-redis-type]")]
  end.

Lemma more_marked p more : pv_truncated (mark_more p more) = false -> pv_truncated p = false /\ more = false.
Proof. apply orb_false_iff. Qed.

Lemma none_left (size : N) (n : nat) : (N.of_nat n <? size)%N = false -> exists m, Some size = Some m /\ (m <= N.of_nat n)%N.
Proof. intros H%N.ltb_ge. eauto. Qed.

Lemma next_none (next size : N) (n : nat) :
  negb (next =? 0)%N || (N.of_nat n <? size)%N = false ->
  next = 0%N /\ exists m, Some size = Some m /\ (m <= N.of_nat n)%N.
Proof. intros [H%negb_false_iff%N.eqb_eq ?]%orb_false_iff. split; [done|]. by apply none_left. Qed.

Lemma sequence_shown crates p value :
  pv_truncated (push_resp_sequence crates p value) = false -> pv_items p = [] ->
  pv_truncated p = false /\
  match value with
  | RvArray values | RvSet values => Forall2 (resp_cell crates) values (pv_items (push_resp_sequence crates p value))
  | RvNil => pv_items (push_resp_sequence crates p value) = []
  | value => exists cell, resp_cell crates value cell /\ pv_items (push_resp_sequence crates p value) = [cell]
  end.
Proof.
  intros Hp Hnil.
  assert (Hone : forall v, pv_truncated (push_resp crates p v) = false ->
    pv_truncated p = false /\ exists cell, resp_cell crates v cell /\ pv_items (push_resp crates p v) = [cell]).
  { intros v (Hp' & cell & Hcell & ->)%push_resp_kept. rewrite Hnil. eauto. }
  assert (Hall : forall vs, pv_truncated (foldl (push_resp crates) p vs) = false ->
    pv_truncated p = false /\ Forall2 (resp_cell crates) vs (pv_items (foldl (push_resp crates) p vs))).
  { intros vs H. apply (fold_kept (push_resp crates) (resp_cell crates)) in H as (Hp' & cells & HR & ->);
      [by rewrite Hnil|]. apply push_resp_kept. }
  destruct value; cbn [push_resp_sequence] in *; try (by apply Hone); try (by apply Hall). done.
Qed.

Lemma read_value_shows crates t raw_key timeout p log size p' :
  pv_items p = [] -> trace (read_value crates t raw_key timeout p) log (Ok (size, p')) -> pv_truncated p' = false ->
  exists reply, shows crates t size reply (pv_items p') /\
    (t <> VtModuleOrUnknown -> snd <$> log !! 1 = Some (Replied reply)).
Proof.
  intros Hnil H Hkept. destruct t; cbn [read_value] in H; invert_trace;
    repeat match goal with x : _ * _ |- _ => destruct x end; invert_trace.
  all: try match goal with H : from_value _ = Ok _ |- _ => injection H as H; subst end.
  all: assert (Hm : forall more, pv_items (mark_more p more) = []) by done.
  - apply push_binary_kept in Hkept as [[_ Hmore]%more_marked ->]. rewrite Hm. eexists. split; [|by intros _].
    eexists. split_and!; [done|done|by apply none_left].
  - apply (fold_kept_map _ (pair_cell crates)) in Hkept as [[_ [-> Hall]%next_none]%more_marked ->];
      [|intros q [field value'] (Hq & _ & Hi)%push_json_kept; by split].
    rewrite Hm. eexists. split; [|by intros _]. eexists. by split_and!.
  - apply (fold_kept_map _ whole_cell) in Hkept as [[_ Hmore]%more_marked ->]; [|apply push_binary_kept].
    rewrite Hm. eexists. split; [|by intros _]. eexists. split_and!; [done|done|by apply none_left].
  - apply (fold_kept_map _ whole_cell) in Hkept as [[_ [-> Hall]%next_none]%more_marked ->]; [|apply push_binary_kept].
    rewrite Hm. eexists. split; [|by intros _]. eexists. by split_and!.
  - apply (fold_kept_map _ (scored_cell crates)) in Hkept as [[_ Hmore]%more_marked ->];
      [|intros q [member score] (Hq & _ & Hi)%push_json_kept; by split].
    rewrite Hm. eexists. split; [|by intros _]. eexists. split_and!; [done|done|by apply none_left].
  - eexists. split; [|by intros _]. cbn [shows].
    apply sequence_shown in Hkept as [Hmore Hshown]; [|by case_match; try apply Hm].
    match goal with |- match ?reply with _ => _ end => destruct reply end; try exact Hshown. split; [exact Hshown|]. apply more_marked in Hmore as [_ Hmore]. by apply none_left.
  - unfold push_static_unsupported in *. apply push_kept in Hkept as (_ & _ & _ & ->). rewrite Hnil. exists RvNil. split; [vm_compute; reflexivity|done].
Qed.
(** A read command about a key. *)
Definition reads_key (raw_key : bytes) (command : command) : Prop :=
  exists name args, command = cmd name (raw_key :: args) /\ redis_is_clearly_read_only [name] = true.

Lemma inspect_key_reads crates request : sends_only (reads_key (rk_key request)) (inspect_key crates request).
Proof.
  assert (Hq : forall A (convert : RedisValue -> result RedisErrorKind A) timeout name args,
    redis_is_clearly_read_only [name] = true ->
    sends_only (reads_key (rk_key request)) (key_query convert timeout (cmd name (rk_key request :: args)))).
  { intros A convert timeout name args Hr. apply sends_only_key_query. by exists name, args. }
  unfold inspect_key, key_type, read_ttl, read_value, rd_lift.
  repeat match goal with
  | |- sends_only _ (_ ≫= _) => apply sends_only_bind; [|intros ?]
  | |- sends_only _ (RdDone _) => apply sends_only_done
  | |- sends_only _ (mret _) => apply sends_only_done
  | |- sends_only _ (key_query _ _ _) => apply Hq; vm_compute; reflexivity
  | |- sends_only _ (match ?x with _ => _ end) => destruct x
  end.
Qed.

Lemma inspect_command_names_split t :
  inspect_command_names t = [lit "TYPE"; lit "PTTL"] ++ value_command_names t ++ [lit "TYPE"].
Proof. by destruct t. Qed.

(** C35: inspecting a key only ever sends read commands about that key. When it gives
    a preview, the commands are the static ones of the value's type; the server named
    the same type, an existing one, at the beginning and at the end; and the preview
    holds at most 100 items of at most 64 KiB each and 1 MiB together. A preview that is
    not marked truncated shows, in the server's order, everything that the server sent
    for the value, and no less than the size the server reported ([shows]): strings and
    the items of lists and sets are whole. The entries of hashes, sorted sets and streams
    are JSON: of these the flag only says that no entry is missing or cut as a whole; a
    field, value, member or binary string inside one can be shortened while the flag is
    not set, and then only the JSON of that part says so, in its own fields truncated and
    original_len ([binary_json], [part_reports], [long_pair_unflagged]). *)
Theorem inspect_key_bounded {σ} crates (server : command -> σ -> Reply * σ) request s log r s' :
  run server (inspect_key crates request) s = (log, r, s') ->
  Forall (reads_key (rk_key request)) (fst <$> log) /\
  forall preview, r = Ok preview ->
    names log = Some ∘ encode <$> inspect_command_names (vp_value_type preview) /\
    ke_id (vp_key preview) = rk_key request /\
    (exists first final redis_type,
      head (snd <$> log) = Some (Replied first) /\ last (snd <$> log) = Some (Replied final) /\
      to_ascii_lowercase <$> from_string (redis_crate crates) first = Ok redis_type /\
      to_ascii_lowercase <$> from_string (redis_crate crates) final = Ok redis_type /\
      redis_type <> lit "none" /\ value_type redis_type = vp_value_type preview) /\
    (N.of_nat (length (vp_items preview)) <= MAX_REDIS_PREVIEW_ITEMS)%N /\
    vp_retained_items preview = length (vp_items preview) /\
    Forall (fun c => (cell_materialized_bytes crates c <= MAX_REDIS_CELL_BYTES)%N) (vp_items preview) /\
    vp_retained_bytes preview = sum_N (cell_materialized_bytes crates <$> vp_items preview) /\
    (vp_retained_bytes preview <= MAX_REDIS_PREVIEW_BYTES)%N /\
    (vp_truncated preview = false ->
       Forall (fun c => retained_cell_is_truncated c = false) (vp_items preview) /\
       exists reply, shows crates (vp_value_type preview) (vp_size preview) reply (vp_items preview) /\
         (vp_value_type preview <> VtModuleOrUnknown -> snd <$> log !! 3 = Some (Replied reply))).
Proof.
  intros Hrun%run_trace. split; [by eapply inspect_key_reads|]. intros preview ->.
  unfold inspect_key, key_type, read_ttl in Hrun. invert_trace.
  match goal with H : trace (read_value _ _ _ _ _) _ (Ok ?x) |- _ => destruct x as [size p]; rename H into Hvalue end.
  invert_trace. cbn [vp_value_type vp_key vp_items vp_retained_items vp_retained_bytes vp_truncated].
  destruct (read_value_trace _ _ _ _ _ _ _ _ (preview_ok_new crates) Hvalue) as (Hp & Hnames & _).
  pose proof (read_value_shows crates _ _ _ PreviewRetention_new _ _ _ eq_refl Hvalue) as Hshows.
  match goal with
  | Hf : from_string _ ?v = Ok ?t, Hf' : from_string _ ?v' = Ok ?t', Hsame : bool_decide (_ ?t' <> _ ?t) = false |- _ =>
      rename Hf into Hfirst, Hf' into Hfinal, Hsame into Hagree
  end.
  apply bool_decide_eq_false, dec_stable in Hagree.
  split_and!; try apply Hp; try done.
  - unfold names in *. rewrite !fmap_app, Hnames, inspect_command_names_split. by rewrite !fmap_app.
  - eexists _, _, _. rewrite Hfirst, Hfinal. cbn -[lit]. rewrite Hagree. split_and!; try done.
    + rewrite fmap_app. cbn -[lit]. by rewrite !app_comm_cons, last_snoc.
    + match goal with H : bool_decide (?t = lit "none") = false |- ?t <> _ => by apply bool_decide_eq_false in H end.
  - intros Hkept. split; [by apply Hp|]. destruct (Hshows Hkept) as (reply & Hreply & Hat). exists reply. split; [exact Hreply|].
    intros Hmodule. specialize (Hat Hmodule). apply fmap_Some in Hat as (entry & Hentry & ->).
    cbn. by rewrite (lookup_app_l_Some _ _ _ _ Hentry).
Qed.

(** What a part of an entry says of itself: the text, or the base64 of the bytes, is what
    is retained, and its marks are those of the bytes the server sent. *)
Lemma part_reports crates bs allowance :
  exists name retained lost,
    binary_json crates bs allowance =
      JObject [(name, JString retained); (lit "original_len", json_N (len_bytes bs)); (lit "truncated", JBool lost)] /\
    match from_utf8 bs with
    | Some value =>
        name = lit "text" /\ retained = str_prefix value (utf8_prefix_len value allowance) /\
        lost = (str_len retained <? len_bytes bs)%N
    | None =>
        exists kept, name = lit "base64" /\ retained = base64 crates kept /\ kept `prefix_of` bs /\
          lost = (len_bytes kept <? len_bytes bs)%N
    end.
Proof.
  unfold binary_json. destruct (from_utf8 bs) as [value|]; [by eexists _, _, _|].
  eexists _, _, _. split; [reflexivity|]. eexists. split_and!; [done|done| |done].
  exists (drop (N.to_nat (N.min (len_bytes bs) (allowance / 4 * 3))) bs). by rewrite take_drop.
Qed.

(** A field and a value of at most 64 KiB together are kept without the flag, whether or not
    [binary_json] shortens one of them to 32,512 bytes. *)
Theorem long_pair_unflagged crates field value :
  (len_bytes field + len_bytes value <= MAX_REDIS_CELL_BYTES)%N ->
  (cell_materialized_bytes crates (pair_cell crates (field, value)) <= MAX_REDIS_CELL_BYTES)%N ->
  let p := push_pair crates PreviewRetention_new (lit "field") field (lit "value") value in
  pv_truncated p = false /\ pv_items p = [pair_cell crates (field, value)].
Proof.
  intros Hraw Hsize. cbv zeta. unfold push_pair.
  assert (Hraw' : (MAX_REDIS_CELL_BYTES <? saturating_add (len_bytes field) (len_bytes value))%N = false).
  { apply N.ltb_ge. unfold saturating_add. lia. }
  rewrite Hraw'. change (CJson (JObject _)) with (pair_cell crates (field, value)).
  assert (Hkept : bounded_preview_cell crates (pair_cell crates (field, value))
    (saturating_add (len_bytes field) (len_bytes value)) false = pair_cell crates (field, value)).
  { unfold pair_cell in *. generalize dependent (JObject [(lit "field", binary_json crates (field, value).1
      (saturating_sub MAX_REDIS_CELL_BYTES 512 / 2)); (lit "value", binary_json crates (field, value).2
      (saturating_sub MAX_REDIS_CELL_BYTES 512 / 2))]). intros j Hsize. cbn [bounded_preview_cell cell_materialized_bytes] in *.
    set (text := json_to_string crates j) in *. cbn [orb].
    assert (Hstop : utf8_prefix_len text MAX_REDIS_CELL_BYTES = byte_len text).
    { unfold utf8_prefix_len, str_len in *.
      rewrite N.min_l, Nat2N.id by done. apply Nat.le_antisymm; [apply floor_char_boundary_le|].
      apply floor_char_boundary_max; [done|]. pose proof (split_at_byte_app text []) as Hs.
      rewrite app_nil_r in Hs. rewrite Hs. eauto. }
    rewrite Hstop. unfold str_len. by rewrite N.ltb_irrefl. }
  unfold push. rewrite Hkept. destruct (_ || _) eqn:Hcap; [exfalso|done].
  apply orb_true_iff in Hcap as [H%N.leb_le|H%N.ltb_lt]; [by cbn in H|].
  cbn [PreviewRetention_new pv_retained_bytes] in H.
  unfold saturating_add, MAX_REDIS_PREVIEW_BYTES, MAX_REDIS_CELL_BYTES in *. lia.
Qed.

(** ** A server and crates to run against *)

Definition sample_from_redis : FromRedis :=
  let bulk v := match v with RvBulkString bs => Some bs | _ => None end in
  let bulks v := match v with RvArray vs => mapM bulk vs | _ => None end in
  {| from_u64 v := match v with RvInt z => if (0 <=? z)%Z then Ok (Z.to_N z) else Err RedisIo | _ => Err RedisIo end;
     from_i64 v := match v with RvInt z => Ok z | _ => Err RedisIo end;
     from_string v := match v with RvSimpleString s => Ok s | _ => Err RedisIo end;
     from_bytes_list v := ok_or (bulks v) RedisIo;
     from_cursor_keys v :=
       match v with
       | RvArray [RvInt cursor; keys] => keys ← ok_or (bulks keys) RedisIo; Ok (Z.to_N cursor, keys)
       | _ => Err RedisIo
       end;
     from_cursor_pairs _ := Err RedisIo;
     from_scored _ := Err RedisIo |}.

Definition sample_crates : Crates :=
  {| redis_crate := sample_from_redis; base64 := fun bs => concat (hex_byte <$> bs);
     json_to_string := fun _ => lit "null"; f64_to_string := display_N; f64_to_json := fun f => json_N f;
     cell_size := 32; validation_message := fun _ => lit "invalid" |}.

(** One key: a list of two strings; the state counts the commands. *)
Definition sample_server (command : command) (count : nat) : Reply * nat :=
  let name := default [] (head command) in
  (Replied (if bool_decide (name = encode (lit "TYPE")) then RvSimpleString (lit "List")
            else if bool_decide (name = encode (lit "PTTL")) then RvInt (-1)
            else if bool_decide (name = encode (lit "LLEN")) then RvInt 2
            else RvArray [RvBulkString (encode (lit "a")); RvBulkString [255%N]]), S count).

Definition sample_inspect : RedisKeyInspectRequest :=
  {| rk_identity := {| ri_profile_id := lit "redis"; ri_profile_generation := 1; ri_operation_id := 7 |};
     rk_key := encode (lit "queue"); rk_timeout := from_secs 5 |}.

Lemma inspect_key_bounded_witness :
  let outcome := run sample_server (inspect_key sample_crates sample_inspect) 0 in
  (vp_items <$> outcome.1.2 = Ok [CText (lit "a"); CBytes [255%N] 1] /\ outcome.2 = 5) /\
  Forall (reads_key (encode (lit "queue"))) (fst <$> outcome.1.1).
Proof.
  cbn zeta. split; [vm_compute; done|].
  apply (inspect_key_bounded sample_crates sample_server sample_inspect 0 _
    (run sample_server (inspect_key sample_crates sample_inspect) 0).1.2
    (run sample_server (inspect_key sample_crates sample_inspect) 0).2).
  by destruct (run sample_server _ 0) as [[log r] s'].
Defined.
