(* ===== verification/RedisDecode.v ===== *)
(** * The Redis driver (src/src/drivers/redis.rs)

    Opening a session, one command, and the decoding of its reply under the budgets
    of nodes, bytes and depth.  The server and the client crate are parameters; the
    theorems on the budgets are in RedisDecodeSafety. *)

From S2P Require Import Prelude RustStr Model Execution Drivers RedisBrowser.

(** ** Opening a session *)

(** [str::parse::<i64>]: the digits are read one by one, and the first that is no
    digit or leaves the range ends the parse. *)
Inductive IntErrorKind := IntEmpty | IntInvalidDigit | IntPosOverflow | IntNegOverflow.

Definition IntErrorKind_display (kind : IntErrorKind) : str :=
  lit match kind with
      | IntEmpty => "cannot parse integer from empty string"
      | IntInvalidDigit => "invalid digit found in string"
      | IntPosOverflow => "number too large to fit in target type"
      | IntNegOverflow => "number too small to fit in target type"
      end.

Definition i64_in_range (z : Z) : bool := ((- I64_MAX - 1 <=? z) && (z <=? I64_MAX))%Z.

Fixpoint parse_i64_digits (negative : bool) (acc : Z) (s : str) : result IntErrorKind Z :=
  let overflow := if negative then IntNegOverflow else IntPosOverflow in
  match s with
  | [] => Ok acc
  | c :: s =>
      if negb (is_ascii_digit c) then Err IntInvalidDigit
      else
        let digit := Z.of_N (c - 48) in
        let scaled := (acc * 10)%Z in
        if negb (i64_in_range scaled) then Err overflow
        else
          let acc := (if negative then scaled - digit else scaled + digit)%Z in
          if i64_in_range acc then parse_i64_digits negative acc s else Err overflow
  end.

Definition parse_i64 (s : str) : result IntErrorKind Z :=
  match s with
  | [] => Err IntEmpty
  | [c] => if ((c =? 43) || (c =? 45))%N then Err IntInvalidDigit else parse_i64_digits false 0 s
  | c :: digits =>
      if (c =? 43)%N then parse_i64_digits false 0 digits
      else if (c =? 45)%N then parse_i64_digits true 0 digits
      else parse_i64_digits false 0 s
  end.

Record RedisTransportAttemptCounts := { rt_plaintext : N; rt_required_tls : N }.

(** [redis::ConnectionAddr], the two forms the driver builds. *)
Inductive ConnectionAddr :=
| AddrTcp (host : str) (port : N)
| AddrTcpTls (host : str) (port : N) (insecure : bool).

(** [redis::ConnectionInfo] with its [RedisConnectionInfo], and the root certificate
    of [Client::build_with_tls]. *)
Record ConnectionInfo := {
  ci_addr : ConnectionAddr;
  ci_db : Z;
  ci_username : option str;
  ci_password : option str;
  ci_root_cert : option bytes;
}.

(** A link of an error's [source()] chain, as far as the driver can tell: the errors
    of [rustls], and the two wrappers that hide them. *)
Inductive ErrorLink :=
| LinkInvalidCertificate (not_valid_for_name : bool)
| LinkIo (inner : option ErrorLink)
| LinkShared (inner : ErrorLink)
| LinkOther.

Fixpoint redis_tls_failure (error : ErrorLink) : option RedisTlsFailure :=
  match error with
  | LinkInvalidCertificate not_valid_for_name =>
      Some (if not_valid_for_name then HostnameMismatch else CaUntrusted)
  | LinkIo (Some inner) => redis_tls_failure inner
  | LinkShared inner => redis_tls_failure inner
  | LinkIo None | LinkOther => None
  end.

(** [redis::RedisError]: its kind and the chain that starts with itself. *)
Record RedisError := { re_kind : RedisErrorKind; re_chain : list ErrorLink }.

Fixpoint first_tls_failure (chain : list ErrorLink) : option RedisTlsFailure :=
  match chain with
  | [] => None
  | current :: source =>
      match redis_tls_failure current with Some failure => Some failure | None => first_tls_failure source end
  end.

Definition classify_required_tls_error (error : RedisError) : DriverError :=
  match first_tls_failure (re_chain error) with
  | Some failure => DeRedisTls failure
  | None => DeRedis (re_kind error)
  end.

(** [tokio::time::timeout(..., client.get_connection_manager_with_config(..))] *)
Inductive OpenOutcome := OpenTimeout | OpenFailed (error : RedisError) | Opened.

(** The crate and the file system: whether an address and a client can be built, the
    bytes of the CA file, and what opening the connection comes to. *)
Record RedisClient := {
  into_connection_info : str -> N -> result RedisErrorKind unit;
  client_open : ConnectionInfo -> result RedisErrorKind unit;
  read_file : str -> option bytes;
  open_connection : ConnectionInfo -> Duration -> OpenOutcome;
}.

Section connect.
Context (client : RedisClient).

Definition legacy_preferred : DriverError := DeUnsupported Redis (lit "legacy Preferred TLS mode").

Definition count_plaintext (counts : RedisTransportAttemptCounts) : RedisTransportAttemptCounts :=
  {| rt_plaintext := (rt_plaintext counts + 1) mod 2 ^ 64; rt_required_tls := rt_required_tls counts |}.
Definition count_required_tls (counts : RedisTransportAttemptCounts) : RedisTransportAttemptCounts :=
  {| rt_plaintext := rt_plaintext counts; rt_required_tls := (rt_required_tls counts + 1) mod 2 ^ 64 |}.

(** The client of the profile's TLS mode. *)
Definition redis_client (profile : ConnectionProfile) (info : ConnectionInfo) (counts : RedisTransportAttemptCounts) :
    result DriverError ConnectionInfo * RedisTransportAttemptCounts :=
  match p_tls profile with
  | Disabled => (_ ← map_err DeRedis (client_open client info); Ok info, count_plaintext counts)
  | Required =>
      let info addr cert :=
        {| ci_addr := addr; ci_db := ci_db info; ci_username := ci_username info; ci_password := ci_password info;
           ci_root_cert := cert |} in
      let addr := AddrTcpTls (p_host profile) (p_port profile) false in
      (match ca_file (p_redis_tls profile) with
       | Some ca_file =>
           root_cert ← ok_or (read_file client ca_file)
             (DeInvalidConfig Redis (lit "configured Redis CA file is not readable"));
           let info := info addr (Some root_cert) in
           _ ← map_err DeRedis (client_open client info); Ok info
       | None => let info := info addr None in _ ← map_err DeRedis (client_open client info); Ok info
       end, count_required_tls counts)
  | Preferred => (Err legacy_preferred, counts)
  end.

(** [RedisSession::connect]: the address the session is connected to. *)
Definition redis_connect (profile : ConnectionProfile) (secret : option str) (timeout : Duration)
    (counts : RedisTransportAttemptCounts) : result DriverError ConnectionInfo * RedisTransportAttemptCounts :=
  if bool_decide (p_tls profile = Preferred) then (Err legacy_preferred, counts)
  else
    match parse_i64 (default (lit "0") (p_database profile)) with
    | Err error =>
        (Err (DeInvalidConfig Redis (lit "database must be an integer: " ++ IntErrorKind_display error)), counts)
    | Ok db =>
        match into_connection_info client (p_host profile) (p_port profile) with
        | Err kind => (Err (DeRedis kind), counts)
        | Ok _ =>
            let info :=
              {| ci_addr := AddrTcp (p_host profile) (p_port profile); ci_db := db;
                 ci_username := p_username profile; ci_password := secret; ci_root_cert := None |} in
            let '(opened, counts) := redis_client profile info counts in
            (info ← opened;
             match open_connection client info timeout with
             | OpenTimeout => Err (redis_timeout timeout)
             | OpenFailed error =>
                 Err (if bool_decide (p_tls profile = Required) then classify_required_tls_error error
                      else DeRedis (re_kind error))
             | Opened => Ok info
             end, counts)
        end
    end.
End connect.

(** ** What the decoder counts *)

Definition checked_mul (a b : N) : option N := if (a * b <=? USIZE_MAX)%N then Some (a * b)%N else None.

(** The bytes of a character inside a JSON string. *)
Definition json_char_bytes (character : char) : N :=
  if bool_decide (character ∈ [34; 92; 8; 12; 10; 13; 9]%N) then 2
  else if (character <=? 31)%N then 6
  else N.of_nat (len_utf8 character).

Fixpoint add_json_chars (bytes : N) (value : str) : option N :=
  match value with
  | [] => Some bytes
  | character :: value => bytes ← checked_add bytes (json_char_bytes character); add_json_chars bytes value
  end.
Definition json_string_bytes (value : str) : option N := add_json_chars 2 value.

Definition base64_encoded_bytes (bytes : N) : option N :=
  bytes ← checked_add bytes 2;
  checked_mul (bytes / 3) 4.

Fixpoint count_digits (fuel : nat) (value digits : N) : N :=
  match fuel with
  | 0 => digits
  | S fuel => if (value =? 0)%N then digits else count_digits fuel (value / 10) (digits + 1)
  end.
(** As many rounds as the value has bits are enough. *)
Definition digit_rounds (value : N) : nat := S (N.to_nat (N.log2 value)).

Definition decimal_digits (value : N) : N :=
  if (value =? 0)%N then 1 else count_digits (digit_rounds value) value 0.

Definition signed_decimal_digits (value : Z) : N :=
  let magnitude := Z.abs_N value in
  let digits := if (value <? 0)%Z then 1%N else 0%N in
  if (magnitude =? 0)%N then 1 else count_digits (digit_rounds magnitude) magnitude digits.

Definition LOG10_2_UPPER_NUMERATOR : N := 30103.
Definition LOG10_2_UPPER_DENOMINATOR : N := 100000.

Definition decimal_string_upper_bound_from_bits (bits : N) : option N :=
  magnitude_digits ←
    (if (bits =? 0)%N then Some 1%N
     else
       scaled ← checked_mul bits LOG10_2_UPPER_NUMERATOR;
       rounded ← checked_add scaled (LOG10_2_UPPER_DENOMINATOR - 1);
       Some (rounded / LOG10_2_UPPER_DENOMINATOR)%N);
  checked_add magnitude_digits 1.

(** ** Decoding *)

Definition is_composite (value : RedisValue) : bool :=
  match value with
  | RvArray _ | RvMap _ | RvAttribute _ _ | RvSet _ | RvPush _ => true
  | _ => false
  end.

Definition bytes_cell (bs : bytes) : Cell := CBytes bs (len_bytes bs).

Record CompositeMeasure := { cm_nodes : N; cm_encoded_bytes : N }.

Record CompositeMeter := {
  mt_remaining_nodes : N;
  mt_remaining_bytes : N;
  mt_nodes : N;
  mt_encoded_bytes : N;
}.

Definition consume_node (depth : N) (meter : CompositeMeter) : option CompositeMeter :=
  if (MAX_REDIS_DEPTH <=? depth)%N then None
  else
    remaining ← checked_sub (mt_remaining_nodes meter) 1;
    nodes ← checked_add (mt_nodes meter) 1;
    Some {| mt_remaining_nodes := remaining; mt_remaining_bytes := mt_remaining_bytes meter; mt_nodes := nodes;
            mt_encoded_bytes := mt_encoded_bytes meter |}.

Definition add_bytes (bytes : N) (meter : CompositeMeter) : option CompositeMeter :=
  remaining ← checked_sub (mt_remaining_bytes meter) bytes;
  encoded ← checked_add (mt_encoded_bytes meter) bytes;
  Some {| mt_remaining_nodes := mt_remaining_nodes meter; mt_remaining_bytes := remaining;
          mt_nodes := mt_nodes meter; mt_encoded_bytes := encoded |}.

(** [add_bytes(measured?)] *)
Definition add_measured (measured : option N) (meter : CompositeMeter) : option CompositeMeter :=
  bytes ← measured; add_bytes bytes meter.

(** The loops of [measure_json_array] and [measure_json_entries]. *)
Definition measure_each {A} (measure : A -> CompositeMeter -> option CompositeMeter) :
    list A -> CompositeMeter -> option CompositeMeter :=
  fix go values meter :=
    match values with
    | [] => Some meter
    | value :: values => meter ← measure value meter; go values meter
    end.

Definition container_bytes {A} (values : list A) : option N :=
  checked_add 2 (saturating_sub (N.of_nat (length values)) 1).

Record DecodeBudget := { db_remaining_nodes : N; db_remaining_bytes : N; db_truncated : bool }.

Definition mark_truncated (budget : DecodeBudget) : DecodeBudget :=
  {| db_remaining_nodes := db_remaining_nodes budget; db_remaining_bytes := db_remaining_bytes budget;
     db_truncated := true |}.

Record DecodedCell := { dc_cell : Cell; dc_stop_after : bool }.

Section decode.
(** [serde_json::Number::from_f64] with the number's text, and [BigInt::bits]. *)
Context (crates : Crates) (number_from_f64 : f64 -> option str) (bigint_bits : Z -> N).

Definition json_float_bytes (value : f64) : N :=
  match number_from_f64 value with Some number => str_len number | None => 4 end.

Fixpoint measure_json_value_into (value : RedisValue) (depth : N) (meter : CompositeMeter) : option CompositeMeter :=
  meter ← consume_node depth meter;
  let measure_json_array values meter :=
    meter ← add_measured (container_bytes values) meter;
    measure_each (fun value => measure_json_value_into value (depth + 1)) values meter in
  let measure_json_entries (entries : list (RedisValue * RedisValue)) meter :=
    meter ← add_measured (container_bytes entries) meter;
    measure_each (fun '(key, value) meter =>
      meter ← add_bytes 17 meter;
      meter ← measure_json_value_into key (depth + 1) meter;
      measure_json_value_into value (depth + 1) meter) entries meter in
  match value with
  | RvNil => add_bytes 4 meter
  | RvInt value => add_bytes (signed_decimal_digits value) meter
  | RvBulkString value =>
      match from_utf8 value with
      | Some text => add_measured (json_string_bytes text) meter
      | None =>
          add_measured (encoded ← base64_encoded_bytes (len_bytes value);
                        bytes ← checked_add 47 encoded;
                        checked_add bytes (decimal_digits (len_bytes value))) meter
      end
  | RvSimpleString value => add_measured (json_string_bytes value) meter
  | RvOkay => add_bytes 4 meter
  | RvDouble value => add_bytes (json_float_bytes value) meter
  | RvBoolean value => add_bytes (if value then 4 else 5) meter
  | RvArray values | RvSet values => measure_json_array values meter
  | RvMap entries => measure_json_entries entries meter
  | RvAttribute data attributes =>
      meter ← add_bytes 23 meter;
      meter ← measure_json_entries attributes meter;
      measure_json_value_into data (depth + 1) meter
  | RvVerbatimString text => add_measured (json_string_bytes text) meter
  | RvBigNumber value =>
      add_measured (digits ← decimal_string_upper_bound_from_bits (bigint_bits value); checked_add digits 2) meter
  | RvPush data =>
      meter ← add_bytes 23 meter;
      measure_json_array data meter
  | RvServerError => add_measured (json_string_bytes (lit "[redis-server-error]")) meter
  | RvOther => add_measured (json_string_bytes (lit "[unsupported-resp-value]")) meter
  end.

Definition measure_composite (value : RedisValue) (remaining_nodes byte_limit : N) : option CompositeMeasure :=
  meter ← measure_json_value_into value 0
    {| mt_remaining_nodes := remaining_nodes; mt_remaining_bytes := byte_limit; mt_nodes := 0; mt_encoded_bytes := 0 |};
  Some {| cm_nodes := mt_nodes meter; cm_encoded_bytes := mt_encoded_bytes meter |}.

Definition scalar_measure (value : RedisValue) : option (N * bool) :=
  match value with
  | RvNil => Some (4%N, false)
  | RvInt value => Some (signed_decimal_digits value, false)
  | RvBulkString value => Some (len_bytes value, true)
  | RvSimpleString value => Some (str_len value, true)
  | RvOkay => Some (2%N, true)
  | RvDouble value => Some (json_float_bytes value, false)
  | RvBoolean value => Some (if value then 4%N else 5%N, false)
  | RvVerbatimString text => Some (str_len text, true)
  | RvBigNumber value =>
      digits ← decimal_string_upper_bound_from_bits (bigint_bits value); Some (digits, false)
  | RvServerError => Some (str_len (lit "[redis-server-error]"), false)
  | _ => Some (str_len (lit "[unsupported-resp-value]"), false)
  end.

(** The JSON of a decoded cell inside a composite; a map's keys in their order. *)
Definition cell_json (cell : Cell) : json :=
  match cell with
  | CNull => JNull
  | CBool value => JBool value
  | CInt value => JNumber (display_Z value)
  | CUInt value => JNumber (display_N value)
  | CFloat value => f64_to_json crates value
  | CDecimal value | CText value | CDateTime value => JString value
  | CTextPreview preview original_len | CJsonPreview preview original_len =>
      JObject [(lit "original_len", JNumber (display_N original_len)); (lit "preview", JString preview);
               (lit "truncated", JBool true)]
  | CBytes retained original_len =>
      JObject [(lit "base64", JString (base64 crates retained));
               (lit "original_len", JNumber (display_N original_len));
               (lit "truncated", JBool (len_bytes retained <? original_len)%N)]
  | CJson value => value
  end.

Fixpoint value_cell_complete (value : RedisValue) : Cell :=
  let value_json_complete value := cell_json (value_cell_complete value) in
  let entries_json_complete (entries : list (RedisValue * RedisValue)) :=
    (fun '(key, value) => JObject [(lit "key", cell_json (value_cell_complete key));
                                   (lit "value", cell_json (value_cell_complete value))]) <$> entries in
  match value with
  | RvNil => CNull
  | RvInt value => CInt value
  | RvBulkString value => match from_utf8 value with Some text => CText text | None => bytes_cell value end
  | RvSimpleString value => CText value
  | RvOkay => CText (lit "OK")
  | RvDouble value => CFloat value
  | RvBoolean value => CBool value
  | RvArray values | RvSet values => CJson (JArray ((fun value => cell_json (value_cell_complete value)) <$> values))
  | RvMap entries => CJson (JArray (entries_json_complete entries))
  | RvAttribute data attributes =>
      CJson (JObject [(lit "attributes", JArray (entries_json_complete attributes));
                      (lit "data", value_json_complete data)])
  | RvVerbatimString text => CText text
  | RvBigNumber value => CDecimal (display_Z value)
  | RvPush data =>
      CJson (JObject [(lit "data", JArray ((fun value => cell_json (value_cell_complete value)) <$> data));
                      (lit "type", JString (lit "push"))])
  | RvServerError => CText (lit "[redis-server-error]")
  | RvOther => CText (lit "[unsupported-resp-value]")
  end.

Definition value_json_complete (value : RedisValue) : json := cell_json (value_cell_complete value).

Definition decode_composite (value : RedisValue) (budget : DecodeBudget) : option DecodedCell * DecodeBudget :=
  match measure_composite value (db_remaining_nodes budget)
          (N.min (db_remaining_bytes budget) MAX_REDIS_CELL_BYTES) with
  | None => (None, mark_truncated budget)
  | Some measure =>
      (Some {| dc_cell := value_cell_complete value; dc_stop_after := false |},
       {| db_remaining_nodes := saturating_sub (db_remaining_nodes budget) (cm_nodes measure);
          db_remaining_bytes := saturating_sub (db_remaining_bytes budget) (cm_encoded_bytes measure);
          db_truncated := db_truncated budget |})
  end.

Definition decode_scalar (value : RedisValue) (budget : DecodeBudget) : option DecodedCell * DecodeBudget :=
  match checked_sub (db_remaining_nodes budget) 1 with
  | None => (None, mark_truncated budget)
  | Some remaining_nodes =>
      match scalar_measure value with
      | None => (None, mark_truncated budget)
      | Some (retained_bytes, previewable) =>
          let crosses_limit :=
            (MAX_REDIS_CELL_BYTES <? retained_bytes)%N || (db_remaining_bytes budget <? retained_bytes)%N in
          if crosses_limit && negb previewable then (None, mark_truncated budget)
          else
            (Some {| dc_cell := value_cell_complete value; dc_stop_after := crosses_limit |},
             {| db_remaining_nodes := remaining_nodes;
                db_remaining_bytes :=
                  if crosses_limit then 0 else saturating_sub (db_remaining_bytes budget) retained_bytes;
                db_truncated := crosses_limit || db_truncated budget |})
      end
  end.

Definition decode_value_cell (value : RedisValue) (budget : DecodeBudget) : option DecodedCell * DecodeBudget :=
  if is_composite value then decode_composite value budget else decode_scalar value budget.

(** The loop over the values of an array: the rows, whether it stopped early, and
    the budget left. *)
Fixpoint decode_rows (values : list RedisValue) (budget : DecodeBudget) : list (list Cell) * bool * DecodeBudget :=
  match values with
  | [] => ([], false, budget)
  | value :: values =>
      match decode_value_cell value budget with
      | (None, budget) => ([], true, budget)
      | (Some decoded, budget) =>
          if dc_stop_after decoded then ([[dc_cell decoded]], true, budget)
          else
            let '(rows, stopped, budget) := decode_rows values budget in
            ([dc_cell decoded] :: rows, stopped, budget)
      end
  end.

Definition full_budget : DecodeBudget :=
  {| db_remaining_nodes := MAX_REDIS_CELLS; db_remaining_bytes := MAX_RESULT_BYTES; db_truncated := false |}.

Definition value_rows (value : RedisValue) (row_limit : N) : list (list Cell) * bool :=
  match value with
  | RvArray values =>
      let '(rows, stopped, budget) := decode_rows (take (N.to_nat row_limit) values) full_budget in
      (rows, (row_limit <? N.of_nat (length values))%N || stopped || db_truncated budget)
  | value =>
      if (row_limit =? 0)%N then ([], true)
      else
        match decode_value_cell value full_budget with
        | (None, _) => ([], true)
        | (Some decoded, budget) => ([[dc_cell decoded]], dc_stop_after decoded || db_truncated budget)
        end
  end.

(** ** Commands of an open session *)

Definition redis_ping (timeout : Duration) : Rd unit :=
  pong ← query (from_string (redis_crate crates)) timeout (cmd (lit "PING") []);
  rd_lift (reject_if (bool_decide (pong <> lit "PONG")) (DeRedisParse (lit "unexpected PING response: " ++ pong))).

(** The clock's reading when the reply is decoded is an argument. *)
Definition execute_command (redis_argv_is_denied : list bytes -> bool) (elapsed_ms : N)
    (request : RedisExecuteRequest) : Rd QueryResult :=
  _ ← rd_lift (map_err (invalid_config crates) (RedisExecuteRequest_validate redis_argv_is_denied request));
  match rx_argv request with
  | [] => rd_lift (Err (DeRedisParse (lit "command argv is empty")))
  | command_name :: arguments =>
      command_name ← rd_lift (ok_or (from_utf8 command_name) (DeRedisParse (lit "command name is not UTF-8")));
      value ← query from_value (rx_timeout request) (cmd command_name arguments);
      let '(rows, truncated) := value_rows value (rx_row_limit request) in
      mret {| qr_columns := [{| col_name := lit "value"; col_type_name := lit "RESP" |}]; qr_rows := rows;
              qr_affected_rows := 0; qr_last_insert_id := None; qr_elapsed_ms := elapsed_ms;
              qr_truncated := truncated; qr_backend_notices_present := false |}
  end.
End decode.
