(* ===== verification/Export.v ===== *)
(** * Result export (src/src/export.rs)

    The streaming CSV, TSV and JSON encoders over an arbitrary writer, the
    scalar text they share with the clipboard, and the cancellation wrapper.
    Text handed to the writer is its UTF-8 encoding. *)

From S2P Require Import Prelude RustStr Model.
From stdpp Require Import sorting.

Definition STREAM_CHUNK_BYTES : nat := 4 * 1024.
Definition MAX_EXPORT_TRANSIENT_BYTES : N :=
  (N.min (N.min (MAX_RESULT_CELL_BYTES * 8) USIZE_MAX + N.of_nat STREAM_CHUNK_BYTES) USIZE_MAX)%N.

(** The kinds of [io::Error] that matter to [write_all]. *)
Inductive IoError := IoInterrupted | IoWriteZero | IoOther.

Inductive ExportEncodeError :=
| ExportCancelled | ExportIo (e : IoError) | TabularResultRequired | InvalidRowWidth
| InvalidCompletedAt.

(** Source literals: a single quote stands for the double quote. *)
Definition jlit (s : string) : str := (fun c => if (c =? 39)%N then 34%N else c) <$> lit s.

(** ** Pure encoders *)

Definition tsv_char (c : char) : str :=
  (if c =? 92 then [92; 92]
   else if c =? 9 then 92 :: lit "t"
   else if c =? 13 then 92 :: lit "r"
   else if c =? 10 then 92 :: lit "n"
   else [c])%N.

Definition tsv_field (value : str) : str := value ≫= tsv_char.

(** One lower-case hexadecimal digit. *)
Definition hex_digit (n : N) : char := (if n <? 10 then 48 + n else 87 + n)%N.

Definition json_char (c : char) : str :=
  (if c =? 34 then [92; 34]
   else if c =? 92 then [92; 92]
   else if c =? 8 then 92 :: lit "b"
   else if c =? 12 then 92 :: lit "f"
   else if c =? 10 then 92 :: lit "n"
   else if c =? 13 then 92 :: lit "r"
   else if c =? 9 then 92 :: lit "t"
   else if c <=? 31 then 92 :: lit "u00" ++ [hex_digit (c / 16); hex_digit (c mod 16)]
   else [c])%N.

(** [push_json_string] into an empty buffer. *)
Definition json_string (value : str) : str := 34%N :: (value ≫= json_char) ++ [34%N].

(** [str]'s [Ord]. *)
Definition str_le (a b : str) : Prop := bytes_leb (encode a) (encode b) = true.
#[export] Instance str_le_dec a b : Decision (str_le a b).
Proof. unfold str_le. apply _. Defined.

(** Items with a separator between them. *)
Definition separated (sep : str) (items : list str) : str :=
  match items with
  | [] => []
  | item :: items => item ++ (items ≫= fun i => sep ++ i)
  end.
Definition comma_separated : list str -> str := separated [44%N].

(** Order of object fields by key. *)
Definition field_le {A} (e f : str * A) : Prop := str_le e.1 f.1.
#[export] Instance field_le_dec {A} (e f : str * A) : Decision (field_le e f).
Proof. unfold field_le. apply _. Defined.

(** [push_canonical_json] into an empty buffer.  Keys of a [serde_json] map are
    distinct, so the unstable sort has one possible result. *)
Fixpoint canonical_json (value : json) : str :=
  match value with
  | JNull => lit "null"
  | JBool b => display_bool b
  | JNumber text => text
  | JString s => json_string s
  | JArray values => [91%N] ++ comma_separated (canonical_json <$> values) ++ [93%N]
  | JObject entries =>
      [123%N] ++ comma_separated
        ((fun e => json_string e.1 ++ [58%N] ++ e.2)
           <$> merge_sort field_le ((fun '(k, v) => (k, canonical_json v)) <$> entries))
      ++ [125%N]
  end.

(** [f64] bit patterns. *)
Definition F64_INFINITY : f64 := 0x7FF0000000000000%N.
Definition F64_NEG_INFINITY : f64 := 0xFFF0000000000000%N.
Definition f64_is_nan (f : f64) : bool :=
  (N.land f F64_INFINITY =? F64_INFINITY)%N && negb (N.land f 0xFFFFFFFFFFFFF =? 0)%N.

(** The formatting the encoders take from other crates: [f64]'s [Display],
    base64's standard alphabet, [rust_decimal] and [chrono]. *)
Record Formats := {
  f64_to_string : f64 -> str;
  base64_encode : bytes -> str;
  decimal_normalized : str -> option str;
  rfc3339_to_utc : str -> option str;
  naive_datetime : string -> str -> option (str * str);
  naive_date : string -> str -> option str;
  naive_time : string -> str -> option str;
  timestamp_millis_rfc3339 : Z -> option str;
}.

Section scalars.
Context (fmt : Formats).

Definition canonical_float (value : f64) : str :=
  if f64_is_nan value then lit "nan"
  else if (value =? F64_INFINITY)%N then lit "inf"
  else if (value =? F64_NEG_INFINITY)%N then lit "-inf"
  else f64_to_string fmt value.

Definition canonical_decimal (value : str) : str := default value (decimal_normalized fmt value).

Definition normalize_datetime (value : str) : str :=
  match rfc3339_to_utc fmt value with
  | Some datetime => datetime
  | None =>
      let joined '(date, time) := (date : str) ++ lit "T" ++ (time : str) in
      match naive_datetime fmt "%Y-%m-%d %H:%M:%S%.f" value with
      | Some datetime => joined datetime
      | None =>
          match naive_datetime fmt "%Y-%m-%dT%H:%M:%S%.f" value with
          | Some datetime => joined datetime
          | None =>
              match naive_date fmt "%Y-%m-%d" value with
              | Some date => date
              | None => default value (naive_time fmt "%H:%M:%S%.f" value)
              end
          end
      end
  end.

Definition clipboard_scalar (cell : Cell) : str :=
  match cell with
  | CNull => []
  | CBool value => display_bool value
  | CInt value => display_Z value
  | CUInt value => display_N value
  | CFloat value => canonical_float value
  | CDecimal value => canonical_decimal value
  | CText value => value
  | CTextPreview preview original_len =>
      preview ++ [0x2026%N] ++ lit "[dbotter-truncated;original_len=" ++ display_N original_len
        ++ lit "]"
  | CBytes retained original_len =>
      lit "base64:" ++ base64_encode fmt retained ++
      (if (N.of_nat (length retained) <? original_len)%N
       then lit ";truncated=true;original_len=" ++ display_N original_len else [])
  | CJson value => canonical_json value
  | CJsonPreview preview original_len =>
      lit "json-preview:" ++ preview ++ lit ";truncated=true;original_len="
        ++ display_N original_len
  | CDateTime value => normalize_datetime value
  end.
End scalars.

(** ** The streaming writer *)

(** An inner [Write] with its state, the bytes it has accepted so far, and the
    cancellation check, which may change its answer between calls. *)
Record Sink := {
  sink_state : Type;
  sink_write : bytes -> sink_state -> result IoError nat * sink_state;
  sink_accepted : sink_state -> bytes;
  sink_cancelled : sink_state -> bool * sink_state;
}.

(** [Write]'s contract: what [write] reports is what it took; a failed write
    takes nothing; asking for cancellation writes nothing. *)
Record sink_laws (k : Sink) : Prop := {
  write_takes : forall buf s n s', sink_write k buf s = (Ok n, s') ->
    n <= length buf /\ sink_accepted k s' = sink_accepted k s ++ take n buf;
  write_fails : forall buf s e s', sink_write k buf s = (Err e, s') ->
    sink_accepted k s' = sink_accepted k s;
  cancel_quiet : forall s b s', sink_cancelled k s = (b, s') ->
    sink_accepted k s' = sink_accepted k s;
}.

Section writer.
Context (k : Sink).

Record StreamingWriter := { sw_inner : sink_state k; sw_cancelled : bool }.

(** [StreamingWriter::write]: at most one chunk per call. *)
Definition stream_write (buf : bytes) (w : StreamingWriter) : result IoError nat * StreamingWriter :=
  let '(stop, inner) := sink_cancelled k (sw_inner w) in
  if stop : bool then (Err IoOther, {| sw_inner := inner; sw_cancelled := true |})
  else
    let chunk_len := length buf `min` STREAM_CHUNK_BYTES in
    let '(r, inner) := sink_write k (take chunk_len buf) inner in
    (r, {| sw_inner := inner; sw_cancelled := sw_cancelled w |}).

(** The encoders: a computation reads and writes the stream; [None] is one
    that did not finish (an inner writer interrupted without end). *)
Definition M (A : Type) : Type :=
  StreamingWriter -> option (result ExportEncodeError A * StreamingWriter).

#[export] Instance M_ret : MRet M := fun _ a w => Some (Ok a, w).
#[export] Instance M_bind : MBind M := fun _ _ f m w =>
  match m w with
  | Some (Ok a, w) => f a w
  | Some (Err e, w) => Some (Err e, w)
  | None => None
  end.
Definition fail {A} (e : ExportEncodeError) : M A := fun w => Some (Err e, w).

(** [Write::write_all] of the standard library: retries interruptions, fails
    when nothing is taken. *)
Fixpoint write_all_loop (fuel : nat) (buf : bytes) : M unit := fun w =>
  match buf, fuel with
  | [], _ => Some (Ok tt, w)
  | _, 0 => None
  | _, S fuel =>
      match stream_write buf w with
      | (Ok 0, w) => Some (Err (ExportIo IoWriteZero), w)
      | (Ok n, w) => write_all_loop fuel (drop n buf) w
      | (Err IoInterrupted, w) => write_all_loop fuel buf w
      | (Err e, w) => Some (Err (ExportIo e), w)
      end
  end.

(** Interruptions tolerated in one [write_all] before giving up on it. *)
Context (interrupts : nat).

Definition write_all (buf : bytes) : M unit := write_all_loop (length buf + interrupts) buf.
Definition write_str (s : str) : M unit := write_all (encode s).

Fixpoint for_each {A} (f : nat -> A -> M unit) (index : nat) (l : list A) : M unit :=
  match l with
  | [] => mret tt
  | x :: l => f index x ;; for_each f (S index) l
  end.

(** [if index != 0 { writer.write_all(sep)?; }] *)
Definition separator (sep : str) (index : nat) : M unit :=
  if index =? 0 then mret tt else write_str sep.

Context (fmt : Formats).

Definition require_tabular (sn : ResultSnapshot) : M unit :=
  if bool_decide (length (sn_columns sn) = 0) then fail TabularResultRequired else mret tt.

Definition require_row_width (sn : ResultSnapshot) (row : list Cell) : M unit :=
  if length row =? length (sn_columns sn) then mret tt else fail InvalidRowWidth.

(** The loop over [remainder.find] of the double quote. *)
Fixpoint write_quoted (fuel : nat) (remainder : str) : M unit :=
  match fuel, position (N.eqb 34) remainder with
  | S fuel, Some index =>
      write_str (take index remainder) ;; write_str [34%N; 34%N] ;;
      write_quoted fuel (drop (index + 1) remainder)
  | _, _ => write_str remainder
  end.

Definition csv_quoted (field : str) : bool :=
  existsb (fun b => (b =? 44) || (b =? 34) || (b =? 13) || (b =? 10))%N (encode field).

Definition write_csv_field (field : str) : M unit :=
  if csv_quoted field then
    write_str [34%N] ;; write_quoted (length field) field ;; write_str [34%N]
  else write_str field.

Definition write_csv (sn : ResultSnapshot) : M unit :=
  require_tabular sn ;;
  for_each (fun index column =>
    separator [44%N] index ;; write_csv_field (col_name column)) 0 (sn_columns sn) ;;
  write_str [13%N; 10%N] ;;
  for_each (fun _ row =>
    require_row_width sn row ;;
    for_each (fun index cell =>
      separator [44%N] index ;; write_csv_field (clipboard_scalar fmt cell)) 0 row ;;
    write_str [13%N; 10%N]) 0 (sn_rows sn).

Definition write_tsv (sn : ResultSnapshot) : M unit :=
  require_tabular sn ;;
  for_each (fun index column =>
    separator [9%N] index ;; write_str (tsv_field (col_name column))) 0 (sn_columns sn) ;;
  write_str [10%N] ;;
  for_each (fun _ row =>
    require_row_width sn row ;;
    for_each (fun index cell =>
      separator [9%N] index ;; write_str (tsv_field (clipboard_scalar fmt cell))) 0 row ;;
    write_str [10%N]) 0 (sn_rows sn).

Definition write_json_string (value : str) : M unit := write_str (json_string value).

Definition write_string_cell (cell_type value : str) : M unit :=
  write_str (jlit "{'type':") ;; write_json_string cell_type ;;
  write_str (jlit ",'value':") ;; write_json_string value ;; write_str (jlit "}").

Definition write_preview (type : string) (preview : str) (original_len : N) : M unit :=
  write_str (jlit type) ;; write_json_string preview ;;
  write_str (jlit ",'original_len':") ;; write_str (display_N original_len) ;;
  write_str (jlit ",'truncated':true}").

Definition write_json_cell (cell : Cell) : M unit :=
  match cell with
  | CNull => write_str (jlit "{'type':'null'}")
  | CBool value =>
      write_str (jlit "{'type':'bool','value':") ;; write_str (display_bool value) ;;
      write_str (jlit "}")
  | CInt value => write_string_cell (lit "int") (display_Z value)
  | CUInt value => write_string_cell (lit "uint") (display_N value)
  | CFloat value => write_string_cell (lit "float") (canonical_float fmt value)
  | CDecimal value => write_string_cell (lit "decimal") (canonical_decimal fmt value)
  | CText value => write_string_cell (lit "text") value
  | CTextPreview preview original_len =>
      write_preview "{'type':'text','value':" preview original_len
  | CBytes retained original_len =>
      write_str (jlit "{'type':'bytes','value':{'base64':") ;;
      write_json_string (base64_encode fmt retained) ;;
      write_str (jlit ",'original_len':") ;; write_str (display_N original_len) ;;
      write_str (jlit ",'truncated':") ;;
      write_str (display_bool (N.of_nat (length retained) <? original_len)%N) ;;
      write_str (jlit "}}")
  | CJson value =>
      write_str (jlit "{'type':'json','value':") ;; write_str (canonical_json value) ;;
      write_str (jlit "}")
  | CJsonPreview preview original_len =>
      write_preview "{'type':'json_preview','value':" preview original_len
  | CDateTime value => write_string_cell (lit "datetime") (normalize_datetime fmt value)
  end.

Definition write_json_column (index : nat) (column : Column) : M unit :=
  separator [44%N] index ;;
  write_str (jlit "{'index':") ;; write_str (display_N (N.of_nat index)) ;;
  write_str (jlit ",'name':") ;; write_json_string (col_name column) ;;
  write_str (jlit ",'type_name':") ;; write_json_string (col_type_name column) ;;
  write_str (jlit "}").

Definition write_json_row (sn : ResultSnapshot) (row_index : nat) (row : list Cell) : M unit :=
  require_row_width sn row ;;
  separator [44%N] row_index ;;
  write_str (jlit "[") ;;
  for_each (fun index cell => separator [44%N] index ;; write_json_cell cell) 0 row ;;
  write_str (jlit "]").

Definition write_json (sn : ResultSnapshot) : M unit :=
  let p := sn_provenance sn in
  completed_at ← match timestamp_millis_rfc3339 fmt (rp_completed_at_unix_ms p) with
                 | Some text => mret text
                 | None => fail InvalidCompletedAt
                 end;
  write_str (jlit "{'schema':'dbotter.result.v1','provenance':{'operation_id':") ;;
  write_str (display_N (rp_operation_id p)) ;;
  write_str (jlit ",'profile_id':") ;; write_json_string (rp_profile_id p) ;;
  write_str (jlit ",'profile_generation':") ;; write_str (display_N (rp_profile_generation p)) ;;
  write_str (jlit ",'driver':") ;; write_json_string (DriverKind_display (rp_driver p)) ;;
  write_str (jlit ",'completed_at':") ;; write_json_string completed_at ;;
  write_str (jlit ",'elapsed_ms':") ;; write_str (display_N (rp_duration_ms p)) ;;
  write_str (jlit "},'columns':[") ;;
  for_each write_json_column 0 (sn_columns sn) ;;
  write_str (jlit "],'rows':[") ;;
  for_each (write_json_row sn) 0 (sn_rows sn) ;;
  write_str (jlit "],'affected_rows':") ;; write_str (display_N (sn_affected_rows sn)) ;;
  write_str (jlit ",'last_insert_id':") ;;
  write_str (match sn_last_insert_id sn with Some v => display_N v | None => lit "null" end) ;;
  write_str (jlit ",'truncated':") ;; write_str (display_bool (sn_truncated sn)) ;;
  write_str (jlit "}").

Definition write_export_with_cancel (sn : ResultSnapshot) (format : ExportFormat)
    (inner : sink_state k) : option (result ExportEncodeError unit * sink_state k) :=
  let writer := {| sw_inner := inner; sw_cancelled := false |} in
  '(r, writer) ← match format with
                 | Csv => write_csv sn writer
                 | Tsv => write_tsv sn writer
                 | Json => write_json sn writer
                 end;
  Some (if sw_cancelled writer then Err ExportCancelled else r, sw_inner writer).
End writer.
