(* ===== verification/RedisDecodeSafety.v ===== *)
(** * The budgets of a Redis reply (theorems on RedisDecode)

    The decoder measures a composite value before it builds its JSON, and stops at the
    first value that does not fit.  The theorems compare the measure with the size of
    the JSON that is built, and the rows with those of a decoder without limits. *)

From S2P Require Import Prelude RustStr Model Retention Export Drivers RedisBrowser RedisDecode.
From stdpp Require Import sorting.

(** ** Induction on replies *)

Section reply_induction.
Context (P : RedisValue -> Prop).
Definition scalar (value : RedisValue) : Prop := is_composite value = false.
Context (Hscalar : forall value, scalar value -> P value).
Context (Harray : forall values, Forall P values -> P (RvArray values)).
Context (Hset : forall values, Forall P values -> P (RvSet values)).
Context (Hpush : forall values, Forall P values -> P (RvPush values)).
Context (Hmap : forall entries, Forall (fun e => P e.1 /\ P e.2) entries -> P (RvMap entries)).
Context (Hattribute : forall data attributes, P data -> Forall (fun e => P e.1 /\ P e.2) attributes ->
  P (RvAttribute data attributes)).

Fixpoint reply_ind (value : RedisValue) : P value :=
  let all := fix go values : Forall P values :=
    match values with [] => Forall_nil_2 _ | v :: values => Forall_cons_2 _ _ _ (reply_ind v) (go values) end in
  let entries := fix go entries : Forall (fun e => P e.1 /\ P e.2) entries :=
    match entries with
    | [] => Forall_nil_2 _
    | (k, v) :: entries => Forall_cons_2 _ (k, v) _ (conj (reply_ind k) (reply_ind v)) (go entries)
    end in
  match value with
  | RvArray values => Harray values (all values)
  | RvSet values => Hset values (all values)
  | RvPush values => Hpush values (all values)
  | RvMap es => Hmap es (entries es)
  | RvAttribute data es => Hattribute data es (reply_ind data) (entries es)
  | value => Hscalar value eq_refl
  end.
End reply_induction.

(** ** Decimal digits *)

Lemma str_len_ascii s : Forall (fun c => c < 128)%N s -> str_len s = N.of_nat (length s).
Proof.
  induction 1 as [|c s Hc _ IH]; [done|]. unfold str_len in *. rewrite byte_len_cons, len_utf8_ascii by done.
  cbn [length]. lia.
Qed.

Lemma digits_ascii s : Forall (fun c => is_ascii_digit c = true) s -> Forall (fun c => c < 128)%N s.
Proof. intros H. eapply Forall_impl; [exact H|]. intros c. unfold is_ascii_digit. lia. Qed.

Lemma str_len_display n : str_len (display_N n) = N.of_nat (length (display_N n)).
Proof. apply str_len_ascii, digits_ascii, display_N_digits. Qed.

Lemma div10_small fuel n : (n < 2 ^ N.of_nat (S fuel))%N -> (n / 10 < 2 ^ N.of_nat fuel)%N.
Proof. rewrite Nat2N.inj_succ, N.pow_succ_r'. intros H. apply N.Div0.div_lt_upper_bound. lia. Qed.

(** Counting digits and writing them go through the same quotients. *)
Lemma count_digits_display fuel n digits acc :
  (0 < n)%N -> (n < 2 ^ N.of_nat fuel)%N ->
  (count_digits fuel n digits + N.of_nat (length acc) = digits + N.of_nat (length (display_aux fuel n acc)))%N.
Proof.
  revert n digits acc. induction fuel as [|fuel IH]; intros n digits acc H0 Hn; [cbn in *; lia|].
  cbn [count_digits display_aux]. rewrite (proj2 (N.eqb_neq n 0)) by lia.
  destruct (N.eqb_spec (n / 10) 0) as [E|E].
  - rewrite E. destruct fuel; cbn [count_digits]; rewrite ?N.eqb_refl; cbn [length]; lia.
  - assert (0 < n / 10)%N as H1 by lia.
    specialize (IH (n / 10)%N (digits + 1)%N ((48 + n mod 10)%N :: acc) H1 (div10_small _ _ Hn)).
    cbn [length] in IH. lia.
Qed.

Lemma digit_rounds_enough n : (0 < n)%N -> (n < 2 ^ N.of_nat (digit_rounds n))%N.
Proof.
  intros Hn. unfold digit_rounds. rewrite Nat2N.inj_succ, N2Nat.id. by apply N.log2_spec.
Qed.

Lemma count_digits_spec n digits :
  (0 < n)%N -> count_digits (digit_rounds n) n digits = (digits + str_len (display_N n))%N.
Proof.
  intros Hn. pose proof (count_digits_display (digit_rounds n) n digits [] Hn (digit_rounds_enough n Hn)) as H.
  rewrite str_len_display. unfold display_N, digit_rounds in *. cbn [length] in H. lia.
Qed.

Lemma decimal_digits_spec n : decimal_digits n = str_len (display_N n).
Proof.
  unfold decimal_digits. destruct (N.eqb_spec n 0) as [->|Hn]; [by vm_compute|]. rewrite count_digits_spec; lia.
Qed.

Lemma signed_decimal_digits_spec z : signed_decimal_digits z = str_len (display_Z z).
Proof.
  unfold signed_decimal_digits, display_Z. destruct (N.eqb_spec (Z.abs_N z) 0) as [E|E].
  { assert (z = 0%Z) as -> by lia. by vm_compute. }
  rewrite count_digits_spec by lia. destruct (z <? 0)%Z eqn:Hz.
  - replace (Z.to_N (- z)) with (Z.abs_N z) by lia. unfold str_len.
    rewrite byte_len_cons, len_utf8_ascii by lia. lia.
  - by replace (Z.to_N z) with (Z.abs_N z) by lia.
Qed.

Lemma count_digits_bound fuel n digits k : (n < 10 ^ k)%N -> (count_digits fuel n digits <= digits + k)%N.
Proof.
  revert n digits k. induction fuel as [|fuel IH]; intros n digits k Hn; cbn [count_digits]; [lia|].
  destruct (N.eqb_spec n 0) as [|E]; [lia|].
  destruct (decide (k = 0)%N) as [->|Hk]; [cbn in Hn; lia|].
  assert (n / 10 < 10 ^ (k - 1))%N as Hq.
  { apply N.Div0.div_lt_upper_bound. rewrite <- N.pow_succ_r'. by replace (N.succ (k - 1)) with k by lia. }
  specialize (IH _ (digits + 1)%N _ Hq). lia.
Qed.

(** 0.30103 is above the decimal logarithm of two: 4004/13301 already is. *)
Lemma two_below_ten : (2 ^ 13301 <= 10 ^ 4004)%N.
Proof. apply N.leb_le. vm_compute. reflexivity. Qed.

Lemma pow2_pow10 bits digits : (bits * 30103 <= digits * 100000)%N -> (2 ^ bits <= 10 ^ digits)%N.
Proof.
  intros H. apply (N.pow_le_mono_l_iff _ _ 13301); [lia|]. rewrite <- !N.pow_mul_r.
  etrans; [|apply (N.pow_le_mono_r 10 (4004 * bits)); lia].
  rewrite (N.mul_comm bits), !N.pow_mul_r. apply N.pow_le_mono_l, two_below_ten.
Qed.

(** ** The size of a reply *)

Section size.
Context (crates : Crates) (number_from_f64 : f64 -> option str) (bigint_bits : Z -> N).

Definition json_string_size (value : str) : N := 2 + sum_N (json_char_bytes <$> value).
Definition container_size {A} (values : list A) : N := 2 + (N.of_nat (length values) - 1).
Definition bytes_json_size (bs : bytes) : N :=
  47 + (len_bytes bs + 2) / 3 * 4 + str_len (display_N (len_bytes bs)).
Definition big_number_size (bits : N) : N :=
  (if (bits =? 0)%N then 1 else (bits * 30103 + 99999) / 100000)%N + 1.

Fixpoint reply_nodes (value : RedisValue) : N :=
  let entries (es : list (RedisValue * RedisValue)) :=
    sum_N ((fun '(k, v) => reply_nodes k + reply_nodes v)%N <$> es) in
  1 + match value with
      | RvArray values | RvSet values | RvPush values => sum_N (reply_nodes <$> values)
      | RvMap es => entries es
      | RvAttribute data es => (entries es + reply_nodes data)%N
      | _ => 0
      end.

Definition max_N (l : list N) : N := foldr N.max 0%N l.

Fixpoint reply_depth (value : RedisValue) : N :=
  let entries (es : list (RedisValue * RedisValue)) :=
    max_N ((fun '(k, v) => N.max (reply_depth k) (reply_depth v)) <$> es) in
  1 + match value with
      | RvArray values | RvSet values | RvPush values => max_N (reply_depth <$> values)
      | RvMap es => entries es
      | RvAttribute data es => N.max (entries es) (reply_depth data)
      | _ => 0
      end.

(** The bytes of the reply's JSON, a big number counted by its bits. *)
Fixpoint reply_size (value : RedisValue) : N :=
  let entries (es : list (RedisValue * RedisValue)) :=
    (container_size es + sum_N ((fun '(k, v) => 17 + reply_size k + reply_size v) <$> es))%N in
  match value with
  | RvNil | RvOkay => 4
  | RvInt value => str_len (display_Z value)
  | RvBulkString value =>
      match from_utf8 value with Some text => json_string_size text | None => bytes_json_size value end
  | RvSimpleString value | RvVerbatimString value => json_string_size value
  | RvDouble value => json_float_bytes number_from_f64 value
  | RvBoolean value => if value then 4 else 5
  | RvArray values | RvSet values => (container_size values + sum_N (reply_size <$> values))%N
  | RvMap es => entries es
  | RvAttribute data es => (23 + entries es + reply_size data)%N
  | RvBigNumber value => (big_number_size (bigint_bits value) + 2)%N
  | RvPush data => (23 + (container_size data + sum_N (reply_size <$> data)))%N
  | RvServerError => json_string_size (lit "[redis-server-error]")
  | RvOther => json_string_size (lit "[unsupported-resp-value]")
  end.

(** ** The meter charges exactly these *)

Local Abbreviation measure := (measure_json_value_into number_from_f64 bigint_bits).

Definition charged (nodes bytes : N) (m : CompositeMeter) : CompositeMeter :=
  {| mt_remaining_nodes := mt_remaining_nodes m - nodes; mt_remaining_bytes := mt_remaining_bytes m - bytes;
     mt_nodes := mt_nodes m + nodes; mt_encoded_bytes := mt_encoded_bytes m + bytes |}.

(** A charge that is made when it is allowed and fits. *)
Definition spend (allowed : bool) (nodes bytes : N) (m : CompositeMeter) : option CompositeMeter :=
  if allowed && ((nodes <=? mt_remaining_nodes m) && (bytes <=? mt_remaining_bytes m))%N
  then Some (charged nodes bytes m) else None.

(** The counters cannot overflow, and what is left is within a cell's limit. *)
Record meter_ok (m : CompositeMeter) : Prop := {
  mo_nodes : (mt_nodes m + mt_remaining_nodes m <= USIZE_MAX)%N;
  mo_bytes : (mt_encoded_bytes m + mt_remaining_bytes m <= MAX_REDIS_CELL_BYTES)%N;
}.

Lemma spend_ok a n b m m' : spend a n b m = Some m' -> meter_ok m -> meter_ok m'.
Proof.
  unfold spend. intros H [H1 H2]. destruct (a && _) eqn:E; [|done]. injection H as <-.
  split; cbn; lia.
Qed.

Lemma spend_spend a1 n1 b1 a2 n2 b2 m :
  (m ← spend a1 n1 b1 m; spend a2 n2 b2 m) = spend (a1 && a2) (n1 + n2) (b1 + b2) m.
Proof.
  unfold spend. destruct a1; cbn [andb]; [|by destruct a2].
  destruct ((n1 <=? _)%N && (b1 <=? _)%N) eqn:E1; cbn [mbind option_bind].
  - cbn [charged mt_remaining_nodes mt_remaining_bytes]. destruct a2; cbn [andb]; [|done].
    destruct ((n2 <=? mt_remaining_nodes m - n1)%N && (b2 <=? mt_remaining_bytes m - b1)%N) eqn:E2.
    + replace ((n1 + n2 <=? mt_remaining_nodes m)%N && (b1 + b2 <=? mt_remaining_bytes m)%N) with true by lia.
      unfold charged. cbn. do 2 f_equal; lia.
    + by replace ((n1 + n2 <=? mt_remaining_nodes m)%N && (b1 + b2 <=? mt_remaining_bytes m)%N) with false by lia.
  - destruct a2; cbn [andb]; [|done].
    by replace ((n1 + n2 <=? mt_remaining_nodes m)%N && (b1 + b2 <=? mt_remaining_bytes m)%N) with false by lia.
Qed.

(** A computation charges what [spend] does. *)
Definition Charges (f : CompositeMeter -> option CompositeMeter) (allowed : bool) (nodes bytes : N) : Prop :=
  forall m, meter_ok m -> f m = spend allowed nodes bytes m.

Lemma Charges_bind f g a1 n1 b1 a2 n2 b2 :
  Charges f a1 n1 b1 -> Charges g a2 n2 b2 ->
  Charges (fun m => m ← f m; g m) (a1 && a2) (n1 + n2) (b1 + b2).
Proof.
  intros Hf Hg m Hm. rewrite <- spend_spend, (Hf m Hm). destruct (spend a1 n1 b1 m) as [m1|] eqn:E; [|done].
  cbn. by apply Hg, (spend_ok _ _ _ _ _ E).
Qed.

Lemma Charges_eq f a n b a' n' b' : Charges f a n b -> a = a' -> n = n' -> b = b' -> Charges f a' n' b'.
Proof. by intros ? <- <- <-. Qed.

Lemma Charges_node depth : Charges (consume_node depth) (depth <? MAX_REDIS_DEPTH)%N 1 0.
Proof.
  intros m [H1 H2]. unfold consume_node, spend. rewrite N.leb_antisym.
  destruct (depth <? MAX_REDIS_DEPTH)%N; cbn [negb andb]; [|done]. unfold checked_sub, checked_add.
  replace (0 <=? mt_remaining_bytes m)%N with true by lia. rewrite andb_true_r.
  destruct (1 <=? mt_remaining_nodes m)%N eqn:E; cbn; [|done].
  replace (mt_nodes m + 1 <=? USIZE_MAX)%N with true by lia. cbn. unfold charged. do 2 f_equal; lia.
Qed.

Lemma Charges_bytes n : Charges (add_bytes n) true 0 n.
Proof.
  intros m [H1 H2]. unfold add_bytes, spend, checked_sub, checked_add. cbn [andb].
  replace (0 <=? mt_remaining_nodes m)%N with true by lia. cbn [andb].
  destruct (n <=? mt_remaining_bytes m)%N eqn:E; cbn; [|done].
  replace (mt_encoded_bytes m + n <=? USIZE_MAX)%N with true by (unfold MAX_REDIS_CELL_BYTES, USIZE_MAX in *; lia).
  cbn. unfold charged. do 2 f_equal; lia.
Qed.

(** The cases of a checked operation. *)
Ltac checked_cases :=
  lazymatch goal with |- context [if ?b then _ else _] => destruct b eqn:?; cbn [mbind option_bind] end.

(** A measure that overflowed is over the limit anyway. *)
Definition measures (measured : option N) (n : N) : Prop :=
  match measured with Some bytes => bytes = n | None => (MAX_REDIS_CELL_BYTES < n)%N end.

Lemma Charges_measured measured n : measures measured n -> Charges (add_measured measured) true 0 n.
Proof.
  unfold measures. destruct measured as [bytes|].
  { intros ->. exact (Charges_bytes n). }
  intros Hn m [H1 H2]. unfold spend. cbn [add_measured mbind option_bind andb]. rewrite andb_comm.
  by replace (n <=? mt_remaining_bytes m)%N with false by lia.
Qed.

Lemma Charges_ret : Charges Some true 0 0.
Proof.
  intros [a b c d] _. unfold spend, charged. cbn [mt_remaining_nodes mt_remaining_bytes mt_nodes mt_encoded_bytes].
  rewrite !(proj2 (N.leb_le 0 _)) by lia. cbn [andb]. do 2 f_equal; lia.
Qed.

Lemma add_json_chars_measures bytes s :
  measures (add_json_chars bytes s) (bytes + sum_N (json_char_bytes <$> s))%N.
Proof.
  revert bytes. induction s as [|c s IH]; intros bytes; cbn [add_json_chars].
  { unfold measures. cbn. lia. }
  rewrite fmap_cons. change (sum_N (?a :: ?l)) with (a + sum_N l)%N. unfold checked_add.
  destruct (bytes + json_char_bytes c <=? USIZE_MAX)%N eqn:E; cbn [mbind option_bind].
  - rewrite N.add_assoc. apply IH.
  - unfold measures, MAX_REDIS_CELL_BYTES, USIZE_MAX in *. lia.
Qed.

Lemma json_string_measures s : measures (json_string_bytes s) (json_string_size s).
Proof. apply add_json_chars_measures. Qed.

Lemma bytes_measures bs :
  measures (encoded ← base64_encoded_bytes (len_bytes bs);
            bytes ← checked_add 47 encoded;
            checked_add bytes (decimal_digits (len_bytes bs))) (bytes_json_size bs).
Proof.
  rewrite decimal_digits_spec. unfold bytes_json_size, base64_encoded_bytes, checked_mul, checked_add.
  generalize (str_len (display_N (len_bytes bs))), (len_bytes bs). intros d n. unfold measures.
  assert (MAX_REDIS_CELL_BYTES = 65536)%N as -> by done. assert (USIZE_MAX = 18446744073709551615)%N as -> by done.
  destruct (n + 2 <=? _)%N eqn:E1; cbn [mbind option_bind]; [|lia].
  destruct ((n + 2) / 3 * 4 <=? _)%N eqn:E2; cbn [mbind option_bind]; [|lia].
  destruct (47 + _ <=? _)%N eqn:E3; cbn [mbind option_bind]; [|lia].
  checked_cases; lia.
Qed.

Lemma upper_bound_measures bits :
  measures (decimal_string_upper_bound_from_bits bits) (big_number_size bits).
Proof.
  unfold decimal_string_upper_bound_from_bits, big_number_size, checked_mul, checked_add, measures.
  unfold LOG10_2_UPPER_NUMERATOR, LOG10_2_UPPER_DENOMINATOR.
  assert (MAX_REDIS_CELL_BYTES = 65536)%N as -> by done. assert (USIZE_MAX = 18446744073709551615)%N as -> by done.
  destruct (bits =? 0)%N; cbn [mbind option_bind]; [done|].
  destruct (bits * 30103 <=? _)%N eqn:E1; cbn [mbind option_bind]; [|lia].
  destruct (bits * 30103 + _ <=? _)%N eqn:E2; cbn [mbind option_bind]; [|lia].
  checked_cases; lia.
Qed.

Lemma big_number_measures bits :
  measures (digits ← decimal_string_upper_bound_from_bits bits; checked_add digits 2) (big_number_size bits + 2)%N.
Proof.
  pose proof (upper_bound_measures bits) as H. unfold measures in *.
  assert (MAX_REDIS_CELL_BYTES = 65536)%N as E by done. rewrite E in *.
  destruct (decimal_string_upper_bound_from_bits bits) as [d|]; cbn [mbind option_bind]; [|lia].
  subst d. unfold checked_add. assert (USIZE_MAX = 18446744073709551615)%N as -> by done.
  checked_cases; lia.
Qed.

Lemma container_measures {A} (values : list A) : measures (container_bytes values) (container_size values).
Proof.
  unfold container_bytes, container_size, saturating_sub, checked_add, measures.
  assert (MAX_REDIS_CELL_BYTES = 65536)%N as -> by done. assert (USIZE_MAX = 18446744073709551615)%N as -> by done.
  checked_cases; lia.
Qed.

(** A loop charges the sums. *)
Lemma Charges_each {A} (f : A -> CompositeMeter -> option CompositeMeter) (a : A -> bool) (n b : A -> N) values :
  Forall (fun v => Charges (f v) (a v) (n v) (b v)) values ->
  Charges (measure_each f values) (forallb a values) (sum_N (n <$> values)) (sum_N (b <$> values)).
Proof.
  induction 1 as [|v values Hv _ IH]; cbn; [apply Charges_ret|]. by apply Charges_bind.
Qed.

Lemma Charges_scalar depth g n :
  Charges g true 0 n -> Charges (fun m => m ← consume_node depth m; g m) (depth + 1 <=? MAX_REDIS_DEPTH)%N 1 n.
Proof.
  intros Hg. eapply Charges_eq; [exact (Charges_bind _ _ _ _ _ _ _ _ (Charges_node depth) Hg)|lia..].
Qed.

Lemma max_N_cons a l : max_N (a :: l) = N.max a (max_N l).
Proof. done. Qed.
Lemma sum_N_cons a l : sum_N (a :: l) = (a + sum_N l)%N.
Proof. done. Qed.

Lemma depth_all {A} (f : A -> N) values depth bound :
  ((depth <? bound) && forallb (fun v => depth + 1 + f v <=? bound) values)%N
  = (depth + (1 + max_N (f <$> values)) <=? bound)%N.
Proof.
  induction values as [|v values IH]; cbn [forallb].
  { unfold max_N; cbn. lia. }
  rewrite fmap_cons, max_N_cons.
  destruct (depth + 1 + f v <=? bound)%N eqn:E; cbn [andb]; [rewrite IH|]; lia.
Qed.

(** A value's charge at a depth. *)
Definition charges_value (value : RedisValue) : Prop :=
  forall depth, Charges (measure value depth) (depth + reply_depth value <=? MAX_REDIS_DEPTH)%N
    (reply_nodes value) (reply_size value).

Lemma Charges_array values depth :
  Forall charges_value values ->
  Charges (fun m => m ← add_measured (container_bytes values) m;
                    measure_each (fun value => measure value (depth + 1)) values m)
    (forallb (fun v => depth + 1 + reply_depth v <=? MAX_REDIS_DEPTH)%N values)
    (sum_N (reply_nodes <$> values)) (container_size values + sum_N (reply_size <$> values)).
Proof.
  intros Hvalues. eapply Charges_eq.
  - apply Charges_bind; [apply Charges_measured, container_measures|].
    apply (Charges_each _ (fun v => depth + 1 + reply_depth v <=? MAX_REDIS_DEPTH)%N reply_nodes reply_size).
    eapply Forall_impl; [exact Hvalues|]. intros v Hv. apply Hv.
  - done.
  - lia.
  - done.
Qed.

Definition entry_depth (e : RedisValue * RedisValue) : N := let '(k, v) := e in N.max (reply_depth k) (reply_depth v).
Definition entry_nodes (e : RedisValue * RedisValue) : N := let '(k, v) := e in (reply_nodes k + reply_nodes v)%N.
Definition entry_size (e : RedisValue * RedisValue) : N := let '(k, v) := e in (17 + reply_size k + reply_size v)%N.

Lemma Charges_entries entries depth :
  Forall (fun e => charges_value e.1 /\ charges_value e.2) entries ->
  Charges (fun m => m ← add_measured (container_bytes entries) m;
                    measure_each (fun '(key, value) meter =>
                      meter ← add_bytes 17 meter;
                      meter ← measure key (depth + 1)%N meter;
                      measure value (depth + 1)%N meter) entries m)
    (forallb (fun e => depth + 1 + entry_depth e <=? MAX_REDIS_DEPTH)%N entries)
    (sum_N (entry_nodes <$> entries)) (container_size entries + sum_N (entry_size <$> entries)).
Proof.
  intros Hentries. eapply Charges_eq.
  - apply Charges_bind; [apply Charges_measured, container_measures|].
    apply (Charges_each _ (fun e => depth + 1 + entry_depth e <=? MAX_REDIS_DEPTH)%N entry_nodes entry_size).
    eapply Forall_impl; [exact Hentries|]. intros [k v] [Hk Hv]. cbn in Hk, Hv.
    eapply Charges_eq.
    + apply Charges_bind; [apply Charges_bytes|]. apply Charges_bind; [apply Hk|apply Hv].
    + unfold entry_depth. lia.
    + unfold entry_nodes. lia.
    + unfold entry_size. lia.
  - done.
  - lia.
  - done.
Qed.

Lemma scalar_charges value : scalar value -> charges_value value.
Proof.
  intros Hs depth. destruct value; try done; try (exact (Charges_scalar depth _ _ (Charges_bytes _)));
    try (exact (Charges_scalar depth _ _ (Charges_measured _ _ (json_string_measures _)))).
  - cbn [reply_size]. rewrite <- signed_decimal_digits_spec. exact (Charges_scalar depth _ _ (Charges_bytes _)).
  - cbn [measure_json_value_into reply_size]. destruct (from_utf8 value);
      apply Charges_scalar, Charges_measured; [apply json_string_measures|apply bytes_measures].
  - exact (Charges_scalar depth _ _ (Charges_measured _ _ (big_number_measures _))).
Qed.

(** The depth below a value of depth [d + 1] is one more than its parent's. *)
Lemma Charges_composite depth g allowed n b value :
  Charges g allowed n b ->
  ((depth <? MAX_REDIS_DEPTH) && allowed = (depth + reply_depth value <=? MAX_REDIS_DEPTH))%N ->
  reply_nodes value = (1 + n)%N -> reply_size value = b ->
  Charges (fun m => m ← consume_node depth m; g m) (depth + reply_depth value <=? MAX_REDIS_DEPTH)%N
    (reply_nodes value) (reply_size value).
Proof.
  intros Hg Ha -> ->. eapply Charges_eq; [exact (Charges_bind _ _ _ _ _ _ _ _ (Charges_node depth) Hg)|done|done|lia].
Qed.

Lemma attribute_charges data attributes :
  charges_value data -> Forall (fun e => charges_value e.1 /\ charges_value e.2) attributes ->
  charges_value (RvAttribute data attributes).
Proof.
  intros Hd Ha depth.
  refine (Charges_composite depth _ _ _ _ (RvAttribute data attributes)
    (Charges_bind _ _ _ _ _ _ _ _ (Charges_bytes 23)
      (Charges_bind _ _ _ _ _ _ _ _ (Charges_entries attributes depth Ha) (Hd (depth + 1)%N))) _ _ _).
  - cbn [andb]. rewrite andb_assoc, (depth_all entry_depth).
    change (reply_depth (RvAttribute data attributes)) with (1 + N.max (max_N (entry_depth <$> attributes)) (reply_depth data))%N.
    lia.
  - change (reply_nodes (RvAttribute data attributes)) with (1 + (sum_N (entry_nodes <$> attributes) + reply_nodes data))%N. lia.
  - change (reply_size (RvAttribute data attributes))
      with (23 + (container_size attributes + sum_N (entry_size <$> attributes)) + reply_size data)%N. lia.
Qed.

Lemma value_charges value : charges_value value.
Proof.
  induction value as [value Hs|values IH|values IH|values IH|entries IH|data attributes IHd IHa] using reply_ind.
  - by apply scalar_charges.
  - intros depth. exact (Charges_composite depth _ _ _ _ (RvArray values) (Charges_array values depth IH)
      (depth_all reply_depth values depth _) eq_refl eq_refl).
  - intros depth. exact (Charges_composite depth _ _ _ _ (RvSet values) (Charges_array values depth IH)
      (depth_all reply_depth values depth _) eq_refl eq_refl).
  - intros depth. exact (Charges_composite depth _ _ _ _ (RvPush values)
      (Charges_bind _ _ _ _ _ _ _ _ (Charges_bytes 23) (Charges_array values depth IH))
      (depth_all reply_depth values depth _) eq_refl eq_refl).
  - intros depth. exact (Charges_composite depth _ _ _ _ (RvMap entries) (Charges_entries entries depth IH)
      (depth_all entry_depth entries depth _) eq_refl eq_refl).
  - by apply attribute_charges.
Qed.

Lemma measure_is_size value remaining_nodes byte_limit :
  (remaining_nodes <= USIZE_MAX)%N -> (byte_limit <= MAX_REDIS_CELL_BYTES)%N ->
  measure_composite number_from_f64 bigint_bits value remaining_nodes byte_limit
  = if ((reply_depth value <=? MAX_REDIS_DEPTH) && (reply_nodes value <=? remaining_nodes)
        && (reply_size value <=? byte_limit))%N
    then Some {| cm_nodes := reply_nodes value; cm_encoded_bytes := reply_size value |} else None.
Proof.
  intros Hn Hb. unfold measure_composite. rewrite (value_charges value 0%N) by (split; cbn; lia).
  unfold spend. cbn [mt_remaining_nodes mt_remaining_bytes]. rewrite N.add_0_l, andb_assoc.
  by destruct (_ && _ && _).
Qed.

(** ** The size is the JSON's *)

Definition is_base64_char (c : char) : bool :=
  ((65 <=? c) && (c <=? 90) || (97 <=? c) && (c <=? 122) || (48 <=? c) && (c <=? 57) || (c =? 43) || (c =? 47)
   || (c =? 61))%N.

(** What the crates document: JSON has no number for a float that is not finite,
    base64 encodes three bytes in four characters of its alphabet, and the bits of an
    integer are those of its magnitude. *)
Record DecodeLaws : Prop := {
  law_float : forall f, f64_to_json crates f = match number_from_f64 f with Some t => JNumber t | None => JNull end;
  law_base64_length : forall bs, N.of_nat (length (base64 crates bs)) = ((len_bytes bs + 2) / 3 * 4)%N;
  law_base64_chars : forall bs, Forall (fun c => is_base64_char c = true) (base64 crates bs);
  law_bits : forall z, bigint_bits z = N.size (Z.abs_N z);
}.

Lemma str_len_app a b : str_len (a ++ b) = (str_len a + str_len b)%N.
Proof. unfold str_len. rewrite byte_len_app. lia. Qed.
Lemma str_len_cons c s : str_len (c :: s) = (N.of_nat (len_utf8 c) + str_len s)%N.
Proof. unfold str_len. rewrite byte_len_cons. lia. Qed.

Lemma json_char_len c : str_len (json_char c) = json_char_bytes c.
Proof.
  unfold json_char, json_char_bytes.
  destruct (decide (c ∈ [34; 92; 8; 12; 10; 13; 9]%N)) as [Hin|Hnin].
  { rewrite bool_decide_true by done. repeat (apply elem_of_cons in Hin as [->|Hin]; [by vm_compute|]).
    by apply elem_of_nil in Hin. }
  rewrite bool_decide_false by done.
  repeat (rewrite not_elem_of_cons in Hnin; destruct Hnin as [?%N.eqb_neq Hnin]).
  repeat match goal with H : (c =? _)%N = false |- _ => rewrite H; clear H end.
  destruct (c <=? 31)%N eqn:Hc; [|by rewrite str_len_cons; change (str_len []) with 0%N; rewrite N.add_0_r].
  assert (forall n, (n < 16)%N -> (hex_digit n < 128)%N) as Hhex.
  { intros n Hn. unfold hex_digit. destruct (n <? 10)%N eqn:E; lia. }
  rewrite str_len_ascii; [done|]. cbn. repeat apply Forall_cons_2; try done; apply Hhex.
  - apply N.Div0.div_lt_upper_bound. lia.
  - by apply N.mod_lt.
Qed.

Lemma json_string_len s : str_len (json_string s) = json_string_size s.
Proof.
  unfold json_string, json_string_size. rewrite str_len_cons, str_len_app.
  change (str_len [34%N]) with 1%N. rewrite len_utf8_ascii by lia.
  enough (str_len (s ≫= json_char) = sum_N (json_char_bytes <$> s)) as ->; [lia|].
  induction s as [|c s IH]; [done|]. rewrite bind_cons, str_len_app, fmap_cons, sum_N_cons, json_char_len. by f_equal.
Qed.

(** Characters that a JSON string holds as they are. *)
Definition plain_char (c : char) : bool := ((32 <=? c) && (c <? 128) && negb (c =? 34) && negb (c =? 92))%N.

Lemma json_string_plain s :
  Forall (fun c => plain_char c = true) s -> json_string_size s = (2 + N.of_nat (length s))%N.
Proof.
  intros Hs. unfold json_string_size. f_equal. induction Hs as [|c s Hc _ IH]; [done|].
  rewrite fmap_cons, sum_N_cons, IH. cbn [length].
  enough (json_char_bytes c = 1%N) as -> by lia. unfold plain_char in Hc. unfold json_char_bytes.
  rewrite bool_decide_false.
  - replace (c <=? 31)%N with false by lia. by rewrite len_utf8_ascii by lia.
  - intros Hin. repeat (apply elem_of_cons in Hin as [->|Hin]; [by vm_compute in Hc|]). by apply elem_of_nil in Hin.
Qed.

Lemma display_N_plain n : Forall (fun c => plain_char c = true) (display_N n).
Proof.
  eapply Forall_impl; [apply display_N_digits|]. intros c. unfold is_ascii_digit, plain_char. lia.
Qed.

Lemma display_Z_plain z : Forall (fun c => plain_char c = true) (display_Z z).
Proof. unfold display_Z. destruct (z <? 0)%Z; [constructor; [done|]|]; apply display_N_plain. Qed.

Lemma base64_plain bs : DecodeLaws -> Forall (fun c => plain_char c = true) (base64 crates bs).
Proof.
  intros L. eapply Forall_impl; [apply (law_base64_chars L)|]. intros c. unfold is_base64_char, plain_char. lia.
Qed.

Lemma display_digits_bound n : (N.of_nat (length (display_N n)) <= big_number_size (N.size n) - 1)%N.
Proof.
  unfold big_number_size. destruct (decide (n = 0)%N) as [->|Hn]; [by vm_compute|].
  assert (N.size n <> 0)%N as Hs by (by destruct n).
  rewrite (proj2 (N.eqb_neq _ _) Hs). pose proof (count_digits_spec n 0 ltac:(lia)) as Hc.
  rewrite str_len_display in Hc. rewrite <- (N.add_0_l (N.of_nat _)), <- Hc.
  set (k := ((N.size n * 30103 + 99999) / 100000)%N). replace (k + 1 - 1)%N with (0 + k)%N by lia.
  apply count_digits_bound. eapply N.lt_le_trans; [apply N.size_gt|]. apply pow2_pow10. subst k. lia.
Qed.

Lemma display_Z_bound z : (N.of_nat (length (display_Z z)) <= big_number_size (N.size (Z.abs_N z)))%N.
Proof.
  pose proof (display_digits_bound (Z.abs_N z)) as H. unfold big_number_size in *.
  unfold display_Z. destruct (z <? 0)%Z eqn:E; cbn [length].
  - replace (Z.to_N (- z)) with (Z.abs_N z) by lia. lia.
  - replace (Z.to_N z) with (Z.abs_N z) by lia. lia.
Qed.

Definition json_size (value : json) : N := str_len (canonical_json value).
Definition entry_bytes (e : str * json) : N := (json_string_size e.1 + 1 + json_size e.2)%N.

Lemma comma_separated_len items :
  str_len (comma_separated items) = (sum_N (str_len <$> items) + (N.of_nat (length items) - 1))%N.
Proof.
  destruct items as [|item items]; [done|]. unfold comma_separated, separated.
  rewrite str_len_app, fmap_cons, sum_N_cons. cbn [length].
  enough (str_len (items ≫= fun i => [44%N] ++ i) = (sum_N (str_len <$> items) + N.of_nat (length items))%N) by lia.
  induction items as [|i items IH]; [done|].
  rewrite bind_cons, str_len_app, IH, fmap_cons, sum_N_cons. cbn [app length]. rewrite str_len_cons, len_utf8_ascii; lia.
Qed.

Lemma json_size_array values :
  json_size (JArray values) = (container_size values + sum_N (json_size <$> values))%N.
Proof.
  unfold json_size, container_size. cbn [canonical_json]. rewrite !str_len_app, comma_separated_len.
  rewrite length_fmap, <- list_fmap_compose. change (str_len [91%N]) with 1%N. change (str_len [93%N]) with 1%N.
  change ((str_len ∘ canonical_json) <$> values) with ((fun v => str_len (canonical_json v)) <$> values). lia.
Qed.

Lemma sum_N_perm a b : a ≡ₚ b -> sum_N a = sum_N b.
Proof.
  induction 1 as [|x a b _ IH|x y a|a b c _ IH1 _ IH2]; [done|by rewrite !sum_N_cons, IH|rewrite !sum_N_cons; lia|congruence].
Qed.

(** Sorting the keys does not change the size. *)
Lemma json_size_object entries :
  json_size (JObject entries) = (container_size entries + sum_N (entry_bytes <$> entries))%N.
Proof.
  unfold json_size, container_size. cbn [canonical_json]. rewrite !str_len_app, comma_separated_len.
  set (fields := (fun '(k, v) => (k, canonical_json v)) <$> entries).
  pose proof (merge_sort_Permutation field_le fields) as Hp. rewrite length_fmap, (Permutation_length Hp), <- list_fmap_compose.
  rewrite (sum_N_perm _ _ (fmap_Permutation _ _ _ Hp)).
  subst fields. rewrite length_fmap, <- list_fmap_compose.
  change (str_len [123%N]) with 1%N. change (str_len [125%N]) with 1%N.
  assert (forall e : str * json, (str_len ∘ (fun e => json_string e.1 ++ [58%N] ++ e.2)
    ∘ (fun '(k, v) => (k, canonical_json v))) e = entry_bytes e) as Hext.
  { intros [k v]. unfold entry_bytes, json_size. cbn [compose fst snd].
    rewrite !str_len_app, json_string_len. change (str_len [58%N]) with 1%N. lia. }
  rewrite (list_fmap_ext _ _ entries (fun _ e _ => Hext e)). lia.
Qed.

(** The size of an object with given keys. *)
Lemma json_size_pair k1 v1 k2 v2 :
  json_size (JObject [(k1, v1); (k2, v2)])
  = (5 + json_string_size k1 + json_string_size k2 + json_size v1 + json_size v2)%N.
Proof. rewrite json_size_object. unfold container_size, entry_bytes, sum_N. cbn [fmap list_fmap foldr length fst snd]. lia. Qed.

Lemma bytes_cell_json_size bs : DecodeLaws -> json_size (cell_json crates (bytes_cell bs)) = bytes_json_size bs.
Proof.
  intros L. cbn [cell_json bytes_cell]. rewrite json_size_object, N.ltb_irrefl.
  unfold container_size, entry_bytes, sum_N. cbn [fmap list_fmap foldr length fst snd].
  unfold json_size. cbn [canonical_json]. rewrite json_string_len, (json_string_plain _ (base64_plain bs L)).
  rewrite (law_base64_length L). unfold bytes_json_size. change (str_len (display_bool false)) with 5%N.
  change (json_string_size (lit "base64")) with 8%N. change (json_string_size (lit "original_len")) with 14%N.
  change (json_string_size (lit "truncated")) with 11%N. lia.
Qed.

(** What counting a big number by its bits adds to its decimal text. *)
Fixpoint reply_spare (value : RedisValue) : N :=
  let entries (es : list (RedisValue * RedisValue)) :=
    sum_N ((fun '(k, v) => reply_spare k + reply_spare v)%N <$> es) in
  match value with
  | RvBigNumber value => (big_number_size (bigint_bits value) - str_len (display_Z value))%N
  | RvArray values | RvSet values | RvPush values => sum_N (reply_spare <$> values)
  | RvMap es => entries es
  | RvAttribute data es => (entries es + reply_spare data)%N
  | _ => 0%N
  end.

Local Abbreviation built := (value_json_complete crates).
Definition sized (value : RedisValue) : Prop := (json_size (built value) + reply_spare value = reply_size value)%N.

Definition entry_json (e : RedisValue * RedisValue) : json :=
  let '(k, v) := e in JObject [(lit "key", built k); (lit "value", built v)].
Definition entry_spare (e : RedisValue * RedisValue) : N := let '(k, v) := e in (reply_spare k + reply_spare v)%N.

Lemma sum_N_add {A} (f g h : A -> N) l :
  Forall (fun x => f x + g x = h x)%N l -> (sum_N (f <$> l) + sum_N (g <$> l))%N = sum_N (h <$> l).
Proof. induction 1 as [|x l Hx _ IH]; [done|]. rewrite !fmap_cons, !sum_N_cons. lia. Qed.

Lemma array_sized values :
  Forall sized values ->
  (json_size (JArray (built <$> values)) + sum_N (reply_spare <$> values)
   = container_size values + sum_N (reply_size <$> values))%N.
Proof.
  intros H. rewrite json_size_array, <- list_fmap_compose, <- (sum_N_add _ _ _ _ H).
  unfold container_size. rewrite length_fmap.
  change ((json_size ∘ built) <$> values) with ((fun v => json_size (built v)) <$> values). lia.
Qed.

Lemma entries_sized entries :
  Forall (fun e => sized e.1 /\ sized e.2) entries ->
  (json_size (JArray (entry_json <$> entries)) + sum_N (entry_spare <$> entries)
   = container_size entries + sum_N (entry_size <$> entries))%N.
Proof.
  intros H. rewrite json_size_array, <- list_fmap_compose.
  rewrite <- (sum_N_add (json_size ∘ entry_json) entry_spare entry_size).
  { unfold container_size. rewrite length_fmap. lia. }
  eapply Forall_impl; [exact H|]. intros [k v] [Hk Hv]. cbn [compose entry_json entry_spare entry_size].
  unfold sized in *. rewrite json_size_pair.
  change (json_string_size (lit "key")) with 5%N. change (json_string_size (lit "value")) with 7%N. cbn in Hk, Hv. lia.
Qed.

Lemma json_size_string s : json_size (JString s) = json_string_size s.
Proof. apply json_string_len. Qed.

Lemma scalar_sized value : DecodeLaws -> scalar value -> sized value.
Proof.
  intros L Hs. unfold sized, value_json_complete.
  destruct value; try done; cbn [value_cell_complete cell_json reply_spare reply_size];
    rewrite ?json_size_string, ?N.add_0_r; try done.
  - destruct (from_utf8 value); [apply json_size_string|by apply bytes_cell_json_size].
  - rewrite (law_float L). unfold json_float_bytes. by destruct (number_from_f64 value).
  - by destruct value.
  - rewrite (json_string_plain _ (display_Z_plain value)), str_len_ascii.
    + rewrite (law_bits L). pose proof (display_Z_bound value). lia.
    + eapply Forall_impl; [apply display_Z_plain|]. intros c. unfold plain_char. lia.
Qed.

Lemma value_sized value : DecodeLaws -> sized value.
Proof.
  intros L.
  induction value as [value Hs|values IH|values IH|values IH|entries IH|data attributes IHd IHa] using reply_ind.
  - by apply scalar_sized.
  - exact (array_sized values IH).
  - exact (array_sized values IH).
  - apply array_sized in IH. unfold sized, value_json_complete. cbn [value_cell_complete cell_json].
    rewrite json_size_pair. change (json_size (JString (lit "push"))) with 6%N.
    change (json_string_size (lit "data")) with 6%N. change (json_string_size (lit "type")) with 6%N.
    cbn [reply_spare reply_size]. change (fun value => cell_json crates (value_cell_complete crates value)) with built. lia.
  - exact (entries_sized entries IH).
  - apply entries_sized in IHa. unfold sized in *.
    change (built (RvAttribute data attributes))
      with (JObject [(lit "attributes", JArray (entry_json <$> attributes)); (lit "data", built data)]).
    rewrite json_size_pair. change (json_string_size (lit "attributes")) with 12%N.
    change (json_string_size (lit "data")) with 6%N.
    change (reply_size (RvAttribute data attributes))
      with (23 + (container_size attributes + sum_N (entry_size <$> attributes)) + reply_size data)%N.
    change (reply_spare (RvAttribute data attributes)) with (sum_N (entry_spare <$> attributes) + reply_spare data)%N. lia.
Qed.

(** C24: the bounded measure of a composite reply is the size of its JSON. Walking the reply with a meter that stops at the first node, byte or level too many accepts it exactly when its depth is at most eight, its nodes are within what is left, and so is the JSON text that is then built for it (with, for each big number, the spare bytes of the bound on its digits); it reports exactly those numbers, and no overflow of the checked arithmetic rejects a reply that fits. *)
Theorem measure_is_json_size value remaining_nodes byte_limit :
  DecodeLaws -> (remaining_nodes <= USIZE_MAX)%N -> (byte_limit <= MAX_REDIS_CELL_BYTES)%N ->
  let bytes := (str_len (canonical_json (value_json_complete crates value)) + reply_spare value)%N in
  measure_composite number_from_f64 bigint_bits value remaining_nodes byte_limit
  = if ((reply_depth value <=? MAX_REDIS_DEPTH) && (reply_nodes value <=? remaining_nodes) && (bytes <=? byte_limit))%N
    then Some {| cm_nodes := reply_nodes value; cm_encoded_bytes := bytes |} else None.
Proof.
  intros L Hn Hb bytes. assert (bytes = reply_size value) as -> by exact (value_sized value L). by apply measure_is_size.
Qed.
End size.
