(* ===== verification/RedisRows.v ===== *)
(** * The rows of a Redis reply (theorems on RedisDecode)

    The rows that are kept are the first rows of the complete decoding, within the
    limits; a reply within the limits is kept whole, and what is left out is reported. *)

From S2P Require Import Prelude RustStr Model Retention Export Drivers RedisBrowser RedisBrowserSafety RedisDecode RedisDecodeSafety.

(** ** A text has the length of its bytes *)

Lemma continuation_some b n : continuation b = Some n -> (b = 0x80 + n /\ n < 64)%N.
Proof. unfold continuation. case_match; [|done]. intros [= <-]. lia. Qed.

Ltac continuations :=
  repeat match goal with H : continuation ?b ≫= _ = Some _ |- _ =>
    destruct (continuation b) as [?|] eqn:?; cbn [mbind option_bind] in H; [|discriminate H]
  end;
  repeat match goal with H : continuation _ = Some _ |- _ => apply continuation_some in H as [-> ?] end.


Lemma decode_char_encode bs c rest : decode_char bs = Some (c, rest) -> bs = encode_char c ++ rest.
Proof.
  intros H. assert (c < 0x200000 /\ bs = encode_char c ++ rest)%N as [_ ->]; [|done].
  unfold decode_char in H. destruct bs as [|a bs]; [done|].
  repeat case_match; simplify_eq; continuations;
    repeat match goal with H : (if ?b then None else Some _) = Some _ |- _ => destruct b eqn:?; [done|] end;
    simplify_eq; (split; [lia|]); rewrite encode_char_arith by lia.
  all: repeat match goal with |- context [if ?b then _ else _] =>
         first [replace b with true by lia | replace b with false by lia] end.
  all: cbn [app]; repeat (apply (f_equal2 cons); [lia|]); done.
Qed.

Lemma from_utf8_sound bs s : from_utf8 bs = Some s -> encode s = bs.
Proof.
  unfold from_utf8. generalize (length bs) at 1. intros fuel H.
  revert bs s H. induction fuel as [|fuel IH]; intros bs s H; cbn in H.
  { destruct bs; [by injection H as <-|done]. }
  destruct bs as [|a bs]; [by injection H as <-|].
  destruct (decode_char (a :: bs)) as [[c rest]|] eqn:Hc; cbn in H; [|done].
  destruct (from_utf8_fuel fuel rest) as [t|] eqn:Ht; cbn in H; [|done]. injection H as <-.
  by rewrite encode_cons, (decode_char_encode _ _ _ Hc), (IH _ _ Ht).
Qed.

Lemma from_utf8_len bs s : from_utf8 bs = Some s -> str_len s = len_bytes bs.
Proof. by intros <-%from_utf8_sound. Qed.

Section rows.
Context (crates : Crates) (number_from_f64 : f64 -> option str) (bigint_bits : Z -> N).
Context (laws : DecodeLaws crates number_from_f64 bigint_bits).

(** ** What a row holds *)

Definition cell_bytes (cell : Cell) : N :=
  match cell with
  | CNull => 4
  | CBool value => if value then 4 else 5
  | CInt value => str_len (display_Z value)
  | CUInt value => str_len (display_N value)
  | CFloat value => json_float_bytes number_from_f64 value
  | CDecimal value | CText value | CDateTime value => str_len value
  | CTextPreview preview _ | CJsonPreview preview _ => str_len preview
  | CBytes retained _ => len_bytes retained
  | CJson value => str_len (canonical_json value)
  end.

(** The bytes an item is charged: those of its cell, a big number by its bits. *)
Definition item_bytes (value : RedisValue) : N :=
  match value with
  | RvBigNumber value => big_number_size (bigint_bits value)
  | value =>
      if is_composite value then reply_size number_from_f64 bigint_bits value
      else cell_bytes (value_cell_complete crates value)
  end.

Definition previewable (value : RedisValue) : bool :=
  match value with
  | RvBulkString _ | RvSimpleString _ | RvOkay | RvVerbatimString _ => true
  | _ => false
  end.

Lemma item_bytes_scalar value :
  scalar value ->
  match scalar_measure number_from_f64 bigint_bits value with
  | Some (n, p) => n = item_bytes value /\ p = previewable value
  | None => (MAX_REDIS_CELL_BYTES < item_bytes value)%N /\ previewable value = false
  end.
Proof using laws.
  intros Hs. destruct value; try done; cbn; try (split; [|done]).
  - apply signed_decimal_digits_spec.
  - destruct (from_utf8 value) as [s|] eqn:E; cbn; [by rewrite (from_utf8_len _ _ E)|done].
  - pose proof (upper_bound_measures number_from_f64 bigint_bits (bigint_bits value)) as H.
    destruct (decimal_string_upper_bound_from_bits _); cbn in *; by split.
Qed.

(** A cell takes at most what its item is charged. *)
Lemma cell_bytes_le value : (cell_bytes (value_cell_complete crates value) <= item_bytes value)%N.
Proof using laws.
  destruct (is_composite value) eqn:E.
  - pose proof (value_sized crates number_from_f64 bigint_bits value laws) as H.
    assert (item_bytes value = reply_size number_from_f64 bigint_bits value) as -> by (by destruct value).
    unfold sized in H. rewrite <- H. unfold value_json_complete, json_size. destruct value; try done; cbn; lia.
  - destruct value; try done. cbn. rewrite (law_bits _ _ _ laws), str_len_ascii.
    { apply (display_Z_bound number_from_f64 bigint_bits). }
    eapply Forall_impl; [apply (display_Z_plain number_from_f64)|]. intros c. unfold plain_char. lia.
Qed.

(** ** One value *)

Local Abbreviation decode := (decode_value_cell crates number_from_f64 bigint_bits).
Local Abbreviation cell_of := (value_cell_complete crates).

Definition fits (value : RedisValue) (budget : DecodeBudget) : bool :=
  ((reply_depth value <=? MAX_REDIS_DEPTH) && (reply_nodes value <=? db_remaining_nodes budget)
   && (item_bytes value <=? N.min (db_remaining_bytes budget) MAX_REDIS_CELL_BYTES))%N.

Definition spent (value : RedisValue) (budget : DecodeBudget) : DecodeBudget :=
  {| db_remaining_nodes := db_remaining_nodes budget - reply_nodes value;
     db_remaining_bytes := db_remaining_bytes budget - item_bytes value;
     db_truncated := db_truncated budget |}.

Lemma decode_fits value budget :
  (db_remaining_nodes budget <= USIZE_MAX)%N -> fits value budget = true ->
  decode value budget = (Some {| dc_cell := cell_of value; dc_stop_after := false |}, spent value budget).
Proof using laws.
  intros Hn Hf. unfold fits in Hf. unfold decode_value_cell. destruct (is_composite value) eqn:E.
  - assert (item_bytes value = reply_size number_from_f64 bigint_bits value) as Hi by (by destruct value).
    unfold decode_composite. rewrite measure_is_size by lia. rewrite <- Hi, Hf. done.
  - unfold decode_scalar. pose proof (item_bytes_scalar value E) as H.
    assert (reply_nodes value = 1%N) as H1 by (by destruct value). rewrite H1 in Hf.
    unfold checked_sub. replace (1 <=? db_remaining_nodes budget)%N with true by lia.
    destruct (scalar_measure _ _ value) as [[n p]|]; [|lia]. destruct H as [-> ->].
    replace (MAX_REDIS_CELL_BYTES <? item_bytes value)%N with false by lia.
    replace (db_remaining_bytes budget <? item_bytes value)%N with false by lia. unfold spent. by rewrite H1.
Qed.

(** A value that does not fit ends the rows, and all but a text are left out. *)
Lemma decode_over value budget :
  (db_remaining_nodes budget <= USIZE_MAX)%N -> fits value budget = false ->
  (exists budget', decode value budget = (None, budget')) \/
  (exists budget', decode value budget = (Some {| dc_cell := cell_of value; dc_stop_after := true |}, budget') /\
     previewable value = true /\ (1 <= db_remaining_nodes budget)%N).
Proof using laws.
  intros Hn Hf. unfold fits in Hf. unfold decode_value_cell. destruct (is_composite value) eqn:E.
  - assert (item_bytes value = reply_size number_from_f64 bigint_bits value) as Hi by (by destruct value).
    unfold decode_composite. rewrite measure_is_size by lia. rewrite <- Hi, Hf. by eauto.
  - unfold decode_scalar. pose proof (item_bytes_scalar value E) as H.
    assert (reply_nodes value = 1%N) as H1 by (by destruct value).
    assert (reply_depth value = 1%N) as H2 by (by destruct value). rewrite H1, H2 in Hf.
    unfold checked_sub. destruct (1 <=? db_remaining_nodes budget)%N eqn:Hone; [|by eauto].
    destruct (scalar_measure _ _ value) as [[n p]|]; [|by eauto]. destruct H as [-> ->].
    replace ((MAX_REDIS_CELL_BYTES <? item_bytes value) || (db_remaining_bytes budget <? item_bytes value))%N
      with true by (unfold MAX_REDIS_DEPTH in Hf; lia).
    destruct (previewable value); cbn; [right|left]; eauto 6 with lia.
Qed.

(** ** The rows *)

Local Abbreviation rows_of := (decode_rows crates number_from_f64 bigint_bits).
Local Abbreviation row_of := (fun value => [cell_of value]).

Definition within_cell (value : RedisValue) : Prop :=
  (item_bytes value <= MAX_REDIS_CELL_BYTES /\ reply_depth value <= MAX_REDIS_DEPTH)%N.

(** What the loop has done: values kept whole, then at most one text over the limit. *)
Record kept_rows (values : list RedisValue) (budget : DecodeBudget) (rows : list (list Cell)) (stopped : bool)
    (whole cut : list RedisValue) : Prop := {
  kr_prefix : whole ++ cut = take (length rows) values;
  kr_rows : rows = row_of <$> (whole ++ cut);
  kr_cut : length cut <= 1;
  kr_text : Forall (fun v => previewable v = true) cut;
  kr_all : stopped = false -> whole = values;
  kr_cells : Forall within_cell whole;
  kr_bytes : (sum_N (item_bytes <$> whole) <= db_remaining_bytes budget)%N;
  kr_nodes : (sum_N (reply_nodes <$> (whole ++ cut)) <= db_remaining_nodes budget)%N;
}.

Lemma kept_nothing values budget : kept_rows values budget [] true [] [].
Proof. split; try done; cbn; lia. Qed.

Lemma kept_cut value values budget :
  previewable value = true -> (1 <= db_remaining_nodes budget)%N ->
  kept_rows (value :: values) budget [row_of value] true [] [value].
Proof.
  intros Hp Hn. assert (reply_nodes value = 1%N) as H1 by (by destruct value).
  split; cbn; rewrite ?H1; try done; try lia. by constructor.
Qed.

Lemma kept_whole value values budget rows stopped whole cut :
  fits value budget = true -> kept_rows values (spent value budget) rows stopped whole cut ->
  kept_rows (value :: values) budget (row_of value :: rows) stopped (value :: whole) cut.
Proof.
  intros Hf [H1 H2 H3 H4 H5 H6 H7 H8]. unfold fits in Hf. cbn in H7, H8. split; cbn [length app take].
  - by f_equal.
  - by rewrite fmap_cons, H2 at 1.
  - done.
  - done.
  - intros Hs. by f_equal; apply H5.
  - constructor; [|done]. split; lia.
  - rewrite fmap_cons, sum_N_cons. lia.
  - rewrite fmap_cons, sum_N_cons. lia.
Qed.

Lemma rows_kept values budget rows stopped budget' :
  (db_remaining_nodes budget <= USIZE_MAX)%N -> rows_of values budget = (rows, stopped, budget') ->
  exists whole cut, kept_rows values budget rows stopped whole cut.
Proof using laws.
  revert budget rows stopped budget'. induction values as [|value values IH]; intros budget rows stopped budget' Hn;
    cbn [decode_rows].
  { intros [= <- <- <-]. exists [], []. split; try done; cbn; lia. }
  destruct (fits value budget) eqn:Hf.
  - rewrite decode_fits by done. cbn [dc_stop_after dc_cell].
    destruct (rows_of values (spent value budget)) as [[rows1 stopped1] budget1] eqn:Hr. intros [= <- <- <-].
    apply IH in Hr as (whole & cut & Hk); [|cbn; lia]. exists (value :: whole), cut. by apply kept_whole.
  - destruct (decode_over value budget Hn Hf) as [[b ->]|(b & -> & Hp & H1)]; cbn [dc_stop_after dc_cell];
      intros [= <- <- <-]; [exists [], []; apply kept_nothing|exists [], [value]; by apply kept_cut].
Qed.

(** Values that fit one after the other are all kept. *)
Lemma rows_whole values budget :
  (db_remaining_nodes budget <= USIZE_MAX)%N -> Forall within_cell values ->
  (sum_N (item_bytes <$> values) <= db_remaining_bytes budget)%N ->
  (sum_N (reply_nodes <$> values) <= db_remaining_nodes budget)%N ->
  exists budget', rows_of values budget = (row_of <$> values, false, budget') /\
    db_truncated budget' = db_truncated budget.
Proof using laws.
  intros Hn Hv. revert budget Hn. induction Hv as [|value values [Hb Hd] _ IH]; intros budget Hn Hbytes Hnodes;
    cbn [decode_rows]; [by eauto|].
  rewrite fmap_cons, sum_N_cons in Hbytes, Hnodes. rewrite decode_fits by (unfold fits; lia).
  cbn [dc_stop_after dc_cell].
  destruct (IH (spent value budget)) as (budget' & -> & Ht); [cbn; lia..|]. by exists budget'.
Qed.

Definition reply_items (value : RedisValue) : list RedisValue :=
  match value with RvArray values => values | value => [value] end.

Lemma value_rows_items value row_limit :
  value_rows crates number_from_f64 bigint_bits value row_limit =
  let '(rows, stopped, budget) := rows_of (take (N.to_nat row_limit) (reply_items value)) full_budget in
  (rows, (row_limit <? N.of_nat (length (reply_items value)))%N || stopped || db_truncated budget).
Proof.
  assert (forall v, reply_items v = [v] ->
    (if (row_limit =? 0)%N then ([], true)
     else match decode v full_budget with
          | (None, _) => ([], true)
          | (Some decoded, budget) => ([[dc_cell decoded]], dc_stop_after decoded || db_truncated budget)
          end) =
    let '(rows, stopped, budget) := rows_of (take (N.to_nat row_limit) (reply_items v)) full_budget in
    (rows, (row_limit <? N.of_nat (length (reply_items v)))%N || stopped || db_truncated budget)) as Hone.
  { intros v ->. destruct (N.eqb_spec row_limit 0) as [->|Hl]; [done|]. cbn [length].
    replace (row_limit <? N.of_nat 1)%N with false by lia.
    assert (take (N.to_nat row_limit) [v] = [v]) as ->.
    { destruct (N.to_nat row_limit) as [|n] eqn:E; [lia|]. cbn. by rewrite take_nil. }
    cbn [decode_rows]. destruct (decode v full_budget) as [[[cell []]|] budget]; cbn; done. }
  destruct value; try done;
    lazymatch goal with |- value_rows _ _ _ ?v _ = _ => exact (Hone v eq_refl) end.
Qed.

(** C25: what a reply becomes is bounded and never altered. Whatever the server answers and whatever the row limit, the rows are the first rows of the complete decoding, at most as many as the limit allows; apart from one last text that is over a limit, every cell takes at most the cell limit and nests at most eight levels, and together they take at most the result's bytes and its cells; and a reply that is not reported as truncated is all there. *)
Theorem reply_rows_bounded value row_limit rows truncated :
  value_rows crates number_from_f64 bigint_bits value row_limit = (rows, truncated) ->
  exists whole cut,
    whole ++ cut = take (length rows) (reply_items value) /\
    rows = (fun v => [value_cell_complete crates v]) <$> (whole ++ cut) /\
    (N.of_nat (length rows) <= row_limit)%N /\
    (truncated = false -> whole = reply_items value) /\
    length cut <= 1 /\ Forall (fun v => previewable v = true) cut /\
    Forall (fun v => cell_bytes (value_cell_complete crates v) <= MAX_REDIS_CELL_BYTES /\
                     reply_depth v <= MAX_REDIS_DEPTH)%N whole /\
    (sum_N ((fun v => cell_bytes (value_cell_complete crates v)) <$> whole) <= MAX_RESULT_BYTES)%N /\
    (sum_N (reply_nodes <$> (whole ++ cut)) <= MAX_REDIS_CELLS)%N.
Proof using laws.
  rewrite value_rows_items. destruct (rows_of _ full_budget) as [[rows0 stopped] budget] eqn:Hr. intros [= <- <-].
  apply rows_kept in Hr as (whole & cut & [H1 H2 H3 H4 H5 H6 H7 H8]); [|by vm_compute].
  assert (length rows0 <= N.to_nat row_limit) as Hlen.
  { rewrite H2, length_fmap, H1, !length_take. lia. }
  exists whole, cut. split_and!; [|done|lia| |done|done| | |exact H8].
  - rewrite H1, take_take. f_equal. lia.
  - intros Ht. rewrite H5; [|by destruct stopped; rewrite ?orb_true_r in Ht].
    apply take_ge. destruct (row_limit <? _)%N eqn:E; [done|]. lia.
  - eapply Forall_impl; [exact H6|]. intros v [Hb Hd]. split; [|done]. etrans; [apply cell_bytes_le|done].
  - etrans; [|exact H7]. clear -laws. induction whole as [|v whole IH]; [done|].
    rewrite !fmap_cons, !sum_N_cons. pose proof (cell_bytes_le v). lia.
Qed.

(** A reply within the limits is decoded whole: when its items are at most the row limit, each within the cell limit and eight levels, and together within the result's bytes and cells, every item is a row, complete and in order, and nothing is reported as truncated. *)
Theorem reply_within_limits_whole value row_limit :
  let items := reply_items value in
  (N.of_nat (length items) <= row_limit)%N ->
  Forall (fun v => item_bytes v <= MAX_REDIS_CELL_BYTES /\ reply_depth v <= MAX_REDIS_DEPTH)%N items ->
  (sum_N (item_bytes <$> items) <= MAX_RESULT_BYTES)%N ->
  (sum_N (reply_nodes <$> items) <= MAX_REDIS_CELLS)%N ->
  value_rows crates number_from_f64 bigint_bits value row_limit
  = ((fun v => [value_cell_complete crates v]) <$> items, false).
Proof using laws.
  intros items Hlen Hitems Hbytes Hnodes. rewrite value_rows_items, take_ge by (subst items; lia).
  destruct (rows_whole items full_budget) as (budget & Hr & Ht); [by vm_compute|done|done|done|].
  fold items. rewrite Hr, Ht. by replace (row_limit <? N.of_nat (length items))%N with false by lia.
Qed.
End rows.

(** ** Crates and replies to evaluate *)

Definition decode_crates : Crates :=
  {| redis_crate := redis_crate sample_crates;
     base64 := fun bs => replicate (N.to_nat ((len_bytes bs + 2) / 3 * 4)) 65%N;
     json_to_string := canonical_json; f64_to_string := display_N; f64_to_json := fun f => JNumber (display_N f);
     cell_size := 32; validation_message := fun _ => lit "invalid" |}.
Definition sample_bits (z : Z) : N := N.size (Z.abs_N z).
Definition sample_number (f : f64) : option str := Some (display_N f).

Lemma decode_crates_laws : DecodeLaws decode_crates sample_number sample_bits.
Proof.
  split; try done.
  - intros bs. cbn. rewrite length_replicate. lia.
  - intros bs. cbn. by apply Forall_replicate.
Qed.

(** Two integers, bytes that are no text, a map and a big number. *)
Definition sample_reply : RedisValue :=
  RvArray [RvInt (-12); RvBulkString [255; 1]%N; RvMap [(RvSimpleString (lit "k"), RvArray [RvNil; RvOkay])];
           RvBigNumber 18446744073709551616].

Definition sample_composite : RedisValue := RvMap [(RvBulkString [255%N], RvArray [RvBigNumber 1000; RvNil])].

(** The JSON takes 84 bytes and the bound on the big number's digits one more. *)
Lemma measure_is_json_size_witness :
  measure_composite sample_number sample_bits sample_composite 10 4096
  = Some {| cm_nodes := 5; cm_encoded_bytes := 85 |} /\
  str_len (canonical_json (value_json_complete decode_crates sample_composite)) = 84%N.
Proof.
  split; [|vm_compute; reflexivity].
  rewrite (measure_is_json_size decode_crates sample_number sample_bits sample_composite 10 4096
    decode_crates_laws); [vm_compute; reflexivity|vm_compute; discriminate|vm_compute; discriminate].
Defined.

Lemma reply_rows_bounded_witness :
  exists rows, value_rows decode_crates sample_number sample_bits sample_reply 2 = (rows, true) /\
  exists whole cut, rows = (fun v => [value_cell_complete decode_crates v]) <$> (whole ++ cut) /\ length rows = 2.
Proof.
  eexists. split; [vm_compute; reflexivity|].
  destruct (reply_rows_bounded decode_crates sample_number sample_bits decode_crates_laws sample_reply 2 _ _ eq_refl)
    as (whole & cut & _ & H & _).
  exists whole, cut. split; [exact H|reflexivity].
Defined.

Lemma reply_within_limits_whole_witness :
  value_rows decode_crates sample_number sample_bits sample_reply 4
  = ((fun v => [value_cell_complete decode_crates v]) <$> reply_items sample_reply, false).
Proof.
  apply (reply_within_limits_whole decode_crates sample_number sample_bits decode_crates_laws sample_reply 4).
  - vm_compute. discriminate.
  - cbn [reply_items sample_reply]. repeat constructor; vm_compute; discriminate.
  - vm_compute. discriminate.
  - vm_compute. discriminate.
Defined.
