(* ===== verification/RedisSessions.v ===== *)
(** * Redis sessions and commands (theorems on RedisDecode)

    Which connections a profile can lead to, and what a command sends and returns. *)

From S2P Require Import Prelude RustStr Model Drivers RedisBrowser RedisBrowserSafety RedisDecode RedisDecodeSafety RedisRows.

(** ** Connections *)

(** Two crates that differ only in what happens on connections without verified TLS. *)
Record same_for_tls (a b : RedisClient) : Prop := {
  st_info : forall host port, into_connection_info a host port = into_connection_info b host port;
  st_file : forall path, read_file a path = read_file b path;
  st_client : forall info, (exists host port, ci_addr info = AddrTcpTls host port false) ->
    client_open a info = client_open b info;
  st_open : forall info timeout, (exists host port, ci_addr info = AddrTcpTls host port false) ->
    open_connection a info timeout = open_connection b info timeout;
}.

(** The client's connection information. *)
Definition client_info (profile : ConnectionProfile) (client : RedisClient) (info info' : ConnectionInfo) : Prop :=
  ci_db info' = ci_db info /\ ci_username info' = ci_username info /\ ci_password info' = ci_password info /\
  match p_tls profile with
  | Disabled => info' = info
  | Required =>
      ci_addr info' = AddrTcpTls (p_host profile) (p_port profile) false /\
      ci_root_cert info' = (path ← ca_file (p_redis_tls profile); read_file client path) /\
      (ca_file (p_redis_tls profile) <> None -> ci_root_cert info' <> None)
  | Preferred => False
  end.

Lemma redis_client_ok client profile info counts info' counts' :
  redis_client client profile info counts = (Ok info', counts') -> client_info profile client info info'.
Proof.
  unfold redis_client, client_info. destruct (p_tls profile); [| |].
  - intros [= H _]. apply result_bind_Ok in H as ([] & _ & [= <-]). done.
  - done.
  - intros [= H _]. destruct (ca_file (p_redis_tls profile)) as [path|]; cbn.
    + apply result_bind_Ok in H as (cert & Hcert & H). apply ok_or_Ok in Hcert.
      apply result_bind_Ok in H as ([] & _ & [= <-]). by rewrite Hcert.
    + apply result_bind_Ok in H as ([] & _ & [= <-]). done.
Qed.

Lemma redis_client_counts client profile info counts :
  (redis_client client profile info counts).2 =
  match p_tls profile with
  | Disabled => count_plaintext counts | Required => count_required_tls counts | Preferred => counts
  end.
Proof. unfold redis_client. by destruct (p_tls profile). Qed.

Lemma redis_client_same client client' profile info counts :
  p_tls profile = Required -> same_for_tls client client' ->
  redis_client client' profile info counts = redis_client client profile info counts.
Proof.
  intros Ht [H1 H2 H3 H4]. unfold redis_client. rewrite Ht. f_equal.
  destruct (ca_file (p_redis_tls profile)) as [path|].
  - rewrite H2. destruct (read_file client' path); cbn; [|done]. by rewrite H3 by (cbn; eauto).
  - by rewrite H3 by (cbn; eauto).
Qed.

(** A profile that is not legacy, whose database and address are accepted, is opened
    through its client; any other is refused before any attempt. *)
Definition profile_info (profile : ConnectionProfile) (secret : option str) (db : Z) : ConnectionInfo :=
  {| ci_addr := AddrTcp (p_host profile) (p_port profile); ci_db := db; ci_username := p_username profile;
     ci_password := secret; ci_root_cert := None |}.

Lemma redis_connect_cases client profile secret timeout counts :
  p_tls profile <> Preferred ->
  (exists e, redis_connect client profile secret timeout counts = (Err e, counts)) \/
  (exists db, parse_i64 (default (lit "0") (p_database profile)) = Ok db /\
     is_ok (into_connection_info client (p_host profile) (p_port profile)) = true /\
     redis_connect client profile secret timeout counts =
     (info ← (redis_client client profile (profile_info profile secret db) counts).1;
      match open_connection client info timeout with
      | OpenTimeout => Err (redis_timeout timeout)
      | OpenFailed error =>
          Err (if bool_decide (p_tls profile = Required) then classify_required_tls_error error
               else DeRedis (re_kind error))
      | Opened => Ok info
      end, (redis_client client profile (profile_info profile secret db) counts).2)).
Proof.
  intros Ht. unfold redis_connect. rewrite (bool_decide_false (p_tls profile = Preferred)) by done.
  destruct (parse_i64 _) as [db|e]; [|by eauto]. destruct (into_connection_info _ _ _) as [[]|e]; [|by eauto].
  right. exists db. split_and!; [done..|]. fold (profile_info profile secret db). by destruct (redis_client _ _ _ _).
Qed.

Lemma redis_connect_ok client profile secret timeout counts info counts' :
  redis_connect client profile secret timeout counts = (Ok info, counts') ->
  exists db, parse_i64 (default (lit "0") (p_database profile)) = Ok db /\
    client_info profile client (profile_info profile secret db) info.
Proof.
  destruct (decide (p_tls profile = Preferred)) as [Ht|Ht].
  { unfold redis_connect. by rewrite bool_decide_true. }
  destruct (redis_connect_cases client profile secret timeout counts Ht) as [(e & ->)|(db & Hdb & _ & ->)]; [done|].
  intros [= H _]. exists db. split; [done|]. apply result_bind_Ok in H as (info1 & Hc & Ho).
  destruct (redis_client _ _ _ _) as [r c] eqn:E. cbn in Hc. subst r. apply redis_client_ok in E.
  destruct (open_connection _ _ _); simplify_eq. done.
Qed.

Lemma redis_connect_same client client' profile secret timeout counts :
  p_tls profile = Required -> same_for_tls client client' ->
  redis_connect client' profile secret timeout counts = redis_connect client profile secret timeout counts.
Proof.
  intros Ht Hs. unfold redis_connect. destruct (bool_decide _); [done|]. destruct (parse_i64 _) as [db|]; [|done].
  rewrite <- (st_info _ _ Hs). destruct (into_connection_info client _ _); [|done].
  rewrite (redis_client_same client client') by done.
  destruct (redis_client client _ _ _) as [[info|e] c] eqn:Hc; [|done]. cbn. f_equal.
  apply redis_client_ok in Hc as (_ & _ & _ & Hi). rewrite Ht in Hi.
  by rewrite (st_open _ _ Hs) by (destruct Hi; eauto).
Qed.

(** C23: a Redis profile that requires TLS is never served without it. It counts no plaintext attempt; what connecting comes to depends only on what the client does with verified TLS connections to the profile's own host and port; the connection it yields is one, with the profile's CA file as its root when there is one, and an unreadable CA file is an error; the legacy mode connects nowhere and counts nothing; and in every mode the session carries the database, user and password it was given. *)
Theorem tls_never_downgraded client client' profile secret timeout counts r counts' :
  redis_connect client profile secret timeout counts = (r, counts') ->
  match p_tls profile with
  | Required =>
      rt_plaintext counts' = rt_plaintext counts /\
      (same_for_tls client client' -> redis_connect client' profile secret timeout counts = (r, counts')) /\
      (forall info, r = Ok info ->
         ci_addr info = AddrTcpTls (p_host profile) (p_port profile) false /\
         ci_root_cert info = (path ← ca_file (p_redis_tls profile); read_file client path) /\
         (ca_file (p_redis_tls profile) <> None -> ci_root_cert info <> None))
  | Disabled =>
      rt_required_tls counts' = rt_required_tls counts /\
      (forall info, r = Ok info -> ci_addr info = AddrTcp (p_host profile) (p_port profile))
  | Preferred => is_err r = true /\ counts' = counts
  end /\
  (forall info, r = Ok info ->
     ci_password info = secret /\ ci_username info = p_username profile /\
     parse_i64 (default (lit "0") (p_database profile)) = Ok (ci_db info)).
Proof.
  intros H. split.
  - destruct (p_tls profile) eqn:Ht.
    + split.
      * destruct (redis_connect_cases client profile secret timeout counts) as [(e & E)|(db & _ & _ & E)]; [congruence|..];
          rewrite E in H; injection H as _ <-; [done|]. by rewrite redis_client_counts, Ht.
      * intros info ->. apply redis_connect_ok in H as (db & _ & _ & _ & _ & Hi). rewrite Ht in Hi. by subst info.
    + unfold redis_connect in H. rewrite bool_decide_true in H by done. by injection H as <- <-.
    + split_and!.
      * destruct (redis_connect_cases client profile secret timeout counts) as [(e & E)|(db & _ & _ & E)]; [congruence|..];
          rewrite E in H; injection H as _ <-; [done|]. by rewrite redis_client_counts, Ht.
      * intros Hs. by rewrite <- H, (redis_connect_same client client').
      * intros info ->. apply redis_connect_ok in H as (db & _ & _ & _ & _ & Hi). by rewrite Ht in Hi.
  - intros info ->. apply redis_connect_ok in H as (db & Hdb & H1 & H2 & H3 & _). by rewrite H1, H2, H3.
Qed.

(** ** One command *)

(** A request that is not valid sends nothing; a valid one sends its arguments as they
    are, once, and its result is made of the reply's rows. *)
Theorem redis_command_effect {σ} (server : list bytes -> σ -> Reply * σ) crates number_from_f64 bigint_bits
    redis_argv_is_denied elapsed_ms request s :
  run server (execute_command crates number_from_f64 bigint_bits redis_argv_is_denied elapsed_ms request) s =
  match RedisExecuteRequest_validate redis_argv_is_denied request, from_utf8 (default [] (head (rx_argv request))) with
  | Err e, _ => ([], Err (invalid_config crates e), s)
  | Ok _, None => ([], Err (DeRedisParse (lit "command name is not UTF-8")), s)
  | Ok _, Some _ =>
      let '(reply, s) := server (rx_argv request) s in
      ([(rx_argv request, reply)],
       match reply with
       | ReplyTimeout => Err (redis_timeout (rx_timeout request))
       | ReplyFailed kind _ => Err (DeRedis kind)
       | Replied value =>
           let '(rows, truncated) := value_rows crates number_from_f64 bigint_bits value (rx_row_limit request) in
           Ok {| qr_columns := [{| col_name := lit "value"; col_type_name := lit "RESP" |}]; qr_rows := rows;
                 qr_affected_rows := 0; qr_last_insert_id := None; qr_elapsed_ms := elapsed_ms;
                 qr_truncated := truncated; qr_backend_notices_present := false |}
       end, s)
  end.
Proof.
  unfold execute_command. destruct (RedisExecuteRequest_validate redis_argv_is_denied request) as [u|e] eqn:Hv; [|done]. cbn [rd_lift map_err mbind Rd_bind].
  assert (rx_argv request <> []) as Hargv.
  { unfold RedisExecuteRequest_validate in Hv. apply result_bind_Ok in Hv as (? & _ & Hv). by destruct (rx_argv request). }
  destruct (rx_argv request) as [|name arguments]; [done|]. cbn [head default from_option id].
  destruct (from_utf8 name) as [text|] eqn:Hname; cbn; [|done].
  unfold cmd. rewrite (from_utf8_sound _ _ Hname).
  destruct (server (name :: arguments) s) as [[value| |kind code] s1]; cbn; [|done..].
  by destruct (value_rows _ _ _ value _).
Qed.

(** ** A client to evaluate *)

(** A client that opens verified TLS only, and reads one CA file. *)
Definition tls_only_client : RedisClient :=
  {| into_connection_info := fun _ _ => Ok tt; client_open := fun _ => Ok tt;
     read_file := fun path => if bool_decide (path = lit "/ca.pem") then Some [1; 2]%N else None;
     open_connection := fun info _ =>
       match ci_addr info with
       | AddrTcpTls _ _ false => Opened
       | _ => OpenFailed {| re_kind := RedisIo; re_chain := [LinkOther] |}
       end |}.

Definition sample_redis_profile : ConnectionProfile :=
  {| p_id := lit "r"; p_name := lit "R"; p_driver := Redis; p_host := lit "h"; p_port := 6379; p_database := Some (lit "2");
     p_username := None; p_tls := Required; p_credential_mode := CredNone; p_secret_env := None;
     p_redis_tls := {| ca_file := Some (lit "/ca.pem") |} |}.

Lemma tls_never_downgraded_witness :
  let outcome := redis_connect tls_only_client sample_redis_profile (Some (lit "s")) (from_secs 5)
                   {| rt_plaintext := 0; rt_required_tls := 0 |} in
  rt_plaintext outcome.2 = 0%N /\ is_ok outcome.1 = true.
Proof.
  cbn zeta. split; [|vm_compute; reflexivity].
  destruct (tls_never_downgraded tls_only_client tls_only_client sample_redis_profile (Some (lit "s")) (from_secs 5)
    {| rt_plaintext := 0; rt_required_tls := 0 |} _ _ (surjective_pairing _)) as [H _].
  exact (proj1 H).
Defined.
