(* ===== verification/UiModel.v ===== *)
(** * The interface's model (src/src/ui/model.rs)

    The state the windows are drawn from and its fold over the events the runtime
    sends: profiles with their generations and tombstones, connection states, one
    workspace per profile generation. The fold is written event by event; the
    theorems are in UiModelSafety. *)

From S2P Require Import Prelude RustStr Model Secrets Profile Config Drivers PublicError RedisBrowser.

#[local] Abbreviation PathBuf := (list N) (only parsing).

(** ** State *)

Record ConfigPresentation := {
  pr_source_version : ConfigSourceVersion;
  pr_migration_backup : option PathBuf;
}.

Definition for_source (source_version : ConfigSourceVersion) (config_path : PathBuf) : ConfigPresentation :=
  {| pr_source_version := source_version;
     pr_migration_backup :=
       if bool_decide (source_version = SourceV1) then Some (migration_backup_path config_path) else None |}.

Definition migration_required (c : ConfigPresentation) : bool :=
  match pr_source_version c with SourceV1 => true | _ => false end.

Definition ConfigPresentation_default : ConfigPresentation :=
  {| pr_source_version := SourceMissing; pr_migration_backup := None |}.

Abbreviation WorkspaceKey := (list N * N)%type (only parsing).

(** src/src/ui/result_view.rs *)
Record ResultViewState := {
  rv_result_id : option ResultId;
  rv_selected_rows : gset nat;
  rv_selected_cell : option (nat * nat);
  rv_needs_initial_selection : bool;
  rv_pending_export : option OperationId;
}.

Definition ResultViewState_default : ResultViewState :=
  {| rv_result_id := None; rv_selected_rows := ∅; rv_selected_cell := None; rv_needs_initial_selection := false;
     rv_pending_export := None |}.

Definition reset_for (v : ResultViewState) (result_id : ResultId) : ResultViewState :=
  {| rv_result_id := Some result_id; rv_selected_rows := ∅; rv_selected_cell := None;
     rv_needs_initial_selection := true; rv_pending_export := None |}.

Record ProfileWorkspace := {
  ws_editor_text : str;
  ws_caret_character_index : nat;
  ws_selection_character_range : option (nat * nat);
  ws_row_limit : str;
  ws_timeout_seconds : str;
  ws_pending_execute : option OperationId;
  ws_result : option ResultSnapshot;
  ws_result_view : ResultViewState;
  ws_error : option PublicOperationError;
  ws_catalog_page : option CatalogPage;
  ws_catalog_retry : option CatalogRequest;
  ws_catalog_error : option PublicOperationError;
  ws_redis_key_page : option RedisKeyPage;
  ws_redis_scan_retry : option RedisScanRequest;
  ws_redis_scan_error : option PublicOperationError;
  ws_redis_value_preview : option RedisValuePreview;
  ws_redis_inspect_retry : option RedisKeyInspectRequest;
  ws_redis_inspect_error : option PublicOperationError;
}.

(** A new workspace: the defaults with the two limits filled in. *)
Definition workspace_new : ProfileWorkspace :=
  {| ws_editor_text := []; ws_caret_character_index := 0; ws_selection_character_range := None;
     ws_row_limit := lit "500"; ws_timeout_seconds := lit "30"; ws_pending_execute := None; ws_result := None;
     ws_result_view := ResultViewState_default; ws_error := None; ws_catalog_page := None; ws_catalog_retry := None;
     ws_catalog_error := None; ws_redis_key_page := None; ws_redis_scan_retry := None; ws_redis_scan_error := None;
     ws_redis_value_preview := None; ws_redis_inspect_retry := None; ws_redis_inspect_error := None |}.

(** The workspace updates the fold makes. *)
Definition with_execution (w : ProfileWorkspace) (pending : option OperationId) (result : option ResultSnapshot)
    (view : ResultViewState) (error : option PublicOperationError) : ProfileWorkspace :=
  {| ws_editor_text := ws_editor_text w; ws_caret_character_index := ws_caret_character_index w;
     ws_selection_character_range := ws_selection_character_range w; ws_row_limit := ws_row_limit w;
     ws_timeout_seconds := ws_timeout_seconds w; ws_pending_execute := pending; ws_result := result;
     ws_result_view := view; ws_error := error; ws_catalog_page := ws_catalog_page w;
     ws_catalog_retry := ws_catalog_retry w; ws_catalog_error := ws_catalog_error w;
     ws_redis_key_page := ws_redis_key_page w; ws_redis_scan_retry := ws_redis_scan_retry w;
     ws_redis_scan_error := ws_redis_scan_error w; ws_redis_value_preview := ws_redis_value_preview w;
     ws_redis_inspect_retry := ws_redis_inspect_retry w; ws_redis_inspect_error := ws_redis_inspect_error w |}.
Definition with_catalog (w : ProfileWorkspace) (page : option CatalogPage) (retry : option CatalogRequest)
    (error : option PublicOperationError) : ProfileWorkspace :=
  {| ws_editor_text := ws_editor_text w; ws_caret_character_index := ws_caret_character_index w;
     ws_selection_character_range := ws_selection_character_range w; ws_row_limit := ws_row_limit w;
     ws_timeout_seconds := ws_timeout_seconds w; ws_pending_execute := ws_pending_execute w;
     ws_result := ws_result w; ws_result_view := ws_result_view w; ws_error := ws_error w; ws_catalog_page := page;
     ws_catalog_retry := retry; ws_catalog_error := error;
     ws_redis_key_page := ws_redis_key_page w; ws_redis_scan_retry := ws_redis_scan_retry w;
     ws_redis_scan_error := ws_redis_scan_error w; ws_redis_value_preview := ws_redis_value_preview w;
     ws_redis_inspect_retry := ws_redis_inspect_retry w; ws_redis_inspect_error := ws_redis_inspect_error w |}.
Definition with_redis_scan (w : ProfileWorkspace) (page : option RedisKeyPage) (retry : option RedisScanRequest)
    (error : option PublicOperationError) : ProfileWorkspace :=
  {| ws_editor_text := ws_editor_text w; ws_caret_character_index := ws_caret_character_index w;
     ws_selection_character_range := ws_selection_character_range w; ws_row_limit := ws_row_limit w;
     ws_timeout_seconds := ws_timeout_seconds w; ws_pending_execute := ws_pending_execute w;
     ws_result := ws_result w; ws_result_view := ws_result_view w; ws_error := ws_error w;
     ws_catalog_page := ws_catalog_page w; ws_catalog_retry := ws_catalog_retry w;
     ws_catalog_error := ws_catalog_error w; ws_redis_key_page := page; ws_redis_scan_retry := retry;
     ws_redis_scan_error := error; ws_redis_value_preview := ws_redis_value_preview w;
     ws_redis_inspect_retry := ws_redis_inspect_retry w; ws_redis_inspect_error := ws_redis_inspect_error w |}.
Definition with_redis_inspect (w : ProfileWorkspace) (preview : option RedisValuePreview)
    (retry : option RedisKeyInspectRequest) (error : option PublicOperationError) : ProfileWorkspace :=
  {| ws_editor_text := ws_editor_text w; ws_caret_character_index := ws_caret_character_index w;
     ws_selection_character_range := ws_selection_character_range w; ws_row_limit := ws_row_limit w;
     ws_timeout_seconds := ws_timeout_seconds w; ws_pending_execute := ws_pending_execute w;
     ws_result := ws_result w; ws_result_view := ws_result_view w; ws_error := ws_error w;
     ws_catalog_page := ws_catalog_page w; ws_catalog_retry := ws_catalog_retry w;
     ws_catalog_error := ws_catalog_error w; ws_redis_key_page := ws_redis_key_page w;
     ws_redis_scan_retry := ws_redis_scan_retry w; ws_redis_scan_error := ws_redis_scan_error w;
     ws_redis_value_preview := preview; ws_redis_inspect_retry := retry; ws_redis_inspect_error := error |}.

(** [workspace.pending_execute = None] *)
Definition without_pending (w : ProfileWorkspace) : ProfileWorkspace :=
  with_execution w None (ws_result w) (ws_result_view w) (ws_error w).

Definition has_catalog_retry (w : ProfileWorkspace) : bool := bool_decide (is_Some (ws_catalog_retry w)).

(** [page.stale = true] *)
Definition stale_catalog_page (p : CatalogPage) : CatalogPage :=
  {| cp_identity := cp_identity p; cp_level := cp_level p; cp_parent := cp_parent p; cp_nodes := cp_nodes p;
     cp_next_token := cp_next_token p; cp_retained_counts := cp_retained_counts p;
     cp_retained_utf8_bytes := cp_retained_utf8_bytes p; cp_truncated := cp_truncated p; cp_stale := true;
     cp_loaded_at := cp_loaded_at p |}.
Definition stale_key_page (p : RedisKeyPage) : RedisKeyPage :=
  {| kp_identity := kp_identity p; kp_next_cursor := kp_next_cursor p; kp_keys := kp_keys p;
     kp_retained_count := kp_retained_count p; kp_skipped_oversize := kp_skipped_oversize p;
     kp_retained_bytes := kp_retained_bytes p; kp_consistency := kp_consistency p; kp_truncated := kp_truncated p;
     kp_stale := true |}.
Definition stale_preview (p : RedisValuePreview) : RedisValuePreview :=
  {| vp_identity := vp_identity p; vp_key := vp_key p; vp_value_type := vp_value_type p; vp_ttl := vp_ttl p;
     vp_size := vp_size p; vp_items := vp_items p; vp_retained_items := vp_retained_items p;
     vp_retained_bytes := vp_retained_bytes p; vp_truncated := vp_truncated p; vp_stale := true;
     vp_transient_allocation := vp_transient_allocation p; vp_notices := vp_notices p |}.

Inductive PostCloseState := PcsDisconnected | PcsNeedsCredential.
#[export] Instance PostCloseState_eq : EqDecision PostCloseState. Proof. solve_decision. Defined.

Inductive ConnectionFailureOutcome := Preserve | OutcomeDisconnected | OutcomeUnknown | OutcomeNeedsCredential.
#[export] Instance ConnectionFailureOutcome_eq : EqDecision ConnectionFailureOutcome.
Proof. solve_decision. Defined.

Record ProfileSnapshot := {
  ps_id : ProfileId;
  ps_generation : ProfileGeneration;
  ps_name : str;
  ps_driver : DriverKind;
  ps_endpoint : str;
  ps_database : option str;
  ps_availability : DriverAvailability;
  ps_planned_reason : option str;
  ps_has_current_session_secret : bool;
  ps_environment_availability : option EnvironmentAvailability;
  ps_persisted : ConnectionProfile;
}.

Definition from_profile (profile : ConnectionProfile) (generation : ProfileGeneration)
    (has_current_session_secret : bool) (environment_availability : option EnvironmentAvailability) :
    ProfileSnapshot :=
  let descriptor := find (fun descriptor => bool_decide (dd_kind descriptor = p_driver profile)) descriptors in
  {| ps_id := p_id profile; ps_generation := generation; ps_name := p_name profile; ps_driver := p_driver profile;
     ps_endpoint := redacted_endpoint profile; ps_database := p_database profile;
     ps_availability := from_option dd_availability Planned descriptor;
     ps_planned_reason := descriptor ≫= dd_reason;
     ps_has_current_session_secret := has_current_session_secret;
     ps_environment_availability := environment_availability; ps_persisted := profile |}.

Definition is_ready (p : ProfileSnapshot) : bool := bool_decide (ps_availability p = Ready).

Definition can_connect (p : ProfileSnapshot) : bool :=
  is_ready p &&
  (bool_decide (p_credential_mode (ps_persisted p) <> CredEnvironment)
   || bool_decide (ps_environment_availability p = Some EnvAvailable)).

Inductive ConnectionState :=
| Disconnected
| Pending (operation_id : OperationId)
| Connected (session_generation : SessionGeneration) (elapsed_ms : N)
| NeedsCredential
| Failed (summary : PublicSummary)
| Closing.
#[export] Instance ConnectionState_eq : EqDecision ConnectionState. Proof. solve_decision. Defined.

Definition is_pending (c : ConnectionState) : bool := match c with Pending _ => true | _ => false end.

Definition accepts_redis_event_session (c : ConnectionState) (event_session : option SessionGeneration) : bool :=
  match c, event_session with
  | Connected current _, Some event => (current =? event)%N
  | Connected _ _, None | _, Some _ => false
  | _, None => true
  end.

Inductive UiEvent :=
| ProfilesLoaded (operation_id : OperationId) (profiles : list ProfileSnapshot) (config : ConfigPresentation)
| ProfilesFailed (operation_id : OperationId) (summary : PublicSummary) (error : PublicOperationError)
| ProfileSaved (operation_id : OperationId) (profile_id : ProfileId) (previous_generation : option ProfileGeneration)
    (profile_generation : ProfileGeneration) (session_retained : bool) (warning : option PublicSummary)
| ProfileCreateFailed (operation_id : OperationId) (draft_id : DraftId) (summary : PublicSummary)
    (error : PublicOperationError)
| ProfileUpdateFailed (operation_id : OperationId) (profile_id : ProfileId) (profile_generation : ProfileGeneration)
    (summary : PublicSummary) (error : PublicOperationError)
| CredentialsStored (operation_id : OperationId) (profile_id : ProfileId) (profile_generation : ProfileGeneration)
| CredentialsStoreFailed (operation_id : OperationId) (profile_id : ProfileId)
    (profile_generation : ProfileGeneration) (summary : PublicSummary) (error : PublicOperationError)
| ConnectionReady (operation_id : OperationId) (profile_id : ProfileId) (profile_generation : ProfileGeneration)
    (session_generation : SessionGeneration) (elapsed_ms : N)
| ConnectionClosed (operation_id : OperationId) (profile_id : ProfileId) (profile_generation : ProfileGeneration)
    (post_close : PostCloseState)
| DraftConnectionReady (operation_id : OperationId) (draft_id : DraftId) (elapsed_ms : N)
| DraftOperationFailed (operation_id : OperationId) (draft_id : DraftId) (summary : PublicSummary)
    (error : PublicOperationError)
| QueryFinished (operation_id : OperationId) (profile_id : ProfileId) (profile_generation : ProfileGeneration)
    (session_generation : SessionGeneration) (result : ResultSnapshot)
| ResultExported (operation_id : OperationId) (result_id : ResultId) (format : ExportFormat)
    (overwrite_policy : OverwritePolicy) (row_count bytes_written : N)
| ResultExportFailed (operation_id : OperationId) (result_id : ResultId) (format : ExportFormat)
    (overwrite_policy : OverwritePolicy) (summary : PublicSummary) (error : PublicOperationError)
    (destination_committed : bool)
| CatalogPageLoaded (page : CatalogPage) (session_generation : SessionGeneration)
    (session_disposition : SessionDisposition)
| CatalogPageFailed (request : CatalogRequest) (summary : PublicSummary) (error : PublicOperationError)
    (session_generation : option SessionGeneration) (session_disposition : option SessionDisposition)
| RedisKeysLoaded (page : RedisKeyPage) (session_generation : SessionGeneration)
    (session_disposition : SessionDisposition)
| RedisKeysFailed (request : RedisScanRequest) (error : PublicOperationError)
    (session_generation : option SessionGeneration) (session_disposition : option SessionDisposition)
    (connection_outcome : ConnectionFailureOutcome)
| RedisKeyInspected (preview : RedisValuePreview) (session_generation : SessionGeneration)
    (session_disposition : SessionDisposition)
| RedisKeyInspectFailed (request : RedisKeyInspectRequest) (error : PublicOperationError)
    (session_generation : option SessionGeneration) (session_disposition : option SessionDisposition)
    (connection_outcome : ConnectionFailureOutcome)
| OperationFailed (operation_id : OperationId) (profile_id : ProfileId) (profile_generation : ProfileGeneration)
    (session_generation : option SessionGeneration) (kind : OperationKind) (summary : PublicSummary)
    (error : PublicOperationError) (session_disposition : option SessionDisposition)
    (connection_outcome : ConnectionFailureOutcome)
| ExecuteUnavailable (operation_id : OperationId) (profile_id : ProfileId) (profile_generation : ProfileGeneration)
    (summary : PublicSummary)
| ProfileDeleted (operation_id : OperationId) (profile_id : ProfileId) (profile_generation : ProfileGeneration)
    (server_state_unknown : bool)
| ConfigUncertain (operation_id : OperationId)
| RuntimeShutdown (operation_id : OperationId).

Record UiModel := {
  um_profiles : list ProfileSnapshot;
  um_selected_profile : option ProfileId;
  um_active_generations : gmap (list N) ProfileGeneration;
  um_tombstones : gmap (list N) ProfileGeneration;
  um_connection_states : gmap (list N) ConnectionState;
  um_workspaces : gmap WorkspaceKey ProfileWorkspace;
  um_status : str;
  um_config : ConfigPresentation;
  um_config_uncertain : bool;
  um_profile_load_succeeded : bool;
  um_last_profiles_operation : option OperationId;
  um_pending_retags : gmap (list N) (ProfileGeneration * ProfileGeneration);
  um_next_operation_id : N;
}.

Definition UiModel_default : UiModel :=
  {| um_profiles := []; um_selected_profile := None; um_active_generations := ∅; um_tombstones := ∅;
     um_connection_states := ∅; um_workspaces := ∅; um_status := lit "Loading profiles" ++ [0x2026%N];
     um_config := ConfigPresentation_default; um_config_uncertain := false; um_profile_load_succeeded := false;
     um_last_profiles_operation := None; um_pending_retags := ∅; um_next_operation_id := 1 |}.

(** Assignment to one field. *)
Definition set_profiles (m : UiModel) (x : list ProfileSnapshot) : UiModel :=
  {| um_profiles := x; um_selected_profile := um_selected_profile m; um_active_generations :=
     um_active_generations m; um_tombstones := um_tombstones m; um_connection_states := um_connection_states m;
     um_workspaces := um_workspaces m; um_status := um_status m; um_config := um_config m; um_config_uncertain
     := um_config_uncertain m; um_profile_load_succeeded := um_profile_load_succeeded m;
     um_last_profiles_operation := um_last_profiles_operation m; um_pending_retags := um_pending_retags m;
     um_next_operation_id := um_next_operation_id m |}.
Definition set_selected_profile (m : UiModel) (x : option ProfileId) : UiModel :=
  {| um_profiles := um_profiles m; um_selected_profile := x; um_active_generations := um_active_generations m;
     um_tombstones := um_tombstones m; um_connection_states := um_connection_states m; um_workspaces :=
     um_workspaces m; um_status := um_status m; um_config := um_config m; um_config_uncertain :=
     um_config_uncertain m; um_profile_load_succeeded := um_profile_load_succeeded m; um_last_profiles_operation
     := um_last_profiles_operation m; um_pending_retags := um_pending_retags m; um_next_operation_id :=
     um_next_operation_id m |}.
Definition set_active_generations (m : UiModel) (x : gmap (list N) ProfileGeneration) : UiModel :=
  {| um_profiles := um_profiles m; um_selected_profile := um_selected_profile m; um_active_generations := x;
     um_tombstones := um_tombstones m; um_connection_states := um_connection_states m; um_workspaces :=
     um_workspaces m; um_status := um_status m; um_config := um_config m; um_config_uncertain :=
     um_config_uncertain m; um_profile_load_succeeded := um_profile_load_succeeded m; um_last_profiles_operation
     := um_last_profiles_operation m; um_pending_retags := um_pending_retags m; um_next_operation_id :=
     um_next_operation_id m |}.
Definition set_tombstones (m : UiModel) (x : gmap (list N) ProfileGeneration) : UiModel :=
  {| um_profiles := um_profiles m; um_selected_profile := um_selected_profile m; um_active_generations :=
     um_active_generations m; um_tombstones := x; um_connection_states := um_connection_states m; um_workspaces
     := um_workspaces m; um_status := um_status m; um_config := um_config m; um_config_uncertain :=
     um_config_uncertain m; um_profile_load_succeeded := um_profile_load_succeeded m; um_last_profiles_operation
     := um_last_profiles_operation m; um_pending_retags := um_pending_retags m; um_next_operation_id :=
     um_next_operation_id m |}.
Definition set_connection_states (m : UiModel) (x : gmap (list N) ConnectionState) : UiModel :=
  {| um_profiles := um_profiles m; um_selected_profile := um_selected_profile m; um_active_generations :=
     um_active_generations m; um_tombstones := um_tombstones m; um_connection_states := x; um_workspaces :=
     um_workspaces m; um_status := um_status m; um_config := um_config m; um_config_uncertain :=
     um_config_uncertain m; um_profile_load_succeeded := um_profile_load_succeeded m; um_last_profiles_operation
     := um_last_profiles_operation m; um_pending_retags := um_pending_retags m; um_next_operation_id :=
     um_next_operation_id m |}.
Definition set_workspaces (m : UiModel) (x : gmap WorkspaceKey ProfileWorkspace) : UiModel :=
  {| um_profiles := um_profiles m; um_selected_profile := um_selected_profile m; um_active_generations :=
     um_active_generations m; um_tombstones := um_tombstones m; um_connection_states := um_connection_states m;
     um_workspaces := x; um_status := um_status m; um_config := um_config m; um_config_uncertain :=
     um_config_uncertain m; um_profile_load_succeeded := um_profile_load_succeeded m; um_last_profiles_operation
     := um_last_profiles_operation m; um_pending_retags := um_pending_retags m; um_next_operation_id :=
     um_next_operation_id m |}.
Definition set_status (m : UiModel) (x : str) : UiModel :=
  {| um_profiles := um_profiles m; um_selected_profile := um_selected_profile m; um_active_generations :=
     um_active_generations m; um_tombstones := um_tombstones m; um_connection_states := um_connection_states m;
     um_workspaces := um_workspaces m; um_status := x; um_config := um_config m; um_config_uncertain :=
     um_config_uncertain m; um_profile_load_succeeded := um_profile_load_succeeded m; um_last_profiles_operation
     := um_last_profiles_operation m; um_pending_retags := um_pending_retags m; um_next_operation_id :=
     um_next_operation_id m |}.
Definition set_config (m : UiModel) (x : ConfigPresentation) : UiModel :=
  {| um_profiles := um_profiles m; um_selected_profile := um_selected_profile m; um_active_generations :=
     um_active_generations m; um_tombstones := um_tombstones m; um_connection_states := um_connection_states m;
     um_workspaces := um_workspaces m; um_status := um_status m; um_config := x; um_config_uncertain :=
     um_config_uncertain m; um_profile_load_succeeded := um_profile_load_succeeded m; um_last_profiles_operation
     := um_last_profiles_operation m; um_pending_retags := um_pending_retags m; um_next_operation_id :=
     um_next_operation_id m |}.
Definition set_config_uncertain (m : UiModel) (x : bool) : UiModel :=
  {| um_profiles := um_profiles m; um_selected_profile := um_selected_profile m; um_active_generations :=
     um_active_generations m; um_tombstones := um_tombstones m; um_connection_states := um_connection_states m;
     um_workspaces := um_workspaces m; um_status := um_status m; um_config := um_config m; um_config_uncertain
     := x; um_profile_load_succeeded := um_profile_load_succeeded m; um_last_profiles_operation :=
     um_last_profiles_operation m; um_pending_retags := um_pending_retags m; um_next_operation_id :=
     um_next_operation_id m |}.
Definition set_profile_load_succeeded (m : UiModel) (x : bool) : UiModel :=
  {| um_profiles := um_profiles m; um_selected_profile := um_selected_profile m; um_active_generations :=
     um_active_generations m; um_tombstones := um_tombstones m; um_connection_states := um_connection_states m;
     um_workspaces := um_workspaces m; um_status := um_status m; um_config := um_config m; um_config_uncertain
     := um_config_uncertain m; um_profile_load_succeeded := x; um_last_profiles_operation :=
     um_last_profiles_operation m; um_pending_retags := um_pending_retags m; um_next_operation_id :=
     um_next_operation_id m |}.
Definition set_last_profiles_operation (m : UiModel) (x : option OperationId) : UiModel :=
  {| um_profiles := um_profiles m; um_selected_profile := um_selected_profile m; um_active_generations :=
     um_active_generations m; um_tombstones := um_tombstones m; um_connection_states := um_connection_states m;
     um_workspaces := um_workspaces m; um_status := um_status m; um_config := um_config m; um_config_uncertain
     := um_config_uncertain m; um_profile_load_succeeded := um_profile_load_succeeded m;
     um_last_profiles_operation := x; um_pending_retags := um_pending_retags m; um_next_operation_id :=
     um_next_operation_id m |}.
Definition set_pending_retags (m : UiModel) (x : gmap (list N) (ProfileGeneration * ProfileGeneration)) : UiModel :=
  {| um_profiles := um_profiles m; um_selected_profile := um_selected_profile m; um_active_generations :=
     um_active_generations m; um_tombstones := um_tombstones m; um_connection_states := um_connection_states m;
     um_workspaces := um_workspaces m; um_status := um_status m; um_config := um_config m; um_config_uncertain
     := um_config_uncertain m; um_profile_load_succeeded := um_profile_load_succeeded m;
     um_last_profiles_operation := um_last_profiles_operation m; um_pending_retags := x; um_next_operation_id :=
     um_next_operation_id m |}.
Definition set_next_operation_id (m : UiModel) (x : N) : UiModel :=
  {| um_profiles := um_profiles m; um_selected_profile := um_selected_profile m; um_active_generations :=
     um_active_generations m; um_tombstones := um_tombstones m; um_connection_states := um_connection_states m;
     um_workspaces := um_workspaces m; um_status := um_status m; um_config := um_config m; um_config_uncertain
     := um_config_uncertain m; um_profile_load_succeeded := um_profile_load_succeeded m;
     um_last_profiles_operation := um_last_profiles_operation m; um_pending_retags := um_pending_retags m;
     um_next_operation_id := x |}.

(** ** Queries *)

Definition workspace (m : UiModel) (key : WorkspaceKey) : option ProfileWorkspace := um_workspaces m !! key.

(** [workspace_mut(key)], with what the caller does to the workspace. *)
Definition workspace_mut (m : UiModel) (key : WorkspaceKey) (f : ProfileWorkspace -> ProfileWorkspace) : UiModel :=
  set_workspaces m (<[key := f (default workspace_new (um_workspaces m !! key))]> (um_workspaces m)).

Definition selected_profile_snapshot (m : UiModel) : option ProfileSnapshot :=
  selected ← um_selected_profile m;
  find (fun profile => bool_decide (ps_id profile = selected)) (um_profiles m).

Definition selected_workspace_key (m : UiModel) : option WorkspaceKey :=
  (fun profile => (ps_id profile, ps_generation profile)) <$> selected_profile_snapshot m.

Definition selected_workspace (m : UiModel) : option ProfileWorkspace := selected_workspace_key m ≫= workspace m.

Definition selected_workspace_mut (m : UiModel) (f : ProfileWorkspace -> ProfileWorkspace) : option UiModel :=
  (fun key => workspace_mut m key f) <$> selected_workspace_key m.

Definition exact_workspace_mut (m : UiModel) (profile_id : ProfileId) (profile_generation : ProfileGeneration)
    (f : ProfileWorkspace -> ProfileWorkspace) : UiModel :=
  workspace_mut m (profile_id, profile_generation) f.

(** The workspace [exact_workspace_mut] hands out. *)
Definition exact_workspace (m : UiModel) (profile_id : ProfileId) (profile_generation : ProfileGeneration) :
    ProfileWorkspace := default workspace_new (um_workspaces m !! (profile_id, profile_generation)).

Definition next_operation (m : UiModel) : OperationId * UiModel :=
  (um_next_operation_id m, set_next_operation_id m (saturating_add (um_next_operation_id m) 1)).

Definition connection_state (m : UiModel) (profile_id : ProfileId) : ConnectionState :=
  default Disconnected (um_connection_states m !! profile_id).

Definition set_connection (m : UiModel) (profile_id : ProfileId) (state : ConnectionState) : UiModel :=
  set_connection_states m (<[profile_id := state]> (um_connection_states m)).

Definition profiles_operation_is_newer (m : UiModel) (operation_id : OperationId) : bool :=
  match um_last_profiles_operation m with None => true | Some latest => (latest <? operation_id)%N end.

(** The updated model, when the operation is accepted. *)
Definition accept_profiles_operation (m : UiModel) (operation_id : OperationId) : option UiModel :=
  if negb (profiles_operation_is_newer m operation_id) then None
  else Some (set_last_profiles_operation m (Some operation_id)).

(** [tombstones.get(id).is_none_or(|tombstone| generation.0 > tombstone.0)] *)
Definition above_tombstone (tombstones : gmap (list N) ProfileGeneration) (profile_id : ProfileId)
    (generation : ProfileGeneration) : bool :=
  match tombstones !! profile_id with None => true | Some tombstone => (tombstone <? generation)%N end.

Definition event_is_current (m : UiModel) (profile_id : ProfileId) (generation : ProfileGeneration) : bool :=
  negb (um_config_uncertain m)
  && bool_decide (um_active_generations m !! profile_id = Some generation)
  && above_tombstone (um_tombstones m) profile_id generation.

Definition redis_event_is_current (m : UiModel) (profile_id : ProfileId) (generation : ProfileGeneration)
    (session_generation : option SessionGeneration) : bool :=
  event_is_current m profile_id generation
  && accepts_redis_event_session (connection_state m profile_id) session_generation.

(** [tombstones.entry(id).and_modify(...).or_insert(generation)] *)
Definition raise_tombstone (tombstones : gmap (list N) ProfileGeneration) (profile_id : ProfileId)
    (generation : ProfileGeneration) : gmap (list N) ProfileGeneration :=
  <[profile_id := match tombstones !! profile_id with
                  | Some current => if (current <? generation)%N then generation else current
                  | None => generation
                  end]> tombstones.

Definition show_message (m : UiModel) (summary : PublicSummary) : UiModel := set_status m (summary_message summary).

(** ** The fold, event by event *)

Definition profile_ids (profiles : list ProfileSnapshot) : list ProfileId := ps_id <$> profiles.

(** [profiles.iter().find(|profile| profile.id == *profile_id)] *)
Definition find_profile (profiles : list ProfileSnapshot) (profile_id : ProfileId) : option ProfileSnapshot :=
  find (fun profile => bool_decide (ps_id profile = profile_id)) profiles.

(** Whether a connection state outlives the reload. *)
Definition keeps_connection (m : UiModel) (profiles : list ProfileSnapshot) (profile_id : ProfileId) : bool :=
  match find_profile (um_profiles m) profile_id, find_profile profiles profile_id with
  | Some previous, Some refreshed =>
      bool_decide (ps_generation previous = ps_generation refreshed)
      && bool_decide (ps_persisted previous = ps_persisted refreshed)
      || bool_decide (um_pending_retags m !! profile_id = Some (ps_generation previous, ps_generation refreshed))
  | _, _ => false
  end.

Definition fold_profiles (m : UiModel) (profiles : list ProfileSnapshot) : UiModel :=
  let tombstones :=
    map_fold (fun profile_id generation tombstones =>
                if bool_decide (profile_id ∈ profile_ids profiles) then tombstones
                else raise_tombstone tombstones profile_id generation)
      (um_tombstones m) (um_active_generations m) in
  let above (profile : ProfileSnapshot) := above_tombstone tombstones (ps_id profile) (ps_generation profile) in
  let profiles := filter (fun profile => above profile = true) profiles in
  let connection_states :=
    filter (fun entry => keeps_connection m profiles entry.1 = true) (um_connection_states m) in
  (* later entries of [collect] replace earlier ones *)
  let active_generations :=
    foldl (fun active profile => <[ps_id profile := ps_generation profile]> active) ∅
      (filter (fun profile => above profile = true) profiles) in
  let workspaces := filter (fun entry => active_generations !! entry.1.1 = Some entry.1.2) (um_workspaces m) in
  let selected_profile :=
    match um_selected_profile m with
    | Some selected =>
        if bool_decide (selected ∈ profile_ids profiles) then Some selected else ps_id <$> head profiles
    | None => ps_id <$> head profiles
    end in
  let connection_states :=
    foldl (fun states profile =>
             if bool_decide (p_credential_mode (ps_persisted profile) = CredSession)
                && negb (ps_has_current_session_secret profile)
             then <[ps_id profile := NeedsCredential]> states else states)
      connection_states profiles in
  {| um_profiles := profiles; um_selected_profile := selected_profile; um_active_generations := active_generations;
     um_tombstones := tombstones; um_connection_states := connection_states; um_workspaces := workspaces;
     um_status := display_N (N.of_nat (length profiles)) ++ lit " profiles loaded"; um_config := um_config m;
     um_config_uncertain := false; um_profile_load_succeeded := um_profile_load_succeeded m;
     um_last_profiles_operation := um_last_profiles_operation m; um_pending_retags := ∅;
     um_next_operation_id := um_next_operation_id m |}.

Definition fold_profiles_loaded (m : UiModel) (operation_id : OperationId) (profiles : list ProfileSnapshot)
    (config : ConfigPresentation) : UiModel :=
  match accept_profiles_operation m operation_id with
  | None => m
  | Some m => fold_profiles (set_config (set_profile_load_succeeded m true) config) profiles
  end.

Definition fold_profiles_failed (m : UiModel) (operation_id : OperationId) (error : PublicOperationError) : UiModel :=
  match accept_profiles_operation m operation_id with
  | None => m
  | Some m => show_message m (pe_summary error)
  end.

Definition save_is_current (m : UiModel) (profile_id : ProfileId) (previous_generation : option ProfileGeneration)
    (profile_generation : ProfileGeneration) : bool :=
  above_tombstone (um_tombstones m) profile_id profile_generation &&
  match previous_generation, um_active_generations m !! profile_id with
  | Some previous, Some active => (active =? previous)%N || (active =? profile_generation)%N
  | Some _, None => false
  | None, Some active => (active <=? profile_generation)%N
  | None, None => true
  end.

Definition fold_profile_saved (m : UiModel) (profile_id : ProfileId) (previous_generation : option ProfileGeneration)
    (profile_generation : ProfileGeneration) (session_retained : bool) (warning : option PublicSummary) : UiModel :=
  if negb (save_is_current m profile_id previous_generation profile_generation) then m
  else
    let m :=
      match session_retained, previous_generation with
      | true, Some previous =>
          set_pending_retags m (<[profile_id := (previous, profile_generation)]> (um_pending_retags m))
      | _, _ =>
          set_connection_states (set_pending_retags m (delete profile_id (um_pending_retags m)))
            (delete profile_id (um_connection_states m))
      end in
    let m := set_active_generations m (<[profile_id := profile_generation]> (um_active_generations m)) in
    match warning with Some summary => show_message m summary | None => m end.

(** [iter_mut().find(...)]: the first profile with the id. *)
Fixpoint mark_secret (profiles : list ProfileSnapshot) (profile_id : ProfileId) : list ProfileSnapshot :=
  match profiles with
  | [] => []
  | p :: rest =>
      if bool_decide (ps_id p = profile_id) then
        {| ps_id := ps_id p; ps_generation := ps_generation p; ps_name := ps_name p; ps_driver := ps_driver p;
           ps_endpoint := ps_endpoint p; ps_database := ps_database p; ps_availability := ps_availability p;
           ps_planned_reason := ps_planned_reason p; ps_has_current_session_secret := true;
           ps_environment_availability := ps_environment_availability p; ps_persisted := ps_persisted p |} :: rest
      else p :: mark_secret rest profile_id
  end.

Definition fold_credentials_stored (m : UiModel) (profile_id : ProfileId) (profile_generation : ProfileGeneration) :
    UiModel :=
  if event_is_current m profile_id profile_generation then
    let m := set_profiles m (mark_secret (um_profiles m) profile_id) in
    let m :=
      match um_connection_states m !! profile_id with
      | Some NeedsCredential => set_connection m profile_id Disconnected
      | _ => m
      end in
    set_status m (lit "Session credential stored.")
  else m.

(** A failure that only shows its message, when it concerns the current generation. *)
Definition fold_credentials_store_failed (m : UiModel) (profile_id : ProfileId)
    (profile_generation : ProfileGeneration) (error : PublicOperationError) : UiModel :=
  if event_is_current m profile_id profile_generation then show_message m (pe_summary error) else m.

(** [event_is_current(...) && connection_states.get(id) == Some(&Pending(operation_id))] *)
Definition awaits (m : UiModel) (operation_id : OperationId) (profile_id : ProfileId) : bool :=
  bool_decide (um_connection_states m !! profile_id = Some (Pending operation_id)).

Definition fold_connection_ready (m : UiModel) (operation_id : OperationId) (profile_id : ProfileId)
    (profile_generation : ProfileGeneration) (session_generation : SessionGeneration) (elapsed_ms : N) : UiModel :=
  if event_is_current m profile_id profile_generation && awaits m operation_id profile_id then
    set_status (set_connection m profile_id (Connected session_generation elapsed_ms))
      (lit "Connection ready in " ++ display_N elapsed_ms ++ lit " ms")
  else m.

Definition fold_connection_closed (m : UiModel) (operation_id : OperationId) (profile_id : ProfileId)
    (profile_generation : ProfileGeneration) (post_close : PostCloseState) : UiModel :=
  if event_is_current m profile_id profile_generation && awaits m operation_id profile_id then
    set_status
      (set_connection m profile_id
         match post_close with PcsDisconnected => Disconnected | PcsNeedsCredential => NeedsCredential end)
      (lit "Disconnected")
  else m.

Definition fold_execute_unavailable (m : UiModel) (operation_id : OperationId) (profile_id : ProfileId)
    (profile_generation : ProfileGeneration) (summary : PublicSummary) : UiModel :=
  if event_is_current m profile_id profile_generation then
    show_message
      (exact_workspace_mut m profile_id profile_generation (fun w =>
         if bool_decide (ws_pending_execute w = Some operation_id) then without_pending w else w))
      summary
  else m.

Definition fold_query_finished (m : UiModel) (operation_id : OperationId) (profile_id : ProfileId)
    (profile_generation : ProfileGeneration) (session_generation : SessionGeneration) (result : ResultSnapshot) :
    UiModel :=
  if event_is_current m profile_id profile_generation then
    if negb (bool_decide (ws_pending_execute (exact_workspace m profile_id profile_generation) = Some operation_id))
    then exact_workspace_mut m profile_id profile_generation id
    else
      let m := exact_workspace_mut m profile_id profile_generation (fun w =>
        with_execution w None (Some result) (reset_for (ws_result_view w) (rp_result_id (sn_provenance result))) None) in
      set_connection
        (set_status m (lit "Query finished in " ++ display_N (rp_duration_ms (sn_provenance result)) ++ lit " ms"))
        profile_id (Connected session_generation 0)
  else m.

(** The connection a catalog page came through, unless the visible one is newer. *)
Definition fold_catalog_session (m : UiModel) (profile_id : ProfileId)
    (session_generation : option SessionGeneration) (disposition : option SessionDisposition) : UiModel :=
  match session_generation, disposition with
  | Some session_generation, Some disposition =>
      let protected :=
        match um_connection_states m !! profile_id with
        | Some (Pending _ | Closing) => true
        | Some (Connected visible _) => negb (visible =? session_generation)%N
        | _ => false
        end in
      if protected then m
      else
        set_connection m profile_id
          match disposition with Keep => Connected session_generation 0 | Evict => Disconnected end
  | _, _ => m
  end.

Definition fold_catalog_page_loaded (m : UiModel) (page : CatalogPage) (session_generation : SessionGeneration)
    (session_disposition : SessionDisposition) : UiModel :=
  let profile_id := ri_profile_id (cp_identity page) in
  let profile_generation := ri_profile_generation (cp_identity page) in
  if event_is_current m profile_id profile_generation then
    let m := fold_catalog_session m profile_id (Some session_generation) (Some session_disposition) in
    set_status (exact_workspace_mut m profile_id profile_generation (fun w => with_catalog w (Some page) None None))
      (lit "Catalog page loaded")
  else m.

Definition fold_catalog_page_failed (m : UiModel) (request : CatalogRequest) (error : PublicOperationError)
    (session_generation : option SessionGeneration) (session_disposition : option SessionDisposition) : UiModel :=
  let profile_id := ri_profile_id (cr_identity request) in
  let profile_generation := ri_profile_generation (cr_identity request) in
  if event_is_current m profile_id profile_generation then
    let m := fold_catalog_session m profile_id session_generation session_disposition in
    show_message
      (exact_workspace_mut m profile_id profile_generation (fun w =>
         with_catalog w (stale_catalog_page <$> ws_catalog_page w) (Some request) (Some error)))
      (pe_summary error)
  else m.

(** [match connection_outcome { Preserve => {}, ... }] *)
Definition apply_outcome (m : UiModel) (profile_id : ProfileId) (connection_outcome : ConnectionFailureOutcome) :
    UiModel :=
  match connection_outcome with
  | Preserve => m
  | OutcomeDisconnected | OutcomeUnknown => set_connection m profile_id Disconnected
  | OutcomeNeedsCredential => set_connection m profile_id NeedsCredential
  end.

Definition apply_redis_session_truth (m : UiModel) (profile_id : ProfileId)
    (session_generation : option SessionGeneration) (session_disposition : option SessionDisposition)
    (connection_outcome : ConnectionFailureOutcome) : UiModel :=
  match session_generation, session_disposition with
  | Some session_generation, Some Keep => set_connection m profile_id (Connected session_generation 0)
  | _, Some Evict => set_connection m profile_id Disconnected
  | _, _ => apply_outcome m profile_id connection_outcome
  end.

Definition fold_redis_keys_loaded (m : UiModel) (page : RedisKeyPage) (session_generation : SessionGeneration)
    (session_disposition : SessionDisposition) : UiModel :=
  let profile_id := ri_profile_id (kp_identity page) in
  let profile_generation := ri_profile_generation (kp_identity page) in
  if redis_event_is_current m profile_id profile_generation (Some session_generation) then
    let m := exact_workspace_mut m profile_id profile_generation (fun w => with_redis_scan w (Some page) None None) in
    set_status
      (apply_redis_session_truth m profile_id (Some session_generation) (Some session_disposition) Preserve)
      (lit "Redis keys loaded")
  else m.

Definition fold_redis_keys_failed (m : UiModel) (request : RedisScanRequest) (error : PublicOperationError)
    (session_generation : option SessionGeneration) (session_disposition : option SessionDisposition)
    (connection_outcome : ConnectionFailureOutcome) : UiModel :=
  let profile_id := ri_profile_id (rs_identity request) in
  let profile_generation := ri_profile_generation (rs_identity request) in
  if redis_event_is_current m profile_id profile_generation session_generation then
    let m := exact_workspace_mut m profile_id profile_generation (fun w =>
      with_redis_scan w (stale_key_page <$> ws_redis_key_page w) (Some request) (Some error)) in
    apply_redis_session_truth (show_message m (pe_summary error)) profile_id session_generation session_disposition
      connection_outcome
  else m.

Definition fold_redis_key_inspected (m : UiModel) (preview : RedisValuePreview)
    (session_generation : SessionGeneration) (session_disposition : SessionDisposition) : UiModel :=
  let profile_id := ri_profile_id (vp_identity preview) in
  let profile_generation := ri_profile_generation (vp_identity preview) in
  if redis_event_is_current m profile_id profile_generation (Some session_generation) then
    let m :=
      exact_workspace_mut m profile_id profile_generation (fun w => with_redis_inspect w (Some preview) None None) in
    set_status
      (apply_redis_session_truth m profile_id (Some session_generation) (Some session_disposition) Preserve)
      (lit "Redis key inspected")
  else m.

Definition fold_redis_key_inspect_failed (m : UiModel) (request : RedisKeyInspectRequest)
    (error : PublicOperationError) (session_generation : option SessionGeneration)
    (session_disposition : option SessionDisposition) (connection_outcome : ConnectionFailureOutcome) : UiModel :=
  let profile_id := ri_profile_id (rk_identity request) in
  let profile_generation := ri_profile_generation (rk_identity request) in
  if redis_event_is_current m profile_id profile_generation session_generation then
    let m := exact_workspace_mut m profile_id profile_generation (fun w =>
      with_redis_inspect w (stale_preview <$> ws_redis_value_preview w) (Some request) (Some error)) in
    apply_redis_session_truth (show_message m (pe_summary error)) profile_id session_generation session_disposition
      connection_outcome
  else m.

(** The part of [OperationFailed] that depends on the operation's kind. *)
Definition fold_failed_kind (m : UiModel) (operation_id : OperationId) (profile_id : ProfileId)
    (profile_generation : ProfileGeneration) (kind : OperationKind) (error : PublicOperationError)
    (connection_outcome : ConnectionFailureOutcome) : UiModel :=
  let summary := pe_summary error in
  match kind with
  | ConnectProfile | ReconnectProfile =>
      if awaits m operation_id profile_id then
        let visible_state :=
          if bool_decide (summary = CredentialRequired) && bool_decide (connection_outcome = OutcomeNeedsCredential)
          then NeedsCredential else Failed summary in
        show_message (set_connection m profile_id visible_state) summary
      else m
  | DisconnectProfile =>
      if awaits m operation_id profile_id
      then show_message (set_connection m profile_id (Failed summary)) summary else m
  | ExecuteRead | ExecuteMutation =>
      if bool_decide (ws_pending_execute (exact_workspace m profile_id profile_generation) = Some operation_id)
      then
        show_message
          (exact_workspace_mut m profile_id profile_generation (fun w =>
             with_execution w None (ws_result w) (ws_result_view w) (Some error))) summary
      else exact_workspace_mut m profile_id profile_generation id
  | _ => show_message m summary
  end.

Definition fold_operation_failed (m : UiModel) (operation_id : OperationId) (profile_id : ProfileId)
    (profile_generation : ProfileGeneration) (kind : OperationKind) (error : PublicOperationError)
    (connection_outcome : ConnectionFailureOutcome) : UiModel :=
  if negb (event_is_current m profile_id profile_generation) then m
  else
    let is_connection_attempt := bool_decide (kind ∈ [ConnectProfile; ReconnectProfile]) in
    let connection_outcome_is_correlated :=
      match um_connection_states m !! profile_id with
      | Some (Pending pending) => (pending =? operation_id)%N
      | _ => true
      end in
    let m := fold_failed_kind m operation_id profile_id profile_generation kind error connection_outcome in
    if negb is_connection_attempt && connection_outcome_is_correlated
    then apply_outcome m profile_id connection_outcome else m.

Definition fold_deleted (m : UiModel) (profile_id : ProfileId) (deletion_generation : ProfileGeneration)
    (server_state_unknown : bool) : UiModel :=
  if match um_active_generations m !! profile_id with
     | Some active => (deletion_generation <=? active)%N
     | None => false
     end then m
  else
    let profiles := filter (fun profile => ps_id profile <> profile_id) (um_profiles m) in
    {| um_profiles := profiles;
       um_selected_profile :=
         if bool_decide (um_selected_profile m = Some profile_id) then ps_id <$> head profiles
         else um_selected_profile m;
       um_active_generations := delete profile_id (um_active_generations m);
       um_tombstones := raise_tombstone (um_tombstones m) profile_id deletion_generation;
       um_connection_states := delete profile_id (um_connection_states m);
       um_workspaces := filter (fun entry => entry.1.1 <> profile_id) (um_workspaces m);
       um_status :=
         if server_state_unknown then lit "Profile deleted; server state is unknown." else lit "Profile deleted";
       um_config := um_config m; um_config_uncertain := um_config_uncertain m;
       um_profile_load_succeeded := um_profile_load_succeeded m;
       um_last_profiles_operation := um_last_profiles_operation m; um_pending_retags := um_pending_retags m;
       um_next_operation_id := um_next_operation_id m |}.

Definition fold_config_uncertain (m : UiModel) (operation_id : OperationId) : UiModel :=
  match accept_profiles_operation m operation_id with
  | None => m
  | Some m =>
      let m := set_connection_states (set_pending_retags (set_config_uncertain m true) ∅) ∅ in
      set_status (set_workspaces m (without_pending <$> um_workspaces m))
        (lit "Configuration state is uncertain.")
  end.

Definition fold_runtime_shutdown (m : UiModel) : UiModel :=
  let m := set_connection_states m (((fun _ => Closing) <$> um_active_generations m) ∪ um_connection_states m) in
  set_status (set_workspaces m (without_pending <$> um_workspaces m)) (lit "Runtime shut down").

Definition fold (m : UiModel) (event : UiEvent) : UiModel :=
  match event with
  | ProfilesLoaded operation_id profiles config => fold_profiles_loaded m operation_id profiles config
  | ProfilesFailed operation_id _ error => fold_profiles_failed m operation_id error
  | ProfileSaved _ profile_id previous_generation profile_generation session_retained warning =>
      fold_profile_saved m profile_id previous_generation profile_generation session_retained warning
  | ProfileCreateFailed _ _ _ error | ProfileUpdateFailed _ _ _ _ error => show_message m (pe_summary error)
  | CredentialsStored _ profile_id profile_generation => fold_credentials_stored m profile_id profile_generation
  | CredentialsStoreFailed _ profile_id profile_generation _ error =>
      fold_credentials_store_failed m profile_id profile_generation error
  | ConnectionReady operation_id profile_id profile_generation session_generation elapsed_ms =>
      fold_connection_ready m operation_id profile_id profile_generation session_generation elapsed_ms
  | ConnectionClosed operation_id profile_id profile_generation post_close =>
      fold_connection_closed m operation_id profile_id profile_generation post_close
  | DraftConnectionReady _ _ elapsed_ms =>
      set_status m (lit "Draft connection ready in " ++ display_N elapsed_ms ++ lit " ms")
  | DraftOperationFailed _ _ _ error => show_message m (pe_summary error)
  | QueryFinished operation_id profile_id profile_generation session_generation result =>
      fold_query_finished m operation_id profile_id profile_generation session_generation result
  | ResultExported _ _ _ _ row_count bytes_written =>
      set_status m (lit "Exported " ++ display_N row_count ++ lit " rows (" ++ display_N bytes_written
                    ++ lit " bytes).")
  | ResultExportFailed _ _ _ _ _ error _ => show_message m (pe_summary error)
  | CatalogPageLoaded page session_generation session_disposition =>
      fold_catalog_page_loaded m page session_generation session_disposition
  | CatalogPageFailed request _ error session_generation session_disposition =>
      fold_catalog_page_failed m request error session_generation session_disposition
  | RedisKeysLoaded page session_generation session_disposition =>
      fold_redis_keys_loaded m page session_generation session_disposition
  | RedisKeysFailed request error session_generation session_disposition connection_outcome =>
      fold_redis_keys_failed m request error session_generation session_disposition connection_outcome
  | RedisKeyInspected preview session_generation session_disposition =>
      fold_redis_key_inspected m preview session_generation session_disposition
  | RedisKeyInspectFailed request error session_generation session_disposition connection_outcome =>
      fold_redis_key_inspect_failed m request error session_generation session_disposition connection_outcome
  | OperationFailed operation_id profile_id profile_generation _ kind _ error _ connection_outcome =>
      fold_operation_failed m operation_id profile_id profile_generation kind error connection_outcome
  | ExecuteUnavailable operation_id profile_id profile_generation summary =>
      fold_execute_unavailable m operation_id profile_id profile_generation summary
  | ProfileDeleted _ profile_id profile_generation server_state_unknown =>
      fold_deleted m profile_id profile_generation server_state_unknown
  | ConfigUncertain operation_id => fold_config_uncertain m operation_id
  | RuntimeShutdown _ => fold_runtime_shutdown m
  end.
