(* ===== verification/UiModelSafety.v ===== *)
(** * What the interface's model never shows

    Reachable models under any order of events and edits: no profile, generation or
    workspace at or below a tombstone, no effect of an event about a generation that
    is not the current one, and a deleted profile that stays deleted. *)

From stdpp Require Import relations.
From S2P Require Import Prelude RustStr Model Secrets Profile Config Drivers PublicError RedisBrowser UiModel.

(** ** Events about one profile generation *)

Definition event_profile (event : UiEvent) : option (ProfileId * ProfileGeneration) :=
  let of_identity (i : RequestIdentity) := Some (ri_profile_id i, ri_profile_generation i) in
  match event with
  | CredentialsStored _ p g | CredentialsStoreFailed _ p g _ _ | ConnectionReady _ p g _ _ | ConnectionClosed _ p g _
  | QueryFinished _ p g _ _ | OperationFailed _ p g _ _ _ _ _ _ | ExecuteUnavailable _ p g _ => Some (p, g)
  | CatalogPageLoaded page _ _ => of_identity (cp_identity page)
  | CatalogPageFailed request _ _ _ _ => of_identity (cr_identity request)
  | RedisKeysLoaded page _ _ => of_identity (kp_identity page)
  | RedisKeysFailed request _ _ _ _ => of_identity (rs_identity request)
  | RedisKeyInspected preview _ _ => of_identity (vp_identity preview)
  | RedisKeyInspectFailed request _ _ _ _ => of_identity (rk_identity request)
  | _ => None
  end.

Lemma stale_event m event profile_id generation :
  event_profile event = Some (profile_id, generation) ->
  event_is_current m profile_id generation = false -> fold m event = m.
Proof.
  destruct event; cbn; intros [= <- <-] Hstale;
    unfold fold_credentials_stored, fold_credentials_store_failed, fold_connection_ready, fold_connection_closed,
      fold_query_finished, fold_operation_failed, fold_execute_unavailable, fold_catalog_page_loaded,
      fold_catalog_page_failed, fold_redis_keys_loaded, fold_redis_keys_failed, fold_redis_key_inspected,
      fold_redis_key_inspect_failed, redis_event_is_current; by rewrite Hstale.
Qed.

(** ** Everything shown is above the tombstones *)

Definition alive (m : UiModel) (profile_id : ProfileId) (generation : ProfileGeneration) : Prop :=
  above_tombstone (um_tombstones m) profile_id generation = true.

Record Ui_ok (m : UiModel) : Prop := {
  uo_active profile_id generation :
    um_active_generations m !! profile_id = Some generation -> alive m profile_id generation;
  uo_profiles profile : profile ∈ um_profiles m -> alive m (ps_id profile) (ps_generation profile);
  uo_workspaces key : is_Some (um_workspaces m !! key) -> alive m key.1 key.2;
}.

Definition tombstones_grow (t t' : gmap (list N) ProfileGeneration) : Prop :=
  forall profile_id generation, t !! profile_id = Some generation ->
    exists generation', t' !! profile_id = Some generation' /\ (generation <= generation')%N.

#[export] Instance tombstones_grow_preorder : PreOrder tombstones_grow.
Proof.
  split.
  - intros t p g H. by exists g.
  - intros t1 t2 t3 H12 H23 p g H. destruct (H12 p g H) as (g' & H' & ?). destruct (H23 p g' H') as (g'' & ? & ?).
    exists g''. split; [done|lia].
Qed.

Lemma raise_tombstone_grows t profile_id generation : tombstones_grow t (raise_tombstone t profile_id generation).
Proof.
  intros p g Hp. unfold raise_tombstone. destruct (decide (p = profile_id)) as [->|Hne].
  - rewrite lookup_insert, Hp. destruct (decide _); [|done]. case_match eqn:E; eexists; split; [done|lia|done|lia].
  - rewrite lookup_insert_ne by done. by exists g.
Qed.

Lemma raise_tombstone_at t profile_id generation :
  exists generation', raise_tombstone t profile_id generation !! profile_id = Some generation' /\
    (generation <= generation')%N.
Proof.
  unfold raise_tombstone. rewrite lookup_insert. destruct (decide _); [|done].
  destruct (t !! profile_id) as [current|]; [|by exists generation].
  destruct (N.ltb_spec current generation); eexists; (split; [done|lia]).
Qed.

(** ** Most events only touch workspaces of current generations *)

Definition profile_keys (m : UiModel) : list (ProfileId * ProfileGeneration) :=
  (fun p => (ps_id p, ps_generation p)) <$> um_profiles m.

Record ui_frame (m m' : UiModel) : Prop := {
  uf_tombstones : um_tombstones m' = um_tombstones m;
  uf_active : um_active_generations m' = um_active_generations m;
  uf_profiles : profile_keys m' = profile_keys m;
  uf_workspaces key :
    is_Some (um_workspaces m' !! key) ->
    is_Some (um_workspaces m !! key) \/ um_active_generations m !! key.1 = Some key.2;
}.

#[export] Instance ui_frame_preorder : PreOrder ui_frame.
Proof.
  split.
  - intros m. split; auto.
  - intros m1 m2 m3 [? ? ? H12] [? Ha ? H23]. split; [congruence..|].
    intros key Hk. destruct (H23 key Hk) as [?|Hact]; [auto|right; congruence].
Qed.

Lemma ui_frame_ok m m' : ui_frame m m' -> Ui_ok m -> Ui_ok m'.
Proof.
  intros [Ht Ha Hp Hw] [Oa Op Ow]. unfold alive in *. split; unfold alive; rewrite Ht.
  - intros p g. rewrite Ha. apply Oa.
  - intros profile Hin. assert ((ps_id profile, ps_generation profile) ∈ profile_keys m) as Hk.
    { rewrite <- Hp. by apply (list_elem_of_fmap_2 (fun p => (ps_id p, ps_generation p))). }
    apply list_elem_of_fmap in Hk as (q & [= -> ->] & Hq). by apply Op.
  - intros key Hk. destruct (Hw key Hk) as [?|Hact]; [by apply Ow|]. by apply Oa.
Qed.

(** A model that differs in other fields only. *)
Lemma ui_frame_same m m' :
  um_tombstones m' = um_tombstones m -> um_active_generations m' = um_active_generations m ->
  um_profiles m' = um_profiles m -> um_workspaces m' = um_workspaces m -> ui_frame m m'.
Proof. intros ? ? Hp Hw. split; [done..|unfold profile_keys; by rewrite Hp|]. intros key. rewrite Hw. auto. Qed.

Lemma fmap_workspaces_frame m f : ui_frame m (set_workspaces m (f <$> um_workspaces m)).
Proof. split; try done. intros key. cbn. rewrite lookup_fmap, fmap_is_Some. auto. Qed.

Lemma fmap_workspaces_status_frame m f s : ui_frame m (set_status (set_workspaces m (f <$> um_workspaces m)) s).
Proof. split; try done. intros key. cbn. rewrite lookup_fmap, fmap_is_Some. auto. Qed.

Lemma workspace_mut_frame m key f :
  um_active_generations m !! key.1 = Some key.2 -> ui_frame m (workspace_mut m key f).
Proof. intros Hkey. split; try done. intros key'. cbn. rewrite lookup_insert_is_Some. naive_solver. Qed.

(** ** An event about a profile generation touches nothing else *)

Record touches (profile_id : ProfileId) (generation : ProfileGeneration) (m m' : UiModel) : Prop := {
  to_tombstones : um_tombstones m' = um_tombstones m;
  to_active : um_active_generations m' = um_active_generations m;
  to_profiles : profile_keys m' = profile_keys m;
  to_selected : um_selected_profile m' = um_selected_profile m;
  to_config : um_config m' = um_config m /\ um_config_uncertain m' = um_config_uncertain m;
  to_operations : um_last_profiles_operation m' = um_last_profiles_operation m /\
    um_next_operation_id m' = um_next_operation_id m;
  to_workspaces key : key <> (profile_id, generation) -> um_workspaces m' !! key = um_workspaces m !! key;
  to_connections p : p <> profile_id -> um_connection_states m' !! p = um_connection_states m !! p;
}.

#[export] Instance touches_preorder profile_id generation : PreOrder (touches profile_id generation).
Proof.
  split; [by intros m; split|].
  intros m1 m2 m3 [? ? ? ? [] [] Hw Hc] [? ? ? ? [] [] Hw' Hc'].
  split; try congruence; [split; congruence..| |].
  - intros key Hk. by rewrite Hw', Hw.
  - intros p Hp. by rewrite Hc', Hc.
Qed.

Lemma touches_frame p g m m' : touches p g m m' -> um_active_generations m !! p = Some g -> ui_frame m m'.
Proof.
  intros [? ? ? _ _ _ Hw _] Ha. split; [done..|]. intros key Hk.
  destruct (decide (key = (p, g))) as [->|Hne]; [by right|left; by rewrite <- Hw].
Qed.

Section touching.
Context (p : ProfileId) (g : ProfileGeneration).

Lemma set_status_touches m s : touches p g m (set_status m s).
Proof using Type. by split. Qed.
Lemma show_message_touches m s : touches p g m (show_message m s).
Proof using Type. by split. Qed.
Lemma set_connection_touches m c : touches p g m (set_connection m p c).
Proof using Type. split; try done. intros p' Hp. cbn. by rewrite lookup_insert_ne. Qed.
Lemma exact_workspace_mut_touches m f : touches p g m (exact_workspace_mut m p g f).
Proof using Type. split; try done. intros key Hk. cbn. by rewrite lookup_insert_ne. Qed.
Lemma apply_outcome_touches m o : touches p g m (apply_outcome m p o).
Proof using Type. destruct o; [done|apply set_connection_touches..]. Qed.
Lemma apply_redis_session_truth_touches m s d o : touches p g m (apply_redis_session_truth m p s d o).
Proof using Type. destruct s, d as [[]|]; cbn; auto using set_connection_touches, apply_outcome_touches. Qed.
Lemma fold_catalog_session_touches m s d : touches p g m (fold_catalog_session m p s d).
Proof using Type. unfold fold_catalog_session. repeat case_match; first [done|apply set_connection_touches]. Qed.

Lemma mark_secret_keys profiles :
  (fun q => (ps_id q, ps_generation q)) <$> mark_secret profiles p = (fun q => (ps_id q, ps_generation q)) <$> profiles.
Proof using Type. induction profiles as [|q profiles IH]; cbn; [done|]. case_bool_decide; cbn; [done|by rewrite IH]. Qed.

Lemma mark_secret_touches m : touches p g m (set_profiles m (mark_secret (um_profiles m) p)).
Proof using Type. split; try done. apply mark_secret_keys. Qed.
End touching.

(** Peels the updates of a model off, the latest first. *)
Ltac touch_step :=
  match goal with
  | |- touches _ _ ?m ?m => reflexivity
  | |- touches _ _ _ (set_status ?m _) => transitivity m; [|apply set_status_touches]
  | |- touches _ _ _ (show_message ?m _) => transitivity m; [|apply show_message_touches]
  | |- touches _ _ _ (set_connection ?m _ _) => transitivity m; [|apply set_connection_touches]
  | |- touches _ _ _ (apply_outcome ?m _ _) => transitivity m; [|apply apply_outcome_touches]
  | |- touches _ _ _ (apply_redis_session_truth ?m _ _ _ _) =>
      transitivity m; [|apply apply_redis_session_truth_touches]
  | |- touches _ _ _ (fold_catalog_session ?m _ _ _) => transitivity m; [|apply fold_catalog_session_touches]
  | |- touches _ _ _ (exact_workspace_mut ?m _ _ _) => transitivity m; [|apply exact_workspace_mut_touches]
  | |- touches _ _ _ (set_profiles ?m _) => transitivity m; [|apply mark_secret_touches]
  | |- touches _ _ _ (if ?b then _ else _) => destruct b
  | |- touches _ _ _ (match ?x with _ => _ end) => destruct x
  end.

Lemma event_is_current_spec m p g :
  event_is_current m p g = true ->
  um_config_uncertain m = false /\ um_active_generations m !! p = Some g /\ alive m p g.
Proof. unfold event_is_current. rewrite !andb_true_iff, negb_true_iff, bool_decide_eq_true. tauto. Qed.

Lemma fold_failed_kind_touches m operation_id p g kind error outcome :
  touches p g m (fold_failed_kind m operation_id p g kind error outcome).
Proof. unfold fold_failed_kind. destruct kind; repeat touch_step. Qed.

Lemma fold_event_touches m event p g : event_profile event = Some (p, g) -> touches p g m (fold m event).
Proof.
  intros Hevent. destruct event; cbn in Hevent; try discriminate Hevent; injection Hevent as <- <-; cbn [fold];
    unfold fold_credentials_stored, fold_credentials_store_failed, fold_connection_ready, fold_connection_closed,
      fold_query_finished, fold_operation_failed, fold_execute_unavailable, fold_catalog_page_loaded,
      fold_catalog_page_failed, fold_redis_keys_loaded, fold_redis_keys_failed, fold_redis_key_inspected,
      fold_redis_key_inspect_failed;
    repeat touch_step; try apply fold_failed_kind_touches.
Qed.

(** The events that publish profiles or tombstones. *)
Definition publishes (event : UiEvent) : bool :=
  match event with ProfilesLoaded _ _ _ | ProfileSaved _ _ _ _ _ _ | ProfileDeleted _ _ _ _ => true | _ => false end.

Lemma accept_profiles_operation_frame m operation_id m' :
  accept_profiles_operation m operation_id = Some m' -> ui_frame m m'.
Proof. unfold accept_profiles_operation. case_match; [done|]. intros [= <-]. by apply ui_frame_same. Qed.

Lemma fold_quiet_frame m event : publishes event = false -> ui_frame m (fold m event).
Proof.
  intros Hq. destruct (event_profile event) as [[p g]|] eqn:Hevent.
  { destruct (event_is_current m p g) eqn:Hcur; [|by rewrite (stale_event m event p g)].
    apply event_is_current_spec in Hcur as (_ & Hact & _). by eapply touches_frame; [apply fold_event_touches|]. }
  destruct event; try discriminate Hq; try discriminate Hevent; cbn [fold]; try by apply ui_frame_same.
  - unfold fold_profiles_failed. destruct (accept_profiles_operation m operation_id) as [m'|] eqn:Ha; [|done].
    etrans; [by eapply accept_profiles_operation_frame|]. by apply ui_frame_same.
  - unfold fold_config_uncertain. destruct (accept_profiles_operation m operation_id) as [m'|] eqn:Ha; [|done].
    etrans; [by eapply accept_profiles_operation_frame|]. etrans; [|apply fmap_workspaces_status_frame].
    by apply ui_frame_same.
  - unfold fold_runtime_shutdown. etrans; [|apply fmap_workspaces_status_frame]. by apply ui_frame_same.
Qed.

(** ** The publishing events *)

Lemma alive_grow t t' p g :
  tombstones_grow t t' -> above_tombstone t' p g = true -> above_tombstone t p g = true.
Proof.
  intros Hgrow. unfold above_tombstone. destruct (t !! p) as [g0|] eqn:Ht; [|done].
  destruct (Hgrow p g0 Ht) as (g1 & -> & ?). rewrite !N.ltb_lt. lia.
Qed.

Lemma retired_tombstones_grow (ids : list ProfileId) active tombstones :
  tombstones_grow tombstones
    (map_fold (fun profile_id generation tombstones =>
                if bool_decide (profile_id ∈ ids) then tombstones
                else raise_tombstone tombstones profile_id generation) tombstones active).
Proof.
  apply (map_fold_weak_ind (fun result (_ : gmap (list N) N) => tombstones_grow tombstones result)); [done|].
  intros p g active' result _ IH. case_bool_decide; [done|]. etrans; [exact IH|apply raise_tombstone_grows].
Qed.

Lemma active_of_profiles (P : ProfileId -> ProfileGeneration -> Prop) profiles p g :
  (forall profile, profile ∈ profiles -> P (ps_id profile) (ps_generation profile)) ->
  foldl (fun (active : gmap (list N) N) profile => <[ps_id profile := ps_generation profile]> active) ∅ profiles !! p
    = Some g -> P p g.
Proof.
  intros Hall. assert (forall active : gmap (list N) N, (forall p g, active !! p = Some g -> P p g) ->
    foldl (fun active profile => <[ps_id profile := ps_generation profile]> active) active profiles !! p = Some g ->
    P p g) as H; [|apply H; by intros ? ? ?%lookup_empty_Some].
  induction profiles as [|profile profiles IH]; intros active Hactive; cbn [foldl]; [apply Hactive|].
  apply IH; [set_solver|]. intros p' g'. rewrite lookup_insert_Some. intros [[<- <-]|[_ ?]]; [apply Hall; set_solver|auto].
Qed.

Lemma fold_profiles_ok m profiles : Ui_ok (fold_profiles m profiles).
Proof.
  unfold fold_profiles. set (t := map_fold _ _ _). set (kept := filter _ profiles).
  assert (Hkept : forall profile, profile ∈ kept -> above_tombstone t (ps_id profile) (ps_generation profile) = true).
  { intros profile. unfold kept. rewrite list_elem_of_filter. by intros []. }
  assert (Hactive : forall p g,
    foldl (fun (active : gmap (list N) N) profile => <[ps_id profile := ps_generation profile]> active) ∅
      (filter (fun profile => above_tombstone t (ps_id profile) (ps_generation profile) = true) kept) !! p = Some g ->
    above_tombstone t p g = true).
  { intros p g. apply (active_of_profiles (fun p g => above_tombstone t p g = true)). intros profile. rewrite list_elem_of_filter. by intros []. }
  split; unfold alive; cbn [um_tombstones um_active_generations um_profiles um_workspaces].
  - apply Hactive.
  - apply Hkept.
  - intros key [w [_ Hw]%map_lookup_filter_Some]. by apply Hactive.
Qed.

Lemma fold_profile_saved_ok m profile_id previous generation retained warning :
  Ui_ok m ->
  Ui_ok (fold_profile_saved m profile_id previous generation retained warning) /\
  um_tombstones (fold_profile_saved m profile_id previous generation retained warning) = um_tombstones m.
Proof.
  intros [Oa Op Ow]. unfold fold_profile_saved. destruct (save_is_current _ _ _ _) eqn:Hcur; cbn [negb]; [|by repeat split].
  unfold save_is_current in Hcur. apply andb_true_iff in Hcur as [Habove _].
  assert (forall m', um_tombstones m' = um_tombstones m -> um_profiles m' = um_profiles m ->
    um_workspaces m' = um_workspaces m ->
    um_active_generations m' = <[profile_id := generation]> (um_active_generations m) ->
    Ui_ok m' /\ um_tombstones m' = um_tombstones m) as H.
  { intros m' Ht Hp Hw Ha. split; [|done]. split; unfold alive; rewrite Ht, ?Hp, ?Hw; [|done..].
    intros p g. rewrite Ha, lookup_insert_Some. intros [[<- <-]|[_ ?]]; [done|by apply Oa]. }
  destruct retained, previous, warning; by apply H.
Qed.

(** The deletion goes through: the active generation is an earlier one. *)
Definition deletes (m : UiModel) (profile_id : ProfileId) (generation : ProfileGeneration) : Prop :=
  forall active, um_active_generations m !! profile_id = Some active -> (active < generation)%N.

Lemma fold_deleted_cases m profile_id generation unknown :
  fold_deleted m profile_id generation unknown = m \/
  um_tombstones (fold_deleted m profile_id generation unknown)
    = raise_tombstone (um_tombstones m) profile_id generation.
Proof. unfold fold_deleted. case_match; auto. Qed.

Lemma raise_tombstone_other t p p' generation : p' <> p -> raise_tombstone t p generation !! p' = t !! p'.
Proof. intros. unfold raise_tombstone. by rewrite lookup_insert_ne. Qed.

Lemma fold_deleted_ok m profile_id generation unknown :
  Ui_ok m -> Ui_ok (fold_deleted m profile_id generation unknown).
Proof.
  intros [Oa Op Ow]. unfold fold_deleted. case_match; [done|].
  assert (Halive : forall p g, p <> profile_id -> alive m p g ->
    above_tombstone (raise_tombstone (um_tombstones m) profile_id generation) p g = true).
  { intros p g Hne. unfold alive, above_tombstone. by rewrite raise_tombstone_other. }
  split; unfold alive; cbn [um_tombstones um_active_generations um_profiles um_workspaces].
  - intros p g [Hne Hp]%lookup_delete_Some. by apply Halive; [|apply Oa].
  - intros profile. rewrite list_elem_of_filter. intros [? ?]. by apply Halive; [|apply Op].
  - intros key [w [Hw Hne]%map_lookup_filter_Some]. apply Halive; [done|]. apply Ow. by exists w.
Qed.

Lemma fold_grows_ok m event :
  Ui_ok m -> Ui_ok (fold m event) /\ tombstones_grow (um_tombstones m) (um_tombstones (fold m event)).
Proof.
  intros Hok. destruct (publishes event) eqn:Hp.
  2: { pose proof (fold_quiet_frame m event Hp) as Hf. split; [by eapply ui_frame_ok|].
       rewrite (uf_tombstones _ _ Hf). reflexivity. }
  destruct event; try discriminate Hp; cbn [fold].
  - unfold fold_profiles_loaded. destruct (accept_profiles_operation m operation_id) as [m'|] eqn:Ha.
    + apply accept_profiles_operation_frame in Ha as [<- _ _ _].
      split; [apply fold_profiles_ok|apply retired_tombstones_grow].
    + by split; [|reflexivity].
  - match goal with |- context [fold_profile_saved ?m ?a ?b ?c ?d ?e] =>
      destruct (fold_profile_saved_ok m a b c d e Hok) as [? ->] end. by split; [|reflexivity].
  - split; [by apply fold_deleted_ok|].
    match goal with |- context [fold_deleted ?m ?a ?b ?c] =>
      destruct (fold_deleted_cases m a b c) as [-> | ->] end; [reflexivity|apply raise_tombstone_grows].
Qed.

(** ** What the windows do to the model *)

(** A step: an event folded in, or one of the changes the application makes itself. *)
Inductive UiStep (m : UiModel) : UiModel -> Prop :=
| step_event event : UiStep m (fold m event)
| step_operation : UiStep m (next_operation m).2
| step_select profile_id : UiStep m (set_selected_profile m profile_id)
| step_status status : UiStep m (set_status m status)
| step_pending profile_id operation_id : UiStep m (set_connection m profile_id (Pending operation_id))
| step_selected_workspace f m' : selected_workspace_mut m f = Some m' -> UiStep m m'
| step_active_workspace profile_id generation f :
    um_active_generations m !! profile_id = Some generation -> UiStep m (workspace_mut m (profile_id, generation) f)
| step_workspaces f : UiStep m (set_workspaces m (f <$> um_workspaces m)).

(** The workspace of the selected profile is that of a listed generation. *)
Lemma selected_workspace_mut_ok m f m' :
  Ui_ok m -> selected_workspace_mut m f = Some m' -> Ui_ok m' /\ um_tombstones m' = um_tombstones m.
Proof.
  intros [Oa Op Ow] ([id g] & Hkey & ->)%fmap_Some. split; [|done].
  apply fmap_Some in Hkey as (profile & Hsel & [= -> ->]). unfold selected_profile_snapshot in Hsel.
  apply bind_Some in Hsel as (selected & _ & Hfind). apply find_some in Hfind as [Hin _].
  apply list_elem_of_In in Hin. split; [done..|].
  intros key. cbn. rewrite lookup_insert_is_Some. intros [<-|[_ ?]]; [by apply Op|by apply Ow].
Qed.

Lemma UiStep_ok m m' :
  UiStep m m' -> Ui_ok m -> Ui_ok m' /\ tombstones_grow (um_tombstones m) (um_tombstones m').
Proof.
  intros Hstep Hok.
  assert (Hframe : forall m', ui_frame m m' -> Ui_ok m' /\ tombstones_grow (um_tombstones m) (um_tombstones m')).
  { intros m1 Hf. split; [by eapply ui_frame_ok|]. rewrite (uf_tombstones _ _ Hf). reflexivity. }
  destruct Hstep; try by apply Hframe, ui_frame_same.
  - by apply fold_grows_ok.
  - destruct (selected_workspace_mut_ok m f m' Hok) as [? ->]; [done|]. by split; [|reflexivity].
  - by apply Hframe, workspace_mut_frame.
  - apply Hframe, fmap_workspaces_frame.
Qed.

Lemma UiSteps_ok m m' :
  rtc UiStep m m' -> Ui_ok m -> Ui_ok m' /\ tombstones_grow (um_tombstones m) (um_tombstones m').
Proof.
  induction 1 as [m|m1 m2 m3 Hstep _ IH]; intros Hok; [by split; [|reflexivity]|].
  destruct (UiStep_ok _ _ Hstep Hok) as [Hok2 H12]. destruct (IH Hok2) as [Hok3 H23].
  split; [done|by etrans].
Qed.

Lemma UiModel_default_ok : Ui_ok UiModel_default.
Proof.
  split; cbn; [by intros ? ? ?%lookup_empty_Some|by intros ? ?%not_elem_of_nil|].
  by intros key [? ?%lookup_empty_Some].
Qed.

(** What is shown of a profile is later than its tombstone. *)
Definition shows_after (m : UiModel) (profile_id : ProfileId) (t : ProfileGeneration) : Prop :=
  (forall generation, um_active_generations m !! profile_id = Some generation -> (t < generation)%N) /\
  (forall profile, profile ∈ um_profiles m -> ps_id profile = profile_id -> (t < ps_generation profile)%N) /\
  (forall generation w, um_workspaces m !! (profile_id, generation) = Some w -> (t < generation)%N).

Lemma Ui_ok_shows_after m profile_id t :
  Ui_ok m -> um_tombstones m !! profile_id = Some t -> shows_after m profile_id t.
Proof.
  intros [Oa Op Ow] Ht.
  assert (Halive : forall generation, alive m profile_id generation -> (t < generation)%N).
  { intros generation. unfold alive, above_tombstone. rewrite Ht. lia. }
  split_and!.
  - intros generation Hg. by apply Halive, Oa.
  - intros profile Hp <-. by apply Halive, Op.
  - intros generation w Hw. apply Halive. apply (Ow (profile_id, generation)). by exists w.
Qed.

(** However events and the user's actions interleave, the model never shows a
    profile, an active generation or a workspace at or below the profile's
    tombstone. *)
Lemma shown_above_tombstones m profile_id t :
  rtc UiStep UiModel_default m -> um_tombstones m !! profile_id = Some t -> shows_after m profile_id t.
Proof.
  intros Hm Ht. destruct (UiSteps_ok _ _ Hm UiModel_default_ok) as [Hok _]. by apply Ui_ok_shows_after.
Qed.

(** C30: a deleted profile stays deleted: after a deletion that concerns more than the
    active generation, no later events or actions bring back a profile, an active
    generation or a workspace of the deleted generation or an earlier one, and events
    about those generations change nothing at all. *)
Theorem deleted_profile_stays_deleted m operation_id profile_id generation unknown m' :
  rtc UiStep UiModel_default m -> deletes m profile_id generation ->
  rtc UiStep (fold m (ProfileDeleted operation_id profile_id generation unknown)) m' ->
  shows_after m' profile_id generation /\
  forall event generation', event_profile event = Some (profile_id, generation') ->
    (generation' <= generation)%N -> fold m' event = m'.
Proof.
  intros Hm Hdel Hm'. destruct (UiSteps_ok _ _ Hm UiModel_default_ok) as [Hok _].
  destruct (fold_grows_ok m (ProfileDeleted operation_id profile_id generation unknown) Hok) as [Hok1 _].
  destruct (UiSteps_ok _ _ Hm' Hok1) as [Hok' Hgrow].
  assert (exists t, um_tombstones (fold m (ProfileDeleted operation_id profile_id generation unknown)) !! profile_id
    = Some t /\ (generation <= t)%N) as (t0 & Ht0 & Hle0).
  { cbn [fold]. unfold fold_deleted. destruct (um_active_generations m !! profile_id) as [active|] eqn:Hact.
    - pose proof (Hdel active Hact). destruct (N.leb_spec generation active); [lia|]. apply raise_tombstone_at.
    - apply raise_tombstone_at. }
  destruct (Hgrow profile_id t0 Ht0) as (t & Ht & Hle).
  destruct (Ui_ok_shows_after _ _ _ Hok' Ht) as (Ha & Hp & Hw). split.
  - split_and!; [intros g Hg; specialize (Ha g Hg); lia|intros p Hin Hid; specialize (Hp p Hin Hid); lia|].
    intros g w Hg. specialize (Hw g w Hg). lia.
  - intros event generation' Hevent Hle'. apply (stale_event m' event profile_id generation' Hevent).
    unfold event_is_current, above_tombstone. rewrite Ht. destruct (N.ltb_spec t generation'); [lia|].
    apply andb_false_r.
Qed.

(** An event about a profile generation that is not the current one (the
    configuration is uncertain, another generation is active, or the profile is
    deleted) changes nothing; about the current one, it changes only that
    generation's workspace and that profile's connection state and messages. *)
Theorem profile_event_isolated m event profile_id generation :
  event_profile event = Some (profile_id, generation) ->
  (event_is_current m profile_id generation = false -> fold m event = m) /\ touches profile_id generation m (fold m event).
Proof. intros Hevent. split; [by apply stale_event|by apply fold_event_touches]. Qed.

(** ** A run: two profiles, one deleted while a late query result is on its way *)

Definition sample_snapshot (id : ProfileId) (generation : ProfileGeneration) : ProfileSnapshot :=
  from_profile (with_id (from_draft id (for_driver MySql)) id) generation false None.

Definition sample_events : list UiEvent :=
  [ProfilesLoaded 1 [sample_snapshot (lit "a") 3; sample_snapshot (lit "b") 4] ConfigPresentation_default;
   ExecuteUnavailable 2 (lit "a") 3 InvalidInput].

Definition sample_model : UiModel := foldl fold UiModel_default sample_events.
Definition deleted_model : UiModel := fold sample_model (ProfileDeleted 5 (lit "a") 6 false).

Lemma events_reached m events : rtc UiStep m (foldl fold m events).
Proof.
  revert m. induction events as [|event events IH]; intros m; [constructor|].
  eapply rtc_l; [apply (step_event m event)|apply IH].
Qed.

Lemma sample_model_reached : rtc UiStep UiModel_default sample_model.
Proof. apply events_reached. Qed.

Lemma deleted_profile_stays_deleted_witness :
  is_Some (um_workspaces sample_model !! (lit "a", 3%N)) /\ shows_after deleted_model (lit "a") 6 /\
  fold deleted_model (ExecuteUnavailable 7 (lit "a") 3 InvalidInput) = deleted_model.
Proof.
  assert (Hdel : deletes sample_model (lit "a") 6).
  { intros active Ha. assert (um_active_generations sample_model !! lit "a" = Some 3%N) as Ha' by (vm_compute; reflexivity).
    rewrite Ha' in Ha. injection Ha as <-. lia. }
  destruct (deleted_profile_stays_deleted sample_model 5 (lit "a") 6 false deleted_model sample_model_reached Hdel
    (rtc_refl _ _)) as [Hshow Hstale].
  split; [vm_compute; eauto|split; [exact Hshow|]]. apply (Hstale _ 3%N); [reflexivity|lia].
Defined.

Lemma profile_event_isolated_witness :
  event_is_current sample_model (lit "b") 9 = false /\
  fold sample_model (ConnectionReady 8 (lit "b") 9 1 20) = sample_model.
Proof.
  split; [vm_compute; reflexivity|].
  apply (profile_event_isolated sample_model (ConnectionReady 8 (lit "b") 9 1 20) (lit "b") 9); [reflexivity|].
  vm_compute. reflexivity.
Defined.
