(* ===== verification/RedisExplorer.v ===== *)
(** * The Redis explorer (src/src/ui/redis_explorer.rs)

    The state of one workspace's key list and preview: what the buttons ask for, what is
    pending, and what events do.  Drawing is not modelled.  The theorems say that the list
    is exactly the pages of one SCAN cycle, and that a preview always belongs to the
    selected key. *)

From S2P Require Import Prelude RustStr Model Drivers PublicError RedisBrowser UiModel.

Inductive FilterMode := ModeLiteralPrefix | ModeGlob.

Inductive RedisExplorerIntent :=
| IntentScan (filter : RedisKeyFilter) (cursor : N) (restart : bool)
| IntentInspect (key : RedisKeyId)
| IntentCancel (operation_id : OperationId).

Record PendingScan := {
  sc_operation_id : OperationId;
  sc_filter : RedisKeyFilter;
  sc_cursor : N;
  sc_restart : bool;
  sc_cancel_requested : bool;
}.

Record PendingInspect := {
  in_operation_id : OperationId;
  in_key : RedisKeyId;
  in_cancel_requested : bool;
}.

Record RedisExplorer := {
  rx_profile : option (ProfileId * ProfileGeneration);
  rx_filter_text : str;
  rx_filter_mode : FilterMode;
  rx_scan : RedisScanAccumulator;
  rx_pending_scan : option PendingScan;
  rx_scan_error : option PublicOperationError;
  rx_selected_key : option RedisKeyId;
  rx_preview : option RedisValuePreview;
  rx_pending_inspect : option PendingInspect;
  rx_inspect_error : option PublicOperationError;
  rx_inspect_stale : bool;
  rx_submit_error : option str;
}.

Definition RedisExplorer_default : RedisExplorer :=
  {| rx_profile := None; rx_filter_text := []; rx_filter_mode := ModeLiteralPrefix;
     rx_scan := RedisScanAccumulator_new (LiteralPrefix []); rx_pending_scan := None; rx_scan_error := None;
     rx_selected_key := None; rx_preview := None; rx_pending_inspect := None; rx_inspect_error := None;
     rx_inspect_stale := false; rx_submit_error := None |}.

(** The parts that handlers change together. *)
Definition with_rx_draft (e : RedisExplorer) (text : str) (mode : FilterMode) : RedisExplorer :=
  {| rx_profile := rx_profile e; rx_filter_text := text; rx_filter_mode := mode; rx_scan := rx_scan e;
     rx_pending_scan := rx_pending_scan e; rx_scan_error := rx_scan_error e; rx_selected_key := rx_selected_key e;
     rx_preview := rx_preview e; rx_pending_inspect := rx_pending_inspect e; rx_inspect_error := rx_inspect_error e;
     rx_inspect_stale := rx_inspect_stale e; rx_submit_error := rx_submit_error e |}.
Definition with_rx_scan (e : RedisExplorer) (scan : RedisScanAccumulator) (pending : option PendingScan)
    (error : option PublicOperationError) : RedisExplorer :=
  {| rx_profile := rx_profile e; rx_filter_text := rx_filter_text e; rx_filter_mode := rx_filter_mode e;
     rx_scan := scan; rx_pending_scan := pending; rx_scan_error := error; rx_selected_key := rx_selected_key e;
     rx_preview := rx_preview e; rx_pending_inspect := rx_pending_inspect e; rx_inspect_error := rx_inspect_error e;
     rx_inspect_stale := rx_inspect_stale e; rx_submit_error := rx_submit_error e |}.
Definition with_rx_inspect (e : RedisExplorer) (selected : option RedisKeyId) (preview : option RedisValuePreview)
    (pending : option PendingInspect) (error : option PublicOperationError) (stale : bool) : RedisExplorer :=
  {| rx_profile := rx_profile e; rx_filter_text := rx_filter_text e; rx_filter_mode := rx_filter_mode e;
     rx_scan := rx_scan e; rx_pending_scan := rx_pending_scan e; rx_scan_error := rx_scan_error e;
     rx_selected_key := selected; rx_preview := preview; rx_pending_inspect := pending; rx_inspect_error := error;
     rx_inspect_stale := stale; rx_submit_error := rx_submit_error e |}.
Definition with_submit_error (e : RedisExplorer) (error : option str) : RedisExplorer :=
  {| rx_profile := rx_profile e; rx_filter_text := rx_filter_text e; rx_filter_mode := rx_filter_mode e;
     rx_scan := rx_scan e; rx_pending_scan := rx_pending_scan e; rx_scan_error := rx_scan_error e;
     rx_selected_key := rx_selected_key e; rx_preview := rx_preview e; rx_pending_inspect := rx_pending_inspect e;
     rx_inspect_error := rx_inspect_error e; rx_inspect_stale := rx_inspect_stale e; rx_submit_error := error |}.
(** [pending_scan = None; pending_inspect = None] *)
Definition without_rx_pending (e : RedisExplorer) : RedisExplorer :=
  {| rx_profile := rx_profile e; rx_filter_text := rx_filter_text e; rx_filter_mode := rx_filter_mode e;
     rx_scan := rx_scan e; rx_pending_scan := None; rx_scan_error := rx_scan_error e;
     rx_selected_key := rx_selected_key e; rx_preview := rx_preview e; rx_pending_inspect := None;
     rx_inspect_error := rx_inspect_error e; rx_inspect_stale := rx_inspect_stale e;
     rx_submit_error := rx_submit_error e |}.

Definition set_explorer_profile (e : RedisExplorer) (profile : option (ProfileId * ProfileGeneration)) :
    RedisExplorer :=
  if bool_decide (rx_profile e = profile) then e
  else
    {| rx_profile := profile; rx_filter_text := []; rx_filter_mode := ModeLiteralPrefix;
       rx_scan := RedisScanAccumulator_new (LiteralPrefix []); rx_pending_scan := None; rx_scan_error := None;
       rx_selected_key := None; rx_preview := None; rx_pending_inspect := None; rx_inspect_error := None;
       rx_inspect_stale := false; rx_submit_error := None |}.

Definition begin_scan (e : RedisExplorer) (operation_id : OperationId) (filter : RedisKeyFilter) (cursor : N)
    (restart : bool) : RedisExplorer :=
  with_submit_error
    (with_rx_scan e (rx_scan e)
       (Some {| sc_operation_id := operation_id; sc_filter := filter; sc_cursor := cursor; sc_restart := restart;
                sc_cancel_requested := false |}) (rx_scan_error e)) None.

Definition begin_inspect (e : RedisExplorer) (operation_id : OperationId) (key : RedisKeyId) : RedisExplorer :=
  with_submit_error
    (with_rx_inspect e (rx_selected_key e) (rx_preview e)
       (Some {| in_operation_id := operation_id; in_key := key; in_cancel_requested := false |})
       (rx_inspect_error e) (rx_inspect_stale e)) None.

Definition cancel_scan (operation_id : OperationId) (p : PendingScan) : PendingScan :=
  if (sc_operation_id p =? operation_id)%N then
    {| sc_operation_id := sc_operation_id p; sc_filter := sc_filter p; sc_cursor := sc_cursor p;
       sc_restart := sc_restart p; sc_cancel_requested := true |}
  else p.
Definition cancel_inspect (operation_id : OperationId) (p : PendingInspect) : PendingInspect :=
  if (in_operation_id p =? operation_id)%N then
    {| in_operation_id := in_operation_id p; in_key := in_key p; in_cancel_requested := true |}
  else p.

Definition cancel_submitted (e : RedisExplorer) (operation_id : OperationId) : RedisExplorer :=
  let e := with_rx_scan e (rx_scan e) (cancel_scan operation_id <$> rx_pending_scan e) (rx_scan_error e) in
  let e := with_rx_inspect e (rx_selected_key e) (rx_preview e) (cancel_inspect operation_id <$> rx_pending_inspect e)
             (rx_inspect_error e) (rx_inspect_stale e) in
  with_submit_error e None.

Definition submission_failed (e : RedisExplorer) (message : str) : RedisExplorer := with_submit_error e (Some message).

Definition dismiss_errors (e : RedisExplorer) : RedisExplorer :=
  let e := with_rx_scan e (rx_scan e) (rx_pending_scan e) None in
  let e := with_rx_inspect e (rx_selected_key e) (rx_preview e) (rx_pending_inspect e) None (rx_inspect_stale e) in
  with_submit_error e None.

Definition matches_profile (e : RedisExplorer) (profile_id : ProfileId) (generation : ProfileGeneration) : bool :=
  match rx_profile e with
  | Some (active_id, active_generation) =>
      bool_decide (active_id = profile_id) && (active_generation =? generation)%N
  | None => false
  end.

(** The pending scan that a page or a failure answers. *)
Definition scan_of_page (e : RedisExplorer) (page : RedisKeyPage) : option PendingScan :=
  let identity := kp_identity page in
  pending ← rx_pending_scan e;
  if matches_profile e (ri_profile_id identity) (ri_profile_generation identity)
     && (sc_operation_id pending =? ri_operation_id identity)%N
  then Some pending else None.

Definition fails_scan (e : RedisExplorer) (request : RedisScanRequest) : bool :=
  let identity := rs_identity request in
  matches_profile e (ri_profile_id identity) (ri_profile_generation identity)
  && match rx_pending_scan e with
     | Some pending =>
         (sc_operation_id pending =? ri_operation_id identity)%N && (sc_cursor pending =? rs_cursor request)%N
     | None => false
     end.

Definition answers_inspect (e : RedisExplorer) (identity : RequestIdentity) (key : RedisKeyId) : bool :=
  matches_profile e (ri_profile_id identity) (ri_profile_generation identity)
  && match rx_pending_inspect e with
     | Some pending =>
         (in_operation_id pending =? ri_operation_id identity)%N && bool_decide (in_key pending = key)
     | None => false
     end.

Definition explorer_event (e : RedisExplorer) (event : UiEvent) : RedisExplorer :=
  match event with
  | RedisKeysLoaded page _ _ =>
      match scan_of_page e page with
      | Some pending =>
          let e :=
            if sc_restart pending
            then with_rx_inspect (with_rx_scan e (restart (rx_scan e) (sc_filter pending)) None (rx_scan_error e))
                   None None None None false
            else e in
          with_submit_error (with_rx_scan e (apply_page (rx_scan e) page) None None) None
      | None => e
      end
  | RedisKeysFailed request error _ _ _ =>
      if fails_scan e request then with_rx_scan e (mark_stale (rx_scan e)) None (Some error) else e
  | RedisKeyInspected preview _ _ =>
      if answers_inspect e (vp_identity preview) (ke_id (vp_key preview))
      then with_submit_error
             (with_rx_inspect e (Some (ke_id (vp_key preview))) (Some preview) None None (vp_stale preview)) None
      else e
  | RedisKeyInspectFailed request error _ _ _ =>
      if answers_inspect e (rk_identity request) (rk_key request)
      then with_rx_inspect e (rx_selected_key e) (rx_preview e) None (Some error)
             (bool_decide (is_Some (rx_preview e)))
      else e
  | ConfigUncertain _ =>
      let e := without_rx_pending e in
      let e := with_rx_scan e (mark_stale (rx_scan e)) None (rx_scan_error e) in
      let e := with_rx_inspect e (rx_selected_key e) (rx_preview e) None (rx_inspect_error e)
                 (bool_decide (is_Some (rx_preview e))) in
      submission_failed e (lit "Reload profiles before browsing Redis.")
  | RuntimeShutdown _ => without_rx_pending e
  | _ => e
  end.

(** ** What the buttons ask for *)

Definition current_filter (e : RedisExplorer) : RedisKeyFilter :=
  match rx_filter_mode e with
  | ModeLiteralPrefix => LiteralPrefix (rx_filter_text e)
  | ModeGlob => Glob (rx_filter_text e)
  end.

Definition filter_too_long (e : RedisExplorer) : bool := (MAX_REDIS_FILTER_BYTES <? str_len (rx_filter_text e))%N.

#[export] Instance RedisKeyFilter_eq : EqDecision RedisKeyFilter. Proof. solve_decision. Defined.

Definition page_filter_matches_draft (e : RedisExplorer) : bool :=
  bool_decide (ra_filter (rx_scan e) = current_filter e).

Definition load_more_intent (e : RedisExplorer) : option RedisExplorerIntent :=
  if negb (bool_decide (is_Some (rx_pending_scan e))) && negb (is_complete (rx_scan e))
     && negb (bool_decide (ra_keys (rx_scan e) = [])) && page_filter_matches_draft e
  then Some (IntentScan (ra_filter (rx_scan e)) (ra_next_cursor (rx_scan e)) false) else None.

(** One widget of [show], with what it is given. *)
Inductive ExplorerClick :=
| ClickFilterMode (mode : FilterMode)
| ClickFilterText (text : str)
| ClickRefresh
| ClickCancelScan
| ClickKey (index : nat)
| ClickLoadMore
| ClickCancelInspect
| ClickInspect.

(** [clicked] in [render_keys]. *)
Definition select_key (e : RedisExplorer) (key : RedisKeyId) : RedisExplorer :=
  if bool_decide (rx_selected_key e = Some key)
  then with_rx_inspect e (Some key) (rx_preview e) (rx_pending_inspect e) (rx_inspect_error e) (rx_inspect_stale e)
  else with_rx_inspect e (Some key) None (rx_pending_inspect e) None false.

(** What each button asks for; a disabled one asks for nothing. *)
Definition refresh_intent (e : RedisExplorer) (actions_enabled : bool) : option RedisExplorerIntent :=
  if actions_enabled && negb (bool_decide (is_Some (rx_pending_scan e))) && negb (filter_too_long e)
  then Some (IntentScan (current_filter e) 0 true) else None.

Definition cancel_scan_intent (e : RedisExplorer) : option RedisExplorerIntent :=
  pending ← rx_pending_scan e;
  if sc_cancel_requested pending then None else Some (IntentCancel (sc_operation_id pending)).

Definition cancel_inspect_intent (e : RedisExplorer) : option RedisExplorerIntent :=
  pending ← rx_pending_inspect e;
  if in_cancel_requested pending then None else Some (IntentCancel (in_operation_id pending)).

Definition inspect_intent (e : RedisExplorer) (actions_enabled : bool) : option RedisExplorerIntent :=
  key ← rx_selected_key e;
  if actions_enabled && negb (bool_decide (is_Some (rx_pending_inspect e))) then Some (IntentInspect key) else None.

(** What a click does and asks the application for. *)
Definition explorer_click (e : RedisExplorer) (actions_enabled : bool) (click : ExplorerClick) :
    RedisExplorer * option RedisExplorerIntent :=
  match click with
  | ClickFilterMode mode => (with_rx_draft e (rx_filter_text e) mode, None)
  | ClickFilterText text => (with_rx_draft e text (rx_filter_mode e), None)
  | ClickRefresh => (e, refresh_intent e actions_enabled)
  | ClickCancelScan => (e, cancel_scan_intent e)
  | ClickKey index =>
      match ra_keys (rx_scan e) !! index with
      | Some entry => (select_key e (ke_id entry), None)
      | None => (e, None)
      end
  | ClickLoadMore => (e, if actions_enabled then load_more_intent e else None)
  | ClickCancelInspect => (e, cancel_inspect_intent e)
  | ClickInspect => (e, inspect_intent e actions_enabled)
  end.

(** [chars().take]: the text that is shown, with an ellipsis where it was cut. *)
Definition bounded_text (value : str) (maximum_characters : nat) : str :=
  take maximum_characters value ++ (if bool_decide (drop maximum_characters value = []) then [] else [8230%N]).

(** ** One scan cycle *)

(** Everything of an accumulator but the stale mark. *)
Definition same_scan (a b : RedisScanAccumulator) : Prop :=
  ra_filter a = ra_filter b /\ ra_keys a = ra_keys b /\ ra_seen a = ra_seen b /\
  ra_next_cursor a = ra_next_cursor b /\ ra_requested a = ra_requested b /\
  ra_skipped_oversize a = ra_skipped_oversize b /\ ra_retained_bytes a = ra_retained_bytes b /\
  ra_truncated a = ra_truncated b.

#[export] Instance same_scan_equiv : Equivalence same_scan.
Proof.
  split; [by repeat split| |].
  - intros a b (?&?&?&?&?&?&?&?). by repeat split.
  - intros a b c (?&?&?&?&?&?&?&?) (?&?&?&?&?&?&?&?). repeat split; congruence.
Qed.

#[export] Instance apply_key_same : Proper (same_scan ==> eq ==> same_scan) apply_key.
Proof.
  intros a b (E1&E2&E3&E4&E5&E6&E7&E8) key ? <-. unfold apply_key. rewrite E2, E3, E4, E5, E6, E7, E8, E1.
  repeat case_match; by repeat split.
Qed.

#[export] Instance apply_page_same : Proper (same_scan ==> eq ==> same_scan) apply_page.
Proof.
  intros a b (E1&E2&E3&E4&E5&E6&E7&E8) page ? <-. unfold apply_page. rewrite E1, E2, E3, E6, E7, E8.
  match goal with |- same_scan (foldl _ ?x _) (foldl _ ?y _) => assert (same_scan x y) as H by by repeat split end.
  revert H. generalize (kp_keys page) as keys. intros keys.
  match goal with |- same_scan ?x ?y -> _ => generalize x, y end.
  induction keys as [|key keys IH]; intros x y H; cbn; [done|]. apply IH. by apply apply_key_same.
Qed.

Lemma mark_stale_same a : same_scan (mark_stale a) a.
Proof. by repeat split. Qed.

(** The list shows exactly these pages, read with this filter. *)
Definition shows (e : RedisExplorer) (filter : RedisKeyFilter) (pages : list RedisKeyPage) : Prop :=
  same_scan (rx_scan e) (foldl apply_page (RedisScanAccumulator_new filter) pages).

(** A preview belongs to the selected key, and only a preview can be stale. *)
Definition preview_ok (e : RedisExplorer) : Prop :=
  (forall preview, rx_preview e = Some preview -> rx_selected_key e = Some (ke_id (vp_key preview))) /\
  (rx_inspect_stale e = true -> is_Some (rx_preview e)).

(** The pages of the cycle after one event. *)
Definition next_cycle (e : RedisExplorer) (event : UiEvent) (cycle : RedisKeyFilter * list RedisKeyPage) :
    RedisKeyFilter * list RedisKeyPage :=
  match event with
  | RedisKeysLoaded page _ _ =>
      match scan_of_page e page with
      | Some pending => if sc_restart pending then (sc_filter pending, [page]) else (cycle.1, cycle.2 ++ [page])
      | None => cycle
      end
  | _ => cycle
  end.

(** What can happen to an explorer, with the pages it has accepted since its cycle began. *)
Inductive explorer_run : RedisExplorer -> RedisKeyFilter * list RedisKeyPage -> Prop :=
| XrOpened profile : explorer_run (set_explorer_profile RedisExplorer_default profile) (LiteralPrefix [], [])
| XrClick e cycle enabled click :
    explorer_run e cycle -> explorer_run (explorer_click e enabled click).1 cycle
| XrScan e cycle operation_id filter cursor restart :
    explorer_run e cycle -> explorer_run (begin_scan e operation_id filter cursor restart) cycle
| XrInspect e cycle operation_id key :
    explorer_run e cycle -> explorer_run (begin_inspect e operation_id key) cycle
| XrCancel e cycle operation_id : explorer_run e cycle -> explorer_run (cancel_submitted e operation_id) cycle
| XrFailed e cycle message : explorer_run e cycle -> explorer_run (submission_failed e message) cycle
| XrDismiss e cycle : explorer_run e cycle -> explorer_run (dismiss_errors e) cycle
| XrEvent e cycle event : explorer_run e cycle -> explorer_run (explorer_event e event) (next_cycle e event cycle).

Lemma restart_same acc filter : same_scan (restart acc filter) (RedisScanAccumulator_new filter).
Proof. done. Qed.

Lemma shows_same e e' filter pages : same_scan (rx_scan e') (rx_scan e) -> shows e filter pages -> shows e' filter pages.
Proof. unfold shows. by intros ->. Qed.

(** An event shows exactly the pages it leaves in the cycle. *)
Lemma event_shows e event filter pages :
  shows e filter pages ->
  shows (explorer_event e event) (next_cycle e event (filter, pages)).1 (next_cycle e event (filter, pages)).2.
Proof.
  intros H. destruct event; try exact H; cbn [explorer_event next_cycle].
  - destruct (scan_of_page e page) as [pending|]; [|exact H].
    destruct (sc_restart pending); cbn [fst snd]; unfold shows in *; cbn [rx_scan with_submit_error with_rx_scan with_rx_inspect];
      [reflexivity|]. rewrite foldl_app. cbn. by rewrite H.
  - case_match; [|exact H]. by apply (shows_same e).
  - by case_match.
  - by case_match.
Qed.

Lemma event_preview_ok e event : preview_ok e -> preview_ok (explorer_event e event).
Proof.
  intros [H1 H2]. destruct event; try (by split); cbn [explorer_event].
  - destruct (scan_of_page e page) as [pending|]; [|by split]. destruct (sc_restart pending); by split.
  - case_match; by split.
  - case_match; [|by split]. split; cbn; [by intros ? [= <-]|by eexists].
  - case_match; [|by split]. split; cbn; [done|]. by intros ?%bool_decide_eq_true.
  - split; cbn; [done|]. by intros ?%bool_decide_eq_true.
Qed.

Lemma click_scan e enabled click : rx_scan (explorer_click e enabled click).1 = rx_scan e.
Proof. destruct click; cbn; try done; repeat case_match; try done. unfold select_key. by case_match. Qed.

Lemma click_preview_ok e enabled click : preview_ok e -> preview_ok (explorer_click e enabled click).1.
Proof.
  intros Hok. destruct click; cbn; try exact Hok; try (repeat case_match; exact Hok).
  destruct (ra_keys (rx_scan e) !! index) as [entry|]; [|exact Hok]. destruct Hok as [H1 H2]. unfold select_key.
  destruct (bool_decide_reflect (rx_selected_key e = Some (ke_id entry))) as [Hk|Hk]; [|by split].
  split; cbn; [|done]. intros preview Hp. rewrite <- Hk. by apply H1.
Qed.

Lemma run_shows e cycle : explorer_run e cycle -> shows e cycle.1 cycle.2 /\ preview_ok e.
Proof.
  induction 1 as [profile|e cycle enabled click _ [IH1 IH2]|e cycle op filter cursor restart _ [IH1 IH2]
    |e cycle op key _ [IH1 IH2]|e cycle op _ [IH1 IH2]|e cycle message _ [IH1 IH2]|e cycle _ [IH1 IH2]
    |e cycle event _ [IH1 IH2]]; try (by split).
  - unfold set_explorer_profile. case_match; by repeat split.
  - split; [|by apply click_preview_ok]. apply (shows_same e); [|done]. by rewrite click_scan.
  - destruct cycle as [filter pages]. split; [by apply event_shows|by apply event_preview_ok].
Qed.

(** What an accumulator keeps of its pages beside the keys. *)
Lemma apply_keys_frame keys acc :
  ra_next_cursor (foldl apply_key acc keys) = ra_next_cursor acc /\
  ra_filter (foldl apply_key acc keys) = ra_filter acc /\ ra_requested (foldl apply_key acc keys) = ra_requested acc.
Proof.
  revert acc. induction keys as [|key keys IH]; intros acc; cbn; [done|]. destruct (IH (apply_key acc key)) as (-> & -> & ->).
  unfold apply_key. by repeat case_match.
Qed.

Lemma apply_pages_filter pages acc : ra_filter (foldl apply_page acc pages) = ra_filter acc.
Proof.
  revert acc. induction pages as [|page pages IH]; intros acc; cbn; [done|]. rewrite IH. unfold apply_page.
  by destruct (apply_keys_frame (kp_keys page)
    {| ra_filter := ra_filter acc; ra_keys := ra_keys acc; ra_seen := ra_seen acc;
       ra_next_cursor := kp_next_cursor page; ra_requested := true;
       ra_skipped_oversize := saturating_add (ra_skipped_oversize acc) (kp_skipped_oversize page);
       ra_retained_bytes := ra_retained_bytes acc;
       ra_truncated := ra_truncated acc || kp_truncated page || (0 <? kp_skipped_oversize page)%N;
       ra_stale := ra_stale acc || kp_stale page |}) as (_ & -> & _).
Qed.

Lemma cycle_cursor filter pages page :
  last pages = Some page ->
  let acc := foldl apply_page (RedisScanAccumulator_new filter) pages in
  ra_next_cursor acc = kp_next_cursor page /\ ra_requested acc = true.
Proof.
  intros (init & ->)%last_Some. cbn zeta. rewrite foldl_app. cbn [foldl]. unfold apply_page at 1 3.
  match goal with |- context [foldl apply_key ?acc ?keys] => destruct (apply_keys_frame keys acc) as (-> & _ & ->) end.
  done.
Qed.

(** C19: the list of the Redis explorer is a faithful account of one SCAN cycle. However clicks, submissions, retries, cancellations and events interleave, it holds exactly what the accumulator makes of the pages that were accepted since the last restart, in their order and for the filter of that restart; a page or failure of another operation or profile changes nothing of it. Load more asks for the cursor that the last of these pages returned, under the same filter, and only while the draft still shows that filter; a shown preview is always the selected key's, and only a shown preview is marked stale. *)
Theorem explorer_shows_cycle e filter pages :
  explorer_run e (filter, pages) ->
  shows e filter pages /\ preview_ok e /\
  forall intent, load_more_intent e = Some intent ->
    exists page, last pages = Some page /\ intent = IntentScan filter (kp_next_cursor page) false /\
      filter = current_filter e /\ kp_next_cursor page <> 0%N.
Proof.
  intros [Hs Hp]%run_shows. split; [exact Hs|]. split; [exact Hp|]. cbn [fst snd] in Hs. intros intent Hmore.
  unfold load_more_intent in Hmore. destruct (_ && _) eqn:E; [|done]. injection Hmore as <-.
  apply andb_true_iff in E as [E Hdraft]. apply andb_true_iff in E as [E Hkeys]. apply andb_true_iff in E as [_ Hmore].
  apply bool_decide_eq_true in Hdraft. destruct Hs as (E1 & E2 & _ & E4 & E5 & _).
  assert (ra_filter (foldl apply_page (RedisScanAccumulator_new filter) pages) = filter) as Hfilter by apply apply_pages_filter.
  destruct (last pages) as [page|] eqn:Hlast.
  - destruct (cycle_cursor filter _ _ Hlast) as [Hc Hr]. exists page. unfold is_complete in Hmore.
    rewrite E1, Hfilter in *. rewrite E4, E5, Hc, Hr in *. split_and!; [done|done|done|]. intros Hz. by rewrite Hz in Hmore.
  - apply last_None in Hlast as ->. cbn in E2. by rewrite E2 in Hkeys.
Qed.

(** ** An explorer at work: one page of a cycle that goes on *)

Definition sample_key_page : RedisKeyPage :=
  {| kp_identity := {| ri_profile_id := lit "r"; ri_profile_generation := 1; ri_operation_id := 5 |};
     kp_next_cursor := 3;
     kp_keys := [{| ke_id := encode (lit "user:1"); ke_key_base64 := lit "dXNlcjox"; ke_display := lit "user:1";
                    ke_hex := lit "757365723a31" |}];
     kp_retained_count := 1;
     kp_skipped_oversize := 0; kp_retained_bytes := 6; kp_consistency := Weak; kp_truncated := false;
     kp_stale := false |}.

Definition opened_explorer : RedisExplorer := set_explorer_profile RedisExplorer_default (Some (lit "r", 1%N)).

Definition loaded_explorer : RedisExplorer :=
  explorer_event (begin_scan opened_explorer 5 (LiteralPrefix []) 0 true) (RedisKeysLoaded sample_key_page 2 Keep).

Lemma explorer_shows_cycle_witness :
  load_more_intent loaded_explorer = Some (IntentScan (LiteralPrefix []) 3 false) /\
  shows loaded_explorer (LiteralPrefix []) [sample_key_page].
Proof.
  split; [vm_compute; reflexivity|].
  exact (proj1 (explorer_shows_cycle loaded_explorer (LiteralPrefix []) [sample_key_page]
    (XrEvent _ (LiteralPrefix [], []) (RedisKeysLoaded sample_key_page 2 Keep)
       (XrScan _ (LiteralPrefix [], []) 5 (LiteralPrefix []) 0 true (XrOpened (Some (lit "r", 1%N))))))).
Defined.
