(* ===== verification/RuntimeEvents.v ===== *)
(** * Failure events of the runtime (src/src/ui/runtime.rs)

    How a failed operation becomes an event: the public error with its recoveries,
    what the failure says about the connection, and what happens to the session.
    The theorems fold these events into the interface's model. *)

From S2P Require Import Prelude RustStr Model Secrets Profile Config Drivers Service PublicError RedisBrowser UiModel UiModelSafety.

(** ** Public errors *)

Definition public_global_error (kind : OperationKind) (operation_id : OperationId) (summary : PublicSummary)
    (code : PublicCode) : PublicOperationError :=
  new_or_internal kind summary code (CtxGlobal operation_id).

Definition public_draft_error (kind : OperationKind) (draft_id : DraftId) (operation_id : OperationId)
    (summary : PublicSummary) (code : PublicCode) : PublicOperationError :=
  new_or_internal kind summary code (CtxDraft draft_id operation_id).

Definition runtime_operation_has_retry_recipe (kind : OperationKind) : bool :=
  match kind with
  | ConnectProfile | ReconnectProfile | BrowseMySql | BrowseRedis | InspectRedis => true
  | _ => false
  end.

(** The recipe of an operation is numbered like the operation. *)
Definition profile_context (kind : OperationKind) (profile_id : ProfileId) (operation_id : OperationId) :
    SafeContext :=
  if runtime_operation_has_retry_recipe kind
  then CtxProfile profile_id operation_id None (Some operation_id)
  else CtxProfile profile_id operation_id None None.

Definition public_profile_error (kind : OperationKind) (profile_id : ProfileId) (operation_id : OperationId)
    (summary : PublicSummary) (code : PublicCode) : PublicOperationError :=
  new_or_internal kind summary code (profile_context kind profile_id operation_id).

Definition public_redis_resource_error := public_profile_error.

(** ** Events *)

Definition profiles_failed_event (operation_id : OperationId) (summary : PublicSummary) (code : PublicCode) :
    UiEvent :=
  ProfilesFailed operation_id summary (public_global_error ReloadConfiguration operation_id summary code).

Definition draft_failed_event (operation_id : OperationId) (draft_id : DraftId) (kind : OperationKind)
    (summary : PublicSummary) (code : PublicCode) : UiEvent :=
  let error := public_draft_error kind draft_id operation_id summary code in
  if bool_decide (kind = CreateProfile) then ProfileCreateFailed operation_id draft_id summary error
  else DraftOperationFailed operation_id draft_id summary error.

Definition profile_update_failed_event (operation_id : OperationId) (profile_id : ProfileId)
    (profile_generation : ProfileGeneration) (summary : PublicSummary) (code : PublicCode) : UiEvent :=
  ProfileUpdateFailed operation_id profile_id profile_generation summary
    (public_profile_error UpdateProfile profile_id operation_id summary code).

Definition credentials_store_failed_event_with_parts (operation_id : OperationId) (profile_id : ProfileId)
    (profile_generation : ProfileGeneration) (summary : PublicSummary) (code : PublicCode) : UiEvent :=
  let error := new_or_internal UpdateProfile summary code (CtxProfile profile_id operation_id None None) in
  CredentialsStoreFailed operation_id profile_id profile_generation (pe_summary error) error.

Definition credentials_store_failed_event (operation_id : OperationId) (profile_id : ProfileId)
    (profile_generation : ProfileGeneration) (service_error : ServiceError) : UiEvent :=
  let '(summary, code) := public_error_parts service_error in
  credentials_store_failed_event_with_parts operation_id profile_id profile_generation summary code.

Definition connection_outcome_for_summary (summary : PublicSummary) : ConnectionFailureOutcome :=
  match summary with
  | CredentialRequired => OutcomeNeedsCredential
  | AuthenticationFailed | NetworkUnavailable | TlsVerificationFailed => OutcomeDisconnected
  | OperationCancelled | OperationTimedOut => OutcomeUnknown
  | _ => Preserve
  end.

Definition connection_outcome_for_disposition (disposition : SessionDisposition) : ConnectionFailureOutcome :=
  match disposition with Keep => Preserve | Evict => OutcomeDisconnected end.

Inductive RedisResourceRequest := RrScan (request : RedisScanRequest) | RrInspect (request : RedisKeyInspectRequest).

Definition failed_redis_resource_event (request : RedisResourceRequest) (error : PublicOperationError)
    (session_generation : option SessionGeneration) (session_disposition : option SessionDisposition)
    (connection_outcome : ConnectionFailureOutcome) : UiEvent :=
  match request with
  | RrScan request => RedisKeysFailed request error session_generation session_disposition connection_outcome
  | RrInspect request => RedisKeyInspectFailed request error session_generation session_disposition connection_outcome
  end.

(** What becomes of the session of a failed operation that had one. *)
Definition disposition_for_summary (summary : PublicSummary) : SessionDisposition :=
  match summary with
  | CredentialRequired | AuthenticationFailed | NetworkUnavailable | TlsVerificationFailed | OperationCancelled
  | OperationTimedOut => Evict
  | _ => Keep
  end.

Definition failed_profile_event_with_code (operation_id : OperationId) (profile_id : ProfileId)
    (profile_generation : ProfileGeneration) (session_generation : option SessionGeneration) (kind : OperationKind)
    (summary : PublicSummary) (code : PublicCode) : UiEvent :=
  let connection_outcome := connection_outcome_for_summary summary in
  let session_disposition := (fun _ => disposition_for_summary summary) <$> session_generation in
  let error := public_profile_error kind profile_id operation_id summary code in
  OperationFailed operation_id profile_id profile_generation session_generation kind summary error
    session_disposition connection_outcome.

Definition failed_profile_event (operation_id : OperationId) (profile_id : ProfileId)
    (profile_generation : ProfileGeneration) (session_generation : option SessionGeneration) (kind : OperationKind)
    (summary : PublicSummary) : UiEvent :=
  failed_profile_event_with_code operation_id profile_id profile_generation session_generation kind summary PcNone.

Definition failed_from_service (operation_id : OperationId) (profile_id : ProfileId)
    (profile_generation : ProfileGeneration) (session_generation : option SessionGeneration) (kind : OperationKind)
    (error : ServiceError) : UiEvent :=
  let '(summary, code) := public_error_parts error in
  failed_profile_event_with_code operation_id profile_id profile_generation session_generation kind summary code.

Definition failed_profile_event_with_disposition (operation_id : OperationId) (profile_id : ProfileId)
    (profile_generation : ProfileGeneration) (session_generation : SessionGeneration) (kind : OperationKind)
    (summary : PublicSummary) (code : PublicCode) (session_disposition : SessionDisposition) : UiEvent :=
  let connection_outcome := connection_outcome_for_disposition session_disposition in
  let error := public_profile_error kind profile_id operation_id summary code in
  OperationFailed operation_id profile_id profile_generation (Some session_generation) kind summary error
    (Some session_disposition) connection_outcome.

(** The event of an execution whose driver call failed, and the disposition that
    decides whether the lease is evicted. *)
Definition execution_failed_event (operation_id : OperationId) (profile_id : ProfileId)
    (profile_generation : ProfileGeneration) (session_generation : SessionGeneration) (kind : OperationKind)
    (error : DriverError) : UiEvent :=
  let disposition := for_driver_error error in
  let '(summary, code) := public_error_parts (SeDriver error) in
  failed_profile_event_with_disposition operation_id profile_id profile_generation session_generation kind summary
    code disposition.

Definition catalog_failed_event_with_code (request : CatalogRequest) (summary : PublicSummary) (code : PublicCode)
    (session_generation : option SessionGeneration) (session_disposition : option SessionDisposition) : UiEvent :=
  let identity := cr_identity request in
  CatalogPageFailed request summary
    (public_profile_error BrowseMySql (ri_profile_id identity) (ri_operation_id identity) summary code)
    session_generation session_disposition.

Definition catalog_failed_event (request : CatalogRequest) (summary : PublicSummary)
    (session_generation : option SessionGeneration) (session_disposition : option SessionDisposition) : UiEvent :=
  catalog_failed_event_with_code request summary PcNone session_generation session_disposition.

Definition result_export_failed_event (operation_id : OperationId) (result_id : ResultId) (format : ExportFormat)
    (overwrite_policy : OverwritePolicy) (summary : PublicSummary) (code : PublicCode)
    (destination_committed : bool) : UiEvent :=
  ResultExportFailed operation_id result_id format overwrite_policy summary
    (new_or_internal OpExportResult summary code (CtxExport result_id operation_id destination_committed))
    destination_committed.

Inductive FailureContext :=
| FcProfile (profile_id : ProfileId) (profile_generation : ProfileGeneration) (kind : OperationKind)
| FcDraft (draft_id : DraftId) (kind : OperationKind)
| FcExport (result_id : ResultId) (format : ExportFormat) (overwrite_policy : OverwritePolicy)
| FcProfiles.

Definition internal_failure_event (operation_id : OperationId) (failure : FailureContext) : UiEvent :=
  match failure with
  | FcProfile profile_id profile_generation kind =>
      failed_profile_event operation_id profile_id profile_generation None kind InternalFailure
  | FcProfiles => profiles_failed_event operation_id InternalFailure PcNone
  | FcDraft draft_id kind => draft_failed_event operation_id draft_id kind InternalFailure PcNone
  | FcExport result_id format overwrite_policy =>
      result_export_failed_event operation_id result_id format overwrite_policy InternalFailure PcNone false
  end.

Definition commit_warning (state : CommitState) : option PublicSummary :=
  match state with
  | NotCommitted => Some ConfigWriteNotCommitted
  | Committed => None
  | CommittedDurabilityUnknown => Some SumCommittedDurabilityUnknown
  end.

Definition duration_from_millis (timeout_ms : N) : Duration := (N.max timeout_ms 1 * 1000000)%N.

(** ** Failures seen by the user *)

(** No failed execution is offered for a retry. *)
Lemma execution_never_retried kind profile_id operation_id summary code recipe :
  kind = ExecuteRead \/ kind = ExecuteMutation ->
  Retry recipe ∉ as_slice (pe_recovery (public_profile_error kind profile_id operation_id summary code)).
Proof.
  intros Hkind. unfold public_profile_error, new_or_internal, PublicOperationError_new, recovery_for.
  destruct (recovery_for_with_fact _ _ _ _ _) as [actions|] eqn:Hrec; cbn [mbind result_bind].
  - cbn [pe_recovery]. by apply recovery_is_safe in Hrec as (_ & _ & Hretry); apply Hretry.
  - unfold as_slice. cbn. by intros [[=]|[[=]|[]%not_elem_of_nil]%elem_of_cons]%elem_of_cons.
Qed.

Lemma exact_workspace_same m p g f :
  exact_workspace (exact_workspace_mut m p g f) p g = f (exact_workspace m p g).
Proof. unfold exact_workspace. cbn. by rewrite lookup_insert_eq. Qed.

(** The fold of a failed execution, for every error of a driver. *)
Lemma execution_failed_fold m operation_id p g session_generation kind error :
  kind = ExecuteRead \/ kind = ExecuteMutation ->
  event_is_current m p g = true ->
  ws_pending_execute (exact_workspace m p g) = Some operation_id ->
  let shown := public_profile_error kind p operation_id (public_summary (SeDriver error)) (public_code (SeDriver error)) in
  let m' := fold m (execution_failed_event operation_id p g session_generation kind error) in
  exact_workspace m' p g =
    with_execution (exact_workspace m p g) None (ws_result (exact_workspace m p g))
      (ws_result_view (exact_workspace m p g)) (Some shown) /\
  pe_summary shown = (if unlisted_on_execute error then InternalFailure else public_summary (SeDriver error)) /\
  (forall recipe, Retry recipe ∉ as_slice (pe_recovery shown)) /\
  um_status m' = summary_message (pe_summary shown) /\
  um_connection_states m' !! p =
    match um_connection_states m !! p, for_driver_error error with
    | Some (Pending pending), Evict => if (pending =? operation_id)%N then Some Disconnected else Some (Pending pending)
    | _, Evict => Some Disconnected
    | state, Keep => state
    end.
Proof.
  intros Hkind Hcur Hpending shown m'.
  assert (Hshown : pe_summary shown = if unlisted_on_execute error then InternalFailure else public_summary (SeDriver error)).
  { unfold shown, public_profile_error. destruct Hkind as [-> | ->]; apply execute_error_shown; auto. }
  assert (Hretry : forall recipe, Retry recipe ∉ as_slice (pe_recovery shown)).
  { intros recipe. by apply execution_never_retried. }
  assert (Hm' : m' = let failed := show_message (exact_workspace_mut m p g (fun w =>
      with_execution w None (ws_result w) (ws_result_view w) (Some shown))) (pe_summary shown) in
    if match um_connection_states m !! p with Some (Pending pending) => (pending =? operation_id)%N | _ => true end
    then apply_outcome failed p (connection_outcome_for_disposition (for_driver_error error)) else failed).
  { unfold m', execution_failed_event. cbn [fold public_error_parts failed_profile_event_with_disposition].
    unfold fold_operation_failed. rewrite Hcur. cbn [negb]. unfold fold_failed_kind.
    destruct Hkind as [-> | ->];
      rewrite Hpending, (bool_decide_true (Some operation_id = Some operation_id)) by done; reflexivity. }
  rewrite Hm'. clear Hm' m'. cbn zeta.
  set (failed := show_message _ _). set (outcome := connection_outcome_for_disposition _).
  set (correlated := match um_connection_states m !! p with Some (Pending pending) => _ | _ => _ end).
  assert (Hws : exact_workspace failed p g = with_execution (exact_workspace m p g) None
    (ws_result (exact_workspace m p g)) (ws_result_view (exact_workspace m p g)) (Some shown))
    by exact (exact_workspace_same m p g _).
  assert (Hst : um_status failed = summary_message (pe_summary shown)) by done.
  assert (Hcs : um_connection_states failed = um_connection_states m) by done.
  clearbody failed. split_and!; try done.
  - rewrite <- Hws. by destruct correlated, outcome.
  - rewrite <- Hst. by destruct correlated, outcome.
  - unfold correlated, outcome. destruct (um_connection_states m !! p) as [[| pending | | | |]|] eqn:Hstate,
      (for_driver_error error); cbn; try destruct (pending =? operation_id)%N; cbn;
      rewrite ?lookup_insert_eq, ?Hcs, ?Hstate; done.
Qed.

(** C31: when the driver call of the pending execution fails, whatever the error: the
    workspace stops waiting, keeps its last result and shows one error; nothing in that
    error offers to run the statement again; the status line says what the error says;
    and the profile is shown as disconnected exactly when the failure evicts the session,
    unless another connection attempt is pending.  When the recovery matrix has a row
    for the error ([unlisted_on_execute] is false), what is shown is the summary that the
    driver's error has ([public_summary], which counts what a server rejects as a failure
    of the network).  The exceptions are the permission and
    authentication errors of a server and a request refused by the catalog, for which
    the matrix has no row on execution: they are not shown as what they are
    ([denied_execution_shown_as_internal]). *)
Theorem execution_failure_shown m operation_id p g session_generation kind error :
  kind = ExecuteRead \/ kind = ExecuteMutation ->
  event_is_current m p g = true ->
  ws_pending_execute (exact_workspace m p g) = Some operation_id ->
  let m' := fold m (execution_failed_event operation_id p g session_generation kind error) in
  (exists shown,
     exact_workspace m' p g =
       with_execution (exact_workspace m p g) None (ws_result (exact_workspace m p g))
         (ws_result_view (exact_workspace m p g)) (Some shown) /\
     (unlisted_on_execute error = false -> pe_summary shown = public_summary (SeDriver error)) /\
     (forall recipe, Retry recipe ∉ as_slice (pe_recovery shown)) /\
     um_status m' = summary_message (pe_summary shown)) /\
  um_connection_states m' !! p =
    match um_connection_states m !! p, for_driver_error error with
    | Some (Pending pending), Evict => if (pending =? operation_id)%N then Some Disconnected else Some (Pending pending)
    | _, Evict => Some Disconnected
    | state, Keep => state
    end.
Proof.
  intros Hkind Hcur Hpending m'.
  destruct (execution_failed_fold m operation_id p g session_generation kind error Hkind Hcur Hpending)
    as (Hws & Hsummary & Hretry & Hstatus & Hstate).
  split; [|exact Hstate]. eexists. split_and!; [exact Hws| |exact Hretry|exact Hstatus].
  intros Hlisted. rewrite Hsummary. by rewrite Hlisted.
Qed.

(** An execution that the server denies is shown as an internal failure: the driver's
    error is a denied permission, but carries a code for which the recovery matrix has no
    row on execution. *)
Theorem denied_execution_shown_as_internal m operation_id p g session_generation kind error :
  kind = ExecuteRead \/ kind = ExecuteMutation ->
  event_is_current m p g = true ->
  ws_pending_execute (exact_workspace m p g) = Some operation_id ->
  is_mysql_permission_denied error = true ->
  public_summary (SeDriver error) = PermissionDenied /\
  um_status (fold m (execution_failed_event operation_id p g session_generation kind error)) =
    summary_message InternalFailure.
Proof.
  intros Hkind Hcur Hpending Hdenied.
  destruct (execution_failed_fold m operation_id p g session_generation kind error Hkind Hcur Hpending)
    as (_ & Hsummary & _ & Hstatus & _). split.
  - change (public_summary (SeDriver error)) with (driver_summary error). unfold driver_summary. rewrite Hdenied.
    by destruct error.
  - rewrite Hstatus, Hsummary. unfold unlisted_on_execute. by rewrite Hdenied.
Qed.

(** The server refuses the pending statement (1142, state 42000). *)
Definition select_denied : DriverError := DeMySql (SqlxDatabase 1142 (Some (lit "42000"))).

Definition executing_model : UiModel :=
  workspace_mut sample_model (lit "b", 4%N) (fun w => with_execution w (Some 9%N) None ResultViewState_default None).

(** A statement with a syntax error (1064) is taken for a failure of the network. *)
Example syntax_error_is_network :
  public_summary (SeDriver (DeMySql (SqlxDatabase 1064 (Some (lit "42000"))))) = NetworkUnavailable.
Proof. vm_compute. reflexivity. Qed.

Example select_denied_shown :
  public_summary (SeDriver select_denied) = PermissionDenied /\
  um_status (fold executing_model (execution_failed_event 9 (lit "b") 4 1 ExecuteRead select_denied)) =
    summary_message InternalFailure.
Proof. split; vm_compute; reflexivity. Qed.

(** The pending statement runs out of time. *)
Lemma execution_failure_shown_witness :
  let m' := fold executing_model (execution_failed_event 9 (lit "b") 4 1 ExecuteRead (DeTimeout Model.MySql 30)) in
  um_connection_states m' !! lit "b" = Some Disconnected /\ um_status m' = summary_message OperationTimedOut.
Proof.
  cbn zeta. destruct (execution_failure_shown executing_model 9 (lit "b") 4 1 ExecuteRead (DeTimeout Model.MySql 30))
    as [(shown & _ & Hsummary & _ & Hstatus) Hstate].
  - by left.
  - vm_compute. reflexivity.
  - vm_compute. reflexivity.
  - split; [rewrite Hstate; vm_compute; reflexivity|]. rewrite Hstatus, Hsummary; reflexivity.
Defined.
