(* ===== verification/DraftTests.v ===== *)
(** * Connection tests of drafts (src/src/service.rs, src/src/ui/adapter.rs, src/src/ui/runtime.rs)

    A test of an unsaved profile: the request the form prepares, the credential it
    may use, the temporary session, and the event that ends the test.  The theorem
    says that a test leaves the service as it was. *)

From S2P Require Import Prelude RustStr Model Secrets Profile Config ConfigWriter Drivers Service ServiceLogic.
From S2P Require Import ServiceWriter ServiceEffects PublicError UiModel RuntimeEvents.

(** ** Requests *)

Inductive DraftCredentialSource :=
| SourceSessionKeep (secret : SessionSecret)
| SourceSessionReplace (secret : SessionSecret)
| SourceEnvironmentResolved (secret : SessionSecret).

Record TestDraftRequest := {
  td_draft_id : DraftId;
  td_operation_id : OperationId;
  td_draft : ConnectionDraft;
  td_credential_source : option DraftCredentialSource;
  td_timeout : Duration;
}.

Definition without_credential (draft_id : DraftId) (operation_id : OperationId) (draft : ConnectionDraft)
    (timeout : Duration) : TestDraftRequest :=
  {| td_draft_id := draft_id; td_operation_id := operation_id; td_draft := draft; td_credential_source := None;
     td_timeout := timeout |}.

Definition with_credential (draft_id : DraftId) (operation_id : OperationId) (draft : ConnectionDraft)
    (source : DraftCredentialSource) (timeout : Duration) : TestDraftRequest :=
  {| td_draft_id := draft_id; td_operation_id := operation_id; td_draft := draft;
     td_credential_source := Some source; td_timeout := timeout |}.

(** What the form asks for (adapter.rs). *)
Inductive DraftTestIntent :=
| IntentSecretless (draft_id : DraftId) (operation_id : OperationId) (draft : ConnectionDraft) (timeout : Duration)
| IntentSessionReplace (draft_id : DraftId) (operation_id : OperationId) (draft : ConnectionDraft)
    (secret : SessionSecret) (timeout : Duration)
| IntentSessionKeep (profile_id : ProfileId) (profile_generation : ProfileGeneration) (draft_id : DraftId)
    (operation_id : OperationId) (draft : ConnectionDraft) (timeout : Duration)
| IntentEnvironment (draft_id : DraftId) (operation_id : OperationId) (draft : ConnectionDraft) (timeout : Duration).

Definition di_draft_id (i : DraftTestIntent) : DraftId :=
  match i with
  | IntentSecretless draft_id _ _ _ | IntentSessionReplace draft_id _ _ _ _
  | IntentSessionKeep _ _ draft_id _ _ _ | IntentEnvironment draft_id _ _ _ => draft_id
  end.

Definition di_operation_id (i : DraftTestIntent) : OperationId :=
  match i with
  | IntentSecretless _ operation_id _ _ | IntentSessionReplace _ operation_id _ _ _
  | IntentSessionKeep _ _ _ operation_id _ _ | IntentEnvironment _ operation_id _ _ => operation_id
  end.

(** ** Preparation *)

Section env.
Context (env : Env).

Definition validate_draft (draft : ConnectionDraft) : Sv ServiceError unit :=
  sv_lift (map_err SeInvalidProfile (validate_connection_draft (ca_files env) draft)).

Definition prepare_secretless_draft_test (draft_id : DraftId) (operation_id : OperationId)
    (draft : ConnectionDraft) (timeout : Duration) : Sv ServiceError TestDraftRequest :=
  ensure_config_certain ;;
  mret (without_credential draft_id operation_id draft timeout).

Definition prepare_replacement_draft_test (draft_id : DraftId) (operation_id : OperationId)
    (draft : ConnectionDraft) (replacement : ReplacementSecretBuffer) (timeout : Duration) :
    Sv ServiceError TestDraftRequest :=
  ensure_config_certain ;;
  validate_draft draft ;;
  if negb (bool_decide (d_credential_mode draft = CredSession))
  then sv_throw (SeInvalidProfile (field_error FCredentialMode))
  else
    secret ← sv_lift (map_err (fun _ => SeDraftCredentialRequired draft_id operation_id PcSessionCredential)
                        (copy_for_test replacement));
    mret (with_credential draft_id operation_id draft (SourceSessionReplace secret) timeout).

Definition prepare_replacement_secret_draft_test (draft_id : DraftId) (operation_id : OperationId)
    (draft : ConnectionDraft) (secret : SessionSecret) (timeout : Duration) : Sv ServiceError TestDraftRequest :=
  ensure_config_certain ;;
  validate_draft draft ;;
  if negb (bool_decide (d_credential_mode draft = CredSession))
  then sv_throw (SeInvalidProfile (field_error FCredentialMode))
  else mret (with_credential draft_id operation_id draft (SourceSessionReplace secret) timeout).

Definition prepare_keep_current_draft_test (profile_id : ProfileId) (expected_generation : ProfileGeneration)
    (draft_id : DraftId) (operation_id : OperationId) (draft : ConnectionDraft) (timeout : Duration) :
    Sv ServiceError TestDraftRequest :=
  ensure_config_certain ;;
  acquire_lane ;;
  ensure_config_certain ;;
  ensure_generation profile_id expected_generation operation_id ;;
  persisted ← profile profile_id;
  if negb (bool_decide (p_credential_mode persisted = CredSession))
     || negb (bool_decide (d_credential_mode draft = CredSession))
  then sv_throw (SeInvalidProfile (field_error FCredentialMode))
  else if negb (same_keep_test_connection persisted draft)
  then sv_throw (SeDraftCredentialRequired draft_id operation_id PcSessionCredential)
  else
    s ← sv_get;
    stored ← sv_lift (map_err SeSecret (clone_for_profile (sv_secrets s) profile_id));
    secret ← sv_lift (ok_or stored (SeDraftCredentialRequired draft_id operation_id PcSessionCredential));
    mret (with_credential draft_id operation_id draft (SourceSessionKeep secret) timeout).

Definition prepare_environment_draft_test (draft_id : DraftId) (operation_id : OperationId)
    (draft : ConnectionDraft) (timeout : Duration) : Sv ServiceError TestDraftRequest :=
  ensure_config_certain ;;
  validate_draft draft ;;
  if negb (bool_decide (d_credential_mode draft = CredEnvironment))
  then sv_throw (SeSecret InvalidSessionIntent)
  else
    name ← sv_lift (ok_or (d_secret_env draft)
                      (SeDraftCredentialRequired draft_id operation_id PcCredentialEnvironmentName));
    secret ← sv_lift (map_err (fun _ => SeDraftCredentialRequired draft_id operation_id PcCredentialEnvironmentName)
                        (resolve_environment (environment env) name));
    mret (with_credential draft_id operation_id draft (SourceEnvironmentResolved secret) timeout).

(** runtime.rs: the error names the draft and the operation it belongs to. *)
Definition prepare_draft_test_intent (intent : DraftTestIntent) :
    Sv (DraftId * OperationId * ServiceError) TestDraftRequest :=
  let draft_id := di_draft_id intent in
  let operation_id := di_operation_id intent in
  sv_map_err (fun error => (draft_id, operation_id, error))
    match intent with
    | IntentSecretless _ _ draft timeout => prepare_secretless_draft_test draft_id operation_id draft timeout
    | IntentSessionReplace _ _ draft secret timeout =>
        prepare_replacement_secret_draft_test draft_id operation_id draft secret timeout
    | IntentSessionKeep profile_id profile_generation _ _ draft timeout =>
        prepare_keep_current_draft_test profile_id profile_generation draft_id operation_id draft timeout
    | IntentEnvironment _ _ draft timeout => prepare_environment_draft_test draft_id operation_id draft timeout
    end.

(** ** The temporary session *)

Record DraftSessionLease := {
  dl_draft_id : DraftId;
  dl_operation_id : OperationId;
  dl_profile : ConnectionProfile;
  dl_timeout : Duration;
  dl_handle : SessionHandle;
}.

(** The credential a test connects with: one that fits the draft's mode. *)
Definition draft_secret (request : TestDraftRequest) : result ServiceError (option SessionSecret) :=
  let required := SeDraftCredentialRequired (td_draft_id request) (td_operation_id request) in
  match d_credential_mode (td_draft request), td_credential_source request with
  | CredNone, None => Ok None
  | CredNone, Some _ => Err (SeSecret InvalidSessionIntent)
  | CredSession, Some (SourceSessionKeep secret | SourceSessionReplace secret)
  | CredEnvironment, Some (SourceEnvironmentResolved secret) => Ok (Some secret)
  | CredSession, Some _ | CredEnvironment, Some _ => Err (SeSecret InvalidSessionIntent)
  | CredSession, None => Err (required PcSessionCredential)
  | CredEnvironment, None => Err (required PcCredentialEnvironmentName)
  end.

Definition draft_profile (request : TestDraftRequest) : ConnectionProfile :=
  from_draft (lit "draft-" ++ display_N (td_draft_id request)) (td_draft request).

Context (connect : ConnectionProfile -> option SessionSecret -> result DriverError SessionHandle).

Definition acquire_draft_session (request : TestDraftRequest) : Sv ServiceError DraftSessionLease :=
  ensure_config_certain ;;
  validate_draft (td_draft request) ;;
  secret ← sv_lift (draft_secret request);
  let profile := draft_profile request in
  sv_lift (map_err SeDriver (ensure_ready profile)) ;;
  sv_lift (map_err SeDriver (ensure_connector_tls_support (supports_redis_tls env) profile)) ;;
  temporary ← sv_lift (map_err (connection_error profile) (connect profile secret));
  mret {| dl_draft_id := td_draft_id request; dl_operation_id := td_operation_id request; dl_profile := profile;
          dl_timeout := td_timeout request; dl_handle := temporary |}.

Record DraftTestOutcome := {
  to_draft_id : DraftId;
  to_operation_id : OperationId;
  to_driver : DriverKind;
  to_endpoint : str;
  to_elapsed_ms : N;
}.

(** The command line's test: [ping] and [close] are the replies of the driver, [others]
    what happens to the service while they are awaited. *)
Definition test_draft_connection (request : TestDraftRequest) (ping close : result DriverError unit)
    (others : Service -> Service) (elapsed_ms : N) : Sv ServiceError DraftTestOutcome :=
  temporary ← acquire_draft_session request;
  sv_step (fun s => (tt, close_handle (others s) (dl_handle temporary))) ;;
  ensure_config_certain ;;
  sv_lift (map_err SeDriver ping) ;;
  sv_lift (map_err SeDriver close) ;;
  mret {| to_draft_id := dl_draft_id temporary; to_operation_id := dl_operation_id temporary;
          to_driver := p_driver (dl_profile temporary); to_endpoint := redacted_endpoint (dl_profile temporary);
          to_elapsed_ms := elapsed_ms |}.
End env.

(** ** The test as a task of the runtime (runtime.rs) *)

(** The end of [tokio::select!] over a cancellation, a deadline and a future. *)
Inductive Race (A : Type) := RaceCancelled | RaceTimedOut | RaceDone (a : A).
Arguments RaceCancelled {A}.
Arguments RaceTimedOut {A}.
Arguments RaceDone {A} a.

Definition draft_test_failed (operation_id : OperationId) (draft_id : DraftId) (parts : PublicSummary * PublicCode) :
    UiEvent :=
  draft_failed_event operation_id draft_id TestDraftConnection parts.1 parts.2.

(** What the drivers and the other tasks do while a test is awaited: how the two
    races end ([None] is a panic of the driver), the reply to [close], the time the
    test took, and the changes of the service before the [n]-th await ends. *)
Record DraftRun := {
  dr_acquire : Race unit;
  dr_ping : Race (option (result DriverError unit));
  dr_close : result DriverError unit;
  dr_elapsed_ms : N;
  dr_others : nat -> Service -> Service;
}.

(** The first error of a test with a session: of the ping, then of the close.  A
    panic has none, it is resumed. *)
Definition draft_attempt_error (run : DraftRun) : option (option (PublicSummary * PublicCode)) :=
  let close_error :=
    match dr_close run with Err error => Some (public_error_parts (SeDriver error)) | Ok _ => None end in
  match dr_ping run with
  | RaceCancelled => Some (Some (OperationCancelled, PcNone))
  | RaceTimedOut => Some (Some (OperationTimedOut, PcNone))
  | RaceDone (Some (Err error)) => Some (Some (public_error_parts (SeDriver error)))
  | RaceDone (Some (Ok _)) => Some close_error
  | RaceDone None => None
  end.

(** [None] is the resumed panic: the task ends without an event. *)
Definition run_draft_work (env : Env)
    (connect : ConnectionProfile -> option SessionSecret -> result DriverError SessionHandle)
    (run : DraftRun) (request : TestDraftRequest) (s : Service) : option UiEvent * Service :=
  let operation_id := td_operation_id request in
  let draft_id := td_draft_id request in
  let failed := draft_test_failed operation_id draft_id in
  match dr_acquire run with
  | RaceCancelled => (Some (failed (OperationCancelled, PcNone)), dr_others run 0 s)
  | RaceTimedOut => (Some (failed (OperationTimedOut, PcNone)), dr_others run 0 s)
  | RaceDone _ =>
      match acquire_draft_session env connect request (dr_others run 0 s) with
      | (Err error, s) => (Some (failed (public_error_parts error)), s)
      | (Ok lease, s) =>
          let s := close_handle (dr_others run 1 s) (dl_handle lease) in
          (error ← draft_attempt_error run;
           Some match error with
                | Some parts => failed parts
                | None =>
                    if sv_uncertain s then failed (ResourceStale, PcConfigExternalChange)
                    else DraftConnectionReady (dl_operation_id lease) (dl_draft_id lease) (dr_elapsed_ms run)
                end, s)
      end
  end.

(** The task that [start_draft_work] spawns for an intent of the form. *)
Definition run_draft_intent (env : Env)
    (connect : ConnectionProfile -> option SessionSecret -> result DriverError SessionHandle)
    (run : DraftRun) (intent : DraftTestIntent) (s : Service) : option UiEvent * Service :=
  match prepare_draft_test_intent env intent s with
  | (Ok request, s) => run_draft_work env connect run request s
  | (Err (failed_draft, failed_operation, error), s) =>
      (Some (draft_test_failed failed_operation failed_draft (public_error_parts error)), s)
  end.

(** ** A test stays in its scope *)

Definition di_draft (i : DraftTestIntent) : ConnectionDraft :=
  match i with
  | IntentSecretless _ _ draft _ | IntentSessionReplace _ _ draft _ _
  | IntentSessionKeep _ _ _ _ draft _ | IntentEnvironment _ _ draft _ => draft
  end.

Definition di_profile (i : DraftTestIntent) : ConnectionProfile :=
  from_draft (lit "draft-" ++ display_N (di_draft_id i)) (di_draft i).

(** The credential an intent may send.  A stored secret goes nowhere but to the
    connection it is stored for. *)
Definition allowed_credential (env : Env) (intent : DraftTestIntent) (s : Service)
    (secret : option SessionSecret) : Prop :=
  match intent with
  | IntentSecretless _ _ draft _ => d_credential_mode draft = CredNone /\ secret = None
  | IntentSessionReplace _ _ draft given _ => d_credential_mode draft = CredSession /\ secret = Some given
  | IntentSessionKeep profile_id generation _ _ draft _ =>
      exists persisted stored,
        generations s !! profile_id = Some generation /\
        Service.find_profile (profiles s) profile_id = Some persisted /\
        same_keep_test_connection persisted draft = true /\
        ss_values (sv_secrets s) !! profile_id = Some stored /\ secret = Some stored
  | IntentEnvironment _ _ draft _ =>
      d_credential_mode draft = CredEnvironment /\
      exists name value, d_secret_env draft = Some name /\
        resolve_environment (environment env) name = Ok value /\ secret = Some value
  end.

(** Preparing a test and acquiring its session read the service only. *)
Lemma prepare_reads env intent : Respects eq (prepare_draft_test_intent env intent).
Proof.
  unfold prepare_draft_test_intent, prepare_secretless_draft_test, prepare_replacement_secret_draft_test,
    prepare_keep_current_draft_test, prepare_environment_draft_test, validate_draft.
  respects_by fail.
Qed.

Lemma acquire_draft_reads env connect request : Respects eq (acquire_draft_session env connect request).
Proof. unfold acquire_draft_session, validate_draft. respects_by fail. Qed.

Lemma prepare_Err env intent s d o e s' :
  prepare_draft_test_intent env intent s = (Err (d, o, e), s') -> d = di_draft_id intent /\ o = di_operation_id intent.
Proof.
  unfold prepare_draft_test_intent, sv_map_err. set (m := match intent with IntentSecretless _ _ _ _ => _ | _ => _ end).
  destruct (m s) as [[request|error] s1]; cbn; [done|]. by intros [= <- <- _ _].
Qed.

Lemma prepare_Ok env intent s request s' :
  prepare_draft_test_intent env intent s = (Ok request, s') ->
  td_draft_id request = di_draft_id intent /\ td_operation_id request = di_operation_id intent /\
  td_draft request = di_draft intent /\
  (forall secret, draft_secret request = Ok secret -> allowed_credential env intent s secret).
Proof.
  intros H%sv_map_err_Ok. destruct intent; cbn in H |- *.
  - unfold prepare_secretless_draft_test in H. sv_inv. split_and!; try done. intros secret. unfold draft_secret. cbn.
    destruct (d_credential_mode draft); try done. by intros [= <-].
  - unfold prepare_replacement_secret_draft_test in H. sv_inv. case_bool_decide as Hmode; [|done]. cbn in H. sv_inv.
    split_and!; try done. intros chosen. unfold draft_secret. cbn. rewrite Hmode. by intros [= <-].
  - unfold prepare_keep_current_draft_test in H. sv_inv.
    repeat match goal with
    | H : ensure_config_certain _ = _ |- _ => apply ensure_config_certain_Ok in H as [-> _]
    | H : acquire_lane _ = _ |- _ => apply acquire_lane_Ok in H as ->
    | H : ensure_generation _ _ _ _ = _ |- _ => apply ensure_generation_Ok in H as [-> ?]
    | H : Service.profile _ _ = _ |- _ => apply profile_Ok in H as [-> ?]
    end.
    case_bool_decide; [|done]. case_bool_decide as Hmode; [|done]. cbn in H.
    destruct (same_keep_test_connection _ _) eqn:Hsame; [|done]. cbn in H. sv_inv.
    match goal with H : sv_get _ = _ |- _ => injection H as <- <- end.
    split_and!; try done. intros chosen. unfold draft_secret. cbn. rewrite Hmode. intros [= <-].
    unfold clone_for_profile, read_values in *. destruct (ss_poisoned (sv_secrets s)); [done|]. cbn in *.
    destruct (ss_values (sv_secrets s) !! profile_id) as [stored|] eqn:Hstored; simplify_eq/=. eauto 10.
  - unfold prepare_environment_draft_test in H. sv_inv. case_bool_decide as Hmode; [|done]. cbn in H. sv_inv.
    split_and!; try done. intros chosen. unfold draft_secret. cbn. rewrite Hmode. intros [= <-].
    destruct (d_secret_env draft) as [name|]; [|done].
    match goal with H : map_err _ (resolve_environment _ _) = Ok _ |- _ => apply map_err_Ok in H end.
    simplify_eq/=. eauto 10.
Qed.

Lemma acquire_draft_Ok env connect request s lease s' :
  acquire_draft_session env connect request s = (Ok lease, s') ->
  s' = s /\ dl_draft_id lease = td_draft_id request /\ dl_operation_id lease = td_operation_id request /\
  exists secret, draft_secret request = Ok secret /\ connect (draft_profile request) secret = Ok (dl_handle lease).
Proof.
  intros H. pose proof (acquire_draft_reads env connect request s) as Hs. rewrite H in Hs. cbn in Hs. subst s'.
  unfold acquire_draft_session, validate_draft in H. sv_inv. split_and!; try done.
  match goal with H : map_err _ _ = Ok ?h |- _ => apply map_err_Ok in H end. eauto.
Qed.

(** The driver is asked about the draft and the allowed credential only. *)
Lemma acquire_draft_asks env connect connect' request s :
  (forall secret, draft_secret request = Ok secret ->
     connect' (draft_profile request) secret = connect (draft_profile request) secret) ->
  acquire_draft_session env connect' request s = acquire_draft_session env connect request s.
Proof.
  intros Hsame. unfold acquire_draft_session, mbind, Sv_bind, sv_lift.
  destruct (ensure_config_certain s) as [[[]|e] s0]; [|done].
  destruct (validate_draft env (td_draft request) s0) as [[[]|e] s1]; [|done].
  destruct (draft_secret request) as [secret|] eqn:Hsecret; [|done]. by rewrite Hsame.
Qed.

Lemma draft_attempt_ok run :
  draft_attempt_error run = Some None -> dr_ping run = RaceDone (Some (Ok tt)) /\ dr_close run = Ok tt.
Proof.
  unfold draft_attempt_error. destruct (dr_ping run) as [| |[[[]|]|]]; try done.
  by destruct (dr_close run) as [[]|].
Qed.

Lemma draft_test_failed_event operation_id draft_id parts :
  draft_test_failed operation_id draft_id parts =
  DraftOperationFailed operation_id draft_id parts.1
    (public_draft_error TestDraftConnection draft_id operation_id parts.1 parts.2).
Proof. reflexivity. Qed.

(** C17: a connection test of a draft touches nothing but its draft.  Its only event is
    about its own draft and operation, and there is one unless the driver panics.  The
    driver is asked at most about the draft itself with the credential its intent
    allows, so a stored credential is sent to the connection it is stored for only.
    The service is left as the other tasks leave it, but for the temporary session,
    which is closed; and the test succeeds only when that session was opened, the ping
    and the close succeeded and the configuration is still certain. *)
Theorem draft_test_scope env connect run intent s event s' :
  run_draft_intent env connect run intent s = (event, s') ->
  let profile := di_profile intent in
  let opened handle := exists secret,
    allowed_credential env intent s secret /\ connect profile secret = Ok handle in
  let closed handle := s' = close_handle (dr_others run 1 (dr_others run 0 s)) handle in
  (s' = s \/ s' = dr_others run 0 s \/ exists handle, opened handle /\ closed handle) /\
  match event with
  | Some (DraftConnectionReady operation_id draft_id _) =>
      operation_id = di_operation_id intent /\ draft_id = di_draft_id intent /\
      dr_ping run = RaceDone (Some (Ok tt)) /\ dr_close run = Ok tt /\ sv_uncertain s' = false /\
      exists handle, opened handle /\ closed handle
  | Some (DraftOperationFailed operation_id draft_id _ _) =>
      operation_id = di_operation_id intent /\ draft_id = di_draft_id intent
  | Some _ => False
  | None => dr_ping run = RaceDone None
  end /\
  (forall connect', (forall secret, allowed_credential env intent s secret -> connect' profile secret = connect profile secret) ->
     run_draft_intent env connect' run intent s = (event, s')).
Proof.
  unfold run_draft_intent. pose proof (prepare_reads env intent s) as Hs0.
  destruct (prepare_draft_test_intent env intent s) as [[request|[[d o] error]] s0] eqn:Hprepare; cbn in Hs0; subst s0.
  2: { apply prepare_Err in Hprepare as [-> ->]. intros [= <- <-]. rewrite draft_test_failed_event. auto. }
  apply prepare_Ok in Hprepare as (Hd & Ho & Hdraft & Hallowed).
  assert (draft_profile request = di_profile intent) as Hprofile.
  { unfold draft_profile, di_profile. by rewrite Hd, Hdraft. }
  unfold run_draft_work. cbn zeta. destruct (dr_acquire run); [intros [= <- <-]; rewrite draft_test_failed_event, Hd, Ho; by auto..|].
  intros Hrun. split_and!; [| |intros connect' Hsame; rewrite <- Hrun, (acquire_draft_asks env connect connect');
    [done|intros; rewrite Hprofile; auto]].
  all: pose proof (acquire_draft_reads env connect request (dr_others run 0 s)) as Hs1;
    destruct (acquire_draft_session _ _ _ _) as [[lease|error] s1] eqn:Hacquire; cbn in Hs1; subst s1;
    [|injection Hrun as <- <-; rewrite ?draft_test_failed_event, ?Hd, ?Ho; by auto].
  all: apply acquire_draft_Ok in Hacquire as (_ & Hld & Hlo & secret & Hsecret & Hconnect); rewrite Hprofile in Hconnect;
    injection Hrun as <- <-.
  - do 2 right. exists (dl_handle lease). split; [by exists secret; auto|done].
  - destruct (draft_attempt_error run) as [[parts|]|] eqn:Herror; cbn [mbind option_bind]; [rewrite draft_test_failed_event, Hd, Ho; by auto| |].
    + destruct (sv_uncertain (dr_others run 1 (dr_others run 0 s))) eqn:Huncertain; cbn [close_handle sv_uncertain]; rewrite Huncertain;
        [rewrite draft_test_failed_event, Hd, Ho; by auto|].
      rewrite Hlo, Hld, Hd, Ho. apply draft_attempt_ok in Herror as [-> ->].
      split_and!; try done. exists (dl_handle lease). split; [by exists secret; auto|done].
    + unfold draft_attempt_error in Herror. by destruct (dr_ping run) as [| |[[]|]].
Qed.

(** A stored credential tests the connection it is stored for. *)
Definition sample_draft_run : DraftRun :=
  {| dr_acquire := RaceDone tt; dr_ping := RaceDone (Some (Ok tt)); dr_close := Ok tt; dr_elapsed_ms := 5;
     dr_others := fun _ s => s |}.

Definition session_draft : ConnectionDraft :=
  {| d_name := lit "P"; d_driver := Redis; d_host := lit "h"; d_port := 6379; d_database := Some (lit "0");
     d_username := None; d_tls := Disabled; d_credential_mode := CredSession; d_secret_env := None;
     d_redis_tls := redis_tls_default |}.

Definition session_service : Service :=
  from_validated_loaded
    {| lc_config := {| cfg_version := 2; cfg_profiles := [from_draft (lit "p") session_draft] |};
       lc_source_version := SourceV2; lc_migration_required := false; lc_original_bytes := None;
       lc_fingerprint := None |} sample_store.

Definition sample_connect (profile : ConnectionProfile) (secret : option SessionSecret) :
    result DriverError SessionHandle :=
  if bool_decide (secret = Some (lit "old")) then Ok 40%N else Err (DeRedis RedisIo).

Lemma draft_test_scope_witness :
  let intent := IntentSessionKeep (lit "p") 1 7 9 session_draft 1000 in
  (run_draft_intent sample_env sample_connect sample_draft_run intent session_service).1 =
    Some (DraftConnectionReady 9 7 5) /\
  exists handle secret,
    allowed_credential sample_env intent session_service secret /\
    sample_connect (di_profile intent) secret = Ok handle /\
    (run_draft_intent sample_env sample_connect sample_draft_run intent session_service).2 =
      close_handle session_service handle.
Proof.
  cbn zeta. set (intent := IntentSessionKeep _ _ _ _ _ _).
  assert (Hevent : (run_draft_intent sample_env sample_connect sample_draft_run intent session_service).1 =
    Some (DraftConnectionReady 9 7 5)) by (vm_compute; reflexivity).
  split; [exact Hevent|].
  destruct (draft_test_scope sample_env sample_connect sample_draft_run intent session_service _ _
    (surjective_pairing _)) as (_ & H & _).
  rewrite Hevent in H. destruct H as (_ & _ & _ & _ & _ & handle & (secret & Hallowed & Hconnect) & Hclosed).
  exists handle, secret. auto.
Defined.
