(* ===== verification/Tokio.v ===== *)
(** * Channels and semaphores (the crate tokio)

    What the runtime uses of tokio's synchronisation primitives, as an interface:
    [Tokio] has the operations and what they can be observed by, [TokioLaws] their
    documented behaviour, and [queues] is an instance. *)

From S2P Require Import Prelude.

Inductive TrySendError := Full | Closed.

Class Tokio := {
  (** [mpsc]: a queue with a capacity, or without one for [unbounded_channel] *)
  mpsc : Type -> Type;
  mpsc_channel {A} : option nat -> mpsc A;
  try_send {A} : A -> mpsc A -> result TrySendError unit * mpsc A;
  (** [try_reserve] and what is done with the permit: it is sent on or dropped *)
  try_reserve {A} : mpsc A -> result TrySendError unit * mpsc A;
  permit_send {A} : A -> mpsc A -> mpsc A;
  permit_drop {A} : mpsc A -> mpsc A;
  try_recv {A} : mpsc A -> option A * mpsc A;
  mpsc_close {A} : mpsc A -> mpsc A;
  queued {A} : mpsc A -> list A;
  reserved {A} : mpsc A -> nat;
  capacity {A} : mpsc A -> option nat;
  is_closed {A} : mpsc A -> bool;
  (** [Semaphore], with the permits that [try_acquire_owned] takes and a drop returns *)
  semaphore : Type;
  semaphore_new : nat -> semaphore;
  try_acquire : semaphore -> option semaphore;
  release : semaphore -> semaphore;
  available_permits : semaphore -> nat;
}.

Definition has_room `{Tokio} {A} (c : mpsc A) : Prop :=
  match capacity c with Some n => length (queued c) + reserved c < n | None => True end.

#[export] Instance has_room_dec `{Tokio} {A} (c : mpsc A) : Decision (has_room c).
Proof. unfold has_room. destruct (capacity c); apply _. Defined.

(** What a failed send leaves and reports. *)
Definition refused `{Tokio} {A} (c : mpsc A) : option TrySendError :=
  if is_closed c then Some Closed else if decide (has_room c) then None else Some Full.

(** The parts of a channel that an operation leaves alone. *)
Definition same_channel `{Tokio} {A} (c c' : mpsc A) : Prop :=
  capacity c' = capacity c /\ is_closed c' = is_closed c.

Class TokioLaws (T : Tokio) : Prop := {
  channel_new A n : let c : mpsc A := mpsc_channel n in
    queued c = [] /\ reserved c = 0 /\ capacity c = n /\ is_closed c = false;
  try_send_refused A (a : A) c e : refused c = Some e -> try_send a c = (Err e, c);
  try_send_sent A (a : A) c : refused c = None ->
    exists c', try_send a c = (Ok tt, c') /\ queued c' = queued c ++ [a] /\ reserved c' = reserved c /\ same_channel c c';
  try_reserve_refused A (c : mpsc A) e : refused c = Some e -> try_reserve c = (Err e, c);
  try_reserve_done A (c : mpsc A) : refused c = None ->
    exists c', try_reserve c = (Ok tt, c') /\ queued c' = queued c /\ reserved c' = S (reserved c) /\ same_channel c c';
  permit_sent A (a : A) c : reserved c <> 0 ->
    queued (permit_send a c) = queued c ++ [a] /\ S (reserved (permit_send a c)) = reserved c /\
    same_channel c (permit_send a c);
  permit_dropped A (c : mpsc A) : reserved c <> 0 ->
    queued (permit_drop c) = queued c /\ S (reserved (permit_drop c)) = reserved c /\ same_channel c (permit_drop c);
  try_recv_empty A (c : mpsc A) : queued c = [] -> try_recv c = (None, c);
  try_recv_some A (c : mpsc A) a rest : queued c = a :: rest ->
    exists c', try_recv c = (Some a, c') /\ queued c' = rest /\ reserved c' = reserved c /\ same_channel c c';
  mpsc_closed A (c : mpsc A) : queued (mpsc_close c) = queued c /\ reserved (mpsc_close c) = reserved c /\
    capacity (mpsc_close c) = capacity c /\ is_closed (mpsc_close c) = true;
  semaphore_full n : available_permits (semaphore_new n) = n;
  try_acquire_none s : try_acquire s = None <-> available_permits s = 0;
  try_acquire_some s s' : try_acquire s = Some s' -> available_permits s = S (available_permits s');
  release_one s : available_permits (release s) = S (available_permits s);
}.

(** Receiving until the queue is empty. *)
Fixpoint drain `{Tokio} {A} (fuel : nat) (c : mpsc A) : mpsc A :=
  match fuel with
  | 0 => c
  | S fuel => match try_recv c with (Some _, c) => drain fuel c | (None, c) => c end
  end.

Section laws.
Context `{T : Tokio} {laws : TokioLaws T}.

(** As many receptions as messages empty the queue. *)
Lemma drain_queued {A} (c : mpsc A) : queued (drain (length (queued c)) c) = [].
Proof using laws.
  remember (queued c) as q eqn:Hq. revert c Hq.
  induction q as [|a q IH]; intros c Hq; cbn; [done|].
  destruct (try_recv_some A c a q (eq_sym Hq)) as (c' & -> & Hq' & _). by apply IH.
Qed.

(** Sending only appends. *)
Lemma try_send_queued {A} (a : A) c :
  queued (try_send a c).2 = queued c ++ (if (try_send a c).1 is Ok _ then [a] else []).
Proof using laws.
  destruct (refused c) as [e|] eqn:He.
  - rewrite (try_send_refused A a c e He). cbn. by rewrite app_nil_r.
  - destruct (try_send_sent A a c He) as (c' & -> & Hq & _). exact Hq.
Qed.

Lemma try_send_iff {A} (a : A) c : is_ok (try_send a c).1 = true <-> refused c = None.
Proof using laws.
  destruct (refused c) as [e|] eqn:He.
  - by rewrite (try_send_refused A a c e He).
  - by destruct (try_send_sent A a c He) as (c' & -> & _).
Qed.

Lemma try_recv_queued {A} (c : mpsc A) : queued c = option_list (try_recv c).1 ++ queued (try_recv c).2.
Proof using laws.
  destruct (queued c) as [|a rest] eqn:Hq.
  - rewrite (try_recv_empty A c Hq). cbn. by rewrite Hq.
  - by destruct (try_recv_some A c a rest Hq) as (c' & -> & <- & _).
Qed.
End laws.

(** ** An instance *)

Record Queue (A : Type) := { qu_items : list A; qu_reserved : nat; qu_capacity : option nat; qu_closed : bool }.
Arguments Build_Queue {A}.
Arguments qu_items {A}.
Arguments qu_reserved {A}.
Arguments qu_capacity {A}.
Arguments qu_closed {A}.

Definition queue_with {A} (c : Queue A) (items : list A) (reserved : nat) : Queue A :=
  {| qu_items := items; qu_reserved := reserved; qu_capacity := qu_capacity c; qu_closed := qu_closed c |}.

Definition queue_refused {A} (c : Queue A) : option TrySendError :=
  if qu_closed c then Some Closed
  else match qu_capacity c with
       | Some n => if decide (length (qu_items c) + qu_reserved c < n) then None else Some Full
       | None => None
       end.

#[export] Instance queues : Tokio := {|
  mpsc := Queue;
  mpsc_channel A n := {| qu_items := []; qu_reserved := 0; qu_capacity := n; qu_closed := false |};
  try_send A a c :=
    match queue_refused c with
    | Some e => (Err e, c)
    | None => (Ok tt, queue_with c (qu_items c ++ [a]) (qu_reserved c))
    end;
  try_reserve A c :=
    match queue_refused c with
    | Some e => (Err e, c)
    | None => (Ok tt, queue_with c (qu_items c) (S (qu_reserved c)))
    end;
  permit_send A a c := queue_with c (qu_items c ++ [a]) (pred (qu_reserved c));
  permit_drop A c := queue_with c (qu_items c) (pred (qu_reserved c));
  try_recv A c :=
    match qu_items c with
    | [] => (None, c)
    | a :: rest => (Some a, queue_with c rest (qu_reserved c))
    end;
  mpsc_close A c :=
    {| qu_items := qu_items c; qu_reserved := qu_reserved c; qu_capacity := qu_capacity c; qu_closed := true |};
  queued A := qu_items; reserved A := qu_reserved; capacity A := qu_capacity; is_closed A := qu_closed;
  semaphore := nat; semaphore_new n := n;
  try_acquire s := match s with 0 => None | S n => Some n end;
  release := S; available_permits s := s;
|}.

Lemma queue_refused_spec {A} (c : Queue A) : queue_refused c = refused (H := queues) (A := A) c.
Proof.
  unfold queue_refused, refused, has_room, has_room_dec. cbn. destruct (qu_closed c); [done|].
  destruct (qu_capacity c); [done|]. by destruct (decide True).
Qed.

#[export] Instance queues_laws : TokioLaws queues.
Proof.
  split; intros; cbn in *; rewrite ?queue_refused_spec; try done.
  all: try match goal with H : refused _ = _ |- _ => rewrite H end; try (by eexists; split_and!).
  all: try (split_and!; [done|cbn; lia|done..]).
  - by destruct (qu_items c) eqn:E.
  - match goal with H : qu_items c = _ |- _ => rewrite H end. by eexists.
  - by destruct s.
  - destruct s; simplify_eq. done.
Qed.
