(* ===== verification/CommandPorts.v ===== *)
(** * The ports between the interface and the runtime (src/src/ui/adapter.rs)

    Commands travel on three bounded lanes and a shutdown signal, events on a bounded
    queue back.  Control commands are coalesced: a key is held from their submission
    to the event that answers them. *)

From S2P Require Import Prelude RustStr Model Secrets Config Drivers Service RedisBrowser UiModel RuntimeEvents DraftTests Tokio.

(** ** Commands *)

(** export_file.rs *)
Record FileIdentity := {
  fi_device : N; fi_inode : N; fi_size : N; fi_modified_seconds : Z; fi_modified_nanoseconds : Z;
}.

Record ConfirmedDestination := { cd_path : str; cd_identity : FileIdentity }.

(** model.rs; the snapshot is shared, never written through. *)
Record ExportResult := {
  er_result_id : ResultId;
  er_operation_id : OperationId;
  er_snapshot : ResultSnapshot;
  er_format : ExportFormat;
  er_destination : str;
  er_overwrite_policy : OverwritePolicy;
}.

Inductive UiCommand :=
| CmdRefreshProfiles (operation_id : OperationId)
| CmdCreateProfile (request : CreateProfileRequest)
| CmdUpdateProfile (request : UpdateProfileRequest)
| CmdDeleteProfile (request : DeleteProfileRequest)
| CmdStoreCredentials (operation_id : OperationId) (profile_id : ProfileId) (profile_generation : ProfileGeneration)
    (source_operation : OperationKind) (secret : SessionSecret)
| CmdTestConnection (operation_id : OperationId) (profile_id : ProfileId) (profile_generation : ProfileGeneration)
    (timeout_ms : N)
| CmdTestDraftConnection (request : TestDraftRequest)
| CmdPrepareDraftConnectionTest (intent : DraftTestIntent)
| CmdExecute (operation_id : OperationId) (profile_id : ProfileId) (profile_generation : ProfileGeneration)
    (language : QueryLanguage) (text : str) (row_limit timeout_ms : N)
| CmdBrowseCatalog (request : CatalogRequest)
| CmdScanRedisKeys (request : RedisScanRequest)
| CmdInspectRedisKey (request : RedisKeyInspectRequest)
| CmdExportResult (request : ExportResult) (confirmation : option ConfirmedDestination)
| CmdCancelOperation (operation_id : OperationId)
| CmdDisconnectProfile (operation_id : OperationId) (profile_id : ProfileId) (profile_generation : ProfileGeneration)
| CmdReconnectProfile (operation_id : OperationId) (profile_id : ProfileId) (profile_generation : ProfileGeneration)
    (timeout_ms : N)
| CmdShutdownRuntime (operation_id : OperationId).

Definition cmd_operation_id (c : UiCommand) : OperationId :=
  match c with
  | CmdRefreshProfiles operation_id | CmdTestConnection operation_id _ _ _ | CmdExecute operation_id _ _ _ _ _ _
  | CmdCancelOperation operation_id | CmdDisconnectProfile operation_id _ _
  | CmdReconnectProfile operation_id _ _ _ | CmdStoreCredentials operation_id _ _ _ _
  | CmdShutdownRuntime operation_id => operation_id
  | CmdBrowseCatalog request => ri_operation_id (cr_identity request)
  | CmdScanRedisKeys request => ri_operation_id (rs_identity request)
  | CmdInspectRedisKey request => ri_operation_id (rk_identity request)
  | CmdExportResult request _ => er_operation_id request
  | CmdCreateProfile request => cp_operation_id request
  | CmdUpdateProfile request => up_operation_id request
  | CmdDeleteProfile request => dp_operation_id request
  | CmdTestDraftConnection request => td_operation_id request
  | CmdPrepareDraftConnectionTest intent => di_operation_id intent
  end.

Inductive CommandLane := LaneWork | LaneMutation | LaneControl | LaneShutdown.
#[export] Instance CommandLane_eq : EqDecision CommandLane. Proof. solve_decision. Defined.

Definition cmd_lane (c : UiCommand) : CommandLane :=
  match c with
  | CmdRefreshProfiles _ | CmdCreateProfile _ | CmdUpdateProfile _ | CmdDeleteProfile _
  | CmdStoreCredentials _ _ _ _ _ => LaneMutation
  | CmdTestConnection _ _ _ _ | CmdTestDraftConnection _ | CmdPrepareDraftConnectionTest _
  | CmdExecute _ _ _ _ _ _ _ | CmdBrowseCatalog _ | CmdScanRedisKeys _ | CmdInspectRedisKey _
  | CmdExportResult _ _ => LaneWork
  | CmdCancelOperation _ | CmdDisconnectProfile _ _ _ | CmdReconnectProfile _ _ _ _ => LaneControl
  | CmdShutdownRuntime _ => LaneShutdown
  end.

Inductive ControlKey :=
| KeyCancel (operation_id : OperationId)
| KeyDisconnect (profile_id : ProfileId) (profile_generation : ProfileGeneration)
| KeyReconnect (profile_id : ProfileId) (profile_generation : ProfileGeneration).
#[export] Instance ControlKey_eq : EqDecision ControlKey. Proof. solve_decision. Defined.
#[export] Instance ControlKey_countable : Countable ControlKey.
Proof.
  refine (inj_countable'
    (fun k => match k with
              | KeyCancel o => inl o
              | KeyDisconnect p g => inr (inl (p, g))
              | KeyReconnect p g => inr (inr (p, g))
              end : N + ((list N * N) + (list N * N)))
    (fun k => match k with
              | inl o => KeyCancel o
              | inr (inl (p, g)) => KeyDisconnect p g
              | inr (inr (p, g)) => KeyReconnect p g
              end) _).
  by intros [].
Defined.

Definition control_key (c : UiCommand) : option ControlKey :=
  match c with
  | CmdCancelOperation operation_id => Some (KeyCancel operation_id)
  | CmdDisconnectProfile _ profile_id profile_generation => Some (KeyDisconnect profile_id profile_generation)
  | CmdReconnectProfile _ profile_id profile_generation _ => Some (KeyReconnect profile_id profile_generation)
  | _ => None
  end.

(** ** Ports *)

Inductive SubmitError := SubmitBusy | SubmitDisconnected.
#[export] Instance SubmitError_eq : EqDecision SubmitError. Proof. solve_decision. Defined.

Definition WORK_CAPACITY : nat := 32.
Definition MUTATION_CAPACITY : nat := 16.
Definition CONTROL_CAPACITY : nat := 16.
Definition EVENT_CAPACITY : nat := 128.

Section ports.
Context `{T : Tokio}.

(** The channels that [UiPort] and [ServicePort] share.  The shutdown signal is a
    [watch] channel: its last value, and whether the receiver is gone. *)
Record Ports := {
  po_work : mpsc UiCommand;
  po_mutation : mpsc UiCommand;
  po_control : mpsc UiCommand;
  po_shutdown : option OperationId;
  po_shutdown_gone : bool;
  po_events : mpsc UiEvent;
  po_keys : gset ControlKey;
  po_keys_poisoned : bool;
}.

Definition set_work (p : Ports) (x : mpsc UiCommand) : Ports :=
  {| po_work := x; po_mutation := po_mutation p; po_control := po_control p; po_shutdown := po_shutdown p;
     po_shutdown_gone := po_shutdown_gone p; po_events := po_events p; po_keys := po_keys p;
     po_keys_poisoned := po_keys_poisoned p |}.
Definition set_mutation (p : Ports) (x : mpsc UiCommand) : Ports :=
  {| po_work := po_work p; po_mutation := x; po_control := po_control p; po_shutdown := po_shutdown p;
     po_shutdown_gone := po_shutdown_gone p; po_events := po_events p; po_keys := po_keys p;
     po_keys_poisoned := po_keys_poisoned p |}.
Definition set_control (p : Ports) (x : mpsc UiCommand) : Ports :=
  {| po_work := po_work p; po_mutation := po_mutation p; po_control := x; po_shutdown := po_shutdown p;
     po_shutdown_gone := po_shutdown_gone p; po_events := po_events p; po_keys := po_keys p;
     po_keys_poisoned := po_keys_poisoned p |}.
Definition set_shutdown (p : Ports) (x : option OperationId) : Ports :=
  {| po_work := po_work p; po_mutation := po_mutation p; po_control := po_control p; po_shutdown := x;
     po_shutdown_gone := po_shutdown_gone p; po_events := po_events p; po_keys := po_keys p;
     po_keys_poisoned := po_keys_poisoned p |}.
Definition set_events (p : Ports) (x : mpsc UiEvent) : Ports :=
  {| po_work := po_work p; po_mutation := po_mutation p; po_control := po_control p; po_shutdown := po_shutdown p;
     po_shutdown_gone := po_shutdown_gone p; po_events := x; po_keys := po_keys p;
     po_keys_poisoned := po_keys_poisoned p |}.
Definition set_keys (p : Ports) (x : gset ControlKey) : Ports :=
  {| po_work := po_work p; po_mutation := po_mutation p; po_control := po_control p; po_shutdown := po_shutdown p;
     po_shutdown_gone := po_shutdown_gone p; po_events := po_events p; po_keys := x;
     po_keys_poisoned := po_keys_poisoned p |}.

Definition ports_with_capacities (work_capacity mutation_capacity control_capacity event_capacity : nat) : Ports :=
  {| po_work := mpsc_channel (Some work_capacity); po_mutation := mpsc_channel (Some mutation_capacity);
     po_control := mpsc_channel (Some control_capacity); po_shutdown := None; po_shutdown_gone := false;
     po_events := mpsc_channel (Some event_capacity); po_keys := ∅; po_keys_poisoned := false |}.

Definition controller_ports : Ports :=
  ports_with_capacities WORK_CAPACITY MUTATION_CAPACITY CONTROL_CAPACITY EVENT_CAPACITY.

Definition bounded_ports (capacity : nat) : Ports :=
  let capacity := Nat.max capacity 1 in
  ports_with_capacities capacity capacity capacity capacity.

(** ** The interface's side *)

Definition map_try_send_error (e : TrySendError) : SubmitError :=
  match e with Full => SubmitBusy | Closed => SubmitDisconnected end.

Definition lane_send (lane : mpsc UiCommand) (command : UiCommand) : result SubmitError unit * mpsc UiCommand :=
  let '(sent, lane) := try_send command lane in (map_err map_try_send_error sent, lane).

Definition try_submit (command : UiCommand) (p : Ports) : result SubmitError unit * Ports :=
  match cmd_lane command with
  | LaneWork => let '(r, lane) := lane_send (po_work p) command in (r, set_work p lane)
  | LaneMutation => let '(r, lane) := lane_send (po_mutation p) command in (r, set_mutation p lane)
  | LaneControl =>
      match control_key command with
      | None => (Err SubmitDisconnected, p)
      | Some key =>
          if po_keys_poisoned p then (Err SubmitDisconnected, p)
          else if decide (key ∈ po_keys p) then (Ok tt, p)
          else
            let p := set_keys p ({[ key ]} ∪ po_keys p) in
            match lane_send (po_control p) command with
            | (Err error, lane) => let p := set_control p lane in (Err error, set_keys p (po_keys p ∖ {[ key ]}))
            | (Ok _, lane) => (Ok tt, set_control p lane)
            end
      end
  | LaneShutdown =>
      match command with
      | CmdShutdownRuntime operation_id =>
          if po_shutdown_gone p then (Err SubmitDisconnected, p)
          else (Ok tt, set_shutdown p (Some operation_id))
      | _ => (Err SubmitDisconnected, p)
      end
  end.

(** [ShutdownRequester::request_shutdown]: without an operation of the model's. *)
Definition request_shutdown (p : Ports) : result SubmitError unit * Ports :=
  if po_shutdown_gone p then (Err SubmitDisconnected, p) else (Ok tt, set_shutdown p (Some U64_MAX)).

Definition try_reserve_mutation (p : Ports) : result SubmitError unit * Ports :=
  let '(reserved, lane) := try_reserve (po_mutation p) in
  (map_err map_try_send_error reserved, set_mutation p lane).

(** [MutationSubmitPermit::submit]; a permit that is not used is dropped. *)
Definition permit_submit (command : UiCommand) (p : Ports) : result SubmitError unit * Ports :=
  if negb (bool_decide (cmd_lane command = LaneMutation))
  then (Err SubmitDisconnected, set_mutation p (permit_drop (po_mutation p)))
  else (Ok tt, set_mutation p (permit_send command (po_mutation p))).

(** The command is built, and its secret taken, once the lane is reserved. *)
Definition try_submit_with (build : unit -> UiCommand) (p : Ports) : result SubmitError unit * Ports :=
  match try_reserve_mutation p with
  | (Err error, p) => (Err error, p)
  | (Ok _, p) => permit_submit (build tt) p
  end.

Fixpoint drain_events (limit : nat) (p : Ports) : list UiEvent * Ports :=
  match limit with
  | 0 => ([], p)
  | S limit =>
      match try_recv (po_events p) with
      | (Some event, events) =>
          let '(rest, p) := drain_events limit (set_events p events) in (event :: rest, p)
      | (None, events) => ([], set_events p events)
      end
  end.

(** ** The runtime's side *)

(** The first command in the order control, mutation, work. *)
Definition next_command (p : Ports) : option UiCommand * Ports :=
  match try_recv (po_control p) with
  | (Some command, lane) => (Some command, set_control p lane)
  | (None, _) =>
      match try_recv (po_mutation p) with
      | (Some command, lane) => (Some command, set_mutation p lane)
      | (None, _) =>
          match try_recv (po_work p) with
          | (Some command, lane) => (Some command, set_work p lane)
          | (None, _) => (None, p)
          end
      end
  end.

Definition release_control_key (key : ControlKey) (p : Ports) : Ports :=
  if po_keys_poisoned p then p else set_keys p (po_keys p ∖ {[ key ]}).
End ports.

(** The operation an event ends. *)
Definition event_operation_id (event : UiEvent) : OperationId :=
  match event with
  | ProfilesLoaded operation_id _ _ | ProfilesFailed operation_id _ _ | ProfileSaved operation_id _ _ _ _ _
  | ProfileCreateFailed operation_id _ _ _ | ProfileUpdateFailed operation_id _ _ _ _
  | CredentialsStored operation_id _ _ | CredentialsStoreFailed operation_id _ _ _ _
  | ConnectionReady operation_id _ _ _ _ | ConnectionClosed operation_id _ _ _
  | DraftConnectionReady operation_id _ _ | DraftOperationFailed operation_id _ _ _
  | QueryFinished operation_id _ _ _ _ | ResultExported operation_id _ _ _ _ _
  | ResultExportFailed operation_id _ _ _ _ _ _ | OperationFailed operation_id _ _ _ _ _ _ _ _
  | ExecuteUnavailable operation_id _ _ _ | ProfileDeleted operation_id _ _ _ | ConfigUncertain operation_id
  | RuntimeShutdown operation_id => operation_id
  | CatalogPageLoaded page _ _ => ri_operation_id (cp_identity page)
  | CatalogPageFailed request _ _ _ _ => ri_operation_id (cr_identity request)
  | RedisKeysLoaded page _ _ => ri_operation_id (kp_identity page)
  | RedisKeysFailed request _ _ _ _ => ri_operation_id (rs_identity request)
  | RedisKeyInspected preview _ _ => ri_operation_id (vp_identity preview)
  | RedisKeyInspectFailed request _ _ _ _ => ri_operation_id (rk_identity request)
  end.

(** The connection control that an event answers. *)
Definition event_profile_key (event : UiEvent) : option ControlKey :=
  match event with
  | ConnectionReady _ profile_id profile_generation _ _ => Some (KeyReconnect profile_id profile_generation)
  | ConnectionClosed _ profile_id profile_generation _ => Some (KeyDisconnect profile_id profile_generation)
  | OperationFailed _ profile_id profile_generation _ kind _ _ _ _ =>
      match kind with
      | DisconnectProfile => Some (KeyDisconnect profile_id profile_generation)
      | ReconnectProfile => Some (KeyReconnect profile_id profile_generation)
      | _ => None
      end
  | _ => None
  end.

(** The keys that an event releases. *)
Definition released_by (event : UiEvent) : gset ControlKey :=
  {[ KeyCancel (event_operation_id event) ]} ∪
  match event_profile_key event with Some key => {[ key ]} | None => ∅ end.

Section service_port.
Context `{T : Tokio}.

Definition release_for_event (event : UiEvent) (p : Ports) : Ports :=
  if po_keys_poisoned p then p else set_keys p (po_keys p ∖ released_by event).

(** The keys are released even when the queue of events is full and drops the event. *)
Definition try_emit (event : UiEvent) (p : Ports) : bool * Ports :=
  let p := release_for_event event p in
  let '(sent, events) := try_send event (po_events p) in
  (is_ok sent, set_events p events).

Definition close_lane (lane : mpsc UiCommand) : mpsc UiCommand :=
  drain (length (queued lane)) (mpsc_close lane).

Definition close_and_drain (p : Ports) : Ports :=
  set_control (set_mutation (set_work p (close_lane (po_work p))) (close_lane (po_mutation p)))
    (close_lane (po_control p)).
End service_port.

(** ** What a submission does *)

Definition lane_queue `{T : Tokio} (p : Ports) (lane : CommandLane) : list UiCommand :=
  match lane with
  | LaneWork => queued (po_work p)
  | LaneMutation => queued (po_mutation p)
  | LaneControl => queued (po_control p)
  | LaneShutdown => []
  end.

(** Why a lane does not take a command. *)
Definition lane_refuses `{T : Tokio} (p : Ports) (lane : CommandLane) : option SubmitError :=
  match lane with
  | LaneWork => map_try_send_error <$> refused (po_work p)
  | LaneMutation => map_try_send_error <$> refused (po_mutation p)
  | LaneControl => map_try_send_error <$> refused (po_control p)
  | LaneShutdown => if po_shutdown_gone p then Some SubmitDisconnected else None
  end.

Definition coalesced `{T : Tokio} (command : UiCommand) (p : Ports) : Prop :=
  exists key, control_key command = Some key /\ key ∈ po_keys p.

Definition held_keys (command : UiCommand) : gset ControlKey :=
  match control_key command with Some key => {[ key ]} | None => ∅ end.

(** The command waits on its own lane, under its own key, and nothing else changed. *)
Definition appended `{T : Tokio} (command : UiCommand) (p p' : Ports) : Prop :=
  (forall lane, lane_queue p' lane =
     lane_queue p lane ++ (if decide (lane = cmd_lane command /\ lane <> LaneShutdown) then [command] else [])) /\
  po_keys p' = held_keys command ∪ po_keys p /\
  po_shutdown p' =
    (match command with CmdShutdownRuntime operation_id => Some operation_id | _ => po_shutdown p end) /\
  po_events p' = po_events p.

Section submit.
Context `{T : Tokio} {laws : TokioLaws T}.

Lemma lane_send_refused lane command e :
  refused lane = Some e -> lane_send lane command = (Err (map_try_send_error e), lane).
Proof using laws. intros He. unfold lane_send. by rewrite (try_send_refused _ command lane e He). Qed.

Lemma lane_send_sent lane command :
  refused lane = None -> exists lane', lane_send lane command = (Ok tt, lane') /\ queued lane' = queued lane ++ [command].
Proof using laws.
  intros He. unfold lane_send. destruct (try_send_sent _ command lane He) as (lane' & -> & Hq & _). eauto.
Qed.

(** The case of a lane without keys. *)
Ltac plain_lane lane_of :=
  lazymatch goal with Hlane : cmd_lane ?command = _ |- _ =>
    let e := fresh "e" in let He := fresh "He" in let lane := fresh "lane" in let Hq := fresh "Hq" in
    destruct (refused lane_of) as [e|] eqn:He;
    [ rewrite (lane_send_refused _ command e He)
    | destruct (lane_send_sent _ command He) as (lane & -> & Hq); right ];
    destruct command; try discriminate Hlane; unfold appended; split_and!;
    try (by intros (? & ? & ?)); try done; try (exact (eq_sym (left_id_L ∅ (∪) _)));
    try (match goal with p : Ports |- _ => by destruct p end); intros []; cbn;
    repeat match goal with H : queued _ = _ |- _ => rewrite H; clear H end; rewrite ?app_nil_r; reflexivity
  end.

(** Submitting a command never blocks, loses or misroutes it.  It is refused
    exactly when its own lane is full or closed, whatever the other lanes hold, and
    then the ports are as they were, with no key left behind; a control command whose
    key is held changes nothing and counts as submitted; otherwise the command is the
    last of its own lane and its key is held. *)
Theorem submit_effect command p :
  po_keys_poisoned p = false ->
  match try_submit command p with
  | (Err error, p') => p' = p /\ lane_refuses p (cmd_lane command) = Some error /\ ~ coalesced command p
  | (Ok _, p') =>
      (coalesced command p /\ p' = p) \/
      (~ coalesced command p /\ lane_refuses p (cmd_lane command) = None /\ appended command p p')
  end.
Proof using laws.
  intros Hpoisoned. unfold try_submit. destruct (cmd_lane command) eqn:Hlane; cbn [lane_refuses].
  - plain_lane (po_work p).
  - plain_lane (po_mutation p).
  - destruct (control_key command) as [key|] eqn:Hkey; [|by destruct command]. rewrite Hpoisoned.
    destruct (decide (key ∈ po_keys p)) as [Hin|Hnin]; [left; split; [by exists key|done]|].
    assert (~ coalesced command p) as Hnc by (intros (k & ? & ?); congruence).
    destruct (refused (po_control p)) as [e|] eqn:He; cbn [set_keys po_control].
    + rewrite (lane_send_refused _ command e He). split_and!; [|done..].
      assert (({[key]} ∪ po_keys p) ∖ {[key]} = po_keys p) as Hkeys by set_solver. cbn. rewrite Hkeys.
      by destruct p.
    + destruct (lane_send_sent _ command He) as (lane & -> & Hq). right. split_and!; [done..|].
      destruct command; try discriminate Hlane; injection Hkey as <-; (unfold appended; split_and!; [|done..]);
        intros []; cbn; rewrite ?Hq, ?app_nil_r; reflexivity.
  - destruct command; try discriminate Hlane. destruct (po_shutdown_gone p).
    + split_and!; [done..|by intros (? & ? & ?)].
    + right. split_and!; [by intros (? & ? & ?)|done|]. unfold appended. split_and!; [|exact (eq_sym (left_id_L ∅ (∪) _))|done..].
      intros []; cbn; by rewrite ?app_nil_r.
Qed.
End submit.

(** A second Disconnect of the same profile is coalesced with the first. *)
Definition disconnecting_ports : Ports (T := queues) :=
  (try_submit (CmdDisconnectProfile 4 (lit "p") 1) controller_ports).2.

Lemma submit_effect_witness :
  let command := CmdDisconnectProfile 5 (lit "p") 1 in
  is_ok (try_submit command disconnecting_ports).1 = true /\
  (try_submit command disconnecting_ports).2 = disconnecting_ports.
Proof.
  cbn zeta. assert (Hcoalesced : coalesced (CmdDisconnectProfile 5 (lit "p") 1) disconnecting_ports).
  { exists (KeyDisconnect (lit "p") 1). split; [reflexivity|].
    apply (bool_decide_unpack (KeyDisconnect (lit "p") 1 ∈ po_keys disconnecting_ports)). vm_compute. exact I. }
  pose proof (submit_effect (CmdDisconnectProfile 5 (lit "p") 1) disconnecting_ports eq_refl) as H.
  destruct (try_submit (CmdDisconnectProfile 5 (lit "p") 1) disconnecting_ports) as [[[]|e] p'].
  - destruct H as [[_ H]|[H _]]; [by split|by destruct H].
  - destruct H as (_ & _ & H). by destruct H.
Defined.
