(* ===== verification/ProfileForm.v ===== *)
(** * The profile form (src/src/ui/profile_form.rs)

    A draft of text fields, its validation, and the editor around it: what the user can
    change, what Save and Test draft submit, and how events end them.  The theorems are
    in ProfileFormSafety. *)

From S2P Require Import Prelude RustStr Model Secrets Profile Config Drivers Service PublicError UiModel.
From S2P Require Import DraftTests Tokio CommandPorts.

Definition DRAFT_TEST_TIMEOUT : Duration := from_secs 30.

(** The text with the dots of an operation that is under way. *)
Definition under_way (text : string) : str := lit text ++ [8230%N].

(** ** Drafts *)

Inductive EditorMode := ModeAdd | ModeEdit (original_id : ProfileId) (expected_generation : ProfileGeneration).

Record ProfileDraft := {
  pd_id : str;
  pd_name : str;
  pd_driver : DriverKind;
  pd_host : str;
  pd_port : str;
  pd_database : str;
  pd_username : str;
  pd_tls : TlsMode;
  pd_credential_mode : CredentialMode;
  pd_secret_env : str;
  pd_redis_ca_file : str;
}.

Definition default_port (driver : DriverKind) : N :=
  match descriptor_of driver with
  | Some descriptor => dd_default_port descriptor
  | None => match driver with MySql => 3306 | Redis => 6379 | MongoDb => 27017 end
  end.

Definition ProfileDraft_new (driver : DriverKind) : ProfileDraft :=
  {| pd_id := []; pd_name := []; pd_driver := driver; pd_host := lit "127.0.0.1";
     pd_port := display_N (default_port driver); pd_database := []; pd_username := [];
     pd_tls := if bool_decide (driver = Redis) then Disabled else Preferred;
     pd_credential_mode := CredNone; pd_secret_env := []; pd_redis_ca_file := [] |}.

(** A path is its text: [to_string_lossy] of a path that is not UTF-8 is not modelled. *)
Definition draft_from_profile (profile : ConnectionProfile) : ProfileDraft :=
  {| pd_id := p_id profile; pd_name := p_name profile; pd_driver := p_driver profile; pd_host := p_host profile;
     pd_port := display_N (p_port profile); pd_database := default [] (p_database profile);
     pd_username := default [] (p_username profile); pd_tls := p_tls profile;
     pd_credential_mode := p_credential_mode profile; pd_secret_env := default [] (p_secret_env profile);
     pd_redis_ca_file :=
       if bool_decide (p_driver profile = Redis) && negb (bool_decide (p_tls profile = Disabled))
       then default [] (ca_file (p_redis_tls profile)) else [] |}.

Definition select_driver (d : ProfileDraft) (driver : DriverKind) : ProfileDraft :=
  let previous_default := display_N (default_port (pd_driver d)) in
  {| pd_id := pd_id d; pd_name := pd_name d; pd_driver := driver; pd_host := pd_host d;
     pd_port := if bool_decide (trim (pd_port d) = []) || bool_decide (pd_port d = previous_default)
                then display_N (default_port driver) else pd_port d;
     pd_database := pd_database d; pd_username := pd_username d;
     pd_tls := if negb (bool_decide (pd_driver d = Redis)) && bool_decide (driver = Redis)
                  && bool_decide (pd_tls d = Preferred) then Disabled else pd_tls d;
     pd_credential_mode := pd_credential_mode d; pd_secret_env := pd_secret_env d;
     pd_redis_ca_file := if bool_decide (driver = Redis) then pd_redis_ca_file d else [] |}.

Definition draft_select_credential_mode (d : ProfileDraft) (mode : CredentialMode) : ProfileDraft :=
  {| pd_id := pd_id d; pd_name := pd_name d; pd_driver := pd_driver d; pd_host := pd_host d; pd_port := pd_port d;
     pd_database := pd_database d; pd_username := pd_username d; pd_tls := pd_tls d; pd_credential_mode := mode;
     pd_secret_env := if bool_decide (mode = CredEnvironment) then pd_secret_env d else [];
     pd_redis_ca_file := pd_redis_ca_file d |}.

Definition select_tls (d : ProfileDraft) (tls : TlsMode) : ProfileDraft :=
  {| pd_id := pd_id d; pd_name := pd_name d; pd_driver := pd_driver d; pd_host := pd_host d; pd_port := pd_port d;
     pd_database := pd_database d; pd_username := pd_username d; pd_tls := tls;
     pd_credential_mode := pd_credential_mode d; pd_secret_env := pd_secret_env d;
     pd_redis_ca_file :=
       if bool_decide (pd_driver d = Redis) && negb (bool_decide (tls = Required)) then [] else pd_redis_ca_file d |}.

Record ValidationErrors := {
  ve_id : option str;
  ve_name : option str;
  ve_host : option str;
  ve_port : option str;
  ve_database : option str;
  ve_secret_env : option str;
  ve_tls : option str;
  ve_redis_ca_file : option str;
}.
#[export] Instance ValidationErrors_eq : EqDecision ValidationErrors. Proof. solve_decision. Defined.

Definition no_errors : ValidationErrors :=
  {| ve_id := None; ve_name := None; ve_host := None; ve_port := None; ve_database := None; ve_secret_env := None;
     ve_tls := None; ve_redis_ca_file := None |}.

Definition errors_is_empty (errors : ValidationErrors) : bool :=
  let is_none (o : option str) := match o with None => true | Some _ => false end in
  is_none (ve_id errors) && is_none (ve_name errors) && is_none (ve_host errors) && is_none (ve_port errors)
  && is_none (ve_database errors) && is_none (ve_secret_env errors) && is_none (ve_tls errors)
  && is_none (ve_redis_ca_file errors).

Definition optional_trimmed (value : str) : option str :=
  let value := trim value in if bool_decide (value = []) then None else Some value.

(** The form's own copies of the service's checks. *)
Definition form_valid_profile_id (value : str) : bool :=
  match value with
  | [] => false
  | first :: rest =>
      is_ascii_alphanumeric first
      && forallb (fun c => is_ascii_alphanumeric c || bool_decide (c ∈ lit "._-")) rest
  end.

Definition form_valid_env_name (value : str) : bool :=
  match value with
  | [] => false
  | first :: rest =>
      (is_ascii_alphabetic first || bool_decide (first ∈ lit "_"))
      && forallb (fun c => is_ascii_alphanumeric c || bool_decide (c ∈ lit "_")) rest
  end.

(** The messages of [validate], in the order of its fields. *)
Definition id_error (id : str) : option str :=
  if bool_decide (id = []) then Some (lit "Profile id is required")
  else if form_valid_profile_id id then None
  else Some (lit "Use letters, digits, dot, underscore, or hyphen; start with a letter or digit").

Definition required_error (value : str) (message : string) : option str :=
  if bool_decide (value = []) then Some (lit message) else None.

(** [port.trim().parse::<u16>()], zero refused. *)
Definition draft_port (d : ProfileDraft) : option N :=
  port ← parse_unsigned U16_MAX (trim (pd_port d));
  if (port =? 0)%N then None else Some port.

Definition database_error (driver : DriverKind) (database : option str) : option str :=
  database ← database;
  if bool_decide (driver = Redis) && bool_decide (parse_u32 database = None)
  then Some (lit "Redis database must be a non-negative integer") else None.

Definition draft_secret_env (d : ProfileDraft) : option str :=
  match pd_credential_mode d with CredEnvironment => optional_trimmed (pd_secret_env d) | _ => None end.

Definition secret_env_error (d : ProfileDraft) : option str :=
  if bool_decide (pd_credential_mode d = CredEnvironment) then
    match draft_secret_env d with
    | Some value => if form_valid_env_name value then None else Some (lit "Use a valid environment variable name")
    | None => Some (lit "Use a valid environment variable name")
    end
  else None.

Definition tls_error (d : ProfileDraft) : option str :=
  if bool_decide (pd_driver d = Redis) && bool_decide (pd_tls d = Preferred)
  then Some (lit "Preferred is a legacy Redis mode; choose Disabled or Required") else None.

Definition ca_file_error (d : ProfileDraft) : option str :=
  if bool_decide (trim (pd_redis_ca_file d) = []) then None
  else if bool_decide (pd_driver d = Redis) then
    if bool_decide (pd_tls d = Disabled)
    then Some (lit "A CA file is only available when Redis TLS is Required") else None
  else Some (lit "A Redis CA file is only valid for Redis").

Definition validate (d : ProfileDraft) : result ValidationErrors ConnectionProfile :=
  let id := trim (pd_id d) in
  let name := trim (pd_name d) in
  let host := trim (pd_host d) in
  let database := optional_trimmed (pd_database d) in
  let errors :=
    {| ve_id := id_error id; ve_name := required_error name "Display name is required";
       ve_host := required_error host "Host is required";
       ve_port := match draft_port d with None => Some (lit "Port must be between 1 and 65535") | Some _ => None end;
       ve_database := database_error (pd_driver d) database; ve_secret_env := secret_env_error d;
       ve_tls := tls_error d; ve_redis_ca_file := ca_file_error d |} in
  if negb (errors_is_empty errors) then Err errors
  else
    match draft_port d with
    | None => Err errors
    | Some port =>
        Ok {| p_id := id; p_name := name; p_driver := pd_driver d; p_host := host; p_port := port;
              p_database := database; p_username := optional_trimmed (pd_username d); p_tls := pd_tls d;
              p_credential_mode := pd_credential_mode d; p_secret_env := draft_secret_env d;
              p_redis_tls :=
                {| ca_file := if bool_decide (pd_driver d = Redis) && bool_decide (pd_tls d = Required)
                              then optional_trimmed (pd_redis_ca_file d) else None |} |}
    end.

(** ** The editor *)

Inductive FormAction :=
| ActionNone | ActionSave (connect : bool) | ActionTestDraft | ActionProbeEnvironment | ActionCancel
| ActionPickRedisCaFile.

Inductive SaveAttempt :=
| SaveSubmitted (operation_id : OperationId) | SaveInvalid | SaveBusy | SaveDisconnected | SaveConfigUncertain
| SaveAlreadyPending (operation_id : OperationId).

Inductive DraftTestAttempt :=
| TestSubmitted (operation_id : OperationId) | TestInvalid | TestBusy | TestDisconnected | TestConfigUncertain
| TestAlreadyPending (operation_id : OperationId) | TestUnavailable.

Inductive ProfileEventResult :=
| EventIgnored
| EventSaved (profile_id : ProfileId) (warning : option PublicSummary)
| EventSavedAndConnect (profile_id : ProfileId) (warning : option PublicSummary)
| EventFailed.

Inductive PendingSave :=
| PendingCreate (operation_id : OperationId) (draft_id : DraftId) (connect_after_save : bool)
| PendingUpdate (operation_id : OperationId) (profile_id : ProfileId) (profile_generation : ProfileGeneration)
    (connect_after_save : bool).

Definition ps_operation_id (p : PendingSave) : OperationId :=
  match p with PendingCreate operation_id _ _ | PendingUpdate operation_id _ _ _ => operation_id end.
Definition ps_connect_after_save (p : PendingSave) : bool :=
  match p with PendingCreate _ _ connect | PendingUpdate _ _ _ connect => connect end.

Record ProfileEditor := {
  pf_mode : EditorMode;
  pf_draft_id : DraftId;
  pf_session_keep_available : bool;
  pf_use_auto_id : bool;
  pf_session_intent : option SessionCredentialIntent;
  pf_replacement_secret : ReplacementSecretBuffer;
  pf_environment_availability : option EnvironmentAvailability;
  pf_environment_probe_name : option str;
  pf_migration_required : bool;
  pf_migration_backup : option str;
  pf_migration_confirmed : bool;
  pf_draft : ProfileDraft;
  pf_errors : ValidationErrors;
  pf_status : str;
  pf_pending_save : option PendingSave;
  pf_pending_draft_test : option OperationId;
  pf_config_uncertain : bool;
  pf_focus_field : option ProfileFieldId;
}.

Definition set_use_auto_id (e : ProfileEditor) (x : bool) : ProfileEditor :=
  {| pf_mode := pf_mode e; pf_draft_id := pf_draft_id e; pf_session_keep_available := pf_session_keep_available e;
     pf_use_auto_id := x; pf_session_intent := pf_session_intent e;
     pf_replacement_secret := pf_replacement_secret e;
     pf_environment_availability := pf_environment_availability e;
     pf_environment_probe_name := pf_environment_probe_name e; pf_migration_required := pf_migration_required e;
     pf_migration_backup := pf_migration_backup e; pf_migration_confirmed := pf_migration_confirmed e;
     pf_draft := pf_draft e; pf_errors := pf_errors e; pf_status := pf_status e;
     pf_pending_save := pf_pending_save e; pf_pending_draft_test := pf_pending_draft_test e;
     pf_config_uncertain := pf_config_uncertain e; pf_focus_field := pf_focus_field e |}.
Definition set_session_intent (e : ProfileEditor) (x : option SessionCredentialIntent) : ProfileEditor :=
  {| pf_mode := pf_mode e; pf_draft_id := pf_draft_id e; pf_session_keep_available := pf_session_keep_available e;
     pf_use_auto_id := pf_use_auto_id e; pf_session_intent := x; pf_replacement_secret := pf_replacement_secret e;
     pf_environment_availability := pf_environment_availability e;
     pf_environment_probe_name := pf_environment_probe_name e; pf_migration_required := pf_migration_required e;
     pf_migration_backup := pf_migration_backup e; pf_migration_confirmed := pf_migration_confirmed e;
     pf_draft := pf_draft e; pf_errors := pf_errors e; pf_status := pf_status e;
     pf_pending_save := pf_pending_save e; pf_pending_draft_test := pf_pending_draft_test e;
     pf_config_uncertain := pf_config_uncertain e; pf_focus_field := pf_focus_field e |}.
Definition set_replacement_secret (e : ProfileEditor) (x : ReplacementSecretBuffer) : ProfileEditor :=
  {| pf_mode := pf_mode e; pf_draft_id := pf_draft_id e; pf_session_keep_available := pf_session_keep_available e;
     pf_use_auto_id := pf_use_auto_id e; pf_session_intent := pf_session_intent e; pf_replacement_secret := x;
     pf_environment_availability := pf_environment_availability e;
     pf_environment_probe_name := pf_environment_probe_name e; pf_migration_required := pf_migration_required e;
     pf_migration_backup := pf_migration_backup e; pf_migration_confirmed := pf_migration_confirmed e;
     pf_draft := pf_draft e; pf_errors := pf_errors e; pf_status := pf_status e;
     pf_pending_save := pf_pending_save e; pf_pending_draft_test := pf_pending_draft_test e;
     pf_config_uncertain := pf_config_uncertain e; pf_focus_field := pf_focus_field e |}.
Definition set_environment_availability (e : ProfileEditor) (x : option EnvironmentAvailability) : ProfileEditor :=
  {| pf_mode := pf_mode e; pf_draft_id := pf_draft_id e; pf_session_keep_available := pf_session_keep_available e;
     pf_use_auto_id := pf_use_auto_id e; pf_session_intent := pf_session_intent e;
     pf_replacement_secret := pf_replacement_secret e; pf_environment_availability := x;
     pf_environment_probe_name := pf_environment_probe_name e; pf_migration_required := pf_migration_required e;
     pf_migration_backup := pf_migration_backup e; pf_migration_confirmed := pf_migration_confirmed e;
     pf_draft := pf_draft e; pf_errors := pf_errors e; pf_status := pf_status e;
     pf_pending_save := pf_pending_save e; pf_pending_draft_test := pf_pending_draft_test e;
     pf_config_uncertain := pf_config_uncertain e; pf_focus_field := pf_focus_field e |}.
Definition set_environment_probe_name (e : ProfileEditor) (x : option str) : ProfileEditor :=
  {| pf_mode := pf_mode e; pf_draft_id := pf_draft_id e; pf_session_keep_available := pf_session_keep_available e;
     pf_use_auto_id := pf_use_auto_id e; pf_session_intent := pf_session_intent e;
     pf_replacement_secret := pf_replacement_secret e;
     pf_environment_availability := pf_environment_availability e; pf_environment_probe_name := x;
     pf_migration_required := pf_migration_required e; pf_migration_backup := pf_migration_backup e;
     pf_migration_confirmed := pf_migration_confirmed e; pf_draft := pf_draft e; pf_errors := pf_errors e;
     pf_status := pf_status e; pf_pending_save := pf_pending_save e;
     pf_pending_draft_test := pf_pending_draft_test e; pf_config_uncertain := pf_config_uncertain e;
     pf_focus_field := pf_focus_field e |}.
Definition set_migration_required (e : ProfileEditor) (x : bool) : ProfileEditor :=
  {| pf_mode := pf_mode e; pf_draft_id := pf_draft_id e; pf_session_keep_available := pf_session_keep_available e;
     pf_use_auto_id := pf_use_auto_id e; pf_session_intent := pf_session_intent e;
     pf_replacement_secret := pf_replacement_secret e;
     pf_environment_availability := pf_environment_availability e;
     pf_environment_probe_name := pf_environment_probe_name e; pf_migration_required := x;
     pf_migration_backup := pf_migration_backup e; pf_migration_confirmed := pf_migration_confirmed e;
     pf_draft := pf_draft e; pf_errors := pf_errors e; pf_status := pf_status e;
     pf_pending_save := pf_pending_save e; pf_pending_draft_test := pf_pending_draft_test e;
     pf_config_uncertain := pf_config_uncertain e; pf_focus_field := pf_focus_field e |}.
Definition set_migration_backup (e : ProfileEditor) (x : option str) : ProfileEditor :=
  {| pf_mode := pf_mode e; pf_draft_id := pf_draft_id e; pf_session_keep_available := pf_session_keep_available e;
     pf_use_auto_id := pf_use_auto_id e; pf_session_intent := pf_session_intent e;
     pf_replacement_secret := pf_replacement_secret e;
     pf_environment_availability := pf_environment_availability e;
     pf_environment_probe_name := pf_environment_probe_name e; pf_migration_required := pf_migration_required e;
     pf_migration_backup := x; pf_migration_confirmed := pf_migration_confirmed e; pf_draft := pf_draft e;
     pf_errors := pf_errors e; pf_status := pf_status e; pf_pending_save := pf_pending_save e;
     pf_pending_draft_test := pf_pending_draft_test e; pf_config_uncertain := pf_config_uncertain e;
     pf_focus_field := pf_focus_field e |}.
Definition set_migration_confirmed (e : ProfileEditor) (x : bool) : ProfileEditor :=
  {| pf_mode := pf_mode e; pf_draft_id := pf_draft_id e; pf_session_keep_available := pf_session_keep_available e;
     pf_use_auto_id := pf_use_auto_id e; pf_session_intent := pf_session_intent e;
     pf_replacement_secret := pf_replacement_secret e;
     pf_environment_availability := pf_environment_availability e;
     pf_environment_probe_name := pf_environment_probe_name e; pf_migration_required := pf_migration_required e;
     pf_migration_backup := pf_migration_backup e; pf_migration_confirmed := x; pf_draft := pf_draft e;
     pf_errors := pf_errors e; pf_status := pf_status e; pf_pending_save := pf_pending_save e;
     pf_pending_draft_test := pf_pending_draft_test e; pf_config_uncertain := pf_config_uncertain e;
     pf_focus_field := pf_focus_field e |}.
Definition set_draft (e : ProfileEditor) (x : ProfileDraft) : ProfileEditor :=
  {| pf_mode := pf_mode e; pf_draft_id := pf_draft_id e; pf_session_keep_available := pf_session_keep_available e;
     pf_use_auto_id := pf_use_auto_id e; pf_session_intent := pf_session_intent e;
     pf_replacement_secret := pf_replacement_secret e;
     pf_environment_availability := pf_environment_availability e;
     pf_environment_probe_name := pf_environment_probe_name e; pf_migration_required := pf_migration_required e;
     pf_migration_backup := pf_migration_backup e; pf_migration_confirmed := pf_migration_confirmed e;
     pf_draft := x; pf_errors := pf_errors e; pf_status := pf_status e; pf_pending_save := pf_pending_save e;
     pf_pending_draft_test := pf_pending_draft_test e; pf_config_uncertain := pf_config_uncertain e;
     pf_focus_field := pf_focus_field e |}.
Definition set_errors (e : ProfileEditor) (x : ValidationErrors) : ProfileEditor :=
  {| pf_mode := pf_mode e; pf_draft_id := pf_draft_id e; pf_session_keep_available := pf_session_keep_available e;
     pf_use_auto_id := pf_use_auto_id e; pf_session_intent := pf_session_intent e;
     pf_replacement_secret := pf_replacement_secret e;
     pf_environment_availability := pf_environment_availability e;
     pf_environment_probe_name := pf_environment_probe_name e; pf_migration_required := pf_migration_required e;
     pf_migration_backup := pf_migration_backup e; pf_migration_confirmed := pf_migration_confirmed e;
     pf_draft := pf_draft e; pf_errors := x; pf_status := pf_status e; pf_pending_save := pf_pending_save e;
     pf_pending_draft_test := pf_pending_draft_test e; pf_config_uncertain := pf_config_uncertain e;
     pf_focus_field := pf_focus_field e |}.
Definition set_status (e : ProfileEditor) (x : str) : ProfileEditor :=
  {| pf_mode := pf_mode e; pf_draft_id := pf_draft_id e; pf_session_keep_available := pf_session_keep_available e;
     pf_use_auto_id := pf_use_auto_id e; pf_session_intent := pf_session_intent e;
     pf_replacement_secret := pf_replacement_secret e;
     pf_environment_availability := pf_environment_availability e;
     pf_environment_probe_name := pf_environment_probe_name e; pf_migration_required := pf_migration_required e;
     pf_migration_backup := pf_migration_backup e; pf_migration_confirmed := pf_migration_confirmed e;
     pf_draft := pf_draft e; pf_errors := pf_errors e; pf_status := x; pf_pending_save := pf_pending_save e;
     pf_pending_draft_test := pf_pending_draft_test e; pf_config_uncertain := pf_config_uncertain e;
     pf_focus_field := pf_focus_field e |}.
Definition set_pending_save (e : ProfileEditor) (x : option PendingSave) : ProfileEditor :=
  {| pf_mode := pf_mode e; pf_draft_id := pf_draft_id e; pf_session_keep_available := pf_session_keep_available e;
     pf_use_auto_id := pf_use_auto_id e; pf_session_intent := pf_session_intent e;
     pf_replacement_secret := pf_replacement_secret e;
     pf_environment_availability := pf_environment_availability e;
     pf_environment_probe_name := pf_environment_probe_name e; pf_migration_required := pf_migration_required e;
     pf_migration_backup := pf_migration_backup e; pf_migration_confirmed := pf_migration_confirmed e;
     pf_draft := pf_draft e; pf_errors := pf_errors e; pf_status := pf_status e; pf_pending_save := x;
     pf_pending_draft_test := pf_pending_draft_test e; pf_config_uncertain := pf_config_uncertain e;
     pf_focus_field := pf_focus_field e |}.
Definition set_pending_draft_test (e : ProfileEditor) (x : option OperationId) : ProfileEditor :=
  {| pf_mode := pf_mode e; pf_draft_id := pf_draft_id e; pf_session_keep_available := pf_session_keep_available e;
     pf_use_auto_id := pf_use_auto_id e; pf_session_intent := pf_session_intent e;
     pf_replacement_secret := pf_replacement_secret e;
     pf_environment_availability := pf_environment_availability e;
     pf_environment_probe_name := pf_environment_probe_name e; pf_migration_required := pf_migration_required e;
     pf_migration_backup := pf_migration_backup e; pf_migration_confirmed := pf_migration_confirmed e;
     pf_draft := pf_draft e; pf_errors := pf_errors e; pf_status := pf_status e;
     pf_pending_save := pf_pending_save e; pf_pending_draft_test := x;
     pf_config_uncertain := pf_config_uncertain e; pf_focus_field := pf_focus_field e |}.
Definition set_config_uncertain (e : ProfileEditor) (x : bool) : ProfileEditor :=
  {| pf_mode := pf_mode e; pf_draft_id := pf_draft_id e; pf_session_keep_available := pf_session_keep_available e;
     pf_use_auto_id := pf_use_auto_id e; pf_session_intent := pf_session_intent e;
     pf_replacement_secret := pf_replacement_secret e;
     pf_environment_availability := pf_environment_availability e;
     pf_environment_probe_name := pf_environment_probe_name e; pf_migration_required := pf_migration_required e;
     pf_migration_backup := pf_migration_backup e; pf_migration_confirmed := pf_migration_confirmed e;
     pf_draft := pf_draft e; pf_errors := pf_errors e; pf_status := pf_status e;
     pf_pending_save := pf_pending_save e; pf_pending_draft_test := pf_pending_draft_test e;
     pf_config_uncertain := x; pf_focus_field := pf_focus_field e |}.
Definition set_focus_field (e : ProfileEditor) (x : option ProfileFieldId) : ProfileEditor :=
  {| pf_mode := pf_mode e; pf_draft_id := pf_draft_id e; pf_session_keep_available := pf_session_keep_available e;
     pf_use_auto_id := pf_use_auto_id e; pf_session_intent := pf_session_intent e;
     pf_replacement_secret := pf_replacement_secret e;
     pf_environment_availability := pf_environment_availability e;
     pf_environment_probe_name := pf_environment_probe_name e; pf_migration_required := pf_migration_required e;
     pf_migration_backup := pf_migration_backup e; pf_migration_confirmed := pf_migration_confirmed e;
     pf_draft := pf_draft e; pf_errors := pf_errors e; pf_status := pf_status e;
     pf_pending_save := pf_pending_save e; pf_pending_draft_test := pf_pending_draft_test e;
     pf_config_uncertain := pf_config_uncertain e; pf_focus_field := x |}.
Definition ProfileEditor_new (draft_id : DraftId) (driver : DriverKind) : ProfileEditor :=
  {| pf_mode := ModeAdd; pf_draft_id := draft_id; pf_session_keep_available := false; pf_use_auto_id := true;
     pf_session_intent := None; pf_replacement_secret := []; pf_environment_availability := None;
     pf_environment_probe_name := None; pf_migration_required := false; pf_migration_backup := None;
     pf_migration_confirmed := false; pf_draft := ProfileDraft_new driver; pf_errors := no_errors;
     pf_status := lit "New profile"; pf_pending_save := None; pf_pending_draft_test := None;
     pf_config_uncertain := false; pf_focus_field := None |}.

Definition edit (draft_id : DraftId) (profile : ConnectionProfile) (expected_generation : ProfileGeneration)
    (has_current_session_secret : bool) : ProfileEditor :=
  let context := ContextEdit has_current_session_secret in
  {| pf_mode := ModeEdit (p_id profile) expected_generation; pf_draft_id := draft_id;
     pf_session_keep_available :=
       bool_decide (p_credential_mode profile = CredSession) && has_current_session_secret;
     pf_use_auto_id := false;
     pf_session_intent := policy_default <$> session_intent_policy (p_credential_mode profile) context;
     pf_replacement_secret := []; pf_environment_availability := None; pf_environment_probe_name := None;
     pf_migration_required := false; pf_migration_backup := None; pf_migration_confirmed := false;
     pf_draft := draft_from_profile profile; pf_errors := no_errors; pf_status := lit "Editing profile";
     pf_pending_save := None; pf_pending_draft_test := None; pf_config_uncertain := false; pf_focus_field := None |}.

Definition request_focus (e : ProfileEditor) (field : ProfileFieldId) : ProfileEditor := set_focus_field e (Some field).

Definition set_migration_presentation (e : ProfileEditor) (migration_required : bool)
    (migration_backup : option str) : ProfileEditor :=
  let e := set_migration_required e migration_required in
  let e := set_migration_backup e (if migration_required then migration_backup else None) in
  if migration_required then e else set_migration_confirmed e false.

Definition is_add (e : ProfileEditor) : bool := match pf_mode e with ModeAdd => true | ModeEdit _ _ => false end.

Definition credential_context (e : ProfileEditor) : CredentialEditContext :=
  match pf_mode e with
  | ModeAdd => ContextCreate
  | ModeEdit _ _ => ContextEdit (pf_session_keep_available e)
  end.

Definition auto_id_preview (e : ProfileEditor) : option str :=
  if is_add e && pf_use_auto_id e then Some (slugify_profile_id (pd_name (pf_draft e))) else None.

Definition form_policy (e : ProfileEditor) : option SessionIntentPolicy :=
  session_intent_policy (pd_credential_mode (pf_draft e)) (credential_context e).

Definition clear_probe (e : ProfileEditor) : ProfileEditor :=
  set_environment_probe_name (set_environment_availability e None) None.

Definition select_credential_mode (e : ProfileEditor) (mode : CredentialMode) : ProfileEditor :=
  let e := clear_probe (set_draft e (draft_select_credential_mode (pf_draft e) mode)) in
  let e := set_session_intent e (policy_default <$> session_intent_policy mode (credential_context e)) in
  if bool_decide (mode = CredSession) then e
  else set_replacement_secret e (forget (pf_replacement_secret e)).

Definition select_session_intent (e : ProfileEditor) (intent : SessionCredentialIntent) : ProfileEditor :=
  let is_allowed :=
    match form_policy e with Some policy => bool_decide (intent ∈ allowed policy) | None => false end in
  if negb is_allowed then e
  else
    let e := set_session_intent e (Some intent) in
    if bool_decide (intent = IntentReplace) then e
    else set_replacement_secret e (forget (pf_replacement_secret e)).

(** [std::env::var] is an argument. *)
Definition probe_environment_availability (var : str -> option str) (e : ProfileEditor) : ProfileEditor :=
  let environment_name := pd_secret_env (pf_draft e) in
  let e := set_environment_availability e (Some (probe_environment var (trim environment_name))) in
  set_environment_probe_name e (Some environment_name).

Definition redis_ca_picker_visible (e : ProfileEditor) : bool :=
  bool_decide (pd_driver (pf_draft e) = Redis) && bool_decide (pd_tls (pf_draft e) = Required).

Definition idle (e : ProfileEditor) : bool :=
  match pf_pending_save e, pf_pending_draft_test e with None, None => true | _, _ => false end.

Definition redis_ca_picker_enabled (e : ProfileEditor) : bool :=
  redis_ca_picker_visible e && negb (pf_config_uncertain e) && idle e.

Definition draft_with_ca_file (d : ProfileDraft) (path : str) : ProfileDraft :=
  {| pd_id := pd_id d; pd_name := pd_name d; pd_driver := pd_driver d; pd_host := pd_host d; pd_port := pd_port d;
     pd_database := pd_database d; pd_username := pd_username d; pd_tls := pd_tls d;
     pd_credential_mode := pd_credential_mode d; pd_secret_env := pd_secret_env d; pd_redis_ca_file := path |}.

Definition without_ca_error (errors : ValidationErrors) : ValidationErrors :=
  {| ve_id := ve_id errors; ve_name := ve_name errors; ve_host := ve_host errors; ve_port := ve_port errors;
     ve_database := ve_database errors; ve_secret_env := ve_secret_env errors; ve_tls := ve_tls errors;
     ve_redis_ca_file := None |}.

Definition bind_redis_ca_file (e : ProfileEditor) (path : str) : ProfileEditor :=
  if negb (redis_ca_picker_visible e) then e
  else
    let e := set_draft e (draft_with_ca_file (pf_draft e) path) in
    let e := set_errors e (without_ca_error (pf_errors e)) in
    set_focus_field (set_status e (lit "Redis CA file selected")) (Some FRedisCaFile).

Definition pending_operation (e : ProfileEditor) : option OperationId := ps_operation_id <$> pf_pending_save e.

Definition actions_enabled (e : ProfileEditor) : bool :=
  negb (pf_config_uncertain e) && negb (bool_decide (pd_driver (pf_draft e) = MongoDb)) && idle e.

(** The Cancel button of [show]. *)
Definition cancel_enabled (e : ProfileEditor) : bool := pf_config_uncertain e || idle e.

Definition set_form_uncertain (e : ProfileEditor) (config_uncertain : bool) : ProfileEditor :=
  let e := set_config_uncertain e config_uncertain in
  if config_uncertain
  then set_pending_draft_test (set_status e (lit "Reload profiles before saving.")) None else e.

(** ** Save *)

(** The draft that Save and Test validate: a new profile's id comes from its name. *)
Definition draft_with_id (d : ProfileDraft) (id : str) : ProfileDraft :=
  {| pd_id := id; pd_name := pd_name d; pd_driver := pd_driver d; pd_host := pd_host d; pd_port := pd_port d;
     pd_database := pd_database d; pd_username := pd_username d; pd_tls := pd_tls d;
     pd_credential_mode := pd_credential_mode d; pd_secret_env := pd_secret_env d;
     pd_redis_ca_file := pd_redis_ca_file d |}.

Definition uses_auto_id (e : ProfileEditor) : bool := is_add e && pf_use_auto_id e.

Definition submitted_draft (e : ProfileEditor) : ProfileDraft :=
  if uses_auto_id e then draft_with_id (pf_draft e) (slugify_profile_id (pd_name (pf_draft e))) else pf_draft e.

Definition with_id_error (errors : ValidationErrors) (message : str) : ValidationErrors :=
  {| ve_id := Some message; ve_name := ve_name errors; ve_host := ve_host errors; ve_port := ve_port errors;
     ve_database := ve_database errors; ve_secret_env := ve_secret_env errors; ve_tls := ve_tls errors;
     ve_redis_ca_file := ve_redis_ca_file errors |}.

(** What is saved, when the fields allow it; otherwise the form with its errors. *)
Definition checked_profile (e : ProfileEditor) : result ProfileEditor ConnectionProfile :=
  match validate (submitted_draft e) with
  | Err errors => Err (set_status (set_errors e errors) (lit "Fix the highlighted fields"))
  | Ok profile =>
      match pf_mode e with
      | ModeEdit original_id _ =>
          if bool_decide (p_id profile = original_id) then Ok profile
          else Err (set_status (set_errors e (with_id_error (pf_errors e) (lit "Profile id cannot change while editing")))
                      (lit "Fix the highlighted fields"))
      | ModeAdd => Ok profile
      end
  end.

(** What makes Save give up before it looks at the fields. *)
Definition save_refusal (e : ProfileEditor) : option (SaveAttempt * str) :=
  if pf_config_uncertain e then Some (SaveConfigUncertain, lit "Reload profiles before saving.")
  else
    match pending_operation e, pf_pending_draft_test e with
    | Some pending, _ => Some (SaveAlreadyPending pending, lit "Save is already pending")
    | None, Some pending => Some (SaveAlreadyPending pending, lit "Draft test is already pending")
    | None, None =>
        if bool_decide (pd_driver (pf_draft e) = MongoDb)
        then Some (SaveInvalid, lit "MongoDB profiles are planned and unavailable.") else None
    end.

Definition pending_for (e : ProfileEditor) (operation_id : OperationId) (connect_after_save : bool) : PendingSave :=
  match pf_mode e with
  | ModeAdd => PendingCreate operation_id (pf_draft_id e) connect_after_save
  | ModeEdit original_id expected_generation =>
      PendingUpdate operation_id original_id expected_generation connect_after_save
  end.

Definition consent_for (e : ProfileEditor) : MigrationConsent :=
  from_confirmation (pf_migration_required e && pf_migration_confirmed e).

Definition save_command (e : ProfileEditor) (operation_id : OperationId) (profile : ConnectionProfile)
    (secret_update : SessionSecretUpdate) : UiCommand :=
  match pf_mode e with
  | ModeAdd =>
      CmdCreateProfile
        {| cp_draft_id := pf_draft_id e; cp_operation_id := operation_id;
           cp_explicit_id := if uses_auto_id e then None else Some (p_id profile);
           cp_draft := as_draft profile; cp_secret_update := secret_update; cp_migration_consent := consent_for e |}
  | ModeEdit original_id expected_generation =>
      CmdUpdateProfile
        {| up_profile_id := original_id; up_expected_generation := expected_generation;
           up_operation_id := operation_id; up_draft := as_draft profile; up_secret_update := secret_update;
           up_migration_consent := consent_for e |}
  end.

(** The replacement value leaves the form once the lane is reserved. *)
Definition taken_replacement (e : ProfileEditor) : result SecretError (option SessionSecret) * ProfileEditor :=
  if bool_decide (pf_session_intent e = Some IntentReplace) then
    let '(taken, buffer) := take_for_save (pf_replacement_secret e) in
    (Some <$> taken, set_replacement_secret e buffer)
  else (Ok None, e).

Section port.
Context `{T : Tokio}.

(** A permit that is not used is dropped. *)
Definition withdraw_permit (p : Ports) : Ports := set_mutation p (permit_drop (po_mutation p)).

Definition refused_save (e : ProfileEditor) (error : SubmitError) : SaveAttempt * ProfileEditor :=
  match error with
  | SubmitBusy => (SaveBusy, set_status e (lit "Service is busy; profile was not submitted"))
  | SubmitDisconnected => (SaveDisconnected, set_status e (lit "Service is unavailable"))
  end.

Definition try_save_with_connect (e : ProfileEditor) (operation_id : OperationId) (connect_after_save : bool)
    (p : Ports) : SaveAttempt * ProfileEditor * Ports :=
  match save_refusal e with
  | Some (attempt, status) => (attempt, set_status e status, p)
  | None =>
      match checked_profile e with
      | Err e => (SaveInvalid, e, p)
      | Ok profile =>
          let destination_mode := p_credential_mode profile in
          let context := credential_context e in
          let session_intent := pf_session_intent e in
          let pending_save := pending_for e operation_id connect_after_save in
          match try_reserve_mutation p with
          | (Err error, p) => (refused_save e error, p)
          | (Ok _, p) =>
              let '(replacement, e) := taken_replacement e in
              match replacement with
              | Err _ => (SaveInvalid, set_status e (lit "Enter a replacement session credential."), withdraw_permit p)
              | Ok replacement =>
                  match session_update_for_save destination_mode context session_intent replacement with
                  | Err _ =>
                      (SaveInvalid, set_status e (lit "Choose a valid session credential action."), withdraw_permit p)
                  | Ok secret_update =>
                      match permit_submit (save_command e operation_id profile secret_update) p with
                      | (Err error, p) => (refused_save e error, p)
                      | (Ok _, p) =>
                          let e := set_pending_save (set_errors e no_errors) (Some pending_save) in
                          (SaveSubmitted operation_id, set_status e (under_way "Saving profile"), p)
                      end
                  end
              end
          end
      end
  end.

(** ** Test draft *)

Definition test_refusal (e : ProfileEditor) : option (DraftTestAttempt * ProfileEditor) :=
  if pf_config_uncertain e
  then Some (TestConfigUncertain, set_status e (lit "Reload profiles before testing."))
  else if bool_decide (pd_driver (pf_draft e) = MongoDb)
  then Some (TestUnavailable, set_status e (lit "MongoDB draft testing is planned and unavailable."))
  else
    match pf_pending_draft_test e, pending_operation e with
    | Some pending, _ => Some (TestAlreadyPending pending, e)
    | None, Some pending => Some (TestAlreadyPending pending, e)
    | None, None => None
    end.

(** The intent of the chosen credential, or what the form says instead. *)
Definition test_intent (e : ProfileEditor) (operation_id : OperationId) (profile : ConnectionProfile) :
    result str DraftTestIntent :=
  let draft := as_draft profile in
  match p_credential_mode profile with
  | CredNone => Ok (IntentSecretless (pf_draft_id e) operation_id draft DRAFT_TEST_TIMEOUT)
  | CredEnvironment => Ok (IntentEnvironment (pf_draft_id e) operation_id draft DRAFT_TEST_TIMEOUT)
  | CredSession =>
      match pf_session_intent e with
      | Some KeepCurrent =>
          match pf_mode e with
          | ModeEdit original_id expected_generation =>
              Ok (IntentSessionKeep original_id expected_generation (pf_draft_id e) operation_id draft
                    DRAFT_TEST_TIMEOUT)
          | ModeAdd => Err (lit "Keep is unavailable for a new profile.")
          end
      | Some IntentReplace =>
          match copy_for_test (pf_replacement_secret e) with
          | Ok secret => Ok (IntentSessionReplace (pf_draft_id e) operation_id draft secret DRAFT_TEST_TIMEOUT)
          | Err _ => Err (lit "Enter a replacement session credential.")
          end
      | Some Forget => Ok (IntentSecretless (pf_draft_id e) operation_id draft DRAFT_TEST_TIMEOUT)
      | None => Err (lit "Choose a session credential action.")
      end
  end.

Definition try_test_draft (e : ProfileEditor) (operation_id : OperationId) (p : Ports) :
    DraftTestAttempt * ProfileEditor * Ports :=
  match test_refusal e with
  | Some (attempt, e) => (attempt, e, p)
  | None =>
      match validate (submitted_draft e) with
      | Err errors => (TestInvalid, set_status (set_errors e errors) (lit "Fix the highlighted fields"), p)
      | Ok profile =>
          match test_intent e operation_id profile with
          | Err status => (TestInvalid, set_status e status, p)
          | Ok intent =>
              match try_submit (CmdPrepareDraftConnectionTest intent) p with
              | (Ok _, p) =>
                  (TestSubmitted operation_id,
                   set_status (set_pending_draft_test e (Some operation_id)) (under_way "Testing draft connection"), p)
              | (Err SubmitBusy, p) => (TestBusy, set_status e (lit "Service is busy; draft was not submitted"), p)
              | (Err SubmitDisconnected, p) => (TestDisconnected, set_status e (lit "Service is unavailable"), p)
              end
          end
      end
  end.
End port.

(** ** Events *)

(** The pending save that a [ProfileSaved] event answers. *)
Definition answers_save (e : ProfileEditor) (operation_id : OperationId) (profile_id : ProfileId) : bool :=
  match pf_pending_save e with
  | Some (PendingCreate pending _ _) => (pending =? operation_id)%N
  | Some (PendingUpdate pending pending_profile _ _) =>
      (pending =? operation_id)%N && bool_decide (pending_profile = profile_id)
  | None => false
  end.

Definition answers_create_failure (e : ProfileEditor) (operation_id : OperationId) (draft_id : DraftId) : bool :=
  match pf_pending_save e with
  | Some (PendingCreate pending pending_draft _) => (pending =? operation_id)%N && (pending_draft =? draft_id)%N
  | _ => false
  end.

Definition answers_update_failure (e : ProfileEditor) (operation_id : OperationId) (profile_id : ProfileId)
    (profile_generation : ProfileGeneration) : bool :=
  match pf_pending_save e with
  | Some (PendingUpdate pending pending_profile pending_generation _) =>
      (pending =? operation_id)%N && bool_decide (pending_profile = profile_id)
      && (pending_generation =? profile_generation)%N
  | _ => false
  end.

Definition answers_test (e : ProfileEditor) (operation_id : OperationId) (draft_id : DraftId) : bool :=
  (draft_id =? pf_draft_id e)%N && bool_decide (pf_pending_draft_test e = Some operation_id).

Definition end_save (e : ProfileEditor) (status : str) : ProfileEditor := set_status (set_pending_save e None) status.
Definition end_test (e : ProfileEditor) (status : str) : ProfileEditor :=
  set_status (set_pending_draft_test e None) status.

Definition handle_event (e : ProfileEditor) (event : UiEvent) : ProfileEventResult * ProfileEditor :=
  match event with
  | ConfigUncertain _ => (EventIgnored, set_form_uncertain e true)
  | _ =>
      if pf_config_uncertain e then (EventIgnored, e)
      else
        match event with
        | ProfileSaved operation_id profile_id _ _ _ warning =>
            if answers_save e operation_id profile_id then
              let connect := match pf_pending_save e with Some p => ps_connect_after_save p | None => false end in
              let e := end_save e (match warning with
                                   | Some summary => summary_message summary
                                   | None => lit "Profile saved"
                                   end) in
              ((if connect then EventSavedAndConnect profile_id warning else EventSaved profile_id warning), e)
            else (EventIgnored, e)
        | ProfileCreateFailed operation_id draft_id _ error =>
            if answers_create_failure e operation_id draft_id
            then (EventFailed, end_save e (summary_message (pe_summary error))) else (EventIgnored, e)
        | DraftConnectionReady operation_id draft_id elapsed_ms =>
            if answers_test e operation_id draft_id
            then (EventIgnored, end_test e (lit "Draft connection ready in " ++ display_N elapsed_ms ++ lit " ms"))
            else (EventIgnored, e)
        | DraftOperationFailed operation_id draft_id _ error =>
            if answers_test e operation_id draft_id
            then (EventIgnored, end_test e (summary_message (pe_summary error))) else (EventIgnored, e)
        | ProfileUpdateFailed operation_id profile_id profile_generation _ error =>
            if answers_update_failure e operation_id profile_id profile_generation
            then (EventFailed, end_save e (summary_message (pe_summary error))) else (EventIgnored, e)
        | _ => (EventIgnored, e)
        end
  end.

(** ** What the user can change *)

(** The widgets of [show], with the values they can be given. *)
Inductive FormInput :=
| InputDriver (driver : DriverKind)
| InputName (text : str)
| InputAutoId (use_auto_id : bool)
| InputId (text : str)
| InputHost (text : str)
| InputPort (text : str)
| InputDatabase (text : str)
| InputUsername (text : str)
| InputTls (tls : TlsMode)
| InputCaFile (text : str)
| InputCredentialMode (mode : CredentialMode)
| InputEnvironmentName (text : str)
| InputSessionIntent (intent : SessionCredentialIntent)
| InputReplacement (text : str)
| InputMigration (confirmed : bool).

Definition draft_with_text (d : ProfileDraft) (name host port database username : str) : ProfileDraft :=
  {| pd_id := pd_id d; pd_name := name; pd_driver := pd_driver d; pd_host := host; pd_port := port;
     pd_database := database; pd_username := username; pd_tls := pd_tls d;
     pd_credential_mode := pd_credential_mode d; pd_secret_env := pd_secret_env d;
     pd_redis_ca_file := pd_redis_ca_file d |}.

Definition draft_with_secret_env (d : ProfileDraft) (secret_env : str) : ProfileDraft :=
  {| pd_id := pd_id d; pd_name := pd_name d; pd_driver := pd_driver d; pd_host := pd_host d; pd_port := pd_port d;
     pd_database := pd_database d; pd_username := pd_username d; pd_tls := pd_tls d;
     pd_credential_mode := pd_credential_mode d; pd_secret_env := secret_env;
     pd_redis_ca_file := pd_redis_ca_file d |}.

(** MongoDB can only be left, and Redis offers two modes of TLS. *)
Definition driver_offered (e : ProfileEditor) (driver : DriverKind) : bool :=
  negb (bool_decide (driver = MongoDb)) || bool_decide (pd_driver (pf_draft e) = MongoDb).
Definition tls_offered (e : ProfileEditor) (tls : TlsMode) : bool :=
  negb (bool_decide (pd_driver (pf_draft e) = Redis) && bool_decide (tls = Preferred)).

(** The credential action that the form shows as chosen. *)
Definition shown_intent (e : ProfileEditor) : option SessionCredentialIntent :=
  policy ← form_policy e; Some (default (policy_default policy) (pf_session_intent e)).

(** One change; a widget that is disabled or not shown takes none. *)
Definition form_input (e : ProfileEditor) (input : FormInput) : ProfileEditor :=
  let d := pf_draft e in
  if pf_config_uncertain e then e
  else
    match input with
    | InputDriver driver =>
        if driver_offered e driver && negb (bool_decide (pd_driver d = driver))
        then set_draft e (select_driver d driver) else e
    | InputName text => set_draft e (draft_with_text d text (pd_host d) (pd_port d) (pd_database d) (pd_username d))
    | InputAutoId use_auto_id => if is_add e then set_use_auto_id e use_auto_id else e
    | InputId text => if is_add e && negb (pf_use_auto_id e) then set_draft e (draft_with_id d text) else e
    | InputHost text => set_draft e (draft_with_text d (pd_name d) text (pd_port d) (pd_database d) (pd_username d))
    | InputPort text => set_draft e (draft_with_text d (pd_name d) (pd_host d) text (pd_database d) (pd_username d))
    | InputDatabase text => set_draft e (draft_with_text d (pd_name d) (pd_host d) (pd_port d) text (pd_username d))
    | InputUsername text => set_draft e (draft_with_text d (pd_name d) (pd_host d) (pd_port d) (pd_database d) text)
    | InputTls tls =>
        if tls_offered e tls && negb (bool_decide (pd_tls d = tls)) then set_draft e (select_tls d tls) else e
    | InputCaFile text => if redis_ca_picker_visible e then set_draft e (draft_with_ca_file d text) else e
    | InputCredentialMode mode =>
        if bool_decide (pd_credential_mode d = mode) then e else select_credential_mode e mode
    | InputEnvironmentName text =>
        if bool_decide (pd_credential_mode d = CredEnvironment)
        then clear_probe (set_draft e (draft_with_secret_env d text)) else e
    | InputSessionIntent intent => select_session_intent e intent
    | InputReplacement text =>
        if bool_decide (shown_intent e = Some IntentReplace) then set_replacement_secret e text else e
    | InputMigration confirmed => if pf_migration_required e then set_migration_confirmed e confirmed else e
    end.

(** A frame forgets what was probed under another name, and an intent without a policy. *)
Definition form_frame (e : ProfileEditor) : ProfileEditor :=
  let e :=
    if bool_decide (is_Some (pf_environment_availability e))
       && negb (bool_decide (pf_environment_probe_name e = Some (pd_secret_env (pf_draft e))))
    then clear_probe e else e in
  match pd_credential_mode (pf_draft e), form_policy e with
  | CredSession, None => set_session_intent e None
  | _, _ => e
  end.
