(* ===== verification/ProfileFormSafety.v ===== *)
(** * What the profile form submits (theorems on ProfileForm)

    A form only submits profiles that the service accepts, one operation at a time, and
    gives its secret away only with a command that was taken. *)

From S2P Require Import Prelude RustStr Model Secrets Profile Config Drivers Service PublicError UiModel.
From S2P Require Import DraftTests Tokio CommandPorts ProfileForm.

#[local] Arguments trim : simpl never.
#[local] Arguments reject_if : simpl never.

(** ** The form's checks are the service's *)

Lemma form_id_agrees value : form_valid_profile_id value = valid_profile_id value.
Proof.
  destruct value as [|c value]; [done|]. cbn. f_equal. induction value as [|x value IH]; [done|].
  cbn. rewrite IH. f_equal. destruct (is_ascii_alphanumeric x); [done|]. cbn [orb].
  rewrite (bool_decide_ext _ (x = 46 \/ x = 95 \/ x = 45)%N) by set_solver.
  destruct (x =? 46)%N eqn:E1, (x =? 95)%N eqn:E2, (x =? 45)%N eqn:E3; cbn;
    apply bool_decide_eq_true || apply bool_decide_eq_false; lia.
Qed.

Lemma form_env_agrees value : form_valid_env_name value = valid_env_name value.
Proof.
  assert (forall c, bool_decide (c ∈ lit "_") = (c =? 95)%N) as Hc.
  { intros c. change (lit "_") with [95%N]. rewrite (bool_decide_ext _ (c = 95)%N) by set_solver.
    destruct (N.eqb_spec c 95); [by apply bool_decide_eq_true|by apply bool_decide_eq_false]. }
  destruct value as [|c value]; [done|]. cbn. rewrite Hc. f_equal.
  induction value as [|x value IH]; [done|]. cbn. by rewrite Hc, IH.
Qed.

(** ** Text fields *)

Lemma optional_trimmed_spec s t : optional_trimmed s = Some t -> t <> [] /\ trim t = t.
Proof. unfold optional_trimmed. case_bool_decide as E; [done|]. intros [= <-]. split; [done|apply trim_idemp]. Qed.

Lemma optional_trimmed_same s : trim s = s -> s <> [] -> optional_trimmed s = Some s.
Proof. intros E H. unfold optional_trimmed. rewrite E. by rewrite bool_decide_false. Qed.

Lemma parse_digits_max max acc s n : (acc <= max)%N -> parse_digits max acc s = Some n -> (n <= max)%N.
Proof.
  revert acc. induction s as [|c s IH]; intros acc Ha; cbn [parse_digits]; [by intros [= <-]|].
  destruct (is_ascii_digit c); [|done]. destruct (_ <=? max)%N eqn:E; [|done]. apply IH. lia.
Qed.

Lemma parse_unsigned_max max s n : parse_unsigned max s = Some n -> (n <= max)%N.
Proof.
  unfold parse_unsigned. destruct (match s with c :: r => _ | [] => _ end); [done|]. apply parse_digits_max. lia.
Qed.

(** Digits parse back to the number they show. *)
Lemma parse_digits_value max acc s :
  Forall (fun c => is_ascii_digit c = true) s -> (decimal_value acc s <= max)%N ->
  parse_digits max acc s = Some (decimal_value acc s).
Proof.
  intros Hs. revert acc. induction Hs as [|c s Hc _ IH]; intros acc Hm; [done|]. cbn [parse_digits]. rewrite Hc.
  change (decimal_value acc (c :: s)) with (decimal_value (acc * 10 + (c - 48)) s) in *.
  assert (acc * 10 + (c - 48) <= decimal_value (acc * 10 + (c - 48)) s)%N as Hle.
  { clear. generalize (acc * 10 + (c - 48))%N. induction s as [|x s IH]; intros a; cbn; [lia|].
    etrans; [|apply IH]. lia. }
  rewrite (proj2 (N.leb_le _ _)) by lia. by apply IH.
Qed.

Lemma digit_not_blank c : is_ascii_digit c = true -> is_whitespace c = false /\ (c =? 43)%N = false.
Proof. unfold is_ascii_digit, is_whitespace. lia. Qed.

Lemma trim_solid s : Forall (fun c => is_whitespace c = false) s -> trim s = s.
Proof.
  intros Hs. rewrite Forall_forall in Hs. apply trimmed_trim. intros c [Hc|Hc]; apply Hs.
  - by apply head_Some_elem_of.
  - by apply last_Some_elem_of.
Qed.

Lemma parse_display max n : (n <= max)%N -> parse_unsigned max (trim (display_N n)) = Some n.
Proof.
  intros Hn. pose proof (display_N_digits n) as Hd. pose proof (display_N_value n) as Hv.
  rewrite trim_solid by (eapply Forall_impl; [exact Hd|]; intros c Hc; by apply digit_not_blank).
  unfold parse_unsigned. pose proof (display_N_nonempty n) as Hne.
  destruct (display_N n) as [|c s] eqn:E; [done|]. pose proof Hd as Hdigits. apply Forall_cons in Hd as [Hc _].
  rewrite (proj2 (digit_not_blank c Hc)). rewrite <- Hv. apply parse_digits_value; [done|]. by rewrite Hv.
Qed.

(** ** Accepted drafts *)

Record accepted (d : ProfileDraft) (p : ConnectionProfile) (port : N) : Prop := {
  ac_errors : id_error (trim (pd_id d)) = None /\ trim (pd_name d) <> [] /\ trim (pd_host d) <> [];
  ac_port : draft_port d = Some port;
  ac_database : database_error (pd_driver d) (optional_trimmed (pd_database d)) = None;
  ac_env : secret_env_error d = None;
  ac_tls : tls_error d = None;
  ac_ca : ca_file_error d = None;
  ac_profile : p =
    {| p_id := trim (pd_id d); p_name := trim (pd_name d); p_driver := pd_driver d; p_host := trim (pd_host d);
       p_port := port; p_database := optional_trimmed (pd_database d);
       p_username := optional_trimmed (pd_username d); p_tls := pd_tls d;
       p_credential_mode := pd_credential_mode d; p_secret_env := draft_secret_env d;
       p_redis_tls :=
         {| ca_file := if bool_decide (pd_driver d = Redis) && bool_decide (pd_tls d = Required)
                       then optional_trimmed (pd_redis_ca_file d) else None |} |};
}.

Lemma required_error_None value message : required_error value message = None <-> value <> [].
Proof. unfold required_error. case_bool_decide; naive_solver. Qed.

Lemma validate_accepted d p : validate d = Ok p <-> exists port, accepted d p port.
Proof.
  unfold validate. cbn zeta. split.
  - intros H. unfold errors_is_empty in H. cbn in H.
    destruct (id_error _) eqn:E1; [done|]. destruct (required_error (trim (pd_name d)) _) eqn:E2; [done|].
    destruct (required_error (trim (pd_host d)) _) eqn:E3; [done|]. destruct (draft_port d) as [port|] eqn:E4; [|done].
    destruct (database_error _ _) eqn:E5; [done|]. destruct (secret_env_error d) eqn:E6; [done|].
    destruct (tls_error d) eqn:E7; [done|]. destruct (ca_file_error d) eqn:E8; [done|]. cbn in H.
    apply required_error_None in E2, E3. injection H as <-. by exists port.
  - intros (port & [(E1 & E2 & E3) E4 E5 E6 E7 E8 ->]).
    apply (required_error_None _ "Display name is required") in E2. apply (required_error_None _ "Host is required") in E3.
    by rewrite E1, E2, E3, E4, E5, E6, E7, E8.
Qed.

Lemma id_error_None id : id_error id = None <-> valid_profile_id id = true.
Proof.
  unfold id_error. rewrite form_id_agrees. case_bool_decide as E; [by subst id|]. by destruct (valid_profile_id id).
Qed.

Lemma draft_port_range d port : draft_port d = Some port -> (1 <= port <= U16_MAX)%N.
Proof.
  unfold draft_port. intros H. apply bind_Some in H as (n & Hn & H). apply parse_unsigned_max in Hn.
  destruct (N.eqb_spec n 0); [done|]. injection H as <-. lia.
Qed.

Lemma secret_env_accepted d :
  secret_env_error d = None ->
  match pd_credential_mode d with
  | CredEnvironment => exists name, draft_secret_env d = Some name /\ valid_env_name name = true
  | _ => draft_secret_env d = None
  end.
Proof.
  unfold secret_env_error, draft_secret_env. destruct (pd_credential_mode d); try done. cbn.
  destruct (optional_trimmed _) as [name|]; [|done]. rewrite form_env_agrees.
  destruct (valid_env_name name) eqn:E; [|done]. eauto.
Qed.

(** What the service checks of the Redis fields, the CA file apart. *)
Lemma redis_fields_accepted (w : CaWorld) d p port :
  accepted d p port ->
  (if bool_decide (p_driver p = Redis) then
     _ ← match p_database p with
         | Some database => reject_if (bool_decide (parse_u32 database = None)) (field_error FDatabase)
         | None => Ok tt
         end;
     match p_tls p, ca_file (p_redis_tls p) with
     | Preferred, _ => Err (ProfileField FRedisTlsMode PcRedisTlsPreferredLegacy)
     | Disabled, Some _ => Err (field_error FRedisCaFile)
     | Required, Some ca_file => validate_ca_file w ca_file
     | Required, None | Disabled, None => Ok tt
     end
   else reject_if (negb (redis_tls_is_empty (p_redis_tls p))) (field_error FRedisCaFile))
  = match ca_file (p_redis_tls p) with Some path => validate_ca_file w path | None => Ok tt end.
Proof.
  intros [_ _ Hdb _ Htls _ ->]. cbn. unfold database_error, tls_error in *.
  destruct (bool_decide (pd_driver d = Redis)) eqn:E; cbn in *; [|done].
  assert (match optional_trimmed (pd_database d) with
          | Some database => reject_if (bool_decide (parse_u32 database = None)) (field_error FDatabase)
          | None => Ok tt
          end = Ok tt) as ->.
  { destruct (optional_trimmed (pd_database d)) as [db|]; [|done]. cbn in Hdb.
    by destruct (bool_decide (parse_u32 db = None)). }
  cbn. destruct (pd_tls d); cbn in *; try done.
Qed.

(** A field that is left out when it is blank is neither empty nor padded. *)
Lemma profile_text_ok d p port field text :
  accepted d p port -> field ∈ [p_database p; p_username p; p_secret_env p; ca_file (p_redis_tls p)] ->
  field = Some text -> text <> [] /\ trim text = text.
Proof.
  intros [_ _ _ _ _ _ ->] Hin ->. cbn in Hin. rewrite !elem_of_cons, elem_of_nil in Hin.
  unfold draft_secret_env in Hin.
  destruct Hin as [H|[H|[H|[H|[]]]]]; symmetry in H.
  - by apply optional_trimmed_spec in H.
  - by apply optional_trimmed_spec in H.
  - destruct (pd_credential_mode d); [done..|]. by apply optional_trimmed_spec in H.
  - destruct (_ && _) in H; [|done]. by apply optional_trimmed_spec in H.
Qed.

(** C20: every profile the form accepts is well formed for the service. Its identifier, name, host, port and credential fields pass the service's own checks of a new or changed profile, with only the contents of the CA file left to check, which it has only with required TLS on Redis; the port is between 1 and 65535, and every optional field that is present is neither empty nor padded. *)
Theorem form_profile_well_formed w d p :
  validate d = Ok p ->
  validate_profile_id (p_id p) = Ok tt /\
  validate_connection_draft w (as_draft p)
  = match ca_file (p_redis_tls p) with Some path => validate_ca_file w path | None => Ok tt end /\
  (is_Some (ca_file (p_redis_tls p)) -> p_driver p = Redis /\ p_tls p = Required) /\
  (1 <= p_port p <= U16_MAX)%N /\
  (forall field, field ∈ [p_database p; p_username p; p_secret_env p; ca_file (p_redis_tls p)] ->
   forall text, field = Some text -> text <> [] /\ trim text = text) /\
  trim (p_name p) = p_name p /\ trim (p_host p) = p_host p.
Proof.
  intros (port & Ha)%validate_accepted. pose proof (profile_text_ok d p port) as Htext. specialize Htext with (1 := Ha).
  pose proof (redis_fields_accepted w d p port Ha) as Hredis.
  pose proof (draft_port_range _ _ (ac_port _ _ _ Ha)) as Hport.
  destruct Ha as [(Hid & Hname & Hhost) _ _ Henv _ _ Hp]. apply id_error_None in Hid. apply secret_env_accepted in Henv.
  split_and!.
  - subst p. cbn. unfold validate_profile_id. by rewrite trim_idemp, bool_decide_true, Hid by done.
  - unfold validate_connection_draft. subst p. cbn in *. rewrite !trim_idemp, !(bool_decide_false (trim _ = [])) by done.
    rewrite (proj2 (N.eqb_neq port 0)) by lia. cbn. rewrite Hredis.
    destruct (pd_credential_mode d); cbn; [by rewrite Henv..|]. destruct Henv as (name & -> & Hn). cbn. by rewrite Hn.
  - subst p. cbn. destruct (bool_decide (pd_driver d = Redis)) eqn:E1; [|by intros []].
    destruct (bool_decide (pd_tls d = Required)) eqn:E2; [|by intros []].
    by apply bool_decide_eq_true in E1, E2.
  - subst p. cbn. lia.
  - subst p. cbn. lia.
  - intros field Hin text Hf. by apply (Htext field).
  - subst p. apply trim_idemp.
  - subst p. apply trim_idemp.
Qed.

(** ** From a profile to the form and back *)

Lemma optional_round (o : option str) :
  (forall text, o = Some text -> text <> [] /\ trim text = text) -> optional_trimmed (default [] o) = o.
Proof.
  intros H. destruct o as [text|]; cbn; [|done]. destruct (H text eq_refl). by apply optional_trimmed_same.
Qed.

(** What the strict checks of a stored profile leave for the form to refuse: nothing. *)
Lemma strict_fields w d :
  validate_connection_draft w d = Ok tt ->
  trim (d_name d) <> [] /\ trim (d_host d) <> [] /\ d_port d <> 0%N /\
  match d_credential_mode d with
  | CredEnvironment => exists name, d_secret_env d = Some name /\ valid_env_name name = true
  | _ => d_secret_env d = None
  end /\
  (if bool_decide (d_driver d = Redis) then
     (forall db, d_database d = Some db -> parse_u32 db <> None) /\ d_tls d <> Preferred /\
     (is_Some (ca_file (d_redis_tls d)) -> d_tls d = Required)
   else ca_file (d_redis_tls d) = None).
Proof.
  unfold validate_connection_draft. intros H.
  apply result_bind_Ok in H as ([] & H1%reject_if_Ok & H). apply result_bind_Ok in H as ([] & H2%reject_if_Ok & H).
  apply result_bind_Ok in H as ([] & H3%reject_if_Ok & H). apply result_bind_Ok in H as ([] & H4 & H).
  apply bool_decide_eq_false in H1, H2. apply N.eqb_neq in H3. split_and!; [done..| |].
  - destruct (d_credential_mode d); cbn in H4.
    1,2: apply reject_if_Ok, bool_decide_eq_false, eq_None_not_Some in H4; done.
    apply result_bind_Ok in H4 as (name & Hn%ok_or_Ok & H4%reject_if_Ok). exists name.
    by destruct (valid_env_name name).
  - destruct (bool_decide (d_driver d = Redis)).
    + apply result_bind_Ok in H as ([] & H5 & H). split_and!.
      * intros db Hdb. rewrite Hdb in H5. by apply reject_if_Ok, bool_decide_eq_false in H5.
      * intros Ht. by rewrite Ht in H.
      * intros [path Hp]. rewrite Hp in H. by destruct (d_tls d).
    + apply reject_if_Ok in H. unfold redis_tls_is_empty in H. by destruct (ca_file (d_redis_tls d)).
Qed.

(** What the strict checks do not ask of a profile, and the form always gives it. *)
Record tidy (p : ConnectionProfile) : Prop := {
  tidy_port : (p_port p <= U16_MAX)%N;
  tidy_names : trim (p_name p) = p_name p /\ trim (p_host p) = p_host p;
  tidy_fields field text :
    field ∈ [p_database p; p_username p; p_secret_env p; ca_file (p_redis_tls p)] -> field = Some text ->
    text <> [] /\ trim text = text;
}.

Lemma draft_port_of p :
  p_port p <> 0%N -> (p_port p <= U16_MAX)%N -> draft_port (draft_from_profile p) = Some (p_port p).
Proof.
  intros H0 Hm. unfold draft_port. cbn [draft_from_profile pd_port]. rewrite parse_display by done.
  cbn. by rewrite (proj2 (N.eqb_neq _ _)).
Qed.

Lemma profile_eq p q :
  p_id p = p_id q -> as_draft p = as_draft q -> p = q.
Proof. destruct p, q. cbn. by intros -> [= -> -> -> -> -> -> -> -> -> ->]. Qed.

(** The CA file that a profile's form submits. *)
Lemma draft_ca_of p :
  (if bool_decide (p_driver p = Redis)
   then p_tls p <> Preferred /\ (is_Some (ca_file (p_redis_tls p)) -> p_tls p = Required)
   else ca_file (p_redis_tls p) = None) ->
  optional_trimmed (default [] (ca_file (p_redis_tls p))) = ca_file (p_redis_tls p) ->
  ca_file_error (draft_from_profile p) = None /\
  (if bool_decide (p_driver p = Redis) && bool_decide (p_tls p = Required)
   then optional_trimmed (pd_redis_ca_file (draft_from_profile p)) else None) = ca_file (p_redis_tls p).
Proof.
  unfold ca_file_error. cbn. destruct (bool_decide (p_driver p = Redis)) eqn:Er; cbn.
  - intros [Hpref Hreq] Hround. destruct (p_tls p); cbn.
    + split; [done|]. destruct (ca_file (p_redis_tls p)) as [path|]; [|done]. by discriminate (Hreq (mk_is_Some _ _ eq_refl)).
    + done.
    + split; [by repeat case_match|exact Hround].
  - intros -> _. done.
Qed.

(** C22: editing keeps what it does not touch. The form that opens on a profile which passes the strict checks of stored profiles, with tidy fields, submits exactly that profile again: the port, the optional fields, the credential fields and the CA file all come back from their texts. *)
Theorem edit_round_trip w p :
  validate_profile_id (p_id p) = Ok tt -> validate_connection_draft w (as_draft p) = Ok tt -> tidy p ->
  validate (draft_from_profile p) = Ok p.
Proof.
  intros Hid (Hname & Hhost & Hport & Henv & Hredis)%strict_fields [Hmax [Tname Thost] Tfields]. cbn in *.
  unfold validate_profile_id in Hid. destruct (bool_decide (trim (p_id p) = p_id p)) eqn:Etrim; [|done].
  apply bool_decide_eq_true in Etrim. destruct (valid_profile_id (p_id p)) eqn:Evalid; [|done].
  assert (forall field, field ∈ [p_database p; p_username p; p_secret_env p; ca_file (p_redis_tls p)] ->
    optional_trimmed (default [] field) = field) as Hround
    by (intros field Hin; apply optional_round; intros text; by apply Tfields).
  destruct (draft_ca_of p) as [Hca_ok Hca];
    [by destruct (bool_decide (p_driver p = Redis)); [destruct Hredis|]|by apply Hround; set_solver|].
  apply validate_accepted. exists (p_port p). split; cbn [pd_id pd_name pd_host pd_driver pd_database draft_from_profile].
  - rewrite Etrim, Tname, Thost, id_error_None. split_and!; [done|by rewrite <- Tname|by rewrite <- Thost].
  - by apply draft_port_of.
  - rewrite Hround by set_solver. destruct (p_database p) as [db|]; [cbn|done].
    destruct (bool_decide (p_driver p = Redis)); [cbn|done]. by rewrite bool_decide_false by (apply Hredis; done).
  - unfold secret_env_error, draft_secret_env. cbn. destruct (p_credential_mode p); try done. cbn.
    destruct Henv as (name & Hname' & Hvalid). rewrite Hround, Hname', form_env_agrees, Hvalid by set_solver. done.
  - unfold tls_error. cbn. destruct (bool_decide (p_driver p = Redis)); [cbn|done].
    by rewrite bool_decide_false by apply Hredis.
  - done.
  - apply profile_eq; [done|]. unfold as_draft. cbn -[pd_redis_ca_file].
    rewrite Tname, Thost, !Hround, Hca by set_solver. f_equal.
    + unfold draft_secret_env. cbn. destruct (p_credential_mode p); [done..|]. by rewrite Hround by set_solver.
    + by destruct (p_redis_tls p).
Qed.

(** ** The form at work: a Redis profile with required TLS and an environment secret *)

Definition sample_form_draft : ProfileDraft :=
  {| pd_id := lit "cache-1"; pd_name := lit " Cache "; pd_driver := Redis; pd_host := lit "redis.example";
     pd_port := lit "6380 "; pd_database := lit "2"; pd_username := []; pd_tls := Required;
     pd_credential_mode := CredEnvironment; pd_secret_env := lit "REDIS_PASSWORD"; pd_redis_ca_file := [] |}.

Definition sample_form_profile : ConnectionProfile :=
  {| p_id := lit "cache-1"; p_name := lit "Cache"; p_driver := Redis; p_host := lit "redis.example"; p_port := 6380;
     p_database := Some (lit "2"); p_username := None; p_tls := Required; p_credential_mode := CredEnvironment;
     p_secret_env := Some (lit "REDIS_PASSWORD"); p_redis_tls := {| ca_file := None |} |}.

Lemma form_profile_well_formed_witness :
  validate sample_form_draft = Ok sample_form_profile /\
  validate_connection_draft sample_ca (as_draft sample_form_profile) = Ok tt.
Proof.
  split; [vm_compute; reflexivity|].
  exact (proj1 (proj2 (form_profile_well_formed sample_ca sample_form_draft sample_form_profile
    ltac:(vm_compute; reflexivity)))).
Defined.

Lemma sample_tidy : tidy sample_form_profile.
Proof.
  split; [done|done|]. intros field text Hin ->. cbn in Hin. rewrite !elem_of_cons, elem_of_nil in Hin.
  destruct Hin as [[= ->]|[[=]|[[= ->]|[[=]|[]]]]]; done.
Qed.

Lemma edit_round_trip_witness :
  pd_port (draft_from_profile sample_form_profile) = lit "6380" /\
  validate (draft_from_profile sample_form_profile) = Ok sample_form_profile.
Proof.
  split; [vm_compute; reflexivity|].
  exact (edit_round_trip sample_ca sample_form_profile eq_refl ltac:(vm_compute; reflexivity) sample_tidy).
Defined.
