(* ===== verification/ProfileFormSaves.v ===== *)
(** * What a form gives away (theorems on ProfileForm)

    The invariant of every form the user can reach, and what Save does with the secret
    and the mutation lane. *)

From S2P Require Import Prelude RustStr Model Secrets Profile Config Drivers Service PublicError UiModel.
From S2P Require Import DraftTests Tokio CommandPorts ProfileForm.

(** ** The invariant *)

(** The credential action that the form's policy allows. *)
Definition intent_ok (e : ProfileEditor) : Prop :=
  match form_policy e with
  | Some policy => exists intent, pf_session_intent e = Some intent /\ intent ∈ allowed policy
  | None => pf_session_intent e = None
  end.

(** The secret and the CA file are only held where they have a use, at most one
    operation is pending, and a pending save is the form's own. *)
Record form_ok (e : ProfileEditor) : Prop := {
  fo_intent : intent_ok e;
  fo_buffer : pf_replacement_secret e <> [] -> pf_session_intent e = Some IntentReplace;
  fo_ca_file : pd_redis_ca_file (pf_draft e) <> [] -> pd_driver (pf_draft e) = Redis /\ pd_tls (pf_draft e) <> Disabled;
  fo_single : pf_pending_save e = None \/ pf_pending_draft_test e = None;
  fo_pending pending : pf_pending_save e = Some pending ->
    exists operation_id connect, pending = pending_for e operation_id connect;
}.

Lemma policy_default_allowed mode context policy :
  session_intent_policy mode context = Some policy -> policy_default policy ∈ allowed policy.
Proof.
  unfold session_intent_policy. destruct (negb _); [done|].
  destruct context as [|[]]; intros [= <-]; cbn; set_solver.
Qed.

Lemma new_form_ok draft_id driver : form_ok (ProfileEditor_new draft_id driver).
Proof. split; cbn; try done. by left. Qed.

Lemma edit_form_ok draft_id profile generation has_current :
  form_ok (edit draft_id profile generation has_current).
Proof.
  split; cbn; try done; [| |by left].
  - unfold intent_ok, form_policy. cbn. destruct (p_credential_mode profile); cbn; [done| |done].
    destruct has_current; cbn; eexists; (split; [done|set_solver]).
  - destruct (bool_decide (p_driver profile = Redis)) eqn:E1; cbn; [|done].
    destruct (bool_decide (p_tls profile = Disabled)) eqn:E2; cbn; [done|]. intros _.
    by apply bool_decide_eq_true in E1; apply bool_decide_eq_false in E2.
Qed.

(** What the invariant reads of a form. *)
Definition same_held (e e' : ProfileEditor) : Prop :=
  pf_mode e' = pf_mode e /\ pf_draft_id e' = pf_draft_id e /\
  pf_session_keep_available e' = pf_session_keep_available e /\
  pf_session_intent e' = pf_session_intent e /\ pf_replacement_secret e' = pf_replacement_secret e /\
  pd_driver (pf_draft e') = pd_driver (pf_draft e) /\ pd_tls (pf_draft e') = pd_tls (pf_draft e) /\
  pd_credential_mode (pf_draft e') = pd_credential_mode (pf_draft e) /\
  pd_redis_ca_file (pf_draft e') = pd_redis_ca_file (pf_draft e).

Lemma same_held_policy e e' : same_held e e' -> form_policy e' = form_policy e.
Proof.
  intros (Hm & _ & Hk & _ & _ & _ & _ & Hc & _). unfold form_policy, credential_context. by rewrite Hm, Hk, Hc.
Qed.

Lemma same_held_pending e e' : same_held e e' -> pending_for e' = pending_for e.
Proof. intros (Hm & Hd & _). unfold pending_for. by rewrite Hm, Hd. Qed.

Lemma held_ok e e' :
  same_held e e' -> (pf_pending_save e' = None \/ pf_pending_draft_test e' = None) ->
  (forall pending, pf_pending_save e' = Some pending ->
     exists operation_id connect, pending = pending_for e operation_id connect) ->
  form_ok e -> form_ok e'.
Proof.
  intros Hs H1 H2 [Hi Hb Hca _ _]. pose proof (same_held_policy _ _ Hs) as Hp. pose proof (same_held_pending _ _ Hs) as Hf.
  destruct Hs as (_ & _ & _ & Hint & Hbuf & Hd & Ht & _ & Hc).
  split.
  - unfold intent_ok. by rewrite Hp, Hint.
  - by rewrite Hbuf, Hint.
  - by rewrite Hc, Hd, Ht.
  - done.
  - intros pending Hpend. rewrite Hf. by apply H2.
Qed.

(** A step that leaves the pending operations alone. *)
Lemma held_same_ok e e' :
  same_held e e' -> pf_pending_save e' = pf_pending_save e -> pf_pending_draft_test e' = pf_pending_draft_test e ->
  form_ok e -> form_ok e'.
Proof.
  intros Hs H1 H2 Hok. pose proof Hok as [_ _ _ H3 H4]. apply (held_ok e); [done| | |done]; rewrite H1.
  - by rewrite H2.
  - apply H4.
Qed.

(** A step that can only end what is pending. *)
Lemma held_ended_ok e e' :
  same_held e e' -> (pf_pending_save e' = None \/ pf_pending_save e' = pf_pending_save e) ->
  (pf_pending_draft_test e' = None \/ pf_pending_draft_test e' = pf_pending_draft_test e) ->
  form_ok e -> form_ok e'.
Proof.
  intros Hs H1 H2 Hok. pose proof Hok as [_ _ _ H3 H4]. apply (held_ok e); [done| | |done].
  - destruct H1 as [->| ->]; [by left|]. destruct H2 as [->| ->]; [by right|done].
  - intros pending. destruct H1 as [->| ->]; [done|apply H4].
Qed.

#[local] Ltac held := solve [repeat split].

(** ** Every step keeps it *)

Lemma clear_probe_ok e : form_ok e -> form_ok (clear_probe e).
Proof. apply held_same_ok; held. Qed.

Lemma set_status_ok e status : form_ok e -> form_ok (set_status e status).
Proof. apply held_same_ok; held. Qed.

Lemma driver_selected_ok e driver : form_ok e -> form_ok (set_draft e (select_driver (pf_draft e) driver)).
Proof.
  intros [Hi Hb Hca H3 H4]. split; cbn; try done.
  destruct (bool_decide (driver = Redis)) eqn:E; [|done]. apply bool_decide_eq_true in E as ->.
  intros [Hd Ht]%Hca. split; [done|]. rewrite (bool_decide_true (_ = Redis)) by done. done.
Qed.

Lemma tls_selected_ok e tls : form_ok e -> form_ok (set_draft e (select_tls (pf_draft e) tls)).
Proof.
  intros [Hi Hb Hca H3 H4]. split; cbn; try done.
  destruct (bool_decide (pd_driver (pf_draft e) = Redis)) eqn:E; cbn.
  - destruct (bool_decide (tls = Required)) eqn:E2; cbn; [|done]. apply bool_decide_eq_true in E, E2. by subst.
  - intros [Hd _]%Hca. by rewrite Hd in E.
Qed.

Lemma credential_mode_ok e mode :
  pd_credential_mode (pf_draft e) <> mode -> form_ok e -> form_ok (select_credential_mode e mode).
Proof.
  intros Hmode [Hi Hb Hca H3 H4]. unfold select_credential_mode. split.
  - unfold intent_ok, form_policy.
    destruct (bool_decide (mode = CredSession)); cbn -[session_intent_policy];
      fold (credential_context e); unfold credential_context; cbn -[session_intent_policy];
      destruct (session_intent_policy mode _) as [policy|] eqn:E; cbn; try done;
      exists (policy_default policy); (split; [done|]); by eapply policy_default_allowed.
  - destruct (bool_decide (mode = CredSession)) eqn:E; cbn -[session_intent_policy]; [|done].
    intros Hintent%Hb. apply bool_decide_eq_true in E as ->. unfold intent_ok, form_policy, session_intent_policy in Hi.
    rewrite bool_decide_false in Hi by done. cbn in Hi. congruence.
  - destruct (bool_decide (mode = CredSession)); cbn; done.
  - destruct (bool_decide (mode = CredSession)); cbn; done.
  - destruct (bool_decide (mode = CredSession)); cbn; done.
Qed.

Lemma session_intent_ok e intent : form_ok e -> form_ok (select_session_intent e intent).
Proof.
  intros Hok. pose proof Hok as [Hi Hb Hca H3 H4]. unfold select_session_intent.
  destruct (form_policy e) as [policy|] eqn:Ep; [|done].
  destruct (bool_decide (intent ∈ allowed policy)) eqn:Ea; [cbn|done]. apply bool_decide_eq_true in Ea.
  destruct (bool_decide (intent = IntentReplace)) eqn:Er; split; cbn; try done.
  1,3: unfold intent_ok; change (form_policy _) with (form_policy e); rewrite Ep; by exists intent.
  intros _. by apply bool_decide_eq_true in Er as ->.
Qed.

(** Typing a replacement needs the form to show it. *)
Lemma shown_intent_ok e :
  form_ok e -> shown_intent e = Some IntentReplace -> pf_session_intent e = Some IntentReplace.
Proof.
  intros [Hi _ _ _ _]. unfold shown_intent, intent_ok in *. destruct (form_policy e) as [policy|]; [|done].
  destruct Hi as (intent & -> & _). done.
Qed.

Lemma replacement_ok e text :
  form_ok e -> shown_intent e = Some IntentReplace -> form_ok (set_replacement_secret e text).
Proof. intros Hok Hs. pose proof (shown_intent_ok e Hok Hs). by destruct Hok. Qed.

Lemma ca_file_typed_ok e path :
  form_ok e -> redis_ca_picker_visible e = true -> form_ok (set_draft e (draft_with_ca_file (pf_draft e) path)).
Proof.
  intros [Hi Hb Hca H3 H4] Hv. split; cbn; try done. intros _. unfold redis_ca_picker_visible in Hv.
  apply andb_true_iff in Hv as [H1%bool_decide_eq_true H2%bool_decide_eq_true]. by rewrite H1, H2.
Qed.

Lemma form_input_ok e input : form_ok e -> form_ok (form_input e input).
Proof.
  intros Hok. unfold form_input. destruct (pf_config_uncertain e); [done|].
  destruct input; try (apply (held_same_ok e); [held..|done]); try (case_match; [|done]).
  - by apply driver_selected_ok.
  - apply (held_same_ok e); [held..|done].
  - apply (held_same_ok e); [held..|done].
  - by apply tls_selected_ok.
  - by apply ca_file_typed_ok.
  - case_bool_decide; [done|]. by apply credential_mode_ok.
  - apply (held_same_ok e); [held..|done].
  - by apply session_intent_ok.
  - apply replacement_ok; [done|]. by eapply bool_decide_eq_true.
  - apply (held_same_ok e); [held..|done].
Qed.

(** The intent without a policy that a frame would forget does not arise. *)
Lemma forgotten_intent_ok e :
  form_ok e ->
  form_ok (match pd_credential_mode (pf_draft e), form_policy e with
           | CredSession, None => set_session_intent e None
           | _, _ => e
           end).
Proof.
  intros Hok. destruct (pd_credential_mode (pf_draft e)) eqn:Em; try done.
  destruct (form_policy e) eqn:Ep; [done|]. exfalso. unfold form_policy, session_intent_policy in Ep. rewrite Em in Ep.
  cbn in Ep. by destruct (credential_context e) as [|[]].
Qed.

Lemma form_frame_ok e : form_ok e -> form_ok (form_frame e).
Proof.
  intros Hok. unfold form_frame. cbn zeta. apply forgotten_intent_ok. case_match; [by apply clear_probe_ok|done].
Qed.

Lemma handle_event_ok e event : form_ok e -> form_ok (handle_event e event).2.
Proof.
  intros Hok.
  assert (forall status, form_ok (end_save e status)) as Hsave
    by (intros status; apply (held_ended_ok e); [held|by left|by right|done]).
  assert (forall status, form_ok (end_test e status)) as Htest
    by (intros status; apply (held_ended_ok e); [held|by right|by left|done]).
  assert (form_ok (set_form_uncertain e true)) as Hun
    by (apply (held_ended_ok e); [held|by right|by left|done]).
  unfold handle_event. destruct event; try done;
    (destruct (pf_config_uncertain e); [done|]); try done; (case_match; [|done]); cbn; auto.
Qed.

(** ** What Save does *)

(** The update of the stored credential that a form promises. *)
Definition promised_update (e : ProfileEditor) : SessionSecretUpdate :=
  match pf_session_intent e with
  | Some KeepCurrent => UpdateKeep
  | Some IntentReplace => UpdateReplace (pf_replacement_secret e)
  | Some Forget | None => UpdateClear
  end.

Lemma validate_mode d p : validate d = Ok p -> p_credential_mode p = pd_credential_mode d.
Proof. unfold validate. cbn zeta. destruct (negb _); [done|]. destruct (draft_port d); [|done]. by intros [= <-]. Qed.

Lemma checked_mode e profile :
  checked_profile e = Ok profile -> p_credential_mode profile = pd_credential_mode (pf_draft e).
Proof.
  unfold checked_profile. destruct (validate (submitted_draft e)) as [p|] eqn:Hv; [|done]. intros H.
  apply validate_mode in Hv. assert (p = profile) as ->.
  { repeat case_match; simplify_eq; done. }
  rewrite Hv. unfold submitted_draft. by destruct (uses_auto_id e).
Qed.

(** The replacement that Save takes, and the update it makes of it: a form with its
    invariant fails to make one only when it has nothing to replace the secret with. *)
Lemma taken_update e :
  form_ok e ->
  match taken_replacement e with
  | (Err _, e') => e' = set_replacement_secret e [] /\ pf_replacement_secret e = []
  | (Ok replacement, e') =>
      session_update_for_save (pd_credential_mode (pf_draft e)) (credential_context e) (pf_session_intent e) replacement
      = Ok (promised_update e) /\
      (e' = e \/ e' = set_replacement_secret e []) /\ pf_replacement_secret e' = []
  end.
Proof.
  intros [Hi Hb _ _ _]. unfold taken_replacement, take_for_save, session_update_for_save, promised_update.
  assert (pf_session_intent e <> Some IntentReplace -> pf_replacement_secret e = []) as Hempty
    by (intros H; destruct (pf_replacement_secret e); [done|by exfalso; apply H, Hb]).
  unfold intent_ok, form_policy in Hi. clear Hb.
  destruct (session_intent_policy _ (credential_context e)) as [policy|].
  - destruct Hi as (intent & Hint & Hallowed). rewrite Hint in *. cbn. rewrite (bool_decide_true (intent ∈ _)) by done.
    destruct intent; cbn; try (split_and!; [done|by left|by apply Hempty]).
    destruct (bool_decide_reflect (pf_replacement_secret e = [])) as [Hbuf|Hbuf]; cbn; [by rewrite Hbuf|].
    split_and!; [done|by right|done].
  - rewrite Hi in *. cbn. split_and!; [done|by left|by apply Hempty].
Qed.

Section port.
Context `{T : Tokio} {laws : TokioLaws T}.

(** The lanes that Save leaves alone. *)
Definition same_other_lanes (p p' : Ports) : Prop :=
  po_work p' = po_work p /\ po_control p' = po_control p /\ po_shutdown p' = po_shutdown p /\
  po_shutdown_gone p' = po_shutdown_gone p /\ po_events p' = po_events p /\ po_keys p' = po_keys p /\
  po_keys_poisoned p' = po_keys_poisoned p.

(** Nothing was sent, and no place of the lane is held. *)
Definition nothing_sent (p p' : Ports) : Prop :=
  queued (po_mutation p') = queued (po_mutation p) /\ reserved (po_mutation p') = reserved (po_mutation p) /\
  same_other_lanes p p'.

Lemma nothing_sent_refl p : nothing_sent p p.
Proof. by repeat split. Qed.

(** A reservation that is refused changes nothing; one that is made can be sent on or dropped. *)
Lemma reserve_mutation p :
  match try_reserve_mutation p with
  | (Err _, p') => nothing_sent p p'
  | (Ok _, p') =>
      nothing_sent p (withdraw_permit p') /\
      (forall command, queued (permit_send command (po_mutation p')) = queued (po_mutation p) ++ [command] /\
         reserved (permit_send command (po_mutation p')) = reserved (po_mutation p)) /\
      same_other_lanes p p'
  end.
Proof using laws.
  unfold try_reserve_mutation. destruct (refused (po_mutation p)) as [error|] eqn:Er.
  - rewrite (try_reserve_refused _ _ _ Er). cbn. by repeat split.
  - destruct (try_reserve_done _ _ Er) as (lane & -> & Hq & Hr & _). cbn.
    assert (reserved lane <> 0) as Hpos by lia. split_and!.
    + destruct (permit_dropped _ lane Hpos) as (H1 & H2 & _). unfold nothing_sent, withdraw_permit. cbn.
      split_and!; [congruence|lia|by repeat split].
    + intros command. destruct (permit_sent _ command lane Hpos) as (H1 & H2 & _). split; [congruence|lia].
    + by repeat split.
Qed.

(** The fields of a form that Save never changes. *)
Definition same_form (e e' : ProfileEditor) : Prop :=
  pf_mode e' = pf_mode e /\ pf_draft_id e' = pf_draft_id e /\ pf_draft e' = pf_draft e /\
  pf_session_keep_available e' = pf_session_keep_available e /\ pf_session_intent e' = pf_session_intent e /\
  pf_migration_confirmed e' = pf_migration_confirmed e /\ pf_pending_draft_test e' = pf_pending_draft_test e /\
  pf_config_uncertain e' = pf_config_uncertain e.

(** Save gave up: nothing was sent and the form holds what it held. *)
Definition save_gave_up (e : ProfileEditor) (p : Ports) (e' : ProfileEditor) (p' : Ports) : Prop :=
  nothing_sent p p' /\ pf_replacement_secret e' = pf_replacement_secret e /\ pf_pending_save e' = pf_pending_save e /\
  same_form e e'.

(** Save sent its command: it is the last one of the mutation lane, and the form waits for it. *)
Definition save_sent (e : ProfileEditor) (operation_id : OperationId) (connect : bool) (p : Ports)
    (e' : ProfileEditor) (p' : Ports) : Prop :=
  exists profile,
    save_refusal e = None /\ checked_profile e = Ok profile /\
    queued (po_mutation p')
    = queued (po_mutation p) ++ [save_command e operation_id profile (promised_update e)] /\
    reserved (po_mutation p') = reserved (po_mutation p) /\ same_other_lanes p p' /\
    pf_replacement_secret e' = [] /\ pf_pending_save e' = Some (pending_for e operation_id connect) /\ same_form e e'.

Lemma gave_up_status e p e' p' :
  nothing_sent p p' -> same_form e e' -> pf_replacement_secret e' = pf_replacement_secret e ->
  pf_pending_save e' = pf_pending_save e -> save_gave_up e p e' p'.
Proof. by intros. Qed.

Lemma checked_error_form e e' :
  checked_profile e = Err e' ->
  same_form e e' /\ pf_replacement_secret e' = pf_replacement_secret e /\ pf_pending_save e' = pf_pending_save e.
Proof. unfold checked_profile. intros H. repeat case_match; simplify_eq; by repeat split. Qed.

Lemma save_command_lane e operation_id profile update :
  cmd_lane (save_command e operation_id profile update) = LaneMutation.
Proof. unfold save_command. by destruct (pf_mode e). Qed.

(** What follows a reservation of the lane. *)
Lemma save_reserved e operation_id connect profile p p1 :
  form_ok e -> save_refusal e = None -> checked_profile e = Ok profile -> try_reserve_mutation p = (Ok tt, p1) ->
  match try_save_with_connect e operation_id connect p with
  | (SaveSubmitted submitted, e', p') => submitted = operation_id /\ save_sent e operation_id connect p e' p'
  | (_, e', p') => save_gave_up e p e' p'
  end.
Proof using laws.
  intros Hok Hr Hc Hres. pose proof (reserve_mutation p) as Hlane. rewrite Hres in Hlane.
  destruct Hlane as (Hdrop & Hsend & Hother). unfold try_save_with_connect. rewrite Hr, Hc, Hres.
  pose proof (taken_update e Hok) as Ht. rewrite (checked_mode _ _ Hc).
  destruct (taken_replacement e) as [[replacement|error] e1].
  - destruct Ht as (-> & He1 & Hbuf). unfold permit_submit.
    assert (save_command e1 = save_command e) as Hcmd by (destruct He1 as [->| ->]; done).
    rewrite Hcmd, save_command_lane. cbn. split; [done|]. exists profile.
    destruct (Hsend (save_command e operation_id profile (promised_update e))) as [Hq Hrv].
    split_and!; try done. by destruct He1 as [->| ->]; repeat split.
  - destruct Ht as (-> & Hempty). by apply gave_up_status.
Qed.

(** Save ends in exactly one of two ways. *)
Lemma save_ends e operation_id connect p :
  form_ok e ->
  match try_save_with_connect e operation_id connect p with
  | (SaveSubmitted submitted, e', p') => submitted = operation_id /\ save_sent e operation_id connect p e' p'
  | (_, e', p') => save_gave_up e p e' p'
  end.
Proof using laws.
  intros Hok. destruct (save_refusal e) as [[attempt status]|] eqn:Hr.
  { unfold try_save_with_connect. rewrite Hr. unfold save_refusal in Hr.
    repeat case_match; simplify_eq; (apply gave_up_status; [apply nothing_sent_refl|by repeat split..]). }
  destruct (checked_profile e) as [profile|e1] eqn:Hc.
  - destruct (try_reserve_mutation p) as [[[]|error] p1] eqn:Hres.
    + by eapply save_reserved.
    + pose proof (reserve_mutation p) as Hlane. rewrite Hres in Hlane.
      unfold try_save_with_connect. rewrite Hr, Hc, Hres.
      destruct error; cbn; (apply gave_up_status; [done|by repeat split..]).
  - unfold try_save_with_connect. rewrite Hr, Hc. destruct (checked_error_form _ _ Hc) as (? & ? & ?).
    by apply gave_up_status; [apply nothing_sent_refl|..].
Qed.

(** ** Reachable forms *)

Lemma same_form_held e e' :
  same_form e e' -> pf_replacement_secret e' = pf_replacement_secret e -> same_held e e'.
Proof. intros (? & ? & Hd & ? & ? & _) ?. unfold same_held. by rewrite Hd. Qed.

Lemma save_form_ok e operation_id connect p :
  form_ok e -> form_ok (try_save_with_connect e operation_id connect p).1.2.
Proof using laws.
  intros Hok. pose proof (save_ends e operation_id connect p Hok) as H.
  destruct (try_save_with_connect e operation_id connect p) as [[attempt e'] p']. cbn.
  assert (save_gave_up e p e' p' -> form_ok e') as Hgave.
  { intros (_ & Hb & Hp & Hs). apply (held_same_ok e); [by apply same_form_held|done|apply Hs|done]. }
  destruct attempt; auto. destruct H as (_ & profile & Hr & _ & _ & _ & _ & Hbuf & Hp & Hs).
  assert (pf_pending_draft_test e' = None) as Htest.
  { replace (pf_pending_draft_test e') with (pf_pending_draft_test e) by (symmetry; apply Hs).
    unfold save_refusal in Hr. by repeat case_match. }
  apply (held_ok (set_replacement_secret e [])).
  - destruct Hs as (? & ? & Hd & ? & ? & _). unfold same_held. cbn. by rewrite Hd.
  - by right.
  - intros pending. rewrite Hp. intros [= <-]. by exists operation_id, connect.
  - by destruct Hok.
Qed.

Lemma test_form_ok e operation_id p : form_ok e -> form_ok (try_test_draft e operation_id p).1.2.
Proof.
  intros Hok.
  assert (forall e', same_held e e' -> pf_pending_save e' = pf_pending_save e ->
    pf_pending_draft_test e' = pf_pending_draft_test e -> form_ok e') as Hsame by (intros; by apply (held_same_ok e)).
  unfold try_test_draft. destruct (test_refusal e) as [[attempt e1]|] eqn:Hr.
  { unfold test_refusal in Hr. repeat case_match; simplify_eq; cbn; by apply Hsame. }
  repeat case_match; simplify_eq; cbn; try (by apply Hsame).
  assert (pf_pending_save e = None) as Hp.
  { unfold test_refusal, pending_operation in Hr. destruct (pf_pending_save e); [cbn in Hr|done].
    by repeat case_match. }
  apply (held_ok e); [held|by left| |done]. intros pending. cbn. by rewrite Hp.
Qed.

(** One thing that happens to an open form; the rest of the interface uses the ports too. *)
Inductive form_step : ProfileEditor * Ports -> ProfileEditor * Ports -> Prop :=
| FsInput input e p : form_step (e, p) (form_input e input, p)
| FsFrame e p : form_step (e, p) (form_frame e, p)
| FsProbe var e p : form_step (e, p) (probe_environment_availability var e, p)
| FsCaPicked path e p : form_step (e, p) (bind_redis_ca_file e path, p)
| FsSave operation_id connect e p :
    form_step (e, p) ((try_save_with_connect e operation_id connect p).1.2,
                      (try_save_with_connect e operation_id connect p).2)
| FsTest operation_id e p :
    form_step (e, p) ((try_test_draft e operation_id p).1.2, (try_test_draft e operation_id p).2)
| FsEvent event e p : form_step (e, p) ((handle_event e event).2, p)
| FsPolled uncertain required backup e p :
    form_step (e, p) (set_migration_presentation (set_form_uncertain e uncertain) required backup, p)
| FsFocus field e p : form_step (e, p) (request_focus e field, p)
| FsPorts e p p' : form_step (e, p) (e, p').

Lemma polled_ok e uncertain required backup :
  form_ok e -> form_ok (set_migration_presentation (set_form_uncertain e uncertain) required backup).
Proof.
  intros Hok. destruct uncertain, required;
    (apply (held_ended_ok e); [held|by right|first [by left|by right]|done]).
Qed.

Lemma form_step_ok s s' : form_step s s' -> form_ok s.1 -> form_ok s'.1.
Proof using laws.
  intros []; cbn [fst snd]; intros Hok; try (by apply (held_same_ok e); [held..|]); try done.
  - by apply form_input_ok.
  - by apply form_frame_ok.
  - unfold bind_redis_ca_file. destruct (redis_ca_picker_visible e) eqn:Hv; [cbn|done].
    apply (held_same_ok (set_draft e (draft_with_ca_file (pf_draft e) path))); [held..|by apply ca_file_typed_ok].
  - by apply save_form_ok.
  - by apply test_form_ok.
  - by apply handle_event_ok.
  - by apply polled_ok.
Qed.

(** A form as it is opened. *)
Inductive form_opened : ProfileEditor -> Prop :=
| OpenedNew draft_id driver : form_opened (ProfileEditor_new draft_id driver)
| OpenedEdit draft_id profile generation has_current : form_opened (edit draft_id profile generation has_current).

Definition form_reached (e : ProfileEditor) (p : Ports) : Prop :=
  exists e0 p0, form_opened e0 /\ rtc form_step (e0, p0) (e, p).

Lemma form_reached_ok e p : form_reached e p -> form_ok e.
Proof using laws.
  intros (e0 & p0 & Hopen & Hsteps).
  assert (form_ok e0) as Hok by (destruct Hopen; [apply new_form_ok|apply edit_form_ok]).
  change (form_ok (e0, p0).1) in Hok. change (form_ok (e, p).1).
  induction Hsteps as [|s1 s2 s3 Hstep _ IH]; [done|]. apply IH. by eapply form_step_ok.
Qed.

(** In every form that can be reached from opening it, whatever the user types and chooses and whatever events arrive, the credential action is one that the form's policy allows, a replacement secret is held only while Replace is chosen, a CA file only for Redis with TLS, at most one of Save and Test is pending, and a pending save is the form's own. *)
Theorem reached_form_ok e p : form_reached e p -> form_ok e.
Proof using laws. apply form_reached_ok. Qed.

(** C21: Save in a form that can be reached either sends or changes nothing of what the form holds. When it sends, exactly one command enters the mutation lane, with the form's own draft id or the generation it was opened at, the accepted profile, and the credential update that the form shows: Keep, Forget, or the replacement, which the form no longer has afterwards. When it gives up - the fields are wrong, the lane is full, an operation is pending - no command and no reservation stays in the lane, and the replacement, the draft and what is pending are as before. *)
Theorem save_sends_or_keeps e p operation_id connect :
  form_reached e p ->
  match try_save_with_connect e operation_id connect p with
  | (SaveSubmitted submitted, e', p') => submitted = operation_id /\ save_sent e operation_id connect p e' p'
  | (_, e', p') => save_gave_up e p e' p'
  end.
Proof using laws. intros Hok%form_reached_ok. by apply save_ends. Qed.

(** A save that is answered by an uncertain configuration stays pending: once the profiles are loaded again Save is refused as already pending, and Test and Cancel are disabled. *)
Theorem uncertain_save_locks_form e pending uncertain_operation operation_id connect p :
  pf_pending_save e = Some pending ->
  let e' := set_form_uncertain (handle_event e (ConfigUncertain uncertain_operation)).2 false in
  actions_enabled e' = false /\ cancel_enabled e' = false /\
  (try_save_with_connect e' operation_id connect p).1.1 = SaveAlreadyPending (ps_operation_id pending).
Proof using T.
  intros H. cbn [handle_event snd]. set (e' := set_form_uncertain _ false).
  assert (pf_pending_save e' = Some pending) as Hp by exact H.
  assert (pf_config_uncertain e' = false) as Hu by reflexivity.
  unfold actions_enabled, cancel_enabled, idle, try_save_with_connect, save_refusal, pending_operation.
  rewrite Hp, Hu. cbn. by rewrite andb_false_r.
Qed.
End port.

(** ** A form at work: a new profile with a session secret is typed and saved *)

Definition typed_inputs : list FormInput :=
  [InputName (lit "Shop"); InputCredentialMode CredSession; InputReplacement (lit "pw")].

Definition typed_form : ProfileEditor := fold_left form_input typed_inputs (ProfileEditor_new 7 MySql).

Lemma inputs_reached `{T : Tokio} inputs e (p : Ports) :
  form_reached e p -> form_reached (fold_left form_input inputs e) p.
Proof.
  revert e. induction inputs as [|input inputs IH]; intros e H; [done|]. cbn. apply IH.
  destruct H as (e0 & p0 & Ho & Hs). exists e0, p0. split; [done|]. eapply rtc_r; [exact Hs|constructor].
Qed.

Lemma typed_reached : form_reached (T := queues) typed_form controller_ports.
Proof. apply inputs_reached. exists (ProfileEditor_new 7 MySql), controller_ports. split; constructor. Qed.

Lemma reached_form_ok_witness : form_ok typed_form /\ pf_replacement_secret typed_form = lit "pw".
Proof. split; [exact (reached_form_ok typed_form controller_ports typed_reached)|vm_compute; reflexivity]. Defined.

Lemma save_sends_or_keeps_witness :
  let '(attempt, e', p') := try_save_with_connect typed_form 9 true controller_ports in
  attempt = SaveSubmitted 9 /\ pf_replacement_secret e' = [] /\
  save_sent typed_form 9 true controller_ports e' p' /\ length (queued (po_mutation p')) = 1.
Proof.
  pose proof (save_sends_or_keeps typed_form controller_ports 9 true typed_reached) as H.
  assert ((try_save_with_connect typed_form 9 true controller_ports).1.1 = SaveSubmitted 9) as Ha by (vm_compute; reflexivity).
  assert (length (queued (po_mutation (try_save_with_connect typed_form 9 true controller_ports).2)) = 1) as Hl
    by (vm_compute; reflexivity).
  destruct (try_save_with_connect typed_form 9 true controller_ports) as [[attempt e'] p'].
  cbn [fst snd] in *. subst attempt. destruct H as [_ Hsent]. pose proof Hsent as (_ & _ & _ & _ & _ & _ & Hb & _).
  by split_and!.
Defined.
