(* ===== verification/Editor.v ===== *)
(** * The query editor (src/src/ui/editor.rs)

    From the text, the caret and the limits of a workspace to the command that is
    submitted, and the request the runtime makes of it.  The theorem follows a
    statement from the editor to the typed request the driver receives. *)

From S2P Require Import Prelude RustStr Model Execution Targets Secrets Profile Config Drivers Service.
From S2P Require Import ServiceSafety ServiceWriter UiModel RuntimeEvents CommandPorts.

Record EditorCursor := {
  cu_caret_character_index : nat;
  cu_selection_character_range : option (nat * nat);
}.

Definition caret (caret_character_index : nat) : EditorCursor :=
  {| cu_caret_character_index := caret_character_index; cu_selection_character_range := None |}.

Definition with_selection (caret_character_index : nat) (selection_character_range : nat * nat) : EditorCursor :=
  {| cu_caret_character_index := caret_character_index;
     cu_selection_character_range := Some selection_character_range |}.

Inductive EditorValidationError :=
| EdRowLimit | EdTimeout | EdTarget (error : ExecutionTargetError) | EdUnsupportedDriver.

Definition EDITOR_INPUT_ID : str := lit "editor.input".
Definition EDITOR_ROW_LIMIT_ID : str := lit "editor.row_limit".
Definition EDITOR_TIMEOUT_ID : str := lit "editor.timeout".

(** The control an error sends the focus to. *)
Definition control_id (e : EditorValidationError) : str :=
  match e with
  | EdRowLimit => EDITOR_ROW_LIMIT_ID
  | EdTimeout => EDITOR_TIMEOUT_ID
  | EdTarget _ | EdUnsupportedDriver => EDITOR_INPUT_ID
  end.

Record EditorExecuteIntent := {
  ei_profile_id : ProfileId;
  ei_profile_generation : ProfileGeneration;
  ei_language : QueryLanguage;
  ei_text : str;
  ei_row_limit : N;
  ei_timeout_ms : N;
  ei_operation_kind : OperationKind;
}.

Definition into_ui_command (intent : EditorExecuteIntent) (operation_id : OperationId) : UiCommand :=
  CmdExecute operation_id (ei_profile_id intent) (ei_profile_generation intent) (ei_language intent) (ei_text intent)
    (ei_row_limit intent) (ei_timeout_ms intent).

Inductive EditorIntent := EditorExecute (intent : EditorExecuteIntent) | EditorCancel (operation_id : OperationId).

Definition pending_cancel_intent (workspace : ProfileWorkspace) : option EditorIntent :=
  EditorCancel <$> ws_pending_execute workspace.

(** [value.trim().parse::<u32>()], accepted between 1 and [limit]. *)
Definition parse_limit (limit : N) (error : EditorValidationError) (value : str) : result EditorValidationError N :=
  ok_or (parsed ← parse_u32 (trim value);
         if (1 <=? parsed)%N && (parsed <=? limit)%N then Some parsed else None) error.

Definition parse_row_limit : str -> result EditorValidationError N := parse_limit MAX_EXECUTE_ROW_LIMIT EdRowLimit.
Definition parse_timeout : str -> result EditorValidationError N := parse_limit MAX_EXECUTE_TIMEOUT_SECONDS EdTimeout.

Definition workspace_cursor (workspace : ProfileWorkspace) : EditorCursor :=
  let character_count := length (ws_editor_text workspace) in
  let caret_index := Nat.min (ws_caret_character_index workspace) character_count in
  let selection :=
    '(start, stop) ← ws_selection_character_range workspace;
    let start := Nat.min start character_count in
    let stop := Nat.min stop character_count in
    if start <? stop then Some (start, stop) else None in
  match selection with
  | Some selection => with_selection caret_index selection
  | None => caret caret_index
  end.

Definition tls_label (mode : TlsMode) : str :=
  match mode with Disabled => lit "Disabled" | Preferred => lit "Preferred" | Required => lit "Required" end.

(** The separator is a middle dot between blanks. *)
Definition editor_target_label (profile : ProfileSnapshot) : str :=
  let scope :=
    match ps_driver profile with
    | MySql | MongoDb => lit "Database " ++ default (lit "server default") (ps_database profile)
    | Redis => lit "Redis DB " ++ default (lit "0") (ps_database profile)
    end in
  let dot := [32; 183; 32]%N in
  ps_name profile ++ lit " (" ++ ps_id profile ++ lit ")" ++ dot ++ DriverKind_display (ps_driver profile) ++ dot
    ++ ps_endpoint profile ++ dot ++ scope ++ dot ++ lit "TLS " ++ tls_label (p_tls (ps_persisted profile)).

Section shell_words.
Context (shell_split : str -> option (list str)).

(** [None] is a panic of the extraction. *)
Definition build_execute_intent (profile : ProfileSnapshot) (workspace : ProfileWorkspace) (cursor : EditorCursor) :
    option (result EditorValidationError EditorExecuteIntent) :=
  match
    row_limit ← parse_row_limit (ws_row_limit workspace);
    timeout_seconds ← parse_timeout (ws_timeout_seconds workspace);
    languages ← match ps_driver profile with
                | MySql => Ok (LMySql, Sql)
                | Redis => Ok (LRedis, RedisCommand)
                | MongoDb => Err EdUnsupportedDriver
                end;
    Ok (row_limit, timeout_seconds, languages)
  with
  | Err error => Some (Err error)
  | Ok (row_limit, timeout_seconds, (execution_language, query_language)) =>
      validated ← extract_and_validate_target shell_split (ws_editor_text workspace)
        (cu_caret_character_index cursor) (cu_selection_character_range cursor) execution_language row_limit
        timeout_seconds;
      Some (
        validated ← map_err EdTarget validated;
        let operation_kind := classify_execution_kind execution_language (v_target validated) in
        Ok {| ei_profile_id := ps_id profile; ei_profile_generation := ps_generation profile;
              ei_language := query_language; ei_text := into_source_text validated; ei_row_limit := row_limit;
              ei_timeout_ms := (timeout_seconds * 1000)%N; ei_operation_kind := operation_kind |})
  end.

(** What the editor remembers between frames. *)
Record EditorSurface := {
  es_active_workspace : option WorkspaceKey;
  es_cursor : option EditorCursor;
  es_validation_error : option EditorValidationError;
}.

Definition with_cursor (w : ProfileWorkspace) (cursor : EditorCursor) : ProfileWorkspace :=
  {| ws_editor_text := ws_editor_text w; ws_caret_character_index := cu_caret_character_index cursor;
     ws_selection_character_range := cu_selection_character_range cursor; ws_row_limit := ws_row_limit w;
     ws_timeout_seconds := ws_timeout_seconds w; ws_pending_execute := ws_pending_execute w;
     ws_result := ws_result w; ws_result_view := ws_result_view w; ws_error := ws_error w;
     ws_catalog_page := ws_catalog_page w; ws_catalog_retry := ws_catalog_retry w;
     ws_catalog_error := ws_catalog_error w; ws_redis_key_page := ws_redis_key_page w;
     ws_redis_scan_retry := ws_redis_scan_retry w; ws_redis_scan_error := ws_redis_scan_error w;
     ws_redis_value_preview := ws_redis_value_preview w; ws_redis_inspect_retry := ws_redis_inspect_retry w;
     ws_redis_inspect_error := ws_redis_inspect_error w |}.

(** A frame that shows another workspace than the last clamps its cursor to its text,
    takes it and forgets the error. *)
Definition switch_workspace (surface : EditorSurface) (key : WorkspaceKey) (workspace : ProfileWorkspace) :
    EditorSurface * ProfileWorkspace :=
  if bool_decide (es_active_workspace surface = Some key) then (surface, workspace)
  else
    let cursor := workspace_cursor workspace in
    ({| es_active_workspace := Some key; es_cursor := Some cursor; es_validation_error := None |},
     with_cursor workspace cursor).

(** The end of a frame: the buttons that were pressed. *)
Definition editor_pressed (surface : EditorSurface) (profile : ProfileSnapshot) (workspace : ProfileWorkspace)
    (cancel_clicked execute_clicked shortcut_pressed : bool) : option (option EditorIntent * EditorSurface) :=
  if cancel_clicked then Some (pending_cancel_intent workspace, surface)
  else if execute_clicked || shortcut_pressed then
    let cursor := default (caret (length (ws_editor_text workspace))) (es_cursor surface) in
    built ← build_execute_intent profile workspace cursor;
    let with_error error :=
      {| es_active_workspace := es_active_workspace surface; es_cursor := es_cursor surface;
         es_validation_error := error |} in
    Some match built with
         | Ok intent => (Some (EditorExecute intent), with_error None)
         | Err error => (None, with_error (Some error))
         end
  else Some (None, surface).

Definition classify_execute_operation (language : QueryLanguage) (text : str) : OperationKind :=
  match language with
  | Sql => classify_execution_kind LMySql (MySqlText text)
  | RedisCommand =>
      match shell_split text with
      | None => ExecuteMutation
      | Some arguments => classify_execution_kind LRedis (RedisArgv arguments)
      end
  | MongoDocument => ExecuteMutation
  end.

(** runtime.rs, [handle_work]: the request of an Execute command and its kind. *)
Definition execute_request (operation_id : OperationId) (profile_id : ProfileId)
    (profile_generation : ProfileGeneration) (language : QueryLanguage) (text : str) (row_limit timeout_ms : N) :
    ExecuteRequest * OperationKind :=
  let kind := classify_execute_operation language text in
  ({| ex_operation_id := operation_id; ex_profile_id := profile_id; ex_profile_generation := profile_generation;
      ex_language := language; ex_text := text; ex_row_limit := row_limit;
      ex_timeout := duration_from_millis timeout_ms |}, kind).

(** ** From the editor to the driver *)

(** What the driver is asked to run. *)
Definition typed_target (typed : TypedExecuteRequest) : ExecutionTarget + list bytes :=
  match typed with TypedMySql r => inl (MySqlText (pm_statement r)) | TypedRedis r => inr (rx_argv r) end.
Definition sent_target (target : ExecutionTarget) : ExecutionTarget + list bytes :=
  match target with MySqlText statement => inl (MySqlText statement) | RedisArgv argv => inr (encode <$> argv) end.
Definition typed_limits (typed : TypedExecuteRequest) : N * Duration :=
  match typed with
  | TypedMySql r => (pm_row_limit r, pm_timeout r)
  | TypedRedis r => (rx_row_limit r, rx_timeout r)
  end.

Definition execution_language (language : QueryLanguage) : option ExecutionLanguage :=
  match language with Sql => Some LMySql | RedisCommand => Some LRedis | MongoDocument => None end.

Section run.
(** The crate [shell_words]: the empty line has no words, and the words of a line are
    disjoint parts of it. *)
Hypothesis split_shrinks : forall s argv,
  shell_split s = Some argv -> (sum_list_with byte_len argv + pred (length argv) <= byte_len s)%nat.
Hypothesis split_empty : shell_split [] = Some [].

Lemma parse_limit_Ok limit error value n : parse_limit limit error value = Ok n -> (1 <= n <= limit)%N.
Proof using Type.
  unfold parse_limit. destruct (parse_u32 (trim value)) as [parsed|]; cbn; [|done].
  destruct (_ && _) eqn:H; cbn; [|done]. intros [= <-]. lia.
Qed.

(** An intent comes from a target that the extraction accepted. *)
Lemma build_Ok profile workspace cursor intent :
  build_execute_intent profile workspace cursor = Some (Ok intent) ->
  exists language v,
    execution_language (ei_language intent) = Some language /\ Model.language (ps_driver profile) = ei_language intent /\
    extract_and_validate_target shell_split (ws_editor_text workspace) (cu_caret_character_index cursor)
      (cu_selection_character_range cursor) language (v_row_limit v) (v_timeout_seconds v) = Some (Ok v) /\
    ei_profile_id intent = ps_id profile /\ ei_profile_generation intent = ps_generation profile /\
    ei_text intent = into_source_text v /\ ei_row_limit intent = v_row_limit v /\
    ei_timeout_ms intent = (v_timeout_seconds v * 1000)%N /\
    ei_operation_kind intent = classify_execution_kind language (v_target v).
Proof using Type.
  unfold build_execute_intent. destruct (parse_row_limit _) as [rl|] eqn:Hrl; cbn; [|done].
  destruct (parse_timeout _) as [tm|] eqn:Htm; cbn; [|done].
  destruct (ps_driver profile) eqn:Hdriver; cbn; [| |done].
  all: match goal with |- (_ ← ?e; _) = _ -> _ => destruct e as [[v|]|] eqn:Hv end; cbn; [|done..]; intros [= <-];
    pose proof (extract_limits shell_split _ _ _ _ _ _ _ Hv) as [<- <-]; eexists _, v; split_and!; try done.
Qed.

(** The service extracts the same target again. *)
Lemma validate_extracted request language v :
  accepted shell_split language v -> execution_language (ex_language request) = Some language ->
  ex_text request = into_source_text v -> ex_row_limit request = v_row_limit v ->
  ex_timeout request = from_secs (v_timeout_seconds v) ->
  validate_execute_target shell_split request = Some (Ok (v_target v)).
Proof using Type.
  intros Hacc Hl Htext Hrl Htm. pose proof (accepted_resubmit shell_split _ _ Hacc) as Hre. unfold resubmit in Hre.
  assert (as_secs (ex_timeout request) = v_timeout_seconds v) as Hsecs.
  { rewrite Htm. unfold as_secs, from_secs. by rewrite N.div_mul. }
  destruct Hacc as (_ & Ht & _).
  unfold validate_execute_target. rewrite Hsecs, Htext, Hrl.
  replace (U32_MAX <? v_timeout_seconds v)%N with false
    by (symmetry; apply N.ltb_ge; unfold U32_MAX, MAX_EXECUTE_TIMEOUT_SECONDS, MAX_EXECUTE_TIMEOUT in *; lia).
  destruct (ex_language request); simplify_eq/=; cbv zeta; rewrite Hre; reflexivity.
Qed.

(** The kind does not depend on where it is computed. *)
Lemma classify_extracted language ql v :
  accepted shell_split language v -> execution_language ql = Some language ->
  classify_execute_operation ql (into_source_text v) = classify_execution_kind language (v_target v).
Proof using Type.
  intros (_ & _ & _ & Hv) Hl. unfold classify_execute_operation, into_source_text.
  destruct ql; simplify_eq/=.
  - destruct Hv as (t & -> & _). done.
  - destruct Hv as (argv & -> & _ & Hv). unfold validate_redis_target in Hv.
    destruct (_ <? _)%N; [done|]. destruct (shell_split (v_source_text v)) as [argv'|]; cbn in Hv; [|done].
    destruct argv'; [done|]. repeat (case_match; [done|]). by injection Hv as <-.
Qed.

(** The typed request of an accepted target. *)
Lemma typed_extracted driver language v request :
  accepted shell_split language v -> execution_language (Model.language driver) = Some language ->
  ex_row_limit request = v_row_limit v -> ex_timeout request = from_secs (v_timeout_seconds v) ->
  exists typed, typed_request driver (v_target v) request = Ok typed /\ te_driver typed = driver /\
    te_identity typed = {| ri_profile_id := ex_profile_id request;
                           ri_profile_generation := ex_profile_generation request;
                           ri_operation_id := ex_operation_id request |} /\
    typed_target typed = sent_target (v_target v) /\
    typed_limits typed = (v_row_limit v, from_secs (v_timeout_seconds v)).
Proof using split_shrinks split_empty.
  intros Hacc Hl Hrl Htm.
  set (identity := {| ri_profile_id := ex_profile_id request; ri_profile_generation := ex_profile_generation request;
                      ri_operation_id := ex_operation_id request |}).
  pose proof (accepted_builds_request shell_split split_shrinks identity _ _ Hacc) as Hok.
  destruct Hacc as (_ & _ & _ & Hv). unfold typed_request, typed_request_ok in *. fold identity.
  rewrite Hrl, Htm. destruct driver; simplify_eq/=.
  - destruct Hv as (t & Ht & _). rewrite Ht in *.
    destruct (PreparedMySqlRequest_validate _) as [[]|]; [|done]. cbn. by eexists.
  - destruct Hv as (argv & Ht & _). rewrite Ht in *.
    destruct (RedisExecuteRequest_new _ _ _ _ _) as [r|] eqn:Hr; [|done]. cbn.
    unfold RedisExecuteRequest_new in Hr. apply result_bind_Ok in Hr as (? & _ & [= <-]). by eexists.
Qed.

(** C16: the statement that was selected is the statement that runs.  When the editor
    submits an intent, the runtime gives the command the kind the editor shows, and a
    service that holds the profile at that generation accepts it without looking at the
    text again in any other way: the driver receives exactly the target extracted in
    the editor, with its row limit and its timeout. *)
Theorem editor_runs_target profile workspace cursor intent s stored operation_id :
  build_execute_intent profile workspace cursor = Some (Ok intent) ->
  sv_uncertain s = false ->
  generations s !! ps_id profile = Some (ps_generation profile) ->
  Service.find_profile (profiles s) (ps_id profile) = Some stored ->
  p_driver stored = ps_driver profile ->
  exists language v typed,
    extract_and_validate_target shell_split (ws_editor_text workspace) (cu_caret_character_index cursor)
      (cu_selection_character_range cursor) language (v_row_limit v) (v_timeout_seconds v) = Some (Ok v) /\
    (match into_ui_command intent operation_id with
     | CmdExecute operation_id profile_id generation language text row_limit timeout_ms =>
         let '(request, kind) :=
           execute_request operation_id profile_id generation language text row_limit timeout_ms in
         kind = ei_operation_kind intent /\ prepare_execute_request shell_split request s = Some (Ok typed)
     | _ => False
     end) /\
    te_driver typed = p_driver stored /\
    te_identity typed = {| ri_profile_id := ps_id profile; ri_profile_generation := ps_generation profile;
                           ri_operation_id := operation_id |} /\
    typed_target typed = sent_target (v_target v) /\
    typed_limits typed = (v_row_limit v, from_secs (v_timeout_seconds v)).
Proof using split_shrinks split_empty.
  intros (language & v & Hl & Hdl & Hv & Hp & Hg & Htext & Hrl & Htm & Hkind)%build_Ok Hcertain Hgen Hstored Hdriver.
  pose proof (extract_accepted shell_split split_empty _ _ _ _ _ _ _ Hv) as Hacc.
  assert (Hduration : duration_from_millis (ei_timeout_ms intent) = from_secs (v_timeout_seconds v)).
  { destruct Hacc as (_ & Ht & _). unfold duration_from_millis, from_secs. rewrite Htm. lia. }
  set (request := (execute_request operation_id (ei_profile_id intent) (ei_profile_generation intent)
    (ei_language intent) (ei_text intent) (ei_row_limit intent) (ei_timeout_ms intent)).1).
  destruct (typed_extracted (p_driver stored) language v request Hacc) as (typed & Htyped & Hd & Hi & Ht & Hlim);
    [by rewrite Hdriver, Hdl|exact Hrl|exact Hduration|].
  exists language, v, typed. split_and!; [exact Hv| |exact Hd|by rewrite Hi; cbn; rewrite Hp, Hg|exact Ht|exact Hlim].
  cbn [into_ui_command]. unfold execute_request. cbv zeta. split.
  - rewrite Hkind, Htext. by apply classify_extracted.
  - change (prepare_execute_request shell_split request s = Some (Ok typed)).
    unfold prepare_execute_request. rewrite Hcertain.
    rewrite (validate_extracted request language v Hacc Hl Htext Hrl Hduration). cbn [mbind option_bind result_bind].
    unfold profile_with_generation.
    replace (ex_profile_id request) with (ps_id profile) by done.
    replace (ex_profile_generation request) with (ps_generation profile) by done.
    rewrite Hstored, Hgen. cbn [ok_or mbind result_bind fst]. rewrite N.eqb_refl. cbn [negb].
    rewrite bool_decide_true by (rewrite Hdriver, Hdl; done). cbn [negb]. by rewrite Htyped.
Qed.
End run.
End shell_words.

(** "GET key" on the second line of the editor, the caret on it. *)
Definition redis_snapshot : ProfileSnapshot := from_profile sample_profile 1 false None.

Definition typed_workspace : ProfileWorkspace :=
  {| ws_editor_text := lit "PING" ++ [10%N] ++ lit "  GET key"; ws_caret_character_index := 9;
     ws_selection_character_range := None; ws_row_limit := lit " 500"; ws_timeout_seconds := lit "30";
     ws_pending_execute := None; ws_result := None; ws_result_view := ResultViewState_default; ws_error := None;
     ws_catalog_page := None; ws_catalog_retry := None; ws_catalog_error := None; ws_redis_key_page := None;
     ws_redis_scan_retry := None; ws_redis_scan_error := None; ws_redis_value_preview := None;
     ws_redis_inspect_retry := None; ws_redis_inspect_error := None |}.

Lemma editor_runs_target_witness :
  let intent := {| ei_profile_id := lit "p"; ei_profile_generation := 1; ei_language := RedisCommand;
                   ei_text := lit "GET key"; ei_row_limit := 500; ei_timeout_ms := 30000;
                   ei_operation_kind := ExecuteRead |} in
  build_execute_intent blank_split redis_snapshot typed_workspace (workspace_cursor typed_workspace) = Some (Ok intent) /\
  exists typed, te_driver typed = Redis /\
    prepare_execute_request blank_split
      (execute_request blank_split 9 (lit "p") 1 RedisCommand (lit "GET key") 500 30000).1 sample_service = Some (Ok typed).
Proof.
  cbn zeta. set (intent := {| ei_profile_id := _ |}).
  assert (Hbuilt : build_execute_intent blank_split redis_snapshot typed_workspace (workspace_cursor typed_workspace)
    = Some (Ok intent)) by (vm_compute; reflexivity).
  split; [exact Hbuilt|].
  destruct (editor_runs_target blank_split blank_split_shrinks eq_refl _ _ _ _ sample_service sample_profile 9 Hbuilt)
    as (language & v & typed & _ & [_ Hprepare] & Hd & _); [vm_compute; reflexivity..|].
  exists typed. split; [exact Hd|exact Hprepare].
Defined.
