(* ===== verification/MysqlDriver.v ===== *)
(** * The MySQL driver (src/src/drivers/mysql.rs)

    Opening a session, one prepared statement, and the decoding of its rows under the
    budget of heap bytes.  The server and the sqlx crate are parameters: what preparing
    comes to, the steps of the result stream, the typed value behind a raw one.  The
    catalog pages that a session loads are in MysqlCatalog; the theorems are in
    MysqlRows. *)

From S2P Require Import Prelude RustStr Model Drivers.

(** ** Opening a session *)

Inductive MySqlSslMode := SslDisabled | SslPreferred | SslRequired.

(** [sqlx::mysql::MySqlConnectOptions], as far as the driver sets them. *)
Record MySqlConnectOptions := {
  co_host : str;
  co_port : N;
  co_username : option str;
  co_database : option str;
  co_password : option str;
  co_ssl_mode : MySqlSslMode;
}.

Definition connect_options (profile : ConnectionProfile) (secret : option str) : MySqlConnectOptions :=
  {| co_host := p_host profile; co_port := p_port profile; co_username := p_username profile;
     co_database := p_database profile; co_password := secret;
     co_ssl_mode := match p_tls profile with
                    | Disabled => SslDisabled | Preferred => SslPreferred | Required => SslRequired
                    end |}.

(** What connecting comes to; [None] is a call that outlasts its timeout. *)
Record MySqlClient := {
  connect_with : MySqlConnectOptions -> Duration -> option (result SqlxError unit);
  connect_elapsed : MySqlConnectOptions -> Duration -> Duration;
  pool_connect_with : MySqlConnectOptions -> Duration -> option (result SqlxError unit);
}.

Definition mysql_timeout (timeout : Duration) : DriverError := DeTimeout MySql (as_secs timeout).

Definition timed {A} (timeout : Duration) (outcome : option (result SqlxError A)) : result DriverError A :=
  match outcome with
  | None => Err (mysql_timeout timeout)
  | Some outcome => map_err DeMySql outcome
  end.

(** [timeout.checked_sub(elapsed)], zero refused. *)
Definition remaining_time (timeout elapsed : Duration) : option Duration :=
  if (elapsed <? timeout)%N then Some (timeout - elapsed)%N else None.

(** [MySqlSession::connect]: what the session's pool is connected with. *)
Definition mysql_connect (client : MySqlClient) (profile : ConnectionProfile) (secret : option str)
    (timeout : Duration) : result DriverError MySqlConnectOptions :=
  let options := connect_options profile secret in
  _ ← timed timeout (connect_with client options timeout);
  remaining ← ok_or (remaining_time timeout (connect_elapsed client options timeout)) (mysql_timeout timeout);
  _ ← timed remaining (pool_connect_with client options remaining);
  Ok options.

Definition mysql_ping (timeout : Duration) (outcome : option (result SqlxError unit)) : result DriverError unit :=
  timed timeout outcome.

(** ** The memory of a cell *)

(** What the platform and the allocator decide: the sizes of the types, and the capacity
    of a string or vector that holds a given content. *)
Class Layout := {
  size_of_column : N;
  size_of_row : N;
  size_of_cell : N;
  size_of_json : N;
  size_of_json_entry : N;
  str_capacity : str -> N;
  bytes_capacity : bytes -> N;
}.


Section memory.
Context `{L : Layout}.

Fixpoint json_heap_bytes (value : json) : N :=
  match value with
  | JString value => str_capacity value
  | JArray values =>
      saturating_add (N.of_nat (length values) * size_of_json)
        (foldl saturating_add 0%N (map json_heap_bytes values))
  | JObject entries =>
      foldl (fun total bytes => saturating_add (saturating_add (saturating_add total size_of_json_entry) bytes.1) bytes.2)
        0%N (map (fun entry => (str_capacity entry.1, json_heap_bytes entry.2)) entries)
  | JNull | JBool _ | JNumber _ => 0
  end.

Definition cell_heap_bytes (cell : Cell) : N :=
  match cell with
  | CDecimal value | CText value | CDateTime value => str_capacity value
  | CTextPreview preview _ | CJsonPreview preview _ => str_capacity preview
  | CBytes retained _ => bytes_capacity retained
  | CJson value => json_heap_bytes value
  | CNull | CBool _ | CInt _ | CUInt _ | CFloat _ => 0
  end.

(** [DecodedRowBudget]: the heap bytes of what is kept. *)
Definition add_columns (retained_heap_bytes : N) (columns : list Column) : N :=
  let bytes :=
    saturating_add (N.of_nat (length columns) * size_of_column)
      (foldl saturating_add 0%N
         (map (fun column => saturating_add (str_capacity (col_name column)) (str_capacity (col_type_name column))) columns)) in
  saturating_add retained_heap_bytes bytes.

Definition row_payload (row : list Cell) : N := foldl saturating_add 0%N (map cell_heap_bytes row).
Definition row_heap_bytes (row : list Cell) : N :=
  saturating_add (saturating_add size_of_row (N.of_nat (length row) * size_of_cell)) (row_payload row).
Definition crosses_cell_cap (row : list Cell) : bool :=
  existsb (fun cell => (MAX_RESULT_CELL_BYTES <? cell_heap_bytes cell)%N) row.

(** The row as it is kept, whether the stream stops, and the budget after it. *)
Definition push_row (retained_heap_bytes : N) (row : list Cell) : list Cell * bool * N :=
  let row := take (N.to_nat MAX_RESULT_COLUMNS) row in
  let row_bytes := row_heap_bytes row in
  if crosses_cell_cap row || (MAX_RESULT_BYTES <? saturating_add retained_heap_bytes row_bytes)%N
  then (row, true, retained_heap_bytes) else (row, false, saturating_add retained_heap_bytes row_bytes).
End memory.

(** ** Rows *)

(** The sqlx crate: raw values and what they are as a type the driver asks for; the text
    of a decimal or a date is the one its [Display] gives. *)
Class Sqlx := {
  raw : Type;
  raw_is_null : raw -> bool;
  get_u64 : raw -> result SqlxError N;
  get_i64 : raw -> result SqlxError Z;
  get_f64 : raw -> result SqlxError f64;
  get_decimal : raw -> result SqlxError str;
  get_date : raw -> result SqlxError str;
  get_time : raw -> result SqlxError str;
  get_datetime : raw -> result SqlxError str;
  get_json : raw -> result SqlxError json;
  get_bytes : raw -> result SqlxError bytes;
  get_string : raw -> result SqlxError str;
}.

Definition strip_suffix (suffix s : str) : option str :=
  let kept := length s - length suffix in
  if bool_decide (length suffix <= length s) && bool_decide (drop kept s = suffix) then Some (take kept s) else None.

Definition mysql_bytes_cell (bytes : bytes) : Cell := CBytes bytes (N.of_nat (length bytes)).

Definition one_of (names : list string) (base_type : str) : bool := existsb (fun name => bool_decide (base_type = lit name)) names.

Section rows.
Context `{L : Layout, S : Sqlx}.

(** A column of a row with its raw value. *)
Definition decode_cell (entry : Column * raw) : result SqlxError Cell :=
  let '(column, value) := entry in
  if raw_is_null value then Ok CNull
  else
    let type_name := to_ascii_uppercase (col_type_name column) in
    let '(base_type, unsigned) :=
      match strip_suffix (lit " UNSIGNED") type_name with Some base => (base, true) | None => (type_name, false) end in
    if one_of ["TINYINT"; "SMALLINT"; "MEDIUMINT"; "INT"; "INTEGER"; "BIGINT"] base_type
    then if unsigned : bool then CUInt <$> get_u64 value else CInt <$> get_i64 value
    else if one_of ["FLOAT"; "DOUBLE"; "REAL"] base_type then CFloat <$> get_f64 value
    else if one_of ["DECIMAL"; "NUMERIC"] base_type then CDecimal <$> get_decimal value
    else if one_of ["DATE"] base_type then CDateTime <$> get_date value
    else if one_of ["TIME"] base_type then CDateTime <$> get_time value
    else if one_of ["DATETIME"; "TIMESTAMP"] base_type then CDateTime <$> get_datetime value
    else if one_of ["JSON"] base_type then CJson <$> get_json value
    else if one_of ["BINARY"; "VARBINARY"; "TINYBLOB"; "BLOB"; "MEDIUMBLOB"; "LONGBLOB"; "BIT"] base_type
    then mysql_bytes_cell <$> get_bytes value
    else CText <$> get_string value.

Definition MySqlRow : Type := list (Column * raw).

(** [collect] of a [Result]: the first error, or every cell. *)
Fixpoint decode_row (row : MySqlRow) : result SqlxError (list Cell) :=
  match row with
  | [] => Ok []
  | entry :: row => cell ← decode_cell entry; cells ← decode_row row; Ok (cell :: cells)
  end.

(** ** One statement *)

(** [Either] of [fetch_many]. *)
Inductive StreamStep :=
| StepResult (rows_affected last_insert_id : N)
| StepRow (row : MySqlRow).

(** A prepared statement: its columns, and what the stream yields, ending with an error
    or with the end of the stream. *)
Record Prepared := { pr_columns : list Column; pr_stream : list (result SqlxError StreamStep) }.

Record MySqlServer := {
  sv_acquire : result SqlxError unit;
  sv_prepare : str -> result SqlxError Prepared;
}.

Definition ER_UNSUPPORTED_PS : N := 1295.
Definition is_prepare_protocol_unsupported (number : N) : bool := (number =? ER_UNSUPPORTED_PS)%N.
Definition mysql_error_number (error : SqlxError) : option N :=
  match error with SqlxDatabase number _ => Some number | SqlxOther => None end.

Definition map_prepare_error (error : SqlxError) : DriverError :=
  match mysql_error_number error with
  | Some number =>
      if is_prepare_protocol_unsupported number then DePreparedStatementUnsupported true else DeMySql error
  | None => DeMySql error
  end.

(** The variables of the loop. *)
Record Progress := {
  xp_columns : list Column;
  xp_is_result_set : bool;
  xp_rows : list (list Cell);
  xp_budget : N;
  xp_affected_rows : N;
  xp_last_insert_id : option N;
  xp_truncated : bool;
}.

Definition started (columns : list Column) : Progress :=
  {| xp_columns := columns; xp_is_result_set := negb (bool_decide (columns = [])); xp_rows := [];
     xp_budget := add_columns 0 columns; xp_affected_rows := 0; xp_last_insert_id := None; xp_truncated := false |}.

Definition with_result (p : Progress) (rows_affected last_insert_id : N) : Progress :=
  {| xp_columns := xp_columns p; xp_is_result_set := xp_is_result_set p; xp_rows := xp_rows p;
     xp_budget := xp_budget p; xp_affected_rows := rows_affected;
     xp_last_insert_id := if (last_insert_id =? 0)%N then None else Some last_insert_id; xp_truncated := xp_truncated p |}.

(** The first row names the columns of a statement that was prepared without. *)
Definition seen_row (p : Progress) (row : MySqlRow) : Progress :=
  let unnamed := bool_decide (xp_columns p = []) in
  {| xp_columns := if unnamed then row.*1 else xp_columns p; xp_is_result_set := true; xp_rows := xp_rows p;
     xp_budget := if unnamed then add_columns (xp_budget p) row.*1 else xp_budget p;
     xp_affected_rows := xp_affected_rows p; xp_last_insert_id := xp_last_insert_id p;
     xp_truncated := xp_truncated p |}.

Definition kept_row (p : Progress) (row : list Cell) (budget : N) : Progress :=
  {| xp_columns := xp_columns p; xp_is_result_set := xp_is_result_set p; xp_rows := xp_rows p ++ [row];
     xp_budget := budget; xp_affected_rows := xp_affected_rows p; xp_last_insert_id := xp_last_insert_id p;
     xp_truncated := xp_truncated p |}.

Definition cut_off (p : Progress) : Progress :=
  {| xp_columns := xp_columns p; xp_is_result_set := xp_is_result_set p; xp_rows := xp_rows p;
     xp_budget := xp_budget p; xp_affected_rows := xp_affected_rows p; xp_last_insert_id := xp_last_insert_id p;
     xp_truncated := true |}.

(** The loop over the stream. *)
Fixpoint execute_stream (limit : N) (stream : list (result SqlxError StreamStep)) (p : Progress) :
    result DriverError Progress :=
  match stream with
  | [] => Ok p
  | Err error :: _ => Err (DeMySql error)
  | Ok (StepResult rows_affected last_insert_id) :: stream =>
      execute_stream limit stream (with_result p rows_affected last_insert_id)
  | Ok (StepRow row) :: stream =>
      let p := seen_row p row in
      if (N.of_nat (length (xp_rows p)) =? limit)%N then Ok (cut_off p)
      else
        decoded ← map_err DeMySql (decode_row row);
        let '(kept, stop, budget) := push_row (xp_budget p) decoded in
        let p := kept_row p kept budget in
        if stop then Ok (cut_off p) else execute_stream limit stream p
  end.

Definition execute_one (server : MySqlServer) (text : str) (row_limit : N) : result DriverError QueryResult :=
  _ ← map_err DeMySql (sv_acquire server);
  prepared ← map_err map_prepare_error (sv_prepare server text);
  p ← execute_stream row_limit (pr_stream prepared) (started (pr_columns prepared));
  Ok {| qr_columns := xp_columns p; qr_rows := xp_rows p;
        qr_affected_rows := if xp_is_result_set p then 0%N else xp_affected_rows p;
        qr_last_insert_id := if xp_is_result_set p then None else xp_last_insert_id p;
        qr_elapsed_ms := 0; qr_truncated := xp_truncated p; qr_backend_notices_present := false |}.

(** [execute_prepared]: whether the time was enough, and how long it took, are arguments. *)
Definition execute_prepared (server : MySqlServer) (request : PreparedMySqlRequest) (in_time : bool)
    (elapsed_ms : N) : result DriverError QueryResult :=
  if negb in_time then Err (mysql_timeout (pm_timeout request))
  else
    result ← execute_one server (pm_statement request) (pm_row_limit request);
    Ok {| qr_columns := qr_columns result; qr_rows := qr_rows result; qr_affected_rows := qr_affected_rows result;
          qr_last_insert_id := qr_last_insert_id result; qr_elapsed_ms := elapsed_ms;
          qr_truncated := qr_truncated result;
          qr_backend_notices_present := qr_backend_notices_present result |}.
End rows.
