(* ===== verification/MysqlRows.v ===== *)
(** * What the rows of a MySQL statement become (theorems on MysqlDriver)

    The rows that are kept are the first rows the server sent, decoded cell by cell; the
    memory they take is bounded; nothing is dropped without the result being reported as
    truncated.  An error never comes with rows, and required TLS stays required. *)

From S2P Require Import Prelude RustStr Model Drivers MysqlDriver.

Lemma foldl_saturating (l : list N) a :
  (foldl saturating_add a l <= MAX_RESULT_BYTES)%N -> foldl saturating_add a l = (a + sum_N l)%N.
Proof.
  revert a. induction l as [|x l IH]; intros a H; cbn in *; [lia|]. rewrite IH by done.
  apply IH in H as Heq. rewrite Heq in H. unfold saturating_add in *.
  assert (MAX_RESULT_BYTES < USIZE_MAX)%N by done. unfold sum_N in *. cbn. lia.
Qed.

Lemma saturating_within a b : (saturating_add a b <= MAX_RESULT_BYTES)%N -> saturating_add a b = (a + b)%N.
Proof. intros H. unfold saturating_add in *. assert (MAX_RESULT_BYTES < USIZE_MAX)%N by done. lia. Qed.

Section rows.
Context `{L : Layout, S : Sqlx}.

(** The heap bytes of a row, without wrap-around or saturation. *)
Definition row_bytes (row : list Cell) : N :=
  size_of_row + N.of_nat (length row) * size_of_cell + sum_N (cell_heap_bytes <$> row).

Lemma row_heap_exact row :
  (row_heap_bytes row <= MAX_RESULT_BYTES)%N -> row_heap_bytes row = row_bytes row.
Proof.
  unfold row_heap_bytes, row_bytes, row_payload. intros H. pose proof H as H'.
  rewrite saturating_within in H by done. rewrite saturating_within by done.
  rewrite (foldl_saturating (map cell_heap_bytes row)) in * by lia. rewrite saturating_within in * by lia.
  change (map cell_heap_bytes row) with (cell_heap_bytes <$> row) in *. lia.
Qed.

(** ** What the server sent *)

(** The rows of a stream, up to its error. *)
Fixpoint stream_rows (stream : list (result SqlxError StreamStep)) : list MySqlRow :=
  match stream with
  | [] | Err _ :: _ => []
  | Ok (StepRow row) :: stream => row :: stream_rows stream
  | Ok (StepResult _ _) :: stream => stream_rows stream
  end.

(** The counts of the last result that is not a row. *)
Fixpoint stream_counts (counts : N * option N) (stream : list (result SqlxError StreamStep)) : N * option N :=
  match stream with
  | [] | Err _ :: _ => counts
  | Ok (StepRow _) :: stream => stream_counts counts stream
  | Ok (StepResult affected last) :: stream =>
      stream_counts (affected, if (last =? 0)%N then None else Some last) stream
  end.

(** A row as it is kept. *)
Definition kept_of (row : MySqlRow) (kept : list Cell) : Prop :=
  exists cells, decode_row row = Ok cells /\ kept = take (N.to_nat MAX_RESULT_COLUMNS) cells.

Definition small_cells (row : list Cell) : Prop := Forall (fun cell => cell_heap_bytes cell <= MAX_RESULT_CELL_BYTES)%N row.

Lemma crosses_small row : crosses_cell_cap row = false -> small_cells row.
Proof.
  intros H. apply Forall_forall. intros cell Hc. unfold crosses_cell_cap in H.
  destruct (N.leb_spec (cell_heap_bytes cell) MAX_RESULT_CELL_BYTES) as [Hle|Hlt]; [done|].
  assert (existsb (fun cell => (MAX_RESULT_CELL_BYTES <? cell_heap_bytes cell)%N) row = true) as H'; [|congruence].
  apply existsb_exists. exists cell. split; [by apply list_elem_of_In|]. by apply N.ltb_lt.
Qed.

Lemma push_row_keeps budget row kept stop budget' :
  push_row budget row = (kept, stop, budget') ->
  kept = take (N.to_nat MAX_RESULT_COLUMNS) row /\
  (stop = false -> small_cells kept /\ budget' = (budget + row_bytes kept)%N /\ (budget' <= MAX_RESULT_BYTES)%N).
Proof.
  unfold push_row. cbv zeta. destruct (crosses_cell_cap _ || _) eqn:E; intros [= <- <- <-]; (split; [done|]); [done|].
  intros _. apply orb_false_iff in E as [Hc Hb]. apply N.ltb_ge in Hb. pose proof Hb as Hb'.
  rewrite saturating_within in Hb' by done. split; [by apply crosses_small|].
  rewrite saturating_within, row_heap_exact by lia. rewrite row_heap_exact in Hb' by lia. done.
Qed.

Lemma add_columns_grows budget columns : (add_columns budget columns <= MAX_RESULT_BYTES -> budget <= add_columns budget columns)%N.
Proof. unfold add_columns. intros H. rewrite saturating_within in * by done. lia. Qed.

Lemma seen_row_budget p row : (xp_budget (seen_row p row) <= MAX_RESULT_BYTES -> xp_budget p <= xp_budget (seen_row p row))%N.
Proof. cbn. case_bool_decide; [apply add_columns_grows|done]. Qed.

(** What the loop adds to the rows it has. *)
Record Kept (limit : N) (stream : list (result SqlxError StreamStep)) (p p' : Progress) : Prop := {
  kt_rows : exists whole cut,
    xp_rows p' = xp_rows p ++ whole ++ cut /\
    Forall2 kept_of (take (length (whole ++ cut)) (stream_rows stream)) (whole ++ cut) /\
    length cut <= 1 /\ (cut <> [] -> xp_truncated p' = true) /\ Forall small_cells whole /\
    (whole = [] \/ xp_budget p + sum_N (row_bytes <$> whole) <= MAX_RESULT_BYTES)%N /\
    (xp_truncated p' = false -> length (whole ++ cut) = length (stream_rows stream));
  kt_limit : (N.of_nat (length (xp_rows p)) <= limit -> N.of_nat (length (xp_rows p')) <= limit)%N;
  kt_clean : xp_truncated p' = false -> Forall is_ok stream;
  kt_result_set : xp_is_result_set p' = xp_is_result_set p || negb (bool_decide (stream_rows stream = []));
  kt_counts : xp_is_result_set p' = false ->
    (xp_affected_rows p', xp_last_insert_id p')
    = stream_counts (xp_affected_rows p, xp_last_insert_id p) stream;
}.

Lemma kept_none limit stream p p' :
  xp_rows p' = xp_rows p -> xp_truncated p' = true -> xp_is_result_set p' = true -> stream_rows stream <> [] ->
  Kept limit stream p p'.
Proof.
  intros Hr Ht Hs Hne. split; try congruence.
  - exists [], []. rewrite Hr, app_nil_r. cbn. split_and!; first [done|by left|lia|constructor|congruence].
  - rewrite Hs, bool_decide_eq_false_2 by done. by rewrite orb_true_r.
Qed.

Lemma kept_last limit stream p p' row kept :
  head (stream_rows stream) = Some row -> kept_of row kept -> xp_rows p' = xp_rows p ++ [kept] ->
  N.of_nat (length (xp_rows p)) <> limit -> xp_truncated p' = true -> xp_is_result_set p' = true ->
  Kept limit stream p p'.
Proof.
  intros Hhead Hkept Hr Hl Ht Hs. destruct (stream_rows stream) as [|first rows] eqn:E; [done|]. injection Hhead as ->.
  split; try congruence.
  - exists [], [kept]. rewrite E. cbn. split_and!; first [done|by left|lia|by constructor; [|constructor]|constructor|congruence].
  - rewrite Hr, length_app. cbn. lia.
  - by rewrite Hs, E, bool_decide_eq_false_2, orb_true_r.
Qed.

(** A row that is kept whole, before what the rest of the stream adds. *)
Lemma kept_cons limit stream p p1 p' row kept :
  kept_of row kept -> small_cells kept -> xp_rows p1 = xp_rows p ++ [kept] ->
  (xp_budget p + row_bytes kept <= xp_budget p1)%N -> (xp_budget p1 <= MAX_RESULT_BYTES)%N ->
  N.of_nat (length (xp_rows p)) <> limit -> xp_is_result_set p1 = true ->
  Kept limit stream p1 p' -> Kept limit (Ok (StepRow row) :: stream) p p'.
Proof.
  intros Hkept Hsmall Hr Hb Hmax Hl Hs1 [(whole & cut & Hrows & Hall & Hcut & Htr & Hwhole & Hsum & Hlen) Hlimit Hclean Hset Hcounts].
  rewrite Hs1 in Hset. cbn in Hset. split.
  - exists (kept :: whole), cut. rewrite Hrows, Hr, <- app_assoc. split_and!; try done.
    + cbn. by constructor.
    + by constructor.
    + right. rewrite fmap_cons. change (sum_N (?a :: ?l)) with (a + sum_N l)%N.
      destruct Hsum as [->|Hsum]; [cbn|]; lia.
    + intros H. cbn. f_equal. by apply Hlen.
  - intros H. apply Hlimit. rewrite Hr, length_app. cbn. lia.
  - intros H. constructor; [done|by apply Hclean].
  - rewrite Hset. cbn. by rewrite orb_true_r.
  - congruence.
Qed.

Lemma kept_result limit stream p p' affected last :
  Kept limit stream (with_result p affected last) p' -> Kept limit (Ok (StepResult affected last) :: stream) p p'.
Proof.
  intros [Hrows Hlimit Hclean Hset Hcounts]. split; try done. intros H. constructor; [done|by apply Hclean].
Qed.

Lemma execute_stream_keeps limit stream p p' :
  execute_stream limit stream p = Ok p' -> xp_truncated p = false -> Kept limit stream p p'.
Proof.
  revert p. induction stream as [|[[affected last|row]|error] stream IH]; intros p H Ht; cbn in H; [| | |done].
  - injection H as <-. split; try done; [|by rewrite orb_false_r].
    exists [], []. rewrite app_nil_r. cbn. split_and!; first [done|by left|lia|constructor].
  - apply kept_result. by apply IH.
  - destruct (N.eqb_spec (N.of_nat (length (xp_rows p))) limit) as [_|Hl].
    { injection H as <-. by apply kept_none. }
    apply result_bind_Ok in H as (decoded & Hd%map_err_Ok & H).
    destruct (push_row _ decoded) as [[kept stop] budget] eqn:Epush. apply push_row_keeps in Epush as [Hkept Hgo].
    assert (kept_of row kept) as Hof by (by exists decoded).
    destruct stop; [injection H as <-; by apply (kept_last _ _ _ _ row kept)|].
    destruct (Hgo eq_refl) as (Hsmall & Hbudget & Hmax). pose proof (seen_row_budget p row) as Hseen.
    change (if bool_decide _ then _ else _) with (xp_budget (seen_row p row)) in Hbudget.
    apply (kept_cons _ _ p (kept_row (seen_row p row) kept budget) _ row kept); try done; [|by apply IH].
    change (xp_budget (kept_row _ _ budget)) with budget. lia.
Qed.

(** C26: what a MySQL statement returns is bounded and never altered. Whatever columns, rows, counts and errors the server's stream yields and whatever the row limit, a result's rows are the first rows the server sent, each decoded cell by cell and cut only at the column limit; there are at most as many as the limit allows; apart from one last row that crosses a limit, every cell is within the cell limit and the rows' memory, exactly counted with the columns', within the result's; a result that is not reported as truncated is the whole stream, which then had no error; and counts of affected rows are those of the last result, for statements that return no rows. *)
Theorem mysql_rows_bounded server text limit r :
  execute_one server text limit = Ok r ->
  exists prepared, sv_prepare server text = Ok prepared /\
  let sent := stream_rows (pr_stream prepared) in
  Forall2 kept_of (take (length (qr_rows r)) sent) (qr_rows r) /\
  (N.of_nat (length (qr_rows r)) <= limit)%N /\
  (qr_truncated r = false -> length (qr_rows r) = length sent /\ Forall is_ok (pr_stream prepared)) /\
  (exists whole cut, qr_rows r = whole ++ cut /\ length cut <= 1 /\ (cut <> [] -> qr_truncated r = true) /\
     Forall small_cells whole /\
     (whole = [] \/ add_columns 0 (pr_columns prepared) + sum_N (row_bytes <$> whole) <= MAX_RESULT_BYTES)%N) /\
  (qr_affected_rows r, qr_last_insert_id r)
  = if bool_decide (pr_columns prepared = [] /\ sent = []) then stream_counts (0%N, None) (pr_stream prepared)
    else (0%N, None).
Proof.
  unfold execute_one. intros H. apply result_bind_Ok in H as ([] & _ & H).
  apply result_bind_Ok in H as (prepared & Hprep%map_err_Ok & H). exists prepared. split; [done|]. cbv zeta.
  apply result_bind_Ok in H as (p & Hrun & [= <-]). cbn [qr_rows qr_truncated qr_affected_rows qr_last_insert_id].
  apply execute_stream_keeps in Hrun as [(whole & cut & Hrows & Hall & Hcut & Htr & Hsmall & Hsum & Hlen) Hlimit Hclean
    Hset Hcounts]; [|done].
  cbn [started xp_rows app] in Hrows. split_and!.
  - by rewrite Hrows.
  - apply Hlimit. cbn. lia.
  - intros Ht. split; [rewrite Hrows; by apply Hlen|by apply Hclean].
  - by exists whole, cut.
  - cbn [started xp_is_result_set] in Hset. destruct (xp_is_result_set p) eqn:Es.
    + rewrite bool_decide_eq_false_2; [done|]. intros [Hc Hs]. by rewrite Hc, Hs in Hset.
    + symmetry in Hset. apply orb_false_iff in Hset as [H1%negb_false_iff%bool_decide_eq_true H2%negb_false_iff%bool_decide_eq_true].
      rewrite bool_decide_eq_true_2 by done. by apply Hcounts.
Qed.
End rows.

(** ** Sessions *)

(** Clients that agree on connections with required TLS. *)
Definition same_for_required (client client' : MySqlClient) : Prop :=
  forall options timeout, co_ssl_mode options = SslRequired ->
    connect_with client options timeout = connect_with client' options timeout /\
    connect_elapsed client options timeout = connect_elapsed client' options timeout /\
    pool_connect_with client options timeout = pool_connect_with client' options timeout.

(** A profile that requires TLS asks the server for nothing else: what connecting comes to depends only on connections with required TLS, to the profile's own host and port and with its own credentials. *)
Theorem mysql_required_tls_kept client client' profile secret timeout :
  p_tls profile = Required -> same_for_required client client' ->
  mysql_connect client profile secret timeout = mysql_connect client' profile secret timeout.
Proof.
  intros Htls Hsame. unfold mysql_connect.
  destruct (Hsame (connect_options profile secret) timeout) as (-> & -> & _); [cbn; by rewrite Htls|].
  destruct (timed timeout _) as [[]|]; [|done]. cbn. destruct (ok_or _ _) as [remaining|]; [|done]. cbn.
  destruct (Hsame (connect_options profile secret) remaining) as (_ & _ & ->); [cbn; by rewrite Htls|]. done.
Qed.

(** The two connections of [connect] together are given no more than the timeout, and the second one is given some time. *)
Theorem mysql_connect_within_timeout timeout elapsed remaining :
  remaining_time timeout elapsed = Some remaining -> (0 < remaining /\ elapsed + remaining = timeout)%N.
Proof. unfold remaining_time. destruct (N.ltb_spec elapsed timeout); [|done]. intros [= <-]. lia. Qed.

(** ** Three rows under a limit of two *)

#[local] Instance word_layout : Layout :=
  {| size_of_column := 48; size_of_row := 24; size_of_cell := 32; size_of_json := 32; size_of_json_entry := 56;
     str_capacity := str_len; bytes_capacity := fun b => N.of_nat (length b) |}.

(** Raw values that are texts; an integer is the length of its text. *)
#[local] Instance text_sqlx : Sqlx :=
  {| raw := option str; raw_is_null := fun v => bool_decide (v = None);
     get_u64 := fun v => Ok (str_len (default [] v)); get_i64 := fun v => Ok (Z.of_N (str_len (default [] v)));
     get_f64 := fun _ => Err SqlxOther; get_decimal := fun v => Ok (default [] v); get_date := fun v => Ok (default [] v);
     get_time := fun v => Ok (default [] v); get_datetime := fun v => Ok (default [] v); get_json := fun _ => Ok JNull;
     get_bytes := fun _ => Err SqlxOther; get_string := fun v => Ok (default [] v) |}.

Definition shop_columns : list Column :=
  [{| col_name := lit "id"; col_type_name := lit "int unsigned" |}; {| col_name := lit "name"; col_type_name := lit "VARCHAR" |}].

Definition shop_row (id name : option str) : result SqlxError (StreamStep (S := text_sqlx)) :=
  Ok (StepRow (S := text_sqlx) (zip shop_columns [id; name])).

Definition shop_server : MySqlServer (S := text_sqlx) :=
  {| sv_acquire := Ok tt;
     sv_prepare := fun _ => Ok {| pr_columns := shop_columns;
       pr_stream := [shop_row (Some (lit "x")) (Some (lit "tea")); shop_row (Some (lit "yy")) None;
                     shop_row (Some (lit "zzz")) (Some (lit "milk"))] |} |}.

Definition shop_result : QueryResult :=
  {| qr_columns := shop_columns; qr_rows := [[CUInt 1; CText (lit "tea")]; [CUInt 2; CNull]];
     qr_affected_rows := 0; qr_last_insert_id := None; qr_elapsed_ms := 0; qr_truncated := true;
     qr_backend_notices_present := false |}.

Lemma mysql_rows_bounded_witness :
  execute_one shop_server (lit "SELECT * FROM shop") 2 = Ok shop_result /\
  (N.of_nat (length (qr_rows shop_result)) <= 2)%N.
Proof.
  assert (execute_one shop_server (lit "SELECT * FROM shop") 2 = Ok shop_result) as H by (vm_compute; reflexivity).
  destruct (mysql_rows_bounded shop_server (lit "SELECT * FROM shop") 2 shop_result H) as (_ & _ & _ & Hlimit & _).
  split; [exact H|exact Hlimit].
Defined.
