(* ===== verification/MysqlCatalog.v ===== *)
(** * MySQL catalog browsing (src/src/drivers/mysql_catalog.rs)

    One page of schemas, relations or columns: the token that continues a listing,
    the budget of retained nodes, and the prepared queries. What the MySQL server
    answers, the hash functions and the token's text formats are parameters. The
    theorems are in CatalogRetained, CatalogTokens and CatalogPaging. *)

From S2P Require Import Prelude RustStr Model Drivers Service.

(** ** Crates *)

Definition TOKEN_VERSION : N := 1.
Definition TOKEN_PREFIX : str := lit "v1".
Definition nul : char := 0%N.
Definition TOKEN_AUTHENTICATION_DOMAIN : bytes := lit "dbotter:mysql-catalog-token:v1" ++ [nul].
Definition TOKEN_KEY_DERIVATION_DOMAIN : bytes := lit "dbotter:mysql-catalog-token-key:v1" ++ [nul].
Definition TOKEN_KEY_CONTEXT_DOMAIN : bytes := lit "dbotter:mysql-catalog-connection:v1" ++ [nul].

(** [struct TokenPayload]. *)
Record TokenPayload := {
  tp_version : N;
  tp_profile_fingerprint : str;
  tp_profile_generation : N;
  tp_level : N;
  tp_parent_fingerprint : str;
  tp_prefix_fingerprint : str;
  tp_page_size : N;
  tp_last_name : str;
  tp_last_ordinal : option N;
  tp_schemas : N;
  tp_relations : N;
  tp_columns : N;
  tp_columns_in_relation : N;
  tp_retained_utf8_bytes : N;
}.
#[export] Instance TokenPayload_eq : EqDecision TokenPayload. Proof. solve_decision. Defined.

(** The crates behind a token: [sha2], [hmac], [base64] (URL-safe, no padding) and
    [serde_json]. [None] is the crate's error. *)
Class TokenCrates := {
  sha256 : bytes -> bytes;
  hmac_sha256 : bytes -> bytes -> option bytes;
  base64_encode : bytes -> str;
  base64_decode : str -> option bytes;
  json_to_vec : TokenPayload -> option bytes;
  json_from_slice : bytes -> option TokenPayload;
}.

(** ** Retained nodes *)

Record CatalogRetention := {
  rt_identities : gset CatalogNodeIdentity;
  rt_counts : CatalogRetainedCounts;
  rt_utf8_bytes : N;
  rt_columns_by_relation : gmap (list N * list N) N;
}.

Record CatalogRetentionOutcome := {
  ro_nodes : list CatalogNode;
  ro_counts : CatalogRetainedCounts;
  ro_utf8_bytes : N;
  ro_truncated : bool;
}.

Definition CatalogRetainedCounts_default : CatalogRetainedCounts :=
  {| rc_schemas := 0; rc_relations := 0; rc_columns := 0; rc_columns_in_relation := 0 |}.

Definition CatalogRetention_default : CatalogRetention :=
  {| rt_identities := ∅; rt_counts := CatalogRetainedCounts_default; rt_utf8_bytes := 0;
     rt_columns_by_relation := ∅ |}.

Definition retention_clear (r : CatalogRetention) : CatalogRetention :=
  {| rt_identities := ∅; rt_counts := CatalogRetainedCounts_default; rt_utf8_bytes := 0;
     rt_columns_by_relation := ∅ |}.

Definition catalog_node_utf8_bytes (node : CatalogNode) : N :=
  saturating_add (str_len (cn_name node)) (from_option str_len 0%N (cn_type_name node)).

(** Updates of one counter. *)
Definition with_schemas (c : CatalogRetainedCounts) (n : N) : CatalogRetainedCounts :=
  {| rc_schemas := n; rc_relations := rc_relations c; rc_columns := rc_columns c;
     rc_columns_in_relation := rc_columns_in_relation c |}.
Definition with_relations (c : CatalogRetainedCounts) (n : N) : CatalogRetainedCounts :=
  {| rc_schemas := rc_schemas c; rc_relations := n; rc_columns := rc_columns c;
     rc_columns_in_relation := rc_columns_in_relation c |}.
Definition with_columns (c : CatalogRetainedCounts) (n : N) : CatalogRetainedCounts :=
  {| rc_schemas := rc_schemas c; rc_relations := rc_relations c; rc_columns := n;
     rc_columns_in_relation := rc_columns_in_relation c |}.

Definition columns_of (r : CatalogRetention) (key : list N * list N) : N :=
  default 0%N (rt_columns_by_relation r !! key).

Definition can_retain (r : CatalogRetention) (node : CatalogNode) : bool :=
  if bool_decide (cn_identity node ∈ rt_identities r) then true
  else if (MAX_CATALOG_UTF8_BYTES <? saturating_add (rt_utf8_bytes r) (catalog_node_utf8_bytes node))%N
  then false
  else
    match cn_identity node with
    | NiSchema _ => (rc_schemas (rt_counts r) <? MAX_CATALOG_SCHEMAS)%N
    | NiRelation _ _ => (rc_relations (rt_counts r) <? MAX_CATALOG_RELATIONS)%N
    | NiColumn schema relation _ =>
        (rc_columns (rt_counts r) <? MAX_CATALOG_COLUMNS)%N
        && (columns_of r (schema, relation) <? MAX_CATALOG_COLUMNS_PER_RELATION)%N
    end.

Inductive RetainDecision := Accepted (node : CatalogNode) | Duplicate | CapReached.

Definition retain_one (r : CatalogRetention) (node : CatalogNode) : RetainDecision * CatalogRetention :=
  if bool_decide (cn_identity node ∈ rt_identities r) then (Duplicate, r)
  else if negb (can_retain r node) then (CapReached, r)
  else
    let c := rt_counts r in
    let utf8 := saturating_add (rt_utf8_bytes r) (catalog_node_utf8_bytes node) in
    let '(counts, by_relation) :=
      match cn_identity node with
      | NiSchema _ => (with_schemas c (saturating_add (rc_schemas c) 1), rt_columns_by_relation r)
      | NiRelation _ _ => (with_relations c (saturating_add (rc_relations c) 1), rt_columns_by_relation r)
      | NiColumn schema relation _ =>
          (with_columns c (saturating_add (rc_columns c) 1),
           <[(schema, relation) := saturating_add (columns_of r (schema, relation)) 1]>
             (rt_columns_by_relation r))
      end in
    (Accepted node,
     {| rt_identities := {[cn_identity node]} ∪ rt_identities r; rt_counts := counts;
        rt_utf8_bytes := utf8; rt_columns_by_relation := by_relation |}).

(** [columns_by_relation.values().copied().max().unwrap_or(0)] *)
Definition largest (m : gmap (list N * list N) N) : N := map_fold (fun _ => N.max) 0%N m.

Definition retention_counts (r : CatalogRetention) : CatalogRetainedCounts :=
  {| rc_schemas := rc_schemas (rt_counts r); rc_relations := rc_relations (rt_counts r);
     rc_columns := rc_columns (rt_counts r); rc_columns_in_relation := largest (rt_columns_by_relation r) |}.

(** The loop of [retain]: the accepted nodes, and whether a cap was reached. *)
Fixpoint retain_loop (r : CatalogRetention) (nodes : list CatalogNode) :
    list CatalogNode * bool * CatalogRetention :=
  match nodes with
  | [] => ([], false, r)
  | node :: nodes =>
      let '(decision, r) := retain_one r node in
      let '(accepted, truncated, r) := retain_loop r nodes in
      match decision with
      | Accepted node => (node :: accepted, truncated, r)
      | Duplicate => (accepted, truncated, r)
      | CapReached => (accepted, true, r)
      end
  end.

Definition retention_retain (r : CatalogRetention) (nodes : list CatalogNode) :
    CatalogRetentionOutcome * CatalogRetention :=
  let '(accepted, truncated, r) := retain_loop r nodes in
  ({| ro_nodes := accepted; ro_counts := retention_counts r; ro_utf8_bytes := rt_utf8_bytes r;
      ro_truncated := truncated |}, r).

Definition remove_one (r : CatalogRetention) (node : CatalogNode) : CatalogRetention :=
  if negb (bool_decide (cn_identity node ∈ rt_identities r)) then r
  else
    let c := rt_counts r in
    let '(counts, by_relation) :=
      match cn_identity node with
      | NiSchema _ => (with_schemas c (saturating_sub (rc_schemas c) 1), rt_columns_by_relation r)
      | NiRelation _ _ => (with_relations c (saturating_sub (rc_relations c) 1), rt_columns_by_relation r)
      | NiColumn schema relation _ =>
          (with_columns c (saturating_sub (rc_columns c) 1),
           match rt_columns_by_relation r !! (schema, relation) with
           | Some count =>
               let count := saturating_sub count 1 in
               if (count =? 0)%N then delete (schema, relation) (rt_columns_by_relation r)
               else <[(schema, relation) := count]> (rt_columns_by_relation r)
           | None => rt_columns_by_relation r
           end)
      end in
    {| rt_identities := rt_identities r ∖ {[cn_identity node]}; rt_counts := counts;
       rt_utf8_bytes := saturating_sub (rt_utf8_bytes r) (catalog_node_utf8_bytes node);
       rt_columns_by_relation := by_relation |}.

Definition retention_remove (r : CatalogRetention) (nodes : list CatalogNode) : CatalogRetention :=
  foldl remove_one r nodes.

Definition from_checkpoint (counts : CatalogRetainedCounts) (retained_utf8_bytes : N)
    (relation : option (list N * list N)) : result DriverError CatalogRetention :=
  if (MAX_CATALOG_SCHEMAS <? rc_schemas counts)%N
     || (MAX_CATALOG_RELATIONS <? rc_relations counts)%N
     || (MAX_CATALOG_COLUMNS <? rc_columns counts)%N
     || (MAX_CATALOG_COLUMNS_PER_RELATION <? rc_columns_in_relation counts)%N
     || (MAX_CATALOG_UTF8_BYTES <? retained_utf8_bytes)%N
  then Err DeInvalidCatalogRequest
  else
    by_relation ←
      (if (0 <? rc_columns_in_relation counts)%N then
         relation ← ok_or relation DeInvalidCatalogRequest;
         Ok {[relation := rc_columns_in_relation counts]}
       else Ok ∅);
    Ok {| rt_identities := ∅; rt_counts := counts; rt_utf8_bytes := retained_utf8_bytes;
          rt_columns_by_relation := by_relation |}.

(** ** Quoted names *)

Fixpoint double_backticks (s : str) : str :=
  match s with
  | [] => []
  | c :: s => (if (c =? 96)%N then [96%N; c] else [c]) ++ double_backticks s
  end.

Definition quote_mysql_identifier (identifier : str) : str :=
  lit "`" ++ double_backticks identifier ++ lit "`".

Definition bounded_select_template (schema relation : str) : str :=
  lit "SELECT * FROM " ++ quote_mysql_identifier schema ++ lit "." ++ quote_mysql_identifier relation
    ++ lit " LIMIT 500".

(** ** What a request hashes to *)

(** [n.to_be_bytes()] of a [k]-byte integer. *)
Fixpoint to_be_bytes (k : nat) (n : N) : bytes :=
  match k with
  | 0 => []
  | S k => to_be_bytes k (n / 256) ++ [(n mod 256)%N]
  end.

(** [update_fingerprint_part]: the bytes it feeds to the digest. *)
Definition fingerprint_part (value : str) : bytes := to_be_bytes 8 (str_len value) ++ encode value.

Definition level_tag (level : CatalogLevel) : N :=
  match level with Schemas => 1 | Relations => 2 | Columns => 3 end.

(** What each fingerprint digests. *)
Definition parent_preimage (request : CatalogRequest) : bytes :=
  lit "dbotter:mysql-catalog-parent:v1" ++ [nul] ++
  match request with
  | CrSchemas _ _ _ _ _ => [0%N]
  | CrRelations _ schema _ _ _ _ => [1%N] ++ fingerprint_part schema
  | CrColumns _ schema relation _ _ _ _ => [2%N] ++ fingerprint_part schema ++ fingerprint_part relation
  end.

Definition profile_preimage (request : CatalogRequest) : bytes :=
  lit "dbotter:mysql-catalog-profile:v1" ++ [nul] ++ fingerprint_part (ri_profile_id (cr_identity request)).

Definition prefix_preimage (prefix : option str) : bytes :=
  lit "dbotter:mysql-catalog-prefix:v1" ++ [nul] ++
  match prefix with
  | Some prefix => [1%N] ++ fingerprint_part prefix
  | None => [0%N]
  end.

(** [update_context_field], [update_optional_context_field]: the bytes they digest. *)
Definition context_field (tag : N) (value : bytes) : bytes :=
  [tag] ++ to_be_bytes 8 (N.of_nat (length value)) ++ value.

Definition optional_context_field (tag : N) (value : option bytes) : bytes :=
  match value with
  | Some value => [tag; 1%N] ++ to_be_bytes 8 (N.of_nat (length value)) ++ value
  | None => [tag; 0%N]
  end.

Definition driver_context_tag (driver : DriverKind) : N :=
  match driver with MySql => 1 | Redis => 2 | MongoDb => 3 end.
Definition tls_context_tag (tls : TlsMode) : N :=
  match tls with Disabled => 1 | Preferred => 2 | Required => 3 end.
Definition credential_mode_context_tag (mode : CredentialMode) : N :=
  match mode with CredNone => 1 | CredSession => 2 | CredEnvironment => 3 end.

Definition context_preimage (fp : ConnectionFingerprint) : bytes :=
  TOKEN_KEY_CONTEXT_DOMAIN
    ++ context_field 1 [driver_context_tag (fp_driver fp)]
    ++ context_field 2 (encode (fp_host fp))
    ++ context_field 3 (to_be_bytes 2 (fp_port fp))
    ++ optional_context_field 4 (encode <$> fp_database fp)
    ++ optional_context_field 5 (encode <$> fp_username fp)
    ++ context_field 6 [tls_context_tag (fp_tls fp)]
    ++ context_field 7 [credential_mode_context_tag (fp_credential_mode fp)]
    ++ optional_context_field 8 (encode <$> fp_secret_env fp)
    ++ optional_context_field 9 (encode <$> fp_redis_ca_file fp).

(** ** Tokens *)

Record DecodedToken := {
  dk_last_name : str;
  dk_last_ordinal : option N;
  dk_counts : CatalogRetainedCounts;
  dk_utf8_bytes : N;
}.

Definition usize_to_u64 (value : N) : result DriverError N :=
  if (value <=? U64_MAX)%N then Ok value else Err DeInvalidCatalogRequest.
Definition u64_to_usize (value : N) : result DriverError N :=
  if (value <=? USIZE_MAX)%N then Ok value else Err DeInvalidCatalogRequest.

(** The relation whose columns a request lists. *)
Definition request_relation (request : CatalogRequest) : option (list N * list N) :=
  match request with
  | CrColumns _ schema relation _ _ _ _ => Some (schema, relation)
  | CrSchemas _ _ _ _ _ | CrRelations _ _ _ _ _ _ => None
  end.

Section tokens.
Context `{TokenCrates}.

Definition parent_fingerprint (request : CatalogRequest) : str := base64_encode (sha256 (parent_preimage request)).
Definition profile_fingerprint (request : CatalogRequest) : str := base64_encode (sha256 (profile_preimage request)).
Definition prefix_fingerprint (prefix : option str) : str := base64_encode (sha256 (prefix_preimage prefix)).

(** A token key: the bytes the HMAC is keyed with. *)
Abbreviation CatalogTokenKey := (list N) (only parsing).

Definition from_connection_fields (fp : ConnectionFingerprint) : bytes := sha256 (context_preimage fp).

Definition derive_token_key (root context : bytes) : option CatalogTokenKey :=
  hmac_sha256 root (TOKEN_KEY_DERIVATION_DOMAIN ++ context).

Definition sign (key : CatalogTokenKey) (payload : bytes) : result DriverError bytes :=
  ok_or (hmac_sha256 key (TOKEN_AUTHENTICATION_DOMAIN ++ payload)) DeInvalidCatalogRequest.

Definition verify (key : CatalogTokenKey) (payload supplied : bytes) : result DriverError unit :=
  mac ← ok_or (hmac_sha256 key (TOKEN_AUTHENTICATION_DOMAIN ++ payload)) DeInvalidCatalogRequest;
  reject_if (negb (bool_decide (mac = supplied))) DeInvalidCatalogRequest.

Definition token_position (last : CatalogNode) : str * option N :=
  match cn_identity last with
  | NiColumn _ _ ordinal => (cn_name last, Some ordinal)
  | _ => (cn_name last, None)
  end.

Definition encode_page_token (request : CatalogRequest) (last : CatalogNode) (outcome : CatalogRetentionOutcome)
    (key : CatalogTokenKey) : result DriverError CatalogPageToken :=
  let '(last_name, last_ordinal) := token_position last in
  let counts := ro_counts outcome in
  schemas ← usize_to_u64 (rc_schemas counts);
  relations ← usize_to_u64 (rc_relations counts);
  columns ← usize_to_u64 (rc_columns counts);
  columns_in_relation ← usize_to_u64 (rc_columns_in_relation counts);
  retained_utf8_bytes ← usize_to_u64 (ro_utf8_bytes outcome);
  let payload :=
    {| tp_version := TOKEN_VERSION; tp_profile_fingerprint := profile_fingerprint request;
       tp_profile_generation := ri_profile_generation (cr_identity request);
       tp_level := level_tag (cr_level request); tp_parent_fingerprint := parent_fingerprint request;
       tp_prefix_fingerprint := prefix_fingerprint (cr_prefix request);
       tp_page_size := cr_page_size request; tp_last_name := last_name; tp_last_ordinal := last_ordinal;
       tp_schemas := schemas; tp_relations := relations; tp_columns := columns;
       tp_columns_in_relation := columns_in_relation; tp_retained_utf8_bytes := retained_utf8_bytes |} in
  payload_bytes ← ok_or (json_to_vec payload) DeInvalidCatalogRequest;
  authenticator ← sign key payload_bytes;
  Ok (TOKEN_PREFIX ++ lit "." ++ base64_encode payload_bytes ++ lit "." ++ base64_encode authenticator).

(** Whether a payload continues this request. *)
Definition payload_matches (request : CatalogRequest) (payload : TokenPayload) : bool :=
  (tp_version payload =? TOKEN_VERSION)%N
  && bool_decide (tp_profile_fingerprint payload = profile_fingerprint request)
  && (tp_profile_generation payload =? ri_profile_generation (cr_identity request))%N
  && (tp_level payload =? level_tag (cr_level request))%N
  && bool_decide (tp_parent_fingerprint payload = parent_fingerprint request)
  && bool_decide (tp_prefix_fingerprint payload = prefix_fingerprint (cr_prefix request))
  && (tp_page_size payload =? cr_page_size request)%N
  && bool_decide (bool_decide (cr_level request = Columns)
                  = match tp_last_ordinal payload with Some _ => true | None => false end).

Definition decode_page_token (request : CatalogRequest) (token : CatalogPageToken) (key : CatalogTokenKey) :
    result DriverError DecodedToken :=
  match split_char 46 token with
  | prefix :: payload_encoded :: authenticator_encoded :: rest =>
      _ ← reject_if (negb (bool_decide (prefix = TOKEN_PREFIX)) || negb (bool_decide (rest = [])))
            DeInvalidCatalogRequest;
      payload_bytes ← ok_or (base64_decode payload_encoded) DeInvalidCatalogRequest;
      supplied ← ok_or (base64_decode authenticator_encoded) DeInvalidCatalogRequest;
      _ ← verify key payload_bytes supplied;
      payload ← ok_or (json_from_slice payload_bytes) DeInvalidCatalogRequest;
      _ ← reject_if (negb (payload_matches request payload)) DeInvalidCatalogRequest;
      schemas ← u64_to_usize (tp_schemas payload);
      relations ← u64_to_usize (tp_relations payload);
      columns ← u64_to_usize (tp_columns payload);
      columns_in_relation ← u64_to_usize (tp_columns_in_relation payload);
      retained_utf8_bytes ← u64_to_usize (tp_retained_utf8_bytes payload);
      let counts := {| rc_schemas := schemas; rc_relations := relations; rc_columns := columns;
                       rc_columns_in_relation := columns_in_relation |} in
      _ ← from_checkpoint counts retained_utf8_bytes (request_relation request);
      Ok {| dk_last_name := tp_last_name payload; dk_last_ordinal := tp_last_ordinal payload;
            dk_counts := counts; dk_utf8_bytes := retained_utf8_bytes |}
  | _ => Err DeInvalidCatalogRequest
  end.

(** ** The page *)

Definition request_parent (request : CatalogRequest) : option CatalogNodeIdentity :=
  match request with
  | CrSchemas _ _ _ _ _ => None
  | CrRelations _ schema _ _ _ _ => Some (NiSchema schema)
  | CrColumns _ schema relation _ _ _ _ => Some (NiRelation schema relation)
  end.

(** [now] is the time stamp of [Utc::now()]. *)
Definition finish_page (request : CatalogRequest) (decoded : DecodedToken) (fetched : list CatalogNode)
    (key : CatalogTokenKey) (now : str) : result DriverError CatalogPage :=
  let page_size := N.to_nat (cr_page_size request) in
  let has_extra := page_size <? length fetched in
  let extra := fetched !! page_size in
  let fetched := take page_size fetched in
  retention ← from_checkpoint (dk_counts decoded) (dk_utf8_bytes decoded) (request_relation request);
  let '(outcome, retention) := retention_retain retention fetched in
  let extra_fits := match extra with None => true | Some candidate => can_retain retention candidate end in
  let truncated := if has_extra && negb extra_fits then true else ro_truncated outcome in
  next_token ←
    (if has_extra && extra_fits && negb truncated && (length (ro_nodes outcome) =? page_size) then
       match last (ro_nodes outcome) with
       | Some node => token ← encode_page_token request node outcome key; Ok (Some token)
       | None => Ok None
       end
     else Ok None);
  Ok {| cp_identity := cr_identity request; cp_level := cr_level request; cp_parent := request_parent request;
        cp_nodes := ro_nodes outcome; cp_next_token := next_token; cp_retained_counts := ro_counts outcome;
        cp_retained_utf8_bytes := ro_utf8_bytes outcome; cp_truncated := truncated; cp_stale := false;
        cp_loaded_at := now |}.
End tokens.

(** ** The prepared queries *)

Definition SCHEMA_QUERY : str := lit "
SELECT SCHEMA_NAME
FROM information_schema.SCHEMATA
WHERE (? IS NULL OR CAST(SCHEMA_NAME AS BINARY) = CAST(? AS BINARY))
  AND (? = '' OR LEFT(CAST(SCHEMA_NAME AS BINARY), OCTET_LENGTH(CAST(? AS BINARY))) = CAST(? AS BINARY))
  AND (? = '' OR CAST(SCHEMA_NAME AS BINARY) > CAST(? AS BINARY))
ORDER BY CAST(SCHEMA_NAME AS BINARY)
LIMIT ?
".

Definition RELATION_QUERY : str := lit "
SELECT TABLE_NAME, TABLE_TYPE
FROM information_schema.TABLES
WHERE CAST(TABLE_SCHEMA AS BINARY) = CAST(? AS BINARY)
  AND (? = '' OR LEFT(CAST(TABLE_NAME AS BINARY), OCTET_LENGTH(CAST(? AS BINARY))) = CAST(? AS BINARY))
  AND (? = '' OR CAST(TABLE_NAME AS BINARY) > CAST(? AS BINARY))
ORDER BY CAST(TABLE_NAME AS BINARY)
LIMIT ?
".

Definition COLUMN_QUERY : str := lit "
SELECT COLUMN_NAME, COLUMN_TYPE, IS_NULLABLE, ORDINAL_POSITION
FROM information_schema.COLUMNS
WHERE CAST(TABLE_SCHEMA AS BINARY) = CAST(? AS BINARY)
  AND CAST(TABLE_NAME AS BINARY) = CAST(? AS BINARY)
  AND (? = '' OR LEFT(CAST(COLUMN_NAME AS BINARY), OCTET_LENGTH(CAST(? AS BINARY))) = CAST(? AS BINARY))
  AND (ORDINAL_POSITION > ? OR (ORDINAL_POSITION = ? AND CAST(COLUMN_NAME AS BINARY) > CAST(? AS BINARY)))
ORDER BY ORDINAL_POSITION, CAST(COLUMN_NAME AS BINARY)
LIMIT ?
".

(** What is bound to a placeholder, and a value of a row. *)
Inductive SqlArgument := BindText (value : option str) | BindU32 (value : N).
#[export] Instance SqlArgument_eq : EqDecision SqlArgument. Proof. solve_decision. Defined.

Inductive SqlValue := SvText (value : str) | SvU32 (value : N) | SvOther.

(** A step of [fetch_many]: a finished result ([Either::Left]) or a row. *)
Inductive FetchStep := Finished | FetchedRow (row : list SqlValue).

(** The MySQL server behind the pool, as one request meets it. *)
Record MysqlServer := {
  ms_acquire : result SqlxError unit;
  ms_prepare : str -> result SqlxError unit;
  ms_fetch : str -> list SqlArgument -> list (result SqlxError FetchStep);
}.

(** [DriverError::from] on the error of a call. *)
Definition from_sqlx {A} (r : result SqlxError A) : result DriverError A := map_err DeMySql r.

(** [row.try_get::<String, _>(i)], [row.try_get::<u32, _>(i)] *)
Definition try_get_text (row : list SqlValue) (i : nat) : result SqlxError str :=
  match row !! i with Some (SvText value) => Ok value | _ => Err SqlxOther end.
Definition try_get_u32 (row : list SqlValue) (i : nat) : result SqlxError N :=
  match row !! i with Some (SvU32 value) => Ok value | _ => Err SqlxOther end.

(** The loop over the stream, with the conversion of a row. *)
Fixpoint collect_rows (node_of : list SqlValue -> result DriverError CatalogNode)
    (steps : list (result SqlxError FetchStep)) : result DriverError (list CatalogNode) :=
  match steps with
  | [] => Ok []
  | step :: steps =>
      step ← from_sqlx step;
      match step with
      | Finished => collect_rows node_of steps
      | FetchedRow row =>
          node ← node_of row;
          nodes ← collect_rows node_of steps;
          Ok (node :: nodes)
      end
  end.

Definition fetch_nodes (server : MysqlServer) (sql : str) (arguments : list SqlArgument)
    (node_of : list SqlValue -> result DriverError CatalogNode) : result DriverError (list CatalogNode) :=
  _ ← from_sqlx (ms_acquire server);
  _ ← from_sqlx (ms_prepare server sql);
  collect_rows node_of (ms_fetch server sql arguments).

Definition schema_node (row : list SqlValue) : result DriverError CatalogNode :=
  name ← from_sqlx (try_get_text row 0);
  Ok {| cn_identity := NiSchema name; cn_kind := NkSchema; cn_name := name; cn_type_name := None;
        cn_nullable := None; cn_ordinal := None |}.

Definition load_schemas (server : MysqlServer) (configured_database : option str) (prefix last_name : str)
    (server_limit : N) : result DriverError (list CatalogNode) :=
  fetch_nodes server SCHEMA_QUERY
    [BindText configured_database; BindText configured_database;
     BindText (Some prefix); BindText (Some prefix); BindText (Some prefix);
     BindText (Some last_name); BindText (Some last_name); BindU32 server_limit]
    schema_node.

Definition relation_node (schema : str) (row : list SqlValue) : result DriverError CatalogNode :=
  name ← from_sqlx (try_get_text row 0);
  relation_type ← from_sqlx (try_get_text row 1);
  let kind := if eq_ignore_ascii_case relation_type (lit "VIEW")
                 || eq_ignore_ascii_case relation_type (lit "SYSTEM VIEW")
              then NkView else NkTable in
  Ok {| cn_identity := NiRelation schema name; cn_kind := kind; cn_name := name;
        cn_type_name := Some relation_type; cn_nullable := None; cn_ordinal := None |}.

Definition load_relations (server : MysqlServer) (schema prefix last_name : str) (server_limit : N) :
    result DriverError (list CatalogNode) :=
  fetch_nodes server RELATION_QUERY
    [BindText (Some schema); BindText (Some prefix); BindText (Some prefix); BindText (Some prefix);
     BindText (Some last_name); BindText (Some last_name); BindU32 server_limit]
    (relation_node schema).

Definition column_node (schema relation : str) (row : list SqlValue) : result DriverError CatalogNode :=
  name ← from_sqlx (try_get_text row 0);
  type_name ← from_sqlx (try_get_text row 1);
  nullable ← from_sqlx (try_get_text row 2);
  ordinal ← from_sqlx (try_get_u32 row 3);
  Ok {| cn_identity := NiColumn schema relation ordinal; cn_kind := NkColumn; cn_name := name;
        cn_type_name := Some type_name; cn_nullable := Some (eq_ignore_ascii_case nullable (lit "YES"));
        cn_ordinal := Some ordinal |}.

Definition load_columns (server : MysqlServer) (schema relation prefix : str) (last_ordinal : N) (last_name : str)
    (server_limit : N) : result DriverError (list CatalogNode) :=
  fetch_nodes server COLUMN_QUERY
    [BindText (Some schema); BindText (Some relation);
     BindText (Some prefix); BindText (Some prefix); BindText (Some prefix);
     BindU32 last_ordinal; BindU32 last_ordinal; BindText (Some last_name); BindU32 server_limit]
    (column_node schema relation).

Section load_page.
Context `{TokenCrates}.

Definition load_page_inner (server : MysqlServer) (configured_database : option str) (request : CatalogRequest)
    (decoded : DecodedToken) (server_limit : N) (key : bytes) (now : str) : result DriverError CatalogPage :=
  let prefix := default [] (cr_prefix request) in
  nodes ←
    match request with
    | CrSchemas _ _ _ _ _ => load_schemas server configured_database prefix (dk_last_name decoded) server_limit
    | CrRelations _ schema _ _ _ _ => load_relations server schema prefix (dk_last_name decoded) server_limit
    | CrColumns _ schema relation _ _ _ _ =>
        load_columns server schema relation prefix (default 0%N (dk_last_ordinal decoded))
          (dk_last_name decoded) server_limit
    end;
  finish_page request decoded nodes key now.

Definition first_position : DecodedToken :=
  {| dk_last_name := []; dk_last_ordinal := None; dk_counts := CatalogRetainedCounts_default;
     dk_utf8_bytes := 0 |}.

(** [timed_out]: the request's deadline came before the server's answer. *)
Definition load_page (server : MysqlServer) (configured_database : option str) (request : CatalogRequest)
    (key : bytes) (now : str) (timed_out : bool) : result DriverError CatalogPage :=
  _ ← map_err (fun _ => DeInvalidCatalogRequest) (CatalogRequest_validate request);
  decoded ←
    match cr_page_token request with
    | Some token => decode_page_token request token key
    | None => Ok first_position
    end;
  let server_limit := (cr_page_size request + 1)%N in
  if timed_out then Err (DeTimeout MySql (as_secs (cr_timeout request)))
  else load_page_inner server configured_database request decoded server_limit key now.
End load_page.
