(* ===== verification/TokenKeyFile.v ===== *)
(** * The file of the catalog's token key (src/src/drivers/mysql_catalog.rs)

    [load_or_create_token_key] reads the key beside the configuration or creates it, while
    other processes do the same.  A process is a tree of system calls and continuations;
    the processes of a system take their calls in any order, every call may fail, and a
    process may die before any of its calls. *)

From S2P Require Import Prelude RustStr Model Config MysqlCatalog.

(** ** Files *)

Inductive KeyIoError := KeyNotFound | KeyAlreadyExists | KeyInvalidData | KeyOther.

(** A regular file by its inode, or anything else (directory, link, device). *)
Inductive KeyEntry := KeyFile (inode : N) | KeyNoFile.

(** An inode has a content, and is private when its mode is 0600. *)
Record KeyDisk := { kd_paths : gmap (list N) KeyEntry; kd_inodes : gmap N (bytes * bool) }.

Definition named (d : KeyDisk) : gset N :=
  list_to_set (omap (fun entry => match entry.2 with KeyFile i => Some i | KeyNoFile => None end) (map_to_list (kd_paths d))).

Record Metadata := { md_is_file : bool; md_private : bool }.

Definition TOKEN_KEY_BYTES : nat := 32.
Definition TOKEN_KEY_SUFFIX : str := lit ".catalog-integrity-key".

(** ** System calls *)

Inductive KeyCall : Type -> Type :=
| SymlinkMetadata (path : str) : KeyCall Metadata
| OpenNoFollow (path : str) : KeyCall N
| FileMetadata (inode : N) : KeyCall Metadata
| ReadExact (inode : N) : KeyCall bytes
| ReadExtra (inode : N) : KeyCall nat
| CreateDirAll (directory : str) : KeyCall unit
| FillRandom : KeyCall bytes
| CreateNew (path : str) : KeyCall N
| WriteAll (inode : N) (data : bytes) : KeyCall unit
| Flush (inode : N) : KeyCall unit
| SyncAll (inode : N) : KeyCall unit
| RenameNoReplace (from to : str) : KeyCall unit
| SyncDirectory (directory : str) : KeyCall unit
| RemoveFile (path : str) : KeyCall unit.

Definition inode_metadata (d : KeyDisk) (inode : N) : result KeyIoError Metadata :=
  '(_, private) ← ok_or (kd_inodes d !! inode) KeyOther;
  Ok {| md_is_file := true; md_private := private |}.

Definition append (d : KeyDisk) (inode : N) (data : bytes) : KeyDisk :=
  {| kd_paths := kd_paths d; kd_inodes := alter (fun '(content, private) => (content ++ data, private)) inode (kd_inodes d) |}.

Definition with_key_paths (d : KeyDisk) (paths : gmap (list N) KeyEntry) : KeyDisk :=
  {| kd_paths := paths; kd_inodes := kd_inodes d |}.

(** A call that succeeds or fails because of the files; [random] is what the kernel's generator yields. *)
Definition perform {R} (call : KeyCall R) (random : bytes) (d : KeyDisk) : result KeyIoError R * KeyDisk :=
  match call in KeyCall R return result KeyIoError R * KeyDisk with
  | SymlinkMetadata path =>
      (match kd_paths d !! path with
       | Some (KeyFile inode) => inode_metadata d inode
       | Some KeyNoFile => Ok {| md_is_file := false; md_private := false |}
       | None => Err KeyNotFound
       end, d)
  | OpenNoFollow path =>
      (match kd_paths d !! path with
       | Some (KeyFile inode) => Ok inode
       | Some KeyNoFile => Err KeyOther
       | None => Err KeyNotFound
       end, d)
  | FileMetadata inode => (inode_metadata d inode, d)
  | ReadExact inode =>
      ('(content, _) ← ok_or (kd_inodes d !! inode) KeyOther;
       if length content <? TOKEN_KEY_BYTES then Err KeyOther else Ok (take TOKEN_KEY_BYTES content), d)
  | ReadExtra inode =>
      ('(content, _) ← ok_or (kd_inodes d !! inode) KeyOther; Ok (Nat.min 1 (length content - TOKEN_KEY_BYTES)), d)
  | FillRandom => (Ok (take TOKEN_KEY_BYTES random), d)
  | CreateNew path =>
      match kd_paths d !! path with
      | Some _ => (Err KeyAlreadyExists, d)
      | None =>
          let inode := fresh (dom (kd_inodes d) ∪ named d) in
          (Ok inode, {| kd_paths := <[path := KeyFile inode]> (kd_paths d); kd_inodes := <[inode := ([], true)]> (kd_inodes d) |})
      end
  | WriteAll inode data => (Ok tt, append d inode data)
  | RenameNoReplace from to =>
      match kd_paths d !! from, kd_paths d !! to with
      | None, _ => (Err KeyNotFound, d)
      | Some _, Some _ => (Err KeyAlreadyExists, d)
      | Some entry, None => (Ok tt, with_key_paths d (<[to := entry]> (delete from (kd_paths d))))
      end
  | RemoveFile path =>
      match kd_paths d !! path with
      | None => (Err KeyNotFound, d)
      | Some _ => (Ok tt, with_key_paths d (delete path (kd_paths d)))
      end
  | CreateDirAll _ | Flush _ | SyncAll _ | SyncDirectory _ => (Ok tt, d)
  end.

(** What a call that fails may have done: a write leaves a part of its bytes. *)
Definition perform_partly {R} (call : KeyCall R) (written : nat) (d : KeyDisk) : KeyDisk :=
  match call with WriteAll inode data => append d inode (take written data) | _ => d end.

(** Every call is served, or fails. *)
Inductive served {R} (call : KeyCall R) (d : KeyDisk) : result KeyIoError R -> KeyDisk -> Prop :=
| served_done random : length random = TOKEN_KEY_BYTES -> served call d (perform call random d).1 (perform call random d).2
| served_failed written : served call d (Err KeyOther) (perform_partly call written d).

(** ** Programs *)

Inductive Prog (A : Type) : Type :=
| Ret (r : result KeyIoError A)
| Call {R : Type} (call : KeyCall R) (k : result KeyIoError R -> Prog A).
Arguments Ret {A} r.
Arguments Call {A R} call k.

Fixpoint prog_then {A B} (m : Prog A) (f : result KeyIoError A -> Prog B) : Prog B :=
  match m with
  | Ret r => f r
  | Call call k => Call call (fun r => prog_then (k r) f)
  end.

#[export] Instance Prog_ret : MRet Prog := fun _ a => Ret (Ok a).
#[export] Instance Prog_bind : MBind Prog := fun _ _ f m =>
  prog_then m (fun r => match r with Ok a => f a | Err e => Ret (Err e) end).

Definition sys {R} (call : KeyCall R) : Prog R := Call call Ret.
Definition io_fail {A} (e : KeyIoError) : Prog A := Ret (Err e).

Definition key_file_ok (metadata : Metadata) : bool := md_is_file metadata && md_private metadata.

(** [read_token_key] once the path is known to be a private file. *)
Definition read_opened (path : str) : Prog (option bytes) :=
  inode ← sys (OpenNoFollow path);
  opened ← sys (FileMetadata inode);
  if negb (key_file_ok opened) then io_fail KeyInvalidData
  else
    key ← sys (ReadExact inode);
    extra ← sys (ReadExtra inode);
    if negb (extra =? 0) then io_fail KeyInvalidData else mret (Some key).

Definition read_token_key (path : str) : Prog (option bytes) :=
  prog_then (sys (SymlinkMetadata path)) (fun metadata =>
    match metadata with
    | Err KeyNotFound => mret None
    | Err error => io_fail error
    | Ok metadata => if negb (key_file_ok metadata) then io_fail KeyInvalidData else read_opened path
    end).

(** The name of the [n]-th temporary file of a process. *)
Definition token_key_temp (directory : str) (process_id sequence : N) : str :=
  path_join directory (lit ".dbotter-catalog-integrity-key.tmp." ++ display_N process_id ++ lit "." ++ display_N sequence).

(** [create_token_key_temp]: the attempts that are left; the sequence wraps around. *)
Fixpoint create_token_key_temp (attempts : nat) (directory : str) (process_id sequence : N) : Prog (str * N) :=
  match attempts with
  | 0 => io_fail KeyAlreadyExists
  | S attempts =>
      let path := token_key_temp directory process_id sequence in
      prog_then (sys (CreateNew path)) (fun created =>
        match created with
        | Ok inode => mret (path, inode)
        | Err KeyAlreadyExists => create_token_key_temp attempts directory process_id ((sequence + 1) mod (U64_MAX + 1))%N
        | Err error => io_fail error
        end)
  end.

(** [TokenKeyTempCleanup]: a cleanup that is still armed removes the file at the end. *)
Definition with_cleanup {A} (temp_path : str) (r : result KeyIoError A) : Prog A :=
  prog_then (sys (RemoveFile temp_path)) (fun _ => Ret r).

Definition write_candidate (inode : N) (candidate : bytes) : Prog unit :=
  _ ← sys (WriteAll inode candidate);
  _ ← sys (Flush inode);
  sys (SyncAll inode).

(** The rename to the key's path; another process may have been first. *)
Definition install_candidate (directory path temp_path : str) (candidate : bytes) : Prog bytes :=
  prog_then (sys (RenameNoReplace temp_path path)) (fun renamed =>
    match renamed with
    | Ok _ => _ ← sys (SyncDirectory directory); mret candidate
    | Err KeyAlreadyExists =>
        prog_then
          (_ ← sys (SyncDirectory directory);
           key ← read_token_key path;
           match key with Some key => mret key | None => io_fail KeyInvalidData end)
          (with_cleanup temp_path)
    | Err error => with_cleanup temp_path (Err error)
    end).

Section load_or_create.
Context (parent : str -> option str).   (* Path::parent *)

Definition load_or_create_token_key (process_id sequence : N) (path : str) : Prog bytes :=
  key ← read_token_key path;
  match key with
  | Some key => mret key
  | None =>
      let directory := match parent path with Some (c :: directory) => c :: directory | _ => lit "." end in
      _ ← sys (CreateDirAll directory);
      candidate ← sys FillRandom;
      '(temp_path, inode) ← create_token_key_temp 16 directory process_id sequence;
      prog_then (write_candidate inode candidate) (fun written =>
        match written with
        | Ok _ => install_candidate directory path temp_path candidate
        | Err error => with_cleanup temp_path (Err error)
        end)
  end.

(** [CatalogTokenKeyStore::for_config_path] *)
Definition for_config_path (config_path : str) : str := config_path ++ TOKEN_KEY_SUFFIX.

(** The store of a service: [load_or_create] under its mutex, given what reading or creating the file comes to. *)
Record CatalogTokenKeyStore := { ks_poisoned : bool; ks_cached : option bytes }.

Definition store_load_or_create (loaded : result KeyIoError bytes) (store : CatalogTokenKeyStore) :
    option bytes * CatalogTokenKeyStore :=
  if ks_poisoned store then (None, store)
  else
    match ks_cached store, loaded with
    | Some key, _ => (Some key, store)
    | None, Ok key => (Some key, {| ks_poisoned := false; ks_cached := Some key |})
    | None, Err _ => (None, store)
    end.

(** ** Processes *)

(** The processes under way or ended, by number, and the files they share. *)
Record KeySystem := { sy_processes : gmap nat (Prog bytes); sy_disk : KeyDisk }.

Inductive key_step (path : str) : KeySystem -> KeySystem -> Prop :=
| step_start n process_id sequence processes d :
    processes !! n = None ->
    key_step path {| sy_processes := processes; sy_disk := d |}
      {| sy_processes := <[n := load_or_create_token_key process_id sequence path]> processes; sy_disk := d |}
| step_call n R (call : KeyCall R) k r processes d d' :
    processes !! n = Some (Call call k) -> served call d r d' ->
    key_step path {| sy_processes := processes; sy_disk := d |} {| sy_processes := <[n := k r]> processes; sy_disk := d' |}
| step_dies n processes d :
    key_step path {| sy_processes := processes; sy_disk := d |} {| sy_processes := delete n processes; sy_disk := d |}.
End load_or_create.
