(* ===== verification/TokenKeySafety.v ===== *)
(** * One key per configuration (theorems on TokenKeyFile)

    Rely and guarantee: a process knows what it owns, its temporary file, and what it has
    seen of the key's file; every call keeps to its guarantee, under which the others'
    knowledge stays true.  So all processes that get a key get the same one. *)

From S2P Require Import Prelude RustStr Model Config MysqlCatalog TokenKeyFile.

#[local] Arguments TOKEN_KEY_BYTES : simpl never.
#[local] Arguments Nat.ltb : simpl never.
#[local] Arguments Nat.min : simpl never.
#[local] Arguments Nat.eqb : simpl never.

(** ** What a process knows *)

(** Its temporary file (path, inode, content), and the key's file (inode, content, private). *)
Record Local := { lo_own : option (str * N * bytes); lo_final : option (N * bytes * bool) }.

Definition nothing_known : Local := {| lo_own := None; lo_final := None |}.
Definition own_path (L : Local) : option str := (fun own => own.1.1) <$> lo_own L.
Definition own_inode (L : Local) : option N := (fun own => own.1.2) <$> lo_own L.

Section knowledge.
Context (path : str).

Record owns (own : str * N * bytes) (d : KeyDisk) : Prop := {
  ow_path : own.1.1 <> path;
  ow_entry : kd_paths d !! own.1.1 = Some (KeyFile own.1.2);
  ow_content : kd_inodes d !! own.1.2 = Some (own.2, true);
  ow_not_key : kd_paths d !! path <> Some (KeyFile own.1.2);
}.

Definition sees (final : N * bytes * bool) (d : KeyDisk) : Prop :=
  kd_paths d !! path = Some (KeyFile final.1.1) /\ kd_inodes d !! final.1.1 = Some (final.1.2, final.2).

Definition holds (L : Local) (d : KeyDisk) : Prop :=
  (forall own, lo_own L = Some own -> owns own d) /\ (forall final, lo_final L = Some final -> sees final d).

(** What a call of a process may do to the files. *)
Record guarantee (L L' : Local) (d d' : KeyDisk) : Prop := {
  gu_paths : forall p, kd_paths d' !! p = kd_paths d !! p \/ kd_paths d !! p = None \/ own_path L = Some p;
  gu_entries : forall p i, kd_paths d' !! p = Some (KeyFile i) ->
    kd_paths d !! p = Some (KeyFile i) \/ own_inode L = Some i \/ kd_inodes d !! i = None;
  gu_inodes : forall i, kd_inodes d' !! i = kd_inodes d !! i \/ kd_inodes d !! i = None \/ own_inode L = Some i;
  gu_own : lo_own L' = None \/ (own_path L' = own_path L /\ own_inode L' = own_inode L) \/
    (exists t i, own_path L' = Some t /\ own_inode L' = Some i /\ kd_paths d !! t = None /\ kd_inodes d !! i = None);
}.

Definition apart (L L' : Local) : Prop :=
  (forall t, own_path L = Some t -> own_path L' <> Some t) /\ (forall i, own_inode L = Some i -> own_inode L' <> Some i).

Lemma owns_own L own d : holds L d -> lo_own L = Some own ->
  owns own d /\ own_path L = Some own.1.1 /\ own_inode L = Some own.1.2.
Proof. intros [Hown _] Heq. unfold own_path, own_inode. rewrite Heq. by split; [apply Hown|]. Qed.

(** Knowledge is stable under what the others may do. *)
Lemma holds_stable L L' M d d' : holds L d -> guarantee L L' d d' -> apart L M -> holds M d -> holds M d'.
Proof.
  intros HL [Hpaths Hentries Hinodes _] [Hapath Hainode] HM. pose proof HM as [HMown HMfinal]. split.
  - intros own Hown. destruct (owns_own M own d HM Hown) as ([H1 H2 H3 H4] & Hp & Hi). split; [done| | |].
    + destruct (Hpaths own.1.1) as [->|[Hnone|Hmine]]; [done|congruence|]. by apply Hapath in Hmine.
    + destruct (Hinodes own.1.2) as [->|[Hnone|Hmine]]; [done|congruence|]. by apply Hainode in Hmine.
    + intros Hkey. destruct (Hentries _ _ Hkey) as [?|[Hmine|Hnone]]; [done| |congruence]. by apply Hainode in Hmine.
  - intros final Hfinal. destruct (HMfinal final Hfinal) as [H1 H2].
    assert (forall own, lo_own L = Some own -> owns own d) as HLown by apply HL. split.
    + destruct (Hpaths path) as [->|[Hnone|Hmine]]; [done|congruence|].
      unfold own_path in Hmine. destruct (lo_own L) as [own|]; [|done]. destruct (HLown own eq_refl). by injection Hmine.
    + destruct (Hinodes final.1.1) as [->|[Hnone|Hmine]]; [done|congruence|].
      unfold own_inode in Hmine. destruct (lo_own L) as [own|]; [|done]. destruct (HLown own eq_refl) as [_ _ _ H].
      injection Hmine as Hmine. by rewrite Hmine in H.
Qed.

(** A new owner is apart from the others. *)
Lemma apart_moved L L' M d d' : guarantee L L' d d' -> apart L M -> holds M d -> apart L' M.
Proof.
  intros [_ _ _ Hown] [Hpath Hinode] HM. destruct Hown as [Hnone|[[Hp Hi]|(t & i & Hp & Hi & Ht & Hn)]].
  - unfold apart, own_path, own_inode. by rewrite Hnone.
  - unfold apart. by rewrite Hp, Hi.
  - split; intros x Hx HMx; unfold own_path, own_inode in *; destruct (lo_own M) as [own|] eqn:HMo; try done;
      destruct (owns_own M own d HM HMo) as ([_ H2 H3 _] & _ & _); cbn in *; congruence.
Qed.
(** ** Programs that keep to the guarantee *)

Fixpoint wp {A} (p : Prog A) (L : Local) (Q : result KeyIoError A -> Local -> Prop) : Prop :=
  match p with
  | Ret r => Q r L
  | Call call k => forall d r d', holds L d -> served call d r d' ->
      exists L', holds L' d' /\ guarantee L L' d d' /\ wp (k r) L' Q
  end.

Lemma key_wp_mono {A} (p : Prog A) L (Q Q' : result KeyIoError A -> Local -> Prop) :
  wp p L Q -> (forall r L', Q r L' -> Q' r L') -> wp p L Q'.
Proof.
  revert L. induction p as [r|R call k IH]; intros L; cbn; [auto|]. intros Hp HQ d r d' Hholds Hserved.
  destruct (Hp d r d' Hholds Hserved) as (L' & ? & ? & Hk). exists L'. split_and!; [done|done|]. by apply IH.
Qed.

Lemma key_wp_then {A B} (m : Prog A) (f : result KeyIoError A -> Prog B) L Q :
  wp m L (fun r L' => wp (f r) L' Q) -> wp (prog_then m f) L Q.
Proof.
  revert L. induction m as [r|R call k IH]; intros L; cbn; [done|]. intros Hm d r d' Hholds Hserved.
  destruct (Hm d r d' Hholds Hserved) as (L' & ? & ? & Hk). exists L'. split_and!; [done|done|]. by apply IH.
Qed.

Lemma key_wp_bind {A B} (m : Prog A) (f : A -> Prog B) L Q :
  wp m L (fun r L' => match r with Ok a => wp (f a) L' Q | Err e => Q (Err e) L' end) -> wp (m ≫= f) L Q.
Proof. intros Hm. apply key_wp_then. eapply key_wp_mono; [exact Hm|]. by intros [a|e] L'. Qed.

Lemma guarantee_same L L' d : lo_own L' = lo_own L -> guarantee L L' d d.
Proof. intros Hown. split; [auto|auto|auto|]. right. left. unfold own_path, own_inode. by rewrite Hown. Qed.

(** A call that changes no file: the process may learn something from the reply. *)
Definition looks {R} (call : KeyCall R) : Prop :=
  (forall random d, (perform call random d).2 = d) /\ (forall written d, perform_partly call written d = d).

Lemma key_wp_look {R} (call : KeyCall R) L Q :
  looks call ->
  (forall d r, holds L d -> (exists random, length random = TOKEN_KEY_BYTES /\ r = (perform call random d).1) \/ r = Err KeyOther ->
     exists L', lo_own L' = lo_own L /\ holds L' d /\ Q r L') ->
  wp (sys call) L Q.
Proof.
  intros [Hdone Hpartly] Hlook d r d' Hholds Hserved. cbn.
  assert (d' = d /\ ((exists random, length random = TOKEN_KEY_BYTES /\ r = (perform call random d).1) \/ r = Err KeyOther))
    as [-> Hr].
  { destruct Hserved as [random Hrandom|written]; [|by split; [apply Hpartly|right]].
    split; [apply Hdone|]. left. by exists random. }
  destruct (Hlook d r Hholds Hr) as (L' & Hown & HL' & HQ). exists L'. split_and!; [done|by apply guarantee_same|done].
Qed.

Lemma key_wp_plain (call : KeyCall unit) L (Q : result KeyIoError unit -> Local -> Prop) :
  looks call -> (forall r, Q r L) -> wp (sys call) L Q.
Proof. intros Hlooks HQ. apply key_wp_look; [done|]. intros d r Hholds _. by exists L. Qed.

(** ** Reading the key *)

(** A key that was read is what the key's file holds. *)
Definition key_seen (own : option (str * N * bytes)) (r : result KeyIoError (option bytes)) (L : Local) : Prop :=
  lo_own L = own /\ forall key, r = Ok (Some key) -> length key = TOKEN_KEY_BYTES /\ exists inode, lo_final L = Some (inode, key, true).

Lemma key_wp_read_opened L inode content private :
  lo_final L = Some (inode, content, private) -> wp (read_opened path) L (key_seen (lo_own L)).
Proof.
  intros Hfinal. assert (forall d, holds L d -> sees (inode, content, private) d) as Hsees by (intros d [_ H]; by apply H).
  unfold read_opened. apply key_wp_bind, key_wp_look; [done|]. intros d r Hholds Hr. exists L. split_and!; [done|done|].
  destruct (Hsees d Hholds) as [Hpath _]. cbn in Hr. rewrite Hpath in Hr.
  destruct r as [i|e]; [|done]. assert (i = inode) as -> by (destruct Hr as [(random & _ & [= ->])|]; done). clear d Hholds Hr Hpath.
  apply key_wp_bind, key_wp_look; [done|]. intros d r Hholds Hr. exists L. split_and!; [done|done|].
  destruct (Hsees d Hholds) as [_ Hinode]. cbn in Hr, Hinode. unfold inode_metadata in Hr. rewrite Hinode in Hr.
  destruct r as [metadata|e]; [|done].
  assert (metadata = {| md_is_file := true; md_private := private |}) as -> by (destruct Hr as [(random & _ & [= ->])|]; done).
  unfold key_file_ok. cbn [md_is_file md_private andb]. destruct private; [|done]. cbn [negb]. clear d Hholds Hr Hinode.
  apply key_wp_bind, key_wp_look; [done|]. intros d r Hholds Hr. exists L. split_and!; [done|done|].
  destruct (Hsees d Hholds) as [_ Hinode]. cbn in Hr, Hinode. rewrite Hinode in Hr. cbn in Hr.
  destruct (Nat.ltb_spec (length content) TOKEN_KEY_BYTES); [by destruct Hr as [(random & _ & ->)| ->]|].
  destruct r as [key|e]; [|done].
  assert (key = take TOKEN_KEY_BYTES content) as -> by (destruct Hr as [(random & _ & [= ->])|]; done). clear d Hholds Hr Hinode.
  apply key_wp_bind, key_wp_look; [done|]. intros d r Hholds Hr. exists L. split_and!; [done|done|].
  destruct (Hsees d Hholds) as [_ Hinode]. cbn in Hr, Hinode. rewrite Hinode in Hr. cbn in Hr.
  destruct r as [extra|e]; [|done].
  assert (extra = Nat.min 1 (length content - TOKEN_KEY_BYTES)) as -> by (destruct Hr as [(random & _ & [= ->])|]; done).
  destruct (Nat.eqb_spec (Nat.min 1 (length content - TOKEN_KEY_BYTES)) 0) as [Hextra|]; [|done]. cbn [negb].
  assert (length content = TOKEN_KEY_BYTES) as Hlen by lia. rewrite take_ge by lia.
  split; [done|]. intros key [= <-]. split; [done|]. by exists inode.
Qed.

Lemma key_wp_read_token_key L : wp (read_token_key path) L (key_seen (lo_own L)).
Proof.
  unfold read_token_key. apply key_wp_then, key_wp_look; [done|]. intros d r Hholds Hr.
  destruct r as [metadata|e]; [|exists L; split_and!; [done|done|]; by destruct e].
  destruct (negb (key_file_ok metadata)) eqn:Hok; [exists L; by split_and!|].
  destruct Hr as [(random & _ & Hr)|]; [|done]. cbn in Hr.
  destruct (kd_paths d !! path) as [[inode|]|] eqn:Hpath; [|by injection Hr as ->|done].
  unfold inode_metadata in Hr. destruct (kd_inodes d !! inode) as [[content private]|] eqn:Hinode; [|done].
  exists {| lo_own := lo_own L; lo_final := Some (inode, content, private) |}. split_and!; [done| |].
  - split; [by apply Hholds|]. by intros final [= <-].
  - by apply (key_wp_read_opened {| lo_own := lo_own L; lo_final := Some (inode, content, private) |} inode content private).
Qed.
(** ** The temporary file *)

Definition owning (L : Local) (own : option (str * N * bytes)) : Local := {| lo_own := own; lo_final := lo_final L |}.

(** What is known of the key's file survives a change elsewhere. *)
Lemma sees_kept L d d' :
  holds L d -> (forall entry, kd_paths d !! path = Some entry -> kd_paths d' !! path = Some entry) ->
  (forall i, kd_paths d !! path = Some (KeyFile i) -> kd_inodes d' !! i = kd_inodes d !! i) ->
  forall final, lo_final L = Some final -> sees final d'.
Proof.
  intros [_ Hfinal] Hpaths Hinodes final H. destruct (Hfinal final H) as [H1 H2].
  split; [by apply Hpaths|]. by rewrite Hinodes.
Qed.

Lemma fresh_inode d :
  let inode := fresh (dom (kd_inodes d) ∪ named d) in
  kd_inodes d !! inode = None /\ forall p, kd_paths d !! p <> Some (KeyFile inode).
Proof.
  cbn. pose proof (is_fresh (dom (kd_inodes d) ∪ named d)) as Hfresh. apply not_elem_of_union in Hfresh as [Hdom Hnamed].
  split; [by apply not_elem_of_dom|]. intros p Hp. apply Hnamed. unfold named. apply elem_of_list_to_set, list_elem_of_omap.
  eexists (p, _). split; [by apply elem_of_map_to_list|done].
Qed.

Lemma key_wp_create temp L (Q : result KeyIoError N -> Local -> Prop) :
  lo_own L = None -> temp <> path ->
  (forall e, Q (Err e) L) -> (forall inode, Q (Ok inode) (owning L (Some (temp, inode, [])))) -> wp (sys (CreateNew temp)) L Q.
Proof.
  intros Hown Htemp Herr Hok d r d' Hholds Hserved. cbn.
  assert ((exists e, r = Err e /\ d' = d) \/ kd_paths d !! temp = None /\ r = (perform (CreateNew temp) [] d).1 /\ d' = (perform (CreateNew temp) [] d).2) as Hcases.
  { destruct Hserved as [random _|written]; [|left; by eexists]. cbn. destruct (kd_paths d !! temp); [left; by eexists|by right]. }
  destruct Hcases as [(e & -> & ->)|(Hnone & -> & ->)]; [exists L; split_and!; [done|by apply guarantee_same|done]|].
  cbn. rewrite Hnone. destruct (fresh_inode d) as [Hinode Hnamed]. cbn zeta in *. set (inode := fresh _) in *.
  exists (owning L (Some (temp, inode, []))). split_and!; [| |apply Hok].
  - split.
    + intros own [= <-]. split; cbn; [done|by rewrite lookup_insert_eq|by rewrite lookup_insert_eq|]. rewrite lookup_insert_ne by done. apply Hnamed.
    + apply (sees_kept L d _ Hholds); cbn; [intros entry; by rewrite lookup_insert_ne|].
      intros i Hi. rewrite lookup_insert_ne; [done|]. intros <-. by apply Hnamed in Hi.
  - split; cbn.
    + intros p. destruct (decide (p = temp)) as [->|]; [auto|]. rewrite lookup_insert_ne by done. auto.
    + intros p i. destruct (decide (p = temp)) as [->|]; [rewrite lookup_insert_eq; intros [= <-]; auto|]. rewrite lookup_insert_ne by done. auto.
    + intros i. destruct (decide (i = inode)) as [->|]; [auto|]. rewrite lookup_insert_ne by done. auto.
    + right. right. by exists temp, inode.
Qed.

Lemma key_wp_write temp inode content data L (Q : result KeyIoError unit -> Local -> Prop) :
  lo_own L = Some (temp, inode, content) ->
  (forall r content', (r = Ok tt -> content' = content ++ data) -> Q r (owning L (Some (temp, inode, content')))) ->
  wp (sys (WriteAll inode data)) L Q.
Proof.
  intros Hown HQ d r d' Hholds Hserved. cbn.
  assert (exists part, d' = append d inode part /\ (r = Ok tt -> part = data)) as (part & -> & Hpart)
    by (destruct Hserved as [random _|written]; [by exists data|by exists (take written data)]).
  destruct (owns_own L _ d Hholds Hown) as ([H1 H2 H3 H4] & Hp & Hi). cbn in *.
  exists (owning L (Some (temp, inode, content ++ part))). split_and!.
  - split.
    + intros own [= <-]. split; cbn; try done. by rewrite lookup_alter_eq, H3.
    + apply (sees_kept L d _ Hholds); cbn; [done|]. intros i Hkey. rewrite lookup_alter_ne; [done|]. congruence.
  - split; cbn; [auto|auto| |].
    + intros i. destruct (decide (i = inode)) as [->|]; [auto|]. rewrite lookup_alter_ne by done. auto.
    + right. left. by rewrite Hp, Hi.
  - apply HQ. intros Hr. by rewrite (Hpart Hr).
Qed.

Lemma key_wp_remove temp inode content L (Q : result KeyIoError unit -> Local -> Prop) :
  lo_own L = Some (temp, inode, content) -> (forall r, Q r (owning L None)) -> wp (sys (RemoveFile temp)) L Q.
Proof.
  intros Hown HQ d r d' Hholds Hserved. cbn.
  destruct (owns_own L _ d Hholds Hown) as ([H1 H2 H3 H4] & Hp & Hi). cbn in *.
  assert (d' = d \/ d' = with_key_paths d (delete temp (kd_paths d))) as Hd'
    by (destruct Hserved as [random _|written]; cbn; [rewrite H2; by right|by left]).
  exists (owning L None). split_and!; [| |apply HQ].
  - split; [done|]. apply (sees_kept L d _ Hholds); destruct Hd' as [->| ->]; cbn; try done.
    intros entry. by rewrite lookup_delete_ne.
  - split; [| | |by left].
    + intros p. destruct Hd' as [->| ->]; cbn; [auto|]. destruct (decide (p = temp)) as [->|]; [auto|].
      rewrite lookup_delete_ne by done. auto.
    + intros p i. destruct Hd' as [->| ->]; cbn; [auto|]. intros [_ ?]%lookup_delete_Some. auto.
    + destruct Hd' as [->| ->]; cbn; auto.
Qed.

(** The rename either makes the temporary file the key's file, or does nothing. *)
Lemma key_wp_rename temp inode content L (Q : result KeyIoError unit -> Local -> Prop) :
  lo_own L = Some (temp, inode, content) -> (forall e, Q (Err e) L) ->
  Q (Ok tt) {| lo_own := None; lo_final := Some (inode, content, true) |} -> wp (sys (RenameNoReplace temp path)) L Q.
Proof.
  intros Hown Herr Hok d r d' Hholds Hserved. cbn.
  destruct (owns_own L _ d Hholds Hown) as ([H1 H2 H3 H4] & Hp & Hi). cbn in *.
  assert ((exists e, r = Err e /\ d' = d) \/
    (r = Ok tt /\ kd_paths d !! path = None /\ d' = with_key_paths d (<[path := KeyFile inode]> (delete temp (kd_paths d))))) as Hcases.
  { destruct Hserved as [random _|written]; [|left; by eexists]. cbn. rewrite H2. destruct (kd_paths d !! path); [left; by eexists|by right]. }
  destruct Hcases as [(e & -> & ->)|(-> & Hnone & ->)]; [exists L; split_and!; [done|by apply guarantee_same|done]|].
  exists {| lo_own := None; lo_final := Some (inode, content, true) |}. split_and!; [| |done].
  - split; [done|]. intros final [= <-]. split; cbn; [by rewrite lookup_insert_eq|done].
  - split; cbn; [| |auto|by left].
    + intros p. destruct (decide (p = path)) as [->|]; [auto|]. rewrite lookup_insert_ne by done.
      destruct (decide (p = temp)) as [->|]; [auto|]. rewrite lookup_delete_ne by done. auto.
    + intros p i. destruct (decide (p = path)) as [->|]; [rewrite lookup_insert_eq; intros [= <-]; auto|].
      rewrite lookup_insert_ne by done. intros [_ ?]%lookup_delete_Some. auto.
Qed.
End knowledge.

(** ** The program *)

(** The name of a temporary file ends with a digit, that of the key's file does not. *)
Lemma last_token_key_temp directory process_id sequence :
  exists c, last (token_key_temp directory process_id sequence) = Some c /\ is_ascii_digit c = true.
Proof.
  destruct (last (display_N sequence)) as [c|] eqn:Hlast; [|by apply last_None, display_N_nonempty in Hlast].
  exists c. split.
  - unfold token_key_temp, path_join. destruct (last directory) as [x|]; [destruct (x =? 47)%N|]; by rewrite !last_app, Hlast.
  - pose proof (display_N_digits sequence) as Hdigits. rewrite Forall_forall in Hdigits. apply Hdigits.
    by apply last_Some_elem_of.
Qed.

Lemma temp_not_key directory process_id sequence config_path :
  token_key_temp directory process_id sequence <> for_config_path config_path.
Proof.
  destruct (last_token_key_temp directory process_id sequence) as (c & Hlast & Hdigit). intros Heq.
  rewrite Heq in Hlast. unfold for_config_path in Hlast. rewrite last_app in Hlast. injection Hlast as <-. done.
Qed.

Section program.
Context (config_path : str) (parent : str -> option str).
Local Abbreviation path := (for_config_path config_path).
Local Abbreviation wp := (wp path).

(** A key that is returned is what the key's file holds. *)
Definition key_returned (r : result KeyIoError bytes) (L : Local) : Prop :=
  forall key, r = Ok key -> length key = TOKEN_KEY_BYTES /\ exists inode, lo_final L = Some (inode, key, true).

Lemma key_wp_create_temp attempts directory process_id sequence L Q :
  lo_own L = None -> (forall e, Q (Err e) L) ->
  (forall temp inode, Q (Ok (temp, inode)) (owning L (Some (temp, inode, [])))) ->
  wp (create_token_key_temp attempts directory process_id sequence) L Q.
Proof using Type.
  intros Hown Herr Hok. revert sequence. induction attempts as [|attempts IH]; intros sequence; cbn [create_token_key_temp]; [apply Herr|].
  apply key_wp_then, key_wp_create; [done|apply temp_not_key| |].
  - intros [| | |]; cbn; try apply Herr. apply IH.
  - intros inode. apply Hok.
Qed.

Lemma key_wp_cleanup temp inode content r L :
  lo_own L = Some (temp, inode, content) -> key_returned r L -> wp (with_cleanup temp r) L key_returned.
Proof using Type. intros Hown Hr. by apply key_wp_then, (key_wp_remove _ temp inode content). Qed.

Lemma key_wp_install directory temp inode candidate L :
  lo_own L = Some (temp, inode, candidate) -> length candidate = TOKEN_KEY_BYTES ->
  wp (install_candidate directory path temp candidate) L key_returned.
Proof using Type.
  intros Hown Hlen. unfold install_candidate. apply key_wp_then, (key_wp_rename _ temp inode candidate); [done| |].
  - assert (forall e, wp (with_cleanup temp (Err e)) L key_returned) as Hcleanup by (intros e; by apply (key_wp_cleanup temp inode candidate)).
    intros [| | |]; try apply Hcleanup. apply key_wp_then, key_wp_bind, key_wp_plain; [done|].
    intros [[]|e]; [|apply Hcleanup]. apply key_wp_bind. eapply key_wp_mono; [apply key_wp_read_token_key|].
    intros r L' [Hown' Hseen]. rewrite Hown in Hown'.
    destruct r as [[key|]|e]; apply (key_wp_cleanup temp inode candidate); try done.
    intros key' [= <-]. by apply Hseen.
  - apply key_wp_bind, key_wp_plain; [done|]. intros [[]|e]; [|done]. intros key [= <-]. split; [done|]. by exists inode.
Qed.

Lemma key_wp_load_or_create process_id sequence :
  wp (load_or_create_token_key parent process_id sequence path) nothing_known key_returned.
Proof using Type.
  unfold load_or_create_token_key. apply key_wp_bind. eapply key_wp_mono; [apply key_wp_read_token_key|].
  intros r L [Hown Hseen]. cbn in Hown. destruct r as [[key|]|e]; [| |done].
  { intros key' [= <-]. by apply Hseen. }
  cbv zeta. set (directory := match parent _ with Some (c :: d) => c :: d | _ => _ end).
  apply key_wp_bind, key_wp_plain; [done|]. intros [[]|e]; [|done].
  apply key_wp_bind, key_wp_look; [done|]. intros d r Hholds Hr. exists L. split_and!; [done|done|].
  destruct r as [candidate|e]; [|done].
  assert (length candidate = TOKEN_KEY_BYTES) as Hlen.
  { destruct Hr as [(random & Hrandom & [= ->])|]; [|done]. rewrite length_take. lia. }
  apply key_wp_bind, key_wp_create_temp; [done|done|]. intros temp inode.
  apply key_wp_then. unfold write_candidate. apply key_wp_bind, (key_wp_write _ temp inode []); [done|]. intros r content Hcontent.
  assert (forall L' e, lo_own L' = Some (temp, inode, content) -> wp (with_cleanup temp (Err e)) L' key_returned) as Hcleanup
    by (intros L' e HL'; by apply (key_wp_cleanup temp inode content)).
  destruct r as [[]|e]; [|by apply Hcleanup]. rewrite (Hcontent eq_refl) in *.
  apply key_wp_bind, key_wp_plain; [done|]. intros [[]|e]; [|by apply Hcleanup].
  apply key_wp_plain; [done|]. intros [[]|e]; [|by apply Hcleanup]. by apply (key_wp_install directory temp inode).
Qed.
End program.

(** ** All processes together *)

Section system.
Context (config_path : str) (parent : str -> option str).
Local Abbreviation path := (for_config_path config_path).
Local Abbreviation step := (key_step parent path).

(** Some assignment of knowledge to the processes is true, and they own different files. *)
Record coherent (s : KeySystem) (known : nat -> Local) : Prop := {
  ch_process : forall n p, sy_processes s !! n = Some p -> wp path p (known n) key_returned /\ holds path (known n) (sy_disk s);
  ch_apart : forall n m p q, n <> m -> sy_processes s !! n = Some p -> sy_processes s !! m = Some q ->
    apart (known n) (known m);
}.

Lemma apart_nothing L : apart nothing_known L /\ apart L nothing_known.
Proof. by split. Qed.

Lemma coherent_start s known n p :
  coherent s known -> wp path p nothing_known key_returned ->
  coherent {| sy_processes := <[n := p]> (sy_processes s); sy_disk := sy_disk s |} (fun m => if decide (m = n) then nothing_known else known m).
Proof using Type.
  intros [Hprocess Hapart] Hp. split; cbn.
  - intros m q [[<- <-]|[Hne Hq]]%lookup_insert_Some; [rewrite decide_True by done; by split|].
    rewrite decide_False by done. by apply Hprocess.
  - intros m m' q q' Hne Hq Hq'. repeat case_decide; subst; try by apply apart_nothing.
    rewrite lookup_insert_ne in Hq, Hq' by done. by eapply Hapart.
Qed.

Lemma coherent_call s known n p q d' :
  coherent s known -> sy_processes s !! n = Some p ->
  (exists L', holds path L' d' /\ guarantee (known n) L' (sy_disk s) d' /\ wp path q L' key_returned) ->
  exists known', coherent {| sy_processes := <[n := q]> (sy_processes s); sy_disk := d' |} known' /\
    exists L', guarantee (known n) L' (sy_disk s) d'.
Proof using Type.
  intros [Hprocess Hapart] Hp (L' & HL' & Hguar & Hq). destruct (Hprocess n p Hp) as [_ Hn].
  exists (fun m => if decide (m = n) then L' else known m). split; [|by exists L']. split; cbn.
  - intros m x [[<- <-]|[Hne Hx]]%lookup_insert_Some; [by rewrite decide_True|]. rewrite decide_False by done.
    destruct (Hprocess m x Hx) as [Hwp Hm]. split; [done|]. eapply holds_stable; [exact Hn|exact Hguar| |done]. by eapply Hapart.
  - assert (forall m x, m <> n -> sy_processes s !! m = Some x -> apart L' (known m)) as Hmoved.
    { intros m x Hne Hx. eapply apart_moved; [exact Hguar|by eapply Hapart|by eapply Hprocess]. }
    assert (forall L M, apart L M -> apart M L) as Hsym by (intros L M [H1 H2]; split; [intros x Hx HM; by apply H1 in HM|intros x Hx HM; by apply H2 in HM]).
    intros m m' x x' Hne Hx Hx'. repeat case_decide; subst; try done.
    + rewrite lookup_insert_ne in Hx' by done. by eapply Hmoved.
    + rewrite lookup_insert_ne in Hx by done. apply Hsym. by eapply Hmoved.
    + rewrite lookup_insert_ne in Hx, Hx' by done. by eapply Hapart.
Qed.

(** The key's file, once there, is neither replaced nor changed. *)
Definition key_file_kept (d d' : KeyDisk) : Prop :=
  forall inode, kd_paths d !! path = Some (KeyFile inode) -> is_Some (kd_inodes d !! inode) ->
    kd_paths d' !! path = Some (KeyFile inode) /\ kd_inodes d' !! inode = kd_inodes d !! inode.

Lemma guarantee_keeps L L' d d' : holds path L d -> guarantee L L' d d' -> key_file_kept d d'.
Proof using Type.
  intros [Hown _] [Hpaths _ Hinodes _] inode Hpath [x Hx].
  unfold own_path, own_inode in *. destruct (lo_own L) as [own|]; cbn in *.
  - destruct (Hown own eq_refl) as [H1 _ _ H4]. split.
    + destruct (Hpaths path) as [->|[?|[= ?]]]; congruence.
    + destruct (Hinodes inode) as [->|[?|[= ?]]]; congruence.
  - split; [destruct (Hpaths path) as [->|[?|]]|destruct (Hinodes inode) as [->|[?|]]]; congruence.
Qed.

Lemma step_coherent s s' known : coherent s known -> step s s' -> (exists known', coherent s' known') /\ key_file_kept (sy_disk s) (sy_disk s').
Proof using Type.
  intros Hs Hstep. destruct Hstep as [n process_id sequence processes d Hnone|n R call k r processes d d' Hp Hserved|n processes d].
  - split; [|done]. eexists. by apply (coherent_start {| sy_processes := processes; sy_disk := d |} known), key_wp_load_or_create.
  - pose proof (ch_process _ _ Hs n _ Hp) as [Hwp Hn]. destruct (Hwp d r d' Hn Hserved) as (L' & HL' & Hguar & Hk).
    destruct (coherent_call {| sy_processes := processes; sy_disk := d |} known n _ (k r) d' Hs Hp) as (known' & Hknown' & _); [by exists L'|].
    split; [by exists known'|by apply (guarantee_keeps (known n) L')].
  - split; [|done]. exists known. destruct Hs as [Hprocess Hapart]. split; cbn in *.
    + intros m p [_ Hp]%lookup_delete_Some. by apply Hprocess.
    + intros m m' p q Hne [_ Hp]%lookup_delete_Some [_ Hq]%lookup_delete_Some. by eapply Hapart.
Qed.

Lemma key_reachable d s :
  rtc step {| sy_processes := ∅; sy_disk := d |} s -> (exists known, coherent s known) /\ key_file_kept d (sy_disk s).
Proof using Type.
  intros Hsteps. remember {| sy_processes := ∅; sy_disk := d |} as s0 eqn:Hs0.
  assert (exists known, coherent s0 known) as Hinit by (exists (fun _ => nothing_known); by subst s0; split).
  replace d with (sy_disk s0) by by subst s0. clear Hs0. induction Hsteps as [s|s1 s2 s3 Hstep _ IH]; [by split|].
  destruct Hinit as [known Hknown]. destruct (step_coherent s1 s2 known Hknown Hstep) as [Hnext Hkept].
  destruct (IH Hnext) as [Hlast Hkept']. split; [done|]. intros inode Hpath Hsome.
  destruct (Hkept inode Hpath Hsome) as [Hpath2 Hinode2]. destruct (Hkept' inode Hpath2) as [Hpath3 Hinode3]; [by rewrite Hinode2|].
  split; [done|congruence].
Qed.

(** C10: a configuration has one catalog key, whatever processes read or create it at the same time. However the calls of any number of processes are interleaved, whichever calls fail, wherever processes die and others start, and whatever the files were before: all processes that get a key get the same one; it has 32 bytes and is the whole content of the private file beside the configuration; and a file that was already there is neither replaced nor changed. *)
Theorem one_catalog_key d s :
  rtc step {| sy_processes := ∅; sy_disk := d |} s ->
  key_file_kept d (sy_disk s) /\
  forall n key, sy_processes s !! n = Some (Ret (Ok key)) ->
    length key = TOKEN_KEY_BYTES /\
    (exists inode, kd_paths (sy_disk s) !! path = Some (KeyFile inode) /\ kd_inodes (sy_disk s) !! inode = Some (key, true)) /\
    (forall m key', sy_processes s !! m = Some (Ret (Ok key')) -> key' = key).
Proof using Type.
  intros [(known & [Hprocess _]) Hkept]%key_reachable. split; [done|].
  assert (forall n key, sy_processes s !! n = Some (Ret (Ok key)) -> length key = TOKEN_KEY_BYTES /\
    exists inode, sees path (inode, key, true) (sy_disk s)) as Hkey.
  { intros n key Hn. destruct (Hprocess n _ Hn) as [Hreturned [_ Hfinal]]. destruct (Hreturned key eq_refl) as (Hlen & inode & Hsees).
    split; [done|]. exists inode. by apply Hfinal. }
  intros n key Hn. destruct (Hkey n key Hn) as (Hlen & inode & Hpath & Hinode). split_and!; [done|by exists inode|].
  intros m key' Hm. destruct (Hkey m key' Hm) as (_ & inode' & Hpath' & Hinode'). cbn in *. congruence.
Qed.
End system.

(** ** Two processes race *)

(** One call of a process that succeeds or fails because of the files; [random] is what the generator yields for it. *)
Definition turn (s : KeySystem) (entry : nat * bytes) : KeySystem :=
  match sy_processes s !! entry.1 with
  | Some (Call call k) =>
      let '(r, d) := perform call entry.2 (sy_disk s) in
      {| sy_processes := <[entry.1 := k r]> (sy_processes s); sy_disk := d |}
  | _ => s
  end.

Lemma turn_reachable config_path parent s entry :
  length entry.2 = TOKEN_KEY_BYTES -> rtc (key_step parent (for_config_path config_path)) s (turn s entry).
Proof.
  intros Hlen. destruct s as [processes d], entry as [n random]. unfold turn. cbn in *.
  destruct (processes !! n) as [[r|R call k]|] eqn:Hn; try done.
  destruct (perform call random d) as [r d'] eqn:Hperform. apply rtc_once. eapply step_call; [exact Hn|].
  pose proof (served_done call d random Hlen) as Hserved. by rewrite Hperform in Hserved.
Qed.

Lemma turns_reachable config_path parent s schedule :
  Forall (fun entry => length entry.2 = TOKEN_KEY_BYTES) schedule ->
  rtc (key_step parent (for_config_path config_path)) s (foldl turn s schedule).
Proof.
  revert s. induction schedule as [|entry schedule IH]; intros s Hall; cbn; [done|].
  apply Forall_cons in Hall as [Hentry Hall]. etrans; [by apply turn_reachable|by apply IH].
Qed.

Definition in_tmp : str -> option str := fun _ => Some (lit "/tmp").
Definition race_start : KeySystem :=
  {| sy_processes := {[ 0 := load_or_create_token_key in_tmp 10 1 (for_config_path (lit "/tmp/c"));
                        1 := load_or_create_token_key in_tmp 11 1 (for_config_path (lit "/tmp/c")) ]};
     sy_disk := {| kd_paths := ∅; kd_inodes := ∅ |} |}.

(** The processes take turns until both are done; the second is the first to rename. *)
Definition race_schedule : list (nat * bytes) :=
  concat (replicate 6 [(0, replicate 32 7%N); (1, replicate 32 9%N)]) ++ replicate 4 (1, replicate 32 9%N)
  ++ replicate 12 (0, replicate 32 7%N).

Lemma race_reachable :
  rtc (key_step in_tmp (for_config_path (lit "/tmp/c"))) {| sy_processes := ∅; sy_disk := {| kd_paths := ∅; kd_inodes := ∅ |} |}
    (foldl turn race_start race_schedule).
Proof.
  etrans; [|apply turns_reachable; by repeat constructor].
  etrans; [apply rtc_once, (step_start _ _ 1 11 1); done|]. apply rtc_once, (step_start _ _ 0 10 1). done.
Qed.

Lemma one_catalog_key_witness :
  exists key, sy_processes (foldl turn race_start race_schedule) !! 0 = Some (Ret (Ok key)) /\
    sy_processes (foldl turn race_start race_schedule) !! 1 = Some (Ret (Ok key)) /\ key = replicate 32 9%N.
Proof.
  exists (replicate 32 9%N).
  assert (sy_processes (foldl turn race_start race_schedule) !! 1 = Some (Ret (Ok (replicate 32 9%N)))) as H1 by (vm_compute; reflexivity).
  assert (exists key, sy_processes (foldl turn race_start race_schedule) !! 0 = Some (Ret (Ok key))) as [key H0]
    by (eexists; vm_compute; reflexivity).
  destruct (one_catalog_key (lit "/tmp/c") in_tmp _ _ race_reachable) as [_ Hsame].
  destruct (Hsame 1 _ H1) as (_ & _ & Hkey). pose proof (Hkey 0 key H0) as ->. by split_and!.
Defined.
