(* ===== verification/CatalogRetained.v ===== *)
(** * What the catalog budget holds (theorems on MysqlCatalog.CatalogRetention)

    A retention is a set of nodes over a starting checkpoint: its counters are the
    totals of the nodes it holds, and a node is refused exactly when it would take
    a total over its cap. *)

From S2P Require Import Prelude RustStr Model MysqlCatalog.

(** ** Totals over the nodes held *)

Definition total (f : CatalogNode -> N) (ns : list CatalogNode) : N := sum_N (f <$> ns).

Definition schema_weight (n : CatalogNode) : N := match cn_identity n with NiSchema _ => 1 | _ => 0 end.
Definition relation_weight (n : CatalogNode) : N := match cn_identity n with NiRelation _ _ => 1 | _ => 0 end.
Definition column_weight (n : CatalogNode) : N := match cn_identity n with NiColumn _ _ _ => 1 | _ => 0 end.
Definition column_of_weight (key : list N * list N) (n : CatalogNode) : N :=
  match cn_identity n with
  | NiColumn schema relation _ => if bool_decide ((schema, relation) = key) then 1 else 0
  | _ => 0
  end.

Definition identities (ns : list CatalogNode) : list CatalogNodeIdentity := cn_identity <$> ns.

Lemma total_app f a b : total f (a ++ b) = (total f a + total f b)%N.
Proof. unfold total. by rewrite fmap_app, sum_N_app. Qed.

Lemma total_cons f n ns : total f (n :: ns) = (f n + total f ns)%N.
Proof. done. Qed.

Lemma total_nil f : total f [] = 0%N.
Proof. done. Qed.

Lemma total_permutation f a b : a ≡ₚ b -> total f a = total f b.
Proof. induction 1; rewrite ?total_cons; lia || congruence. Qed.

Lemma total_member f n ns : n ∈ ns -> (f n <= total f ns)%N.
Proof. induction 1; rewrite total_cons; lia. Qed.

Lemma column_of_total key ns : (total (column_of_weight key) ns <= total column_weight ns)%N.
Proof.
  induction ns as [|n ns IH]; [done|]. rewrite !total_cons.
  unfold column_of_weight at 1, column_weight at 1. destruct (cn_identity n); try lia.
  case_bool_decide; lia.
Qed.

(** ** The abstract state *)

(** A checkpoint: no node yet, no relation counted with zero columns. *)
Record Checkpoint (b : CatalogRetention) : Prop := {
  ck_empty : rt_identities b = ∅;
  ck_positive : forall key, rt_columns_by_relation b !! key <> Some 0%N;
}.

(** [ns] within the caps, over the checkpoint [b]. *)
Record Within (b : CatalogRetention) (ns : list CatalogNode) : Prop := {
  wi_bytes : (rt_utf8_bytes b + total catalog_node_utf8_bytes ns <= MAX_CATALOG_UTF8_BYTES)%N;
  wi_schemas : (rc_schemas (rt_counts b) + total schema_weight ns <= MAX_CATALOG_SCHEMAS)%N;
  wi_relations : (rc_relations (rt_counts b) + total relation_weight ns <= MAX_CATALOG_RELATIONS)%N;
  wi_columns : (rc_columns (rt_counts b) + total column_weight ns <= MAX_CATALOG_COLUMNS)%N;
  wi_columns_of : forall key,
    (columns_of b key + total (column_of_weight key) ns <= MAX_CATALOG_COLUMNS_PER_RELATION)%N;
}.

(** [r] holds [ns] over the checkpoint [b]. *)
Record Holds (b r : CatalogRetention) (ns : list CatalogNode) : Prop := {
  ho_unique : NoDup (identities ns);
  ho_identities : forall i, i ∈ rt_identities r <-> i ∈ identities ns;
  ho_bytes : rt_utf8_bytes r = (rt_utf8_bytes b + total catalog_node_utf8_bytes ns)%N;
  ho_schemas : rc_schemas (rt_counts r) = (rc_schemas (rt_counts b) + total schema_weight ns)%N;
  ho_relations : rc_relations (rt_counts r) = (rc_relations (rt_counts b) + total relation_weight ns)%N;
  ho_columns : rc_columns (rt_counts r) = (rc_columns (rt_counts b) + total column_weight ns)%N;
  ho_columns_of : forall key, columns_of r key = (columns_of b key + total (column_of_weight key) ns)%N;
  ho_positive : forall key, rt_columns_by_relation r !! key <> Some 0%N;
  ho_within : Within b ns;
}.

Lemma Holds_permutation b r ns ns' : ns ≡ₚ ns' -> Holds b r ns -> Holds b r ns'.
Proof.
  intros Hp [H1 H2 H3 H4 H5 H6 H7 H8 [W1 W2 W3 W4 W5]].
  assert (Hi : identities ns ≡ₚ identities ns') by (unfold identities; by rewrite Hp).
  assert (Ht : forall f, total f ns = total f ns') by (intros; by apply total_permutation).
  split; rewrite <-?Ht; try done.
  - by rewrite <-Hi.
  - intros i. rewrite <-Hi. apply H2.
  - intros key. rewrite <-Ht. apply H7.
  - split; rewrite <-?Ht; try done. intros key. rewrite <-Ht. apply W5.
Qed.

#[export] Instance Holds_proper b r : Proper ((≡ₚ) ==> iff) (Holds b r).
Proof. intros ns ns' Hp. split; by apply Holds_permutation. Qed.

(** ** Retaining one node *)

Ltac unfold_caps :=
  unfold MAX_CATALOG_UTF8_BYTES, MAX_CATALOG_SCHEMAS, MAX_CATALOG_RELATIONS, MAX_CATALOG_COLUMNS,
    MAX_CATALOG_COLUMNS_PER_RELATION in *.

(** A new node is refused exactly when it would break a cap. *)
Lemma can_retain_within b r ns n :
  Holds b r ns -> cn_identity n ∉ identities ns ->
  can_retain r n = true <-> Within b (ns ++ [n]).
Proof.
  intros [H1 H2 H3 H4 H5 H6 H7 H8 [W1 W2 W3 W4 W5]] Hnew.
  unfold can_retain. rewrite bool_decide_eq_false_2 by (by rewrite H2).
  assert (Hone : forall f, total f (ns ++ [n]) = (total f ns + f n)%N).
  { intros f. rewrite total_app, total_cons, total_nil. lia. }
  unfold_caps.
  assert (Hb : (4 * 1024 * 1024 <? saturating_add (rt_utf8_bytes r) (catalog_node_utf8_bytes n))%N = false <->
               (rt_utf8_bytes b + (total catalog_node_utf8_bytes ns + catalog_node_utf8_bytes n)
                <= 4 * 1024 * 1024)%N).
  { rewrite N.ltb_ge, H3. unfold saturating_add, USIZE_MAX. lia. }
  split.
  - destruct (4 * 1024 * 1024 <? _)%N; [done|]. apply proj1 in Hb. specialize (Hb eq_refl).
    destruct (cn_identity n) as [|sc re|sc re o] eqn:Ei; intros Hk;
      (split; try (intros key; specialize (W5 key)); rewrite Hone;
       unfold schema_weight at 2 || unfold relation_weight at 2 || unfold column_weight at 2
         || unfold column_of_weight at 2 || idtac; rewrite ?Ei; unfold_caps; try lia).
    case_bool_decide as Hkey; [|lia]. subst key. rewrite H7 in Hk. lia.
  - intros [V1 V2 V3 V4 V5]. rewrite Hone in V1, V2, V3, V4.
    rewrite (proj2 Hb V1).
    unfold schema_weight at 2 in V2. unfold relation_weight at 2 in V3.
    unfold column_weight at 2 in V4.
    unfold_caps.
    destruct (cn_identity n) as [|sc re|sc re o] eqn:Ei; [lia|lia|].
    specialize (V5 (sc, re)). rewrite Hone in V5. unfold column_of_weight at 2 in V5.
    rewrite Ei, bool_decide_eq_true_2 in V5 by done. rewrite H7. lia.
Qed.

(** How a sequence of nodes is retained over the nodes already held: the ones
    accepted, and whether one was refused for a cap. *)
Inductive Retains (b : CatalogRetention) : list CatalogNode -> list CatalogNode -> list CatalogNode -> bool -> Prop :=
| RetainsNone held : Retains b held [] [] false
| RetainsDuplicate held n nodes accepted truncated :
    cn_identity n ∈ identities held ->
    Retains b held nodes accepted truncated ->
    Retains b held (n :: nodes) accepted truncated
| RetainsRefused held n nodes accepted truncated :
    cn_identity n ∉ identities held -> ~ Within b (held ++ [n]) ->
    Retains b held nodes accepted truncated ->
    Retains b held (n :: nodes) accepted true
| RetainsNew held n nodes accepted truncated :
    cn_identity n ∉ identities held -> Within b (held ++ [n]) ->
    Retains b (held ++ [n]) nodes accepted truncated ->
    Retains b held (n :: nodes) (n :: accepted) truncated.

(** [r'] counts one node more than [r]. *)
Record Counts (r : CatalogRetention) (n : CatalogNode) (r' : CatalogRetention) : Prop := {
  co_bytes : rt_utf8_bytes r' = (rt_utf8_bytes r + catalog_node_utf8_bytes n)%N;
  co_schemas : rc_schemas (rt_counts r') = (rc_schemas (rt_counts r) + schema_weight n)%N;
  co_relations : rc_relations (rt_counts r') = (rc_relations (rt_counts r) + relation_weight n)%N;
  co_columns : rc_columns (rt_counts r') = (rc_columns (rt_counts r) + column_weight n)%N;
  co_columns_of : forall key, columns_of r' key = (columns_of r key + column_of_weight key n)%N;
}.

Definition no_zero_count (r : CatalogRetention) : Prop := forall key, rt_columns_by_relation r !! key <> Some 0%N.

Lemma total_snoc f ns n : total f (ns ++ [n]) = (total f ns + f n)%N.
Proof. rewrite total_app, total_cons, total_nil. lia. Qed.

Lemma identities_snoc ns n : identities (ns ++ [n]) = identities ns ++ [cn_identity n].
Proof. unfold identities. by rewrite fmap_app. Qed.

Lemma Holds_grow b r ns n r' :
  Holds b r ns -> cn_identity n ∉ identities ns -> Within b (ns ++ [n]) ->
  Counts r n r' -> rt_identities r' = {[cn_identity n]} ∪ rt_identities r -> no_zero_count r' ->
  Holds b r' (ns ++ [n]).
Proof.
  intros [H1 H2 H3 H4 H5 H6 H7 H8 _] Hnew Hw [C1 C2 C3 C4 C5] Hi Hp.
  split; try done; rewrite ?total_snoc, ?identities_snoc; try lia.
  - apply NoDup_app. split; [done|]. split; [|apply NoDup_singleton].
    intros i Hin. rewrite list_elem_of_singleton. by intros ->.
  - intros i. rewrite Hi, elem_of_union, elem_of_singleton, H2, elem_of_app, list_elem_of_singleton. tauto.
  - intros key. rewrite total_snoc, C5, H7. lia.
Qed.

Lemma Holds_shrink b r ns n r' :
  Holds b r (ns ++ [n]) -> Counts r' n r -> rt_identities r' = rt_identities r ∖ {[cn_identity n]} ->
  no_zero_count r' -> Holds b r' ns.
Proof.
  intros [H1 H2 H3 H4 H5 H6 H7 H8 [W1 W2 W3 W4 W5]] [C1 C2 C3 C4 C5] Hi Hp.
  rewrite total_snoc in H3, H4, H5, H6, W1, W2, W3, W4.
  setoid_rewrite total_snoc in H7. setoid_rewrite total_snoc in W5.
  rewrite identities_snoc in H1. setoid_rewrite identities_snoc in H2.
  apply NoDup_app in H1 as (H1 & Hnew & _).
  split; try done; try lia.
  - intros i. rewrite Hi, elem_of_difference, elem_of_singleton, H2, elem_of_app, list_elem_of_singleton.
    split; [naive_solver|]. intros Hin. split; [by left|]. intros ->. apply (Hnew _ Hin). by left.
  - intros key. specialize (H7 key). specialize (C5 key). lia.
  - split; try lia. intros key. specialize (W5 key). lia.
Qed.

(** The cases of [retain_one] and [remove_one], counted. *)
Ltac weigh Ei :=
  unfold schema_weight, relation_weight, column_weight, column_of_weight; rewrite ?Ei; cbn;
  unfold saturating_sub; rewrite ?saturating_add_exact by (unfold USIZE_MAX; lia).

Lemma retain_one_new b r ns n decision r' :
  Holds b r ns -> cn_identity n ∉ identities ns -> Within b (ns ++ [n]) ->
  retain_one r n = (decision, r') -> decision = Accepted n /\ Holds b r' (ns ++ [n]).
Proof.
  intros HH Hnew Hw. pose proof (proj2 (can_retain_within b r ns n HH Hnew) Hw) as Hcan.
  pose proof HH as [_ H2 H3 H4 H5 H6 H7 H8 _]. pose proof Hw as [W1 W2 W3 W4 W5].
  rewrite total_snoc in W1, W2, W3, W4. setoid_rewrite total_snoc in W5. unfold_caps.
  unfold retain_one. rewrite bool_decide_eq_false_2 by (by rewrite H2). rewrite Hcan. cbn [negb].
  destruct (cn_identity n) as [sc|sc re|sc re o] eqn:Ei; intros [= <- <-]; (split; [done|]).
  1,2: apply (Holds_grow b r ns n); rewrite ?Ei; [done..| |done|done];
    split; weigh Ei; try lia; intros key; unfold columns_of; cbn; lia.
  pose proof (W5 (sc, re)) as Wk. pose proof (H7 (sc, re)) as Hk.
  assert (Hlt : (columns_of r (sc, re) < 513)%N) by lia. clear W5 H7 Wk Hk.
  apply (Holds_grow b r ns n); rewrite ?Ei; [done..| |done|].
  - split; weigh Ei; try lia.
    intros key. unfold columns_of. cbn. case_bool_decide as E.
    + subst key. by rewrite lookup_insert_eq.
    + rewrite lookup_insert_ne by done. lia.
  - intros key. cbn. rewrite saturating_add_exact by (unfold USIZE_MAX; lia).
    rewrite lookup_insert_Some. intros [[<- [= E]]|[_ E]]; [lia|by apply (H8 key)].
Qed.

(** ** Retaining a sequence *)

Lemma retain_one_held b r ns n :
  Holds b r ns -> cn_identity n ∈ identities ns -> retain_one r n = (Duplicate, r).
Proof.
  intros HH Hin. unfold retain_one. by rewrite bool_decide_eq_true_2 by (by apply (ho_identities _ _ _ HH)).
Qed.

Lemma retain_one_refused b r ns n :
  Holds b r ns -> cn_identity n ∉ identities ns -> ~ Within b (ns ++ [n]) -> retain_one r n = (CapReached, r).
Proof.
  intros HH Hnew Hw. unfold retain_one.
  rewrite bool_decide_eq_false_2 by (by rewrite (ho_identities _ _ _ HH)).
  destruct (can_retain r n) eqn:E; [|done]. by apply (can_retain_within b r ns n HH Hnew) in E.
Qed.

(** [retain] keeps what the caps allow, in order, and reports a refusal. *)
Lemma retain_loop_spec b r ns nodes accepted truncated r' :
  Holds b r ns -> retain_loop r nodes = (accepted, truncated, r') ->
  Retains b ns nodes accepted truncated /\ Holds b r' (ns ++ accepted).
Proof.
  revert r ns accepted truncated r'.
  induction nodes as [|n nodes IH]; intros r ns accepted truncated r' HH; cbn [retain_loop].
  { intros [= <- <- <-]. rewrite app_nil_r. by split; [constructor|]. }
  destruct (decide (cn_identity n ∈ identities ns)) as [Hin|Hnew].
  - rewrite (retain_one_held b r ns n HH Hin).
    destruct (retain_loop r nodes) as [[a t] r1] eqn:E. intros [= <- <- <-].
    destruct (IH _ _ _ _ _ HH E) as [Hr Ho]. split; [by constructor|done].
  - destruct (retain_one r n) as [decision r0] eqn:E0.
    destruct (can_retain r n) eqn:Hc.
    + pose proof (proj1 (can_retain_within b r ns n HH Hnew) Hc) as Hw.
      destruct (retain_one_new b r ns n _ _ HH Hnew Hw E0) as [-> Hh].
      destruct (retain_loop r0 nodes) as [[a t] r1] eqn:E. intros [= <- <- <-].
      destruct (IH _ _ _ _ _ Hh E) as [Hr Ho]. rewrite <-app_assoc in Ho.
      split; [by constructor|done].
    + assert (Hw : ~ Within b (ns ++ [n])).
      { intros Hw. apply (can_retain_within b r ns n HH Hnew) in Hw. congruence. }
      rewrite (retain_one_refused b r ns n HH Hnew Hw) in E0. injection E0 as <- <-.
      destruct (retain_loop r nodes) as [[a t] r1] eqn:E. intros [= <- <- <-].
      destruct (IH _ _ _ _ _ HH E) as [Hr Ho]. split; [by eapply RetainsRefused|done].
Qed.

Lemma Retains_sublist b held nodes accepted truncated :
  Retains b held nodes accepted truncated -> accepted `sublist_of` nodes.
Proof. induction 1; by constructor. Qed.

(** With nothing refused and no duplicate, everything is kept. *)
Lemma Retains_all b held nodes accepted :
  Retains b held nodes accepted false -> NoDup (identities (held ++ nodes)) -> accepted = nodes.
Proof.
  remember false as truncated eqn:Et. induction 1 as [| held n nodes accepted tr Hin _ IH |
    |held n nodes accepted tr _ _ _ IH]; try done.
  - intros Hnd. exfalso. unfold identities in Hnd. rewrite fmap_app in Hnd. cbn in Hnd.
    apply NoDup_app in Hnd as (_ & Hd & _). apply (Hd _ Hin). by left.
  - intros Hnd. f_equal. apply IH; [done|]. by rewrite <-app_assoc.
Qed.

(** ** Removing *)

Lemma remove_one_held b r ns n :
  Holds b r (ns ++ [n]) -> Holds b (remove_one r n) ns.
Proof.
  intros HH. apply (Holds_shrink b r ns n _ HH); unfold remove_one;
    (rewrite bool_decide_eq_true_2
       by (apply (ho_identities _ _ _ HH); rewrite identities_snoc; apply elem_of_app; right; by left));
    cbn [negb].
  - pose proof HH as [_ _ H3 H4 H5 H6 H7 H8 _].
    rewrite total_snoc in H3, H4, H5, H6. setoid_rewrite total_snoc in H7.
    destruct (cn_identity n) as [sc|sc re|sc re o] eqn:Ei.
    + unfold schema_weight at 2 in H4. rewrite Ei in H4. split; weigh Ei; try lia; intros key; unfold columns_of; cbn; lia.
    + unfold relation_weight at 2 in H5. rewrite Ei in H5. split; weigh Ei; try lia; intros key; unfold columns_of; cbn; lia.
    + unfold column_weight at 2 in H6. rewrite Ei in H6. split; weigh Ei; try lia.
      pose proof (H7 (sc, re)) as Hk. unfold column_of_weight at 2 in Hk.
      rewrite Ei, bool_decide_eq_true_2 in Hk by done. unfold columns_of in Hk at 1.
      specialize (H8 (sc, re)).
      intros key. unfold columns_of. cbn.
      destruct (rt_columns_by_relation r !! (sc, re)) as [count|] eqn:El; cbn in Hk; [|lia].
      case_bool_decide as E; [subst key|]; rewrite ?El; cbn.
      * destruct (count - 1 =? 0)%N eqn:E1; rewrite ?lookup_delete_eq, ?lookup_insert_eq; cbn; lia.
      * destruct (count - 1 =? 0)%N eqn:E1; rewrite ?lookup_delete_ne, ?lookup_insert_ne by done; cbn; lia.
  - by destruct (cn_identity n).
  - intros key. pose proof (ho_positive _ _ _ HH) as H8.
    destruct (cn_identity n) as [sc|sc re|sc re o] eqn:Ei; cbn; [apply H8..|].
    destruct (rt_columns_by_relation r !! (sc, re)) as [count|] eqn:El; [|apply H8].
    destruct (saturating_sub count 1 =? 0)%N eqn:E1.
    + rewrite lookup_delete_Some. intros [_ E]. by apply (H8 key).
    + rewrite lookup_insert_Some. intros [[_ E]|[_ E]]; [lia|by apply (H8 key)].
Qed.

Lemma remove_held b r ns gone :
  Holds b r (ns ++ gone) -> Holds b (retention_remove r gone) ns.
Proof.
  revert r ns. induction gone as [|n gone IH]; intros r ns HH; cbn.
  { by rewrite app_nil_r in HH. }
  apply IH, remove_one_held. by rewrite <-app_assoc, (Permutation_app_comm gone [n]).
Qed.

(** ** Starting points *)

Lemma Holds_start b : Checkpoint b -> Within b [] -> Holds b b [].
Proof.
  intros [He Hp] Hw. split; rewrite ?total_nil; try lia; try done.
  - constructor.
  - intros i. by rewrite He, elem_of_empty, elem_of_nil.
  - intros key. rewrite total_nil. lia.
Qed.

Lemma Holds_default : Holds CatalogRetention_default CatalogRetention_default [].
Proof.
  apply Holds_start; [done|]. split; rewrite ?total_nil; cbn; unfold_caps; try lia.
  intros key. unfold columns_of. cbn. rewrite lookup_empty. cbn. unfold_caps. lia.
Qed.

Lemma from_checkpoint_Ok counts utf8 relation b :
  from_checkpoint counts utf8 relation = Ok b ->
  Holds b b [] /\ rt_counts b = counts /\ rt_utf8_bytes b = utf8.
Proof.
  unfold from_checkpoint.
  destruct (MAX_CATALOG_SCHEMAS <? _)%N eqn:E1; [done|]. destruct (MAX_CATALOG_RELATIONS <? _)%N eqn:E2; [done|].
  destruct (MAX_CATALOG_COLUMNS <? _)%N eqn:E3; [done|].
  destruct (MAX_CATALOG_COLUMNS_PER_RELATION <? _)%N eqn:E4; [done|].
  destruct (MAX_CATALOG_UTF8_BYTES <? _)%N eqn:E5; [done|]. cbn [orb].
  rewrite result_bind_Ok. intros (m & Hm & [= <-]). split; [|done].
  assert (Hm' : forall key, (columns_of {| rt_identities := ∅; rt_counts := counts; rt_utf8_bytes := utf8;
                                          rt_columns_by_relation := m |} key <= rc_columns_in_relation counts)%N
                            /\ m !! key <> Some 0%N).
  { intros key. unfold columns_of. cbn.
    destruct (0 <? rc_columns_in_relation counts)%N eqn:E0.
    - apply result_bind_Ok in Hm as (k & _ & [= <-]).
      destruct (decide (k = key)) as [->|Hne].
      + rewrite lookup_singleton_eq. cbn. split; [lia|]. intros [= E]. lia.
      + rewrite lookup_singleton_ne by done. cbn. split; [lia|done].
    - injection Hm as <-. rewrite lookup_empty. cbn. split; [lia|done]. }
  apply Holds_start; split; rewrite ?total_nil; cbn; try lia; try done.
  - intros key. apply Hm'.
  - intros key. destruct (Hm' key). rewrite N.add_0_r. lia.
Qed.

(** ** When everything fits *)

Lemma Within_app b xs ys : Within b (xs ++ ys) -> Within b xs.
Proof.
  intros [W1 W2 W3 W4 W5]. rewrite total_app in W1, W2, W3, W4. setoid_rewrite total_app in W5.
  split; try lia. intros key. specialize (W5 key). lia.
Qed.

#[export] Instance Within_proper b : Proper ((≡ₚ) ==> iff) (Within b).
Proof.
  assert (Hone : forall xs ys, xs ≡ₚ ys -> Within b xs -> Within b ys).
  { intros xs ys Hp [W1 W2 W3 W4 W5].
    assert (Ht : forall f, total f xs = total f ys) by (intros; by apply total_permutation).
    split; rewrite <-?Ht; try done. intros key. rewrite <-Ht. apply W5. }
  intros xs ys Hp. split; by apply Hone.
Qed.

Lemma Retains_within b held nodes accepted truncated :
  Retains b held nodes accepted truncated -> Within b (held ++ nodes) -> NoDup (identities (held ++ nodes)) ->
  accepted = nodes /\ truncated = false.
Proof.
  induction 1 as [held|held n nodes accepted tr Hin _ IH|held n nodes accepted tr Hnew Hw _ IH
    |held n nodes accepted tr _ _ _ IH]; intros Hwi Hnd.
  - done.
  - exfalso. unfold identities in Hnd. rewrite fmap_app in Hnd. cbn in Hnd.
    apply NoDup_app in Hnd as (_ & Hd & _). apply (Hd _ Hin). by left.
  - exfalso. apply Hw. apply (Within_app b _ nodes). by rewrite <-(assoc (++)).
  - rewrite (assoc (++) held [n] nodes : held ++ n :: nodes = _) in Hwi, Hnd.
    destruct (IH Hwi Hnd) as [-> ->]. done.
Qed.

(** ** The largest relation *)

Lemma largest_ge m key count : m !! key = Some count -> (count <= largest m)%N.
Proof.
  unfold largest. revert key count.
  apply (map_fold_weak_ind (fun r m => forall key count, m !! key = Some count -> (count <= r)%N)); [done|].
  intros k v m' r Hk IH key count. rewrite lookup_insert_Some.
  intros [[_ ->]|[_ E]]; [lia|]. specialize (IH _ _ E). lia.
Qed.

Lemma largest_le m bound : (forall key count, m !! key = Some count -> count <= bound)%N -> (largest m <= bound)%N.
Proof.
  unfold largest. apply (map_fold_weak_ind (fun r m =>
    (forall key count, m !! key = Some count -> count <= bound)%N -> (r <= bound)%N)); [lia|].
  intros k v m' r Hk IH Hm. apply N.max_lub.
  - apply (Hm k). apply lookup_insert_eq.
  - apply IH. intros key count E. apply (Hm key). rewrite lookup_insert_ne; [done|]. congruence.
Qed.

Lemma largest_only m key :
  (forall key', key' <> key -> m !! key' = None) -> largest m = default 0%N (m !! key).
Proof.
  intros Hm. apply N.le_antisymm.
  - apply largest_le. intros key' count E. destruct (decide (key' = key)) as [->|Hne].
    + by rewrite E.
    + by rewrite Hm in E.
  - destruct (m !! key) as [count|] eqn:E; cbn; [by apply (largest_ge m key)|lia].
Qed.

Lemma largest_none m : (forall key, m !! key = None) -> largest m = 0%N.
Proof. intros Hm. rewrite (largest_only m ([], [])); [by rewrite Hm|]. intros key _. apply Hm. Qed.
