(* ===== verification/CatalogTokens.v ===== *)
(** * Continuation tokens of the MySQL catalog (theorems on MysqlCatalog)

    A token carries the position and the counts of one listing of one connection:
    it decodes to them for a request that continues that listing, and for no other
    request.  The crates appear with the laws the code relies on. *)

From S2P Require Import Prelude RustStr Model Drivers Service MysqlCatalog CatalogRetained.

Definition is_bytes (bs : bytes) : Prop := Forall (fun b => b < 256)%N bs.

(** What [base64], [serde_json], [sha2] and [hmac] promise. *)
Class TokenLaws `(TokenCrates) : Prop := {
  base64_decode_encode : forall bs, is_bytes bs -> base64_decode (base64_encode bs) = Some bs;
  base64_no_dot : forall bs, 46%N ∉ base64_encode bs;
  json_from_to : forall p bs, json_to_vec p = Some bs -> json_from_slice bs = Some p;
  json_bytes : forall p bs, json_to_vec p = Some bs -> is_bytes bs;
  sha256_bytes : forall bs, is_bytes (sha256 bs);
  hmac_bytes : forall k m t, hmac_sha256 k m = Some t -> is_bytes t;
}.

(** ** The bytes a fingerprint digests determine what they were made from *)

Lemma to_be_bytes_length k n : length (to_be_bytes k n) = k.
Proof. revert n. induction k as [|k IH]; intros n; cbn; [done|]. rewrite length_app, IH. cbn. lia. Qed.

Lemma to_be_bytes_inj k n m :
  (n < 256 ^ N.of_nat k)%N -> (m < 256 ^ N.of_nat k)%N -> to_be_bytes k n = to_be_bytes k m -> n = m.
Proof.
  revert n m. induction k as [|k IH]; intros n m Hn Hm; cbn; [cbn in *; lia|].
  intros E. apply app_inj_2 in E as [E [= E0]]; [|done].
  assert (Hpow : (256 ^ N.of_nat (S k) = 256 * 256 ^ N.of_nat k)%N) by (rewrite <-N.pow_succ_r'; f_equal; lia).
  rewrite Hpow in Hn, Hm.
  apply IH in E; [|apply N.Div0.div_lt_upper_bound; lia..].
  rewrite (N.div_mod' n 256), (N.div_mod' m 256). by rewrite E, E0.
Qed.

Definition fits_u64 (n : N) : Prop := (n < 256 ^ 8)%N.

(** A length-prefixed field can be read back from the front of a digest input. *)
Lemma length_prefixed_inj (a b x y : bytes) :
  fits_u64 (N.of_nat (length a)) -> fits_u64 (N.of_nat (length b)) ->
  to_be_bytes 8 (N.of_nat (length a)) ++ a ++ x = to_be_bytes 8 (N.of_nat (length b)) ++ b ++ y ->
  a = b /\ x = y.
Proof.
  intros Ha Hb E. apply app_inj_1 in E as [El E]; [|by rewrite !to_be_bytes_length].
  apply to_be_bytes_inj in El; [|done..]. apply app_inj_1 in E; [done|lia].
Qed.

(** A Rust string: scalar values, and a length that fits the machine. *)
Definition rust_string (s : str) : Prop := Forall (fun c => is_scalar c = true) s /\ fits_u64 (str_len s).
Definition rust_option (o : option str) : Prop := from_option rust_string True o.

Lemma encode_inj s t : rust_string s -> rust_string t -> encode s = encode t -> s = t.
Proof.
  intros [Hs _] [Ht _] E. apply from_utf8_encode in Hs, Ht. rewrite E in Hs. congruence.
Qed.

Lemma fingerprint_part_inj s t x y :
  rust_string s -> rust_string t -> fingerprint_part s ++ x = fingerprint_part t ++ y -> s = t /\ x = y.
Proof.
  intros Hs Ht. unfold fingerprint_part, str_len, byte_len. rewrite <-!app_assoc. intros E.
  apply length_prefixed_inj in E as [E Ex]; [|apply Hs|apply Ht].
  split; [by apply encode_inj|done].
Qed.

Lemma fingerprint_part_inj_end s t :
  rust_string s -> rust_string t -> fingerprint_part s = fingerprint_part t -> s = t.
Proof.
  intros Hs Ht E. apply (fingerprint_part_inj s t [] []); [done..|]. by rewrite !app_nil_r.
Qed.

Lemma context_field_inj tag (a b x y : bytes) :
  fits_u64 (N.of_nat (length a)) -> fits_u64 (N.of_nat (length b)) ->
  context_field tag a ++ x = context_field tag b ++ y -> a = b /\ x = y.
Proof. intros Ha Hb. unfold context_field. rewrite <-!app_assoc. intros E%app_inv_head. by apply length_prefixed_inj in E. Qed.

Lemma context_text_inj tag s t x y :
  rust_string s -> rust_string t ->
  context_field tag (encode s) ++ x = context_field tag (encode t) ++ y -> s = t /\ x = y.
Proof.
  intros Hs Ht E. apply context_field_inj in E as [E Ex]; [|apply Hs|apply Ht].
  split; [by apply encode_inj|done].
Qed.

Lemma context_byte_inj tag (a b : N) x y :
  context_field tag [a] ++ x = context_field tag [b] ++ y -> a = b /\ x = y.
Proof. intros E. apply context_field_inj in E as [[= E] Ex]; done. Qed.

Lemma optional_context_inj tag (s t : option str) x y :
  rust_option s -> rust_option t ->
  optional_context_field tag (encode <$> s) ++ x = optional_context_field tag (encode <$> t) ++ y ->
  s = t /\ x = y.
Proof.
  destruct s as [s|], t as [t|]; cbn [fmap option_fmap option_map optional_context_field from_option rust_option];
    intros Hs Ht; rewrite <-?app_assoc; intros E; try (cbn [app] in E; discriminate E);
    apply app_inv_head in E; [|by subst].
  apply length_prefixed_inj in E as [E Ex]; [|apply Hs|apply Ht].
  split; [f_equal; by apply encode_inj|done].
Qed.

(** ** Requests and connections *)

Record request_ok (r : CatalogRequest) : Prop := {
  ro_id : rust_string (ri_profile_id (cr_identity r));
  ro_prefix : rust_option (cr_prefix r);
  ro_parent : match r with
              | CrSchemas _ _ _ _ _ => True
              | CrRelations _ schema _ _ _ _ => rust_string schema
              | CrColumns _ schema relation _ _ _ _ => rust_string schema /\ rust_string relation
              end;
}.

Record fingerprint_ok (fp : ConnectionFingerprint) : Prop := {
  fo_host : rust_string (fp_host fp);
  fo_port : (fp_port fp <= U16_MAX)%N;
  fo_database : rust_option (fp_database fp);
  fo_username : rust_option (fp_username fp);
  fo_secret : rust_option (fp_secret_env fp);
  fo_ca : rust_option (fp_redis_ca_file fp);
}.

(** Two requests for pages of one listing: the operation and the timeout may differ. *)
Definition same_listing (r1 r2 : CatalogRequest) : Prop :=
  ri_profile_id (cr_identity r1) = ri_profile_id (cr_identity r2) /\
  ri_profile_generation (cr_identity r1) = ri_profile_generation (cr_identity r2) /\
  cr_level r1 = cr_level r2 /\ request_parent r1 = request_parent r2 /\
  cr_prefix r1 = cr_prefix r2 /\ cr_page_size r1 = cr_page_size r2.

Lemma profile_preimage_inj r1 r2 :
  request_ok r1 -> request_ok r2 -> profile_preimage r1 = profile_preimage r2 ->
  ri_profile_id (cr_identity r1) = ri_profile_id (cr_identity r2).
Proof.
  intros [H1 _ _] [H2 _ _] E. unfold profile_preimage in E.
  apply app_inv_head, app_inv_head in E. by apply fingerprint_part_inj_end in E.
Qed.

Lemma prefix_preimage_inj p1 p2 :
  rust_option p1 -> rust_option p2 -> prefix_preimage p1 = prefix_preimage p2 -> p1 = p2.
Proof.
  intros H1 H2 E. unfold prefix_preimage in E. apply app_inv_head, app_inv_head in E.
  destruct p1 as [p1|], p2 as [p2|]; try discriminate E; [|done]. apply app_inv_head in E.
  f_equal. by apply fingerprint_part_inj_end in E.
Qed.

Lemma parent_preimage_inj r1 r2 :
  request_ok r1 -> request_ok r2 -> parent_preimage r1 = parent_preimage r2 ->
  request_parent r1 = request_parent r2 /\ cr_level r1 = cr_level r2.
Proof.
  intros [_ _ H1] [_ _ H2] E. unfold parent_preimage in E. apply app_inv_head, app_inv_head in E.
  destruct r1, r2; try discriminate E; cbn; [done|..]; apply app_inv_head in E.
  - apply fingerprint_part_inj_end in E as ->; done.
  - apply fingerprint_part_inj in E as [-> E]; [|apply H1|apply H2].
    apply fingerprint_part_inj_end in E as ->; [done|apply H1|apply H2].
Qed.

Lemma context_preimage_inj a b :
  fingerprint_ok a -> fingerprint_ok b -> context_preimage a = context_preimage b -> a = b.
Proof.
  intros [A1 A2 A3 A4 A5 A6] [B1 B2 B3 B4 B5 B6] E. unfold context_preimage in E.
  apply app_inv_head in E.
  apply context_byte_inj in E as [E1 E]. apply context_text_inj in E as [E2 E]; [|done..].
  apply context_field_inj in E as [E3 E]; [|done..].
  apply to_be_bytes_inj in E3; [|unfold U16_MAX in *; cbn; lia..].
  apply optional_context_inj in E as [E4 E]; [|done..].
  apply optional_context_inj in E as [E5 E]; [|done..].
  apply context_byte_inj in E as [E6 E]. apply context_byte_inj in E as [E7 E].
  apply optional_context_inj in E as [E8 E]; [|done..].
  rewrite <-(app_nil_r (optional_context_field 9 _)),
    <-(app_nil_r (optional_context_field 9 (encode <$> fp_redis_ca_file b))) in E.
  apply optional_context_inj in E as [E9 _]; [|done..].
  assert (fp_driver a = fp_driver b) by (destruct (fp_driver a), (fp_driver b); done).
  assert (fp_tls a = fp_tls b) by (destruct (fp_tls a), (fp_tls b); done).
  assert (fp_credential_mode a = fp_credential_mode b)
    by (destruct (fp_credential_mode a), (fp_credential_mode b); done).
  destruct a, b; cbn in *; congruence.
Qed.

(** ** Encoding and decoding *)

(** The rest of [decode_page_token], once the payload is authentic and parsed. *)
Definition accept_payload `{TokenCrates} (request : CatalogRequest) (payload : TokenPayload) :
    result DriverError DecodedToken :=
  _ ← reject_if (negb (payload_matches request payload)) DeInvalidCatalogRequest;
  schemas ← u64_to_usize (tp_schemas payload);
  relations ← u64_to_usize (tp_relations payload);
  columns ← u64_to_usize (tp_columns payload);
  columns_in_relation ← u64_to_usize (tp_columns_in_relation payload);
  retained_utf8_bytes ← u64_to_usize (tp_retained_utf8_bytes payload);
  let counts := {| rc_schemas := schemas; rc_relations := relations; rc_columns := columns;
                   rc_columns_in_relation := columns_in_relation |} in
  _ ← from_checkpoint counts retained_utf8_bytes (request_relation request);
  Ok {| dk_last_name := tp_last_name payload; dk_last_ordinal := tp_last_ordinal payload;
        dk_counts := counts; dk_utf8_bytes := retained_utf8_bytes |}.

(** What a token decodes to: the position of the last node and the counts after it. *)
Definition decoded_after (last : CatalogNode) (outcome : CatalogRetentionOutcome) : DecodedToken :=
  {| dk_last_name := (token_position last).1; dk_last_ordinal := (token_position last).2;
     dk_counts := ro_counts outcome; dk_utf8_bytes := ro_utf8_bytes outcome |}.

(** A position has an ordinal exactly in a listing of columns. *)
Definition position_fits (request : CatalogRequest) (last : CatalogNode) : Prop :=
  cr_level request = Columns <-> is_Some (token_position last).2.

Definition outcome_fits (request : CatalogRequest) (outcome : CatalogRetentionOutcome) : Prop :=
  exists b, from_checkpoint (ro_counts outcome) (ro_utf8_bytes outcome) (request_relation request) = Ok b.

Section laws.
Context `{TokenLaws}.

Definition token_text (payload tag : bytes) : str :=
  TOKEN_PREFIX ++ lit "." ++ base64_encode payload ++ lit "." ++ base64_encode tag.

Definition payload_of (request : CatalogRequest) (last : CatalogNode) (outcome : CatalogRetentionOutcome) :
    TokenPayload :=
  {| tp_version := TOKEN_VERSION; tp_profile_fingerprint := profile_fingerprint request;
     tp_profile_generation := ri_profile_generation (cr_identity request);
     tp_level := level_tag (cr_level request); tp_parent_fingerprint := parent_fingerprint request;
     tp_prefix_fingerprint := prefix_fingerprint (cr_prefix request);
     tp_page_size := cr_page_size request; tp_last_name := (token_position last).1;
     tp_last_ordinal := (token_position last).2;
     tp_schemas := rc_schemas (ro_counts outcome); tp_relations := rc_relations (ro_counts outcome);
     tp_columns := rc_columns (ro_counts outcome);
     tp_columns_in_relation := rc_columns_in_relation (ro_counts outcome);
     tp_retained_utf8_bytes := ro_utf8_bytes outcome |}.

Lemma usize_to_u64_Ok n m : usize_to_u64 n = Ok m -> m = n.
Proof using Type. unfold usize_to_u64. destruct (n <=? U64_MAX)%N; naive_solver. Qed.

Lemma encode_page_token_Ok request last outcome key token :
  encode_page_token request last outcome key = Ok token ->
  exists payload tag, json_to_vec (payload_of request last outcome) = Some payload /\
    hmac_sha256 key (TOKEN_AUTHENTICATION_DOMAIN ++ payload) = Some tag /\ token = token_text payload tag.
Proof using Type.
  unfold encode_page_token. destruct (token_position last) as [last_name last_ordinal] eqn:Ep.
  rewrite result_bind_Ok. intros (schemas & ->%usize_to_u64_Ok & E). revert E.
  rewrite result_bind_Ok. intros (relations & ->%usize_to_u64_Ok & E). revert E.
  rewrite result_bind_Ok. intros (columns & ->%usize_to_u64_Ok & E). revert E.
  rewrite result_bind_Ok. intros (in_relation & ->%usize_to_u64_Ok & E). revert E.
  rewrite result_bind_Ok. intros (utf8 & ->%usize_to_u64_Ok & E). revert E.
  rewrite result_bind_Ok. intros (payload & Hp%ok_or_Ok & E). revert E.
  rewrite result_bind_Ok. intros (tag & Ht%ok_or_Ok & [= <-]).
  exists payload, tag. split; [|done]. unfold payload_of. by rewrite Ep.
Qed.

(** A token text is split back into its payload and its tag. *)
Lemma decode_token_text request key p payload tag key0 :
  json_to_vec p = Some payload -> hmac_sha256 key0 (TOKEN_AUTHENTICATION_DOMAIN ++ payload) = Some tag ->
  decode_page_token request (token_text payload tag) key =
  verify key payload tag ≫= fun _ => accept_payload request p.
Proof.
  intros Hp Ht. unfold decode_page_token, token_text.
  change (TOKEN_PREFIX ++ lit "." ++ base64_encode payload ++ lit "." ++ base64_encode tag)
    with (TOKEN_PREFIX ++ 46%N :: (base64_encode payload ++ 46%N :: base64_encode tag)).
  rewrite split_char_app_sep by (apply (bool_decide_unpack _); done).
  rewrite split_char_app_sep by apply base64_no_dot.
  rewrite split_char_absent by apply base64_no_dot.
  rewrite !bool_decide_eq_true_2 by done. cbn [negb orb reject_if].
  rewrite (base64_decode_encode payload) by exact (json_bytes _ _ Hp).
  rewrite (base64_decode_encode tag) by exact (hmac_bytes _ _ _ Ht).
  cbn [ok_or]. unfold mbind at 1 2 3, result_bind at 1 2 3.
  destruct (verify key payload tag) as [[]|e]; cbn; [|done].
  by rewrite (json_from_to _ _ Hp).
Qed.

Lemma verify_Ok key payload tag u :
  verify key payload tag = Ok u <-> hmac_sha256 key (TOKEN_AUTHENTICATION_DOMAIN ++ payload) = Some tag.
Proof using Type.
  unfold verify. rewrite result_bind_Ok. setoid_rewrite ok_or_Ok. setoid_rewrite reject_if_Ok.
  setoid_rewrite negb_false_iff. setoid_rewrite bool_decide_eq_true. naive_solver.
Qed.

Lemma payload_matches_of r1 r2 last outcome :
  payload_matches r2 (payload_of r1 last outcome) = true <->
  profile_fingerprint r1 = profile_fingerprint r2 /\
  ri_profile_generation (cr_identity r1) = ri_profile_generation (cr_identity r2) /\
  cr_level r1 = cr_level r2 /\ parent_fingerprint r1 = parent_fingerprint r2 /\
  prefix_fingerprint (cr_prefix r1) = prefix_fingerprint (cr_prefix r2) /\
  cr_page_size r1 = cr_page_size r2 /\ position_fits r2 last.
Proof using Type.
  unfold payload_matches, payload_of, position_fits. cbn.
  rewrite !andb_true_iff, !bool_decide_eq_true, !N.eqb_eq.
  assert (Hl : level_tag (cr_level r1) = level_tag (cr_level r2) <-> cr_level r1 = cr_level r2).
  { destruct (cr_level r1), (cr_level r2); done. }
  assert (Ho : bool_decide (cr_level r2 = Columns) =
               match (token_position last).2 with Some _ => true | None => false end <->
               (cr_level r2 = Columns <-> is_Some (token_position last).2)).
  { destruct (token_position last).2; case_bool_decide; unfold is_Some; naive_solver. }
  rewrite Hl, Ho. tauto.
Qed.
End laws.

(** ** The token of one listing *)

Definition separates {A B} (f : A -> B) (a b : A) : Prop := f a = f b -> a = b.

(** No two of the inputs hashed for two requests on two connections collide. *)
Record no_collision `{TokenCrates} (root : bytes) (fp1 fp2 : ConnectionFingerprint) (key1 key2 : bytes)
    (r1 r2 : CatalogRequest) : Prop := {
  nc_profile : separates sha256 (profile_preimage r1) (profile_preimage r2);
  nc_parent : separates sha256 (parent_preimage r1) (parent_preimage r2);
  nc_prefix : separates sha256 (prefix_preimage (cr_prefix r1)) (prefix_preimage (cr_prefix r2));
  nc_context : separates sha256 (context_preimage fp1) (context_preimage fp2);
  nc_key : separates (derive_token_key root) (from_connection_fields fp1) (from_connection_fields fp2);
  nc_tag : forall message, separates (fun key => hmac_sha256 key message) key1 key2;
}.

Lemma same_listing_relation r1 r2 : same_listing r1 r2 -> request_relation r1 = request_relation r2.
Proof.
  intros (_ & _ & El & Ep & _). destruct r1, r2; cbn in *; try done. by injection Ep as -> ->.
Qed.

Section round_trip.
Context `{TokenLaws}.

Lemma base64_encode_sha256_inj a b :
  base64_encode (sha256 a) = base64_encode (sha256 b) -> sha256 a = sha256 b.
Proof.
  intros E. assert (E' : Some (sha256 a) = Some (sha256 b)); [|congruence].
  rewrite <-!base64_decode_encode by apply sha256_bytes. by rewrite E.
Qed.

Lemma accept_payload_of r1 r2 last outcome :
  same_listing r1 r2 -> position_fits r1 last -> outcome_fits r1 outcome ->
  accept_payload r2 (payload_of r1 last outcome) = Ok (decoded_after last outcome).
Proof using Type.
  intros Hsame Hpos [b Hb]. unfold accept_payload.
  pose proof Hsame as (Eid & Egen & El & Epar & Epre & Esize).
  assert (Hm : payload_matches r2 (payload_of r1 last outcome) = true).
  { apply payload_matches_of. unfold position_fits in *. rewrite <-El, <-Epre.
    unfold profile_fingerprint, profile_preimage, parent_fingerprint. rewrite Eid.
    repeat split; try done; try apply Hpos.
    f_equal. f_equal. unfold parent_preimage. do 2 f_equal. destruct r1, r2; cbn in *; congruence. }
  rewrite Hm. cbn [negb reject_if].
  rewrite (same_listing_relation _ _ Hsame) in Hb.
  assert (Hcap : (rc_schemas (ro_counts outcome) <= MAX_CATALOG_SCHEMAS /\
                  rc_relations (ro_counts outcome) <= MAX_CATALOG_RELATIONS /\
                  rc_columns (ro_counts outcome) <= MAX_CATALOG_COLUMNS /\
                  rc_columns_in_relation (ro_counts outcome) <= MAX_CATALOG_COLUMNS_PER_RELATION /\
                  ro_utf8_bytes outcome <= MAX_CATALOG_UTF8_BYTES)%N).
  { unfold from_checkpoint in Hb. destruct (_ || _) eqn:E in Hb; [done|].
    rewrite !orb_false_iff, !N.ltb_ge in E. tauto. }
  unfold_caps.
  unfold payload_of. cbn. unfold u64_to_usize, USIZE_MAX.
  rewrite !(proj2 (N.leb_le _ _)) by lia. cbn.
  replace {| rc_schemas := _; rc_relations := _; rc_columns := _; rc_columns_in_relation := _ |}
    with (ro_counts outcome) by by destruct (ro_counts outcome).
  by rewrite Hb.
Qed.

(** C33: A continuation token is honoured for exactly one listing: encoded for a request on a connection, it decodes for another request and connection if and only if both name the same profile, generation, level, parent, prefix and page size over the same connection fields, and then to the position of the last node shown and the counts so far. Whatever the text of the names, two different requests or connections never feed the same bytes to the hash, so this needs only that the hashes of the inputs at hand differ. *)
Theorem token_continues_one_listing root fp1 fp2 key1 key2 r1 r2 last outcome token d :
  request_ok r1 -> request_ok r2 -> fingerprint_ok fp1 -> fingerprint_ok fp2 ->
  derive_token_key root (from_connection_fields fp1) = Some key1 ->
  derive_token_key root (from_connection_fields fp2) = Some key2 ->
  no_collision root fp1 fp2 key1 key2 r1 r2 ->
  position_fits r1 last -> outcome_fits r1 outcome ->
  encode_page_token r1 last outcome key1 = Ok token ->
  decode_page_token r2 token key2 = Ok d <->
  same_listing r1 r2 /\ fp1 = fp2 /\ d = decoded_after last outcome.
Proof.
  intros Hr1 Hr2 Hf1 Hf2 Hk1 Hk2 [N1 N2 N3 N4 N5 N6] Hpos Hfits Henc.
  destruct (encode_page_token_Ok _ _ _ _ _ Henc) as (payload & tag & Hp & Ht & ->).
  rewrite (decode_token_text _ _ _ _ _ _ Hp Ht), result_bind_Ok. setoid_rewrite verify_Ok. split.
  - intros ([] & Hv & Ha).
    assert (Ek : key1 = key2) by (apply (N6 (TOKEN_AUTHENTICATION_DOMAIN ++ payload)); congruence).
    assert (Efp : fp1 = fp2).
    { apply context_preimage_inj; [done..|]. apply N4, N5. congruence. }
    assert (Hm : payload_matches r2 (payload_of r1 last outcome) = true).
    { unfold accept_payload in Ha. by destruct (payload_matches _ _). }
    apply payload_matches_of in Hm as (M1 & M2 & M3 & M4 & M5 & M6 & _).
    assert (Hsame : same_listing r1 r2).
    { split; [by apply profile_preimage_inj; [..|apply N1, base64_encode_sha256_inj]|].
      split; [done|]. split; [done|]. split; [|split; [|done]].
      - by apply (parent_preimage_inj r1 r2); [..|apply N2, base64_encode_sha256_inj].
      - apply prefix_preimage_inj; [apply Hr1|apply Hr2|by apply N3, base64_encode_sha256_inj]. }
    rewrite (accept_payload_of _ _ _ _ Hsame Hpos Hfits) in Ha. injection Ha as <-. done.
  - intros (Hsame & <- & ->). exists tt. split; [congruence|]. by apply accept_payload_of.
Qed.
End round_trip.

(** ** A concrete instance *)

Definition payload_fields (p : TokenPayload) : list (list N) :=
  [[tp_version p]; tp_profile_fingerprint p; [tp_profile_generation p]; [tp_level p]; tp_parent_fingerprint p;
   tp_prefix_fingerprint p; [tp_page_size p]; tp_last_name p; option_list (tp_last_ordinal p); [tp_schemas p];
   [tp_relations p]; [tp_columns p]; [tp_columns_in_relation p]; [tp_retained_utf8_bytes p]].

Definition payload_of_fields (fields : list (list N)) : option TokenPayload :=
  match fields with
  | [[a]; b; [c]; [d]; e; f; [g]; h; i; [j]; [k]; [l]; [m]; [n]] =>
      Some {| tp_version := a; tp_profile_fingerprint := b; tp_profile_generation := c; tp_level := d;
              tp_parent_fingerprint := e; tp_prefix_fingerprint := f; tp_page_size := g; tp_last_name := h;
              tp_last_ordinal := head i; tp_schemas := j; tp_relations := k; tp_columns := l;
              tp_columns_in_relation := m; tp_retained_utf8_bytes := n |}
  | _ => None
  end.

Fixpoint positive_bits (p : positive) : bytes :=
  match p with xH => [] | xO p => 0%N :: positive_bits p | xI p => 1%N :: positive_bits p end.
Fixpoint bits_positive (bs : bytes) : positive :=
  match bs with [] => xH | b :: bs => if (b =? 0)%N then xO (bits_positive bs) else xI (bits_positive bs) end.

Fixpoint hex_encode (bs : bytes) : str :=
  match bs with [] => [] | b :: bs => (65 + b / 16)%N :: (65 + b mod 16)%N :: hex_encode bs end.
Fixpoint hex_decode (s : str) : option bytes :=
  match s with
  | [] => Some []
  | a :: b :: s => bs ← hex_decode s; Some (((a - 65) * 16 + (b - 65))%N :: bs)
  | [_] => None
  end.

Definition octets (bs : bytes) : bytes := (fun b => b mod 256)%N <$> bs.

Definition checksum (bs : bytes) : bytes := octets [N.of_nat (length bs); sum_N bs].

#[export] Instance sample_crates : TokenCrates := {|
  sha256 := checksum;
  hmac_sha256 := fun key message => Some (checksum key ++ checksum message);
  base64_encode := hex_encode;
  base64_decode := hex_decode;
  json_to_vec := fun p => Some (positive_bits (countable.encode (payload_fields p)));
  json_from_slice := fun bs => countable.decode (bits_positive bs) ≫= payload_of_fields;
|}.

Lemma octets_bytes bs : is_bytes (octets bs).
Proof. apply Forall_fmap, Forall_true. intros b. cbn. by apply N.mod_lt. Qed.

Lemma checksum_bytes bs : is_bytes (checksum bs).
Proof. apply octets_bytes. Qed.

Lemma hex_decode_encode bs : is_bytes bs -> hex_decode (hex_encode bs) = Some bs.
Proof.
  induction 1 as [|b bs _ _ IH]; [done|]. cbn. rewrite IH. cbn. do 2 f_equal.
  rewrite (N.add_comm 65 (b / 16)), N.add_sub, (N.add_comm 65 (b mod 16)), N.add_sub.
  by rewrite (N.mul_comm (b / 16)), <-N.div_mod'.
Qed.

Lemma hex_no_dot bs : 46%N ∉ hex_encode bs.
Proof. induction bs as [|b bs IH]; cbn; rewrite ?not_elem_of_cons; [apply not_elem_of_nil|]. repeat split; try lia. done. Qed.

Lemma bits_positive_bits p : bits_positive (positive_bits p) = p.
Proof. induction p as [p IH|p IH|]; cbn; by rewrite ?IH. Qed.

Lemma positive_bits_bytes p : is_bytes (positive_bits p).
Proof. induction p; constructor; done. Qed.

#[export] Instance sample_laws : TokenLaws sample_crates.
Proof.
  split; cbn.
  - apply hex_decode_encode.
  - apply hex_no_dot.
  - intros p bs [= <-]. rewrite bits_positive_bits, decode_encode. by destruct p as [????????[]].
  - intros p bs [= <-]. apply positive_bits_bytes.
  - intros bs. exact (checksum_bytes bs).
  - intros k m t [= <-]. exact (Forall_app_2 _ _ _ (checksum_bytes k) (checksum_bytes m)).
Qed.

Definition sample_fingerprint : ConnectionFingerprint :=
  {| fp_driver := MySql; fp_host := lit "db"; fp_port := 3306; fp_database := None; fp_username := Some (lit "root");
     fp_tls := Preferred; fp_credential_mode := CredNone; fp_secret_env := None; fp_redis_ca_file := None |}.

Definition sample_request (operation : N) (token : option str) : CatalogRequest :=
  CrColumns {| ri_profile_id := lit "p"; ri_profile_generation := 3; ri_operation_id := operation |}
    (lit "app") (lit "users") None token 2 (from_secs 5).

Definition sample_node (name : string) (ordinal : N) : CatalogNode :=
  {| cn_identity := NiColumn (lit "app") (lit "users") ordinal; cn_kind := NkColumn; cn_name := lit name;
     cn_type_name := Some (lit "int"); cn_nullable := Some false; cn_ordinal := Some ordinal |}.

Definition sample_outcome : CatalogRetentionOutcome :=
  {| ro_nodes := [sample_node "a" 1; sample_node "b" 2];
     ro_counts := {| rc_schemas := 0; rc_relations := 0; rc_columns := 2; rc_columns_in_relation := 2 |};
     ro_utf8_bytes := 8; ro_truncated := false |}.

Definition sample_root : bytes := repeat 7%N 32.
Definition sample_key : bytes :=
  default [] (derive_token_key sample_root (from_connection_fields sample_fingerprint)).
Definition sample_token : str :=
  match encode_page_token (sample_request 1 None) (sample_node "b" 2) sample_outcome sample_key with
  | Ok token => token
  | Err _ => []
  end.

Ltac solve_rust_string :=
  split; [apply (bool_decide_unpack _); reflexivity|reflexivity].

Lemma sample_request_ok operation token : request_ok (sample_request operation token).
Proof. split; [solve_rust_string|done|split; solve_rust_string]. Qed.

Lemma sample_fingerprint_ok : fingerprint_ok sample_fingerprint.
Proof. split; [solve_rust_string|done|done|solve_rust_string|done|done]. Qed.

Lemma sample_no_collision :
  no_collision sample_root sample_fingerprint sample_fingerprint sample_key sample_key
    (sample_request 1 None) (sample_request 2 (Some sample_token)).
Proof. split; intros ?; try intros ?; reflexivity. Qed.

Lemma sample_outcome_fits : outcome_fits (sample_request 1 None) sample_outcome.
Proof. eexists. reflexivity. Qed.

Lemma sample_token_encoded :
  encode_page_token (sample_request 1 None) (sample_node "b" 2) sample_outcome sample_key = Ok sample_token.
Proof. vm_compute. reflexivity. Qed.

Lemma token_continues_one_listing_witness :
  decode_page_token (sample_request 2 (Some sample_token)) sample_token sample_key =
  Ok (decoded_after (sample_node "b" 2) sample_outcome).
Proof.
  apply (token_continues_one_listing sample_root sample_fingerprint sample_fingerprint sample_key sample_key
           (sample_request 1 None) (sample_request 2 (Some sample_token)) (sample_node "b" 2) sample_outcome
           sample_token).
  1, 2: apply sample_request_ok.
  1, 2: apply sample_fingerprint_ok.
  1, 2: reflexivity.
  - apply sample_no_collision.
  - split; [intros _; by eexists|done].
  - apply sample_outcome_fits.
  - apply sample_token_encoded.
  - repeat split.
Defined.
