(* ===== verification/MysqlExplorer.v ===== *)
(** * The MySQL catalog explorer (src/src/ui/mysql_explorer.rs, requests of src/src/ui/app.rs)

    The explorer's state and its handlers: a submitted request, a page that arrives,
    a failure, a clear, and the clicks of its tree.  Drawing is not modelled.  The
    theorems show that the retained budget is exactly what the branches hold,
    whatever pages arrive in whatever order. *)

From S2P Require Import Prelude RustStr Model PublicError MysqlCatalog CatalogRetained.

(** ** State *)

Inductive BranchKey := KeySchemas | KeyRelations (schema : str) | KeyColumns (schema relation : str).
#[export] Instance BranchKey_eq : EqDecision BranchKey. Proof. solve_decision. Defined.
#[export] Instance BranchKey_countable : Countable BranchKey.
Proof.
  refine (inj_countable'
    (fun k => match k with
              | KeySchemas => inl tt | KeyRelations s => inr (inl s) | KeyColumns s r => inr (inr (s, r))
              end)
    (fun e => match e with
              | inl _ => KeySchemas | inr (inl s) => KeyRelations s | inr (inr (s, r)) => KeyColumns s r
              end) _).
  by intros [].
Defined.

Definition for_page (page : CatalogPage) : option BranchKey :=
  match cp_level page, cp_parent page with
  | Schemas, None => Some KeySchemas
  | Relations, Some (NiSchema schema) => Some (KeyRelations schema)
  | Columns, Some (NiRelation schema relation) => Some (KeyColumns schema relation)
  | _, _ => None
  end.

Record CatalogBranch := {
  cb_nodes : list CatalogNode;
  cb_continuation : option CatalogRequest;
  cb_truncated : bool;
  cb_stale : bool;
}.

Definition CatalogBranch_default : CatalogBranch :=
  {| cb_nodes := []; cb_continuation := None; cb_truncated := false; cb_stale := false |}.

Record PendingCatalogRequest := { pc_request : CatalogRequest; pc_append : bool }.

Inductive MySqlExplorerIntent :=
| RefreshSchemas (prefix : option str)
| LoadMore (request : CatalogRequest)
| LoadRelations (schema : str) (prefix : option str) (token : option CatalogPageToken)
| LoadColumns (schema relation : str) (prefix : option str) (token : option CatalogPageToken)
| RetryCatalog (request : CatalogRequest)
| InsertTemplate (template : str).

Record MySqlExplorerState := {
  ex_prefix : str;
  ex_branches : gmap BranchKey CatalogBranch;
  ex_expanded_schemas : gset (list N);
  ex_expanded_relations : gset (list N * list N);
  ex_pending : gmap OperationId PendingCatalogRequest;
  ex_retry : option CatalogRequest;
  ex_last_error : option PublicSummary;
  ex_retention : CatalogRetention;
}.

Definition MySqlExplorerState_default : MySqlExplorerState :=
  {| ex_prefix := []; ex_branches := ∅; ex_expanded_schemas := ∅; ex_expanded_relations := ∅;
     ex_pending := ∅; ex_retry := None; ex_last_error := None; ex_retention := CatalogRetention_default |}.

(** ** Requests *)

Definition branch_for_request (request : CatalogRequest) : BranchKey :=
  match request with
  | CrSchemas _ _ _ _ _ => KeySchemas
  | CrRelations _ schema _ _ _ _ => KeyRelations schema
  | CrColumns _ schema relation _ _ _ _ => KeyColumns schema relation
  end.

Definition request_with_page_token (request : CatalogRequest) (page_token : CatalogPageToken) : CatalogRequest :=
  match request with
  | CrSchemas identity prefix _ page_size timeout => CrSchemas identity prefix (Some page_token) page_size timeout
  | CrRelations identity schema prefix _ page_size timeout =>
      CrRelations identity schema prefix (Some page_token) page_size timeout
  | CrColumns identity schema relation prefix _ page_size timeout =>
      CrColumns identity schema relation prefix (Some page_token) page_size timeout
  end.

(** [app.rs catalog_request_with_identity] *)
Definition catalog_request_with_identity (request : CatalogRequest) (identity : RequestIdentity) : CatalogRequest :=
  match request with
  | CrSchemas _ prefix page_token page_size timeout => CrSchemas identity prefix page_token page_size timeout
  | CrRelations _ schema prefix page_token page_size timeout =>
      CrRelations identity schema prefix page_token page_size timeout
  | CrColumns _ schema relation prefix page_token page_size timeout =>
      CrColumns identity schema relation prefix page_token page_size timeout
  end.

Definition normalized_prefix (prefix : str) : option str :=
  let prefix := trim prefix in
  if bool_decide (prefix = []) then None else Some prefix.

(** The request [submit_mysql_explorer_intent] builds; a template is inserted in
    the editor instead. *)
Definition intent_request (identity : RequestIdentity) (intent : MySqlExplorerIntent) : option CatalogRequest :=
  match intent with
  | RefreshSchemas prefix =>
      Some (CrSchemas identity prefix None DEFAULT_CATALOG_PAGE_SIZE DEFAULT_CATALOG_TIMEOUT)
  | LoadMore request => Some (catalog_request_with_identity request identity)
  | LoadRelations schema prefix token =>
      Some (CrRelations identity schema prefix token DEFAULT_CATALOG_PAGE_SIZE DEFAULT_CATALOG_TIMEOUT)
  | LoadColumns schema relation prefix token =>
      Some (CrColumns identity schema relation prefix token DEFAULT_CATALOG_PAGE_SIZE DEFAULT_CATALOG_TIMEOUT)
  | RetryCatalog request => Some (catalog_request_with_identity request identity)
  | InsertTemplate _ => None
  end.

(** ** Handlers *)

Definition mark_submitted (s : MySqlExplorerState) (request : CatalogRequest) : MySqlExplorerState :=
  {| ex_prefix := ex_prefix s; ex_branches := ex_branches s; ex_expanded_schemas := ex_expanded_schemas s;
     ex_expanded_relations := ex_expanded_relations s;
     ex_pending := <[ri_operation_id (cr_identity request) :=
                      {| pc_request := request;
                         pc_append := match cr_page_token request with Some _ => true | None => false end |}]>
                     (ex_pending s);
     ex_retry := ex_retry s; ex_last_error := None; ex_retention := ex_retention s |}.

Definition with_pending (s : MySqlExplorerState) (pending : gmap OperationId PendingCatalogRequest) :
    MySqlExplorerState :=
  {| ex_prefix := ex_prefix s; ex_branches := ex_branches s; ex_expanded_schemas := ex_expanded_schemas s;
     ex_expanded_relations := ex_expanded_relations s; ex_pending := pending; ex_retry := ex_retry s;
     ex_last_error := ex_last_error s; ex_retention := ex_retention s |}.

Definition handle_loaded (s : MySqlExplorerState) (page : CatalogPage) : MySqlExplorerState :=
  let operation := ri_operation_id (cp_identity page) in
  let pending := ex_pending s !! operation in
  let s := with_pending s (delete operation (ex_pending s)) in
  if match pending with
     | Some pending => negb (bool_decide (cr_level (pc_request pending) = cp_level page))
     | None => false
     end
  then s
  else
    match for_page page with
    | None => s
    | Some key =>
        let append := match pending with Some pending => pc_append pending | None => false end in
        let continuation :=
          pending ← pending;
          token ← cp_next_token page;
          Some (request_with_page_token (pc_request pending) token) in
        let retention :=
          match ex_branches s !! key with
          | Some previous => if negb append then retention_remove (ex_retention s) (cb_nodes previous)
                             else ex_retention s
          | None => ex_retention s
          end in
        let '(outcome, retention) := retention_retain retention (cp_nodes page) in
        let branch := default CatalogBranch_default (ex_branches s !! key) in
        let truncated := cp_truncated page || ro_truncated outcome in
        let branch :=
          {| cb_nodes := (if append then cb_nodes branch else []) ++ ro_nodes outcome;
             cb_continuation := if truncated then None else continuation;
             cb_truncated := truncated; cb_stale := false |} in
        {| ex_prefix := ex_prefix s; ex_branches := <[key := branch]> (ex_branches s);
           ex_expanded_schemas := ex_expanded_schemas s; ex_expanded_relations := ex_expanded_relations s;
           ex_pending := ex_pending s; ex_retry := None; ex_last_error := None; ex_retention := retention |}
    end.

Definition stale_branch (b : CatalogBranch) : CatalogBranch :=
  {| cb_nodes := cb_nodes b; cb_continuation := cb_continuation b; cb_truncated := cb_truncated b;
     cb_stale := true |}.

Definition handle_failed (s : MySqlExplorerState) (request : CatalogRequest) (summary : PublicSummary) :
    MySqlExplorerState :=
  {| ex_prefix := ex_prefix s; ex_branches := alter stale_branch (branch_for_request request) (ex_branches s);
     ex_expanded_schemas := ex_expanded_schemas s; ex_expanded_relations := ex_expanded_relations s;
     ex_pending := delete (ri_operation_id (cr_identity request)) (ex_pending s);
     ex_retry := Some request; ex_last_error := Some summary; ex_retention := ex_retention s |}.

Definition explorer_clear (s : MySqlExplorerState) : MySqlExplorerState :=
  {| ex_prefix := ex_prefix s; ex_branches := ∅; ex_expanded_schemas := ∅; ex_expanded_relations := ∅;
     ex_pending := ∅; ex_retry := None; ex_last_error := None;
     ex_retention := retention_clear (ex_retention s) |}.

Definition dismiss_error (s : MySqlExplorerState) : MySqlExplorerState :=
  {| ex_prefix := ex_prefix s; ex_branches := ex_branches s; ex_expanded_schemas := ex_expanded_schemas s;
     ex_expanded_relations := ex_expanded_relations s; ex_pending := ex_pending s; ex_retry := ex_retry s;
     ex_last_error := None; ex_retention := ex_retention s |}.

Definition is_pending (s : MySqlExplorerState) : bool := negb (bool_decide (ex_pending s = ∅)).

Definition retained_counts (s : MySqlExplorerState) : CatalogRetainedCounts := retention_counts (ex_retention s).
Definition retained_utf8_bytes (s : MySqlExplorerState) : N := rt_utf8_bytes (ex_retention s).

Definition is_stale_for (s : MySqlExplorerState) (request : CatalogRequest) : bool :=
  match ex_branches s !! branch_for_request request with Some branch => cb_stale branch | None => false end.

(** ** Clicks of the tree *)

Definition with_expanded (s : MySqlExplorerState) (schemas : gset (list N)) (relations : gset (list N * list N)) :
    MySqlExplorerState :=
  {| ex_prefix := ex_prefix s; ex_branches := ex_branches s; ex_expanded_schemas := schemas;
     ex_expanded_relations := relations; ex_pending := ex_pending s; ex_retry := ex_retry s;
     ex_last_error := ex_last_error s; ex_retention := ex_retention s |}.

Definition contains_branch (s : MySqlExplorerState) (key : BranchKey) : bool :=
  bool_decide (is_Some (ex_branches s !! key)).

(** "Show relations" / "Hide relations" *)
Definition click_schema (s : MySqlExplorerState) (schema : str) : MySqlExplorerState * list MySqlExplorerIntent :=
  if bool_decide (schema ∈ ex_expanded_schemas s) then
    (with_expanded s (ex_expanded_schemas s ∖ {[schema]}) (ex_expanded_relations s), [])
  else
    (with_expanded s ({[schema]} ∪ ex_expanded_schemas s) (ex_expanded_relations s),
     if contains_branch s (KeyRelations schema) then []
     else [LoadRelations schema (normalized_prefix (ex_prefix s)) None]).

(** "Show columns" / "Hide columns" *)
Definition click_relation (s : MySqlExplorerState) (schema relation : str) :
    MySqlExplorerState * list MySqlExplorerIntent :=
  if bool_decide ((schema, relation) ∈ ex_expanded_relations s) then
    (with_expanded s (ex_expanded_schemas s) (ex_expanded_relations s ∖ {[(schema, relation)]}), [])
  else
    (with_expanded s (ex_expanded_schemas s) ({[(schema, relation)]} ∪ ex_expanded_relations s),
     if contains_branch s (KeyColumns schema relation) then []
     else [LoadColumns schema relation (normalized_prefix (ex_prefix s)) None]).

(** ** The budget is what the branches hold *)

(** All nodes on display. *)
Definition held_in (branches : gmap BranchKey CatalogBranch) : list CatalogNode :=
  map_to_list branches ≫= fun kb => cb_nodes kb.2.

Lemma held_in_split branches key branch :
  branches !! key = Some branch -> held_in branches ≡ₚ cb_nodes branch ++ held_in (delete key branches).
Proof. intros Hk. unfold held_in. by rewrite <-(map_to_list_delete branches key branch Hk). Qed.

Lemma held_in_insert branches key branch :
  held_in (<[key := branch]> branches) ≡ₚ cb_nodes branch ++ held_in (delete key branches).
Proof. by rewrite (held_in_split _ key branch), delete_insert_eq by apply lookup_insert_eq. Qed.

Lemma held_in_old branches key :
  held_in branches ≡ₚ cb_nodes (default CatalogBranch_default (branches !! key)) ++ held_in (delete key branches).
Proof.
  destruct (branches !! key) as [branch|] eqn:E; cbn; [by apply held_in_split|].
  by rewrite delete_id.
Qed.

Lemma held_in_alter branches key : held_in (alter stale_branch key branches) ≡ₚ held_in branches.
Proof.
  destruct (branches !! key) as [branch|] eqn:E.
  - rewrite (held_in_split branches key branch E).
    rewrite (held_in_split _ key (stale_branch branch)) by (rewrite lookup_alter_eq; by rewrite E).
    by rewrite delete_alter_eq.
  - by rewrite alter_id by (intros ?; congruence).
Qed.

Record Explorer_ok (s : MySqlExplorerState) : Prop := {
  eo_budget : Holds CatalogRetention_default (ex_retention s) (held_in (ex_branches s));
  eo_capped : forall key branch, ex_branches s !! key = Some branch -> cb_truncated branch = true ->
    cb_continuation branch = None;
}.

Lemma Explorer_ok_same s s' :
  Explorer_ok s -> ex_branches s' = ex_branches s -> ex_retention s' = ex_retention s -> Explorer_ok s'.
Proof. intros [H1 H2] E1 E2. split; by rewrite ?E1, ?E2. Qed.

(** Before a page is retained, the budget holds the other branches, and the page's
    own branch only when the page extends it. *)
Lemma retention_ready s key (append : bool) :
  Explorer_ok s ->
  Holds CatalogRetention_default
    match ex_branches s !! key with
    | Some previous => if negb append then retention_remove (ex_retention s) (cb_nodes previous) else ex_retention s
    | None => ex_retention s
    end
    ((if append then cb_nodes (default CatalogBranch_default (ex_branches s !! key)) else [])
       ++ held_in (delete key (ex_branches s))).
Proof.
  intros [Hb _]. rewrite (held_in_old (ex_branches s) key) in Hb.
  destruct (ex_branches s !! key) as [previous|] eqn:E; cbn in *.
  - destruct append; cbn; [done|]. apply (remove_held _ _ _ (cb_nodes previous)). by rewrite (comm (++)).
  - by destruct append.
Qed.

Lemma handle_loaded_ok s page : Explorer_ok s -> Explorer_ok (handle_loaded s page).
Proof.
  intros Hok. pose proof Hok as [_ Hc]. unfold handle_loaded. cbn.
  destruct (match ex_pending s !! _ with Some _ => _ | None => _ end); [by apply (Explorer_ok_same s)|].
  destruct (for_page page) as [key|]; [|by apply (Explorer_ok_same s)].
  set (append := match ex_pending s !! _ with Some pending => pc_append pending | None => false end).
  pose proof (retention_ready s key append Hok) as Hr.
  unfold retention_retain. destruct (retain_loop _ (cp_nodes page)) as [[accepted refused] r'] eqn:El.
  apply (retain_loop_spec _ _ _ _ _ _ _ Hr) in El as [_ Hh].
  split; cbn.
  - rewrite held_in_insert. cbn. by rewrite <-(assoc (++)), (comm (++) accepted), (assoc (++)).
  - intros key' branch. rewrite lookup_insert_Some. intros [[_ <-]|[_ E]]; [|by eapply Hc].
    cbn. by intros ->.
Qed.

Lemma handle_failed_ok s request summary : Explorer_ok s -> Explorer_ok (handle_failed s request summary).
Proof.
  intros [Hb Hc]. split; cbn.
  - by rewrite held_in_alter.
  - intros key branch. rewrite lookup_alter_Some. intros [(_ & b & Hk & ->)|[_ E]]; [|by eapply Hc].
    by apply (Hc _ _ Hk).
Qed.

Lemma Explorer_ok_empty s : ex_branches s = ∅ -> ex_retention s = CatalogRetention_default -> Explorer_ok s.
Proof. intros E1 E2. split; rewrite ?E1, ?E2; [apply Holds_default|done]. Qed.

(** What can happen to an explorer. *)
Inductive ExplorerStep (s : MySqlExplorerState) : MySqlExplorerState -> Prop :=
| StepSubmitted request : ExplorerStep s (mark_submitted s request)
| StepLoaded page : ExplorerStep s (handle_loaded s page)
| StepFailed request summary : ExplorerStep s (handle_failed s request summary)
| StepClear : ExplorerStep s (explorer_clear s)
| StepDismiss : ExplorerStep s (dismiss_error s)
| StepSchema schema : ExplorerStep s (click_schema s schema).1
| StepRelation schema relation : ExplorerStep s (click_relation s schema relation).1.

Lemma ExplorerStep_ok s s' : Explorer_ok s -> ExplorerStep s s' -> Explorer_ok s'.
Proof.
  intros Hok [request|page|request summary| | |schema|schema relation].
  - by apply (Explorer_ok_same s).
  - by apply handle_loaded_ok.
  - by apply handle_failed_ok.
  - by apply Explorer_ok_empty.
  - by apply (Explorer_ok_same s).
  - apply (Explorer_ok_same s); [done|..]; unfold click_schema; by case_bool_decide.
  - apply (Explorer_ok_same s); [done|..]; unfold click_relation; by case_bool_decide.
Qed.

Lemma explorer_reached_ok s : rtc ExplorerStep MySqlExplorerState_default s -> Explorer_ok s.
Proof.
  intros Hs. assert (H0 : Explorer_ok MySqlExplorerState_default) by by apply Explorer_ok_empty.
  revert H0. induction Hs as [s|s s1 s2 Hstep _ IH]; [done|]. intros H0. apply IH. by eapply ExplorerStep_ok.
Qed.

(** C34: The catalog budget never drifts. After any sequence of submissions, pages, failures, clears and clicks, whatever the pages contain, the nodes on display have distinct identities, the counters and the byte count shown are exactly the totals over those nodes, and every cap holds, the per-relation cap included; so a refresh gives back what it replaces and nothing is counted twice. *)
Theorem explorer_budget_exact s :
  rtc ExplorerStep MySqlExplorerState_default s ->
  let shown := held_in (ex_branches s) in
  let counts := retained_counts s in
  NoDup (identities shown) /\
  retained_utf8_bytes s = total catalog_node_utf8_bytes shown /\
  rc_schemas counts = total schema_weight shown /\
  rc_relations counts = total relation_weight shown /\
  rc_columns counts = total column_weight shown /\
  (forall key, (total (column_of_weight key) shown <= rc_columns_in_relation counts)%N) /\
  (retained_utf8_bytes s <= MAX_CATALOG_UTF8_BYTES /\ rc_schemas counts <= MAX_CATALOG_SCHEMAS /\
   rc_relations counts <= MAX_CATALOG_RELATIONS /\ rc_columns counts <= MAX_CATALOG_COLUMNS /\
   rc_columns_in_relation counts <= MAX_CATALOG_COLUMNS_PER_RELATION)%N.
Proof.
  intros [Hb _]%explorer_reached_ok shown counts. fold shown in Hb.
  destruct Hb as [H1 _ H3 H4 H5 H6 H7 _ [W1 W2 W3 W4 W5]]. cbn in H3, H4, H5, H6, W1, W2, W3, W4.
  unfold retained_utf8_bytes, counts, retained_counts, retention_counts. cbn.
  assert (Hof : forall key, default 0%N (rt_columns_by_relation (ex_retention s) !! key) = total (column_of_weight key) shown)
    by (intros key; exact (H7 key)).
  split; [done|]. rewrite H3, H4, H5, H6. do 4 (split; [done|]). split.
  - intros key. rewrite <-Hof. destruct (_ !! key) as [count|] eqn:E; cbn; [by eapply largest_ge|lia].
  - repeat (split; [lia|]). apply largest_le. intros key count E. specialize (Hof key). rewrite E in Hof. cbn in Hof.
    rewrite Hof. exact (W5 key).
Qed.

Definition sample_schema_page (names : list str) : CatalogPage :=
  {| cp_identity := {| ri_profile_id := lit "p"; ri_profile_generation := 1; ri_operation_id := 4 |};
     cp_level := Schemas; cp_parent := None;
     cp_nodes := (fun name => {| cn_identity := NiSchema name; cn_kind := NkSchema; cn_name := name;
                                 cn_type_name := None; cn_nullable := None; cn_ordinal := None |}) <$> names;
     cp_next_token := None; cp_retained_counts := CatalogRetainedCounts_default; cp_retained_utf8_bytes := 0;
     cp_truncated := false; cp_stale := false; cp_loaded_at := [] |}.

(** A refresh that drops one schema, lists another twice and adds a third. *)
Lemma explorer_budget_exact_witness :
  let s := handle_loaded (handle_loaded MySqlExplorerState_default (sample_schema_page [lit "a"; lit "bb"]))
             (sample_schema_page [lit "bb"; lit "bb"; lit "ccc"]) in
  rc_schemas (retained_counts s) = total schema_weight (held_in (ex_branches s)) /\
  (rc_schemas (retained_counts s), retained_utf8_bytes s) = (2, 5)%N.
Proof.
  split; [|by vm_compute].
  apply (explorer_budget_exact
    (handle_loaded (handle_loaded MySqlExplorerState_default (sample_schema_page [lit "a"; lit "bb"]))
       (sample_schema_page [lit "bb"; lit "bb"; lit "ccc"]))).
  eapply rtc_l; [apply StepLoaded|]. apply rtc_once, StepLoaded.
Defined.
