(* ===== verification/CatalogPaging.v ===== *)
(** * Browsing a whole listing (theorems on MysqlCatalog and MysqlExplorer)

    A listing is fetched page by page: the explorer submits a request, the driver
    answers with a page and a token, the explorer shows the page and offers the
    continuation.  When the listing fits the caps, following the continuations
    ends, and shows every node once and in the server's order. *)

From stdpp Require Import sorting.
From S2P Require Import Prelude RustStr Model Drivers MysqlCatalog CatalogRetained CatalogTokens MysqlExplorer.

(** ** The order of a listing *)

(** [CAST(a AS BINARY) < CAST(b AS BINARY)] *)
Definition name_lt (a b : str) : bool := negb (bytes_leb (encode b) (encode a)).

Definition ordinal_of (n : CatalogNode) : N := match cn_identity n with NiColumn _ _ ordinal => ordinal | _ => 0 end.

Definition columns_listing (request : CatalogRequest) : bool := bool_decide (cr_level request = Columns).

(** The ORDER BY of the three queries. *)
Definition before (request : CatalogRequest) (a b : CatalogNode) : bool :=
  if columns_listing request then
    (ordinal_of a <? ordinal_of b)%N || (ordinal_of a =? ordinal_of b)%N && name_lt (cn_name a) (cn_name b)
  else name_lt (cn_name a) (cn_name b).

(** The WHERE of the three queries, on the position. *)
Definition after (request : CatalogRequest) (d : DecodedToken) (n : CatalogNode) : bool :=
  if columns_listing request then
    let last := default 0%N (dk_last_ordinal d) in
    (last <? ordinal_of n)%N || (last =? ordinal_of n)%N && name_lt (dk_last_name d) (cn_name n)
  else bool_decide (dk_last_name d = []) || name_lt (dk_last_name d) (cn_name n).

(** The query of a request and what is bound to it. *)
Definition listing_sql (request : CatalogRequest) : str :=
  match request with
  | CrSchemas _ _ _ _ _ => SCHEMA_QUERY
  | CrRelations _ _ _ _ _ _ => RELATION_QUERY
  | CrColumns _ _ _ _ _ _ _ => COLUMN_QUERY
  end.

Definition listing_arguments (db : option str) (request : CatalogRequest) (d : DecodedToken) (limit : N) :
    list SqlArgument :=
  let prefix := BindText (Some (default [] (cr_prefix request))) in
  let name := BindText (Some (dk_last_name d)) in
  let ordinal := BindU32 (default 0%N (dk_last_ordinal d)) in
  match request with
  | CrSchemas _ _ _ _ _ => [BindText db; BindText db; prefix; prefix; prefix; name; name; BindU32 limit]
  | CrRelations _ schema _ _ _ _ =>
      [BindText (Some schema); prefix; prefix; prefix; name; name; BindU32 limit]
  | CrColumns _ schema relation _ _ _ _ =>
      [BindText (Some schema); BindText (Some relation); prefix; prefix; prefix; ordinal; ordinal; name;
       BindU32 limit]
  end.

Definition listing_node (request : CatalogRequest) (row : list SqlValue) : result DriverError CatalogNode :=
  match request with
  | CrSchemas _ _ _ _ _ => schema_node row
  | CrRelations _ schema _ _ _ _ => relation_node schema row
  | CrColumns _ schema relation _ _ _ _ => column_node schema relation row
  end.

(** A node as the listing of a request has it. *)
Definition listed (request : CatalogRequest) (n : CatalogNode) : Prop :=
  cn_name n <> [] /\
  match request with
  | CrSchemas _ _ _ _ _ => cn_identity n = NiSchema (cn_name n)
  | CrRelations _ schema _ _ _ _ => cn_identity n = NiRelation schema (cn_name n)
  | CrColumns _ schema relation _ _ _ _ => exists ordinal, cn_identity n = NiColumn schema relation ordinal /\ (0 < ordinal)%N
  end.

(** What the server promises for the query of a request: it answers with the nodes
    after a position, in order, up to the limit. *)
Record Listing (server : MysqlServer) (db : option str) (request : CatalogRequest) (nodes : list CatalogNode) : Prop := {
  ls_acquire : ms_acquire server = Ok tt;
  ls_prepare : ms_prepare server (listing_sql request) = Ok tt;
  ls_fetch : forall d limit, exists rows,
    ms_fetch server (listing_sql request) (listing_arguments db request d limit)
      = ((fun row => Ok (FetchedRow row)) <$> rows) ++ [Ok Finished] /\
    Forall2 (fun row n => listing_node request row = Ok n) rows
      (take (N.to_nat limit) (List.filter (after request d) nodes));
  ls_sorted : StronglySorted (fun a b => before request a b = true) nodes;
  ls_unique : NoDup (identities nodes);
  ls_listed : Forall (listed request) nodes;
}.

(** ** Positions *)

Lemma name_lt_irrefl a : name_lt a a = false.
Proof. unfold name_lt. by rewrite bytes_leb_refl. Qed.

Lemma name_lt_asym a b : name_lt a b = true -> name_lt b a = false.
Proof.
  unfold name_lt. rewrite negb_true_iff, negb_false_iff. intros E.
  destruct (bytes_leb_total (encode a) (encode b)); [done|congruence].
Qed.

Lemma before_irrefl request a : before request a a = false.
Proof. unfold before. rewrite name_lt_irrefl, N.ltb_irrefl, andb_false_r. by destruct (columns_listing _). Qed.

Lemma before_asym request a b : before request a b = true -> before request b a = false.
Proof.
  unfold before. destruct (columns_listing request); [|apply name_lt_asym].
  rewrite orb_true_iff, andb_true_iff, orb_false_iff, andb_false_iff.
  intros [H|[H1 H2]]; [lia|]. apply name_lt_asym in H2. lia.
Qed.

(** What comes after a node of a sorted listing is its tail. *)
Lemma filter_after request xs n ys :
  StronglySorted (fun a b => before request a b = true) (xs ++ n :: ys) ->
  List.filter (before request n) (xs ++ n :: ys) = ys.
Proof.
  intros Hs. apply StronglySorted_app in Hs as (Hx & _ & [Hn _]%StronglySorted_cons).
  rewrite List.filter_app. cbn. rewrite before_irrefl.
  assert (E1 : List.filter (before request n) xs = []).
  { assert (Hx' : forall x, x ∈ xs -> before request x n = true) by (intros x Hin; apply Hx; [done|by left]).
    clear -Hx'. induction xs as [|x xs IH]; [done|]. cbn.
    rewrite (before_asym _ _ _ (Hx' x ltac:(by left))). apply IH. intros y Hy. apply Hx'. by right. }
  rewrite E1. cbn. clear -Hn. induction ys as [|y ys IH]; [done|]. cbn.
  apply Forall_cons in Hn as [Hy Hn]. rewrite Hy. by rewrite IH.
Qed.

(** The counts of a listing after the nodes [xs]. *)
Definition counts_after (request : CatalogRequest) (xs : list CatalogNode) : CatalogRetainedCounts :=
  {| rc_schemas := total schema_weight xs; rc_relations := total relation_weight xs;
     rc_columns := total column_weight xs;
     rc_columns_in_relation := from_option (fun key => total (column_of_weight key) xs) 0%N (request_relation request) |}.

Definition position_after (request : CatalogRequest) (xs : list CatalogNode) : DecodedToken :=
  {| dk_last_name := from_option (fun n => (token_position n).1) [] (last xs);
     dk_last_ordinal := from_option (fun n => (token_position n).2) None (last xs);
     dk_counts := counts_after request xs; dk_utf8_bytes := total catalog_node_utf8_bytes xs |}.

Lemma listed_position request n :
  listed request n ->
  token_position n = (cn_name n, if columns_listing request then Some (ordinal_of n) else None) /\
  position_fits request n.
Proof.
  intros [_ H]. unfold position_fits, token_position, ordinal_of, columns_listing.
  destruct request; cbn in *; [rewrite H..|destruct H as (o & -> & _)]; cbn.
  - split; [done|]. split; [done|]. by intros [? [=]].
  - split; [done|]. split; [done|]. by intros [? [=]].
  - split; [done|]. split; eauto.
Qed.

Lemma filter_all {A} (p : A -> bool) l : Forall (fun x => p x = true) l -> List.filter p l = l.
Proof. induction 1 as [|x l Hx _ IH]; [done|]. cbn. by rewrite Hx, IH. Qed.

(** The query asks for the nodes that are left. *)
Lemma listing_left server db request xs ys :
  Listing server db request (xs ++ ys) ->
  List.filter (after request (position_after request xs)) (xs ++ ys) = ys.
Proof.
  intros [_ _ _ Hs _ Hl]. destruct xs as [|x xs _] using rev_ind.
  - apply filter_all. eapply Forall_impl; [exact Hl|]. intros n [Hn Hi].
    unfold after, columns_listing, position_after, ordinal_of. cbn.
    destruct request; cbn in *; [done..|]. destruct Hi as (o & -> & Ho).
    rewrite bool_decide_eq_true_2 by done. by rewrite (proj2 (N.ltb_lt 0 o) Ho).
  - rewrite <-(assoc (++)) in *. cbn [app] in *.
    rewrite <-(filter_after request xs x ys Hs) at 2. apply List.filter_ext. intros n.
    apply Forall_app in Hl as [_ [Hx _]%Forall_cons].
    destruct (listed_position _ _ Hx) as [Ep _].
    unfold after, before, position_after. cbn. rewrite last_snoc. cbn. rewrite Ep. cbn.
    destruct (columns_listing request); [done|]. by rewrite bool_decide_eq_false_2 by apply Hx.
Qed.

(** ** The budget of one page *)

Lemma column_of_other request key n :
  listed request n -> request_relation request <> Some key -> column_of_weight key n = 0%N.
Proof.
  intros [_ H] Hr. unfold column_of_weight. destruct request; cbn in *; [by rewrite H..|].
  destruct H as (o & -> & _). by rewrite bool_decide_eq_false_2 by naive_solver.
Qed.

Lemma column_of_other_total request key xs :
  Forall (listed request) xs -> request_relation request <> Some key -> total (column_of_weight key) xs = 0%N.
Proof.
  intros Hl Hr. induction Hl as [|x xs Hx _ IH]; [done|].
  by rewrite total_cons, IH, (column_of_other request).
Qed.

(** The checkpoint a position carries is the budget of the nodes before it. *)
Lemma checkpoint_after request xs :
  Within CatalogRetention_default xs -> Forall (listed request) xs ->
  exists b, from_checkpoint (counts_after request xs) (total catalog_node_utf8_bytes xs)
              (request_relation request) = Ok b /\
    (forall key, columns_of b key = total (column_of_weight key) xs) /\
    (forall ys, Within b ys <-> Within CatalogRetention_default (xs ++ ys)).
Proof.
  intros [W1 W2 W3 W4 W5] Hl. unfold columns_of in W5. cbn in W1, W2, W3, W4, W5.
  assert (Hrel : (rc_columns_in_relation (counts_after request xs) <= MAX_CATALOG_COLUMNS_PER_RELATION)%N).
  { cbn. destruct (request_relation request) as [key|]; cbn; [|unfold_caps; lia].
    specialize (W5 key). rewrite lookup_empty in W5. cbn in W5. lia. }
  assert (Hm : exists m : gmap (list N * list N) N, (if (0 <? rc_columns_in_relation (counts_after request xs))%N then
                   relation ← ok_or (request_relation request) DeInvalidCatalogRequest;
                   Ok {[relation := rc_columns_in_relation (counts_after request xs)]}
                 else Ok ∅ : result DriverError (gmap (list N * list N) N)) = Ok m /\
               forall key, default 0%N (m !! key) = total (column_of_weight key) xs).
  { cbn. destruct (request_relation request) as [rel|] eqn:Er; cbn.
    - destruct (0 <? total (column_of_weight rel) xs)%N eqn:E0; eexists; (split; [done|]); intros key;
        (destruct (decide (rel = key)) as [->|Hne];
         [rewrite ?lookup_singleton_eq, ?lookup_empty; cbn; lia
         |rewrite ?(lookup_singleton_ne rel) by done; rewrite ?lookup_empty;
          rewrite (column_of_other_total request) by (done || congruence); done]).
    - exists ∅. split; [done|]. intros key. rewrite lookup_empty.
      by rewrite (column_of_other_total request) by (done || congruence). }
  destruct Hm as (m & Em & Hm). eexists. split; [|split].
  - unfold from_checkpoint. cbn [rc_schemas rc_relations rc_columns counts_after].
    rewrite !(proj2 (N.ltb_ge _ _)) by lia. cbn [orb]. rewrite Em. cbn. done.
  - exact Hm.
  - intros ys. split; intros [V1 V2 V3 V4 V5]; cbn in *; unfold columns_of in *; cbn in *;
      split; cbn; rewrite ?total_app in *; try lia; intros key; specialize (V5 key);
      unfold columns_of; cbn in *; rewrite ?total_app, ?Hm, ?lookup_empty in *; cbn in *; lia.
Qed.

(** The counts after a page are those of all nodes listed so far. *)
Lemma counts_of_page request xs page b r :
  from_checkpoint (counts_after request xs) (total catalog_node_utf8_bytes xs) (request_relation request) = Ok b ->
  (forall key, columns_of b key = total (column_of_weight key) xs) ->
  Forall (listed request) (xs ++ page) -> Holds b r page ->
  retention_counts r = counts_after request (xs ++ page) /\
  rt_utf8_bytes r = total catalog_node_utf8_bytes (xs ++ page).
Proof.
  intros Hb Hcol Hl [_ _ H3 H4 H5 H6 H7 H8 _].
  destruct (from_checkpoint_Ok _ _ _ _ Hb) as (_ & Ec & Eu). rewrite Ec in H4, H5, H6. rewrite Eu in H3.
  cbn in H4, H5, H6. split; [|by rewrite total_app].
  unfold retention_counts, counts_after. rewrite !total_app, H4, H5, H6. f_equal.
  assert (Hk : forall key, default 0%N (rt_columns_by_relation r !! key) = total (column_of_weight key) (xs ++ page)).
  { intros key. rewrite total_app, <-Hcol. exact (H7 key). }
  assert (Hnone : forall key, total (column_of_weight key) (xs ++ page) = 0%N -> rt_columns_by_relation r !! key = None).
  { intros key E. rewrite <-Hk in E. specialize (H8 key).
    destruct (rt_columns_by_relation r !! key); cbn in E; congruence. }
  destruct (request_relation request) as [rel|] eqn:Er; cbn.
  - rewrite (largest_only _ rel); [apply Hk|].
    intros key Hne. apply Hnone. apply (column_of_other_total request); [done|congruence].
  - apply largest_none. intros key. apply Hnone. apply (column_of_other_total request); [done|congruence].
Qed.

(** ** One page of a listing *)

(** Signing and serialising do not fail (they have no error on these inputs). *)
Record crates_total `{TokenCrates} : Prop := {
  ct_json : forall p, is_Some (json_to_vec p);
  ct_hmac : forall k m, is_Some (hmac_sha256 k m);
}.

Lemma collect_rows_Forall2 node_of rows nodes :
  Forall2 (fun row n => node_of row = Ok n) rows nodes ->
  collect_rows node_of (((fun row => Ok (FetchedRow row)) <$> rows) ++ [Ok Finished]) = Ok nodes.
Proof. induction 1 as [|row n rows nodes E _ IH]; [done|]. cbn. rewrite E. cbn. by rewrite IH. Qed.

Lemma last_take {A} (l : list A) n : 0 < n -> n <= length l -> exists x, last (take n l) = Some x.
Proof.
  intros H0 H1. destruct (last (take n l)) as [x|] eqn:E; [eauto|].
  apply last_None in E. apply (f_equal length) in E. rewrite length_take in E. cbn in E. lia.
Qed.

Section paging.
Context `{TokenLaws}.
Context (total_crates : crates_total).
Context (server : MysqlServer) (db : option str) (key : bytes) (now : str).

(** The three loads are one query each. *)
Lemma load_nodes_eq request d limit :
  match request with
  | CrSchemas _ _ _ _ _ => load_schemas server db (default [] (cr_prefix request)) (dk_last_name d) limit
  | CrRelations _ schema _ _ _ _ =>
      load_relations server schema (default [] (cr_prefix request)) (dk_last_name d) limit
  | CrColumns _ schema relation _ _ _ _ =>
      load_columns server schema relation (default [] (cr_prefix request)) (default 0%N (dk_last_ordinal d))
        (dk_last_name d) limit
  end = fetch_nodes server (listing_sql request) (listing_arguments db request d limit) (listing_node request).
Proof using Type. by destruct request. Qed.

Lemma load_page_fetches request d nodes :
  CatalogRequest_validate request = Ok tt ->
  Listing server db request nodes ->
  match cr_page_token request with
  | Some token => decode_page_token request token key
  | None => Ok first_position
  end = Ok d ->
  load_page server db request key now false =
  finish_page request d (take (S (N.to_nat (cr_page_size request))) (List.filter (after request d) nodes)) key now.
Proof using Type.
  intros Hv [Ha Hp Hf _ _ _] Hd. unfold load_page. rewrite Hv, Hd. cbn [map_err mbind result_bind].
  destruct (Hf d (cr_page_size request + 1)%N) as (rows & Er & Hrows).
  replace (N.to_nat (cr_page_size request + 1)) with (S (N.to_nat (cr_page_size request))) in Hrows by lia.
  apply collect_rows_Forall2 in Hrows.
  assert (Hn : fetch_nodes server (listing_sql request) (listing_arguments db request d (cr_page_size request + 1))
                 (listing_node request)
               = Ok (take (S (N.to_nat (cr_page_size request))) (List.filter (after request d) nodes))).
  { unfold fetch_nodes. rewrite Ha, Hp, Er. exact Hrows. }
  unfold load_page_inner. rewrite load_nodes_eq, Hn. done.
Qed.

Lemma encode_page_token_total request last outcome :
  outcome_fits request outcome -> exists token, encode_page_token request last outcome key = Ok token.
Proof using total_crates.
  intros [b Hb]. unfold encode_page_token. destruct (token_position last) as [name ordinal].
  assert (Hcap : (rc_schemas (ro_counts outcome) <= U64_MAX /\ rc_relations (ro_counts outcome) <= U64_MAX /\
                  rc_columns (ro_counts outcome) <= U64_MAX /\
                  rc_columns_in_relation (ro_counts outcome) <= U64_MAX /\ ro_utf8_bytes outcome <= U64_MAX)%N).
  { unfold from_checkpoint in Hb. destruct (_ || _) eqn:E in Hb; [done|].
    rewrite !orb_false_iff, !N.ltb_ge in E. unfold_caps. unfold U64_MAX. lia. }
  unfold usize_to_u64. rewrite !(proj2 (N.leb_le _ _)) by apply Hcap. cbn.
  match goal with |- context [json_to_vec ?p] => destruct (ct_json total_crates p) as [payload ->] end. cbn.
  unfold sign. destruct (ct_hmac total_crates key (TOKEN_AUTHENTICATION_DOMAIN ++ payload)) as [tag ->].
  by eexists.
Qed.

(** A token made for a request decodes for every request of the listing. *)
Lemma encoded_token_decodes r1 r2 n outcome token :
  encode_page_token r1 n outcome key = Ok token -> same_listing r1 r2 -> position_fits r1 n ->
  outcome_fits r1 outcome -> decode_page_token r2 token key = Ok (decoded_after n outcome).
Proof using Type*.
  intros Henc Hsame Hpos Hfits.
  destruct (encode_page_token_Ok _ _ _ _ _ Henc) as (payload & tag & Hp & Ht & ->).
  rewrite (decode_token_text _ _ _ _ _ _ Hp Ht). apply result_bind_Ok. exists tt.
  split; [by apply verify_Ok|by apply accept_payload_of].
Qed.

(** The node after a page fits when the whole listing does. *)
Lemma next_node_fits b r xs ys size extra :
  Holds b r (take size ys) ->
  (forall zs, Within b zs <-> Within CatalogRetention_default (xs ++ zs)) ->
  ys !! size = Some extra -> NoDup (identities ((xs ++ take size ys) ++ drop size ys)) ->
  Within CatalogRetention_default ((xs ++ take size ys) ++ drop size ys) -> can_retain r extra = true.
Proof using Type.
  intros Ho Hiff Ex Hnd Hw. rewrite (drop_S ys extra size Ex) in Hw, Hnd.
  apply (can_retain_within b r (take size ys)); [done|..].
  - unfold identities in *. rewrite !fmap_app in Hnd. apply NoDup_app in Hnd as (_ & Hd & _).
    intros Hin. apply (Hd (cn_identity extra)); [apply elem_of_app; by right|]. by left.
  - apply Hiff. apply (Within_app _ _ (drop (S size) ys)). by rewrite <-!(assoc (++)) in *.
Qed.

(** What [finish_page] returns for the next nodes of a listing that fits. *)
Lemma finish_page_listing request xs ys :
  (0 < cr_page_size request)%N -> Forall (listed request) (xs ++ ys) -> NoDup (identities (xs ++ ys)) ->
  Within CatalogRetention_default (xs ++ ys) ->
  let size := N.to_nat (cr_page_size request) in
  exists page, finish_page request (position_after request xs) (take (S size) ys) key now = Ok page /\
    cp_identity page = cr_identity request /\ cp_level page = cr_level request /\
    cp_parent page = request_parent request /\ cp_nodes page = take size ys /\ cp_truncated page = false /\
    match cp_next_token page with
    | None => length ys <= size
    | Some token => size < length ys /\
        forall r2, same_listing request r2 ->
          decode_page_token r2 token key = Ok (position_after request (xs ++ take size ys))
    end.
Proof.
  intros Hsize Hl Hnd Hw size.
  rewrite <-(take_drop size ys), (assoc (++)) in Hl, Hnd, Hw.
  pose proof (Within_app _ _ _ Hw) as Hw1. apply Forall_app in Hl as [Hl Hl2].
  pose proof Hl as [Hlx Hlp]%Forall_app.
  assert (Hnd1 : NoDup (identities (take size ys))).
  { unfold identities in *. rewrite !fmap_app in Hnd. apply NoDup_app in Hnd as (Hnd & _ & _).
    by apply NoDup_app in Hnd as (_ & _ & ?). }
  destruct (checkpoint_after request xs) as (b & Hb & Hcol & Hiff); [by eapply Within_app|done|].
  destruct (from_checkpoint_Ok _ _ _ _ Hb) as (Hb0 & _).
  unfold finish_page. fold size. cbn [position_after dk_counts dk_utf8_bytes]. rewrite Hb. cbn [mbind result_bind].
  rewrite take_take, Nat.min_l by lia. unfold retention_retain.
  destruct (retain_loop b (take size ys)) as [[accepted refused] r] eqn:El.
  apply (retain_loop_spec _ _ _ _ _ _ _ Hb0) in El as [Hr Ho]. cbn [app] in Ho.
  apply Retains_within in Hr as [-> ->]; [|by apply Hiff|done].
  destruct (counts_of_page request xs (take size ys) b r Hb Hcol) as [Ec Eu]; [by apply Forall_app|done|].
  set (outcome := {| ro_nodes := take size ys; ro_counts := retention_counts r;
                     ro_utf8_bytes := rt_utf8_bytes r; ro_truncated := false |}).
  rewrite lookup_take_lt by lia. rewrite length_take.
  destruct (ys !! size) as [extra|] eqn:Ex.
  - pose proof (lookup_lt_Some _ _ _ Ex) as Hlen.
    pose proof (next_node_fits b r xs ys size extra Ho Hiff Ex Hnd Hw) as Hfit.
    rewrite Hfit, (proj2 (Nat.ltb_lt _ _)) by lia. cbn [negb andb].
    change (ro_nodes outcome) with (take size ys). change (ro_truncated outcome) with false.
    rewrite length_take, (proj2 (Nat.eqb_eq _ _)) by lia. cbn [negb andb].
    destruct (last_take ys size) as [n Hn]; [lia..|]. rewrite Hn.
    assert (Hfits : outcome_fits request outcome).
    { unfold outcome_fits, outcome. cbn. rewrite Ec, Eu.
      destruct (checkpoint_after request (xs ++ take size ys)) as (b' & Hb' & _); [done|by apply Forall_app|].
      by exists b'. }
    assert (Hpos : listed request n).
    { rewrite Forall_forall in Hlp. apply Hlp. apply last_Some in Hn as [l' ->]. apply elem_of_app. right. by left. }
    destruct (listed_position _ _ Hpos) as [Ep Hpf].
    destruct (encode_page_token_total request n outcome Hfits) as [token Ht].
    rewrite Ht. cbn. eexists. split; [done|]. cbn. repeat (split; [done|]).
    intros r2 Hsame. rewrite (encoded_token_decodes _ _ _ _ _ Ht Hsame Hpf Hfits).
    unfold decoded_after, position_after, outcome. cbn. rewrite last_app, Hn, Ec, Eu. done.
  - apply lookup_ge_None in Ex. rewrite (proj2 (Nat.ltb_ge _ _)) by lia. cbn [andb].
    eexists. split; [done|]. cbn. by repeat (split; [done|]).
Qed.

(** ** Following the continuations *)

Definition with_operation (request : CatalogRequest) (operation : OperationId) : CatalogRequest :=
  catalog_request_with_identity request
    {| ri_profile_id := ri_profile_id (cr_identity request);
       ri_profile_generation := ri_profile_generation (cr_identity request); ri_operation_id := operation |}.

(** Submit a request as a new operation, show its page, and load more while the
    branch has a continuation. *)
Fixpoint browse (fuel : nat) (s : MySqlExplorerState) (request : CatalogRequest) (operation : OperationId) :
    option (result DriverError MySqlExplorerState) :=
  match fuel with
  | 0 => None
  | S fuel =>
      let request := with_operation request operation in
      let s := mark_submitted s request in
      match load_page server db request key now false with
      | Err e => Some (Err e)
      | Ok page =>
          let s := handle_loaded s page in
          match ex_branches s !! branch_for_request request with
          | Some branch =>
              match cb_continuation branch with
              | Some next => browse fuel s next (operation + 1)%N
              | None => Some (Ok s)
              end
          | None => Some (Ok s)
          end
      end
  end.

Lemma same_listing_operation request operation : same_listing request (with_operation request operation).
Proof using Type. by destruct request. Qed.

Lemma same_listing_token request token : same_listing request (request_with_page_token request token).
Proof using Type. by destruct request. Qed.

Lemma same_listing_trans r1 r2 r3 : same_listing r1 r2 -> same_listing r2 r3 -> same_listing r1 r3.
Proof using Type. unfold same_listing. intros. naive_solver congruence. Qed.

Lemma same_listing_cases r1 r2 :
  same_listing r1 r2 ->
  branch_for_request r2 = branch_for_request r1 /\ cr_page_size r2 = cr_page_size r1 /\
  (forall xs, position_after r2 xs = position_after r1 xs) /\
  (forall nodes, Listing server db r1 nodes -> Listing server db r2 nodes).
Proof using Type.
  intros (_ & _ & El & Ep & Epre & Es). destruct r1, r2; try discriminate El; cbn in Ep, Epre, Es; subst.
  - split; [done|]. split; [done|]. split; [done|]. by intros nodes [].
  - injection Ep as <-. split; [done|]. split; [done|]. split; [done|]. by intros nodes [].
  - injection Ep as <- <-. split; [done|]. split; [done|]. split; [done|]. by intros nodes [].
Qed.

Lemma validate_operation request operation :
  CatalogRequest_validate (with_operation request operation) = CatalogRequest_validate request.
Proof using Type. by destruct request. Qed.

Lemma validate_token request token :
  CatalogRequest_validate request = Ok tt -> token <> [] ->
  CatalogRequest_validate (request_with_page_token request token) = Ok tt.
Proof using Type.
  intros Hv Ht. destruct request; cbn in *; unfold CatalogRequest_validate in *; cbn in *;
    rewrite (bool_decide_eq_false_2 (token = [])) by done; by repeat (case_match; try done).
Qed.

Lemma decode_nonempty request token d : decode_page_token request token key = Ok d -> token <> [].
Proof using Type. by intros E ->. Qed.

Lemma validate_page_size request : CatalogRequest_validate request = Ok tt -> (0 < cr_page_size request)%N.
Proof using Type. unfold CatalogRequest_validate. destruct (cr_page_size request =? 0)%N eqn:E; [done|lia]. Qed.

(** What the explorer's branches hold outside one branch. *)
Definition elsewhere (s : MySqlExplorerState) (k : BranchKey) : list CatalogNode :=
  held_in (delete k (ex_branches s)).

(** The page of the pending request of a branch joins it. *)
Lemma handle_loaded_page s request page xs :
  Explorer_ok s ->
  let k := branch_for_request request in
  (cr_page_token request = None /\ xs = [] \/
   is_Some (cr_page_token request) /\ cb_nodes <$> ex_branches s !! k = Some xs) ->
  cp_identity page = cr_identity request -> cp_level page = cr_level request ->
  cp_parent page = request_parent request -> cp_truncated page = false ->
  NoDup (identities (elsewhere s k ++ xs ++ cp_nodes page)) ->
  Within CatalogRetention_default (elsewhere s k ++ xs ++ cp_nodes page) ->
  exists r, handle_loaded (mark_submitted s request) page =
    {| ex_prefix := ex_prefix s;
       ex_branches := <[k := {| cb_nodes := xs ++ cp_nodes page;
                                cb_continuation := request_with_page_token request <$> cp_next_token page;
                                cb_truncated := false; cb_stale := false |}]> (ex_branches s);
       ex_expanded_schemas := ex_expanded_schemas s; ex_expanded_relations := ex_expanded_relations s;
       ex_pending := delete (ri_operation_id (cr_identity request)) (ex_pending s);
       ex_retry := None; ex_last_error := None; ex_retention := r |}.
Proof using Type.
  intros Hok k Hxs Eid Elev Epar Etr Hnd Hw.
  assert (Hk : for_page page = Some k).
  { unfold for_page. rewrite Elev, Epar. by destruct request. }
  unfold handle_loaded. rewrite Eid, Hk. cbn. rewrite lookup_insert_eq. cbn.
  rewrite bool_decide_eq_true_2 by done. cbn [negb]. rewrite delete_insert_eq.
  set (append := match cr_page_token request with Some _ => true | None => false end).
  pose proof (retention_ready s k append Hok) as Hr. fold (elsewhere s k) in Hr.
  assert (Exs : (if append then cb_nodes (default CatalogBranch_default (ex_branches s !! k)) else []) = xs).
  { unfold append. destruct Hxs as [[-> ->]|[[t ->] E]]; [done|].
    destruct (ex_branches s !! k) as [branch|]; cbn in *; congruence. }
  rewrite Exs in Hr |- *. unfold retention_retain.
  destruct (retain_loop _ (cp_nodes page)) as [[accepted refused] r] eqn:El.
  apply (retain_loop_spec _ _ _ _ _ _ _ Hr) in El as [Hret _].
  assert (Hp : (xs ++ elsewhere s k) ++ cp_nodes page ≡ₚ elsewhere s k ++ xs ++ cp_nodes page).
  { by rewrite (assoc (++)), (comm (++) xs). }
  rewrite <-Hp in Hw. unfold identities in Hnd. rewrite <-Hp in Hnd.
  destruct (Retains_within _ _ _ _ _ Hret Hw Hnd) as [-> ->]. rewrite Etr.
  exists r. by destruct (cp_next_token page).
Qed.

(** Where a request resumes its listing: at the start, or after the nodes its branch
    already shows. *)
Definition resumes (s : MySqlExplorerState) (request : CatalogRequest) (xs : list CatalogNode) : Prop :=
  match cr_page_token request with
  | None => xs = []
  | Some token =>
      cb_nodes <$> ex_branches s !! branch_for_request request = Some xs /\
      forall r2, same_listing request r2 -> decode_page_token r2 token key = Ok (position_after request xs)
  end.

(** One page: what is left of the listing, and where the continuation resumes. *)
Lemma browse_page s request operation xs ys :
  let k := branch_for_request request in
  let size := N.to_nat (cr_page_size request) in
  Explorer_ok s -> CatalogRequest_validate request = Ok tt -> Listing server db request (xs ++ ys) ->
  resumes s request xs ->
  NoDup (identities (elsewhere s k ++ xs ++ ys)) ->
  Within CatalogRetention_default (elsewhere s k ++ xs ++ ys) ->
  let request' := with_operation request operation in
  exists page s', load_page server db request' key now false = Ok page /\
    handle_loaded (mark_submitted s request') page = s' /\ Explorer_ok s' /\
    ex_branches s' =
      <[k := {| cb_nodes := xs ++ take size ys;
                cb_continuation := request_with_page_token request' <$> cp_next_token page;
                cb_truncated := false; cb_stale := false |}]> (ex_branches s) /\
    match cp_next_token page with
    | None => length ys <= size
    | Some token => size < length ys /\
        forall r2, same_listing request r2 ->
          decode_page_token r2 token key = Ok (position_after request (xs ++ take size ys))
    end.
Proof.
  intros k size Hok Hv Hl Hres Hnd Hw request'.
  pose proof (same_listing_operation request operation) as Hsame. fold request' in Hsame.
  destruct (same_listing_cases _ _ Hsame) as (Ek & Esize & Epos & Hlist).
  specialize (Hlist _ Hl). fold k in Ek.
  assert (Hd : match cr_page_token request' with
               | Some token => decode_page_token request' token key
               | None => Ok first_position
               end = Ok (position_after request' xs)).
  { rewrite Epos. unfold resumes in Hres.
    replace (cr_page_token request') with (cr_page_token request) by by destruct request.
    destruct (cr_page_token request) as [token|]; [by apply Hres|]. subst xs. by destruct request. }
  pose proof (load_page_fetches request' _ _ ltac:(by unfold request'; rewrite validate_operation) Hlist Hd) as Hload.
  rewrite (listing_left _ _ _ _ _ Hlist) in Hload.
  assert (Hpart : exists zs, elsewhere s k ++ xs ++ ys ≡ₚ (xs ++ ys) ++ zs)
    by (exists (elsewhere s k); by rewrite (comm (++))).
  destruct Hpart as [zs Hzs].
  assert (Hnd2 : NoDup (identities (xs ++ ys))).
  { unfold identities in *. rewrite Hzs, fmap_app in Hnd. by apply NoDup_app in Hnd as (? & _). }
  assert (Hw2 : Within CatalogRetention_default (xs ++ ys)) by (rewrite Hzs in Hw; by eapply Within_app).
  destruct (finish_page_listing request' xs ys) as (page & Hp & P1 & P2 & P3 & P4 & P5 & P6);
    [rewrite Esize; by apply validate_page_size|by eapply ls_listed|done|done|].
  rewrite Esize in *. fold size in Hload, Hp, P4, P6.
  exists page. eexists. split; [by rewrite Hload|]. split; [done|].
  split; [apply handle_loaded_ok; by apply (Explorer_ok_same s)|].
  assert (Hpre : elsewhere s k ++ xs ++ ys = (elsewhere s k ++ xs ++ take size ys) ++ drop size ys).
  { by rewrite <-!(assoc (++)), take_drop. }
  rewrite Hpre in Hnd, Hw.
  destruct (handle_loaded_page s request' page xs Hok) as [r Hr]; rewrite ?Ek, ?P4; try done.
  - unfold resumes in Hres. replace (cr_page_token request') with (cr_page_token request) by by destruct request.
    destruct (cr_page_token request) as [token|]; [right|by left]. split; [by eexists|apply Hres].
  - unfold identities in *. rewrite fmap_app in Hnd. by apply NoDup_app in Hnd as (? & _).
  - by eapply Within_app.
  - rewrite Hr. cbn. rewrite Ek, P4. split; [done|].
    destruct (cp_next_token page) as [token|]; [|done]. destruct P6 as [Hlen Hdec]. split; [done|].
    intros r2 Hs2. rewrite <-Epos. apply Hdec.
    apply (same_listing_trans _ request); [|done]. unfold same_listing in *. naive_solver congruence.
Qed.

(** Following the continuations shows the rest of the listing. *)
Lemma browse_rest fuel s request operation xs ys :
  let k := branch_for_request request in
  length ys < fuel ->
  Explorer_ok s -> CatalogRequest_validate request = Ok tt -> Listing server db request (xs ++ ys) ->
  resumes s request xs ->
  NoDup (identities (elsewhere s k ++ xs ++ ys)) ->
  Within CatalogRetention_default (elsewhere s k ++ xs ++ ys) ->
  exists s', browse fuel s request operation = Some (Ok s') /\
    ex_branches s' = <[k := {| cb_nodes := xs ++ ys; cb_continuation := None; cb_truncated := false;
                               cb_stale := false |}]> (ex_branches s).
Proof.
  revert s request operation xs ys.
  induction fuel as [|fuel IH]; intros s request operation xs ys k Hf Hok Hv Hl Hres Hnd Hw; [lia|].
  destruct (browse_page s request operation xs ys Hok Hv Hl Hres Hnd Hw)
    as (page & s1 & Hload & Hs1 & Hok1 & Hbr & Hnext). fold k in Hbr.
  set (request' := with_operation request operation) in *. set (size := N.to_nat (cr_page_size request)) in *.
  destruct (same_listing_cases _ _ (same_listing_operation request operation)) as (Ek & Esize & Epos & Hlist).
  fold k request' in Ek. fold request' in Esize, Epos, Hlist.
  cbn [browse]. fold request'. rewrite Hload, Hs1, Ek, Hbr, lookup_insert_eq. cbn [cb_continuation].
  destruct (cp_next_token page) as [token|]; cbn [fmap option_fmap option_map].
  - destruct Hnext as [Hlen Hdec].
    pose proof (same_listing_token request' token) as Htok.
    assert (Hsame : same_listing request (request_with_page_token request' token))
      by (eapply same_listing_trans; [apply same_listing_operation|exact Htok]).
    destruct (same_listing_cases _ _ Hsame) as (Ek2 & Esize2 & Epos2 & Hlist2). fold k in Ek2.
    assert (Helse : elsewhere s1 k = elsewhere s k).
    { unfold elsewhere. by rewrite Hbr, delete_insert_eq. }
    pose proof (validate_page_size _ Hv) as Hsz.
    destruct (IH s1 (request_with_page_token request' token) (operation + 1)%N (xs ++ take size ys) (drop size ys))
      as (s' & Hb & Hbr'); rewrite ?Ek2, ?Helse, <-?(assoc (++)), ?take_drop; try done.
    + rewrite length_drop. lia.
    + apply validate_token; [by unfold request'; rewrite validate_operation|]. eapply decode_nonempty. by apply (Hdec request).
    + by apply Hlist2.
    + unfold resumes. rewrite Ek2, Hbr, lookup_insert_eq, Epos2.
      replace (cr_page_token _) with (Some token) by by destruct request.
      split; [done|]. intros r2 Hr2. apply Hdec. by eapply same_listing_trans.
    + exists s'. split; [done|]. rewrite Hbr', Ek2, Hbr, insert_insert_eq.
      by rewrite <-(assoc (++)), take_drop.
  - exists s1. split; [done|]. rewrite Hbr. by rewrite (take_ge ys size) by lia.
Qed.
End paging.

(** C32: Browsing a listing shows all of it. When the nodes the server has for a request fit the caps beside what the explorer already holds, submitting the request and loading more while a continuation is offered comes to an end, and the branch then shows exactly those nodes, in the server's order, without a truncation mark or a continuation; every other branch is as it was. *)
Theorem listing_browsed_whole `{TokenLaws} server db key now nodes s request operation :
  crates_total -> rtc ExplorerStep MySqlExplorerState_default s ->
  CatalogRequest_validate request = Ok tt -> cr_page_token request = None ->
  Listing server db request nodes ->
  NoDup (identities (elsewhere s (branch_for_request request) ++ nodes)) ->
  Within CatalogRetention_default (elsewhere s (branch_for_request request) ++ nodes) ->
  exists s', browse server db key now (S (length nodes)) s request operation = Some (Ok s') /\
    ex_branches s' = <[branch_for_request request :=
                         {| cb_nodes := nodes; cb_continuation := None; cb_truncated := false;
                            cb_stale := false |}]> (ex_branches s).
Proof.
  intros Htotal Hs%explorer_reached_ok Hv Ht Hl Hnd Hw.
  apply (browse_rest Htotal server db key now (S (length nodes)) s request operation [] nodes); try done.
  - lia.
  - unfold resumes. by rewrite Ht.
Qed.

(** ** A table of three columns *)

Definition sample_columns : list CatalogNode := [sample_node "a" 1; sample_node "b" 2; sample_node "c" 3].

Definition sample_row (n : CatalogNode) : list SqlValue :=
  [SvText (cn_name n); SvText (default [] (cn_type_name n)); SvText (lit "NO"); SvU32 (ordinal_of n)].

Definition sample_server : MysqlServer := {|
  ms_acquire := Ok tt;
  ms_prepare := fun _ => Ok tt;
  ms_fetch := fun _ arguments =>
    match arguments with
    | [_; _; _; _; _; BindU32 ordinal; _; BindText (Some name); BindU32 limit] =>
        let d := {| dk_last_name := name; dk_last_ordinal := Some ordinal;
                    dk_counts := CatalogRetainedCounts_default; dk_utf8_bytes := 0 |} in
        ((fun row => Ok (FetchedRow row)) <$>
           (sample_row <$> take (N.to_nat limit) (List.filter (after (sample_request 1 None) d) sample_columns)))
          ++ [Ok Finished]
    | _ => []
    end;
|}.

Lemma sample_listing : Listing sample_server None (sample_request 1 None) sample_columns.
Proof.
  assert (Hrow : Forall (fun n => column_node (lit "app") (lit "users") (sample_row n) = Ok n) sample_columns)
    by by repeat constructor.
  split; try done.
  - intros d limit. eexists. split; [reflexivity|].
    apply Forall2_fmap_l. apply Forall_Forall2_diag, Forall_take, List.Forall_forall.
    intros n [Hn _]%List.filter_In. cbn [listing_node sample_request].
    by apply (proj1 (List.Forall_forall _ _) Hrow).
  - apply StronglySorted_cons. split; [by repeat constructor|].
    apply StronglySorted_cons. split; [by repeat constructor|]. by repeat constructor.
  - apply (bool_decide_unpack _). reflexivity.
  - unfold sample_columns. rewrite !Forall_cons, Forall_nil.
    split; [|split; [|split; [|done]]]; (split; [done|eexists; by split]).
Qed.

Lemma elsewhere_default k : elsewhere MySqlExplorerState_default k = [].
Proof. unfold elsewhere, held_in. cbn [ex_branches MySqlExplorerState_default]. by rewrite delete_empty, map_to_list_empty. Qed.

Lemma listing_browsed_whole_witness :
  exists s', browse sample_server None sample_key [] 4 MySqlExplorerState_default (sample_request 1 None) 9
             = Some (Ok s') /\
    cb_nodes <$> ex_branches s' !! KeyColumns (lit "app") (lit "users") = Some sample_columns.
Proof.
  destruct (listing_browsed_whole sample_server None sample_key [] sample_columns MySqlExplorerState_default
              (sample_request 1 None) 9) as (s' & Hb & Hs').
  - split; intros; by eexists.
  - apply rtc_refl.
  - reflexivity.
  - reflexivity.
  - apply sample_listing.
  - rewrite elsewhere_default. apply (bool_decide_unpack _). reflexivity.
  - rewrite elsewhere_default. cbn [app]. split; [done..|]. intros k.
    assert (Hk : (total (column_of_weight k) sample_columns <= total column_weight sample_columns)%N)
      by apply column_of_total.
    unfold columns_of. change (total column_weight sample_columns) with 3%N in Hk. cbn [rt_columns_by_relation CatalogRetention_default].
    rewrite lookup_empty. cbn [default]. unfold_caps. lia.
  - exists s'. split; [exact Hb|]. by rewrite Hs', lookup_insert_eq.
Defined.
