(* ===== verification/CatalogTemplate.v ===== *)
(** * The SELECT a relation offers (theorems on MysqlCatalog.bounded_select_template)

    The template names its relation whatever the names contain, and the execution
    target scanner of Execution reads it as one statement unless a name holds a
    backslash. *)

From S2P Require Import Prelude RustStr Model Execution MysqlLex Scanner Statements MysqlCatalog.

(** ** MySQL's reading of a quoted name: a doubled backtick stands for one *)

Fixpoint read_quoted (s : str) : option (str * str) :=
  match s with
  | [] => None
  | c :: s1 =>
      if (c =? 96)%N then
        match s1 with
        | e :: s2 =>
            if (e =? 96)%N then '(name, rest) ← read_quoted s2; Some (c :: name, rest) else Some ([], s1)
        | [] => Some ([], s1)
        end
      else '(name, rest) ← read_quoted s1; Some (c :: name, rest)
  end.

Definition read_identifier (s : str) : option (str * str) :=
  match s with c :: s => if (c =? 96)%N then read_quoted s else None | [] => None end.

Definition strip (p s : str) : option str := if starts_with p s then Some (drop (length p) s) else None.

(** The relation a bounded SELECT reads from. *)
Definition read_template (s : str) : option (str * str) :=
  s ← strip (lit "SELECT * FROM ") s;
  '(schema, s) ← read_identifier s;
  s ← strip (lit ".") s;
  '(relation, s) ← read_identifier s;
  if bool_decide (s = lit " LIMIT 500") then Some (schema, relation) else None.

(** A text that does not start with a backtick. *)
Definition no_backtick_head (s : str) : Prop := head s <> Some 96%N.

Lemma read_quoted_doubled name rest :
  no_backtick_head rest -> read_quoted (double_backticks name ++ 96%N :: rest) = Some (name, rest).
Proof.
  intros Hr. induction name as [|c name IH]; cbn.
  - destruct rest as [|e rest]; [done|]. destruct (N.eqb_spec e 96) as [->|]; [by destruct Hr|done].
  - destruct (N.eqb_spec c 96) as [->|Hc]; cbn.
    + by rewrite IH.
    + apply N.eqb_neq in Hc. by rewrite Hc, IH.
Qed.

Lemma read_identifier_quoted name rest :
  no_backtick_head rest -> read_identifier (quote_mysql_identifier name ++ rest) = Some (name, rest).
Proof.
  intros Hr. unfold quote_mysql_identifier, read_identifier. cbn [lit app]. rewrite <-(assoc (++)).
  by apply read_quoted_doubled.
Qed.

Lemma starts_with_app p s : starts_with p (p ++ s) = true.
Proof. induction p as [|c p IH]; cbn; [done|]. by rewrite N.eqb_refl. Qed.

Lemma strip_app p s : strip p (p ++ s) = Some s.
Proof. unfold strip. by rewrite starts_with_app, drop_app_length. Qed.

Lemma template_read schema relation : read_template (bounded_select_template schema relation) = Some (schema, relation).
Proof.
  unfold read_template, bounded_select_template. rewrite strip_app. cbn [mbind option_bind].
  rewrite read_identifier_quoted by done. cbn [mbind option_bind]. rewrite strip_app. cbn [mbind option_bind].
  rewrite read_identifier_quoted by done. cbn [mbind option_bind]. by rewrite bool_decide_eq_true_2.
Qed.

(** ** The scanner's reading *)

(** Characters that are a token of their own wherever they stand. *)
Definition plain (c : char) : bool := negb (existsb (N.eqb c) [35; 45; 47; 39; 34; 96; 59]%N).

Definition plain_token (c : char) : Token :=
  {| tk_kind := if is_whitespace c then KBlank else KChar; tk_text := [c] |}.

Lemma next_token_plain c s : plain c = true -> next_token (c :: s) = Some (plain_token c).
Proof.
  unfold plain. cbn [existsb]. rewrite negb_true_iff, !orb_false_iff, !N.eqb_neq.
  intros (H1 & H2 & H3 & H4 & H5 & H6 & H7 & _). unfold next_token.
  assert (Hd : dash_comment (c :: s) = false).
  { destruct s as [|b [|e s]]; try done. cbn. by rewrite (proj2 (N.eqb_neq c 45) H2). }
  rewrite Hd, (proj2 (N.eqb_neq c 35) H1), (proj2 (N.eqb_neq c 47) H3), (proj2 (N.eqb_neq c 59) H7). cbn [orb andb].
  unfold is_quote. rewrite (proj2 (N.eqb_neq c 39) H4), (proj2 (N.eqb_neq c 34) H5), (proj2 (N.eqb_neq c 96) H6).
  cbn. unfold plain_token. by destruct (is_whitespace c).
Qed.

Lemma Lexed_plain p s ts rest :
  Forall (fun c => plain c = true) p -> Lexed s ts rest -> Lexed (p ++ s) ((plain_token <$> p) ++ ts) rest.
Proof.
  intros Hp HL. induction Hp as [|c p Hc _ IH]; [done|].
  apply (Lexed_cons (plain_token c) (p ++ s)); [by apply next_token_plain|done].
Qed.

(** A quoted name without a backslash is one token of the scanner. *)
Lemma quoted_body_doubled name rest :
  92%N ∉ name -> no_backtick_head rest ->
  quoted_body 96 (double_backticks name ++ 96%N :: rest) = Some (double_backticks name ++ [96%N], false).
Proof.
  intros Hb Hr. induction name as [|c name IH]; cbn.
  - destruct rest as [|e rest]; [done|]. destruct (N.eqb_spec e 96) as [->|]; [by destruct Hr|done].
  - apply not_elem_of_cons in Hb as [Hc Hb]. specialize (IH Hb).
    destruct (N.eqb_spec c 96) as [->|Hq]; cbn.
    + by rewrite IH.
    + rewrite (proj2 (N.eqb_neq c 92)) by congruence. apply N.eqb_neq in Hq. by rewrite Hq, IH.
Qed.

Definition quoted_token (name : str) : Token :=
  {| tk_kind := KQuoted false false; tk_text := quote_mysql_identifier name |}.

Lemma Lexed_quoted name s ts rest :
  92%N ∉ name -> no_backtick_head s -> Lexed s ts rest ->
  Lexed (quote_mysql_identifier name ++ s) (quoted_token name :: ts) rest.
Proof.
  intros Hb Hs HL. apply (Lexed_cons (quoted_token name) s); [|done].
  cbn [tk_text quoted_token]. unfold quote_mysql_identifier.
  change (lit "`") with [96%N]. rewrite <-!(assoc (++)). cbn [app]. unfold next_token.
  assert (Hd : dash_comment (96%N :: double_backticks name ++ 96%N :: s) = false).
  { by destruct (double_backticks name ++ _) as [|? [|? ?]]. }
  rewrite Hd. cbn [N.eqb Pos.eqb orb andb is_quote]. by rewrite quoted_body_doubled.
Qed.

Lemma template_validates schema relation :
  92%N ∉ schema -> 92%N ∉ relation ->
  validate_mysql_selection (bounded_select_template schema relation) = Some (Ok tt).
Proof.
  intros H1 H2. eapply single_statement_validates.
  - unfold bounded_select_template. apply Lexed_plain; [by repeat constructor|].
    apply Lexed_quoted; [done|done|]. apply Lexed_plain; [by repeat constructor|].
    apply Lexed_quoted; [done|done|].
    rewrite <-(app_nil_r (lit " LIMIT 500")). apply Lexed_plain; [by repeat constructor|constructor].
  - apply statement_alone.
    set (tail := removelast (plain_token <$> lit " LIMIT 500")).
    exists (plain_token 83), ((plain_token <$> lit "SELECT * FROM ") ++ quoted_token schema ::
             (plain_token <$> lit ".") ++ quoted_token relation :: tail), (plain_token 48).
    split; [done|]. split; [done|]. split; [|split; [|done]].
    + rewrite app_nil_r, <-!(assoc (++)). cbn [app]. rewrite <-!(assoc (++)). done.
    + rewrite !Forall_app, !Forall_cons, !Forall_app, !Forall_cons. by repeat split; repeat constructor.
Qed.

(** The SELECT the catalog inserts for a relation reads back, by MySQL's quoting rule, as exactly that schema and relation whatever characters their names contain; and the program's own target scanner accepts it as one statement when neither name holds a backslash. With a backslash before a closing backtick it does not: the scanner takes the backslash as an escape inside backticks, so the editor refuses to run the template of such a relation. *)
Theorem template_reads_back schema relation :
  read_template (bounded_select_template schema relation) = Some (schema, relation) /\
  (92%N ∉ schema -> 92%N ∉ relation ->
   validate_mysql_selection (bounded_select_template schema relation) = Some (Ok tt)) /\
  validate_mysql_selection (bounded_select_template (lit "app") (lit "log\")) <> Some (Ok tt).
Proof.
  split; [apply template_read|]. split; [apply template_validates|]. by vm_compute.
Qed.

Lemma template_reads_back_witness :
  validate_mysql_selection (bounded_select_template (lit "app") (lit "odd`name")) = Some (Ok tt).
Proof.
  apply template_reads_back; apply (bool_decide_unpack _); reflexivity.
Defined.
