(* ===== verification/ExportSpec.v ===== *)
(** * What the exporters write

    The text each format stands for, and the refinement: on every writer the
    streaming encoders write a prefix of that text, all of it when they succeed,
    and on a writer that keeps accepting bytes they do succeed. *)

From S2P Require Import Prelude RustStr Model Retention Export.

(** ** The texts *)

Definition csv_field (field : str) : str :=
  if csv_quoted field then [34%N] ++ (field ≫= fun c => if (c =? 34)%N then [34%N; 34%N] else [c]) ++ [34%N]
  else field.

Definition csv_record (fields : list str) : str :=
  separated [44%N] (csv_field <$> fields) ++ [13%N; 10%N].

Definition tsv_record (fields : list str) : str :=
  separated [9%N] (tsv_field <$> fields) ++ [10%N].

(** Rows up to the first one of the wrong width. *)
Fixpoint rows_text (width : nat) (record : nat -> list Cell -> str) (index : nat)
    (rows : list (list Cell)) : str * result ExportEncodeError unit :=
  match rows with
  | [] => ([], Ok tt)
  | row :: rows =>
      if length row =? width then
        let '(text, r) := rows_text width record (S index) rows in (record index row ++ text, r)
      else ([], Err InvalidRowWidth)
  end.

Section texts.
Context (fmt : Formats).

Definition table_text (record : list str -> str) (sn : ResultSnapshot) :
    str * result ExportEncodeError unit :=
  if bool_decide (length (sn_columns sn) = 0) then ([], Err TabularResultRequired)
  else
    let '(text, r) := rows_text (length (sn_columns sn))
                        (fun _ row => record (clipboard_scalar fmt <$> row)) 0 (sn_rows sn) in
    (record (col_name <$> sn_columns sn) ++ text, r).

Definition string_cell_text (cell_type value : str) : str :=
  jlit "{'type':" ++ json_string cell_type ++ jlit ",'value':" ++ json_string value ++ jlit "}".

Definition preview_text (type : string) (preview : str) (original_len : N) : str :=
  jlit type ++ json_string preview ++ jlit ",'original_len':" ++ display_N original_len
    ++ jlit ",'truncated':true}".

Definition json_cell_text (cell : Cell) : str :=
  match cell with
  | CNull => jlit "{'type':'null'}"
  | CBool value => jlit "{'type':'bool','value':" ++ display_bool value ++ jlit "}"
  | CInt value => string_cell_text (lit "int") (display_Z value)
  | CUInt value => string_cell_text (lit "uint") (display_N value)
  | CFloat value => string_cell_text (lit "float") (canonical_float fmt value)
  | CDecimal value => string_cell_text (lit "decimal") (canonical_decimal fmt value)
  | CText value => string_cell_text (lit "text") value
  | CTextPreview preview n => preview_text "{'type':'text','value':" preview n
  | CBytes retained n =>
      jlit "{'type':'bytes','value':{'base64':" ++ json_string (base64_encode fmt retained)
        ++ jlit ",'original_len':" ++ display_N n ++ jlit ",'truncated':"
        ++ display_bool (N.of_nat (length retained) <? n)%N ++ jlit "}}"
  | CJson value => jlit "{'type':'json','value':" ++ canonical_json value ++ jlit "}"
  | CJsonPreview preview n => preview_text "{'type':'json_preview','value':" preview n
  | CDateTime value => string_cell_text (lit "datetime") (normalize_datetime fmt value)
  end.

Definition json_column_text (index : nat) (column : Column) : str :=
  (if index =? 0 then [] else [44%N]) ++
  jlit "{'index':" ++ display_N (N.of_nat index) ++ jlit ",'name':" ++ json_string (col_name column)
    ++ jlit ",'type_name':" ++ json_string (col_type_name column) ++ jlit "}".

Definition json_row_text (index : nat) (row : list Cell) : str :=
  (if index =? 0 then [] else [44%N]) ++
  jlit "[" ++ separated [44%N] (json_cell_text <$> row) ++ jlit "]".

Definition json_head_text (sn : ResultSnapshot) (completed_at : str) : str :=
  let p := sn_provenance sn in
  jlit "{'schema':'dbotter.result.v1','provenance':{'operation_id':"
    ++ display_N (rp_operation_id p)
    ++ jlit ",'profile_id':" ++ json_string (rp_profile_id p)
    ++ jlit ",'profile_generation':" ++ display_N (rp_profile_generation p)
    ++ jlit ",'driver':" ++ json_string (DriverKind_display (rp_driver p))
    ++ jlit ",'completed_at':" ++ json_string completed_at
    ++ jlit ",'elapsed_ms':" ++ display_N (rp_duration_ms p)
    ++ jlit "},'columns':[" ++ concat (imap json_column_text (sn_columns sn))
    ++ jlit "],'rows':[".

Definition json_tail_text (sn : ResultSnapshot) : str :=
  jlit "],'affected_rows':" ++ display_N (sn_affected_rows sn)
    ++ jlit ",'last_insert_id':"
    ++ match sn_last_insert_id sn with Some v => display_N v | None => lit "null" end
    ++ jlit ",'truncated':" ++ display_bool (sn_truncated sn) ++ jlit "}".

Definition json_text (sn : ResultSnapshot) : str * result ExportEncodeError unit :=
  match timestamp_millis_rfc3339 fmt (rp_completed_at_unix_ms (sn_provenance sn)) with
  | None => ([], Err InvalidCompletedAt)
  | Some completed_at =>
      match rows_text (length (sn_columns sn)) json_row_text 0 (sn_rows sn) with
      | (text, Ok _) => (json_head_text sn completed_at ++ text ++ json_tail_text sn, Ok tt)
      | (text, Err e) => (json_head_text sn completed_at ++ text, Err e)
      end
  end.

(** The text of an export and how its encoding ends. *)
Definition export_text (sn : ResultSnapshot) (format : ExportFormat) :
    str * result ExportEncodeError unit :=
  match format with
  | Csv => table_text csv_record sn
  | Tsv => table_text tsv_record sn
  | Json => json_text sn
  end.
End texts.

(** ** The encoders write their text *)

(** A writer that accepts something on every call and is never cancelled. *)
Definition reliable (k : Sink) : Prop :=
  (forall buf s, buf <> [] -> exists n s', sink_write k buf s = (Ok (S n), s')) /\
  (forall s, exists s', sink_cancelled k s = (false, s')).

Section refinement.
Context (k : Sink) (Hk : sink_laws k) (interrupts : nat).
Local Abbreviation accepted w := (sink_accepted k (sw_inner k w)).

(** [m] writes [text] and ends with [r]: on any writer it writes a prefix, the
    whole text unless the writer failed, and on a reliable one it finishes. *)
Record Writes {A} (m : M k A) (text : str) (r : result ExportEncodeError A) : Prop := {
  writes_safe : forall w r' w', m w = Some (r', w') ->
    (r' = r /\ accepted w' = accepted w ++ encode text /\ sw_cancelled k w' = sw_cancelled k w) \/
    (exists e p, r' = Err (ExportIo e) /\ p `prefix_of` encode text /\
                 accepted w' = accepted w ++ p);
  writes_live : reliable k -> forall w, exists w',
    m w = Some (r, w') /\ accepted w' = accepted w ++ encode text /\
    sw_cancelled k w' = sw_cancelled k w;
}.

Lemma stream_write_spec buf w r w' :
  stream_write k buf w = (r, w') ->
  match r with
  | Ok n => n <= length buf /\ accepted w' = accepted w ++ take n buf /\
            sw_cancelled k w' = sw_cancelled k w
  | Err e => accepted w' = accepted w /\
             (e = IoInterrupted -> sw_cancelled k w' = sw_cancelled k w)
  end.
Proof.
  unfold stream_write. destruct (sink_cancelled k (sw_inner k w)) as [b s1] eqn:Hc.
  apply (cancel_quiet k Hk) in Hc. destruct b; [by intros [= <- <-]|].
  destruct (sink_write k _ s1) as [[n|e] s2] eqn:Hw; intros [= <- <-]; cbn.
  - apply (write_takes k Hk) in Hw as [Hn Hacc]. rewrite length_take in Hn.
    rewrite Hacc, Hc, take_take. split_and!; [lia|do 2 f_equal; lia|done].
  - apply (write_fails k Hk) in Hw. split; [congruence|done].
Qed.

Lemma stream_write_reliable buf w :
  reliable k -> buf <> [] -> exists n w', stream_write k buf w = (Ok (S n), w').
Proof.
  intros [Hw Hc] Hb. unfold stream_write. destruct (Hc (sw_inner k w)) as [s1 ->].
  destruct (Hw (take (length buf `min` STREAM_CHUNK_BYTES) buf) s1) as (n & s2 & ->); [|eauto].
  intros E%(f_equal length). rewrite length_take in E. destruct buf; [done|]. cbn in E. lia.
Qed.

Lemma write_all_loop_safe fuel buf w r w' :
  write_all_loop k fuel buf w = Some (r, w') ->
  (r = Ok tt /\ accepted w' = accepted w ++ buf /\ sw_cancelled k w' = sw_cancelled k w) \/
  (exists e p, r = Err (ExportIo e) /\ p `prefix_of` buf /\ accepted w' = accepted w ++ p).
Proof.
  revert buf w. induction fuel as [|fuel IH]; intros buf w.
  { destruct buf; [|done]. intros [= <- <-]. left. by rewrite (right_id_L [] (++)). }
  destruct buf as [|b buf]; [intros [= <- <-]; left; by rewrite (right_id_L [] (++))|].
  cbn [write_all_loop]. destruct (stream_write k (b :: buf) w) as [res w1] eqn:Hs.
  apply stream_write_spec in Hs. destruct res as [[|n]|e].
  - intros [= <- <-]. right. exists IoWriteZero, []. destruct Hs as (_ & Hs & _).
    split_and!; [done|apply prefix_nil|done].
  - destruct Hs as (_ & Hacc & Hcan). intros [(-> & Ha & Hc)|(e & p & -> & Hp & Ha)]%IH.
    + left. split_and!; [done| |congruence].
      by rewrite Ha, Hacc, <- (assoc (++)), take_drop.
    + right. exists e, (take (S n) (b :: buf) ++ p). split_and!; [done| |].
      * rewrite <- (take_drop (S n) (b :: buf)) at 2. by apply prefix_app.
      * by rewrite Ha, Hacc, <- (assoc (++)).
  - destruct Hs as [Hacc Hcan]. destruct e.
    2,3: intros [= <- <-]; right; eexists _, []; rewrite (right_id_L [] (++));
         split_and!; [done|apply prefix_nil|done].
    rewrite <- Hacc, <- Hcan by done. apply IH.
Qed.

Lemma write_all_loop_live fuel buf w :
  reliable k -> length buf <= fuel -> exists w', write_all_loop k fuel buf w = Some (Ok tt, w').
Proof.
  intros Hr. revert buf w. induction fuel as [|fuel IH]; intros buf w Hf.
  { destruct buf; [by eexists|cbn in Hf; lia]. }
  destruct buf as [|b buf]; [by eexists|]. cbn [write_all_loop].
  destruct (stream_write_reliable (b :: buf) w Hr ltac:(done)) as (n & w1 & ->).
  apply IH. rewrite length_drop. cbn in *. lia.
Qed.

Lemma Writes_str s : Writes (write_str k interrupts s) s (Ok tt).
Proof.
  split.
  - intros w r' w'. apply write_all_loop_safe.
  - intros Hr w. destruct (write_all_loop_live (length (encode s) + interrupts) (encode s) w Hr)
      as (w' & E); [lia|]. exists w'. split; [done|].
    by apply write_all_loop_safe in E as [(_ & ? & ?)|(e & p & ? & _)].
Qed.

Lemma Writes_ret {A} (a : A) : Writes (mret a : M k A) [] (Ok a).
Proof.
  split; [|intros _ w; exists w; cbn; by rewrite (right_id_L [] (++))].
  intros w r' w' [= <- <-]. left. cbn. by rewrite (right_id_L [] (++)).
Qed.

Lemma Writes_fail {A} e : Writes (fail k e : M k A) [] (Err e).
Proof.
  split; [|intros _ w; exists w; cbn; by rewrite (right_id_L [] (++))].
  intros w r' w' [= <- <-]. left. cbn. by rewrite (right_id_L [] (++)).
Qed.

Lemma Writes_bind {A B} (m : M k A) (f : A -> M k B) s a t r :
  Writes m s (Ok a) -> Writes (f a) t r -> Writes (m ≫= f) (s ++ t) r.
Proof.
  intros [Hms Hml] [Hfs Hfl]. split.
  - intros w r' w'. unfold mbind, M_bind. rewrite encode_app.
    destruct (m w) as [[r1 w1]|] eqn:Hm; [|done].
    apply Hms in Hm as [(-> & Ha & Hc)|(e & p & -> & Hp & Ha)].
    + intros [(-> & Ha' & Hc')|(e & p & -> & Hp & Ha')]%Hfs.
      * left. split_and!; [done| |congruence]. by rewrite Ha', Ha, <- (assoc (++)).
      * right. exists e, (encode s ++ p). split_and!; [done|by apply prefix_app|].
        by rewrite Ha', Ha, <- (assoc (++)).
    + intros [= <- <-]. right. exists e, p. split_and!; [done| |done].
      by apply prefix_app_r.
  - intros Hr w. destruct (Hml Hr w) as (w1 & E1 & Ha & Hc).
    destruct (Hfl Hr w1) as (w2 & E2 & Ha' & Hc'). exists w2.
    unfold mbind, M_bind. rewrite E1. rewrite encode_app.
    split_and!; [done| |congruence]. by rewrite Ha', Ha, <- (assoc (++)).
Qed.

Lemma Writes_bind_nil {A B} (m : M k A) (f : A -> M k B) a t r :
  Writes m [] (Ok a) -> Writes (f a) t r -> Writes (m ≫= f) t r.
Proof. apply (Writes_bind m f []). Qed.

Lemma Writes_bind_err {A B} (m : M k A) (f : A -> M k B) s e :
  Writes m s (Err e) -> Writes (m ≫= f) s (Err e).
Proof.
  intros [Hms Hml]. split.
  - intros w r' w'. unfold mbind, M_bind. destruct (m w) as [[r1 w1]|] eqn:Hm; [|done].
    apply Hms in Hm as [(-> & Ha & Hc)|(e' & p & -> & Hp & Ha)]; intros [= <- <-];
      [by left|right; by exists e', p].
  - intros Hr w. destruct (Hml Hr w) as (w1 & E1 & Ha & Hc). exists w1.
    unfold mbind, M_bind. by rewrite E1.
Qed.

Lemma Writes_eq {A} (m : M k A) s t r : Writes m s r -> s = t -> Writes m t r.
Proof. by intros ? <-. Qed.

Lemma Writes_for_each {A} (f : nat -> A -> M k unit) (g : nat -> A -> str) i l :
  (forall i x, Writes (f i x) (g i x) (Ok tt)) ->
  Writes (for_each k f i l) (concat (imap (fun j => g (i + j)) l)) (Ok tt).
Proof.
  intros Hf. revert i. induction l as [|x l IH]; intros i; cbn; [apply Writes_ret|].
  eapply Writes_bind; [rewrite Nat.add_0_r; apply Hf|].
  eapply Writes_eq; [apply IH|]. f_equal. apply imap_ext. intros j y _. cbn. f_equal. lia.
Qed.

Lemma Writes_separator sep i :
  Writes (separator k interrupts sep i) (if i =? 0 then [] else sep) (Ok tt).
Proof. unfold separator. destruct (i =? 0); [apply Writes_ret|apply Writes_str]. Qed.

Lemma concat_imap_S {A} sep (g : A -> str) l n :
  concat (imap (fun j x => (if S n + j =? 0 then [] else sep) ++ g x) l)
  = (g <$> l) ≫= (fun i => sep ++ i).
Proof.
  revert n. induction l as [|x l IH]; intros n; cbn; [done|]. f_equal.
  rewrite <- (IH (S n)). f_equal.
Qed.

(** A loop that separates its items. *)
Lemma Writes_separated {A} sep (f : A -> M k unit) (g : A -> str) l :
  (forall x, Writes (f x) (g x) (Ok tt)) ->
  Writes (for_each k (fun i x => separator k interrupts sep i ;; f x) 0 l)
         (separated sep (g <$> l)) (Ok tt).
Proof.
  intros Hf. eapply Writes_eq.
  - apply (Writes_for_each _ (fun i x => (if i =? 0 then [] else sep) ++ g x)).
    intros i x. eapply Writes_bind; [apply Writes_separator|apply Hf].
  - destruct l as [|x l]; [done|]. cbn. f_equal. apply (concat_imap_S sep g l 0).
Qed.

(** Discharges a chain of writes leaf by leaf. *)
Local Ltac writes :=
  repeat lazymatch goal with
  | |- Writes (_ ≫= _) _ _ => eapply Writes_bind
  | |- Writes (write_str _ _ _) _ _ => apply Writes_str
  | |- Writes (write_json_string _ _ _) _ _ => apply Writes_str
  | |- Writes (separator _ _ _ _) _ _ => apply Writes_separator
  end.

Definition double_quotes (s : str) : str := s ≫= fun c => if (c =? 34)%N then [34%N; 34%N] else [c].

Lemma double_quotes_plain s : Forall (fun c => (34 =? c)%N = false) s -> double_quotes s = s.
Proof.
  induction 1 as [|c s Hc _ IH]; [done|]. unfold double_quotes in *. cbn.
  rewrite N.eqb_sym, Hc. cbn. by rewrite IH.
Qed.

Lemma Writes_quoted fuel s :
  length s <= fuel -> Writes (write_quoted k interrupts fuel s) (double_quotes s) (Ok tt).
Proof.
  revert s. induction fuel as [|fuel IH]; intros s Hf.
  { destruct s; [apply Writes_str|cbn in Hf; lia]. }
  cbn [write_quoted]. destruct (position (N.eqb 34) s) as [i|] eqn:Hp.
  - apply position_Some in Hp as (c & Hi & Hc & Hall). apply N.eqb_eq in Hc as <-.
    pose proof (lookup_lt_Some _ _ _ Hi) as Hlt.
    eapply Writes_eq; [writes; apply IH; rewrite length_drop; lia|].
    rewrite <- (take_drop_middle s i 34%N Hi) at 3.
    unfold double_quotes at 2. rewrite bind_app. fold (double_quotes (take i s)).
    rewrite (double_quotes_plain (take i s) Hall), Nat.add_1_r. done.
  - rewrite double_quotes_plain by (by apply position_None). apply Writes_str.
Qed.

Lemma Writes_csv_field field : Writes (write_csv_field k interrupts field) (csv_field field) (Ok tt).
Proof.
  unfold write_csv_field, csv_field. destruct (csv_quoted field); [|apply Writes_str].
  writes. by apply Writes_quoted.
Qed.

Context (fmt : Formats).

Lemma Writes_row_width sn row :
  Writes (require_row_width k sn row) []
    (if length row =? length (sn_columns sn) then Ok tt else Err InvalidRowWidth).
Proof.
  unfold require_row_width.
  destruct (length row =? length (sn_columns sn)); [apply Writes_ret|apply Writes_fail].
Qed.

Lemma Writes_rows sn (f : nat -> list Cell -> M k unit) (record : nat -> list Cell -> str) i rows :
  (forall i row, Writes (f i row) (record i row) (Ok tt)) ->
  let '(text, r) := rows_text (length (sn_columns sn)) record i rows in
  Writes (for_each k (fun i row => require_row_width k sn row ;; f i row) i rows) text r.
Proof.
  intros Hf. revert i. induction rows as [|row rows IH]; intros i; cbn; [apply Writes_ret|].
  pose proof (Writes_row_width sn row) as Hw.
  destruct (length row =? length (sn_columns sn)).
  - specialize (IH (S i)). destruct (rows_text _ _ (S i) rows) as [text r].
    eapply Writes_bind; [|exact IH].
    apply Writes_bind_nil with tt; [exact Hw|apply Hf].
  - do 2 apply Writes_bind_err. exact Hw.
Qed.

(** The two tabular encoders differ in their separator and fields only. *)
Lemma Writes_table sn sep eol (field : str -> M k unit) (text : str -> str)
    (record : list str -> str) :
  (forall s, Writes (field s) (text s) (Ok tt)) ->
  (forall fields, record fields = separated sep (text <$> fields) ++ eol) ->
  let '(text, r) := table_text fmt record sn in
  Writes (require_tabular k sn ;;
          for_each k (fun i column => separator k interrupts sep i ;; field (col_name column))
            0 (sn_columns sn) ;;
          write_str k interrupts eol ;;
          for_each k (fun _ row =>
            require_row_width k sn row ;;
            for_each k (fun i cell => separator k interrupts sep i ;; field (clipboard_scalar fmt cell))
              0 row ;;
            write_str k interrupts eol) 0 (sn_rows sn)) text r.
Proof.
  intros Hf Hrec. unfold table_text, require_tabular. case_bool_decide.
  { apply Writes_bind_err, Writes_fail. }
  pose proof (Writes_rows sn
    (fun _ row => for_each k (fun i cell => separator k interrupts sep i ;; field (clipboard_scalar fmt cell))
              0 row ;; write_str k interrupts eol)
    (fun _ row => record (clipboard_scalar fmt <$> row)) 0 (sn_rows sn)) as Hrows.
  destruct (rows_text _ _ _ _) as [rows r].
  apply Writes_bind_nil with tt; [apply Writes_ret|].
  rewrite Hrec, <- (assoc_L (++)). eapply Writes_bind.
  { rewrite <- list_fmap_compose. apply Writes_separated. intros c. apply Hf. }
  eapply Writes_bind; [apply Writes_str|]. apply Hrows. intros _ row. rewrite Hrec.
  eapply Writes_bind; [|apply Writes_str].
  rewrite <- list_fmap_compose. apply Writes_separated. intros c. apply Hf.
Qed.

Lemma Writes_string_cell cell_type value :
  Writes (write_string_cell k interrupts cell_type value) (string_cell_text cell_type value) (Ok tt).
Proof. unfold write_string_cell, string_cell_text. by writes. Qed.

Lemma Writes_preview type preview n :
  Writes (write_preview k interrupts type preview n) (preview_text type preview n) (Ok tt).
Proof. unfold write_preview, preview_text. by writes. Qed.

Lemma Writes_json_cell cell :
  Writes (write_json_cell k interrupts fmt cell) (json_cell_text fmt cell) (Ok tt).
Proof.
  destruct cell; cbn [write_json_cell json_cell_text];
    try apply Writes_string_cell; try apply Writes_preview; by writes.
Qed.

Lemma Writes_json_column i column :
  Writes (write_json_column k interrupts i column) (json_column_text i column) (Ok tt).
Proof. unfold write_json_column, json_column_text. by writes. Qed.

Lemma Writes_json_rows sn i rows :
  let '(text, r) := rows_text (length (sn_columns sn)) (json_row_text fmt) i rows in
  Writes (for_each k (write_json_row k interrupts fmt sn) i rows) text r.
Proof.
  apply (Writes_rows sn (fun i row => separator k interrupts [44%N] i ;; write_str k interrupts (jlit "[") ;;
    for_each k (fun index cell => separator k interrupts [44%N] index ;; write_json_cell k interrupts fmt cell) 0 row ;;
    write_str k interrupts (jlit "]"))).
  intros j row. unfold json_row_text. writes.
  apply Writes_separated, Writes_json_cell.
Qed.

Lemma Writes_json sn :
  let '(text, r) := json_text fmt sn in Writes (write_json k interrupts fmt sn) text r.
Proof.
  unfold json_text, write_json. destruct (timestamp_millis_rfc3339 _ _) as [completed_at|].
  2: { apply Writes_bind_err, Writes_fail. }
  pose proof (Writes_json_rows sn 0 (sn_rows sn)) as Hrows.
  destruct (rows_text _ _ _ _) as [text r].
  pose proof (Writes_for_each _ json_column_text 0 (sn_columns sn) Writes_json_column) as Hcols.
  destruct r as [[]|e].
  - eapply Writes_eq.
    + eapply Writes_bind; [apply Writes_ret|]. writes; [exact Hcols|exact Hrows].
    + unfold json_head_text, json_tail_text. cbn zeta. by rewrite <- !(assoc_L (++)).
  - eapply Writes_eq.
    + eapply Writes_bind; [apply Writes_ret|].
      repeat lazymatch goal with
      | |- Writes (for_each _ (write_json_row _ _ _ _) _ _ ≫= _) _ _ =>
          apply Writes_bind_err; exact Hrows
      | |- Writes (for_each _ _ _ _ ≫= _) _ _ => eapply Writes_bind; [exact Hcols|]
      | |- Writes (_ ≫= _) _ _ => eapply Writes_bind; [apply Writes_str|]
      end.
    + unfold json_head_text. cbn zeta. by rewrite <- !(assoc_L (++)).
Qed.

Lemma Writes_export sn format :
  let '(text, r) := export_text fmt sn format in
  Writes (match format with
          | Csv => write_csv k interrupts fmt sn
          | Tsv => write_tsv k interrupts fmt sn
          | Json => write_json k interrupts fmt sn
          end) text r.
Proof.
  destruct format; cbn [export_text].
  - apply (Writes_table sn [44%N] [13%N; 10%N] (write_csv_field k interrupts) csv_field); [|done].
    apply Writes_csv_field.
  - apply (Writes_table sn [9%N] [10%N] (fun s => write_str k interrupts (tsv_field s)) tsv_field); [|done].
    intros s. apply Writes_str.
  - apply Writes_json.
Qed.

(** On any writer an export writes a prefix of the format's text; it
    reports success only when it wrote all of it and was not cancelled, and an
    encoding error only when the text ends in that error. *)
Theorem export_writes_prefix sn format inner r inner' :
  write_export_with_cancel k interrupts fmt sn format inner = Some (r, inner') ->
  let '(text, outcome) := export_text fmt sn format in
  exists p, p `prefix_of` encode text /\
    sink_accepted k inner' = sink_accepted k inner ++ p /\
    (r = outcome /\ p = encode text \/ r = Err ExportCancelled \/ exists e, r = Err (ExportIo e)).
Proof.
  unfold write_export_with_cancel. pose proof (Writes_export sn format) as HW.
  destruct (export_text fmt sn format) as [text outcome]. destruct HW as [Hsafe _].
  set (w0 := {| sw_inner := inner; sw_cancelled := false |}).
  intros H. assert (exists r1 w1, (match format with
          | Csv => write_csv k interrupts fmt sn
          | Tsv => write_tsv k interrupts fmt sn
          | Json => write_json k interrupts fmt sn
          end) w0 = Some (r1, w1) /\ r = (if sw_cancelled k w1 then Err ExportCancelled else r1)
          /\ inner' = sw_inner k w1) as (r1 & w1 & Hm & -> & ->).
  { destruct format; apply bind_Some in H as ([r1 w1] & Hm & [= <- <-]); by exists r1, w1. }
  apply Hsafe in Hm as [(-> & Ha & Hc)|(e & p & -> & Hp & Ha)].
  - exists (encode text). split_and!; [done|done|]. rewrite Hc. by left.
  - exists p. split_and!; [done|done|]. destruct (sw_cancelled k w1); eauto.
Qed.

(** C39: on a writer that keeps accepting bytes and is never cancelled the
    export terminates with the format's outcome and has written exactly its
    text, whatever the sizes of the writer's partial writes. *)
Theorem export_completes sn format inner :
  reliable k ->
  let '(text, outcome) := export_text fmt sn format in
  exists inner',
    write_export_with_cancel k interrupts fmt sn format inner = Some (outcome, inner') /\
    sink_accepted k inner' = sink_accepted k inner ++ encode text.
Proof.
  intros Hr. unfold write_export_with_cancel. pose proof (Writes_export sn format) as HW.
  destruct (export_text fmt sn format) as [text outcome]. destruct HW as [_ Hlive].
  destruct (Hlive Hr {| sw_inner := inner; sw_cancelled := false |}) as (w1 & Hm & Ha & Hc).
  cbn in Hc. exists (sw_inner k w1). split; [|done]. destruct format; by rewrite Hm; cbn; rewrite Hc.
Qed.
End refinement.

(** ** A concrete writer: a growing vector that takes two bytes per call *)

Definition vec_sink : Sink :=
  {| sink_state := bytes; sink_write := fun buf s => (Ok (length (take 2 buf)), s ++ take 2 buf);
     sink_accepted := fun s => s; sink_cancelled := fun s => (false, s) |}.

Lemma vec_sink_laws : sink_laws vec_sink.
Proof.
  split; cbn.
  - intros buf s n s' H. injection H as <- <-. rewrite length_take. split; [lia|].
    f_equal. destruct buf as [|a [|b buf]]; reflexivity.
  - intros ???? H. discriminate H.
  - intros ??? H. by injection H as <- <-.
Qed.

Lemma vec_sink_reliable : reliable vec_sink.
Proof.
  split; cbn; [|eauto]. intros [|a [|b buf]] s Hb; cbn; [done|eauto..].
Qed.

Definition sample_formats : Formats :=
  {| f64_to_string := display_N; base64_encode := fun bs => bs; decimal_normalized := Some;
     rfc3339_to_utc := fun _ => None; naive_datetime := fun _ _ => None; naive_date := fun _ _ => None;
     naive_time := fun _ _ => None; timestamp_millis_rfc3339 := fun _ => Some (lit "1970-01-01T00:00:00.000Z") |}.

Definition sample_snapshot : ResultSnapshot :=
  retain sample_f64 sample_json (sample_result sample_rows) sample_provenance (RetainMySql 10).

Lemma export_completes_witness :
  exists written, write_export_with_cancel vec_sink 0 sample_formats sample_snapshot Csv [] = Some (Ok tt, written)
    /\ written = encode (export_text sample_formats sample_snapshot Csv).1.
Proof.
  pose proof (export_completes vec_sink vec_sink_laws 0 sample_formats sample_snapshot Csv [] vec_sink_reliable) as H.
  assert (Hok : (export_text sample_formats sample_snapshot Csv).2 = Ok tt) by (vm_compute; reflexivity).
  destruct (export_text sample_formats sample_snapshot Csv) as [text outcome]. cbn in Hok. subst outcome. exact H.
Defined.

Lemma export_writes_prefix_witness :
  exists written, write_export_with_cancel vec_sink 0 sample_formats sample_snapshot Tsv [] = Some (Ok tt, written)
    /\ exists p, p `prefix_of` encode (export_text sample_formats sample_snapshot Tsv).1 /\ written = p.
Proof.
  destruct (write_export_with_cancel vec_sink 0 sample_formats sample_snapshot Tsv []) as [[r written]|] eqn:H;
    [|vm_compute in H; discriminate H].
  pose proof (export_writes_prefix vec_sink vec_sink_laws 0 sample_formats sample_snapshot Tsv [] r written H) as Hp.
  vm_compute in H. injection H as <- <-. eexists. split; [vm_compute; reflexivity|].
  cbn [export_text] in Hp |- *. destruct (table_text _ _ _) as [text outcome].
  destruct Hp as (p & Hpre & Ha & _). exists p. split; [exact Hpre|exact Ha].
Defined.
