(* ===== verification/ExportText.v ===== *)
(** * The exported texts can be read back

    Reference readers for the three formats (RFC 4180 records, escaped TSV,
    JSON strings) and the round trips: reading an export gives back exactly the
    column names and the scalar text of every cell. *)

From S2P Require Import Prelude RustStr Model Export ExportSpec.
From stdpp Require Import sorting.

(** ** CSV *)

Inductive CsvMode := Plain | Quoted | QuoteSeen | ReturnSeen.
#[export] Instance CsvMode_eq : EqDecision CsvMode. Proof. solve_decision. Defined.

Record CsvReader := {
  csv_mode : CsvMode;
  csv_current : str;
  csv_fields : list str;
  csv_records : list (list str);
}.

Definition csv_reading (m : CsvMode) (current : str) (r : CsvReader) : CsvReader :=
  {| csv_mode := m; csv_current := current; csv_fields := csv_fields r; csv_records := csv_records r |}.

(** The field is complete: a comma starts the next one, a return ends the
    record. *)
Definition csv_end_field (c : char) (r : CsvReader) : option CsvReader :=
  if (c =? 44)%N then
    Some {| csv_mode := Plain; csv_current := []; csv_fields := csv_fields r ++ [csv_current r];
            csv_records := csv_records r |}
  else if (c =? 13)%N then Some (csv_reading ReturnSeen (csv_current r) r)
  else None.

Definition csv_step (r : CsvReader) (c : char) : option CsvReader :=
  match csv_mode r with
  | Plain =>
      if ((c =? 44) || (c =? 13))%N then csv_end_field c r
      else if (c =? 34)%N then
        if bool_decide (csv_current r = []) then Some (csv_reading Quoted [] r) else None
      else if (c =? 10)%N then None
      else Some (csv_reading Plain (csv_current r ++ [c]) r)
  | Quoted =>
      if (c =? 34)%N then Some (csv_reading QuoteSeen (csv_current r) r)
      else Some (csv_reading Quoted (csv_current r ++ [c]) r)
  | QuoteSeen =>
      if (c =? 34)%N then Some (csv_reading Quoted (csv_current r ++ [34%N]) r)
      else csv_end_field c r
  | ReturnSeen =>
      if (c =? 10)%N then
        Some {| csv_mode := Plain; csv_current := []; csv_fields := [];
                csv_records := csv_records r ++ [csv_fields r ++ [csv_current r]] |}
      else None
  end.

Fixpoint csv_run (r : CsvReader) (text : str) : option CsvReader :=
  match text with
  | [] => Some r
  | c :: text => r ← csv_step r c; csv_run r text
  end.

Definition csv_start (records : list (list str)) : CsvReader :=
  {| csv_mode := Plain; csv_current := []; csv_fields := []; csv_records := records |}.

(** A file is a sequence of complete records. *)
Definition parse_csv (text : str) : option (list (list str)) :=
  r ← csv_run (csv_start []) text;
  if bool_decide (csv_mode r = Plain /\ csv_current r = [] /\ csv_fields r = [])
  then Some (csv_records r) else None.

Lemma csv_run_app r a b : csv_run r (a ++ b) = csv_run r a ≫= fun r => csv_run r b.
Proof. revert r; induction a as [|c a IH]; intros r; cbn; [done|]. destruct (csv_step r c); cbn; [apply IH|done]. Qed.

Lemma existsb_encode (p : N -> bool) s :
  (forall c, (128 <= c)%N -> p c = false) -> existsb p (encode s) = existsb p s.
Proof.
  intros Hp. induction s as [|c s IH]; cbn; [done|]. rewrite existsb_app, IH. f_equal.
  destruct (N.lt_ge_cases c 128) as [Hc|Hc].
  - rewrite encode_char_ascii by done. cbn. by rewrite orb_false_r.
  - rewrite (Hp c Hc). apply existsb_false_elem_of. intros x Hx. apply Hp.
    pose proof (encode_char_multi c Hc) as HF. rewrite Forall_forall in HF. by apply HF.
Qed.

Lemma csv_run_plain r s :
  csv_mode r = Plain -> existsb (fun b => (b =? 44) || (b =? 34) || (b =? 13) || (b =? 10))%N s = false ->
  csv_run r s = Some (csv_reading Plain (csv_current r ++ s) r).
Proof.
  destruct r as [m cur fs rs]. cbn. intros -> Hs. revert cur.
  induction s as [|c s IH]; intros cur; cbn in *; [by rewrite (right_id_L [] (++))|].
  apply orb_false_iff in Hs as [Hc Hs]. unfold csv_step. cbn [csv_mode csv_current].
  replace ((c =? 44) || (c =? 13))%N with false by lia.
  replace (c =? 34)%N with false by lia. replace (c =? 10)%N with false by lia.
  cbn. unfold csv_reading. cbn. rewrite IH by done. unfold csv_reading. cbn.
  by rewrite <- (assoc_L (++)).
Qed.

Lemma double_quotes_cons c s :
  double_quotes (c :: s) = (if (c =? 34)%N then [34%N; 34%N] else [c]) ++ double_quotes s.
Proof. done. Qed.

Lemma csv_step_quoted cur fs rs c :
  csv_step {| csv_mode := Quoted; csv_current := cur; csv_fields := fs; csv_records := rs |} c
  = Some (if (c =? 34)%N
          then {| csv_mode := QuoteSeen; csv_current := cur; csv_fields := fs; csv_records := rs |}
          else {| csv_mode := Quoted; csv_current := cur ++ [c]; csv_fields := fs; csv_records := rs |}).
Proof. unfold csv_step. cbn. by destruct (c =? 34)%N. Qed.

Lemma csv_step_open fs rs :
  csv_step {| csv_mode := Plain; csv_current := []; csv_fields := fs; csv_records := rs |} 34
  = Some {| csv_mode := Quoted; csv_current := []; csv_fields := fs; csv_records := rs |}.
Proof. done. Qed.

Lemma csv_step_escaped cur fs rs :
  csv_step {| csv_mode := QuoteSeen; csv_current := cur; csv_fields := fs; csv_records := rs |} 34
  = Some {| csv_mode := Quoted; csv_current := cur ++ [34%N]; csv_fields := fs; csv_records := rs |}.
Proof. done. Qed.

Lemma csv_run_quoted cur fs rs s :
  csv_run {| csv_mode := Quoted; csv_current := cur; csv_fields := fs; csv_records := rs |}
    (double_quotes s)
  = Some {| csv_mode := Quoted; csv_current := cur ++ s; csv_fields := fs; csv_records := rs |}.
Proof.
  revert cur. induction s as [|c s IH]; intros cur; [by rewrite (right_id_L [] (++))|].
  rewrite double_quotes_cons.
  destruct (c =? 34)%N eqn:Hc; cbn [app csv_run]; rewrite csv_step_quoted.
  - apply N.eqb_eq in Hc as ->. rewrite N.eqb_refl. cbn [mbind option_bind].
    rewrite csv_step_escaped. cbn [mbind option_bind]. rewrite IH. by rewrite <- (assoc_L (++)).
  - rewrite Hc. cbn [mbind option_bind]. rewrite IH. by rewrite <- (assoc_L (++)).
Qed.

(** Reading a field leaves it complete. *)
Lemma csv_run_field fs rs field :
  exists m, (m = Plain \/ m = QuoteSeen) /\
    csv_run {| csv_mode := Plain; csv_current := []; csv_fields := fs; csv_records := rs |}
      (csv_field field)
    = Some {| csv_mode := m; csv_current := field; csv_fields := fs; csv_records := rs |}.
Proof.
  unfold csv_field. destruct (csv_quoted field) eqn:Hq.
  - exists QuoteSeen. split; [by right|]. cbn [app csv_run].
    rewrite csv_step_open. cbn [mbind option_bind]. fold (double_quotes field).
    rewrite csv_run_app, csv_run_quoted. cbn [mbind option_bind app csv_run].
    by rewrite csv_step_quoted.
  - exists Plain. split; [by left|]. unfold csv_quoted in Hq.
    rewrite existsb_encode in Hq by (intros; lia).
    rewrite csv_run_plain; [done|done|exact Hq].
Qed.

Lemma csv_end_comma m cur fs rs :
  m = Plain \/ m = QuoteSeen ->
  csv_step {| csv_mode := m; csv_current := cur; csv_fields := fs; csv_records := rs |} 44
  = Some {| csv_mode := Plain; csv_current := []; csv_fields := fs ++ [cur]; csv_records := rs |}.
Proof. by intros [->| ->]. Qed.

Lemma csv_end_record m cur fs rs :
  m = Plain \/ m = QuoteSeen ->
  csv_run {| csv_mode := m; csv_current := cur; csv_fields := fs; csv_records := rs |} [13%N; 10%N]
  = Some (csv_start (rs ++ [fs ++ [cur]])).
Proof. by intros [->| ->]. Qed.

Lemma separated_cons2 sep x y l : separated sep (x :: y :: l) = x ++ sep ++ separated sep (y :: l).
Proof. unfold separated. cbn [mbind list_bind]. by rewrite <- !(assoc_L (++)). Qed.

Lemma separated_one sep x : separated sep [x] = x.
Proof. cbn. by rewrite (right_id_L [] (++)). Qed.

Lemma csv_run_record_from fs rs field fields :
  csv_run {| csv_mode := Plain; csv_current := []; csv_fields := fs; csv_records := rs |}
    (separated [44%N] (csv_field <$> field :: fields) ++ [13%N; 10%N])
  = Some (csv_start (rs ++ [fs ++ field :: fields])).
Proof.
  revert fs field. induction fields as [|f fields IH]; intros fs field;
    destruct (csv_run_field fs rs field) as (m & Hm & E).
  - rewrite fmap_cons, separated_one, csv_run_app, E. cbn [mbind option_bind].
    by rewrite csv_end_record.
  - rewrite !fmap_cons, separated_cons2, <- !(assoc_L (++)), csv_run_app, E.
    cbn [mbind option_bind app csv_run]. rewrite csv_end_comma by done. cbn [mbind option_bind].
    rewrite <- fmap_cons, IH. by rewrite <- (assoc_L (++)).
Qed.

Lemma csv_run_record rs fields :
  fields <> [] -> csv_run (csv_start rs) (csv_record fields) = Some (csv_start (rs ++ [fields])).
Proof.
  intros Hne. destruct fields as [|f fields]; [done|].
  pose proof (csv_run_record_from [] rs f fields) as H. exact H.
Qed.

Lemma csv_run_records rs records :
  Forall (fun r => r <> []) records ->
  csv_run (csv_start rs) (records ≫= csv_record) = Some (csv_start (rs ++ records)).
Proof.
  intros Hall. revert rs. induction Hall as [|r records Hr _ IH]; intros rs.
  - by rewrite (right_id_L [] (++)).
  - cbn. rewrite csv_run_app, csv_run_record by done. cbn [mbind option_bind].
    rewrite IH, <- (assoc_L (++)). done.
Qed.

Lemma parse_csv_records records :
  Forall (fun r => r <> []) records -> parse_csv (records ≫= csv_record) = Some records.
Proof. intros H. unfold parse_csv. by rewrite csv_run_records. Qed.

(** ** TSV *)

Fixpoint tsv_unescape (s : str) : option str :=
  match s with
  | [] => Some []
  | c :: s =>
      if (c =? 92)%N then
        match s with
        | [] => None
        | e :: s =>
            rest ← tsv_unescape s;
            (if e =? 92 then Some (92 :: rest) else if e =? 116 then Some (9 :: rest)
             else if e =? 114 then Some (13 :: rest) else if e =? 110 then Some (10 :: rest)
             else None)%N
        end
      else rest ← tsv_unescape s; Some (c :: rest)
  end.

Definition parse_tsv (text : str) : option (list (list str)) :=
  let lines := split_char 10 text in
  if bool_decide (last lines = Some []) then
    mapM (fun line => mapM tsv_unescape (split_char 9 line)) (take (length lines - 1) lines)
  else None.

Lemma tsv_field_cons c s : tsv_field (c :: s) = tsv_char c ++ tsv_field s.
Proof. done. Qed.

Lemma tsv_unescape_field s : tsv_unescape (tsv_field s) = Some s.
Proof.
  induction s as [|c s IH]; [done|]. rewrite tsv_field_cons. unfold tsv_char.
  destruct (c =? 92)%N eqn:H1; [apply N.eqb_eq in H1 as ->; cbn; by rewrite IH|].
  destruct (c =? 9)%N eqn:H2; [apply N.eqb_eq in H2 as ->; cbn; by rewrite IH|].
  destruct (c =? 13)%N eqn:H3; [apply N.eqb_eq in H3 as ->; cbn; by rewrite IH|].
  destruct (c =? 10)%N eqn:H4; [apply N.eqb_eq in H4 as ->; cbn; by rewrite IH|].
  cbn. by rewrite H1, IH.
Qed.

Lemma tsv_field_plain s c : c ∈ tsv_field s -> (c <> 9 /\ c <> 10 /\ c <> 13)%N.
Proof.
  unfold tsv_field. intros (x & Hc & _)%list_elem_of_bind. unfold tsv_char in Hc.
  repeat case_match; cbn in Hc; rewrite ?elem_of_cons, ?elem_of_nil in Hc;
    intuition (subst; try lia).
Qed.

Lemma split_char_separated d x l :
  Forall (fun s => d ∉ s) (x :: l) -> split_char d (separated [d] (x :: l)) = x :: l.
Proof.
  revert x. induction l as [|y l IH]; intros x [Hx Hl]%Forall_cons.
  - rewrite separated_one. by apply split_char_absent.
  - rewrite separated_cons2. cbn [app]. rewrite split_char_app_sep by done. by rewrite IH.
Qed.

Lemma split_char_lines d (lines : list str) :
  Forall (fun s => d ∉ s) lines -> split_char d (lines ≫= fun l => l ++ [d]) = lines ++ [[]].
Proof.
  induction 1 as [|x lines Hx _ IH]; cbn; [done|].
  rewrite <- (assoc_L (++)). cbn [app]. rewrite split_char_app_sep by done. by rewrite IH.
Qed.

Lemma separated_absent c sep (l : list str) :
  c ∉ sep -> Forall (fun s => c ∉ s) l -> c ∉ separated sep l.
Proof.
  intros Hs. induction 1 as [|x l Hx Hl IH]; [by apply not_elem_of_nil|].
  destruct l as [|y l]; [by rewrite separated_one|]. rewrite separated_cons2, !elem_of_app. tauto.
Qed.

Lemma mapM_unescape fields : mapM tsv_unescape (tsv_field <$> fields) = Some fields.
Proof. apply mapM_Some. induction fields; cbn; constructor; [apply tsv_unescape_field|done]. Qed.

Lemma parse_tsv_records records :
  Forall (fun r => r <> []) records -> parse_tsv (records ≫= tsv_record) = Some records.
Proof.
  intros Hne. unfold parse_tsv.
  assert (split_char 10 (records ≫= tsv_record)
          = ((fun r => separated [9%N] (tsv_field <$> r)) <$> records) ++ [[]]) as ->.
  { rewrite <- (split_char_lines 10).
    - f_equal. unfold tsv_record. induction records as [|r records IH]; [done|].
      cbn. f_equal. apply IH. by apply Forall_cons in Hne as [_ ?].
    - rewrite Forall_fmap. apply Forall_true. intros r. cbn. apply separated_absent.
      + set_solver.
      + rewrite Forall_fmap. apply Forall_true. intros s H%tsv_field_plain. lia. }
  rewrite last_snoc, bool_decide_true by done.
  rewrite length_app, length_fmap. cbn [length]. rewrite Nat.add_sub.
  rewrite take_app_le, take_ge by (rewrite length_fmap; lia).
  apply mapM_Some. induction Hne as [|r records Hr _ IH]; cbn; constructor; [|done].
  destruct r as [|x r]; [done|]. rewrite fmap_cons, split_char_separated, <- fmap_cons.
  - apply mapM_unescape.
  - rewrite <- fmap_cons, Forall_fmap. apply Forall_true. intros s H%tsv_field_plain. lia.
Qed.

(** ** Round trips *)

Lemma rows_text_full width record i rows text :
  rows_text width (fun _ => record) i rows = (text, Ok tt) ->
  text = rows ≫= record /\ Forall (fun row => length row = width) rows.
Proof.
  revert i text. induction rows as [|row rows IH]; intros i text; cbn.
  { intros [= <-]. done. }
  destruct (length row =? width) eqn:Hw; [|done]. apply Nat.eqb_eq in Hw.
  destruct (rows_text width (fun _ => record) (S i) rows) as [t r] eqn:E.
  intros [= <- ->]. destruct (IH _ _ E) as [-> Hall]. by split; [|constructor].
Qed.

Section round_trips.
Context (fmt : Formats).

(** The table an export holds: column names, then every cell's scalar text. *)
Definition table (sn : ResultSnapshot) : list (list str) :=
  fmap (M := list) col_name (sn_columns sn)
  :: fmap (M := list) (fun row => fmap (M := list) (clipboard_scalar fmt) row) (sn_rows sn).

Lemma table_text_full record sn text :
  table_text fmt record sn = (text, Ok tt) ->
  text = table sn ≫= record /\ Forall (fun r => r <> []) (table sn).
Proof.
  unfold table_text. case_bool_decide as Hc; [done|].
  destruct (rows_text _ _ _ _) as [t r] eqn:E. intros [= <- ->].
  apply rows_text_full in E as [-> Hall]. split.
  - unfold table. cbn. f_equal. clear. induction (sn_rows sn) as [|row rows IH]; [done|].
    cbn. by f_equal.
  - unfold table. constructor.
    + intros H%(f_equal length). rewrite length_fmap in H. done.
    + rewrite Forall_fmap. eapply Forall_impl; [exact Hall|]. cbn. intros row Hr H%(f_equal length).
      rewrite length_fmap, Hr in H. done.
Qed.

(** *** The characters of the texts *)

Definition scalars (s : str) : Prop := Forall (fun c => is_scalar c = true) s.

Lemma separated_scalars sep (l : list str) : scalars sep -> Forall scalars l -> scalars (separated sep l).
Proof.
  intros Hs. induction 1 as [|x l Hx Hl IH]; [constructor|]. destruct l as [|y l]; [by rewrite separated_one|].
  rewrite separated_cons2. apply Forall_app_2; [done|]. by apply Forall_app_2.
Qed.

Lemma csv_field_scalars field : scalars field -> scalars (csv_field field).
Proof.
  intros Hf. unfold csv_field. destruct (csv_quoted field); [|done].
  apply Forall_app_2; [by repeat constructor|]. apply Forall_app_2; [|by repeat constructor].
  apply Forall_bind. eapply Forall_impl; [exact Hf|]. intros c Hc. cbn. destruct (c =? 34)%N; repeat first [apply Forall_nil_2|apply Forall_cons_2]; done.
Qed.

Lemma tsv_field_scalars field : scalars field -> scalars (tsv_field field).
Proof.
  intros Hf. unfold tsv_field. apply Forall_bind. eapply Forall_impl; [exact Hf|]. intros c Hc.
  cbn. unfold tsv_char. repeat case_match; repeat first [apply Forall_nil_2|apply Forall_cons_2]; done.
Qed.

Lemma records_scalars (field : str -> str) sep stop (records : list (list str)) :
  (forall f, scalars f -> scalars (field f)) -> scalars sep -> scalars stop ->
  Forall (Forall scalars) records -> scalars (records ≫= fun fields => separated sep (field <$> fields) ++ stop).
Proof.
  intros Hfield Hsep Hstop Hall. apply Forall_bind. eapply Forall_impl; [exact Hall|]. intros fields Hfields. cbn -[separated].
  apply Forall_app_2; [|done]. apply separated_scalars; [done|]. rewrite Forall_fmap. by eapply Forall_impl.
Qed.

(** What a successful export appends to its writer. *)
Lemma export_appends k interrupts sn format inner inner' :
  sink_laws k -> write_export_with_cancel k interrupts fmt sn format inner = Some (Ok tt, inner') ->
  exists text, export_text fmt sn format = (text, Ok tt) /\ sink_accepted k inner' = sink_accepted k inner ++ encode text.
Proof.
  intros Hk Hrun. pose proof (export_writes_prefix k Hk interrupts fmt sn format inner _ _ Hrun) as H.
  destruct (export_text fmt sn format) as [text outcome].
  destruct H as (p & _ & Ha & [[<- ->]|[H|(e & H)]]); [by exists text|done..].
Qed.

(** C40: an export to CSV or TSV can be read back from its bytes.  Whenever the encoder
    reports success, on any writer and however it accepts the bytes piece by piece, the
    bytes it has appended are UTF-8, and reading them as RFC 4180 records or escaped TSV
    lines gives exactly the column names and the scalar text of every cell, whatever
    characters they contain (they are Unicode scalar values, as in every Rust string). *)
Theorem tabular_export_round_trip k interrupts sn inner inner' :
  sink_laws k -> Forall (Forall scalars) (table sn) ->
  (write_export_with_cancel k interrupts fmt sn Csv inner = Some (Ok tt, inner') ->
     exists written, sink_accepted k inner' = sink_accepted k inner ++ written /\
       from_utf8 written ≫= parse_csv = Some (table sn)) /\
  (write_export_with_cancel k interrupts fmt sn Tsv inner = Some (Ok tt, inner') ->
     exists written, sink_accepted k inner' = sink_accepted k inner ++ written /\
       from_utf8 written ≫= parse_tsv = Some (table sn)).
Proof.
  intros Hk Hscalars.
  split; intros (text & [-> Hne]%table_text_full & Ha)%export_appends; try exact Hk; eexists; (split; [exact Ha|]).
  - rewrite from_utf8_encode; [by apply parse_csv_records|].
    apply (records_scalars csv_field); [apply csv_field_scalars|by repeat constructor..|exact Hscalars].
  - rewrite from_utf8_encode; [by apply parse_tsv_records|].
    apply (records_scalars tsv_field); [apply tsv_field_scalars|by repeat constructor..|exact Hscalars].
Qed.
End round_trips.

(** A CSV export into a vector, read back. *)
Lemma tabular_export_round_trip_witness :
  exists written, write_export_with_cancel vec_sink 0 sample_formats sample_snapshot Csv [] = Some (Ok tt, written) /\
    from_utf8 written ≫= parse_csv = Some (table sample_formats sample_snapshot).
Proof.
  destruct (write_export_with_cancel vec_sink 0 sample_formats sample_snapshot Csv []) as [[[[]|e] written]|] eqn:H;
    [|vm_compute in H; discriminate H..].
  exists written. split; [reflexivity|].
  assert (Hs : Forall (Forall (Forall (fun c => is_scalar c = true))) (table sample_formats sample_snapshot))
    by (apply (bool_decide_unpack _); vm_compute; exact I).
  destruct (tabular_export_round_trip sample_formats vec_sink 0 sample_snapshot [] written vec_sink_laws Hs) as [Hcsv _].
  destruct (Hcsv H) as (bytes & Ha & Hparse). change (sink_accepted vec_sink written) with written in Ha.
  rewrite Ha. exact Hparse.
Defined.

(** ** JSON strings *)

Definition hex_value (c : char) : option N :=
  (if is_ascii_digit c then Some (c - 48)
   else if (97 <=? c) && (c <=? 102) then Some (c - 87) else None)%N.

Definition json_escape (e : char) : option char :=
  (if e =? 34 then Some 34 else if e =? 92 then Some 92 else if e =? 98 then Some 8
   else if e =? 102 then Some 12 else if e =? 110 then Some 10 else if e =? 114 then Some 13
   else if e =? 116 then Some 9 else None)%N.

(** The characters up to the closing quote, and the rest of the text; control
    characters must be escaped (RFC 8259). *)
Fixpoint json_chars (s : str) : option (str * str) :=
  match s with
  | [] => None
  | c :: s =>
      if (c =? 34)%N then Some ([], s)
      else if (c =? 92)%N then
        match s with
        | 117%N :: a :: b :: x :: y :: s =>
            a ← hex_value a; b ← hex_value b; x ← hex_value x; y ← hex_value y;
            '(value, rest) ← json_chars s;
            Some ((a * 4096 + b * 256 + x * 16 + y)%N :: value, rest)
        | e :: s =>
            e ← json_escape e; '(value, rest) ← json_chars s; Some (e :: value, rest)
        | [] => None
        end
      else if (c <=? 31)%N then None
      else '(value, rest) ← json_chars s; Some (c :: value, rest)
  end.

Definition parse_json_string (s : str) : option (str * str) :=
  match s with c :: s => if (c =? 34)%N then json_chars s else None | [] => None end.

Lemma hex_value_digit n : (n < 16)%N -> hex_value (hex_digit n) = Some n.
Proof.
  intros Hn. unfold hex_value, hex_digit, is_ascii_digit.
  repeat case_match; f_equal; lia.
Qed.

Lemma json_chars_unicode a b x y s :
  json_chars (92%N :: 117%N :: a :: b :: x :: y :: s) =
  a ← hex_value a; b ← hex_value b; x ← hex_value x; y ← hex_value y;
  '(value, rest) ← json_chars s;
  Some ((a * 4096 + b * 256 + x * 16 + y)%N :: value, rest).
Proof. done. Qed.

Lemma json_chars_char c s :
  json_chars (json_char c ++ s) = '(value, rest) ← json_chars s; Some (c :: value, rest).
Proof.
  unfold json_char.
  destruct (c =? 34)%N eqn:H1; [apply N.eqb_eq in H1 as ->; done|].
  destruct (c =? 92)%N eqn:H2; [apply N.eqb_eq in H2 as ->; done|].
  destruct (c =? 8)%N eqn:H3; [apply N.eqb_eq in H3 as ->; done|].
  destruct (c =? 12)%N eqn:H4; [apply N.eqb_eq in H4 as ->; done|].
  destruct (c =? 10)%N eqn:H5; [apply N.eqb_eq in H5 as ->; done|].
  destruct (c =? 13)%N eqn:H6; [apply N.eqb_eq in H6 as ->; done|].
  destruct (c =? 9)%N eqn:H7; [apply N.eqb_eq in H7 as ->; done|].
  destruct (c <=? 31)%N eqn:H8.
  - assert (c < 32)%N as Hc by lia.
    assert (c / 16 < 16)%N by (apply N.Div0.div_lt_upper_bound; lia).
    assert (c mod 16 < 16)%N by (apply N.mod_lt; lia).
    etrans; [exact (json_chars_unicode 48 48 (hex_digit (c / 16)) (hex_digit (c mod 16)) s)|].
    rewrite !hex_value_digit by done.
    change (hex_value 48) with (Some 0%N). cbn [mbind option_bind].
    destruct (json_chars s) as [[value rest]|]; cbn [mbind option_bind]; [|done]. do 3 f_equal.
    pose proof (N.Div0.div_mod c 16). lia.
  - cbn. by rewrite H1, H2, H8.
Qed.

Lemma json_chars_string s rest : json_chars ((s ≫= json_char) ++ 34%N :: rest) = Some (s, rest).
Proof.
  induction s as [|c s IH]; [done|].
  change ((c :: s) ≫= json_char) with (json_char c ++ (s ≫= json_char)).
  by rewrite <- (assoc_L (++)), json_chars_char, IH.
Qed.

Lemma json_char_plain c x : x ∈ json_char c -> (32 <= x)%N.
Proof.
  unfold json_char, hex_digit. intros H.
  repeat case_match; cbn in H; rewrite ?elem_of_cons, ?elem_of_nil in H;
    intuition (subst; try lia).
Qed.

(** Every string survives JSON encoding: the encoder's output is read back
    as the same characters, ends exactly at its closing quote, and holds no raw
    control character. *)
Theorem json_string_round_trip s rest :
  parse_json_string (json_string s ++ rest) = Some (s, rest) /\
  Forall (fun c => 32 <= c)%N (json_string s).
Proof.
  split.
  - unfold json_string. cbn [app parse_json_string]. rewrite N.eqb_refl, <- (assoc_L (++)).
    apply json_chars_string.
  - unfold json_string. constructor; [lia|]. apply Forall_app. split; [|by repeat constructor].
    apply Forall_forall. intros x (c & Hx & _)%list_elem_of_bind. by apply json_char_plain in Hx.
Qed.

(** ** Canonical JSON *)

#[export] Instance field_le_trans {A} : Transitive (@field_le A).
Proof. intros a b c. unfold field_le, str_le. apply bytes_leb_trans. Qed.
#[export] Instance field_le_total {A} : Total (@field_le A).
Proof. intros a b. unfold field_le, str_le. apply bytes_leb_total. Qed.

Lemma sorted_fields_unique {A} (l1 l2 : list (str * A)) :
  NoDup ((fun e => encode e.1) <$> l1) -> l1 ≡ₚ l2 ->
  StronglySorted field_le l1 -> StronglySorted field_le l2 -> l1 = l2.
Proof.
  intros Hnd Hp H1 H2. revert l2 Hp H2. induction H1 as [|x l1 Hs IH Hx]; intros l2 Hp H2.
  { by apply Permutation_nil_l in Hp as ->. }
  destruct l2 as [|y l2]; [by apply Permutation_nil_r in Hp|].
  apply StronglySorted_inv in H2 as [H2 Hy]. rewrite fmap_cons in Hnd.
  apply NoDup_cons in Hnd as [Hnx Hnd].
  assert (x = y) as ->.
  { assert (y ∈ x :: l1) as Hyin by (rewrite Hp; left).
    assert (x ∈ y :: l2) as Hxin by (rewrite <- Hp; left).
    apply elem_of_cons in Hyin as [->|Hyin]; [done|].
    apply elem_of_cons in Hxin as [->|Hxin]; [done|]. exfalso. apply Hnx.
    rewrite Forall_forall in Hx, Hy. specialize (Hx y Hyin). specialize (Hy x Hxin).
    unfold field_le, str_le in *. rewrite (bytes_leb_antisym _ _ Hx Hy).
    by apply (list_elem_of_fmap_2 (fun e : str * A => encode e.1)). }
  f_equal. apply IH; [done|by apply Permutation_cons_inv in Hp|done].
Qed.

(** The same JSON value up to the order of object entries, at every level; the
    keys of an object are distinct. *)
Inductive json_same : json -> json -> Prop :=
| same_refl v : json_same v v
| same_array l l' : Forall2 json_same l l' -> json_same (JArray l) (JArray l')
| same_object l l' l'' :
    Forall2 (fun e f => e.1 = f.1 /\ json_same e.2 f.2) l l' -> l' ≡ₚ l'' ->
    NoDup ((fun e => encode e.1) <$> l) -> json_same (JObject l) (JObject l'').

(** Canonical JSON does not depend on insertion order: values that differ
    only in the order of object entries, at any depth, have the same text. *)
Theorem canonical_json_ignores_order v v' : json_same v v' -> canonical_json v = canonical_json v'.
Proof.
  revert v'. induction v as [| | | |values IH|entries IH] using json_nested_ind;
    intros v' Hs; inversion Hs as [| ? l' Hl|? l' l'' Hl Hp Hnd]; subst; try done; cbn.
  - do 3 f_equal. clear Hs. induction Hl as [|x y l l' Hxy Hl IHl]; [done|].
    apply Forall_cons in IH as [Hx IH]. cbn. f_equal; auto.
  - do 4 f_equal. apply sorted_fields_unique; try (apply StronglySorted_merge_sort; apply _).
    + rewrite merge_sort_Permutation. rewrite <- list_fmap_compose.
      assert ((fun e : str * str => encode e.1) ∘ (fun '(k, v) => (k, canonical_json v)) <$> entries
              = (fun e => encode e.1) <$> entries) as ->; [|exact Hnd].
      apply list_fmap_ext. by intros _ [k v] _.
    + rewrite !merge_sort_Permutation, <- Hp. clear Hs Hp Hnd.
      induction Hl as [|[k x] [k' y] l l' [Hk Hxy] Hl IHl]; [done|].
      apply Forall_cons in IH as [Hx IH]. cbn in *. subst. rewrite (Hx y Hxy).
      constructor. auto.
Qed.

Lemma canonical_json_ignores_order_witness :
  let a := (lit "a", JNull) in let b := (lit "b", JBool true) in
  canonical_json (JObject [b; a]) = jlit "{'a':null,'b':true}" /\
  canonical_json (JObject [b; a]) = canonical_json (JObject [a; b]).
Proof.
  split; [by vm_compute|]. apply canonical_json_ignores_order.
  apply (same_object _ [(lit "b", JBool true); (lit "a", JNull)]).
  - repeat constructor.
  - apply perm_swap.
  - apply (bool_decide_unpack _). by vm_compute.
Defined.
