(* ===== verification/ExportFiles.v ===== *)
(** * Exporting to a file (src/src/export_file.rs)

    The encoders of Export write to a private temporary file, which is then renamed to
    the destination.  The file system is explicit: paths, inodes with their metadata,
    calls that fail, writes that are cut short, and other processes that act before
    every call. *)

From S2P Require Import Prelude RustStr Model Profile Config ConfigWriter Export.
From S2P Require Import RuntimeEvents CommandPorts.

(** ** The file system *)

(** The metadata that [file_identity] looks at, beside the size. *)
Record Inode := {
  in_device : N;
  in_modified : Z * Z;
  in_content : bytes;
  in_private : bool;
}.

(** A regular file by its inode, or anything else (directory, link, device). *)
Inductive DirEntry := EntryFile (inode : N) | EntryOther.
#[export] Instance DirEntry_eq : EqDecision DirEntry. Proof. solve_decision. Defined.

Record Disk := { dk_paths : gmap (list N) DirEntry; dk_inodes : gmap N Inode }.

Definition with_paths (d : Disk) (paths : gmap (list N) DirEntry) : Disk :=
  {| dk_paths := paths; dk_inodes := dk_inodes d |}.
Definition with_inodes (d : Disk) (inodes : gmap N Inode) : Disk :=
  {| dk_paths := dk_paths d; dk_inodes := inodes |}.

(** The inodes that some path names. *)
Definition named_inodes (d : Disk) : gset N :=
  list_to_set (omap (fun entry => match entry.2 with EntryFile i => Some i | EntryOther => None end)
    (map_to_list (dk_paths d))).

(** What an export runs against; calls, writes included, are counted. *)
Record FilePlatform := {
  fp_fails : nat -> bool;                     (* whether the n-th call fails *)
  fp_others : nat -> Disk -> Disk;            (* what other processes do before it *)
  fp_write : nat -> result IoError nat;       (* how many bytes the n-th call may write *)
  fp_inode : gset N -> N;                     (* an inode that no path names *)
  fp_device : N;
  fp_time : nat -> Z * Z;
  fp_random : nat -> option bytes;            (* getrandom, for each attempt at a name *)
  fp_process_id : N;
  fp_parent : str -> option str;              (* Path::parent *)
  fp_cancelled : nat -> bool;                 (* the n-th look at the cancellation *)
}.

(** [ew_inode], [ew_offset]: the open temporary file; [ew_written]: what it was given. *)
Record ExportWorld := {
  ew_disk : Disk;
  ew_calls : nat;
  ew_looks : nat;
  ew_inode : N;
  ew_offset : nat;
  ew_written : bytes;
}.

(** ** Data *)

Inductive ExportFileStage :=
| TempCreated | Encoded | Flushed | FileSynced | BeforeCommit | StageCommitted | BeforeDirectorySync | DirectorySynced.

(** The [io::Error] behind a failure is not kept. *)
Inductive ExportFileError :=
| ExportFileCancelled | DestinationExists | InvalidDestinationType | ConfirmationRequired | ConfirmationMismatch
| DestinationChanged | ResultIdentityMismatch | EncodeFailed (source : ExportEncodeError)
| ExportNotCommitted (stage : ExportFileStage) | ExportDurabilityUnknown (stage : ExportFileStage).

Record ExportFileOutcome := {
  xo_format : ExportFormat;
  xo_overwrite_policy : OverwritePolicy;
  xo_row_count : N;
  xo_bytes_written : N;
}.

#[export] Instance FileIdentity_eq : EqDecision FileIdentity. Proof. solve_decision. Defined.

Definition file_identity (i : N) (node : Inode) : FileIdentity :=
  {| fi_device := in_device node; fi_inode := i; fi_size := N.of_nat (length (in_content node));
     fi_modified_seconds := (in_modified node).1; fi_modified_nanoseconds := (in_modified node).2 |}.

Section export_file.
Context (pf : FilePlatform).

(** ** Computations *)

(** They may fail with [E], change the world, or not finish ([None]: an encoder that is
    interrupted without end). *)
Definition X (E A : Type) : Type := ExportWorld -> option (result E A * ExportWorld).

#[export] Instance X_ret E : MRet (X E) := fun _ a w => Some (Ok a, w).
#[export] Instance X_bind E : MBind (X E) := fun _ _ f m w =>
  match m w with
  | Some (Ok a, w) => f a w
  | Some (Err e, w) => Some (Err e, w)
  | None => None
  end.

Definition x_throw {E A} (e : E) : X E A := fun w => Some (Err e, w).
Definition x_lift {E A} (r : result E A) : X E A := fun w => Some (r, w).
Definition x_map_err {E F A} (f : E -> F) (m : X E A) : X F A := fun w =>
  '(r, w) ← m w; Some (map_err f r, w).
Definition x_attempt {E F A} (m : X E A) : X F (result E A) := fun w => '(r, w) ← m w; Some (Ok r, w).

Definition not_committed_at {A} (stage : ExportFileStage) (m : X IoKind A) : X ExportFileError A :=
  x_map_err (fun _ => ExportNotCommitted stage) m.

(** ** System calls *)

Definition on_disk (w : ExportWorld) (d : Disk) : ExportWorld :=
  {| ew_disk := d; ew_calls := ew_calls w; ew_looks := ew_looks w; ew_inode := ew_inode w;
     ew_offset := ew_offset w; ew_written := ew_written w |}.

(** Before a call the other processes act. *)
Definition before_call (w : ExportWorld) : ExportWorld :=
  {| ew_disk := fp_others pf (ew_calls w) (ew_disk w); ew_calls := S (ew_calls w); ew_looks := ew_looks w;
     ew_inode := ew_inode w; ew_offset := ew_offset w; ew_written := ew_written w |}.

Definition x_call {A} (act : ExportWorld -> result IoKind (A * ExportWorld)) : X IoKind A := fun w =>
  let w1 := before_call w in
  if fp_fails pf (ew_calls w) then Some (Err OtherIo, w1)
  else match act w1 with Ok (a, w2) => Some (Ok a, w2) | Err e => Some (Err e, w1) end.

(** Calls on handles and directories that leave the files as they are. *)
Definition x_plain : X IoKind unit := x_call (fun w => Ok (tt, w)).

(** [fs::symlink_metadata]: [None] is not a regular file. *)
Definition x_metadata (path : str) : X IoKind (option FileIdentity) :=
  x_call (fun w =>
    match dk_paths (ew_disk w) !! path with
    | None => Err NotFound
    | Some EntryOther => Ok (None, w)
    | Some (EntryFile i) =>
        match dk_inodes (ew_disk w) !! i with
        | Some node => Ok (Some (file_identity i node), w)
        | None => Err OtherIo
        end
    end).

(** [create_new] with mode 0600. *)
Definition x_create (path : str) : X IoKind unit :=
  x_call (fun w =>
    let d := ew_disk w in
    match dk_paths d !! path with
    | Some _ => Err AlreadyExists
    | None =>
        let i := fp_inode pf (named_inodes d) in
        let node := {| in_device := fp_device pf; in_modified := fp_time pf (ew_calls w); in_content := [];
                       in_private := true |} in
        Ok (tt, {| ew_disk := {| dk_paths := <[path := EntryFile i]> (dk_paths d);
                                 dk_inodes := <[i := node]> (dk_inodes d) |};
                   ew_calls := ew_calls w; ew_looks := ew_looks w; ew_inode := i; ew_offset := 0;
                   ew_written := [] |})
    end).

(** [file.set_permissions] *)
Definition x_make_private : X IoKind unit :=
  x_call (fun w =>
    let private node := {| in_device := in_device node; in_modified := in_modified node;
                           in_content := in_content node; in_private := true |} in
    Ok (tt, on_disk w (with_inodes (ew_disk w) (alter private (ew_inode w) (dk_inodes (ew_disk w)))))).

(** Bytes written at an offset. *)
Definition splice (content : bytes) (offset : nat) (data : bytes) : bytes :=
  take offset content ++ replicate (offset - length content) 0%N ++ data ++ drop (offset + length data) content.

(** [write] on the handle. *)
Definition handle_write (buf : bytes) (w : ExportWorld) : result IoError nat * ExportWorld :=
  let w1 := before_call w in
  match fp_write pf (ew_calls w) with
  | Err e => (Err e, w1)
  | Ok n =>
      let data := take n buf in
      let written node :=
        {| in_device := in_device node; in_modified := fp_time pf (ew_calls w);
           in_content := splice (in_content node) (ew_offset w1) data; in_private := in_private node |} in
      (Ok (length data),
       {| ew_disk := with_inodes (ew_disk w1) (alter written (ew_inode w1) (dk_inodes (ew_disk w1)));
          ew_calls := ew_calls w1; ew_looks := ew_looks w1; ew_inode := ew_inode w1;
          ew_offset := ew_offset w1 + length data; ew_written := ew_written w1 ++ data |})
  end.

Definition look (w : ExportWorld) : bool * ExportWorld :=
  (fp_cancelled pf (ew_looks w),
   {| ew_disk := ew_disk w; ew_calls := ew_calls w; ew_looks := S (ew_looks w); ew_inode := ew_inode w;
      ew_offset := ew_offset w; ew_written := ew_written w |}).

Definition file_sink : Sink :=
  {| sink_state := ExportWorld; sink_write := handle_write; sink_accepted := ew_written; sink_cancelled := look |}.

(** [renameat2] with [RENAME_NOREPLACE] *)
Definition x_rename_no_replace (from to : str) : X IoKind unit :=
  x_call (fun w =>
    let d := ew_disk w in
    node ← ok_or (dk_paths d !! from) NotFound;
    match dk_paths d !! to with
    | Some _ => Err AlreadyExists
    | None => Ok (tt, on_disk w (with_paths d (<[to := node]> (delete from (dk_paths d)))))
    end).

Definition x_rename (from to : str) : X IoKind unit :=
  x_call (fun w =>
    let d := ew_disk w in
    node ← ok_or (dk_paths d !! from) NotFound;
    Ok (tt, on_disk w (with_paths d (<[to := node]> (delete from (dk_paths d)))))).

Definition x_remove (path : str) : X IoKind unit :=
  x_call (fun w =>
    let d := ew_disk w in
    _ ← ok_or (dk_paths d !! path) NotFound;
    Ok (tt, on_disk w (with_paths d (delete path (dk_paths d))))).

(** [metadata().len()] of the handle *)
Definition x_length : X IoKind N :=
  x_call (fun w =>
    node ← ok_or (dk_inodes (ew_disk w) !! ew_inode w) OtherIo;
    Ok (N.of_nat (length (in_content node)), w)).

Definition x_cancelled : X ExportFileError bool := fun w => let '(stop, w) := look w in Some (Ok stop, w).

(** ** The export *)

Definition destination_directory (destination : str) : str :=
  match fp_parent pf destination with Some (c :: p) => c :: p | _ => lit "." end.

Definition hex_bytes (bs : bytes) : str := bs ≫= fun b => [hex_digit (b / 16); hex_digit (b mod 16)]%N.

Definition export_temp_path (directory suffix : str) : str :=
  path_join directory (lit ".dbotter-export." ++ display_N (fp_process_id pf) ++ lit "." ++ suffix ++ lit ".tmp").

Fixpoint create_private_temp_loop (attempts : nat) (attempt : nat) (directory : str) : X ExportFileError str :=
  match attempts with
  | 0 => x_throw (ExportNotCommitted TempCreated)
  | S attempts =>
      match fp_random pf attempt with
      | None => x_throw (ExportNotCommitted TempCreated)
      | Some random =>
          let path := export_temp_path directory (hex_bytes random) in
          created ← x_attempt (x_create path);
          match created with
          | Ok _ =>
              permitted ← x_attempt x_make_private;
              match permitted with
              | Ok _ => mret path
              | Err _ => x_attempt (F := ExportFileError) (x_remove path) ;; x_throw (ExportNotCommitted TempCreated)
              end
          | Err AlreadyExists => create_private_temp_loop attempts (S attempt) directory
          | Err _ => x_throw (ExportNotCommitted TempCreated)
          end
      end
  end.

Definition create_private_temp : str -> X ExportFileError str := create_private_temp_loop 32 0.

Definition validate_commit_policy (request : ExportResult) (confirmation : option ConfirmedDestination) :
    X ExportFileError unit :=
  match er_overwrite_policy request with
  | DenyOverwrite =>
      if bool_decide (is_Some confirmation) then x_throw ConfirmationMismatch
      else
        found ← x_attempt (x_metadata (er_destination request));
        match found with
        | Ok (Some _) => x_throw DestinationExists
        | Ok None => x_throw InvalidDestinationType
        | Err NotFound => mret tt
        | Err _ => x_throw (ExportNotCommitted TempCreated)
        end
  | ReplaceConfirmed =>
      confirmation ← x_lift (ok_or confirmation ConfirmationRequired);
      if bool_decide (cd_path confirmation = er_destination request) then mret tt else x_throw ConfirmationMismatch
  end.

Definition verify_confirmed_destination (destination : str) (confirmation : ConfirmedDestination) :
    X ExportFileError unit :=
  if negb (bool_decide (cd_path confirmation = destination)) then x_throw ConfirmationMismatch
  else
    found ← x_attempt (x_metadata destination);
    match found with
    | Ok (Some identity) =>
        if bool_decide (identity = cd_identity confirmation) then mret tt else x_throw DestinationChanged
    | Ok None | Err _ => x_throw DestinationChanged
    end.

Definition commit_destination (request : ExportResult) (confirmation : option ConfirmedDestination)
    (temp_path : str) : X ExportFileError unit :=
  let destination := er_destination request in
  match er_overwrite_policy request with
  | DenyOverwrite =>
      renamed ← x_attempt (x_rename_no_replace temp_path destination);
      match renamed with
      | Ok _ => mret tt
      | Err _ =>
          found ← x_attempt (x_metadata destination);
          match found with
          | Ok (Some _) => x_throw DestinationExists
          | Ok None => x_throw InvalidDestinationType
          | Err _ => x_throw (ExportNotCommitted BeforeCommit)
          end
      end
  | ReplaceConfirmed =>
      confirmation ← x_lift (ok_or confirmation ConfirmationRequired);
      verify_confirmed_destination destination confirmation ;;
      not_committed_at BeforeCommit (x_rename temp_path destination)
  end.

(** [symlink_regular_metadata] and [confirm_replace] *)
Definition confirm_replace (destination : str) : X ExportFileError ConfirmedDestination :=
  found ← x_attempt (x_metadata destination);
  match found with
  | Ok (Some identity) => mret {| cd_path := destination; cd_identity := identity |}
  | Ok None => x_throw InvalidDestinationType
  | Err NotFound => x_throw ConfirmationRequired
  | Err _ => x_throw (ExportNotCommitted BeforeCommit)
  end.

Context (fmt : Formats) (interrupts : nat).

Definition encode_export (request : ExportResult) : X ExportFileError unit := fun w =>
  '(r, w) ← write_export_with_cancel file_sink interrupts fmt (er_snapshot request) (er_format request) w;
  Some (map_err (fun e => match e with ExportCancelled => ExportFileCancelled | source => EncodeFailed source end) r, w).

(** From the open temporary file to the commit: the length of the file. *)
Definition write_and_commit (request : ExportResult) (confirmation : option ConfirmedDestination) (temp_path : str) :
    X ExportFileError N :=
  encode_export request ;;
  not_committed_at Flushed x_plain ;;
  not_committed_at FileSynced x_plain ;;
  bytes_written ← not_committed_at FileSynced x_length;
  stop ← x_cancelled;
  if stop : bool then x_throw ExportFileCancelled
  else commit_destination request confirmation temp_path ;; mret bytes_written.

(** [TempCleanup]: dropped while armed it removes the file. *)
Definition with_temp_cleanup {A} (temp_path : str) (body : X ExportFileError A) : X ExportFileError A := fun w =>
  match body w with
  | Some (Err e, w) => '(_, w) ← x_remove temp_path w; Some (Err e, w)
  | ended => ended
  end.

Definition sync_directory : X IoKind unit := x_plain ;; x_plain.

(** [export_result_to_file], that is [export_result_to_file_with_faults] without faults. *)
Definition export_result_to_file (request : ExportResult) (confirmation : option ConfirmedDestination) :
    X ExportFileError ExportFileOutcome :=
  if negb (er_result_id request =? rp_result_id (sn_provenance (er_snapshot request)))%N
  then x_throw ResultIdentityMismatch
  else
    validate_commit_policy request confirmation ;;
    temp_path ← create_private_temp (destination_directory (er_destination request));
    bytes_written ← with_temp_cleanup temp_path (write_and_commit request confirmation temp_path);
    x_map_err (fun _ => ExportDurabilityUnknown BeforeDirectorySync) sync_directory ;;
    mret {| xo_format := er_format request; xo_overwrite_policy := er_overwrite_policy request;
            xo_row_count := N.of_nat (length (sn_rows (er_snapshot request)));
            xo_bytes_written := bytes_written |}.
End export_file.
