(* ===== verification/ExportFileTheorems.v ===== *)
(** * An exported file is whole or absent (theorems on ExportFiles)

    Whatever fails and whatever other processes do to the destination, an export changes
    the destination only by its last step, only as its policy allows, and only to the
    complete text; and it leaves no temporary file behind that it could remove. *)

From S2P Require Import Prelude RustStr Model Retention Profile Config ConfigWriter Export ExportSpec.
From S2P Require Import RuntimeEvents CommandPorts ExportFiles.

(** ** Invariants of the inner writer *)

Section keeps.
Context (k : Sink) (J : sink_state k -> Prop) (fmt : Formats) (interrupts : nat).
Context (write_keeps : forall buf s, J s -> J (sink_write k buf s).2).
Context (look_keeps : forall s, J s -> J (sink_cancelled k s).2).

Definition Keeps {A} (m : M k A) : Prop :=
  forall w r w', m w = Some (r, w') -> J (sw_inner k w) -> J (sw_inner k w').

Lemma sink_keeps_ret {A} (a : A) : Keeps (mret a : M k A).
Proof. by intros w r w' [= <- <-]. Qed.
Lemma keeps_fail {A} e : Keeps (fail k e : M k A).
Proof. by intros w r w' [= <- <-]. Qed.
Lemma sink_keeps_bind {A B} (m : M k A) (f : A -> M k B) : Keeps m -> (forall a, Keeps (f a)) -> Keeps (m ≫= f).
Proof.
  intros Hm Hf w r w'. unfold mbind, M_bind. destruct (m w) as [[[a|e] w1]|] eqn:Hw; [| |done].
  - intros Hr HJ. eapply Hf; [exact Hr|]. by eapply Hm.
  - intros [= <- <-] HJ. by eapply Hm.
Qed.

Lemma keeps_stream_write buf w : J (sw_inner k w) -> J (sw_inner k (stream_write k buf w).2).
Proof using write_keeps look_keeps.
  intros HJ. unfold stream_write. pose proof (look_keeps (sw_inner k w) HJ) as Hl.
  destruct (sink_cancelled k (sw_inner k w)) as [[|] s]; [done|]. cbn in Hl.
  pose proof (write_keeps (take (length buf `min` STREAM_CHUNK_BYTES) buf) s Hl) as Hw.
  by destruct (sink_write k _ s).
Qed.

Lemma keeps_write_all_loop fuel buf : Keeps (write_all_loop k fuel buf).
Proof using write_keeps look_keeps.
  revert buf. induction fuel as [|fuel IH]; intros [|b buf] w r w'; cbn; try done; try (by intros [= <- <-]).
  pose proof (keeps_stream_write (b :: buf) w) as Hs. destruct (stream_write k (b :: buf) w) as [[[|n]|[]] w1]; cbn in Hs.
  - intros [= <- <-]. exact Hs.
  - intros H HJ. eapply IH; [exact H|]. by apply Hs.
  - intros H HJ. eapply IH; [exact H|]. by apply Hs.
  - intros [= <- <-]. exact Hs.
  - intros [= <- <-]. exact Hs.
Qed.

Lemma keeps_write_str s : Keeps (write_str k interrupts s).
Proof using write_keeps look_keeps. apply keeps_write_all_loop. Qed.

Lemma keeps_for_each {A} (f : nat -> A -> M k unit) index l :
  (forall i a, Keeps (f i a)) -> Keeps (for_each k f index l).
Proof. intros Hf. revert index. induction l as [|a l IH]; intros index; cbn; [apply sink_keeps_ret|by apply sink_keeps_bind]. Qed.

Create HintDb writes.
Hint Resolve sink_keeps_ret keeps_fail keeps_write_str : writes.

Ltac keeps_all :=
  repeat first [ lazymatch goal with |- forall _, _ => intro end | progress cbv zeta | solve [auto 2 with writes]
               | apply keeps_for_each | apply sink_keeps_bind | case_match ].

Lemma keeps_separator sep index : Keeps (separator k interrupts sep index).
Proof using write_keeps look_keeps. unfold separator. keeps_all. Qed.

Lemma keeps_write_quoted fuel remainder : Keeps (write_quoted k interrupts fuel remainder).
Proof using write_keeps look_keeps.
  revert remainder. induction fuel as [|fuel IH]; intros remainder; cbn [write_quoted]; keeps_all.
Qed.
Hint Resolve keeps_separator keeps_write_quoted : writes.

Lemma keeps_csv_field field : Keeps (write_csv_field k interrupts field).
Proof using write_keeps look_keeps. unfold write_csv_field. keeps_all. Qed.
Lemma keeps_json_cell cell : Keeps (write_json_cell k interrupts fmt cell).
Proof using write_keeps look_keeps.
  destruct cell; cbn [write_json_cell]; unfold write_string_cell, write_preview, write_json_string; keeps_all.
Qed.
Hint Resolve keeps_csv_field keeps_json_cell : writes.

Lemma keeps_write_export sn format s r s' :
  write_export_with_cancel k interrupts fmt sn format s = Some (r, s') -> J s -> J s'.
Proof using write_keeps look_keeps.
  unfold write_export_with_cancel. intros H HJ.
  assert (Hkeeps : Keeps (match format with
    | Csv => write_csv k interrupts fmt sn | Tsv => write_tsv k interrupts fmt sn | Json => write_json k interrupts fmt sn
    end)).
  { destruct format; unfold write_csv, write_tsv, write_json, write_json_column, write_json_row, require_tabular,
      require_row_width, write_json_string; keeps_all. }
  destruct format; apply bind_Some in H as ([r1 w1] & Hm & [= <- <-]); by apply (Hkeeps _ _ _ Hm).
Qed.
End keeps.

(** What a complete encoding has written. *)
Lemma encode_complete k (Hk : sink_laws k) interrupts fmt sn format s s' :
  write_export_with_cancel k interrupts fmt sn format s = Some (Ok tt, s') ->
  (export_text fmt sn format).2 = Ok tt /\
  sink_accepted k s' = sink_accepted k s ++ encode (export_text fmt sn format).1.
Proof.
  unfold write_export_with_cancel. pose proof (Writes_export k Hk interrupts fmt sn format) as HW.
  destruct (export_text fmt sn format) as [text outcome]. destruct HW as [Hsafe _]. intros H.
  destruct format; apply bind_Some in H as ([r1 w1] & Hm & Hr); cbn in Hr; injection Hr as Hr <-;
    (destruct (sw_cancelled k w1) eqn:Hc; [done|]); subst r1;
    (apply Hsafe in Hm as [(<- & Ha & _)|(e & p & [=] & _)]); by split.
Qed.

(** ** What a path shows *)

Inductive View := NoFile | NotRegular | AFile (i : N) (node : option Inode).

Definition view (d : Disk) (path : str) : View :=
  match dk_paths d !! path with
  | None => NoFile
  | Some EntryOther => NotRegular
  | Some (EntryFile i) => AFile i (dk_inodes d !! i)
  end.

Section file.
Context (pf : FilePlatform).

Definition is_temp (path : str) : Prop := exists directory suffix, path = export_temp_path pf directory suffix.

(** The temporary names carry the identifier of the process: other processes leave those
    files alone, and do not link to them.  A new inode is one that no path names. *)
Record others_ok : Prop := {
  oo_paths : forall n d path, is_temp path -> dk_paths (fp_others pf n d) !! path = dk_paths d !! path;
  oo_inodes : forall n d path i, is_temp path -> dk_paths d !! path = Some (EntryFile i) ->
    dk_inodes (fp_others pf n d) !! i = dk_inodes d !! i /\
    forall other, dk_paths (fp_others pf n d) !! other = Some (EntryFile i) -> dk_paths d !! other = Some (EntryFile i);
  oo_fresh : forall inodes, fp_inode pf inodes ∉ inodes;
}.

(** Others keep a property of what a path shows. *)
Definition stable (path : str) (P : View -> Prop) : Prop :=
  forall n d, P (view d path) -> P (view (fp_others pf n d) path).

(** ** Computations *)

Definition xp {E A} (m : X E A) (w : ExportWorld) (Q : result E A -> ExportWorld -> Prop) : Prop :=
  match m w with Some (r, w') => Q r w' | None => True end.

Lemma xp_bind {E A B} (m : X E A) (f : A -> X E B) w (Q : result E B -> ExportWorld -> Prop) :
  xp m w (fun r w' => match r with Ok a => xp (f a) w' Q | Err e => Q (Err e) w' end) -> xp (m ≫= f) w Q.
Proof. unfold xp, mbind, X_bind. by destruct (m w) as [[[a|e] w']|]. Qed.

Lemma xp_mono {E A} (m : X E A) w (Q Q' : result E A -> ExportWorld -> Prop) :
  xp m w Q -> (forall r w', Q r w' -> Q' r w') -> xp m w Q'.
Proof. unfold xp. destruct (m w) as [[r w']|]; auto. Qed.

Lemma xp_map_err {E F A} (f : E -> F) (m : X E A) w (Q : result F A -> ExportWorld -> Prop) :
  xp m w (fun r w' => Q (map_err f r) w') -> xp (x_map_err f m) w Q.
Proof. unfold xp, x_map_err. by destruct (m w) as [[r w']|]. Qed.

Lemma xp_attempt {E F A} (m : X E A) w (Q : result F (result E A) -> ExportWorld -> Prop) :
  xp m w (fun r w' => Q (Ok r) w') -> xp (x_attempt m) w Q.
Proof. unfold xp, x_attempt. by destruct (m w) as [[r w']|]. Qed.

Lemma xp_call {A} (act : ExportWorld -> result IoKind (A * ExportWorld)) w (Q : result IoKind A -> ExportWorld -> Prop) :
  Q (Err OtherIo) (before_call pf w) ->
  (fp_fails pf (ew_calls w) = false ->
   match act (before_call pf w) with Ok (a, w') => Q (Ok a) w' | Err e => Q (Err e) (before_call pf w) end) ->
  xp (x_call pf act) w Q.
Proof.
  unfold xp, x_call. cbv zeta. destruct (fp_fails pf (ew_calls w)); [done|]. intros _ H. specialize (H eq_refl).
  by destruct (act (before_call pf w)) as [[a w']|e].
Qed.

(** ** What holds while an export runs *)

Context (Hothers : others_ok) (destination : str) (Hdest : ~ is_temp destination).
Context (Before : View -> Prop) (Hstable : stable destination Before).
Context (paths0 : gmap (list N) DirEntry).

(** Nothing was changed: neither the destination nor a temporary name. *)
Definition quiet (w : ExportWorld) : Prop :=
  Before (view (ew_disk w) destination) /\
  forall path, is_temp path -> paths0 !! path = None -> dk_paths (ew_disk w) !! path = None.

(** The temporary file holds what was written, and is named by its path only. *)
Record temp_file (temp : str) (w : ExportWorld) : Prop := {
  tf_temp : is_temp temp;
  tf_path : dk_paths (ew_disk w) !! temp = Some (EntryFile (ew_inode w));
  tf_node : exists node, dk_inodes (ew_disk w) !! ew_inode w = Some node /\
    in_content node = ew_written w /\ in_private node = true;
  tf_offset : ew_offset w = length (ew_written w);
  tf_only : forall other, dk_paths (ew_disk w) !! other = Some (EntryFile (ew_inode w)) -> other = temp;
}.

Definition holding (temp : str) (w : ExportWorld) : Prop :=
  Before (view (ew_disk w) destination) /\ temp_file temp w /\
  forall path, is_temp path -> path <> temp -> paths0 !! path = None -> dk_paths (ew_disk w) !! path = None.

Lemma quiet_call w : quiet w -> quiet (before_call pf w).
Proof using Hothers Hstable.
  intros [Hb Hc]. split; [by apply Hstable|]. intros path Ht H0. cbn. rewrite (oo_paths Hothers) by done. by apply Hc.
Qed.

Lemma temp_call temp w : temp_file temp w -> temp_file temp (before_call pf w).
Proof using Hothers.
  intros [Ht Hp (node & Hn & Hrest) Ho Hon].
  destruct (oo_inodes Hothers (ew_calls w) (ew_disk w) temp (ew_inode w) Ht Hp) as [Hi Hl].
  split; cbn; [done|by rewrite (oo_paths Hothers)|exists node; by rewrite Hi|done|]. intros other H. by apply Hon, Hl.
Qed.

Lemma holding_call temp w : holding temp w -> holding temp (before_call pf w).
Proof using Hothers Hstable.
  intros (Hb & Ht & Hc). split_and!; [by apply Hstable|by apply temp_call|].
  intros path Htemp Hne H0. cbn. rewrite (oo_paths Hothers) by done. by apply Hc.
Qed.

(** The destination is not the temporary file. *)
Lemma view_write temp w (f : Inode -> Inode) :
  temp_file temp w ->
  view (with_inodes (ew_disk w) (alter f (ew_inode w) (dk_inodes (ew_disk w)))) destination = view (ew_disk w) destination.
Proof using Hdest.
  intros [Ht _ _ _ Hon]. unfold view. cbn. destruct (dk_paths (ew_disk w) !! destination) as [[i|]|] eqn:Hp; try done.
  rewrite lookup_alter_ne; [done|]. intros <-. apply Hdest. by rewrite (Hon _ Hp).
Qed.

Lemma splice_end content data : splice content (length content) data = content ++ data.
Proof.
  unfold splice. rewrite take_ge, Nat.sub_diag, drop_ge by lia. cbn. by rewrite app_nil_r.
Qed.

Lemma holding_write temp buf w : holding temp w -> holding temp (handle_write pf buf w).2.
Proof using Hothers Hstable Hdest.
  intros Hh%holding_call. unfold handle_write. cbv zeta. destruct (fp_write pf (ew_calls w)) as [n|e]; [|exact Hh].
  set (w1 := before_call pf w) in *. clearbody w1. destruct Hh as (Hb & Ht & Hc). cbn [snd]. split_and!; [| |exact Hc].
  - exact (eq_ind_r Before Hb (view_write temp w1 _ Ht)).
  - destruct Ht as [Ht Hp (node & Hn & Hcontent & Hpriv) Ho Hon]. split; cbn; [done|done| |by rewrite length_app, Ho|done].
    eexists. rewrite lookup_alter_eq, Hn. cbn. split_and!; [done| |done]. rewrite Ho, <- Hcontent. apply splice_end.
Qed.

Lemma holding_look temp w : holding temp w -> holding temp (look pf w).2.
Proof. intros (Hb & [] & Hc). by split_and!. Qed.

(** Calls that only look keep everything. *)
Definition looks {A} (act : ExportWorld -> result IoKind (A * ExportWorld)) : Prop :=
  forall w a w', act w = Ok (a, w') -> w' = w.

Lemma xp_looks {A} (act : ExportWorld -> result IoKind (A * ExportWorld)) (P : ExportWorld -> Prop) w Q :
  looks act -> P (before_call pf w) -> (forall r w', P w' -> Q r w') -> xp (x_call pf act) w Q.
Proof.
  intros Hl HP HQ. apply xp_call; [by apply HQ|]. intros _.
  destruct (act (before_call pf w)) as [[a w']|e] eqn:Ha; [|by apply HQ]. apply Hl in Ha as ->. by apply HQ.
Qed.

Lemma looks_metadata path : looks (fun w =>
  match dk_paths (ew_disk w) !! path with
  | None => Err NotFound
  | Some EntryOther => Ok (None, w)
  | Some (EntryFile i) =>
      match dk_inodes (ew_disk w) !! i with Some node => Ok (Some (file_identity i node), w) | None => Err OtherIo end
  end).
Proof. intros w a w'. repeat case_match; by intros [= <- <-]. Qed.

Lemma policy_quiet request confirmation w :
  quiet w -> xp (validate_commit_policy pf request confirmation) w (fun _ w' => quiet w').
Proof using Hothers Hstable.
  intros Hq. unfold validate_commit_policy. destruct (er_overwrite_policy request).
  - case_bool_decide; [exact Hq|]. apply xp_bind, xp_attempt.
    eapply (xp_looks _ quiet); [apply looks_metadata|by apply quiet_call|]. intros [[]|[]] w' Hw'; exact Hw'.
  - apply xp_bind. destruct confirmation as [c|]; cbn; [|exact Hq]. unfold xp. cbn. case_bool_decide; exact Hq.
Qed.

Lemma policy_errors request confirmation w :
  xp (validate_commit_policy pf request confirmation) w (fun r _ =>
    match r with Err (ExportDurabilityUnknown _) => False | _ => True end).
Proof.
  unfold validate_commit_policy. destruct (er_overwrite_policy request).
  - case_bool_decide; [done|]. apply xp_bind, xp_attempt.
    eapply (xp_looks _ (fun _ => True)); [apply looks_metadata|done|]. by intros [[]|[]] w' _.
  - apply xp_bind. destruct confirmation as [c|]; cbn; [|done]. unfold xp. cbn. by case_bool_decide.
Qed.

(** ** The temporary file *)

Lemma holding_created temp w :
  quiet w -> is_temp temp -> dk_paths (ew_disk w) !! temp = None ->
  let d := ew_disk w in
  let i := fp_inode pf (named_inodes d) in
  let node := {| in_device := fp_device pf; in_modified := fp_time pf (ew_calls w); in_content := [];
                 in_private := true |} in
  holding temp
    {| ew_disk := {| dk_paths := <[temp := EntryFile i]> (dk_paths d); dk_inodes := <[i := node]> (dk_inodes d) |};
       ew_calls := ew_calls w; ew_looks := ew_looks w; ew_inode := i; ew_offset := 0; ew_written := [] |}.
Proof using Hothers Hdest.
  intros [Hb Hc] Ht Hnone d i node.
  assert (Hfresh : forall path, dk_paths d !! path <> Some (EntryFile i)).
  { intros path Hpath. apply (oo_fresh Hothers (named_inodes d)). fold i. unfold named_inodes.
    apply elem_of_list_to_set, list_elem_of_omap. exists (path, EntryFile i). split; [by apply elem_of_map_to_list|done]. }
  assert (Hne : destination <> temp) by (intros Heq; apply Hdest; by rewrite Heq).
  split_and!.
  - unfold view. cbn. rewrite lookup_insert_ne by congruence. fold d.
    unfold view in Hb. fold d in Hb. destruct (dk_paths d !! destination) as [[j|]|] eqn:Hj; try exact Hb.
    rewrite lookup_insert_ne; [exact Hb|]. intros <-. by apply Hfresh in Hj.
  - split; cbn; [done|apply lookup_insert_eq|exists node; by rewrite lookup_insert_eq|done|].
    intros other [[<- _]|[_ H]]%lookup_insert_Some; [done|]. by apply Hfresh in H.
  - intros path Htemp Hpath H0. cbn. rewrite lookup_insert_ne by congruence. by apply Hc.
Qed.

(** Once the file is removed, everything is as it was; it may be that it cannot be. *)
Definition cleaned (w : ExportWorld) : Prop :=
  Before (view (ew_disk w) destination) /\
  (quiet w \/ fp_fails pf (pred (ew_calls w)) = true).

Lemma removed temp w :
  holding temp w -> xp (x_remove pf temp) w (fun _ w' => cleaned w').
Proof using Hothers Hstable Hdest.
  intros Hh. pose proof (holding_call temp w Hh) as (Hb & [Ht Hp _ _ Hon] & Hc).
  unfold xp, x_remove, x_call. cbv zeta. destruct (fp_fails pf (ew_calls w)) eqn:Hf.
  { split; [exact Hb|by right]. }
  rewrite Hp. cbn [ok_or mbind result_bind].
  assert (Hv : view (with_paths (ew_disk (before_call pf w)) (delete temp (dk_paths (ew_disk (before_call pf w))))) destination
    = view (ew_disk (before_call pf w)) destination).
  { unfold view. cbn. rewrite lookup_delete_ne; [done|]. intros Heq. apply Hdest. by rewrite <- Heq. }
  assert (Hb' : Before (view (with_paths (ew_disk (before_call pf w))
    (delete temp (dk_paths (ew_disk (before_call pf w))))) destination)) by (rewrite Hv; exact Hb).
  split; [exact Hb'|]. left. split; [exact Hb'|]. intros path Htemp H0. cbn.
  destruct (decide (path = temp)) as [->|Hne]; [apply lookup_delete_eq|]. rewrite lookup_delete_ne by done. by apply Hc.
Qed.

Lemma created attempts attempt directory w :
  quiet w ->
  xp (create_private_temp_loop pf attempts attempt directory) w (fun r w' =>
    match r with
    | Ok temp => holding temp w' /\ ew_written w' = []
    | Err e => e = ExportNotCommitted TempCreated /\ cleaned w'
    end).
Proof using Hothers Hstable Hdest.
  revert attempt w. induction attempts as [|attempts IH]; intros attempt w Hq; cbn [create_private_temp_loop].
  { split; [done|]. split; [apply Hq|by left]. }
  destruct (fp_random pf attempt) as [random|]; [|split; [done|split; [apply Hq|by left]]].
  cbv zeta. set (temp := export_temp_path pf directory (hex_bytes random)).
  assert (Ht : is_temp temp) by (by exists directory, (hex_bytes random)).
  apply xp_bind, xp_attempt. pose proof (quiet_call w Hq) as Hq1.
  apply xp_call; [split; [done|split; [apply Hq1|by left]]|]. intros _. cbv zeta.
  destruct (dk_paths (ew_disk (before_call pf w)) !! temp) as [entry|] eqn:Hp; [by apply IH|].
  pose proof (holding_created temp (before_call pf w) Hq1 Ht Hp) as Hh. cbv zeta in Hh.
  set (w1 := {| ew_disk := _ |}) in *. apply xp_bind, xp_attempt.
  assert (Hfail : forall w2, holding temp w2 ->
    xp ((x_attempt (F := ExportFileError) (x_remove pf temp) ;; x_throw (A := str) (ExportNotCommitted TempCreated))) w2
      (fun r w' => match r with
         | Ok temp => holding temp w' /\ ew_written w' = []
         | Err e => e = ExportNotCommitted TempCreated /\ cleaned w'
         end)).
  { intros w2 Hw2. apply xp_bind, xp_attempt. eapply xp_mono; [by apply removed|]. intros r w' Hw'. by split. }
  apply xp_call; [by apply Hfail, holding_call|]. intros _. cbv zeta.
  pose proof (holding_call temp w1 Hh) as (Hb & Htf & Hc).
  assert (Hw : ew_written (before_call pf w1) = []) by done. set (w2 := before_call pf w1) in *.
  clearbody w2. unfold xp. cbn. split; [split_and!|exact Hw]; [exact (eq_ind_r Before Hb (view_write temp w2 _ Htf))| |exact Hc].
  destruct Htf as [_ Hp2 (node & Hn & Hcontent & _) Ho Hon]. split; cbn; [done|done| |done|done].
  eexists. rewrite lookup_alter_eq, Hn. by split_and!.
Qed.

(** ** The commit *)

Context (fmt : Formats) (interrupts : nat) (request : ExportResult) (confirmation : option ConfirmedDestination).
Context (Hrequest : er_destination request = destination).

Let text := (export_text fmt (er_snapshot request) (er_format request)).1.
Let outcome := (export_text fmt (er_snapshot request) (er_format request)).2.

(** What the policy asks of the destination that is replaced. *)
Definition allowed : Prop :=
  match er_overwrite_policy request with
  | DenyOverwrite => Before NoFile
  | ReplaceConfirmed =>
      exists c i node, confirmation = Some c /\ cd_path c = destination /\ Before (AFile i (Some node)) /\
        file_identity i node = cd_identity c
  end.

Definition committed (w : ExportWorld) : Prop :=
  (exists i node, view (ew_disk w) destination = AFile i (Some node) /\ in_content node = encode text /\
     in_private node = true) /\
  forall path, is_temp path -> paths0 !! path = None -> dk_paths (ew_disk w) !! path = None.

Definition before_commit (e : ExportFileError) : Prop := match e with ExportDurabilityUnknown _ => False | _ => True end.

Lemma file_sink_laws : sink_laws (file_sink pf).
Proof.
  split; cbn.
  - intros buf w n w'. unfold handle_write. cbv zeta. destruct (fp_write pf (ew_calls w)) as [m|e]; [|done].
    intros [= <- <-]. cbn. rewrite length_take. split; [lia|]. f_equal.
    destruct (decide (m <= length buf)); [by rewrite Nat.min_l|]. rewrite Nat.min_r by lia. by rewrite !take_ge by lia.
  - intros buf w e w'. unfold handle_write. cbv zeta. destruct (fp_write pf (ew_calls w)); [done|]. by intros [= <- <-].
  - intros w b w' [= <- <-]. done.
Qed.

Lemma encoded temp w :
  holding temp w -> ew_written w = [] ->
  xp (encode_export pf fmt interrupts request) w (fun r w' =>
    holding temp w' /\
    match r with Ok _ => outcome = Ok tt /\ ew_written w' = encode text | Err e => before_commit e end).
Proof using Hothers Hstable Hdest.
  intros Hh Hw. unfold xp, encode_export.
  destruct (write_export_with_cancel (file_sink pf) interrupts fmt (er_snapshot request) (er_format request) w)
    as [[r w']|] eqn:Hr; cbn; [|done].
  pose proof (keeps_write_export (file_sink pf) (holding temp) fmt interrupts (holding_write temp)
    (fun w => holding_look temp w) _ _ _ _ _ Hr Hh) as Hh'. split; [exact Hh'|].
  destruct r as [[]|[]]; cbn; try done.
  apply (encode_complete (file_sink pf) file_sink_laws) in Hr as [Ho Ha]. cbn in Ha. rewrite Hw in Ha. by split.
Qed.

Lemma renamed temp w1 :
  holding temp w1 -> ew_written w1 = encode text ->
  committed (on_disk w1 (with_paths (ew_disk w1)
    (<[destination := EntryFile (ew_inode w1)]> (delete temp (dk_paths (ew_disk w1)))))).
Proof using Hdest.
  intros (_ & [Ht Hp (node & Hn & Hcontent & Hpriv) _ _] & Hc) Hw. split.
  - exists (ew_inode w1), node. unfold view. cbn. rewrite lookup_insert_eq, Hn. split_and!; [done|congruence|done].
  - intros path Htemp H0. cbn. rewrite lookup_insert_ne by (intros Heq; apply Hdest; by rewrite Heq).
    destruct (decide (path = temp)) as [->|Hne]; [apply lookup_delete_eq|]. rewrite lookup_delete_ne by done. by apply Hc.
Qed.

Lemma committing temp w :
  holding temp w -> ew_written w = encode text ->
  xp (commit_destination pf request confirmation temp) w (fun r w' =>
    match r with Ok _ => allowed /\ committed w' | Err e => before_commit e /\ holding temp w' end).
Proof using Hothers Hstable Hdest Hrequest.
  intros Hh Hw. pose proof (holding_call temp w Hh) as Hh1. unfold commit_destination. rewrite Hrequest. cbv zeta.
  destruct (er_overwrite_policy request) eqn:Hpolicy.
  - assert (Hrefused : forall w1, holding temp w1 ->
      xp (found ← x_attempt (x_metadata pf destination);
          match found with
          | Ok (Some _) => x_throw DestinationExists
          | Ok None => x_throw InvalidDestinationType
          | Err _ => x_throw (ExportNotCommitted BeforeCommit)
          end) w1 (fun r w' => match r : result ExportFileError unit with
                               | Ok _ => allowed /\ committed w' | Err e => before_commit e /\ holding temp w' end)).
    { intros w1 Hw1. apply xp_bind, xp_attempt.
      eapply (xp_looks _ (holding temp)); [apply looks_metadata|by apply holding_call|]. intros [[]|e] w' Hw'; by split. }
    apply xp_bind, xp_attempt. apply xp_call; [by apply Hrefused|]. intros _. cbv zeta.
    destruct Hh1 as (Hb & Htf & Hc). rewrite (tf_path _ _ Htf). cbn [ok_or mbind result_bind].
    destruct (dk_paths (ew_disk (before_call pf w)) !! destination) as [entry|] eqn:Hp; [by apply Hrefused|].
    unfold xp. cbn -[before_call]. split.
    + unfold allowed. rewrite Hpolicy. unfold view in Hb. by rewrite Hp in Hb.
    + by apply renamed.
  - apply xp_bind. unfold xp, x_lift. destruct confirmation as [c|] eqn:Hconf; cbn [ok_or]; [|by split].
    apply xp_bind. unfold verify_confirmed_destination. case_bool_decide as Hpath; cbn [negb]; [|by split].
    apply xp_bind, xp_attempt. apply xp_call; [by split|]. intros _. set (w1 := before_call pf w) in *.
    assert (Hwritten : ew_written w1 = encode text) by exact Hw.
    destruct (dk_paths (ew_disk w1) !! destination) as [[i|]|] eqn:Hp; [|by split..].
    destruct (dk_inodes (ew_disk w1) !! i) as [node|] eqn:Hn; [|by split].
    case_bool_decide as Hidentity; [|by split].
    assert (Hallowed : allowed).
    { unfold allowed. rewrite Hpolicy, Hconf. exists c, i, node. split_and!; [done|done| |done].
      destruct Hh1 as [Hb _]. unfold view in Hb. by rewrite Hp, Hn in Hb. }
    unfold xp. cbn [mret X_ret]. apply xp_map_err. pose proof (holding_call temp w1 Hh1) as Hh2.
    apply xp_call; [by split|]. intros _. cbv zeta.
    pose proof Hh2 as (_ & Htf & _). rewrite (tf_path _ _ Htf). cbn [ok_or mbind result_bind].
    split; [exact Hallowed|]. by apply renamed.
Qed.

Lemma written temp w :
  holding temp w -> ew_written w = [] ->
  xp (write_and_commit pf fmt interrupts request confirmation temp) w (fun r w' =>
    match r with
    | Ok n => n = N.of_nat (length (encode text)) /\ outcome = Ok tt /\ allowed /\ committed w'
    | Err e => before_commit e /\ holding temp w'
    end).
Proof using Hothers Hstable Hdest Hrequest.
  intros Hh Hw. unfold write_and_commit. apply xp_bind. eapply xp_mono; [by apply encoded|].
  intros [[]|e] w1 [Hh1 Hr]; [|by split]. destruct Hr as [Ho Hw1].
  set (P := fun w => holding temp w /\ ew_written w = encode text).
  assert (Hcall : forall w, P w -> P (before_call pf w)) by (intros w2 []; split; [by apply holding_call|done]).
  assert (Hplain : forall stage w2, stage <> TempCreated -> P w2 ->
    xp (not_committed_at stage (x_plain pf)) w2 (fun r w' => P w' /\ match r with Ok _ => True | Err e => before_commit e end)).
  { intros stage w2 _ HP. apply xp_map_err. eapply (xp_looks _ P); [by intros ??? [= _ <-]|by apply Hcall|].
    intros [|] w' Hw'; by split. }
  assert (HP : P w1) by done. clear Hh1 Hw1.
  apply xp_bind. eapply xp_mono; [by apply Hplain|]. intros [[]|e] w2 [HP2 He]; [|by split; [|apply HP2]].
  apply xp_bind. eapply xp_mono; [by apply Hplain|]. intros [[]|e] w3 [HP3 He3]; [|by split; [|apply HP3]].
  apply xp_bind, xp_map_err. apply Hcall in HP3 as HP4. apply xp_call; [by split; [|apply HP4]|]. intros _. cbv zeta.
  destruct HP4 as [Hh4 Hw4]. pose proof Hh4 as (_ & [_ _ (node & Hn & Hcontent & _) _ _] & _).
  rewrite Hn. cbn [ok_or mbind result_bind map_err]. set (w4 := before_call pf w3) in *. clearbody w4.
  apply xp_bind. unfold xp at 1, x_cancelled. pose proof (holding_look temp w4 Hh4) as Hh5.
  assert (Hw5 : ew_written (look pf w4).2 = encode text) by exact Hw4.
  destruct (look pf w4) as [stop w5]. cbn [snd] in Hh5, Hw5. destruct stop; [by split|].
  apply xp_bind. eapply xp_mono; [by apply committing|]. intros [[]|e] w6 Hr; [|exact Hr].
  unfold xp. cbn. split; [by rewrite Hcontent, Hw4|]. by destruct Hr.
Qed.

(** ** The whole export *)

Definition gone (w : ExportWorld) : Prop :=
  forall path, is_temp path -> paths0 !! path = None -> dk_paths (ew_disk w) !! path = None.

Lemma exported After w :
  stable destination After ->
  (forall i node, in_content node = encode text -> in_private node = true -> After (AFile i (Some node))) ->
  quiet w ->
  xp (export_result_to_file pf fmt interrupts request confirmation) w (fun r w' =>
    match r with
    | Ok o => xo_bytes_written o = N.of_nat (length (encode text)) /\ outcome = Ok tt /\ allowed /\
        After (view (ew_disk w') destination) /\ gone w'
    | Err (ExportDurabilityUnknown _) =>
        outcome = Ok tt /\ allowed /\ After (view (ew_disk w') destination) /\ gone w'
    | Err _ => cleaned w'
    end).
Proof using Hothers Hstable Hdest Hrequest.
  intros Hafter Htext Hq. unfold export_result_to_file. assert (Hquiet : forall w, quiet w -> cleaned w) by (intros w1 []; split; [done|by left]).
  case_match; [by apply Hquiet|]. apply xp_bind.
  pose proof (policy_quiet request confirmation w Hq) as Hpolicy. unfold xp in Hpolicy |- * at 1.
  pose proof (policy_errors request confirmation w) as Herr. unfold xp in Herr.
  destruct (validate_commit_policy pf request confirmation w) as [[[[]|e] w1]|]; [| |done].
  2: { destruct e; try done; by apply Hquiet. }
  apply xp_bind. eapply xp_mono; [by apply created|]. intros [temp|e] w2; [|intros [-> Hc]; exact Hc].
  intros [Hh Hw]. apply xp_bind. pose proof (written temp w2 Hh Hw) as Hbody. unfold with_temp_cleanup, xp at 1. unfold xp in Hbody.
  destruct (write_and_commit pf fmt interrupts request confirmation temp w2) as [[[n|e] w3]|]; [| |done].
  2: { destruct Hbody as [He Hh3]. pose proof (removed temp w3 Hh3) as Hrem. unfold xp in Hrem.
       destruct (x_remove pf temp w3) as [[r w4]|]; cbn; [|done]. by destruct e. }
  destruct Hbody as (-> & Ho & Hallowed & (i & node & Hv & Hcontent & Hpriv) & Hgone).
  set (P := fun w => After (view (ew_disk w) destination) /\ gone w).
  assert (HP : P w3) by (split; [rewrite Hv; by apply Htext|exact Hgone]).
  assert (Hcall : forall w, P w -> P (before_call pf w)).
  { intros w4 [Ha Hg]. split; [by apply Hafter|]. intros path Htemp H0. cbn. rewrite (oo_paths Hothers) by done. by apply Hg. }
  assert (Hplain : forall w, P w -> xp (x_plain pf) w (fun _ w' => P w')).
  { intros w4 HP4. eapply (xp_looks _ P); [by intros ??? [= _ <-]|by apply Hcall|done]. }
  apply xp_bind, xp_map_err. unfold sync_directory. apply xp_bind.
  eapply xp_mono; [by apply Hplain|]. intros [[]|e] w4 HP4; [|by destruct HP4].
  eapply xp_mono; [by apply Hplain|]. intros [[]|e] w5 HP5; destruct HP5; [|done]. unfold xp. by cbn.
Qed.
End file.

(** C11: an exported file is whole or absent, whatever calls fail and however writes are
    cut short.  [Before] and [After] are what the other processes keep true of the
    destination.  An export that ends before its commit leaves the destination to them:
    [Before] still holds.  An export that commits, also when it cannot tell how durably,
    has put a private file with the complete text of the format there, of which [After]
    holds.  Under DenyOverwrite it only does so when [Before] allows an absent
    destination: the rename itself refuses to replace, so a file that another process
    puts there first, at whatever moment, survives.  Under ReplaceConfirmed it only does
    so when [Before] allows a file with the confirmed identity, since that is what the
    last check saw; check and rename are two calls, and a file that is swapped in between
    them is replaced, as docs/usable-mvp/spec.md says: what is protected is only what
    [Before] says the others keep.  The length that is reported is that of the text, and
    the temporary file is gone unless removing it failed. *)
Theorem export_file_atomic pf fmt interrupts request confirmation w r w' (Before After : View -> Prop) :
  let destination := er_destination request in
  let '(text, outcome) := export_text fmt (er_snapshot request) (er_format request) in
  others_ok pf -> ~ is_temp pf destination ->
  stable pf destination Before -> stable pf destination After ->
  Before (view (ew_disk w) destination) ->
  (forall i node, in_content node = encode text -> in_private node = true -> After (AFile i (Some node))) ->
  export_result_to_file pf fmt interrupts request confirmation w = Some (r, w') ->
  match r with
  | Ok _ | Err (ExportDurabilityUnknown _) =>
      outcome = Ok tt /\ After (view (ew_disk w') destination) /\
      match er_overwrite_policy request with
      | DenyOverwrite => Before NoFile
      | ReplaceConfirmed =>
          exists c i node, confirmation = Some c /\ cd_path c = destination /\ Before (AFile i (Some node)) /\
            file_identity i node = cd_identity c
      end
  | Err _ => Before (view (ew_disk w') destination)
  end /\
  (forall o, r = Ok o -> xo_bytes_written o = N.of_nat (length (encode text))) /\
  (forall path, is_temp pf path -> dk_paths (ew_disk w) !! path = None ->
     dk_paths (ew_disk w') !! path = None \/ fp_fails pf (pred (ew_calls w')) = true).
Proof.
  intros destination. destruct (export_text _ _ _) as [text outcome] eqn:Htext.
  intros Hothers Hdest Hbefore Hafter Hb Hcomplete Hrun.
  pose proof (exported pf Hothers destination Hdest Before Hbefore (dk_paths (ew_disk w)) fmt interrupts request
    confirmation eq_refl After w Hafter) as H. rewrite Htext in H. unfold xp in H. rewrite Hrun in H.
  specialize (H Hcomplete ltac:(by split)).
  assert (Hcleaned : cleaned pf destination Before (dk_paths (ew_disk w)) w' ->
    forall path, is_temp pf path -> dk_paths (ew_disk w) !! path = None ->
      dk_paths (ew_disk w') !! path = None \/ fp_fails pf (pred (ew_calls w')) = true).
  { intros [_ [[_ Hc]|Hf]] path Htemp H0; [left; by apply Hc|by right]. }
  destruct r as [o|e].
  - destruct H as (Hn & Ho & Hallowed & Ha & Hg). split_and!; [done|done|exact Hallowed|by intros o' [= <-]|].
    intros path Htemp H0. left. by apply Hg.
  - destruct e; try (split_and!; [apply H|done|by apply Hcleaned]).
    destruct H as (Ho & Hallowed & Ha & Hg). split_and!; [done|done|exact Hallowed|done|].
    intros path Htemp H0. left. by apply Hg.
Qed.

(** ** An export

    Another process makes a file of its own before every call; a write takes at most
    seven bytes. *)

Definition export_platform : FilePlatform :=
  {| fp_fails := fun _ => false;
     fp_others := fun n d => with_paths d (<[lit "other" := EntryOther]> (dk_paths d));
     fp_write := fun _ => Ok 7; fp_inode := fun inodes => fresh inodes; fp_device := 1; fp_time := fun n => (Z.of_nat n, 0%Z);
     fp_random := fun n => Some [N.of_nat n]; fp_process_id := 77; fp_parent := fun _ => Some (lit "dir");
     fp_cancelled := fun _ => false |}.

Definition empty_world : ExportWorld :=
  {| ew_disk := {| dk_paths := ∅; dk_inodes := ∅ |}; ew_calls := 0; ew_looks := 0; ew_inode := 0; ew_offset := 0;
     ew_written := [] |}.

Definition sample_export : ExportResult :=
  {| er_result_id := 1; er_operation_id := 5; er_snapshot := sample_snapshot; er_format := Csv;
     er_destination := lit "dir/out"; er_overwrite_policy := DenyOverwrite |}.

Lemma temp_ends pf path : is_temp pf path -> last path = Some 112%N.
Proof.
  intros (directory & suffix & ->). unfold export_temp_path, path_join.
  destruct (last directory) as [c|]; [destruct (c =? 47)%N|]; by rewrite !last_app.
Qed.

Lemma export_platform_others : others_ok export_platform.
Proof.
  split.
  - intros n d path Htemp. cbn. rewrite lookup_insert_ne; [done|]. intros <-. by apply temp_ends in Htemp.
  - intros n d path i _ _. split; [done|]. intros other. cbn. by intros [[_ [=]]|[_ H]]%lookup_insert_Some.
  - intros inodes. apply is_fresh.
Qed.

Lemma other_stable P : stable export_platform (lit "dir/out") P.
Proof. intros n d. unfold view. cbn. by rewrite lookup_insert_ne. Qed.

Lemma export_file_atomic_witness :
  exists outcome w' i node,
    export_result_to_file export_platform sample_formats 0 sample_export None empty_world = Some (Ok outcome, w') /\
    view (ew_disk w') (lit "dir/out") = AFile i (Some node) /\
    in_content node = encode (export_text sample_formats sample_snapshot Csv).1.
Proof.
  assert (Hok : match export_result_to_file export_platform sample_formats 0 sample_export None empty_world with
                | Some (Ok _, _) => true | _ => false end = true) by (vm_compute; reflexivity).
  destruct (export_result_to_file export_platform sample_formats 0 sample_export None empty_world)
    as [[[outcome|e] w']|] eqn:Hrun; [clear Hok|discriminate Hok..].
  exists outcome, w'.
  pose proof (export_file_atomic export_platform sample_formats 0 sample_export None empty_world (Ok outcome) w'
    (fun v => v = NoFile)
    (fun v => exists i node, v = AFile i (Some node) /\
       in_content node = encode (export_text sample_formats sample_snapshot Csv).1)) as H.
  cbv zeta in H. change (export_text sample_formats (er_snapshot sample_export) (er_format sample_export))
    with (export_text sample_formats sample_snapshot Csv) in H.
  destruct (export_text sample_formats sample_snapshot Csv) as [text written]. cbn [fst].
  destruct H as [(_ & (i & node & Hv & Hc) & _) _].
  - apply export_platform_others.
  - intros H. by apply temp_ends in H.
  - apply other_stable.
  - apply other_stable.
  - reflexivity.
  - intros i node Hc _. exists i, node. split; [reflexivity|exact Hc].
  - exact Hrun.
  - exists i, node. split_and!; [reflexivity|exact Hv|exact Hc].
Defined.
