(* ===== verification/RuntimeTasks.v ===== *)
(** * The tasks of the runtime (src/src/ui/runtime.rs)

    What a task does between its start and its event: connecting, executing,
    browsing, scanning, inspecting, and the controls of a connection.  How each await
    ends, the replies of the drivers and what the other tasks do to the service
    meanwhile are inputs. *)

From S2P Require Import Prelude RustStr Model Execution Retention Secrets Profile Config ConfigWriter Drivers Service.
From S2P Require Import PublicError RedisBrowser UiModel RuntimeEvents DraftTests Tokio CommandPorts Editor MysqlCatalog.

(** ** Requests to the service (service.rs) *)

Definition set_next_result_id (s : Service) (n : N) : Service :=
  {| sv_observed := sv_observed s; sv_sessions := sv_sessions s; sv_secrets := sv_secrets s;
     sv_next_generation := sv_next_generation s; sv_next_session_generation := sv_next_session_generation s;
     sv_next_result_id := n; sv_uncertain := sv_uncertain s; sv_lane_closed := sv_lane_closed s;
     sv_closed := sv_closed s |}.

(** [completed_at] is the clock in milliseconds, when it fits; serde's printing of
    numbers and JSON values is a parameter. *)
Definition retain_execute_result (f64_to_string : f64 -> str) (json_to_string : json -> str)
    (request : TypedExecuteRequest)
    (result : QueryResult) (completed_at : option Z) (s : Service) : ResultSnapshot * Service :=
  let identity := te_identity request in
  let provenance :=
    {| rp_result_id := sv_next_result_id s; rp_profile_id := ri_profile_id identity;
       rp_profile_generation := ri_profile_generation identity; rp_operation_id := ri_operation_id identity;
       rp_driver := te_driver request;
       rp_completed_at_unix_ms := default 9223372036854775807%Z completed_at;
       rp_duration_ms := qr_elapsed_ms result |} in
  (retain f64_to_string json_to_string result provenance (te_retention_policy request),
   set_next_result_id s (fetch_add (sv_next_result_id s))).

Abbreviation CatalogTokenKey := (list N) (only parsing).

Section requests.
Context `{TokenCrates}.

Definition prepare_catalog_request (request : CatalogRequest) : Sv ServiceError bytes :=
  sv_lift (map_err service_request_error (CatalogRequest_validate request)) ;;
  connection_fingerprint ←
    ensure_typed_resource_request (cr_identity request) MySql CATALOG (lit "mysql catalog browsing");
  mret (from_connection_fields connection_fingerprint).

(** The blocking task that loads the root key and derives the connection's; [root] is
    the content of the key file, [None] when it cannot be had. *)
Definition catalog_token_key_load (root : option bytes) (context : bytes) : result ServiceError CatalogTokenKey :=
  root_key ← ok_or root SeCatalogTokenKeyUnavailable;
  ok_or (derive_token_key root_key context) SeCatalogTokenKeyUnavailable.
End requests.

Definition prepare_redis_scan_request (request : RedisScanRequest) : Sv ServiceError unit :=
  sv_lift (map_err service_request_error (RedisScanRequest_validate request)) ;;
  ensure_typed_resource_request (rs_identity request) Redis KEYSPACE_BROWSE (lit "redis keyspace browsing") ;;
  mret tt.

Definition prepare_redis_inspect_request (request : RedisKeyInspectRequest) : Sv ServiceError unit :=
  sv_lift (map_err service_request_error (RedisKeyInspectRequest_validate request)) ;;
  ensure_typed_resource_request (rk_identity request) Redis KEYSPACE_BROWSE (lit "redis key inspection") ;;
  mret tt.

(** ** Work on a profile *)

Inductive ProfileWork :=
| WorkConnect (operation_id : OperationId) (profile_id : ProfileId) (profile_generation : ProfileGeneration)
    (timeout : Duration) (kind : OperationKind)
| WorkExecute (request : ExecuteRequest) (kind : OperationKind)
| WorkBrowseCatalog (request : CatalogRequest)
| WorkScanRedisKeys (request : RedisScanRequest)
| WorkInspectRedisKey (request : RedisKeyInspectRequest).

Definition work_identity (work : ProfileWork) : RequestIdentity * OperationKind :=
  match work with
  | WorkConnect operation_id profile_id profile_generation _ kind =>
      ({| ri_profile_id := profile_id; ri_profile_generation := profile_generation; ri_operation_id := operation_id |},
       kind)
  | WorkExecute request kind =>
      ({| ri_profile_id := ex_profile_id request; ri_profile_generation := ex_profile_generation request;
          ri_operation_id := ex_operation_id request |}, kind)
  | WorkBrowseCatalog request => (cr_identity request, BrowseMySql)
  | WorkScanRedisKeys request => (rs_identity request, BrowseRedis)
  | WorkInspectRedisKey request => (rk_identity request, InspectRedis)
  end.

(** What the driver replies to the work. *)
Definition work_reply (work : ProfileWork) : Type :=
  match work with
  | WorkConnect _ _ _ _ _ => unit
  | WorkExecute _ _ => QueryResult
  | WorkBrowseCatalog _ => CatalogPage
  | WorkScanRedisKeys _ => RedisKeyPage
  | WorkInspectRedisKey _ => RedisValuePreview
  end.

(** The kinds the runtime gives the work, and replies that answer the request. *)
Definition work_kind_ok (work : ProfileWork) : Prop :=
  match work with
  | WorkConnect _ _ _ _ kind => kind = ConnectProfile \/ kind = ReconnectProfile
  | WorkExecute _ kind => kind = ExecuteRead \/ kind = ExecuteMutation
  | _ => True
  end.

Definition reply_ok (work : ProfileWork) : work_reply work -> Prop :=
  match work with
  | WorkConnect _ _ _ _ _ | WorkExecute _ _ => fun _ => True
  | WorkBrowseCatalog request => fun page => cp_identity page = cr_identity request
  | WorkScanRedisKeys request => fun page => kp_identity page = rs_identity request
  | WorkInspectRedisKey request => fun preview => vp_identity preview = rk_identity request
  end.

(** One run of a task: how the waits for the preparation, the token key, the session
    and the driver end ([None]: the driver panics), what a dropped acquisition leaves
    behind, what the other tasks do to the service before the [n]-th wait ends, and the
    clocks. *)
Record TaskRun (Reply : Type) := {
  tr_prepare : Race unit;
  tr_token_key : Race (option (option bytes));   (* [None]: the blocking task panics *)
  tr_acquire : Race unit;
  tr_reply : Race (option (result DriverError Reply));
  tr_dropped : Service -> Service;
  tr_others : nat -> Service -> Service;
  tr_elapsed_ms : N;
  tr_completed_at : option Z;
}.
Arguments tr_prepare {Reply}.
Arguments tr_token_key {Reply}.
Arguments tr_acquire {Reply}.
Arguments tr_reply {Reply}.
Arguments tr_dropped {Reply}.
Arguments tr_others {Reply}.
Arguments tr_elapsed_ms {Reply}.
Arguments tr_completed_at {Reply}.

(** The end of a task: the [SessionAcquired] message it sent, its event ([None]: it
    panics) and the service. *)
Record TaskEnd := {
  te_session : option SessionGeneration;
  te_event : option UiEvent;
  te_service : Service;
}.

Definition without_session (event : UiEvent) (s : Service) : TaskEnd :=
  {| te_session := None; te_event := Some event; te_service := s |}.

(** [Err(OperationCancelled)] or [Err(OperationTimedOut)] of a race that was lost. *)
Definition race_result {A} (race : Race A) : result PublicSummary A :=
  match race with RaceCancelled => Err OperationCancelled | RaceTimedOut => Err OperationTimedOut | RaceDone a => Ok a end.

Section tasks.
Context (env : Env).
Context (connect : ConnectionProfile -> option SessionSecret -> result DriverError SessionHandle).
Context (shell_split : str -> option (list str)) (f64_to_string : f64 -> str) (json_to_string : json -> str).
Context `{TokenCrates}.

Definition acquire {Reply} (run : TaskRun Reply) (identity : RequestIdentity) (s : Service) :
    Race (result ServiceError SessionLease) * Service :=
  let s := tr_others run 1 s in
  match tr_acquire run with
  | RaceCancelled => (RaceCancelled, tr_dropped run s)
  | RaceTimedOut => (RaceTimedOut, tr_dropped run s)
  | RaceDone _ =>
      let '(acquired, s) := acquire_session_at env connect (ri_operation_id identity) (ri_profile_id identity)
                              (ri_profile_generation identity) s in
      (RaceDone acquired, s)
  end.

Definition lease_generation (lease : SessionLease) : SessionGeneration := ci_session_generation (sl_identity lease).

(** The task once it has its lease: the driver is awaited, a panic ends the task at
    once, otherwise the service is observed and [finish] chooses the event and whether
    the lease is evicted. *)
Definition with_lease {Reply} (run : TaskRun Reply) (operation_id : OperationId) (lease : SessionLease)
    (finish : Race (result DriverError Reply) -> result ServiceError unit -> Service -> (UiEvent * bool) * Service)
    (s : Service) : TaskEnd :=
  let session := Some (lease_generation lease) in
  let s := tr_others run 2 s in
  let ended reply :=
    let '(observation, s) := observe_session lease operation_id s in
    let '((event, evict), s) := finish reply observation s in
    {| te_session := session; te_event := Some event;
       te_service := if evict : bool then (evict_session_lease lease s).2 else s |} in
  match tr_reply run with
  | RaceCancelled => ended RaceCancelled
  | RaceTimedOut => ended RaceTimedOut
  | RaceDone None => {| te_session := session; te_event := None; te_service := s |}
  | RaceDone (Some reply) => ended (RaceDone reply)
  end.

Definition run_connect (run : TaskRun unit) (operation_id : OperationId) (profile_id : ProfileId)
    (profile_generation : ProfileGeneration) (kind : OperationKind) (s : Service) : TaskEnd :=
  let failed := failed_profile_event operation_id profile_id profile_generation in
  let identity := {| ri_profile_id := profile_id; ri_profile_generation := profile_generation;
                     ri_operation_id := operation_id |} in
  match acquire run identity s with
  | (RaceCancelled, s) => without_session (failed None kind OperationCancelled) s
  | (RaceTimedOut, s) => without_session (failed None kind OperationTimedOut) s
  | (RaceDone (Err error), s) =>
      without_session (failed_from_service operation_id profile_id profile_generation None kind error) s
  | (RaceDone (Ok lease), s) =>
      let session_generation := lease_generation lease in
      with_lease run operation_id lease (fun ping observation s =>
        let result := ping ← race_result ping; map_err (fun error => public_summary (SeDriver error)) ping in
        match result, observation with
        | Ok _, Ok _ =>
            ((ConnectionReady operation_id profile_id profile_generation session_generation (tr_elapsed_ms run), false), s)
        | Err summary, _ => ((failed (Some session_generation) kind summary, true), s)
        | Ok _, Err error =>
            ((failed_from_service operation_id profile_id profile_generation (Some session_generation) kind error, true), s)
        end) s
  end.

(** The preparation of an execution panics when [prepare_execute_request] does, which
    Targets rules out. *)
Definition run_execute (run : TaskRun QueryResult) (request : ExecuteRequest) (kind : OperationKind) (s : Service) :
    TaskEnd :=
  let operation_id := ex_operation_id request in
  let profile_id := ex_profile_id request in
  let profile_generation := ex_profile_generation request in
  let failed := failed_profile_event operation_id profile_id profile_generation in
  let from_service := failed_from_service operation_id profile_id profile_generation in
  let s := tr_others run 0 s in
  match tr_prepare run with
  | RaceCancelled => without_session (failed None kind OperationCancelled) s
  | RaceTimedOut => without_session (failed None kind OperationTimedOut) s
  | RaceDone _ =>
      match prepare_execute_request shell_split request s with
      | None => {| te_session := None; te_event := None; te_service := s |}
      | Some (Err error) => without_session (from_service None kind error) s
      | Some (Ok typed_request) =>
          match acquire run (work_identity (WorkExecute request kind)).1 s with
          | (RaceCancelled, s) => without_session (failed None kind OperationCancelled) s
          | (RaceTimedOut, s) => without_session (failed None kind OperationTimedOut) s
          | (RaceDone (Err error), s) => without_session (from_service None kind error) s
          | (RaceDone (Ok lease), s) =>
              let session_generation := lease_generation lease in
              with_lease run operation_id lease (fun attempt observation s =>
                match attempt, observation with
                | RaceDone (Ok result), Ok _ =>
                    let '(snapshot, s) := retain_execute_result f64_to_string json_to_string typed_request result (tr_completed_at run) s in
                    ((QueryFinished operation_id profile_id profile_generation session_generation snapshot, false), s)
                | RaceDone (Err error), Ok _ =>
                    ((execution_failed_event operation_id profile_id profile_generation session_generation kind error,
                      bool_decide (for_driver_error error = Evict)), s)
                | RaceCancelled, _ => ((failed (Some session_generation) kind OperationCancelled, true), s)
                | RaceTimedOut, _ => ((failed (Some session_generation) kind OperationTimedOut, true), s)
                | RaceDone _, Err error => ((from_service (Some session_generation) kind error, true), s)
                end) s
          end
      end
  end.

(** [await_pre_session_blocking] of the blocking task that loads the token key. *)
Definition await_token_key {Reply} (run : TaskRun Reply) (context : bytes) : result PublicSummary CatalogTokenKey :=
  root ← race_result (tr_token_key run);
  root ← ok_or root InternalFailure;
  map_err public_summary (catalog_token_key_load root context).

Definition run_catalog_browse (run : TaskRun CatalogPage) (request : CatalogRequest) (s : Service) : TaskEnd :=
  let identity := cr_identity request in
  let failed := catalog_failed_event request in
  let s := tr_others run 0 s in
  let prepared :=
    _ ← race_result (tr_prepare run);
    map_err public_summary (prepare_catalog_request request s).1 in
  match context ← prepared; await_token_key run context with
  | Err summary => without_session (failed summary None None) s
  | Ok token_key =>
      match acquire run identity s with
      | (RaceCancelled, s) => without_session (failed OperationCancelled None None) s
      | (RaceTimedOut, s) => without_session (failed OperationTimedOut None None) s
      | (RaceDone (Err error), s) => without_session (failed (public_summary error) None None) s
      | (RaceDone (Ok lease), s) =>
          let session_generation := lease_generation lease in
          let failed_with summary disposition := failed summary (Some session_generation) (Some disposition) in
          with_lease run (ri_operation_id identity) lease (fun attempt observation s =>
            match attempt, observation with
            | RaceDone (Ok page), Ok _ => ((CatalogPageLoaded page session_generation Keep, false), s)
            | RaceDone (Err error), Ok _ =>
                let disposition := for_driver_error error in
                ((failed_with (public_summary (SeDriver error)) disposition, bool_decide (disposition = Evict)), s)
            | RaceDone _, Err error => ((failed_with (public_summary error) Evict, true), s)
            | RaceCancelled, _ => ((failed_with OperationCancelled Evict, true), s)
            | RaceTimedOut, _ => ((failed_with OperationTimedOut Evict, true), s)
            end) s
      end
  end.

(** [run_redis_scan] and [run_redis_inspect] differ in their request and in the event
    of success only. *)
Definition run_redis {Reply} (run : TaskRun Reply) (request : RedisResourceRequest) (identity : RequestIdentity)
    (kind : OperationKind) (prepare : Sv ServiceError unit)
    (succeeded : Reply -> SessionGeneration -> SessionDisposition -> UiEvent) (s : Service) : TaskEnd :=
  let failed parts session_generation session_disposition connection_outcome :=
    failed_redis_resource_event request
      (public_redis_resource_error kind (ri_profile_id identity) (ri_operation_id identity) parts.1 parts.2)
      session_generation session_disposition connection_outcome in
  let s := tr_others run 0 s in
  let prepared :=
    _ ← map_err (fun summary => (summary, PcNone)) (race_result (tr_prepare run));
    map_err public_error_parts (prepare s).1 in
  match prepared with
  | Err parts => without_session (failed parts None None (connection_outcome_for_summary parts.1)) s
  | Ok _ =>
      match acquire run identity s with
      | (RaceCancelled, s) => without_session (failed (OperationCancelled, PcNone) None None OutcomeUnknown) s
      | (RaceTimedOut, s) => without_session (failed (OperationTimedOut, PcNone) None None OutcomeUnknown) s
      | (RaceDone (Err error), s) =>
          let parts := public_error_parts error in
          without_session (failed parts None None (connection_outcome_for_summary parts.1)) s
      | (RaceDone (Ok lease), s) =>
          let session_generation := lease_generation lease in
          let evicted parts := failed parts (Some session_generation) (Some Evict) OutcomeDisconnected in
          with_lease run (ri_operation_id identity) lease (fun attempt observation s =>
            match attempt, observation with
            | RaceDone (Ok reply), Ok _ => ((succeeded reply session_generation Keep, false), s)
            | RaceDone (Err error), Ok _ =>
                let disposition := for_driver_error error in
                ((failed (public_error_parts (SeDriver error)) (Some session_generation) (Some disposition)
                    (connection_outcome_for_disposition disposition), bool_decide (disposition = Evict)), s)
            | RaceCancelled, _ => ((evicted (OperationCancelled, PcNone), true), s)
            | RaceTimedOut, _ => ((evicted (OperationTimedOut, PcNone), true), s)
            | RaceDone _, Err error => ((evicted (public_error_parts error), true), s)
            end) s
      end
  end.

Definition run_redis_scan (run : TaskRun RedisKeyPage) (request : RedisScanRequest) : Service -> TaskEnd :=
  run_redis run (RrScan request) (rs_identity request) BrowseRedis (prepare_redis_scan_request request) RedisKeysLoaded.

Definition run_redis_inspect (run : TaskRun RedisValuePreview) (request : RedisKeyInspectRequest) :
    Service -> TaskEnd :=
  run_redis run (RrInspect request) (rk_identity request) InspectRedis (prepare_redis_inspect_request request)
    RedisKeyInspected.

Definition run_profile_work (work : ProfileWork) : TaskRun (work_reply work) -> Service -> TaskEnd :=
  match work with
  | WorkConnect operation_id profile_id profile_generation _ kind => fun run =>
      run_connect run operation_id profile_id profile_generation kind
  | WorkExecute request kind => fun run => run_execute run request kind
  | WorkBrowseCatalog request => fun run => run_catalog_browse run request
  | WorkScanRedisKeys request => fun run => run_redis_scan run request
  | WorkInspectRedisKey request => fun run => run_redis_inspect run request
  end.
End tasks.

(** ** Controls of a connection *)

Inductive ProfileControlWork :=
| ControlDisconnect (operation_id : OperationId) (profile_id : ProfileId) (profile_generation : ProfileGeneration)
    (session_generation : option SessionGeneration)
| ControlReconnect (operation_id : OperationId) (profile_id : ProfileId) (profile_generation : ProfileGeneration)
    (session_generation : option SessionGeneration) (timeout : Duration).

Definition control_identity (work : ProfileControlWork) :
    RequestIdentity * option SessionGeneration * OperationKind :=
  match work with
  | ControlDisconnect operation_id profile_id profile_generation session_generation =>
      ({| ri_profile_id := profile_id; ri_profile_generation := profile_generation; ri_operation_id := operation_id |},
       session_generation, DisconnectProfile)
  | ControlReconnect operation_id profile_id profile_generation session_generation _ =>
      ({| ri_profile_id := profile_id; ri_profile_generation := profile_generation; ri_operation_id := operation_id |},
       session_generation, ReconnectProfile)
  end.

Definition evict_known (profile_id : ProfileId) (profile_generation : ProfileGeneration)
    (session_generation : option SessionGeneration) (s : Service) : Service :=
  match session_generation with
  | Some session_generation => (evict_cached_session_exact profile_id profile_generation session_generation s).2
  | None => s
  end.

Section control.
Context (env : Env).
Context (connect : ConnectionProfile -> option SessionSecret -> result DriverError SessionHandle).

(** Disconnecting, once the tasks it cancelled are over; [cancelled]: it was cancelled
    itself while it waited for them. *)
Definition run_disconnect (cancelled : bool) (operation_id : OperationId) (profile_id : ProfileId)
    (profile_generation : ProfileGeneration) (session_generation : option SessionGeneration) (s : Service) :
    UiEvent * Service :=
  if cancelled then
    (failed_profile_event operation_id profile_id profile_generation session_generation DisconnectProfile
       OperationCancelled, s)
  else
    match ensure_generation profile_id profile_generation operation_id s with
    | (Err error, s) =>
        (failed_from_service operation_id profile_id profile_generation session_generation DisconnectProfile error, s)
    | (Ok _, s) =>
        let s := evict_known profile_id profile_generation session_generation s in
        let post_close :=
          match (needs_session_credential profile_id s).1 with
          | Ok true => PcsNeedsCredential
          | Ok false | Err _ => PcsDisconnected
          end in
        (ConnectionClosed operation_id profile_id profile_generation post_close, s)
    end.

(** Reconnecting, once it has its permits or failed to get them. *)
Definition run_reconnect (permits : result PublicSummary unit) (run : TaskRun unit) (operation_id : OperationId)
    (profile_id : ProfileId) (profile_generation : ProfileGeneration) (session_generation : option SessionGeneration)
    (s : Service) : TaskEnd :=
  match permits with
  | Err summary =>
      without_session (failed_profile_event operation_id profile_id profile_generation session_generation
                         ReconnectProfile summary) s
  | Ok _ =>
      run_connect env connect run operation_id profile_id profile_generation ReconnectProfile
        (evict_known profile_id profile_generation session_generation s)
  end.

(** [waited] is how waiting for the cancelled tasks, and for the permits, ended. *)
Definition run_profile_control (work : ProfileControlWork) (waited : result PublicSummary unit) (run : TaskRun unit)
    (s : Service) : TaskEnd :=
  let s := tr_others run 0 s in
  match work with
  | ControlDisconnect operation_id profile_id profile_generation session_generation =>
      let '(event, s) :=
        run_disconnect (is_err waited) operation_id profile_id profile_generation session_generation s in
      without_session event s
  | ControlReconnect operation_id profile_id profile_generation session_generation _ =>
      run_reconnect waited run operation_id profile_id profile_generation session_generation s
  end.

(** ** Mutations *)

Record ReloadPresentation := {
  lp_outcome : RuntimeReloadOutcome;
  lp_profiles : list ProfileSnapshot;
  lp_config : ConfigPresentation;
}.

Inductive TaskOutput :=
| OutEvent (event : UiEvent)
| OutReload (operation_id : OperationId) (result : result ServiceError ReloadPresentation)
| OutCreate (operation_id : OperationId) (draft_id : DraftId)
    (result : result RuntimeMutationFailure (ProfileMutationOutcome * DeferredRuntimeCleanup))
| OutUpdate (operation_id : OperationId) (profile_id : ProfileId) (previous_generation : ProfileGeneration)
    (result : result RuntimeMutationFailure
                (ProfileMutationOutcome * option DeferredSessionFence * DeferredRuntimeCleanup))
| OutDelete (operation_id : OperationId) (profile_id : ProfileId) (previous_generation : ProfileGeneration)
    (result : result RuntimeMutationFailure (ProfileMutationOutcome * DeferredRuntimeCleanup)).

(** One snapshot; the credential of each profile is looked up on the way. *)
Definition snapshot_of (entry : ConnectionProfile * ProfileGeneration) : Sv ServiceError ProfileSnapshot :=
  let '(profile, generation) := entry in
  has_current_session_secret ← has_current_session_secret (p_id profile);
  let environment_availability :=
    if bool_decide (p_credential_mode profile = CredEnvironment)
    then probe_environment (environment env) <$> p_secret_env profile else None in
  mret (from_profile profile generation has_current_session_secret environment_availability).

Fixpoint snapshot_all (entries : list (ConnectionProfile * ProfileGeneration)) :
    Sv ServiceError (list ProfileSnapshot) :=
  match entries with
  | [] => mret []
  | entry :: entries => snapshot ← snapshot_of entry; rest ← snapshot_all entries; mret (snapshot :: rest)
  end.

Definition snapshots (config_path : str) : Sv ServiceError (list ProfileSnapshot * ConfigPresentation) :=
  s ← sv_get;
  profiles ← snapshot_all (profiles_with_generations_snapshot s);
  s ← sv_get;
  mret (profiles, for_source (ob_source_version (sv_observed s)) config_path).

Definition run_reload (config_path : str) : Sv ServiceError ReloadPresentation :=
  outcome ← reload_configuration_for_runtime env;
  if rr_config_uncertain outcome then
    mret {| lp_outcome := outcome; lp_profiles := []; lp_config := ConfigPresentation_default |}
  else
    '(profiles, config) ← snapshots config_path;
    mret {| lp_outcome := outcome; lp_profiles := profiles; lp_config := config |}.
End control.

Definition failure_for_unavailable (command : UiCommand) (summary : PublicSummary) : UiEvent :=
  match command with
  | CmdRefreshProfiles operation_id | CmdCancelOperation operation_id | CmdShutdownRuntime operation_id =>
      profiles_failed_event operation_id summary PcNone
  | CmdBrowseCatalog request => catalog_failed_event request summary None None
  | CmdScanRedisKeys request =>
      failed_redis_resource_event (RrScan request)
        (public_redis_resource_error BrowseRedis (ri_profile_id (rs_identity request))
           (ri_operation_id (rs_identity request)) summary PcNone)
        None None (connection_outcome_for_summary summary)
  | CmdInspectRedisKey request =>
      failed_redis_resource_event (RrInspect request)
        (public_redis_resource_error InspectRedis (ri_profile_id (rk_identity request))
           (ri_operation_id (rk_identity request)) summary PcNone)
        None None (connection_outcome_for_summary summary)
  | CmdCreateProfile request =>
      draft_failed_event (cp_operation_id request) (cp_draft_id request) CreateProfile summary PcNone
  | CmdUpdateProfile request =>
      profile_update_failed_event (up_operation_id request) (up_profile_id request) (up_expected_generation request)
        summary PcNone
  | CmdDeleteProfile request =>
      failed_profile_event (dp_operation_id request) (dp_profile_id request) (dp_expected_generation request) None
        DeleteProfile summary
  | CmdStoreCredentials operation_id profile_id profile_generation _ _ =>
      credentials_store_failed_event_with_parts operation_id profile_id profile_generation summary PcNone
  | CmdTestConnection operation_id profile_id profile_generation _ =>
      failed_profile_event operation_id profile_id profile_generation None ConnectProfile summary
  | CmdTestDraftConnection request =>
      draft_failed_event (td_operation_id request) (td_draft_id request) TestDraftConnection summary PcNone
  | CmdPrepareDraftConnectionTest intent =>
      draft_failed_event (di_operation_id intent) (di_draft_id intent) TestDraftConnection summary PcNone
  | CmdExecute operation_id profile_id profile_generation _ _ _ _ =>
      ExecuteUnavailable operation_id profile_id profile_generation summary
  | CmdExportResult request _ =>
      result_export_failed_event (er_operation_id request) (er_result_id request) (er_format request)
        (er_overwrite_policy request) summary PcNone false
  | CmdDisconnectProfile operation_id profile_id profile_generation =>
      failed_profile_event operation_id profile_id profile_generation None DisconnectProfile summary
  | CmdReconnectProfile operation_id profile_id profile_generation _ =>
      failed_profile_event operation_id profile_id profile_generation None ReconnectProfile summary
  end.

Section mutation.
Context (env : Env) (config_path : str).

Definition run_mutation (command : UiCommand) (s : Service) : TaskOutput * Service :=
  match command with
  | CmdRefreshProfiles operation_id =>
      let '(result, s) := run_reload env config_path s in (OutReload operation_id result, s)
  | CmdCreateProfile request =>
      let '(result, s) := create_profile_inner env request true s in
      (OutCreate (cp_operation_id request) (cp_draft_id request) result, s)
  | CmdUpdateProfile request =>
      let '(result, s) := update_profile_inner env request DeferSession s in
      (OutUpdate (up_operation_id request) (up_profile_id request) (up_expected_generation request) result, s)
  | CmdDeleteProfile request =>
      let '(result, s) := delete_profile_inner env request true s in
      (OutDelete (dp_operation_id request) (dp_profile_id request) (dp_expected_generation request) result, s)
  | CmdStoreCredentials operation_id profile_id profile_generation _ secret =>
      let '(result, s) := store_session_credential_exact operation_id profile_id profile_generation secret s in
      (OutEvent match result with
                | Ok _ => CredentialsStored operation_id profile_id profile_generation
                | Err error => credentials_store_failed_event operation_id profile_id profile_generation error
                end, s)
  | other => (OutEvent (failure_for_unavailable other InternalFailure), s)
  end.

Definition finish_runtime_mutation_failure (failure : RuntimeMutationFailure) (s : Service) : ServiceError * Service :=
  match apply_deferred_cleanup (rf_cleanup failure) s with
  | (Ok _, s) => (rf_error failure, s)
  | (Err error, s) => (error, s)
  end.

(** The common end of a failed mutation: its cleanup, then the uncertain configuration or
    the event of its error. *)
Definition finish_failed (operation_id : OperationId) (failure : RuntimeMutationFailure)
    (failed : ServiceError -> UiEvent) (s : Service) : UiEvent * Service :=
  let '(error, s) := finish_runtime_mutation_failure failure s in
  (if sv_uncertain s then ConfigUncertain operation_id else failed error, s).

Definition finish_task_output (output : TaskOutput) (had_active : bool) (s : Service) : UiEvent * Service :=
  match output with
  | OutEvent event => (event, s)
  | OutReload operation_id result =>
      let failed error := profiles_failed_event operation_id (public_summary error) (public_code error) in
      match result with
      | Ok reload =>
          match apply_deferred_cleanup (rr_cleanup (lp_outcome reload)) s with
          | (Err error, s) => (failed error, s)
          | (Ok _, s) =>
              (if rr_config_uncertain (lp_outcome reload) then ConfigUncertain operation_id
               else ProfilesLoaded operation_id (lp_profiles reload) (lp_config reload), s)
          end
      | Err error => (if sv_uncertain s then ConfigUncertain operation_id else failed error, s)
      end
  | OutCreate operation_id draft_id result =>
      let failed error :=
        draft_failed_event operation_id draft_id CreateProfile (public_summary error) (public_code error) in
      match result with
      | Ok (mutation, cleanup) =>
          match apply_deferred_cleanup cleanup s with
          | (Err error, s) => (failed error, s)
          | (Ok _, s) =>
              (ProfileSaved operation_id (pm_profile_id mutation) None (pm_profile_generation mutation) false
                 (commit_warning (pm_commit_state mutation)), s)
          end
      | Err failure => finish_failed operation_id failure failed s
      end
  | OutUpdate operation_id profile_id previous_generation result =>
      let failed error :=
        profile_update_failed_event operation_id profile_id previous_generation (public_summary error)
          (public_code error) in
      match result with
      | Ok (mutation, deferred_session, cleanup) =>
          let '(session_retained, s) :=
            match deferred_session with
            | Some fence => resolve_deferred_session fence (negb had_active) s
            | None => (false, s)
            end in
          match apply_deferred_cleanup cleanup s with
          | (Err error, s) => (failed error, s)
          | (Ok _, s) =>
              (ProfileSaved operation_id (pm_profile_id mutation) (Some previous_generation)
                 (pm_profile_generation mutation) session_retained (commit_warning (pm_commit_state mutation)), s)
          end
      | Err failure => finish_failed operation_id failure failed s
      end
  | OutDelete operation_id profile_id previous_generation result =>
      let failed error :=
        failed_profile_event operation_id profile_id previous_generation None DeleteProfile (public_summary error) in
      match result with
      | Ok (mutation, cleanup) =>
          match apply_deferred_cleanup cleanup s with
          | (Err error, s) => (failed error, s)
          | (Ok _, s) =>
              (ProfileDeleted operation_id (pm_profile_id mutation) (pm_profile_generation mutation) had_active, s)
          end
      | Err failure => finish_failed operation_id failure failed s
      end
  end.
End mutation.

(** [cleanup.targets()] of an output. *)
Definition output_targets (output : TaskOutput) : list (ProfileId * ProfileGeneration) :=
  let targets cleanup :=
    (fun target => (dt_profile_id target, dt_previous_generation target)) <$> dc_targets cleanup in
  match output with
  | OutEvent _ => []
  | OutReload _ result => match result with Ok reload => targets (rr_cleanup (lp_outcome reload)) | Err _ => [] end
  | OutCreate _ _ result | OutDelete _ _ _ result =>
      match result with Ok (_, cleanup) => targets cleanup | Err failure => targets (rf_cleanup failure) end
  | OutUpdate _ _ _ result =>
      match result with Ok (_, _, cleanup) => targets cleanup | Err failure => targets (rf_cleanup failure) end
  end.

(** ** The registry's view of a task *)

Inductive TaskScope :=
| ScopeProfile (profile_id : ProfileId) (profile_generation : ProfileGeneration)
    (session_generation : option SessionGeneration)
| ScopeDraft (draft_id : DraftId)
| ScopeExport (result_id : ResultId)
| ScopeGlobal.

(** The session a failed task used is taken from the cache and closed. *)
Definition cleanup_failed_scope (scope : TaskScope) (s : Service) : Service :=
  match scope with
  | ScopeProfile profile_id profile_generation (Some session_generation) =>
      match take_cached_session_exact profile_id profile_generation session_generation s with
      | (Some removed, s) => close_handle s removed
      | (None, s) => s
      end
  | _ => s
  end.
