(* ===== verification/Headless.v ===== *)
(** * Operations from beginning to end (src/src/service.rs)

    [check_at], [execute_at], [load_catalog_page], [scan_redis_keys] and [inspect_redis_key]:
    what the command line calls.  A lease dispatches to the resources of its connection;
    the resources, that is the drivers, are a parameter.  The tasks of the runtime do the
    same work with their own code; the theorems say that a task nobody disturbs does the
    same to the service and reports the same result. *)

From S2P Require Import Prelude RustStr Model Execution Retention Secrets Profile Config ConfigWriter Drivers Service ServiceLogic.
From S2P Require Import PublicError RedisBrowser UiModel RuntimeEvents DraftTests Tokio CommandPorts Editor MysqlCatalog.
From S2P Require Import RuntimeTasks.

(** ** Leases *)

(** [drivers::ConnectedResources]: what a connection offers. *)
Inductive ConnectedResources :=
| ResMySql (execution : PreparedMySqlRequest -> result DriverError QueryResult)
    (catalog : CatalogRequest -> CatalogTokenKey -> result DriverError CatalogPage)
| ResRedis (execution : RedisExecuteRequest -> result DriverError QueryResult)
    (scan_keys : RedisScanRequest -> result DriverError RedisKeyPage)
    (inspect_key : RedisKeyInspectRequest -> result DriverError RedisValuePreview).

(** The handles of sessions: what [SessionHandle::ping] and [connected_resources] give. *)
Record Handles := {
  hd_ping : SessionHandle -> Duration -> result DriverError unit;
  hd_resources : SessionHandle -> option ConnectedResources;
}.

Section leases.
Context (handles : Handles).

Definition lease_unsupported (lease : SessionLease) (operation : string) : DriverError :=
  DeUnsupported (p_driver (sl_profile lease)) (lit operation).

Definition lease_ping (lease : SessionLease) (timeout : Duration) : result DriverError unit :=
  hd_ping handles (sl_handle lease) timeout.

Definition connected_resources (lease : SessionLease) : result DriverError ConnectedResources :=
  ok_or (hd_resources handles (sl_handle lease)) (lease_unsupported lease "typed connected resources").

Definition execute_typed (lease : SessionLease) (request : TypedExecuteRequest) : result DriverError QueryResult :=
  resources ← connected_resources lease;
  match request, resources with
  | TypedMySql request, ResMySql execution _ => execution request
  | TypedRedis request, ResRedis execution _ _ => execution request
  | _, _ => Err (lease_unsupported lease "mismatched typed execution resource")
  end.

Definition lease_load_catalog_page (lease : SessionLease) (request : CatalogRequest) (token_key : CatalogTokenKey) :
    result DriverError CatalogPage :=
  resources ← connected_resources lease;
  match resources with
  | ResMySql _ catalog => catalog request token_key
  | ResRedis _ _ _ => Err (lease_unsupported lease "mismatched catalog resource")
  end.

Definition lease_scan_redis_keys (lease : SessionLease) (request : RedisScanRequest) : result DriverError RedisKeyPage :=
  resources ← connected_resources lease;
  match resources with
  | ResRedis _ scan_keys _ => scan_keys request
  | ResMySql _ _ => Err (lease_unsupported lease "mismatched keyspace resource")
  end.

Definition lease_inspect_redis_key (lease : SessionLease) (request : RedisKeyInspectRequest) :
    result DriverError RedisValuePreview :=
  resources ← connected_resources lease;
  match resources with
  | ResRedis _ _ inspect_key => inspect_key request
  | ResMySql _ _ => Err (lease_unsupported lease "mismatched key inspection resource")
  end.
End leases.

(** ** Operations *)

Record CheckOutcome := {
  co_operation_id : OperationId;
  co_profile_id : ProfileId;
  co_profile_generation : ProfileGeneration;
  co_session_generation : SessionGeneration;
  co_driver : DriverKind;
  co_endpoint : str;
  co_elapsed_ms : N;
}.

Record ExecuteOutcome := {
  eo_operation_id : OperationId;
  eo_profile_id : ProfileId;
  eo_profile_generation : ProfileGeneration;
  eo_session_generation : SessionGeneration;
  eo_driver : DriverKind;
  eo_endpoint : str;
  eo_result : ResultSnapshot;
}.

Section operations.
Context (env : Env).
Context (connect : ConnectionProfile -> option SessionSecret -> result DriverError SessionHandle).
Context (handles : Handles).
Context (shell_split : str -> option (list str)) (f64_to_string : f64 -> str) (json_to_string : json -> str).
Context `{TokenCrates}.

Definition language_for (profile_id : ProfileId) : Sv ServiceError QueryLanguage :=
  profile ← Service.profile profile_id; mret (language (p_driver profile)).

Definition check_at (elapsed_ms : N) (operation_id : OperationId) (profile_id : ProfileId)
    (expected_generation : ProfileGeneration) (timeout : Duration) : Sv ServiceError CheckOutcome :=
  lease ← acquire_session_at env connect operation_id profile_id expected_generation;
  lease ← finish_check lease operation_id (lease_ping handles lease timeout);
  mret {| co_operation_id := operation_id; co_profile_id := profile_id;
          co_profile_generation := ci_profile_generation (sl_identity lease);
          co_session_generation := ci_session_generation (sl_identity lease);
          co_driver := p_driver (sl_profile lease); co_endpoint := redacted_endpoint (sl_profile lease);
          co_elapsed_ms := elapsed_ms |}.

(** [execute_at] once the lease is acquired. *)
Definition finish_execute (completed_at : option Z) (request : ExecuteRequest) (typed_request : TypedExecuteRequest)
    (lease : SessionLease) : Sv ServiceError ExecuteOutcome := fun s =>
  let outcome := execute_typed handles lease typed_request in
  let '(observation, s) := observe_session lease (ex_operation_id request) s in
  let disposition := match outcome with Ok _ => Keep | Err error => for_driver_error error end in
  let s := if bool_decide (disposition = Evict) || is_err observation then (evict_session_lease lease s).2 else s in
  match observation, outcome with
  | Err error, _ => (Err error, s)
  | Ok _, Err error => (Err (SeDriver error), s)
  | Ok _, Ok result =>
      let '(snapshot, s) := retain_execute_result f64_to_string json_to_string typed_request result completed_at s in
      (Ok {| eo_operation_id := ex_operation_id request; eo_profile_id := ex_profile_id request;
             eo_profile_generation := ci_profile_generation (sl_identity lease);
             eo_session_generation := ci_session_generation (sl_identity lease);
             eo_driver := p_driver (sl_profile lease); eo_endpoint := redacted_endpoint (sl_profile lease);
             eo_result := snapshot |}, s)
  end.

(** [None] is the panic of [prepare_execute_request], which Targets rules out. *)
Definition execute_at (completed_at : option Z) (request : ExecuteRequest) (s : Service) :
    option (result ServiceError ExecuteOutcome * Service) :=
  typed_request ← prepare_execute_request shell_split request s;
  Some
    (match typed_request with
     | Err error => (Err error, s)
     | Ok typed_request =>
         (lease ← acquire_session_at env connect (ex_operation_id request) (ex_profile_id request)
                    (ex_profile_generation request);
          finish_execute completed_at request typed_request lease) s
     end).

Definition load_catalog_page (root : option bytes) (request : CatalogRequest) : Sv ServiceError CatalogPage :=
  token_key_context ← prepare_catalog_request request;
  token_key ← sv_lift (catalog_token_key_load root token_key_context);
  let identity := cr_identity request in
  lease ← acquire_session_at env connect (ri_operation_id identity) (ri_profile_id identity) (ri_profile_generation identity);
  finish_resource_operation lease (ri_operation_id identity) (lease_load_catalog_page handles lease request token_key).

Definition scan_redis_keys (request : RedisScanRequest) : Sv ServiceError RedisKeyPage :=
  prepare_redis_scan_request request ;;
  let identity := rs_identity request in
  lease ← acquire_session_at env connect (ri_operation_id identity) (ri_profile_id identity) (ri_profile_generation identity);
  finish_resource_operation lease (ri_operation_id identity) (lease_scan_redis_keys handles lease request).

Definition inspect_redis_key (request : RedisKeyInspectRequest) : Sv ServiceError RedisValuePreview :=
  prepare_redis_inspect_request request ;;
  let identity := rk_identity request in
  lease ← acquire_session_at env connect (ri_operation_id identity) (ri_profile_id identity) (ri_profile_generation identity);
  finish_resource_operation lease (ri_operation_id identity) (lease_inspect_redis_key handles lease request).
End operations.

(** ** A task that nobody disturbs *)

(** Nothing is cancelled or late, the blocking tasks end, and no other task uses the service meanwhile. *)
Definition undisturbed {Reply} (root : option bytes) (reply : result DriverError Reply) (elapsed_ms : N)
    (completed_at : option Z) : TaskRun Reply :=
  {| tr_prepare := RaceDone tt; tr_token_key := RaceDone (Some root); tr_acquire := RaceDone tt;
     tr_reply := RaceDone (Some reply); tr_dropped := fun s => s; tr_others := fun _ s => s;
     tr_elapsed_ms := elapsed_ms; tr_completed_at := completed_at |}.

Section equivalence.
Context (env : Env).
Context (connect : ConnectionProfile -> option SessionSecret -> result DriverError SessionHandle).
Context (handles : Handles).
Context (shell_split : str -> option (list str)) (f64_to_string : f64 -> str) (json_to_string : json -> str).
Context `{TokenCrates}.

(** The reply of a driver to whoever holds the lease that [identity] acquires. *)
Definition reply_with {Reply} (identity : RequestIdentity) (ask : SessionLease -> result DriverError Reply)
    (s : Service) : result DriverError Reply :=
  match (acquire_session_at env connect (ri_operation_id identity) (ri_profile_id identity)
           (ri_profile_generation identity) s).1 with
  | Ok lease => ask lease
  | Err _ => Err DeRedisKeyMissing
  end.

Lemma acquire_undisturbed {Reply} root (reply : result DriverError Reply) elapsed_ms completed_at identity s :
  acquire env connect (undisturbed root reply elapsed_ms completed_at) identity s
  = let '(acquired, s) := acquire_session_at env connect (ri_operation_id identity) (ri_profile_id identity)
                            (ri_profile_generation identity) s in (RaceDone acquired, s).
Proof. done. Qed.

Lemma observe_keeps lease operation_id s : (observe_session lease operation_id s).2 = s.
Proof. done. Qed.

(** Preparing a request only reads. *)
Lemma prepare_catalog_reads request : Respects eq (prepare_catalog_request request).
Proof. unfold prepare_catalog_request, ensure_typed_resource_request, ensure_config_certain. respects_by idtac. Qed.
Lemma prepare_scan_reads request : Respects eq (prepare_redis_scan_request request).
Proof. unfold prepare_redis_scan_request, ensure_typed_resource_request, ensure_config_certain. respects_by idtac. Qed.
Lemma prepare_inspect_reads request : Respects eq (prepare_redis_inspect_request request).
Proof. unfold prepare_redis_inspect_request, ensure_typed_resource_request, ensure_config_certain. respects_by idtac. Qed.

(** ** Executions *)

Definition execute_identity (request : ExecuteRequest) : RequestIdentity :=
  (work_identity (WorkExecute request ExecuteRead)).1.

(** How a task reports what [execute_at] returns. *)
Definition reports_execution (request : ExecuteRequest) (kind : OperationKind)
    (outcome : result ServiceError ExecuteOutcome) (event : UiEvent) : Prop :=
  let operation_id := ex_operation_id request in
  let profile_id := ex_profile_id request in
  let generation := ex_profile_generation request in
  match outcome with
  | Ok outcome => event = QueryFinished operation_id profile_id generation (eo_session_generation outcome) (eo_result outcome)
  | Err error =>
      (exists session, event = failed_from_service operation_id profile_id generation session kind error) \/
      (exists session driver_error, error = SeDriver driver_error /\
         event = execution_failed_event operation_id profile_id generation session kind driver_error)
  end.

Lemma reports_service_error request kind session error :
  reports_execution request kind (Err error)
    (failed_from_service (ex_operation_id request) (ex_profile_id request) (ex_profile_generation request) session kind error).
Proof using Type. left. by exists session. Qed.

(** C36: executing from the command line is the task of the runtime that nobody disturbs: from the same service, and with the driver's reply to the same typed request, both leave the same service behind, the task reports the result that [execute_at] returns, snapshot and session included, and it reports a failure exactly when [execute_at] fails. *)
Theorem execute_at_is_task kind elapsed_ms completed_at request s :
  match execute_at env connect handles shell_split f64_to_string json_to_string completed_at request s,
        prepare_execute_request shell_split request s with
  | Some (outcome, s'), Some prepared =>
      let reply := typed ← map_err (fun _ => DeRedisKeyMissing) prepared;
                   reply_with (execute_identity request) (fun lease => execute_typed handles lease typed) s in
      let task := run_execute env connect shell_split f64_to_string json_to_string
                    (undisturbed None reply elapsed_ms completed_at) request kind s in
      te_service task = s' /\ exists event, te_event task = Some event /\ reports_execution request kind outcome event
  | None, None => True
  | _, _ => False
  end.
Proof.
  unfold execute_at, run_execute, reply_with. cbn [undisturbed tr_others tr_prepare].
  destruct (prepare_execute_request shell_split request s) as [[typed|error]|]; cbn [mbind option_bind]; [| |done].
  - rewrite acquire_undisturbed. unfold mbind at 1, Sv_bind at 1. cbn [execute_identity work_identity fst ri_operation_id ri_profile_id ri_profile_generation].
    destruct (acquire_session_at _ _ _ _ _ s) as [[lease|error] s1]; cbn [fst snd map_err mbind result_bind].
    + unfold with_lease, finish_execute. cbn [undisturbed tr_others tr_reply].
      pose proof (observe_keeps lease (ex_operation_id request) s1) as Hobs.
      destruct (observe_session _ _ s1) as [[[]|error] s2]; cbn in Hobs; subst s2;
        destruct (execute_typed handles lease typed) as [reply|error'];
        cbn -[execution_failed_event failed_from_service]; rewrite ?orb_false_r, ?orb_true_r;
        (split; [done|]); eauto 10.
    + by eauto 10 using reports_service_error.
  - by eauto 10 using reports_service_error.
Qed.
(** ** Checks and resources *)

(** The task ends with the event of success for the value, or with another event for an error. *)
Definition reports_value {A} (outcome : result ServiceError A) (success : A -> UiEvent -> Prop) (event : UiEvent) : Prop :=
  match outcome with
  | Ok value => success value event
  | Err _ => forall value, ~ success value event
  end.

Theorem check_at_is_task kind elapsed_ms ping_ms operation_id profile_id generation timeout s :
  let '(outcome, s') := check_at env connect handles elapsed_ms operation_id profile_id generation timeout s in
  let identity := {| ri_profile_id := profile_id; ri_profile_generation := generation; ri_operation_id := operation_id |} in
  let reply := reply_with identity (fun lease => lease_ping handles lease timeout) s in
  let task := run_connect env connect (undisturbed None reply ping_ms None) operation_id profile_id generation kind s in
  te_service task = s' /\ exists event, te_event task = Some event /\
    reports_value outcome (fun value event =>
      event = ConnectionReady operation_id profile_id generation (co_session_generation value) ping_ms) event.
Proof.
  unfold check_at, run_connect, reply_with. rewrite acquire_undisturbed. unfold mbind at 1, Sv_bind at 1.
  cbn [ri_operation_id ri_profile_id ri_profile_generation].
  destruct (acquire_session_at _ _ _ _ _ s) as [[lease|error] s1]; cbn [fst snd];
    [|split; [done|]; eexists; by split].
  unfold with_lease. cbn [undisturbed tr_others tr_reply]. unfold mbind at 1, Sv_bind at 1, finish_check.
  pose proof (observe_keeps lease operation_id s1) as Hobs.
  destruct (observe_session _ _ s1) as [[[]|error] s2]; cbn in Hobs; subst s2;
    destruct (lease_ping handles lease timeout) as [[]|error']; cbn; (split; [done|]); eexists; by split.
Qed.

(** What [finish_resource_operation] makes of the driver's reply, and what the task makes of it. *)
Lemma finish_undisturbed {Reply} root (reply : result DriverError Reply) elapsed_ms completed_at identity lease
    (failed : result ServiceError unit + DriverError -> UiEvent)
    (succeeded : Reply -> SessionGeneration -> SessionDisposition -> UiEvent)
    (success : Reply -> UiEvent -> Prop) finish s :
  (forall value, success value (succeeded value (lease_generation lease) Keep)) ->
  (forall value value', ~ success value (failed value')) ->
  (forall observation s, finish (RaceDone reply) observation s =
     match reply, observation with
     | Ok reply, Ok _ => ((succeeded reply (lease_generation lease) Keep, false), s)
     | Err error, Ok _ => ((failed (inr error), bool_decide (for_driver_error error = Evict)), s)
     | _, Err error => ((failed (inl (Err error)), true), s)
     end) ->
  let '(outcome, s') := finish_resource_operation lease (ri_operation_id identity) reply s in
  let task := with_lease (undisturbed root reply elapsed_ms completed_at) (ri_operation_id identity) lease finish s in
  te_service task = s' /\ exists event, te_event task = Some event /\ reports_value outcome success event.
Proof using Type.
  intros Hok Herr Hfinish. unfold with_lease, finish_resource_operation. cbn [undisturbed tr_others tr_reply].
  pose proof (observe_keeps lease (ri_operation_id identity) s) as Hobs.
  destruct (observe_session _ _ s) as [observation s2]; cbn in Hobs; subst s2. rewrite Hfinish.
  destruct reply as [reply|error], observation as [[]|error']; cbn; rewrite ?orb_false_r, ?orb_true_r;
    (split; [done|]); eexists; (split; [done|]); cbn; auto.
Qed.
Lemma redis_is_task {Reply} (request : RedisResourceRequest) identity kind (prepare : Sv ServiceError unit)
    (succeeded : Reply -> SessionGeneration -> SessionDisposition -> UiEvent) ask elapsed_ms completed_at s :
  Respects eq prepare ->
  (forall value session error generation disposition outcome,
     succeeded value session Keep <> failed_redis_resource_event request error generation disposition outcome) ->
  let '(outcome, s') :=
    (prepare ;;
     lease ← acquire_session_at env connect (ri_operation_id identity) (ri_profile_id identity) (ri_profile_generation identity);
     finish_resource_operation lease (ri_operation_id identity) (ask lease)) s in
  let task := run_redis env connect (undisturbed None (reply_with identity ask s) elapsed_ms completed_at)
                request identity kind prepare succeeded s in
  te_service task = s' /\ exists event, te_event task = Some event /\
    reports_value outcome (fun value event => exists session, event = succeeded value session Keep) event.
Proof using Type.
  intros Hreads Hdistinct. specialize (Hreads s). unfold run_redis. cbn [undisturbed tr_others tr_prepare].
  unfold mbind at 1, Sv_bind at 1.
  destruct (prepare s) as [[[]|error] s1] eqn:Hprepare; cbn in Hreads; subst s1; cbn [race_result map_err mbind result_bind fst];
    [|split; [done|]; eexists; split; [done|]; intros value [session Heq]; by apply eq_sym, Hdistinct in Heq].
  rewrite acquire_undisturbed. unfold reply_with. unfold mbind at 1, Sv_bind at 1.
  destruct (acquire_session_at _ _ _ _ _ s) as [[lease|error] s1]; cbn [fst snd];
    [|split; [done|]; eexists; split; [done|]; intros value [session Heq]; by apply eq_sym, Hdistinct in Heq].
  eapply (finish_undisturbed None (ask lease) elapsed_ms completed_at identity lease
    (fun cause => match cause with
      | inr error => failed_redis_resource_event request _ _ (Some (for_driver_error error)) _
      | inl (Err error) => failed_redis_resource_event request _ _ (Some Evict) _
      | inl (Ok _) => failed_redis_resource_event request
          (public_redis_resource_error kind (ri_profile_id identity) (ri_operation_id identity) InternalFailure PcNone)
          None None OutcomeUnknown end) succeeded).
  - intros value. by eexists.
  - intros value cause [session Heq]. destruct cause as [[[]|]|]; by apply eq_sym, Hdistinct in Heq.
  - intros observation s2. destruct (ask lease) as [reply|error], observation as [[]|error']; reflexivity.
Qed.
(** Scanning keys and inspecting a key from the command line are the tasks of the runtime that nobody disturbs. *)
Theorem scan_redis_keys_is_task request elapsed_ms completed_at s :
  let '(outcome, s') := scan_redis_keys env connect handles request s in
  let reply := reply_with (rs_identity request) (fun lease => lease_scan_redis_keys handles lease request) s in
  let task := run_redis_scan env connect (undisturbed None reply elapsed_ms completed_at) request s in
  te_service task = s' /\ exists event, te_event task = Some event /\
    reports_value outcome (fun page event => exists session, event = RedisKeysLoaded page session Keep) event.
Proof using Type.
  apply (redis_is_task (RrScan request) (rs_identity request) BrowseRedis _ RedisKeysLoaded); [apply prepare_scan_reads|done].
Qed.

Theorem inspect_redis_key_is_task request elapsed_ms completed_at s :
  let '(outcome, s') := inspect_redis_key env connect handles request s in
  let reply := reply_with (rk_identity request) (fun lease => lease_inspect_redis_key handles lease request) s in
  let task := run_redis_inspect env connect (undisturbed None reply elapsed_ms completed_at) request s in
  te_service task = s' /\ exists event, te_event task = Some event /\
    reports_value outcome (fun preview event => exists session, event = RedisKeyInspected preview session Keep) event.
Proof using Type.
  apply (redis_is_task (RrInspect request) (rk_identity request) InspectRedis _ RedisKeyInspected);
    [apply prepare_inspect_reads|done].
Qed.

(** So is loading a page of the catalog, with the token key that both derive from the same root. *)
Theorem load_catalog_page_is_task root request elapsed_ms completed_at s :
  let '(outcome, s') := load_catalog_page env connect handles root request s in
  let reply :=
    match context ← (prepare_catalog_request request s).1; catalog_token_key_load root context with
    | Ok token_key => reply_with (cr_identity request) (fun lease => lease_load_catalog_page handles lease request token_key) s
    | Err _ => Err DeRedisKeyMissing
    end in
  let task := run_catalog_browse env connect (undisturbed root reply elapsed_ms completed_at) request s in
  te_service task = s' /\ exists event, te_event task = Some event /\
    reports_value outcome (fun page event => exists session, event = CatalogPageLoaded page session Keep) event.
Proof using Type.
  pose proof (prepare_catalog_reads request s) as Hreads. unfold load_catalog_page, run_catalog_browse.
  cbn [undisturbed tr_others tr_prepare]. unfold mbind at 1, Sv_bind at 1.
  destruct (prepare_catalog_request request s) as [[context|error] s1]; cbn in Hreads; subst s1;
    cbn [race_result map_err mbind result_bind fst];
    [|split; [done|]; eexists; split; [done|]; by intros value [session Heq]].
  unfold mbind at 1, Sv_bind at 1, sv_lift at 1. unfold await_token_key. cbn [undisturbed tr_token_key race_result mbind result_bind ok_or].
  destruct (catalog_token_key_load root context) as [token_key|error]; cbn [map_err];
    [|split; [done|]; eexists; split; [done|]; by intros value [session Heq]].
  rewrite acquire_undisturbed. unfold reply_with. cbv zeta. unfold mbind at 1, Sv_bind at 1.
  destruct (acquire_session_at _ _ _ _ _ s) as [[lease|error] s1]; cbn [fst snd];
    [|split; [done|]; eexists; split; [done|]; by intros value [session Heq]].
  set (reply := lease_load_catalog_page handles lease request token_key).
  eapply (finish_undisturbed root reply elapsed_ms completed_at (cr_identity request) lease
    (fun cause => match cause with
      | inr error => catalog_failed_event request (public_summary (SeDriver error)) _ (Some (for_driver_error error))
      | inl (Err error) => catalog_failed_event request (public_summary error) _ (Some Evict)
      | inl (Ok _) => catalog_failed_event request InternalFailure None None end) CatalogPageLoaded).
  - intros value. by eexists.
  - by intros value [[[]|]|] [session Heq].
  - intros observation s2. destruct reply as [page|error], observation as [[]|error']; reflexivity.
Qed.
End equivalence.
