(* ===== verification/DriverSessions.v ===== *)
(** * Sessions of the drivers (src/src/drivers/mod.rs)

    A session is one driver's; the traits that the service uses are implemented for all
    sessions and refuse the other driver's work.  Connecting picks the driver of the
    profile.  The sessions of the drivers are parameters here: [MysqlDriver], [RedisDecode]
    and [RedisBrowser] model what they do. *)

From S2P Require Import Prelude RustStr Model Execution Secrets Drivers Service RuntimeTasks RedisBrowser Headless.

(** What a driver's session does. *)
Record MySqlOps (M : Type) := {
  my_connect : ConnectionProfile -> option SessionSecret -> Duration -> result DriverError M;
  my_ping : M -> Duration -> result DriverError unit;
  my_execute_prepared : M -> PreparedMySqlRequest -> result DriverError QueryResult;
  my_load_page : M -> CatalogRequest -> CatalogTokenKey -> result DriverError CatalogPage;
}.
Arguments my_connect {M}. Arguments my_ping {M}. Arguments my_execute_prepared {M}. Arguments my_load_page {M}.

Record RedisOps (R : Type) := {
  re_connect : ConnectionProfile -> option SessionSecret -> Duration -> result DriverError R;
  re_ping : R -> Duration -> result DriverError unit;
  re_execute_command : R -> RedisExecuteRequest -> result DriverError QueryResult;
  re_scan_keys : R -> RedisScanRequest -> result DriverError RedisKeyPage;
  re_inspect_key : R -> RedisKeyInspectRequest -> result DriverError RedisValuePreview;
}.
Arguments re_connect {R}. Arguments re_ping {R}. Arguments re_execute_command {R}. Arguments re_scan_keys {R}.
Arguments re_inspect_key {R}.

Section sessions.
Context {M R : Type} (mysql : MySqlOps M) (redis : RedisOps R).

Inductive Session := SessionMySql (session : M) | SessionRedis (session : R).

Definition session_ping (session : Session) (timeout : Duration) : result DriverError unit :=
  match session with
  | SessionMySql session => my_ping mysql session timeout
  | SessionRedis session => re_ping redis session timeout
  end.

Definition execute_prepared (session : Session) (request : PreparedMySqlRequest) : result DriverError QueryResult :=
  match session with
  | SessionMySql session => my_execute_prepared mysql session request
  | SessionRedis _ => Err (DeUnsupported Redis (lit "mysql prepared execution"))
  end.

Definition execute_command (session : Session) (request : RedisExecuteRequest) : result DriverError QueryResult :=
  match session with
  | SessionRedis session => re_execute_command redis session request
  | SessionMySql _ => Err (DeUnsupported MySql (lit "redis command execution"))
  end.

Definition session_load_page (session : Session) (request : CatalogRequest) (token_key : CatalogTokenKey) :
    result DriverError CatalogPage :=
  match session with
  | SessionMySql session => my_load_page mysql session request token_key
  | SessionRedis _ => Err (DeUnsupported Redis (lit "mysql catalog browsing"))
  end.

Definition session_scan_keys (session : Session) (request : RedisScanRequest) : result DriverError RedisKeyPage :=
  match session with
  | SessionRedis session => re_scan_keys redis session request
  | SessionMySql _ => Err (DeUnsupported MySql (lit "redis keyspace browsing"))
  end.

Definition session_inspect_key (session : Session) (request : RedisKeyInspectRequest) :
    result DriverError RedisValuePreview :=
  match session with
  | SessionRedis session => re_inspect_key redis session request
  | SessionMySql _ => Err (DeUnsupported MySql (lit "redis key inspection"))
  end.

(** [Session::connected_resources]: the session itself behind each trait of its driver. *)
Definition session_resources (session : Session) : ConnectedResources :=
  match session with
  | SessionMySql _ => ResMySql (execute_prepared session) (session_load_page session)
  | SessionRedis _ => ResRedis (execute_command session) (session_scan_keys session) (session_inspect_key session)
  end.

(** drivers/mongodb.rs *)
Definition unavailable : DriverError := DeUnavailable MongoDb REASON.

Definition drivers_connect (profile : ConnectionProfile) (secret : option SessionSecret) (timeout : Duration) :
    result DriverError Session :=
  _ ← validate_profile profile;
  match p_driver profile with
  | MySql => SessionMySql <$> my_connect mysql profile secret timeout
  | Redis => SessionRedis <$> re_connect redis profile secret timeout
  | MongoDb => Err unavailable
  end.

(** The sessions behind the service's handles. *)
Definition session_handles (table : SessionHandle -> option Session) : Handles :=
  {| hd_ping := fun handle timeout =>
       match table handle with Some session => session_ping session timeout | None => Err unavailable end;
     hd_resources := fun handle => session_resources <$> table handle |}.

(** ** No mismatch *)

Definition session_driver (session : Session) : DriverKind :=
  match session with SessionMySql _ => MySql | SessionRedis _ => Redis end.

(** A connection is of the profile's driver, and MongoDB has none. *)
Lemma drivers_connect_driver profile secret timeout session :
  drivers_connect profile secret timeout = Ok session -> session_driver session = p_driver profile.
Proof.
  unfold drivers_connect. destruct (validate_profile profile); [|done]. cbn.
  destruct (p_driver profile); [destruct (my_connect _ _ _ _)|destruct (re_connect _ _ _ _)|]; cbn; by intros [= <-].
Qed.

(** What the session of the request's own driver replies. *)
Inductive driver_replies : Session -> TypedExecuteRequest -> result DriverError QueryResult -> Prop :=
| replies_mysql session request :
    driver_replies (SessionMySql session) (TypedMySql request) (my_execute_prepared mysql session request)
| replies_redis session request :
    driver_replies (SessionRedis session) (TypedRedis request) (re_execute_command redis session request).

(** The lease's handle is a session that was connected for the lease's profile. *)
Definition leased (table : SessionHandle -> option Session) (lease : SessionLease) (session : Session) : Prop :=
  table (sl_handle lease) = Some session /\
  exists secret timeout, drivers_connect (sl_profile lease) secret timeout = Ok session.

Lemma prepared_driver shell_split request s typed :
  prepare_execute_request shell_split request s = Some (Ok typed) ->
  exists profile, find_profile (profiles s) (ex_profile_id request) = Some profile /\ p_driver profile = te_driver typed.
Proof using Type.
  unfold prepare_execute_request, profile_with_generation. destruct (sv_uncertain s); [done|].
  destruct (validate_execute_target _ _) as [[target|]|]; cbn; [|done|done].
  destruct (find_profile _ _) as [profile|]; cbn; [|done].
  destruct (generations s !! ex_profile_id request); cbn; [|done].
  destruct (negb _); [done|]. destruct (negb _); [done|]. intros [= Htyped]. exists profile. split; [done|].
  revert Htyped. unfold typed_request.
  destruct (p_driver profile), target; cbn; try done; repeat (case_match; simplify_eq/=; try done);
    destruct (map_err _ _); cbn; try done; by intros [= <-].
Qed.

(** An execution that was prepared for the profile of its lease reaches the driver as it is: the driver's own reply to that very request comes back, and never a mismatch of drivers. *)
Theorem execution_reaches_driver table lease session shell_split request s typed :
  prepare_execute_request shell_split request s = Some (Ok typed) ->
  find_profile (profiles s) (ex_profile_id request) = Some (sl_profile lease) ->
  leased table lease session ->
  driver_replies session typed (execute_typed (session_handles table) lease typed).
Proof using Type.
  intros (profile & Hfind & Hdriver)%prepared_driver Hlease (Htable & secret & timeout & Hconnect%drivers_connect_driver).
  assert (profile = sl_profile lease) as -> by congruence.
  unfold execute_typed, connected_resources, session_handles. cbn. rewrite Htable. cbn.
  destruct session, typed; cbn in *; try congruence; constructor.
Qed.
End sessions.
