(* ===== verification/Cli.v ===== *)
(** * The command line (src/src/cli.rs, src/src/main.rs, src/src/error.rs)

    From the parsed command to what is printed and the exit code.  clap's parsing,
    serde_json's text of an output, the window of the desktop client, the drivers and the
    file of the catalog's token key are parameters. *)

From S2P Require Import Prelude RustStr Model Execution Retention Secrets Profile Config ConfigWriter Drivers Service ServiceLogic.
From S2P Require Import Targets PublicError RedisBrowser DraftTests MysqlCatalog RuntimeTasks Headless.

(** ** Errors (error.rs) *)

Inductive AppError :=
| AeService (error : ServiceError)
| AeConfig (error : ConfigError)
| AeSecret (error : SecretError)
| AeDriver (error : DriverError)
| AeUnknownProfile
| AeInvalidInput
| AeDesktopDisabled
| AeDesktop (message : str)
| AeJson.

(** The summary whose message [public_message] returns. *)
Definition app_error_summary (error : AppError) : PublicSummary :=
  match error with
  | AeService error => (public_error_parts error).1
  | AeInvalidInput | AeUnknownProfile => InvalidInput
  | AeSecret _ => CredentialRequired
  | AeDriver error =>
      if is_mysql_permission_denied error then PermissionDenied
      else if is_mysql_authentication_failed error then AuthenticationFailed
      else
        match error with
        | DeTimeout _ _ => OperationTimedOut
        | DeInvalidCatalogRequest => InvalidInput
        | DeUnavailable _ _ | DeUnsupported _ _ | DePreparedStatementUnsupported _ => UnsupportedFeature
        | _ => NetworkUnavailable
        end
  | AeDesktopDisabled => UnsupportedFeature
  | AeConfig _ => ConfigWriteNotCommitted
  | AeJson | AeDesktop _ => InternalFailure
  end.
Definition public_message (error : AppError) : str := summary_message (app_error_summary error).

(** ** Commands *)

Inductive MySqlBrowseCommand :=
| BrowseSchemas (profile : str) (page_size : N) (page_token : option str) (prefix : option str)
| BrowseRelations (profile schema : str) (page_size : N) (page_token : option str) (prefix : option str)
| BrowseColumns (profile schema relation : str) (page_size : N) (page_token : option str) (prefix : option str).

Inductive RedisFilterMode := ModeLiteralPrefix | ModeGlob.

(** The only output format, JSON, is left out. *)
Inductive Command :=
| CmdGui
| CmdVersion
| CmdConfigContract
| CmdCheck (profile : str) (timeout_secs : N)
| CmdExec (profile text : str) (row_limit timeout_secs : N)
| CmdDrivers
| CmdBrowseMySql (resource : MySqlBrowseCommand)
| CmdBrowseRedis (profile : str) (filter_mode : RedisFilterMode) (filter : str) (cursor count : N)
| CmdInspectRedis (profile key_base64 : str).

Record Cli := { cli_config : option str; cli_command : option Command }.

(** build_info.rs *)
Record BuildIdentity := {
  bi_package_version : str; bi_channel : str; bi_build_id : str; bi_source_sha : str; bi_target : str; bi_arch : str;
}.
Definition format_version (version channel build_id : str) : str :=
  version ++ lit " (" ++ channel ++ lit " " ++ build_id ++ lit ")".

Record CheckReceipt := {
  cr_status : str; cr_operation_id : OperationId; cr_profile_id : str; cr_driver : DriverKind; cr_endpoint : str;
  cr_elapsed_ms : N;
}.

Record ExecReceipt := {
  er_status : str; er_operation_id : OperationId; er_profile_id : ProfileId; er_driver : DriverKind;
  er_column_count : N; er_row_count : N; er_affected_rows : N; er_elapsed_ms : N; er_truncated : bool;
  er_notice_count : N;
}.

Definition ExecReceipt_from_result (status : str) (operation_id : OperationId) (profile_id : ProfileId)
    (driver : DriverKind) (result : ResultSnapshot) : ExecReceipt :=
  {| er_status := status; er_operation_id := operation_id; er_profile_id := profile_id; er_driver := driver;
     er_column_count := N.of_nat (length (sn_columns result)); er_row_count := N.of_nat (length (sn_rows result));
     er_affected_rows := sn_affected_rows result; er_elapsed_ms := rp_duration_ms (sn_provenance result);
     er_truncated := sn_truncated result; er_notice_count := N.of_nat (length (sn_notices result)) |}.

Inductive CliOutput :=
| OutIdentity (identity : BuildIdentity)
| OutContract (contract : ConfigContract)
| OutDrivers (descriptors : list DriverDescriptor)
| OutCheck (receipt : CheckReceipt)
| OutExec (receipt : ExecReceipt) (result : ResultSnapshot)
| OutCatalog (page : CatalogPage)
| OutKeys (page : RedisKeyPage)
| OutPreview (preview : RedisValuePreview).

(** ** Running *)

(** What the command line runs against; [None] for the window when the feature [desktop] is off, and for an output that has no JSON. *)
Record CliWorld := {
  cw_platform : Platform;
  cw_env : Env;
  cw_connect : ConnectionProfile -> option SessionSecret -> result DriverError SessionHandle;
  cw_handles : Handles;
  cw_token_root : option bytes;
  cw_config_variable : option str;   (* DBOTTER_CONFIG *)
  cw_home : option str;
  cw_identity : BuildIdentity;
  cw_elapsed_ms : N;
  cw_completed_at : option Z;
  cw_shell_split : str -> option (list str);
  cw_f64_to_string : f64 -> str;
  cw_json_to_string : json -> str;
  cw_base64_standard : str -> option bytes;
  cw_output_json : CliOutput -> option str;
  cw_gui : option (str -> result str unit);
}.

Section cli.
Context `{TokenCrates}.
Context (cw : CliWorld).

(** [DriverConnector] supports Redis over TLS. *)
Definition headless_env : Env :=
  {| hash_order := hash_order (cw_env cw); run_load := run_load (cw_env cw); Service.run_mutation := Service.run_mutation (cw_env cw);
     supports_redis_tls := true; environment := environment (cw_env cw); ca_files := ca_files (cw_env cw) |}.

(** [SessionSecretStore::default()] *)
Definition default_store : SessionSecretStore := {| ss_poisoned := false; ss_values := ∅ |}.

(** [ApplicationService::load_path] *)
Definition service_load_path (path : str) (w : World) : result ServiceError Service * World :=
  let '(loaded, w) := load_path (cw_platform cw) path w in
  (loaded ← map_err SeConfig loaded;
   _ ← map_err SeInvalidProfile (validate_config_identity (lc_config loaded));
   Ok (from_validated_loaded loaded default_store), w).

Definition request_identity (profile : str) : Sv ServiceError RequestIdentity := fun s =>
  (generation ← profile_generation profile s;
   Ok {| ri_profile_id := profile; ri_profile_generation := generation; ri_operation_id := 1 |}, s).

Definition browse_request (identity : RequestIdentity) (resource : MySqlBrowseCommand) : CatalogRequest :=
  match resource with
  | BrowseSchemas _ page_size page_token prefix =>
      CrSchemas identity prefix page_token page_size DEFAULT_CATALOG_TIMEOUT
  | BrowseRelations _ schema page_size page_token prefix =>
      CrRelations identity schema prefix page_token page_size DEFAULT_CATALOG_TIMEOUT
  | BrowseColumns _ schema relation page_size page_token prefix =>
      CrColumns identity schema relation prefix page_token page_size DEFAULT_CATALOG_TIMEOUT
  end.

Definition browse_profile (resource : MySqlBrowseCommand) : str :=
  match resource with BrowseSchemas p _ _ _ | BrowseRelations p _ _ _ _ | BrowseColumns p _ _ _ _ _ => p end.

Definition browse_mysql (resource : MySqlBrowseCommand) : Sv ServiceError CliOutput :=
  identity ← request_identity (browse_profile resource);
  page ← load_catalog_page headless_env (cw_connect cw) (cw_handles cw) (cw_token_root cw) (browse_request identity resource);
  mret (OutCatalog page).

Definition browse_redis (profile : str) (filter_mode : RedisFilterMode) (filter : str) (cursor count : N) :
    Sv ServiceError CliOutput :=
  identity ← request_identity profile;
  let filter := match filter_mode with ModeLiteralPrefix => LiteralPrefix filter | ModeGlob => Glob filter end in
  page ← scan_redis_keys headless_env (cw_connect cw) (cw_handles cw)
    {| rs_identity := identity; rs_filter := filter; rs_cursor := cursor; rs_count_hint := count;
       rs_timeout := DEFAULT_CATALOG_TIMEOUT |};
  mret (OutKeys page).

Definition inspect (profile key_base64 : str) : Sv AppError CliOutput :=
  identity ← sv_map_err AeService (request_identity profile);
  key ← sv_lift (ok_or (cw_base64_standard cw key_base64) AeInvalidInput);
  preview ← sv_map_err AeService (inspect_redis_key headless_env (cw_connect cw) (cw_handles cw)
    {| rk_identity := identity; rk_key := key; rk_timeout := DEFAULT_CATALOG_TIMEOUT |});
  mret (OutPreview preview).

Definition check (profile_id : str) (timeout : Duration) : Sv ServiceError CliOutput :=
  identity ← request_identity profile_id;
  outcome ← check_at headless_env (cw_connect cw) (cw_handles cw) (cw_elapsed_ms cw) 1 profile_id
              (ri_profile_generation identity) timeout;
  mret (OutCheck {| cr_status := lit "ok"; cr_operation_id := co_operation_id outcome;
                    cr_profile_id := co_profile_id outcome; cr_driver := co_driver outcome;
                    cr_endpoint := co_endpoint outcome; cr_elapsed_ms := co_elapsed_ms outcome |}).

Definition exec_request (profile_id text : str) (row_limit : N) (timeout : Duration) : Sv ServiceError ExecuteRequest :=
  language ← language_for profile_id;
  identity ← request_identity profile_id;
  mret {| ex_operation_id := 1; ex_profile_id := profile_id; ex_profile_generation := ri_profile_generation identity;
          ex_language := language; ex_text := text; ex_row_limit := row_limit; ex_timeout := timeout |}.

(** [None] is the panic of [prepare_execute_request]. *)
Definition execute (profile_id text : str) (row_limit : N) (timeout : Duration) (s : Service) :
    option (result ServiceError CliOutput) :=
  match exec_request profile_id text row_limit timeout s with
  | (Err error, _) => Some (Err error)
  | (Ok request, s) =>
      '(outcome, _) ← execute_at headless_env (cw_connect cw) (cw_handles cw) (cw_shell_split cw) (cw_f64_to_string cw)
                        (cw_json_to_string cw) (cw_completed_at cw) request s;
      Some (outcome ← outcome;
            Ok (OutExec (ExecReceipt_from_result (lit "ok") (eo_operation_id outcome) (eo_profile_id outcome)
                           (eo_driver outcome) (eo_result outcome)) (eo_result outcome)))
  end.

(** A command once the service is loaded. *)
Definition with_service (command : Command) (s : Service) : option (result AppError CliOutput) :=
  match command with
  | CmdCheck profile timeout_secs => Some (sv_map_err AeService (check profile (from_secs timeout_secs)) s).1
  | CmdExec profile text row_limit timeout_secs =>
      map_err AeService <$> execute profile text row_limit (from_secs timeout_secs) s
  | CmdBrowseMySql resource => Some (sv_map_err AeService (browse_mysql resource) s).1
  | CmdBrowseRedis profile mode filter cursor count =>
      Some (sv_map_err AeService (browse_redis profile mode filter cursor count) s).1
  | CmdInspectRedis profile key_base64 => Some (inspect profile key_base64 s).1
  | CmdGui | CmdVersion | CmdConfigContract | CmdDrivers => Some (Err AeInvalidInput)
  end.

Definition run_gui (config_path : str) : result AppError unit :=
  match cw_gui cw with
  | Some gui => map_err AeDesktop (gui config_path)
  | None => Err AeDesktopDisabled
  end.

(** What a command prints; the window prints nothing. *)
Definition run_with_config (command : Command) (config_path : str) (w : World) :
    option (result AppError (option CliOutput)) * World :=
  let loaded_then : option (result AppError (option CliOutput)) * World :=
    let '(loaded, w) := service_load_path config_path w in
    (match loaded with
     | Err error => Some (Err (AeService error))
     | Ok s => (fun outcome : result AppError CliOutput => Some <$> outcome) <$> with_service command s
     end, w) in
  match command with
  | CmdGui => (Some ((fun _ => None) <$> run_gui config_path), w)
  | CmdExec _ _ row_limit _ =>
      if ((row_limit =? 0) || (10000 <? row_limit))%N then (Some (Err AeInvalidInput), w) else loaded_then
  | CmdCheck _ _ | CmdBrowseMySql _ | CmdBrowseRedis _ _ _ _ _ | CmdInspectRedis _ _ => loaded_then
  | CmdVersion | CmdConfigContract | CmdDrivers => (Some (Err AeInvalidInput), w)
  end.

Definition run (cli : Cli) (w : World) : option (result AppError (option CliOutput)) * World :=
  match default CmdGui (cli_command cli) with
  | CmdVersion => (Some (Ok (Some (OutIdentity (cw_identity cw)))), w)
  | CmdConfigContract => (Some (Ok (Some (OutContract config_contract))), w)
  | CmdDrivers => (Some (Ok (Some (OutDrivers descriptors))), w)
  | command =>
      match resolve_config_path (cli_config cli) (cw_config_variable cw) (cw_home cw) with
      | Err error => (Some (Err (AeConfig error)), w)
      | Ok config_path => run_with_config command config_path w
      end
  end.

Definition print_json (output : option CliOutput) : result AppError str :=
  match output with
  | None => Ok []
  | Some output => text ← ok_or (cw_output_json cw output) AeJson; Ok (text ++ [10%N])
  end.

Record Exit := { ex_success : bool; ex_stdout : str; ex_stderr : str }.

Definition main (cli : Cli) (w : World) : option Exit * World :=
  let '(outcome, w) := run cli w in
  ((fun outcome : result AppError (option CliOutput) =>
      match output ← outcome; print_json output with
      | Ok text => {| ex_success := true; ex_stdout := text; ex_stderr := [] |}
      | Err error => {| ex_success := false; ex_stdout := []; ex_stderr := lit "error: " ++ public_message error ++ [10%N] |}
      end) <$> outcome, w).
End cli.

(** ** The command line only reads *)

Section reads.
Context `{TokenCrates}.

Lemma load_path_reads pf path w : w_files (load_path pf path w).2 = w_files w.
Proof.
  unfold load_path, attempt, fs_read, syscall, mbind, W_bind.
  repeat (case_match; simplify_eq/=; try done).
Qed.

Lemma service_load_reads cw path w : w_files (service_load_path cw path w).2 = w_files w.
Proof.
  unfold service_load_path. pose proof (load_path_reads (cw_platform cw) path w) as Hreads.
  by destruct (load_path _ path w).
Qed.

(** Whatever the command, its outcome and whatever the operating system does, no file of the configuration is created, changed or removed. *)
Theorem cli_changes_no_file cw cli w : w_files (main cw cli w).2 = w_files w.
Proof.
  unfold main. assert (w_files (run cw cli w).2 = w_files w) as Hrun; [|by destruct (run cw cli w)].
  pose proof (fun path => service_load_reads cw path w) as Hload. unfold run, run_with_config.
  repeat (case_match; simplify_eq/=; try done); try (match goal with
    | E : service_load_path _ ?p _ = _ |- _ => specialize (Hload p); rewrite E in Hload; exact Hload end).
Qed.

(** Nothing but one of seventeen fixed messages is printed for a failure, and nothing else then. *)
Theorem cli_failure_message cw cli w exit :
  (main cw cli w).1 = Some exit -> ex_success exit = false ->
  ex_stdout exit = [] /\ exists summary, ex_stderr exit = lit "error: " ++ summary_message summary ++ [10%N].
Proof.
  unfold main. destruct (run cw cli w) as [[outcome|] w']; [|done]. cbn. intros [= <-].
  destruct (outcome ≫= _) as [text|error]; [done|]. intros _. split; [done|]. by exists (app_error_summary error).
Qed.
End reads.

(** ** No panic *)

Lemma prepare_execute_total shell_split request s : prepare_execute_request shell_split request s <> None.
Proof.
  unfold prepare_execute_request, validate_execute_target. destruct (sv_uncertain s); [done|].
  pose proof (fun caret selection language => extract_never_panics shell_split (ex_text request) caret selection language
    (ex_row_limit request) (as_secs (ex_timeout request))) as Htotal.
  destruct (ex_language request); cbn; try done; case_match; try done;
    (match goal with |- context [extract_and_validate_target _ _ ?c ?sel ?l _ _] => specialize (Htotal c sel l) end);
    destruct (extract_and_validate_target _ _ _ _ _ _ _); done.
Qed.

Section total.
Context `{TokenCrates}.

Lemma execute_total cw profile text row_limit timeout s : execute cw profile text row_limit timeout s <> None.
Proof.
  unfold execute. destruct (exec_request _ _ _ _ s) as [[request|error] s1]; [|done].
  unfold execute_at. pose proof (prepare_execute_total (cw_shell_split cw) request s1) as Htotal.
  destruct (prepare_execute_request _ request s1) as [typed|]; [|done]. cbn. by case_match.
Qed.

(** The command line always ends with an exit code. *)
Theorem cli_never_panics cw cli w : is_Some (main cw cli w).1.
Proof.
  unfold main. assert (is_Some (run cw cli w).1) as Hrun.
  - unfold run, run_with_config, with_service.
    repeat (case_match; simplify_eq/=; try (by eexists)).
    match goal with |- is_Some (_ <$> (_ <$> execute ?c ?p ?t ?r ?d ?s)) =>
      pose proof (execute_total c p t r d s); by destruct (execute c p t r d s) end.
  - destruct (run cw cli w) as [[outcome|] w']; [by eexists|by destruct Hrun].
Qed.
End total.

(** ** Session credentials *)

Definition with_drivers (cw : CliWorld) (connect : ConnectionProfile -> option SessionSecret -> result DriverError SessionHandle)
    (handles : Handles) : CliWorld :=
  {| cw_platform := cw_platform cw; cw_env := cw_env cw; cw_connect := connect; cw_handles := handles;
     cw_token_root := cw_token_root cw; cw_config_variable := cw_config_variable cw; cw_home := cw_home cw;
     cw_identity := cw_identity cw; cw_elapsed_ms := cw_elapsed_ms cw; cw_completed_at := cw_completed_at cw;
     cw_shell_split := cw_shell_split cw; cw_f64_to_string := cw_f64_to_string cw;
     cw_json_to_string := cw_json_to_string cw; cw_base64_standard := cw_base64_standard cw;
     cw_output_json := cw_output_json cw; cw_gui := cw_gui cw |}.

(** The profile a command connects to. *)
Definition command_profile (command : Command) : option str :=
  match command with
  | CmdCheck profile _ | CmdExec profile _ _ _ | CmdBrowseRedis profile _ _ _ _ | CmdInspectRedis profile _ => Some profile
  | CmdBrowseMySql resource => Some (browse_profile resource)
  | CmdGui | CmdVersion | CmdConfigContract | CmdDrivers => None
  end.

(** A service with no session and no stored credential, whose profile asks for one. *)
Record needs_credential (s : Service) (profile_id : str) : Prop := {
  nc_sessions : sv_sessions s = ∅;
  nc_secrets : sv_secrets s = default_store;
  nc_profile : exists profile, find_profile (profiles s) profile_id = Some profile /\ p_credential_mode profile = CredSession;
}.

Lemma session_begin_refused env s profile generation operation_id :
  sv_sessions s = ∅ -> sv_secrets s = default_store -> p_credential_mode profile = CredSession ->
  exists error s', session_begin env profile generation operation_id s = (Err error, s').
Proof.
  intros Hsessions Hsecrets Hmode. unfold session_begin, ensure_config_certain, sv_get, sv_throw, sv_lift, cached_match.
  unfold mbind, Sv_bind, reject_if. destruct (sv_uncertain s); cbn; [by eauto|]. destruct (is_current profile generation s); cbn; [|by eauto].
  rewrite Hsessions, lookup_empty. cbn. destruct (ensure_ready profile); cbn; [|by eauto].
  destruct (ensure_connector_tls_support _ _); cbn; [|by eauto]. unfold resolve_profile_secret. rewrite Hmode, Hsecrets. cbn.
  by eauto.
Qed.

Lemma acquire_refused env operation_id profile_id generation s :
  needs_credential s profile_id ->
  exists error s', forall connect, acquire_session_at env connect operation_id profile_id generation s = (Err error, s').
Proof.
  intros [Hsessions Hsecrets (profile & Hfind & Hmode)].
  unfold acquire_session_at, acquire_checked, ensure_config_certain, profile_with_generation, sv_throw, sv_lift, reject_if.
  unfold mbind, Sv_bind. destruct (sv_uncertain s); cbn; [by eauto|]. rewrite Hfind. cbn.
  destruct (ok_or _ _) as [current|]; cbn; [|by eauto]. destruct (negb _); cbn; [by eauto|].
  destruct (validate_profile_for_network _ _); cbn; [|by eauto].
  destruct (session_begin_refused env s profile current operation_id Hsessions Hsecrets Hmode) as (error & s' & Hbegin).
  exists error, s'. intros connect. unfold session_for, mbind, Sv_bind. by rewrite Hbegin.
Qed.

(** A computation that fails in the same way for every driver. *)
Definition refused {E A} (m : (ConnectionProfile -> option SessionSecret -> result DriverError SessionHandle) -> Handles -> Sv E A)
    (s : Service) : Prop :=
  exists error s', forall connect handles, m connect handles s = (Err error, s').

Lemma refused_read {E A B} (m : Sv E A) (f : A -> _ -> _ -> Sv E B) s :
  Respects eq m -> (forall a, refused (f a) s) -> refused (fun connect handles => m ≫= fun a => f a connect handles) s.
Proof.
  intros Hm Hf. specialize (Hm s). unfold refused, mbind, Sv_bind. destruct (m s) as [[a|error] s1]; cbn in Hm; subst s1;
    [apply Hf|by eauto].
Qed.

Lemma refused_bind {E A B} m (f : A -> _ -> _ -> Sv E B) s :
  refused m s -> refused (fun connect handles => m connect handles ≫= fun a => f a connect handles) s.
Proof. intros (error & s' & Hm). exists error, s'. intros connect handles. unfold mbind, Sv_bind. by rewrite Hm. Qed.

Lemma refused_map_err {E F A} (g : E -> F) (m : _ -> _ -> Sv E A) s :
  refused m s -> refused (fun connect handles => sv_map_err g (m connect handles)) s.
Proof. intros (error & s' & Hm). exists (g error), s'. intros connect handles. unfold sv_map_err. by rewrite Hm. Qed.

Lemma refused_acquire {B} env operation_id profile_id generation (f : SessionLease -> _ -> _ -> Sv ServiceError B) s :
  needs_credential s profile_id ->
  refused (fun connect handles => acquire_session_at env connect operation_id profile_id generation ≫=
    fun lease => f lease connect handles) s.
Proof.
  intros Hneeds. apply (refused_bind (fun connect _ => acquire_session_at env connect operation_id profile_id generation)).
  destruct (acquire_refused env operation_id profile_id generation s Hneeds) as (error & s' & Hacquire).
  exists error, s'. by intros connect _.
Qed.

Section refusal.
Context `{TokenCrates}.

Lemma request_identity_reads profile : Respects eq (request_identity profile).
Proof. done. Qed.

Lemma request_identity_profile profile s identity s' :
  request_identity profile s = (Ok identity, s') -> ri_profile_id identity = profile.
Proof. unfold request_identity. destruct (profile_generation profile s); by intros [= <- _]. Qed.

(** Reading the identity of the profile and going on with it. *)
Lemma refused_identity {B} profile (f : RequestIdentity -> _ -> _ -> Sv ServiceError B) s :
  (forall identity, ri_profile_id identity = profile -> refused (f identity) s) ->
  refused (fun connect handles => request_identity profile ≫= fun identity => f identity connect handles) s.
Proof using Type.
  intros Hf. unfold refused, mbind, Sv_bind. pose proof (request_identity_profile profile s) as Hid.
  unfold request_identity in *. destruct (profile_generation profile s) as [generation|error]; cbn; [|by eauto].
  by apply Hf.
Qed.

Lemma catalog_refused env root request s :
  needs_credential s (ri_profile_id (cr_identity request)) ->
  refused (fun connect handles => load_catalog_page env connect handles root request) s.
Proof.
  intros Hneeds. apply (refused_read (prepare_catalog_request request)); [apply prepare_catalog_reads|]. intros context.
  apply (refused_read (sv_lift (catalog_token_key_load root context))); [done|]. intros token_key.
  by apply (refused_acquire env _ _ _ (fun lease connect handles =>
    finish_resource_operation lease (ri_operation_id (cr_identity request)) (lease_load_catalog_page handles lease request token_key))).
Qed.

Lemma scan_refused env request s :
  needs_credential s (ri_profile_id (rs_identity request)) ->
  refused (fun connect handles => scan_redis_keys env connect handles request) s.
Proof using Type.
  intros Hneeds. apply (refused_read (prepare_redis_scan_request request));
    [apply prepare_scan_reads|]. intros _.
  by apply (refused_acquire env _ _ _ (fun lease connect handles =>
    finish_resource_operation lease (ri_operation_id (rs_identity request)) (lease_scan_redis_keys handles lease request))).
Qed.

Lemma inspect_refused env request s :
  needs_credential s (ri_profile_id (rk_identity request)) ->
  refused (fun connect handles => inspect_redis_key env connect handles request) s.
Proof using Type.
  intros Hneeds. apply (refused_read (prepare_redis_inspect_request request));
    [apply prepare_inspect_reads|]. intros _.
  by apply (refused_acquire env _ _ _ (fun lease connect handles =>
    finish_resource_operation lease (ri_operation_id (rk_identity request)) (lease_inspect_redis_key handles lease request))).
Qed.
Lemma execute_refused cw profile text row_limit timeout s :
  needs_credential s profile ->
  exists error, forall connect handles,
    execute (with_drivers cw connect handles) profile text row_limit timeout s = Some (Err error).
Proof using Type.
  intros Hneeds. unfold execute. cbn [with_drivers cw_shell_split cw_connect cw_handles cw_completed_at].
  assert (forall request s', exec_request profile text row_limit timeout s = (Ok request, s') ->
    s' = s /\ ex_profile_id request = profile) as Hrequest.
  { unfold exec_request, language_for, Service.profile, request_identity, mbind, Sv_bind.
    intros request s'.
    destruct (find_profile (profiles s) profile); cbn; [|done]. destruct (profile_generation profile s); cbn; [|done].
    by intros [= <- <-]. }
  destruct (exec_request profile text row_limit timeout s) as [[request|error] s1]; [|by eauto].
  destruct (Hrequest request s1 eq_refl) as [-> Hid]. unfold execute_at.
  pose proof (prepare_execute_total (cw_shell_split cw) request s) as Htotal.
  destruct (prepare_execute_request _ request s) as [[typed|error]|]; [| |done]; cbn; [|by eauto].
  rewrite <- Hid in Hneeds.
  destruct (acquire_refused (headless_env cw) (ex_operation_id request) _ (ex_profile_generation request) s Hneeds)
    as (error & s' & Hacquire).
  exists error. intros connect handles. unfold mbind at 1, Sv_bind at 1.
  change (headless_env (with_drivers cw connect handles)) with (headless_env cw). by rewrite Hacquire.
Qed.

Lemma refused_output {E A} (m : _ -> _ -> Sv E A) s :
  refused m s -> exists error, forall connect handles, Some (m connect handles s).1 = Some (Err error).
Proof using Type. intros (error & s' & Hm). exists error. intros connect handles. by rewrite Hm. Qed.

(** The command line never gets past a credential that is kept for a session only: whatever the driver would do, it is not asked, and every command that needs the profile fails with the same error. *)
Theorem session_profile_never_contacted cw command profile s :
  needs_credential s profile -> command_profile command = Some profile ->
  exists error, forall connect handles, with_service (with_drivers cw connect handles) command s = Some (Err error).
Proof using Type.
  intros Hneeds Hcommand.
  destruct command as [| | |p t|p text row_limit t| |resource|p mode filter cursor count|p key]; try done;
    cbn in Hcommand; injection Hcommand as Hp; first [subst p | subst profile].
  - apply (refused_output (fun connect handles => sv_map_err AeService (check (with_drivers cw connect handles) profile (from_secs t)))).
    apply refused_map_err, (refused_identity profile). intros identity Hid.
    apply refused_bind. by apply (refused_acquire (headless_env cw)).
  - destruct (execute_refused cw profile text row_limit (from_secs t) s Hneeds) as [error He].
    exists (AeService error). intros connect handles. cbn [with_service]. by rewrite He.
  - apply (refused_output (fun connect handles => sv_map_err AeService (browse_mysql (with_drivers cw connect handles) resource))).
    apply refused_map_err, refused_identity. intros identity Hid. apply refused_bind.
    apply (catalog_refused (headless_env cw) (cw_token_root cw) (browse_request identity resource)).
    by destruct resource; cbn in *; subst.
  - apply (refused_output (fun connect handles => sv_map_err AeService
      (browse_redis (with_drivers cw connect handles) profile mode filter cursor count))).
    apply refused_map_err, (refused_identity profile). intros identity Hid. apply refused_bind.
    apply (scan_refused (headless_env cw)). by subst.
  - apply (refused_output (fun connect handles => inspect (with_drivers cw connect handles) profile key)).
    pose proof (request_identity_profile profile s) as Hid. unfold inspect, refused.
    unfold mbind at 1, Sv_bind at 1, sv_map_err at 1. cbn [with_drivers cw_base64_standard].
    destruct (request_identity profile s) as [[identity|error] s1] eqn:Hidentity; cbn; [|by eauto].
    specialize (Hid identity s1 eq_refl). pose proof (request_identity_reads profile s) as Heq.
    rewrite Hidentity in Heq. cbn in Heq. subst s1. revert Hid. intros Hid.
    apply (refused_read (sv_lift (ok_or (cw_base64_standard cw key) AeInvalidInput))); [done|]. intros k.
    apply refused_bind, refused_map_err. apply (inspect_refused (headless_env cw)). by subst.
Qed.
End refusal.
