(* ===== verification/RuntimeTruth.v ===== *)
(** * The connection shown is the connection held

    The interface shows a profile as connected through a session; the service caches
    the session.  The theorem folds the event of a finished task into the interface's
    model and compares it with the cache the task left. *)

From S2P Require Import Prelude RustStr Model Execution Targets Retention Secrets Profile Config ConfigWriter Drivers Service.
From S2P Require Import ServiceLogic ServiceSafety ServiceSystem ServiceWriter ServiceTheorems ServiceEffects PublicError RedisBrowser.
From S2P Require Import UiModel UiModelSafety RuntimeEvents DraftTests CommandPorts Editor MysqlCatalog CatalogTokens RuntimeTasks.

(** ** The session that serves a profile *)

Section profile.
Context (p : ProfileId) (g : ProfileGeneration).

(** The service is certain of its configuration and the profile is at the generation. *)
Definition at_generation_now (s : Service) : Prop := sv_uncertain s = false /\ generations s !! p = Some g.

(** The cached session an operation on the profile at the generation would use. *)
Definition serving (s : Service) : option SessionGeneration :=
  profile ← Service.find_profile (profiles s) p;
  cs_session_generation <$> cached_match profile g s.

(** Nobody else takes the session away while the generation lasts; an earlier state
    was not at another generation. *)
Definition undisturbed (s s' : Service) : Prop :=
  at_generation_now s' ->
  at_generation_now s /\ (forall session, serving s = Some session -> serving s' = Some session).

#[export] Instance undisturbed_preorder : PreOrder undisturbed.
Proof.
  split; [by intros s|]. intros s1 s2 s3 H12 H23 H3. destruct (H23 H3) as [H2 H23s]. destruct (H12 H2) as [H1 H12s].
  split; auto.
Qed.

Lemma find_profile_id s profile : Service.find_profile (profiles s) p = Some profile -> p_id profile = p.
Proof. by intros [_ H]%find_profile_Some. Qed.

(** Only these parts of the service matter. *)
Lemma serving_same s s' :
  sv_observed s' = sv_observed s -> sv_sessions s' = sv_sessions s -> serving s' = serving s.
Proof. intros Ho Hs. unfold serving, cached_match, profiles. by rewrite Ho, Hs. Qed.

Lemma undisturbed_same s s' :
  sv_observed s' = sv_observed s -> sv_sessions s' = sv_sessions s -> sv_uncertain s' = sv_uncertain s ->
  undisturbed s s'.
Proof.
  intros Ho Hs Hu [Hu' Hg']. split.
  - split; [congruence|]. unfold generations in *. congruence.
  - intros session <-. by apply serving_same.
Qed.

Lemma serving_cached s profile cached :
  Service.find_profile (profiles s) p = Some profile -> sv_sessions s !! p = Some cached ->
  cs_fingerprint cached = fingerprint_of profile -> cs_profile_generation cached = g ->
  serving s = Some (cs_session_generation cached).
Proof.
  intros Hp Hs Hf Hg. unfold serving. rewrite Hp. cbn. unfold cached_match.
  rewrite (find_profile_id _ _ Hp), Hs. cbn. rewrite bool_decide_true, Hg, N.eqb_refl by done. done.
Qed.

(** ** Acquiring a session *)

Lemma session_begin_miss env profile operation_id s attempt s' :
  session_begin env profile g operation_id s = (Ok (inr attempt), s') -> cached_match profile g s = None.
Proof.
  unfold session_begin, sv_get, mbind, Sv_bind, sv_throw, ensure_config_certain.
  destruct (sv_uncertain s); [done|]. cbn [reject_if].
  repeat (case_match; try done).
Qed.

(** What an acquisition leaves: the session it leases serves the profile. *)
Definition acquired (s s' : Service) (r : result ServiceError SessionLease) : Prop :=
  undisturbed s s' /\
  forall lease, r = Ok lease ->
    sl_profile_id lease = p /\ ci_profile_generation (sl_identity lease) = g /\
    serving s' = Some (lease_generation lease).

Lemma acquired_err s e : acquired s s (Err e).
Proof. by split. Qed.

Lemma acquired_before s1 s2 s3 r : undisturbed s1 s2 -> acquired s2 s3 r -> acquired s1 s3 r.
Proof. intros H [Hu Hl]. split; [by etrans|done]. Qed.

Lemma install_acquired env profile operation_id s attempt s1 connected :
  Service.find_profile (profiles s) p = Some profile ->
  session_begin env profile g operation_id s = (Ok (inr attempt), s1) ->
  let '(r, s') := session_install attempt connected s1 in acquired s s' r.
Proof.
  intros Hp Hbegin. pose proof (find_profile_id _ _ Hp) as Hid.
  pose proof (session_begin_miss _ _ _ _ _ _ Hbegin) as Hmiss.
  pose proof (session_begin_spec env profile g operation_id s) as Hspec. rewrite Hbegin in Hspec.
  destruct Hspec as (-> & Hu & Hcur & Hap & Hag & _).
  assert (Hnone : serving s = None) by (unfold serving; rewrite Hp; cbn; by rewrite Hmiss).
  destruct connected as [handle|e].
  2: { pose proof (session_install_error attempt e (set_next_session_generation s
         (fetch_add (sv_next_session_generation s)))) as Hs.
       destruct (session_install _ _ _) as [r s'] eqn:Hi. cbn in Hs. subst s'.
       split; [by apply undisturbed_same|]. intros lease ->. unfold session_install in Hi. revert Hi.
       unfold sv_throw, mbind, Sv_bind.
       by destruct (ensure_session_observation _ _ _ _) as [[[]|] ?]. }
  unfold session_install. rewrite Hap, Hag.
  change (sv_uncertain (set_next_session_generation s _)) with (sv_uncertain s). rewrite Hu.
  change (is_current profile g (set_next_session_generation s _)) with (is_current profile g s). rewrite Hcur. cbn [negb].
  change (cached_match profile g (set_next_session_generation s _)) with (cached_match profile g s). rewrite Hmiss.
  cbv zeta. set (cached := {| cs_profile_generation := g |}).
  set (s2 := match cs_handle <$> _ with Some handle => _ | None => _ end).
  assert (Hobs : sv_observed s2 = sv_observed s) by (unfold s2; by case_match).
  assert (Hunc : sv_uncertain s2 = sv_uncertain s) by (unfold s2; by case_match).
  assert (Hses : sv_sessions s2 = <[p := cached]> (sv_sessions s)).
  { unfold s2. rewrite Hid. by case_match. }
  assert (Hserving : serving s2 = Some (at_session_generation attempt)).
  { apply (serving_cached s2 profile cached); [unfold profiles; by rewrite Hobs| |done..].
    by rewrite Hses, lookup_insert_eq. }
  split.
  - intros [Hu2 Hg2]. split; [split; [congruence|unfold generations in *; congruence]|]. by rewrite Hnone.
  - intros lease [= <-]. split_and!; [exact Hid|done|exact Hserving].
Qed.

Lemma acquire_acquired env connect operation_id s :
  let '(r, s') := acquire_session_at env connect operation_id p g s in acquired s s' r.
Proof.
  unfold acquire_session_at, acquire_checked, profile_with_generation, sv_lift, mbind, Sv_bind.
  destruct (ensure_config_certain s) as [[[]|] s0] eqn:Hc; pose proof (f_equal snd Hc) as Hs; cbn in Hs; subst s0;
    [|apply acquired_err].
  destruct (Service.find_profile (profiles s) p) as [profile|] eqn:Hp; cbn; [|apply acquired_err].
  destruct (generations s !! p) as [generation|] eqn:Hg; cbn; [|apply acquired_err].
  destruct (generation =? g)%N eqn:Heq; cbn; [|apply acquired_err]. apply N.eqb_eq in Heq as ->.
  destruct (validate_profile_for_network _ _); cbn; [|apply acquired_err].
  unfold session_for, mbind, Sv_bind.
  pose proof (session_begin_spec env profile g operation_id s) as Hspec.
  destruct (session_begin env profile g operation_id s) as [[[lease|attempt]|e] s1] eqn:Hbegin; cbn.
  - destruct Hspec as (-> & _ & _ & cached & Hs & Hf & Hcg & ->). rewrite (find_profile_id _ _ Hp) in Hs.
    pose proof (serving_cached s profile cached Hp Hs Hf Hcg) as Hserving.
    split; [done|]. intros lease [= <-]. cbn. rewrite (find_profile_id _ _ Hp).
    by split_and!.
  - by apply (install_acquired env profile operation_id).
  - rewrite Hspec. apply acquired_err.
Qed.
End profile.

(** ** What an event makes the interface show *)

Definition shown (m : UiModel) (p : ProfileId) : option SessionGeneration :=
  match um_connection_states m !! p with Some (Connected session _) => Some session | _ => None end.

(** The session an event reports as usable. *)
Definition connects (event : UiEvent) : option SessionGeneration :=
  match event with
  | ConnectionReady _ _ _ session _ | QueryFinished _ _ _ session _ | CatalogPageLoaded _ session _
  | CatalogPageFailed _ _ _ (Some session) (Some Keep) | RedisKeysLoaded _ session _
  | RedisKeysFailed _ _ (Some session) (Some Keep) _ | RedisKeyInspected _ session _
  | RedisKeyInspectFailed _ _ (Some session) (Some Keep) _ => Some session
  | _ => None
  end.

(** The session an event reports as gone. *)
Definition disconnects (event : UiEvent) : option SessionGeneration :=
  match event with
  | OperationFailed _ _ _ (Some session) (ExecuteRead | ExecuteMutation) _ _ _
      (OutcomeDisconnected | OutcomeUnknown | OutcomeNeedsCredential)
  | CatalogPageFailed _ _ _ (Some session) (Some Evict)
  | RedisKeysFailed _ _ (Some session) (Some Evict) _
  | RedisKeyInspectFailed _ _ (Some session) (Some Evict) _ => Some session
  | _ => None
  end.

(** The events a task on a profile ends with. *)
Definition task_event (p : ProfileId) (g : ProfileGeneration) (event : UiEvent) : Prop :=
  match event with
  | ConnectionReady _ profile_id generation _ _ | QueryFinished _ profile_id generation _ _
  | OperationFailed _ profile_id generation _
      (ConnectProfile | ReconnectProfile | ExecuteRead | ExecuteMutation) _ _ _ _ =>
      profile_id = p /\ generation = g
  | CatalogPageLoaded page _ _ =>
      ri_profile_id (cp_identity page) = p /\ ri_profile_generation (cp_identity page) = g
  | CatalogPageFailed request _ _ _ _ =>
      ri_profile_id (cr_identity request) = p /\ ri_profile_generation (cr_identity request) = g
  | RedisKeysLoaded page _ _ =>
      ri_profile_id (kp_identity page) = p /\ ri_profile_generation (kp_identity page) = g
  | RedisKeysFailed request _ _ _ _ =>
      ri_profile_id (rs_identity request) = p /\ ri_profile_generation (rs_identity request) = g
  | RedisKeyInspected preview _ _ =>
      ri_profile_id (vp_identity preview) = p /\ ri_profile_generation (vp_identity preview) = g
  | RedisKeyInspectFailed request _ _ _ _ =>
      ri_profile_id (rk_identity request) = p /\ ri_profile_generation (rk_identity request) = g
  | _ => False
  end.

Section shown.
Context (p : ProfileId) (g : ProfileGeneration).

Lemma shown_set m c :
  shown (set_connection m p c) p = match c with Connected session _ => Some session | _ => None end.
Proof. unfold shown. cbn. by rewrite lookup_insert_eq. Qed.

Lemma shown_apply_outcome m o session :
  shown (apply_outcome m p o) p = Some session -> shown m p = Some session /\ o = Preserve.
Proof. destruct o; cbn [apply_outcome]; rewrite ?shown_set; done. Qed.

(** Messages, statuses and workspaces do not show in the connection. *)
Lemma shown_message m summary : shown (show_message m summary) p = shown m p.
Proof. done. Qed.
Lemma shown_status m s : shown (set_status m s) p = shown m p.
Proof. done. Qed.
Lemma shown_workspace m profile_id generation f :
  shown (exact_workspace_mut m profile_id generation f) p = shown m p.
Proof. done. Qed.

Lemma shown_redis_truth m s d o session :
  shown (apply_redis_session_truth m p s d o) p = Some session ->
  (s = Some session /\ d = Some Keep) \/ (shown m p = Some session /\ d <> Some Evict).
Proof.
  unfold apply_redis_session_truth. destruct s as [s|], d as [[]|]; rewrite ?shown_set; try done;
    try (intros [H _]%shown_apply_outcome; by right).
  intros [= <-]. by left.
Qed.

Lemma shown_catalog m s d session :
  shown (fold_catalog_session m p s d) p = Some session ->
  (s = Some session /\ d = Some Keep) \/ (shown m p = Some session /\ (d = Some Evict -> s <> Some session)).
Proof.
  unfold fold_catalog_session. destruct s as [s|], d as [d|]; try (by right).
  destruct (match um_connection_states m !! p with Some _ => _ | None => _ end) eqn:Hprotected.
  - intros Hs. right. split; [done|]. intros _ [= ->]. unfold shown in Hs.
    destruct (um_connection_states m !! p) as [[| |visible ?| | |]|]; simplify_eq. by rewrite N.eqb_refl in Hprotected.
  - rewrite shown_set. destruct d; [|done]. intros [= ->]. by left.
Qed.

Lemma shown_failed_kind m operation_id kind error o session :
  shown (fold_failed_kind m operation_id p g kind error o) p = Some session -> shown m p = Some session.
Proof.
  unfold fold_failed_kind. destruct kind; try done; case_match; rewrite ?shown_message, ?shown_set; try done;
    by destruct (_ && _).
Qed.

(** Nothing is shown as connected but what was before, or what the event reports. *)
Lemma fold_shown m event session :
  task_event p g event -> shown (fold m event) p = Some session ->
  shown m p = Some session \/ connects event = Some session.
Proof.
  destruct event; try done; cbn [task_event fold connects].
  - intros [-> ->]. unfold fold_connection_ready. case_match; [|by left]. rewrite shown_status, shown_set. by right.
  - intros [-> ->]. unfold fold_query_finished. case_match; [|by left]. case_match; [by left|].
    rewrite shown_set. by right.
  - intros [Hp Hg]. unfold fold_catalog_page_loaded. cbv zeta. rewrite Hp, Hg. case_match; [|by left].
    intros [[Hs Hd]|[Hs _]]%shown_catalog; [by right|by left].
  - intros [Hp Hg]. unfold fold_catalog_page_failed. cbv zeta. rewrite Hp, Hg. case_match; [|by left].
    intros [[-> ->]|[Hs _]]%shown_catalog; [by right|by left].
  - intros [Hp Hg]. unfold fold_redis_keys_loaded. cbv zeta. rewrite Hp, Hg. case_match; [|by left].
    intros [[Hs Hd]|[Hs _]]%shown_redis_truth; [by right|by left].
  - intros [Hp Hg]. unfold fold_redis_keys_failed. cbv zeta. rewrite Hp, Hg. case_match; [|by left].
    intros [[-> ->]|[Hs _]]%shown_redis_truth; [by right|by left].
  - intros [Hp Hg]. unfold fold_redis_key_inspected. cbv zeta. rewrite Hp, Hg. case_match; [|by left].
    intros [[Hs Hd]|[Hs _]]%shown_redis_truth; [by right|by left].
  - intros [Hp Hg]. unfold fold_redis_key_inspect_failed. cbv zeta. rewrite Hp, Hg. case_match; [|by left].
    intros [[-> ->]|[Hs _]]%shown_redis_truth; [by right|by left].
  - intros Hevent. assert (profile_id = p /\ profile_generation = g) as [-> ->] by (by destruct kind).
    clear Hevent. unfold fold_operation_failed. destruct (negb _); [by left|]. destruct (negb _ && _).
    + intros [Hs%shown_failed_kind _]%shown_apply_outcome. by left.
    + intros Hs%shown_failed_kind. by left.
Qed.

(** A Redis event about the session that is shown is not ignored. *)
Lemma redis_accepts m session :
  event_is_current m p g = true -> shown m p = Some session -> redis_event_is_current m p g (Some session) = true.
Proof.
  intros Hcur. unfold redis_event_is_current, shown, connection_state. rewrite Hcur.
  destruct (um_connection_states m !! p) as [[]|]; try done. intros [= ->]. cbn. apply N.eqb_refl.
Qed.

(** A session reported as gone is not shown. *)
Lemma fold_hides m event session :
  event_is_current m p g = true -> task_event p g event -> disconnects event = Some session ->
  shown (fold m event) p <> Some session.
Proof.
  intros Hcur Hevent Hd Hs. destruct event; try done; cbn [task_event fold disconnects] in *.
  - destruct session_generation as [s|]; [|done]. destruct session_disposition as [[]|]; simplify_eq/=.
    destruct Hevent as [Hp Hg]. unfold fold_catalog_page_failed in Hs. cbv zeta in Hs. rewrite Hp, Hg, Hcur in Hs.
    apply shown_catalog in Hs as [[_ Hs]|[_ Hs]]; [done|]. by apply Hs.
  - destruct session_generation as [s|]; [|done]. destruct session_disposition as [[]|]; simplify_eq/=.
    destruct Hevent as [Hp Hg]. unfold fold_redis_keys_failed in Hs. cbv zeta in Hs. rewrite Hp, Hg in Hs.
    destruct (redis_event_is_current m p g (Some session)) eqn:Hacc.
    + apply shown_redis_truth in Hs as [[_ Hs]|[_ Hs]]; done.
    + apply redis_accepts in Hs; [congruence|done].
  - destruct session_generation as [s|]; [|done]. destruct session_disposition as [[]|]; simplify_eq/=.
    destruct Hevent as [Hp Hg]. unfold fold_redis_key_inspect_failed in Hs. cbv zeta in Hs. rewrite Hp, Hg in Hs.
    destruct (redis_event_is_current m p g (Some session)) eqn:Hacc.
    + apply shown_redis_truth in Hs as [[_ Hs]|[_ Hs]]; done.
    + apply redis_accepts in Hs; [congruence|done].
  - assert (profile_id = p /\ profile_generation = g) as [-> ->] by (by destruct kind).
    destruct session_generation as [s|]; [|done].
    unfold fold_operation_failed in Hs. rewrite Hcur in Hs. cbn [negb] in Hs.
    assert (bool_decide (kind ∈ [ConnectProfile; ReconnectProfile]) = false) as Hkind by (by destruct kind).
    assert (connection_outcome <> Preserve) as Ho by (by intros ->; destruct kind).
    rewrite Hkind in Hs. cbn [negb andb] in Hs.
    destruct (match um_connection_states m !! p with Some _ => _ | None => _ end) eqn:Hcorr.
    + by apply shown_apply_outcome in Hs as [_ Hs].
    + apply shown_failed_kind in Hs. unfold shown in Hs.
      by destruct (um_connection_states m !! p) as [[]|].
Qed.
End shown.

(** ** One task *)

Section task.
Context (p : ProfileId) (g : ProfileGeneration) (m : UiModel).

(** The end of a task says what it leaves, given what was shown before. *)
Definition truthful (s s' : Service) (event : UiEvent) : Prop :=
  (at_generation_now p g s -> forall session, shown m p = Some session -> serving p g s = Some session) ->
  forall session, shown (fold m event) p = Some session -> at_generation_now p g s' -> serving p g s' = Some session.

Lemma truthful_before s1 s2 s3 event : undisturbed p g s1 s2 -> truthful s2 s3 event -> truthful s1 s3 event.
Proof.
  intros H12 H Hshown. apply H. intros H2 session Hs. destruct (H12 H2) as [H1 H12s]. auto.
Qed.

(** An event that connects nothing leaves the truth as it was. *)
Lemma truthful_quiet s s' event :
  task_event p g event -> connects event = None -> undisturbed p g s s' -> truthful s s' event.
Proof.
  intros Hevent Hc Hu Hshown session Hs Hnow. destruct (Hu Hnow) as [Hnow' Hu'].
  destruct (fold_shown p g m event session Hevent Hs) as [H|H]; [auto|congruence].
Qed.

(** What the choice of event and eviction must respect: the session is kept only with
    an observation that succeeded, and then nothing but it is reported; it is evicted
    with an event that reports it gone, or connects nothing when nothing was shown. *)
Definition finish_ok {Reply} (lease : SessionLease) (good : Reply -> Prop)
    (finish : Race (result DriverError Reply) -> result ServiceError unit -> Service -> (UiEvent * bool) * Service) :
    Prop :=
  forall reply observation s,
    (forall r, reply = RaceDone (Ok r) -> good r) ->
    let '((event, evict), s') := finish reply observation s in
    sv_observed s' = sv_observed s /\ sv_sessions s' = sv_sessions s /\ sv_uncertain s' = sv_uncertain s /\
    task_event p g event /\
    (if evict : bool then
       connects event = None /\
       (is_ok observation = true -> shown m p = None \/ disconnects event = Some (lease_generation lease))
     else forall session, connects event = Some session -> session = lease_generation lease).

Lemma evict_serving lease s :
  sl_profile_id lease = p ->
  let s' := (evict_session_lease lease s).2 in
  sv_observed s' = sv_observed s /\ sv_uncertain s' = sv_uncertain s /\
  forall session, serving p g s = Some session -> session <> lease_generation lease -> serving p g s' = Some session.
Proof.
  intros Hp s'. unfold s', evict_session_lease, evict_cached_session_exact, take_cached_session_exact. rewrite Hp.
  destruct (sv_sessions s !! p) as [cached|] eqn:Hc; [|done]. destruct (_ && _) eqn:Heq; [|done]. cbn.
  split_and!; [done..|]. intros session Hs Hne. exfalso. apply Hne. unfold serving in Hs.
  destruct (Service.find_profile (profiles s) p) as [profile|] eqn:Hprofile; [|done].
  unfold cached_match in Hs. cbn in Hs. rewrite (find_profile_id p s profile Hprofile), Hc in Hs. cbn in Hs.
  destruct (_ && _) in Hs; [|done]. injection Hs as <-. unfold lease_generation. lia.
Qed.

Lemma with_lease_truthful {Reply} (run : TaskRun Reply) operation_id lease good finish s s1 te event :
  event_is_current m p g = true ->
  acquired p g s s1 (Ok lease) -> (forall n s, undisturbed p g s (tr_others run n s)) ->
  (forall r, tr_reply run = RaceDone (Some (Ok r)) -> good r) -> finish_ok lease good finish ->
  te = with_lease run operation_id lease finish s1 -> te_event te = Some event ->
  truthful s (te_service te) event.
Proof.
  intros Hcur [Hu Hlease] Hothers Hgood Hfinish -> Hevent.
  destruct (Hlease lease eq_refl) as (Hid & Hg & Hserving). set (s2 := tr_others run 2 s1).
  pose proof (Hothers 2 s1 : undisturbed p g s1 s2) as H12. intros Hshown session Hsess Hnow.
  assert (exists reply observation s3 evict,
    finish reply observation s2 = ((event, evict), s3) /\ observe_session lease operation_id s2 = (observation, s2) /\
    te_service (with_lease run operation_id lease finish s1) =
      (if evict : bool then (evict_session_lease lease s3).2 else s3) /\
    (forall r, reply = RaceDone (Ok r) -> good r))
    as (reply & observation & s3 & evict & Hf & Hobserve & Hte & Hreply).
  { pose proof (observe_session_spec lease operation_id s2) as Ho.
    unfold with_lease in Hevent |- *. fold s2 in Hevent |- *.
    destruct (observe_session lease operation_id s2) as [observation s2'] eqn:Hobserve. destruct Ho as [-> _].
    destruct (tr_reply run) as [| |[reply|]] eqn:Hr; [| | |done].
    1: exists RaceCancelled. 2: exists RaceTimedOut. 3: exists (RaceDone reply).
    all: exists observation; destruct (finish _ observation s2) as [[e evict] s3]; injection Hevent as ->;
      exists s3, evict; split_and!; try done.
    intros r [= ->]. by apply Hgood. }
  specialize (Hfinish reply observation s2 Hreply). rewrite Hf in Hfinish.
  destruct Hfinish as (Ho & Hs & Hun & Htask & Hrest). rewrite Hte in Hnow |- *. clear Hte Hevent.
  destruct evict.
  - destruct Hrest as [Hquiet Hhide]. destruct (evict_serving lease s3 Hid) as (Heo & Heu & Hes).
    assert (Hnow2 : at_generation_now p g s2).
    { destruct Hnow as [Hnu Hng]. split; [congruence|]. unfold generations in *. congruence. }
    destruct (H12 Hnow2) as [Hnow1 H12s]. destruct (Hu Hnow1) as [Hnow0 H01s].
    assert (is_ok observation = true) as Hok.
    { pose proof (observe_session_spec lease operation_id s2) as Hspec. rewrite Hobserve in Hspec.
      destruct Hspec as [_ Hspec]. rewrite Hid, Hg in Hspec. by rewrite (proj2 Hspec Hnow2). }
    destruct (fold_shown p g m event session Htask Hsess) as [Hold|Hnew]; [|congruence].
    destruct (Hhide Hok) as [Hnone|Hgone]; [congruence|].
    apply Hes; [rewrite (serving_same p g s2 s3 Ho Hs); auto|].
    intros ->. by apply (fold_hides p g m event (lease_generation lease)).
  - assert (Hnow2 : at_generation_now p g s2).
    { destruct Hnow as [Hnu Hng]. split; [congruence|]. unfold generations in *. congruence. }
    destruct (H12 Hnow2) as [Hnow1 H12s]. destruct (Hu Hnow1) as [Hnow0 H01s].
    rewrite (serving_same p g s2 s3 Ho Hs).
    destruct (fold_shown p g m event session Htask Hsess) as [Hold|Hnew]; [auto|].
    rewrite (Hrest session Hnew). auto.
Qed.
End task.

Section work.
Context (env : Env) (connect : ConnectionProfile -> option SessionSecret -> result DriverError SessionHandle).
Context (shell_split : str -> option (list str)) (f64_to_string : f64 -> str) (json_to_string : json -> str).
Context `{TokenCrates}.

Lemma acquire_ok {Reply} (run : TaskRun Reply) (identity : RequestIdentity) s :
  let p := ri_profile_id identity in
  let g := ri_profile_generation identity in
  (forall n s, undisturbed p g s (tr_others run n s)) -> (forall s, undisturbed p g s (tr_dropped run s)) ->
  let '(race, s1) := acquire env connect run identity s in
  match race with RaceDone r => acquired p g s s1 r | _ => undisturbed p g s s1 end.
Proof.
  intros p g Hothers Hdropped. unfold acquire. cbv zeta. destruct (tr_acquire run); cbn beta iota;
    [apply (transitivity (Hothers 1 s) (Hdropped _))..|].
  pose proof (acquire_acquired p g env connect (ri_operation_id identity) (tr_others run 1 s)) as Ha.
  fold p g. destruct (acquire_session_at _ _ _ _ _ _) as [r s1].
  exact (acquired_before _ _ _ _ _ _ (Hothers 1 s) Ha).
Qed.

(** A task that prepares quietly, acquires, and ends. *)
Lemma acquire_truthful {Reply} (run : TaskRun Reply) (identity : RequestIdentity) m s0 s (good : Reply -> Prop)
    (k : Race (result ServiceError SessionLease) * Service -> TaskEnd) event :
  let p := ri_profile_id identity in
  let g := ri_profile_generation identity in
  (forall n s, undisturbed p g s (tr_others run n s)) -> (forall s, undisturbed p g s (tr_dropped run s)) ->
  (forall r, tr_reply run = RaceDone (Some (Ok r)) -> good r) ->
  event_is_current m p g = true -> undisturbed p g s0 s ->
  (forall race s1, (forall lease, race <> RaceDone (Ok lease)) ->
     exists e, k (race, s1) = without_session e s1 /\ task_event p g e /\ connects e = None) ->
  (forall lease s1, exists finish,
     k (RaceDone (Ok lease), s1) = with_lease run (ri_operation_id identity) lease finish s1 /\
     finish_ok p g m lease good finish) ->
  te_event (k (acquire env connect run identity s)) = Some event ->
  truthful p g m s0 (te_service (k (acquire env connect run identity s))) event.
Proof.
  intros p g Hothers Hdropped Hgood Hcur H0 Hquiet Hlease Hevent.
  pose proof (acquire_ok run identity s Hothers Hdropped) as Ha. fold p g in Ha.
  destruct (acquire env connect run identity s) as [race s1].
  assert (Hother : (forall lease, race <> RaceDone (Ok lease)) -> undisturbed p g s s1 ->
    truthful p g m s0 (te_service (k (race, s1))) event).
  { intros Hno Hu. destruct (Hquiet race s1 Hno) as (e & Hk & Htask & Hc). rewrite Hk in Hevent |- *.
    injection Hevent as <-. apply truthful_quiet; [done|done|]. exact (transitivity H0 Hu). }
  destruct race as [| |[lease|e]]; try (apply Hother; [done|exact Ha]).
  - destruct (Hlease lease s1) as (finish & Hk & Hfinish). apply (truthful_before _ _ _ _ s); [done|].
    exact (with_lease_truthful p g m run _ lease good finish s s1 _ event Hcur Ha Hothers Hgood Hfinish Hk Hevent).
  - apply Hother; [done|apply Ha].
Qed.

(** Applies [acquire_truthful] to a task that acquires in its first match. *)
Ltac task_acquires good :=
  lazymatch goal with
  | |- te_event ?t = _ -> truthful _ _ ?m ?s0 _ _ =>
      lazymatch t with
      | context [acquire ?env ?connect ?run ?identity ?s] =>
          let applied := eval pattern (acquire env connect run identity s) in t in
          lazymatch applied with
          | ?k _ => apply (acquire_truthful run identity m s0 s good k)
          end
      end
  end.

(** The failed events of the tasks. *)
Lemma failed_event_quiet p g operation_id session kind summary :
  kind ∈ [ConnectProfile; ReconnectProfile; ExecuteRead; ExecuteMutation] ->
  task_event p g (failed_profile_event operation_id p g session kind summary) /\
  connects (failed_profile_event operation_id p g session kind summary) = None.
Proof.
  intros Hkind. split; [|done]. rewrite !elem_of_cons in Hkind.
  by destruct Hkind as [->|[->|[->|[->|[]%not_elem_of_nil]]]].
Qed.

Lemma failed_service_quiet p g operation_id session kind error :
  kind ∈ [ConnectProfile; ReconnectProfile; ExecuteRead; ExecuteMutation] ->
  task_event p g (failed_from_service operation_id p g session kind error) /\
  connects (failed_from_service operation_id p g session kind error) = None.
Proof.
  intros Hkind. split; [|done]. rewrite !elem_of_cons in Hkind.
  by destruct Hkind as [->|[->|[->|[->|[]%not_elem_of_nil]]]].
Qed.

Lemma connect_truthful operation_id p g timeout kind (run : TaskRun unit) m s event :
  let te := run_profile_work env connect shell_split f64_to_string json_to_string
              (WorkConnect operation_id p g timeout kind) run s in
  kind = ConnectProfile \/ kind = ReconnectProfile -> shown m p = None ->
  (forall n s, undisturbed p g s (tr_others run n s)) -> (forall s, undisturbed p g s (tr_dropped run s)) ->
  event_is_current m p g = true -> te_event te = Some event -> truthful p g m s (te_service te) event.
Proof.
  intros te Hkind Hnone Hothers Hdropped Hcur.
  assert (Hk : kind ∈ [ConnectProfile; ReconnectProfile; ExecuteRead; ExecuteMutation])
    by (destruct Hkind as [-> | ->]; set_solver).
  set (identity := {| ri_profile_id := p; ri_profile_generation := g; ri_operation_id := operation_id |}).
  unfold te, run_profile_work, run_connect. cbv zeta. fold identity.
  task_acquires (fun _ : unit => True); try done.
  - intros race s1 Hno. destruct race as [| |[lease|e]]; [| |by destruct (Hno lease)|];
      eexists; (split; [reflexivity|]).
    + by apply failed_event_quiet.
    + by apply failed_event_quiet.
    + by apply failed_service_quiet.
  - intros lease s1. eexists. split; [reflexivity|]. intros reply observation s2 _.
    destruct reply as [| |[[]|e]], observation as [[]|e']; cbn; split_and!; try done;
      try (by destruct Hkind as [-> | ->]); try (intros _; by left); by intros session [= <-].
Qed.

Lemma execute_truthful request kind (run : TaskRun QueryResult) m s event :
  let p := ex_profile_id request in
  let g := ex_profile_generation request in
  let te := run_profile_work env connect shell_split f64_to_string json_to_string (WorkExecute request kind) run s in
  kind = ExecuteRead \/ kind = ExecuteMutation ->
  (forall n s, undisturbed p g s (tr_others run n s)) -> (forall s, undisturbed p g s (tr_dropped run s)) ->
  event_is_current m p g = true -> te_event te = Some event -> truthful p g m s (te_service te) event.
Proof.
  intros p g te Hkind Hothers Hdropped Hcur.
  assert (Hk : kind ∈ [ConnectProfile; ReconnectProfile; ExecuteRead; ExecuteMutation])
    by (destruct Hkind as [-> | ->]; set_solver).
  unfold te, run_profile_work, run_execute. cbv zeta. fold p g. set (s1 := tr_others run 0 s).
  pose proof (Hothers 0 s : undisturbed p g s s1) as H01.
  destruct (tr_prepare run); cbn [te_event te_service without_session].
  1, 2: intros [= <-]; by apply truthful_quiet; [apply failed_event_quiet| |].
  destruct (prepare_execute_request shell_split request s1) as [[typed|e]|];
    [|intros [= <-]; by apply truthful_quiet; [apply failed_service_quiet| |]|done].
  intros Hevent. apply (truthful_before p g m s s1); [done|]. revert Hevent.
  task_acquires (fun _ : QueryResult => True); try done.
  - intros race s2 Hno. destruct race as [| |[lease|e]]; [| |by destruct (Hno lease)|];
      eexists; (split; [reflexivity|]).
    + by apply failed_event_quiet.
    + by apply failed_event_quiet.
    + by apply failed_service_quiet.
  - intros lease s2. eexists. split; [reflexivity|]. intros reply observation s3 _.
    destruct reply as [| |[result|e]], observation as [[]|e']; cbn; split_and!; try done;
      try (by destruct Hkind as [-> | ->]); try (intros _; right; by destruct Hkind as [-> | ->]);
      try by intros session [= <-].
    unfold execution_failed_event. cbn.
    destruct (for_driver_error e); [rewrite bool_decide_false by done|rewrite bool_decide_true by done]; [done|].
    split; [done|]. intros _. right. by destruct Hkind as [-> | ->].
Qed.

Lemma browse_truthful request (run : TaskRun CatalogPage) m s event :
  let p := ri_profile_id (cr_identity request) in
  let g := ri_profile_generation (cr_identity request) in
  let te := run_profile_work env connect shell_split f64_to_string json_to_string (WorkBrowseCatalog request) run s in
  (forall page, tr_reply run = RaceDone (Some (Ok page)) -> cp_identity page = cr_identity request) ->
  (forall n s, undisturbed p g s (tr_others run n s)) -> (forall s, undisturbed p g s (tr_dropped run s)) ->
  event_is_current m p g = true -> te_event te = Some event -> truthful p g m s (te_service te) event.
Proof.
  intros p g te Hreply Hothers Hdropped Hcur.
  unfold te, run_profile_work, run_catalog_browse. cbv zeta. set (s1 := tr_others run 0 s).
  pose proof (Hothers 0 s : undisturbed p g s s1) as H01.
  destruct (mbind _ _) as [key|summary].
  2: intros [= <-]; by apply truthful_quiet.
  intros Hevent. apply (truthful_before p g m s s1); [done|]. revert Hevent.
  task_acquires (fun page => cp_identity page = cr_identity request); try done.
  - intros race s2 Hno. destruct race as [| |[lease|e]]; [| |by destruct (Hno lease)|];
      eexists; (split; [reflexivity|]); done.
  - intros lease s2. eexists. split; [reflexivity|]. intros reply observation s3 Hgood.
    destruct reply as [| |[page|e]], observation as [[]|e']; cbn; split_and!; try done;
      try (by rewrite (Hgood page eq_refl)); try (intros _; by right); try by intros session [= <-].
    destruct (for_driver_error e); [rewrite bool_decide_false by done|rewrite bool_decide_true by done].
    + by intros session [= <-].
    + split; [done|]. intros _. by right.
Qed.

Lemma redis_truthful {Reply} (run : TaskRun Reply) request identity kind prepare succeeded (good : Reply -> Prop)
    m s event :
  let p := ri_profile_id identity in
  let g := ri_profile_generation identity in
  let te := run_redis env connect run request identity kind prepare succeeded s in
  identity = match request with RrScan request => rs_identity request | RrInspect request => rk_identity request end ->
  (forall reply session, good reply -> task_event p g (succeeded reply session Keep) /\
     connects (succeeded reply session Keep) = Some session) ->
  (forall reply, tr_reply run = RaceDone (Some (Ok reply)) -> good reply) ->
  (forall n s, undisturbed p g s (tr_others run n s)) -> (forall s, undisturbed p g s (tr_dropped run s)) ->
  event_is_current m p g = true -> te_event te = Some event -> truthful p g m s (te_service te) event.
Proof.
  intros p g te Hidentity Hsucceeded Hreply Hothers Hdropped Hcur.
  assert (Hfailed : forall error outcome session disposition,
    task_event p g (failed_redis_resource_event request error session disposition outcome) /\
    (disposition <> Some Keep -> connects (failed_redis_resource_event request error session disposition outcome) = None)).
  { intros. unfold p, g. rewrite Hidentity. by destruct request, session, disposition as [[]|]. }
  unfold te, run_redis. cbv zeta. set (s1 := tr_others run 0 s).
  pose proof (Hothers 0 s : undisturbed p g s s1) as H01.
  destruct (mbind _ _) as [u|parts].
  2: { intros [= <-]. apply truthful_quiet; [apply Hfailed|by apply Hfailed|done]. }
  intros Hevent. apply (truthful_before p g m s s1); [done|]. revert Hevent.
  task_acquires good; try done.
  - intros race s2 Hno. destruct race as [| |[lease|e]]; [| |by destruct (Hno lease)|];
      eexists; (split; [reflexivity|]); (split; [apply Hfailed|by apply Hfailed]).
  - intros lease s2. eexists. split; [reflexivity|]. intros reply observation s3 Hgood.
    destruct reply as [| |[reply|e]], observation as [[]|e']; cbn; split_and!; try done;
      try (by apply Hfailed); try (by apply (Hsucceeded reply), Hgood);
      try (intros _; right; by destruct request).
    + intros session. by rewrite (proj2 (Hsucceeded reply _ (Hgood reply eq_refl))) => [= <-].
    + destruct (for_driver_error e); [rewrite bool_decide_false by done|rewrite bool_decide_true by done].
      * intros session. by destruct request => [= <-].
      * split; [by apply Hfailed|]. intros _. right. by destruct request.
Qed.

(** C15: the connection the interface shows is the connection the service holds.  Suppose
    the interface shows a profile at its current generation as connected only through
    the session that serves it, and nobody else takes that session away while the
    generation lasts.  Then the same holds once the event of a finished connect,
    execute, browse, scan or inspect is folded: whatever the driver replied, and however
    cancellations and deadlines fell, a session that the task evicted is not shown, and
    a session that is shown serves the profile. *)
Theorem connection_shown_is_held work (run : TaskRun (work_reply work)) s m event session :
  let identity := (work_identity work).1 in
  let p := ri_profile_id identity in
  let g := ri_profile_generation identity in
  let te := run_profile_work env connect shell_split f64_to_string json_to_string work run s in
  work_kind_ok work ->
  (forall reply, tr_reply run = RaceDone (Some (Ok reply)) -> reply_ok work reply) ->
  (forall n s, undisturbed p g s (tr_others run n s)) -> (forall s, undisturbed p g s (tr_dropped run s)) ->
  (if work is WorkConnect _ _ _ _ _ then shown m p = None else True) ->
  event_is_current m p g = true ->
  (at_generation_now p g s -> forall session, shown m p = Some session -> serving p g s = Some session) ->
  te_event te = Some event ->
  shown (fold m event) p = Some session -> at_generation_now p g (te_service te) ->
  serving p g (te_service te) = Some session.
Proof.
  intros identity p g te Hkind Hreply Hothers Hdropped Hconnect Hcur Hshown Hevent.
  cut (truthful p g m s (te_service te) event); [intros Htruth; by apply Htruth|]. clear Hshown.
  destruct work as [o p' g' timeout kind|request kind|request|request|request].
  - by apply connect_truthful.
  - by apply execute_truthful.
  - by apply browse_truthful.
  - refine (redis_truthful run (RrScan request) _ _ _ _ (fun page => kp_identity page = rs_identity request)
      m s event eq_refl _ Hreply Hothers Hdropped Hcur Hevent).
    intros page session' Hpage. cbn. by rewrite Hpage.
  - refine (redis_truthful run (RrInspect request) _ _ _ _ (fun preview => vp_identity preview = rk_identity request)
      m s event eq_refl _ Hreply Hothers Hdropped Hcur Hevent).
    intros preview session' Hpreview. cbn. by rewrite Hpreview.
Qed.
End work.

(** ** An execution that connects

    Statement 9 is pending on a profile that has no session; its task opens session 1. *)

Definition pending_model : UiModel :=
  workspace_mut (set_active_generations UiModel_default {[ lit "p" := 1%N ]}) (lit "p", 1%N)
    (fun w => with_execution w (Some 9%N) None ResultViewState_default None).

Definition pending_work : ProfileWork :=
  WorkExecute (execute_request blank_split 9 (lit "p") 1 RedisCommand (lit "GET key") 500 30000).1 ExecuteRead.

Definition answered_run : TaskRun (work_reply pending_work) :=
  {| tr_prepare := RaceDone tt; tr_token_key := RaceCancelled; tr_acquire := RaceDone tt;
     tr_reply := RaceDone (Some (Ok (sample_result []))); tr_dropped := fun s => s; tr_others := fun _ s => s;
     tr_elapsed_ms := 3; tr_completed_at := Some 7%Z |}.

Lemma connection_shown_is_held_witness :
  let te := run_profile_work sample_env (fun _ _ => Ok 5%N) blank_split (fun _ => []) (fun _ => []) pending_work
              answered_run sample_service in
  exists event, te_event te = Some event /\ shown (fold pending_model event) (lit "p") = Some 1%N /\
    serving (lit "p") 1 (te_service te) = Some 1%N.
Proof.
  cbn zeta. set (te := run_profile_work _ _ _ _ _ _ _ _).
  destruct (te_event te) as [event|] eqn:Hevent; [|by vm_compute in Hevent].
  exists event. split; [done|].
  assert (Hshown : shown (fold pending_model event) (lit "p") = Some 1%N).
  { vm_compute in Hevent. injection Hevent as <-. vm_compute. reflexivity. }
  split; [exact Hshown|].
  apply (connection_shown_is_held sample_env (fun _ _ => Ok 5%N) blank_split (fun _ => []) (fun _ => []) pending_work
    answered_run sample_service pending_model event 1%N).
  - by left.
  - done.
  - by intros n s.
  - by intros s.
  - exact I.
  - vm_compute. reflexivity.
  - intros _ session H. by vm_compute in H.
  - exact Hevent.
  - exact Hshown.
  - split; vm_compute; reflexivity.
Defined.
