(* ===== verification/Runtime.v ===== *)
(** * The controller of the runtime (src/src/ui/runtime.rs)

    The registry of tasks, the permits, the handlers of commands and messages, the
    reaping of panicked tasks and the shutdown.  Each handler is a function on the
    controller's state; RuntimeSystem interleaves them with the tasks. *)

From S2P Require Import Prelude RustStr Model Execution Retention Secrets Profile Config ConfigWriter Drivers Service.
From S2P Require Import PublicError RedisBrowser UiModel RuntimeEvents DraftTests Tokio CommandPorts Export Editor.
From S2P Require Import RuntimeTasks.

Definition GLOBAL_NETWORK_LIMIT : nat := 4.
Definition PROCESS_EXPORT_LIMIT : nat := 2.

(** ** Tasks *)

(** Cancellation tokens and semaphores are shared: they are known by their address. *)
Abbreviation Token := N (only parsing).
Abbreviation Address := N (only parsing).

Inductive TaskClass := AsyncNetwork | MutationTask | ExportTask.
#[export] Instance TaskClass_eq : EqDecision TaskClass. Proof. solve_decision. Defined.

Inductive DraftWorkInput := DraftPrepared (request : TestDraftRequest) | DraftIntent (intent : DraftTestIntent).

Definition dw_operation_id (input : DraftWorkInput) : OperationId :=
  match input with DraftPrepared request => td_operation_id request | DraftIntent intent => di_operation_id intent end.
Definition dw_draft_id (input : DraftWorkInput) : DraftId :=
  match input with DraftPrepared request => td_draft_id request | DraftIntent intent => di_draft_id intent end.

Inductive ReconnectPermitPlan := PlanReady (profile global : Address) | PlanWait (profile global : Address).

(** What a spawned task runs, with what its closure captured. *)
Inductive TaskBody :=
| BodyExport (request : ExportResult) (confirmation : option ConfirmedDestination)
| BodyDraft (input : DraftWorkInput)
| BodyProfile (work : ProfileWork)
| BodyControl (work : ProfileControlWork) (targets : list Token) (plan : option ReconnectPermitPlan)
| BodyMutation (command : UiCommand)
| BodyCleanup (scope : TaskScope) (failure : FailureContext)
| BodyCompletion (output : TaskOutput) (had_active : bool) (waiters : list Token).

(** A [JoinHandle]: the permits the task holds, the session it announced, why it
    stopped waiting for permits, and its end ([true]: it panicked). *)
Record Join := {
  jn_body : TaskBody;
  jn_held : list Address;
  jn_session : option SessionGeneration;
  jn_gave_up : option PublicSummary;
  jn_finished : option bool;
}.

Definition spawn (body : TaskBody) (held : list Address) : Join :=
  {| jn_body := body; jn_held := held; jn_session := None; jn_gave_up := None; jn_finished := None |}.

Record RegisteredTask := {
  rk_operation_id : OperationId;
  rk_scope : TaskScope;
  rk_cancel : Token;
  rk_join : Join;
}.

Record RegistryEntry := {
  en_task : RegisteredTask;
  en_class : TaskClass;
  en_failure : FailureContext;
  en_completion_sent : bool;
  en_terminal : Token;
  en_cleanup_started : bool;
}.

Inductive ControllerMessage :=
| SessionAcquired (operation_id : OperationId) (session_generation : SessionGeneration)
| Completed (operation_id : OperationId) (output : TaskOutput).

(** ** The controller *)

Section controller.
Context `{T : Tokio}.

(** [rn_next] is the next free address.  The last three fields are the history: the
    operations whose command was taken from a queue, and the events that were offered
    to the queue of events. *)
Record Runtime := {
  rn_port : Ports;
  rn_service : Service;
  rn_messages : mpsc ControllerMessage;
  rn_entries : gmap N RegistryEntry;
  rn_reserved : gset N;
  rn_mutation_active : bool;
  rn_semaphores : gmap N semaphore;
  rn_profile_permits : gmap (list N) Address;
  rn_draft_permits : gmap N Address;
  rn_cancelled : gset N;
  rn_next : N;
  rn_started : list OperationId;
  rn_offered : list UiEvent;
}.

(** Assignment to one field. *)
Definition set_rn_port (r : Runtime) (x : Ports) : Runtime :=
  {| rn_port := x; rn_service := rn_service r; rn_messages := rn_messages r; rn_entries := rn_entries r;
     rn_reserved := rn_reserved r; rn_mutation_active := rn_mutation_active r;
     rn_semaphores := rn_semaphores r; rn_profile_permits := rn_profile_permits r;
     rn_draft_permits := rn_draft_permits r; rn_cancelled := rn_cancelled r; rn_next := rn_next r;
     rn_started := rn_started r; rn_offered := rn_offered r |}.
Definition set_rn_service (r : Runtime) (x : Service) : Runtime :=
  {| rn_port := rn_port r; rn_service := x; rn_messages := rn_messages r; rn_entries := rn_entries r;
     rn_reserved := rn_reserved r; rn_mutation_active := rn_mutation_active r;
     rn_semaphores := rn_semaphores r; rn_profile_permits := rn_profile_permits r;
     rn_draft_permits := rn_draft_permits r; rn_cancelled := rn_cancelled r; rn_next := rn_next r;
     rn_started := rn_started r; rn_offered := rn_offered r |}.
Definition set_rn_messages (r : Runtime) (x : mpsc ControllerMessage) : Runtime :=
  {| rn_port := rn_port r; rn_service := rn_service r; rn_messages := x; rn_entries := rn_entries r;
     rn_reserved := rn_reserved r; rn_mutation_active := rn_mutation_active r;
     rn_semaphores := rn_semaphores r; rn_profile_permits := rn_profile_permits r;
     rn_draft_permits := rn_draft_permits r; rn_cancelled := rn_cancelled r; rn_next := rn_next r;
     rn_started := rn_started r; rn_offered := rn_offered r |}.
Definition set_rn_entries (r : Runtime) (x : gmap N RegistryEntry) : Runtime :=
  {| rn_port := rn_port r; rn_service := rn_service r; rn_messages := rn_messages r; rn_entries := x;
     rn_reserved := rn_reserved r; rn_mutation_active := rn_mutation_active r;
     rn_semaphores := rn_semaphores r; rn_profile_permits := rn_profile_permits r;
     rn_draft_permits := rn_draft_permits r; rn_cancelled := rn_cancelled r; rn_next := rn_next r;
     rn_started := rn_started r; rn_offered := rn_offered r |}.
Definition set_rn_reserved (r : Runtime) (x : gset N) : Runtime :=
  {| rn_port := rn_port r; rn_service := rn_service r; rn_messages := rn_messages r;
     rn_entries := rn_entries r; rn_reserved := x; rn_mutation_active := rn_mutation_active r;
     rn_semaphores := rn_semaphores r; rn_profile_permits := rn_profile_permits r;
     rn_draft_permits := rn_draft_permits r; rn_cancelled := rn_cancelled r; rn_next := rn_next r;
     rn_started := rn_started r; rn_offered := rn_offered r |}.
Definition set_rn_mutation_active (r : Runtime) (x : bool) : Runtime :=
  {| rn_port := rn_port r; rn_service := rn_service r; rn_messages := rn_messages r;
     rn_entries := rn_entries r; rn_reserved := rn_reserved r; rn_mutation_active := x;
     rn_semaphores := rn_semaphores r; rn_profile_permits := rn_profile_permits r;
     rn_draft_permits := rn_draft_permits r; rn_cancelled := rn_cancelled r; rn_next := rn_next r;
     rn_started := rn_started r; rn_offered := rn_offered r |}.
Definition set_rn_semaphores (r : Runtime) (x : gmap N semaphore) : Runtime :=
  {| rn_port := rn_port r; rn_service := rn_service r; rn_messages := rn_messages r;
     rn_entries := rn_entries r; rn_reserved := rn_reserved r; rn_mutation_active := rn_mutation_active r;
     rn_semaphores := x; rn_profile_permits := rn_profile_permits r; rn_draft_permits := rn_draft_permits r;
     rn_cancelled := rn_cancelled r; rn_next := rn_next r; rn_started := rn_started r;
     rn_offered := rn_offered r |}.
Definition set_rn_profile_permits (r : Runtime) (x : gmap (list N) Address) : Runtime :=
  {| rn_port := rn_port r; rn_service := rn_service r; rn_messages := rn_messages r;
     rn_entries := rn_entries r; rn_reserved := rn_reserved r; rn_mutation_active := rn_mutation_active r;
     rn_semaphores := rn_semaphores r; rn_profile_permits := x; rn_draft_permits := rn_draft_permits r;
     rn_cancelled := rn_cancelled r; rn_next := rn_next r; rn_started := rn_started r;
     rn_offered := rn_offered r |}.
Definition set_rn_draft_permits (r : Runtime) (x : gmap N Address) : Runtime :=
  {| rn_port := rn_port r; rn_service := rn_service r; rn_messages := rn_messages r;
     rn_entries := rn_entries r; rn_reserved := rn_reserved r; rn_mutation_active := rn_mutation_active r;
     rn_semaphores := rn_semaphores r; rn_profile_permits := rn_profile_permits r; rn_draft_permits := x;
     rn_cancelled := rn_cancelled r; rn_next := rn_next r; rn_started := rn_started r;
     rn_offered := rn_offered r |}.
Definition set_rn_cancelled (r : Runtime) (x : gset N) : Runtime :=
  {| rn_port := rn_port r; rn_service := rn_service r; rn_messages := rn_messages r;
     rn_entries := rn_entries r; rn_reserved := rn_reserved r; rn_mutation_active := rn_mutation_active r;
     rn_semaphores := rn_semaphores r; rn_profile_permits := rn_profile_permits r;
     rn_draft_permits := rn_draft_permits r; rn_cancelled := x; rn_next := rn_next r;
     rn_started := rn_started r; rn_offered := rn_offered r |}.
Definition set_rn_next (r : Runtime) (x : N) : Runtime :=
  {| rn_port := rn_port r; rn_service := rn_service r; rn_messages := rn_messages r;
     rn_entries := rn_entries r; rn_reserved := rn_reserved r; rn_mutation_active := rn_mutation_active r;
     rn_semaphores := rn_semaphores r; rn_profile_permits := rn_profile_permits r;
     rn_draft_permits := rn_draft_permits r; rn_cancelled := rn_cancelled r; rn_next := x;
     rn_started := rn_started r; rn_offered := rn_offered r |}.
Definition set_rn_started (r : Runtime) (x : list OperationId) : Runtime :=
  {| rn_port := rn_port r; rn_service := rn_service r; rn_messages := rn_messages r;
     rn_entries := rn_entries r; rn_reserved := rn_reserved r; rn_mutation_active := rn_mutation_active r;
     rn_semaphores := rn_semaphores r; rn_profile_permits := rn_profile_permits r;
     rn_draft_permits := rn_draft_permits r; rn_cancelled := rn_cancelled r; rn_next := rn_next r;
     rn_started := x; rn_offered := rn_offered r |}.
Definition set_rn_offered (r : Runtime) (x : list UiEvent) : Runtime :=
  {| rn_port := rn_port r; rn_service := rn_service r; rn_messages := rn_messages r;
     rn_entries := rn_entries r; rn_reserved := rn_reserved r; rn_mutation_active := rn_mutation_active r;
     rn_semaphores := rn_semaphores r; rn_profile_permits := rn_profile_permits r;
     rn_draft_permits := rn_draft_permits r; rn_cancelled := rn_cancelled r; rn_next := rn_next r;
     rn_started := rn_started r; rn_offered := x |}.

(** Every event the controller offers passes here. *)
Definition emit (event : UiEvent) (r : Runtime) : Runtime :=
  set_rn_offered (set_rn_port r (try_emit event (rn_port r)).2) (rn_offered r ++ [event]).

Definition new_address (r : Runtime) : Address * Runtime := (rn_next r, set_rn_next r (rn_next r + 1)%N).

Definition cancel_token (token : Token) (r : Runtime) : Runtime := set_rn_cancelled r ({[ token ]} ∪ rn_cancelled r).

Definition is_cancelled (token : Token) (r : Runtime) : bool := bool_decide (token ∈ rn_cancelled r).

(** ** Permits *)

Definition GLOBAL_PERMITS : Address := 0%N.
Definition PROCESS_EXPORT_PERMITS : Address := 1%N.

Definition try_acquire_owned (a : Address) (r : Runtime) : option Runtime :=
  s ← rn_semaphores r !! a;
  s ← try_acquire s;
  Some (set_rn_semaphores r (<[a := s]> (rn_semaphores r))).

Definition drop_permit (a : Address) (r : Runtime) : Runtime :=
  set_rn_semaphores r (alter release a (rn_semaphores r)).

Definition drop_permits (held : list Address) (r : Runtime) : Runtime :=
  foldl (fun r a => drop_permit a r) r held.

Definition new_permit (r : Runtime) : Address * Runtime :=
  let '(a, r) := new_address r in (a, set_rn_semaphores r (<[a := semaphore_new 1]> (rn_semaphores r))).

(** [ProfilePermitRegistry::slot] *)
Definition slot (profile_id : ProfileId) (r : Runtime) : Address * Runtime :=
  match rn_profile_permits r !! profile_id with
  | Some a => (a, r)
  | None => let '(a, r) := new_permit r in (a, set_rn_profile_permits r (<[profile_id := a]> (rn_profile_permits r)))
  end.

Definition profile_try_acquire (profile_id : ProfileId) (r : Runtime) : option Address * Runtime :=
  let '(a, r) := slot profile_id r in
  match try_acquire_owned a r with Some r => (Some a, r) | None => (None, r) end.

Definition draft_slot (draft_id : DraftId) (r : Runtime) : Address * Runtime :=
  match rn_draft_permits r !! draft_id with
  | Some a => (a, r)
  | None => let '(a, r) := new_permit r in (a, set_rn_draft_permits r (<[draft_id := a]> (rn_draft_permits r)))
  end.

(** [DraftPermitRegistry::try_acquire] *)
Definition draft_try_acquire (draft_id : DraftId) (r : Runtime) : option Address * Runtime :=
  let '(a, r) := draft_slot draft_id r in
  match try_acquire_owned a r with Some r => (Some a, r) | None => (None, r) end.

(** The clones of a semaphore outside the registry: in permits and in plans. *)
Definition join_refers (a : Address) (j : Join) : bool :=
  match jn_finished j with
  | Some _ => false
  | None =>
      bool_decide (a ∈ jn_held j)
      || match jn_body j with
         | BodyControl _ _ (Some (PlanReady profile global | PlanWait profile global)) =>
             bool_decide (a = profile) || bool_decide (a = global)
         | _ => false
         end
  end.

Definition entry_list (r : Runtime) : list (OperationId * RegistryEntry) := map_to_list (rn_entries r).

Definition referenced (r : Runtime) (a : Address) : bool :=
  existsb (fun entry => join_refers a (rk_join (en_task entry.2))) (entry_list r).

(** [strong_count > 1 || available_permits == 0] *)
Definition keeps_permit (r : Runtime) (a : Address) : bool :=
  referenced r a || match rn_semaphores r !! a with Some s => bool_decide (available_permits s = 0) | None => false end.

Definition profile_prune_idle (r : Runtime) : Runtime :=
  set_rn_profile_permits r (filter (fun entry => keeps_permit r entry.2 = true) (rn_profile_permits r)).

Definition draft_prune_idle (r : Runtime) : Runtime :=
  set_rn_draft_permits r (filter (fun entry => keeps_permit r entry.2 = true) (rn_draft_permits r)).

(** ** The registry *)

Definition reserve (operation_id : OperationId) (r : Runtime) : option Runtime :=
  if decide (is_Some (rn_entries r !! operation_id) \/ operation_id ∈ rn_reserved r) then None
  else Some (set_rn_reserved r ({[ operation_id ]} ∪ rn_reserved r)).

Definition release_reservation (operation_id : OperationId) (r : Runtime) : Runtime :=
  set_rn_reserved r (rn_reserved r ∖ {[ operation_id ]}).

Definition insert_with_state (entry : RegistryEntry) (r : Runtime) : bool * Runtime :=
  let operation_id := rk_operation_id (en_task entry) in
  match rn_entries r !! operation_id with
  | Some _ => (false, r)
  | None => (true, set_rn_entries r (<[operation_id := entry]> (rn_entries r)))
  end.

Definition commit_reservation_with_state (reservation : OperationId) (task : RegisteredTask) (class : TaskClass)
    (failure : FailureContext) (terminal : Token) (cleanup_started : bool) (r : Runtime) : bool * Runtime :=
  if negb (reservation =? rk_operation_id task)%N || negb (bool_decide (reservation ∈ rn_reserved r)) then (false, r)
  else
    insert_with_state
      {| en_task := task; en_class := class; en_failure := failure; en_completion_sent := false;
         en_terminal := terminal; en_cleanup_started := cleanup_started |}
      (release_reservation reservation r).

Definition commit_reservation (reservation : OperationId) (task : RegisteredTask) (class : TaskClass)
    (failure : FailureContext) (r : Runtime) : bool * Runtime :=
  let '(terminal, r) := new_address r in commit_reservation_with_state reservation task class failure terminal false r.

Definition update_session (operation_id : OperationId) (session_generation : SessionGeneration) (r : Runtime) :
    Runtime :=
  let with_session entry :=
    match rk_scope (en_task entry) with
    | ScopeProfile profile_id profile_generation _ =>
        {| en_task :=
             {| rk_operation_id := rk_operation_id (en_task entry);
                rk_scope := ScopeProfile profile_id profile_generation (Some session_generation);
                rk_cancel := rk_cancel (en_task entry); rk_join := rk_join (en_task entry) |};
           en_class := en_class entry; en_failure := en_failure entry;
           en_completion_sent := en_completion_sent entry; en_terminal := en_terminal entry;
           en_cleanup_started := en_cleanup_started entry |}
    | _ => entry
    end in
  set_rn_entries r (alter with_session operation_id (rn_entries r)).

Definition registry_cancel (operation_id : OperationId) (r : Runtime) : bool * Runtime :=
  match rn_entries r !! operation_id with
  | Some entry => (true, cancel_token (rk_cancel (en_task entry)) r)
  | None => (false, r)
  end.

Definition exports (result_id : ResultId) (entry : RegistryEntry) : bool :=
  bool_decide (en_class entry = ExportTask)
  && match rk_scope (en_task entry) with ScopeExport active => (active =? result_id)%N | _ => false end.

Definition active_export (result_id : ResultId) (r : Runtime) : option OperationId :=
  (fun entry => rk_operation_id (en_task entry.2)) <$> head (List.filter (fun entry => exports result_id entry.2) (entry_list r)).

Definition take (operation_id : OperationId) (r : Runtime) : option RegistryEntry * Runtime :=
  (rn_entries r !! operation_id, set_rn_entries r (delete operation_id (rn_entries r))).

Definition is_network (entry : RegistryEntry) : bool := bool_decide (en_class entry = AsyncNetwork).

Definition network_of (profile_id : ProfileId) (profile_generation : ProfileGeneration) (entry : RegistryEntry) : bool :=
  is_network entry
  && match rk_scope (en_task entry) with
     | ScopeProfile registered_id registered_generation _ =>
         bool_decide (registered_id = profile_id) && (registered_generation =? profile_generation)%N
     | _ => false
     end.

Definition has_profile_network (profile_id : ProfileId) (profile_generation : ProfileGeneration) (r : Runtime) : bool :=
  existsb (fun entry => network_of profile_id profile_generation entry.2) (entry_list r).

Definition network_of_id (profile_id : ProfileId) (entry : RegistryEntry) : bool :=
  is_network entry
  && match rk_scope (en_task entry) with
     | ScopeProfile registered_id _ _ => bool_decide (registered_id = profile_id)
     | _ => false
     end.

Definition has_profile_network_for_id (profile_id : ProfileId) (r : Runtime) : bool :=
  existsb (fun entry => network_of_id profile_id entry.2) (entry_list r).

(** Cancels the entries a test selects; their terminal tokens. *)
Definition cancel_waiters (selects : RegistryEntry -> bool) (r : Runtime) : list Token * Runtime :=
  let selected := List.filter selects (entry_list r).*2 in
  (en_terminal <$> selected, foldr cancel_token r ((fun entry => rk_cancel (en_task entry)) <$> selected)).

Definition cancel_profile_network_waiters (profile_id : ProfileId) (profile_generation : ProfileGeneration) :
    Runtime -> list Token * Runtime := cancel_waiters (network_of profile_id profile_generation).

Definition cancel_all_network_waiters : Runtime -> list Token * Runtime := cancel_waiters is_network.

Definition cancel_all (r : Runtime) : Runtime := (cancel_waiters (fun _ => true) r).2.

Definition has_bounded_shutdown_work (r : Runtime) : bool := existsb (fun entry => is_network entry.2) (entry_list r).

Definition is_empty_runtime (r : Runtime) : bool := bool_decide (rn_entries r = ∅).

(** ** Starting tasks *)

(** The end of every start: the task is spawned and committed; a task that is refused is
    aborted and gives its permits back. *)
Definition start_registered (operation_id : OperationId) (scope : TaskScope) (body : TaskBody) (held : list Address)
    (class : TaskClass) (failure : FailureContext) (r : Runtime) : bool * Runtime :=
  let '(cancel, r) := new_address r in
  let task :=
    {| rk_operation_id := operation_id; rk_scope := scope; rk_cancel := cancel; rk_join := spawn body held |} in
  match commit_reservation operation_id task class failure r with
  | (true, r) => (true, r)
  | (false, r) => (false, drop_permits held r)
  end.

Definition start_or_refuse (operation_id : OperationId) (scope : TaskScope) (body : TaskBody) (held : list Address)
    (class : TaskClass) (failure : FailureContext) (refusal : UiEvent) (r : Runtime) : Runtime :=
  let '(started, r) := start_registered operation_id scope body held class failure r in
  if started then r else emit refusal r.

Definition start_export_work (request : ExportResult) (confirmation : option ConfirmedDestination) (r : Runtime) :
    Runtime :=
  let operation_id := er_operation_id request in
  let result_id := er_result_id request in
  let busy :=
    result_export_failed_event operation_id result_id (er_format request) (er_overwrite_policy request) ResourceBusy
      PcNone false in
  match active_export result_id r with
  | Some _ => emit busy r
  | None =>
      match reserve operation_id r with
      | None => emit busy r
      | Some r =>
          match try_acquire_owned PROCESS_EXPORT_PERMITS r with
          | None => emit busy (release_reservation operation_id r)
          | Some r =>
              start_or_refuse operation_id (ScopeExport result_id) (BodyExport request confirmation)
                [PROCESS_EXPORT_PERMITS] ExportTask
                (FcExport result_id (er_format request) (er_overwrite_policy request)) busy r
          end
      end
  end.

Definition start_draft_work (input : DraftWorkInput) (r : Runtime) : Runtime :=
  let operation_id := dw_operation_id input in
  let draft_id := dw_draft_id input in
  let busy := draft_failed_event operation_id draft_id TestDraftConnection ResourceBusy PcNone in
  match reserve operation_id r with
  | None => emit busy r
  | Some r =>
      match draft_try_acquire draft_id r with
      | (None, r) => emit busy (release_reservation operation_id r)
      | (Some draft_permit, r) =>
          match try_acquire_owned GLOBAL_PERMITS r with
          | None => emit busy (release_reservation operation_id (drop_permit draft_permit r))
          | Some r =>
              start_or_refuse operation_id (ScopeDraft draft_id) (BodyDraft input) [draft_permit; GLOBAL_PERMITS]
                AsyncNetwork (FcDraft draft_id TestDraftConnection) busy r
          end
      end
  end.

Definition start_profile_work (work : ProfileWork) (r : Runtime) : Runtime :=
  let '(identity, kind) := work_identity work in
  let operation_id := ri_operation_id identity in
  let profile_id := ri_profile_id identity in
  let profile_generation := ri_profile_generation identity in
  let busy := failed_profile_event operation_id profile_id profile_generation None kind ResourceBusy in
  if has_profile_network_for_id profile_id r then emit busy r
  else
    match reserve operation_id r with
    | None => emit busy r
    | Some r =>
        match profile_try_acquire profile_id r with
        | (None, r) => emit busy (release_reservation operation_id r)
        | (Some profile_permit, r) =>
            match try_acquire_owned GLOBAL_PERMITS r with
            | None => emit busy (release_reservation operation_id (drop_permit profile_permit r))
            | Some r =>
                start_or_refuse operation_id (ScopeProfile profile_id profile_generation None) (BodyProfile work)
                  [profile_permit; GLOBAL_PERMITS] AsyncNetwork (FcProfile profile_id profile_generation kind) busy r
            end
        end
    end.

(** The permits of a Reconnect: [inl] when it is refused, otherwise its plan and the
    permits it holds already. *)
Definition plan_reconnect (profile_id : ProfileId) (targets : list Token) (r : Runtime) :
    (unit + ReconnectPermitPlan * list Address) * Runtime :=
  match targets with
  | [] =>
      match profile_try_acquire profile_id r with
      | (None, r) => (inl tt, r)
      | (Some profile, r) =>
          match try_acquire_owned GLOBAL_PERMITS r with
          | None => (inl tt, drop_permit profile r)
          | Some r => (inr (PlanReady profile GLOBAL_PERMITS, [profile; GLOBAL_PERMITS]), r)
          end
      end
  | _ => let '(profile, r) := slot profile_id r in (inr (PlanWait profile GLOBAL_PERMITS, []), r)
  end.

Definition start_profile_control (work : ProfileControlWork) (r : Runtime) : Runtime :=
  let '((identity, session_generation), kind) := control_identity work in
  let operation_id := ri_operation_id identity in
  let profile_id := ri_profile_id identity in
  let profile_generation := ri_profile_generation identity in
  let busy := failed_profile_event operation_id profile_id profile_generation session_generation kind ResourceBusy in
  match reserve operation_id r with
  | None => emit busy r
  | Some r =>
      let '(target_terminals, r) := cancel_profile_network_waiters profile_id profile_generation r in
      let '(planned, r) :=
        match work with
        | ControlReconnect _ _ _ _ _ =>
            let '(planned, r) := plan_reconnect profile_id target_terminals r in
            (match planned with inl u => inl u | inr (plan, held) => inr (Some plan, held) end, r)
        | ControlDisconnect _ _ _ _ => (inr (None, []), r)
        end in
      match planned with
      | inl _ => emit busy (release_reservation operation_id r)
      | inr (plan, held) =>
          start_or_refuse operation_id (ScopeProfile profile_id profile_generation session_generation)
            (BodyControl work target_terminals plan) held AsyncNetwork (FcProfile profile_id profile_generation kind)
            busy r
      end
  end.

(** ** Commands *)

Context (shell_split : str -> option (list str)).

Definition handle_work (command : UiCommand) (r : Runtime) : Runtime :=
  match command with
  | CmdExportResult request confirmation => start_export_work request confirmation r
  | _ =>
      if sv_uncertain (rn_service r) then emit (ConfigUncertain (cmd_operation_id command)) r
      else
        match command with
        | CmdTestDraftConnection request => start_draft_work (DraftPrepared request) r
        | CmdPrepareDraftConnectionTest intent => start_draft_work (DraftIntent intent) r
        | CmdTestConnection operation_id profile_id profile_generation timeout_ms =>
            start_profile_work
              (WorkConnect operation_id profile_id profile_generation (duration_from_millis timeout_ms)
                 ConnectProfile) r
        | CmdExecute operation_id profile_id profile_generation language text row_limit timeout_ms =>
            let '(request, kind) :=
              execute_request shell_split operation_id profile_id profile_generation language text row_limit
                timeout_ms in
            start_profile_work (WorkExecute request kind) r
        | CmdBrowseCatalog request => start_profile_work (WorkBrowseCatalog request) r
        | CmdScanRedisKeys request => start_profile_work (WorkScanRedisKeys request) r
        | CmdInspectRedisKey request => start_profile_work (WorkInspectRedisKey request) r
        | other => emit (failure_for_unavailable other InternalFailure) r
        end
  end.

(** What a mutation is registered as. *)
Definition mutation_scope (command : UiCommand) : option (TaskScope * FailureContext) :=
  match command with
  | CmdRefreshProfiles _ => Some (ScopeGlobal, FcProfiles)
  | CmdCreateProfile request => Some (ScopeDraft (cp_draft_id request), FcDraft (cp_draft_id request) CreateProfile)
  | CmdUpdateProfile request =>
      Some (ScopeProfile (up_profile_id request) (up_expected_generation request) None,
            FcProfile (up_profile_id request) (up_expected_generation request) UpdateProfile)
  | CmdDeleteProfile request =>
      Some (ScopeProfile (dp_profile_id request) (dp_expected_generation request) None,
            FcProfile (dp_profile_id request) (dp_expected_generation request) DeleteProfile)
  | CmdStoreCredentials _ profile_id profile_generation _ _ =>
      Some (ScopeProfile profile_id profile_generation None, FcProfile profile_id profile_generation UpdateProfile)
  | _ => None
  end.

Definition is_refresh (command : UiCommand) : bool := match command with CmdRefreshProfiles _ => true | _ => false end.

(** Whether a mutation is active afterwards. *)
Definition start_mutation (command : UiCommand) (r : Runtime) : bool * Runtime :=
  let operation_id := cmd_operation_id command in
  if sv_uncertain (rn_service r) && negb (is_refresh command) then (false, emit (ConfigUncertain operation_id) r)
  else
    match reserve operation_id r with
    | None => (false, emit (failure_for_unavailable command ResourceBusy) r)
    | Some r =>
        match mutation_scope command with
        | None => (false, release_reservation operation_id r)
        | Some (scope, failure) =>
            start_registered operation_id scope (BodyMutation command) [] MutationTask failure r
        end
    end.

Definition is_cancel (command : UiCommand) : bool := match command with CmdCancelOperation _ => true | _ => false end.

Definition release_key (key : ControlKey) (r : Runtime) : Runtime := set_rn_port r (release_control_key key (rn_port r)).

(** The session a control acts on; [others] is what the tasks do to the service while it
    is read. *)
Definition cached_generation (profile_id : ProfileId) (profile_generation : ProfileGeneration) (s : Service) :
    option SessionGeneration :=
  identity ← cached_session_identity profile_id s;
  if (ci_profile_generation identity =? profile_generation)%N then Some (ci_session_generation identity) else None.

Definition handle_control (others : nat -> Service -> Service) (command : UiCommand) (r : Runtime) : Runtime :=
  let read n r := set_rn_service r (others n (rn_service r)) in
  if sv_uncertain (rn_service r) && negb (is_cancel command) then
    let r := emit (ConfigUncertain (cmd_operation_id command)) r in
    match control_key command with
    | Some (KeyCancel _) | None => r
    | Some key => release_key key r
    end
  else
    match command with
    | CmdCancelOperation operation_id =>
        let '(found, r) := registry_cancel operation_id r in
        if found then r else release_key (KeyCancel operation_id) r
    | CmdDisconnectProfile operation_id profile_id profile_generation =>
        let r := read 0 r in
        let session_generation := cached_generation profile_id profile_generation (rn_service r) in
        start_profile_control (ControlDisconnect operation_id profile_id profile_generation session_generation) r
    | CmdReconnectProfile operation_id profile_id profile_generation timeout_ms =>
        let r := read 0 r in
        match (ensure_generation profile_id profile_generation operation_id (rn_service r)).1 with
        | Err error =>
            emit (failed_from_service operation_id profile_id profile_generation None ReconnectProfile error) r
        | Ok _ =>
            let r := read 1 r in
            let session_generation := cached_generation profile_id profile_generation (rn_service r) in
            start_profile_control
              (ControlReconnect operation_id profile_id profile_generation session_generation
                 (duration_from_millis timeout_ms)) r
        end
    | other => emit (failure_for_unavailable other InternalFailure) r
    end.

(** ** The ends of tasks *)

Definition emit_internal_failure (operation_id : OperationId) (failure : FailureContext) (r : Runtime) : Runtime :=
  emit (internal_failure_event operation_id failure) r.

Definition start_registered_failure_cleanup (operation_id : OperationId) (scope : TaskScope)
    (failure : FailureContext) (terminal : Token) (r : Runtime) : bool * Runtime :=
  match reserve operation_id r with
  | None => (false, r)
  | Some r =>
      let '(cancel, r) := new_address r in
      let task :=
        {| rk_operation_id := operation_id; rk_scope := scope; rk_cancel := cancel;
           rk_join := spawn (BodyCleanup scope failure) [] |} in
      commit_reservation_with_state operation_id task AsyncNetwork failure terminal true r
  end.

Definition cancel_targets (targets : list (ProfileId * ProfileGeneration)) (r : Runtime) : list Token * Runtime :=
  foldl (fun '(waiters, r) '(profile_id, profile_generation) =>
    let '(terminals, r) := cancel_profile_network_waiters profile_id profile_generation r in
    (waiters ++ terminals, r)) ([], r) targets.

Definition output_had_active (output : TaskOutput) (r : Runtime) : bool :=
  match output with
  | OutUpdate _ profile_id previous_generation _ | OutDelete _ profile_id previous_generation _ =>
      has_profile_network profile_id previous_generation r
  | OutEvent _ | OutReload _ _ | OutCreate _ _ _ => false
  end.

Definition mutation_completion_waiters (output : TaskOutput) (r : Runtime) : (list Token * bool) * Runtime :=
  let had_active := output_had_active output r in
  let '(waiters, r) :=
    if sv_uncertain (rn_service r) then cancel_all_network_waiters r else cancel_targets (output_targets output) r in
  ((waiters, had_active), r).

Definition start_registered_mutation_completion (operation_id : OperationId) (scope : TaskScope)
    (failure : FailureContext) (output : TaskOutput) (r : Runtime) : bool * Runtime :=
  match reserve operation_id r with
  | None => (false, r)
  | Some r =>
      let '((waiters, had_active), r) := mutation_completion_waiters output r in
      start_registered operation_id scope (BodyCompletion output had_active waiters) [] MutationTask failure r
  end.

Definition is_event_output (output : TaskOutput) : bool := match output with OutEvent _ => true | _ => false end.

Definition panicked (entry : RegistryEntry) : bool := bool_decide (jn_finished (rk_join (en_task entry)) = Some true).

(** A task that failed: its cleanup is started, or its failure is reported at once. *)
Definition fail_entry (reports : bool) (operation_id : OperationId) (entry : RegistryEntry) (r : Runtime) : Runtime :=
  let cleanup :=
    if en_cleanup_started entry then (false, r)
    else start_registered_failure_cleanup operation_id (rk_scope (en_task entry)) (en_failure entry)
           (en_terminal entry) r in
  match cleanup with
  | (true, r) => r
  | (false, r) =>
      cancel_token (en_terminal entry)
        (if reports then emit_internal_failure operation_id (en_failure entry) r else r)
  end.

Definition clear_mutation (entry : RegistryEntry) (r : Runtime) : Runtime :=
  if bool_decide (en_class entry = MutationTask) then set_rn_mutation_active r false else r.

(** The task of the entry is over when its message is handled. *)
Definition handle_controller_message (message : ControllerMessage) (r : Runtime) : Runtime :=
  match message with
  | SessionAcquired operation_id session_generation => update_session operation_id session_generation r
  | Completed operation_id output =>
      match take operation_id r with
      | (None, r) => r
      | (Some entry, r) =>
          let terminal := en_terminal entry in
          if panicked entry then fail_entry true operation_id entry (clear_mutation entry r)
          else if bool_decide (en_class entry = MutationTask) && negb (is_event_output output) then
            let '(registered, r) :=
              start_registered_mutation_completion operation_id (rk_scope (en_task entry)) (en_failure entry) output
                r in
            let r := cancel_token terminal r in
            if registered then r
            else emit_internal_failure operation_id (en_failure entry) (set_rn_mutation_active r false)
          else
            let r := clear_mutation entry r in
            let '(event, service) := finish_task_output output false (rn_service r) in
            cancel_token terminal (emit event (set_rn_service r service))
      end
  end.

(** ** Reaping *)

Definition is_reapable (entry : RegistryEntry) : bool :=
  bool_decide (is_Some (jn_finished (rk_join (en_task entry)))) && negb (en_completion_sent entry).

(** The entries, in the order of the operations, are removed first. *)
Definition take_all (operation_ids : list OperationId) (r : Runtime) : list (OperationId * RegistryEntry) * Runtime :=
  foldr (fun operation_id '(entries, r) =>
    match take operation_id r with
    | (Some entry, r) => ((operation_id, entry) :: entries, r)
    | (None, r) => (entries, r)
    end) ([], r) operation_ids.

Definition reap_one (reaped : OperationId * RegistryEntry) (r : Runtime) : Runtime :=
  let '(operation_id, entry) := reaped in
  fail_entry (panicked entry || en_cleanup_started entry) operation_id entry (clear_mutation entry r).

Definition reap_panicked_tasks (operation_ids : list OperationId) (r : Runtime) : Runtime :=
  let '(reaped, r) := take_all operation_ids r in foldl (fun r reaped => reap_one reaped r) r reaped.

(** ** Shutdown *)

(** A network task that outlives the grace is aborted; its permits are dropped with it. *)
Definition expire_one (expired : OperationId * RegistryEntry) (r : Runtime) : Runtime :=
  let '(operation_id, entry) := expired in
  fail_entry true operation_id entry (drop_permits (jn_held (rk_join (en_task entry))) r).

Definition abort_bounded_work (operation_ids : list OperationId) (r : Runtime) : Runtime :=
  let '(expired, r) := take_all operation_ids r in foldl (fun r expired => expire_one expired r) r expired.
End controller.
