(* ===== verification/RuntimeSystem.v ===== *)
(** * The runtime as a transition system (src/src/ui/runtime.rs)

    The interface, the tasks and the controller's loop take turns: a step is one
    submission, one action of a task, or one iteration of the loop, whose handler runs
    to its end.  The loops are [run_controller], [finish_controller_shutdown] and
    [run_unavailable]. *)

From S2P Require Import Prelude RustStr Model Execution Retention Secrets Profile Config ConfigWriter Drivers Service.
From S2P Require Import PublicError RedisBrowser UiModel RuntimeEvents DraftTests Tokio CommandPorts Export Editor.
From S2P Require Import MysqlCatalog ExportFiles RuntimeTasks Runtime.

(** ** The event of an export *)

Definition result_export_file_error_event (operation_id : OperationId) (result_id : ResultId) (format : ExportFormat)
    (overwrite_policy : OverwritePolicy) (error : ExportFileError) : UiEvent :=
  let '((summary, code), destination_committed) :=
    match error with
    | ExportFileCancelled => ((OperationCancelled, PcNone), false)
    | DestinationExists | InvalidDestinationType | ConfirmationRequired | ConfirmationMismatch | DestinationChanged
    | ResultIdentityMismatch => ((InvalidInput, PcExportDestination), false)
    | EncodeFailed _ | ExportNotCommitted _ => ((ExportFailed, PcNone), false)
    | ExportDurabilityUnknown _ => ((SumCommittedDurabilityUnknown, PcExportDestinationCommitted), true)
    end in
  result_export_failed_event operation_id result_id format overwrite_policy summary code destination_committed.

(** [None]: the blocking task panicked. *)
Definition export_event (request : ExportResult) (outcome : option (result ExportFileError ExportFileOutcome)) :
    UiEvent :=
  let operation_id := er_operation_id request in
  let result_id := er_result_id request in
  match outcome with
  | Some (Ok outcome) =>
      ResultExported operation_id result_id (xo_format outcome) (xo_overwrite_policy outcome) (xo_row_count outcome)
        (xo_bytes_written outcome)
  | Some (Err error) =>
      result_export_file_error_event operation_id result_id (er_format request) (er_overwrite_policy request) error
  | None =>
      result_export_failed_event operation_id result_id (er_format request) (er_overwrite_policy request)
        InternalFailure PcNone false
  end.

(** ** How a task ends

    The drivers, the files and the clocks choose; the environment and the connector are
    those of the moment. *)

(** Only a cancelled task sees its token. *)
Definition race_allowed {A} (cancelled : bool) (race : Race A) : Prop :=
  match race with RaceCancelled => cancelled = true | _ => True end.

Definition run_allowed {Reply} (cancelled : bool) (run : TaskRun Reply) : Prop :=
  race_allowed cancelled (tr_prepare run) /\ race_allowed cancelled (tr_token_key run) /\
  race_allowed cancelled (tr_acquire run) /\ race_allowed cancelled (tr_reply run).

(** How waiting for the targets, and for the permits, ended. *)
Definition control_waited (cancelled : bool) (j : Join) (work : ProfileControlWork)
    (plan : option ReconnectPermitPlan) (waited : result PublicSummary unit) : Prop :=
  match work, plan with
  | ControlDisconnect _ _ _ _, _ => waited = if cancelled then Err OperationCancelled else Ok tt
  | ControlReconnect _ _ _ _ _, None => waited = Err InternalFailure
  | ControlReconnect _ _ _ _ _, Some (PlanReady _ _) => waited = Ok tt
  | ControlReconnect _ _ _ _ _, Some (PlanWait profile global) =>
      match jn_gave_up j with
      | Some summary => waited = Err summary
      | None => waited = Ok tt /\ profile ∈ jn_held j /\ global ∈ jn_held j
      end
  end.

(** The terminals a task waits for before it ends. *)
Definition body_waits (body : TaskBody) : list Token :=
  match body with BodyControl _ targets _ => targets | BodyCompletion _ _ waiters => waiters | _ => [] end.

(** What the task of the operation reports, and the service it leaves. *)
Inductive task_ends (operation_id : OperationId) (cancelled : bool) (s : Service) (j : Join) :
    TaskOutput -> Service -> Prop :=
| ends_export request confirmation outcome :
    jn_body j = BodyExport request confirmation ->
    match outcome with
    | Some r => exists pf fmt interrupts w w',
        export_result_to_file pf fmt interrupts request confirmation w = Some (r, w') /\
        (forall n, fp_cancelled pf n = true -> cancelled = true)
    | None => True
    end ->
    task_ends operation_id cancelled s j (OutEvent (export_event request outcome)) s
| ends_draft input env connect run event s' :
    jn_body j = BodyDraft input ->
    race_allowed cancelled (dr_acquire run) -> race_allowed cancelled (dr_ping run) ->
    match input with
    | DraftPrepared request => run_draft_work env connect run request s
    | DraftIntent intent => run_draft_intent env connect run intent s
    end = (Some event, s') ->
    task_ends operation_id cancelled s j (OutEvent event) s'
| ends_profile work env connect shell_split f64_to_string json_to_string (crates : TokenCrates)
    (run : TaskRun (work_reply work)) event :
    jn_body j = BodyProfile work ->
    run_allowed cancelled run ->
    (forall reply, tr_reply run = RaceDone (Some (Ok reply)) -> reply_ok work reply) ->
    let te := run_profile_work env connect shell_split f64_to_string json_to_string work run s in
    te_event te = Some event -> te_session te = jn_session j ->
    task_ends operation_id cancelled s j (OutEvent event) (te_service te)
| ends_control work targets plan waited env connect run event :
    jn_body j = BodyControl work targets plan ->
    run_allowed cancelled run -> control_waited cancelled j work plan waited ->
    let te := run_profile_control env connect work waited run s in
    te_event te = Some event -> te_session te = jn_session j ->
    task_ends operation_id cancelled s j (OutEvent event) (te_service te)
| ends_mutation command env config_path output s' :
    jn_body j = BodyMutation command ->
    run_mutation env config_path command s = (output, s') ->
    task_ends operation_id cancelled s j output s'
| ends_cleanup scope failure :
    jn_body j = BodyCleanup scope failure ->
    task_ends operation_id cancelled s j (OutEvent (internal_failure_event operation_id failure))
      (cleanup_failed_scope scope s)
| ends_completion output had_active waiters event s' :
    jn_body j = BodyCompletion output had_active waiters ->
    finish_task_output output had_active s = (event, s') ->
    task_ends operation_id cancelled s j (OutEvent event) s'.

Section system.
Context `{T : Tokio}.

(** ** The tasks *)

Definition with_join (j : Join) (entry : RegistryEntry) : RegistryEntry :=
  {| en_task :=
       {| rk_operation_id := rk_operation_id (en_task entry); rk_scope := rk_scope (en_task entry);
          rk_cancel := rk_cancel (en_task entry); rk_join := j |};
     en_class := en_class entry; en_failure := en_failure entry; en_completion_sent := en_completion_sent entry;
     en_terminal := en_terminal entry; en_cleanup_started := en_cleanup_started entry |}.

Definition with_completion (entry : RegistryEntry) : RegistryEntry :=
  {| en_task := en_task entry; en_class := en_class entry; en_failure := en_failure entry;
     en_completion_sent := true; en_terminal := en_terminal entry; en_cleanup_started := en_cleanup_started entry |}.

Definition set_held (j : Join) (held : list Address) : Join :=
  {| jn_body := jn_body j; jn_held := held; jn_session := jn_session j; jn_gave_up := jn_gave_up j;
     jn_finished := jn_finished j |}.
Definition announced (j : Join) (session_generation : SessionGeneration) : Join :=
  {| jn_body := jn_body j; jn_held := jn_held j; jn_session := Some session_generation; jn_gave_up := jn_gave_up j;
     jn_finished := jn_finished j |}.
Definition gave_up (j : Join) (summary : PublicSummary) : Join :=
  {| jn_body := jn_body j; jn_held := []; jn_session := jn_session j; jn_gave_up := Some summary;
     jn_finished := jn_finished j |}.
(** The permits are dropped when a task ends, and when it unwinds. *)
Definition finished (j : Join) (panics : bool) : Join :=
  {| jn_body := jn_body j; jn_held := []; jn_session := jn_session j; jn_gave_up := jn_gave_up j;
     jn_finished := Some panics |}.

Definition set_entry (operation_id : OperationId) (entry : RegistryEntry) (r : Runtime) : Runtime :=
  set_rn_entries r (<[operation_id := entry]> (rn_entries r)).

Definition send_message (message : ControllerMessage) (r : Runtime) : Runtime :=
  set_rn_messages r (try_send message (rn_messages r)).2.

Definition entry_join (entry : RegistryEntry) : Join := rk_join (en_task entry).

(** Permits are dropped, [completion_sent] is stored, the message is sent. *)
Definition complete_task (operation_id : OperationId) (entry : RegistryEntry) (output : TaskOutput) (s : Service)
    (r : Runtime) : Runtime :=
  let j := entry_join entry in
  send_message (Completed operation_id output)
    (set_entry operation_id (with_completion (with_join (finished j false) entry))
       (drop_permits (jn_held j) (set_rn_service r s))).

Definition panic_task (operation_id : OperationId) (entry : RegistryEntry) (r : Runtime) : Runtime :=
  let j := entry_join entry in
  set_entry operation_id (with_join (finished j true) entry) (drop_permits (jn_held j) r).

Definition running (r : Runtime) (operation_id : OperationId) (entry : RegistryEntry) : Prop :=
  rn_entries r !! operation_id = Some entry /\ jn_finished (entry_join entry) = None.

(** The task is past its waits for permits: it may use a session of a profile. *)
Definition may_connect (j : Join) : Prop :=
  match jn_body j with
  | BodyProfile _ | BodyControl (ControlReconnect _ _ _ _ _) _ (Some (PlanReady _ _)) => True
  | BodyControl (ControlReconnect _ _ _ _ _) _ (Some (PlanWait profile global)) =>
      jn_gave_up j = None /\ profile ∈ jn_held j /\ global ∈ jn_held j
  | _ => False
  end.

Definition targets_over (j : Join) (r : Runtime) : Prop :=
  forall token, token ∈ body_waits (jn_body j) -> token ∈ rn_cancelled r.

(** [task_gives_up] is the return of [acquire_reconnect_permits_after_targets] without
    permits: the targets are over by then, and what was acquired meanwhile is dropped. *)
Inductive TaskStep : Runtime -> Runtime -> Prop :=
| task_completes operation_id entry output s r :
    running r operation_id entry ->
    targets_over (entry_join entry) r ->
    task_ends operation_id (is_cancelled (rk_cancel (en_task entry)) r) (rn_service r) (entry_join entry) output s ->
    TaskStep r (complete_task operation_id entry output s r)
| task_panics operation_id entry r :
    running r operation_id entry -> TaskStep r (panic_task operation_id entry r)
| task_announces operation_id entry session_generation r :
    running r operation_id entry -> jn_session (entry_join entry) = None -> may_connect (entry_join entry) ->
    targets_over (entry_join entry) r ->
    TaskStep r
      (send_message (SessionAcquired operation_id session_generation)
         (set_entry operation_id (with_join (announced (entry_join entry) session_generation) entry) r))
| task_takes_permit operation_id entry work targets profile global a r r' :
    running r operation_id entry ->
    jn_body (entry_join entry) = BodyControl work targets (Some (PlanWait profile global)) ->
    jn_gave_up (entry_join entry) = None -> a = profile \/ a = global -> a ∉ jn_held (entry_join entry) ->
    try_acquire_owned a r = Some r' ->
    TaskStep r (set_entry operation_id (with_join (set_held (entry_join entry) (a :: jn_held (entry_join entry))) entry) r')
| task_gives_up operation_id entry work targets profile global summary r :
    running r operation_id entry ->
    jn_body (entry_join entry) = BodyControl work targets (Some (PlanWait profile global)) ->
    jn_gave_up (entry_join entry) = None -> jn_session (entry_join entry) = None ->
    targets_over (entry_join entry) r ->
    summary = OperationTimedOut \/
      (summary = OperationCancelled /\ is_cancelled (rk_cancel (en_task entry)) r = true) ->
    TaskStep r
      (set_entry operation_id (with_join (gave_up (entry_join entry) summary) entry)
         (drop_permits (jn_held (entry_join entry)) r))
| task_uses_service operation_id entry s r :
    running r operation_id entry -> TaskStep r (set_rn_service r s).

(** ** The interface *)

Inductive PortStep : Ports -> Ports -> Prop :=
| ui_submits command p : PortStep p (try_submit command p).2
| ui_submits_with build p : PortStep p (try_submit_with build p).2
| ui_withdraws p p' :
    try_reserve_mutation p = (Ok tt, p') -> PortStep p (set_mutation p' (permit_drop (po_mutation p')))
| ui_requests_shutdown p : PortStep p (request_shutdown p).2
| ui_drains limit p : PortStep p (drain_events limit p).2.

(** ** The controller *)

(** [Draining]: the operation of the shutdown, and whether the grace is over. *)
Inductive Phase :=
| Serving
| Draining (operation_id : OperationId) (overdue : bool)
| Unavailable (summary : PublicSummary)
| Stopped.

Record System := { sm_phase : Phase; sm_ui_gone : bool; sm_runtime : Runtime }.

Definition with_port (r : Runtime) (p : Ports) : Runtime := set_rn_port r p.

(** The command is taken from its queue; a Cancel has no answer of its own. *)
Definition received (command : UiCommand) (r : Runtime) : Runtime :=
  if is_cancel command then r else set_rn_started r (rn_started r ++ [cmd_operation_id command]).

Definition nothing_left {A} (channel : mpsc A) : Prop := (try_recv channel).1 = None.

(** The signal that ends the loops. *)
Definition shutdown_signal (sys : System) : option OperationId :=
  match po_shutdown (rn_port (sm_runtime sys)) with
  | Some operation_id => Some operation_id
  | None => if sm_ui_gone sys then Some 0%N else None
  end.

(** The message's task is awaited before it is handled. *)
Definition awaited (message : ControllerMessage) (r : Runtime) : Prop :=
  match message with
  | Completed operation_id _ =>
      forall entry, rn_entries r !! operation_id = Some entry -> jn_finished (entry_join entry) <> None
  | SessionAcquired _ _ => True
  end.

Definition selected (test : RegistryEntry -> bool) (r : Runtime) : list OperationId :=
  (List.filter (fun entry => test entry.2) (entry_list r)).*1.

Definition start_shutdown (operation_id : OperationId) (r : Runtime) : Runtime :=
  cancel_all (set_rn_started (with_port r (close_and_drain (rn_port r))) (rn_started r ++ [operation_id])).

(** The port is dropped after its last event. *)
Definition port_dropped (p : Ports) : Ports :=
  {| po_work := mpsc_close (po_work p); po_mutation := mpsc_close (po_mutation p);
     po_control := mpsc_close (po_control p); po_shutdown := po_shutdown p; po_shutdown_gone := true;
     po_events := po_events p; po_keys := po_keys p; po_keys_poisoned := po_keys_poisoned p |}.

Definition stop (operation_id : OperationId) (r : Runtime) : Runtime :=
  let r := emit (RuntimeShutdown operation_id) r in with_port r (port_dropped (rn_port r)).

Context (shell_split : str -> option (list str)).

(** The loop of the shutdown goes on, and the grace is not over for its network tasks. *)
Definition draining_turn (overdue : bool) (r : Runtime) : Prop :=
  is_empty_runtime r = false /\ overdue && has_bounded_shutdown_work r = false.

(** One iteration of the loops. *)
Inductive LoopStep : Phase -> Runtime -> Phase -> Runtime -> Prop :=
| serves_message message messages r r' :
    try_recv (rn_messages r) = (Some message, messages) ->
    rtc TaskStep (set_rn_messages r messages) r' -> awaited message r' ->
    LoopStep Serving r Serving (handle_controller_message message r')
| serves_control others command lane r :
    nothing_left (rn_messages r) -> try_recv (po_control (rn_port r)) = (Some command, lane) ->
    LoopStep Serving r Serving
      (handle_control others command (received command (with_port r (set_control (rn_port r) lane))))
| serves_mutation command lane r started r' :
    nothing_left (rn_messages r) -> nothing_left (po_control (rn_port r)) -> rn_mutation_active r = false ->
    try_recv (po_mutation (rn_port r)) = (Some command, lane) ->
    start_mutation command (received command (with_port r (set_mutation (rn_port r) lane))) = (started, r') ->
    LoopStep Serving r Serving (set_rn_mutation_active r' started)
| serves_work command lane r :
    nothing_left (rn_messages r) -> nothing_left (po_control (rn_port r)) ->
    rn_mutation_active r = true \/ nothing_left (po_mutation (rn_port r)) ->
    try_recv (po_work (rn_port r)) = (Some command, lane) ->
    LoopStep Serving r Serving
      (handle_work shell_split command (received command (with_port r (set_work (rn_port r) lane))))
| serves_tick operation_ids r :
    nothing_left (rn_messages r) -> nothing_left (po_control (rn_port r)) ->
    rn_mutation_active r = true \/ nothing_left (po_mutation (rn_port r)) ->
    nothing_left (po_work (rn_port r)) -> operation_ids ≡ₚ selected is_reapable r ->
    LoopStep Serving r Serving (draft_prune_idle (profile_prune_idle (reap_panicked_tasks operation_ids r)))
| drains_message operation_id overdue message messages r r' :
    draining_turn overdue r ->
    try_recv (rn_messages r) = (Some message, messages) ->
    rtc TaskStep (set_rn_messages r messages) r' -> awaited message r' ->
    LoopStep (Draining operation_id overdue) r (Draining operation_id overdue) (handle_controller_message message r')
| drains_tick operation_id overdue operation_ids r :
    draining_turn overdue r ->
    nothing_left (rn_messages r) -> operation_ids ≡ₚ selected is_reapable r ->
    LoopStep (Draining operation_id overdue) r (Draining operation_id overdue) (reap_panicked_tasks operation_ids r)
| drains_grace operation_id r :
    LoopStep (Draining operation_id false) r (Draining operation_id true) r
| drains_aborts operation_id operation_ids r :
    has_bounded_shutdown_work r = true -> operation_ids ≡ₚ selected is_network r ->
    LoopStep (Draining operation_id true) r (Draining operation_id true) (abort_bounded_work operation_ids r)
| drains_stops operation_id overdue r :
    is_empty_runtime r = true ->
    LoopStep (Draining operation_id overdue) r Stopped
      (stop operation_id (set_rn_service r (shutdown_runtime (rn_service r))))
| refuses_control summary command lane r :
    try_recv (po_control (rn_port r)) = (Some command, lane) ->
    LoopStep (Unavailable summary) r (Unavailable summary)
      (emit (failure_for_unavailable command summary)
         (set_rn_started (with_port r (set_control (rn_port r) lane)) (rn_started r ++ [cmd_operation_id command])))
| refuses_mutation summary command lane r :
    nothing_left (po_control (rn_port r)) -> try_recv (po_mutation (rn_port r)) = (Some command, lane) ->
    LoopStep (Unavailable summary) r (Unavailable summary)
      (emit (failure_for_unavailable command summary)
         (set_rn_started (with_port r (set_mutation (rn_port r) lane)) (rn_started r ++ [cmd_operation_id command])))
| refuses_work summary command lane r :
    nothing_left (po_control (rn_port r)) -> nothing_left (po_mutation (rn_port r)) ->
    try_recv (po_work (rn_port r)) = (Some command, lane) ->
    LoopStep (Unavailable summary) r (Unavailable summary)
      (emit (failure_for_unavailable command summary)
         (set_rn_started (with_port r (set_work (rn_port r) lane)) (rn_started r ++ [cmd_operation_id command]))).

(** The loops that watch the signal: [finish_controller_shutdown] does not. *)
Definition watches_signal (phase : Phase) : bool := match phase with Serving | Unavailable _ => true | _ => false end.

Inductive Step : System -> System -> Prop :=
| step_port sys p :
    sm_ui_gone sys = false -> PortStep (rn_port (sm_runtime sys)) p ->
    Step sys {| sm_phase := sm_phase sys; sm_ui_gone := false; sm_runtime := with_port (sm_runtime sys) p |}
| step_ui_dropped sys :
    Step sys {| sm_phase := sm_phase sys; sm_ui_gone := true; sm_runtime := sm_runtime sys |}
| step_task sys r :
    TaskStep (sm_runtime sys) r ->
    Step sys {| sm_phase := sm_phase sys; sm_ui_gone := sm_ui_gone sys; sm_runtime := r |}
| step_loop sys phase r :
    (watches_signal (sm_phase sys) = true -> shutdown_signal sys = None) ->
    LoopStep (sm_phase sys) (sm_runtime sys) phase r ->
    Step sys {| sm_phase := phase; sm_ui_gone := sm_ui_gone sys; sm_runtime := r |}
| step_shutdown sys operation_id :
    sm_phase sys = Serving -> shutdown_signal sys = Some operation_id ->
    Step sys {| sm_phase := Draining operation_id false; sm_ui_gone := sm_ui_gone sys;
                sm_runtime := start_shutdown operation_id (sm_runtime sys) |}
| step_unavailable_stops sys summary operation_id :
    sm_phase sys = Unavailable summary -> shutdown_signal sys = Some operation_id ->
    Step sys {| sm_phase := Stopped; sm_ui_gone := sm_ui_gone sys;
                sm_runtime :=
                  stop operation_id (set_rn_started
                    (with_port (sm_runtime sys) (close_and_drain (rn_port (sm_runtime sys))))
                    (rn_started (sm_runtime sys) ++ [operation_id])) |}.

(** [spawn] and [spawn_with_service]. *)
Definition initial_runtime (s : Service) : Runtime :=
  {| rn_port := controller_ports; rn_service := s; rn_messages := mpsc_channel None; rn_entries := ∅;
     rn_reserved := ∅; rn_mutation_active := false;
     rn_semaphores := {[ GLOBAL_PERMITS := semaphore_new GLOBAL_NETWORK_LIMIT;
                         PROCESS_EXPORT_PERMITS := semaphore_new PROCESS_EXPORT_LIMIT ]};
     rn_profile_permits := ∅; rn_draft_permits := ∅; rn_cancelled := ∅; rn_next := 2; rn_started := [];
     rn_offered := [] |}.

Inductive Initial : System -> Prop :=
| initial_serving s : Initial {| sm_phase := Serving; sm_ui_gone := false; sm_runtime := initial_runtime s |}
| initial_unavailable summary s :
    Initial {| sm_phase := Unavailable summary; sm_ui_gone := false; sm_runtime := initial_runtime s |}.

Definition Reached (sys : System) : Prop := exists sys0, Initial sys0 /\ rtc Step sys0 sys.
End system.
