(* ===== verification/RuntimeMoves.v ===== *)
(** * The handlers of the runtime as sequences of moves

    What the controller owes while a handler runs: answers, control keys, permits,
    terminals, and the flag of the active mutation.  Each handler is a sequence of
    small moves that ends with nothing owed; the invariants of RuntimeSafety are proved
    move by move. *)

From S2P Require Import Prelude RustStr Model Execution Retention Secrets Profile Config ConfigWriter Drivers Service.
From S2P Require Import PublicError RedisBrowser UiModel RuntimeEvents DraftTests Tokio CommandPorts Export Editor.
From S2P Require Import MysqlCatalog RuntimeTasks Runtime RuntimeSystem.

(** ** Answers *)

Definition output_operation (output : TaskOutput) : OperationId :=
  match output with
  | OutEvent event => event_operation_id event
  | OutReload operation_id _ | OutCreate operation_id _ _ | OutUpdate operation_id _ _ _
  | OutDelete operation_id _ _ _ => operation_id
  end.

(** The control key that the end of a task with this failure context releases. *)
Definition failure_keys (failure : FailureContext) : gset ControlKey :=
  match failure with
  | FcProfile profile_id profile_generation DisconnectProfile => {[ KeyDisconnect profile_id profile_generation ]}
  | FcProfile profile_id profile_generation ReconnectProfile => {[ KeyReconnect profile_id profile_generation ]}
  | _ => ∅
  end.

Lemma finish_output_operation output had_active s :
  event_operation_id (finish_task_output output had_active s).1 = output_operation output.
Proof.
  destruct output as [event|operation_id [reload|e]|operation_id draft_id [[mutation cleanup]|failure]
    |operation_id p g [[[mutation fence] cleanup]|failure]|operation_id p g [[mutation cleanup]|failure]];
    cbn [finish_task_output output_operation]; unfold finish_failed; try done;
    repeat (case_match; simplify_eq/=; try done).
Qed.

Lemma internal_failure_operation operation_id failure :
  event_operation_id (internal_failure_event operation_id failure) = operation_id.
Proof. destruct failure as [p g kind|draft_id kind| |]; try done. by destruct kind. Qed.

Lemma internal_failure_releases operation_id failure :
  failure_keys failure ⊆ released_by (internal_failure_event operation_id failure).
Proof. destruct failure as [p g []| | |]; cbn; set_solver. Qed.

Lemma unavailable_operation command summary :
  event_operation_id (failure_for_unavailable command summary) = cmd_operation_id command.
Proof.
  destruct command as [| | | | | |?|?| |?|?|?| | | | |]; try done.
Qed.

(** ** Entries *)

(** The operation a body answers for. *)
Definition body_answers (operation_id : OperationId) (body : TaskBody) : Prop :=
  match body with
  | BodyExport request _ => er_operation_id request = operation_id
  | BodyDraft input => dw_operation_id input = operation_id
  | BodyProfile work => ri_operation_id (work_identity work).1 = operation_id
  | BodyControl work _ _ => ri_operation_id (control_identity work).1.1 = operation_id
  | BodyMutation command => cmd_operation_id command = operation_id /\ cmd_lane command = LaneMutation
  | BodyCleanup _ _ => True
  | BodyCompletion output _ _ => output_operation output = operation_id
  end.

(** The failure context and the class that a body is registered with. *)
Definition body_fits (class : TaskClass) (failure : FailureContext) (body : TaskBody) : Prop :=
  match body with
  | BodyExport _ _ => class = ExportTask /\ failure_keys failure = ∅
  | BodyDraft _ | BodyProfile _ => class = AsyncNetwork /\ failure_keys failure = ∅
  | BodyControl work _ _ =>
      class = AsyncNetwork /\
      failure = FcProfile (ri_profile_id (control_identity work).1.1)
                  (ri_profile_generation (control_identity work).1.1) (control_identity work).2
  | BodyMutation _ | BodyCompletion _ _ _ => class = MutationTask /\ failure_keys failure = ∅
  | BodyCleanup _ registered => class = AsyncNetwork /\ failure = registered
  end.

Definition entry_fits (operation_id : OperationId) (entry : RegistryEntry) : Prop :=
  rk_operation_id (en_task entry) = operation_id /\ body_answers operation_id (jn_body (entry_join entry)) /\
  body_fits (en_class entry) (en_failure entry) (jn_body (entry_join entry)).

Section moves.
Context `{T : Tokio}.

(** The permits that a running task holds or may take. *)
Definition permits_fit (r : Runtime) (j : Join) : Prop :=
  match jn_body j with
  | BodyExport _ _ => jn_held j = [PROCESS_EXPORT_PERMITS]
  | BodyDraft input =>
      exists a, rn_draft_permits r !! dw_draft_id input = Some a /\ jn_held j = [a; GLOBAL_PERMITS]
  | BodyProfile work =>
      exists a, rn_profile_permits r !! ri_profile_id (work_identity work).1 = Some a /\
        jn_held j = [a; GLOBAL_PERMITS]
  | BodyControl work _ (Some (PlanReady profile global)) =>
      global = GLOBAL_PERMITS /\
      rn_profile_permits r !! ri_profile_id (control_identity work).1.1 = Some profile /\
      jn_held j = [profile; global]
  | BodyControl work _ (Some (PlanWait profile global)) =>
      global = GLOBAL_PERMITS /\
      rn_profile_permits r !! ri_profile_id (control_identity work).1.1 = Some profile /\
      NoDup (jn_held j) /\ (forall a, a ∈ jn_held j -> a = profile \/ a = global)
  | BodyControl _ _ None | BodyMutation _ | BodyCleanup _ _ | BodyCompletion _ _ _ => jn_held j = []
  end.

Definition new_entry (operation_id : OperationId) (scope : TaskScope) (body : TaskBody) (held : list Address)
    (class : TaskClass) (failure : FailureContext) (r : Runtime) : RegistryEntry :=
  {| en_task := {| rk_operation_id := operation_id; rk_scope := scope; rk_cancel := rn_next r;
                   rk_join := spawn body held |};
     en_class := class; en_failure := failure; en_completion_sent := false; en_terminal := rn_next r + 1;
     en_cleanup_started := false |}.

Definition cleanup_entry (operation_id : OperationId) (scope : TaskScope) (failure : FailureContext)
    (terminal : Token) (r : Runtime) : RegistryEntry :=
  {| en_task := {| rk_operation_id := operation_id; rk_scope := scope; rk_cancel := rn_next r;
                   rk_join := spawn (BodyCleanup scope failure) [] |};
     en_class := AsyncNetwork; en_failure := failure; en_completion_sent := false; en_terminal := terminal;
     en_cleanup_started := true |}.

Definition mutation_entry (r : Runtime) (operation_id : OperationId) (entry : RegistryEntry) : Prop :=
  rn_entries r !! operation_id = Some entry /\ en_class entry = MutationTask.

Definition has_mutation (r : Runtime) : Prop := exists operation_id entry, mutation_entry r operation_id entry.

Definition terminal_registered (r : Runtime) (token : Token) : Prop :=
  exists operation_id entry, rn_entries r !! operation_id = Some entry /\ en_terminal entry = token.

(** ** Moves *)

(** [Owes ops keys permits terminals unsettled]; [takes] are the entries that the
    handler may take out of the registry. *)
Inductive Owed := Owes (ops : list OperationId) (keys : gset ControlKey) (permits : list Address)
  (terminals : gset N) (unsettled : bool).

Definition idle (ops : list OperationId) (keys : gset ControlKey) : Owed := Owes ops keys [] ∅ false.

Context (takes : OperationId -> RegistryEntry -> Prop).

Inductive Move : Owed * Runtime -> Owed * Runtime -> Prop :=
| move_emit event ops keys permits terminals u r :
    Move (Owes (event_operation_id event :: ops) keys permits terminals u, r)
         (Owes ops (keys ∖ released_by event) permits terminals u, emit event r)
| move_more_keys ops keys keys' permits terminals u r :
    keys ⊆ keys' -> Move (Owes ops keys permits terminals u, r) (Owes ops keys' permits terminals u, r)
| move_reservations x o r : Move (o, r) (o, set_rn_reserved r x)
| move_service s o r : Move (o, r) (o, set_rn_service r s)
| move_session operation_id session_generation o r : Move (o, r) (o, update_session operation_id session_generation r)
| move_address o r : Move (o, r) (o, (new_address r).2)
| move_slot profile_id o r : Move (o, r) (o, (slot profile_id r).2)
| move_draft_slot draft_id o r : Move (o, r) (o, (draft_slot draft_id r).2)
| move_acquire a ops keys permits terminals u r r' :
    try_acquire_owned a r = Some r' ->
    Move (Owes ops keys permits terminals u, r) (Owes ops keys (a :: permits) terminals u, r')
| move_drop a ops keys permits permits' terminals u r :
    permits ≡ₚ a :: permits' ->
    Move (Owes ops keys permits terminals u, r) (Owes ops keys permits' terminals u, drop_permit a r)
| move_cancel token ops keys permits terminals terminals' u r :
    terminals ⊆ terminals' ∪ {[ token ]} -> terminals' ⊆ terminals ->
    Move (Owes ops keys permits terminals u, r) (Owes ops keys permits terminals' u, cancel_token token r)
| move_release_key key ops keys permits terminals u r :
    Move (Owes ops keys permits terminals u, r) (Owes ops (keys ∖ {[ key ]}) permits terminals u, release_key key r)
| move_covered operation_id ops keys permits terminals u r :
    is_Some (rn_entries r !! operation_id) ->
    Move (Owes ops keys permits terminals u, r) (Owes ops (keys ∖ {[ KeyCancel operation_id ]}) permits terminals u, r)
| move_start operation_id scope body held class failure ops keys permits permits' terminals u r :
    rn_entries r !! operation_id = None ->
    permits ≡ₚ held ++ permits' ->
    body_answers operation_id body -> body_fits class failure body -> permits_fit r (spawn body held) ->
    (forall token, token ∈ body_waits body -> terminal_registered r token) ->
    (class = MutationTask -> u = true /\ ~ has_mutation r) ->
    Move (Owes (operation_id :: ops) keys permits terminals u, r)
      (Owes ops (keys ∖ failure_keys failure) permits' terminals u,
       set_entry operation_id (new_entry operation_id scope body held class failure r)
         (set_rn_next r (rn_next r + 1 + 1)))
| move_cleanup operation_id scope failure terminal ops keys permits terminals terminals' u r :
    rn_entries r !! operation_id = None -> terminal ∈ terminals ->
    terminals ⊆ terminals' ∪ {[ terminal ]} -> terminals' ⊆ terminals ->
    Move (Owes (operation_id :: ops) keys permits terminals u, r)
      (Owes ops (keys ∖ failure_keys failure) permits terminals' u,
       set_entry operation_id (cleanup_entry operation_id scope failure terminal r) (set_rn_next r (rn_next r + 1)))
| move_take operation_id entry ops keys permits terminals terminals' u r :
    rn_entries r !! operation_id = Some entry -> takes operation_id entry ->
    (en_class entry = MutationTask -> u = true) -> terminals' ≡ terminals ∪ {[ en_terminal entry ]} ->
    Move (Owes ops keys permits terminals u, r)
      (Owes (operation_id :: ops) (keys ∪ failure_keys (en_failure entry)) (jn_held (entry_join entry) ++ permits)
         terminals' u, (take operation_id r).2)
| move_unsettle ops keys permits terminals u r :
    Move (Owes ops keys permits terminals u, r) (Owes ops keys permits terminals true, r)
| move_settle active ops keys permits terminals u r :
    (active = true <-> has_mutation r) ->
    Move (Owes ops keys permits terminals u, r)
      (Owes ops keys permits terminals false, set_rn_mutation_active r active)
| move_active active ops keys permits terminals r :
    Move (Owes ops keys permits terminals true, r)
      (Owes ops keys permits terminals true, set_rn_mutation_active r active)
| move_prune ops keys terminals u r :
    Move (Owes ops keys [] terminals u, r)
      (Owes ops keys [] terminals u, draft_prune_idle (profile_prune_idle r)).

Definition Moves := rtc Move.

(** ** Steps of the handlers *)

Lemma moves_keys ops keys keys' permits terminals u r o' :
  keys ⊆ keys' -> Moves (Owes ops keys' permits terminals u, r) o' -> Moves (Owes ops keys permits terminals u, r) o'.
Proof. intros Hk H. eapply rtc_l; [|exact H]. by constructor. Qed.

Lemma moves_emit event operation_id ops keys keys' permits terminals u r :
  event_operation_id event = operation_id -> keys ⊆ keys' ∪ released_by event ->
  Moves (Owes (operation_id :: ops) keys permits terminals u, r) (Owes ops keys' permits terminals u, emit event r).
Proof.
  intros <- Hk. eapply rtc_l; [constructor|]. apply rtc_once. constructor. set_solver.
Qed.

Lemma reserve_Some operation_id r r' :
  reserve operation_id r = Some r' ->
  r' = set_rn_reserved r ({[ operation_id ]} ∪ rn_reserved r) /\ rn_entries r !! operation_id = None.
Proof.
  unfold reserve. destruct (decide _) as [|Hno]; [done|]. intros [= <-]. split; [done|].
  apply eq_None_not_Some. intros H. apply Hno. by left.
Qed.

Lemma reserve_done operation_id r :
  rn_entries r !! operation_id = None -> rn_reserved r = ∅ ->
  reserve operation_id r = Some (set_rn_reserved r ({[ operation_id ]} ∪ rn_reserved r)).
Proof.
  intros He Hr. unfold reserve. rewrite decide_False; [done|]. rewrite He, Hr. intros [[x Hx]|H]; [done|set_solver].
Qed.

Lemma start_registered_done operation_id scope body held class failure r :
  rn_entries r !! operation_id = None -> operation_id ∈ rn_reserved r ->
  start_registered operation_id scope body held class failure r =
    (true, set_rn_reserved
             (set_entry operation_id (new_entry operation_id scope body held class failure r)
                (set_rn_next r (rn_next r + 1 + 1)))
             (rn_reserved r ∖ {[ operation_id ]})).
Proof.
  intros He Hr. unfold start_registered, commit_reservation, commit_reservation_with_state. cbn -[N.add].
  rewrite N.eqb_refl, bool_decide_true by done. cbn -[N.add]. unfold insert_with_state. cbn -[N.add]. by rewrite He.
Qed.

Lemma cleanup_started_done operation_id scope failure terminal r :
  rn_entries r !! operation_id = None -> rn_reserved r = ∅ ->
  start_registered_failure_cleanup operation_id scope failure terminal r =
    (true, set_rn_reserved
             (set_entry operation_id (cleanup_entry operation_id scope failure terminal r)
                (set_rn_next r (rn_next r + 1))) (({[ operation_id ]} ∪ rn_reserved r) ∖ {[ operation_id ]})).
Proof.
  intros He Hr. unfold start_registered_failure_cleanup. rewrite reserve_done by done.
  cbn -[N.add]. unfold commit_reservation_with_state. cbn -[N.add].
  rewrite N.eqb_refl, bool_decide_true by set_solver. cbn -[N.add]. unfold insert_with_state. cbn -[N.add].
  by rewrite He.
Qed.

(** A start: everything it needs is in place, so it is never refused. *)
Lemma moves_start operation_id scope body held class failure refusal ops keys keys' permits permits' terminals u r :
  rn_entries r !! operation_id = None -> operation_id ∈ rn_reserved r ->
  permits ≡ₚ held ++ permits' ->
  body_answers operation_id body -> body_fits class failure body -> permits_fit r (spawn body held) ->
  (forall token, token ∈ body_waits body -> terminal_registered r token) ->
  class <> MutationTask -> keys ⊆ keys' ∪ failure_keys failure ->
  let r' := start_or_refuse operation_id scope body held class failure refusal r in
  Moves (Owes (operation_id :: ops) keys permits terminals u, r) (Owes ops keys' permits' terminals u, r') /\
  rn_reserved r' = rn_reserved r ∖ {[ operation_id ]}.
Proof.
  intros He Hr Hp Ha Hf Hfit Hw Hclass Hk r'. unfold r', start_or_refuse.
  rewrite start_registered_done by done. split; [|done].
  eapply rtc_l; [by apply (move_start operation_id scope body held class failure ops keys permits permits')|].
  eapply rtc_l; [apply (move_more_keys _ _ keys'); set_solver|].
  apply rtc_once. apply (move_reservations (rn_reserved r ∖ {[ operation_id ]})).
Qed.

Lemma acquired_same a r r' :
  try_acquire_owned a r = Some r' -> exists s, r' = set_rn_semaphores r (<[a := s]> (rn_semaphores r)).
Proof.
  unfold try_acquire_owned. intros (s & _ & Hs)%bind_Some. apply bind_Some in Hs as (s' & _ & [= <-]). by exists s'.
Qed.

(** Taking a slot touches the permits only. *)
Lemma slot_spec profile_id r :
  let '(a, r') := slot profile_id r in
  rn_entries r' = rn_entries r /\ rn_reserved r' = rn_reserved r /\ rn_cancelled r' = rn_cancelled r /\
  rn_profile_permits r' !! profile_id = Some a.
Proof.
  unfold slot, new_permit, new_address. destruct (rn_profile_permits r !! profile_id) eqn:H; [done|]. cbn.
  by rewrite lookup_insert_eq.
Qed.

Lemma draft_slot_spec draft_id r :
  let '(a, r') := draft_slot draft_id r in
  rn_entries r' = rn_entries r /\ rn_reserved r' = rn_reserved r /\ rn_cancelled r' = rn_cancelled r /\
  rn_draft_permits r' !! draft_id = Some a.
Proof.
  unfold draft_slot, new_permit, new_address. destruct (rn_draft_permits r !! draft_id) eqn:H; [done|]. cbn.
  by rewrite lookup_insert_eq.
Qed.

(** The permit of a profile, or of a draft: taken, or not; nothing else is touched. *)
Definition permit_taken (taken : option Address) (permits : Runtime -> option Address) (r r' : Runtime) : Prop :=
  rn_entries r' = rn_entries r /\ rn_reserved r' = rn_reserved r /\ rn_cancelled r' = rn_cancelled r /\
  forall a, taken = Some a -> permits r' = Some a.

Lemma moves_profile_permit profile_id ops keys permits terminals u r :
  let '(taken, r') := profile_try_acquire profile_id r in
  permit_taken taken (fun r => rn_profile_permits r !! profile_id) r r' /\
  Moves (Owes ops keys permits terminals u, r) (Owes ops keys (option_list taken ++ permits) terminals u, r').
Proof.
  unfold profile_try_acquire. pose proof (slot_spec profile_id r) as Hspec.
  pose proof (move_slot profile_id (Owes ops keys permits terminals u) r) as Hm.
  destruct (slot profile_id r) as [a r1]. destruct Hspec as (He & Hr & Hc & Ha).
  destruct (try_acquire_owned a r1) as [r2|] eqn:Ht.
  - pose proof (acquired_same _ _ _ Ht) as [s Hs]. split.
    + rewrite Hs. split_and!; [done..|]. by intros ? [= <-].
    + eapply rtc_l; [exact Hm|]. apply rtc_once. by constructor.
  - split; [by split_and!|]. by apply rtc_once.
Qed.

Lemma moves_draft_permit draft_id ops keys permits terminals u r :
  let '(taken, r') := draft_try_acquire draft_id r in
  permit_taken taken (fun r => rn_draft_permits r !! draft_id) r r' /\
  Moves (Owes ops keys permits terminals u, r) (Owes ops keys (option_list taken ++ permits) terminals u, r').
Proof.
  unfold draft_try_acquire. pose proof (draft_slot_spec draft_id r) as Hspec.
  pose proof (move_draft_slot draft_id (Owes ops keys permits terminals u) r) as Hm.
  destruct (draft_slot draft_id r) as [a r1]. destruct Hspec as (He & Hr & Hc & Ha).
  destruct (try_acquire_owned a r1) as [r2|] eqn:Ht.
  - pose proof (acquired_same _ _ _ Ht) as [s Hs]. split.
    + rewrite Hs. split_and!; [done..|]. by intros ? [= <-].
    + eapply rtc_l; [exact Hm|]. apply rtc_once. by constructor.
  - split; [by split_and!|]. by apply rtc_once.
Qed.

(** ** The starts *)

(** A handler keeps its promise: it ends with nothing owed but what was there before,
    and without a reservation. *)
Definition handles (o : Owed) (r : Runtime) (o' : Owed) (r' : Runtime) : Prop :=
  Moves (o, r) (o', r') /\ rn_reserved r' = ∅.

Lemma handles_after o r o1 r1 o2 r2 : Moves (o, r) (o1, r1) -> handles o1 r1 o2 r2 -> handles o r o2 r2.
Proof. intros H1 [H2 Hr]. split; [by etrans|done]. Qed.

Lemma handles_emit event operation_id ops keys keys' u r :
  rn_reserved r = ∅ -> event_operation_id event = operation_id -> keys ⊆ keys' ∪ released_by event ->
  handles (Owes (operation_id :: ops) keys [] ∅ u) r (Owes ops keys' [] ∅ u) (emit event r).
Proof. intros Hr Ho Hk. split; [by apply moves_emit|exact Hr]. Qed.

(** A start that is refused after its reservation. *)
Lemma handles_refused event operation_id ops keys keys' u r :
  rn_reserved r = {[ operation_id ]} ∪ ∅ -> event_operation_id event = operation_id ->
  keys ⊆ keys' ∪ released_by event ->
  handles (Owes (operation_id :: ops) keys [] ∅ u) r (Owes ops keys' [] ∅ u)
    (emit event (release_reservation operation_id r)).
Proof.
  intros Hr Ho Hk. eapply handles_after; [apply rtc_once, (move_reservations (rn_reserved r ∖ {[ operation_id ]}))|].
  apply handles_emit; [|done..]. cbn. rewrite Hr. set_solver.
Qed.

Lemma handles_start operation_id scope body held class failure refusal ops keys keys' permits u r :
  rn_entries r !! operation_id = None -> rn_reserved r = {[ operation_id ]} ∪ ∅ ->
  permits ≡ₚ held ->
  body_answers operation_id body -> body_fits class failure body -> permits_fit r (spawn body held) ->
  (forall token, token ∈ body_waits body -> terminal_registered r token) ->
  class <> MutationTask -> keys ⊆ keys' ∪ failure_keys failure ->
  handles (Owes (operation_id :: ops) keys permits ∅ u) r (Owes ops keys' [] ∅ u)
    (start_or_refuse operation_id scope body held class failure refusal r).
Proof.
  intros He Hr Hp Ha Hf Hfit Hw Hclass Hk.
  destruct (moves_start operation_id scope body held class failure refusal ops keys keys' permits [] ∅ u r) as [Hm Hr'];
    try done; [rewrite Hr; set_solver|by rewrite app_nil_r|].
  split; [exact Hm|]. rewrite Hr', Hr. set_solver.
Qed.

Lemma moves_reserve operation_id r r' o :
  reserve operation_id r = Some r' -> rn_reserved r = ∅ ->
  Moves (o, r) (o, r') /\ rn_entries r' !! operation_id = None /\ rn_reserved r' = {[ operation_id ]} ∪ ∅ /\
  rn_entries r' = rn_entries r.
Proof.
  intros [-> He]%reserve_Some Hr. split_and!; [apply rtc_once; constructor|done|cbn; by rewrite Hr|done].
Qed.

Lemma export_handled request confirmation ops keys u r :
  rn_reserved r = ∅ ->
  handles (Owes (er_operation_id request :: ops) keys [] ∅ u) r (Owes ops keys [] ∅ u)
    (start_export_work request confirmation r).
Proof.
  intros Hr. unfold start_export_work. cbv zeta.
  destruct (active_export _ r); [by apply handles_emit; [|done|set_solver]|].
  destruct (reserve _ r) as [r1|] eqn:Hres; [|by apply handles_emit; [|done|set_solver]].
  edestruct (moves_reserve _ _ _ (Owes (er_operation_id request :: ops) keys [] ∅ u) Hres Hr) as (Hm & He & Hr1 & _).
  eapply handles_after; [exact Hm|].
  destruct (try_acquire_owned _ r1) as [r2|] eqn:Ht; [|by apply handles_refused; [|done|set_solver]].
  destruct (acquired_same _ _ _ Ht) as [s Hs].
  eapply handles_after; [apply rtc_once, (move_acquire _ _ _ _ _ _ _ _ Ht)|].
  apply handles_start; rewrite ?Hs; try done; set_solver.
Qed.

Lemma draft_handled input ops keys u r :
  rn_reserved r = ∅ ->
  handles (Owes (dw_operation_id input :: ops) keys [] ∅ u) r (Owes ops keys [] ∅ u) (start_draft_work input r).
Proof.
  intros Hr. unfold start_draft_work. cbv zeta.
  destruct (reserve _ r) as [r1|] eqn:Hres; [|by apply handles_emit; [|done|set_solver]].
  edestruct (moves_reserve _ _ _ (Owes (dw_operation_id input :: ops) keys [] ∅ u) Hres Hr) as (Hm & He & Hr1 & _).
  eapply handles_after; [exact Hm|].
  pose proof (moves_draft_permit (dw_draft_id input) (dw_operation_id input :: ops) keys [] ∅ u r1) as Hd.
  destruct (draft_try_acquire _ r1) as [[a|] r2]; destruct Hd as [(He2 & Hr2 & _ & Ha) Hm2].
  - eapply handles_after; [exact Hm2|]. destruct (try_acquire_owned _ r2) as [r3|] eqn:Ht.
    + destruct (acquired_same _ _ _ Ht) as [s Hs].
      eapply handles_after; [apply rtc_once, (move_acquire _ _ _ _ _ _ _ _ Ht)|].
      apply handles_start; rewrite ?Hs; try done; cbn.
      * by rewrite He2.
      * congruence.
      * apply Permutation_swap.
      * exists a. split; [by apply Ha|done].
      * set_solver.
      * set_solver.
    + eapply handles_after; [apply rtc_once, (move_drop a _ _ _ []); done|].
      apply handles_refused; [cbn; congruence|done|set_solver].
  - eapply handles_after; [exact Hm2|]. apply handles_refused; [congruence|done|set_solver].
Qed.

Lemma profile_work_handled work ops keys u r :
  rn_reserved r = ∅ -> failure_keys (FcProfile [] 0 (work_identity work).2) = ∅ ->
  handles (Owes (ri_operation_id (work_identity work).1 :: ops) keys [] ∅ u) r (Owes ops keys [] ∅ u)
    (start_profile_work work r).
Proof.
  intros Hr Hkind. unfold start_profile_work. destruct (work_identity work) as [identity kind] eqn:Hid. cbv zeta.
  cbn [fst snd] in Hkind |- *.
  destruct (has_profile_network_for_id _ r); [by apply handles_emit; [|done|set_solver]|].
  destruct (reserve _ r) as [r1|] eqn:Hres; [|by apply handles_emit; [|done|set_solver]].
  edestruct (moves_reserve _ _ _ (Owes (ri_operation_id identity :: ops) keys [] ∅ u) Hres Hr) as (Hm & He & Hr1 & _).
  eapply handles_after; [exact Hm|].
  pose proof (moves_profile_permit (ri_profile_id identity) (ri_operation_id identity :: ops) keys [] ∅ u r1) as Hd.
  destruct (profile_try_acquire _ r1) as [[a|] r2]; destruct Hd as [(He2 & Hr2 & _ & Ha) Hm2].
  - eapply handles_after; [exact Hm2|]. destruct (try_acquire_owned _ r2) as [r3|] eqn:Ht.
    + destruct (acquired_same _ _ _ Ht) as [s Hs].
      eapply handles_after; [apply rtc_once, (move_acquire _ _ _ _ _ _ _ _ Ht)|].
      apply handles_start; rewrite ?Hs; try done; cbn.
      * by rewrite He2.
      * congruence.
      * apply Permutation_swap.
      * by rewrite Hid.
      * split; [done|]. by destruct kind.
      * exists a. rewrite Hid. split; [by apply Ha|done].
      * set_solver.
      * set_solver.
    + eapply handles_after; [apply rtc_once, (move_drop a _ _ _ []); done|].
      apply handles_refused; [cbn; congruence|done|set_solver].
  - eapply handles_after; [exact Hm2|]. apply handles_refused; [congruence|done|set_solver].
Qed.

(** ** Controls *)

Lemma moves_cancel token ops keys permits terminals u r :
  Moves (Owes ops keys permits terminals u, r) (Owes ops keys permits terminals u, cancel_token token r).
Proof. apply rtc_once, move_cancel; set_solver. Qed.

(** Only the tokens are different, and the ones of before are still cancelled. *)
Definition only_cancelled (r r' : Runtime) : Prop :=
  rn_entries r' = rn_entries r /\ rn_reserved r' = rn_reserved r /\ rn_profile_permits r' = rn_profile_permits r /\
  rn_service r' = rn_service r /\ rn_mutation_active r' = rn_mutation_active r /\ rn_cancelled r ⊆ rn_cancelled r'.

Lemma cancel_tokens_spec tokens r :
  let r' := foldr cancel_token r tokens in
  only_cancelled r r' /\
  forall ops keys permits terminals u,
    Moves (Owes ops keys permits terminals u, r) (Owes ops keys permits terminals u, r').
Proof.
  induction tokens as [|token tokens [IH IHm]]; cbn [foldr]; [by split; [split_and!|]|]. split.
  - destruct IH as (He & Hr & Hp & Hs & Ha & Hc). split_and!; [done..|]. cbn. set_solver.
  - intros. etrans; [apply IHm|apply moves_cancel].
Qed.

Lemma terminal_registered_same r r' token :
  rn_entries r' = rn_entries r -> terminal_registered r token -> terminal_registered r' token.
Proof. intros He (operation_id & entry & H & Ht). exists operation_id, entry. by rewrite He. Qed.

Lemma cancel_waiters_spec selects r :
  let '(waiters, r') := cancel_waiters selects r in
  only_cancelled r r' /\ (forall token, token ∈ waiters -> terminal_registered r' token) /\
  forall ops keys permits terminals u,
    Moves (Owes ops keys permits terminals u, r) (Owes ops keys permits terminals u, r').
Proof.
  unfold cancel_waiters. set (chosen := List.filter selects _).
  destruct (cancel_tokens_spec ((fun entry => rk_cancel (en_task entry)) <$> chosen) r) as [Hsame Hm].
  split_and!; [done| |done].
  intros token (entry & -> & Hin)%list_elem_of_fmap.
  unfold chosen in Hin. apply list_elem_of_In, filter_In in Hin as [Hin _]. apply list_elem_of_In in Hin.
  apply list_elem_of_fmap in Hin as ([operation_id e] & -> & Hin). apply elem_of_map_to_list in Hin.
  apply (terminal_registered_same r); [apply Hsame|]. by exists operation_id, e.
Qed.

Lemma plan_spec profile_id targets work ops keys u r :
  ri_profile_id (control_identity work).1.1 = profile_id ->
  let '(planned, r') := plan_reconnect profile_id targets r in
  rn_entries r' = rn_entries r /\ rn_reserved r' = rn_reserved r /\ rn_cancelled r' = rn_cancelled r /\
  match planned with
  | inl _ => Moves (Owes ops keys [] ∅ u, r) (Owes ops keys [] ∅ u, r')
  | inr (plan, held) =>
      permits_fit r' (spawn (BodyControl work targets (Some plan)) held) /\
      exists permits, permits ≡ₚ held /\ Moves (Owes ops keys [] ∅ u, r) (Owes ops keys permits ∅ u, r')
  end.
Proof.
  intros Hp. unfold plan_reconnect. destruct targets as [|target targets].
  - pose proof (moves_profile_permit profile_id ops keys [] ∅ u r) as Hd.
    destruct (profile_try_acquire profile_id r) as [[a|] r1]; destruct Hd as [(He & Hr & Hc & Ha) Hm]; [|by split_and!].
    destruct (try_acquire_owned GLOBAL_PERMITS r1) as [r2|] eqn:Ht.
    + destruct (acquired_same _ _ _ Ht) as [s ->]. split_and!; [done..| |].
      * cbn. rewrite Hp. split_and!; [done|by apply Ha|done].
      * exists [GLOBAL_PERMITS; a]. split; [apply Permutation_swap|].
        etrans; [exact Hm|]. apply rtc_once. by constructor.
    + split_and!; [done..|]. etrans; [exact Hm|]. apply rtc_once. by apply move_drop.
  - pose proof (slot_spec profile_id r) as Hspec. pose proof (move_slot profile_id (Owes ops keys [] ∅ u) r) as Hm.
    destruct (slot profile_id r) as [a r1]. destruct Hspec as (He & Hr & Hc & Ha).
    split_and!; [done..| |].
    + cbn. rewrite Hp. split_and!; [done|done|constructor|by intros ? []%elem_of_nil].
    + exists []. split; [done|]. by apply rtc_once.
Qed.

Lemma control_handled work ops keys keys' u r :
  rn_reserved r = ∅ ->
  keys ⊆ keys' ∪ failure_keys (FcProfile (ri_profile_id (control_identity work).1.1)
                                (ri_profile_generation (control_identity work).1.1) (control_identity work).2) ->
  handles (Owes (ri_operation_id (control_identity work).1.1 :: ops) keys [] ∅ u) r (Owes ops keys' [] ∅ u)
    (start_profile_control work r).
Proof.
  intros Hr Hk. unfold start_profile_control.
  destruct (control_identity work) as [[identity session] kind] eqn:Hid. cbn [fst snd] in Hk |- *. cbv zeta.
  set (busy := failed_profile_event _ _ _ _ _ _).
  assert (Hbusy : keys ⊆ keys' ∪ released_by busy).
  { etrans; [exact Hk|]. apply union_mono_l. unfold busy. destruct kind; cbn; set_solver. }
  destruct (reserve _ r) as [r1|] eqn:Hres; [|by apply handles_emit].
  edestruct (moves_reserve _ _ _ (Owes (ri_operation_id identity :: ops) keys [] ∅ u) Hres Hr) as (Hm & He & Hr1 & _).
  eapply handles_after; [exact Hm|]. clear Hm Hres.
  unfold cancel_profile_network_waiters.
  pose proof (cancel_waiters_spec (network_of (ri_profile_id identity) (ri_profile_generation identity)) r1) as Hspec.
  destruct (cancel_waiters _ r1) as [targets r2]. destruct Hspec as ((He2 & Hr2 & _) & Hterm & Hm2).
  eapply handles_after; [apply Hm2|]. clear Hm2.
  assert (Hstart : forall planned held permits r3,
    rn_entries r3 = rn_entries r2 -> rn_reserved r3 = rn_reserved r2 -> permits ≡ₚ held ->
    permits_fit r3 (spawn (BodyControl work targets planned) held) ->
    handles (Owes (ri_operation_id identity :: ops) keys permits ∅ u) r3 (Owes ops keys' [] ∅ u)
      (start_or_refuse (ri_operation_id identity)
         (ScopeProfile (ri_profile_id identity) (ri_profile_generation identity) session)
         (BodyControl work targets planned) held AsyncNetwork
         (FcProfile (ri_profile_id identity) (ri_profile_generation identity) kind) busy r3)).
  { intros planned held permits r3 He3 Hr3 Hp Hfit. apply (handles_start _ _ _ _ _ _ _ _ _ _ permits); try done.
    - by rewrite He3, He2.
    - congruence.
    - cbn. by rewrite Hid.
    - cbn. by rewrite Hid.
    - intros token Htoken. apply (terminal_registered_same r2); [done|]. by apply Hterm. }
  destruct work as [o p g sg|o p g sg timeout].
  - by apply (Hstart None [] []).
  - pose proof (plan_spec (ri_profile_id identity) targets (ControlReconnect o p g sg timeout)
      (ri_operation_id identity :: ops) keys u r2 ltac:(by rewrite Hid)) as Hplan.
    destruct (plan_reconnect _ targets r2) as [[[]|[plan held]] r3]; destruct Hplan as (He3 & Hr3 & _ & Hplan).
    + eapply handles_after; [exact Hplan|]. apply handles_refused; [congruence|done|done].
    + destruct Hplan as (Hfit & permits & Hp & Hm3). eapply handles_after; [exact Hm3|].
      by apply (Hstart (Some plan) held permits).
Qed.

(** ** Commands *)

Lemma execute_kind_plain shell_split language text :
  failure_keys (FcProfile [] 0 (classify_execute_operation shell_split language text)) = ∅.
Proof.
  unfold classify_execute_operation, Execution.classify_execution_kind. repeat case_match; done.
Qed.

Lemma work_handled shell_split command ops keys u r :
  rn_reserved r = ∅ ->
  handles (Owes (cmd_operation_id command :: ops) keys [] ∅ u) r (Owes ops keys [] ∅ u)
    (handle_work shell_split command r).
Proof.
  intros Hr. unfold handle_work.
  assert (Huncertain : handles (Owes (cmd_operation_id command :: ops) keys [] ∅ u) r (Owes ops keys [] ∅ u)
    (emit (ConfigUncertain (cmd_operation_id command)) r)) by (apply handles_emit; [done..|set_solver]).
  assert (Hother : handles (Owes (cmd_operation_id command :: ops) keys [] ∅ u) r (Owes ops keys [] ∅ u)
    (emit (failure_for_unavailable command InternalFailure) r))
    by (apply handles_emit; [done|apply unavailable_operation|set_solver]).
  destruct command; try (destruct (sv_uncertain (rn_service r)); [exact Huncertain|]); try exact Hother.
  - by apply (profile_work_handled (WorkConnect _ _ _ _ _)).
  - by apply (draft_handled (DraftPrepared _)).
  - by apply (draft_handled (DraftIntent _)).
  - unfold execute_request.
    match goal with |- handles _ _ _ (start_profile_work ?work _) => apply (profile_work_handled work) end; [done|].
    apply execute_kind_plain.
  - by apply (profile_work_handled (WorkBrowseCatalog _)).
  - by apply (profile_work_handled (WorkScanRedisKeys _)).
  - by apply (profile_work_handled (WorkInspectRedisKey _)).
  - by apply export_handled.
Qed.

Lemma release_key_handled key ops keys keys' u r :
  rn_reserved r = ∅ -> keys ⊆ keys' ∪ {[ key ]} ->
  handles (Owes ops keys [] ∅ u) r (Owes ops keys' [] ∅ u) (release_key key r).
Proof.
  intros Hr Hk. split; [|done]. eapply rtc_l; [apply move_release_key|]. apply rtc_once, move_more_keys. set_solver.
Qed.

(** What a control command owes: an answer, unless it is a Cancel, and its key. *)
Definition control_owes (command : UiCommand) (ops : list OperationId) (keys : gset ControlKey) (u : bool) : Owed :=
  Owes (if is_cancel command then ops else cmd_operation_id command :: ops) (held_keys command ∪ keys) [] ∅ u.

Lemma control_command_handled others command ops keys u r :
  rn_reserved r = ∅ ->
  handles (control_owes command ops keys u) r (Owes ops keys [] ∅ u) (handle_control others command r).
Proof.
  intros Hr. unfold handle_control, control_owes.
  destruct (sv_uncertain (rn_service r) && negb (is_cancel command)) eqn:Huncertain.
  { apply andb_true_iff in Huncertain as [_ Hc]. apply negb_true_iff in Hc. rewrite Hc.
    destruct (control_key command) as [key|] eqn:Hkey.
    - assert (held_keys command = {[ key ]}) as -> by (unfold held_keys; by rewrite Hkey).
      eapply handles_after; [apply (moves_emit (ConfigUncertain (cmd_operation_id command)) _ ops _ ({[ key ]} ∪ keys));
        [done|set_solver]|].
      destruct key; [by destruct command| |]; apply release_key_handled; first [done|set_solver].
    - apply handles_emit; [done..|]. unfold held_keys. rewrite Hkey. set_solver. }
  clear Huncertain.
  assert (Hread : forall n o, Moves (o, r) (o, set_rn_service r (others n (rn_service r))))
    by (intros; apply rtc_once; constructor).
  destruct command; try (apply handles_emit; [done|apply unavailable_operation|cbn; set_solver]); cbn [is_cancel].
  - unfold registry_cancel. destruct (rn_entries r !! operation_id) as [entry|] eqn:He.
    + split; [|done]. eapply rtc_l; [by apply (move_covered operation_id)|].
      eapply rtc_l; [apply (move_more_keys _ _ keys); cbn; set_solver|]. apply moves_cancel.
    + apply release_key_handled; [done|]. cbn. set_solver.
  - eapply handles_after; [apply Hread|].
    by apply (control_handled (ControlDisconnect operation_id profile_id profile_generation _)); [|cbn; set_solver].
  - eapply handles_after; [apply (Hread 0)|]. destruct (ensure_generation _ _ _ _).1 as [u'|error].
    + eapply handles_after; [apply rtc_once, (move_service (others 1 (others 0 (rn_service r))))|].
      by apply (control_handled (ControlReconnect operation_id profile_id profile_generation _ _)); [|cbn; set_solver].
    + apply handles_emit; [done..|]. cbn. set_solver.
Qed.

(** ** Mutations *)

Lemma mutation_scope_plain command scope failure :
  mutation_scope command = Some (scope, failure) -> failure_keys failure = ∅.
Proof. destruct command; intros [= <- <-]; done. Qed.

Lemma mutation_lane_scope command : cmd_lane command = LaneMutation -> is_Some (mutation_scope command).
Proof. destruct command; try done; intros _; eexists; reflexivity. Qed.

(** The flag that the loop sets next is right. *)
Lemma mutation_handled command ops keys u r :
  rn_reserved r = ∅ -> cmd_lane command = LaneMutation -> ~ has_mutation r ->
  let '(started, r') := start_mutation command r in
  handles (Owes (cmd_operation_id command :: ops) keys [] ∅ u) r (Owes ops keys [] ∅ false)
    (set_rn_mutation_active r' started).
Proof.
  intros Hr Hlane Hnone. unfold start_mutation.
  assert (Hrefused : forall event, event_operation_id event = cmd_operation_id command ->
    handles (Owes (cmd_operation_id command :: ops) keys [] ∅ u) r (Owes ops keys [] ∅ false)
      (set_rn_mutation_active (emit event r) false)).
  { intros event Hevent. split; [|done]. etrans; [apply (moves_emit event _ _ _ keys); [done|set_solver]|].
    apply rtc_once, move_settle. split; [done|]. by intros H. }
  destruct (_ && _); [by apply Hrefused|].
  destruct (reserve _ r) as [r1|] eqn:Hres; [|by apply Hrefused, unavailable_operation].
  edestruct (moves_reserve _ _ _ (Owes (cmd_operation_id command :: ops) keys [] ∅ u) Hres Hr) as (Hm & He & Hr1 & He1).
  destruct (mutation_lane_scope command Hlane) as [[scope failure] Hscope]. rewrite Hscope.
  rewrite start_registered_done; [|done|rewrite Hr1; set_solver].
  assert (Hnone1 : ~ has_mutation r1).
  { intros (op & e & H & Hc). apply Hnone. exists op, e. split; [by rewrite <- He1|done]. }
  split; [|cbn; rewrite Hr1; set_solver].
  etrans; [exact Hm|]. eapply rtc_l; [apply move_unsettle|].
  eapply rtc_l; [apply (move_start (cmd_operation_id command) scope (BodyMutation command) [] MutationTask failure ops
    keys [] []); try done; [by eapply conj, mutation_scope_plain|set_solver]|].
  eapply rtc_l; [apply (move_more_keys _ _ keys); set_solver|].
  eapply rtc_l; [apply (move_reservations (rn_reserved r1 ∖ {[ cmd_operation_id command ]}))|].
  apply rtc_once, move_settle. split; [intros _|done].
  eexists (cmd_operation_id command), _. split; [apply lookup_insert_eq|done].
Qed.

(** ** The ends of tasks *)

Lemma moves_cancel_terminal token ops keys permits terminals terminals' u r :
  terminals ⊆ terminals' ∪ {[ token ]} -> terminals' ⊆ terminals ->
  Moves (Owes ops keys permits terminals u, r) (Owes ops keys permits terminals' u, cancel_token token r).
Proof. intros Ht Hs. by apply rtc_once, move_cancel. Qed.

Lemma moves_cleanup operation_id scope failure terminal ops keys keys' permits terminals terminals' u r :
  rn_entries r !! operation_id = None -> rn_reserved r = ∅ -> terminal ∈ terminals ->
  keys ⊆ keys' ∪ failure_keys failure -> terminals ⊆ terminals' ∪ {[ terminal ]} -> terminals' ⊆ terminals ->
  let r' := (start_registered_failure_cleanup operation_id scope failure terminal r).2 in
  (start_registered_failure_cleanup operation_id scope failure terminal r).1 = true /\
  Moves (Owes (operation_id :: ops) keys permits terminals u, r) (Owes ops keys' permits terminals' u, r') /\
  rn_reserved r' = ∅.
Proof.
  intros He Hr Ht Hk Hts Hts' r'. unfold r'. rewrite cleanup_started_done by done. cbn [fst snd].
  split_and!; [done| |cbn; rewrite Hr; set_solver].
  eapply rtc_l; [by apply (move_cleanup operation_id scope failure terminal ops keys permits terminals terminals')|].
  eapply rtc_l; [apply (move_more_keys _ _ keys'); set_solver|].
  apply rtc_once, move_reservations.
Qed.

(** A failed entry, once it is out of the registry: its operation stays registered with
    a cleanup, or is answered. *)
Lemma fail_entry_moves reports operation_id entry ops keys keys' permits terminals terminals' u r :
  rn_entries r !! operation_id = None -> rn_reserved r = ∅ -> en_terminal entry ∈ terminals ->
  (en_cleanup_started entry = true -> reports = true) ->
  keys ⊆ keys' ∪ failure_keys (en_failure entry) -> terminals ⊆ terminals' ∪ {[ en_terminal entry ]} ->
  terminals' ⊆ terminals ->
  let r' := fail_entry reports operation_id entry r in
  Moves (Owes (operation_id :: ops) keys permits terminals u, r) (Owes ops keys' permits terminals' u, r') /\
  rn_reserved r' = ∅.
Proof.
  intros He Hr Ht Hreports Hk Hts Hts' r'. unfold r', fail_entry. destruct (en_cleanup_started entry).
  - rewrite Hreports by done. split; [|done]. unfold emit_internal_failure.
    etrans; [apply (moves_emit (internal_failure_event operation_id (en_failure entry)) _ _ _ keys')|].
    + apply internal_failure_operation.
    + etrans; [exact Hk|]. apply union_mono_l, internal_failure_releases.
    + by apply moves_cancel_terminal.
  - destruct (moves_cleanup operation_id (rk_scope (en_task entry)) (en_failure entry) (en_terminal entry) ops keys keys'
      permits terminals terminals' u r) as (Hs & Hm & Hr'); try done.
    destruct (start_registered_failure_cleanup _ _ _ _ _) as [started r1]. cbn in Hs. by subst started.
Qed.

(** What failing an entry leaves of the registry. *)
Lemma fail_entry_effect reports operation_id entry r :
  rn_entries r !! operation_id = None -> rn_reserved r = ∅ ->
  let r' := fail_entry reports operation_id entry r in
  (forall other, other <> operation_id -> rn_entries r' !! other = rn_entries r !! other) /\
  (has_mutation r' <-> has_mutation r) /\ rn_mutation_active r' = rn_mutation_active r.
Proof.
  intros He Hr r'. unfold r', fail_entry. destruct (en_cleanup_started entry); [by destruct reports|].
  rewrite cleanup_started_done by done. cbn -[N.add]. split_and!; [|split|done].
  - intros other Hne. by rewrite lookup_insert_ne.
  - intros (op & e & H & Hc). cbn -[N.add] in H. apply lookup_insert_Some in H as [[_ <-]|[_ H]]; [done|by exists op, e].
  - intros (op & e & H & Hc). exists op, e. split; [|done]. cbn -[N.add]. rewrite lookup_insert_ne; [done|congruence].
Qed.

Definition mutation_ok (r : Runtime) : Prop :=
  (rn_mutation_active r = true <-> has_mutation r) /\
  forall op1 e1 op2 e2, mutation_entry r op1 e1 -> mutation_entry r op2 e2 -> op1 = op2.

(** Without the entry of an operation. *)
Lemma take_effect operation_id r :
  let '(taken, r') := take operation_id r in
  taken = rn_entries r !! operation_id /\ rn_entries r' !! operation_id = None /\
  (forall other, other <> operation_id -> rn_entries r' !! other = rn_entries r !! other) /\
  rn_reserved r' = rn_reserved r /\ rn_mutation_active r' = rn_mutation_active r.
Proof.
  cbn. split_and!; [done|apply lookup_delete_eq| |done..]. intros other Hne. by rewrite lookup_delete_ne.
Qed.

Lemma take_mutation operation_id entry r :
  mutation_ok r -> rn_entries r !! operation_id = Some entry ->
  (has_mutation (take operation_id r).2 <-> has_mutation r /\ en_class entry <> MutationTask).
Proof.
  intros [_ Hone] He. cbn. split.
  - intros (op & e & H & Hc). cbn in H. apply lookup_delete_Some in H as [Hne H]. split; [by exists op, e|].
    intros Hm. apply Hne. by apply (Hone operation_id entry op e).
  - intros [(op & e & H & Hc) Hm]. exists op, e. split; [|done]. cbn. apply lookup_delete_Some. split; [|done].
    intros ->. congruence.
Qed.

(** ** Messages *)

Lemma set_entries_same r : set_rn_entries r (rn_entries r) = r.
Proof. by destruct r. Qed.

Lemma set_active_same r : set_rn_mutation_active r (rn_mutation_active r) = r.
Proof. by destruct r. Qed.

(** An entry is taken, and the flag is cleared if it was the mutation. *)
Lemma moves_take_clear operation_id entry ops keys r :
  mutation_ok r -> rn_entries r !! operation_id = Some entry -> takes operation_id entry ->
  jn_held (entry_join entry) = [] ->
  Moves (idle ops keys, r)
    (Owes (operation_id :: ops) (keys ∪ failure_keys (en_failure entry)) [] {[ en_terminal entry ]} false,
     clear_mutation entry (take operation_id r).2).
Proof.
  intros Hok He Htakes Hheld. unfold clear_mutation, idle.
  assert (Htake : forall u, (en_class entry = MutationTask -> u = true) ->
    Moves (Owes ops keys [] ∅ u, r)
      (Owes (operation_id :: ops) (keys ∪ failure_keys (en_failure entry)) [] {[ en_terminal entry ]} u,
       (take operation_id r).2)).
  { intros u Hu. apply rtc_once.
    pose proof (move_take operation_id entry ops keys [] ∅ {[ en_terminal entry ]} u r He Htakes Hu ltac:(set_solver)) as Hm.
    by rewrite Hheld in Hm. }
  case_bool_decide as Hclass.
  - eapply rtc_l; [apply move_unsettle|]. etrans; [by apply Htake|]. apply rtc_once, move_settle.
    split; [done|]. intros Hhas. by apply (take_mutation operation_id entry r) in Hhas as [_ ?].
  - by apply Htake.
Qed.

Lemma cancel_targets_spec targets r :
  let '(waiters, r') := cancel_targets targets r in
  only_cancelled r r' /\ (forall token, token ∈ waiters -> terminal_registered r' token) /\
  forall ops keys permits terminals u,
    Moves (Owes ops keys permits terminals u, r) (Owes ops keys permits terminals u, r').
Proof.
  unfold cancel_targets.
  assert (H : forall targets waiters r1, only_cancelled r r1 ->
    (forall token, token ∈ waiters -> terminal_registered r1 token) ->
    (forall ops keys permits terminals u,
      Moves (Owes ops keys permits terminals u, r) (Owes ops keys permits terminals u, r1)) ->
    let '(waiters', r') :=
      foldl (fun '(waiters, r) '(profile_id, profile_generation) =>
        let '(terminals, r) := cancel_profile_network_waiters profile_id profile_generation r in
        (waiters ++ terminals, r)) (waiters, r1) targets in
    only_cancelled r r' /\ (forall token, token ∈ waiters' -> terminal_registered r' token) /\
    forall ops keys permits terminals u,
      Moves (Owes ops keys permits terminals u, r) (Owes ops keys permits terminals u, r')).
  { clear targets. intros targets. induction targets as [|[p g] targets IH]; intros waiters r1 Hsame Hw Hm; [done|].
    cbn [foldl]. pose proof (cancel_waiters_spec (network_of p g) r1) as Hspec.
    unfold cancel_profile_network_waiters. destruct (cancel_waiters _ r1) as [terminals r2].
    destruct Hspec as (Hsame2 & Hw2 & Hm2). apply IH.
    - destruct Hsame as (? & ? & ? & ? & ? & ?), Hsame2 as (? & ? & ? & ? & ? & ?). split_and!; try congruence. set_solver.
    - intros token [Ht|Ht]%elem_of_app; [|by apply Hw2].
      apply (terminal_registered_same r1); [apply Hsame2|by apply Hw].
    - intros. etrans; [apply Hm|apply Hm2]. }
  apply H; [by split_and!|by intros ? []%elem_of_nil|done].
Qed.

Lemma completion_waiters_spec output r :
  let '((waiters, had_active), r') := mutation_completion_waiters output r in
  only_cancelled r r' /\ (forall token, token ∈ waiters -> terminal_registered r' token) /\
  forall ops keys permits terminals u,
    Moves (Owes ops keys permits terminals u, r) (Owes ops keys permits terminals u, r').
Proof.
  unfold mutation_completion_waiters. destruct (sv_uncertain (rn_service r)).
  - pose proof (cancel_waiters_spec is_network r) as H. unfold cancel_all_network_waiters.
    by destruct (cancel_waiters is_network r).
  - pose proof (cancel_targets_spec (output_targets output) r) as H. by destruct (cancel_targets _ r).
Qed.

(** The second half of a mutation takes the place of the first. *)
Lemma moves_completion operation_id scope failure output ops keys keys' terminals r :
  rn_entries r !! operation_id = None -> rn_reserved r = ∅ -> ~ has_mutation r ->
  output_operation output = operation_id -> failure_keys failure = ∅ -> keys ⊆ keys' ->
  let '(registered, r') := start_registered_mutation_completion operation_id scope failure output r in
  registered = true /\
  Moves (Owes (operation_id :: ops) keys [] terminals true, r) (Owes ops keys' [] terminals true, r') /\
  rn_reserved r' = ∅ /\ has_mutation r' /\ rn_mutation_active r' = rn_mutation_active r.
Proof.
  intros He Hr Hnone Ho Hf Hk. unfold start_registered_mutation_completion. rewrite reserve_done by done.
  set (r1 := set_rn_reserved r _). pose proof (completion_waiters_spec output r1) as Hspec.
  destruct (mutation_completion_waiters output r1) as [[waiters had_active] r2].
  destruct Hspec as ((He2 & Hr2 & _ & _ & Ha2 & _) & Hw & Hm2).
  assert (He2' : rn_entries r2 !! operation_id = None) by (rewrite He2; exact He).
  assert (Hin : operation_id ∈ rn_reserved r2) by (rewrite Hr2; cbn; set_solver).
  rewrite start_registered_done by done. split_and!; [done| | | |].
  - eapply rtc_l; [apply (move_reservations ({[ operation_id ]} ∪ rn_reserved r))|]. etrans; [apply Hm2|].
    eapply rtc_l; [apply (move_start operation_id scope (BodyCompletion output had_active waiters) [] MutationTask
      failure ops keys [] []); try done|].
    + intros _. split; [done|]. intros (op & e & H & Hc). apply Hnone. exists op, e. split; [|done].
      rewrite He2 in H. exact H.
    + eapply rtc_l; [apply (move_more_keys _ _ keys'); set_solver|]. apply rtc_once, move_reservations.
  - cbn. rewrite Hr2. cbn. rewrite Hr. set_solver.
  - eexists operation_id, _. split; [apply lookup_insert_eq|done].
  - exact Ha2.
Qed.

(** What the handling of a message relies on. *)
Definition message_fits (keys : gset ControlKey) (r : Runtime) (message : ControllerMessage) : Prop :=
  match message with
  | SessionAcquired _ _ => True
  | Completed operation_id output =>
      output_operation output = operation_id /\
      forall entry, rn_entries r !! operation_id = Some entry ->
        takes operation_id entry /\ jn_held (entry_join entry) = [] /\
        (en_class entry = MutationTask -> failure_keys (en_failure entry) = ∅) /\
        (forall had_active s,
           failure_keys (en_failure entry) ⊆ keys ∪ released_by (finish_task_output output had_active s).1)
  end.

Lemma message_handled message ops keys r :
  rn_reserved r = ∅ -> mutation_ok r -> message_fits keys r message ->
  handles (idle ops keys) r (idle ops keys) (handle_controller_message message r).
Proof.
  intros Hr Hok Hfits. destruct message as [operation_id session|operation_id output]; cbn [handle_controller_message].
  { split; [apply rtc_once, move_session|exact Hr]. }
  destruct Hfits as [Ho Hfits]. pose proof (take_effect operation_id r) as Heffect.
  pose proof (moves_take_clear operation_id) as Hclear.
  unfold take in *. cbn [fst snd] in *. destruct Heffect as (_ & Hnone & _ & Hr1 & Ha1).
  destruct (rn_entries r !! operation_id) as [entry|] eqn:He.
  2: { rewrite delete_id by done. rewrite set_entries_same. by split. }
  specialize (Hclear entry ops keys r Hok He). destruct (Hfits entry eq_refl) as (Htakes & Hheld & Hplain & Hreleased).
  specialize (Hclear Htakes Hheld). set (r1 := set_rn_entries r _) in *.
  assert (Hr1' : rn_reserved r1 = ∅) by (by rewrite Hr1).
  assert (Hcleared : rn_reserved (clear_mutation entry r1) = ∅ /\
    rn_entries (clear_mutation entry r1) !! operation_id = None).
  { unfold clear_mutation. by case_bool_decide. }
  destruct Hcleared as [Hrc Hec]. destruct (panicked entry).
  { eapply handles_after; [exact Hclear|].
    refine (fail_entry_moves true operation_id entry ops _ keys [] _ ∅ false _ Hec Hrc _ _ _ _ _);
      [set_solver|done|set_solver..]. }
  destruct (bool_decide (en_class entry = MutationTask) && negb (is_event_output output)) eqn:Hcompletes.
  - apply andb_true_iff in Hcompletes as [Hclass _]. apply bool_decide_eq_true in Hclass.
    assert (Hnm : ~ has_mutation r1).
    { intros H. by apply (take_mutation operation_id entry r) in H as [_ ?]. }
    assert (Hactive : rn_mutation_active r1 = true).
    { rewrite Ha1. apply Hok. by exists operation_id, entry. }
    pose proof (moves_completion operation_id (rk_scope (en_task entry)) (en_failure entry) output ops
      (keys ∪ failure_keys (en_failure entry)) keys {[ en_terminal entry ]} r1 Hnone Hr1' Hnm Ho (Hplain Hclass)) as Hm.
    rewrite (Hplain Hclass) in Hm. specialize (Hm ltac:(set_solver)).
    destruct (start_registered_mutation_completion _ _ _ _ _) as [registered r2].
    destruct Hm as (-> & Hm & Hr2 & Hhas & Ha2). split; [|exact Hr2].
    eapply rtc_l; [apply move_unsettle|].
    eapply rtc_l; [by apply (move_take operation_id entry ops keys [] ∅ {[ en_terminal entry ]}); [..|set_solver]|].
    rewrite Hheld, (Hplain Hclass).
    etrans; [exact Hm|]. etrans; [apply (moves_cancel_terminal (en_terminal entry) _ _ _ _ ∅); set_solver|].
    set (r3 := cancel_token _ r2). rewrite <- (set_active_same r3) at 2. apply rtc_once, move_settle.
    cbn. rewrite Ha2, Hactive. split; [intros _; exact Hhas|done].
  - eapply handles_after; [exact Hclear|]. cbv zeta.
    pose proof (finish_output_operation output false (rn_service (clear_mutation entry r1))) as Hop.
    specialize (Hreleased false (rn_service (clear_mutation entry r1))).
    destruct (finish_task_output output false _) as [event service]. cbn in Hop, Hreleased.
    split; [|exact Hrc]. eapply rtc_l; [apply (move_service service)|].
    etrans; [apply (moves_emit event _ _ _ keys); [congruence|set_solver]|].
    apply (moves_cancel_terminal (en_terminal entry)); set_solver.
Qed.

(** ** Reaping and aborting *)

Definition taken_keys (taken : list (OperationId * RegistryEntry)) : gset ControlKey :=
  ⋃ ((fun entry => failure_keys (en_failure entry.2)) <$> taken).
Definition taken_held (taken : list (OperationId * RegistryEntry)) : list Address :=
  mjoin ((fun entry => jn_held (entry_join entry.2)) <$> taken).
Definition taken_terminals (taken : list (OperationId * RegistryEntry)) : gset N :=
  list_to_set ((fun entry => en_terminal entry.2) <$> taken).

(** The entries that were taken are gone, and are different. *)
Definition taken_from (taken : list (OperationId * RegistryEntry)) (r r' : Runtime) : Prop :=
  NoDup taken.*1 /\ rn_reserved r' = rn_reserved r /\ rn_mutation_active r' = rn_mutation_active r /\
  (forall operation_id, operation_id ∉ taken.*1 -> rn_entries r' !! operation_id = rn_entries r !! operation_id) /\
  forall operation_id entry, (operation_id, entry) ∈ taken ->
    rn_entries r !! operation_id = Some entry /\ rn_entries r' !! operation_id = None.

Lemma take_all_moves operation_ids ops keys u r :
  (forall operation_id entry, operation_id ∈ operation_ids -> rn_entries r !! operation_id = Some entry ->
     takes operation_id entry) ->
  (u = false -> forall operation_id entry, operation_id ∈ operation_ids ->
     rn_entries r !! operation_id = Some entry -> en_class entry <> MutationTask) ->
  let '(taken, r') := take_all operation_ids r in
  taken_from taken r r' /\
  (forall operation_id, operation_id ∈ taken.*1 -> operation_id ∈ operation_ids) /\
  Moves (Owes ops keys [] ∅ u, r)
    (Owes (taken.*1 ++ ops) (taken_keys taken ∪ keys) (taken_held taken) (taken_terminals taken) u, r').
Proof.
  induction operation_ids as [|operation_id operation_ids IH]; intros Htakes Hclass.
  { cbn. split_and!; [split_and!; [apply NoDup_nil_2|done|done|done|by intros ? ? ?%elem_of_nil]| |].
    - by intros ? []%elem_of_nil.
    - apply rtc_once, move_more_keys. set_solver. }
  cbn [take_all foldr]. destruct (take_all operation_ids r) as [taken r1] eqn:Htaken.
  unfold take_all in Htaken. rewrite Htaken.
  destruct IH as ((Hnd & Hres & Ha & Hother & Hin) & Hids & Hm); 
    [intros; apply Htakes; [set_solver|done]|intros; eapply Hclass; [done| |done]; set_solver|].
  unfold take. destruct (rn_entries r1 !! operation_id) as [entry|] eqn:He.
  2: { split_and!; [|intros op Hop; apply elem_of_cons; right; by apply Hids|].
       - rewrite delete_id, set_entries_same by done. by split_and!.
       - by rewrite delete_id, set_entries_same by done. }
  assert (Hnotin : operation_id ∉ taken.*1).
  { intros ([? e] & -> & Hop)%list_elem_of_fmap. apply Hin in Hop as [_ Hop]. cbn in He. congruence. }
  split_and!.
  - split_and!; cbn; [by constructor|done|done| |].
    + intros op Hop. rewrite lookup_delete_ne by set_solver. apply Hother. set_solver.
    + intros op e [[= -> ->]|Hop]%elem_of_cons.
      * rewrite lookup_delete_eq. rewrite <- (Hother operation_id Hnotin). done.
      * destruct (Hin op e Hop) as [H1 H2]. split; [done|]. by apply lookup_delete_None; right.
  - cbn. intros op [->|Hop]%elem_of_cons; apply elem_of_cons; [by left|right; by apply Hids].
  - etrans; [exact Hm|].
    eapply rtc_l; [apply (move_take operation_id entry _ _ _ _ (taken_terminals ((operation_id, entry) :: taken)));
      [done| | |cbn; set_solver]|].
    + apply Htakes; [set_solver|]. by rewrite <- (Hother operation_id Hnotin).
    + intros Hmut. destruct u; [done|]. exfalso. apply (Hclass eq_refl operation_id entry); [set_solver| |done].
      by rewrite <- (Hother operation_id Hnotin).
    + apply rtc_once, move_more_keys. cbn. set_solver.
Qed.

Lemma moves_drop_permits held ops keys permits terminals u r :
  Moves (Owes ops keys (held ++ permits) terminals u, r) (Owes ops keys permits terminals u, drop_permits held r).
Proof.
  revert r. induction held as [|a held IH]; intros r; [done|]. cbn.
  eapply rtc_l; [by apply (move_drop a _ _ _ (held ++ permits))|]. apply IH.
Qed.

Lemma drop_permits_same held r :
  let r' := drop_permits held r in
  rn_entries r' = rn_entries r /\ rn_reserved r' = rn_reserved r /\ rn_mutation_active r' = rn_mutation_active r /\
  rn_cancelled r' = rn_cancelled r /\ rn_profile_permits r' = rn_profile_permits r /\
  rn_draft_permits r' = rn_draft_permits r /\ rn_next r' = rn_next r /\ rn_messages r' = rn_messages r /\
  rn_port r' = rn_port r /\ rn_started r' = rn_started r /\ rn_offered r' = rn_offered r.
Proof.
  cbn. revert r. induction held as [|a held IH]; intros r; [by split_and!|]. cbn.
  destruct (IH (drop_permit a r)) as (? & ? & ? & ? & ? & ? & ? & ? & ? & ? & ?). by split_and!.
Qed.

(** What is done with an entry before it fails. *)
Definition prepares (pre : RegistryEntry -> Runtime -> Runtime) (u : bool) (entry : RegistryEntry) : Prop :=
  forall ops keys permits terminals r,
    Moves (Owes ops keys (jn_held (entry_join entry) ++ permits) terminals u, r)
      (Owes ops keys permits terminals u, pre entry r) /\
    rn_entries (pre entry r) = rn_entries r /\ rn_reserved (pre entry r) = rn_reserved r.

Lemma has_mutation_entries r r' : rn_entries r' = rn_entries r -> (has_mutation r' <-> has_mutation r).
Proof. unfold has_mutation, mutation_entry. by intros ->. Qed.

Definition fail_all (reports : RegistryEntry -> bool) (pre : RegistryEntry -> Runtime -> Runtime)
    (taken : list (OperationId * RegistryEntry)) (r : Runtime) : Runtime :=
  foldl (fun r entry => fail_entry (reports entry.2) entry.1 entry.2 (pre entry.2 r)) r taken.

Lemma fail_all_moves reports pre taken ops keys u r :
  NoDup taken.*1 -> rn_reserved r = ∅ ->
  (forall operation_id entry, (operation_id, entry) ∈ taken ->
     rn_entries r !! operation_id = None /\ prepares pre u entry /\
     (en_cleanup_started entry = true -> reports entry = true)) ->
  let r' := fail_all reports pre taken r in
  Moves (Owes (taken.*1 ++ ops) (taken_keys taken ∪ keys) (taken_held taken) (taken_terminals taken) u, r)
    (Owes ops keys [] ∅ u, r') /\
  rn_reserved r' = ∅ /\ (has_mutation r' <-> has_mutation r).
Proof.
  revert r. induction taken as [|[operation_id entry] taken IH]; intros r Hnd Hr Htaken; cbn.
  { split_and!; [|done|done]. apply rtc_once, move_more_keys. set_solver. }
  apply NoDup_cons in Hnd as [Hnotin Hnd].
  destruct (Htaken operation_id entry) as (Hnone & Hpre & Hreports); [by left|].
  destruct (Hpre (operation_id :: taken.*1 ++ ops) (taken_keys ((operation_id, entry) :: taken) ∪ keys)
    (taken_held taken) (taken_terminals ((operation_id, entry) :: taken)) r) as (Hm & He1 & Hr1).
  set (r1 := pre entry r) in *.
  assert (Hnone1 : rn_entries r1 !! operation_id = None) by (by rewrite He1).
  assert (Hres1 : rn_reserved r1 = ∅) by (by rewrite Hr1).
  destruct (fail_entry_effect (reports entry) operation_id entry r1 Hnone1 Hres1) as (Hother & Hmut & _).
  destruct (fail_entry_moves (reports entry) operation_id entry (taken.*1 ++ ops)
    (taken_keys ((operation_id, entry) :: taken) ∪ keys) (taken_keys taken ∪ keys) (taken_held taken)
    (taken_terminals ((operation_id, entry) :: taken)) (taken_terminals taken) u r1 Hnone1 Hres1)
    as [Hm2 Hres2]; [cbn; set_solver|done|cbn; set_solver..|].
  destruct (IH (fail_entry (reports entry) operation_id entry r1) Hnd Hres2) as (Hm3 & Hres3 & Hmut3).
  { intros op e Hin. destruct (Htaken op e) as (Hn & Hp & Hrep); [by right|]. split_and!; [|done|done].
    rewrite Hother, He1; [done|]. intros ->. apply Hnotin. apply list_elem_of_fmap. by exists (operation_id, e). }
  split_and!; [|exact Hres3|].
  - etrans; [exact Hm|]. etrans; [exact Hm2|exact Hm3].
  - rewrite Hmut3, Hmut. by apply has_mutation_entries.
Qed.

Lemma fail_entry_active reports operation_id entry r :
  rn_mutation_active (fail_entry reports operation_id entry r) = rn_mutation_active r.
Proof.
  unfold fail_entry, start_registered_failure_cleanup, commit_reservation_with_state, insert_with_state.
  destruct (en_cleanup_started entry); [by destruct reports|].
  destruct (reserve operation_id r) as [r1|] eqn:Hres; [|by destruct reports].
  apply reserve_Some in Hres as [-> He]. cbn.
  destruct (negb _ || negb _); [by destruct reports|]. cbn. rewrite He. done.
Qed.

Lemma fail_all_active reports taken r :
  rn_mutation_active (fail_all reports clear_mutation taken r) = true <->
  rn_mutation_active r = true /\
  forall operation_id entry, (operation_id, entry) ∈ taken -> en_class entry <> MutationTask.
Proof.
  unfold fail_all. revert r. induction taken as [|[operation_id entry] taken IH]; intros r; cbn.
  { split; [intros H; split; [done|by intros ? ? ?%elem_of_nil]|by intros []]. }
  rewrite IH, fail_entry_active. unfold clear_mutation. case_bool_decide as Hc; cbn; (split; intros [Ha Hall]).
  - done.
  - by destruct (Hall operation_id entry); [left|].
  - split; [done|]. intros op e [[= -> ->]|Hin]%elem_of_cons; [done|by apply (Hall op)].
  - split; [done|]. intros op e Hin. apply (Hall op). by right.
Qed.

(** The mutation survives unless it was taken. *)
Lemma taken_mutation taken r r' :
  mutation_ok r -> taken_from taken r r' ->
  (has_mutation r' <-> has_mutation r /\
     forall operation_id entry, (operation_id, entry) ∈ taken -> en_class entry <> MutationTask).
Proof.
  intros [_ Hone] (_ & _ & _ & Hother & Hin).
  assert (Hback : forall op e, rn_entries r' !! op = Some e -> op ∉ taken.*1 /\ rn_entries r !! op = Some e).
  { intros op e H. assert (op ∉ taken.*1) as Hop.
    { intros ([? e'] & -> & Ht)%list_elem_of_fmap. apply Hin in Ht as [_ Ht]. cbn in H. congruence. }
    split; [done|]. by rewrite <- (Hother op Hop). }
  split.
  - intros (op & e & H & Hc). destruct (Hback op e H) as [Hop Hr]. split; [by exists op, e|].
    intros op' e' Ht Hc'. apply Hop. apply list_elem_of_fmap. exists (op', e'). split; [|done].
    apply (Hone op e op' e'); split; try done. by apply Hin.
  - intros [(op & e & H & Hc) Hall]. exists op, e. split; [|done]. rewrite Hother; [done|].
    intros ([? e'] & -> & Ht)%list_elem_of_fmap. cbn in H. apply (Hall _ _ Ht). apply Hin in Ht as [Ht _]. congruence.
Qed.

(** Ends of the loops over the registry: nothing is owed but what was before. *)
Lemma reap_handled operation_ids ops keys r :
  rn_reserved r = ∅ -> mutation_ok r ->
  (forall operation_id entry, operation_id ∈ operation_ids -> rn_entries r !! operation_id = Some entry ->
     takes operation_id entry /\ jn_held (entry_join entry) = []) ->
  handles (idle ops keys) r (idle ops keys) (reap_panicked_tasks operation_ids r).
Proof.
  intros Hr Hok Hheld. unfold reap_panicked_tasks.
  pose proof (take_all_moves operation_ids ops keys true r
    (fun operation_id entry Hop He => proj1 (Hheld operation_id entry Hop He)) ltac:(done)) as Htake.
  destruct (take_all operation_ids r) as [taken r1]. destruct Htake as (Htaken & Hids & Hm).
  pose proof (taken_mutation taken r r1 Hok Htaken) as Hmut1. destruct Htaken as (Hnd & Hr1 & Ha & Hother & Hin).
  set (reports := fun entry => panicked entry || en_cleanup_started entry).
  assert (Hloop : foldl (fun r reaped => reap_one reaped r) r1 taken = fail_all reports clear_mutation taken r1).
  { clear. revert r1. induction taken as [|[operation_id entry] taken IH]; intros r1; [done|]. cbn. apply IH. }
  rewrite Hloop. destruct (fail_all_moves reports clear_mutation taken ops keys true r1) as (Hm2 & Hres & Hmut); try done.
  { by rewrite Hr1. }
  { intros operation_id entry Htaken. destruct (Hin _ _ Htaken) as [He Hn]. split_and!; [done| |].
    - intros ops' keys' permits terminals r2.
      rewrite (proj2 (Hheld operation_id entry ltac:(apply Hids, list_elem_of_fmap; by exists (operation_id, entry)) He)).
      unfold clear_mutation. case_bool_decide; [|done]. split_and!; [|done..]. apply rtc_once, move_active.
    - intros Hc. unfold reports. rewrite Hc. apply orb_true_r. }
  split; [|exact Hres]. eapply rtc_l; [apply move_unsettle|]. etrans; [exact Hm|]. etrans; [exact Hm2|].
  pose proof (fail_all_active reports taken r1) as Hactive.
  set (r2 := fail_all _ _ _ r1) in *. rewrite <- (set_active_same r2) at 2. apply rtc_once, move_settle.
  rewrite Hactive, Hmut, Hmut1, Ha. destruct Hok as [Hok _]. by rewrite Hok.
Qed.

Lemma abort_handled operation_ids ops keys r :
  rn_reserved r = ∅ ->
  (forall operation_id entry, operation_id ∈ operation_ids -> rn_entries r !! operation_id = Some entry ->
     takes operation_id entry /\ en_class entry = AsyncNetwork) ->
  handles (idle ops keys) r (idle ops keys) (abort_bounded_work operation_ids r).
Proof.
  intros Hr Hclass. unfold abort_bounded_work.
  pose proof (take_all_moves operation_ids ops keys false r) as Htake.
  destruct (take_all operation_ids r) as [taken r1].
  destruct Htake as ((Hnd & Hr1 & Ha & Hother & Hin) & Hids & Hm).
  { intros op e Hop He. by apply Hclass. }
  { intros _ op e Hop He Hc. destruct (Hclass op e Hop He). congruence. }
  set (pre := fun entry => drop_permits (jn_held (entry_join entry))).
  assert (Hloop : foldl (fun r expired => expire_one expired r) r1 taken = fail_all (fun _ => true) pre taken r1).
  { clear. revert r1. induction taken as [|[operation_id entry] taken IH]; intros r1; [done|]. cbn. apply IH. }
  rewrite Hloop. destruct (fail_all_moves (fun _ => true) pre taken ops keys false r1) as (Hm2 & Hres & _); try done.
  { by rewrite Hr1. }
  { intros operation_id entry Htaken. destruct (Hin _ _ Htaken) as [He Hn]. split_and!; [done| |done].
    intros ops' keys' permits terminals r2. destruct (drop_permits_same (jn_held (entry_join entry)) r2) as (He2 & Hr2 & _).
    split_and!; [apply moves_drop_permits|exact He2|exact Hr2]. }
  split; [|exact Hres]. etrans; [exact Hm|exact Hm2].
Qed.
End moves.
