(* ===== verification/RuntimeReplies.v ===== *)
(** * Every task answers for its own operation

    The event a task ends with carries the operation it was registered under, and the
    event of a control releases the key of that control. *)

From S2P Require Import Prelude RustStr Model Execution Retention Secrets Profile Config ConfigWriter Drivers Service.
From S2P Require Import ServiceLogic ServiceWriter ServiceEffects PublicError RedisBrowser UiModel RuntimeEvents DraftTests Tokio CommandPorts Export Editor.
From S2P Require Import MysqlCatalog RuntimeTasks Runtime RuntimeSystem RuntimeMoves.

(** ** Work on a profile *)

(** The event of a task, if it has one, is of the operation. *)
Definition ends_with (operation_id : OperationId) (te : TaskEnd) : Prop :=
  forall event, te_event te = Some event -> event_operation_id event = operation_id.

Lemma ends_without_session operation_id event s :
  event_operation_id event = operation_id -> ends_with operation_id (without_session event s).
Proof. by intros H ? [= <-]. Qed.

Lemma ends_with_lease {Reply} (run : TaskRun Reply) operation_id lease finish s (good : Reply -> Prop) :
  (forall r, tr_reply run = RaceDone (Some (Ok r)) -> good r) ->
  (forall reply observation s, (forall r, reply = RaceDone (Ok r) -> good r) ->
     event_operation_id (finish reply observation s).1.1 = operation_id) ->
  ends_with operation_id (with_lease run operation_id lease finish s).
Proof.
  intros Hgood Hfinish event. unfold with_lease. destruct (observe_session _ _ _) as [observation s'].
  destruct (tr_reply run) as [| |[[reply|e]|]] eqn:Hr; [..|done].
  1: pose proof (Hfinish RaceCancelled observation s' ltac:(done)) as H.
  2: pose proof (Hfinish RaceTimedOut observation s' ltac:(done)) as H.
  3: pose proof (Hfinish (RaceDone (Ok reply)) observation s' ltac:(intros r [= ->]; by apply Hgood)) as H.
  4: pose proof (Hfinish (RaceDone (Err e)) observation s' ltac:(done)) as H.
  all: destruct (finish _ observation s') as [[e' evict] s2]; by intros [= <-].
Qed.

(** A failure context never changes the operation. *)
Lemma failed_event_operation operation_id p g session kind summary :
  event_operation_id (failed_profile_event operation_id p g session kind summary) = operation_id.
Proof. done. Qed.

Ltac ends_at_lease good :=
  lazymatch goal with
  | |- ends_with _ (match ?raced with _ => _ end) =>
      destruct raced as [[| |[?lease|?error]] ?s']; try (by apply ends_without_session);
      apply (ends_with_lease _ _ _ _ _ good)
  end.

Section work.
Context (env : Env) (connect : ConnectionProfile -> option SessionSecret -> result DriverError SessionHandle).
Context (shell_split : str -> option (list str)) (f64_to_string : f64 -> str) (json_to_string : json -> str).
Context `{TokenCrates}.

Lemma run_connect_ends (run : TaskRun unit) operation_id p g kind s :
  ends_with operation_id (run_connect env connect run operation_id p g kind s).
Proof.
  unfold run_connect. cbv zeta. ends_at_lease (fun _ : unit => True); [done|].
  intros reply observation s2 _. by destruct reply as [| |[[]|e]], observation.
Qed.

Lemma run_redis_ends {Reply} (run : TaskRun Reply) request identity kind prepare succeeded s (good : Reply -> Prop) :
  identity = match request with RrScan request => rs_identity request | RrInspect request => rk_identity request end ->
  (forall r session disposition, good r -> event_operation_id (succeeded r session disposition) = ri_operation_id identity) ->
  (forall r, tr_reply run = RaceDone (Some (Ok r)) -> good r) ->
  ends_with (ri_operation_id identity) (run_redis env connect run request identity kind prepare succeeded s).
Proof.
  intros Hid Hsucceeded Hgood.
  assert (Hfailed : forall error session disposition outcome,
    event_operation_id (failed_redis_resource_event request error session disposition outcome) = ri_operation_id identity)
    by (intros; rewrite Hid; by destruct request).
  unfold run_redis. cbv zeta. destruct (mbind _ _); [|by apply ends_without_session].
  ends_at_lease good; [done|]. intros reply observation s2 Hreply.
  destruct reply as [| |[r|e]], observation; cbn; try apply Hfailed. by apply Hsucceeded, Hreply.
Qed.

Lemma run_profile_work_ends work (run : TaskRun (work_reply work)) s :
  (forall reply, tr_reply run = RaceDone (Some (Ok reply)) -> reply_ok work reply) ->
  ends_with (ri_operation_id (work_identity work).1)
    (run_profile_work env connect shell_split f64_to_string json_to_string work run s).
Proof.
  destruct work as [o p g timeout kind|request kind|request|request|request]; intros Hreply; cbn [run_profile_work work_reply] in *.
  - apply run_connect_ends.
  - cbn [work_reply] in run. unfold run_execute. cbv zeta. destruct (tr_prepare run); [by apply ends_without_session|by apply ends_without_session|].
    destruct (prepare_execute_request _ _ _) as [[typed|e]|]; [|by apply ends_without_session|done].
    ends_at_lease (fun _ : QueryResult => True); [done|]. intros reply observation s2 _.
    by destruct reply as [| |[result|e]], observation.
  - unfold run_catalog_browse. cbv zeta. destruct (mbind _ _); [|by apply ends_without_session].
    ends_at_lease (fun page => cp_identity page = cr_identity request); [done|]. intros reply observation s2 Hgood.
    destruct reply as [| |[page|e]], observation; try done. cbn. by rewrite (Hgood page).
  - apply (run_redis_ends run (RrScan request) _ _ _ _ _ (fun page => kp_identity page = rs_identity request)); [done| |done].
    intros page session disposition Hpage. cbn. by rewrite Hpage.
  - apply (run_redis_ends run (RrInspect request) _ _ _ _ _ (fun preview => vp_identity preview = rk_identity request));
      [done| |done].
    intros preview session disposition Hpreview. cbn. by rewrite Hpreview.
Qed.
End work.

(** ** Drafts and exports *)

Lemma run_draft_work_ends env connect run request s event s' :
  run_draft_work env connect run request s = (Some event, s') -> event_operation_id event = td_operation_id request.
Proof.
  unfold run_draft_work. destruct (dr_acquire run); [by intros [= <- _]|by intros [= <- _]|].
  pose proof (acquire_draft_reads env connect request) as Hreads.
  destruct (acquire_draft_session env connect request _) as [[lease|e] s1] eqn:Hacquire; [|by intros [= <- _]].
  assert (Ho : dl_operation_id lease = td_operation_id request).
  { clear Hreads. unfold acquire_draft_session in Hacquire. sv_inv. done. }
  destruct (draft_attempt_error run) as [[[summary code]|]|]; cbn; [by intros [= <- _]| |done].
  destruct (sv_uncertain _); by intros [= <- _].
Qed.

Lemma run_draft_intent_ends env connect run intent s event s' :
  run_draft_intent env connect run intent s = (Some event, s') -> event_operation_id event = di_operation_id intent.
Proof.
  unfold run_draft_intent.
  destruct (prepare_draft_test_intent env intent s) as [[request|[[d o] e]] s1] eqn:Hprepare.
  - apply prepare_Ok in Hprepare as (_ & Ho & _). intros H%run_draft_work_ends. congruence.
  - apply prepare_Err in Hprepare as [_ ->]. by intros [= <- _].
Qed.

Lemma export_event_operation request outcome :
  event_operation_id (export_event request outcome) = er_operation_id request.
Proof. by destruct outcome as [[outcome|[]]|]. Qed.

(** ** Controls *)

Lemma run_control_ends env connect work waited run s :
  ends_with (ri_operation_id (control_identity work).1.1) (run_profile_control env connect work waited run s).
Proof.
  destruct work as [o p g session|o p g session timeout];
    unfold run_profile_control, run_disconnect, is_err; cbv zeta; cbn [control_identity fst ri_operation_id].
  - destruct waited as [u|summary]; cbn [is_ok negb]; [|by apply ends_without_session].
    destruct (ensure_generation p g o (tr_others run 0 s)) as [[u'|e] s1]; by apply ends_without_session.
  - unfold run_reconnect. destruct waited; [apply run_connect_ends|by apply ends_without_session].
Qed.

(** The keys that a task's event releases. *)
Definition releases (keys : gset ControlKey) (te : TaskEnd) : Prop :=
  forall event, te_event te = Some event -> keys ⊆ released_by event.

Lemma releases_with_lease {Reply} (run : TaskRun Reply) operation_id lease finish s keys :
  (forall reply observation s, keys ⊆ released_by (finish reply observation s).1.1) ->
  releases keys (with_lease run operation_id lease finish s).
Proof.
  intros Hfinish event. unfold with_lease. destruct (observe_session _ _ _) as [observation s'].
  destruct (tr_reply run) as [| |[reply|]]; [..|done].
  1: pose proof (Hfinish RaceCancelled observation s') as H.
  2: pose proof (Hfinish RaceTimedOut observation s') as H.
  3: pose proof (Hfinish (RaceDone reply) observation s') as H.
  all: destruct (finish _ observation s') as [[e' evict] s2]; by intros [= <-].
Qed.

Lemma run_control_releases env connect work waited run s :
  releases (failure_keys (FcProfile (ri_profile_id (control_identity work).1.1)
              (ri_profile_generation (control_identity work).1.1) (control_identity work).2))
    (run_profile_control env connect work waited run s).
Proof.
  destruct work as [o p g session|o p g session timeout];
    unfold run_profile_control, run_disconnect, is_err; cbv zeta;
    cbn [control_identity fst snd ri_profile_id ri_profile_generation failure_keys].
  - intros event. destruct waited as [u|summary]; cbn [is_ok negb]; [|intros [= <-]; cbn; set_solver].
    destruct (ensure_generation p g o (tr_others run 0 s)) as [[u'|e] s1]; intros [= <-]; cbn; set_solver.
  - unfold run_reconnect. destruct waited; [|intros event [= <-]; cbn; set_solver].
    unfold run_connect. cbv zeta.
    destruct (acquire _ _ _ _ _) as [[| |[lease|error]] s1]; try (intros event [= <-]; cbn; set_solver).
    apply releases_with_lease. intros reply observation s2.
    destruct reply as [| |[[]|e]], observation; cbn; set_solver.
Qed.

(** ** Every task *)

Lemma task_ends_operation operation_id cancelled s j output s' :
  body_answers operation_id (jn_body j) -> task_ends operation_id cancelled s j output s' ->
  output_operation output = operation_id.
Proof.
  intros Ha Hends. destruct Hends as [request confirmation outcome Hb _|input env connect run event s' Hb _ _ Hrun
    |work env connect shell_split f64 json crates run event Hb _ Hreply te Hevent _
    |work targets plan waited env connect run event Hb _ _ te Hevent _
    |command env config_path output s' Hb Hrun|scope failure Hb|output had_active waiters event s' Hb Hfinish];
    rewrite Hb in Ha; cbn [body_answers output_operation] in *.
  - by rewrite export_event_operation.
  - destruct input; [apply run_draft_work_ends in Hrun|apply run_draft_intent_ends in Hrun]; by rewrite Hrun.
  - rewrite (run_profile_work_ends _ _ _ _ _ work run s Hreply event Hevent). done.
  - rewrite (run_control_ends env connect work waited run s event Hevent). done.
  - destruct Ha as [<- Hlane]. destruct command; try done; cbn [run_mutation cmd_operation_id] in *;
      revert Hrun; case_match; try case_match; by intros [= <- _].
  - apply internal_failure_operation.
  - pose proof (finish_output_operation output had_active s) as H. rewrite Hfinish in H. cbn in H. congruence.
Qed.

Lemma task_ends_releases class failure operation_id cancelled s j output s' :
  body_fits class failure (jn_body j) -> task_ends operation_id cancelled s j output s' ->
  match output with OutEvent event => failure_keys failure ⊆ released_by event | _ => failure_keys failure = ∅ end.
Proof.
  intros Hf Hends. destruct Hends as [request confirmation outcome Hb _|input env connect run event s' Hb _ _ Hrun
    |work env connect shell_split f64 json crates run event Hb _ Hreply te Hevent _
    |work targets plan waited env connect run event Hb _ _ te Hevent _
    |command env config_path output s' Hb Hrun|scope failure' Hb|output had_active waiters event s' Hb Hfinish];
    rewrite Hb in Hf; cbn [body_fits] in Hf; destruct Hf as [_ Hk].
  - rewrite Hk. set_solver.
  - rewrite Hk. set_solver.
  - rewrite Hk. set_solver.
  - rewrite Hk. exact (run_control_releases env connect work waited run s event Hevent).
  - rewrite Hk. destruct output; [set_solver|done..].
  - rewrite Hk. apply internal_failure_releases.
  - rewrite Hk. set_solver.
Qed.
