(* ===== verification/RuntimeSafety.v ===== *)
(** * What the runtime guarantees

    The invariants of the controller, proved move by move and step by step: every
    command is answered once, permits are never lost, a single mutation runs, and no
    task waits for a later one. *)

From S2P Require Import Prelude RustStr Model Execution Retention Secrets Profile Config ConfigWriter Drivers Service.
From S2P Require Import PublicError RedisBrowser UiModel RuntimeEvents DraftTests Tokio CommandPorts Export Editor.
From S2P Require Import MysqlCatalog RuntimeTasks Runtime RuntimeSystem RuntimeMoves RuntimeReplies.

Definition owed_ops (o : Owed) : list OperationId := let 'Owes ops _ _ _ _ := o in ops.
Definition owed_keys (o : Owed) : gset ControlKey := let 'Owes _ keys _ _ _ := o in keys.
Definition owed_permits (o : Owed) : list Address := let 'Owes _ _ permits _ _ := o in permits.
Definition owed_terminals (o : Owed) : gset N := let 'Owes _ _ _ terminals _ := o in terminals.
Definition owed_unsettled (o : Owed) : bool := let 'Owes _ _ _ _ u := o in u.

Section safety.
Context `{T : Tokio} {laws : TokioLaws T}.

(** ** The registry as lists *)

Definition registered (r : Runtime) : list OperationId := (entry_list r).*1.
Definition answered (r : Runtime) : list OperationId := event_operation_id <$> rn_offered r.
Definition held_list (r : Runtime) : list Address := mjoin ((fun entry => jn_held (entry_join entry.2)) <$> entry_list r).

Lemma entry_list_insert operation_id entry (m : gmap N RegistryEntry) :
  m !! operation_id = None -> map_to_list (<[operation_id := entry]> m) ≡ₚ (operation_id, entry) :: map_to_list m.
Proof. apply map_to_list_insert. Qed.

Lemma entry_list_take operation_id entry (m : gmap N RegistryEntry) :
  m !! operation_id = Some entry -> map_to_list m ≡ₚ (operation_id, entry) :: map_to_list (delete operation_id m).
Proof. intros H. symmetry. by apply map_to_list_delete. Qed.

Lemma mjoin_fmap_Permutation {A B} (f : A -> list B) l1 l2 : l1 ≡ₚ l2 -> mjoin (f <$> l1) ≡ₚ mjoin (f <$> l2).
Proof.
  induction 1 as [|x l1 l2 _ IH|x y l|l1 l2 l3 _ IH1 _ IH2]; cbn; [done|by rewrite IH| |by etrans].
  rewrite !(assoc_L (++)). apply Permutation_app_tail, Permutation_app_comm.
Qed.

(** The lists when an entry is added, taken, or replaced. *)
Lemma lists_added operation_id entry r :
  rn_entries r !! operation_id = None ->
  registered (set_entry operation_id entry r) ≡ₚ operation_id :: registered r /\
  held_list (set_entry operation_id entry r) ≡ₚ jn_held (entry_join entry) ++ held_list r.
Proof.
  intros H. pose proof (entry_list_insert operation_id entry _ H) as Hp. split.
  - unfold registered, entry_list. cbn. by rewrite Hp.
  - unfold held_list, entry_list. cbn. by rewrite (mjoin_fmap_Permutation _ _ _ Hp).
Qed.

Lemma lists_taken operation_id entry r :
  rn_entries r !! operation_id = Some entry ->
  registered r ≡ₚ operation_id :: registered (take operation_id r).2 /\
  held_list r ≡ₚ jn_held (entry_join entry) ++ held_list (take operation_id r).2.
Proof.
  intros H. pose proof (entry_list_take operation_id entry _ H) as Hp. split.
  - unfold registered, entry_list. cbn. by rewrite Hp.
  - unfold held_list, entry_list. cbn. by rewrite (mjoin_fmap_Permutation _ _ _ Hp).
Qed.

Lemma lists_replaced operation_id entry entry' r :
  rn_entries r !! operation_id = Some entry ->
  registered (set_entry operation_id entry' r) ≡ₚ registered r /\
  exists rest, held_list r ≡ₚ jn_held (entry_join entry) ++ rest /\
    held_list (set_entry operation_id entry' r) ≡ₚ jn_held (entry_join entry') ++ rest.
Proof.
  intros H. destruct (lists_taken operation_id entry r H) as [Ho Hh].
  set (r1 := (take operation_id r).2) in *.
  assert (Hnone : rn_entries r1 !! operation_id = None) by (cbn; apply lookup_delete_eq).
  assert (Hsame : rn_entries (set_entry operation_id entry' r) = rn_entries (set_entry operation_id entry' r1)).
  { cbn. by rewrite insert_delete_eq. }
  destruct (lists_added operation_id entry' r1 Hnone) as [Ho' Hh'].
  unfold registered, held_list, entry_list in *. rewrite Hsame. split; [by rewrite Ho', Ho|].
  eexists. split; [exact Hh|exact Hh'].
Qed.

Lemma lists_same r r' :
  rn_entries r' = rn_entries r -> registered r' = registered r /\ held_list r' = held_list r.
Proof. unfold registered, held_list, entry_list. by intros ->. Qed.

(** The entry whose session is updated is replaced, if there is one. *)
Lemma update_session_cases operation_id session_generation r :
  update_session operation_id session_generation r = r \/
  exists entry scope,
    rn_entries r !! operation_id = Some entry /\
    update_session operation_id session_generation r =
      set_entry operation_id
        {| en_task := {| rk_operation_id := rk_operation_id (en_task entry); rk_scope := scope;
                         rk_cancel := rk_cancel (en_task entry); rk_join := rk_join (en_task entry) |};
           en_class := en_class entry; en_failure := en_failure entry;
           en_completion_sent := en_completion_sent entry; en_terminal := en_terminal entry;
           en_cleanup_started := en_cleanup_started entry |} r.
Proof.
  unfold update_session. destruct (rn_entries r !! operation_id) as [entry|] eqn:He.
  - right. exists entry. destruct entry as [[o scope c j] class failure sent terminal cleanup].
    destruct scope as [p g session| | |]; [exists (ScopeProfile p g (Some session_generation))|eexists..];
      (split; [done|]); unfold set_entry; f_equal; apply map_eq; intros i;
      (destruct (decide (i = operation_id)) as [->|Hne];
       [rewrite lookup_alter_eq, lookup_insert_eq, He; reflexivity|by rewrite lookup_alter_ne, lookup_insert_ne]).
  - left. transitivity (set_rn_entries r (rn_entries r)); [|apply set_entries_same]. f_equal. apply map_eq. intros i.
    destruct (decide (i = operation_id)) as [->|Hne]; [by rewrite lookup_alter_eq, He|by rewrite lookup_alter_ne].
Qed.

(** ** Answers *)

Definition answers_ok (o : Owed) (r : Runtime) : Prop := answered r ++ registered r ++ owed_ops o ≡ₚ rn_started r.

Lemma answers_same o o' r r' :
  rn_offered r' = rn_offered r -> registered r' ≡ₚ registered r -> owed_ops o' = owed_ops o ->
  rn_started r' = rn_started r -> answers_ok o r -> answers_ok o' r'.
Proof. unfold answers_ok, answered. intros -> Hr -> ->. by rewrite Hr. Qed.

(** The history is only written by [emit]. *)
Lemma acquired_history a r r' :
  try_acquire_owned a r = Some r' -> rn_offered r' = rn_offered r /\ rn_entries r' = rn_entries r /\
  rn_started r' = rn_started r /\ rn_messages r' = rn_messages r /\ rn_cancelled r' = rn_cancelled r /\
  rn_next r' = rn_next r /\ rn_port r' = rn_port r /\ rn_profile_permits r' = rn_profile_permits r /\
  rn_draft_permits r' = rn_draft_permits r /\ rn_mutation_active r' = rn_mutation_active r.
Proof. intros [s ->]%acquired_same. by split_and!. Qed.

Lemma slot_history profile_id r :
  let r' := (slot profile_id r).2 in
  rn_offered r' = rn_offered r /\ rn_entries r' = rn_entries r /\ rn_started r' = rn_started r /\
  rn_messages r' = rn_messages r /\ rn_cancelled r' = rn_cancelled r /\ (rn_next r <= rn_next r')%N /\
  rn_port r' = rn_port r /\ rn_draft_permits r' = rn_draft_permits r /\
  rn_mutation_active r' = rn_mutation_active r.
Proof. unfold slot, new_permit. destruct (rn_profile_permits r !! profile_id); cbn; split_and!; done || lia. Qed.

Lemma draft_slot_history draft_id r :
  let r' := (draft_slot draft_id r).2 in
  rn_offered r' = rn_offered r /\ rn_entries r' = rn_entries r /\ rn_started r' = rn_started r /\
  rn_messages r' = rn_messages r /\ rn_cancelled r' = rn_cancelled r /\ (rn_next r <= rn_next r')%N /\
  rn_port r' = rn_port r /\ rn_profile_permits r' = rn_profile_permits r /\
  rn_mutation_active r' = rn_mutation_active r.
Proof. unfold draft_slot, new_permit. destruct (rn_draft_permits r !! draft_id); cbn; split_and!; done || lia. Qed.

Lemma move_answers takes x y : Move takes x y -> answers_ok x.1 x.2 -> answers_ok y.1 y.2.
Proof.
  destruct 1; cbn [fst snd]; try (by apply answers_same).
  - unfold answers_ok, answered. cbn. rewrite fmap_app. cbn. intros <-. solve_Permutation.
  - destruct (update_session_cases operation_id session_generation r) as [->|(entry & scope & He & ->)]; [done|].
    apply answers_same; try done. by eapply lists_replaced.
  - destruct (slot_history profile_id r) as (Ho & He & Hs & _). apply answers_same; try done.
    by rewrite (proj1 (lists_same _ _ He)).
  - destruct (draft_slot_history draft_id r) as (Ho & He & Hs & _). apply answers_same; try done.
    by rewrite (proj1 (lists_same _ _ He)).
  - destruct (acquired_history _ _ _ H) as (Ho & He & Hs & _). apply answers_same; try done.
    by rewrite (proj1 (lists_same _ _ He)).
  - destruct (lists_added operation_id (new_entry operation_id scope body held class failure r)
      (set_rn_next r (rn_next r + 1 + 1)) H) as [Ho _].
    unfold answers_ok in *. cbn [owed_ops]. rewrite Ho. cbn. intros <-. solve_Permutation.
  - destruct (lists_added operation_id (cleanup_entry operation_id scope failure terminal r)
      (set_rn_next r (rn_next r + 1)) H) as [Ho _].
    unfold answers_ok in *. cbn [owed_ops]. rewrite Ho. cbn. intros <-. solve_Permutation.
  - destruct (lists_taken operation_id entry r H) as [Ho _]. unfold answers_ok. cbn [owed_ops]. rewrite Ho.
    intros Hok. etrans; [|exact Hok]. solve_Permutation.
Qed.

(** ** Permits *)

Definition count (a : Address) (l : list Address) : nat := length (List.filter (N.eqb a) l).

#[export] Instance count_Permutation a : Proper ((≡ₚ) ==> eq) (count a).
Proof.
  intros l1 l2 H. unfold count.
  induction H as [|x l1 l2 _ IH|x y l|l1 l2 l3 _ IH1 _ IH2]; cbn; [done| | |by etrans].
  - destruct (N.eqb a x); cbn; by rewrite ?IH.
  - by destruct (N.eqb a x), (N.eqb a y).
Qed.

Lemma count_cons a b l : count a (b :: l) = (if (a =? b)%N then 1 else 0) + count a l.
Proof. unfold count. cbn. by destruct (N.eqb a b). Qed.

Lemma count_app a l1 l2 : count a (l1 ++ l2) = count a l1 + count a l2.
Proof. unfold count. by rewrite List.filter_app, length_app. Qed.

Lemma count_notin a l : a ∉ l -> count a l = 0.
Proof.
  induction l as [|b l IH]; [done|]. intros Hin. rewrite count_cons.
  destruct (N.eqb_spec a b) as [->|]; [exfalso; apply Hin; by left|]. cbn. apply IH. set_solver.
Qed.

Lemma count_in a l : a ∈ l -> 1 <= count a l.
Proof.
  induction l as [|b l IH]; [by intros ?%elem_of_nil|]. rewrite count_cons. intros [->|Hin]%elem_of_cons.
  - rewrite N.eqb_refl. lia.
  - specialize (IH Hin). lia.
Qed.

Definition permit_capacity (a : Address) : nat :=
  if (a =? GLOBAL_PERMITS)%N then GLOBAL_NETWORK_LIMIT
  else if (a =? PROCESS_EXPORT_PERMITS)%N then PROCESS_EXPORT_LIMIT else 1.

(** Who holds what: the tasks of the registry and the running handler. *)
Definition all_held (o : Owed) (r : Runtime) : list Address := held_list r ++ owed_permits o.

(** Nothing of a semaphore is lost: what is available and what is held make its
    capacity. *)
Definition conserved (sems : gmap N semaphore) (held : list Address) : Prop :=
  (forall a s, sems !! a = Some s -> available_permits s + count a held = permit_capacity a) /\
  (forall a, a ∈ held -> is_Some (sems !! a)).

Record slots_ok (r : Runtime) : Prop := {
  sk_next : (2 <= rn_next r)%N;
  sk_below : forall a, is_Some (rn_semaphores r !! a) -> (a < rn_next r)%N;
  sk_roots : is_Some (rn_semaphores r !! GLOBAL_PERMITS) /\ is_Some (rn_semaphores r !! PROCESS_EXPORT_PERMITS);
  sk_profile : forall p a, rn_profile_permits r !! p = Some a -> (2 <= a)%N /\ is_Some (rn_semaphores r !! a);
  sk_draft : forall d a, rn_draft_permits r !! d = Some a -> (2 <= a)%N /\ is_Some (rn_semaphores r !! a);
  sk_profile_inj : forall p q a,
    rn_profile_permits r !! p = Some a -> rn_profile_permits r !! q = Some a -> p = q;
  sk_draft_inj : forall d e a, rn_draft_permits r !! d = Some a -> rn_draft_permits r !! e = Some a -> d = e;
  sk_apart : forall p d a, rn_profile_permits r !! p = Some a -> rn_draft_permits r !! d = Some a -> False;
}.

Definition permits_ok (o : Owed) (r : Runtime) : Prop :=
  conserved (rn_semaphores r) (all_held o r) /\ slots_ok r.

Lemma conserved_permutation sems held held' : held ≡ₚ held' -> conserved sems held -> conserved sems held'.
Proof.
  intros Hp [Hc Hk]. split.
  - intros a s Hs. rewrite <- Hp. by apply Hc.
  - intros a Ha. apply Hk. by rewrite Hp.
Qed.

Lemma conserved_acquire a s s' sems held :
  conserved sems held -> sems !! a = Some s -> try_acquire s = Some s' -> conserved (<[a := s']> sems) (a :: held).
Proof using laws.
  intros [Hc Hk] Ha Ht. pose proof (try_acquire_some _ _ Ht) as Hs. split.
  - intros b sb Hb. rewrite count_cons. apply lookup_insert_Some in Hb as [[<- <-]|[Hne Hb]].
    + rewrite N.eqb_refl. specialize (Hc a s Ha). lia.
    + apply N.eqb_neq in Hne. rewrite N.eqb_sym in Hne. rewrite Hne. by apply Hc.
  - intros b. rewrite elem_of_cons, lookup_insert_is_Some. intros [->|Hin]; [by left|].
    destruct (decide (a = b)) as [->|Hne]; [by left|right; split; [done|by apply Hk]].
Qed.

Lemma conserved_release a sems held : conserved sems (a :: held) -> conserved (alter release a sems) held.
Proof using laws.
  intros [Hc Hk]. split.
  - intros b sb Hb. apply lookup_alter_Some in Hb as [(<- & s & Hs & ->)|[Hne Hb]].
    + rewrite release_one. specialize (Hc a s Hs). rewrite count_cons, N.eqb_refl in Hc. lia.
    + specialize (Hc b sb Hb). rewrite count_cons in Hc. apply N.eqb_neq in Hne. rewrite N.eqb_sym in Hne.
      rewrite Hne in Hc. exact Hc.
  - intros b Hin. apply lookup_alter_is_Some, Hk. by right.
Qed.

Lemma conserved_new a sems held :
  conserved sems held -> sems !! a = None -> permit_capacity a = 1 -> conserved (<[a := semaphore_new 1]> sems) held.
Proof using laws.
  intros [Hc Hk] Ha Hcap. assert (Hnotin : a ∉ held) by (intros Hin; apply Hk in Hin as [s Hs]; congruence). split.
  - intros b s Hb. apply lookup_insert_Some in Hb as [[<- <-]|[Hne Hb]]; [|by apply Hc].
    rewrite semaphore_full, count_notin, Hcap by done. lia.
  - intros b Hin. apply lookup_insert_is_Some. destruct (decide (a = b)) as [->|Hne]; [by left|].
    right. split; [done|by apply Hk].
Qed.

Lemma acquire_Some a r r' :
  try_acquire_owned a r = Some r' ->
  exists s s', rn_semaphores r !! a = Some s /\ try_acquire s = Some s' /\
    r' = set_rn_semaphores r (<[a := s']> (rn_semaphores r)).
Proof.
  unfold try_acquire_owned. intros (s & Hs & Hr)%bind_Some. apply bind_Some in Hr as (s' & Ht & [= <-]).
  by exists s, s'.
Qed.

(** Only the addresses with a semaphore matter to the slots. *)
Lemma slots_same r r' :
  (rn_next r <= rn_next r')%N -> (forall a, is_Some (rn_semaphores r' !! a) <-> is_Some (rn_semaphores r !! a)) ->
  rn_profile_permits r' ⊆ rn_profile_permits r -> rn_draft_permits r' ⊆ rn_draft_permits r ->
  slots_ok r -> slots_ok r'.
Proof.
  intros Hn Hs Hp Hd []. split; try (setoid_rewrite Hs); try lia; try done.
  - intros a Ha. specialize (sk_below0 a Ha). lia.
  - intros p a H. by eapply sk_profile0, lookup_weaken.
  - intros d a H. by eapply sk_draft0, lookup_weaken.
  - intros p q a H1 H2. eapply sk_profile_inj0; by eapply lookup_weaken.
  - intros d e a H1 H2. eapply sk_draft_inj0; by eapply lookup_weaken.
  - intros p d a H1 H2. eapply sk_apart0; by eapply lookup_weaken.
Qed.

Lemma fresh_address r : slots_ok r -> rn_semaphores r !! rn_next r = None /\ permit_capacity (rn_next r) = 1.
Proof.
  intros [Hn Hb]. split.
  - apply eq_None_not_Some. intros H. specialize (Hb _ H). lia.
  - unfold permit_capacity, GLOBAL_PERMITS, PROCESS_EXPORT_PERMITS.
    destruct (N.eqb_spec (rn_next r) 0); [lia|]. destruct (N.eqb_spec (rn_next r) 1); [lia|]. done.
Qed.

Lemma slot_permits profile_id o r : permits_ok o r -> permits_ok o (slot profile_id r).2.
Proof using laws.
  intros [Hc Hs]. destruct (fresh_address r Hs) as [Hfresh Hcap]. unfold slot, new_permit.
  destruct (rn_profile_permits r !! profile_id) as [a|] eqn:Hp; [by split|]. cbn [new_address snd fst]. split.
  - by apply conserved_new.
  - destruct Hs. split; cbn; try lia.
    + intros a [->|[_ Ha]]%lookup_insert_is_Some; [lia|]. specialize (sk_below0 a Ha). lia.
    + destruct sk_roots0. split; apply lookup_insert_is_Some'; by right.
    + intros p a [[<- <-]|[_ Ha]]%lookup_insert_Some; [split; [done|]; apply lookup_insert_is_Some'; by left|].
      destruct (sk_profile0 p a Ha). split; [done|]. apply lookup_insert_is_Some'. by right.
    + intros d a Ha. destruct (sk_draft0 d a Ha). split; [done|]. apply lookup_insert_is_Some'. by right.
    + intros p q a [[<- <-]|[Hne1 H1]]%lookup_insert_Some [[<- H]|[Hne2 H2]]%lookup_insert_Some; try done.
      * apply sk_profile0 in H2 as [_ [s H2]]. congruence.
      * subst a. apply sk_profile0 in H1 as [_ [s H1]]. congruence.
      * by eapply sk_profile_inj0.
    + done.
    + intros p d a [[<- <-]|[_ H1]]%lookup_insert_Some H2; [|by eapply sk_apart0].
      apply sk_draft0 in H2 as [_ [s H2]]. congruence.
Qed.

Lemma draft_slot_permits draft_id o r : permits_ok o r -> permits_ok o (draft_slot draft_id r).2.
Proof using laws.
  intros [Hc Hs]. destruct (fresh_address r Hs) as [Hfresh Hcap]. unfold draft_slot, new_permit.
  destruct (rn_draft_permits r !! draft_id) as [a|] eqn:Hp; [by split|]. cbn [new_address snd fst]. split.
  - by apply conserved_new.
  - destruct Hs. split; cbn; try lia.
    + intros a [->|[_ Ha]]%lookup_insert_is_Some; [lia|]. specialize (sk_below0 a Ha). lia.
    + destruct sk_roots0. split; apply lookup_insert_is_Some'; by right.
    + intros p a Ha. destruct (sk_profile0 p a Ha). split; [done|]. apply lookup_insert_is_Some'. by right.
    + intros d a [[<- <-]|[_ Ha]]%lookup_insert_Some; [split; [done|]; apply lookup_insert_is_Some'; by left|].
      destruct (sk_draft0 d a Ha). split; [done|]. apply lookup_insert_is_Some'. by right.
    + done.
    + intros p q a [[<- <-]|[Hne1 H1]]%lookup_insert_Some [[<- H]|[Hne2 H2]]%lookup_insert_Some; try done.
      * apply sk_draft0 in H2 as [_ [s H2]]. congruence.
      * subst a. apply sk_draft0 in H1 as [_ [s H1]]. congruence.
      * by eapply sk_draft_inj0.
    + intros p d a H1 [[<- <-]|[_ H2]]%lookup_insert_Some; [|by eapply sk_apart0].
      apply sk_profile0 in H1 as [_ [s H1]]. congruence.
Qed.

Lemma permits_same o o' r r' :
  rn_semaphores r' = rn_semaphores r -> all_held o r ≡ₚ all_held o' r' -> (rn_next r <= rn_next r')%N ->
  rn_profile_permits r' ⊆ rn_profile_permits r -> rn_draft_permits r' ⊆ rn_draft_permits r ->
  permits_ok o r -> permits_ok o' r'.
Proof.
  intros Hs Hh Hn Hp Hd [Hc Hk]. split.
  - rewrite Hs. by eapply conserved_permutation.
  - apply (slots_same r); try done. intros a. by rewrite Hs.
Qed.

Lemma drop_permits_ok a o o' r :
  all_held o r ≡ₚ a :: all_held o' (drop_permit a r) -> permits_ok o r -> permits_ok o' (drop_permit a r).
Proof using laws.
  intros Hh [Hc Hs]. split.
  - cbn. apply conserved_release. by apply (conserved_permutation _ _ _ Hh).
  - apply (slots_same r); try done. intros b. cbn. apply lookup_alter_is_Some.
Qed.

Lemma acquire_permits_ok a o o' r r' :
  try_acquire_owned a r = Some r' -> all_held o' r' ≡ₚ a :: all_held o r -> permits_ok o r -> permits_ok o' r'.
Proof using laws.
  intros (s & s' & Ha & Ht & ->)%acquire_Some Hh [Hc Hs]. split.
  - cbn. eapply conserved_permutation; [symmetry; exact Hh|]. by apply (conserved_acquire a s).
  - apply (slots_same r); try done. intros b. cbn. rewrite lookup_insert_is_Some'. split; [intros [->|H]; [by exists s|done]|by right].
Qed.

Lemma move_permits takes x y : Move takes x y -> permits_ok x.1 x.2 -> permits_ok y.1 y.2.
Proof using laws.
  destruct 1; cbn [fst snd]; try (by apply permits_same).
  - destruct (update_session_cases operation_id session_generation r) as [->|(entry & scope & He & ->)]; [done|].
    set (entry' := {| en_task := _ |}).
    apply permits_same; try done. unfold all_held.
    destruct (lists_replaced operation_id entry entry' r He) as (_ & rest & Hh & Hh'). by rewrite Hh, Hh'.
  - apply permits_same; try done. cbn. lia.
  - apply slot_permits.
  - apply draft_slot_permits.
  - apply (acquire_permits_ok a); [done|]. unfold all_held. cbn [owed_permits].
    destruct (acquired_history _ _ _ H) as (_ & He & _). rewrite (proj2 (lists_same _ _ He)). solve_Permutation.
  - apply (drop_permits_ok a). unfold all_held. cbn [owed_permits].
    rewrite (proj2 (lists_same r (drop_permit a r) eq_refl)), H. solve_Permutation.
  - apply permits_same; try done; [|cbn; lia]. unfold all_held. cbn [owed_permits].
    destruct (lists_added operation_id (new_entry operation_id scope body held class failure r)
      (set_rn_next r (rn_next r + 1 + 1)) H) as [_ Hh]. rewrite Hh, H0. cbn. solve_Permutation.
  - apply permits_same; try done; [|cbn; lia]. unfold all_held. cbn [owed_permits].
    destruct (lists_added operation_id (cleanup_entry operation_id scope failure terminal r)
      (set_rn_next r (rn_next r + 1)) H) as [_ Hh]. by rewrite Hh.
  - apply permits_same; try done. unfold all_held. cbn [owed_permits].
    destruct (lists_taken operation_id entry r H) as [_ Hh]. rewrite Hh. solve_Permutation.
  - apply permits_same; try done; cbn; apply map_filter_subseteq.
Qed.

(** ** Entries *)

(** Where a terminal that is waited for may be. *)
Definition terminal_known (o : Owed) (r : Runtime) (token : Token) : Prop :=
  token ∈ rn_cancelled r \/ terminal_registered r token \/ token ∈ owed_terminals o.

Record entry_ok (o : Owed) (r : Runtime) (operation_id : OperationId) (entry : RegistryEntry) : Prop := {
  eo_fits : entry_fits operation_id entry;
  eo_terminal : (en_terminal entry < rn_next r)%N;
  eo_permits :
    match jn_finished (entry_join entry) with
    | Some _ => jn_held (entry_join entry) = []
    | None => permits_fit r (entry_join entry)
    end;
  eo_waits : forall token, token ∈ body_waits (jn_body (entry_join entry)) ->
    (token < en_terminal entry)%N /\ terminal_known o r token;
}.

Definition entries_ok (o : Owed) (r : Runtime) : Prop :=
  (forall operation_id entry, rn_entries r !! operation_id = Some entry -> entry_ok o r operation_id entry) /\
  (forall token, token ∈ owed_terminals o -> (token < rn_next r)%N).

(** The state that an entry depends on only grows. *)
Definition entry_grows (o o' : Owed) (r r' : Runtime) : Prop :=
  (rn_next r <= rn_next r')%N /\ rn_profile_permits r ⊆ rn_profile_permits r' /\
  rn_draft_permits r ⊆ rn_draft_permits r' /\ forall token, terminal_known o r token -> terminal_known o' r' token.

Lemma permits_fit_grows r r' j :
  rn_profile_permits r ⊆ rn_profile_permits r' -> rn_draft_permits r ⊆ rn_draft_permits r' ->
  permits_fit r j -> permits_fit r' j.
Proof.
  intros Hp Hd. unfold permits_fit. destruct (jn_body j) as [| | |work targets [[a g|a g]|]| | |]; try done.
  - intros (a & Ha & Hh). exists a. split; [by eapply lookup_weaken|done].
  - intros (a & Ha & Hh). exists a. split; [by eapply lookup_weaken|done].
  - intros (-> & Ha & Hh). split_and!; [done|by eapply lookup_weaken|done].
  - intros (-> & Ha & Hh & Hin). split_and!; [done|by eapply lookup_weaken|done..].
Qed.

Lemma entry_ok_grows o o' r r' operation_id entry :
  entry_grows o o' r r' -> entry_ok o r operation_id entry -> entry_ok o' r' operation_id entry.
Proof.
  intros (Hn & Hp & Hd & Ht) [Hf Hlt Hpf Hw]. split; [done|lia| |].
  - destruct (jn_finished _); [done|]. by eapply permits_fit_grows.
  - intros token Hin. destruct (Hw token Hin). split; [done|]. by apply Ht.
Qed.

Lemma entries_same o o' r r' :
  rn_entries r' = rn_entries r -> (rn_next r <= rn_next r')%N -> rn_profile_permits r ⊆ rn_profile_permits r' ->
  rn_draft_permits r ⊆ rn_draft_permits r' -> rn_cancelled r ⊆ rn_cancelled r' ->
  owed_terminals o' ⊆ owed_terminals o -> owed_terminals o ⊆ owed_terminals o' ∪ rn_cancelled r' ->
  entries_ok o r -> entries_ok o' r'.
Proof.
  intros He Hn Hp Hd Hc Ho1 Ho2 [Hall Howed]. split.
  - intros operation_id entry H. rewrite He in H. apply (entry_ok_grows o o' r r'); [|by apply Hall].
    split_and!; [done..|]. intros token [Ht|[Ht|Ht]].
    + left. set_solver.
    + right. left. by apply (terminal_registered_same r).
    + apply Ho2, elem_of_union in Ht as [Ht|Ht]; [by right; right|by left].
  - intros token Ht. apply Ho1, Howed in Ht. lia.
Qed.

(** A new entry. *)
Lemma entries_added o o' r r' operation_id entry :
  rn_entries r !! operation_id = None -> rn_entries r' = <[operation_id := entry]> (rn_entries r) ->
  (rn_next r <= rn_next r')%N -> rn_profile_permits r' = rn_profile_permits r ->
  rn_draft_permits r' = rn_draft_permits r -> rn_cancelled r' = rn_cancelled r ->
  owed_terminals o' ⊆ owed_terminals o -> owed_terminals o ⊆ owed_terminals o' ∪ {[ en_terminal entry ]} ->
  entry_ok o' r' operation_id entry -> entries_ok o r -> entries_ok o' r'.
Proof.
  intros Hnone He Hn Hp Hd Hc Ho1 Ho2 Hok [Hall Howed]. split.
  - intros op e H. rewrite He in H. apply lookup_insert_Some in H as [[<- <-]|[Hne H]]; [done|].
    apply (entry_ok_grows o o' r r'); [|by apply Hall].
    split_and!; [done|by rewrite Hp|by rewrite Hd|].
    assert (Hterm : forall token, terminal_registered r token -> terminal_registered r' token).
    { intros token (op' & e' & H' & Ht). exists op', e'. split; [|done]. rewrite He, lookup_insert_ne; [done|congruence]. }
    intros token [Ht|[Ht|Ht]]; [left; by rewrite Hc|right; left; by apply Hterm|].
    apply Ho2, elem_of_union in Ht as [Ht|Ht%elem_of_singleton]; [by right; right|]. subst token.
    right. left. exists operation_id, entry. by rewrite He, lookup_insert_eq.
  - intros token Ht. apply Ho1, Howed in Ht. lia.
Qed.

Lemma terminal_known_replaced o r operation_id entry entry' token :
  rn_entries r !! operation_id = Some entry -> en_terminal entry' = en_terminal entry ->
  terminal_known o r token -> terminal_known o (set_entry operation_id entry' r) token.
Proof.
  intros He Ht [Hc|[(op & e & H & Ht')|Hc]]; [by left| |by right; right]. right. left.
  destruct (decide (op = operation_id)) as [->|Hne].
  - exists operation_id, entry'. cbn. rewrite lookup_insert_eq. split; [done|]. congruence.
  - exists op, e. cbn. by rewrite lookup_insert_ne.
Qed.

(** An entry that changes its task, its scope or its flags. *)
Lemma entries_replaced o r operation_id entry entry' :
  rn_entries r !! operation_id = Some entry -> en_terminal entry' = en_terminal entry ->
  entry_ok o (set_entry operation_id entry' r) operation_id entry' -> entries_ok o r ->
  entries_ok o (set_entry operation_id entry' r).
Proof.
  intros He Ht Hok [Hall Howed]. split; [|done].
  intros op e H. cbn in H. apply lookup_insert_Some in H as [[<- <-]|[Hne H]]; [done|].
  apply (entry_ok_grows o o r); [|by apply Hall]. split_and!; [done..|].
  intros token. by apply (terminal_known_replaced o r operation_id entry).
Qed.

Lemma entries_taken o o' r operation_id entry :
  rn_entries r !! operation_id = Some entry ->
  owed_terminals o' ≡ owed_terminals o ∪ {[ en_terminal entry ]} ->
  entries_ok o r -> entries_ok o' (take operation_id r).2.
Proof.
  intros He Ho [Hall Howed]. split.
  - intros op e H. cbn in H. apply lookup_delete_Some in H as [Hne H].
    apply (entry_ok_grows o o' r); [|by apply Hall]. split_and!; [done..|].
    intros token [Hc|[(op' & e' & H' & Ht')|Hc]]; [by left| |right; right; set_solver].
    destruct (decide (op' = operation_id)) as [->|Hne'].
    + right. right. rewrite He in H'. injection H' as ->. set_solver.
    + right. left. exists op', e'. cbn. by rewrite lookup_delete_ne.
  - intros token Ht. apply Ho, elem_of_union in Ht as [Ht|Ht%elem_of_singleton]; [by apply Howed|]. subst token.
    apply (eo_terminal _ _ _ _ (Hall _ _ He)).
Qed.

(** The slots that a running task refers to survive the pruning. *)
Lemma referenced_keeps r operation_id entry a :
  rn_entries r !! operation_id = Some entry -> join_refers a (entry_join entry) = true -> keeps_permit r a = true.
Proof.
  intros He Hr. unfold keeps_permit, referenced. apply orb_true_iff. left. apply existsb_elem_of.
  exists (operation_id, entry). split; [by apply elem_of_map_to_list|done].
Qed.

Lemma refers_held a j : jn_finished j = None -> a ∈ jn_held j -> join_refers a j = true.
Proof. intros Hf Hin. unfold join_refers. rewrite Hf, bool_decide_true by done. done. Qed.

Lemma prune_keeps r operation_id entry :
  rn_entries r !! operation_id = Some entry -> jn_finished (entry_join entry) = None ->
  permits_fit r (entry_join entry) -> permits_fit (draft_prune_idle (profile_prune_idle r)) (entry_join entry).
Proof.
  intros He Hf Hfit.
  assert (Hkeep : forall a, join_refers a (entry_join entry) = true -> keeps_permit r a = true)
    by (intros a; by apply (referenced_keeps r operation_id)).
  assert (Hheld : forall a, a ∈ jn_held (entry_join entry) -> keeps_permit r a = true)
    by (intros a Ha; by apply Hkeep, refers_held).
  unfold permits_fit in *. destruct (jn_body (entry_join entry)) as [| |work|work targets [[a g|a g]|]| | |] eqn:Hb; try done.
  - destruct Hfit as (a & Ha & Hh). exists a. split; [|done]. cbn. apply map_lookup_filter_Some.
    split; [done|]. apply Hheld. rewrite Hh. set_solver.
  - destruct Hfit as (a & Ha & Hh). exists a. split; [|done]. cbn. apply map_lookup_filter_Some.
    split; [done|]. apply Hheld. rewrite Hh. set_solver.
  - destruct Hfit as (-> & Ha & Hh). split_and!; [done| |done]. cbn. apply map_lookup_filter_Some.
    split; [done|]. apply Hheld. rewrite Hh. set_solver.
  - destruct Hfit as (-> & Ha & Hh & Hin). split_and!; [done| |done..]. cbn. apply map_lookup_filter_Some.
    split; [done|]. apply Hkeep. unfold join_refers. rewrite Hf, Hb, (bool_decide_true (a = a)) by done.
    apply orb_true_r.
Qed.

Lemma prune_entries o r : entries_ok o r -> entries_ok o (draft_prune_idle (profile_prune_idle r)).
Proof.
  intros [Hall Howed]. split; [|done]. intros operation_id entry He.
  destruct (Hall operation_id entry He) as [Hf Ht Hp Hw]. split; [done|done| |done].
  destruct (jn_finished (entry_join entry)) eqn:Hfin; [done|]. by apply (prune_keeps r operation_id entry).
Qed.

Lemma slot_grows profile_id r :
  slots_ok r -> rn_profile_permits r ⊆ rn_profile_permits (slot profile_id r).2.
Proof.
  intros _. unfold slot, new_permit. destruct (rn_profile_permits r !! profile_id) eqn:H; [done|].
  cbn. by apply insert_subseteq.
Qed.

Lemma draft_slot_grows draft_id r :
  slots_ok r -> rn_draft_permits r ⊆ rn_draft_permits (draft_slot draft_id r).2.
Proof.
  intros _. unfold draft_slot, new_permit. destruct (rn_draft_permits r !! draft_id) eqn:H; [done|].
  cbn. by apply insert_subseteq.
Qed.

Lemma started_entry_ok o r operation_id scope body held class failure :
  body_answers operation_id body -> body_fits class failure body -> permits_fit r (spawn body held) ->
  (forall token, token ∈ body_waits body -> (token < rn_next r)%N /\ terminal_registered r token) ->
  rn_entries r !! operation_id = None ->
  let entry := new_entry operation_id scope body held class failure r in
  entry_ok o (set_entry operation_id entry (set_rn_next r (rn_next r + 1 + 1))) operation_id entry.
Proof.
  intros Ha Hb Hp Hw Hnone entry. split.
  - by split_and!.
  - cbn. lia.
  - exact Hp.
  - intros token Hin. destruct (Hw token Hin) as [Hlt (op & e & He & Ht)]. split; [cbn; lia|].
    right. left. exists op, e. cbn. rewrite lookup_insert_ne; [done|congruence].
Qed.

Lemma move_entries takes x y : Move takes x y -> slots_ok x.2 -> entries_ok x.1 x.2 -> entries_ok y.1 y.2.
Proof.
  destruct 1; cbn [fst snd]; intros Hslots; try (apply entries_same; try done; set_solver).
  - destruct (update_session_cases operation_id session_generation r) as [->|(entry & scope & He & ->)]; [done|].
    intros Hok. apply (entries_replaced o r operation_id entry); [done|done| |done].
    destruct (proj1 Hok _ _ He) as [Hf Ht Hp Hw]. split; [done|done|done|].
    intros token Hin. destruct (Hw token Hin) as [Hlt Hknown]. split; [done|].
    by apply (terminal_known_replaced o r operation_id entry).
  - apply entries_same; try done; [cbn; lia|set_solver].
  - destruct (slot_history profile_id r) as (_ & He & _ & _ & Hc & Hn & _ & Hd & _).
    apply entries_same; try done; [by apply slot_grows|by rewrite Hd|by rewrite Hc|set_solver].
  - destruct (draft_slot_history draft_id r) as (_ & He & _ & _ & Hc & Hn & _ & Hd & _).
    apply entries_same; try done; [by rewrite Hd|by apply draft_slot_grows|by rewrite Hc|set_solver].
  - destruct (acquired_history _ _ _ H) as (_ & He & _ & _ & Hc & Hn & _ & Hp & Hd & _).
    apply entries_same; try done; [by rewrite Hn|by rewrite Hp|by rewrite Hd|by rewrite Hc|set_solver].
  - intros Hok. set (entry := new_entry operation_id scope body held class failure r).
    refine (entries_added _ _ r (set_entry operation_id entry (set_rn_next r (rn_next r + 1 + 1)))
      operation_id entry H eq_refl _ eq_refl eq_refl eq_refl _ _ _ Hok); [cbn; lia|done|set_solver|].
    apply started_entry_ok; [done..| |done]. intros token Hin. split; [|by apply H4].
    destruct (H4 token Hin) as (op & e & He & <-). apply (eo_terminal _ _ _ _ (proj1 Hok _ _ He)).
  - intros Hok. set (entry := cleanup_entry operation_id scope failure terminal r).
    refine (entries_added _ _ r (set_entry operation_id entry (set_rn_next r (rn_next r + 1)))
      operation_id entry H eq_refl _ eq_refl eq_refl eq_refl _ _ _ Hok); [cbn; lia|done|done|]. split.
    + by split_and!.
    + cbn. apply (proj2 Hok) in H0. lia.
    + done.
    + by intros token ?%elem_of_nil.
  - by apply (entries_taken _ _ _ _ entry).
  - apply prune_entries.
Qed.

(** ** The mutation *)

Definition one_mutation (r : Runtime) : Prop :=
  forall op1 e1 op2 e2, mutation_entry r op1 e1 -> mutation_entry r op2 e2 -> op1 = op2.

Definition mutation_safe (o : Owed) (r : Runtime) : Prop :=
  (owed_unsettled o = false -> (rn_mutation_active r = true <-> has_mutation r)) /\ one_mutation r.

Lemma mutation_same o o' r r' :
  (forall op, (exists e, mutation_entry r' op e) <-> (exists e, mutation_entry r op e)) ->
  rn_mutation_active r' = rn_mutation_active r -> (owed_unsettled o' = false -> owed_unsettled o = false) ->
  mutation_safe o r -> mutation_safe o' r'.
Proof.
  intros Hm Ha Hu [Hactive Hone]. split.
  - intros Hu'. rewrite Ha, Hactive by auto. unfold has_mutation.
    split; intros (op & e & He); exists op; apply Hm; by exists e.
  - intros op1 e1 op2 e2 H1 H2. destruct (proj1 (Hm op1)) as [e1' H1']; [by exists e1|].
    destruct (proj1 (Hm op2)) as [e2' H2']; [by exists e2|]. by apply (Hone op1 e1' op2 e2').
Qed.

Lemma mutation_entries o o' r r' :
  rn_entries r' = rn_entries r -> rn_mutation_active r' = rn_mutation_active r ->
  (owed_unsettled o' = false -> owed_unsettled o = false) -> mutation_safe o r -> mutation_safe o' r'.
Proof. intros He. apply mutation_same. unfold mutation_entry. by rewrite He. Qed.

Lemma mutation_replaced operation_id entry entry' r :
  rn_entries r !! operation_id = Some entry -> en_class entry' = en_class entry ->
  forall op, (exists e, mutation_entry (set_entry operation_id entry' r) op e) <-> (exists e, mutation_entry r op e).
Proof.
  intros He Hc op. unfold mutation_entry. cbn. destruct (decide (op = operation_id)) as [->|Hne].
  - rewrite lookup_insert_eq, He. split; intros (e & [= <-] & Hm); eexists; (split; [done|congruence]).
  - by rewrite lookup_insert_ne.
Qed.

Lemma mutation_added operation_id entry r :
  rn_entries r !! operation_id = None -> en_class entry <> MutationTask ->
  forall op, (exists e, mutation_entry (set_entry operation_id entry r) op e) <-> (exists e, mutation_entry r op e).
Proof.
  intros He Hc op. unfold mutation_entry. cbn. destruct (decide (op = operation_id)) as [->|Hne].
  - rewrite lookup_insert_eq, He. split; [by intros (e & [= <-] & Hm)|by intros (e & [=] & _)].
  - by rewrite lookup_insert_ne.
Qed.

Lemma move_mutation takes x y : Move takes x y -> mutation_safe x.1 x.2 -> mutation_safe y.1 y.2.
Proof.
  destruct 1; cbn [fst snd]; try (by apply mutation_entries).
  - destruct (update_session_cases operation_id session_generation r) as [->|(entry & scope & He & ->)]; [done|].
    apply mutation_same; [|done..]. by apply (mutation_replaced operation_id entry).
  - destruct (slot_history profile_id r) as (_ & He & _ & _ & _ & _ & _ & _ & Ha). by apply mutation_entries.
  - destruct (draft_slot_history draft_id r) as (_ & He & _ & _ & _ & _ & _ & _ & Ha). by apply mutation_entries.
  - destruct (acquired_history _ _ _ H) as (_ & He & _ & _ & _ & _ & _ & _ & _ & Ha). by apply mutation_entries.
  - destruct (decide (class = MutationTask)) as [->|Hc].
    + destruct (H5 eq_refl) as [-> Hnone]. intros [_ Hone]. split; [done|].
      intros op1 e1 op2 e2 [M1 Hc1] [M2 Hc2]. cbn -[N.add] in M1, M2.
      apply lookup_insert_Some in M1 as [[<- _]|[_ M1]]; [|exfalso; apply Hnone; by exists op1, e1].
      apply lookup_insert_Some in M2 as [[<- _]|[_ M2]]; [done|exfalso; apply Hnone; by exists op2, e2].
    + apply mutation_same; [|done..]. by apply (mutation_added _ _ (set_rn_next r (rn_next r + 1 + 1))).
  - apply mutation_same; [|done..]. by apply (mutation_added _ _ (set_rn_next r (rn_next r + 1))).
  - intros [Ha Hone]. assert (Hsub : forall op e, mutation_entry (take operation_id r).2 op e -> mutation_entry r op e).
    { intros op e [He Hc]. cbn in He. apply lookup_delete_Some in He as [_ He]. done. }
    split; [|intros op1 e1 op2 e2 M1 M2; by apply (Hone op1 e1 op2 e2); apply Hsub].
    cbn [owed_unsettled]. intros ->. rewrite Ha by done. split; [|intros (op & e & He); exists op, e; by apply Hsub].
    intros (op & e & [He Hc]). exists op, e. split; [|done]. cbn. apply lookup_delete_Some. split; [|done].
    intros ->. rewrite H in He. injection He as ->. by apply H1 in Hc.
  - intros [_ Hone]. split; [intros _; exact H|exact Hone].
  - intros [_ Hone]. by split.
Qed.

(** ** Messages *)

Definition messages_ok (r : Runtime) : Prop :=
  capacity (rn_messages r) = None /\ is_closed (rn_messages r) = false /\
  forall operation_id output, Completed operation_id output ∈ queued (rn_messages r) ->
    output_operation output = operation_id.

Lemma move_messages takes x y : Move takes x y -> rn_messages y.2 = rn_messages x.2.
Proof.
  destruct 1; cbn [fst snd]; try done.
  - by destruct (slot_history profile_id r) as (_ & _ & _ & Hm & _).
  - by destruct (draft_slot_history draft_id r) as (_ & _ & _ & Hm & _).
  - by destruct (acquired_history _ _ _ H) as (_ & _ & _ & Hm & _).
Qed.

(** ** Together *)

Definition core_ok (o : Owed) (r : Runtime) : Prop :=
  answers_ok o r /\ permits_ok o r /\ entries_ok o r /\ mutation_safe o r /\ messages_ok r.

Lemma moves_core takes x y : Moves takes x y -> core_ok x.1 x.2 -> core_ok y.1 y.2.
Proof using laws.
  induction 1 as [|x y z Hm _ IH]; [done|]. intros (Ha & Hp & He & Hmut & Hmsg). apply IH. split_and!.
  - by eapply move_answers.
  - by eapply move_permits.
  - eapply move_entries; [done|by destruct Hp|done].
  - by eapply move_mutation.
  - unfold messages_ok. by rewrite (move_messages _ _ _ Hm).
Qed.

(** ** The steps of the tasks *)

Definition with_permits (o : Owed) (permits : list Address) : Owed :=
  let 'Owes ops keys _ terminals u := o in Owes ops keys permits terminals u.

(** A task trades permits with the handler, or changes otherwise. *)
Lemma replaced_core o permits r operation_id entry entry' :
  rn_entries r !! operation_id = Some entry ->
  jn_held (entry_join entry') ++ permits ≡ₚ jn_held (entry_join entry) ++ owed_permits o ->
  en_terminal entry' = en_terminal entry -> en_class entry' = en_class entry ->
  entry_fits operation_id entry' -> jn_body (entry_join entry') = jn_body (entry_join entry) ->
  match jn_finished (entry_join entry') with
  | Some _ => jn_held (entry_join entry') = []
  | None => permits_fit r (entry_join entry')
  end ->
  core_ok o r -> core_ok (with_permits o permits) (set_entry operation_id entry' r).
Proof.
  intros He Hheld Hterm Hclass Hfits Hbody Hpermits (Ha & Hp & Hent & Hmut & Hmsg).
  destruct (lists_replaced operation_id entry entry' r He) as (Hreg & rest & Hh & Hh').
  destruct o as [ops keys permits0 terminals u]. cbn [with_permits owed_permits] in *. split_and!; [| | | |done].
  - by apply (answers_same (Owes ops keys permits0 terminals u) _ r).
  - refine (permits_same _ _ r _ _ _ _ _ _ Hp); [done| |done..]. unfold all_held. cbn [owed_permits]. rewrite Hh, Hh'.
    transitivity (rest ++ jn_held (entry_join entry) ++ permits0); [solve_Permutation|].
    rewrite <- Hheld. solve_Permutation.
  - destruct (proj1 Hent _ _ He) as [_ Hlt _ Hw].
    apply (entries_same (Owes ops keys permits0 terminals u) _ (set_entry operation_id entry' r)); try done; [set_solver|].
    apply (entries_replaced _ r operation_id entry); [done..| |done]. split; [done| |done|].
    + by rewrite Hterm.
    + intros token. rewrite Hbody, Hterm. intros Hin. destruct (Hw token Hin). split; [done|].
      by apply (terminal_known_replaced _ r operation_id entry).
  - refine (mutation_same _ _ r _ _ _ _ Hmut); [|done..]. by apply (mutation_replaced operation_id entry).
Qed.

Lemma drop_permits_entries held r m : drop_permits held (set_rn_entries r m) = set_rn_entries (drop_permits held r) m.
Proof. unfold drop_permits. revert r. induction held as [|a held IH]; intros r; cbn; [done|]. apply (IH (drop_permit a r)). Qed.

(** A task gives back all its permits. *)
Lemma released_core o r operation_id entry entry' :
  rn_entries r !! operation_id = Some entry ->
  jn_held (entry_join entry') = [] ->
  en_terminal entry' = en_terminal entry -> en_class entry' = en_class entry ->
  entry_fits operation_id entry' -> jn_body (entry_join entry') = jn_body (entry_join entry) ->
  (jn_finished (entry_join entry') = None -> permits_fit r (entry_join entry')) ->
  core_ok o r -> core_ok o (set_entry operation_id entry' (drop_permits (jn_held (entry_join entry)) r)).
Proof using laws.
  intros He Hheld Hterm Hclass Hfits Hbody Hpermits Hok.
  assert (Hok1 : core_ok (with_permits o (jn_held (entry_join entry) ++ owed_permits o)) (set_entry operation_id entry' r)).
  { apply (replaced_core o _ r operation_id entry); try done; [by rewrite Hheld|].
    destruct (jn_finished (entry_join entry')); [done|by apply Hpermits]. }
  assert (Hsame : set_entry operation_id entry' (drop_permits (jn_held (entry_join entry)) r)
    = drop_permits (jn_held (entry_join entry)) (set_entry operation_id entry' r)).
  { unfold set_entry. rewrite drop_permits_entries. f_equal.
    by destruct (drop_permits_same (jn_held (entry_join entry)) r) as [-> _]. }
  rewrite Hsame. destruct o as [ops keys permits terminals u].
  apply (moves_core (fun _ _ => True) (Owes ops keys (jn_held (entry_join entry) ++ permits) terminals u,
    set_entry operation_id entry' r) (Owes ops keys permits terminals u, _)); [apply moves_drop_permits|exact Hok1].
Qed.

Lemma service_core o r s : core_ok o r -> core_ok o (set_rn_service r s).
Proof using laws.
  intros Hok. apply (moves_core (fun _ _ => True) (o, r) (o, set_rn_service r s)); [|done].
  apply rtc_once, move_service.
Qed.

(** A message that answers for its operation is sent. *)
Lemma message_sent_queue message r :
  messages_ok r -> queued (rn_messages (send_message message r)) = queued (rn_messages r) ++ [message] /\
  capacity (rn_messages (send_message message r)) = None /\ is_closed (rn_messages (send_message message r)) = false.
Proof using laws.
  intros (Hcap & Hopen & _). assert (Hr : refused (rn_messages r) = None).
  { unfold refused. rewrite Hopen, decide_True; [done|]. unfold has_room. by rewrite Hcap. }
  destruct (try_send_sent _ message (rn_messages r) Hr) as (c & Hs & Hq & _ & Hc & Ho). cbn. rewrite Hs. cbn.
  split_and!; [done|congruence..].
Qed.

Lemma send_core o r message :
  match message with Completed operation_id output => output_operation output = operation_id | _ => True end ->
  core_ok o r -> core_ok o (send_message message r).
Proof using laws.
  intros Hm (Ha & Hp & He & Hmut & Hmsg). destruct (message_sent_queue message r Hmsg) as (Hq & Hcap & Hopen).
  split_and!; [by apply (answers_same o _ r)|by apply (permits_same o _ r)| |by apply (mutation_entries o _ r)|].
  { apply (entries_same o _ r); try done. set_solver. }
  split_and!; [done|done|]. intros operation_id output. rewrite Hq, elem_of_app. intros [Hin|Hin%list_elem_of_singleton].
  - by apply Hmsg.
  - by subst message.
Qed.

Lemma step_core o r r' : TaskStep r r' -> core_ok o r -> core_ok o r'.
Proof using laws.
  intros Hstep Hok. destruct Hstep as [operation_id entry output s r [He Hrun] Hover Hends|operation_id entry r [He Hrun]
    |operation_id entry session r [He Hrun] _ _ _
    |operation_id entry work targets profile global a r r' [He Hrun] Hb Hgave Ha Hnotin Hacquire
    |operation_id entry work targets profile global summary r [He Hrun] Hb Hgave _ _ _|operation_id entry s r _];
    [..|by apply service_core];
    destruct (proj1 (proj1 (proj2 (proj2 Hok))) _ _ He) as [Hfits Hlt Hpermits Hwaits]; rewrite Hrun in Hpermits.
  - apply send_core; [by eapply task_ends_operation; [apply Hfits|]|].
    apply (released_core o (set_rn_service r s) operation_id entry (with_completion (with_join (finished (entry_join entry) false) entry)));
      try done. by apply service_core.
  - by apply (released_core o r operation_id entry (with_join (finished (entry_join entry) true) entry)).
  - apply send_core; [done|]. pose proof (replaced_core o (owed_permits o) r operation_id entry
      (with_join (announced (entry_join entry) session) entry) He) as H.
    destruct o as [ops keys permits terminals u]. apply H; try done. cbn. rewrite Hrun. exact Hpermits.
  - destruct (acquire_Some _ _ _ Hacquire) as (sem & sem' & Hs & Ht & Hr').
    destruct o as [ops keys permits terminals u].
    assert (Hok1 : core_ok (Owes ops keys (a :: permits) terminals u) r').
    { apply (moves_core (fun _ _ => True) (Owes ops keys permits terminals u, r) (_, r')); [|exact Hok].
      apply rtc_once. by constructor. }
    pose proof (replaced_core (Owes ops keys (a :: permits) terminals u) permits r' operation_id entry
      (with_join (set_held (entry_join entry) (a :: jn_held (entry_join entry))) entry)) as H.
    apply H; try done; [by rewrite Hr'|cbn; solve_Permutation|]. cbn. rewrite Hrun.
    unfold permits_fit in Hpermits |- *. cbn. rewrite Hb in Hpermits |- *. rewrite Hr'. cbn.
    destruct Hpermits as (-> & Hp & Hnd & Hin). split_and!; [done|done|by constructor|].
    intros b [->|Hb']%elem_of_cons; [done|by apply Hin].
  - apply (released_core o r operation_id entry (with_join (gave_up (entry_join entry) summary) entry)); try done.
    intros _. unfold permits_fit in Hpermits |- *. cbn. rewrite Hb in Hpermits |- *.
    destruct Hpermits as (-> & Hp & _ & _). split_and!; [done|done|constructor|by intros ? ?%elem_of_nil].
Qed.

Lemma steps_core o r r' : rtc TaskStep r r' -> core_ok o r -> core_ok o r'.
Proof using laws. induction 1 as [|r1 r2 r3 Hs _ IH]; [done|]. intros H. by apply IH, (step_core o r1). Qed.

(** ** The loop *)

Definition phase_ops (phase : Phase) : list OperationId :=
  match phase with Draining operation_id _ => [operation_id] | _ => [] end.

Definition lanes_ok (p : Ports) : Prop :=
  forall lane command, command ∈ lane_queue p lane -> cmd_lane command = lane.

(** The invariant between two steps: nothing is reserved, nothing is owed but the answer
    of a shutdown in progress. *)
Record system_ok (sys : System) : Prop := {
  so_reserved : rn_reserved (sm_runtime sys) = ∅;
  so_core : core_ok (idle (phase_ops (sm_phase sys)) ∅) (sm_runtime sys);
  so_lanes : lanes_ok (rn_port (sm_runtime sys));
  so_stopped : match sm_phase sys with Stopped | Unavailable _ => rn_entries (sm_runtime sys) = ∅ | _ => True end;
}.

(** The keys that are owed do not matter here. *)
Lemma core_keys ops keys keys' permits terminals u r :
  core_ok (Owes ops keys permits terminals u) r -> core_ok (Owes ops keys' permits terminals u) r.
Proof.
  intros (Ha & Hp & He & Hm & Hmsg). split_and!; [done|done| |done|done].
  apply (entries_same (Owes ops keys permits terminals u) _ r); try done. set_solver.
Qed.

Lemma handles_core takes o r o' r' : handles takes o r o' r' -> core_ok o r -> core_ok o' r'.
Proof using laws. intros [Hm _]. by apply (moves_core takes (o, r) (o', r')). Qed.

(** Parts that no invariant of the core looks at. *)
Lemma port_core o r p : core_ok o r -> core_ok o (with_port r p).
Proof.
  intros (Ha & Hp & He & Hm & Hmsg). split_and!; [by apply (answers_same o _ r)|by apply (permits_same o _ r)| |
    by apply (mutation_entries o _ r)|done]. apply (entries_same o _ r); try done. set_solver.
Qed.

(** A command is taken: its answer is owed. *)
Lemma received_core operation_id ops keys keys' r p :
  core_ok (idle ops keys) r ->
  core_ok (Owes (operation_id :: ops) keys' [] ∅ false)
    (set_rn_started (with_port r p) (rn_started r ++ [operation_id])).
Proof.
  intros (Ha & Hp & He & Hm & Hmsg). split_and!; [|by apply (permits_same (idle ops keys) _ r)| |
    by apply (mutation_entries (idle ops keys) _ r)|done].
  - unfold answers_ok, idle in *. cbn [owed_ops] in *.
    rewrite (proj1 (lists_same r (set_rn_started (with_port r p) (rn_started r ++ [operation_id])) eq_refl)).
    change (answered r ++ registered r ++ operation_id :: ops ≡ₚ rn_started r ++ [operation_id]).
    transitivity ((answered r ++ registered r ++ ops) ++ [operation_id]); [solve_Permutation|by rewrite Ha].
  - by apply (entries_same (idle ops keys) _ r).
Qed.

Lemma mutation_ok_core ops keys r : core_ok (idle ops keys) r -> mutation_ok r.
Proof. intros (_ & _ & _ & [Ha Hone] & _). split; [by apply Ha|exact Hone]. Qed.

(** The messages of the queue can be handled. *)
Lemma core_message_fits ops keys r message :
  core_ok (idle ops keys) r ->
  match message with Completed operation_id output => output_operation output = operation_id | _ => True end ->
  awaited message r -> exists keys', message_fits (fun _ _ => True) keys' r message.
Proof.
  intros Hok Hm Hawaited. destruct message as [operation_id session|operation_id output]; [by exists ∅|].
  destruct (rn_entries r !! operation_id) as [entry|] eqn:He.
  2: { exists ∅. split; [done|]. intros e He'. congruence. }
  exists (failure_keys (en_failure entry)). split; [done|]. intros e He'. rewrite He in He'. injection He' as <-.
  destruct (proj1 (proj1 (proj2 (proj2 Hok))) _ _ He) as [(_ & _ & Hfit) _ Hp _].
  split_and!; [done| | |set_solver].
  - destruct (jn_finished (entry_join entry)) eqn:Hf; [done|]. by destruct (Hawaited entry He).
  - intros Hclass. destruct (jn_body (entry_join entry)); cbn in Hfit; destruct Hfit as [Hc Hk]; congruence.
Qed.

Lemma try_recv_in {A} (c c' : mpsc A) a : try_recv c = (Some a, c') -> a ∈ queued c /\ forall b, b ∈ queued c' -> b ∈ queued c.
Proof using laws.
  intros H. pose proof (try_recv_queued c) as Hq. rewrite H in Hq. cbn in Hq. rewrite Hq. set_solver.
Qed.

Lemma message_received_core o r message messages :
  try_recv (rn_messages r) = (Some message, messages) -> core_ok o r ->
  core_ok o (set_rn_messages r messages) /\
  match message with Completed operation_id output => output_operation output = operation_id | _ => True end.
Proof using laws.
  intros Hrecv (Ha & Hp & He & Hm & Hcap & Hopen & Hmsg). destruct (try_recv_in _ _ _ Hrecv) as [Hin Hrest].
  pose proof (try_recv_queued (rn_messages r)) as Hq. rewrite Hrecv in Hq. cbn in Hq.
  destruct (try_recv_some _ (rn_messages r) message (queued messages) Hq) as (c & Hc & _ & _ & Hc1 & Hc2).
  rewrite Hrecv in Hc. injection Hc as <-. split.
  - split_and!; [by apply (answers_same o _ r)|by apply (permits_same o _ r)| |by apply (mutation_entries o _ r)|].
    { apply (entries_same o _ r); try done. set_solver. }
    split_and!; cbn; [congruence|congruence|]. intros op output Hop. by apply Hmsg, Hrest.
  - destruct message; [done|]. by apply Hmsg.
Qed.

Lemma held_finished o r operation_id entry :
  core_ok o r -> rn_entries r !! operation_id = Some entry -> is_Some (jn_finished (entry_join entry)) ->
  jn_held (entry_join entry) = [].
Proof.
  intros Hok He [b Hb]. destruct (proj1 (proj1 (proj2 (proj2 Hok))) _ _ He) as [_ _ Hp _]. by rewrite Hb in Hp.
Qed.

Lemma selected_in test r operation_ids operation_id entry :
  operation_ids ≡ₚ selected test r -> operation_id ∈ operation_ids -> rn_entries r !! operation_id = Some entry ->
  test entry = true.
Proof.
  intros Hp Hin He. rewrite Hp in Hin. apply list_elem_of_fmap in Hin as ([op e] & -> & Hin).
  apply list_elem_of_In, filter_In in Hin as [Hin Ht]. apply list_elem_of_In, elem_of_map_to_list in Hin.
  cbn in He, Ht. congruence.
Qed.

(** ** The queues of commands *)

Lemma move_lanes takes x y : Move takes x y -> forall lane,
  lane_queue (rn_port y.2) lane = lane_queue (rn_port x.2) lane.
Proof.
  destruct 1; cbn [fst snd]; try done.
  - intros lane. cbn. unfold try_emit. destruct (try_send _ _) as [sent events]. cbn. unfold release_for_event.
    by destruct (po_keys_poisoned (rn_port r)), lane.
  - intros lane. by destruct (slot_history profile_id r) as (_ & _ & _ & _ & _ & _ & -> & _).
  - intros lane. by destruct (draft_slot_history draft_id r) as (_ & _ & _ & _ & _ & _ & -> & _).
  - intros lane. by destruct (acquired_history _ _ _ H) as (_ & _ & _ & _ & _ & _ & -> & _).
  - intros []; cbn; unfold release_control_key; by destruct (po_keys_poisoned (rn_port r)).
Qed.

Lemma moves_lanes takes x y : Moves takes x y -> forall lane,
  lane_queue (rn_port y.2) lane = lane_queue (rn_port x.2) lane.
Proof. induction 1 as [|x y z Hm _ IH]; [done|]. intros lane. rewrite IH. by apply (move_lanes takes). Qed.

(** A submission puts its command on its own lane, or nowhere. *)
Definition submitted (command : UiCommand) (p p' : Ports) : Prop :=
  forall lane other, other ∈ lane_queue p' lane ->
    other ∈ lane_queue p lane \/ (other = command /\ cmd_lane command = lane).

Lemma lane_send_in lane command other :
  other ∈ queued (lane_send lane command).2 -> other ∈ queued lane \/ other = command.
Proof using laws.
  unfold lane_send. pose proof (try_send_queued command lane) as Hq. destruct (try_send command lane) as [sent lane'].
  cbn in *. rewrite Hq, elem_of_app. destruct sent; set_solver.
Qed.

Lemma try_submit_lanes command p : submitted command p (try_submit command p).2.
Proof using laws.
  intros lane other. unfold try_submit. destruct (cmd_lane command) eqn:Hlane.
  - pose proof (lane_send_in (po_work p) command other) as H. destruct (lane_send _ _) as [sent q].
    destruct lane; cbn in *; auto. intros [?| ->]%H; auto.
  - pose proof (lane_send_in (po_mutation p) command other) as H. destruct (lane_send _ _) as [sent q].
    destruct lane; cbn in *; auto. intros [?| ->]%H; auto.
  - destruct (control_key command); [|by left]. destruct (po_keys_poisoned p); [by left|].
    destruct (decide _); [by left|]. cbn [set_keys po_control].
    pose proof (lane_send_in (po_control p) command other) as H. destruct (lane_send _ _) as [[u|e] q];
      destruct lane; cbn in *; auto; intros [?| ->]%H; auto.
  - destruct command; try (by left). destruct (po_shutdown_gone p); by left.
Qed.

Lemma port_lanes p p' : PortStep p p' -> lanes_ok p -> lanes_ok p'.
Proof using laws.
  intros Hstep Hok lane other. destruct Hstep as [command p|build p|p p' Hreserved|p|limit p].
  - intros [H|[-> H]]%try_submit_lanes; [by apply Hok|done].
  - unfold try_submit_with, try_reserve_mutation.
    destruct (refused (po_mutation p)) as [e|] eqn:He.
    { rewrite (try_reserve_refused _ _ e He). cbn. intros H. apply Hok. by destruct lane. }
    destruct (try_reserve_done _ (po_mutation p) He) as (q & -> & Hq & Hres & _). cbn.
    unfold permit_submit. case_bool_decide as Hlane; cbn.
    + destruct (permit_sent _ (build tt) q) as [Hq' _]; [lia|].
      destruct lane; cbn; try apply (Hok LaneWork) || apply (Hok LaneControl) || apply (Hok LaneShutdown).
      rewrite Hq', Hq, elem_of_app. intros [H|H%list_elem_of_singleton]; [by apply (Hok LaneMutation)|by subst other].
    + destruct (permit_dropped _ q) as [Hq' _]; [lia|].
      destruct lane; cbn; try apply (Hok LaneWork) || apply (Hok LaneControl) || apply (Hok LaneShutdown).
      rewrite Hq', Hq. apply (Hok LaneMutation).
  - unfold try_reserve_mutation in Hreserved. destruct (refused (po_mutation p)) as [e|] eqn:He.
    { by rewrite (try_reserve_refused _ _ e He) in Hreserved. }
    destruct (try_reserve_done _ (po_mutation p) He) as (q & Hr & Hq & Hres & _). rewrite Hr in Hreserved.
    injection Hreserved as <-. cbn. destruct (permit_dropped _ q) as [Hq' _]; [lia|].
    destruct lane; cbn; try apply (Hok LaneWork) || apply (Hok LaneControl) || apply (Hok LaneShutdown).
    rewrite Hq', Hq. apply (Hok LaneMutation).
  - unfold request_shutdown. destruct (po_shutdown_gone p); cbn; apply Hok.
  - assert (H : forall lane, lane_queue (drain_events limit p).2 lane = lane_queue p lane).
    { clear. revert p. induction limit as [|limit IH]; intros p lane; [done|]. cbn.
      destruct (try_recv (po_events p)) as [[event|] events].
      - specialize (IH (set_events p events) lane). destruct (drain_events limit _) as [rest p']. cbn in *.
        rewrite IH. by destruct lane.
      - by destruct lane. }
    rewrite H. apply Hok.
Qed.

Lemma lanes_subset p p' :
  (forall lane other, other ∈ lane_queue p' lane -> other ∈ lane_queue p lane) -> lanes_ok p -> lanes_ok p'.
Proof. intros H Hok lane other Hin. by apply Hok, H. Qed.

(** A handler, after a command was taken. *)
Lemma handles_lanes takes o r o' r' : handles takes o r o' r' -> lanes_ok (rn_port r) -> lanes_ok (rn_port r').
Proof.
  intros [Hm _]. apply lanes_subset. intros lane other. by rewrite (moves_lanes takes (o, r) (o', r') Hm).
Qed.

Lemma close_lanes p : lanes_ok (close_and_drain p).
Proof using laws.
  intros lane other. unfold close_and_drain, close_lane.
  assert (H : forall q : mpsc UiCommand, queued (drain (length (queued q)) (mpsc_close q)) = []).
  { intros q. destruct (mpsc_closed _ q) as [<- _]. apply drain_queued. }
  destruct lane; cbn; rewrite ?H; by intros ?%elem_of_nil.
Qed.
End safety.
