(* ===== verification/RuntimeTheorems.v ===== *)
(** * The guarantees of the runtime

    The invariant of RuntimeSafety holds in every reachable state; what follows from it:
    commands are answered once, permits are exclusive, one mutation runs at a time, and
    tasks never wait for each other in a circle. *)

From S2P Require Import Prelude RustStr Model Execution Retention Secrets Profile Config ConfigWriter Drivers Service.
From S2P Require Import ServiceWriter PublicError RedisBrowser UiModel RuntimeEvents DraftTests Tokio CommandPorts Export Editor.
From S2P Require Import MysqlCatalog RuntimeTasks Runtime RuntimeSystem RuntimeMoves RuntimeReplies RuntimeSafety.

Section reached.
Context `{T : Tokio} {laws : TokioLaws T}.

(** ** The invariant holds at the start *)

Lemma initial_core s : core_ok (idle [] ∅) (initial_runtime s).
Proof using laws.
  assert (He : entry_list (initial_runtime s) = []) by apply map_to_list_empty.
  split_and!.
  - unfold answers_ok, registered. by rewrite He.
  - split.
    + unfold all_held, held_list. rewrite He. split; [|by intros a ?%elem_of_nil]. intros a sem. cbn [rn_semaphores initial_runtime]. rewrite lookup_insert_Some, lookup_singleton_Some.
      intros [[<- <-]|[Hne [<- <-]]]; by rewrite semaphore_full.
    + split; cbn [rn_semaphores rn_next rn_profile_permits rn_draft_permits initial_runtime]; try done; try lia.
      intros a [sem H]. rewrite lookup_insert_Some, lookup_singleton_Some in H.
      destruct H as [[<- _]|[_ [<- _]]]; unfold GLOBAL_PERMITS, PROCESS_EXPORT_PERMITS; lia.
  - by split.
  - split; [intros _; split; [done|by intros (op & e & [H _])]|by intros op1 e1 op2 e2 [H _]].
  - destruct (channel_new ControllerMessage None) as (Hq & _ & Hc & Ho). split_and!; [exact Hc|exact Ho|].
    intros op output H. cbn in H. rewrite Hq in H. by apply elem_of_nil in H.
Qed.

Lemma initial_system_ok sys : Initial sys -> system_ok sys.
Proof using laws.
  intros Hsys. assert (Hlanes : lanes_ok controller_ports).
  { intros lane command. unfold controller_ports, ports_with_capacities.
    destruct lane; cbn; [rewrite (proj1 (channel_new UiCommand (Some WORK_CAPACITY)))
      |rewrite (proj1 (channel_new UiCommand (Some MUTATION_CAPACITY)))
      |rewrite (proj1 (channel_new UiCommand (Some CONTROL_CAPACITY)))|]; by intros ?%elem_of_nil. }
  destruct Hsys; (split; [done|apply initial_core|exact Hlanes|done]).
Qed.

(** ** Every step keeps it *)

Lemma task_frame r r' :
  TaskStep r r' ->
  rn_reserved r' = rn_reserved r /\ rn_port r' = rn_port r /\ rn_started r' = rn_started r /\
  rn_offered r' = rn_offered r /\ rn_entries r <> ∅.
Proof.
  assert (Hdrop : forall held r, rn_reserved (drop_permits held r) = rn_reserved r /\
    rn_port (drop_permits held r) = rn_port r /\ rn_started (drop_permits held r) = rn_started r /\
    rn_offered (drop_permits held r) = rn_offered r).
  { intros held. induction held as [|a held IH]; intros r0; [done|]. apply (IH (drop_permit a r0)). }
  assert (Hrun : forall op e r, running r op e -> rn_entries r <> ∅) by (intros op e r0 [H _] Hempty; by rewrite Hempty in H).
  destruct 1 as [op e output s r H _ _|op e r H|op e session r H|op e work targets profile global a r r' H _ _ _ _ Ha
    |op e work targets profile global summary r H|op e s r H]; cbn.
  - destruct (Hdrop (jn_held (entry_join e)) (set_rn_service r s)) as (E1 & E2 & E3 & E4). split_and!; eauto.
  - destruct (Hdrop (jn_held (entry_join e)) r) as (E1 & E2 & E3 & E4). split_and!; eauto.
  - split_and!; eauto.
  - destruct (acquired_same _ _ _ Ha) as [sems ->]. split_and!; eauto.
  - destruct (Hdrop (jn_held (entry_join e)) r) as (E1 & E2 & E3 & E4). split_and!; eauto.
  - split_and!; eauto.
Qed.

Lemma tasks_frame r r' : rtc TaskStep r r' -> rn_reserved r' = rn_reserved r /\ rn_port r' = rn_port r.
Proof.
  induction 1 as [|r1 r2 r3 H _ IH]; [done|]. destruct (task_frame _ _ H) as (Hr & Hp & _), IH as [Hr' Hp'].
  by rewrite Hr', Hp'.
Qed.

(** A handler from the state where nothing is owed but what it is called for. *)
Definition serves (ops : list OperationId) (r : Runtime) : Prop :=
  rn_reserved r = ∅ /\ core_ok (idle ops ∅) r /\ lanes_ok (rn_port r).

Lemma handles_serves takes o ops keys r r' :
  handles takes o r (idle ops keys) r' -> core_ok o r -> lanes_ok (rn_port r) -> serves ops r'.
Proof using laws.
  intros H Hok Hl. split_and!; [apply H| |by eapply handles_lanes].
  eapply core_keys. by eapply handles_core.
Qed.

Lemma message_serves ops r message messages r' :
  serves ops r -> try_recv (rn_messages r) = (Some message, messages) ->
  rtc TaskStep (set_rn_messages r messages) r' -> awaited message r' ->
  serves ops (handle_controller_message message r').
Proof using laws.
  intros (Hr & Hok & Hl) Hrecv Hsteps Hawaited.
  destruct (message_received_core _ _ _ _ Hrecv Hok) as [Hok1 Hm].
  destruct (tasks_frame _ _ Hsteps) as [Hr' Hp']. cbn in Hr', Hp'.
  pose proof (steps_core _ _ _ Hsteps Hok1) as Hok'.
  destruct (core_message_fits ops ∅ r' message Hok' Hm Hawaited) as [keys Hfits].
  eapply (handles_serves (fun _ _ => True)); [|by eapply (core_keys _ _ keys)|by rewrite Hp'].
  apply message_handled; [by rewrite Hr'|by eapply mutation_ok_core|done].
Qed.

Lemma reap_serves ops r operation_ids :
  serves ops r -> operation_ids ≡ₚ selected is_reapable r -> serves ops (reap_panicked_tasks operation_ids r).
Proof using laws.
  intros (Hr & Hok & Hl) Hids. eapply (handles_serves (fun _ _ => True)); [|exact Hok|exact Hl].
  apply reap_handled; [done|by eapply mutation_ok_core|]. intros op e Hin He. split; [done|].
  eapply held_finished; [exact Hok|exact He|]. pose proof (selected_in _ _ _ _ _ Hids Hin He) as Ht.
  unfold is_reapable in Ht. apply andb_true_iff in Ht as [Ht _]. by apply bool_decide_eq_true in Ht.
Qed.

Lemma abort_serves ops r operation_ids :
  serves ops r -> operation_ids ≡ₚ selected is_network r -> serves ops (abort_bounded_work operation_ids r).
Proof using laws.
  intros (Hr & Hok & Hl) Hids. eapply (handles_serves (fun _ _ => True)); [|exact Hok|exact Hl].
  apply abort_handled; [done|]. intros op e Hin He. split; [done|].
  pose proof (selected_in _ _ _ _ _ Hids Hin He) as Ht. by apply bool_decide_eq_true in Ht.
Qed.

(** A command that was received, and its port without it. *)
Lemma command_received ops r command p :
  serves ops r -> is_cancel command = false ->
  core_ok (Owes (cmd_operation_id command :: ops) (held_keys command ∪ ∅) [] ∅ false) (received command (with_port r p)).
Proof using laws. intros (_ & Hok & _) Hc. unfold received. rewrite Hc. exact (received_core _ _ _ _ r p Hok). Qed.

Lemma control_received ops r command p :
  serves ops r -> core_ok (control_owes command ops ∅ false) (received command (with_port r p)).
Proof using laws.
  intros Hs. unfold control_owes. destruct (is_cancel command) eqn:Hc; [|by apply command_received].
  unfold received. rewrite Hc. apply (core_keys _ ∅), port_core, Hs.
Qed.

(** A lane without its first command. *)
Lemma lane_received p lane set command q :
  lane_queue p lane = queued q -> forall q', try_recv q = (Some command, q') ->
  (forall other, lane_queue (set q') other = if decide (other = lane) then queued q' else lane_queue p other) ->
  lanes_ok p -> cmd_lane command = lane /\ lanes_ok (set q').
Proof using laws.
  intros Hq q' Hrecv Hset Hok. destruct (try_recv_in _ _ _ Hrecv) as [Hin Hrest]. split.
  - apply Hok. by rewrite Hq.
  - intros other c. rewrite Hset. destruct (decide _) as [->|]; [|apply Hok]. intros Hc. apply Hok. rewrite Hq. by apply Hrest.
Qed.

Lemma lane_not_cancel command : cmd_lane command <> LaneControl -> is_cancel command = false.
Proof. by destruct command. Qed.

Lemma received_port command r : rn_port (received command r) = rn_port r /\ rn_reserved (received command r) = rn_reserved r.
Proof. unfold received. by destruct (is_cancel command). Qed.

(** The three lanes. *)
Lemma set_lane_queue p q :
  (forall other, lane_queue (set_control p q) other = if decide (other = LaneControl) then queued q else lane_queue p other) /\
  (forall other, lane_queue (set_mutation p q) other = if decide (other = LaneMutation) then queued q else lane_queue p other) /\
  (forall other, lane_queue (set_work p q) other = if decide (other = LaneWork) then queued q else lane_queue p other).
Proof. split_and!; by intros []. Qed.

Lemma control_taken p command q :
  try_recv (po_control p) = (Some command, q) -> lanes_ok p -> cmd_lane command = LaneControl /\ lanes_ok (set_control p q).
Proof using laws. intros H. by apply (lane_received p LaneControl (set_control p) command _ eq_refl _ H), set_lane_queue. Qed.
Lemma mutation_taken p command q :
  try_recv (po_mutation p) = (Some command, q) -> lanes_ok p -> cmd_lane command = LaneMutation /\ lanes_ok (set_mutation p q).
Proof using laws. intros H. by apply (lane_received p LaneMutation (set_mutation p) command _ eq_refl _ H), set_lane_queue. Qed.
Lemma work_taken p command q :
  try_recv (po_work p) = (Some command, q) -> lanes_ok p -> cmd_lane command = LaneWork /\ lanes_ok (set_work p q).
Proof using laws. intros H. by apply (lane_received p LaneWork (set_work p) command _ eq_refl _ H), set_lane_queue. Qed.

Lemma emit_serves ops r event p :
  serves ops r -> lanes_ok p ->
  serves ops (emit event (set_rn_started (with_port r p) (rn_started r ++ [event_operation_id event]))).
Proof using laws.
  intros (Hr & Hok & _) Hl. eapply (handles_serves (fun _ _ => True) _ ops ∅); [|by eapply (received_core _ _ _ ∅)|exact Hl].
  by apply handles_emit.
Qed.

Lemma unavailable_serves ops r command summary p :
  serves ops r -> lanes_ok p ->
  serves ops (emit (failure_for_unavailable command summary)
    (set_rn_started (with_port r p) (rn_started r ++ [cmd_operation_id command]))).
Proof using laws. rewrite <- (unavailable_operation command summary). apply emit_serves. Qed.

Lemma prune_serves ops r : serves ops r -> serves ops (draft_prune_idle (profile_prune_idle r)).
Proof using laws.
  intros (Hr & Hok & Hl). eapply (handles_serves (fun _ _ => True)); [|exact Hok|exact Hl].
  split; [apply rtc_once, move_prune|exact Hr].
Qed.

Context (shell_split : str -> option (list str)).

Lemma serving_ok r r' phase :
  LoopStep shell_split Serving r phase r' -> serves [] r -> phase = Serving /\ serves [] r'.
Proof using laws.
  intros Hstep Hs. inversion Hstep; subst; (split; [done|]).
  - by eapply message_serves.
  - destruct Hs as (Hr & Hok & Hl). destruct (control_taken _ _ _ H0 Hl) as [_ Hl'].
    destruct (received_port command (with_port r (set_control (rn_port r) lane))) as [Hp Hr'].
    eapply (handles_serves (fun _ _ => True)); [|by eapply (control_received [])|by rewrite Hp].
    apply control_command_handled. by rewrite Hr'.
  - destruct (mutation_taken _ _ _ H2 (proj2 (proj2 Hs))) as [Hlane Hl'].
    assert (Hc : is_cancel command = false) by (apply lane_not_cancel; by rewrite Hlane).
    pose proof (command_received [] r command (set_mutation (rn_port r) lane) Hs Hc) as Hok'.
    set (r1 := received command _) in *. pose proof (received_port command (with_port r (set_mutation (rn_port r) lane))) as [Hp Hr'].
    fold r1 in Hp, Hr'.
    pose proof (mutation_handled (fun _ _ => True) command [] (held_keys command ∪ ∅) false r1) as Hh.
    rewrite H3 in Hh. eapply handles_serves; [apply Hh| |].
    + rewrite Hr'. apply Hs.
    + done.
    + intros Hm. destruct (mutation_ok_core _ _ _ (proj1 (proj2 Hs))) as [Ha _].
      assert (Hm' : has_mutation r).
      { revert Hm. unfold r1, received. by rewrite Hc. }
      apply Ha in Hm'. congruence.
    + exact Hok'.
    + by rewrite Hp.
  - destruct (work_taken _ _ _ H2 (proj2 (proj2 Hs))) as [Hlane Hl'].
    assert (Hc : is_cancel command = false) by (apply lane_not_cancel; by rewrite Hlane).
    destruct (received_port command (with_port r (set_work (rn_port r) lane))) as [Hp Hr'].
    eapply (handles_serves (fun _ _ => True)); [|by apply (command_received [])|by rewrite Hp].
    apply work_handled. rewrite Hr'. apply Hs.
  - by apply prune_serves, reap_serves.
Qed.

Lemma stop_serves ops operation_id r :
  core_ok (Owes (operation_id :: ops) ∅ [] ∅ false) r -> rn_reserved r = ∅ -> lanes_ok (rn_port r) ->
  serves ops (stop operation_id r) /\ rn_entries (stop operation_id r) = rn_entries r.
Proof using laws.
  intros Hok Hr Hl.
  assert (Hs : serves ops (emit (RuntimeShutdown operation_id) r)).
  { eapply (handles_serves (fun _ _ => True) _ ops ∅); [|exact Hok|exact Hl]. by apply handles_emit. }
  unfold stop. destruct Hs as (Hr' & Hok' & Hl'). split; [|done]. split_and!; [exact Hr'|by apply port_core|].
  intros lane other. cbn. unfold port_dropped.
  destruct lane; cbn; [destruct (mpsc_closed _ (po_work (rn_port (emit (RuntimeShutdown operation_id) r)))) as [Hq _]
    |destruct (mpsc_closed _ (po_mutation (rn_port (emit (RuntimeShutdown operation_id) r)))) as [Hq _]
    |destruct (mpsc_closed _ (po_control (rn_port (emit (RuntimeShutdown operation_id) r)))) as [Hq _]|by intros ?%elem_of_nil];
    cbn in Hq; rewrite Hq; [apply (Hl' LaneWork)|apply (Hl' LaneMutation)|apply (Hl' LaneControl)].
Qed.

Lemma draining_ok operation_id overdue r r' phase :
  LoopStep shell_split (Draining operation_id overdue) r phase r' -> serves [operation_id] r ->
  serves (phase_ops phase) r' /\ match phase with Stopped | Unavailable _ => rn_entries r' = ∅ | _ => True end.
Proof using laws.
  intros Hstep Hs. inversion Hstep; subst; try (split; [|done]).
  - by eapply message_serves.
  - by apply reap_serves.
  - exact Hs.
  - by apply abort_serves.
  - destruct Hs as (Hr & Hok & Hl).
    destruct (stop_serves [] operation_id (set_rn_service r (shutdown_runtime (rn_service r)))) as [Hs He].
    + by apply service_core.
    + exact Hr.
    + exact Hl.
    + split; [exact Hs|]. rewrite He.
      match goal with Hempty : is_empty_runtime _ = true |- _ => by apply bool_decide_eq_true in Hempty end.
Qed.

Lemma unavailable_ok summary r r' phase :
  LoopStep shell_split (Unavailable summary) r phase r' -> serves [] r -> rn_entries r = ∅ ->
  serves (phase_ops phase) r' /\ match phase with Stopped | Unavailable _ => rn_entries r' = ∅ | _ => True end.
Proof using laws.
  intros Hstep Hs He. inversion Hstep; subst; (split; [apply unavailable_serves; [done|]|exact He]).
  - by eapply control_taken; [|apply Hs].
  - by eapply mutation_taken; [|apply Hs].
  - by eapply work_taken; [|apply Hs].
Qed.

Lemma shutdown_serves operation_id r :
  serves [] r -> serves [operation_id] (start_shutdown operation_id r).
Proof using laws.
  intros (Hr & Hok & _). unfold start_shutdown, cancel_all.
  set (r1 := set_rn_started _ _).
  pose proof (cancel_waiters_spec (fun _ _ => True) (fun _ => true) r1) as H.
  destruct (cancel_waiters (fun _ => true) r1) as [waiters r2]. cbn. destruct H as ((_ & Hres & _) & _ & Hm).
  eapply (handles_serves (fun _ _ => True) _ [operation_id] ∅ r1);
    [|exact (received_core _ _ _ ∅ r (close_and_drain (rn_port r)) Hok)|apply close_lanes].
  split; [apply Hm|]. by rewrite Hres.
Qed.

Lemma step_ok sys sys' : Step shell_split sys sys' -> system_ok sys -> system_ok sys'.
Proof using laws.
  intros Hstep [Hr Hok Hl Hstop]. assert (Hs : serves (phase_ops (sm_phase sys)) (sm_runtime sys)) by done.
  destruct Hstep as [sys p Hgone Hport|sys|sys r Htask|sys phase r Hsignal Hloop|sys op Hphase Hsignal|sys summary op Hphase Hsignal].
  - split; cbn; [done|by apply port_core|by eapply port_lanes|done].
  - by split.
  - destruct (task_frame _ _ Htask) as (Hr' & Hp' & _ & _ & He). split; cbn.
    + by rewrite Hr'.
    + by eapply step_core.
    + by rewrite Hp'.
    + by destruct (sm_phase sys).
  - cut (serves (phase_ops phase) r /\ match phase with Stopped | Unavailable _ => rn_entries r = ∅ | _ => True end).
    { intros [(Hr' & Hok' & Hl') Hstop']. by split. }
    destruct (sm_phase sys) as [|op overdue|summary|]; cbn in *.
    + destruct (serving_ok _ _ _ Hloop Hs) as [-> Hs']. done.
    + by eapply draining_ok.
    + by eapply unavailable_ok.
    + inversion Hloop.
  - rewrite Hphase in Hs. by destruct (shutdown_serves op _ Hs) as (Hr' & Hok' & Hl').
  - rewrite Hphase in *. destruct (stop_serves [] op (set_rn_started
      (with_port (sm_runtime sys) (close_and_drain (rn_port (sm_runtime sys)))) (rn_started (sm_runtime sys) ++ [op])))
      as [(Hr' & Hok' & Hl') He].
    + exact (received_core _ _ _ ∅ _ _ Hok).
    + exact Hr.
    + apply close_lanes.
    + split; cbn; [done|done|done|]. etrans; [exact He|exact Hstop].
Qed.

Lemma reached_system_ok sys : Reached shell_split sys -> system_ok sys.
Proof using laws.
  intros (sys0 & Hinit & Hsteps). apply initial_system_ok in Hinit. revert Hinit.
  induction Hsteps as [|s1 s2 s3 Hstep _ IH]; [done|]. intros H. by eapply IH, step_ok.
Qed.

(** ** Every command is answered once *)

(** C12: What the runtime has taken from its queues is what it has answered and what its
    registry still holds: for each command, Cancel apart, exactly one event with its
    operation is offered to the queue of events, whatever task panics, is cancelled or
    aborted; the shutdown is answered last, when the registry is empty.  (A full queue of
    events drops what it is offered.) *)
Theorem commands_answered_once sys :
  Reached shell_split sys ->
  let r := sm_runtime sys in
  (event_operation_id <$> rn_offered r) ++ (map_to_list (rn_entries r)).*1 ++
    match sm_phase sys with Draining operation_id _ => [operation_id] | _ => [] end ≡ₚ rn_started r /\
  (sm_phase sys = Stopped -> rn_entries r = ∅ /\ event_operation_id <$> rn_offered r ≡ₚ rn_started r).
Proof using laws.
  intros [_ (Ha & _) _ Hstop]%reached_system_ok r. split; [exact Ha|]. intros Hphase. rewrite Hphase in Ha, Hstop.
  split; [exact Hstop|]. unfold answers_ok, answered, registered, entry_list in Ha. fold r in Ha, Hstop.
  rewrite Hstop, map_to_list_empty in Ha. cbn in Ha. by rewrite app_nil_r in Ha.
Qed.

(** ** Permits *)

(** The permits of running tasks: at most the capacity of each semaphore. *)
Lemma held_bounded o r a : permits_ok o r -> count a (held_list r) <= permit_capacity a.
Proof.
  intros [[Hc Hk] _]. destruct (decide (a ∈ all_held o r)) as [Hin|Hnotin].
  - destruct (Hk a Hin) as [s Hs]. specialize (Hc a s Hs). unfold all_held in Hc. rewrite count_app in Hc. lia.
  - rewrite count_notin; [lia|]. intros H. apply Hnotin, elem_of_app. by left.
Qed.

Lemma held_twice r op1 e1 op2 e2 a :
  rn_entries r !! op1 = Some e1 -> rn_entries r !! op2 = Some e2 ->
  a ∈ jn_held (entry_join e1) -> a ∈ jn_held (entry_join e2) -> op1 <> op2 -> 2 <= count a (held_list r).
Proof.
  intros H1 H2 Ha1 Ha2 Hne. destruct (lists_taken op1 e1 r H1) as [_ Hh].
  destruct (lists_taken op2 e2 (take op1 r).2) as [_ Hh2]; [cbn; by rewrite lookup_delete_ne|].
  rewrite Hh, Hh2, !count_app. apply count_in in Ha1, Ha2. lia.
Qed.

(** The permit of its own that a running task holds. *)
Definition connects_to (key : ProfileId + DraftId) (j : Join) : Prop :=
  match jn_body j with
  | BodyDraft input => key = inr (dw_draft_id input)
  | BodyProfile work => key = inl (ri_profile_id (work_identity work).1)
  | BodyControl work _ _ => key = inl (ri_profile_id (control_identity work).1.1) /\ may_connect j
  | _ => False
  end.

Definition own_permit (key : ProfileId + DraftId) (r : Runtime) : option Address :=
  match key with inl profile_id => rn_profile_permits r !! profile_id | inr draft_id => rn_draft_permits r !! draft_id end.

Lemma connects_holds r key j :
  permits_fit r j -> connects_to key j ->
  exists a, own_permit key r = Some a /\ a ∈ jn_held j /\ GLOBAL_PERMITS ∈ jn_held j.
Proof.
  unfold permits_fit, connects_to, may_connect. destruct (jn_body j) as [|input|work|work targets plan| | |]; try done.
  - intros (a & Ha & ->) ->. exists a. split_and!; [done|set_solver..].
  - intros (a & Ha & ->) ->. exists a. split_and!; [done|set_solver..].
  - destruct work, plan as [[a g|a g]|]; intros Hfit [-> Hmay]; try done.
    + destruct Hfit as (-> & Ha & ->). exists a. split_and!; [done|set_solver..].
    + destruct Hfit as (-> & Ha & _ & _), Hmay as (_ & Hin & Hg). by exists a.
Qed.

(** C13: Two running tasks that may use the session of the same profile, or that test the
    same draft, are the same task. *)
Theorem sessions_exclusive sys op1 e1 op2 e2 key :
  Reached shell_split sys -> running (sm_runtime sys) op1 e1 -> running (sm_runtime sys) op2 e2 ->
  connects_to key (entry_join e1) -> connects_to key (entry_join e2) -> op1 = op2.
Proof using laws.
  intros [_ (_ & Hp & He & _) _ _]%reached_system_ok [H1 Hr1] [H2 Hr2] Hc1 Hc2.
  destruct (proj1 He _ _ H1) as [_ _ Hf1 _], (proj1 He _ _ H2) as [_ _ Hf2 _]. rewrite Hr1 in Hf1. rewrite Hr2 in Hf2.
  destruct (connects_holds _ _ _ Hf1 Hc1) as (a & Ha & Hin1 & _).
  destruct (connects_holds _ _ _ Hf2 Hc2) as (b & Hb & Hin2 & _).
  assert (b = a) as -> by congruence. destruct (decide (op1 = op2)) as [|Hne]; [done|exfalso].
  pose proof (held_twice _ _ _ _ _ a H1 H2 Hin1 Hin2 Hne) as Htwo.
  pose proof (held_bounded _ _ a Hp) as Hbound. destruct Hp as [_ Hslots].
  assert (2 <= a)%N by (destruct key; cbn in Ha; [by eapply (sk_profile _ Hslots)|by eapply (sk_draft _ Hslots)]).
  unfold permit_capacity, GLOBAL_PERMITS, PROCESS_EXPORT_PERMITS in Hbound.
  destruct (N.eqb_spec a 0); [lia|]. destruct (N.eqb_spec a 1); lia.
Qed.

(** The tasks that use the network, and the exports. *)
Definition uses_network (entry : RegistryEntry) : Prop :=
  jn_finished (entry_join entry) = None /\ exists key, connects_to key (entry_join entry).
Definition exports_now (entry : RegistryEntry) : Prop :=
  jn_finished (entry_join entry) = None /\ exists request confirmation,
    jn_body (entry_join entry) = BodyExport request confirmation.

Lemma holders_bounded a (l : list (OperationId * RegistryEntry)) (m : list (OperationId * RegistryEntry)) :
  l ⊆+ m -> (forall entry, entry ∈ l -> a ∈ jn_held (entry_join entry.2)) ->
  length l <= count a (mjoin ((fun entry => jn_held (entry_join entry.2)) <$> m)).
Proof.
  intros [rest Hp]%submseteq_Permutation Hin.
  rewrite (mjoin_fmap_Permutation _ _ _ Hp), fmap_app, join_app, count_app.
  cut (length l <= count a (mjoin ((fun entry => jn_held (entry_join entry.2)) <$> l))); [lia|].
  clear Hp. induction l as [|entry l IH]; [done|].
  change (S (length l) <= count a (jn_held (entry_join entry.2) ++
    mjoin ((fun entry => jn_held (entry_join entry.2)) <$> l))). rewrite count_app.
  pose proof (count_in a _ (Hin entry ltac:(by left))). specialize (IH ltac:(intros e He; apply Hin; by right)). lia.
Qed.

(** C28: Any operations that use the network at the same time are at most
    [GLOBAL_NETWORK_LIMIT], any exports at most [PROCESS_EXPORT_LIMIT]; and when no task is
    registered every permit is back. *)
Theorem permits_bounded sys :
  Reached shell_split sys ->
  let r := sm_runtime sys in
  (forall l, NoDup l -> (forall op, op ∈ l -> exists entry, rn_entries r !! op = Some entry /\ uses_network entry) ->
     length l <= GLOBAL_NETWORK_LIMIT) /\
  (forall l, NoDup l -> (forall op, op ∈ l -> exists entry, rn_entries r !! op = Some entry /\ exports_now entry) ->
     length l <= PROCESS_EXPORT_LIMIT) /\
  (rn_entries r = ∅ -> forall a sem, rn_semaphores r !! a = Some sem -> available_permits sem = permit_capacity a).
Proof using laws.
  intros [_ (_ & Hp & He & _) _ _]%reached_system_ok r. fold r in Hp, He.
  assert (Hcount : forall a (test : RegistryEntry -> Prop) l, NoDup l ->
    (forall op, op ∈ l -> exists entry, rn_entries r !! op = Some entry /\ test entry) ->
    (forall op entry, rn_entries r !! op = Some entry -> test entry -> a ∈ jn_held (entry_join entry)) ->
    length l <= permit_capacity a).
  { intros a test l Hnd Hl Htest. etrans; [|exact (held_bounded _ r a Hp)].
    set (with_entry := omap (fun op => entry ← rn_entries r !! op; Some (op, entry)) l).
    assert (Hfst : with_entry.*1 = l).
    { unfold with_entry. clear Hnd. induction l as [|op l IH]; [done|]. cbn.
      destruct (Hl op ltac:(by left)) as (entry & -> & _). cbn. f_equal. apply IH. intros op' Hop. apply Hl. by right. }
    assert (Hin : forall entry, entry ∈ with_entry -> entry.1 ∈ l /\ rn_entries r !! entry.1 = Some entry.2).
    { intros [op entry] (op' & Hop & (e & Hlookup & [= <- <-])%bind_Some)%list_elem_of_omap. done. }
    rewrite <- Hfst, length_fmap. apply holders_bounded.
    - apply NoDup_submseteq; [by apply (NoDup_fmap_1 fst); rewrite Hfst|].
      intros [op entry] Hentry. apply elem_of_map_to_list, (proj2 (Hin _ Hentry)).
    - intros [op entry] Hentry. destruct (Hin _ Hentry) as [Hop Hlookup]. destruct (Hl op Hop) as (e & Hlookup' & Ht).
      cbn in *. assert (e = entry) as -> by congruence. by apply (Htest op). }
  split_and!.
  - intros l Hnd Hl. apply (Hcount GLOBAL_PERMITS uses_network l Hnd Hl). intros op entry Hlookup [Hrun [key Hkey]].
    destruct (proj1 He _ _ Hlookup) as [_ _ Hf _]. rewrite Hrun in Hf. by destruct (connects_holds _ _ _ Hf Hkey) as (a & _ & _ & Hg).
  - intros l Hnd Hl. apply (Hcount PROCESS_EXPORT_PERMITS exports_now l Hnd Hl).
    intros op entry Hlookup (Hrun & request & confirmation & Hb).
    destruct (proj1 He _ _ Hlookup) as [_ _ Hf _]. rewrite Hrun in Hf. unfold permits_fit in Hf. rewrite Hb in Hf.
    rewrite Hf. by left.
  - intros Hempty a sem Hsem. destruct Hp as [[Hc _] _]. specialize (Hc a sem Hsem).
    unfold all_held, held_list, entry_list in Hc. rewrite Hempty, map_to_list_empty in Hc. cbn in Hc. lia.
Qed.

(** ** Mutations and waiting *)

(** A mutation is active exactly when one is registered, and two are never registered
    together: the profiles and the configuration are changed by one operation at a time. *)
Theorem mutation_exclusive sys :
  Reached shell_split sys ->
  let r := sm_runtime sys in
  (rn_mutation_active r = true <->
     exists op entry, rn_entries r !! op = Some entry /\ en_class entry = MutationTask) /\
  (forall op1 e1 op2 e2,
     rn_entries r !! op1 = Some e1 -> en_class e1 = MutationTask ->
     rn_entries r !! op2 = Some e2 -> en_class e2 = MutationTask -> op1 = op2).
Proof using laws.
  intros [_ (_ & _ & _ & [Ha Hone] & _) _ _]%reached_system_ok r. split; [by apply Ha|].
  intros op1 e1 op2 e2 H1 Hc1 H2 Hc2. by apply (Hone op1 e1 op2 e2).
Qed.

(** The entry whose terminal is the least. *)
Lemma least_terminal (m : gmap N RegistryEntry) :
  m <> ∅ -> exists op entry, m !! op = Some entry /\
    forall op' entry', m !! op' = Some entry' -> (en_terminal entry <= en_terminal entry')%N.
Proof.
  induction m as [|op entry m Hnone IH] using map_ind; [done|]. intros _.
  destruct (decide (m = ∅)) as [->|Hne].
  - exists op, entry. rewrite lookup_insert_eq. split; [done|].
    intros op' entry' [[<- <-]|[_ [=]]]%lookup_insert_Some. lia.
  - destruct (IH Hne) as (op0 & entry0 & H0 & Hleast).
    destruct (N.le_gt_cases (en_terminal entry0) (en_terminal entry)) as [Hle|Hlt].
    + exists op0, entry0. rewrite lookup_insert_ne by congruence. split; [done|].
      intros op' entry' [[<- <-]|[_ H']]%lookup_insert_Some; [done|by apply (Hleast op')].
    + exists op, entry. rewrite lookup_insert_eq. split; [done|].
      intros op' entry' [[<- <-]|[_ H']]%lookup_insert_Some; [lia|]. specialize (Hleast op' entry' H'). lia.
Qed.

(** C27: As long as tasks are registered, one of them waits for no other: all the terminals
    it awaits are cancelled. Tasks never wait for each other in a circle. *)
Theorem no_waiting_circle sys :
  Reached shell_split sys -> rn_entries (sm_runtime sys) <> ∅ ->
  exists op entry, rn_entries (sm_runtime sys) !! op = Some entry /\ targets_over (entry_join entry) (sm_runtime sys).
Proof using laws.
  intros [_ (_ & _ & He & _) _ _]%reached_system_ok Hne. destruct (least_terminal _ Hne) as (op & entry & H & Hleast).
  exists op, entry. split; [done|]. intros token Hin. destruct (proj1 He _ _ H) as [_ _ _ Hw].
  destruct (Hw token Hin) as [Hlt [Hc|[(op' & entry' & H' & <-)|Howed]]]; [done| |by apply elem_of_empty in Howed].
  specialize (Hleast op' entry' H'). lia.
Qed.
End reached.

(** ** An execution

    Credentials are stored and a connection is tested; the task of the test panics, and
    the runtime is shut down. *)

Lemma reached_step `{T : Tokio} shell_split sys sys' :
  Step shell_split sys sys' -> Reached shell_split sys -> Reached shell_split sys'.
Proof. intros Hstep (sys0 & Hinit & Hsteps). exists sys0. split; [done|]. by eapply rtc_r. Qed.

Definition no_words : str -> option (list str) := fun _ => None.

Definition system_at (phase : Phase) (r : Runtime) : System := {| sm_phase := phase; sm_ui_gone := false; sm_runtime := r |}.

Definition entry_at (op : OperationId) (r : Runtime) : RegistryEntry :=
  match rn_entries r !! op with
  | Some entry => entry
  | None => new_entry op ScopeGlobal (BodyMutation (CmdRefreshProfiles op)) [] MutationTask FcProfiles r
  end.

Definition store_command : UiCommand :=
  CmdStoreCredentials 7 (lit "p") 1 CreateProfile (lit "pw").
Definition connect_command : UiCommand := CmdTestConnection 8 (lit "p") 1 30000.

Definition ui_submitted (command : UiCommand) (r : Runtime) : Runtime :=
  with_port r (try_submit command (rn_port r)).2.
Definition mutation_served (command : UiCommand) (r : Runtime) : bool * Runtime :=
  start_mutation command (received command (with_port r (set_mutation (rn_port r) (try_recv (po_mutation (rn_port r))).2))).
Definition work_served (command : UiCommand) (r : Runtime) : Runtime :=
  handle_work no_words command (received command (with_port r (set_work (rn_port r) (try_recv (po_work (rn_port r))).2))).

Definition submitted_runtime : Runtime :=
  ui_submitted connect_command (ui_submitted store_command (initial_runtime sample_service)).
Definition mutation_runtime : Runtime :=
  set_rn_mutation_active (mutation_served store_command submitted_runtime).2 (mutation_served store_command submitted_runtime).1.
Definition busy_runtime : Runtime := work_served connect_command mutation_runtime.

Lemma submit_turn command r :
  Reached no_words (system_at Serving r) -> Reached no_words (system_at Serving (ui_submitted command r)).
Proof. apply reached_step. by apply (step_port no_words (system_at Serving r)); [|apply ui_submits]. Qed.

Lemma busy_reached : Reached no_words (system_at Serving busy_runtime).
Proof.
  assert (H1 : Reached no_words (system_at Serving submitted_runtime)).
  { apply submit_turn, submit_turn.
    exists (system_at Serving (initial_runtime sample_service)). split; [constructor|done]. }
  assert (H2 : Reached no_words (system_at Serving mutation_runtime)).
  { refine (reached_step no_words _ _ _ H1). apply (step_loop no_words (system_at Serving _)); [by vm_compute|].
    eapply (serves_mutation no_words store_command _ submitted_runtime); vm_compute; reflexivity. }
  refine (reached_step no_words _ _ _ H2). apply (step_loop no_words (system_at Serving _)); [by vm_compute|].
  eapply (serves_work no_words connect_command); try (vm_compute; reflexivity). by left.
Qed.

(** The task that stores the credentials ends; the test panics and is cleaned up; the
    interface shuts the runtime down. *)
Definition completed (op : OperationId) (r : Runtime) : Runtime :=
  match jn_body (entry_join (entry_at op r)) with
  | BodyMutation command =>
      let '(output, s) := run_mutation sample_env [] command (rn_service r) in complete_task op (entry_at op r) output s r
  | BodyCleanup scope failure =>
      complete_task op (entry_at op r) (OutEvent (internal_failure_event op failure))
        (cleanup_failed_scope scope (rn_service r)) r
  | _ => r
  end.

Definition message_served (r : Runtime) : Runtime :=
  match try_recv (rn_messages r) with
  | (Some message, messages) => handle_controller_message message (set_rn_messages r messages)
  | _ => r
  end.

Definition tick_served (r : Runtime) : Runtime :=
  draft_prune_idle (profile_prune_idle (reap_panicked_tasks (selected is_reapable r) r)).

Definition panicked_runtime : Runtime :=
  let r := completed 7 busy_runtime in panic_task 8 (entry_at 8 r) r.
Definition idle_runtime : Runtime := message_served (completed 8 (tick_served (message_served panicked_runtime))).
Definition signalled_runtime : Runtime := ui_submitted (CmdShutdownRuntime 9) idle_runtime.
Definition stopped_runtime : Runtime :=
  let r := start_shutdown 9 signalled_runtime in stop 9 (set_rn_service r (shutdown_runtime (rn_service r))).

(** One turn of the loop on a message, when the task it is of has ended. *)
Lemma message_turn r :
  (match try_recv (rn_messages r) with
   | (Some message, messages) => awaited message (set_rn_messages r messages)
   | _ => False
   end) ->
  shutdown_signal (system_at Serving r) = None ->
  Reached no_words (system_at Serving r) -> Reached no_words (system_at Serving (message_served r)).
Proof.
  unfold message_served. destruct (try_recv (rn_messages r)) as [[message|] messages] eqn:Hrecv; [|done].
  intros Hawaited Hsignal. apply reached_step, (step_loop no_words (system_at Serving _)); [done|].
  by eapply serves_message.
Qed.

Lemma tick_turn r :
  nothing_left (rn_messages r) -> nothing_left (po_control (rn_port r)) -> rn_mutation_active r = true \/ nothing_left (po_mutation (rn_port r)) ->
  nothing_left (po_work (rn_port r)) -> shutdown_signal (system_at Serving r) = None ->
  Reached no_words (system_at Serving r) -> Reached no_words (system_at Serving (tick_served r)).
Proof.
  intros H1 H2 H3 H4 Hsignal. apply reached_step, (step_loop no_words (system_at Serving _)); [done|]. by apply serves_tick.
Qed.

Lemma task_turn r r' :
  TaskStep r r' -> Reached no_words (system_at Serving r) -> Reached no_words (system_at Serving r').
Proof. intros Hstep. apply reached_step. by apply (step_task no_words (system_at Serving _)). Qed.

Lemma panicked_reached : Reached no_words (system_at Serving panicked_runtime).
Proof.
  eapply task_turn; [|eapply task_turn; [|exact busy_reached]].
  - apply task_panics. by split; vm_compute.
  - change (TaskStep busy_runtime (completed 7 busy_runtime)).
    set (output := (run_mutation sample_env [] store_command (rn_service busy_runtime)).1).
    set (s := (run_mutation sample_env [] store_command (rn_service busy_runtime)).2).
    change (TaskStep busy_runtime (complete_task 7 (entry_at 7 busy_runtime) output s busy_runtime)).
    apply task_completes; [by split; vm_compute|by intros token ?%elem_of_nil|].
    apply (ends_mutation _ _ _ _ store_command sample_env []); [done|]. apply surjective_pairing.
Qed.

Lemma idle_reached : Reached no_words (system_at Serving idle_runtime).
Proof.
  set (r := tick_served (message_served panicked_runtime)).
  apply (message_turn (completed 8 r)); [by vm_compute; intros entry [= <-]|by vm_compute|].
  eapply (task_turn r).
  - change (TaskStep r (complete_task 8 (entry_at 8 r) (OutEvent (internal_failure_event 8 (en_failure (entry_at 8 r))))
      (cleanup_failed_scope (rk_scope (en_task (entry_at 8 r))) (rn_service r)) r)).
    apply task_completes; [by split; vm_compute|by intros token ?%elem_of_nil|].
    by apply ends_cleanup.
  - apply (tick_turn (message_served panicked_runtime)); try (by vm_compute); [by right; vm_compute|].
    apply (message_turn panicked_runtime); [by vm_compute; intros entry [= <-]|by vm_compute|apply panicked_reached].
Qed.

Lemma stopped_reached : Reached no_words (system_at Stopped stopped_runtime).
Proof.
  refine (reached_step no_words (system_at (Draining 9 false) (start_shutdown 9 signalled_runtime)) _ _ _).
  { assert (Hempty : is_empty_runtime (start_shutdown 9 signalled_runtime) = true) by (vm_compute; reflexivity).
    apply (step_loop no_words (system_at (Draining 9 false) _)); [done|].
    exact (drains_stops no_words 9 false (start_shutdown 9 signalled_runtime) Hempty). }
  refine (reached_step no_words (system_at Serving signalled_runtime) _ _ _).
  { assert (Hsignal : shutdown_signal (system_at Serving signalled_runtime) = Some 9%N) by (vm_compute; reflexivity).
    exact (step_shutdown no_words (system_at Serving signalled_runtime) 9 eq_refl Hsignal). }
  exact (submit_turn (CmdShutdownRuntime 9) idle_runtime idle_reached).
Qed.

(** ** The theorems on the execution *)

Lemma commands_answered_once_witness :
  event_operation_id <$> rn_offered stopped_runtime ≡ₚ [7; 8; 9]%N.
Proof.
  etrans; [apply (commands_answered_once no_words (system_at Stopped stopped_runtime) stopped_reached); reflexivity|].
  vm_compute. reflexivity.
Defined.

Lemma sessions_exclusive_witness :
  running busy_runtime 8 (entry_at 8 busy_runtime) /\ connects_to (inl (lit "p")) (entry_join (entry_at 8 busy_runtime)) /\
  (8 = 8)%N.
Proof.
  split_and!; [by split; vm_compute|by vm_compute|].
  apply (sessions_exclusive no_words (system_at Serving busy_runtime) 8 (entry_at 8 busy_runtime) 8
    (entry_at 8 busy_runtime) (inl (lit "p")) busy_reached); try (by split; vm_compute); by vm_compute.
Defined.

Lemma permits_bounded_witness :
  exists sem, rn_semaphores stopped_runtime !! GLOBAL_PERMITS = Some sem /\
    available_permits sem = GLOBAL_NETWORK_LIMIT.
Proof.
  destruct (rn_semaphores stopped_runtime !! GLOBAL_PERMITS) as [sem|] eqn:Hsem; [|by vm_compute in Hsem].
  exists sem. split; [done|].
  apply (proj2 (proj2 (permits_bounded no_words (system_at Stopped stopped_runtime) stopped_reached))
    ltac:(vm_compute; reflexivity) GLOBAL_PERMITS sem Hsem).
Defined.

Lemma mutation_exclusive_witness :
  rn_mutation_active busy_runtime = true /\
  exists op entry, rn_entries busy_runtime !! op = Some entry /\ en_class entry = MutationTask.
Proof.
  assert (Ha : rn_mutation_active busy_runtime = true) by (vm_compute; reflexivity).
  split; [exact Ha|].
  exact (proj1 (proj1 (mutation_exclusive no_words (system_at Serving busy_runtime) busy_reached)) Ha).
Defined.

Lemma no_waiting_circle_witness :
  exists op entry, rn_entries busy_runtime !! op = Some entry /\ targets_over (entry_join entry) busy_runtime.
Proof.
  apply (no_waiting_circle no_words (system_at Serving busy_runtime) busy_reached). by vm_compute.
Defined.
