(* ===== verification/RuntimeKeys.v ===== *)
(** * Control keys are given back

    The interface coalesces a Cancel, Disconnect or Reconnect while the key of an equal
    command is held.  While the runtime serves, a held key belongs to a command that is
    still queued or to a task that is still registered: no control is locked out for
    good, whatever fails. *)

From S2P Require Import Prelude RustStr Model Execution Retention Secrets Profile Config ConfigWriter Drivers Service.
From S2P Require Import ServiceWriter PublicError RedisBrowser UiModel RuntimeEvents DraftTests Tokio CommandPorts Export Editor.
From S2P Require Import MysqlCatalog RuntimeTasks Runtime RuntimeSystem RuntimeMoves RuntimeReplies RuntimeSafety RuntimeTheorems.

Definition releases_keys (output : TaskOutput) (keys : gset ControlKey) : Prop :=
  match output with OutEvent event => keys ⊆ released_by event | _ => keys = ∅ end.

Definition completed_ops (messages : list ControllerMessage) : list OperationId :=
  omap (fun message => match message with Completed operation_id _ => Some operation_id | _ => None end) messages.

Lemma elem_of_completed_ops op messages :
  op ∈ completed_ops messages <-> exists output, Completed op output ∈ messages.
Proof.
  unfold completed_ops. rewrite list_elem_of_omap. split.
  - intros ([op' session|op' output] & Hin & [= <-]). by exists output.
  - intros [output Hin]. by exists (Completed op output).
Qed.

Lemma completed_ops_app l1 l2 : completed_ops (l1 ++ l2) = completed_ops l1 ++ completed_ops l2.
Proof. apply omap_app. Qed.

Section keys.
Context `{T : Tokio} {laws : TokioLaws T}.

(** ** Messages and their entries *)

(** [hand]: the message that was received and is not handled yet. *)
Record sent_ok (hand : list ControllerMessage) (r : Runtime) : Prop := {
  st_once : NoDup (completed_ops (hand ++ queued (rn_messages r)));
  st_entry : forall op output, Completed op output ∈ hand ++ queued (rn_messages r) ->
    exists entry, rn_entries r !! op = Some entry /\ en_completion_sent entry = true /\
      is_Some (jn_finished (entry_join entry)) /\ releases_keys output (failure_keys (en_failure entry));
}.

(** The parts of an entry that a message depends on. *)
Definition entry_kept (entry entry' : RegistryEntry) : Prop :=
  en_failure entry' = en_failure entry /\ en_completion_sent entry' = en_completion_sent entry /\
  jn_finished (entry_join entry') = jn_finished (entry_join entry).

Lemma sent_entries hand r r' :
  rn_messages r' = rn_messages r ->
  (forall op entry, rn_entries r !! op = Some entry -> op ∈ completed_ops (hand ++ queued (rn_messages r)) ->
     exists entry', rn_entries r' !! op = Some entry' /\ entry_kept entry entry') ->
  sent_ok hand r -> sent_ok hand r'.
Proof.
  intros Hm He [Honce Hentry]. split; [by rewrite Hm|]. rewrite Hm. intros op output Hin.
  destruct (Hentry op output Hin) as (entry & Hlookup & Hsent & Hfin & Hrel).
  destruct (He op entry Hlookup) as (entry' & Hlookup' & Hf & Hc & Hj); [apply elem_of_completed_ops; by exists output|].
  exists entry'. rewrite Hf, Hc, Hj. done.
Qed.

Lemma sent_same hand r r' :
  rn_messages r' = rn_messages r -> rn_entries r' = rn_entries r -> sent_ok hand r -> sent_ok hand r'.
Proof. intros Hm He. apply sent_entries; [done|]. intros op entry H _. exists entry. by rewrite He. Qed.

Lemma sent_added hand r op entry :
  rn_entries r !! op = None -> sent_ok hand r -> sent_ok hand (set_entry op entry r).
Proof.
  intros Hnone. apply sent_entries; [done|]. intros op' entry' H _. exists entry'. cbn.
  rewrite lookup_insert_ne by congruence. done.
Qed.

Lemma sent_replaced hand r op entry entry' :
  rn_entries r !! op = Some entry -> entry_kept entry entry' -> sent_ok hand r -> sent_ok hand (set_entry op entry' r).
Proof.
  intros He Hkept. apply sent_entries; [done|]. intros op' e H _. cbn. destruct (decide (op' = op)) as [->|Hne].
  - exists entry'. rewrite lookup_insert_eq. split; [done|]. congruence.
  - exists e. by rewrite lookup_insert_ne.
Qed.

(** A handler takes entries that no message is of. *)
Lemma move_sent takes x y :
  (forall op entry, takes op entry -> op ∉ completed_ops (queued (rn_messages x.2))) ->
  Move takes x y -> sent_ok [] x.2 -> sent_ok [] y.2.
Proof.
  intros Htakes Hmove. destruct Hmove; cbn [fst snd] in *; try (by apply sent_same).
  - destruct (update_session_cases operation_id session_generation r) as [->|(entry & scope & He & ->)]; [done|].
    by eapply sent_replaced.
  - destruct (slot_history profile_id r) as (_ & He & _ & Hm & _). by apply sent_same.
  - destruct (draft_slot_history draft_id r) as (_ & He & _ & Hm & _). by apply sent_same.
  - destruct (acquired_history _ _ _ H) as (_ & He & _ & Hm & _). by apply sent_same.
  - intros Hok. apply sent_added; [done|]. by apply (sent_same [] r).
  - intros Hok. apply sent_added; [done|]. by apply (sent_same [] r).
  - apply sent_entries; [done|]. intros op e Hop Hin. exists e. cbn. rewrite lookup_delete_ne; [done|].
    intros <-. by apply (Htakes operation_id entry).
Qed.

Lemma moves_sent takes x y :
  (forall op entry, takes op entry -> op ∉ completed_ops (queued (rn_messages x.2))) ->
  Moves takes x y -> sent_ok [] x.2 -> sent_ok [] y.2.
Proof.
  intros Htakes Hmoves. induction Hmoves as [|x y z Hm _ IH]; [done|]. intros Hok. apply IH.
  - rewrite (move_messages _ _ _ Hm). exact Htakes.
  - by eapply move_sent.
Qed.

(** ** The keys *)

(** Who will give the key back. *)
Definition covered (o : Owed) (r : Runtime) (key : ControlKey) : Prop :=
  key ∈ owed_keys o \/
  (exists command, command ∈ queued (po_control (rn_port r)) /\ control_key command = Some key) \/
  (exists op entry, rn_entries r !! op = Some entry /\ key ∈ failure_keys (en_failure entry)) \/
  (exists op, key = KeyCancel op /\ (op ∈ owed_ops o \/ is_Some (rn_entries r !! op))).

Definition keys_ok (o : Owed) (r : Runtime) : Prop :=
  po_keys_poisoned (rn_port r) = false /\ forall key, key ∈ po_keys (rn_port r) -> covered o r key.

Lemma keys_grow o o' r r' :
  po_keys_poisoned (rn_port r') = po_keys_poisoned (rn_port r) -> po_keys (rn_port r') ⊆ po_keys (rn_port r) ->
  (forall key, key ∈ po_keys (rn_port r') -> covered o r key -> covered o' r' key) -> keys_ok o r -> keys_ok o' r'.
Proof.
  intros Hp Hk Hc [Hpoison Hall]. split; [congruence|]. intros key Hkey. by apply Hc, Hall, Hk.
Qed.

Lemma keys_same o o' r r' :
  rn_port r' = rn_port r -> rn_entries r' = rn_entries r -> owed_keys o ⊆ owed_keys o' ->
  owed_ops o ⊆ owed_ops o' -> keys_ok o r -> keys_ok o' r'.
Proof.
  intros Hp He Hk Ho. apply keys_grow; [by rewrite Hp..|]. intros key _. unfold covered. rewrite Hp, He.
  intros [H|[H|[H|(op & -> & [H|H])]]]; [left; by apply Hk|by right; left|by right; right; left| |];
    right; right; right; exists op; (split; [done|]); [left; by apply Ho|by right].
Qed.

Lemma keys_replaced o r op entry entry' :
  rn_entries r !! op = Some entry -> en_failure entry' = en_failure entry ->
  keys_ok o r -> keys_ok o (set_entry op entry' r).
Proof.
  intros He Hf. apply keys_grow; [done..|]. intros key _.
  intros [H|[H|[(op' & e & H & Hin)|(op' & -> & H)]]]; [by left|by right; left| |].
  - right. right. left. destruct (decide (op' = op)) as [->|Hne].
    + exists op, entry'. cbn. rewrite lookup_insert_eq. split; [done|]. rewrite Hf. congruence.
    + exists op', e. cbn. by rewrite lookup_insert_ne.
  - right. right. right. exists op'. split; [done|]. destruct H as [H|H]; [by left|right].
    cbn. apply lookup_insert_is_Some'. by right.
Qed.

(** A started task covers its key and the Cancel of its operation. *)
Lemma keys_added ops keys permits permits' terminals terminals' u r r' op entry :
  rn_entries r !! op = None -> rn_entries r' = <[op := entry]> (rn_entries r) -> rn_port r' = rn_port r ->
  keys_ok (Owes (op :: ops) keys permits terminals u) r ->
  keys_ok (Owes ops (keys ∖ failure_keys (en_failure entry)) permits' terminals' u) r'.
Proof.
  intros Hnone He Hp. apply keys_grow; [by rewrite Hp..|]. intros key _. unfold covered. rewrite Hp, He.
  cbn [owed_keys owed_ops].
  intros [H|[H|[(op' & e & H & Hin)|(op' & -> & H)]]]; [| by right; left| |].
  - destruct (decide (key ∈ failure_keys (en_failure entry))) as [Hin|Hnotin]; [|left; set_solver].
    right. right. left. exists op, entry. by rewrite lookup_insert_eq.
  - right. right. left. exists op', e. rewrite lookup_insert_ne; [done|congruence].
  - right. right. right. exists op'. split; [done|]. destruct H as [[->|H]%elem_of_cons|H]; [right|by left|right].
    + apply lookup_insert_is_Some'. by left.
    + apply lookup_insert_is_Some'. by right.
Qed.

Lemma move_keys takes x y : Move takes x y -> keys_ok x.1 x.2 -> keys_ok y.1 y.2.
Proof.
  intros Hmove. pose proof (move_lanes _ _ _ Hmove LaneControl) as Hlane. cbn in Hlane.
  destruct Hmove; cbn [fst snd] in *; try (by apply keys_same).
  - intros [Hpoison Hall]. assert (Hport : po_keys_poisoned (rn_port (emit event r)) = false /\
      po_keys (rn_port (emit event r)) = po_keys (rn_port r) ∖ released_by event).
    { cbn. unfold try_emit. destruct (try_send _ _). cbn. unfold release_for_event. by rewrite Hpoison. }
    destruct Hport as [Hp Hk]. split; [exact Hp|]. rewrite Hk. intros key [Hin Hnot]%elem_of_difference.
    destruct (Hall key Hin) as [H|[H|[H|(op & -> & H)]]]; unfold covered; cbn [owed_keys owed_ops] in *.
    + left. set_solver.
    + right. left. by rewrite Hlane.
    + by right; right; left.
    + right. right. right. exists op. split; [done|]. destruct H as [[->|H]%elem_of_cons|H]; [|by left|by right].
      exfalso. apply Hnot, elem_of_union_l. set_solver.
  - destruct (update_session_cases operation_id session_generation r) as [->|(entry & scope & He & ->)]; [done|].
    by apply (keys_replaced o r operation_id entry).
  - destruct (slot_history profile_id r) as (_ & He & _ & _ & _ & _ & Hp & _). by apply keys_same.
  - destruct (draft_slot_history draft_id r) as (_ & He & _ & _ & _ & _ & Hp & _). by apply keys_same.
  - destruct (acquired_history _ _ _ H) as (_ & He & _ & _ & _ & _ & Hp & _). by apply keys_same.
  - intros [Hpoison Hall]. assert (Hport : po_keys_poisoned (rn_port (release_key key r)) = false /\
      po_keys (rn_port (release_key key r)) = po_keys (rn_port r) ∖ {[ key ]}).
    { cbn. unfold release_control_key. by rewrite Hpoison. }
    destruct Hport as [Hp Hk]. split; [exact Hp|]. rewrite Hk. intros key' [Hin Hnot]%elem_of_difference.
    destruct (Hall key' Hin) as [H|[H|[H|H]]]; unfold covered; cbn [owed_keys] in *;
      [left; set_solver|right; left; by rewrite Hlane|by right; right; left|by right; right; right].
  - apply keys_grow; [done..|]. intros key _ [Hk|[Hk|[Hk|Hk]]]; [|by right; left|by right; right; left|by right; right; right].
    cbn [owed_keys] in Hk. destruct (decide (key = KeyCancel operation_id)) as [->|Hne]; [|left; cbn; set_solver].
    right. right. right. exists operation_id. split; [done|by right].
  - by apply (keys_added ops keys permits permits' terminals terminals u r
      (set_entry operation_id (new_entry operation_id scope body held class failure r) (set_rn_next r (rn_next r + 1 + 1)))
      operation_id (new_entry operation_id scope body held class failure r)).
  - by apply (keys_added ops keys permits permits terminals terminals' u r
      (set_entry operation_id (cleanup_entry operation_id scope failure terminal r) (set_rn_next r (rn_next r + 1)))
      operation_id (cleanup_entry operation_id scope failure terminal r)).
  - apply keys_grow; [done..|]. intros key _ [Hk|[Hk|[(op & e & Hop & Hk)|(op & -> & Hop)]]]; cbn [owed_keys owed_ops] in *.
    + left. cbn. set_solver.
    + by right; left.
    + destruct (decide (op = operation_id)) as [->|Hne].
      * left. cbn. rewrite H in Hop. injection Hop as ->. set_solver.
      * right. right. left. exists op, e. cbn. by rewrite lookup_delete_ne.
    + right. right. right. exists op. split; [done|]. cbn.
      destruct (decide (op = operation_id)) as [->|Hne]; [left; by left|]. rewrite lookup_delete_ne by done.
      destruct Hop as [Hop|Hop]; [left; by right|by right].
Qed.

Lemma moves_keys_ok takes x y : Moves takes x y -> keys_ok x.1 x.2 -> keys_ok y.1 y.2.
Proof. induction 1 as [|x y z Hm _ IH]; [done|]. intros H. by eapply IH, move_keys. Qed.

(** ** The tasks *)

Definition kept_ok (hand : list ControllerMessage) (r : Runtime) : Prop := keys_ok (idle [] ∅) r /\ sent_ok hand r.

(** A running task has sent nothing. *)
Lemma running_unsent hand r op entry :
  sent_ok hand r -> running r op entry -> op ∉ completed_ops (hand ++ queued (rn_messages r)).
Proof.
  intros [_ Hentry] [He Hrun] [output Hin]%elem_of_completed_ops.
  destruct (Hentry op output Hin) as (e & He' & _ & [b Hfin] & _). congruence.
Qed.

Lemma kept_same hand r r' :
  rn_port r' = rn_port r -> rn_messages r' = rn_messages r -> rn_entries r' = rn_entries r ->
  kept_ok hand r -> kept_ok hand r'.
Proof. intros Hp Hm He [Hk Hs]. split; [by eapply keys_same|by eapply sent_same]. Qed.

Lemma drop_permits_frame held r :
  let r' := drop_permits held r in
  rn_port r' = rn_port r /\ rn_messages r' = rn_messages r /\ rn_entries r' = rn_entries r.
Proof. revert r. induction held as [|a held IH]; intros r; [done|]. apply (IH (drop_permit a r)). Qed.

Lemma kept_replaced hand r op entry entry' :
  running r op entry -> en_failure entry' = en_failure entry -> kept_ok hand r -> kept_ok hand (set_entry op entry' r).
Proof.
  intros Hrun Hf [Hk Hs]. split; [by eapply keys_replaced; [apply Hrun| |]|].
  apply (sent_entries hand r); [done| |done]. intros op' e He Hin. exists e. cbn. rewrite lookup_insert_ne; [done|].
  intros <-. by apply (running_unsent hand r op entry).
Qed.

Lemma kept_message hand r message :
  messages_ok r -> kept_ok hand r ->
  match message with
  | Completed op output => op ∉ completed_ops (hand ++ queued (rn_messages r)) /\
      exists entry, rn_entries r !! op = Some entry /\ en_completion_sent entry = true /\
        is_Some (jn_finished (entry_join entry)) /\ releases_keys output (failure_keys (en_failure entry))
  | _ => True
  end -> kept_ok hand (send_message message r).
Proof using laws.
  intros Hmsg [Hk [Honce Hentry]] Hm. split; [by apply (keys_same (idle [] ∅) _ r)|].
  destruct (message_sent_queue message r Hmsg) as (Hq & _). split; rewrite Hq, (assoc_L (++)).
  - rewrite completed_ops_app. destruct message as [op session|op output]; cbn; [by rewrite app_nil_r|].
    apply NoDup_app. split_and!; [done| |apply NoDup_singleton]. intros op' Hin ->%list_elem_of_singleton. by apply Hm.
  - intros op output [Hin|Hin%list_elem_of_singleton]%elem_of_app; [by apply Hentry|]. subst message. by apply Hm.
Qed.

Lemma task_kept hand o r r' : TaskStep r r' -> core_ok o r -> kept_ok hand r -> kept_ok hand r'.
Proof using laws.
  intros Hstep Hok Hkept. pose proof (step_core o r r' Hstep Hok) as Hok'.
  destruct Hstep as [op entry output s r Hrun _ Hends|op entry r Hrun
    |op entry session r Hrun _ _ _|op entry work targets profile global a r r' Hrun _ _ _ _ Hacquire
    |op entry work targets profile global summary r Hrun _ _ _ _ _|op entry s r _].
  - unfold complete_task. set (entry' := with_completion _).
    destruct (drop_permits_frame (jn_held (entry_join entry)) (set_rn_service r s)) as (Hp & Hm & He).
    assert (Hrun' : running (drop_permits (jn_held (entry_join entry)) (set_rn_service r s)) op entry)
      by (split; [by rewrite He; apply Hrun|apply Hrun]).
    assert (Hkept' : kept_ok hand (set_entry op entry' (drop_permits (jn_held (entry_join entry)) (set_rn_service r s)))).
    { by apply (kept_replaced hand _ op entry), (kept_same hand r). }
    apply kept_message; [unfold messages_ok; cbn; rewrite Hm; apply Hok|done|]. split.
    + cbn. rewrite Hm. by apply (running_unsent hand r op entry); [apply Hkept|].
    + exists entry'. cbn. rewrite lookup_insert_eq. split_and!; [done|done|by eexists|].
      destruct (proj1 (proj1 (proj2 (proj2 Hok))) _ _ (proj1 Hrun)) as [(_ & _ & Hfit) _ _ _].
      exact (task_ends_releases _ _ _ _ _ _ _ _ Hfit Hends).
  - unfold panic_task. destruct (drop_permits_frame (jn_held (entry_join entry)) r) as (Hp & Hm & He).
    apply (kept_replaced hand _ op entry); [|done|by apply (kept_same hand r)]. split; [by rewrite He; apply Hrun|apply Hrun].
  - apply kept_message; [apply Hok|by apply (kept_replaced hand r op entry)|done].
  - destruct (acquired_history _ _ _ Hacquire) as (_ & He & _ & Hm & _ & _ & Hp & _).
    apply (kept_replaced hand _ op entry); [|done|by apply (kept_same hand r)]. split; [by rewrite He; apply Hrun|apply Hrun].
  - destruct (drop_permits_frame (jn_held (entry_join entry)) r) as (Hp & Hm & He).
    apply (kept_replaced hand _ op entry); [|done|by apply (kept_same hand r)]. split; [by rewrite He; apply Hrun|apply Hrun].
  - by apply (kept_same hand r).
Qed.

Lemma tasks_kept hand o r r' : rtc TaskStep r r' -> core_ok o r -> kept_ok hand r -> kept_ok hand r' /\ core_ok o r'.
Proof using laws.
  induction 1 as [|r1 r2 r3 Hstep _ IH]; [done|]. intros Hok Hkept.
  apply IH; [by eapply step_core|by eapply task_kept].
Qed.

(** ** The interface *)

Lemma keys_port r p' :
  po_keys_poisoned p' = po_keys_poisoned (rn_port r) ->
  (forall key, key ∈ po_keys p' -> key ∈ po_keys (rn_port r) \/
     exists command, command ∈ queued (po_control p') /\ control_key command = Some key) ->
  (forall command, command ∈ queued (po_control (rn_port r)) -> command ∈ queued (po_control p')) ->
  keys_ok (idle [] ∅) r -> keys_ok (idle [] ∅) (with_port r p').
Proof.
  intros Hp Hk Hq [Hpoison Hall]. split; [cbn; congruence|]. intros key [Hin|Hin]%Hk; [|by right; left].
  destruct (Hall key Hin) as [H|[(command & Hc & Hkey)|H]]; [by left|right; left|by right; right].
  exists command. split; [by apply Hq|done].
Qed.

Lemma port_keys r p' : PortStep (rn_port r) p' -> keys_ok (idle [] ∅) r -> keys_ok (idle [] ∅) (with_port r p').
Proof using laws.
  intros Hstep Hok. destruct (proj1 Hok). remember (rn_port r) as p eqn:Hport.
  assert (Hsame : forall p', po_keys p' = po_keys p -> po_keys_poisoned p' = po_keys_poisoned p ->
    po_control p' = po_control p -> keys_ok (idle [] ∅) (with_port r p')).
  { intros q H1 H2 H3. apply keys_port; rewrite <- ?Hport, ?H1, ?H2, ?H3; auto. }
  destruct Hstep as [command p|build p|p q Hreserved|p|limit p].
  - unfold try_submit. destruct (cmd_lane command) eqn:Hlane.
    + destruct (lane_send _ _). by apply Hsame.
    + destruct (lane_send _ _). by apply Hsame.
    + destruct (control_key command) as [key|] eqn:Hkey; [|by apply Hsame].
      destruct (po_keys_poisoned p) eqn:Hpoison; [by apply Hsame|].
      destruct (decide (key ∈ po_keys p)) as [|Hnot]; [by apply Hsame|].
      cbn [set_keys po_control]. unfold lane_send. pose proof (try_send_queued command (po_control p)) as Hq.
      destruct (try_send command (po_control p)) as [[u|e] q]; cbn in Hq |- *;
        apply keys_port; rewrite <- ?Hport; cbn; try done; rewrite ?Hq.
      * intros key' [->%elem_of_singleton|Hin]%elem_of_union; [|by left]. right. exists command.
        split; [|done]. apply elem_of_app. right. by left.
      * intros command' Hin. apply elem_of_app. by left.
      * intros key' Hin. left. set_solver.
      * intros command' Hin. by rewrite app_nil_r.
    + destruct command; try (by apply Hsame). destruct (po_shutdown_gone p); by apply Hsame.
  - unfold try_submit_with, try_reserve_mutation. destruct (try_reserve _) as [[u|e] q]; cbn; [|by apply Hsame].
    unfold permit_submit. destruct (negb _); by apply Hsame.
  - unfold try_reserve_mutation in Hreserved. destruct (try_reserve _) as [u lane]. injection Hreserved as _ <-. by apply Hsame.
  - unfold request_shutdown. destruct (po_shutdown_gone p); by apply Hsame.
  - assert (H : forall q, let q' := (drain_events limit q).2 in
      po_keys q' = po_keys q /\ po_keys_poisoned q' = po_keys_poisoned q /\ po_control q' = po_control q).
    { clear. induction limit as [|limit IH]; intros q; [done|]. cbn. destruct (try_recv (po_events q)) as [[event|] events]; [|done].
      specialize (IH (set_events q events)). destruct (drain_events limit _). exact IH. }
    destruct (H p) as (H1 & H2 & H3). by apply Hsame.
Qed.

(** ** The loop *)

Lemma handles_kept takes ops keys r r' :
  handles takes (Owes ops keys [] ∅ false) r (idle [] ∅) r' ->
  (forall op entry, takes op entry -> op ∉ completed_ops (queued (rn_messages r))) ->
  keys_ok (Owes ops keys [] ∅ false) r -> sent_ok [] r -> kept_ok [] r'.
Proof.
  intros [Hm _] Htakes Hk Hs. split; [by apply (moves_keys_ok takes _ (idle [] ∅, r') Hm)|].
  by apply (moves_sent takes (Owes ops keys [] ∅ false, r) (idle [] ∅, r')).
Qed.

Lemma received_sent command r p : sent_ok [] r -> sent_ok [] (received command (with_port r p)).
Proof. unfold received. destruct (is_cancel command); by apply sent_same. Qed.

Lemma received_keys (ops : list OperationId) command r p :
  po_keys p = po_keys (rn_port r) -> po_keys_poisoned p = po_keys_poisoned (rn_port r) ->
  (forall other, other ∈ queued (po_control (rn_port r)) -> other ∈ queued (po_control p) \/ other = command) ->
  keys_ok (idle [] ∅) r -> keys_ok (Owes ops (held_keys command ∪ ∅) [] ∅ false) (received command (with_port r p)).
Proof.
  intros Hk Hp Hq [Hpoison Hall].
  assert (Hport : rn_port (received command (with_port r p)) = p) by apply received_port.
  assert (He : rn_entries (received command (with_port r p)) = rn_entries r) by (unfold received; by destruct (is_cancel command)).
  split; rewrite Hport; [congruence|]. rewrite Hk. intros key Hin. unfold covered. rewrite Hport, He. cbn [owed_keys owed_ops].
  destruct (Hall key Hin) as [H|[(other & Ho & Hkey)|[H|(op & -> & [H|H])]]]; cbn in *; try (by apply elem_of_empty in H || by apply elem_of_nil in H).
  - destruct (Hq other Ho) as [Hin'| ->]; [right; left; by exists other|]. left. unfold held_keys. rewrite Hkey. set_solver.
  - by right; right; left.
  - right. right. right. exists op. split; [done|by right].
Qed.

Lemma popped_keys {A} (q q' : mpsc A) a :
  try_recv q = (Some a, q') -> forall other, other ∈ queued q -> other ∈ queued q' \/ other = a.
Proof using laws.
  intros H other. pose proof (try_recv_queued q) as Hq. rewrite H in Hq. cbn in Hq. rewrite Hq. set_solver.
Qed.

Lemma message_kept r message messages r' :
  serves [] r -> kept_ok [] r -> try_recv (rn_messages r) = (Some message, messages) ->
  rtc TaskStep (set_rn_messages r messages) r' -> awaited message r' ->
  kept_ok [] (handle_controller_message message r').
Proof using laws.
  intros (Hr & Hok & Hl) [Hk Hs] Hrecv Hsteps Hawaited.
  destruct (message_received_core _ _ _ _ Hrecv Hok) as [Hok1 Hm].
  assert (Hkept1 : kept_ok [message] (set_rn_messages r messages)).
  { split; [by apply (keys_same (idle [] ∅) _ r)|]. pose proof (try_recv_queued (rn_messages r)) as Hq.
    rewrite Hrecv in Hq. cbn in Hq. destruct Hs as [Honce Hentry]. cbn [app] in Honce, Hentry.
    split; cbn [rn_messages set_rn_messages app]; rewrite <- Hq; [exact Honce|exact Hentry]. }
  destruct (tasks_kept [message] _ _ _ Hsteps Hok1 Hkept1) as [[Hk' [Honce Hentry]] Hok'].
  destruct (tasks_frame _ _ Hsteps) as [Hr' _]. cbn in Hr'.
  assert (Hs' : sent_ok [] r').
  { split; [|intros op output Hin; apply Hentry; by right].
    destruct message; cbn [app completed_ops omap list_omap] in Honce; [exact Honce|]. by apply NoDup_cons in Honce as [_ ?]. }
  apply (handles_kept (fun op _ => op ∉ completed_ops (queued (rn_messages r'))) [] ∅ r'); [|done|done|done].
  apply message_handled; [by rewrite Hr'|by eapply mutation_ok_core|].
  destruct message as [op session|op output]; [done|]. split; [exact Hm|]. intros entry He.
  destruct (Hentry op output ltac:(by left)) as (e & He' & Hsent & Hfin & Hrel).
  assert (e = entry) as -> by congruence.
  destruct (proj1 (proj1 (proj2 (proj2 Hok'))) _ _ He) as [(_ & _ & Hfit) _ _ _]. split_and!.
  - cbn in Honce. by apply NoDup_cons in Honce as [? _].
  - by eapply held_finished.
  - intros Hclass. destruct (jn_body (entry_join entry)); cbn in Hfit; destruct Hfit as [Hc Hkeys]; congruence.
  - intros had_active s. destruct output as [event|op' reload|op' d c|op' p g u|op' p g d]; cbn in Hrel |- *; [set_solver|rewrite Hrel; set_solver..].
Qed.

Context (shell_split : str -> option (list str)).

Lemma serving_kept r r' phase :
  LoopStep shell_split Serving r phase r' -> serves [] r -> kept_ok [] r -> kept_ok [] r'.
Proof using laws.
  intros Hstep Hs Hkept. destruct Hkept as [Hk Hsent]. pose proof Hs as (Hr & Hok & Hl). inversion Hstep; subst.
  - by eapply message_kept.
  - apply (handles_kept (fun _ _ => False) (if is_cancel command then [] else [cmd_operation_id command])
      (held_keys command ∪ ∅) (received command (with_port r (set_control (rn_port r) lane)))); [|done| |by apply received_sent].
    + apply control_command_handled. destruct (received_port command (with_port r (set_control (rn_port r) lane))) as [_ Hr']. by rewrite Hr'.
    + apply received_keys; [done..|by apply popped_keys|done].
  - destruct (mutation_taken _ _ _ H2 Hl) as [Hlane _].
    assert (Hc : is_cancel command = false) by (apply lane_not_cancel; by rewrite Hlane).
    set (r1 := received command (with_port r (set_mutation (rn_port r) lane))) in *.
    pose proof (mutation_handled (fun _ _ => False) command [] ∅ false r1) as Hh. rewrite H3 in Hh.
    eapply handles_kept; [apply Hh|done| |by apply received_sent].
    + destruct (received_port command (with_port r (set_mutation (rn_port r) lane))) as [_ Hr']. fold r1 in Hr'. by rewrite Hr'.
    + done.
    + intros Hm. destruct (mutation_ok_core _ _ _ Hok) as [Ha _].
      assert (Hm' : has_mutation r) by (revert Hm; unfold r1, received; by rewrite Hc). apply Ha in Hm'. congruence.
    + assert (Hheld : held_keys command = ∅) by (destruct command; done).
      pose proof (received_keys [cmd_operation_id command] command r (set_mutation (rn_port r) lane) eq_refl eq_refl
        ltac:(by left) Hk) as Hkeys. by rewrite Hheld, union_empty_l_L in Hkeys.
  - destruct (work_taken _ _ _ H2 Hl) as [Hlane _].
    set (r1 := received command (with_port r (set_work (rn_port r) lane))) in *.
    apply (handles_kept (fun _ _ => False) [cmd_operation_id command] ∅ r1); [|done| |by apply received_sent].
    + apply work_handled. destruct (received_port command (with_port r (set_work (rn_port r) lane))) as [_ Hr']. fold r1 in Hr'. by rewrite Hr'.
    + assert (Hheld : held_keys command = ∅) by (destruct command; done).
      pose proof (received_keys [cmd_operation_id command] command r (set_work (rn_port r) lane) eq_refl eq_refl
        ltac:(by left) Hk) as Hkeys. by rewrite Hheld, union_empty_l_L in Hkeys.
  - assert (Hreaped : kept_ok [] (reap_panicked_tasks operation_ids r)).
    { apply (handles_kept (fun op _ => op ∉ completed_ops (queued (rn_messages r))) [] ∅ r); [|done|done|done].
      apply reap_handled; [done|by eapply mutation_ok_core|]. intros op entry Hin He.
      match goal with Hids : operation_ids ≡ₚ _ |- _ => pose proof (selected_in _ _ _ _ _ Hids Hin He) as Ht end.
      apply andb_true_iff in Ht as [Hfin Hnotsent]. apply bool_decide_eq_true in Hfin. split; [|by eapply held_finished].
      intros [output Hmsg]%elem_of_completed_ops. destruct (st_entry _ _ Hsent op output Hmsg) as (e & He' & Hs' & _).
      assert (e = entry) as -> by congruence. by rewrite Hs' in Hnotsent. }
    destruct Hreaped as [Hk' Hs']. split; [|by apply (sent_same [] (reap_panicked_tasks operation_ids r))].
    by apply (keys_same (idle [] ∅) _ (reap_panicked_tasks operation_ids r)).
Qed.

Lemma step_kept sys sys' :
  Step shell_split sys sys' -> system_ok sys -> (sm_phase sys = Serving -> kept_ok [] (sm_runtime sys)) ->
  sm_phase sys' = Serving -> kept_ok [] (sm_runtime sys').
Proof using laws.
  intros Hstep [Hr Hok Hl _] Hkept Hphase. assert (Hs : serves (phase_ops (sm_phase sys)) (sm_runtime sys)) by done.
  destruct Hstep as [sys p Hgone Hport|sys|sys r Htask|sys phase r Hsignal Hloop|sys op Hp Hsignal|sys summary op Hp Hsignal];
    cbn in *; try done.
  - destruct (Hkept Hphase) as [Hk Hsent]. split; [by apply port_keys|]. by apply (sent_same [] (sm_runtime sys)).
  - by apply Hkept.
  - by eapply task_kept; [| |apply Hkept].
  - subst phase. assert (Hserving : sm_phase sys = Serving) by (by inversion Hloop).
    rewrite Hserving in *. by eapply serving_kept; [| |apply Hkept].
Qed.

(** C14: While the runtime serves, a control key is held only for a command that is still
    queued or a task that is still registered: Cancel for the operation itself, Disconnect
    and Reconnect for the control of the profile. So a control is refused as a duplicate
    only until what it duplicates is over, after a panic too. *)
Theorem control_keys_given_back sys key :
  Reached shell_split sys -> sm_phase sys = Serving -> key ∈ po_keys (rn_port (sm_runtime sys)) ->
  (exists command, command ∈ queued (po_control (rn_port (sm_runtime sys))) /\ control_key command = Some key) \/
  (exists op entry, rn_entries (sm_runtime sys) !! op = Some entry /\
     (key = KeyCancel op \/ key ∈ failure_keys (en_failure entry))).
Proof using laws.
  intros Hreached Hphase Hkey.
  cut (sm_phase sys = Serving -> kept_ok [] (sm_runtime sys)).
  { intros H. destruct (H Hphase) as [[_ Hall] _]. destruct (Hall key Hkey) as [Ho|[Hq|[(op & e & He & Hin)|(op & -> & [Ho|[e He]])]]].
    - by apply elem_of_empty in Ho.
    - by left.
    - right. exists op, e. split; [done|by right].
    - by apply elem_of_nil in Ho.
    - right. exists op, e. split; [done|by left]. }
  clear Hphase Hkey. destruct Hreached as (sys0 & Hinit & Hsteps).
  assert (H0 : system_ok sys0 /\ (sm_phase sys0 = Serving -> kept_ok [] (sm_runtime sys0))).
  { split; [by apply initial_system_ok|]. intros _. assert (Hq : queued (mpsc_channel (A := ControllerMessage) None) = []) by apply channel_new.
    destruct Hinit; cbn; (split; [split; [done|by intros k ?%elem_of_empty]|]); split; cbn; rewrite Hq;
      first [by intros op output ?%elem_of_nil|by apply NoDup_nil]. }
  clear Hinit. revert H0. induction Hsteps as [|s1 s2 s3 Hstep _ IH]; [by intros [_ H]|]. intros [Hok Hkept].
  apply IH. split; [by eapply step_ok|by eapply step_kept].
Qed.
End keys.

(** ** A Disconnect that is running *)

Definition disconnect_command : UiCommand := CmdDisconnectProfile 10 (lit "p") 1.

Definition asked_runtime : Runtime := ui_submitted disconnect_command (initial_runtime sample_service).
Definition disconnecting_runtime : Runtime :=
  handle_control (fun _ s => s) disconnect_command
    (received disconnect_command (with_port asked_runtime
      (set_control (rn_port asked_runtime) (try_recv (po_control (rn_port asked_runtime))).2))).

Lemma disconnecting_reached : Reached no_words (system_at Serving disconnecting_runtime).
Proof.
  refine (reached_step no_words (system_at Serving asked_runtime) _ _ _).
  - apply (step_loop no_words (system_at Serving _)); [by vm_compute|].
    assert (Hrecv : try_recv (po_control (rn_port asked_runtime)) =
      (Some disconnect_command, (try_recv (po_control (rn_port asked_runtime))).2)) by (vm_compute; reflexivity).
    exact (serves_control no_words (fun _ s => s) disconnect_command _ asked_runtime eq_refl Hrecv).
  - apply submit_turn. exists (system_at Serving (initial_runtime sample_service)). split; [constructor|done].
Qed.

Lemma control_keys_given_back_witness :
  KeyDisconnect (lit "p") 1 ∈ po_keys (rn_port disconnecting_runtime) /\
  exists op entry, rn_entries disconnecting_runtime !! op = Some entry /\
    (KeyDisconnect (lit "p") 1 = KeyCancel op \/ KeyDisconnect (lit "p") 1 ∈ failure_keys (en_failure entry)).
Proof.
  assert (Hkey : KeyDisconnect (lit "p") 1 ∈ po_keys (rn_port disconnecting_runtime)).
  { apply (bool_decide_eq_true_1 _). vm_compute. reflexivity. }
  split; [exact Hkey|].
  destruct (control_keys_given_back no_words (system_at Serving disconnecting_runtime) (KeyDisconnect (lit "p") 1)
    disconnecting_reached eq_refl Hkey) as [(command & Hin & _)|H]; [|exact H].
  vm_compute in Hin. by apply elem_of_nil in Hin.
Defined.
