(* ===== verification/App.v ===== *)
(** * The application (src/src/ui/app.rs)

    The state behind the windows: which operation each connection is busy with, what can be
    retried, the credential prompt, the deletion dialog, the Redis and MySQL explorers and
    the exports, and what each event does to them.  Submitting commands is in AppCommands,
    the loop over the events in AppEvents, the theorems in AppSafety.  Drawing is not
    modelled: what a button calls is. *)

From S2P Require Import Prelude RustStr Model Secrets Config Drivers Service PublicError RedisBrowser MysqlExplorer.
From S2P Require Import ProfileForm UiModel RedisExplorer RuntimeEvents DraftTests Tokio CommandPorts Editor.

#[local] Abbreviation OperationRecipeId := N (only parsing).

Definition EVENT_DRAIN_LIMIT : nat := 128.
Definition RETRY_RECIPE_LIMIT : nat := 64.
Definition DEFAULT_TIMEOUT_MS : N := 30000.

(** ** What is remembered *)

Record ActiveOperation := {
  ao_operation_id : OperationId;
  ao_profile_generation : ProfileGeneration;
  ao_kind : OperationKind;
}.
#[export] Instance ActiveOperation_eq : EqDecision ActiveOperation. Proof. solve_decision. Defined.

Inductive RedisResourceEventDisposition := NotRedis | Apply | Ignore | StaleTerminal (operation_id : OperationId).

Record PendingDelete := {
  pd_operation_id : OperationId;
  pd_profile_generation : ProfileGeneration;
  pd_prior_active : option ActiveOperation;
  pd_prior_finished : bool;
}.

Inductive Recipe :=
| RecipeConnect (profile_id : ProfileId) (profile_generation : ProfileGeneration) (timeout_ms : N)
| RecipeReconnect (profile_id : ProfileId) (profile_generation : ProfileGeneration) (timeout_ms : N)
| RecipeCatalog (request : CatalogRequest)
| RecipeRedisScan (request : RedisScanRequest) (restart : bool)
| RecipeRedisInspect (request : RedisKeyInspectRequest).

Definition recipe_profile_id (r : Recipe) : ProfileId :=
  match r with
  | RecipeConnect profile_id _ _ | RecipeReconnect profile_id _ _ => profile_id
  | RecipeCatalog request => ri_profile_id (cr_identity request)
  | RecipeRedisScan request _ => ri_profile_id (rs_identity request)
  | RecipeRedisInspect request => ri_profile_id (rk_identity request)
  end.

Definition recipe_profile_generation (r : Recipe) : ProfileGeneration :=
  match r with
  | RecipeConnect _ profile_generation _ | RecipeReconnect _ profile_generation _ => profile_generation
  | RecipeCatalog request => ri_profile_generation (cr_identity request)
  | RecipeRedisScan request _ => ri_profile_generation (rs_identity request)
  | RecipeRedisInspect request => ri_profile_generation (rk_identity request)
  end.

Definition recipe_operation_kind (r : Recipe) : OperationKind :=
  match r with
  | RecipeConnect _ _ _ => ConnectProfile
  | RecipeReconnect _ _ _ => ReconnectProfile
  | RecipeCatalog _ => BrowseMySql
  | RecipeRedisScan _ _ => BrowseRedis
  | RecipeRedisInspect _ => InspectRedis
  end.

(** ** The registry of retries: the recipes and the order they were registered in *)

Record RetryRecipeRegistry := {
  rr_recipes : gmap OperationRecipeId Recipe;
  rr_order : list OperationRecipeId;
}.

Definition registry_default : RetryRecipeRegistry := {| rr_recipes := ∅; rr_order := [] |}.

(** The loop that expires the oldest recipes; the order loses one entry a turn. *)
Fixpoint expire (fuel : nat) (g : RetryRecipeRegistry) : RetryRecipeRegistry :=
  match fuel, rr_order g with
  | S fuel, expired :: order =>
      if RETRY_RECIPE_LIMIT <? length (rr_order g)
      then expire fuel {| rr_recipes := delete expired (rr_recipes g); rr_order := order |} else g
  | _, _ => g
  end.

Definition register (g : RetryRecipeRegistry) (operation_id : OperationId) (recipe : Recipe) : RetryRecipeRegistry :=
  let order :=
    if bool_decide (is_Some (rr_recipes g !! operation_id))
    then filter (fun existing => existing <> operation_id) (rr_order g) else rr_order g in
  let g := {| rr_recipes := <[operation_id := recipe]> (rr_recipes g); rr_order := order ++ [operation_id] |} in
  expire (length (rr_order g)) g.

Definition registry_take (g : RetryRecipeRegistry) (recipe_id : OperationRecipeId) :
    option Recipe * RetryRecipeRegistry :=
  (rr_recipes g !! recipe_id,
   {| rr_recipes := delete recipe_id (rr_recipes g);
      rr_order := filter (fun existing => existing <> recipe_id) (rr_order g) |}).

Definition registry_remove (g : RetryRecipeRegistry) (recipe_id : OperationRecipeId) : RetryRecipeRegistry :=
  (registry_take g recipe_id).2.

Definition retain_current (g : RetryRecipeRegistry) (generations : gmap (list N) ProfileGeneration) :
    RetryRecipeRegistry :=
  let recipes :=
    filter (fun entry : OperationRecipeId * Recipe =>
              generations !! recipe_profile_id entry.2 = Some (recipe_profile_generation entry.2)) (rr_recipes g) in
  {| rr_recipes := recipes; rr_order := filter (fun recipe_id => is_Some (recipes !! recipe_id)) (rr_order g) |}.

(** ** The rest of the state *)

Record CredentialPrompt := {
  pm_profile_id : ProfileId;
  pm_profile_generation : ProfileGeneration;
  pm_source_operation : OperationKind;
  pm_retry_recipe_id : option OperationRecipeId;
  pm_store_operation_id : option OperationId;
  pm_secret : ReplacementSecretBuffer;
  pm_status : str;
}.

Record VisibleError := { ve_operation_id : OperationId; ve_error : PublicOperationError }.

Record RecoveryDispatchContext := {
  rc_source_operation_id : OperationId;
  rc_source_operation : OperationKind;
  rc_code : PublicCode;
}.

Record DeleteConfirmation := {
  dc_profile_id : ProfileId;
  dc_profile_generation : ProfileGeneration;
  dc_profile_name : str;
  dc_active_kind : option OperationKind;
  dc_migration_backup : option str;
  dc_migration_confirmed : bool;
}.

#[export] Instance ExportFormat_eq : EqDecision ExportFormat. Proof. solve_decision. Defined.

Record PendingExportDestination := {
  px_result_id : ResultId;
  px_format : ExportFormat;
  px_path : str;
}.

Definition delete_failure_is_known_non_committed (summary : PublicSummary) : bool :=
  match summary with
  | InvalidInput | ResourceBusy | ResourceStale | ConfigWriteNotCommitted => true
  | _ => false
  end.

Section app.
Context `{T : Tokio}.

(** [DbotterApp], without [first_run_driver], which only drawing reads. *)
Record App := {
  ap_port : Ports;
  ap_model : UiModel;
  ap_mysql : gmap (list N * N) MySqlExplorerState; (** mysql_explorers *)
  ap_editor : option ProfileEditor; (** profile_editor *)
  ap_focus : option str; (** editor_surface's requested_focus *)
  ap_redis : gmap (list N * N) RedisExplorer; (** redis_explorers *)
  ap_visible : option WorkspaceKey; (** visible_redis_workspace *)
  ap_active : gmap (list N) ActiveOperation; (** active_operations *)
  ap_deletes : gmap (list N) PendingDelete; (** pending_deletes *)
  ap_recipes : RetryRecipeRegistry; (** retry_recipes *)
  ap_prompt : option CredentialPrompt; (** credential_prompt *)
  ap_error : option VisibleError; (** common_error *)
  ap_context : option RecoveryDispatchContext; (** recovery_dispatch_context *)
  ap_confirm : option DeleteConfirmation; (** delete_confirmation *)
  ap_next_draft : N; (** next_draft_id *)
  ap_connect : option (ProfileId * OperationId); (** pending_connect_after_refresh *)
  ap_exports : gmap OperationId PendingExportDestination; (** pending_export_destinations *)
  ap_committed : gmap ResultId str; (** committed_export_destinations *)
  ap_formats : gmap ResultId ExportFormat; (** result_export_formats *)
}.

(** Assignment to one field. *)
Definition set_ap_port (a : App) (x : Ports) : App :=
  {| ap_port := x; ap_model := ap_model a; ap_mysql := ap_mysql a; ap_editor := ap_editor a; ap_focus :=
     ap_focus a; ap_redis := ap_redis a; ap_visible := ap_visible a; ap_active := ap_active a; ap_deletes :=
     ap_deletes a; ap_recipes := ap_recipes a; ap_prompt := ap_prompt a; ap_error := ap_error a; ap_context :=
     ap_context a; ap_confirm := ap_confirm a; ap_next_draft := ap_next_draft a; ap_connect := ap_connect a;
     ap_exports := ap_exports a; ap_committed := ap_committed a; ap_formats := ap_formats a |}.
Definition set_ap_model (a : App) (x : UiModel) : App :=
  {| ap_port := ap_port a; ap_model := x; ap_mysql := ap_mysql a; ap_editor := ap_editor a; ap_focus := ap_focus
     a; ap_redis := ap_redis a; ap_visible := ap_visible a; ap_active := ap_active a; ap_deletes := ap_deletes
     a; ap_recipes := ap_recipes a; ap_prompt := ap_prompt a; ap_error := ap_error a; ap_context := ap_context
     a; ap_confirm := ap_confirm a; ap_next_draft := ap_next_draft a; ap_connect := ap_connect a; ap_exports :=
     ap_exports a; ap_committed := ap_committed a; ap_formats := ap_formats a |}.
Definition set_ap_mysql (a : App) (x : gmap (list N * N) MySqlExplorerState) : App :=
  {| ap_port := ap_port a; ap_model := ap_model a; ap_mysql := x; ap_editor := ap_editor a; ap_focus := ap_focus
     a; ap_redis := ap_redis a; ap_visible := ap_visible a; ap_active := ap_active a; ap_deletes := ap_deletes
     a; ap_recipes := ap_recipes a; ap_prompt := ap_prompt a; ap_error := ap_error a; ap_context := ap_context
     a; ap_confirm := ap_confirm a; ap_next_draft := ap_next_draft a; ap_connect := ap_connect a; ap_exports :=
     ap_exports a; ap_committed := ap_committed a; ap_formats := ap_formats a |}.
Definition set_ap_editor (a : App) (x : option ProfileEditor) : App :=
  {| ap_port := ap_port a; ap_model := ap_model a; ap_mysql := ap_mysql a; ap_editor := x; ap_focus := ap_focus
     a; ap_redis := ap_redis a; ap_visible := ap_visible a; ap_active := ap_active a; ap_deletes := ap_deletes
     a; ap_recipes := ap_recipes a; ap_prompt := ap_prompt a; ap_error := ap_error a; ap_context := ap_context
     a; ap_confirm := ap_confirm a; ap_next_draft := ap_next_draft a; ap_connect := ap_connect a; ap_exports :=
     ap_exports a; ap_committed := ap_committed a; ap_formats := ap_formats a |}.
Definition set_ap_focus (a : App) (x : option str) : App :=
  {| ap_port := ap_port a; ap_model := ap_model a; ap_mysql := ap_mysql a; ap_editor := ap_editor a; ap_focus :=
     x; ap_redis := ap_redis a; ap_visible := ap_visible a; ap_active := ap_active a; ap_deletes := ap_deletes
     a; ap_recipes := ap_recipes a; ap_prompt := ap_prompt a; ap_error := ap_error a; ap_context := ap_context
     a; ap_confirm := ap_confirm a; ap_next_draft := ap_next_draft a; ap_connect := ap_connect a; ap_exports :=
     ap_exports a; ap_committed := ap_committed a; ap_formats := ap_formats a |}.
Definition set_ap_redis (a : App) (x : gmap (list N * N) RedisExplorer) : App :=
  {| ap_port := ap_port a; ap_model := ap_model a; ap_mysql := ap_mysql a; ap_editor := ap_editor a; ap_focus :=
     ap_focus a; ap_redis := x; ap_visible := ap_visible a; ap_active := ap_active a; ap_deletes := ap_deletes
     a; ap_recipes := ap_recipes a; ap_prompt := ap_prompt a; ap_error := ap_error a; ap_context := ap_context
     a; ap_confirm := ap_confirm a; ap_next_draft := ap_next_draft a; ap_connect := ap_connect a; ap_exports :=
     ap_exports a; ap_committed := ap_committed a; ap_formats := ap_formats a |}.
Definition set_ap_visible (a : App) (x : option WorkspaceKey) : App :=
  {| ap_port := ap_port a; ap_model := ap_model a; ap_mysql := ap_mysql a; ap_editor := ap_editor a; ap_focus :=
     ap_focus a; ap_redis := ap_redis a; ap_visible := x; ap_active := ap_active a; ap_deletes := ap_deletes a;
     ap_recipes := ap_recipes a; ap_prompt := ap_prompt a; ap_error := ap_error a; ap_context := ap_context a;
     ap_confirm := ap_confirm a; ap_next_draft := ap_next_draft a; ap_connect := ap_connect a; ap_exports :=
     ap_exports a; ap_committed := ap_committed a; ap_formats := ap_formats a |}.
Definition set_ap_active (a : App) (x : gmap (list N) ActiveOperation) : App :=
  {| ap_port := ap_port a; ap_model := ap_model a; ap_mysql := ap_mysql a; ap_editor := ap_editor a; ap_focus :=
     ap_focus a; ap_redis := ap_redis a; ap_visible := ap_visible a; ap_active := x; ap_deletes := ap_deletes a;
     ap_recipes := ap_recipes a; ap_prompt := ap_prompt a; ap_error := ap_error a; ap_context := ap_context a;
     ap_confirm := ap_confirm a; ap_next_draft := ap_next_draft a; ap_connect := ap_connect a; ap_exports :=
     ap_exports a; ap_committed := ap_committed a; ap_formats := ap_formats a |}.
Definition set_ap_deletes (a : App) (x : gmap (list N) PendingDelete) : App :=
  {| ap_port := ap_port a; ap_model := ap_model a; ap_mysql := ap_mysql a; ap_editor := ap_editor a; ap_focus :=
     ap_focus a; ap_redis := ap_redis a; ap_visible := ap_visible a; ap_active := ap_active a; ap_deletes := x;
     ap_recipes := ap_recipes a; ap_prompt := ap_prompt a; ap_error := ap_error a; ap_context := ap_context a;
     ap_confirm := ap_confirm a; ap_next_draft := ap_next_draft a; ap_connect := ap_connect a; ap_exports :=
     ap_exports a; ap_committed := ap_committed a; ap_formats := ap_formats a |}.
Definition set_ap_recipes (a : App) (x : RetryRecipeRegistry) : App :=
  {| ap_port := ap_port a; ap_model := ap_model a; ap_mysql := ap_mysql a; ap_editor := ap_editor a; ap_focus :=
     ap_focus a; ap_redis := ap_redis a; ap_visible := ap_visible a; ap_active := ap_active a; ap_deletes :=
     ap_deletes a; ap_recipes := x; ap_prompt := ap_prompt a; ap_error := ap_error a; ap_context := ap_context
     a; ap_confirm := ap_confirm a; ap_next_draft := ap_next_draft a; ap_connect := ap_connect a; ap_exports :=
     ap_exports a; ap_committed := ap_committed a; ap_formats := ap_formats a |}.
Definition set_ap_prompt (a : App) (x : option CredentialPrompt) : App :=
  {| ap_port := ap_port a; ap_model := ap_model a; ap_mysql := ap_mysql a; ap_editor := ap_editor a; ap_focus :=
     ap_focus a; ap_redis := ap_redis a; ap_visible := ap_visible a; ap_active := ap_active a; ap_deletes :=
     ap_deletes a; ap_recipes := ap_recipes a; ap_prompt := x; ap_error := ap_error a; ap_context := ap_context
     a; ap_confirm := ap_confirm a; ap_next_draft := ap_next_draft a; ap_connect := ap_connect a; ap_exports :=
     ap_exports a; ap_committed := ap_committed a; ap_formats := ap_formats a |}.
Definition set_ap_error (a : App) (x : option VisibleError) : App :=
  {| ap_port := ap_port a; ap_model := ap_model a; ap_mysql := ap_mysql a; ap_editor := ap_editor a; ap_focus :=
     ap_focus a; ap_redis := ap_redis a; ap_visible := ap_visible a; ap_active := ap_active a; ap_deletes :=
     ap_deletes a; ap_recipes := ap_recipes a; ap_prompt := ap_prompt a; ap_error := x; ap_context := ap_context
     a; ap_confirm := ap_confirm a; ap_next_draft := ap_next_draft a; ap_connect := ap_connect a; ap_exports :=
     ap_exports a; ap_committed := ap_committed a; ap_formats := ap_formats a |}.
Definition set_ap_context (a : App) (x : option RecoveryDispatchContext) : App :=
  {| ap_port := ap_port a; ap_model := ap_model a; ap_mysql := ap_mysql a; ap_editor := ap_editor a; ap_focus :=
     ap_focus a; ap_redis := ap_redis a; ap_visible := ap_visible a; ap_active := ap_active a; ap_deletes :=
     ap_deletes a; ap_recipes := ap_recipes a; ap_prompt := ap_prompt a; ap_error := ap_error a; ap_context :=
     x; ap_confirm := ap_confirm a; ap_next_draft := ap_next_draft a; ap_connect := ap_connect a; ap_exports :=
     ap_exports a; ap_committed := ap_committed a; ap_formats := ap_formats a |}.
Definition set_ap_confirm (a : App) (x : option DeleteConfirmation) : App :=
  {| ap_port := ap_port a; ap_model := ap_model a; ap_mysql := ap_mysql a; ap_editor := ap_editor a; ap_focus :=
     ap_focus a; ap_redis := ap_redis a; ap_visible := ap_visible a; ap_active := ap_active a; ap_deletes :=
     ap_deletes a; ap_recipes := ap_recipes a; ap_prompt := ap_prompt a; ap_error := ap_error a; ap_context :=
     ap_context a; ap_confirm := x; ap_next_draft := ap_next_draft a; ap_connect := ap_connect a; ap_exports :=
     ap_exports a; ap_committed := ap_committed a; ap_formats := ap_formats a |}.
Definition set_ap_next_draft (a : App) (x : N) : App :=
  {| ap_port := ap_port a; ap_model := ap_model a; ap_mysql := ap_mysql a; ap_editor := ap_editor a; ap_focus :=
     ap_focus a; ap_redis := ap_redis a; ap_visible := ap_visible a; ap_active := ap_active a; ap_deletes :=
     ap_deletes a; ap_recipes := ap_recipes a; ap_prompt := ap_prompt a; ap_error := ap_error a; ap_context :=
     ap_context a; ap_confirm := ap_confirm a; ap_next_draft := x; ap_connect := ap_connect a; ap_exports :=
     ap_exports a; ap_committed := ap_committed a; ap_formats := ap_formats a |}.
Definition set_ap_connect (a : App) (x : option (ProfileId * OperationId)) : App :=
  {| ap_port := ap_port a; ap_model := ap_model a; ap_mysql := ap_mysql a; ap_editor := ap_editor a; ap_focus :=
     ap_focus a; ap_redis := ap_redis a; ap_visible := ap_visible a; ap_active := ap_active a; ap_deletes :=
     ap_deletes a; ap_recipes := ap_recipes a; ap_prompt := ap_prompt a; ap_error := ap_error a; ap_context :=
     ap_context a; ap_confirm := ap_confirm a; ap_next_draft := ap_next_draft a; ap_connect := x; ap_exports :=
     ap_exports a; ap_committed := ap_committed a; ap_formats := ap_formats a |}.
Definition set_ap_exports (a : App) (x : gmap OperationId PendingExportDestination) : App :=
  {| ap_port := ap_port a; ap_model := ap_model a; ap_mysql := ap_mysql a; ap_editor := ap_editor a; ap_focus :=
     ap_focus a; ap_redis := ap_redis a; ap_visible := ap_visible a; ap_active := ap_active a; ap_deletes :=
     ap_deletes a; ap_recipes := ap_recipes a; ap_prompt := ap_prompt a; ap_error := ap_error a; ap_context :=
     ap_context a; ap_confirm := ap_confirm a; ap_next_draft := ap_next_draft a; ap_connect := ap_connect a;
     ap_exports := x; ap_committed := ap_committed a; ap_formats := ap_formats a |}.
Definition set_ap_committed (a : App) (x : gmap ResultId str) : App :=
  {| ap_port := ap_port a; ap_model := ap_model a; ap_mysql := ap_mysql a; ap_editor := ap_editor a; ap_focus :=
     ap_focus a; ap_redis := ap_redis a; ap_visible := ap_visible a; ap_active := ap_active a; ap_deletes :=
     ap_deletes a; ap_recipes := ap_recipes a; ap_prompt := ap_prompt a; ap_error := ap_error a; ap_context :=
     ap_context a; ap_confirm := ap_confirm a; ap_next_draft := ap_next_draft a; ap_connect := ap_connect a;
     ap_exports := ap_exports a; ap_committed := x; ap_formats := ap_formats a |}.
Definition set_ap_formats (a : App) (x : gmap ResultId ExportFormat) : App :=
  {| ap_port := ap_port a; ap_model := ap_model a; ap_mysql := ap_mysql a; ap_editor := ap_editor a; ap_focus :=
     ap_focus a; ap_redis := ap_redis a; ap_visible := ap_visible a; ap_active := ap_active a; ap_deletes :=
     ap_deletes a; ap_recipes := ap_recipes a; ap_prompt := ap_prompt a; ap_error := ap_error a; ap_context :=
     ap_context a; ap_confirm := ap_confirm a; ap_next_draft := ap_next_draft a; ap_connect := ap_connect a;
     ap_exports := ap_exports a; ap_committed := ap_committed a; ap_formats := x |}.


Definition set_ap_status (a : App) (status : str) : App := set_ap_model a (UiModel.set_status (ap_model a) status).
Definition ap_generation (a : App) (profile_id : ProfileId) : option ProfileGeneration :=
  um_active_generations (ap_model a) !! profile_id.
Definition ap_uncertain (a : App) : bool := um_config_uncertain (ap_model a).

(** [self.model.next_operation()] *)
Definition ap_next_operation (a : App) : OperationId * App :=
  let '(operation_id, m) := next_operation (ap_model a) in (operation_id, set_ap_model a m).

Definition allocate_draft_id (a : App) : DraftId * App :=
  (ap_next_draft a, set_ap_next_draft a (saturating_add (ap_next_draft a) 1)).

Definition configured_profile_editor (a : App) (editor : ProfileEditor) : ProfileEditor :=
  set_migration_presentation editor (migration_required (um_config (ap_model a)))
    (pr_migration_backup (um_config (ap_model a))).

(** ** Exports *)

(** result_view.rs *)
Definition with_pending_export (v : ResultViewState) (pending : option OperationId) : ResultViewState :=
  {| rv_result_id := rv_result_id v; rv_selected_rows := rv_selected_rows v; rv_selected_cell := rv_selected_cell v;
     rv_needs_initial_selection := rv_needs_initial_selection v; rv_pending_export := pending |}.

Definition begin_export (v : ResultViewState) (result_id : ResultId) (operation_id : OperationId) :
    bool * ResultViewState :=
  if negb (bool_decide (rv_result_id v = Some result_id)) || bool_decide (is_Some (rv_pending_export v))
  then (false, v) else (true, with_pending_export v (Some operation_id)).

Definition finish_export (v : ResultViewState) (result_id : ResultId) (operation_id : OperationId) :
    bool * ResultViewState :=
  if negb (bool_decide (rv_result_id v = Some result_id)) || negb (bool_decide (rv_pending_export v = Some operation_id))
  then (false, v) else (true, with_pending_export v None).

Definition with_view (w : ProfileWorkspace) (view : ResultViewState) : ProfileWorkspace :=
  with_execution w (ws_pending_execute w) (ws_result w) view (ws_error w).

Definition shows_result (result_id : ResultId) (w : ProfileWorkspace) : bool :=
  match ws_result w with
  | Some result => (rp_result_id (sn_provenance result) =? result_id)%N
  | None => false
  end.

(** A workspace that shows a result; the order of a [HashMap] is any order. *)
Definition workspace_of_result (m : UiModel) (result_id : ResultId) : option (WorkspaceKey * ProfileWorkspace) :=
  find (fun entry => shows_result result_id entry.2) (map_to_list (um_workspaces m)).

Definition result_snapshot (a : App) (result_id : ResultId) : option ResultSnapshot :=
  entry ← workspace_of_result (ap_model a) result_id; ws_result entry.2.

Definition begin_result_export_state (a : App) (result_id : ResultId) (operation_id : OperationId) : bool * App :=
  match workspace_of_result (ap_model a) result_id with
  | Some (key, w) =>
      let '(begun, view) := begin_export (ws_result_view w) result_id operation_id in
      let '(begun, view) :=
        if begun then (true, view) else begin_export (reset_for view result_id) result_id operation_id in
      (begun, set_ap_model a (set_workspaces (ap_model a) (<[key := with_view w view]> (um_workspaces (ap_model a)))))
  | None => (false, a)
  end.

Definition finish_result_export_state (a : App) (result_id : ResultId) (operation_id : OperationId) : App :=
  set_ap_model a
    (set_workspaces (ap_model a)
       ((fun w => with_view w (finish_export (ws_result_view w) result_id operation_id).2) <$> um_workspaces (ap_model a))).

Definition export_ended (a : App) (operation_id : OperationId) (result_id : ResultId) (format : ExportFormat)
    (destination_committed : bool) : App :=
  let a := finish_result_export_state a result_id operation_id in
  let a := set_ap_formats a (<[result_id := format]> (ap_formats a)) in
  match ap_exports a !! operation_id with
  | Some pending =>
      if (px_result_id pending =? result_id)%N && bool_decide (px_format pending = format) then
        let a := set_ap_exports a (delete operation_id (ap_exports a)) in
        if destination_committed then set_ap_committed a (<[result_id := px_path pending]> (ap_committed a)) else a
      else a
  | None => a
  end.

Definition handle_export_terminal (a : App) (event : UiEvent) : App :=
  match event with
  | ResultExported operation_id result_id format _ _ _ => export_ended a operation_id result_id format true
  | ResultExportFailed operation_id result_id format _ _ _ destination_committed =>
      export_ended a operation_id result_id format destination_committed
  | RuntimeShutdown _ => set_ap_exports a ∅
  | _ => a
  end.

Definition prune_result_export_state (a : App) : App :=
  let current : gset ResultId :=
    list_to_set (omap (fun entry : WorkspaceKey * ProfileWorkspace =>
                         (fun result => rp_result_id (sn_provenance result)) <$> ws_result entry.2)
                      (map_to_list (um_workspaces (ap_model a)))
                 ++ ((fun entry : OperationId * PendingExportDestination => px_result_id entry.2)
                       <$> map_to_list (ap_exports a))) in
  let a := set_ap_committed a (filter (fun entry => entry.1 ∈ current) (ap_committed a)) in
  set_ap_formats a (filter (fun entry => entry.1 ∈ current) (ap_formats a)).

(** ** Redis explorers *)

(** [redis_explorer_mut(key)], with what the caller does to the explorer. *)
Definition redis_explorer_of (a : App) (key : WorkspaceKey) : RedisExplorer :=
  default (set_explorer_profile RedisExplorer_default (Some key)) (ap_redis a !! key).
Definition redis_explorer_mut (a : App) (key : WorkspaceKey) (f : RedisExplorer -> RedisExplorer) : App :=
  set_ap_redis a (<[key := f (redis_explorer_of a key)]> (ap_redis a)).

Definition identity_key (identity : RequestIdentity) : WorkspaceKey :=
  (ri_profile_id identity, ri_profile_generation identity).

Definition redis_resource_event_identity (event : UiEvent) :
    option (RequestIdentity * OperationKind * option SessionGeneration) :=
  match event with
  | RedisKeysLoaded page session_generation _ => Some (kp_identity page, BrowseRedis, Some session_generation)
  | RedisKeysFailed request _ session_generation _ _ => Some (rs_identity request, BrowseRedis, session_generation)
  | RedisKeyInspected preview session_generation _ => Some (vp_identity preview, InspectRedis, Some session_generation)
  | RedisKeyInspectFailed request _ session_generation _ _ =>
      Some (rk_identity request, InspectRedis, session_generation)
  | _ => None
  end.

(** [active_operations.get(..).is_some_and(..)] for an exact operation. *)
Definition is_active (a : App) (profile_id : ProfileId) (operation_id : OperationId)
    (profile_generation : ProfileGeneration) (kinds : list OperationKind) : bool :=
  match ap_active a !! profile_id with
  | Some active =>
      (ao_operation_id active =? operation_id)%N && (ao_profile_generation active =? profile_generation)%N
      && bool_decide (ao_kind active ∈ kinds)
  | None => false
  end.

Definition redis_resource_event_disposition (a : App) (event : UiEvent) : RedisResourceEventDisposition :=
  match redis_resource_event_identity event with
  | None => NotRedis
  | Some (identity, kind, session_generation) =>
      let profile_id := ri_profile_id identity in
      let operation_id := ri_operation_id identity in
      if ap_uncertain a || negb (bool_decide (ap_generation a profile_id = Some (ri_profile_generation identity)))
         || negb (is_active a profile_id operation_id (ri_profile_generation identity) [kind])
      then Ignore
      else if accepts_redis_event_session (connection_state (ap_model a) profile_id) session_generation
      then Apply else StaleTerminal operation_id
  end.

Definition forget_redis_explorers (a : App) : App := set_ap_visible (set_ap_redis a ∅) None.

(** The explorer that the end of a connection removes. *)
Definition cleared_redis_key (a : App) (event : UiEvent) : option WorkspaceKey :=
  match event with
  | ConnectionClosed operation_id profile_id profile_generation _ =>
      if is_active a profile_id operation_id profile_generation [DisconnectProfile]
      then Some (profile_id, profile_generation) else None
  | ConnectionReady operation_id profile_id profile_generation _ _ =>
      if is_active a profile_id operation_id profile_generation [ConnectProfile; ReconnectProfile]
      then Some (profile_id, profile_generation) else None
  | OperationFailed operation_id profile_id profile_generation _ kind _ _ _ connection_outcome =>
      if bool_decide (kind ∈ [DisconnectProfile; ReconnectProfile]) && negb (bool_decide (connection_outcome = Preserve))
         && is_active a profile_id operation_id profile_generation [kind]
      then Some (profile_id, profile_generation) else None
  | _ => None
  end.

Definition remove_redis_explorer (a : App) (key : WorkspaceKey) : App :=
  let a := set_ap_redis a (delete key (ap_redis a)) in
  if bool_decide (ap_visible a = Some key) then set_ap_visible a None else a.

Definition fold_redis_explorer_event (a : App) (event : UiEvent) : App :=
  match redis_resource_event_identity event with
  | Some (identity, _, _) =>
      match ap_redis a !! identity_key identity with
      | Some explorer => set_ap_redis a (<[identity_key identity := explorer_event explorer event]> (ap_redis a))
      | None => a
      end
  | None =>
      match event with
      | ConfigUncertain _ | RuntimeShutdown _ => forget_redis_explorers a
      | _ => match cleared_redis_key a event with Some key => remove_redis_explorer a key | None => a end
      end
  end.

Definition prune_redis_explorers (a : App) : App :=
  if ap_uncertain a then forget_redis_explorers a
  else
    let a := set_ap_redis a
               (filter (fun entry : WorkspaceKey * RedisExplorer => ap_generation a entry.1.1 = Some entry.1.2)
                  (ap_redis a)) in
    match ap_visible a with
    | Some key => if bool_decide (is_Some (ap_redis a !! key)) then a else set_ap_visible a None
    | None => a
    end.

(** ** Errors *)

(** The error with the retry that is registered for its operation. *)
Definition with_recipe (kind : OperationKind) (summary : PublicSummary) (error : PublicOperationError)
    (profile_id : ProfileId) (operation_id : OperationId) : PublicOperationError :=
  new_or_internal kind summary (pe_code error) (CtxProfile profile_id operation_id None (Some operation_id)).

Definition request_with_recipe (a : App) (kind : OperationKind) (summary : PublicSummary)
    (error : PublicOperationError) (identity : RequestIdentity) : PublicOperationError :=
  if bool_decide (is_Some (rr_recipes (ap_recipes a) !! ri_operation_id identity))
  then with_recipe kind summary error (ri_profile_id identity) (ri_operation_id identity) else error.

Definition attach_retry_recipe (a : App) (event : UiEvent) : UiEvent :=
  match event with
  | OperationFailed operation_id profile_id profile_generation session_generation kind summary error
      session_disposition connection_outcome =>
      let error :=
        match rr_recipes (ap_recipes a) !! operation_id with
        | Some recipe =>
            if bool_decide (recipe_operation_kind recipe = kind)
            then with_recipe kind summary error profile_id operation_id else error
        | None => error
        end in
      OperationFailed operation_id profile_id profile_generation session_generation kind summary error
        session_disposition connection_outcome
  | CatalogPageFailed request summary error session_generation session_disposition =>
      CatalogPageFailed request summary (request_with_recipe a BrowseMySql summary error (cr_identity request))
        session_generation session_disposition
  | RedisKeysFailed request error session_generation session_disposition connection_outcome =>
      RedisKeysFailed request (request_with_recipe a BrowseRedis (pe_summary error) error (rs_identity request))
        session_generation session_disposition connection_outcome
  | RedisKeyInspectFailed request error session_generation session_disposition connection_outcome =>
      RedisKeyInspectFailed request
        (request_with_recipe a InspectRedis (pe_summary error) error (rk_identity request))
        session_generation session_disposition connection_outcome
  | _ => event
  end.

Definition visible_error (event : UiEvent) : option VisibleError :=
  match event with
  | ProfilesFailed operation_id _ error | ProfileCreateFailed operation_id _ _ error
  | ProfileUpdateFailed operation_id _ _ _ error | DraftOperationFailed operation_id _ _ error
  | CredentialsStoreFailed operation_id _ _ _ error | ResultExportFailed operation_id _ _ _ _ error _ =>
      Some {| ve_operation_id := operation_id; ve_error := error |}
  | OperationFailed operation_id _ _ _ kind _ error _ _ =>
      if bool_decide (kind ∈ [ExecuteRead; ExecuteMutation]) then None
      else Some {| ve_operation_id := operation_id; ve_error := error |}
  | _ => None
  end.

Definition capture_common_error (a : App) (event : UiEvent) : App :=
  match event with
  | ConfigUncertain _ | RuntimeShutdown _ => set_ap_error a None
  | _ => match visible_error event with Some visible => set_ap_error a (Some visible) | None => a end
  end.

(** ** The credential prompt *)

Definition remove_recipe (a : App) (recipe_id : option OperationRecipeId) : App :=
  match recipe_id with
  | Some recipe_id => set_ap_recipes a (registry_remove (ap_recipes a) recipe_id)
  | None => a
  end.

Definition cancel_credential_prompt (a : App) : App :=
  match ap_prompt a with
  | Some prompt => remove_recipe (set_ap_prompt a None) (pm_retry_recipe_id prompt)
  | None => a
  end.

(** The store that an event ends: its operation, profile and generation, and whether it stored. *)
Definition store_ended (a : App) (event : UiEvent) : option (OperationId * ProfileId * ProfileGeneration * bool) :=
  match event with
  | CredentialsStored operation_id profile_id profile_generation =>
      Some (operation_id, profile_id, profile_generation, true)
  | CredentialsStoreFailed operation_id profile_id profile_generation _ _ =>
      Some (operation_id, profile_id, profile_generation, false)
  | OperationFailed operation_id profile_id profile_generation _ _ _ _ _ _ =>
      prompt ← ap_prompt a;
      if bool_decide (pm_store_operation_id prompt = Some operation_id)
      then Some (operation_id, profile_id, profile_generation, false) else None
  | _ => None
  end.

(** What is retried is returned, with the kind of operation that asked for the credential. *)
Definition handle_credential_terminal (a : App) (event : UiEvent) :
    option (OperationRecipeId * OperationKind) * App :=
  match event with
  | ConfigUncertain _ | RuntimeShutdown _ => (None, cancel_credential_prompt a)
  | _ =>
      match store_ended a event, ap_prompt a with
      | Some (operation_id, profile_id, profile_generation, stored), Some prompt =>
          if bool_decide (pm_store_operation_id prompt = Some operation_id)
             && bool_decide (pm_profile_id prompt = profile_id)
             && (pm_profile_generation prompt =? profile_generation)%N
          then
            let retry := pm_retry_recipe_id prompt in
            let a := set_ap_prompt a None in
            if negb stored || negb (bool_decide (ap_generation a profile_id = Some profile_generation)) || ap_uncertain a
            then (None, remove_recipe a retry)
            else ((fun recipe_id => (recipe_id, pm_source_operation prompt)) <$> retry, a)
          else (None, a)
      | _, _ => (None, a)
      end
  end.

(** ** Active operations *)

(** The connection and operation that an event ends. *)
Definition terminal_of (event : UiEvent) : option (ProfileId * OperationId) :=
  let of_identity identity := Some (ri_profile_id identity, ri_operation_id identity) in
  match event with
  | ConnectionReady operation_id profile_id _ _ _ | ConnectionClosed operation_id profile_id _ _
  | QueryFinished operation_id profile_id _ _ _ | ExecuteUnavailable operation_id profile_id _ _
  | OperationFailed operation_id profile_id _ _ _ _ _ _ _ | ProfileDeleted operation_id profile_id _ _ =>
      Some (profile_id, operation_id)
  | CatalogPageLoaded page _ _ => of_identity (cp_identity page)
  | CatalogPageFailed request _ _ _ _ => of_identity (cr_identity request)
  | RedisKeysLoaded page _ _ => of_identity (kp_identity page)
  | RedisKeysFailed request _ _ _ _ => of_identity (rs_identity request)
  | RedisKeyInspected preview _ _ => of_identity (vp_identity preview)
  | RedisKeyInspectFailed request _ _ _ _ => of_identity (rk_identity request)
  | _ => None
  end.

(** A failure keeps its recipe for a retry. *)
Definition keeps_recipe (event : UiEvent) : bool :=
  match event with
  | OperationFailed _ _ _ _ _ _ _ _ _ | CatalogPageFailed _ _ _ _ _ | RedisKeysFailed _ _ _ _ _
  | RedisKeyInspectFailed _ _ _ _ _ => true
  | _ => false
  end.

Definition mark_prior_finished (operation_id : OperationId) (p : PendingDelete) : PendingDelete :=
  match pd_prior_active p with
  | Some prior =>
      if (ao_operation_id prior =? operation_id)%N then
        {| pd_operation_id := pd_operation_id p; pd_profile_generation := pd_profile_generation p;
           pd_prior_active := pd_prior_active p; pd_prior_finished := true |}
      else p
  | None => p
  end.

Definition remove_active (a : App) (profile_id : ProfileId) (operation_id : OperationId) : App :=
  match ap_active a !! profile_id with
  | Some active =>
      if (ao_operation_id active =? operation_id)%N then set_ap_active a (delete profile_id (ap_active a)) else a
  | None => a
  end.

(** The deletion that a failure ends. *)
Definition failed_delete (a : App) (event : UiEvent) : option (PublicSummary * PendingDelete) :=
  match event with
  | OperationFailed operation_id profile_id _ _ DeleteProfile summary _ _ _ =>
      pending ← ap_deletes a !! profile_id;
      if (pd_operation_id pending =? operation_id)%N then Some (summary, pending) else None
  | _ => None
  end.

(** A deletion that surely did not happen gives the connection its operation back. *)
Definition end_failed_delete (a : App) (profile_id : ProfileId) (operation_id : OperationId) (summary : PublicSummary)
    (pending : PendingDelete) : App :=
  let a := set_ap_deletes a (delete profile_id (ap_deletes a)) in
  let a := remove_active a profile_id operation_id in
  match pd_prior_active pending with
  | Some prior =>
      if delete_failure_is_known_non_committed summary && negb (pd_prior_finished pending)
         && bool_decide (ap_generation a profile_id = Some (pd_profile_generation pending))
      then set_ap_active a (<[profile_id := prior]> (ap_active a)) else a
  | None => a
  end.

Definition is_deletion (event : UiEvent) : bool := match event with ProfileDeleted _ _ _ _ => true | _ => false end.

(** The operation of a connection is over. *)
Definition end_operation (a : App) (event : UiEvent) (profile_id : ProfileId) (operation_id : OperationId) : App :=
  let a := set_ap_deletes a (alter (mark_prior_finished operation_id) profile_id (ap_deletes a)) in
  match failed_delete a event with
  | Some (summary, pending) => end_failed_delete a profile_id operation_id summary pending
  | None =>
      let a := if is_deletion event then set_ap_deletes a (delete profile_id (ap_deletes a)) else a in
      let a := remove_active a profile_id operation_id in
      if keeps_recipe event then a else remove_recipe a (Some operation_id)
  end.

Definition finish_active_operation (a : App) (event : UiEvent) : App :=
  match event with
  | ConfigUncertain _ | RuntimeShutdown _ => set_ap_recipes (set_ap_deletes (set_ap_active a ∅) ∅) registry_default
  | _ =>
      match terminal_of event with
      | Some (profile_id, operation_id) => end_operation a event profile_id operation_id
      | None => a
      end
  end.

(** [retain] keeps what belongs to the current generation of its profile. *)
Definition retain_operations (a : App) : App :=
  let a := set_ap_active a
             (filter (fun entry : list N * ActiveOperation =>
                        ap_generation a entry.1 = Some (ao_profile_generation entry.2)) (ap_active a)) in
  let a := set_ap_deletes a
             (filter (fun entry : list N * PendingDelete =>
                        ap_generation a entry.1 = Some (pd_profile_generation entry.2)) (ap_deletes a)) in
  set_ap_recipes a (retain_current (ap_recipes a) (um_active_generations (ap_model a))).

Definition prune_credential_prompt (a : App) : App :=
  match ap_prompt a with
  | Some prompt =>
      if bool_decide (ap_generation a (pm_profile_id prompt) = Some (pm_profile_generation prompt))
      then a else cancel_credential_prompt a
  | None => a
  end.

Definition prune_active_operations (a : App) : App := prune_credential_prompt (retain_operations a).

(** ** MySQL explorers *)

Definition mysql_explorer_mut (a : App) (key : WorkspaceKey) (f : MySqlExplorerState -> MySqlExplorerState) : App :=
  set_ap_mysql a (<[key := f (default MySqlExplorerState_default (ap_mysql a !! key))]> (ap_mysql a)).

Definition fold_mysql_explorer_event (a : App) (event : UiEvent) : App :=
  match event with
  | CatalogPageLoaded page _ _ => mysql_explorer_mut a (identity_key (cp_identity page)) (fun s => handle_loaded s page)
  | CatalogPageFailed request _ error _ _ =>
      mysql_explorer_mut a (identity_key (cr_identity request)) (fun s => handle_failed s request (pe_summary error))
  | ProfileDeleted _ profile_id profile_generation _ =>
      set_ap_mysql a (delete (profile_id, profile_generation) (ap_mysql a))
  | _ => a
  end.
End app.
