(* ===== verification/AppCommands.v ===== *)
(** * What the application submits (src/src/ui/app.rs)

    Buttons, retries and recoveries: the checks before a command is submitted, and what is
    remembered once it was taken. *)

From S2P Require Import Prelude RustStr Model Secrets Config ConfigWriter Drivers Service PublicError RedisBrowser.
From S2P Require Import MysqlExplorer ProfileForm UiModel RedisExplorer RuntimeEvents DraftTests Tokio CommandPorts.
From S2P Require Import Editor ExportFiles App.

#[local] Abbreviation OperationRecipeId := N (only parsing).

(** What the desktop and its user answer: the destination chosen for an export, whether a
    file was shown, what [symlink_metadata] and [confirm_replace] say of a path. *)
Record Desktop := {
  dk_choose_destination : ResultId -> ExportFormat -> option str;
  dk_reveal_file : str -> bool;
  dk_symlink_metadata : str -> result IoKind unit;
  dk_confirm_replace : str -> result ExportFileError ConfirmedDestination;
}.

Definition submit_error_message (error : SubmitError) : str :=
  match error with
  | SubmitBusy => lit "The service queue is busy; try again."
  | SubmitDisconnected => lit "The service is unavailable."
  end.

Definition export_format_label (format : ExportFormat) : string :=
  match format with Csv => "CSV" | Tsv => "TSV" | Json => "JSON" end.

Section app.
Context `{T : Tokio}.

(** [self.port.try_submit(command)] *)
Definition ap_submit (a : App) (command : UiCommand) : result SubmitError unit * App :=
  let '(sent, port) := try_submit command (ap_port a) in (sent, set_ap_port a port).

Definition report_submit_error (a : App) (error : SubmitError) : App :=
  set_ap_status a (match error with
                   | SubmitBusy => lit "Service is busy; command was not submitted"
                   | SubmitDisconnected => lit "Service is unavailable"
                   end).

Definition activate (a : App) (profile_id : ProfileId) (operation_id : OperationId)
    (profile_generation : ProfileGeneration) (kind : OperationKind) : App :=
  set_ap_active a
    (<[profile_id := {| ao_operation_id := operation_id; ao_profile_generation := profile_generation; ao_kind := kind |}]>
       (ap_active a)).

Definition set_ap_connection (a : App) (profile_id : ProfileId) (state : ConnectionState) : App :=
  set_ap_model a (set_connection (ap_model a) profile_id state).

Definition register_recipe (a : App) (operation_id : OperationId) (recipe : Recipe) : App :=
  set_ap_recipes a (register (ap_recipes a) operation_id recipe).

(** [DbotterApp::new]: the profiles are loaded. *)
Definition App_initial (port : Ports) : App :=
  {| ap_port := port; ap_model := UiModel_default; ap_mysql := ∅; ap_editor := None; ap_focus := None; ap_redis := ∅;
     ap_visible := None; ap_active := ∅; ap_deletes := ∅; ap_recipes := registry_default; ap_prompt := None;
     ap_error := None; ap_context := None; ap_confirm := None; ap_next_draft := 1; ap_connect := None; ap_exports := ∅;
     ap_committed := ∅; ap_formats := ∅ |}.

Definition App_new (port : Ports) : App :=
  let '(operation_id, a) := ap_next_operation (App_initial port) in (ap_submit a (CmdRefreshProfiles operation_id)).2.

(** ** Connections *)

Definition submit_refresh (a : App) : App :=
  let '(operation_id, a) := ap_next_operation a in
  match ap_submit a (CmdRefreshProfiles operation_id) with
  | (Ok _, a) => set_ap_status a (under_way "Reloading profiles")
  | (Err error, a) => report_submit_error a error
  end.

(** A connection that works or waits takes no further work. *)
Definition connection_busy (a : App) (profile_id : ProfileId) : bool :=
  UiModel.is_pending (connection_state (ap_model a) profile_id)
  || bool_decide (is_Some (ap_active a !! profile_id)).

Definition submit_connect_exact (a : App) (profile_id : ProfileId) (profile_generation : ProfileGeneration)
    (timeout_ms : N) : App :=
  if connection_busy a profile_id then set_ap_status a (lit "Connection work is already pending")
  else
    let '(operation_id, a) := ap_next_operation a in
    match ap_submit a (CmdTestConnection operation_id profile_id profile_generation timeout_ms) with
    | (Ok _, a) =>
        let a := register_recipe a operation_id (RecipeConnect profile_id profile_generation timeout_ms) in
        let a := set_ap_connection a profile_id (Pending operation_id) in
        let a := activate a profile_id operation_id profile_generation ConnectProfile in
        set_ap_status a (under_way "Connecting")
    | (Err error, a) => report_submit_error a error
    end.

Definition submit_reconnect_exact (a : App) (profile_id : ProfileId) (profile_generation : ProfileGeneration)
    (timeout_ms : N) : App :=
  if connection_busy a profile_id then set_ap_status a (lit "Connection work is already pending")
  else
    let '(operation_id, a) := ap_next_operation a in
    match ap_submit a (CmdReconnectProfile operation_id profile_id profile_generation timeout_ms) with
    | (Ok _, a) =>
        let a := register_recipe a operation_id (RecipeReconnect profile_id profile_generation timeout_ms) in
        let a := set_ap_connection a profile_id (Pending operation_id) in
        let a := activate a profile_id operation_id profile_generation ReconnectProfile in
        set_ap_status a (under_way "Reconnecting")
    | (Err error, a) => report_submit_error a error
    end.

Definition submit_reconnect (a : App) (profile_id : ProfileId) : App :=
  if ap_uncertain a then set_ap_status a (lit "Reload profiles before using connections.")
  else
    match ap_generation a profile_id with
    | None => set_ap_status a (lit "Unknown profile")
    | Some profile_generation => submit_reconnect_exact a profile_id profile_generation DEFAULT_TIMEOUT_MS
    end.

Definition submit_disconnect (a : App) (profile_id : ProfileId) : App :=
  if ap_uncertain a then set_ap_status a (lit "Reload profiles before using connections.")
  else
    match ap_generation a profile_id with
    | None => set_ap_status a (lit "Unknown profile")
    | Some profile_generation =>
        let '(operation_id, a) := ap_next_operation a in
        match ap_submit a (CmdDisconnectProfile operation_id profile_id profile_generation) with
        | (Ok _, a) =>
            let a := set_ap_connection a profile_id (Pending operation_id) in
            let a := activate a profile_id operation_id profile_generation DisconnectProfile in
            set_ap_status a (under_way "Disconnecting")
        | (Err error, a) => report_submit_error a error
        end
    end.

(** ** The credential prompt *)

Definition open_credential_prompt_for (a : App) (profile_id : ProfileId) (profile_generation : ProfileGeneration)
    (source_operation : OperationKind) (retry_recipe_id : option OperationRecipeId) : App :=
  if negb (bool_decide (ap_generation a profile_id = Some profile_generation)) then
    set_ap_status (remove_recipe a retry_recipe_id) (lit "The selected profile generation is stale.")
  else if negb (existsb (fun profile =>
                   bool_decide (ps_id profile = profile_id) && (ps_generation profile =? profile_generation)%N
                   && bool_decide (p_credential_mode (ps_persisted profile) = CredSession)) (um_profiles (ap_model a)))
  then set_ap_status (remove_recipe a retry_recipe_id) (lit "The current profile cannot accept a session credential.")
  else
    let a := cancel_credential_prompt a in
    let a :=
      set_ap_prompt a
        (Some {| pm_profile_id := profile_id; pm_profile_generation := profile_generation;
                 pm_source_operation := source_operation; pm_retry_recipe_id := retry_recipe_id;
                 pm_store_operation_id := None; pm_secret := [];
                 pm_status := lit "Enter the credential for this app session." |}) in
    set_ap_status a (lit "Enter the protected session credential.").

Definition open_session_credential_prompt (a : App) (profile_id : ProfileId) : App :=
  match find_profile (um_profiles (ap_model a)) profile_id with
  | None => set_ap_status a (lit "Unknown profile")
  | Some profile =>
      if negb (bool_decide (ap_generation a profile_id = Some (ps_generation profile)))
         || negb (bool_decide (p_credential_mode (ps_persisted profile) = CredSession))
      then set_ap_status a (lit "The current profile cannot accept a session credential.")
      else
        let '(recipe_seed, a) := ap_next_operation a in
        let a := register_recipe a recipe_seed (RecipeConnect profile_id (ps_generation profile) DEFAULT_TIMEOUT_MS) in
        open_credential_prompt_for a profile_id (ps_generation profile) ConnectProfile (Some recipe_seed)
  end.

Definition submit_test (a : App) (profile_id : ProfileId) : App :=
  if ap_uncertain a then set_ap_status a (lit "Reload profiles before using connections.")
  else
    match find_profile (um_profiles (ap_model a)) profile_id with
    | None => set_ap_status a (lit "Unknown profile")
    | Some profile =>
        if negb (is_ready profile) then set_ap_status a (lit "Driver is planned and unavailable")
        else if negb (can_connect profile) then set_ap_status a (lit "Environment credential is not available")
        else if negb (bool_decide (ap_generation a profile_id = Some (ps_generation profile)))
        then set_ap_status a (lit "The selected profile generation is stale.")
        else if bool_decide (p_credential_mode (ps_persisted profile) = CredSession)
                && (negb (ps_has_current_session_secret profile)
                    || bool_decide (connection_state (ap_model a) profile_id = NeedsCredential))
        then open_session_credential_prompt a profile_id
        else if UiModel.is_pending (connection_state (ap_model a) profile_id)
        then set_ap_status a (lit "Connection work is already pending")
        else if bool_decide (is_Some (ap_active a !! profile_id))
        then set_ap_status a (lit "Another operation is active for this connection")
        else submit_connect_exact a profile_id (ps_generation profile) DEFAULT_TIMEOUT_MS
    end.

Definition prompt_with_status (prompt : CredentialPrompt) (store_operation_id : option OperationId)
    (secret : ReplacementSecretBuffer) (status : str) : CredentialPrompt :=
  {| pm_profile_id := pm_profile_id prompt; pm_profile_generation := pm_profile_generation prompt;
     pm_source_operation := pm_source_operation prompt; pm_retry_recipe_id := pm_retry_recipe_id prompt;
     pm_store_operation_id := store_operation_id; pm_secret := secret; pm_status := status |}.

(** The prompt is taken and put back when it is still of use. *)
Definition submit_credential_prompt (a : App) : App :=
  match ap_prompt a with
  | None => a
  | Some prompt =>
      let a := set_ap_prompt a None in
      let keep a status := set_ap_prompt a (Some (prompt_with_status prompt None (pm_secret prompt) status)) in
      let enter := lit "Enter a session credential." in
      if bool_decide (is_Some (pm_store_operation_id prompt)) then set_ap_prompt a (Some prompt)
      else if ap_uncertain a
              || negb (bool_decide (ap_generation a (pm_profile_id prompt) = Some (pm_profile_generation prompt)))
      then set_ap_status (remove_recipe a (pm_retry_recipe_id prompt)) (lit "Reload profiles before storing credentials.")
      else if bool_decide (pm_secret prompt = []) then keep a enter
      else
        match try_reserve_mutation (ap_port a) with
        | (Err error, port) => report_submit_error (remove_recipe (set_ap_port a port) (pm_retry_recipe_id prompt)) error
        | (Ok _, port) =>
            let a := set_ap_port a port in
            match take_for_save (pm_secret prompt) with
            | (Err _, _) => keep (set_ap_port a (withdraw_permit (ap_port a))) enter
            | (Ok secret, buffer) =>
                let '(operation_id, a) := ap_next_operation a in
                let command :=
                  CmdStoreCredentials operation_id (pm_profile_id prompt) (pm_profile_generation prompt)
                    (pm_source_operation prompt) secret in
                match permit_submit command (ap_port a) with
                | (Ok _, port) =>
                    let a := set_ap_port a port in
                    let a := set_ap_prompt a (Some (prompt_with_status prompt (Some operation_id) buffer
                                                      (under_way "Storing credential"))) in
                    set_ap_status a (under_way "Storing protected session credential")
                | (Err error, port) =>
                    report_submit_error (remove_recipe (set_ap_port a port) (pm_retry_recipe_id prompt)) error
                end
            end
        end
  end.

(** ** Statements *)

Definition with_pending_execute (w : ProfileWorkspace) (operation_id : OperationId) : ProfileWorkspace :=
  with_execution w (Some operation_id) (ws_result w) (ws_result_view w) (ws_error w).

Definition pending_execute_of (w : option ProfileWorkspace) : option OperationId := w ≫= ws_pending_execute.

Definition submit_cancel (a : App) (operation_id : OperationId) (status : str) : App :=
  match ap_submit a (CmdCancelOperation operation_id) with
  | (Ok _, a) => set_ap_status a status
  | (Err error, a) => report_submit_error a error
  end.

Definition cancelling (what : string) (operation_id : OperationId) : str :=
  lit what ++ display_N operation_id ++ [8230%N].

Definition submit_execute (a : App) (intent : EditorExecuteIntent) : App :=
  let profile_id := ei_profile_id intent in
  let profile_generation := ei_profile_generation intent in
  let workspace_key := (profile_id, profile_generation) in
  if negb (bool_decide (ap_generation a profile_id = Some profile_generation))
  then set_ap_status a (lit "The selected profile generation is stale.")
  else if bool_decide (is_Some (pending_execute_of (workspace (ap_model a) workspace_key)))
  then set_ap_status a (lit "Execute is already pending")
  else if bool_decide (is_Some (ap_active a !! profile_id))
  then set_ap_status a (lit "Another operation is active for this connection")
  else
    let '(operation_id, a) := ap_next_operation a in
    match ap_submit a (into_ui_command intent operation_id) with
    | (Ok _, a) =>
        let a := set_ap_model a (workspace_mut (ap_model a) workspace_key (fun w => with_pending_execute w operation_id)) in
        let a := activate a profile_id operation_id profile_generation (ei_operation_kind intent) in
        set_ap_status a (under_way "Executing")
    | (Err error, a) => report_submit_error a error
    end.

Definition submit_editor_intent (a : App) (intent : EditorIntent) : App :=
  if ap_uncertain a then set_ap_status a (lit "Reload profiles before executing.")
  else
    match intent with
    | EditorExecute intent => submit_execute a intent
    | EditorCancel operation_id =>
        if negb (bool_decide (pending_execute_of (selected_workspace (ap_model a)) = Some operation_id))
        then set_ap_status a (lit "The pending execution is no longer current.")
        else submit_cancel a operation_id (cancelling "Cancelling operation " operation_id)
    end.

(** ** Resources *)

Definition submit_catalog (a : App) (request : CatalogRequest) (status : str) : App :=
  let identity := cr_identity request in
  match ap_submit a (CmdBrowseCatalog request) with
  | (Ok _, a) =>
      let a := register_recipe a (ri_operation_id identity) (RecipeCatalog request) in
      let a := mysql_explorer_mut a (identity_key identity) (fun s => mark_submitted s request) in
      let a := activate a (ri_profile_id identity) (ri_operation_id identity) (ri_profile_generation identity) BrowseMySql in
      set_ap_status a status
  | (Err error, a) => report_submit_error a error
  end.

Definition with_editor_text (w : ProfileWorkspace) (text : str) : ProfileWorkspace :=
  {| ws_editor_text := text; ws_caret_character_index := ws_caret_character_index w;
     ws_selection_character_range := ws_selection_character_range w; ws_row_limit := ws_row_limit w;
     ws_timeout_seconds := ws_timeout_seconds w; ws_pending_execute := ws_pending_execute w; ws_result := ws_result w;
     ws_result_view := ws_result_view w; ws_error := ws_error w; ws_catalog_page := ws_catalog_page w;
     ws_catalog_retry := ws_catalog_retry w; ws_catalog_error := ws_catalog_error w;
     ws_redis_key_page := ws_redis_key_page w; ws_redis_scan_retry := ws_redis_scan_retry w;
     ws_redis_scan_error := ws_redis_scan_error w; ws_redis_value_preview := ws_redis_value_preview w;
     ws_redis_inspect_retry := ws_redis_inspect_retry w; ws_redis_inspect_error := ws_redis_inspect_error w |}.

Definition submit_mysql_explorer_intent (a : App) (profile : ProfileSnapshot) (intent : MySqlExplorerIntent) : App :=
  match intent with
  | InsertTemplate template =>
      let a := set_ap_model a (workspace_mut (ap_model a) (ps_id profile, ps_generation profile)
                                 (fun w => with_editor_text w template)) in
      set_ap_status a (lit "Bounded SELECT template inserted; it was not executed")
  | _ =>
      if ap_uncertain a then set_ap_status a (lit "Reload profiles before browsing the catalog.")
      else if bool_decide (is_Some (ap_active a !! ps_id profile))
      then set_ap_status a (lit "Another operation is active for this connection")
      else
        let '(operation_id, a) := ap_next_operation a in
        let identity := {| ri_profile_id := ps_id profile; ri_profile_generation := ps_generation profile;
                           ri_operation_id := operation_id |} in
        match intent_request identity intent with
        | Some request => submit_catalog a request (under_way "Loading MySQL catalog page")
        | None => a
        end
  end.

Definition retry_catalog_request (a : App) (request : CatalogRequest) : App :=
  let profile_id := ri_profile_id (cr_identity request) in
  if bool_decide (is_Some (ap_active a !! profile_id))
  then set_ap_status a (lit "Another operation is active for this connection")
  else
    let '(operation_id, a) := ap_next_operation a in
    let identity := {| ri_profile_id := profile_id; ri_profile_generation := ri_profile_generation (cr_identity request);
                       ri_operation_id := operation_id |} in
    submit_catalog a (catalog_request_with_identity request identity) (under_way "Retrying MySQL catalog page").

(** A command of the Redis explorer that the ports refuse is shown in the explorer. *)
Definition redis_refused (a : App) (key : WorkspaceKey) (error : SubmitError) : App :=
  report_submit_error (redis_explorer_mut a key (fun e => submission_failed e (submit_error_message error))) error.

Definition submit_redis_scan (a : App) (request : RedisScanRequest) (restart : bool) (status : str) : App :=
  let identity := rs_identity request in
  let key := identity_key identity in
  match ap_submit a (CmdScanRedisKeys request) with
  | (Ok _, a) =>
      let a := register_recipe a (ri_operation_id identity) (RecipeRedisScan request restart) in
      let a := redis_explorer_mut a key
                 (fun e => begin_scan e (ri_operation_id identity) (rs_filter request) (rs_cursor request) restart) in
      let a := activate a (ri_profile_id identity) (ri_operation_id identity) (ri_profile_generation identity) BrowseRedis in
      set_ap_status a status
  | (Err error, a) => redis_refused a key error
  end.

Definition submit_redis_inspect (a : App) (request : RedisKeyInspectRequest) (status : str) : App :=
  let identity := rk_identity request in
  let key := identity_key identity in
  match ap_submit a (CmdInspectRedisKey request) with
  | (Ok _, a) =>
      let a := register_recipe a (ri_operation_id identity) (RecipeRedisInspect request) in
      let a := redis_explorer_mut a key (fun e => begin_inspect e (ri_operation_id identity) (rk_key request)) in
      let a := activate a (ri_profile_id identity) (ri_operation_id identity) (ri_profile_generation identity) InspectRedis in
      set_ap_status a status
  | (Err error, a) => redis_refused a key error
  end.

Definition retry_redis_scan (a : App) (request : RedisScanRequest) (restart : bool) : App :=
  let identity := rs_identity request in
  if bool_decide (is_Some (ap_active a !! ri_profile_id identity))
  then set_ap_status a (lit "Another operation is active for this connection")
  else
    let '(operation_id, a) := ap_next_operation a in
    submit_redis_scan a
      {| rs_identity := {| ri_profile_id := ri_profile_id identity; ri_profile_generation := ri_profile_generation identity;
                           ri_operation_id := operation_id |};
         rs_filter := rs_filter request; rs_cursor := rs_cursor request; rs_count_hint := rs_count_hint request;
         rs_timeout := rs_timeout request |} restart (under_way "Retrying Redis scan").

Definition retry_redis_inspect (a : App) (request : RedisKeyInspectRequest) : App :=
  let identity := rk_identity request in
  if bool_decide (is_Some (ap_active a !! ri_profile_id identity))
  then set_ap_status a (lit "Another operation is active for this connection")
  else
    let '(operation_id, a) := ap_next_operation a in
    submit_redis_inspect a
      {| rk_identity := {| ri_profile_id := ri_profile_id identity; ri_profile_generation := ri_profile_generation identity;
                           ri_operation_id := operation_id |};
         rk_key := rk_key request; rk_timeout := rk_timeout request |} (under_way "Retrying Redis inspection").

(** ** The Redis explorer's intents *)

Definition cancel_redis (a : App) (key : WorkspaceKey) (operation_id : OperationId) : App :=
  if negb (is_active a key.1 operation_id key.2 [BrowseRedis; InspectRedis])
  then redis_explorer_mut a key (fun e => submission_failed e (lit "That Redis operation is no longer active."))
  else
    match ap_submit a (CmdCancelOperation operation_id) with
    | (Ok _, a) =>
        set_ap_status (redis_explorer_mut a key (fun e => cancel_submitted e operation_id))
          (under_way "Cancelling Redis operation")
    | (Err error, a) => redis_refused a key error
    end.

Definition keyspace_ready (profile : ProfileSnapshot) : bool :=
  bool_decide (ps_driver profile = Redis) && is_ready profile
  && match find (fun descriptor => bool_decide (dd_kind descriptor = Redis)) descriptors with
     | Some descriptor => caps_contains (dd_capabilities descriptor) KEYSPACE_BROWSE
     | None => false
     end.

(** What keeps an explorer from sending. *)
Definition redis_refusal (a : App) (key : WorkspaceKey) : option str :=
  if ap_uncertain a then Some (lit "Reload profiles before browsing Redis.")
  else if negb (bool_decide (ap_generation a key.1 = Some key.2))
  then Some (lit "That Redis workspace is no longer current.")
  else
    match find (fun profile => bool_decide (ps_id profile = key.1) && (ps_generation profile =? key.2)%N)
            (um_profiles (ap_model a)) with
    | None => Some (lit "That Redis workspace is no longer current.")
    | Some profile =>
        if negb (keyspace_ready profile) then Some (lit "Redis keyspace browsing is unavailable.")
        else if bool_decide (is_Some (ap_active a !! ps_id profile))
        then Some (lit "Another operation is active for this connection.") else None
    end.

Definition submit_redis_intent_for (a : App) (key : WorkspaceKey) (intent : RedisExplorerIntent) : App :=
  match intent with
  | IntentCancel operation_id => cancel_redis a key operation_id
  | _ =>
      match redis_refusal a key with
      | Some message => redis_explorer_mut a key (fun e => submission_failed e message)
      | None =>
          let '(operation_id, a) := ap_next_operation a in
          let identity := {| ri_profile_id := key.1; ri_profile_generation := key.2; ri_operation_id := operation_id |} in
          match intent with
          | IntentScan filter cursor restart =>
              submit_redis_scan a
                {| rs_identity := identity; rs_filter := filter; rs_cursor := cursor;
                   rs_count_hint := DEFAULT_REDIS_SCAN_COUNT; rs_timeout := from_secs 5 |}
                restart (under_way "Scanning Redis keys")
          | IntentInspect redis_key =>
              submit_redis_inspect a {| rk_identity := identity; rk_key := redis_key; rk_timeout := from_secs 5 |}
                (under_way "Inspecting Redis key")
          | IntentCancel _ => a
          end
      end
  end.

Definition submit_redis_intent (a : App) (intent : RedisExplorerIntent) : App :=
  match ap_visible a with
  | None => set_ap_status a (lit "Redis explorer context is unavailable.")
  | Some key =>
      if negb (bool_decide (selected_workspace_key (ap_model a) = Some key)) then
        set_ap_status
          (redis_explorer_mut a key
             (fun e => submission_failed e (lit "Redis explorer context changed; retry from the visible panel.")))
          (lit "Redis explorer context changed; no command was submitted.")
      else submit_redis_intent_for a key intent
  end.

(** ** Exports *)

Definition present_local_export_destination_error (a : App) (result_id : ResultId) (operation_id : OperationId) : App :=
  let error := new_or_internal OpExportResult InvalidInput PcExportDestination (CtxExport result_id operation_id false) in
  set_ap_error (set_ap_status a (summary_message (pe_summary error)))
    (Some {| ve_operation_id := operation_id; ve_error := error |}).

Context (desktop : Desktop).

(** An existing file is replaced only as it was confirmed; nothing else is overwritten. *)
Definition export_policy (path : str) : option (OverwritePolicy * option ConfirmedDestination) :=
  match dk_symlink_metadata desktop path with
  | Ok _ =>
      match dk_confirm_replace desktop path with
      | Ok confirmation => Some (ReplaceConfirmed, Some confirmation)
      | Err _ => None
      end
  | Err NotFound => Some (DenyOverwrite, None)
  | Err _ => None
  end.

Definition submit_result_export_to (a : App) (snapshot : ResultSnapshot) (format : ExportFormat) (path : str) : App :=
  let result_id := rp_result_id (sn_provenance snapshot) in
  if existsb (fun entry : OperationId * PendingExportDestination => (px_result_id entry.2 =? result_id)%N)
       (map_to_list (ap_exports a))
  then set_ap_status a (lit "An export is already active for this result.")
  else
    let '(operation_id, a) := ap_next_operation a in
    match export_policy path with
    | None => present_local_export_destination_error a result_id operation_id
    | Some (overwrite_policy, confirmation) =>
        let request :=
          {| er_result_id := result_id; er_operation_id := operation_id; er_snapshot := snapshot; er_format := format;
             er_destination := path; er_overwrite_policy := overwrite_policy |} in
        match ap_submit a (CmdExportResult request confirmation) with
        | (Ok _, a) =>
            let '(view_started, a) := begin_result_export_state a result_id operation_id in
            let a := set_ap_exports a
                       (<[operation_id := {| px_result_id := result_id; px_format := format; px_path := path |}]>
                          (ap_exports a)) in
            let a := set_ap_formats a (<[result_id := format]> (ap_formats a)) in
            let a := set_ap_error a None in
            let label := lit "Exporting " ++ lit (export_format_label format) in
            set_ap_status a (if view_started then label ++ [8230%N]
                             else label ++ under_way " for a result that is no longer visible")
        | (Err error, a) => report_submit_error a error
        end
    end.

Definition choose_result_export_destination (a : App) (snapshot : ResultSnapshot) (format : ExportFormat) : App :=
  match dk_choose_destination desktop (rp_result_id (sn_provenance snapshot)) format with
  | None => set_ap_status a (lit "Export destination selection cancelled.")
  | Some path => submit_result_export_to a snapshot format path
  end.

Inductive ResultViewIntent := ViewExport (format : ExportFormat) | ViewCancel (operation_id : OperationId).

Definition handle_result_view_intent (a : App) (snapshot : ResultSnapshot) (intent : ResultViewIntent) : App :=
  match intent with
  | ViewExport format => choose_result_export_destination a snapshot format
  | ViewCancel operation_id => submit_cancel a operation_id (cancelling "Cancelling export " operation_id)
  end.

Definition reveal_result_export_destination (a : App) (result_id : ResultId) : App :=
  match ap_committed a !! result_id with
  | None => set_ap_status a (lit "No committed export destination is available.")
  | Some path =>
      set_ap_status a (if dk_reveal_file desktop path then lit "Showing the exported file."
                       else lit "The exported file is no longer available.")
  end.

(** ** Profiles *)

Definition open_profile_editor_at (a : App) (profile_id : ProfileId) (field : ProfileFieldId) : App :=
  match find_profile (um_profiles (ap_model a)) profile_id with
  | None => set_ap_status a (lit "The Redis profile is no longer available.")
  | Some profile =>
      let '(draft_id, a) := allocate_draft_id a in
      let editor :=
        configured_profile_editor a
          (edit draft_id (ps_persisted profile) (ps_generation profile) (ps_has_current_session_secret profile)) in
      set_ap_editor a (Some (request_focus editor field))
  end.

Definition open_delete_confirmation (a : App) (profile : ProfileSnapshot) : App :=
  if ap_uncertain a then set_ap_status a (lit "Reload profiles before deleting.")
  else if negb (bool_decide (ap_generation a (ps_id profile) = Some (ps_generation profile)))
  then set_ap_status a (lit "The selected profile generation is stale.")
  else
    set_ap_confirm a
      (Some {| dc_profile_id := ps_id profile; dc_profile_generation := ps_generation profile;
               dc_profile_name := ps_name profile; dc_active_kind := ao_kind <$> ap_active a !! ps_id profile;
               dc_migration_backup := pr_migration_backup (um_config (ap_model a)); dc_migration_confirmed := false |}).

Definition confirm_delete_confirmation (a : App) : App :=
  match ap_confirm a with
  | None => a
  | Some confirmation =>
      let profile_id := dc_profile_id confirmation in
      let profile_generation := dc_profile_generation confirmation in
      if negb (bool_decide (ap_generation a profile_id = Some profile_generation))
      then set_ap_status (set_ap_confirm a None) (lit "The selected profile generation is stale.")
      else
        let migration_consent :=
          from_confirmation (bool_decide (is_Some (dc_migration_backup confirmation)) && dc_migration_confirmed confirmation) in
        let '(operation_id, a) := ap_next_operation a in
        let request :=
          {| dp_profile_id := profile_id; dp_expected_generation := profile_generation; dp_operation_id := operation_id;
             dp_migration_consent := migration_consent |} in
        match ap_submit a (CmdDeleteProfile request) with
        | (Ok _, a) =>
            let a := set_ap_connection (set_ap_confirm a None) profile_id Closing in
            let prior_active := ap_active a !! profile_id in
            let a := activate a profile_id operation_id profile_generation DeleteProfile in
            let a := set_ap_deletes a
                       (<[profile_id := {| pd_operation_id := operation_id; pd_profile_generation := profile_generation;
                                           pd_prior_active := prior_active; pd_prior_finished := false |}]>
                          (ap_deletes a)) in
            set_ap_status a (under_way "Deleting profile")
        | (Err error, a) => report_submit_error a error
        end
  end.

(** ** Retries and recoveries *)

Definition run_recipe (a : App) (recipe : Recipe) : App :=
  match recipe with
  | RecipeConnect profile_id profile_generation timeout_ms => submit_connect_exact a profile_id profile_generation timeout_ms
  | RecipeReconnect profile_id profile_generation timeout_ms =>
      submit_reconnect_exact a profile_id profile_generation timeout_ms
  | RecipeCatalog request => retry_catalog_request a request
  | RecipeRedisScan request restart => retry_redis_scan a request restart
  | RecipeRedisInspect request => retry_redis_inspect a request
  end.

(** A recipe is taken before anything is checked: it is used at most once. *)
Definition retry_recipe (a : App) (recipe_id : OperationRecipeId) (expected_operation : option OperationKind) : App :=
  let '(recipe, recipes) := registry_take (ap_recipes a) recipe_id in
  let a := set_ap_recipes a recipes in
  match recipe with
  | None => set_ap_status a (lit "That retry is no longer available.")
  | Some recipe =>
      if match expected_operation with
         | Some expected => negb (bool_decide (expected = recipe_operation_kind recipe))
         | None => false
         end
      then set_ap_status a (lit "The retry does not match this error.")
      else if ap_uncertain a
              || negb (bool_decide (ap_generation a (recipe_profile_id recipe) = Some (recipe_profile_generation recipe)))
      then set_ap_status a (lit "The retry recipe is stale.")
      else run_recipe a recipe
  end.

Definition matching_recipe (a : App) (context : RecoveryDispatchContext) (profile_id : ProfileId)
    (profile_generation : ProfileGeneration) : option OperationRecipeId :=
  let recipe_id := rc_source_operation_id context in
  recipe ← rr_recipes (ap_recipes a) !! recipe_id;
  if bool_decide (recipe_operation_kind recipe = rc_source_operation context)
     && bool_decide (recipe_profile_id recipe = profile_id)
     && (recipe_profile_generation recipe =? profile_generation)%N
  then Some recipe_id else None.

(** The workspace fields that a dismissed error leaves behind. *)
Definition names_operation {A} (identity : A -> RequestIdentity) (operation_id : OperationId) (request : option A) : bool :=
  match request with Some request => (ri_operation_id (identity request) =? operation_id)%N | None => false end.

Definition dismiss_workspace (operation_id : OperationId) (w : ProfileWorkspace) : ProfileWorkspace :=
  let w := if names_operation cr_identity operation_id (ws_catalog_retry w)
           then with_catalog w (ws_catalog_page w) (ws_catalog_retry w) None else w in
  let w := if names_operation rs_identity operation_id (ws_redis_scan_retry w)
           then with_redis_scan w (ws_redis_key_page w) (ws_redis_scan_retry w) None else w in
  if names_operation rk_identity operation_id (ws_redis_inspect_retry w)
  then with_redis_inspect w (ws_redis_value_preview w) (ws_redis_inspect_retry w) None else w.

Definition redis_error_of (operation_id : OperationId) (w : ProfileWorkspace) : bool :=
  names_operation rs_identity operation_id (ws_redis_scan_retry w)
  || names_operation rk_identity operation_id (ws_redis_inspect_retry w).

Definition dismiss_operation_error (a : App) (operation_id : OperationId) : App :=
  let a := remove_recipe a (Some operation_id) in
  let a := match ap_error a with
           | Some visible => if (ve_operation_id visible =? operation_id)%N then set_ap_error a None else a
           | None => a
           end in
  let workspaces := um_workspaces (ap_model a) in
  let a := set_ap_model a (set_workspaces (ap_model a) (dismiss_workspace operation_id <$> workspaces)) in
  let a := set_ap_mysql a (dismiss_error <$> ap_mysql a) in
  let a :=
    set_ap_redis a
      (map_imap (fun key explorer =>
                   Some (if match workspaces !! key with Some w => redis_error_of operation_id w | None => false end
                         then dismiss_errors explorer else explorer)) (ap_redis a)) in
  set_ap_status a (lit "Error dismissed.").

Definition select_profile (a : App) (profile_id : ProfileId) : App :=
  set_ap_model a (set_selected_profile (ap_model a) (Some profile_id)).

Definition clear_profile_catalog (a : App) (profile_id : ProfileId) : App :=
  match ap_generation a profile_id with
  | None => a
  | Some generation =>
      let a := set_ap_mysql a (alter explorer_clear (profile_id, generation) (ap_mysql a)) in
      let a := set_ap_model a (workspace_mut (ap_model a) (profile_id, generation)
                                 (fun w => with_catalog w None None None)) in
      set_ap_status a (lit "Catalog cleared.")
  end.

Definition restart_profile_redis_scan (a : App) (profile_id : ProfileId) : App :=
  match generation ← ap_generation a profile_id;
        w ← workspace (ap_model a) (profile_id, generation); ws_redis_scan_retry w with
  | Some request =>
      retry_redis_scan a
        {| rs_identity := rs_identity request; rs_filter := rs_filter request; rs_cursor := 0;
           rs_count_hint := rs_count_hint request; rs_timeout := rs_timeout request |} true
  | None => set_ap_status a (lit "That Redis scan is no longer available.")
  end.

Definition dispatch_recovery_command (a : App) (command : RecoveryCommand) : App :=
  match command with
  | OpenCredentialEditor profile_id =>
      match ap_generation a profile_id with
      | None => set_ap_status a (lit "The selected profile is no longer available.")
      | Some profile_generation =>
          match ap_context a with
          | None => open_credential_prompt_for a profile_id profile_generation ConnectProfile None
          | Some context =>
              open_credential_prompt_for a profile_id profile_generation (rc_source_operation context)
                (matching_recipe a context profile_id profile_generation)
          end
      end
  | FocusDraftField draft_id field =>
      match ap_editor a with
      | Some editor =>
          if (pf_draft_id editor =? draft_id)%N then set_ap_editor a (Some (request_focus editor field))
          else set_ap_status a (lit "That draft is no longer open.")
      | None => set_ap_status a (lit "That draft is no longer open.")
      end
  | FocusProfileField profile_id field => open_profile_editor_at a profile_id field
  | RetryRecipe recipe_id => retry_recipe a recipe_id (rc_source_operation <$> ap_context a)
  | FocusStatementEditor profile_id =>
      if bool_decide (is_Some (ap_generation a profile_id))
      then set_ap_focus (select_profile a profile_id) (Some EDITOR_INPUT_ID) else a
  | FocusExecutionLimits profile_id =>
      if bool_decide (is_Some (ap_generation a profile_id)) then
        set_ap_focus (select_profile a profile_id)
          (Some match rc_code <$> ap_context a with
                | Some PcTimeoutInput => EDITOR_TIMEOUT_ID
                | _ => EDITOR_ROW_LIMIT_ID
                end)
      else a
  | ReloadConfiguredPath => submit_refresh a
  | RcReconnectProfile profile_id => submit_reconnect a profile_id
  | CancelRunningOperation operation_id => submit_cancel a operation_id (cancelling "Cancelling operation " operation_id)
  | ClearProfileCatalog profile_id => clear_profile_catalog a profile_id
  | RestartProfileRedisScan profile_id => restart_profile_redis_scan a profile_id
  | ChooseResultExportDestination result_id =>
      match result_snapshot a result_id with
      | None => set_ap_status a (lit "That result is no longer available.")
      | Some snapshot => choose_result_export_destination a snapshot (default Json (ap_formats a !! result_id))
      end
  | RevealResultExportDestination result_id => reveal_result_export_destination a result_id
  | RevealConfiguredMigrationBackup => set_ap_status a (lit "Migration backup reveal requested.")
  | RcRestartApplication =>
      let '(operation_id, a) := ap_next_operation a in
      match ap_submit a (CmdShutdownRuntime operation_id) with
      | (Ok _, a) => set_ap_status a (under_way "Restart requested; shutting down")
      | (Err error, a) => report_submit_error a error
      end
  | DismissOperationError operation_id => dismiss_operation_error a operation_id
  end.

Definition is_retry (action : RecoveryAction) : bool := match action with Retry _ => true | _ => false end.

Definition dispatch_error_recovery (a : App) (operation_id : OperationId) (error : PublicOperationError)
    (action : RecoveryAction) : App :=
  if negb (bool_decide (action ∈ as_slice (pe_recovery error)))
  then set_ap_status a (lit "That recovery action is not available.")
  else if bool_decide (pe_operation error = ExecuteMutation) && is_retry action
  then set_ap_status a (lit "Data-changing execution is never retried automatically.")
  else
    let a := set_ap_context a
               (Some {| rc_source_operation_id := operation_id; rc_source_operation := pe_operation error;
                        rc_code := pe_code error |}) in
    set_ap_context (dispatch_recovery_command a (dispatch_recovery action)) None.
End app.
