(* ===== verification/ResultView.v ===== *)
(** * The result table: selection, copying, the buttons (src/src/ui/result_view.rs)

    A frame first brings the view's state in line with the result it shows
    ([synchronize]), then reacts to at most one press.  What is copied is the text of a TSV
    export, of all rows or of the selected ones.  Sizes, labels, and the text that egui
    draws are not modelled. *)

From S2P Require Import Prelude RustStr Model Export ExportSpec ExportText UiModel App AppCommands.
From stdpp Require Import sorting.

(** ** State *)

Definition with_selection (v : ResultViewState) (rows : gset nat) (cell : option (nat * nat)) : ResultViewState :=
  {| rv_result_id := rv_result_id v; rv_selected_rows := rows; rv_selected_cell := cell;
     rv_needs_initial_selection := rv_needs_initial_selection v; rv_pending_export := rv_pending_export v |}.

Definition selection_made (v : ResultViewState) : ResultViewState :=
  {| rv_result_id := rv_result_id v; rv_selected_rows := rv_selected_rows v; rv_selected_cell := rv_selected_cell v;
     rv_needs_initial_selection := false; rv_pending_export := rv_pending_export v |}.

Definition cell_in_range (result : ResultSnapshot) (cell : nat * nat) : bool :=
  (cell.1 <? length (sn_rows result)) && (cell.2 <? length (sn_columns result)).

Definition synchronize (v : ResultViewState) (result : ResultSnapshot) : ResultViewState :=
  let id := rp_result_id (sn_provenance result) in
  let v := if bool_decide (rv_result_id v = Some id) then v else reset_for v id in
  let rows := filter (fun row_index => row_index < length (sn_rows result)) (rv_selected_rows v) in
  let cell :=
    match rv_selected_cell v with
    | Some cell => if cell_in_range result cell then Some cell else None
    | None => None
    end in
  let v := with_selection v rows cell in
  if rv_needs_initial_selection v then
    selection_made
      (if bool_decide (sn_rows result <> [] /\ sn_columns result <> [])
       then with_selection v ({[ 0 ]} ∪ rv_selected_rows v) (Some (0, 0)) else v)
  else v.

(** ** Copying *)

(** The order of a [BTreeSet]. *)
Definition ascending (rows : gset nat) : list nat := merge_sort le (elements rows).

Section copying.
Context (fmt : Formats).

Definition copy_cell (result : ResultSnapshot) (row column : nat) : option str :=
  cells ← sn_rows result !! row; cell ← cells !! column; Some (clipboard_scalar fmt cell).

(** Fields separated by tabs, appended to the output. *)
Fixpoint push_fields (output : str) (column_index : nat) (fields : list str) : str :=
  match fields with
  | [] => output
  | field :: fields =>
      let output := if 0 <? column_index then output ++ [9%N] else output in
      push_fields (output ++ tsv_field field) (S column_index) fields
  end.

Fixpoint push_rows (result : ResultSnapshot) (output : str) (row_indices : list nat) : option str :=
  match row_indices with
  | [] => Some output
  | row_index :: row_indices =>
      row ← sn_rows result !! row_index;
      if negb (length row =? length (sn_columns result)) then None
      else push_rows result (push_fields output 0 (clipboard_scalar fmt <$> row) ++ [10%N]) row_indices
  end.

Definition copy_rows (result : ResultSnapshot) (row_indices : list nat) : option str :=
  if bool_decide (sn_columns result = []) then None
  else push_rows result (push_fields [] 0 (col_name <$> sn_columns result) ++ [10%N]) row_indices.

Definition copy_selected_rows (result : ResultSnapshot) (selected_rows : gset nat) : option str :=
  if bool_decide (selected_rows = ∅) then None else copy_rows result (ascending selected_rows).

Definition copy_all_rows (result : ResultSnapshot) : option str :=
  copy_rows result (seq 0 (length (sn_rows result))).

(** ** A frame *)

Inductive ResultPress :=
| PressCopyCell
| PressCopyRows
| PressCopyAll
| PressExport (format : ExportFormat)
| PressCancelExport
| PressCell (row_index column_index : nat) (additive : bool).

(** A click on a cell selects its row alone, or changes whether its row is selected. *)
Definition click_cell (v : ResultViewState) (row_index column_index : nat) (additive : bool) : ResultViewState :=
  let rows := if additive then rv_selected_rows v else ∅ in
  let rows := if additive && bool_decide (row_index ∈ rows) then rows ∖ {[ row_index ]} else {[ row_index ]} ∪ rows in
  with_selection v rows (Some (row_index, column_index)).

Definition is_json (format : ExportFormat) : bool := match format with Json => true | Csv | Tsv => false end.

Definition export_button_enabled (v : ResultViewState) (result : ResultSnapshot) (export_enabled : bool)
    (format : ExportFormat) : bool :=
  export_enabled && bool_decide (rv_pending_export v = None)
  && (is_json format || negb (bool_decide (sn_columns result = []))).

(** A cell is drawn when its row has it; a narrow row shows an error in its place. *)
Definition cell_drawn (result : ResultSnapshot) (row_index column_index : nat) : bool :=
  (column_index <? length (sn_columns result)) &&
  bool_decide (is_Some (cells ← sn_rows result !! row_index; cells !! column_index)).

(** What a frame leaves: the state, the text that is copied, the intent. *)
Definition Frame : Type := ResultViewState * option str * option ResultViewIntent.

Definition show (v : ResultViewState) (result : ResultSnapshot) (export_enabled : bool) (press : option ResultPress) :
    Frame :=
  let v := synchronize v result in
  match press with
  | None => (v, None, None)
  | Some PressCopyCell => (v, '(row, column) ← rv_selected_cell v; copy_cell result row column, None)
  | Some PressCopyRows => (v, copy_selected_rows result (rv_selected_rows v), None)
  | Some PressCopyAll => (v, copy_all_rows result, None)
  | Some (PressExport format) =>
      (v, None, if export_button_enabled v result export_enabled format then Some (ViewExport format) else None)
  | Some PressCancelExport => (v, None, ViewCancel <$> rv_pending_export v)
  | Some (PressCell row_index column_index additive) =>
      (if cell_drawn result row_index column_index then click_cell v row_index column_index additive else v, None, None)
  end.
End copying.

(** ** What is copied *)

Lemma push_fields_rest output n fields :
  push_fields output (S n) fields = output ++ (fields ≫= fun field => 9%N :: tsv_field field).
Proof.
  revert output n. induction fields as [|field fields IH]; intros output n; cbn; [by rewrite app_nil_r|].
  rewrite IH. by rewrite <- !(assoc_L (++)).
Qed.

Lemma push_fields_record output fields :
  push_fields output 0 fields ++ [10%N] = output ++ tsv_record fields.
Proof.
  unfold tsv_record. destruct fields as [|field fields]; [done|]. cbn [push_fields]. rewrite Nat.ltb_irrefl.
  rewrite push_fields_rest, fmap_cons. cbn [separated].
  rewrite <- !(assoc_L (++)), list_fmap_bind. done.
Qed.

Section copied.
Context (fmt : Formats) (result : ResultSnapshot).

Definition header : list str := col_name <$> sn_columns result.
Definition texts (row : list Cell) : list str := clipboard_scalar fmt <$> row.
Definition full_width (row : list Cell) : Prop := length row = length (sn_columns result).

Lemma push_rows_Some output indices text :
  push_rows fmt result output indices = Some text <->
  exists rows, mapM (fun i => sn_rows result !! i) indices = Some rows /\ Forall full_width rows /\
    text = output ++ ((texts <$> rows) ≫= tsv_record).
Proof.
  revert output. induction indices as [|i indices IH]; intros output; cbn.
  - split; [intros [= <-]; exists []; cbn; by rewrite app_nil_r|]. intros (? & [= <-] & _ & ->). cbn. by rewrite app_nil_r.
  - destruct (sn_rows result !! i) as [row|]; cbn; [|split; [done|by intros (? & ? & _)]].
    destruct (Nat.eqb_spec (length row) (length (sn_columns result))) as [Hw|Hw]; cbn.
    + rewrite IH, push_fields_record. split.
      * intros (rows & -> & Hall & ->). exists (row :: rows). split_and!; [done|by constructor|].
        cbn. by rewrite <- !(assoc_L (++)).
      * intros (rows & Hrows & Hall & ->). destruct (mapM _ indices) as [rows'|] eqn:E; [|done].
        cbn in Hrows. injection Hrows as <-. apply Forall_cons in Hall as [_ Hall]. exists rows'.
        split_and!; [done|done|]. cbn. by rewrite <- !(assoc_L (++)).
    + split; [done|]. intros (rows & Hrows & Hall & _). destruct (mapM _ indices); [|done].
      cbn in Hrows. injection Hrows as <-. by apply Forall_cons in Hall as [? _].
Qed.

Lemma copy_rows_Some indices text :
  copy_rows fmt result indices = Some text <->
  sn_columns result <> [] /\ exists rows, mapM (fun i => sn_rows result !! i) indices = Some rows /\
    Forall full_width rows /\ text = (header :: (texts <$> rows)) ≫= tsv_record.
Proof.
  unfold copy_rows. case_bool_decide as Hc; [by split; [|intros [? _]]|].
  rewrite push_fields_record, push_rows_Some. cbn [app mbind list_bind]. by split; [|intros [_ ?]].
Qed.

(** Copied rows are a table that reads back, field by field. *)
Lemma copy_rows_read_back indices text :
  copy_rows fmt result indices = Some text ->
  exists rows, mapM (fun i => sn_rows result !! i) indices = Some rows /\
    parse_tsv text = Some (header :: (texts <$> rows)).
Proof.
  intros (Hc & rows & Hrows & Hall & ->)%copy_rows_Some. exists rows. split; [done|].
  assert (forall A B (f : A -> B) l, l <> [] -> f <$> l <> []) as Hne by (by intros A B f [|x l] H; [destruct (H eq_refl)|discriminate]).
  apply parse_tsv_records. constructor; [by apply Hne|]. rewrite Forall_fmap. eapply Forall_impl; [exact Hall|].
  intros row Hw. apply Hne. intros ->. by apply Hc, nil_length_inv.
Qed.

Lemma mapM_lookup_all {A} (l : list A) : mapM (fun i => l !! i) (seq 0 (length l)) = Some l.
Proof.
  apply mapM_Some, Forall2_same_length_lookup_2; [by rewrite length_seq|]. intros i n x [-> _]%lookup_seq Hx. done.
Qed.

Lemma rows_text_Ok record i rows text :
  rows_text (length (sn_columns result)) (fun _ => record) i rows = (text, Ok tt) <->
  Forall full_width rows /\ text = rows ≫= record.
Proof.
  split; [intros [-> ?]%rows_text_full; by split|]. intros [Hall ->]. revert i.
  induction Hall as [|row rows Hw _ IH]; intros i; cbn; [done|]. rewrite (proj2 (Nat.eqb_eq _ _) Hw), IH. done.
Qed.

(** All rows that are copied are the text of a TSV export, and they can be copied exactly when they can be exported. *)
Theorem copy_all_is_export text :
  copy_all_rows fmt result = Some text <-> export_text fmt result Tsv = (text, Ok tt).
Proof.
  unfold copy_all_rows. rewrite copy_rows_Some, mapM_lookup_all. cbn [export_text]. unfold table_text.
  case_bool_decide as Hc; [apply nil_length_inv in Hc; split; [by intros [? _]|done]|].
  assert (sn_columns result <> []) as Hne by (by intros H; rewrite H in Hc).
  pose proof (rows_text_Ok (fun row => tsv_record (texts row)) 0 (sn_rows result)) as Hrows.
  unfold texts in Hrows at 1. destruct (rows_text _ _ _ _) as [rest r] eqn:E. split.
  - intros (_ & rows & [= <-] & Hall & ->). pose proof (proj2 (Hrows _) (conj Hall eq_refl)) as [= -> ->].
    cbn [mbind list_bind fmap list_fmap]. by rewrite list_fmap_bind.
  - intros [= <- ->]. split; [done|]. exists (sn_rows result). destruct (proj1 (Hrows _) eq_refl) as [Hall ->].
    split_and!; [done|done|]. cbn [mbind list_bind]. by rewrite list_fmap_bind.
Qed.
End copied.

(** ** The selection *)

(** The view is that of the result, and what is selected exists. *)
Record view_of (v : ResultViewState) (result : ResultSnapshot) : Prop := {
  vw_result : rv_result_id v = Some (rp_result_id (sn_provenance result));
  vw_settled : rv_needs_initial_selection v = false;
  vw_rows : set_Forall (fun i => i < length (sn_rows result)) (rv_selected_rows v);
  vw_cell : forall cell, rv_selected_cell v = Some cell ->
    cell.1 < length (sn_rows result) /\ cell.2 < length (sn_columns result);
}.

Lemma not_nil_length {A} (l : list A) : l <> [] -> 0 < length l.
Proof. destruct l; [done|cbn; lia]. Qed.

Lemma synchronize_view v result : view_of (synchronize v result) result.
Proof.
  unfold synchronize. set (w := if bool_decide _ then v else _).
  assert (rv_result_id w = Some (rp_result_id (sn_provenance result))) as Hid
    by (unfold w; by case_bool_decide).
  clearbody w. cbn [rv_needs_initial_selection with_selection].
  assert (forall cell, match rv_selected_cell w with Some c => if cell_in_range result c then Some c else None | None => None end
                       = Some cell -> cell.1 < length (sn_rows result) /\ cell.2 < length (sn_columns result)) as Hcell.
  { intros cell H. destruct (rv_selected_cell w) as [c|]; [|done].
    destruct (cell_in_range result c) eqn:Hc; [|done]. injection H as ->. by apply andb_true_iff in Hc as [?%Nat.ltb_lt ?%Nat.ltb_lt]. }
  destruct (rv_needs_initial_selection w) eqn:Hn; [|by split; try done; cbn; intros i [? _]%elem_of_filter].
  case_bool_decide as Hsome; [|by split; try done; cbn; intros i [? _]%elem_of_filter].
  destruct Hsome as [Hr%not_nil_length Hc%not_nil_length]. split; try done; cbn.
  - intros i [->%elem_of_singleton|[? _]%elem_of_filter]%elem_of_union; [lia|done].
  - intros cell [= <-]. cbn. lia.
Qed.

(** A view that is in line with its result stays as it is from frame to frame. *)
Lemma synchronize_settled v result : view_of v result -> synchronize v result = v.
Proof.
  intros [Hid Hn Hrows Hcell]. unfold synchronize. rewrite bool_decide_eq_true_2 by done.
  cbn [rv_needs_initial_selection with_selection]. rewrite Hn.
  destruct v as [id rows cell needs pending]. unfold with_selection. cbn in *. f_equal.
  - apply set_eq. intros i. rewrite elem_of_filter. split; [by intros [_ ?]|]. intros H. split; [by apply Hrows|done].
  - destruct cell as [c|]; [|done]. specialize (Hcell c eq_refl). unfold cell_in_range.
    rewrite (proj2 (Nat.ltb_lt _ _)), (proj2 (Nat.ltb_lt _ _)) by tauto. done.
Qed.

Lemma click_view v result row column additive :
  view_of v result -> cell_drawn result row column = true -> view_of (click_cell v row column additive) result.
Proof.
  intros [Hid Hn Hrows Hcell] Hdrawn. unfold cell_drawn in Hdrawn.
  apply andb_true_iff in Hdrawn as [Hc%Nat.ltb_lt Hr%bool_decide_eq_true].
  assert (row < length (sn_rows result)) as Hrow.
  { destruct Hr as [cell Hr]. destruct (sn_rows result !! row) eqn:E; [|done]. by eapply lookup_lt_Some. }
  split; [done|done| |by intros cell [= <-]]. cbn.
  assert (set_Forall (fun i => i < length (sn_rows result)) (if additive then rv_selected_rows v else ∅)) as Hbase
    by (destruct additive; [done|by apply set_Forall_empty]).
  destruct (additive && _).
  - intros i [Hi _]%elem_of_difference. by apply Hbase.
  - apply set_Forall_union; [by apply set_Forall_singleton|done].
Qed.

Lemma show_view fmt v result export_enabled press :
  view_of (show fmt v result export_enabled press).1.1 result.
Proof.
  pose proof (synchronize_view v result) as Hv. destruct press as [[]|]; cbn; try done.
  case_match; [by apply click_view|done].
Qed.

(** A click on a cell: alone it selects its row and no other; with a modifier it changes whether that row is selected, and a second one undoes that. *)
Theorem click_selects v row column :
  rv_selected_rows (click_cell v row column false) = {[ row ]} /\
  (forall i, i ∈ rv_selected_rows (click_cell v row column true) <->
     if decide (i = row) then row ∉ rv_selected_rows v else i ∈ rv_selected_rows v) /\
  rv_selected_rows (click_cell (click_cell v row column true) row column true) = rv_selected_rows v.
Proof.
  unfold click_cell. cbn. split_and!; [set_solver| |].
  - intros i. case_bool_decide; case_decide; subst; set_solver.
  - destruct (decide (row ∈ rv_selected_rows v)) as [H|H].
    + rewrite !(bool_decide_eq_true_2 (row ∈ rv_selected_rows v)) by done.
      rewrite bool_decide_eq_false_2 by set_solver. symmetry. by apply union_difference_singleton_L.
    + rewrite !(bool_decide_eq_false_2 (row ∈ rv_selected_rows v)) by done.
      rewrite bool_decide_eq_true_2 by set_solver. set_solver.
Qed.

(** Nothing of one result's selection reaches another: a view that has shown a different result starts with the first row and the first cell. *)
Theorem selection_starts_over v result :
  rv_result_id v <> Some (rp_result_id (sn_provenance result)) ->
  sn_rows result <> [] -> sn_columns result <> [] ->
  let v' := synchronize v result in
  rv_selected_rows v' = {[ 0 ]} /\ rv_selected_cell v' = Some (0, 0) /\ rv_pending_export v' = None.
Proof.
  intros Hid Hrows Hcols. unfold synchronize. rewrite bool_decide_eq_false_2 by done. cbn.
  rewrite bool_decide_eq_true_2 by done. cbn. split_and!; [|done|done]. set_solver.
Qed.

(** What Copy rows puts on the clipboard: the selected rows in ascending order under the columns' names, which read back field by field. *)
Theorem copied_rows_read_back fmt v result export_enabled v' text intent :
  show fmt v result export_enabled (Some PressCopyRows) = (v', Some text, intent) ->
  view_of v' result /\ intent = None /\
  exists rows, mapM (fun i => sn_rows result !! i) (ascending (rv_selected_rows v')) = Some rows /\
    parse_tsv text = Some (header result :: (texts fmt <$> rows)).
Proof.
  cbn. intros [= <- Hcopied <-]. split; [apply synchronize_view|]. split; [done|].
  unfold copy_selected_rows in Hcopied. case_bool_decide; [done|]. by apply copy_rows_read_back.
Qed.

Lemma copied_rows_read_back_witness :
  exists v' text intent,
    show sample_formats ResultViewState_default sample_snapshot true (Some PressCopyRows) = (v', Some text, intent) /\
    view_of v' sample_snapshot.
Proof.
  destruct (show sample_formats ResultViewState_default sample_snapshot true (Some PressCopyRows)) as [[v' copied] intent] eqn:H.
  destruct copied as [text|]; [|vm_compute in H; discriminate]. exists v', text, intent. split; [done|].
  by apply (copied_rows_read_back _ _ _ _ _ _ _ H).
Defined.
