(* ===== verification/AppEvents.v ===== *)
(** * The application's loop (src/src/ui/app.rs, [poll_events] and the actions of the windows)

    Each frame drains the events, folds every one of them into the parts of the state in
    the order of the code, then forgets what belongs to profiles that are gone; after it
    the user may press one button. *)

From S2P Require Import Prelude RustStr Model Secrets Config ConfigWriter Drivers Service PublicError RedisBrowser.
From S2P Require Import MysqlExplorer ProfileForm UiModel RedisExplorer RuntimeEvents DraftTests Tokio CommandPorts.
From S2P Require Import Editor ExportFiles App AppCommands.

#[local] Abbreviation OperationRecipeId := N (only parsing).

Section app.
Context `{T : Tokio} (desktop : Desktop).

(** [ProfileEditor::handle_event] on the form that is open. *)
Definition editor_event (a : App) (event : UiEvent) : ProfileEventResult * App :=
  match ap_editor a with
  | Some editor => let '(r, editor) := ProfileForm.handle_event editor event in (r, set_ap_editor a (Some editor))
  | None => (EventIgnored, a)
  end.

Definition fold_model (a : App) (event : UiEvent) : App := set_ap_model a (fold (ap_model a) event).

(** A saved profile is selected and its form closed; the profiles are loaded again. *)
Definition profile_saved (a : App) (event : UiEvent) (profile_id : ProfileId) (status : str) : App * OperationId * bool :=
  let a := select_profile (fold_model a event) profile_id in
  let a := set_ap_editor (set_ap_status a status) None in
  let '(operation_id, a) := ap_next_operation a in
  match ap_submit a (CmdRefreshProfiles operation_id) with
  | (Ok _, a) => (a, operation_id, true)
  | (Err error, a) => (report_submit_error a error, operation_id, false)
  end.

Definition saved_status (warning : option PublicSummary) (otherwise : string) : str :=
  match warning with Some summary => summary_message summary | None => under_way otherwise end.

(** The connection that waits for the profiles which an event brings. *)
Definition connect_follow_up (a : App) (event : UiEvent) : option (ProfileId * bool * bool) :=
  '(profile_id, expected) ← ap_connect a;
  match event with
  | ProfilesLoaded operation_id _ _ =>
      if (operation_id =? expected)%N
      then Some (profile_id, true, profiles_operation_is_newer (ap_model a) operation_id) else None
  | ProfilesFailed operation_id _ _ => if (operation_id =? expected)%N then Some (profile_id, false, false) else None
  | _ => None
  end.

Definition follow_up (a : App) (follow : option (ProfileId * bool * bool)) : App :=
  match follow with
  | None => a
  | Some (profile_id, loaded, accepted) =>
      let a := set_ap_connect a None in
      if loaded && accepted && bool_decide (is_Some (ap_generation a profile_id))
      then submit_test (select_profile a profile_id) profile_id else a
  end.

(** An event that is neither ignored nor a profile's save. *)
Definition fold_event (a : App) (event : UiEvent) (credential_retry : option (OperationRecipeId * OperationKind)) : App :=
  let follow := connect_follow_up a event in
  let a := follow_up (fold_model a event) follow in
  match credential_retry with
  | Some (recipe_id, source_operation) => retry_recipe a recipe_id (Some source_operation)
  | None => a
  end.

Definition apply_event (a : App) (event : UiEvent) : App :=
  let a := handle_export_terminal a event in
  let event := attach_retry_recipe a event in
  let a := capture_common_error a event in
  let '(credential_retry, a) := handle_credential_terminal a event in
  let a := fold_redis_explorer_event a event in
  let a := finish_active_operation a event in
  let a := fold_mysql_explorer_event a event in
  let '(profile_result, a) := editor_event a event in
  match profile_result with
  | EventSaved profile_id warning =>
      (profile_saved a event profile_id (saved_status warning "Profile saved; refreshing profiles")).1.1
  | EventSavedAndConnect profile_id warning =>
      let '(a, operation_id, sent) :=
        profile_saved a event profile_id (saved_status warning "Profile saved; refreshing before connect") in
      set_ap_connect a (if sent then Some (profile_id, operation_id) else None)
  | EventFailed =>
      match ap_editor a with Some editor => set_ap_status a (pf_status editor) | None => a end
  | EventIgnored => fold_event a event credential_retry
  end.

(** The body of the loop. *)
Definition poll_event (a : App) (event : UiEvent) : App :=
  match redis_resource_event_disposition a event with
  | Ignore => a
  | StaleTerminal operation_id => remove_recipe (finish_active_operation a event) (Some operation_id)
  | NotRedis | Apply => apply_event a event
  end.

Definition prune_mysql_explorers (a : App) : App :=
  set_ap_mysql a
    (filter (fun entry : WorkspaceKey * MySqlExplorerState => ap_generation a entry.1.1 = Some entry.1.2) (ap_mysql a)).

(** The open form and dialog are told about the configuration. *)
Definition tell_form (a : App) : App :=
  let config := um_config (ap_model a) in
  set_ap_editor a
    ((fun editor => set_migration_presentation (set_form_uncertain editor (ap_uncertain a))
                      (migration_required config) (pr_migration_backup config)) <$> ap_editor a).

Definition tell_dialog (a : App) : App :=
  let backup := pr_migration_backup (um_config (ap_model a)) in
  set_ap_confirm a
    ((fun confirmation =>
        {| dc_profile_id := dc_profile_id confirmation; dc_profile_generation := dc_profile_generation confirmation;
           dc_profile_name := dc_profile_name confirmation; dc_active_kind := dc_active_kind confirmation;
           dc_migration_backup := backup;
           dc_migration_confirmed :=
             match backup with Some _ => dc_migration_confirmed confirmation | None => false end |})
       <$> ap_confirm a).

(** After the loop: what belongs to no current profile is forgotten. *)
Definition after_events (a : App) : App :=
  tell_dialog (tell_form (prune_active_operations (prune_result_export_state (prune_redis_explorers
    (prune_mysql_explorers a))))).

Definition poll_events (a : App) : App :=
  let '(events, port) := drain_events EVENT_DRAIN_LIMIT (ap_port a) in
  after_events (foldl poll_event (set_ap_port a port) events).

(** ** The actions of the windows *)

(** The messages of [editor_and_results]; the last two of a draft test are the form's own. *)
Definition save_message (attempt : SaveAttempt) : str :=
  match attempt with
  | SaveSubmitted _ => under_way "Saving profile"
  | SaveInvalid => lit "Fix the profile form"
  | SaveBusy => lit "Service is busy"
  | SaveDisconnected => lit "Service is unavailable"
  | SaveConfigUncertain => lit "Reload profiles before saving."
  | SaveAlreadyPending _ => lit "Profile save is already pending"
  end.

Definition test_message (attempt : DraftTestAttempt) (editor : ProfileEditor) : str :=
  match attempt with
  | TestSubmitted _ => under_way "Testing draft connection"
  | TestInvalid | TestUnavailable => pf_status editor
  | TestBusy => lit "Service is busy"
  | TestDisconnected => lit "Service is unavailable"
  | TestConfigUncertain => lit "Reload profiles before testing."
  | TestAlreadyPending _ => lit "Profile work is already pending"
  end.

Definition availability_text (availability : option EnvironmentAvailability) : str :=
  match availability with
  | Some EnvAvailable => lit "Available" | Some EnvMissing => lit "Missing" | Some EnvEmpty => lit "Empty" | None => []
  end.

(** The form's buttons; what the environment and the file picker say are arguments. *)
Definition form_action (var : str -> option str) (picked : option str) (a : App) (action : FormAction) : App :=
  match action with
  | ActionSave connect =>
      let '(operation_id, a) := ap_next_operation a in
      match ap_editor a with
      | Some editor =>
          let '(attempt, editor, port) := try_save_with_connect editor operation_id connect (ap_port a) in
          set_ap_status (set_ap_editor (set_ap_port a port) (Some editor)) (save_message attempt)
      | None => a
      end
  | ActionTestDraft =>
      let '(operation_id, a) := ap_next_operation a in
      match ap_editor a with
      | Some editor =>
          let '(attempt, editor, port) := try_test_draft editor operation_id (ap_port a) in
          set_ap_status (set_ap_editor (set_ap_port a port) (Some editor)) (test_message attempt editor)
      | None => a
      end
  | ActionProbeEnvironment =>
      match ap_editor a with
      | Some editor =>
          let editor := probe_environment_availability var editor in
          set_ap_status (set_ap_editor a (Some editor))
            (lit "Environment credential: " ++ availability_text (pf_environment_availability editor))
      | None => a
      end
  | ActionCancel => set_ap_editor a None
  | ActionPickRedisCaFile =>
      match picked, ap_editor a with
      | Some path, Some editor =>
          set_ap_status (set_ap_editor a (Some (bind_redis_ca_file editor path))) (lit "Redis CA file selected")
      | _, _ => a
      end
  | ActionNone => a
  end.

(** Typing in the prompt, unless its credential is being stored. *)
Definition type_credential (a : App) (text : str) : App :=
  match ap_prompt a with
  | Some prompt =>
      match pm_store_operation_id prompt with
      | Some _ => a
      | None => set_ap_prompt a (Some (prompt_with_status prompt None text (pm_status prompt)))
      end
  | None => a
  end.

(** The checkbox of the deletion dialog, shown while there is a backup to be made. *)
Definition confirm_migration (confirmation : DeleteConfirmation) (confirmed : bool) : DeleteConfirmation :=
  {| dc_profile_id := dc_profile_id confirmation; dc_profile_generation := dc_profile_generation confirmation;
     dc_profile_name := dc_profile_name confirmation; dc_active_kind := dc_active_kind confirmation;
     dc_migration_backup := dc_migration_backup confirmation;
     dc_migration_confirmed :=
       match dc_migration_backup confirmation with Some _ => confirmed | None => dc_migration_confirmed confirmation end |}.

(** The explorer panel of a frame: which Redis workspace it shows, and the explorer it opens. *)
Definition explorer_frame (a : App) : App :=
  let a := set_ap_visible a None in
  match selected_profile_snapshot (ap_model a) with
  | Some profile =>
      let key := (ps_id profile, ps_generation profile) in
      if negb (is_ready profile) then a
      else
        match ps_driver profile with
        | MySql => mysql_explorer_mut a key id
        | Redis => redis_explorer_mut (set_ap_visible a (Some key)) key id
        | MongoDb => a
        end
  | None => a
  end.

(** Everything a user can press, as far as the commands go. *)
Inductive AppAction :=
| ActForm (var : str -> option str) (picked : option str) (action : FormAction)
| ActFormInput (input : FormInput)
| ActNewProfile (driver : DriverKind)
| ActEditProfile (profile : ProfileSnapshot)
| ActSelect (profile_id : ProfileId)
| ActReload
| ActConnect (profile_id : ProfileId)
| ActEnterCredential (profile_id : ProfileId)
| ActDisconnect (profile_id : ProfileId)
| ActReconnect (profile_id : ProfileId)
| ActTypeCredential (text : str)
| ActStoreCredential
| ActCancelCredential
| ActAskDelete (profile : ProfileSnapshot)
| ActConfirmDelete
| ActConfirmMigration (confirmed : bool)
| ActCancelDelete
| ActEditor (intent : EditorIntent)
| ActMysql (profile : ProfileSnapshot) (intent : MySqlExplorerIntent)
| ActRedis (intent : RedisExplorerIntent)
| ActFrame
| ActExplore (key : WorkspaceKey) (enabled : bool) (click : ExplorerClick)
| ActResult (snapshot : ResultSnapshot) (intent : ResultViewIntent)
| ActRecover (visible : VisibleError) (action : RecoveryAction).

Definition open_form (a : App) (editor : DraftId -> ProfileEditor) : App :=
  let '(draft_id, a) := allocate_draft_id a in
  set_ap_editor a (Some (configured_profile_editor a (editor draft_id))).

Definition app_action (a : App) (action : AppAction) : App :=
  match action with
  | ActForm var picked action => form_action var picked a action
  | ActFormInput input => set_ap_editor a ((fun editor => form_input editor input) <$> ap_editor a)
  | ActNewProfile driver => open_form a (fun draft_id => ProfileEditor_new draft_id driver)
  | ActEditProfile profile =>
      open_form a (fun draft_id => edit draft_id (ps_persisted profile) (ps_generation profile)
                                     (ps_has_current_session_secret profile))
  | ActSelect profile_id => select_profile a profile_id
  | ActReload => submit_refresh a
  | ActConnect profile_id => submit_test a profile_id
  | ActEnterCredential profile_id => open_session_credential_prompt a profile_id
  | ActDisconnect profile_id => submit_disconnect a profile_id
  | ActReconnect profile_id => submit_reconnect a profile_id
  | ActTypeCredential text => type_credential a text
  | ActStoreCredential => submit_credential_prompt a
  | ActCancelCredential => cancel_credential_prompt a
  | ActAskDelete profile => open_delete_confirmation a profile
  | ActConfirmDelete => confirm_delete_confirmation a
  | ActConfirmMigration confirmed =>
      set_ap_confirm a ((fun confirmation => confirm_migration confirmation confirmed) <$> ap_confirm a)
  | ActCancelDelete => set_ap_confirm a None
  | ActFrame => explorer_frame a
  | ActExplore key enabled click =>
      redis_explorer_mut a key (fun e => (explorer_click e enabled click).1)
  | ActEditor intent => submit_editor_intent a intent
  | ActMysql profile intent => submit_mysql_explorer_intent a profile intent
  | ActRedis intent => submit_redis_intent a intent
  | ActResult snapshot intent => handle_result_view_intent desktop a snapshot intent
  | ActRecover visible action => dispatch_error_recovery desktop a (ve_operation_id visible) (ve_error visible) action
  end.

(** ** The buttons of a profile card *)

Inductive CardButton := CardConnect | CardEnterCredential | CardDisconnect | CardReconnect | CardEdit | CardDelete.

(** The buttons that are shown, and whether they can be pressed. *)
Definition card_buttons (a : App) (profile : ProfileSnapshot) : list (CardButton * bool) :=
  let actions_enabled := negb (ap_uncertain a) in
  match connection_state (ap_model a) (ps_id profile) with
  | Disconnected | Failed _ => [(CardConnect, actions_enabled && can_connect profile)]
  | NeedsCredential => [(CardEnterCredential, actions_enabled)]
  | Connected _ _ => [(CardDisconnect, actions_enabled); (CardReconnect, actions_enabled)]
  | Pending _ | Closing => []
  end ++ [(CardEdit, actions_enabled); (CardDelete, actions_enabled)].

Definition card_action (profile : ProfileSnapshot) (button : CardButton) : AppAction :=
  match button with
  | CardConnect => ActConnect (ps_id profile)
  | CardEnterCredential => ActEnterCredential (ps_id profile)
  | CardDisconnect => ActDisconnect (ps_id profile)
  | CardReconnect => ActReconnect (ps_id profile)
  | CardEdit => ActEditProfile profile
  | CardDelete => ActAskDelete profile
  end.
End app.
