(* ===== verification/AppPorts.v ===== *)
(** * What the application does to the ports (theorems on App, AppCommands and AppEvents)

    Every action of a user submits at most one command, and every step of the application
    is one that the runtime's model allows its interface.  A statement is executed only
    because the user asked for it. *)

From S2P Require Import Prelude RustStr Model Secrets Config ConfigWriter Drivers Service PublicError RedisBrowser.
From S2P Require Import MysqlExplorer ProfileForm UiModel RedisExplorer RuntimeEvents DraftTests Tokio CommandPorts.
From S2P Require Import ServiceWriter Editor ExportFiles App AppCommands AppEvents RuntimeTasks Runtime RuntimeSystem.

Section ports.
Context `{T : Tokio}.

(** ** Effects on the ports *)

(** Nothing, one command that is submitted or sent with a reserved permit, a reservation
    that is refused, or one that is given back. *)
Inductive port_effect (ok : UiCommand -> Prop) (p : Ports) : Ports -> Prop :=
| pe_none : port_effect ok p p
| pe_sent command : ok command -> port_effect ok p (try_submit command p).2
| pe_permit command q :
    ok command -> try_reserve_mutation p = (Ok tt, q) -> port_effect ok p (permit_submit command q).2
| pe_refused error q : try_reserve_mutation p = (Err error, q) -> port_effect ok p q
| pe_withdrawn q : try_reserve_mutation p = (Ok tt, q) -> port_effect ok p (withdraw_permit q).

Lemma port_effect_mono (ok ok' : UiCommand -> Prop) p q :
  (forall command, ok command -> ok' command) -> port_effect ok p q -> port_effect ok' p q.
Proof. intros H []; [constructor|by apply pe_sent, H|eapply pe_permit; eauto|by eapply pe_refused|by eapply pe_withdrawn]. Qed.

(** Each of them is a step of the runtime's interface. *)
Lemma effect_steps ok p q : port_effect ok p q -> rtc PortStep p q.
Proof.
  intros [|command _|command r _ Hr|error r Hr|r Hr]; [done|apply rtc_once..].
  - apply ui_submits.
  - pose proof (ui_submits_with (fun _ => command) p) as H. unfold try_submit_with in H. by rewrite Hr in H.
  - pose proof (ui_submits_with (fun _ => CmdRefreshProfiles 0) p) as H. unfold try_submit_with in H. by rewrite Hr in H.
  - by apply ui_withdraws.
Qed.

(** ** Functions that leave the ports alone *)

Definition quiet (a a' : App) : Prop := ap_port a' = ap_port a.

Lemma remove_recipe_port a recipe_id : ap_port (remove_recipe a recipe_id) = ap_port a.
Proof. by destruct recipe_id. Qed.

Lemma cancel_prompt_port a : ap_port (cancel_credential_prompt a) = ap_port a.
Proof. unfold cancel_credential_prompt. case_match; [by rewrite remove_recipe_port|done]. Qed.

Lemma next_operation_port a : ap_port (ap_next_operation a).2 = ap_port a.
Proof. done. Qed.

Lemma report_port a error : ap_port (report_submit_error a error) = ap_port a.
Proof. done. Qed.

Lemma status_port a status : ap_port (set_ap_status a status) = ap_port a.
Proof. done. Qed.

Lemma open_prompt_port a profile_id generation source recipe_id :
  ap_port (open_credential_prompt_for a profile_id generation source recipe_id) = ap_port a.
Proof.
  unfold open_credential_prompt_for. repeat case_match; cbn; by rewrite ?remove_recipe_port, ?cancel_prompt_port.
Qed.

Lemma export_state_port a result_id operation_id : ap_port (begin_result_export_state a result_id operation_id).2 = ap_port a.
Proof. unfold begin_result_export_state. repeat (case_match; simplify_eq/=); done. Qed.

Lemma export_terminal_port a event : ap_port (handle_export_terminal a event) = ap_port a.
Proof. destruct event; try done; cbn; unfold export_ended; repeat case_match; done. Qed.

Lemma common_error_port a event : ap_port (capture_common_error a event) = ap_port a.
Proof. unfold capture_common_error. repeat case_match; done. Qed.

Lemma credential_terminal_port a event : ap_port (handle_credential_terminal a event).2 = ap_port a.
Proof.
  unfold handle_credential_terminal. destruct event; try (by rewrite <- (cancel_prompt_port a));
    repeat (case_match; simplify_eq/=); cbn; by rewrite ?remove_recipe_port, ?cancel_prompt_port.
Qed.

Lemma redis_event_port a event : ap_port (fold_redis_explorer_event a event) = ap_port a.
Proof. unfold fold_redis_explorer_event, remove_redis_explorer, forget_redis_explorers. repeat case_match; done. Qed.

Lemma remove_active_port a profile_id operation_id : ap_port (remove_active a profile_id operation_id) = ap_port a.
Proof. unfold remove_active. repeat case_match; done. Qed.

Lemma end_operation_port a event profile_id operation_id :
  ap_port (end_operation a event profile_id operation_id) = ap_port a.
Proof.
  assert (forall a p o s d, ap_port (end_failed_delete a p o s d) = ap_port a) as Hdelete.
  { intros. unfold end_failed_delete. repeat case_match; cbn; by rewrite remove_active_port. }
  unfold end_operation. cbn zeta. destruct (failed_delete _ _) as [[]|]; [by rewrite Hdelete|].
  destruct (is_deletion event), (keeps_recipe event); by rewrite ?remove_recipe_port, ?remove_active_port.
Qed.

Lemma finish_active_port a event : ap_port (finish_active_operation a event) = ap_port a.
Proof.
  assert (ap_port (match terminal_of event with
                   | Some (profile_id, operation_id) => end_operation a event profile_id operation_id
                   | None => a
                   end) = ap_port a) as H.
  { destruct (terminal_of event) as [[]|]; [apply end_operation_port|done]. }
  unfold finish_active_operation. destruct event; first [exact H|reflexivity].
Qed.

Lemma mysql_event_port a event : ap_port (fold_mysql_explorer_event a event) = ap_port a.
Proof. destruct event; reflexivity. Qed.

Lemma editor_event_port a event : ap_port (editor_event a event).2 = ap_port a.
Proof. unfold editor_event. repeat (case_match; simplify_eq/=); done. Qed.

Lemma prune_redis_port a : ap_port (prune_redis_explorers a) = ap_port a.
Proof.
  unfold prune_redis_explorers. destruct (ap_uncertain a); [reflexivity|]. cbv zeta.
  destruct (ap_visible _); [|reflexivity]. destruct (bool_decide _); reflexivity.
Qed.

Lemma prune_prompt_port a : ap_port (prune_credential_prompt a) = ap_port a.
Proof.
  unfold prune_credential_prompt. destruct (ap_prompt a) as [prompt|]; [|reflexivity].
  destruct (bool_decide _); [reflexivity|]. apply cancel_prompt_port.
Qed.

Lemma prune_active_port a : ap_port (prune_active_operations a) = ap_port a.
Proof. unfold prune_active_operations. rewrite prune_prompt_port. reflexivity. Qed.

Lemma prune_export_port a : ap_port (prune_result_export_state a) = ap_port a.
Proof. reflexivity. Qed.

Lemma tell_port a : ap_port (tell_dialog (tell_form a)) = ap_port a.
Proof. reflexivity. Qed.

Lemma prune_mysql_port a : ap_port (prune_mysql_explorers a) = ap_port a.
Proof. reflexivity. Qed.

Lemma after_events_port a : ap_port (after_events a) = ap_port a.
Proof.
  unfold after_events. by rewrite tell_port, prune_active_port, prune_export_port, prune_redis_port, prune_mysql_port.
Qed.

(** ** Submissions *)

Lemma submit_then (ok : UiCommand -> Prop) p a command (sent : App -> App) (refused : SubmitError -> App -> App) :
  ap_port a = p -> ok command ->
  (forall a, ap_port (sent a) = ap_port a) -> (forall error a, ap_port (refused error a) = ap_port a) ->
  port_effect ok p (ap_port match ap_submit a command with
                            | (Ok _, a) => sent a
                            | (Err error, a) => refused error a
                            end).
Proof.
  intros <- Hok Hs Hr. unfold ap_submit. pose proof (pe_sent ok (ap_port a) command Hok) as H.
  destruct (try_submit command (ap_port a)) as [[u|error] q]; [by rewrite Hs|by rewrite Hr].
Qed.

#[local] Ltac quiet := first [constructor | reflexivity | cbn; constructor].
#[local] Ltac sends := apply submit_then; [reflexivity| |reflexivity|reflexivity].

(** What a button, a retry or a recovery may send beside statements and changes of profiles. *)
Definition resource_command (command : UiCommand) : Prop :=
  match command with
  | CmdTestConnection _ _ _ _ | CmdReconnectProfile _ _ _ _ | CmdBrowseCatalog _ | CmdScanRedisKeys _
  | CmdInspectRedisKey _ => True
  | _ => False
  end.

Lemma connect_effect a profile_id generation timeout :
  port_effect resource_command (ap_port a) (ap_port (submit_connect_exact a profile_id generation timeout)).
Proof. unfold submit_connect_exact. destruct (connection_busy _ _); [quiet|]. by sends. Qed.

Lemma reconnect_effect a profile_id generation timeout :
  port_effect resource_command (ap_port a) (ap_port (submit_reconnect_exact a profile_id generation timeout)).
Proof. unfold submit_reconnect_exact. destruct (connection_busy _ _); [quiet|]. by sends. Qed.

Lemma catalog_effect a request status :
  port_effect resource_command (ap_port a) (ap_port (submit_catalog a request status)).
Proof. unfold submit_catalog. by sends. Qed.

Lemma scan_effect a request restart status :
  port_effect resource_command (ap_port a) (ap_port (submit_redis_scan a request restart status)).
Proof. unfold submit_redis_scan. by sends. Qed.

Lemma inspect_effect a request status :
  port_effect resource_command (ap_port a) (ap_port (submit_redis_inspect a request status)).
Proof. unfold submit_redis_inspect. by sends. Qed.

Lemma recipe_effect a recipe : port_effect resource_command (ap_port a) (ap_port (run_recipe a recipe)).
Proof.
  destruct recipe; cbn [run_recipe]; [apply connect_effect|apply reconnect_effect|..].
  - unfold retry_catalog_request. destruct (bool_decide _); [quiet|]. apply (catalog_effect (ap_next_operation a).2).
  - unfold retry_redis_scan. destruct (bool_decide _); [quiet|]. apply (scan_effect (ap_next_operation a).2).
  - unfold retry_redis_inspect. destruct (bool_decide _); [quiet|]. apply (inspect_effect (ap_next_operation a).2).
Qed.

Lemma retry_effect a recipe_id expected :
  port_effect resource_command (ap_port a) (ap_port (retry_recipe a recipe_id expected)).
Proof.
  unfold retry_recipe. destruct (registry_take _ _) as [[recipe|] recipes]; [|quiet]. cbv zeta.
  destruct (match expected with Some _ => _ | None => _ end); [quiet|]. destruct (_ || _); [quiet|].
  apply (recipe_effect (set_ap_recipes a recipes)).
Qed.

Lemma session_prompt_port a profile_id : ap_port (open_session_credential_prompt a profile_id) = ap_port a.
Proof.
  unfold open_session_credential_prompt. destruct (find_profile _ _) as [profile|]; [|reflexivity].
  destruct (_ || _); [reflexivity|]. cbn. by rewrite open_prompt_port.
Qed.

Lemma test_effect a profile_id : port_effect resource_command (ap_port a) (ap_port (submit_test a profile_id)).
Proof.
  unfold submit_test. destruct (ap_uncertain a); [quiet|]. destruct (find_profile _ _) as [profile|]; [|quiet].
  destruct (negb _); [quiet|]. destruct (negb _); [quiet|]. destruct (negb _); [quiet|].
  destruct (_ && _); [rewrite session_prompt_port; quiet|]. destruct (UiModel.is_pending _); [quiet|].
  destruct (bool_decide _); [quiet|]. apply connect_effect.
Qed.

(** ** What the user asked for *)

(** The command is one that this action of the user asks for. *)
Definition asked (a : App) (action : AppAction) (command : UiCommand) : Prop :=
  match command with
  | CmdExecute _ _ _ _ _ _ _ =>
      exists intent, action = ActEditor (EditorExecute intent) /\
        command = into_ui_command intent (um_next_operation_id (ap_model a)) /\
        ap_generation a (ei_profile_id intent) = Some (ei_profile_generation intent) /\
        ap_active a !! ei_profile_id intent = None /\ ap_uncertain a = false
  | CmdCreateProfile _ | CmdUpdateProfile _ => exists var picked connect, action = ActForm var picked (ActionSave connect)
  | CmdDeleteProfile request =>
      action = ActConfirmDelete /\
      exists confirmation, ap_confirm a = Some confirmation /\ dp_profile_id request = dc_profile_id confirmation /\
        dp_expected_generation request = dc_profile_generation confirmation
  | CmdStoreCredentials _ profile_id profile_generation _ secret =>
      action = ActStoreCredential /\
      exists prompt, ap_prompt a = Some prompt /\ pm_store_operation_id prompt = None /\
        secret = pm_secret prompt /\ profile_id = pm_profile_id prompt /\
        profile_generation = pm_profile_generation prompt /\ ap_generation a profile_id = Some profile_generation
  | CmdPrepareDraftConnectionTest _ => exists var picked, action = ActForm var picked ActionTestDraft
  | CmdTestDraftConnection _ => False
  | CmdDisconnectProfile _ profile_id _ => action = ActDisconnect profile_id
  | _ => True
  end.

Lemma resource_asked a action command : resource_command command -> asked a action command.
Proof. by destruct command. Qed.

Lemma resource_effect a action p q : port_effect resource_command p q -> port_effect (asked a action) p q.
Proof. apply port_effect_mono, resource_asked. Qed.

Lemma refresh_effect ok a :
  (forall operation_id, ok (CmdRefreshProfiles operation_id)) -> port_effect ok (ap_port a) (ap_port (submit_refresh a)).
Proof. intros H. unfold submit_refresh. by sends. Qed.

Lemma cancel_effect ok a operation_id status :
  ok (CmdCancelOperation operation_id) -> port_effect ok (ap_port a) (ap_port (submit_cancel a operation_id status)).
Proof. intros H. unfold submit_cancel. by sends. Qed.

Lemma disconnect_effect a profile_id :
  port_effect (asked a (ActDisconnect profile_id)) (ap_port a) (ap_port (submit_disconnect a profile_id)).
Proof.
  unfold submit_disconnect. destruct (ap_uncertain a); [quiet|]. destruct (ap_generation a profile_id); [|quiet]. by sends.
Qed.

Lemma reconnect_button_effect a profile_id :
  port_effect resource_command (ap_port a) (ap_port (submit_reconnect a profile_id)).
Proof.
  unfold submit_reconnect. destruct (ap_uncertain a); [quiet|]. destruct (ap_generation a profile_id); [|quiet].
  apply reconnect_effect.
Qed.

Lemma execute_effect a intent :
  ap_uncertain a = false ->
  port_effect (asked a (ActEditor (EditorExecute intent))) (ap_port a) (ap_port (submit_execute a intent)).
Proof.
  intros Hcertain. unfold submit_execute. cbv zeta.
  destruct (bool_decide_reflect (ap_generation a (ei_profile_id intent) = Some (ei_profile_generation intent))) as [Hg|];
    [|quiet]. cbn [negb]. destruct (bool_decide _); [quiet|].
  destruct (bool_decide_reflect (is_Some (ap_active a !! ei_profile_id intent))) as [|Ha%eq_None_not_Some]; [quiet|].
  sends. by exists intent.
Qed.

Lemma editor_effect a intent :
  port_effect (asked a (ActEditor intent)) (ap_port a) (ap_port (submit_editor_intent a intent)).
Proof.
  unfold submit_editor_intent. destruct (ap_uncertain a) eqn:Hu; [quiet|]. destruct intent; [by apply execute_effect|].
  destruct (negb _); [quiet|]. by apply cancel_effect.
Qed.

Lemma delete_effect a :
  port_effect (asked a ActConfirmDelete) (ap_port a) (ap_port (confirm_delete_confirmation a)).
Proof.
  unfold confirm_delete_confirmation. destruct (ap_confirm a) as [confirmation|] eqn:Hc; [|quiet]. cbv zeta.
  destruct (negb _); [quiet|]. sends. split; [done|]. by exists confirmation.
Qed.

Lemma store_effect a :
  port_effect (asked a ActStoreCredential) (ap_port a) (ap_port (submit_credential_prompt a)).
Proof.
  unfold submit_credential_prompt. destruct (ap_prompt a) as [prompt|] eqn:Hp; [|quiet]. cbv zeta.
  destruct (bool_decide_reflect (is_Some (pm_store_operation_id prompt))) as [|Hs%eq_None_not_Some]; [quiet|].
  change (ap_uncertain (set_ap_prompt a None)) with (ap_uncertain a).
  change (ap_generation (set_ap_prompt a None)) with (ap_generation a).
  change (ap_port (set_ap_prompt a None)) with (ap_port a).
  destruct (ap_uncertain a); cbn [orb]; [rewrite status_port, remove_recipe_port; quiet|].
  destruct (bool_decide_reflect (ap_generation a (pm_profile_id prompt) = Some (pm_profile_generation prompt))) as [Hg|];
    cbn [negb]; [|rewrite status_port, remove_recipe_port; quiet].
  destruct (bool_decide (pm_secret prompt = [])) eqn:He; [quiet|].
  destruct (try_reserve_mutation (ap_port a)) as [[[]|error] port] eqn:Hr.
  - unfold take_for_save. rewrite He.
    apply (pe_permit _ (ap_port a)
      (CmdStoreCredentials (um_next_operation_id (ap_model a)) (pm_profile_id prompt) (pm_profile_generation prompt)
         (pm_source_operation prompt) (pm_secret prompt)) port); [|exact Hr].
    split; [done|]. by exists prompt.
  - rewrite report_port, remove_recipe_port. by apply (pe_refused _ _ error).
Qed.

(** ** Redis, MySQL, exports and the form *)

Lemma refused_explorer_port a key f : ap_port (redis_explorer_mut a key f) = ap_port a.
Proof. reflexivity. Qed.

Lemma redis_intent_effect a action intent :
  port_effect (asked a action) (ap_port a) (ap_port (submit_redis_intent a intent)).
Proof.
  unfold submit_redis_intent. destruct (ap_visible a) as [key|]; [|quiet].
  destruct (bool_decide (selected_workspace_key (ap_model a) = Some key)); cbn [negb]; [|quiet].
  unfold submit_redis_intent_for, cancel_redis.
  destruct intent as [filter cursor restart|redis_key|operation_id].
  - destruct (redis_refusal a key); [quiet|]. apply resource_effect, (scan_effect (ap_next_operation a).2).
  - destruct (redis_refusal a key); [quiet|]. apply resource_effect, (inspect_effect (ap_next_operation a).2).
  - destruct (is_active a key.1 operation_id key.2 [BrowseRedis; InspectRedis]); cbn [negb]; [by sends|quiet].
Qed.

Lemma mysql_intent_effect a action profile intent :
  port_effect (asked a action) (ap_port a) (ap_port (submit_mysql_explorer_intent a profile intent)).
Proof.
  apply resource_effect. unfold submit_mysql_explorer_intent.
  destruct intent; try quiet; (destruct (ap_uncertain a); [quiet|]);
    (destruct (bool_decide (is_Some (ap_active a !! ps_id profile))); [quiet|]);
    apply (catalog_effect (ap_next_operation a).2).
Qed.

Lemma export_effect ok desktop a snapshot format path :
  (forall request confirmation, ok (CmdExportResult request confirmation)) ->
  port_effect ok (ap_port a) (ap_port (submit_result_export_to desktop a snapshot format path)).
Proof.
  intros Hok. unfold submit_result_export_to. cbv zeta. destruct (existsb _ _); [quiet|].
  cbn [ap_next_operation next_operation]. destruct (export_policy desktop path) as [[policy confirmation]|]; [|quiet].
  apply submit_then; [reflexivity|apply Hok| |reflexivity]. intros a'.
  pose proof (export_state_port a' (rp_result_id (sn_provenance snapshot)) (um_next_operation_id (ap_model a))) as H.
  by destruct (begin_result_export_state _ _ _).
Qed.

Lemma choose_effect ok desktop a snapshot format :
  (forall request confirmation, ok (CmdExportResult request confirmation)) ->
  port_effect ok (ap_port a) (ap_port (choose_result_export_destination desktop a snapshot format)).
Proof.
  intros Hok. unfold choose_result_export_destination.
  destruct (dk_choose_destination _ _ _); [by apply export_effect|quiet].
Qed.

(** The commands of the form. *)
Lemma save_effect (ok : UiCommand -> Prop) e operation_id connect p :
  (forall profile update, ok (save_command e operation_id profile update)) ->
  port_effect ok p (try_save_with_connect e operation_id connect p).2.
Proof.
  intros Hok. unfold try_save_with_connect. destruct (save_refusal e) as [[attempt status]|]; [quiet|].
  destruct (checked_profile e) as [profile|e']; [|quiet].
  destruct (try_reserve_mutation p) as [[[]|error] q] eqn:Hr; [|by apply (pe_refused _ _ error)].
  assert (forall update, save_command (taken_replacement e).2 operation_id profile update
                         = save_command e operation_id profile update) as Hcmd.
  { intros update. unfold taken_replacement. destruct (bool_decide _); [|done]. by destruct (take_for_save _). }
  destruct (taken_replacement e) as [[replacement|error] e1]; [|by apply pe_withdrawn].
  destruct (session_update_for_save _ _ _ replacement) as [update|error]; [|by apply pe_withdrawn].
  cbn in Hcmd. rewrite Hcmd.
  pose proof (pe_permit ok p (save_command e operation_id profile update) q (Hok profile update) Hr) as H.
  by destruct (permit_submit _ q) as [[u|error] q'].
Qed.

Lemma test_draft_effect (ok : UiCommand -> Prop) e operation_id p :
  (forall intent, ok (CmdPrepareDraftConnectionTest intent)) -> port_effect ok p (try_test_draft e operation_id p).2.
Proof.
  intros Hok. unfold try_test_draft. destruct (test_refusal e) as [[attempt e']|]; [quiet|].
  destruct (validate _) as [profile|errors]; [|quiet]. destruct (test_intent e operation_id profile) as [intent|status]; [|quiet].
  pose proof (pe_sent ok p (CmdPrepareDraftConnectionTest intent) (Hok intent)) as H.
  by destruct (try_submit _ p) as [[u|[]] q].
Qed.

Lemma form_effect a var picked action :
  port_effect (asked a (ActForm var picked action)) (ap_port a) (ap_port (form_action var picked a action)).
Proof.
  destruct action; cbn [form_action]; try quiet.
  - cbn [ap_next_operation next_operation]. destruct (ap_editor _) as [editor|]; [|quiet].
    pose proof (save_effect (asked a (ActForm var picked (ActionSave connect))) editor (um_next_operation_id (ap_model a))
      connect (ap_port a)) as H.
    change (ap_port (set_ap_model a ?m)) with (ap_port a).
    destruct (try_save_with_connect _ _ _ _) as [[attempt editor'] port]. apply H. intros profile update.
    unfold save_command. destruct (pf_mode editor); by exists var, picked, connect.
  - cbn [ap_next_operation next_operation]. destruct (ap_editor _) as [editor|]; [|quiet].
    pose proof (test_draft_effect (asked a (ActForm var picked ActionTestDraft)) editor (um_next_operation_id (ap_model a))
      (ap_port a)) as H.
    change (ap_port (set_ap_model a ?m)) with (ap_port a).
    destruct (try_test_draft _ _ _) as [[attempt editor'] port]. apply H. intros intent. by exists var, picked.
  - destruct (ap_editor a); quiet.
  - destruct picked, (ap_editor a); quiet.
Qed.

(** ** Recoveries *)

(** What a recovery may send: nothing that executes a statement or changes a profile or a secret. *)
Definition recoverable (command : UiCommand) : Prop :=
  match command with
  | CmdRefreshProfiles _ | CmdCancelOperation _ | CmdExportResult _ _ | CmdShutdownRuntime _ => True
  | _ => resource_command command
  end.

Lemma resource_recoverable command : resource_command command -> recoverable command.
Proof. by destruct command. Qed.

Lemma dismiss_port a operation_id : ap_port (dismiss_operation_error a operation_id) = ap_port a.
Proof.
  unfold dismiss_operation_error. cbv zeta. rewrite status_port.
  change (ap_port (set_ap_redis ?x ?m)) with (ap_port x). change (ap_port (set_ap_mysql ?x ?m)) with (ap_port x).
  change (ap_port (set_ap_model ?x ?m)) with (ap_port x).
  destruct (ap_error _); [destruct (_ =? _)%N|]; reflexivity.
Qed.

Lemma restart_scan_effect a profile_id :
  port_effect resource_command (ap_port a) (ap_port (restart_profile_redis_scan a profile_id)).
Proof.
  unfold restart_profile_redis_scan. destruct (_ ≫= _) as [request|]; [|quiet].
  apply (recipe_effect a (RecipeRedisScan _ true)).
Qed.

Lemma recovery_effect desktop a command :
  port_effect recoverable (ap_port a) (ap_port (dispatch_recovery_command desktop a command)).
Proof.
  pose proof (fun p q => port_effect_mono _ _ p q resource_recoverable) as Hresource.
  destruct command; cbn [dispatch_recovery_command]; try quiet.
  - destruct (ap_generation a profile_id); [|quiet]. destruct (ap_context a); rewrite open_prompt_port; quiet.
  - destruct (ap_editor a); [destruct (_ =? _)%N|]; quiet.
  - unfold open_profile_editor_at. destruct (find_profile _ _); quiet.
  - apply Hresource, retry_effect.
  - destruct (bool_decide _); quiet.
  - destruct (bool_decide _); quiet.
  - by apply refresh_effect.
  - apply Hresource, reconnect_button_effect.
  - by apply cancel_effect.
  - unfold clear_profile_catalog. destruct (ap_generation a profile_id); quiet.
  - apply Hresource, restart_scan_effect.
  - destruct (result_snapshot a result_id); [by apply choose_effect|quiet].
  - unfold reveal_result_export_destination. destruct (ap_committed a !! result_id); quiet.
  - by sends.
  - rewrite dismiss_port. quiet.
Qed.

Lemma recover_effect desktop a operation_id error action :
  port_effect recoverable (ap_port a) (ap_port (dispatch_error_recovery desktop a operation_id error action)).
Proof.
  unfold dispatch_error_recovery. destruct (negb _); [quiet|]. destruct (_ && _); [quiet|].
  apply (recovery_effect desktop (set_ap_context a (Some _)) (dispatch_recovery action)).
Qed.

Lemma recoverable_asked a visible action command :
  recoverable command -> asked a (ActRecover visible action) command.
Proof. by destruct command. Qed.

Lemma action_effect desktop a action :
  port_effect (asked a action) (ap_port a) (ap_port (app_action desktop a action)).
Proof.
  destruct action; cbn [app_action]; try quiet.
  - apply form_effect.
  - by apply refresh_effect.
  - apply resource_effect, test_effect.
  - rewrite session_prompt_port. quiet.
  - apply disconnect_effect.
  - apply resource_effect, reconnect_button_effect.
  - unfold type_credential. destruct (ap_prompt a) as [prompt|]; [destruct (pm_store_operation_id prompt)|]; quiet.
  - apply store_effect.
  - rewrite cancel_prompt_port. quiet.
  - unfold open_delete_confirmation. destruct (ap_uncertain a); [quiet|]. destruct (negb _); quiet.
  - apply delete_effect.
  - apply editor_effect.
  - apply mysql_intent_effect.
  - apply redis_intent_effect.
  - unfold explorer_frame. cbv zeta. destruct (selected_profile_snapshot _) as [profile|]; [|quiet].
    destruct (negb _); [quiet|]. destruct (ps_driver profile); quiet.
  - destruct intent; cbn [handle_result_view_intent]; [by apply choose_effect|by apply cancel_effect].
  - eapply port_effect_mono; [apply recoverable_asked|]. apply recover_effect.
Qed.

(** ** Events *)

(** What the application sends on its own: it loads the profiles again after a save, connects
    a profile that was saved to be connected, and retries what asked for a credential. *)
Definition background (command : UiCommand) : Prop :=
  match command with CmdRefreshProfiles _ => True | _ => resource_command command end.

Lemma resource_background command : resource_command command -> background command.
Proof. by destruct command. Qed.

Abbreviation effects ok := (rtc (port_effect ok)) (only parsing).

Lemma one_effect ok p q : port_effect ok p q -> effects ok p q.
Proof. apply rtc_once. Qed.

Lemma saved_effect a event profile_id status :
  effects background (ap_port a) (ap_port (profile_saved a event profile_id status).1.1).
Proof.
  apply one_effect. unfold profile_saved. cbn [ap_next_operation next_operation]. unfold ap_submit.
  set (command := CmdRefreshProfiles _). pose proof (pe_sent background (ap_port a) command I) as H.
  change (ap_port (set_ap_model ?x ?m)) with (ap_port x). change (ap_port (set_ap_editor ?x ?m)) with (ap_port x).
  rewrite status_port. change (ap_port (select_profile (fold_model a event) profile_id)) with (ap_port a).
  by destruct (try_submit command (ap_port a)) as [[u|error] q].
Qed.

Lemma follow_up_effect a follow : effects background (ap_port a) (ap_port (follow_up a follow)).
Proof.
  unfold follow_up. destruct follow as [[[profile_id loaded] accepted]|]; [cbv zeta|done].
  destruct (_ && _); [|done]. apply one_effect. eapply port_effect_mono; [apply resource_background|].
  apply (test_effect (select_profile (set_ap_connect a None) profile_id)).
Qed.

Lemma fold_event_effect a event credential_retry :
  effects background (ap_port a) (ap_port (fold_event a event credential_retry)).
Proof.
  unfold fold_event. cbv zeta. pose proof (follow_up_effect (fold_model a event) (connect_follow_up a event)) as H.
  destruct credential_retry as [[recipe_id kind]|]; [|exact H].
  etrans; [exact H|]. apply one_effect. eapply port_effect_mono; [apply resource_background|]. apply retry_effect.
Qed.

(** The parts of the state that an event is folded into before the form and the model. *)
Definition before_form (a : App) (event : UiEvent) : option (N * OperationKind) * App :=
  let '(retry, a) := handle_credential_terminal (capture_common_error a event) event in
  (retry, fold_mysql_explorer_event (finish_active_operation (fold_redis_explorer_event a event) event) event).

Lemma before_form_port a event : ap_port (before_form a event).2 = ap_port a.
Proof.
  unfold before_form. pose proof (credential_terminal_port (capture_common_error a event) event) as H.
  destruct (handle_credential_terminal _ _) as [retry a1]. cbn [snd] in *.
  by rewrite mysql_event_port, finish_active_port, redis_event_port, H, common_error_port.
Qed.

(** What follows the form's own reaction. *)
Definition after_form (event : UiEvent) (retry : option (N * OperationKind)) (r : ProfileEventResult * App) : App :=
  match r.1 with
  | EventSaved profile_id warning =>
      (profile_saved r.2 event profile_id (saved_status warning "Profile saved; refreshing profiles")).1.1
  | EventSavedAndConnect profile_id warning =>
      let '(a, operation_id, sent) :=
        profile_saved r.2 event profile_id (saved_status warning "Profile saved; refreshing before connect") in
      set_ap_connect a (if sent then Some (profile_id, operation_id) else None)
  | EventFailed => match ap_editor r.2 with Some editor => set_ap_status r.2 (pf_status editor) | None => r.2 end
  | EventIgnored => fold_event r.2 event retry
  end.

Lemma apply_event_steps a event :
  let event' := attach_retry_recipe (handle_export_terminal a event) event in
  let b := before_form (handle_export_terminal a event) event' in
  apply_event a event = after_form event' b.1 (editor_event b.2 event').
Proof.
  unfold apply_event, before_form, after_form. cbv zeta.
  destruct (handle_credential_terminal _ _) as [retry a1]. cbn [fst snd].
  destruct (editor_event _ _) as [[] a2]; reflexivity.
Qed.

Lemma after_form_effect event retry r : effects background (ap_port r.2) (ap_port (after_form event retry r)).
Proof.
  destruct r as [[] a]; unfold after_form; cbn [fst snd].
  - apply fold_event_effect.
  - apply saved_effect.
  - pose proof (saved_effect a event profile_id
      (saved_status warning "Profile saved; refreshing before connect")) as H.
    destruct (profile_saved _ _ _ _) as [[a' operation_id] sent]. exact H.
  - by destruct (ap_editor a).
Qed.

Lemma poll_event_effect a event : effects background (ap_port a) (ap_port (poll_event a event)).
Proof.
  assert (effects background (ap_port a) (ap_port (apply_event a event))) as Happly.
  { rewrite apply_event_steps. cbv zeta. etrans; [|apply after_form_effect].
    by rewrite editor_event_port, before_form_port, export_terminal_port. }
  unfold poll_event. destruct (redis_resource_event_disposition a event); [exact Happly|exact Happly|done|].
  by rewrite remove_recipe_port, finish_active_port.
Qed.

Lemma poll_effect a :
  effects background (drain_events EVENT_DRAIN_LIMIT (ap_port a)).2 (ap_port (poll_events a)).
Proof.
  unfold poll_events. destruct (drain_events EVENT_DRAIN_LIMIT (ap_port a)) as [events port]. cbn [snd].
  rewrite after_events_port. change port with (ap_port (set_ap_port a port)) at 1.
  generalize (set_ap_port a port) as b. induction events as [|event events IH]; intros b; cbn; [done|].
  etrans; [apply poll_event_effect|apply IH].
Qed.

(** Polling is made of steps of the runtime's interface too. *)
Lemma poll_steps a : rtc PortStep (ap_port a) (ap_port (poll_events a)).
Proof.
  etrans; [apply rtc_once, (ui_drains EVENT_DRAIN_LIMIT)|].
  pose proof (poll_effect a) as H. induction H as [|p q r Hstep _ IH]; [done|].
  etrans; [by eapply effect_steps|exact IH].
Qed.

(** ** The program *)

(** C4: nothing is executed, saved, stored or deleted behind the user's back. Each action of the user submits at most one command, and a statement only as the user's own Execute of exactly that text and those limits, under the generation that is current, on a connection that is not busy, while the configuration is certain; a credential only as it was typed, for the current generation and once; a deletion only as it was confirmed; a profile only from the form's Save. No retry, recovery or event sends any of these: between two actions the application only loads the profiles again, connects, or repeats a browse. *)
Theorem only_the_user_executes desktop a :
  (forall action, port_effect (asked a action) (ap_port a) (ap_port (app_action desktop a action))) /\
  (forall visible action,
     port_effect recoverable (ap_port a) (ap_port (app_action desktop a (ActRecover visible action)))) /\
  effects background (drain_events EVENT_DRAIN_LIMIT (ap_port a)).2 (ap_port (poll_events a)).
Proof. split_and!; [apply action_effect|intros; apply recover_effect|apply poll_effect]. Qed.
End ports.
