(* ===== verification/Program.v ===== *)
(** * The program: the application on the runtime (src/src/ui/app.rs, mod.rs, runtime.rs)

    The application and the runtime share their ports and take turns.  A run records the
    actions of the user and the tasks that are begun, and every task is traced back to
    the action that asked for it. *)

From S2P Require Import Prelude RustStr Model Execution Retention Secrets Profile Config ConfigWriter Drivers Service.
From S2P Require Import ServiceWriter PublicError RedisBrowser UiModel MysqlExplorer RedisExplorer RuntimeEvents DraftTests.
From S2P Require Import Tokio CommandPorts ProfileForm Export Editor MysqlCatalog ExportFiles RuntimeTasks Runtime.
From S2P Require Import RuntimeSystem RuntimeMoves RuntimeReplies RuntimeSafety RuntimeTheorems RuntimeKeys.
From S2P Require Import App AppCommands AppEvents AppPorts.

(** ** Which task a command starts *)

(** The body that a command is started as, with what the command carries. *)
Inductive starts (shell_split : str -> option (list str)) : UiCommand -> TaskBody -> Prop :=
| starts_mutation command : cmd_lane command = LaneMutation -> starts shell_split command (BodyMutation command)
| starts_export request confirmation :
    starts shell_split (CmdExportResult request confirmation) (BodyExport request confirmation)
| starts_draft request : starts shell_split (CmdTestDraftConnection request) (BodyDraft (DraftPrepared request))
| starts_draft_intent intent : starts shell_split (CmdPrepareDraftConnectionTest intent) (BodyDraft (DraftIntent intent))
| starts_connect operation_id profile_id profile_generation timeout_ms :
    starts shell_split (CmdTestConnection operation_id profile_id profile_generation timeout_ms)
      (BodyProfile (WorkConnect operation_id profile_id profile_generation (duration_from_millis timeout_ms) ConnectProfile))
| starts_execute operation_id profile_id profile_generation language text row_limit timeout_ms request kind :
    execute_request shell_split operation_id profile_id profile_generation language text row_limit timeout_ms =
      (request, kind) ->
    starts shell_split (CmdExecute operation_id profile_id profile_generation language text row_limit timeout_ms)
      (BodyProfile (WorkExecute request kind))
| starts_browse request : starts shell_split (CmdBrowseCatalog request) (BodyProfile (WorkBrowseCatalog request))
| starts_scan request : starts shell_split (CmdScanRedisKeys request) (BodyProfile (WorkScanRedisKeys request))
| starts_inspect request : starts shell_split (CmdInspectRedisKey request) (BodyProfile (WorkInspectRedisKey request))
| starts_disconnect operation_id profile_id profile_generation session targets plan :
    starts shell_split (CmdDisconnectProfile operation_id profile_id profile_generation)
      (BodyControl (ControlDisconnect operation_id profile_id profile_generation session) targets plan)
| starts_reconnect operation_id profile_id profile_generation timeout_ms session targets plan :
    starts shell_split (CmdReconnectProfile operation_id profile_id profile_generation timeout_ms)
      (BodyControl
         (ControlReconnect operation_id profile_id profile_generation session (duration_from_millis timeout_ms))
         targets plan).

(** The other bodies finish what a task of a command has begun. *)
Definition is_command_body (body : TaskBody) : bool :=
  match body with BodyCleanup _ _ | BodyCompletion _ _ _ => false | _ => true end.

#[export] Instance background_dec command : Decision (background command).
Proof. destruct command; cbn; apply _. Defined.

(** ** One hit in a list of keys *)

Lemma omap_none {A B} (f : A -> option B) (l : list A) : (forall x, x ∈ l -> f x = None) -> omap f l = [].
Proof.
  induction l as [|x l IH]; cbn; intros H; [done|]. rewrite H by left. apply IH. intros y Hy. apply H. by right.
Qed.

Lemma omap_one_key {K V B} (f : K * V -> option B) (P : B -> Prop) key (l : list (K * V)) :
  NoDup l.*1 -> (forall x b, x ∈ l -> f x = Some b -> x.1 = key /\ P b) ->
  omap f l = [] \/ exists b, omap f l = [b] /\ P b.
Proof.
  induction l as [|x l IH]; cbn; intros Hnd H; [by left|].
  apply NoDup_cons in Hnd as [Hx Hnd]. destruct (f x) as [b|] eqn:Hf.
  - destruct (H x b) as [Hkey Hb]; [left|done|]. right. exists b. split; [|done]. f_equal.
    apply omap_none. intros y Hy. destruct (f y) as [b'|] eqn:Hf'; [|done].
    destruct (H y b') as [Hkey' _]; [by right|done|]. destruct Hx. rewrite Hkey, <- Hkey'. by apply list_elem_of_fmap_2.
  - apply IH; [done|]. intros y b' Hy. apply H. by right.
Qed.

Section program.
Context `{T : Tokio}.

(** ** The tasks that a step begins *)

(** A task is known by its token, which is allocated with it. *)
Definition same_task (entry entry' : RegistryEntry) : Prop :=
  jn_body (entry_join entry') = jn_body (entry_join entry) /\ rk_cancel (en_task entry') = rk_cancel (en_task entry).

Definition begun_task (r : Runtime) (registered : OperationId * RegistryEntry) : option TaskBody :=
  let '(operation_id, entry) := registered in
  let body := jn_body (entry_join entry) in
  if is_command_body body then
    if decide ((fun before => rk_cancel (en_task before)) <$> rn_entries r !! operation_id = Some (rk_cancel (en_task entry)))
    then None else Some body
  else None.

(** The tasks of commands that are registered now, and were not before. *)
Definition tasks_begun (r r' : Runtime) : list TaskBody := omap (begun_task r) (entry_list r').

(** What is registered afterwards was there before, finishes a task, or is allowed. *)
Definition adds (allowed : OperationId -> TaskBody -> Prop) (r r' : Runtime) : Prop :=
  forall operation_id entry', rn_entries r' !! operation_id = Some entry' ->
    (exists entry, rn_entries r !! operation_id = Some entry /\ same_task entry entry') \/
    (is_command_body (jn_body (entry_join entry')) = true -> allowed operation_id (jn_body (entry_join entry'))).

Lemma adds_same allowed r r' : rn_entries r' = rn_entries r -> adds allowed r r'.
Proof. intros He op e. rewrite He. left. by exists e. Qed.

Lemma adds_trans allowed r1 r2 r3 : adds allowed r1 r2 -> adds allowed r2 r3 -> adds allowed r1 r3.
Proof.
  intros H12 H23 op e3 He3. destruct (H23 op e3 He3) as [(e2 & He2 & Hb & Hc)|]; [|by right].
  destruct (H12 op e2 He2) as [(e1 & He1 & Hb' & Hc')|Hok]; [left; exists e1|right; by rewrite Hb].
  split; [done|]. split; congruence.
Qed.

Lemma adds_after allowed r1 r2 r3 : rn_entries r2 = rn_entries r1 -> adds allowed r2 r3 -> adds allowed r1 r3.
Proof. intros He. apply adds_trans. by apply adds_same. Qed.

Lemma adds_entry (allowed : OperationId -> TaskBody -> Prop) operation_id entry r :
  (is_command_body (jn_body (entry_join entry)) = true -> allowed operation_id (jn_body (entry_join entry))) ->
  adds allowed r (set_entry operation_id entry r).
Proof.
  intros Hok op e. cbn. rewrite lookup_insert_Some. intros [[<- <-]|[_ He]]; [by right|]. left. by exists e.
Qed.

Lemma adds_replaced allowed operation_id entry entry' r r' :
  rn_entries r !! operation_id = Some entry -> rn_entries r' = <[operation_id := entry']> (rn_entries r) ->
  same_task entry entry' -> adds allowed r r'.
Proof.
  intros Hin He' Hsame op e. rewrite He', lookup_insert_Some.
  intros [[<- <-]|[_ He]]; left; [by exists entry|by exists e].
Qed.

Lemma adds_taken allowed operation_id r : adds allowed r (take operation_id r).2.
Proof. intros op e. cbn. rewrite lookup_delete_Some. intros [_ He]. left. by exists e. Qed.

(** ** Starts *)

Lemma start_registered_adds (allowed : OperationId -> TaskBody -> Prop) operation_id scope body held class failure r :
  (is_command_body body = true -> allowed operation_id body) ->
  adds allowed r (start_registered operation_id scope body held class failure r).2.
Proof.
  intros Hok. unfold start_registered, commit_reservation, commit_reservation_with_state. cbn -[N.add drop_permits].
  assert (Hdropped : forall r1, rn_entries r1 = rn_entries r -> adds allowed r (drop_permits held r1)).
  { intros r1 H1. apply adds_same. by destruct (drop_permits_frame held r1) as (_ & _ & ->). }
  destruct (_ || _); [by apply Hdropped|]. unfold insert_with_state. cbn -[N.add drop_permits].
  destruct (rn_entries r !! operation_id) eqn:He; [by apply Hdropped|].
  intros op e. cbn. rewrite lookup_insert_Some. intros [[<- <-]|[_ H]]; [by right|]. left. by exists e.
Qed.

Lemma start_or_refuse_adds (allowed : OperationId -> TaskBody -> Prop) operation_id scope body held class failure refusal r :
  (is_command_body body = true -> allowed operation_id body) ->
  adds allowed r (start_or_refuse operation_id scope body held class failure refusal r).
Proof.
  intros Hok. unfold start_or_refuse.
  pose proof (start_registered_adds allowed operation_id scope body held class failure r Hok) as H.
  destruct (start_registered _ _ _ _ _ _ r) as [[] r']; [exact H|]. eapply adds_trans; [exact H|]. by apply adds_same.
Qed.

Lemma reserved_entries operation_id r r' : reserve operation_id r = Some r' -> rn_entries r' = rn_entries r.
Proof. by intros [-> _]%reserve_Some. Qed.

Lemma acquired_entries a r r' : try_acquire_owned a r = Some r' -> rn_entries r' = rn_entries r.
Proof. by intros [s ->]%acquired_same. Qed.

Lemma profile_acquire_entries profile_id r : rn_entries (profile_try_acquire profile_id r).2 = rn_entries r.
Proof.
  unfold profile_try_acquire. pose proof (slot_spec profile_id r) as H. destruct (slot profile_id r) as [a r1].
  destruct H as (He & _). destruct (try_acquire_owned a r1) as [r2|] eqn:Ht; [|done].
  by rewrite <- He, <- (acquired_entries _ _ _ Ht).
Qed.

Lemma draft_acquire_entries draft_id r : rn_entries (draft_try_acquire draft_id r).2 = rn_entries r.
Proof.
  unfold draft_try_acquire. pose proof (draft_slot_spec draft_id r) as H. destruct (draft_slot draft_id r) as [a r1].
  destruct H as (He & _). destruct (try_acquire_owned a r1) as [r2|] eqn:Ht; [|done].
  by rewrite <- He, <- (acquired_entries _ _ _ Ht).
Qed.

#[local] Ltac refused := by apply adds_same.
#[local] Ltac after H := eapply adds_after; [exact H|].

Lemma export_adds (allowed : OperationId -> TaskBody -> Prop) request confirmation r :
  allowed (er_operation_id request) (BodyExport request confirmation) ->
  adds allowed r (start_export_work request confirmation r).
Proof.
  intros Hok. unfold start_export_work. cbv zeta. destruct (active_export _ r); [refused|].
  destruct (reserve _ r) as [r1|] eqn:H1; [after (reserved_entries _ _ _ H1)|refused].
  destruct (try_acquire_owned _ r1) as [r2|] eqn:H2; [after (acquired_entries _ _ _ H2)|refused].
  by apply start_or_refuse_adds.
Qed.

Lemma draft_adds (allowed : OperationId -> TaskBody -> Prop) input r :
  allowed (dw_operation_id input) (BodyDraft input) -> adds allowed r (start_draft_work input r).
Proof.
  intros Hok. unfold start_draft_work. cbv zeta.
  destruct (reserve _ r) as [r1|] eqn:H1; [after (reserved_entries _ _ _ H1)|refused].
  pose proof (draft_acquire_entries (dw_draft_id input) r1) as H2.
  destruct (draft_try_acquire _ r1) as [[a|] r2]; (after H2); [|refused].
  destruct (try_acquire_owned _ r2) as [r3|] eqn:H3; [after (acquired_entries _ _ _ H3)|refused].
  by apply start_or_refuse_adds.
Qed.

Lemma profile_work_adds (allowed : OperationId -> TaskBody -> Prop) work r :
  allowed (ri_operation_id (work_identity work).1) (BodyProfile work) -> adds allowed r (start_profile_work work r).
Proof.
  intros Hok. unfold start_profile_work. destruct (work_identity work) as [identity kind]. cbv zeta.
  destruct (has_profile_network_for_id _ r); [refused|].
  destruct (reserve _ r) as [r1|] eqn:H1; [after (reserved_entries _ _ _ H1)|refused].
  pose proof (profile_acquire_entries (ri_profile_id identity) r1) as H2.
  destruct (profile_try_acquire _ r1) as [[a|] r2]; (after H2); [|refused].
  destruct (try_acquire_owned _ r2) as [r3|] eqn:H3; [after (acquired_entries _ _ _ H3)|refused].
  by apply start_or_refuse_adds.
Qed.

Lemma plan_entries profile_id targets r : rn_entries (plan_reconnect profile_id targets r).2 = rn_entries r.
Proof.
  unfold plan_reconnect. destruct targets.
  - pose proof (profile_acquire_entries profile_id r) as H. destruct (profile_try_acquire profile_id r) as [[a|] r1];
      [|exact H]. destruct (try_acquire_owned _ r1) as [r2|] eqn:H2; [|exact H].
    cbn. by rewrite (acquired_entries _ _ _ H2).
  - pose proof (slot_spec profile_id r) as H. destruct (slot profile_id r) as [a r1]. apply H.
Qed.

Lemma cancel_waiters_entries selects r : rn_entries (cancel_waiters selects r).2 = rn_entries r.
Proof.
  pose proof (cancel_waiters_spec (fun _ _ => True) selects r) as H. destruct (cancel_waiters selects r) as [targets r1].
  apply H.
Qed.

Lemma control_adds (allowed : OperationId -> TaskBody -> Prop) work r :
  (forall targets plan, allowed (ri_operation_id (control_identity work).1.1) (BodyControl work targets plan)) ->
  adds allowed r (start_profile_control work r).
Proof.
  intros Hok. unfold start_profile_control. destruct (control_identity work) as [[identity session] kind]. cbv zeta.
  destruct (reserve _ r) as [r1|] eqn:H1; [after (reserved_entries _ _ _ H1)|refused].
  unfold cancel_profile_network_waiters.
  pose proof (cancel_waiters_entries (network_of (ri_profile_id identity) (ri_profile_generation identity)) r1) as H2.
  destruct (cancel_waiters _ r1) as [targets r2]. after H2. destruct work.
  - by apply start_or_refuse_adds.
  - pose proof (plan_entries (ri_profile_id identity) targets r2) as H3.
    destruct (plan_reconnect _ _ r2) as [[u|[plan held]] r3]; (after H3); [refused|]. by apply start_or_refuse_adds.
Qed.

(** ** Handlers *)

Context (shell_split : str -> option (list str)).

(** The task is the one of this command. *)
Definition by_command (taken : option UiCommand) (operation_id : OperationId) (body : TaskBody) : Prop :=
  exists command, taken = Some command /\ operation_id = cmd_operation_id command /\ starts shell_split command body.

Lemma by_taken command operation_id body :
  operation_id = cmd_operation_id command -> starts shell_split command body ->
  by_command (Some command) operation_id body.
Proof. by exists command. Qed.

#[local] Hint Resolve by_taken : core.
#[local] Hint Constructors starts : core.

Lemma work_adds command r : adds (by_command (Some command)) r (handle_work shell_split command r).
Proof.
  unfold handle_work.
  destruct command; try (destruct (sv_uncertain (rn_service r)); [refused|]); try refused.
  - apply profile_work_adds. by apply by_taken.
  - apply draft_adds. by apply by_taken.
  - apply draft_adds. by apply by_taken.
  - destruct (execute_request _ _ _ _ _ _ _ _) as [request kind] eqn:Hreq. apply profile_work_adds.
    apply by_taken; [|by constructor]. unfold execute_request in Hreq. by injection Hreq as <- _.
  - apply profile_work_adds. by apply by_taken.
  - apply profile_work_adds. by apply by_taken.
  - apply profile_work_adds. by apply by_taken.
  - apply export_adds. by apply by_taken.
Qed.

Lemma mutation_adds command r :
  cmd_lane command = LaneMutation -> adds (by_command (Some command)) r (start_mutation command r).2.
Proof.
  intros Hlane. unfold start_mutation. destruct (_ && _); [refused|].
  destruct (reserve _ r) as [r1|] eqn:H1; [after (reserved_entries _ _ _ H1)|refused].
  destruct (mutation_scope command) as [[scope failure]|]; [|refused].
  apply start_registered_adds. intros _. apply by_taken; [done|by constructor].
Qed.

Lemma handle_control_adds others command r : adds (by_command (Some command)) r (handle_control others command r).
Proof.
  unfold handle_control. cbv zeta. destruct (_ && _).
  { destruct (control_key command) as [[]|]; refused. }
  destruct command; try refused.
  - unfold registry_cancel. destruct (rn_entries r !! operation_id); refused.
  - eapply adds_after; [|apply control_adds]; [done|]. intros. apply by_taken; [done|constructor].
  - destruct (ensure_generation _ _ _ _).1; [|refused].
    eapply adds_after; [|apply control_adds]; [done|]. intros. apply by_taken; [done|constructor].
Qed.

Lemma cleanup_adds allowed operation_id scope failure terminal r :
  adds allowed r (start_registered_failure_cleanup operation_id scope failure terminal r).2.
Proof.
  unfold start_registered_failure_cleanup.
  destruct (reserve _ r) as [r1|] eqn:H1; [after (reserved_entries _ _ _ H1)|refused].
  unfold commit_reservation_with_state. cbn -[N.add]. destruct (_ || _); [refused|]. unfold insert_with_state.
  cbn -[N.add]. destruct (rn_entries r1 !! operation_id); [refused|].
  intros op e. cbn. rewrite lookup_insert_Some. intros [[<- <-]|[_ H]]; [by right|]. left. by exists e.
Qed.

Lemma fail_entry_adds allowed reports operation_id entry r : adds allowed r (fail_entry reports operation_id entry r).
Proof.
  unfold fail_entry. destruct (en_cleanup_started entry); [by destruct reports; refused|].
  pose proof (cleanup_adds allowed operation_id (rk_scope (en_task entry)) (en_failure entry) (en_terminal entry) r) as H.
  destruct (start_registered_failure_cleanup _ _ _ _ _) as [[] r1]; [exact H|].
  eapply adds_trans; [exact H|]. by destruct reports; refused.
Qed.

Lemma clear_mutation_entries entry r : rn_entries (clear_mutation entry r) = rn_entries r.
Proof. unfold clear_mutation. by destruct (bool_decide _). Qed.

Lemma cancel_targets_entries targets r : rn_entries (cancel_targets targets r).2 = rn_entries r.
Proof. pose proof (cancel_targets_spec (fun _ _ => True) targets r) as H. destruct (cancel_targets targets r). apply H. Qed.

Lemma completion_waiters_entries output r : rn_entries (mutation_completion_waiters output r).2 = rn_entries r.
Proof.
  unfold mutation_completion_waiters. cbv zeta. destruct (sv_uncertain _).
  - pose proof (cancel_waiters_entries is_network r) as H. unfold cancel_all_network_waiters. by destruct (cancel_waiters _ r).
  - pose proof (cancel_targets_entries (output_targets output) r) as H. by destruct (cancel_targets _ r).
Qed.

Lemma completion_adds allowed operation_id scope failure output r :
  adds allowed r (start_registered_mutation_completion operation_id scope failure output r).2.
Proof.
  unfold start_registered_mutation_completion.
  destruct (reserve _ r) as [r1|] eqn:H1; [after (reserved_entries _ _ _ H1)|refused].
  pose proof (completion_waiters_entries output r1) as H2.
  destruct (mutation_completion_waiters output r1) as [[waiters had_active] r2]. after H2. by apply start_registered_adds.
Qed.

Lemma update_session_adds allowed operation_id session_generation r :
  adds allowed r (update_session operation_id session_generation r).
Proof.
  destruct (update_session_cases operation_id session_generation r) as [->|(entry & scope & He & ->)]; [refused|].
  eapply (adds_replaced _ _ entry); [exact He|reflexivity|by split].
Qed.

Lemma message_adds allowed message r : adds allowed r (handle_controller_message message r).
Proof.
  destruct message as [operation_id session|operation_id output]; cbn [handle_controller_message];
    [apply update_session_adds|].
  pose proof (adds_taken allowed operation_id r) as Ht. destruct (take operation_id r) as [[entry|] r1]; cbn [snd] in Ht.
  - eapply adds_trans; [exact Ht|]. destruct (panicked entry).
    { after (clear_mutation_entries entry r1). apply fail_entry_adds. }
    destruct (_ && _).
    + pose proof (completion_adds allowed operation_id (rk_scope (en_task entry)) (en_failure entry) output r1) as H.
      destruct (start_registered_mutation_completion _ _ _ _ _) as [[] r2]; (eapply adds_trans; [exact H|]); refused.
    + cbv zeta. after (clear_mutation_entries entry r1).
      destruct (finish_task_output _ _ _) as [event service]. refused.
  - exact Ht.
Qed.

Lemma fail_all_adds allowed (fail : OperationId * RegistryEntry -> Runtime -> Runtime) taken r :
  (forall reaped r, adds allowed r (fail reaped r)) -> adds allowed r (foldl (fun r reaped => fail reaped r) r taken).
Proof.
  intros Hfail. revert r. induction taken as [|x taken IH]; intros r; [refused|]. eapply adds_trans; [apply Hfail|apply IH].
Qed.

Lemma take_all_adds allowed operation_ids r : adds allowed r (take_all operation_ids r).2.
Proof.
  unfold take_all. induction operation_ids as [|op ops IH]; [refused|]. cbn [foldr].
  destruct (foldr _ _ ops) as [entries r1]. pose proof (adds_taken allowed op r1) as Ht.
  destruct (take op r1) as [[entry|] r2]; by eapply adds_trans.
Qed.

Lemma reap_adds allowed operation_ids r : adds allowed r (reap_panicked_tasks operation_ids r).
Proof.
  unfold reap_panicked_tasks. pose proof (take_all_adds allowed operation_ids r) as H.
  destruct (take_all operation_ids r) as [reaped r1]. eapply adds_trans; [exact H|]. apply fail_all_adds.
  intros [op entry] r2. after (clear_mutation_entries entry r2). apply fail_entry_adds.
Qed.

Lemma abort_adds allowed operation_ids r : adds allowed r (abort_bounded_work operation_ids r).
Proof.
  unfold abort_bounded_work. pose proof (take_all_adds allowed operation_ids r) as H.
  destruct (take_all operation_ids r) as [expired r1]. eapply adds_trans; [exact H|]. apply fail_all_adds.
  intros [op entry] r2. eapply adds_after; [|apply fail_entry_adds]. by destruct (drop_permits_frame (jn_held (rk_join (en_task entry))) r2) as (_ & _ & ->).
Qed.

Lemma task_adds allowed r r' : TaskStep r r' -> adds allowed r r'.
Proof.
  assert (Hentries : forall held r1, rn_entries (drop_permits held r1) = rn_entries r1)
    by (intros held r1; apply drop_permits_frame).
  destruct 1 as [op entry output s r [He _]|op entry r [He _]|op entry sg r [He _]
    |op entry work targets profile global a r r' [He _] Hb Hg Ha Hn Ht|op entry work targets profile global summary r [He _]
    |op entry s r [He _]]; [eapply (adds_replaced _ op entry); [exact He|..]..|refused]; cbn.
  all: try (rewrite ?Hentries, ?(acquired_entries _ _ _ Ht); reflexivity).
  all: by split.
Qed.

Lemma tasks_add allowed r r' : rtc TaskStep r r' -> adds allowed r r'.
Proof. induction 1 as [r|r1 r2 r3 Hstep _ IH]; [refused|]. eapply adds_trans; [by apply task_adds|exact IH]. Qed.

Context {laws : TokioLaws T}.

(** ** The queues of commands *)

Definition waiting (p : Ports) : list UiCommand := queued (po_control p) ++ queued (po_mutation p) ++ queued (po_work p).

Lemma waiting_lanes p p' : (forall lane, lane_queue p' lane = lane_queue p lane) -> waiting p' = waiting p.
Proof.
  intros H. pose proof (H LaneControl). pose proof (H LaneMutation). pose proof (H LaneWork). unfold waiting. cbn in *.
  congruence.
Qed.

Lemma handles_waiting takes o r o' r' : handles takes o r o' r' -> waiting (rn_port r') = waiting (rn_port r).
Proof. intros [Hm _]. apply waiting_lanes, (moves_lanes takes _ _ Hm). Qed.

(** A step of the runtime takes at most one command from its queue, and begins no task but
    the one of that command. *)
Definition turns (taken : option UiCommand) (r r' : Runtime) : Prop :=
  option_list taken ++ waiting (rn_port r') ⊆+ waiting (rn_port r) /\ adds (by_command taken) r r'.

Lemma turns_quietly r r' :
  waiting (rn_port r') = waiting (rn_port r) -> adds (by_command None) r r' -> turns None r r'.
Proof. intros Hw Ha. split; [by rewrite Hw|exact Ha]. Qed.

Lemma submseteq_mid {A} (x : A) l1 l2 : x :: l1 ++ l2 ⊆+ l1 ++ x :: l2.
Proof. apply Permutation_submseteq, Permutation_middle. Qed.

(** The first command of each lane. *)
Lemma control_waiting p command lane :
  try_recv (po_control p) = (Some command, lane) -> waiting p = command :: waiting (set_control p lane).
Proof using laws.
  intros H. pose proof (try_recv_queued (po_control p)) as Hq. rewrite H in Hq. unfold waiting. cbn in *. by rewrite Hq.
Qed.

Lemma mutation_waiting p command lane :
  try_recv (po_mutation p) = (Some command, lane) -> waiting p ≡ₚ command :: waiting (set_mutation p lane).
Proof using laws.
  intros H. pose proof (try_recv_queued (po_mutation p)) as Hq. rewrite H in Hq. unfold waiting. cbn in *. rewrite Hq.
  symmetry. apply Permutation_middle.
Qed.

Lemma work_waiting p command lane :
  try_recv (po_work p) = (Some command, lane) -> waiting p ≡ₚ command :: waiting (set_work p lane).
Proof using laws.
  intros H. pose proof (try_recv_queued (po_work p)) as Hq. rewrite H in Hq. unfold waiting. cbn in *. rewrite Hq.
  rewrite !app_assoc. symmetry. apply Permutation_middle.
Qed.

Lemma taken_turns command r p r' :
  waiting (rn_port r) ≡ₚ command :: waiting p -> waiting (rn_port r') = waiting p ->
  adds (by_command (Some command)) r r' -> turns (Some command) r r'.
Proof. intros Hp Hw Ha. split; [|exact Ha]. by rewrite Hw, Hp. Qed.

Lemma emit_waiting event r : waiting (rn_port (emit event r)) = waiting (rn_port r).
Proof.
  apply waiting_lanes. intros lane. cbn. unfold try_emit. destruct (try_send _ _) as [sent events]. cbn.
  unfold release_for_event. by destruct (po_keys_poisoned (rn_port r)), lane.
Qed.

Lemma closed_waiting p : waiting (close_and_drain p) = [].
Proof using laws.
  assert (H : forall q : mpsc UiCommand, queued (close_lane q) = []).
  { intros q. unfold close_lane. destruct (mpsc_closed _ q) as [<- _]. apply drain_queued. }
  unfold waiting. cbn. by rewrite !H.
Qed.

Lemma dropped_waiting p : waiting (port_dropped p) = waiting p.
Proof using laws.
  unfold waiting. cbn. by rewrite (proj1 (mpsc_closed _ (po_control p))), (proj1 (mpsc_closed _ (po_mutation p))),
    (proj1 (mpsc_closed _ (po_work p))).
Qed.

Lemma message_turns ops r message messages r' :
  serves ops r -> try_recv (rn_messages r) = (Some message, messages) ->
  rtc TaskStep (set_rn_messages r messages) r' -> awaited message r' ->
  turns None r (handle_controller_message message r').
Proof using laws.
  intros (Hr & Hok & Hl) Hrecv Hsteps Hawaited. apply turns_quietly.
  - destruct (message_received_core _ _ _ _ Hrecv Hok) as [Hok1 Hm].
    destruct (tasks_frame _ _ Hsteps) as [Hr' Hp']. cbn in Hr', Hp'.
    pose proof (steps_core _ _ _ Hsteps Hok1) as Hok'.
    destruct (core_message_fits ops ∅ r' message Hok' Hm Hawaited) as [keys Hfits].
    rewrite <- Hp'. eapply (handles_waiting (fun _ _ => True)). apply (message_handled _ message ops keys); [by rewrite Hr'|by eapply mutation_ok_core|done].
  - eapply adds_after; [|eapply adds_trans; [by apply tasks_add|apply message_adds]]. done.
Qed.

Lemma mutation_turns r command lane started r' :
  serves [] r -> rn_mutation_active r = false -> try_recv (po_mutation (rn_port r)) = (Some command, lane) ->
  start_mutation command (received command (with_port r (set_mutation (rn_port r) lane))) = (started, r') ->
  turns (Some command) r (set_rn_mutation_active r' started).
Proof using laws.
  intros (Hr & Hok & Hl) Hactive Hrecv Hstart. destruct (mutation_taken _ _ _ Hrecv Hl) as [Hlane _].
  destruct (received_port command (with_port r (set_mutation (rn_port r) lane))) as [Hp Hr'].
  assert (Hc : is_cancel command = false) by (apply lane_not_cancel; by rewrite Hlane).
  set (r1 := received command _) in *.
  assert (He1 : rn_entries r1 = rn_entries r) by (unfold r1, received; by rewrite Hc).
  apply (taken_turns _ _ _ _ (mutation_waiting _ _ _ Hrecv)).
  - pose proof (mutation_handled (fun _ _ => True) command [] ∅ false r1) as Hh. rewrite Hstart in Hh. cbn.
    assert (Hnone : ~ has_mutation r1).
    { intros (op & e & He & Hm). destruct (mutation_ok_core _ _ _ Hok) as [Ha _].
      assert (has_mutation r) as H by (exists op, e; split; [by rewrite <- He1|done]). apply Ha in H. congruence. }
    pose proof (handles_waiting _ _ _ _ _ (Hh ltac:(by rewrite Hr') Hlane Hnone)) as H. rewrite Hp in H. exact H.
  - eapply adds_after; [exact He1|]. pose proof (mutation_adds command r1 Hlane) as H. rewrite Hstart in H.
    eapply adds_trans; [exact H|]. refused.
Qed.

(** A handler, once its command was received. *)
Lemma received_entries command r p : rn_entries (received command (with_port r p)) = rn_entries r.
Proof. unfold received. by destruct (is_cancel command). Qed.

Lemma handled_waiting o o' command r p handler :
  rn_reserved r = ∅ ->
  (forall r, rn_reserved r = ∅ -> handles (fun _ _ => True) o r o' (handler r)) ->
  waiting (rn_port (handler (received command (with_port r p)))) = waiting p.
Proof.
  intros Hr Hh. destruct (received_port command (with_port r p)) as [Hp Hr'].
  rewrite (handles_waiting _ _ _ _ _ (Hh (received command (with_port r p)) ltac:(by rewrite Hr'))). by rewrite Hp.
Qed.

Lemma reap_turns ops r operation_ids :
  serves ops r -> operation_ids ≡ₚ selected is_reapable r -> turns None r (reap_panicked_tasks operation_ids r).
Proof.
  intros (Hr & Hok & _) Hids. apply turns_quietly; [|apply reap_adds].
  eapply (handles_waiting (fun _ _ => True)), (reap_handled _ operation_ids ops ∅);
    [done|by eapply mutation_ok_core|]. intros op e Hin He. split; [done|].
  eapply held_finished; [exact Hok|exact He|]. pose proof (selected_in _ _ _ _ _ Hids Hin He) as Ht.
  unfold is_reapable in Ht. apply andb_true_iff in Ht as [Ht _]. by apply bool_decide_eq_true in Ht.
Qed.

Lemma abort_turns ops r operation_ids :
  serves ops r -> operation_ids ≡ₚ selected is_network r -> turns None r (abort_bounded_work operation_ids r).
Proof.
  intros (Hr & Hok & _) Hids. apply turns_quietly; [|apply abort_adds].
  eapply (handles_waiting (fun _ _ => True)), (abort_handled _ operation_ids ops ∅); [done|].
  intros op e Hin He. split; [done|]. pose proof (selected_in _ _ _ _ _ Hids Hin He) as Ht.
  by apply bool_decide_eq_true in Ht.
Qed.

Lemma stop_turns operation_id r r0 :
  waiting (rn_port r) ⊆+ waiting (rn_port r0) -> rn_entries r = rn_entries r0 -> turns None r0 (stop operation_id r).
Proof using laws.
  intros Hw He. split; [|by apply adds_same]. unfold stop. cbn [rn_port with_port set_rn_port option_list app].
  by rewrite dropped_waiting, emit_waiting.
Qed.

Lemma serving_turns r phase r' :
  LoopStep shell_split Serving r phase r' -> serves [] r -> exists taken, turns taken r r'.
Proof using laws.
  intros Hstep Hs. inversion Hstep as [message messages r0 r1 Hrecv Hsteps Hawaited|others command lane r0 Hm Hrecv
    |command lane r0 started r1 Hm Hc Hactive Hrecv Hstart|command lane r0 Hm Hc Hmut Hrecv
    |operation_ids r0 Hm Hc Hmut Hw Hids| | | | | | | |]; subst.
  - exists None. by eapply message_turns.
  - exists (Some command). eapply taken_turns; [by rewrite (control_waiting _ _ _ Hrecv)| |].
    + eapply handled_waiting; [apply Hs|]. intros r1 Hr1. by apply (control_command_handled _ others command [] ∅ false).
    + eapply adds_after; [apply received_entries|apply handle_control_adds].
  - exists (Some command). by eapply mutation_turns.
  - exists (Some command). eapply taken_turns; [exact (work_waiting _ _ _ Hrecv)| |].
    + eapply handled_waiting; [apply Hs|]. intros r1 Hr1. by apply (work_handled _ shell_split command [] ∅ false).
    + eapply adds_after; [apply received_entries|apply work_adds].
  - exists None. destruct (reap_turns [] _ _ Hs Hids) as [Hq Ha]. split; [exact Hq|]. eapply adds_trans; [exact Ha|refused].
Qed.

Lemma draining_turns operation_id overdue r phase r' :
  LoopStep shell_split (Draining operation_id overdue) r phase r' -> serves [operation_id] r -> turns None r r'.
Proof using laws.
  intros Hstep Hs. inversion Hstep; subst.
  - by eapply message_turns.
  - by eapply reap_turns.
  - apply turns_quietly; [done|refused].
  - by eapply abort_turns.
  - by apply stop_turns.
Qed.

Lemma refused_turns command summary r p :
  waiting (rn_port r) ≡ₚ command :: waiting p ->
  turns (Some command) r
    (emit (failure_for_unavailable command summary) (set_rn_started (with_port r p) (rn_started r ++ [cmd_operation_id command]))).
Proof. intros Hw. eapply taken_turns; [exact Hw|by rewrite emit_waiting|refused]. Qed.

Lemma unavailable_turns summary r phase r' :
  LoopStep shell_split (Unavailable summary) r phase r' -> exists taken, turns taken r r'.
Proof using laws.
  intros Hstep. inversion Hstep; subst; exists (Some command); apply refused_turns.
  - by erewrite control_waiting.
  - by apply mutation_waiting.
  - by apply work_waiting.
Qed.

(** ** The runtime's own steps *)

(** All steps of the runtime's system but those of the interface. *)
Inductive Internal : System -> System -> Prop :=
| internal_task sys r :
    TaskStep (sm_runtime sys) r ->
    Internal sys {| sm_phase := sm_phase sys; sm_ui_gone := sm_ui_gone sys; sm_runtime := r |}
| internal_loop sys phase r :
    (watches_signal (sm_phase sys) = true -> shutdown_signal sys = None) ->
    LoopStep shell_split (sm_phase sys) (sm_runtime sys) phase r ->
    Internal sys {| sm_phase := phase; sm_ui_gone := sm_ui_gone sys; sm_runtime := r |}
| internal_shutdown sys operation_id :
    sm_phase sys = Serving -> shutdown_signal sys = Some operation_id ->
    Internal sys {| sm_phase := Draining operation_id false; sm_ui_gone := sm_ui_gone sys;
                    sm_runtime := start_shutdown operation_id (sm_runtime sys) |}
| internal_stops sys summary operation_id :
    sm_phase sys = Unavailable summary -> shutdown_signal sys = Some operation_id ->
    Internal sys {| sm_phase := Stopped; sm_ui_gone := sm_ui_gone sys;
                    sm_runtime :=
                      stop operation_id (set_rn_started
                        (with_port (sm_runtime sys) (close_and_drain (rn_port (sm_runtime sys))))
                        (rn_started (sm_runtime sys) ++ [operation_id])) |}.

Lemma internal_step sys sys' : Internal sys sys' -> Step shell_split sys sys'.
Proof. destruct 1; [by apply step_task|by apply step_loop|by apply step_shutdown|by eapply step_unavailable_stops]. Qed.

Lemma internal_turns sys sys' :
  system_ok sys -> Internal sys sys' -> exists taken, turns taken (sm_runtime sys) (sm_runtime sys').
Proof using laws.
  intros [Hr Hok Hl _] Hstep.
  assert (Hs : serves (phase_ops (sm_phase sys)) (sm_runtime sys)) by done.
  destruct Hstep as [sys r Htask|sys phase r _ Hloop|sys op Hphase _|sys summary op Hphase _]; cbn [sm_runtime].
  - exists None. destruct (task_frame _ _ Htask) as (_ & Hp & _). apply turns_quietly; [by rewrite Hp|by apply task_adds].
  - destruct (sm_phase sys) as [|op overdue|summary|]; [by eapply serving_turns|exists None; by eapply draining_turns
      |by eapply unavailable_turns|inversion Hloop].
  - exists None. unfold start_shutdown, cancel_all.
    pose proof (cancel_waiters_spec (fun _ _ => True) (fun _ => true) (set_rn_started
      (with_port (sm_runtime sys) (close_and_drain (rn_port (sm_runtime sys)))) (rn_started (sm_runtime sys) ++ [op]))) as H.
    destruct (cancel_waiters _ _) as [targets r1]. destruct H as ((He & _) & _ & Hm).
    split; [|by apply adds_same]. specialize (Hm [] ∅ [] ∅ false).
    pose proof (moves_lanes _ _ _ Hm) as Hlanes. cbn [snd option_list app] in *. rewrite (waiting_lanes _ _ Hlanes). cbn.
    rewrite closed_waiting. apply submseteq_nil_l.
  - exists None. apply stop_turns; [|done]. cbn. rewrite closed_waiting. apply submseteq_nil_l.
Qed.

(** At most one task is begun, the one of the command that was taken. *)
Lemma turns_begun taken r r' :
  turns taken r r' -> exists commands, Forall2 (starts shell_split) commands (tasks_begun r r') /\
    commands ++ waiting (rn_port r') ⊆+ waiting (rn_port r).
Proof.
  intros [Hw Ha].
  assert (Hhit : forall x body, x ∈ entry_list r' -> begun_task r x = Some body -> by_command taken x.1 body).
  { intros [op e] body He%elem_of_map_to_list Hb. cbn in Hb |- *.
    destruct (is_command_body _) eqn:Hc; [|done]. destruct (decide _) as [|Hnew]; [done|]. injection Hb as <-.
    destruct (Ha op e He) as [(e0 & He0 & _ & Htoken)|Hok]; [|by apply Hok]. destruct Hnew. by rewrite He0, Htoken. }
  destruct taken as [command|].
  - destruct (omap_one_key (begun_task r) (starts shell_split command) (cmd_operation_id command) (entry_list r'))
      as [Hnil|(body & Hone & Hstarts)].
    + apply NoDup_fst_map_to_list.
    + intros x body Hx Hb. destruct (Hhit x body Hx Hb) as (c & [= <-] & Hop & Hst). done.
    + exists []. unfold tasks_begun. rewrite Hnil. split; [constructor|]. etrans; [|exact Hw]. by apply submseteq_cons.
    + exists [command]. unfold tasks_begun. rewrite Hone. split; [by repeat constructor|exact Hw].
  - exists []. unfold tasks_begun. rewrite omap_none; [by split|]. intros x Hx.
    destruct (begun_task r x) as [body|] eqn:Hb; [|done]. by destruct (Hhit x body Hx Hb) as (c & ? & _).
Qed.

(** ** What the application adds to the queues *)

(** At most one command, which is allowed. *)
Definition offers (allowed : UiCommand -> Prop) (p q : Ports) : Prop :=
  exists sent, (forall command, sent = Some command -> allowed command) /\ waiting q ⊆+ option_list sent ++ waiting p.

Lemma offers_nothing allowed p q : (forall lane, lane_queue q lane = lane_queue p lane) -> offers allowed p q.
Proof. intros H. exists None. split; [done|]. by rewrite (waiting_lanes _ _ H). Qed.

Lemma control_lane_added p lane command :
  queued lane = queued (po_control p) ++ [command] -> waiting (set_control p lane) ≡ₚ command :: waiting p.
Proof. intros H. unfold waiting. cbn. rewrite H, <- app_assoc. symmetry. apply Permutation_middle. Qed.

Lemma mutation_lane_added p lane command :
  queued lane = queued (po_mutation p) ++ [command] -> waiting (set_mutation p lane) ≡ₚ command :: waiting p.
Proof.
  intros H. unfold waiting. cbn. rewrite H, <- app_assoc, (app_assoc (queued (po_control p))). cbn.
  rewrite <- Permutation_middle. by rewrite app_assoc.
Qed.

Lemma work_lane_added p lane command :
  queued lane = queued (po_work p) ++ [command] -> waiting (set_work p lane) ≡ₚ command :: waiting p.
Proof. intros H. unfold waiting. cbn. rewrite H, !app_assoc. symmetry. apply Permutation_cons_append. Qed.

Lemma offers_sent (allowed : UiCommand -> Prop) command p q :
  allowed command -> waiting q ≡ₚ command :: waiting p -> offers allowed p q.
Proof. intros Hok Hq. exists (Some command). split; [by intros ? [= <-]|]. by rewrite Hq. Qed.

Lemma lane_send_queued lane command :
  let '(sent, lane') := lane_send lane command in
  queued lane' = queued lane ++ (if sent is Ok _ then [command] else []).
Proof using laws.
  unfold lane_send. pose proof (try_send_queued command lane) as Hq. destruct (try_send command lane) as [[u|e] lane'];
    exact Hq.
Qed.

Lemma submit_offers (allowed : UiCommand -> Prop) command p : allowed command -> offers allowed p (try_submit command p).2.
Proof using laws.
  intros Hok. unfold try_submit. destruct (cmd_lane command).
  - pose proof (lane_send_queued (po_work p) command) as Hq. destruct (lane_send _ _) as [[u|e] lane]; cbn in Hq.
    + eapply offers_sent; [exact Hok|by apply work_lane_added].
    + apply offers_nothing. rewrite app_nil_r in Hq. by intros [].
  - pose proof (lane_send_queued (po_mutation p) command) as Hq. destruct (lane_send _ _) as [[u|e] lane]; cbn in Hq.
    + eapply offers_sent; [exact Hok|by apply mutation_lane_added].
    + apply offers_nothing. rewrite app_nil_r in Hq. by intros [].
  - destruct (control_key command); [|by apply offers_nothing]. destruct (po_keys_poisoned p); [by apply offers_nothing|].
    destruct (decide _); [by apply offers_nothing|]. cbn [set_keys po_control].
    pose proof (lane_send_queued (po_control p) command) as Hq. destruct (lane_send _ _) as [[u|e] lane]; cbn in Hq.
    + eapply offers_sent; [exact Hok|exact (control_lane_added p lane command Hq)].
    + apply offers_nothing. rewrite app_nil_r in Hq. by intros [].
  - destruct command; try (by apply offers_nothing). destruct (po_shutdown_gone p); apply offers_nothing; by intros [].
Qed.

Lemma reserved_lane p result q :
  try_reserve_mutation p = (result, q) ->
  exists lane, q = set_mutation p lane /\ queued lane = queued (po_mutation p) /\ (result = Ok tt -> reserved lane <> 0).
Proof using laws.
  unfold try_reserve_mutation. destruct (refused (po_mutation p)) as [e|] eqn:He.
  - rewrite (try_reserve_refused _ _ e He). intros [= <- <-]. eauto.
  - destruct (try_reserve_done _ (po_mutation p) He) as (lane & -> & Hq & Hres & _). intros [= <- <-].
    exists lane. split_and!; [done|done|]. intros _. lia.
Qed.

Lemma effect_offers allowed p q : port_effect allowed p q -> offers allowed p q.
Proof using laws.
  destruct 1 as [|command Hok|command q Hok Hr|error q Hr|q Hr]; [by apply offers_nothing|by apply submit_offers|..];
    destruct (reserved_lane _ _ _ Hr) as (lane & -> & Hq & Hres).
  - unfold permit_submit. cbn [po_mutation set_mutation]. destruct (bool_decide _); cbn.
    + destruct (permit_sent _ command lane (Hres eq_refl)) as [Hq' _].
      eapply offers_sent; [exact Hok|]. apply (mutation_lane_added p). by rewrite Hq', Hq.
    + destruct (permit_dropped _ lane (Hres eq_refl)) as [Hq' _]. apply offers_nothing. intros []; cbn; congruence.
  - apply offers_nothing. by intros [].
  - unfold withdraw_permit. cbn. destruct (permit_dropped _ lane (Hres eq_refl)) as [Hq' _]. apply offers_nothing.
    intros []; cbn; congruence.
Qed.

Lemma drained_lanes limit p lane : lane_queue (drain_events limit p).2 lane = lane_queue p lane.
Proof.
  revert p. induction limit as [|limit IH]; intros p; [done|]. cbn.
  destruct (try_recv (po_events p)) as [[event|] events]; [|by destruct lane].
  specialize (IH (set_events p events)). destruct (drain_events limit _) as [rest p']. cbn in *. rewrite IH. by destruct lane.
Qed.

(** ** Runs of the program *)

Definition press : Type := App * AppAction.

(** An action of the user accounts for at most one command, which it asks for. *)
Definition answers_press (pressed : press) (sent : option UiCommand) : Prop :=
  forall command, sent = Some command -> asked pressed.1 pressed.2 command.

Definition dangerous (commands : list UiCommand) : list UiCommand := filter (fun command => ~ background command) commands.

Lemma dangerous_mono l l' : l ⊆+ l' -> dangerous l ⊆+ dangerous l'.
Proof.
  intros [k Hk]%submseteq_Permutation. unfold dangerous. rewrite Hk, filter_app. by apply submseteq_inserts_r.
Qed.

Lemma dangerous_app l l' : dangerous (l ++ l') = dangerous l ++ dangerous l'.
Proof. apply filter_app. Qed.

Context (desktop : Desktop).

Definition with_system_port (sys : System) (p : Ports) : System :=
  {| sm_phase := sm_phase sys; sm_ui_gone := sm_ui_gone sys; sm_runtime := with_port (sm_runtime sys) p |}.

(** The application is started on the ports of a runtime that starts. *)
Definition program_started (sys : System) : App * System :=
  let a := App_new (rn_port (sm_runtime sys)) in (a, with_system_port sys (ap_port a)).

(** The window is closed: the application is dropped and the shutdown is requested. *)
Definition window_closed (sys : System) : System :=
  let sys := with_system_port sys (request_shutdown (rn_port (sm_runtime sys))).2 in
  {| sm_phase := sm_phase sys; sm_ui_gone := true; sm_runtime := sm_runtime sys |}.

(** The application and the runtime on the ports they share, with the actions of the user
    and the tasks of commands that were begun. *)
Inductive Runs : list press -> list TaskBody -> App * System -> Prop :=
| runs_start sys : Initial sys -> Runs [] [] (program_started sys)
| runs_act action presses begun a sys :
    Runs presses begun (a, sys) -> sm_ui_gone sys = false ->
    Runs (presses ++ [(a, action)]) begun
      (app_action desktop a action, with_system_port sys (ap_port (app_action desktop a action)))
| runs_poll presses begun a sys :
    Runs presses begun (a, sys) -> sm_ui_gone sys = false ->
    Runs presses begun (poll_events a, with_system_port sys (ap_port (poll_events a)))
| runs_runtime sys' presses begun a sys :
    Runs presses begun (a, sys) -> Internal sys sys' ->
    Runs presses (begun ++ tasks_begun (sm_runtime sys) (sm_runtime sys'))
      (set_ap_port a (rn_port (sm_runtime sys')), sys')
| runs_close presses begun a sys :
    Runs presses begun (a, sys) -> sm_ui_gone sys = false ->
    Runs presses begun (set_ap_port a (rn_port (sm_runtime (window_closed sys))), window_closed sys).

Lemma port_steps sys p :
  sm_ui_gone sys = false -> rtc PortStep (rn_port (sm_runtime sys)) p ->
  rtc (Step shell_split) sys (with_system_port sys p).
Proof.
  intros Hgone Hsteps. remember (rn_port (sm_runtime sys)) as q eqn:Hq. revert sys Hgone Hq.
  induction Hsteps as [q|q r p Hstep _ IH]; intros sys Hgone ->.
  - by destruct sys as [? ? []].
  - eapply rtc_l; [by apply (step_port shell_split sys r)|].
    specialize (IH (with_system_port sys r) Hgone eq_refl). unfold with_system_port in *. cbn in *. by rewrite Hgone in *.
Qed.

Lemma reached_steps sys sys' : rtc (Step shell_split) sys sys' -> Reached shell_split sys -> Reached shell_split sys'.
Proof. intros Hs (start & Hinit & H). exists start. split; [done|]. by etrans. Qed.

(** The start of the application is one submission. *)
Lemma started_port p : ap_port (App_new p) = (try_submit (CmdRefreshProfiles 1) p).2.
Proof.
  unfold App_new. cbn [ap_next_operation next_operation]. unfold ap_submit.
  change (ap_port (set_ap_model ?x ?m)) with (ap_port x). cbn [ap_port App_initial].
  cbn [ap_model App_initial UiModel_default um_next_operation_id].
  by destruct (try_submit (CmdRefreshProfiles 1) p) as [r q].
Qed.

(** The application is an environment that the runtime is verified for: the runtime beside
    it is one of those the theorems on the runtime are about, on the same ports. *)
Lemma runs_reached presses begun a sys :
  Runs presses begun (a, sys) -> Reached shell_split sys /\ ap_port a = rn_port (sm_runtime sys).
Proof.
  remember (a, sys) as x eqn:Hx. intros Hruns. revert a sys Hx.
  induction Hruns as [sys0 Hinit|action presses begun a0 sys0 _ IH Hgone|presses begun a0 sys0 _ IH Hgone
    |sys1 presses begun a0 sys0 _ IH Hstep|presses begun a0 sys0 _ IH Hgone]; intros a sys [= <- <-];
    try destruct (IH a0 sys0 eq_refl) as [Hr Hp]; (split; [|done]).
  - eapply reached_steps; [|exists sys0; by split]. apply port_steps; [by destruct Hinit|].
    rewrite started_port. apply rtc_once, ui_submits.
  - eapply reached_steps; [|exact Hr]. apply port_steps; [done|]. rewrite <- Hp. eapply effect_steps, action_effect.
  - eapply reached_steps; [|exact Hr]. apply port_steps; [done|]. rewrite <- Hp. apply poll_steps.
  - eapply reached_steps; [|exact Hr]. by apply rtc_once, internal_step.
  - eapply reached_steps; [|exact Hr]. etrans; [|apply rtc_once, step_ui_dropped].
    apply (port_steps sys0); [done|]. apply rtc_once, ui_requests_shutdown.
Qed.

(** What the tasks of a run, and the commands that still wait, come from. *)
Definition traced (presses : list press) (begun : list TaskBody) (p : Ports) : Prop :=
  exists sent commands,
    Forall2 answers_press presses sent /\ Forall2 (starts shell_split) commands begun /\
    dangerous (commands ++ waiting p) ⊆+ omap id sent.

Lemma traced_less presses begun p q :
  (forall commands, dangerous (commands ++ waiting q) ⊆+ dangerous (commands ++ waiting p)) ->
  traced presses begun p -> traced presses begun q.
Proof. intros H (sent & commands & Hsent & Hbegun & Hd). exists sent, commands. split_and!; [done|done|]. etrans; [apply H|exact Hd]. Qed.

Lemma background_offered p q :
  offers background p q -> forall commands, dangerous (commands ++ waiting q) ⊆+ dangerous (commands ++ waiting p).
Proof.
  intros (o & Hok & Hw) commands. rewrite !dangerous_app. apply submseteq_app; [done|].
  etrans; [by apply dangerous_mono|]. rewrite dangerous_app. destruct o as [command|]; [|done].
  assert (dangerous [command] = []) as H; [|change (option_list (Some command)) with [command]; by rewrite H].
  unfold dangerous. rewrite filter_cons_False; [done|]. intros H. by apply H, Hok.
Qed.

Lemma traced_background presses begun p q :
  rtc (port_effect background) p q -> traced presses begun p -> traced presses begun q.
Proof using laws.
  induction 1 as [p|p q r Hstep _ IH]; [done|]. intros H. apply IH. revert H. apply traced_less.
  by apply background_offered, effect_offers.
Qed.

Lemma traced_act presses begun a action q :
  port_effect (asked a action) (ap_port a) q -> traced presses begun (ap_port a) ->
  traced (presses ++ [(a, action)]) begun q.
Proof using laws.
  intros (o & Hok & Hw)%effect_offers (sent & commands & Hsent & Hbegun & Hd). exists (sent ++ [o]), commands.
  split_and!; [apply Forall2_app; [done|by constructor; [exact Hok|]]|done|].
  rewrite omap_app, dangerous_app in *. trans (option_list o ++ dangerous commands ++ dangerous (waiting (ap_port a))).
  - rewrite (Permutation_app_swap_app (option_list o)). apply submseteq_app; [done|]. etrans; [by apply dangerous_mono|].
    rewrite dangerous_app. apply submseteq_app; [|done]. destruct o as [command|]; [|done].
    change (option_list (Some command)) with [command]. unfold dangerous. rewrite filter_cons.
    destruct (decide _); [done|apply submseteq_nil_l].
  - rewrite (Permutation_app_comm (omap id sent)). apply submseteq_app; [by destruct o|exact Hd].
Qed.

Lemma traced_turn presses begun r r' taken :
  turns taken r r' -> traced presses begun (rn_port r) -> traced presses (begun ++ tasks_begun r r') (rn_port r').
Proof.
  intros (new & Hnew & Hw)%turns_begun (sent & commands & Hsent & Hbegun & Hd). exists sent, (commands ++ new).
  split_and!; [done|by apply Forall2_app|]. etrans; [|exact Hd]. apply dangerous_mono. rewrite <- app_assoc.
  by apply submseteq_app.
Qed.

Lemma start_traced sys : Initial sys -> traced [] [] (rn_port (sm_runtime (program_started sys).2)).
Proof using laws.
  intros Hinit. change (traced [] [] (ap_port (App_new (rn_port (sm_runtime sys))))). rewrite started_port.
  apply (traced_background [] [] (rn_port (sm_runtime sys))); [by apply one_effect, pe_sent|].
  exists [], []. split_and!; [constructor..|]. cbn.
  assert (waiting (rn_port (sm_runtime sys)) = []) as ->; [|done].
  destruct Hinit; unfold waiting; cbn; by rewrite !(proj1 (channel_new _ _)).
Qed.

(** C3: whatever runs was asked for. Start the application on the runtime and let the user's actions, the polling of events, the runtime's loop, its tasks - finishing or panicking - and the closing of the window interleave in any order. Then the runtime is one that its own transition system reaches, on the very ports the application holds, so that the theorems on the runtime apply to it. Every task that was begun is the task of a command, with the text, limits, profile and request that the command carries. And those commands that were begun or still wait in a queue and are not mere loading, connecting or browsing are, counted with repetition, at most one for each action of the user, and the one that this action asks for: a statement the action's own Execute, with its text and limits, under the profile's current generation; a deletion the one that was confirmed; a credential as it was typed; a profile the form's Save; a draft test or a disconnect its own button (for an export or a cancellation: some action of its own). So no retry, recovery, event, reload or panic runs one of them again, and one press runs its statement at most once. *)
Theorem whatever_runs_was_asked presses begun a sys :
  Runs presses begun (a, sys) ->
  Reached shell_split sys /\ ap_port a = rn_port (sm_runtime sys) /\
  exists sent commands,
    Forall2 answers_press presses sent /\ Forall2 (starts shell_split) commands begun /\
    dangerous (commands ++ waiting (ap_port a)) ⊆+ omap id sent.
Proof using laws.
  intros Hruns. destruct (runs_reached _ _ _ _ Hruns) as [Hr Hp]. split_and!; [done|done|].
  cut (traced presses begun (ap_port a)); [done|]. rewrite Hp. clear Hr Hp. remember (a, sys) as x eqn:Hx.
  revert a sys Hx. induction Hruns as [sys0 Hinit|action presses begun a0 sys0 Hruns IH Hgone
    |presses begun a0 sys0 Hruns IH Hgone|sys1 presses begun a0 sys0 Hruns IH Hstep|presses begun a0 sys0 Hruns IH Hgone];
    intros a sys [= <- <-]; try (pose proof (IH a0 sys0 eq_refl) as Ht);
    try destruct (runs_reached _ _ _ _ Hruns) as [Hr Hp]; cbn [sm_runtime rn_port with_port with_system_port set_rn_port].
  - by apply start_traced.
  - rewrite <- Hp in Ht. by apply (traced_act _ _ _ _ _ (action_effect desktop a0 action)).
  - rewrite <- Hp in Ht. apply (traced_background _ _ _ _ (poll_effect a0)). revert Ht. apply traced_less. intros commands.
    by rewrite (waiting_lanes _ _ (drained_lanes EVENT_DRAIN_LIMIT (ap_port a0))).
  - destruct (internal_turns _ _ (reached_system_ok _ _ Hr) Hstep) as [taken Hturn]. by eapply traced_turn.
  - revert Ht. apply traced_less. intros commands. cbn. unfold request_shutdown.
    by destruct (po_shutdown_gone (rn_port (sm_runtime sys0))).
Qed.
End program.

(** ** A program at work: a draft is tested *)

Definition plain_desktop : Desktop :=
  {| dk_choose_destination := fun _ _ => None; dk_reveal_file := fun _ => false;
     dk_symlink_metadata := fun _ => Err NotFound; dk_confirm_replace := fun _ => Err ConfirmationRequired |}.

Abbreviation Program := (App (T := queues) * System (T := queues))%type (only parsing).

Definition acts (action : AppAction) (x : Program) : Program :=
  let a := app_action plain_desktop x.1 action in (a, with_system_port x.2 (ap_port a)).

Definition begun_of (x y : Program) : list TaskBody := tasks_begun (sm_runtime x.2) (sm_runtime y.2).

(** The loop takes the first command of the lane of mutations, or of the one of work. *)
Definition mutation_turn (x : Program) : Program :=
  let r := sm_runtime x.2 in
  match try_recv (po_mutation (rn_port r)) with
  | (Some command, lane) =>
      let '(started, r') := start_mutation command (received command (with_port r (set_mutation (rn_port r) lane))) in
      let r' := set_rn_mutation_active r' started in
      (set_ap_port x.1 (rn_port r'), {| sm_phase := Serving; sm_ui_gone := sm_ui_gone x.2; sm_runtime := r' |})
  | _ => x
  end.

Definition work_turn (x : Program) : Program :=
  let r := sm_runtime x.2 in
  match try_recv (po_work (rn_port r)) with
  | (Some command, lane) =>
      let r' := handle_work no_words command (received command (with_port r (set_work (rn_port r) lane))) in
      (set_ap_port x.1 (rn_port r'), {| sm_phase := Serving; sm_ui_gone := sm_ui_gone x.2; sm_runtime := r' |})
  | _ => x
  end.

Definition command_waits (lane : mpsc UiCommand) : bool :=
  match (try_recv lane).1 with Some _ => true | None => false end.

(** The loop serves, and nothing waits that it would take first. *)
Definition loop_ready (x : Program) : Prop :=
  sm_phase x.2 = Serving /\ shutdown_signal x.2 = None /\ nothing_left (rn_messages (sm_runtime x.2)) /\
  nothing_left (po_control (rn_port (sm_runtime x.2))).

Lemma loop_turn presses begun (x : Program) r :
  Runs no_words plain_desktop presses begun x -> sm_phase x.2 = Serving -> shutdown_signal x.2 = None ->
  LoopStep no_words Serving (sm_runtime x.2) Serving r ->
  Runs no_words plain_desktop presses (begun ++ tasks_begun (sm_runtime x.2) r)
    (set_ap_port x.1 (rn_port r), {| sm_phase := Serving; sm_ui_gone := sm_ui_gone x.2; sm_runtime := r |}).
Proof.
  intros Hruns Hphase Hsignal Hstep. destruct x as [a sys].
  apply (runs_runtime no_words plain_desktop {| sm_phase := Serving; sm_ui_gone := sm_ui_gone sys; sm_runtime := r |});
    [exact Hruns|]. apply internal_loop; [done|]. cbn in Hphase. by rewrite Hphase.
Qed.

Lemma mutation_turn_runs presses begun x :
  Runs no_words plain_desktop presses begun x -> loop_ready x -> rn_mutation_active (sm_runtime x.2) = false ->
  command_waits (po_mutation (rn_port (sm_runtime x.2))) = true ->
  Runs no_words plain_desktop presses (begun ++ begun_of x (mutation_turn x)) (mutation_turn x).
Proof.
  intros Hruns (Hphase & Hsignal & Hm & Hc) Hactive Hwaits. unfold command_waits in Hwaits. unfold begun_of, mutation_turn.
  destruct (try_recv (po_mutation _)) as [[command|] lane] eqn:Hrecv; [|done].
  destruct (start_mutation command _) as [started r] eqn:Hstart. apply loop_turn; [done..|]. by eapply serves_mutation.
Qed.

Lemma work_turn_runs presses begun x :
  Runs no_words plain_desktop presses begun x -> loop_ready x -> rn_mutation_active (sm_runtime x.2) = true ->
  command_waits (po_work (rn_port (sm_runtime x.2))) = true ->
  Runs no_words plain_desktop presses (begun ++ begun_of x (work_turn x)) (work_turn x).
Proof.
  intros Hruns (Hphase & Hsignal & Hm & Hc) Hactive Hwaits. unfold command_waits in Hwaits. unfold begun_of, work_turn.
  destruct (try_recv (po_work _)) as [[command|] lane] eqn:Hrecv; [|done]. apply loop_turn; [done..|].
  apply serves_work; [done|done|by left|done].
Qed.

Definition opened : Program := program_started (system_at Serving (initial_runtime sample_service)).
Definition added : Program := acts (ActNewProfile Redis) opened.
Definition named : Program := acts (ActFormInput (InputName (lit "cache"))) added.
Definition test_action : AppAction := ActForm (fun _ => None) None ActionTestDraft.
Definition tested : Program := acts test_action named.
Definition loading : Program := mutation_turn tested.
Definition testing : Program := work_turn loading.

Definition test_presses : list press :=
  [(opened.1, ActNewProfile Redis); (added.1, ActFormInput (InputName (lit "cache"))); (named.1, test_action)].

Lemma act_runs action presses begun (x : Program) :
  Runs no_words plain_desktop presses begun x -> sm_ui_gone x.2 = false ->
  Runs no_words plain_desktop (presses ++ [(x.1, action)]) begun (acts action x).
Proof. destruct x as [a sys]. apply runs_act. Qed.

Lemma testing_runs : Runs no_words plain_desktop test_presses (begun_of tested loading ++ begun_of loading testing)
  (testing.1, testing.2).
Proof.
  rewrite <- surjective_pairing. assert (Runs no_words plain_desktop test_presses [] tested) as H.
  { apply (act_runs test_action [_; _] [] named); [|vm_compute; reflexivity].
    apply (act_runs _ [_] [] added); [|vm_compute; reflexivity].
    apply (act_runs _ [] [] opened); [|vm_compute; reflexivity].
    apply (runs_start no_words plain_desktop _ (initial_serving sample_service)). }
  apply work_turn_runs; [|split_and!; vm_compute; reflexivity|vm_compute; reflexivity|vm_compute; reflexivity].
  apply (mutation_turn_runs _ [] tested H); [split_and!; vm_compute; reflexivity|vm_compute; reflexivity|vm_compute; reflexivity].
Qed.

(** The profiles are loaded and the draft is tested, because its button was pressed. *)
Lemma whatever_runs_was_asked_witness :
  ap_port testing.1 = rn_port (sm_runtime testing.2) /\
  (exists intent, begun_of tested loading ++ begun_of loading testing =
     [BodyMutation (CmdRefreshProfiles 1); BodyDraft (DraftIntent intent)]) /\
  exists sent commands,
    Forall2 answers_press test_presses sent /\
    Forall2 (starts no_words) commands (begun_of tested loading ++ begun_of loading testing) /\
    dangerous (commands ++ waiting (ap_port testing.1)) ⊆+ omap id sent.
Proof.
  destruct (whatever_runs_was_asked no_words plain_desktop test_presses _ testing.1 testing.2 testing_runs) as (_ & Hp & H).
  split_and!; [exact Hp| |exact H]. eexists. vm_compute. reflexivity.
Defined.
