(* ===== verification/AppSafety.v ===== *)
(** * What the application remembers (theorems on App, AppCommands and AppEvents)

    The registry of retries is bounded and keeps the newest; nothing outlives its profile;
    a deletion that did not happen gives the connection its operation back; and one way in
    which the credential prompt loses its retry. *)

From S2P Require Import Prelude RustStr Model Secrets Config ConfigWriter Drivers Service PublicError RedisBrowser.
From S2P Require Import MysqlExplorer ProfileForm UiModel RedisExplorer RuntimeEvents DraftTests Tokio CommandPorts.
From S2P Require Import Editor ExportFiles App AppCommands AppEvents.

(** ** The registry of retries *)

Record registry_ok (g : RetryRecipeRegistry) : Prop := {
  go_nodup : NoDup (rr_order g);
  go_order recipe_id : recipe_id ∈ rr_order g <-> is_Some (rr_recipes g !! recipe_id);
  go_bound : length (rr_order g) <= RETRY_RECIPE_LIMIT;
}.

Lemma registry_default_ok : registry_ok registry_default.
Proof.
  split; cbn; [constructor| |unfold RETRY_RECIPE_LIMIT; lia]. intros recipe_id. rewrite lookup_empty, elem_of_nil.
  split; [done|by intros []].
Qed.

Lemma limit_positive : 1 <= RETRY_RECIPE_LIMIT.
Proof. unfold RETRY_RECIPE_LIMIT. lia. Qed.

#[local] Opaque RETRY_RECIPE_LIMIT.

Lemma filter_length_le {A} (P : A -> Prop) `{forall x, Decision (P x)} (l : list A) : length (filter P l) <= length l.
Proof. apply length_filter. Qed.

Lemma registry_take_ok g recipe_id : registry_ok g -> registry_ok (registry_take g recipe_id).2.
Proof.
  intros [H1 H2 H3]. split; cbn.
  - by apply NoDup_filter.
  - intros id. rewrite list_elem_of_filter, H2, lookup_delete_is_Some. naive_solver.
  - pose proof (filter_length_le (fun existing => existing <> recipe_id) (rr_order g)). lia.
Qed.

Lemma retain_current_ok g generations : registry_ok g -> registry_ok (retain_current g generations).
Proof.
  intros [H1 H2 H3]. unfold retain_current. cbv zeta.
  match goal with |- context [@filter ?A ?B ?i ?P ?d (rr_recipes g)] => set (recipes := @filter A B i P d (rr_recipes g)) end.
  split; cbn.
  - by apply NoDup_filter.
  - intros id. rewrite list_elem_of_filter, H2. split; [by intros []|]. intros Hid. split; [done|].
    destruct Hid as [recipe Hrecipe]. subst recipes. apply map_lookup_filter_Some in Hrecipe as [Hrecipe _]. eauto.
  - etrans; [apply filter_length_le|done].
Qed.

(** The entries that are expired are the oldest ones, as many as there are too many. *)
Lemma expire_spec fuel g :
  NoDup (rr_order g) -> (forall id, id ∈ rr_order g <-> is_Some (rr_recipes g !! id)) ->
  length (rr_order g) <= fuel ->
  let extra := length (rr_order g) - RETRY_RECIPE_LIMIT in
  rr_order (expire fuel g) = drop extra (rr_order g) /\
  forall id, rr_recipes (expire fuel g) !! id
    = if decide (id ∈ take extra (rr_order g)) then None else rr_recipes g !! id.
Proof.
  revert g. induction fuel as [|fuel IH]; intros g Hnd Hin Hfuel; cbv zeta.
  - destruct (rr_order g) as [|x order] eqn:Eo; [|cbn in Hfuel; lia]. cbn. rewrite Eo. split; [done|]. intros id.
    by rewrite decide_False by (intros []%elem_of_nil).
  - cbn [expire]. destruct (rr_order g) as [|expired order] eqn:Eo.
    { cbn. rewrite Eo. split; [done|]. intros id. by rewrite decide_False by (intros []%elem_of_nil). }
    destruct (RETRY_RECIPE_LIMIT <? length (expired :: order)) eqn:E.
    + apply Nat.ltb_lt in E. apply NoDup_cons in Hnd as [Hnot Hnd].
      destruct (IH {| rr_recipes := delete expired (rr_recipes g); rr_order := order |}) as [Ho Hr]; cbn.
      * done.
      * intros id. rewrite lookup_delete_is_Some, <- Hin, elem_of_cons. set_solver.
      * cbn in Hfuel. lia.
      * cbn [rr_order rr_recipes length] in *. rewrite Ho. set (k := length order - RETRY_RECIPE_LIMIT) in *.
        assert (S (length order) - RETRY_RECIPE_LIMIT = S k) as Hk by lia. rewrite Hk. split; [done|].
        intros id. rewrite Hr. cbn [take]. destruct (decide (id = expired)) as [->|Hne].
        { rewrite (decide_True (P := expired ∈ expired :: _)) by set_solver. rewrite lookup_delete_eq. by destruct (decide _). }
        rewrite lookup_delete_ne by done. destruct (decide (id ∈ take k order)) as [H|H].
        -- by rewrite decide_True by set_solver.
        -- by rewrite decide_False by set_solver.
    + apply Nat.ltb_ge in E. replace (length (expired :: order) - RETRY_RECIPE_LIMIT) with 0 by lia. cbn.
      rewrite Eo. split; [done|]. intros id. by rewrite decide_False by (intros []%elem_of_nil).
Qed.

Lemma filter_absent (id : N) (l : list N) : id ∉ l -> filter (fun existing => existing <> id) l = l.
Proof.
  induction l as [|x l IH]; [done|]. intros [Hx Hl]%not_elem_of_cons. rewrite filter_cons_True by congruence.
  by rewrite IH.
Qed.

(** The order a registration starts from: without an earlier entry of the same operation. *)
Lemma register_order g operation_id :
  registry_ok g ->
  (if bool_decide (is_Some (rr_recipes g !! operation_id))
   then filter (fun existing => existing <> operation_id) (rr_order g) else rr_order g)
  = filter (fun existing => existing <> operation_id) (rr_order g).
Proof.
  intros [_ Hin _]. case_bool_decide as H; [done|]. symmetry. apply filter_absent. by rewrite Hin.
Qed.

Lemma elem_of_parts (k : nat) (l : list N) id : id ∈ l <-> id ∈ take k l \/ id ∈ drop k l.
Proof. by rewrite <- elem_of_app, take_drop. Qed.

(** The entries that stay are the ones that are not among the first. *)
Lemma nodup_parts (k : nat) (l : list N) :
  NoDup l -> NoDup (drop k l) /\ forall id, id ∈ drop k l <-> id ∈ l /\ id ∉ take k l.
Proof.
  intros Hnd. rewrite <- (take_drop k l) in Hnd. apply NoDup_app in Hnd as (_ & Hdisj & Hd).
  split; [done|]. intros id. rewrite (elem_of_parts k l). naive_solver.
Qed.

(** Which recipes a registration expires: the oldest other one, when there are too many. *)
Definition expired_by (g : RetryRecipeRegistry) (operation_id : OperationId) : list N :=
  let kept := filter (fun existing => existing <> operation_id) (rr_order g) in
  take (S (length kept) - RETRY_RECIPE_LIMIT) kept.

(** What a registration makes of a registry. *)
Lemma register_spec g operation_id recipe :
  registry_ok g ->
  let g' := register g operation_id recipe in
  registry_ok g' /\ rr_recipes g' !! operation_id = Some recipe /\ last (rr_order g') = Some operation_id /\
  length (expired_by g operation_id) <= 1 /\
  forall other, other <> operation_id ->
    rr_recipes g' !! other = if decide (other ∈ expired_by g operation_id) then None else rr_recipes g !! other.
Proof.
  intros Hok. unfold register, expired_by. rewrite (register_order g operation_id Hok).
  pose proof Hok as [Hnd Hin Hbound]. set (kept := filter _ (rr_order g)). cbv zeta.
  set (g0 := {| rr_recipes := <[operation_id := recipe]> (rr_recipes g); rr_order := kept ++ [operation_id] |}).
  assert (length kept <= RETRY_RECIPE_LIMIT) as Hlen.
  { etrans; [|exact Hbound]. apply filter_length_le. }
  assert (operation_id ∉ kept) as Hnot by (subst kept; rewrite list_elem_of_filter; naive_solver).
  assert (NoDup kept) as Hndk by (by apply NoDup_filter).
  destruct (expire_spec (length (rr_order g0)) g0) as [Ho Hr].
  - cbn. apply NoDup_app. split; [done|]. split; [set_solver|apply NoDup_singleton].
  - intros id. cbn. rewrite lookup_insert_is_Some', <- Hin, elem_of_app, list_elem_of_singleton. subst kept.
    rewrite list_elem_of_filter. destruct (decide (id = operation_id)); naive_solver.
  - done.
  - assert (length (rr_order g0) = S (length kept)) as Hl by (cbn; rewrite length_app; cbn; lia).
    pose proof limit_positive. rewrite Hl in Ho, Hr. rewrite Hl. cbn [rr_order rr_recipes g0] in Ho, Hr.
    set (k := S (length kept) - RETRY_RECIPE_LIMIT) in *. rewrite drop_app_le in Ho by lia.
    assert (forall id, (id ∈ take k (kept ++ [operation_id])) = (id ∈ take k kept)) as Htake
      by (intros id; by rewrite take_app_le by lia).
    assert (forall id, rr_recipes (expire (S (length kept)) g0) !! id
      = if decide (id ∈ take k kept) then None else <[operation_id := recipe]> (rr_recipes g) !! id) as Hr'.
    { intros id. rewrite Hr. apply decide_ext. by rewrite Htake. }
    assert (operation_id ∉ take k kept) as Hnt by (intros H'; apply Hnot, (elem_of_parts k); by left).
    destruct (nodup_parts k kept Hndk) as [Hndd Hrest].
    split_and!.
    + split.
      * rewrite Ho. apply NoDup_app. split_and!; [done| |apply NoDup_singleton].
        intros x [Hx _]%Hrest ->%list_elem_of_singleton. done.
      * intros id. rewrite Ho, elem_of_app, list_elem_of_singleton, Hr', Hrest.
        destruct (decide (id ∈ take k kept)) as [Ht|Ht].
        { split; [|by intros []]. intros [[]| ->]; done. }
        destruct (decide (id = operation_id)) as [->|Hne].
        { rewrite lookup_insert_eq. split; [by eexists|by right]. }
        rewrite lookup_insert_ne, <- Hin by done. subst kept. rewrite list_elem_of_filter. naive_solver.
      * rewrite Ho, length_app, length_drop. cbn. lia.
    + by rewrite Hr', decide_False, lookup_insert_eq.
    + by rewrite Ho, last_snoc.
    + rewrite length_take. lia.
    + intros other Hne. by rewrite Hr', lookup_insert_ne.
Qed.

(** The registry of retries is bounded and keeps the newest. In every registry that is built by registering, taking, pruning and clearing, the order lists each recipe once and there are at most 64. Registering one makes it available and last, whatever was registered for that operation before; every other recipe stays as it was, except that the oldest is given up when there would be more than 64. *)
Theorem registry_keeps_newest g operation_id recipe :
  registry_ok g ->
  let g' := register g operation_id recipe in
  registry_ok g' /\ rr_recipes g' !! operation_id = Some recipe /\ last (rr_order g') = Some operation_id /\
  length (expired_by g operation_id) <= 1 /\
  forall other, other <> operation_id ->
    rr_recipes g' !! other = if decide (other ∈ expired_by g operation_id) then None else rr_recipes g !! other.
Proof. apply register_spec. Qed.

Section app.
Context `{T : Tokio}.

(** ** After a poll *)

(** What pruning and telling leave alone. *)
Lemma prune_prompt_frame a :
  ap_model (prune_credential_prompt a) = ap_model a /\ ap_redis (prune_credential_prompt a) = ap_redis a /\
  ap_visible (prune_credential_prompt a) = ap_visible a /\ ap_mysql (prune_credential_prompt a) = ap_mysql a /\
  ap_active (prune_credential_prompt a) = ap_active a /\ ap_deletes (prune_credential_prompt a) = ap_deletes a.
Proof.
  unfold prune_credential_prompt, cancel_credential_prompt.
  destruct (ap_prompt a) as [prompt|]; [|by repeat split].
  destruct (bool_decide _); [by repeat split|]. destruct (pm_retry_recipe_id prompt); by repeat split.
Qed.

(** A prompt that is kept is current; the recipes are the same or one fewer. *)
Lemma prune_prompt_kept a :
  (forall prompt, ap_prompt (prune_credential_prompt a) = Some prompt ->
     ap_generation a (pm_profile_id prompt) = Some (pm_profile_generation prompt)) /\
  (forall recipe_id recipe, rr_recipes (ap_recipes (prune_credential_prompt a)) !! recipe_id = Some recipe ->
     rr_recipes (ap_recipes a) !! recipe_id = Some recipe).
Proof.
  unfold prune_credential_prompt, cancel_credential_prompt.
  destruct (ap_prompt a) as [prompt|] eqn:E; [|split; [by rewrite E|done]].
  destruct (bool_decide_reflect (ap_generation a (pm_profile_id prompt) = Some (pm_profile_generation prompt))) as [H|_].
  - rewrite E. split; [by intros ? [= <-]|done].
  - destruct (pm_retry_recipe_id prompt); cbn; (split; [done|]); [|done]. intros id recipe H.
    by apply lookup_delete_Some in H as [_ H].
Qed.

Lemma prune_redis_frame a :
  ap_model (prune_redis_explorers a) = ap_model a /\ ap_mysql (prune_redis_explorers a) = ap_mysql a.
Proof.
  unfold prune_redis_explorers. destruct (ap_uncertain a); [by split|]. cbv zeta.
  destruct (ap_visible _); [destruct (bool_decide _)|]; by split.
Qed.

(** The parts that belong to a profile belong to its current generation. *)
Definition operations_current (a : App) : Prop :=
  (forall profile_id active, ap_active a !! profile_id = Some active ->
     ap_generation a profile_id = Some (ao_profile_generation active)) /\
  (forall profile_id pending, ap_deletes a !! profile_id = Some pending ->
     ap_generation a profile_id = Some (pd_profile_generation pending)) /\
  (forall recipe_id recipe, rr_recipes (ap_recipes a) !! recipe_id = Some recipe ->
     ap_generation a (recipe_profile_id recipe) = Some (recipe_profile_generation recipe)) /\
  (forall prompt, ap_prompt a = Some prompt ->
     ap_generation a (pm_profile_id prompt) = Some (pm_profile_generation prompt)).

Definition explorers_current (a : App) : Prop :=
  (forall key explorer, ap_redis a !! key = Some explorer ->
     ap_generation a key.1 = Some key.2 /\ ap_uncertain a = false) /\
  (forall key, ap_visible a = Some key -> is_Some (ap_redis a !! key)) /\
  (forall key explorer, ap_mysql a !! key = Some explorer -> ap_generation a key.1 = Some key.2).

Lemma retained_recipe g generations recipe_id recipe :
  rr_recipes (retain_current g generations) !! recipe_id = Some recipe ->
  generations !! recipe_profile_id recipe = Some (recipe_profile_generation recipe).
Proof. intros H. apply map_lookup_filter_Some in H. apply H. Qed.

Lemma prune_active_current a : operations_current (prune_active_operations a).
Proof.
  unfold prune_active_operations. set (b := retain_operations a).
  destruct (prune_prompt_frame b) as (Hm & _ & _ & _ & Ha & Hd). destruct (prune_prompt_kept b) as [Hp Hr].
  assert (forall id, ap_generation (prune_credential_prompt b) id = ap_generation a id) as Hg
    by (intros id; unfold ap_generation; by rewrite Hm).
  unfold operations_current. rewrite Ha, Hd. split_and!.
  - intros id active H. rewrite Hg. apply map_lookup_filter_Some in H. apply H.
  - intros id pending H. rewrite Hg. apply map_lookup_filter_Some in H. apply H.
  - intros id recipe H%Hr. rewrite Hg. by apply (retained_recipe (ap_recipes a) _ id).
  - intros prompt H. rewrite Hg. by apply Hp.
Qed.

Lemma prune_redis_current a :
  let a' := prune_redis_explorers a in
  (forall key explorer, ap_redis a' !! key = Some explorer -> ap_generation a key.1 = Some key.2 /\ ap_uncertain a = false) /\
  (forall key, ap_visible a' = Some key -> is_Some (ap_redis a' !! key)).
Proof.
  unfold prune_redis_explorers. destruct (ap_uncertain a) eqn:Hu.
  { split; cbn; [|done]. intros key explorer. by rewrite lookup_empty. }
  assert (forall key explorer, filter (fun entry : WorkspaceKey * RedisExplorer => ap_generation a entry.1.1 = Some entry.1.2)
    (ap_redis a) !! key = Some explorer -> ap_generation a key.1 = Some key.2 /\ false = false) as Hf.
  { intros key explorer H. apply map_lookup_filter_Some in H. split; [apply H|done]. }
  cbv zeta. change (ap_visible (set_ap_redis a ?m)) with (ap_visible a).
  destruct (ap_visible a) as [key|] eqn:Hv.
  - destruct (bool_decide_reflect (is_Some (ap_redis (set_ap_redis a (filter (fun entry : WorkspaceKey * RedisExplorer =>
      ap_generation a entry.1.1 = Some entry.1.2) (ap_redis a))) !! key))) as [H|H].
    + split; [exact Hf|]. cbn. rewrite Hv. by intros ? [= <-].
    + split; [exact Hf|done].
  - split; [exact Hf|]. cbn. by rewrite Hv.
Qed.

(** Both predicates look at a few parts of the state only. *)
Lemma operations_current_frame a a' :
  ap_model a' = ap_model a -> ap_active a' = ap_active a -> ap_deletes a' = ap_deletes a ->
  ap_recipes a' = ap_recipes a -> ap_prompt a' = ap_prompt a -> operations_current a -> operations_current a'.
Proof. intros Hm H1 H2 H3 H4. unfold operations_current, ap_generation. by rewrite Hm, H1, H2, H3, H4. Qed.

Lemma explorers_current_frame a a' :
  ap_model a' = ap_model a -> ap_redis a' = ap_redis a -> ap_visible a' = ap_visible a -> ap_mysql a' = ap_mysql a ->
  explorers_current a -> explorers_current a'.
Proof. intros Hm H1 H2 H3. unfold explorers_current, ap_generation, ap_uncertain. by rewrite Hm, H1, H2, H3. Qed.

Lemma prune_explorers_current a : explorers_current (prune_redis_explorers (prune_mysql_explorers a)).
Proof.
  destruct (prune_redis_current (prune_mysql_explorers a)) as [Hredis Hvisible].
  destruct (prune_redis_frame (prune_mysql_explorers a)) as [Hm Hq].
  unfold explorers_current, ap_generation, ap_uncertain. rewrite Hm, Hq. split_and!; [exact Hredis|exact Hvisible|].
  intros key explorer H. unfold prune_mysql_explorers in H. apply map_lookup_filter_Some in H. apply H.
Qed.

Lemma prune_exports_explorers a : explorers_current a -> explorers_current (prune_result_export_state a).
Proof. apply explorers_current_frame; reflexivity. Qed.

Lemma prune_active_explorers a : explorers_current a -> explorers_current (prune_active_operations a).
Proof.
  unfold prune_active_operations. destruct (prune_prompt_frame (retain_operations a)) as (Hm & Hr & Hv & Hq & _).
  apply explorers_current_frame; [rewrite Hm|rewrite Hr|rewrite Hv|rewrite Hq]; reflexivity.
Qed.

Lemma tell_operations a : operations_current a -> operations_current (tell_dialog (tell_form a)).
Proof. apply operations_current_frame; reflexivity. Qed.

Lemma tell_explorers a : explorers_current a -> explorers_current (tell_dialog (tell_form a)).
Proof. apply explorers_current_frame; reflexivity. Qed.

Lemma tell_uncertain a : ap_uncertain (tell_dialog (tell_form a)) = ap_uncertain a.
Proof. reflexivity. Qed.

Lemma tell_editor a editor :
  ap_editor (tell_dialog (tell_form a)) = Some editor -> pf_config_uncertain editor = ap_uncertain a.
Proof.
  intros H. unfold tell_dialog, tell_form in H. cbn [ap_editor set_ap_confirm set_ap_editor] in H.
  apply fmap_Some in H as (e & _ & ->). unfold set_migration_presentation, set_form_uncertain.
  by destruct (migration_required _), (ap_uncertain a).
Qed.

(** C18: nothing outlives its profile. After every poll, whatever state it started from and whatever events it drained, each operation that a connection is busy with, each pending deletion, each retry, the credential prompt and each explorer belongs to the generation its profile has now; no Redis explorer is kept while the configuration is uncertain, the visible one is one of those that are kept, and the open form knows whether the configuration is certain. *)
Theorem nothing_outlives_its_profile a :
  operations_current (poll_events a) /\ explorers_current (poll_events a) /\
  (forall editor, ap_editor (poll_events a) = Some editor -> pf_config_uncertain editor = ap_uncertain (poll_events a)).
Proof.
  unfold poll_events. destruct (drain_events _ _) as [events port].
  generalize (foldl poll_event (set_ap_port a port) events). clear. intros a. unfold after_events. split_and!.
  - apply tell_operations, prune_active_current.
  - apply tell_explorers, prune_active_explorers, prune_exports_explorers, prune_explorers_current.
  - intros editor H. rewrite tell_uncertain. by apply tell_editor.
Qed.

(** ** The credential prompt and its retry *)

(** Opening the prompt again for the error it was opened for gives up the retry it is meant to run: the retry is taken out of the registry while the prompt goes on naming it, so storing the credential ends with a message instead of a retry. *)
Theorem reopened_prompt_loses_retry a prompt profile_id profile_generation source_operation recipe_id expected :
  ap_prompt a = Some prompt -> pm_retry_recipe_id prompt = Some recipe_id ->
  let a' := open_credential_prompt_for a profile_id profile_generation source_operation (Some recipe_id) in
  um_status (ap_model a') = lit "Enter the protected session credential." ->
  (pm_retry_recipe_id <$> ap_prompt a') = Some (Some recipe_id) /\ rr_recipes (ap_recipes a') !! recipe_id = None /\
  um_status (ap_model (retry_recipe a' recipe_id expected)) = lit "That retry is no longer available.".
Proof.
  intros Hprompt Hretry. unfold open_credential_prompt_for, cancel_credential_prompt.
  destruct (negb _); [done|]. destruct (negb _); [done|]. rewrite Hprompt. cbv zeta. intros _.
  set (a' := set_ap_status _ _).
  assert (ap_prompt a' = Some {| pm_profile_id := profile_id; pm_profile_generation := profile_generation;
    pm_source_operation := source_operation; pm_retry_recipe_id := Some recipe_id; pm_store_operation_id := None;
    pm_secret := []; pm_status := lit "Enter the credential for this app session." |}) as -> by reflexivity.
  assert (rr_recipes (ap_recipes a') !! recipe_id = None) as Hnone.
  { subst a'. rewrite Hretry. cbn. apply lookup_delete_eq. }
  split_and!; [done|exact Hnone|]. unfold retry_recipe, registry_take. rewrite Hnone. reflexivity.
Qed.

(** ** A deletion that fails *)

(** The deletion that is pending, unless it is the operation that was there before. *)
Definition deletion_pending (a : App) (profile_id : ProfileId) (pending : PendingDelete) : Prop :=
  ap_deletes a !! profile_id = Some pending /\
  (forall prior, pd_prior_active pending = Some prior -> ao_operation_id prior <> pd_operation_id pending) /\
  exists active, ap_active a !! profile_id = Some active /\ ao_operation_id active = pd_operation_id pending /\
    ao_kind active = DeleteProfile.

(** What the failure of a deletion leaves the connection busy with. *)
Lemma failed_deletion_active a profile_id pending generation session summary error disposition outcome :
  deletion_pending a profile_id pending ->
  ap_active (finish_active_operation a
    (OperationFailed (pd_operation_id pending) profile_id generation session DeleteProfile summary error disposition
       outcome)) !! profile_id
  = if delete_failure_is_known_non_committed summary && negb (pd_prior_finished pending)
       && bool_decide (ap_generation a profile_id = Some (pd_profile_generation pending))
    then pd_prior_active pending else None.
Proof.
  intros (Hdel & Hprior & active & Hactive & Hop & _). cbn [finish_active_operation terminal_of]. unfold end_operation.
  assert (mark_prior_finished (pd_operation_id pending) pending = pending) as Hmark.
  { unfold mark_prior_finished. destruct (pd_prior_active pending) as [prior|] eqn:E; [|done].
    case (N.eqb_spec (ao_operation_id prior) (pd_operation_id pending)) as [He|_]; [|done]. by destruct (Hprior prior). }
  set (a1 := set_ap_deletes a _).
  assert (ap_deletes a1 !! profile_id = Some pending) as Hdel1.
  { change (ap_deletes a1) with (alter (mark_prior_finished (pd_operation_id pending)) profile_id (ap_deletes a)).
    rewrite lookup_alter_eq, Hdel. cbn. by rewrite Hmark. }
  unfold failed_delete. rewrite Hdel1. cbn [mbind option_bind]. rewrite N.eqb_refl. unfold end_failed_delete, remove_active.
  change (ap_active (set_ap_deletes a1 ?m)) with (ap_active a). rewrite Hactive, Hop, N.eqb_refl.
  destruct (pd_prior_active pending) as [prior|].
  - change (ap_generation (set_ap_active ?x ?m) profile_id) with (ap_generation a profile_id).
    destruct (_ && _ && _); cbn; [apply lookup_insert_eq|apply lookup_delete_eq].
  - cbn. rewrite lookup_delete_eq. by destruct (_ && _ && _).
Qed.

(** While a deletion is pending the connection is busy with it, so the end of the Redis request that was there before is ignored and never noted in the pending deletion: when the deletion then fails without having happened, the connection is given back an operation that has already ended. *)
Theorem redis_end_lost_during_delete a profile_id pending event identity kind session
    generation session' summary error disposition outcome :
  deletion_pending a profile_id pending -> pd_prior_finished pending = false ->
  ap_generation a profile_id = Some (pd_profile_generation pending) ->
  redis_resource_event_identity event = Some (identity, kind, session) -> ri_profile_id identity = profile_id ->
  delete_failure_is_known_non_committed summary = true ->
  poll_event a event = a /\
  ap_active (finish_active_operation (poll_event a event)
    (OperationFailed (pd_operation_id pending) profile_id generation session' DeleteProfile summary error disposition
       outcome)) !! profile_id = pd_prior_active pending.
Proof.
  intros Hpending Hunfinished Hgen Hid Hprofile Hknown.
  assert (poll_event a event = a) as Hsame.
  { unfold poll_event, redis_resource_event_disposition. rewrite Hid, Hprofile.
    assert (is_active a profile_id (ri_operation_id identity) (ri_profile_generation identity) [kind] = false) as Hidle.
    { destruct Hpending as (_ & _ & active & Hactive & _ & Hkind). unfold is_active. rewrite Hactive, Hkind.
      rewrite (bool_decide_eq_false_2 (DeleteProfile ∈ [kind])); [apply andb_false_r|]. intros Hk%list_elem_of_singleton.
      subst kind. by destruct event. }
    rewrite Hidle, orb_true_r. reflexivity. }
  split; [exact Hsame|]. rewrite Hsame, failed_deletion_active by done.
  by rewrite Hknown, Hunfinished, bool_decide_eq_true_2.
Qed.

(** A connection is shown as closing once its deletion was submitted, and the failure of a deletion that surely did not happen does not change that: its card offers Edit and Delete, and nothing to connect or disconnect with. *)
Theorem failed_deletion_stays_closing a profile generation operation_id summary :
  delete_failure_is_known_non_committed summary = true ->
  connection_state (ap_model a) (ps_id profile) = Closing ->
  let failure := failed_profile_event operation_id (ps_id profile) generation None DeleteProfile summary in
  let a' := fold_model a failure in
  connection_state (ap_model a') (ps_id profile) = Closing /\ (card_buttons a' profile).*1 = [CardEdit; CardDelete].
Proof.
  intros Hknown Hclosing. cbv zeta.
  assert (connection_state (ap_model (fold_model a (failed_profile_event operation_id (ps_id profile) generation None
    DeleteProfile summary))) (ps_id profile) = Closing) as H.
  { change (ap_model (fold_model a ?e)) with (fold (ap_model a) e).
    unfold failed_profile_event, failed_profile_event_with_code. cbn [fold].
    assert (connection_outcome_for_summary summary = Preserve) as -> by (by destruct summary).
    unfold fold_operation_failed, fold_failed_kind, apply_outcome. destruct (negb _); [done|].
    destruct (_ && _); exact Hclosing. }
  split; [exact H|]. unfold card_buttons. by rewrite H.
Qed.
End app.

(** A full registry: the recipes of the operations 1 to 64; the 65th expires the first. *)
Definition W_RECIPE : Recipe := RecipeConnect [] 1%N DEFAULT_TIMEOUT_MS.
Definition w_registry : RetryRecipeRegistry :=
  foldl (fun g operation_id => register g operation_id W_RECIPE) registry_default (N.of_nat <$> seq 1 64).

Lemma w_registry_ok : registry_ok w_registry.
Proof.
  unfold w_registry. generalize (N.of_nat <$> seq 1 64). intros ids. generalize registry_default_ok.
  generalize registry_default. induction ids as [|id ids IH]; intros g Hok; [done|]. cbn [foldl]. apply IH.
  by apply register_spec.
Qed.

Lemma registry_keeps_newest_witness :
  registry_ok (register w_registry 65%N W_RECIPE) /\
  rr_recipes (register w_registry 65%N W_RECIPE) !! 65%N = Some W_RECIPE /\
  expired_by w_registry 65%N = [1%N] /\ length (rr_order (register w_registry 65%N W_RECIPE)) = RETRY_RECIPE_LIMIT.
Proof.
  destruct (registry_keeps_newest w_registry 65%N W_RECIPE w_registry_ok) as (H & H' & _).
  split; [exact H|]. split; [exact H'|]. split; vm_compute; reflexivity.
Defined.
